(* ===== verification/_CoqProject ===== *)
-Q . S2P
Prelude.v
Order.v
Worklist.v
Runs.v
Programs.v
RustStr.v
Utf8.v
Floats.v
Text.v
Paths.v
PathBuf.v
FileProbe.v
PackageExports.v
TsConfig.v
JsScanner.v
ModuleAst.v
ModuleFacts.v
References.v
Manifest.v
Diagnostics.v
RenderDetect.v
ModuleGraph.v
Resolver.v
ResolveGraph.v
Router.v
Conflicts.v
Discovery.v
Recency.v
RenderCache.v
TaskGraph.v
Hmr.v
Collab.v
ClientIp.v
WorkerProtocol.v
WorkerIo.v
Worker.v
WorkerPool.v
RateLimit.v
HttpDate.v
Response.v
StaticAssets.v
HtmlDocument.v
I18n.v
Serving.v
DocumentStream.v
RuntimeCache.v
Watcher.v
RenderPipeline.v
DocumentSharing.v
Middleware.v
DepIndex.v
LinkOrder.v
LinkStatements.v
Linker.v
Chunking.v
ActionSecurity.v
SourceMap.v
RouteRules.v
