(* ===== verification/Prelude.v ===== *)
(** * Ruvyxa: a verification of the framework's core

    Ruvyxa is a full-stack React framework whose engine is written in Rust
    (src/crates).  A build walks the [app] directory into a route manifest
    (ruvyxa_graph), bundles modules (ruvyxa_bundler), and a server
    (ruvyxa_dev_server) answers requests: it matches the path, admits or refuses
    the request, renders in a worker process or serves a cached render, and,
    in development, tells browsers what to reload.  ruvyxa_middleware holds what
    server and adapters share, ruvyxa_diagnostics the error values of them all.

    This library models the parts whose logic is the program's own, as
    functions on the data the code has, and proves what makes each correct.

    ** How the parts meet

    The build.  [Discovery] names the routes and [Conflicts] refuses sets of
    them that cannot coexist; what passes is a [Manifest].  [JsScanner] finds the
    strings, comments, templates and JSX of a module's text, [ModuleAst] reads
    imports and facts off what is left ([ModuleFacts] says exactly which),
    [References] its directives and the lane it runs in, [RenderDetect] the
    rendering settings a page exports.
    [FileProbe] and [PackageExports] say which file a specifier is, [TsConfig]
    what an alias stands for; [Resolver] turns the imports of one module into
    files through the shared caches, [ResolveGraph] walks the modules of an
    entry layer by layer, and [ModuleGraph] validates the graph of a route.
    Compiled modules are put in order by [LinkOrder] and joined by [Linker];
    [Chunking] gives dynamic imports files of their own.
    [TaskGraph] decides which artifacts are still valid and [SourceMap] says
    where bundled text came from.

    The server.  [Serving] reads the limits and admits a request.  [Router]
    compiles the manifest into the trie every request is looked up in, after
    [RouteRules] redirected or rewrote it and [I18n] chose a locale.
    The layers of [Middleware] wrap every answer, one of them the limiter of
    [RateLimit], which asks [ClientIp] who the client is, as [ActionSecurity]
    does before an action runs.  [RenderPipeline] makes a page's document by the
    strategy of its route: it asks [RenderCache], whose eviction order is
    [Recency], shares a render under way with those who wait for it, or asks
    the [WorkerPool] for a [Worker], which writes a request of [WorkerProtocol]
    and reads lines through [WorkerIo].  [HtmlDocument] composes what comes
    back, [DocumentStream] does so while it is still arriving, [RuntimeCache]
    keeps the tables and stylesheets it needs, and a [Response] leaves;
    [DocumentSharing] says who may share what.  [StaticAssets] answers for
    files, with the dates of [HttpDate].

    Development.  [Watcher] batches file events and hands each batch to [Hmr],
    which keeps the files each route was built from, to [RenderCache] and to
    the runtime caches.  [Collab] keeps the rooms of connected browsers.

    ** Files, and what each models

    Shared:
    - [Prelude] (this file): machine integers, boolean reflection, list lemmas.
    - [Order]: Rust's [Ord] closures as a class [CmpOrder], the stable sort.
    - [Worklist]: graph closure by a work list, checked on pop or on push; how
      much fuel suffices and that the answer is the reachable set.
    - [Runs]: labelled steps, reachability, invariants and fair schedules.
    - [Programs]: programs whose operations on a shared state take turns, with
      what each relies on and guarantees.
    - [Floats]: f32 and f64 as read from text, and [total_cmp].
    - [RustStr], [Text]: the [str] operations the program uses, on UTF-8 bytes;
      [Utf8]: well-formed text and [from_utf8_lossy].
    - [Paths], [PathBuf]: paths as components and as text, on Unix.
    - [Diagnostics]: ruvyxa_diagnostics/src/lib.rs, [Diagnostic] and its text,
      [label_with_code], [worker_failure_message].

    ruvyxa_graph:
    - [Manifest]: manifest.rs, cache_policy.rs and the defaults of render.rs.
    - [Discovery]: discovery.rs, from folder and file names to URL patterns,
      layout chains and advice on refused names.
    - [Conflicts]: conflicts.rs, its three checks.
    - [RenderDetect]: exports.rs and render.rs on masked text.
    - [ModuleGraph]: graph.rs and validate.rs over a snapshot of the files.

    ruvyxa_bundler:
    - [JsScanner], [ModuleAst], [ModuleFacts]: ast.rs: the scanner, the walk
      that collects facts, and what those facts are.
      [References]: references.rs.
    - [FileProbe], [PackageExports], [TsConfig], [Resolver], [ResolveGraph]:
      resolver.rs, bottom up.
    - [TaskGraph]: task_graph.rs: records, reverse edges, builds, invalidation,
      eviction, saving and loading; [step] interleaves concurrent builders.
    - [SourceMap]: sourcemap.rs.
    - [DepIndex], [LinkOrder], [LinkStatements], [Linker]: linker.rs.  [DepIndex]
      finds the module a specifier means, [LinkOrder] the cycles and the order,
      [LinkStatements] what one statement becomes, and [Linker] passes over
      calls, modules, wrappers, stubs and the bundle.  A linked computation is
      fuel, a value or the linker's error.
    - [Chunking]: chunking.rs: which dynamic imports are split off and the text
      of each file.

    ruvyxa_dev_server:
    - [Router]: router.rs.  The class [RouteMatcher] is the contract; the trie
      and a linear scan are its two instances.
    - [Recency], [RenderCache]: render_cache.rs.  The linked list is a map of
      links as in the code, each [expect] a [None].  A method that takes the
      locks more than once is one definition per critical section, and the
      relation [step] interleaves the sections of any number of requests.
    - [Hmr]: hmr_tracker.rs.  [Collab]: collab.rs.
    - [ActionSecurity]: action_security.rs.
    - [HttpDate], [StaticAssets]: static_assets.rs.  [Response]: response.rs.
    - [WorkerProtocol]: worker_protocol.rs.  [WorkerIo], [Worker], [WorkerPool]:
      worker_pool.rs: its lines and settings; one worker as a relation [step]
      between requests, body streams, the reader and the writer; and the pool,
      where every job that moves a worker is a list of steps others interleave
      with and a dropped future is a step that abandons its job.
    - [HtmlDocument]: html_document.rs.  [DocumentStream]: document_stream.rs.
    - [I18n]: i18n.rs, with qualities compared as f32.
    - [RenderPipeline], [DocumentSharing]: render_pipeline.rs.  A request is a
      program of [Programs]; each of its operations on what requests share is
      one step, and [DocumentSharing] proves what holds over every schedule.
    - [Serving], [RuntimeCache]: lib.rs: configuration, admission and
      shutdown; the generation-stamped slots and the loops that fill them.
    - [Watcher]: watcher.rs and trace.rs.

    ruvyxa_middleware:
    - [ClientIp]: client_ip.rs.  [RouteRules]: route_rules.rs.
    - [RateLimit], [Middleware]: builtin.rs, stack.rs, config.rs.  A layer is a
      function on services that thread the state the layers share.

    ** What the theorems show

    - Equivalence and refinement: the trie answers as a scan over all routes
      that keeps the most specific match; the linked recency list is a list of
      keys, and no [expect] is reached; the render cache is a least-recently
      used map with a time to live; the replay guard is a log of accepted
      requests; a seated client replaying broadcast frames holds the room; the
      resolver's shared caches change no answer; a document that is streamed
      is the one composed whole.
    - Invariants over every interleaving of operations: store and order of the
      cache in step, dependents the exact reverse of dependencies, files-to-
      routes the exact inverse of the recorded lanes, limits of rooms, the
      fingerprint index never answering for a file that changed.
    - Exact answers: when two routes conflict, which records an invalidation
      cancels, which routes an edit reloads, which package export a specifier
      selects, which modules a route's graph holds, what a file request is
      answered, which origin a response names, which imports, environment
      reads and flags a module has, which lines a pipe gives.
    - Safety: masking leaves nothing but code, so no import or directive is
      read out of a string or a comment; the client's lane never holds a server
      module; data in a script element cannot end it; a locale redirect is not
      redirected again; a
      stale acknowledgement never clears a newer claim; eviction never removes what
      is in use; an accepted nonce is not accepted again within its time to
      live; a client cannot forge its address through a trusted proxy; a client
      never gets more than twice its allowance through a window.
    - Termination: the walks over extended configurations, package folders,
      module graphs and text all return, cycles included.
    - Liveness: a call to a worker that died is answered, a program of the
      render pipeline can always be brought to its end, a lookup in a runtime
      cache ends unless edits keep emptying the slot.
    - Round trips: query text, HTTP dates, saved graphs, exported source maps.
    - Linking: the groups of Tarjan's walk are the cycles, modules follow their
      imports, every line of a bundle is attributed to its source line, a pass
      replaces every call that is code on a line and changes nothing else, no outside
      import is lost, and splitting loses no module and runs none twice.
    - Workers: an answer goes to the call that asked, the pool owns every
      process it started but for one stated case, and a shutdown reaches
      all the pool owned when it began.
    - Pages: no document made for one visitor is shared, one render at a time
      is led for a key, a pending revalidation is looked for before a
      document of the build is read, admission keeps its bounds, a lookup
      never answers with what was found before its slot was emptied, and an edit reaches every
      cache of the routes it touches but for one stated case.
    - Behaviours that differ from what the code's own comments promise are
      lemmas and examples beside the component they concern, and are listed as
      findings of the manifest.

    ** Conventions, bounds and fuel

    A Rust [str] is the [string] of its UTF-8 bytes.  [HashMap], [BTreeMap] and
    their sets are [gmap] and [gset]; where the code iterates in key order, the
    model sorts.  Unsigned integers are [N] with saturation, checks or
    wrap-around written out where the code has them; [i64] is [Z].  Where a
    debug build panics on overflow and a release build wraps, a flag [checks]
    selects the build and both are covered.  Instants are nanoseconds.  A panic
    is an outer [None] (or [Panicked]).

    Fuel appears where the recursion is not structural: eviction loops (one
    round per entry), list traversals (one per link), graph closures (one per
    key and edge: the lemmas of [Worklist]), the scanner's walks ([scan_fuel],
    a function of the length), VLQ digits (thirteen of five bits cover 64).
    Each theorem about such a loop states that it returns, so running out is
    excluded, not assumed away.

    Third-party code is a parameter: blake3, serde_json, the address parser,
    the regular-expression engine, brotli and gzip; so are the observations of
    the file system, one function per question the code asks.  What is relied
    on is a named hypothesis, and each theorem with hypotheses has a witness at
    concrete values.

    ** What is not modelled

    Files, sockets, processes and timers are surroundings: what they answer
    is a parameter or any value a step may take.  The transforms of a module
    and the minifier belong to oxc, JSON to serde, hashing to blake3.  The
    axum handlers that dispatch a request and answer the endpoints of the
    framework are glue over the parts above.  The on-disk build caches and
    the ratios that decide when memory is freed, the expansion of glob
    imports against a directory, the environment names and hooks of a build,
    image codecs, the processes of proxy handlers, the command line and the
    terminal interface are mostly input and output.  The sliding-window
    limiter of actions, which counts in f64, is left out. *)
From stdpp Require Export base tactics list gmap sets strings fin_maps sorting.
From Stdlib Require Export ZArith NArith Lia.
From Stdlib Require String.
From Stdlib Require Export Ascii.

(** String append reduces on a literal head, as list append does. *)
#[global] Arguments String.append !s1 s2 : simpl nomatch.

(** ** Machine integers *)

Definition u64_max : N := 18446744073709551615.
Definition u32_max : N := 4294967295.

(** [a.saturating_add(b)] on [u64] *)
Definition sat_add64 (a b : N) : N := N.min u64_max (a + b).
(** [a.saturating_add(b)] on [u32] *)
Definition sat_add32 (a b : N) : N := N.min u32_max (a + b).
(** [a.checked_add(b)] on [u64] *)
Definition checked_add64 (a b : N) : option N :=
  if (a + b <=? u64_max)%N then Some (a + b)%N else None.

(** ** Tactics *)

(** Split a conjunction of boolean tests in the context. *)
Ltac split_andb :=
  repeat match goal with
         | H : andb _ _ = true |- _ => apply andb_true_iff in H; destruct H
         | H : orb _ _ = false |- _ => apply orb_false_iff in H; destruct H
         end.

(** Turn boolean comparisons into propositions. *)
Ltac breflect :=
  repeat match goal with
         | H : Nat.leb _ _ = true |- _ => apply Nat.leb_le in H
         | H : Nat.leb _ _ = false |- _ => apply Nat.leb_gt in H
         | H : Nat.ltb _ _ = true |- _ => apply Nat.ltb_lt in H
         | H : Nat.ltb _ _ = false |- _ => apply Nat.ltb_ge in H
         | H : Nat.eqb _ _ = true |- _ => apply Nat.eqb_eq in H
         | H : Nat.eqb _ _ = false |- _ => apply Nat.eqb_neq in H
         | H : N.leb _ _ = true |- _ => apply N.leb_le in H
         | H : N.leb _ _ = false |- _ => apply N.leb_gt in H
         | H : N.ltb _ _ = true |- _ => apply N.ltb_lt in H
         | H : N.ltb _ _ = false |- _ => apply N.ltb_ge in H
         | H : N.eqb _ _ = true |- _ => apply N.eqb_eq in H
         | H : N.eqb _ _ = false |- _ => apply N.eqb_neq in H
         | H : Z.leb _ _ = true |- _ => apply Z.leb_le in H
         | H : Z.leb _ _ = false |- _ => apply Z.leb_gt in H
         | H : Z.ltb _ _ = true |- _ => apply Z.ltb_lt in H
         | H : Z.ltb _ _ = false |- _ => apply Z.ltb_ge in H
         | H : Z.eqb _ _ = true |- _ => apply Z.eqb_eq in H
         | H : Z.eqb _ _ = false |- _ => apply Z.eqb_neq in H
         end.

(** ** Integers *)

Lemma sat_add64_le a b : (sat_add64 a b <= u64_max)%N.
Proof. unfold sat_add64. lia. Qed.

Lemma sat_add64_mono a b : (a <= u64_max)%N -> (a <= sat_add64 a b)%N.
Proof. unfold sat_add64. lia. Qed.

(** ** Lists *)

(** The first element of a list that [f] answers. *)
Fixpoint find_map {A B} (f : A -> option B) (l : list A) : option B :=
  match l with
  | [] => None
  | x :: l' => match f x with Some y => Some y | None => find_map f l' end
  end.

Lemma find_map_app {A B} (f : A -> option B) l1 l2 :
  find_map f (l1 ++ l2) = match find_map f l1 with Some y => Some y | None => find_map f l2 end.
Proof. induction l1 as [|x l1 IH]; [done|]. simpl. by destruct (f x). Qed.

Lemma find_map_map {A B C} (f : B -> option C) (g : A -> B) l :
  find_map f (g <$> l) = find_map (fun x => f (g x)) l.
Proof. induction l as [|x l IH]; [done|]. simpl. by destruct (f (g x)). Qed.

Lemma find_map_ext {A B} (f g : A -> option B) l :
  (forall x, f x = g x) -> find_map f l = find_map g l.
Proof. intros H. induction l as [|x l IH]; [done|]. simpl. by rewrite H, IH. Qed.

Lemma find_map_Some {A B} (f : A -> option B) l y :
  find_map f l = Some y <->
  exists l1 x l2, l = l1 ++ x :: l2 /\ f x = Some y /\ Forall (fun z => f z = None) l1.
Proof.
  split.
  - induction l as [|x l IH]; simpl; [done|]. destruct (f x) eqn:E.
    + intros [= ->]. by exists [], x, l.
    + intros H. destruct (IH H) as (l1 & z & l2 & -> & Hz & Hl).
      exists (x :: l1), z, l2. by repeat constructor.
  - intros (l1 & x & l2 & -> & Hx & Hl). rewrite find_map_app.
    replace (find_map f l1) with (@None B); [simpl; by rewrite Hx|].
    induction Hl as [|z l1 Hz Hl IH]; [done|]. simpl. by rewrite Hz.
Qed.

Lemma find_map_None {A B} (f : A -> option B) l :
  find_map f l = None <-> Forall (fun x => f x = None) l.
Proof.
  induction l as [|x l IH]; simpl; [by split|]. rewrite Forall_cons.
  destruct (f x); [by split; [|intros [? _]]|]. rewrite IH. by split; [|intros [_ ?]].
Qed.

Lemma filter_nil_iff {A} (P : A -> Prop) `{forall x, Decision (P x)} (l : list A) :
  filter P l = [] <-> forall x, x ∈ l -> ~ P x.
Proof.
  split.
  - intros Hf x Hx HP. assert (x ∈ filter P l) as Hin by by apply list_elem_of_filter.
    rewrite Hf in Hin. by apply elem_of_nil in Hin.
  - intros Hn. destruct (filter P l) as [|x l'] eqn:E; [done|]. exfalso.
    assert (x ∈ filter P l) as Hin by (rewrite E; set_solver).
    apply list_elem_of_filter in Hin as [HP Hx]. by apply (Hn x).
Qed.

Lemma filter_ext_Forall {A} (P Q : A -> Prop) `{forall x, Decision (P x), forall x, Decision (Q x)} (l : list A) :
  Forall (fun x => P x <-> Q x) l -> filter P l = filter Q l.
Proof.
  induction 1 as [|x l Hx Hl IH]; [done|]. rewrite !filter_cons, IH.
  destruct (decide (P x)), (decide (Q x)); tauto.
Qed.

(** Filtering an image is filtering by the composed predicate. *)
Lemma filter_list_fmap {A B} (f : A -> B) (P : B -> Prop) `{!forall y, Decision (P y)} (l : list A) :
  filter P (f <$> l) = f <$> filter (fun x => P (f x)) l.
Proof.
  induction l as [|x l IH]; [done|]. rewrite fmap_cons, !filter_cons.
  destruct (decide (P (f x))); [rewrite fmap_cons|]; by rewrite IH.
Qed.

Lemma filter_id {A} (P : A -> Prop) `{!forall x, Decision (P x)} (l : list A) : Forall P l -> filter P l = l.
Proof. induction 1 as [|x l Hx Hl IH]; [done|]. rewrite filter_cons_True by done. by rewrite IH. Qed.

Lemma omap_ext_in {A B} (f g : A -> option B) (l : list A) : (forall x, x ∈ l -> f x = g x) -> omap f l = omap g l.
Proof.
  intros H. induction l as [|x l IH]; [done|]. cbn [omap list_omap]. rewrite H by by left.
  rewrite IH by (intros y Hy; apply H; by right). done.
Qed.
