(* ===== verification/Order.v ===== *)
(** Comparisons as total preorders, and the stable sort of [slice::sort_by].

    A Rust [Ord] or [sort_by] closure is a function to [comparison].  The class
    [CmpOrder] is what [sort_by] asks of it; the instances build the orders the
    program uses (numbers, strings, lexicographic lists and pairs, keys). *)
From S2P Require Import Prelude.

(** ** Definitions *)

Class CmpOrder {A} (cmp : A -> A -> comparison) : Prop := {
  cmp_antisym : forall x y, cmp y x = CompOpp (cmp x y);
  cmp_le_trans : forall x y z, cmp x y <> Gt -> cmp y z <> Gt -> cmp x z <> Gt;
}.

Arguments cmp_antisym {A} cmp {_} x y.
Arguments cmp_le_trans {A} cmp {_} x y z.

(** [a.then(b)] on [Ordering] *)
Definition then_cmp (a b : comparison) : comparison :=
  match a with Eq => b | c => c end.

Definition by_key {A B} (f : A -> B) (cmp : B -> B -> comparison) (x y : A) : comparison :=
  cmp (f x) (f y).

Definition lex_cmp {A} (c1 c2 : A -> A -> comparison) (x y : A) : comparison :=
  then_cmp (c1 x y) (c2 x y).

Fixpoint list_cmp {A} (cmp : A -> A -> comparison) (a b : list A) : comparison :=
  match a, b with
  | [], [] => Eq
  | [], _ :: _ => Lt
  | _ :: _, [] => Gt
  | x :: a', y :: b' => then_cmp (cmp x y) (list_cmp cmp a' b')
  end.

Section sort.
Context {A : Type} (cmp : A -> A -> comparison).

(** Insertion after the elements that are smaller, before the equal ones: an
    element keeps its place among equals when the list is sorted from the right. *)
Fixpoint insert_sorted (x : A) (l : list A) : list A :=
  match l with
  | [] => [x]
  | y :: l' => match cmp x y with
               | Gt => y :: insert_sorted x l'
               | _ => x :: l
               end
  end.

(** [l.sort_by(cmp)]: the stable sort. *)
Fixpoint sort_by (l : list A) : list A :=
  match l with
  | [] => []
  | x :: l' => insert_sorted x (sort_by l')
  end.

(** [max_by]: the last of the greatest. *)
Fixpoint max_from (best : A) (l : list A) : A :=
  match l with
  | [] => best
  | x :: l' => max_from (match cmp best x with Gt => best | _ => x end) l'
  end.
Definition max_by (l : list A) : option A := match l with [] => None | x :: l' => Some (max_from x l') end.

(** [l.dedup_by(same)]: drops an element equal to its predecessor kept. *)
Fixpoint dedup_by (same : A -> A -> bool) (l : list A) : list A :=
  match l with
  | [] => []
  | x :: l' => x :: match dedup_by same l' with
                    | [] => []
                    | y :: rest => if same x y then rest else y :: rest
                    end
  end.
End sort.

(** ** Lemmas *)

Section order.
Context {A : Type} {cmp : A -> A -> comparison} `{!CmpOrder cmp}.

Lemma max_from_spec l : forall best,
  max_from cmp best l ∈ best :: l /\ forall x, x ∈ best :: l -> cmp x (max_from cmp best l) <> Gt.
Proof.
  assert (forall x, cmp x x <> Gt) as Hrefl.
  { intros x H. pose proof (cmp_antisym cmp x x) as Ha. by rewrite H in Ha. }
  induction l as [|y l IH]; intros best; cbn [max_from].
  { split; [by left|]. by intros x ->%list_elem_of_singleton. }
  destruct (IH (match cmp best y with Gt => best | _ => y end)) as [H1 H2]. split; [destruct (cmp best y); set_solver|].
  assert (cmp best (match cmp best y with Gt => best | _ => y end) <> Gt /\
    cmp y (match cmp best y with Gt => best | _ => y end) <> Gt) as [Hb Hy].
  { destruct (cmp best y) eqn:E; split; try done; try congruence; [..]. rewrite (cmp_antisym cmp best y), E. done. }
  intros x [->|[->|Hx]%elem_of_cons]%elem_of_cons.
  - eapply (cmp_le_trans cmp); [exact Hb|]. apply H2. by left.
  - eapply (cmp_le_trans cmp); [exact Hy|]. apply H2. by left.
  - apply H2. by right.
Qed.

Lemma max_by_spec l x : max_by cmp l = Some x -> x ∈ l /\ forall y, y ∈ l -> cmp y x <> Gt.
Proof. destruct l as [|z l]; cbn; [done|]. intros [= <-]. apply max_from_spec. Qed.

Lemma cmp_refl x : cmp x x = Eq.
Proof. pose proof (cmp_antisym cmp x x) as H. by destruct (cmp x x). Qed.

Lemma cmp_gt x y : cmp x y = Gt <-> cmp y x = Lt.
Proof. rewrite (cmp_antisym cmp x y). by destruct (cmp x y). Qed.

Lemma cmp_lt_le_trans x y z : cmp x y = Lt -> cmp y z <> Gt -> cmp x z = Lt.
Proof.
  intros H1 H2. apply cmp_gt. destruct (cmp z x) eqn:E; [|exfalso|done].
  - exfalso. apply (cmp_le_trans cmp y z x H2); [by rewrite E|]. by apply cmp_gt.
  - apply (cmp_le_trans cmp y z x H2); [by rewrite E|]. by apply cmp_gt.
Qed.

Lemma cmp_le_lt_trans x y z : cmp x y <> Gt -> cmp y z = Lt -> cmp x z = Lt.
Proof.
  intros H1 H2. apply cmp_gt. destruct (cmp z x) eqn:E; [|exfalso|done].
  - exfalso. apply (cmp_le_trans cmp z x y); [by rewrite E|done|]. by apply cmp_gt.
  - apply (cmp_le_trans cmp z x y); [by rewrite E|done|]. by apply cmp_gt.
Qed.

Lemma cmp_eq_l x y z : cmp x y = Eq -> cmp x z = cmp y z.
Proof.
  intros H. assert (cmp y x = Eq) as H' by (rewrite (cmp_antisym cmp x y), H; done).
  destruct (cmp y z) eqn:E.
  - destruct (cmp x z) eqn:E'; [done|exfalso|exfalso].
    + assert (cmp y z = Lt) by (apply (cmp_le_lt_trans y x z); congruence). congruence.
    + by apply (cmp_le_trans cmp x y z); congruence.
  - apply (cmp_le_lt_trans x y z); congruence.
  - apply cmp_gt. apply cmp_gt in E. apply (cmp_lt_le_trans z y x); congruence.
Qed.

Lemma cmp_eq_r x y z : cmp x y = Eq -> cmp z x = cmp z y.
Proof. intros H. rewrite (cmp_antisym cmp x z), (cmp_antisym cmp y z). f_equal. by apply cmp_eq_l. Qed.

Lemma insert_sorted_perm x l : insert_sorted cmp x l ≡ₚ x :: l.
Proof.
  induction l as [|y l IH]; simpl; [done|].
  destruct (cmp x y); [done|done|]. rewrite IH. by apply perm_swap.
Qed.

Lemma sort_by_perm l : sort_by cmp l ≡ₚ l.
Proof. induction l as [|x l IH]; simpl; [done|]. by rewrite insert_sorted_perm, IH. Qed.

Definition cmp_le (x y : A) : Prop := cmp x y <> Gt.

Lemma insert_sorted_sorted x l : StronglySorted cmp_le l -> StronglySorted cmp_le (insert_sorted cmp x l).
Proof.
  induction l as [|y l IH]; intros Hs; simpl; [by repeat constructor|].
  apply StronglySorted_cons in Hs as [Hy Hs].
  assert (cmp x y <> Gt -> StronglySorted cmp_le (x :: y :: l)) as Hle.
  { intros Hxy. apply StronglySorted_cons. split; [|by apply StronglySorted_cons].
    constructor; [done|]. eapply Forall_impl; [exact Hy|]. intros z Hz.
    by apply (cmp_le_trans cmp x y z). }
  destruct (cmp x y) eqn:E; [by apply Hle|by apply Hle|].
  apply StronglySorted_cons. split; [|by apply IH].
  rewrite insert_sorted_perm. constructor; [|done].
  unfold cmp_le. apply cmp_gt in E. by rewrite E.
Qed.

Lemma sort_by_sorted l : StronglySorted cmp_le (sort_by cmp l).
Proof. induction l as [|x l IH]; simpl; [constructor|]. by apply insert_sorted_sorted. Qed.

(** Sorting a sorted list changes nothing. *)
Lemma sort_by_id l : StronglySorted cmp_le l -> sort_by cmp l = l.
Proof.
  induction l as [|x l IH]; intros Hs; [done|]. apply StronglySorted_cons in Hs as [Hx Hs].
  simpl. rewrite IH by done. destruct l as [|y l]; [done|]. simpl.
  apply Forall_cons in Hx as [Hx _]. unfold cmp_le in Hx. by destruct (cmp x y).
Qed.

(** The head of a sorted list is a least element. *)
Lemma sort_by_head_least l x :
  head (sort_by cmp l) = Some x -> x ∈ l /\ forall y, y ∈ l -> cmp x y <> Gt.
Proof.
  pose proof (sort_by_perm l) as Hp. pose proof (sort_by_sorted l) as Hs.
  destruct (sort_by cmp l) as [|z l'] eqn:E; [done|]. intros [= ->]. split.
  - rewrite <- Hp. set_solver.
  - intros y Hy. rewrite <- Hp in Hy. apply StronglySorted_cons in Hs as [Hx _].
    apply elem_of_cons in Hy as [->|Hy]; [by rewrite cmp_refl|].
    rewrite Forall_forall in Hx. by apply Hx.
Qed.
End order.
Arguments cmp_refl {A} cmp {_} x.
Arguments cmp_gt {A} cmp {_} x y.
Arguments cmp_lt_le_trans {A} cmp {_} x y z.
Arguments cmp_le_lt_trans {A} cmp {_} x y z.
Arguments cmp_eq_l {A} cmp {_} x y z.
Arguments cmp_eq_r {A} cmp {_} x y z.

Lemma dedup_by_head {A} (same : A -> A -> bool) l : head (dedup_by same l) = head l.
Proof. by destruct l. Qed.

(** *** Instances *)

#[export] Instance N_cmp_order : CmpOrder N.compare.
Proof. split; [apply N.compare_antisym|intros x y z; rewrite !N.compare_le_iff; lia]. Qed.

#[export] Instance nat_cmp_order : CmpOrder Nat.compare.
Proof. split; [apply Nat.compare_antisym|intros x y z; rewrite !Nat.compare_le_iff; lia]. Qed.

#[export] Instance by_key_order {A B} (f : A -> B) cmp : CmpOrder cmp -> CmpOrder (by_key f cmp).
Proof. intros H. split; unfold by_key; [intros; apply (cmp_antisym cmp)|intros x y z; apply (cmp_le_trans cmp)]. Qed.

#[export] Instance ascii_cmp_order : CmpOrder Ascii.compare.
Proof.
  split; unfold Ascii.compare; [intros; apply N.compare_antisym|].
  intros x y z. rewrite !N.compare_le_iff. lia.
Qed.

#[export] Instance lex_cmp_order {A} (c1 c2 : A -> A -> comparison) :
  CmpOrder c1 -> CmpOrder c2 -> CmpOrder (lex_cmp c1 c2).
Proof.
  intros H1 H2. split; unfold lex_cmp.
  - intros x y. rewrite (cmp_antisym c1 x y), (cmp_antisym c2 x y). by destruct (c1 x y).
  - intros x y z Hxy Hyz.
    destruct (c1 x y) eqn:E1; simpl in Hxy; [| |done].
    + rewrite (cmp_eq_l c1 x y z E1). destruct (c1 y z); simpl in *; [|done|done].
      by apply (cmp_le_trans c2 x y z).
    + rewrite (cmp_lt_le_trans c1 x y z); [done|done|]. by destruct (c1 y z).
Qed.

#[export] Instance list_cmp_order {A} (cmp : A -> A -> comparison) : CmpOrder cmp -> CmpOrder (list_cmp cmp).
Proof.
  intros H. split.
  - intros x. induction x as [|a x IH]; intros [|b y]; simpl; try done.
    rewrite (cmp_antisym cmp a b), (IH y). by destruct (cmp a b).
  - intros x. induction x as [|a x IH]; intros [|b y] [|c z]; simpl; try done. intros Hxy Hyz.
    destruct (cmp a b) eqn:E; simpl in Hxy; [| |done].
    + rewrite (cmp_eq_l cmp a b c E). destruct (cmp b c); simpl in *; [|done|done]. by apply (IH y z).
    + rewrite (cmp_lt_le_trans cmp a b c); [done|done|]. by destruct (cmp b c).
Qed.

Lemma string_compare_list a b :
  String.compare a b =
  list_cmp Ascii.compare (String.list_ascii_of_string a) (String.list_ascii_of_string b).
Proof.
  revert b. induction a as [|x a IH]; intros [|y b]; simpl; try done.
  rewrite IH. by destruct (Ascii.compare x y).
Qed.

#[export] Instance string_cmp_order : CmpOrder String.compare.
Proof.
  split.
  - intros x y. rewrite !string_compare_list. apply (cmp_antisym (list_cmp Ascii.compare)).
  - intros x y z. rewrite !string_compare_list. apply (cmp_le_trans (list_cmp Ascii.compare)).
Qed.

(** A comparison whose [Eq] is equality, as a derived [Ord] is. *)
Class CmpEq {A} (cmp : A -> A -> comparison) : Prop := cmp_eq_eq : forall x y, cmp x y = Eq -> x = y.
Arguments cmp_eq_eq {A} cmp {_} x y.

(** Sorting then only depends on the elements, not on the order they came in. *)
Lemma sort_by_unique {A} (cmp : A -> A -> comparison) `{!CmpOrder cmp} `{!CmpEq cmp} l l' :
  l ≡ₚ l' -> sort_by cmp l = sort_by cmp l'.
Proof.
  intros Hp. apply (StronglySorted_unique_strong (cmp_le (cmp := cmp))).
  - intros x y _ _ Hxy Hyx. apply (cmp_eq_eq cmp). unfold cmp_le in *.
    destruct (cmp x y) eqn:E; [done| |done]. apply (cmp_gt cmp) in E. by rewrite E in Hyx.
  - apply sort_by_sorted.
  - apply sort_by_sorted.
  - rewrite !sort_by_perm. done.
Qed.

#[export] Instance string_cmp_eq : CmpEq String.compare.
Proof. intros x y. apply String.compare_eq_iff. Qed.

#[export] Instance nat_cmp_eq : CmpEq Nat.compare.
Proof. intros x y. apply Nat.compare_eq. Qed.

#[export] Instance N_cmp_eq : CmpEq N.compare.
Proof. intros x y. apply N.compare_eq. Qed.
