(* ===== verification/Worklist.v ===== *)
(** Graph closures by a work list, in the two forms the program writes them: a
    node checked when it is taken from the queue ([invalidate] of the task
    graph), and a node checked when it is put there ([protected_artifacts],
    [save], the module graph of the update tracker).  Fuel bounds the number of
    nodes taken from the queue; the lemmas say how much is enough and that the
    answer is the set of reachable nodes. *)
From S2P Require Import Prelude.

(** ** Definitions *)

Section worklist.
Context {K : Type} `{Countable K} (succ : K -> list K).

Definition edge (x y : K) : Prop := y ∈ succ x.

Definition reachable (start : list K) (y : K) : Prop := exists x, x ∈ start /\ rtc edge x y.

(** Check on pop: [if !seen.insert(current) { continue }; queue.extend(..)]. *)
Fixpoint walk_pop (fuel : nat) (queue : list K) (seen : gset K) : option (gset K) :=
  match queue, fuel with
  | [], _ => Some seen
  | _ :: _, O => None
  | x :: queue', S fuel' =>
      if decide (x ∈ seen) then walk_pop fuel' queue' seen
      else walk_pop fuel' (queue' ++ succ x) ({[x]} ∪ seen)
  end.

(** [for y in ys { if seen.insert(y) { queue.push_back(y) } }] *)
Fixpoint push_new (ys : list K) (queue : list K) (seen : gset K) : list K * gset K :=
  match ys with
  | [] => (queue, seen)
  | y :: ys' =>
      if decide (y ∈ seen) then push_new ys' queue seen
      else push_new ys' (queue ++ [y]) ({[y]} ∪ seen)
  end.

Fixpoint walk_push (fuel : nat) (queue : list K) (seen : gset K) : option (gset K) :=
  match queue, fuel with
  | [], _ => Some seen
  | _ :: _, O => None
  | x :: queue', S fuel' =>
      let '(queue, seen) := push_new (succ x) queue' seen in walk_push fuel' queue seen
  end.

(** The number of edges leaving a set of nodes. *)
Definition out_edges (u : gset K) : nat := sum_list (length ∘ succ <$> elements u).

(** ** Lemmas *)

Lemma out_edges_take x u : x ∈ u -> out_edges u = length (succ x) + out_edges (u ∖ {[x]}).
Proof.
  intros Hx. unfold out_edges.
  assert (elements u ≡ₚ x :: elements (u ∖ {[x]})) as Hp.
  { rewrite <- elements_union_singleton by set_solver. apply elements_proper.
    intros y. destruct (decide (y = x)); set_solver. }
  assert (forall l1 l2, l1 ≡ₚ l2 -> sum_list (length ∘ succ <$> l1) = sum_list (length ∘ succ <$> l2)) as Hs.
  { induction 1; rewrite ?fmap_cons; cbn [sum_list foldr]; try lia; congruence. }
  by rewrite (Hs _ _ Hp).
Qed.

(** What both walks keep true: everything met is reachable, and an edge out of a
    finished node leads to a node that was met. *)
Record walk_inv (start queue : list K) (finished met : gset K) : Prop := {
  inv_start : forall x, x ∈ start -> x ∈ met;
  inv_edges : forall x y, x ∈ finished -> edge x y -> y ∈ met;
  inv_queue : forall x, x ∈ met -> x ∈ finished \/ x ∈ queue;
  inv_reach : forall x, x ∈ met -> reachable start x;
}.

Lemma walk_inv_done start finished met y :
  walk_inv start [] finished met -> y ∈ met <-> reachable start y.
Proof.
  intros Hi. split; [by apply (inv_reach _ _ _ _ Hi)|]. intros (x & Hx & Hxy).
  apply (inv_start _ _ _ _ Hi) in Hx.
  induction Hxy as [|x z y Hxz _ IH]; [done|]. apply IH.
  apply (inv_edges _ _ _ _ Hi x); [|done].
  destruct (inv_queue _ _ _ _ Hi x Hx) as [|Hq]; [done|by apply elem_of_nil in Hq].
Qed.

Lemma reachable_edge start x y : reachable start x -> edge x y -> reachable start y.
Proof. intros (z & Hz & Hzx) Hxy. exists z. split; [done|]. by eapply rtc_r. Qed.

(** *** Check on pop *)

Lemma walk_pop_mono fuel queue seen s : walk_pop fuel queue seen = Some s -> seen ⊆ s.
Proof.
  revert queue seen. induction fuel as [|fuel IH]; intros queue seen.
  - destruct queue; simpl; [by intros [= ->]|done].
  - destruct queue as [|x queue]; simpl; [by intros [= ->]|].
    destruct (decide (x ∈ seen)); [apply IH|]. intros Hs%IH. set_solver.
Qed.

Lemma walk_pop_inv start u fuel queue seen :
  walk_inv start queue seen (seen ∪ list_to_set queue) ->
  (forall x, succ x ≠ [] -> x ∈ u) ->
  length queue + out_edges (u ∖ seen) <= fuel ->
  exists seen', walk_pop fuel queue seen = Some seen' /\ forall y, y ∈ seen' <-> reachable start y.
Proof.
  revert queue seen. induction fuel as [|fuel IH]; intros queue seen Hi Hu Hf.
  { destruct queue; simpl in Hf; [|lia]. exists seen. split; [done|]. intros y.
    rewrite <- (walk_inv_done start seen (seen ∪ list_to_set [])) by done. set_solver. }
  destruct queue as [|x queue]; simpl in Hf |- *.
  { exists seen. split; [done|]. intros y.
    rewrite <- (walk_inv_done start seen (seen ∪ list_to_set [])) by done. set_solver. }
  destruct (decide (x ∈ seen)) as [Hx|Hx].
  - apply IH; [|done|lia]. split.
    + intros z Hz. apply (inv_start _ _ _ _ Hi) in Hz. set_solver.
    + intros z y Hz Hy. pose proof (inv_edges _ _ _ _ Hi z y Hz Hy). set_solver.
    + set_solver.
    + intros z Hz. apply (inv_reach _ _ _ _ Hi). set_solver.
  - apply IH; [|done|].
    + split.
      * intros z Hz. apply (inv_start _ _ _ _ Hi) in Hz. set_solver.
      * intros z y Hz Hy. apply elem_of_union in Hz as [->%elem_of_singleton|Hz].
        -- unfold edge in Hy. set_solver.
        -- pose proof (inv_edges _ _ _ _ Hi z y Hz Hy). set_solver.
      * set_solver.
      * intros z Hz. destruct (decide (z ∈ succ x)) as [Hzx|Hzx].
        -- apply (reachable_edge start x z); [|done]. apply (inv_reach _ _ _ _ Hi). set_solver.
        -- apply (inv_reach _ _ _ _ Hi). set_solver.
    + rewrite length_app. destruct (decide (x ∈ u)) as [Hxu|Hxu].
      * rewrite (out_edges_take x (u ∖ seen)) in Hf by set_solver.
        replace (u ∖ ({[x]} ∪ seen)) with ((u ∖ seen) ∖ {[x]}) by set_solver. lia.
      * destruct (succ x) as [|y l] eqn:E; [|by exfalso; apply Hxu, Hu; rewrite E].
        replace (u ∖ ({[x]} ∪ seen)) with (u ∖ seen) by set_solver. simpl. lia.
Qed.

Lemma walk_pop_spec u start :
  (forall x, succ x ≠ [] -> x ∈ u) ->
  exists seen, walk_pop (length start + out_edges u) start ∅ = Some seen /\
    forall y, y ∈ seen <-> reachable start y.
Proof.
  intros Hu. apply (walk_pop_inv start u); [|done|].
  - split; [set_solver|set_solver|set_solver|]. intros x Hx. exists x. split; [set_solver|done].
  - by replace (u ∖ ∅) with u by set_solver.
Qed.

Lemma walk_pop_more fuel more queue seen s :
  walk_pop fuel queue seen = Some s -> fuel <= more -> walk_pop more queue seen = Some s.
Proof.
  revert more queue seen. induction fuel as [|fuel IH]; intros more queue seen; destruct queue as [|x queue]; simpl; try done.
  - by destruct more.
  - by destruct more.
  - intros Hw Hle. destruct more as [|more]; [lia|]. simpl.
    destruct (decide (x ∈ seen)); apply IH; (done || lia).
Qed.

(** *** Check on push *)

Lemma push_new_spec ys queue seen :
  let '(queue', seen') := push_new ys queue seen in
  seen' = seen ∪ list_to_set ys /\
  (exists fresh, queue' = queue ++ fresh /\ NoDup fresh /\ forall y, y ∈ fresh <-> y ∈ ys /\ y ∉ seen).
Proof.
  revert queue seen. induction ys as [|y ys IH]; intros queue seen; simpl.
  { split; [set_solver|]. exists []. rewrite app_nil_r. split_and!; [done|constructor|set_solver]. }
  destruct (decide (y ∈ seen)) as [Hy|Hy].
  - specialize (IH queue seen). destruct (push_new ys queue seen) as [queue' seen'].
    destruct IH as (-> & fresh & -> & Hn & Hf). split; [set_solver|]. exists fresh.
    split_and!; [done..|]. intros z. rewrite Hf. set_solver.
  - specialize (IH (queue ++ [y]) ({[y]} ∪ seen)).
    destruct (push_new ys (queue ++ [y]) ({[y]} ∪ seen)) as [queue' seen'].
    destruct IH as (-> & fresh & -> & Hn & Hf). split; [set_solver|]. exists (y :: fresh).
    split_and!.
    + by rewrite <- app_assoc.
    + constructor; [|done]. rewrite Hf. set_solver.
    + intros z. rewrite elem_of_cons, Hf. destruct (decide (z = y)); set_solver.
Qed.

Lemma fresh_size (u seen : gset K) (fresh : list K) :
  NoDup fresh -> (forall y, y ∈ fresh -> y ∈ u /\ y ∉ seen) ->
  length fresh + size (u ∖ (seen ∪ list_to_set fresh)) = size (u ∖ seen).
Proof.
  intros Hn Hf. rewrite <- (size_list_to_set (C := gset K) fresh) by done.
  rewrite <- size_union by set_solver. f_equal. apply set_eq. intros x.
  destruct (decide (x ∈ fresh)) as [Hx|Hx]; [|set_solver]. specialize (Hf x Hx). set_solver.
Qed.

Lemma walk_push_inv start (u : gset K) fuel queue finished seen :
  walk_inv start queue finished seen ->
  (forall x, x ∈ queue -> x ∈ seen) ->
  (forall x y, edge x y -> y ∈ u) ->
  length queue + size (u ∖ seen) <= fuel ->
  exists seen', walk_push fuel queue seen = Some seen' /\ forall y, y ∈ seen' <-> reachable start y.
Proof.
  revert queue finished seen. induction fuel as [|fuel IH]; intros queue finished seen Hi Hq Hu Hf.
  { destruct queue; simpl in Hf; [|lia]. exists seen. split; [done|]. intros y.
    by apply (walk_inv_done start finished). }
  destruct queue as [|x queue]; simpl in Hf |- *.
  { exists seen. split; [done|]. intros y. by apply (walk_inv_done start finished). }
  pose proof (push_new_spec (succ x) queue seen) as Hp.
  destruct (push_new (succ x) queue seen) as [queue' seen'].
  destruct Hp as (-> & fresh & -> & Hn & Hfr).
  assert (x ∈ seen) as Hx by set_solver.
  apply (IH (queue ++ fresh) ({[x]} ∪ finished)); [|set_solver|done|].
  - split.
    + intros z Hz. apply (inv_start _ _ _ _ Hi) in Hz. set_solver.
    + intros z y Hz Hy. apply elem_of_union in Hz as [->%elem_of_singleton|Hz].
      * unfold edge in Hy. set_solver.
      * pose proof (inv_edges _ _ _ _ Hi z y Hz Hy). set_solver.
    + intros z Hz. destruct (decide (z ∈ seen)) as [Hzs|Hzs].
      * pose proof (inv_queue _ _ _ _ Hi z Hzs). set_solver.
      * right. apply elem_of_app. right. apply Hfr. set_solver.
    + intros z Hz. destruct (decide (z ∈ seen)) as [Hzs|Hzs]; [by apply (inv_reach _ _ _ _ Hi)|].
      apply (reachable_edge start x z); [by apply (inv_reach _ _ _ _ Hi)|]. unfold edge. set_solver.
  - rewrite length_app.
    replace (seen ∪ list_to_set (succ x)) with (seen ∪ list_to_set fresh).
    2:{ apply set_eq. intros y. rewrite !elem_of_union, !elem_of_list_to_set, Hfr.
        destruct (decide (y ∈ seen)); naive_solver. }
    assert (length fresh + size (u ∖ (seen ∪ list_to_set fresh)) = size (u ∖ seen)); [|lia].
    apply fresh_size; [done|]. intros y Hy. apply Hfr in Hy as [Hy Hys]. split; [by eapply Hu|done].
Qed.

Lemma walk_push_spec (u : gset K) start :
  (forall x y, edge x y -> y ∈ u) -> 
  exists seen, walk_push (length start + size u) start (list_to_set start) = Some seen /\
    forall y, y ∈ seen <-> reachable start y.
Proof.
  intros Hu. apply (walk_push_inv start u _ _ ∅); [| |done|].
  - split; [set_solver|set_solver|set_solver|]. intros x Hx. exists x. split; [set_solver|done].
  - set_solver.
  - assert (size (u ∖ list_to_set start) <= size u); [apply subseteq_size; set_solver|lia].
Qed.
End worklist.

(** A walk only follows the edges of what it meets: on a closed set they may be cut elsewhere. *)
Lemma walk_pop_within {K : Type} `{Countable K} (succ succ' : K -> list K) (u : gset K) fuel : forall queue seen,
  (forall x, x ∈ u -> succ' x = succ x) -> (forall x y, x ∈ u -> y ∈ succ x -> y ∈ u) -> (forall x, x ∈ queue -> x ∈ u) ->
  walk_pop succ' fuel queue seen = walk_pop succ fuel queue seen.
Proof.
  induction fuel as [|fuel IH]; intros [|x queue] seen He Hc Hq; simpl; try done.
  destruct (decide (x ∈ seen)); [apply IH; set_solver|].
  assert (x ∈ u) as Hx by set_solver. rewrite He by done. apply IH; [done..|].
  intros y [?|?]%elem_of_app; [set_solver|by eapply Hc].
Qed.

(** In a finite set closed under edges, a walk ends and finds what is reachable. *)
Lemma walk_pop_closed {K : Type} `{Countable K} (succ : K -> list K) (u : gset K) start fuel :
  (forall x y, x ∈ u -> y ∈ succ x -> y ∈ u) -> (forall x, x ∈ start -> x ∈ u) -> length start + out_edges succ u <= fuel ->
  exists seen, walk_pop succ fuel start ∅ = Some seen /\ forall y, y ∈ seen <-> reachable succ start y.
Proof.
  intros Hc Hs Hf. set (cut := fun x => if decide (x ∈ u) then succ x else []).
  assert (forall x, x ∈ u -> cut x = succ x) as Hcut by (intros x Hx; unfold cut; by rewrite decide_True).
  destruct (walk_pop_spec cut u start) as (seen & Hw & Hr).
  { intros x. unfold cut. by destruct (decide (x ∈ u)). }
  assert (out_edges cut u = out_edges succ u) as Hout.
  { unfold out_edges. f_equal. apply list_fmap_ext. intros i x Hx. cbn. rewrite Hcut; [done|].
    apply elem_of_elements. by eapply list_elem_of_lookup_2. }
  exists seen. split.
  - rewrite <- (walk_pop_within succ cut u fuel start ∅ Hcut Hc Hs). eapply walk_pop_more; [exact Hw|]. lia.
  - intros y. rewrite Hr. split; intros (x & Hx & Hxy); exists x; (split; [done|]).
    + clear -Hxy. induction Hxy as [|a b c Hab _ IH]; [done|]. apply rtc_l with b; [|done].
      unfold edge, cut in *. destruct (decide (a ∈ u)); [done|by apply elem_of_nil in Hab].
    + apply Hs in Hx. clear -Hxy Hx Hc Hcut. induction Hxy as [|a b c Hab _ IH]; [done|].
      apply rtc_l with b; [unfold edge; by rewrite Hcut|]. apply IH. by eapply Hc.
Qed.
