(* ===== verification/Runs.v ===== *)
(** * Runs of labelled steps

    Reachable states, infinite runs as functions of time, fairness for a role,
    and the rule by which a fair run gets somewhere: while a condition holds the
    role can move, no step makes a measure grow, and its own steps make it
    shrink. *)
From S2P Require Import Prelude.

Section runs.
Context {State Label : Type} (init : State -> Prop) (step : State -> Label -> State -> Prop).

Inductive reachable : State -> Prop :=
  | reach_init s : init s -> reachable s
  | reach_step s l s' : reachable s -> step s l s' -> reachable s'.

Lemma reachable_invariant (I : State -> Prop) : (forall s, init s -> I s) -> (forall s l s', reachable s -> I s -> step s l s' -> I s') ->
  forall s, reachable s -> I s.
Proof. intros Hi Hs s Hr. induction Hr as [s H|s l s' Hr IH H]; [by apply Hi|by eapply Hs]. Qed.

(** A run: the state at each time, and the step taken there. *)
Definition is_run (states : nat -> State) (labels : nat -> Label) : Prop := forall n, step (states n) (labels n) (states (S n)).

Definition can_move (role : Label -> Prop) (s : State) : Prop := exists l s', role l /\ step s l s'.

(** A role that can move forever moves. *)
Definition fair (role : Label -> Prop) (states : nat -> State) (labels : nat -> Label) : Prop :=
  forall n, exists m, n <= m /\ (role (labels m) \/ ~ can_move role (states m)).

Section leads_to.
Context (role : Label -> Prop) (P Q : State -> Prop) (measure : State -> nat) (states : nat -> State) (labels : nat -> Label).
Context (Hrun : is_run states labels) (Hfair : fair role states labels).
Context (Hstep : forall s l s', P s -> step s l s' -> Q s' \/ P s' /\ measure s' <= measure s /\ (role l -> measure s' < measure s)).
Context (Hmove : forall s, P s -> Q s \/ can_move role s).

Lemma stays_until n k : P (states n) -> (exists m, n <= m <= n + k /\ Q (states m)) \/ (P (states (n + k)) /\ measure (states (n + k)) <= measure (states n)).
Proof.
  intros HP. induction k as [|k IH]; [right; by rewrite Nat.add_0_r|].
  destruct IH as [(m & Hm & HQ)|[HPk Hk]]; [left; exists m; split; [lia|done]|].
  destruct (Hstep _ _ _ HPk (Hrun (n + k))) as [HQ|(HP' & Hle & _)].
  - left. exists (S (n + k)). split; [lia|done].
  - right. rewrite Nat.add_succ_r. split; [done|lia].
Qed.

(** The rule. *)
Lemma leads_to n : P (states n) -> exists m, n <= m /\ Q (states m).
Proof.
  remember (measure (states n)) as k eqn:Ek. revert n Ek. induction (lt_wf k) as [k _ IH]. intros n -> HP.
  destruct (Hfair n) as (m & Hm & Hrole). destruct (stays_until n (m - n) HP) as [(j & Hj & HQ)|[HPm Hk]]; [exists j; split; [lia|done]|].
  replace (n + (m - n)) with m in * by lia.
  destruct (Hmove _ HPm) as [HQ|Hcan]; [by exists m|]. destruct Hrole as [Hrole|Hno]; [|done].
  destruct (Hstep _ _ _ HPm (Hrun m)) as [HQ|(HP' & _ & Hlt)]; [exists (S m); split; [lia|done]|].
  specialize (Hlt Hrole). destruct (IH (measure (states (S m))) ltac:(lia) (S m) eq_refl HP') as (j & Hj & HQ). exists j. split; [lia|done].
Qed.
End leads_to.
End runs.
