(* ===== verification/Programs.v ===== *)
(** * Programs that take turns

    Asynchronous code as data: a program is finished, or wants one operation on
    what the programs share and goes on with its answer.  A system is the shared
    state and the programs that run; a step is one operation of one of them, a
    program dropped before its end, or a new one.  Reasoning is by rely and
    guarantee over a history that only grows: [safe] says that every operation a
    program will want is one its precondition allows, whatever the others do to
    the history meanwhile. *)
From stdpp Require Import relations.
From S2P Require Import Prelude.

(** ** Definitions *)

Section programs.
Context {Op : Type} {Ans : Op -> Type}.

Inductive Prog (A : Type) : Type :=
  | Ret (a : A)
  | Act (op : Op) (k : Ans op -> Prog A).
#[global] Arguments Ret {A} a.
#[global] Arguments Act {A} op k.

Definition act (op : Op) : Prog (Ans op) := Act op Ret.

Fixpoint bind_prog {A B} (p : Prog A) (k : A -> Prog B) : Prog B :=
  match p with
  | Ret a => k a
  | Act op next => Act op (fun a => bind_prog (next a) k)
  end.

(** [p?]: an error ends the program. *)
Definition try_prog {A B E} (p : Prog (A + E)) (k : A -> Prog (B + E)) : Prog (B + E) :=
  bind_prog p (fun r => match r with inl a => k a | inr e => Ret (inr e) end).

(** *** Rely and guarantee *)

Section safety.
(** The history, and what a program holds itself. *)
Context {W L : Type} (grows : W -> W -> Prop) `{!PreOrder grows}.
Context (pre : Op -> L -> W -> Prop) (post : forall op, Ans op -> L -> L -> W -> Prop).

Fixpoint safe {A} (p : Prog A) (Q : A -> L -> W -> Prop) (l : L) (w : W) : Prop :=
  match p with
  | Ret a => forall w', grows w w' -> Q a l w'
  | Act op k =>
      forall w', grows w w' -> pre op l w' /\
        forall a l' w'', grows w' w'' -> post op a l l' w'' -> safe (k a) Q l' w''
  end.

Lemma safe_later {A} (p : Prog A) Q l w w' : grows w w' -> safe p Q l w -> safe p Q l w'.
Proof. destruct p; cbn; intros Hg H w'' Hw; apply H; by etransitivity. Qed.

Lemma safe_bind {A B} (p : Prog A) (k : A -> Prog B) (Q : B -> L -> W -> Prop) l w :
  safe p (fun a l w => safe (k a) Q l w) l w -> safe (bind_prog p k) Q l w.
Proof.
  revert l w. induction p as [a|op next IH]; intros l w H; [exact (H w (reflexivity w))|].
  cbn in *. intros w' Hw. destruct (H w' Hw) as [Hp Hk]. split; [done|]. intros a l' w'' Hw' Ha. by apply IH, Hk.
Qed.

Lemma safe_weaken {A} (p : Prog A) (Q Q' : A -> L -> W -> Prop) l w :
  (forall a l' w', grows w w' -> Q a l' w' -> Q' a l' w') -> safe p Q l w -> safe p Q' l w.
Proof.
  revert l w. induction p as [a|op next IH]; cbn; intros l w HQ H w' Hw.
  - by apply HQ, H.
  - destruct (H w' Hw) as [Hp Hk]. split; [done|]. intros a l' w'' Hw' Ha. apply IH; [|by apply Hk].
    intros b l3 w3 Hw3. apply HQ. etransitivity; [exact Hw|]. by etransitivity.
Qed.

Lemma safe_try {A B E} (p : Prog (A + E)) (k : A -> Prog (B + E)) (Q : B + E -> L -> W -> Prop) l w :
  safe p (fun r l w => match r with inl a => safe (k a) Q l w | inr e => safe (Ret (inr e)) Q l w end) l w -> safe (try_prog p k) Q l w.
Proof. intros H. apply safe_bind. eapply safe_weaken; [|exact H]. by intros [a|e] l' w' _ Ha. Qed.

Lemma safe_act {A} op (k : Ans op -> Prog A) Q l w :
  (forall w', grows w w' -> pre op l w') -> (forall a l' w', grows w w' -> post op a l l' w' -> safe (k a) Q l' w') -> safe (Act op k) Q l w.
Proof.
  intros Hp Hk w' Hw. split; [by apply Hp|]. intros a l' w'' Hw' Ha. apply Hk; [by etransitivity|done].
Qed.

Lemma safe_ret {A} (a : A) (Q : A -> L -> W -> Prop) l w : (forall w', grows w w' -> Q a l w') -> safe (Ret a) Q l w.
Proof. done. Qed.
End safety.

(** *** Systems *)

Context {S Out : Type}.
(** One operation of the program [id]; [fresh] is the number of the program it may start. *)
Context (perform : N -> N -> forall op, Ans op -> S -> S -> Prop).
(** What is left of a program that is dropped: the guards it held are. *)
Context (dropped : N -> S -> S).
(** The program an operation starts beside its own, by its answer, and the programs that may arrive. *)
Context (spawns : forall op, Ans op -> option (Prog Out)) (arrives : Prog Out -> Prop).

Record System := mkSystem { shared : S; programs : gmap N (Prog Out); next_id : N }.

Definition add_program (p : option (Prog Out)) (s : System) : System :=
  match p with Some p => mkSystem (shared s) (<[next_id s := p]> (programs s)) (next_id s + 1) | None => s end.

Inductive system_step : System -> System -> Prop :=
  | step_acts id op k a state' s : programs s !! id = Some (Act op k) -> perform id (next_id s) op a (shared s) state' ->
      system_step s (add_program (spawns op a) (mkSystem state' (<[id := k a]> (programs s)) (next_id s)))
  | step_dropped id p s : programs s !! id = Some p ->
      system_step s (mkSystem (dropped id (shared s)) (delete id (programs s)) (next_id s))
  | step_arrives p s : arrives p -> system_step s (add_program (Some p) s).

(** A system whose programs are numbered below the next number. *)
Definition numbered (s : System) : Prop := forall id, is_Some (programs s !! id) -> (id < next_id s)%N.

Lemma add_numbered p s : numbered s -> numbered (add_program p s).
Proof.
  intros H. destruct p as [p|]; [|done]. intros id [q Hq]. cbn in *.
  apply lookup_insert_Some in Hq as [[<- _]|[_ Hq]]; [lia|]. specialize (H id ltac:(by eexists)). lia.
Qed.

Lemma step_numbered s s' : system_step s s' -> numbered s -> numbered s'.
Proof.
  intros [id op k a state' s1 Hp _|id p s1 Hp|p s1 _] H; [apply add_numbered| |by apply add_numbered];
    (intros i Hi; cbn in *; apply H).
  - destruct Hi as [q Hq]. apply lookup_insert_Some in Hq as [[<- _]|[_ Hq]]; by eexists.
  - destruct Hi as [q Hq]. apply lookup_delete_Some in Hq as [_ Hq]. by eexists.
Qed.

Section invariant.
Context {W L : Type} (grows : W -> W -> Prop) `{!PreOrder grows} (history : S -> W) (local : S -> N -> L) (nothing : L).
Context (pre : N -> Op -> L -> W -> Prop) (post : N -> forall op, Ans op -> L -> L -> W -> Prop).
Context (Inv : S -> Prop) (Q : N -> Out -> L -> W -> Prop).

(** Nobody but [id], and the program it starts, gets or loses anything. *)
Definition only_local (id fresh : N) (s s' : S) : Prop := forall id', id' <> id -> id' <> fresh -> local s' id' = local s id'.

(** What the operations owe: they keep the invariant, only add to the history, answer as promised, and start programs that are safe. *)
Record sound_operations : Prop := {
  perform_sound : forall id fresh op a s s', perform id fresh op a s s' -> Inv s -> id <> fresh -> local s fresh = nothing -> pre id op (local s id) (history s) ->
    Inv s' /\ grows (history s) (history s') /\ only_local id fresh s s' /\ post id op a (local s id) (local s' id) (history s') /\
    match spawns op a with
    | Some p => safe grows (pre fresh) (post fresh) p (Q fresh) (local s' fresh) (history s')
    | None => local s' fresh = nothing
    end;
  dropped_sound : forall id s, Inv s -> Inv (dropped id s) /\ grows (history s) (history (dropped id s)) /\ only_local id id s (dropped id s) /\ local (dropped id s) id = nothing;
  arrives_sound : forall p, arrives p -> forall id w, safe grows (pre id) (post id) p (Q id) nothing w;
}.

Definition system_ok (s : System) : Prop :=
  Inv (shared s) /\ numbered s /\ (forall id, programs s !! id = None -> local (shared s) id = nothing) /\
  forall id p, programs s !! id = Some p -> safe grows (pre id) (post id) p (Q id) (local (shared s) id) (history (shared s)).

Lemma next_is_new s : numbered s -> programs s !! next_id s = None.
Proof. intros Hn. destruct (programs s !! next_id s) eqn:E; [|done]. specialize (Hn _ (mk_is_Some _ _ E)). lia. Qed.

(** A program takes its step and another starts: the others go on as before. *)
Lemma acted_ok id op k a state' s :
  sound_operations -> system_ok s -> programs s !! id = Some (Act op k) -> perform id (next_id s) op a (shared s) state' ->
  system_ok (add_program (spawns op a) (mkSystem state' (<[id := k a]> (programs s)) (next_id s))) /\ grows (history (shared s)) (history state').
Proof.
  intros Hso (Hi & Hn & Hl & Hs) Hp Hperform. pose proof (next_is_new _ Hn) as Hnew.
  assert (id <> next_id s) as Hne by congruence.
  destruct (Hs id _ Hp _ (reflexivity _)) as [Hpre Hk].
  destruct (perform_sound Hso _ _ _ _ _ _ Hperform Hi Hne (Hl _ Hnew) Hpre) as (Hi' & Hg & Ho & Hpost & Hsp).
  split; [|done]. assert (forall i p, i <> next_id s -> <[id := k a]> (programs s) !! i = Some p -> safe grows (pre i) (post i) p (Q i) (local state' i) (history state')) as Hothers.
  { intros i p Hin [[<- <-]|[Hii Hq]]%lookup_insert_Some; [by apply Hk|]. rewrite Ho by done. eapply (safe_later grows); [exact Hg|]. by apply Hs. }
  destruct (spawns op a) as [p|]; cbn; (split; [done|]); (split; [|split]); cbn.
  - intros i [q Hq]. cbn in *. apply lookup_insert_Some in Hq as [[<- _]|[_ Hq]]; [lia|].
    apply lookup_insert_Some in Hq as [[<- _]|[_ Hq]]; [specialize (Hn id ltac:(by eexists)); lia|]. specialize (Hn i ltac:(by eexists)). lia.
  - intros i [[Hq Hii]%lookup_insert_None Hin]%lookup_insert_None. rewrite Ho by done. by apply Hl.
  - intros i q [[<- <-]|[Hin Hq]]%lookup_insert_Some; [done|]. by apply Hothers.
  - intros i [q Hq]. cbn in *. apply lookup_insert_Some in Hq as [[<- _]|[_ Hq]]; apply Hn; by eexists.
  - intros i [Hq Hii]%lookup_insert_None. destruct (decide (i = next_id s)) as [->|Hin]; [done|]. rewrite Ho by done. by apply Hl.
  - intros i q Hq. apply Hothers; [|done]. intros ->. apply lookup_insert_Some in Hq as [[? _]|[_ Hq]]; congruence.
Qed.

Lemma system_step_ok s s' : sound_operations -> system_step s s' -> system_ok s -> system_ok s' /\ grows (history (shared s)) (history (shared s')).
Proof.
  intros Hso Hst Hok. pose proof (step_numbered _ _ Hst (proj1 (proj2 Hok))) as Hn'.
  destruct Hst as [id op k a state' s1 Hp Hperform|id p s1 Hp|p s1 Harr].
  - destruct (acted_ok id op k a state' s1 Hso Hok Hp Hperform) as [Hok' Hg]. split; [done|]. by destruct (spawns op a).
  - destruct Hok as (Hi & Hn & Hl & Hs). destruct (dropped_sound Hso id _ Hi) as (Hi' & Hg & Ho & Hd).
    split; [|done]. split; [done|]. split; [done|]. split; cbn.
    + intros i Hi0. destruct (decide (i = id)) as [->|Hne]; [done|]. rewrite Ho by done. apply Hl. by rewrite lookup_delete_ne in Hi0.
    + intros i q [Hne Hq]%lookup_delete_Some. rewrite Ho by done. eapply (safe_later grows); [exact Hg|]. by apply Hs.
  - destruct Hok as (Hi & Hn & Hl & Hs). pose proof (next_is_new _ Hn) as Hnew. split; [|reflexivity].
    split; [done|]. split; [done|]. split; cbn.
    + intros i [Hq _]%lookup_insert_None. by apply Hl.
    + intros i q [[<- <-]|[_ Hq]]%lookup_insert_Some; [rewrite (Hl _ Hnew); by apply (arrives_sound Hso)|by apply Hs].
Qed.

(** Every system reached from one that is all right is all right. *)
Lemma reachable_ok s s' : sound_operations -> rtc system_step s s' -> system_ok s -> system_ok s' /\ grows (history (shared s)) (history (shared s')).
Proof.
  intros Hso. induction 1 as [s|s s1 s' Hst _ IH]; intros Hok; [split; [done|reflexivity]|].
  destruct (system_step_ok _ _ Hso Hst Hok) as [Hok1 Hg]. destruct (IH Hok1) as [Hok' Hg']. split; [done|]. by etransitivity.
Qed.

(** What is known of a program that ended, and of one that wants an operation. *)
Lemma finished_ok s id out : system_ok s -> programs s !! id = Some (Ret out) -> Q id out (local (shared s) id) (history (shared s)).
Proof. intros (_ & _ & _ & Hs) Hp. exact (Hs id _ Hp _ (reflexivity _)). Qed.

Lemma wanting_ok s id op k : system_ok s -> programs s !! id = Some (Act op k) -> pre id op (local (shared s) id) (history (shared s)).
Proof. intros (_ & _ & _ & Hs) Hp. by destruct (Hs id _ Hp _ (reflexivity _)) as [? _]. Qed.
End invariant.
End programs.
#[global] Arguments Prog Op Ans A : clear implicits.

Declare Scope prog_scope.
Delimit Scope prog_scope with prog.
Notation "x ⇐ p ; q" := (bind_prog p (fun x => q)) (at level 20, p at level 100, q at level 200, only parsing) : prog_scope.
Notation "' x ⇐ p ; q" := (bind_prog p (fun x => q)) (at level 20, x pattern, p at level 100, q at level 200, only parsing) : prog_scope.
Notation "p ;;; q" := (bind_prog p (fun _ => q)) (at level 100, q at level 200, right associativity, only parsing) : prog_scope.
Notation "x ⇐? p ; q" := (try_prog p (fun x => q)) (at level 20, p at level 100, q at level 200, only parsing) : prog_scope.
