(* ===== verification/RustStr.v ===== *)
(** The [std] string operations the program uses, on the UTF-8 bytes of a Rust
    [str] (a Rocq [string] is a sequence of bytes).

    Every operation below looks only for ASCII delimiters.  In UTF-8 an ASCII
    byte never occurs inside a multi-byte character, so scanning bytes and
    scanning [char]s find the same positions.  Whitespace trimming ([trim]) is
    the ASCII part of [char::is_whitespace]; the components that use it apply
    it to text that is ASCII already (header values, numbers, addresses). *)
From S2P Require Import Prelude.

(** ** Definitions *)

Definition slash_char : ascii := "/"%char.

(** [s.starts_with(p)] *)
Fixpoint starts_with (p s : string) : bool :=
  match p, s with
  | "", _ => true
  | String a p', String b s' => Ascii.eqb a b && starts_with p' s'
  | _, "" => false
  end.

(** [s.strip_prefix(p)] *)
Fixpoint strip_prefix (p s : string) : option string :=
  match p, s with
  | "", _ => Some s
  | String a p', String b s' => if Ascii.eqb a b then strip_prefix p' s' else None
  | _, "" => None
  end.

Fixpoint srev_app (s acc : string) : string :=
  match s with
  | "" => acc
  | String a s' => srev_app s' (String a acc)
  end.

Definition srev (s : string) : string := srev_app s "".

(** [s.ends_with(p)] *)
Definition ends_with (p s : string) : bool := starts_with (srev p) (srev s).

(** [s.strip_suffix(p)] *)
Definition strip_suffix (p s : string) : option string :=
  srev <$> strip_prefix (srev p) (srev s).

(** [s.contains(c)] *)
Fixpoint has_char (c : ascii) (s : string) : bool :=
  match s with
  | "" => false
  | String a s' => Ascii.eqb a c || has_char c s'
  end.

(** [s.bytes().all(f)] *)
Fixpoint all_bytes (f : ascii -> bool) (s : string) : bool :=
  match s with
  | "" => true
  | String a s' => f a && all_bytes f s'
  end.

(** [s.split(c)]: the pieces between separators, never an empty list. *)
Fixpoint split_char (c : ascii) (s : string) : list string :=
  match s with
  | "" => [""]
  | String a s' =>
      if Ascii.eqb a c then "" :: split_char c s'
      else match split_char c s' with
           | [] => [String a ""]
           | piece :: rest => String a piece :: rest
           end
  end.

(** [s.split_once(c)] *)
Fixpoint split_once (c : ascii) (s : string) : option (string * string) :=
  match s with
  | "" => None
  | String a s' =>
      if Ascii.eqb a c then Some ("", s')
      else match split_once c s' with
           | Some (l, r) => Some (String a l, r)
           | None => None
           end
  end.

(** [pieces.join(sep)] *)
Fixpoint join (sep : string) (pieces : list string) : string :=
  match pieces with
  | [] => ""
  | [p] => p
  | p :: rest => p +:+ sep +:+ join sep rest
  end.

(** [s.trim_start_matches(f)] for a byte predicate *)
Fixpoint trim_start_while (f : ascii -> bool) (s : string) : string :=
  match s with
  | "" => ""
  | String a s' => if f a then trim_start_while f s' else s
  end.

Definition trim_end_while (f : ascii -> bool) (s : string) : string :=
  srev (trim_start_while f (srev s)).

Definition trim_while (f : ascii -> bool) (s : string) : string :=
  trim_end_while f (trim_start_while f s).

(** [s.trim_start_matches(p)] for a string pattern: strips [p] as often as it
    occurs.  [String.length s] rounds are enough for a non-empty [p]. *)
Fixpoint trim_start_str_fuel (fuel : nat) (p s : string) : string :=
  match fuel with
  | O => s
  | S fuel' => match strip_prefix p s with
               | Some s' => trim_start_str_fuel fuel' p s'
               | None => s
               end
  end.

Definition trim_start_str (p s : string) : string :=
  trim_start_str_fuel (String.length s) p s.

Definition trim_end_str (p s : string) : string :=
  srev (trim_start_str (srev p) (srev s)).

Definition is_upper (a : ascii) : bool :=
  let n := nat_of_ascii a in (65 <=? n)%nat && (n <=? 90)%nat.
Definition is_lower (a : ascii) : bool :=
  let n := nat_of_ascii a in (97 <=? n)%nat && (n <=? 122)%nat.
Definition is_digit (a : ascii) : bool :=
  let n := nat_of_ascii a in (48 <=? n)%nat && (n <=? 57)%nat.

(** [byte.is_ascii_alphanumeric()] *)
Definition is_alnum (a : ascii) : bool := is_upper a || is_lower a || is_digit a.

(** [byte.to_ascii_lowercase()] and [to_ascii_uppercase()] *)
Definition lower_byte (a : ascii) : ascii :=
  if is_upper a then ascii_of_nat (nat_of_ascii a + 32) else a.
Definition upper_byte (a : ascii) : ascii :=
  if is_lower a then ascii_of_nat (nat_of_ascii a - 32) else a.

Fixpoint map_bytes (f : ascii -> ascii) (s : string) : string :=
  match s with
  | "" => ""
  | String a s' => String (f a) (map_bytes f s')
  end.

Definition to_ascii_lowercase (s : string) : string := map_bytes lower_byte s.

(** [a.eq_ignore_ascii_case(b)] *)
Definition eq_ignore_case (a b : string) : bool :=
  String.eqb (to_ascii_lowercase a) (to_ascii_lowercase b).

(** ASCII whitespace: tab, line feed, vertical tab, form feed, carriage return, space. *)
Definition is_space (a : ascii) : bool :=
  let n := nat_of_ascii a in ((9 <=? n)%nat && (n <=? 13)%nat) || (n =? 32)%nat.

(** [s.trim()] *)
Definition trim (s : string) : string := trim_while is_space s.

(** [s.is_empty()] *)
Definition is_empty_str (s : string) : bool :=
  match s with "" => true | _ => false end.

Fixpoint repeat_str (n : nat) (s : string) : string :=
  match n with O => "" | S n' => s +:+ repeat_str n' s end.

(** [str::contains] *)
Fixpoint contains_str (p s : string) : bool :=
  starts_with p s || match s with "" => false | String _ s => contains_str p s end.

(** [s.rsplit_once(c)] *)
Definition rsplit_once (c : ascii) (s : string) : option (string * string) :=
  '(r, l) ← split_once c (srev s); Some (srev l, srev r).

(** [str::replace] of a non-empty text. *)
Fixpoint replace_fuel (fuel : nat) (pat rep s : string) : string :=
  match fuel with
  | O => s
  | S fuel' =>
      match strip_prefix pat s with
      | Some rest => rep +:+ replace_fuel fuel' pat rep rest
      | None => match s with
                | "" => ""
                | String a s' => String a (replace_fuel fuel' pat rep s')
                end
      end
  end.

Definition replace_str (pat rep s : string) : string := replace_fuel (S (String.length s)) pat rep s.

(** [str::parse] of an unsigned integer at most [max]: an optional [+], then digits. *)
Fixpoint parse_digits (max : N) (s : string) (acc : N) : option N :=
  match s with
  | "" => Some acc
  | String a rest =>
      if is_digit a then
        let n := (acc * 10 + (N_of_ascii a - 48))%N in
        if (n <=? max)%N then parse_digits max rest n else None
      else None
  end.

Definition parse_uint (max : N) (s : string) : option N :=
  let digits := default s (strip_prefix "+" s) in
  if is_empty_str digits then None else parse_digits max digits 0.

(** ** Lemmas *)

Create HintDb rust_str.

Lemma sapp_nil_r s : s +:+ "" = s.
Proof. induction s as [|a s IH]; [done|]. simpl. by rewrite IH. Qed.

Lemma sapp_assoc s t u : (s +:+ t) +:+ u = s +:+ (t +:+ u).
Proof. induction s as [|a s IH]; [done|]. simpl. by rewrite IH. Qed.

Lemma srev_app_spec s acc : srev_app s acc = srev s +:+ acc.
Proof.
  unfold srev. revert acc. induction s as [|a s IH]; intros acc; [done|].
  simpl. rewrite (IH (String a acc)), (IH (String a "")), sapp_assoc. done.
Qed.

Lemma srev_cons a s : srev (String a s) = srev s +:+ String a "".
Proof. unfold srev at 1. simpl. apply srev_app_spec. Qed.

Lemma srev_sapp s t : srev (s +:+ t) = srev t +:+ srev s.
Proof.
  induction s as [|a s IH]; simpl; [by rewrite sapp_nil_r|].
  by rewrite !srev_cons, IH, sapp_assoc.
Qed.

Lemma srev_involutive s : srev (srev s) = s.
Proof.
  induction s as [|a s IH]; [done|].
  rewrite srev_cons, srev_sapp, IH. done.
Qed.

Lemma slength_sapp s t : String.length (s +:+ t) = String.length s + String.length t.
Proof. induction s as [|a s IH]; [done|]. simpl. by rewrite IH. Qed.

Lemma slength_srev s : String.length (srev s) = String.length s.
Proof.
  induction s as [|a s IH]; [done|]. rewrite srev_cons, slength_sapp, IH. simpl. lia.
Qed.

Lemma strip_prefix_Some p s r : strip_prefix p s = Some r <-> s = p +:+ r.
Proof.
  revert s. induction p as [|a p IH]; intros s; simpl.
  - split; [by intros [= ->]|by intros ->].
  - destruct s as [|b s]; [done|].
    destruct (Ascii.eqb_spec a b) as [->|Hne].
    + rewrite IH. split; [by intros ->|by intros [= ->]].
    + split; [done|]. intros [= <- _]. done.
Qed.

Lemma strip_prefix_app p s : strip_prefix p (p +:+ s) = Some s.
Proof. by apply strip_prefix_Some. Qed.

Lemma starts_with_strip p s : starts_with p s = bool_decide (is_Some (strip_prefix p s)).
Proof.
  revert s. induction p as [|a p IH]; intros s; [done|].
  destruct s as [|b s]; simpl; [done|].
  destruct (Ascii.eqb a b); simpl; [apply IH|done].
Qed.

Lemma starts_with_true p s : starts_with p s = true <-> exists r, s = p +:+ r.
Proof.
  rewrite starts_with_strip, bool_decide_eq_true. unfold is_Some.
  by setoid_rewrite strip_prefix_Some.
Qed.

Lemma starts_with_app p s : starts_with p (p +:+ s) = true.
Proof. apply starts_with_true. eauto. Qed.

Lemma ends_with_true p s : ends_with p s = true <-> exists r, s = r +:+ p.
Proof.
  unfold ends_with. rewrite starts_with_true. split; intros [r Hr].
  - exists (srev r). rewrite <- (srev_involutive s), Hr, srev_sapp. by rewrite srev_involutive.
  - exists (srev r). by rewrite Hr, srev_sapp.
Qed.

Lemma ends_with_app p s : ends_with p (s +:+ p) = true.
Proof. apply ends_with_true. eauto. Qed.

Lemma has_char_sapp c s t : has_char c (s +:+ t) = has_char c s || has_char c t.
Proof. induction s as [|a s IH]; [done|]. simpl. by rewrite IH, orb_assoc. Qed.

Lemma has_char_srev c s : has_char c (srev s) = has_char c s.
Proof.
  induction s as [|a s IH]; [done|].
  rewrite srev_cons, has_char_sapp, IH. simpl. by rewrite orb_false_r, orb_comm.
Qed.

Lemma all_bytes_sapp f s t : all_bytes f (s +:+ t) = all_bytes f s && all_bytes f t.
Proof. induction s as [|a s IH]; [done|]. simpl. by rewrite IH, andb_assoc. Qed.

Lemma all_bytes_srev f s : all_bytes f (srev s) = all_bytes f s.
Proof.
  induction s as [|a s IH]; [done|].
  rewrite srev_cons, all_bytes_sapp, IH. simpl. by rewrite andb_true_r, andb_comm.
Qed.

Lemma all_bytes_has_char f c s :
  all_bytes f s = true -> f c = false -> has_char c s = false.
Proof.
  induction s as [|a s IH]; [done|]. simpl. intros [Ha Hs]%andb_true_iff Hc.
  rewrite (IH Hs Hc), orb_false_r. destruct (Ascii.eqb_spec a c) as [->|]; congruence.
Qed.

Lemma split_char_ne c s : split_char c s <> [].
Proof. destruct s as [|a s]; simpl; [done|]. destruct (Ascii.eqb a c); [done|]. by destruct (split_char c s). Qed.

Lemma split_char_none c s : has_char c s = false -> split_char c s = [s].
Proof.
  induction s as [|a s IH]; [done|]. simpl. intros [Ha Hs]%orb_false_iff.
  rewrite Ha, (IH Hs). done.
Qed.

Lemma split_char_app c s t :
  has_char c s = false ->
  split_char c (s +:+ String c t) = s :: split_char c t.
Proof.
  induction s as [|a s IH]; simpl.
  - intros _. by rewrite Ascii.eqb_refl.
  - intros [Ha Hs]%orb_false_iff. rewrite Ha, (IH Hs). done.
Qed.

(** Splitting a joined list gives the pieces back. *)
Lemma split_char_join c l :
  l <> [] -> Forall (fun s => has_char c s = false) l ->
  split_char c (join (String c "") l) = l.
Proof.
  induction l as [|s l IH]; [done|]. intros _ [Hs Hl]%Forall_cons.
  destruct l as [|s' l]; simpl; [by apply split_char_none|].
  simpl in IH. rewrite split_char_app by done. f_equal. by apply IH.
Qed.

(** Joining the pieces of a split gives the text back. *)
Lemma join_split_char c s : join (String c "") (split_char c s) = s.
Proof.
  induction s as [|a s IH]; [done|]. simpl. pose proof (split_char_ne c s) as Hne.
  destruct (Ascii.eqb_spec a c) as [->|Hac].
  - destruct (split_char c s) as [|p l]; [done|]. simpl in *. by rewrite IH.
  - destruct (split_char c s) as [|p l]; [done|].
    destruct l; simpl in *; by rewrite <- IH.
Qed.

Lemma split_char_pieces c s : Forall (fun p => has_char c p = false) (split_char c s).
Proof.
  induction s as [|a s IH]; simpl; [by repeat constructor|].
  destruct (Ascii.eqb a c) eqn:E; [by constructor|].
  destruct (split_char c s) as [|p l]; [constructor; [simpl; by rewrite E|done]|].
  apply Forall_cons in IH as [Hp Hl]. constructor; [simpl; by rewrite E|done].
Qed.

Lemma split_once_app c l r :
  has_char c l = false -> split_once c (l +:+ String c r) = Some (l, r).
Proof.
  induction l as [|a l IH]; simpl; [intros _; by rewrite Ascii.eqb_refl|].
  intros [Ha Hl]%orb_false_iff. by rewrite Ha, (IH Hl).
Qed.

Lemma split_once_sound c s l r :
  split_once c s = Some (l, r) -> s = l +:+ String c r /\ has_char c l = false.
Proof.
  revert l. induction s as [|a s IH]; intros l; simpl; [done|].
  destruct (Ascii.eqb a c) eqn:E.
  - apply Ascii.eqb_eq in E as ->. by intros [= <- <-].
  - destruct (split_once c s) as [[l' r']|]; [|done]. intros [= <- <-].
    destruct (IH l' eq_refl) as [-> Hl]. simpl. by rewrite E.
Qed.

Lemma split_once_None c s : split_once c s = None <-> has_char c s = false.
Proof.
  induction s as [|a s IH]; simpl; [done|].
  destruct (Ascii.eqb a c); [done|]. simpl. rewrite <- IH.
  by destruct (split_once c s) as [[? ?]|].
Qed.

Lemma trim_start_while_id f s :
  match s with "" => True | String a _ => f a = false end -> trim_start_while f s = s.
Proof. destruct s as [|a s]; [done|]. simpl. by intros ->. Qed.

Lemma trim_start_while_sapp f s t :
  all_bytes f s = true -> trim_start_while f (s +:+ t) = trim_start_while f t.
Proof.
  induction s as [|a s IH]; [done|]. simpl. intros [-> Hs]%andb_true_iff. by apply IH.
Qed.

(** Text none of whose bytes is trimmed is left alone. *)
Lemma trim_while_none f s : all_bytes (fun a => negb (f a)) s = true -> trim_while f s = s.
Proof.
  intros H. unfold trim_while, trim_end_while.
  rewrite (trim_start_while_id f s).
  2:{ destruct s as [|a s]; [done|]. simpl in H. apply andb_true_iff in H as [H _]. by apply negb_true_iff. }
  rewrite trim_start_while_id; [by rewrite srev_involutive|].
  rewrite <- all_bytes_srev in H. destruct (srev s) as [|a t]; [done|].
  simpl in H. apply andb_true_iff in H as [H _]. by apply negb_true_iff.
Qed.

Lemma trim_start_while_decomp f s :
  exists t, s = t +:+ trim_start_while f s /\ all_bytes f t = true.
Proof.
  induction s as [|a s IH]; simpl; [by exists ""|]. destruct (f a) eqn:E; [|by exists ""].
  destruct IH as (t & Ht & Hf). exists (String a t). simpl. by rewrite E, <- Ht.
Qed.

Lemma trim_end_while_decomp f s :
  exists t, s = trim_end_while f s +:+ t /\ all_bytes f t = true.
Proof.
  destruct (trim_start_while_decomp f (srev s)) as (t & Ht & Hf).
  exists (srev t). rewrite all_bytes_srev. split; [|done].
  unfold trim_end_while. by rewrite <- srev_sapp, <- Ht, srev_involutive.
Qed.

(** Trailing separators only add empty pieces. *)
Lemma split_char_trailing c s t :
  all_bytes (Ascii.eqb c) t = true ->
  exists n, split_char c (s +:+ t) = split_char c s ++ replicate n "".
Proof.
  intros Ht. induction s as [|a s IH]; simpl.
  - exists (String.length t). induction t as [|a t IHt]; [done|]. simpl in *.
    apply andb_true_iff in Ht as [->%Ascii.eqb_eq Ht]. rewrite Ascii.eqb_refl.
    by rewrite IHt.
  - destruct IH as [n IH]. exists n. rewrite IH. destruct (Ascii.eqb a c); [done|].
    pose proof (split_char_ne c s). by destruct (split_char c s).
Qed.

(** Trimming separators off both ends changes no non-empty piece. *)
Lemma split_char_trim c s :
  filter (fun p => is_empty_str p = false) (split_char c (trim_while (Ascii.eqb c) s)) =
  filter (fun p => is_empty_str p = false) (split_char c s).
Proof.
  set (ne := fun p => is_empty_str p = false).
  assert (forall n, filter ne (replicate n "") = []) as Hrep.
  { by induction n as [|n IHn]; simpl; [|rewrite filter_cons_False]. }
  assert (forall u, filter ne (split_char c (trim_end_while (Ascii.eqb c) u)) =
                    filter ne (split_char c u)) as Hend.
  { intros u. destruct (trim_end_while_decomp (Ascii.eqb c) u) as (t & Hu & Ht).
    destruct (split_char_trailing c (trim_end_while (Ascii.eqb c) u) t Ht) as [n Hn].
    rewrite Hu at 2. by rewrite Hn, filter_app, Hrep, app_nil_r. }
  unfold trim_while. rewrite Hend.
  induction s as [|a s IH]; [done|]. simpl. destruct (Ascii.eqb_spec c a) as [->|Hne].
  - rewrite Ascii.eqb_refl, IH. by rewrite (filter_cons_False ne).
  - simpl. by destruct (Ascii.eqb_spec a c) as [->|].
Qed.

Lemma starts_with_false p s : starts_with p s = false <-> strip_prefix p s = None.
Proof. by rewrite starts_with_strip, bool_decide_eq_false, eq_None_not_Some. Qed.

Lemma trim_start_str_none p s : starts_with p s = false -> trim_start_str p s = s.
Proof.
  rewrite starts_with_false. intros H. unfold trim_start_str.
  destruct (String.length s); [done|]. simpl. by rewrite H.
Qed.

Lemma trim_start_str_one p s :
  p <> "" -> starts_with p s = false -> trim_start_str p (p +:+ s) = s.
Proof.
  intros Hp H. apply starts_with_false in H. unfold trim_start_str.
  destruct p as [|a p]; [done|]. rewrite slength_sapp. cbn [String.length Nat.add trim_start_str_fuel].
  rewrite (strip_prefix_app (String a p) s).
  destruct (String.length p + String.length s)%nat; [done|]. cbn [trim_start_str_fuel]. by rewrite H.
Qed.

Lemma starts_with_app_inv q r p :
  starts_with q (r +:+ p) = true -> String.length q <= String.length r -> starts_with q r = true.
Proof.
  revert r. induction q as [|a q IH]; intros [|b r]; simpl; [done|done|lia|].
  intros [-> Hq]%andb_true_iff Hlen. apply IH; [done|lia].
Qed.

Lemma ends_with_app_inv q p r :
  ends_with q (p +:+ r) = true -> String.length q <= String.length r -> ends_with q r = true.
Proof.
  unfold ends_with. rewrite srev_sapp. intros H Hlen.
  eapply starts_with_app_inv; [exact H|]. by rewrite !slength_srev.
Qed.

Lemma substring_skip p n t : String.substring (String.length p) n (p +:+ t) = String.substring 0 n t.
Proof. induction p as [|a p IH]; [done|]. simpl. apply IH. Qed.

Lemma substring_take m t : String.substring 0 (String.length m) (m +:+ t) = m.
Proof. induction m as [|a m IH]; simpl; [by destruct t|]. by rewrite IH. Qed.

(** The text between a prefix and a suffix that do not overlap. *)
Lemma starts_ends_decomp p q s :
  starts_with p s = true -> ends_with q s = true -> String.length p + String.length q <= String.length s ->
  exists m, s = p +:+ m +:+ q.
Proof.
  intros [r ->]%starts_with_true He Hlen. rewrite slength_sapp in Hlen.
  apply ends_with_app_inv in He; [|lia]. apply ends_with_true in He as [m ->]. by exists m.
Qed.

Lemma substring_between p m q :
  String.substring (String.length p)
    (String.length (p +:+ m +:+ q) - String.length q - String.length p) (p +:+ m +:+ q) = m.
Proof.
  rewrite !slength_sapp, substring_skip.
  replace (_ - _ - _) with (String.length m) by lia. apply substring_take.
Qed.

Lemma trim_end_str_one q s :
  q <> "" -> ends_with q s = false -> trim_end_str q (s +:+ q) = s.
Proof.
  intros Hq H. unfold trim_end_str. rewrite srev_sapp, trim_start_str_one; [apply srev_involutive| |done].
  intros E. apply Hq. by rewrite <- (srev_involutive q), E.
Qed.

Lemma all_bytes_starts_with f a p s :
  all_bytes f s = true -> f a = false -> starts_with (String a p) s = false.
Proof.
  destruct s as [|b s]; simpl; [done|]. intros [Hb _]%andb_true_iff Ha.
  destruct (Ascii.eqb_spec a b) as [->|]; [congruence|done].
Qed.

Lemma all_bytes_ends_with f a p s :
  all_bytes f s = true -> f a = false -> ends_with (p +:+ String a "") s = false.
Proof.
  intros Hs Ha. unfold ends_with. rewrite srev_sapp. change (srev (String a "")) with (String a "").
  cbn [String.append]. eapply all_bytes_starts_with; [by rewrite all_bytes_srev|done].
Qed.

Lemma lower_byte_alnum a : is_alnum a = true -> is_alnum (lower_byte a) = true.
Proof. 
  destruct a as [[] [] [] [] [] [] [] []]; vm_compute; congruence. Qed.

Lemma eq_ignore_case_refl s : eq_ignore_case s s = true.
Proof. unfold eq_ignore_case. apply String.eqb_refl. Qed.

Lemma eq_ignore_case_sym s t : eq_ignore_case s t = eq_ignore_case t s.
Proof. unfold eq_ignore_case. apply String.eqb_sym. Qed.

Lemma sapp_inj s1 s2 t1 t2 :
  String.length s1 = String.length s2 -> s1 +:+ t1 = s2 +:+ t2 -> s1 = s2 /\ t1 = t2.
Proof.
  revert s2. induction s1 as [|a s1 IH]; intros [|b s2]; simpl; try done.
  intros [= Hl] [= -> Ht]. destruct (IH s2 Hl Ht) as [-> ->]. done.
Qed.

Create Rewrite HintDb rust_str.
#[export] Hint Rewrite sapp_nil_r sapp_assoc srev_sapp srev_involutive slength_sapp slength_srev
  has_char_sapp has_char_srev all_bytes_sapp all_bytes_srev : rust_str.
#[export] Hint Resolve starts_with_app ends_with_app strip_prefix_app : rust_str.
