(* ===== verification/Utf8.v ===== *)
(** UTF-8 as Rust checks it: the well-formed sequences, [String::from_utf8_lossy]
    on strings, [str::from_utf8] on byte lists, and the code point of one
    encoded character. *)
From S2P Require Import Prelude RustStr.

(** ** Definitions *)

Definition byte_of (a : ascii) : N := N_of_ascii a.
Definition in_range (lo hi : N) (a : ascii) : bool := (lo <=? byte_of a)%N && (byte_of a <=? hi)%N.

(** A UTF-8 continuation byte: not a character boundary. *)
Definition is_continuation (a : ascii) : bool := in_range 128 191 a.

(** How many bytes a sequence starting with [b] has; 0 when none does. *)
Definition sequence_length (b : ascii) : nat :=
  if in_range 194 223 b then 2 else if in_range 224 239 b then 3 else if in_range 240 244 b then 4 else 0.

Definition second_ok (b1 b2 : ascii) : bool :=
  if (byte_of b1 =? 224)%N then in_range 160 191 b2
  else if (byte_of b1 =? 237)%N then in_range 128 159 b2
  else if (byte_of b1 =? 240)%N then in_range 144 191 b2
  else if (byte_of b1 =? 244)%N then in_range 128 143 b2
  else is_continuation b2.

(** U+FFFD *)
Definition REPLACEMENT : string := String "239" (String "191" (String "189" "")).

(** [String::from_utf8_lossy]: each maximal broken sequence becomes one U+FFFD. *)
Fixpoint from_utf8_lossy (s : string) : string :=
  match s with
  | "" => ""
  | String b1 s1 =>
      if (byte_of b1 <? 128)%N then String b1 (from_utf8_lossy s1)
      else match sequence_length b1 with
           | O => REPLACEMENT +:+ from_utf8_lossy s1
           | n =>
               match s1 with
               | "" => REPLACEMENT
               | String b2 s2 =>
                   if negb (second_ok b1 b2) then REPLACEMENT +:+ from_utf8_lossy s1
                   else if (n =? 2)%nat then String b1 (String b2 (from_utf8_lossy s2))
                   else match s2 with
                        | "" => REPLACEMENT
                        | String b3 s3 =>
                            if negb (is_continuation b3) then REPLACEMENT +:+ from_utf8_lossy s2
                            else if (n =? 3)%nat then String b1 (String b2 (String b3 (from_utf8_lossy s3)))
                            else match s3 with
                                 | "" => REPLACEMENT
                                 | String b4 s4 =>
                                     if negb (is_continuation b4) then REPLACEMENT +:+ from_utf8_lossy s3
                                     else String b1 (String b2 (String b3 (String b4 (from_utf8_lossy s4))))
                                 end
                        end
               end
           end
  end.

(** The bytes of a Rust [String]: decoding them loses nothing. *)
Definition is_utf8 (s : string) : Prop := from_utf8_lossy s = s.


(** [u8::is_ascii] *)
Definition is_ascii_byte (a : ascii) : bool := (byte_of a <? 128)%N.

(** The rest of the bytes after the first character, when it is well formed. *)
Definition split_char1 (l : list ascii) : option (list ascii * list ascii) :=
  match l with
  | [] => None
  | b1 :: l1 =>
      if is_ascii_byte b1 then Some ([b1], l1)
      else match sequence_length b1, l1 with
           | 2, b2 :: l2 => if second_ok b1 b2 then Some ([b1; b2], l2) else None
           | 3, b2 :: b3 :: l3 => if second_ok b1 b2 && is_continuation b3 then Some ([b1; b2; b3], l3) else None
           | 4, b2 :: b3 :: b4 :: l4 =>
               if second_ok b1 b2 && is_continuation b3 && is_continuation b4 then Some ([b1; b2; b3; b4], l4) else None
           | _, _ => None
           end
  end.

(** Whether [str::from_utf8] accepts the bytes. *)
Fixpoint valid_utf8_fuel (fuel : nat) (l : list ascii) : bool :=
  match l, fuel with
  | [], _ => true
  | _, O => false
  | _, S fuel' => match split_char1 l with Some (_, rest) => valid_utf8_fuel fuel' rest | None => false end
  end.
Definition valid_utf8 (l : list ascii) : bool := valid_utf8_fuel (length l) l.

(** The code point of one encoded character. *)
Definition code_point (c : list ascii) : N :=
  match c with
  | [b1] => byte_of b1
  | [b1; b2] => (byte_of b1 mod 32) * 64 + byte_of b2 mod 64
  | [b1; b2; b3] => ((byte_of b1 mod 16) * 64 + byte_of b2 mod 64) * 64 + byte_of b3 mod 64
  | [b1; b2; b3; b4] =>
      (((byte_of b1 mod 8) * 64 + byte_of b2 mod 64) * 64 + byte_of b3 mod 64) * 64 + byte_of b4 mod 64
  | _ => 0
  end.

(** [char::is_whitespace]: the Unicode property White_Space. *)
Definition is_char_whitespace (c : N) : bool :=
  existsb (N.eqb c) [9; 10; 11; 12; 13; 32; 133; 160; 5760; 8232; 8233; 8239; 8287; 12288]%N
  || ((8192 <=? c) && (c <=? 8202))%N.

(** ** Properties *)

(** A byte list cut into well-formed characters. *)
Inductive utf8 : list ascii -> Prop :=
| utf8_nil : utf8 []
| utf8_cons c rest l : split_char1 l = Some (c, rest) -> utf8 rest -> utf8 l.

Lemma in_range_wide lo hi b : (128 <= lo)%N -> in_range lo hi b = true -> is_ascii_byte b = false.
Proof. unfold in_range, is_ascii_byte. intros Hlo [H _]%andb_true_iff. apply N.leb_le in H. apply N.ltb_ge. lia. Qed.

Lemma continuation_wide b : is_continuation b = true -> is_ascii_byte b = false.
Proof. by apply in_range_wide. Qed.

Lemma second_wide b1 b2 : second_ok b1 b2 = true -> is_ascii_byte b2 = false.
Proof. unfold second_ok. repeat case_match; by apply in_range_wide. Qed.

(** A character is one ASCII byte, or several bytes none of which is ASCII. *)
Lemma split_char1_Some l c rest :
  split_char1 l = Some (c, rest) ->
  l = c ++ rest /\ ((exists b, c = [b] /\ is_ascii_byte b = true) \/ (2 <= length c /\ Forall (fun b => is_ascii_byte b = false) c)).
Proof.
  destruct l as [|b1 l]; [done|]. cbn [split_char1]. destruct (is_ascii_byte b1) eqn:E1.
  { intros [= <- <-]. split; [done|]. left. eauto. }
  intros H. destruct (sequence_length b1) as [|[|[|[|[|n]]]]]; try done.
  - destruct l as [|b2 l]; [done|]. destruct (second_ok b1 b2) eqn:E2; [|done]. injection H as <- <-.
    split; [done|]. right. split; [cbn; lia|]. apply second_wide in E2. by repeat constructor.
  - destruct l as [|b2 [|b3 l]]; try done. destruct (second_ok b1 b2 && is_continuation b3) eqn:E2; [|done]. injection H as <- <-.
    split_andb. split; [done|]. right. split; [cbn; lia|]. repeat constructor; eauto using second_wide, continuation_wide.
  - destruct l as [|b2 [|b3 [|b4 l]]]; try done.
    destruct (second_ok b1 b2 && is_continuation b3 && is_continuation b4) eqn:E2; [|done]. injection H as <- <-.
    split_andb. split; [done|]. right. split; [cbn; lia|]. repeat constructor; eauto using second_wide, continuation_wide.
Qed.

(** Splitting looks at the character only. *)
Lemma split_char1_app c rest rest' : split_char1 (c ++ rest) = Some (c, rest) -> split_char1 (c ++ rest') = Some (c, rest').
Proof.
  intros H. assert (c <> []) as Hc by (intros ->; destruct rest as [|b1 [|b2 [|b3 [|b4 rest]]]]; cbn in H; repeat case_match; simplify_eq).
  revert H. destruct c as [|b1 [|b2 [|b3 [|b4 [|b5 c]]]]]; [done|..]; cbn;
    destruct rest as [|r1 [|r2 [|r3 [|r4 rest]]]], rest' as [|s1 [|s2 [|s3 [|s4 rest']]]]; cbn;
    repeat case_match; intros; simplify_eq; done.
Qed.

Lemma valid_utf8_fuel_spec fuel l : length l <= fuel -> valid_utf8_fuel fuel l = true <-> utf8 l.
Proof.
  revert l. induction fuel as [|fuel IH]; intros l Hl.
  - destruct l; cbn in *; [|lia]. split; [constructor|done].
  - destruct l as [|b l]; [split; [constructor|done]|]. cbn [valid_utf8_fuel].
    destruct (split_char1 (b :: l)) as [[c rest]|] eqn:E.
    + pose proof (split_char1_Some _ _ _ E) as [Heq Hc].
      assert (length rest <= fuel) as Hr.
      { apply (f_equal length) in Heq. rewrite length_app in Heq. destruct Hc as [(x & -> & _)|[? _]]; cbn in *; lia. }
      rewrite (IH rest Hr). split; [by apply utf8_cons with c|]. intros H. inversion H as [|c' rest' ? E']; subst. by simplify_eq.
    + split; [done|]. intros H. inversion H; simplify_eq.
Qed.

Lemma valid_utf8_spec l : valid_utf8 l = true <-> utf8 l.
Proof. by apply valid_utf8_fuel_spec. Qed.

Lemma utf8_ascii b l : is_ascii_byte b = true -> utf8 l -> utf8 (b :: l).
Proof. intros Hb H. apply utf8_cons with [b] l; [|done]. cbn. by rewrite Hb. Qed.

Lemma utf8_ascii_app c l : Forall (fun b => is_ascii_byte b = true) c -> utf8 l -> utf8 (c ++ l).
Proof. induction 1; cbn; auto using utf8_ascii. Qed.

Lemma utf8_head b l : utf8 (b :: l) -> is_continuation b = false.
Proof.
  intros H. inversion H as [|c rest ? Hs Hr]; subst. cbn [split_char1] in Hs.
  destruct (is_ascii_byte b) eqn:Ea.
  - destruct (is_continuation b) eqn:E; [|done]. apply continuation_wide in E. congruence.
  - destruct (is_continuation b) eqn:E; [|done]. exfalso. assert (sequence_length b = 0) as H0; [|by rewrite H0 in Hs].
    unfold is_continuation, in_range in E. split_andb. breflect. unfold sequence_length, in_range.
    repeat (rewrite (proj2 (andb_false_iff _ _)) by (left; apply N.leb_gt; lia)). done.
Qed.

(** After an ASCII byte comes the start of a character. *)
Lemma utf8_after_ascii l i b c :
  utf8 l -> l !! i = Some b -> is_ascii_byte b = true -> l !! S i = Some c -> is_continuation c = false.
Proof.
  intros H. revert i. induction H as [|ch rest l Hs Hrest IH]; intros i Hi Hb Hc; [done|].
  apply split_char1_Some in Hs as [-> Hch]. destruct (decide (length ch <= i)) as [Hle|Hlt].
  - apply (IH (i - length ch)); [by rewrite <- Hi, lookup_app_r|done|].
    rewrite <- Hc, lookup_app_r by lia. f_equal. lia.
  - destruct Hch as [(x & -> & Hx)|[_ Hw]].
    + cbn in Hlt. assert (i = 0) as -> by lia. cbn in Hc. destruct rest as [|r rest]; [done|]. injection Hc as ->.
      by eapply utf8_head.
    + rewrite lookup_app_l in Hi by lia. rewrite Forall_lookup in Hw. specialize (Hw _ _ Hi). congruence.
Qed.
