(* ===== verification/Floats.v ===== *)
(** * Floating-point numbers (Rust's [f32] and [f64]: [str::parse], [total_cmp])

    A number is its bits.  The text of one is read exactly, as a mantissa and a
    power of ten, and rounded once, to the nearest with ties to even; the order
    of [total_cmp] is that of the bits as a signed integer, the magnitude of a
    negative number flipped. *)
From S2P Require Import Prelude RustStr Order.

(** ** Definitions *)

(** [num / den] over [2 ^ k] *)
Definition scaled (num den k : Z) : Z * Z := if (0 <=? k)%Z then (num, den * 2 ^ k)%Z else (num * 2 ^ (- k), den)%Z.

Definition round_half_even (num den : Z) : Z :=
  let q := (num / den)%Z in let r := (num mod den)%Z in
  if (2 * r <? den)%Z then q else if (den <? 2 * r)%Z then (q + 1)%Z else if Z.even q then q else (q + 1)%Z.

(** The exponent of the leading bit of [num / den]. *)
Definition floor_log2 (num den : Z) : Z :=
  let k := (Z.log2 num - Z.log2 den)%Z in let '(n, d) := scaled num den k in if (n <? d)%Z then (k - 1)%Z else k.

(** The digits at the head of a text: their value, their number, and the rest. *)
Fixpoint take_digits (s : string) (value : N) (count : nat) : N * nat * string :=
  match s with
  | String a rest => if is_digit a then take_digits rest (value * 10 + (N_of_ascii a - 48))%N (S count) else (value, count, s)
  | "" => (value, count, "")
  end.

(** [e], a sign and digits, or nothing at all. *)
Definition parse_exponent (s : string) : option Z :=
  match s with
  | "" => Some 0%Z
  | String a rest =>
      if (Ascii.eqb a "e" || Ascii.eqb a "E")%char then
        let '(negative, rest) := match rest with String "-" r => (true, r) | String "+" r => (false, r) | r => (false, r) end in
        let '(value, count, rest) := take_digits rest 0%N 0 in
        if (count =? 0) || negb (is_empty_str rest) then None else Some (if negative : bool then (- Z.of_N value)%Z else Z.of_N value)
      else None
  end.

(** A format: the bits of the fraction, the exponent of the least number, and the sign's bit. *)
Record Format := mkFormat { fraction_bits : Z; least_exponent : Z; sign_position : Z }.
Definition single : Format := mkFormat 23 (-149) 31.
Definition double : Format := mkFormat 52 (-1074) 63.

Section format.
Context (f : Format).

Definition float_sign : Z := (2 ^ sign_position f)%Z.
Definition float_infinity : Z := ((2 ^ (sign_position f - fraction_bits f) - 1) * 2 ^ fraction_bits f)%Z.
Definition float_nan : Z := (float_infinity + 2 ^ (fraction_bits f - 1))%Z.

(** The nearest number to [num / den], both positive. *)
Definition round_ratio (num den : Z) : Z :=
  let q := Z.max (floor_log2 num den - fraction_bits f)%Z (least_exponent f) in
  let '(n, d) := scaled num den q in Z.min ((q - least_exponent f) * 2 ^ fraction_bits f + round_half_even n d)%Z float_infinity.

(** [mantissa * 10 ^ exponent] *)
Definition of_decimal (mantissa : N) (exponent : Z) : Z :=
  if (mantissa =? 0)%N then 0%Z
  else if (0 <=? exponent)%Z then round_ratio (Z.of_N mantissa * 10 ^ exponent)%Z 1%Z else round_ratio (Z.of_N mantissa) (10 ^ (- exponent))%Z.

(** A text without its sign. *)
Definition parse_unsigned (s : string) : option Z :=
  if eq_ignore_case s "inf" || eq_ignore_case s "infinity" then Some float_infinity
  else if eq_ignore_case s "nan" then Some float_nan
  else
    let '(value, whole, rest) := take_digits s 0%N 0 in
    let '(value, fraction, rest) := match rest with String "." r => take_digits r value 0 | r => (value, 0, r) end in
    if whole + fraction =? 0 then None
    else exponent ← parse_exponent rest; Some (of_decimal value (exponent - Z.of_nat fraction)%Z).

(** [str::parse] *)
Definition parse_float (s : string) : option Z :=
  match s with
  | String "-" rest => (fun b => (b + float_sign)%Z) <$> parse_unsigned rest
  | String "+" rest => parse_unsigned rest
  | _ => parse_unsigned s
  end.

Definition magnitude (x : Z) : Z := (if (x <? float_sign)%Z then x else x - float_sign)%Z.
Definition is_nan (x : Z) : bool := (float_infinity <? magnitude x)%Z.

(** [x.is_finite() && x > 0.0] *)
Definition finite_positive (x : Z) : bool := ((0 <? x) && (x <? float_infinity))%Z.

(** The numerator and denominator of a positive number. *)
Definition ratio_of (x : Z) : Z * Z :=
  let e := (x / 2 ^ fraction_bits f)%Z in let fraction := (x mod 2 ^ fraction_bits f)%Z in
  let mantissa := if (e =? 0)%Z then fraction else (2 ^ fraction_bits f + fraction)%Z in
  scaled mantissa 1 (- (Z.max 1 e - 1 + least_exponent f))%Z.

(** [x.trunc()] of a positive number *)
Definition truncated (x : Z) : Z := let '(n, d) := ratio_of x in (n / d)%Z.

(** [x <= 0.0] *)
Definition not_positive (x : Z) : bool := negb (is_nan x) && ((float_sign <=? x)%Z || (x =? 0)%Z).

(** [total_cmp] *)
Definition total_key (x : Z) : Z := (if (x <? float_sign)%Z then x else - 1 - (x - float_sign))%Z.
Definition total_cmp : Z -> Z -> comparison := by_key total_key Z.compare.
End format.

Definition f32 : Type := Z.
Definition f64 : Type := Z.
Definition f32_one : f32 := 1065353216%Z.
Definition parse_f32 : string -> option f32 := parse_float single.
Definition parse_f64 : string -> option f64 := parse_float double.

(** ** Properties *)

#[export] Instance Z_cmp_order : CmpOrder Z.compare.
Proof. split; [apply Z.compare_antisym|intros x y z; rewrite !Z.compare_le_iff; lia]. Qed.

#[export] Instance total_cmp_order : CmpOrder (total_cmp single).
Proof. apply by_key_order, Z_cmp_order. Qed.

(** What the text of a number means, against the bits of the standard. *)
Example parse_f32_examples :
  parse_f32 "1" = Some f32_one /\ parse_f32 "0.9" = Some 1063675494%Z /\ parse_f32 "0.1" = Some 1036831949%Z /\ parse_f32 ".5" = Some 1056964608%Z /\
  parse_f32 "5." = Some 1084227584%Z /\ parse_f32 "16777217" = Some 1266679808%Z /\ parse_f32 "1e-45" = Some 1%Z /\ parse_f32 "1e39" = Some (float_infinity single) /\
  parse_f32 "-0" = Some (float_sign single) /\ parse_f32 "NaN" = Some (float_nan single) /\ parse_f32 "3.4028235e38" = Some 2139095039%Z /\
  parse_f32 "." = None /\ parse_f32 "" = None /\ parse_f32 "1e" = None /\ parse_f32 " 1" = None.
Proof. vm_compute. by split_and!. Qed.

Example total_cmp_examples :
  total_cmp single (float_nan single) (float_infinity single) = Gt /\ total_cmp single 0%Z (float_sign single) = Gt /\ not_positive single (float_nan single) = false /\
  not_positive single (float_sign single) = true /\ not_positive single 1%Z = false.
Proof. vm_compute. by split_and!. Qed.

Example parse_f64_examples :
  parse_f64 "1" = Some 4607182418800017408%Z /\ parse_f64 "0.1" = Some 4591870180066957722%Z /\ parse_f64 "5e-324" = Some 1%Z /\
  parse_f64 "1.7976931348623157e308" = Some 9218868437227405311%Z /\ parse_f64 "1e309" = Some (float_infinity double) /\
  truncated double 4607182418800017408%Z = 1%Z /\ truncated double 4591870180066957722%Z = 0%Z /\ truncated double 4681608360884174848%Z = 100000%Z.
Proof. vm_compute. by split_and!. Qed.
