(* ===== verification/Text.v ===== *)
(** Methods of [str] on the bytes of a text: searching, stripping, trimming,
    splitting into lines, slicing and parsing.  A character is what
    [split_char1] reads; whitespace is the Unicode property. *)
From S2P Require Import Prelude RustStr Utf8.

(** ** Definitions *)

(** The bytes of a literal. *)
Definition bytes_of (s : string) : list ascii := String.list_ascii_of_string s.
Definition text_of (l : list ascii) : string := String.string_of_list_ascii l.

(** [str::find] *)
Fixpoint find_bytes (p l : list ascii) : option nat :=
  if bool_decide (take (length p) l = p) then Some 0
  else match l with [] => None | _ :: rest => S <$> find_bytes p rest end.

(** [str::strip_prefix] and [str::trim_start] *)
Definition strip_bytes (p : string) (l : list ascii) : option (list ascii) :=
  let p := bytes_of p in
  if bool_decide (take (length p) l = p) then Some (drop (length p) l) else None.
Fixpoint trim_start_loop (fuel : nat) (l : list ascii) : list ascii :=
  match fuel, split_char1 l with
  | S fuel, Some (c, rest) => if is_char_whitespace (code_point c) then trim_start_loop fuel rest else l
  | _, _ => l
  end.
Definition trim_start (l : list ascii) : list ascii := trim_start_loop (length l) l.


(** [str::trim_end]: cut after the last character that is not whitespace. *)
Fixpoint solid_length (fuel : nat) (l : list ascii) (pos best : nat) : nat :=
  match fuel, split_char1 l with
  | S fuel, Some (c, rest) =>
      let pos := pos + length c in
      solid_length fuel rest pos (if is_char_whitespace (code_point c) then best else pos)
  | _, _ => best
  end.
Definition trim_end (l : list ascii) : list ascii := take (solid_length (length l) l 0 0) l.
Definition trim_text (l : list ascii) : list ascii := trim_end (trim_start l).

(** [str::strip_suffix] *)
Definition strip_suffix_bytes (p : string) (l : list ascii) : option (list ascii) :=
  let p := bytes_of p in
  if bool_decide (drop (length l - length p) l = p) && (length p <=? length l) then Some (take (length l - length p) l)
  else None.

(** [trim_end_matches(c)] and [trim_matches([..])] for ASCII characters *)
Fixpoint drop_while (p : ascii -> bool) (l : list ascii) : list ascii :=
  match l with
  | b :: rest => if p b then drop_while p rest else l
  | [] => []
  end.
Definition trim_end_matches (p : ascii -> bool) (l : list ascii) : list ascii := rev (drop_while p (rev l)).
Definition trim_matches (p : ascii -> bool) (l : list ascii) : list ascii := trim_end_matches p (drop_while p l).

(** [str::lines]: split after each line feed; a carriage return before it goes
    with it; nothing follows a final line feed. *)
Definition chop_return (line : list ascii) : list ascii :=
  match rev line with
  | b :: rest => if Ascii.eqb b "013" then rev rest else line
  | [] => []
  end.
Fixpoint lines_from (line : list ascii) (l : list ascii) : list (list ascii) :=
  match l with
  | [] => match line with [] => [] | _ => [line] end
  | b :: rest => if Ascii.eqb b "010" then chop_return line :: lines_from [] rest else lines_from (line ++ [b]) rest
  end.
Definition lines (l : list ascii) : list (list ascii) := lines_from [] l.

(** [is_char_boundary], and [&text[first..last]]: [None] is a panic, or what [get] answers. *)
Definition is_char_boundary (l : list ascii) (i : nat) : bool :=
  (i =? 0) || (i =? length l) || match l !! i with Some b => negb (is_continuation b) | None => false end.
Definition slice_text (l : list ascii) (first last : nat) : option (list ascii) :=
  if (first <=? last) && is_char_boundary l first && is_char_boundary l last then Some (take (last - first) (drop first l))
  else None.

(** [parse::<u64>] *)
Definition parse_u64 (l : list ascii) : option N := parse_uint u64_max (text_of l).

(** ** Properties *)

(** An offset next to an ASCII byte, or at either end, is a boundary. *)
Lemma boundary_at l i : utf8 l -> i <= length l ->
  (i = 0 \/ i = length l \/ (exists b, l !! i = Some b /\ is_ascii_byte b = true) \/
   (exists b, l !! (i - 1) = Some b /\ is_ascii_byte b = true)) -> is_char_boundary l i = true.
Proof.
  intros Hu Hi H. unfold is_char_boundary. destruct (decide (i = 0)) as [->|H0]; [done|].
  destruct (decide (i = length l)) as [->|Hl]; [by rewrite Nat.eqb_refl, orb_true_r|]. apply orb_true_iff. right.
  destruct (lookup_lt_is_Some_2 l i) as [c Hc]; [lia|]. rewrite Hc. apply negb_true_iff.
  destruct H as [?|[?|[(b & Hb & Ha)|(b & Hb & Ha)]]]; try lia.
  - rewrite Hc in Hb. injection Hb as ->. destruct (is_continuation b) eqn:E; [|done]. apply continuation_wide in E. congruence.
  - apply (utf8_after_ascii l (i - 1) b c); [done..|]. by replace (S (i - 1)) with i by lia.
Qed.

Lemma slice_text_Some l first last : first <= last ->
  is_char_boundary l first = true -> is_char_boundary l last = true ->
  slice_text l first last = Some (take (last - first) (drop first l)).
Proof. intros H H1 H2. unfold slice_text. apply Nat.leb_le in H. by rewrite H, H1, H2. Qed.

Lemma slice_text_inv l first last r : slice_text l first last = Some r -> r = take (last - first) (drop first l).
Proof. unfold slice_text. destruct (_ && _ && _); [|done]. by intros [= <-]. Qed.

(** Where [str::find] finds its pattern: there, and nowhere before. *)
Lemma find_bytes_Some p l n :
  find_bytes p l = Some n -> take (length p) (drop n l) = p /\ forall k, k < n -> take (length p) (drop k l) <> p.
Proof.
  revert n. induction l as [|b l IH]; intros n; cbn [find_bytes].
  - destruct (bool_decide_reflect (take (length p) [] = p)); [|done]. intros [= <-]. rewrite drop_0. split; [done|lia].
  - destruct (bool_decide_reflect (take (length p) (b :: l) = p)) as [E|E].
    + intros [= <-]. rewrite drop_0. split; [done|lia].
    + intros (n' & Hn & ->)%fmap_Some. destruct (IH n' Hn) as [H1 H2]. split; [done|].
      intros [|k] Hk; [by rewrite drop_0|]. apply H2. lia.
Qed.

Lemma find_bytes_None p l k : find_bytes p l = None -> k <= length l -> take (length p) (drop k l) <> p.
Proof.
  revert k. induction l as [|b l IH]; intros k; cbn [find_bytes].
  - destruct (bool_decide_reflect (take (length p) [] = p)); [done|]. intros _ Hk. cbn in Hk. by replace k with 0 by lia.
  - destruct (bool_decide_reflect (take (length p) (b :: l) = p)) as [E|E]; [done|]. intros Hn%fmap_None Hk.
    destruct k as [|k]; [done|]. apply IH; [done|]. cbn in Hk. lia.
Qed.
