(* ===== verification/Paths.v ===== *)
(** [std::path::Path] as its components, read as on Unix: comparison, prefixes,
    ancestors and the parts of the last component. *)
From S2P Require Import Prelude Order RustStr.

(** ** Definitions *)

(** A [Path] as its components: [PathBuf] compares by them. *)
Record Path := mkPath { absolute : bool; comps : list string }.

#[export] Instance path_eq_dec : EqDecision Path.
Proof. solve_decision. Defined.
#[export] Instance path_countable : Countable Path.
Proof.
  refine (inj_countable' (fun p => (absolute p, comps p)) (fun '(a, c) => mkPath a c) _). by intros [].
Defined.

(** [Path::new] on a separator-delimited text: empty components vanish, and [.]
    is kept only as the first component of a relative path. *)
Definition path_new (s : string) : Path :=
  let abs := starts_with "/" s in
  let parts := filter (fun c => is_empty_str c = false) (split_char "/"%char s) in
  let no_dots := filter (fun c => c ≠ ".") in
  mkPath abs (match parts with
              | "." :: rest => if abs then no_dots rest else "." :: no_dots rest
              | _ => no_dots parts
              end).

(** [Path::ancestors], the path itself first. *)
Fixpoint prefixes (fuel : nat) (l : list string) : list (list string) :=
  l :: match fuel, l with
       | S fuel', _ :: _ => prefixes fuel' (take (length l - 1) l)
       | _, _ => []
       end.
Definition ancestors (p : Path) : list Path := mkPath (absolute p) <$> prefixes (length (comps p)) (comps p).

Definition file_name (p : Path) : option string := last (comps p).

(** [Path::extension]: what follows the last dot, unless it opens the name. *)
Definition extension (name : string) : option string :=
  match split_once "."%char (srev name) with
  | Some (ext, rest) => if is_empty_str rest then None else Some (srev ext)
  | None => None
  end.


(** [Path::file_stem]: the name before its last dot, unless that dot opens it. *)
Definition file_stem_of (name : string) : string :=
  match split_once "."%char (srev name) with
  | Some (_, rest) => if is_empty_str rest then name else srev rest
  | None => name
  end.
Definition path_stem (p : Path) : option string := file_stem_of <$> file_name p.

(** [Path::starts_with] and [Path::strip_prefix] *)
Definition strip_base (base p : Path) : option (list string) :=
  if bool_decide (absolute base = absolute p) && bool_decide (take (length (comps base)) (comps p) = comps base)
  then Some (drop (length (comps base)) (comps p)) else None.
Definition path_starts_with (base p : Path) : bool := bool_decide (is_Some (strip_base base p)).

(** The order of [Path]: an absolute path after every relative one, then component by component. *)
Definition path_order : Path -> Path -> comparison :=
  lex_cmp (by_key (fun p => if absolute p then 1 else 0) Nat.compare) (by_key comps (list_cmp String.compare)).

(** [Path::to_string_lossy] *)
Definition path_text (p : Path) : string := (if absolute p then "/" else "") +:+ join "/" (comps p).
