(* ===== verification/PathBuf.v ===== *)
(** [std::path::PathBuf] as the text it holds, on Unix.

    [Paths] reads a path as its components, which is how paths compare.  What
    [join], [with_extension] and a pushed suffix do depends on the text itself:
    a trailing separator or dot stays in it.  The functions here are the ones
    of the standard library on that text; [path_new] gives the components. *)
From S2P Require Import Prelude RustStr Paths.

(** ** Definitions *)

Abbreviation PathBuf := string.

(** [Path::is_absolute] *)
Definition is_absolute (p : PathBuf) : bool := starts_with "/" p.

(** [Path::join] *)
Definition join_path (base p : PathBuf) : PathBuf :=
  if is_absolute p then p
  else if is_empty_str base || ends_with "/" base then base +:+ p else base +:+ "/" +:+ p.

(** The text without the separators and dots that end no component, reversed. *)
Fixpoint strip_trail (reversed : string) : string :=
  match reversed with
  | String "/" rest => strip_trail rest
  | String "." (String "/" _ as rest) => strip_trail rest
  | _ => reversed
  end.

(** What follows the last separator, and what comes before it, the separator included. *)
Fixpoint split_last (reversed : string) : string * string :=
  match reversed with
  | "" => ("", "")
  | String c rest =>
      if Ascii.eqb c "/" then (srev reversed, "")
      else let '(before, name) := split_last rest in (before, name +:+ String c "")
  end.

Definition last_segment (p : PathBuf) : string * string := split_last (strip_trail (srev p)).

(** [Path::file_name], with the text before it. *)
Definition file_part (p : PathBuf) : option (string * string) :=
  let '(before, name) := last_segment p in
  if existsb (String.eqb name) [""; "."; ".."] then None else Some (before, name).
Definition file_name_of (p : PathBuf) : option string := snd <$> file_part p.

(** [Path::extension] *)
Definition extension_of (p : PathBuf) : option string := file_name_of p ≫= extension.

(** [Path::with_extension] *)
Definition with_extension (p : PathBuf) (ext : string) : PathBuf :=
  match file_part p with
  | None => p
  | Some (before, name) => before +:+ file_stem_of name +:+ (if is_empty_str ext then "" else "." +:+ ext)
  end.

(** [Path::parent] *)
Definition parent_of (p : PathBuf) : option PathBuf :=
  let '(before, name) := last_segment p in
  if is_empty_str name then None
  else match srev (strip_trail (srev before)) with
       | "" => Some (if is_empty_str before then "" else "/")
       | trimmed => Some trimmed
       end.

(** [Path::ancestors], as the loops over [parent] walk them. *)
Fixpoint ancestors_from (fuel : nat) (p : PathBuf) : list PathBuf :=
  p :: match fuel with
       | O => []
       | S fuel => match parent_of p with Some q => ancestors_from fuel q | None => [] end
       end.
Definition ancestors_of (p : PathBuf) : list PathBuf := ancestors_from (String.length p) p.

(** [==] on paths, and [Path::starts_with]. *)
Definition same_path (p q : PathBuf) : bool := bool_decide (path_new p = path_new q).
Definition inside (base p : PathBuf) : bool := path_starts_with (path_new base) (path_new p).

(** [Path::components]: each is a name, and none steps out. *)
Definition all_normal (p : PathBuf) : bool :=
  negb (is_absolute p) && forallb (fun c => negb (String.eqb c ".") && negb (String.eqb c "..")) (comps (path_new p)).

(** ** Properties *)

Example join_texts :
  join_path "/a" "b/c" = "/a/b/c" /\ join_path "/a/" "b" = "/a/b" /\ join_path "" "b" = "b" /\ join_path "/a" "/b" = "/b" /\
  with_extension "/a/x.js" "ts" = "/a/x.ts" /\ with_extension "/a/x.js/." "ts" = "/a/x.ts" /\ with_extension "/a/.." "ts" = "/a/.." /\
  with_extension "/a/.x" "ts" = "/a/.x.ts" /\ extension_of "a/b.c.d" = Some "d" /\ extension_of ".env" = None.
Proof. vm_compute. by repeat split. Qed.

Example parent_texts :
  parent_of "/a/b" = Some "/a" /\ parent_of "/a" = Some "/" /\ parent_of "/" = None /\ parent_of "a" = Some "" /\ parent_of "" = None /\
  parent_of "./a" = Some "." /\ parent_of "." = Some "" /\ parent_of "a/./b/" = Some "a" /\ parent_of "//a" = Some "/" /\
  ancestors_of "/a/b" = ["/a/b"; "/a"; "/"].
Proof. vm_compute. by repeat split. Qed.

Lemma strip_trail_length s : String.length (strip_trail s) <= String.length s.
Proof.
  induction s as [|c s IH]; [done|]. cbn [strip_trail].
  repeat case_match; subst; cbn [String.length] in *; lia.
Qed.

Lemma split_last_join s : forall before name, split_last s = (before, name) -> before +:+ name = srev s.
Proof.
  induction s as [|c s IH]; intros before name; cbn [split_last]; [by intros [= <- <-]|].
  destruct (Ascii.eqb c "/"); [intros [= <- <-]; by rewrite sapp_nil_r|].
  destruct (split_last s) as [b n]. intros [= <- <-]. by rewrite <- sapp_assoc, (IH b n), srev_cons.
Qed.

Lemma parent_of_shorter p q : parent_of p = Some q -> String.length q < String.length p.
Proof.
  unfold parent_of, last_segment. destruct (split_last (strip_trail (srev p))) as [before name] eqn:E.
  apply split_last_join, (f_equal String.length) in E. rewrite slength_sapp, slength_srev in E.
  pose proof (strip_trail_length (srev p)) as Hs. rewrite slength_srev in Hs.
  pose proof (strip_trail_length (srev before)) as Hb. rewrite slength_srev in Hb.
  destruct name as [|c name]; [done|]. cbn [is_empty_str String.length] in *.
  destruct (srev (strip_trail (srev before))) as [|d t] eqn:Et.
  - intros [= <-]. destruct before; cbn in *; lia.
  - intros [= <-]. apply (f_equal String.length) in Et. rewrite slength_srev in Et. lia.
Qed.

(** The walk upward is complete: more fuel finds no more. *)
Lemma ancestors_from_fuel fuel : forall p, String.length p <= fuel -> ancestors_from fuel p = ancestors_of p.
Proof.
  assert (forall n fuel p, fuel <= n -> String.length p <= fuel -> ancestors_from fuel p = ancestors_of p) as H.
  2:{ intros p Hp. by eapply H. }
  clear fuel. induction n as [n IH] using lt_wf_ind. intros fuel p Hn Hp. unfold ancestors_of.
  destruct fuel as [|fuel]; [by replace (String.length p) with 0 by lia|]. cbn [ancestors_from].
  destruct (parent_of p) as [q|] eqn:Eq.
  - pose proof (parent_of_shorter p q Eq). destruct (String.length p) as [|m] eqn:Em; [lia|]. cbn [ancestors_from]. rewrite Eq.
    f_equal. rewrite (IH fuel) by lia. destruct (decide (m < n)) as [Hm|Hm]; [by rewrite (IH m) by lia|].
    assert (m = fuel) as -> by lia. by rewrite (IH fuel) by lia.
  - destruct (String.length p) as [|m]; cbn [ancestors_from]; by rewrite ?Eq.
Qed.

Lemma ancestors_of_step p :
  ancestors_of p = p :: match parent_of p with Some q => ancestors_of q | None => [] end.
Proof.
  unfold ancestors_of at 1. destruct (String.length p) as [|n] eqn:En.
  - cbn [ancestors_from]. destruct (parent_of p) as [q|] eqn:Eq; [|done]. apply parent_of_shorter in Eq. lia.
  - cbn [ancestors_from]. destruct (parent_of p) as [q|] eqn:Eq; [|done]. apply parent_of_shorter in Eq.
    by rewrite ancestors_from_fuel by lia.
Qed.
