(* ===== verification/FileProbe.v ===== *)
(** Which file on disk a path stands for, and how an import may spell it
    (crates/ruvyxa_bundler/src/resolver.rs, its probing half).

    The file system is a parameter: [is_file] and [canonicalize], which is
    [None] where the path does not exist.  Paths are text ([PathBuf]). *)
From S2P Require Import Prelude RustStr Utf8 Text Paths PathBuf.

(** ** Definitions *)

(** [PROBE_EXTENSIONS] *)
Definition PROBE_EXTENSIONS : list string := ["ts"; "tsx"; "js"; "jsx"; "mts"; "cts"; "mjs"; "cjs"; "md"; "mdx"].

(** [typescript_source_extensions] *)
Definition typescript_source_extensions (ext : string) : list string :=
  match ext with
  | "js" => ["ts"; "tsx"; "jsx"]
  | "mjs" => ["mts"; "ts"]
  | "cjs" => ["cts"; "ts"]
  | "jsx" => ["tsx"]
  | _ => []
  end.

(** [with_appended_extension] *)
Definition with_appended_extension (p : PathBuf) (ext : string) : PathBuf := p +:+ "." +:+ ext.

(** The paths [resolve_file_candidate] probes, in order. *)
Definition file_candidates (joined : PathBuf) : list PathBuf :=
  let written := default "" (extension_of joined) in
  (with_extension joined <$> typescript_source_extensions written) ++ [joined] ++
  (with_appended_extension joined <$> PROBE_EXTENSIONS) ++
  ((fun ext => join_path joined ("index." +:+ ext)) <$> PROBE_EXTENSIONS).

(** One path segment an import spelled differently from the file on disk. *)
Record ImportCaseMismatch := mkMismatch { requested : string; resolved : string }.

(** [lexical_segments] *)
Definition lexical_segments (p : PathBuf) : list string :=
  foldl (fun segments c =>
    if String.eqb c "." then segments
    else if String.eqb c ".." then take (length segments - 1) segments
    else segments ++ [c]) [] (comps (path_new p)).

(** [differs_only_by_ascii_case] *)
Definition differs_only_by_ascii_case (a b : string) : bool := eq_ignore_case a b && negb (String.eqb a b).

(** The part of the resolved segment an import spelled; [None] where the cut is inside a character. *)
Definition comparable_part (is_last : bool) (asked found : string) : option string :=
  let cut := String.length asked in
  if is_last && (cut <? String.length found) then
    if is_char_boundary (bytes_of found) cut then Some (String.substring 0 cut found) else None
  else Some found.

(** The loop of [import_case_mismatch]; the caller has checked there are enough resolved segments. *)
Fixpoint mismatch_loop (asked found : list string) : option ImportCaseMismatch :=
  match asked, found with
  | a :: asked, f :: found =>
      match comparable_part (bool_decide (asked = [])) a f with
      | Some part => if differs_only_by_ascii_case a part then Some (mkMismatch a part) else mismatch_loop asked found
      | None => mismatch_loop asked found
      end
  | _, _ => None
  end.

(** [import_case_mismatch] *)
Definition import_case_mismatch (asked found : PathBuf) : option ImportCaseMismatch :=
  let asked := lexical_segments asked in
  let found := lexical_segments found in
  if bool_decide (asked = []) || (length found <? length asked) then None else mismatch_loop asked found.

(** [is_project_local] *)
Definition is_project_local (p project_root : PathBuf) : bool :=
  match strip_base (path_new project_root) (path_new p) with
  | Some rest => negb (bool_decide (head rest = Some "node_modules"))
  | None => false
  end.

Section probe.
Variables (is_file : PathBuf -> bool) (canonicalize : PathBuf -> option PathBuf).

(** [ruvyxa_diagnostics::normalized_canonical_path]: no verbatim prefixes on Unix. *)
Definition normalized_canonical_path (p : PathBuf) : PathBuf := default p (canonicalize p).

(** [resolve_file_candidate] *)
Definition resolve_file_candidate (joined : PathBuf) : option PathBuf :=
  normalized_canonical_path <$> find is_file (file_candidates joined).

(** [resolve_specifier] *)
Definition resolve_specifier (base_dir : PathBuf) (specifier : string) : option PathBuf :=
  resolve_file_candidate (join_path base_dir specifier).

(** [resolve_project_specifier] *)
Definition resolve_project_specifier (project_root : PathBuf) (specifier : string) : option PathBuf :=
  resolve_file_candidate (if is_absolute specifier then specifier else join_path project_root specifier).

(** [path_is_inside] *)
Definition path_is_inside (p project_root : PathBuf) : bool :=
  is_empty_str project_root || inside (normalized_canonical_path project_root) (normalized_canonical_path p).
End probe.

(** ** Properties *)

Section replay.
Let fs (files : list string) (p : PathBuf) : bool := existsb (same_path p) ((fun f => "/t/" +:+ f) <$> files).
Let probe files specifier := resolve_specifier (fs files) Some "/t" specifier.

Example file_probe_table :
  (probe ["util.inspect.js"; "util.js"] "./util.inspect", probe ["deep.min.js"] "./deep.min", probe ["x.ts"; "x.js"] "./x.js",
   probe ["x.js"] "./x.js", probe ["m.mts"] "./m.mjs", probe ["y"; "y.ts"] "./y", probe ["pkg/index.ts"] "./pkg",
   probe ["other.ts"] "./missing") =
  (Some "/t/./util.inspect.js", Some "/t/./deep.min.js", Some "/t/./x.ts", Some "/t/./x.js", Some "/t/./m.mts", Some "/t/./y",
   Some "/t/./pkg/index.ts", None).
Proof. vm_compute. reflexivity. Qed.
End replay.

Example case_table :
  import_case_mismatch "app/components/button" "app/components/button.tsx" = None /\
  import_case_mismatch "app/components/Button" "app/components/button.tsx" = Some (mkMismatch "Button" "button") /\
  import_case_mismatch "app/Components" "app/components/index.ts" = Some (mkMismatch "Components" "components") /\
  import_case_mismatch "app/foo" "app/bar.tsx" = None.
Proof. vm_compute. by repeat split. Qed.

(** A written extension other than the four that name a TypeScript source is only ever added to. *)
Lemma probes_append joined c : typescript_source_extensions (default "" (extension_of joined)) = [] ->
  c ∈ file_candidates joined -> starts_with joined c = true.
Proof.
  intros Hw Hc. unfold file_candidates in Hc. rewrite Hw in Hc. cbn [fmap list_fmap app] in Hc.
  apply elem_of_cons in Hc as [->|Hc]; [apply starts_with_true; exists ""; by rewrite sapp_nil_r|].
  apply elem_of_app in Hc as [Hc|Hc]; apply list_elem_of_fmap in Hc as (e & -> & He).
  - apply starts_with_app.
  - unfold join_path. change (is_absolute ("index." +:+ e)) with false. cbn match.
    destruct (is_empty_str joined || ends_with "/" joined); apply starts_with_app.
Qed.

(** *** Case *)

(** The import names the file when case is set aside: directory by directory,
    the last segment up to what the resolver appended. *)
Fixpoint names_up_to_case (asked found : list string) : Prop :=
  match asked, found with
  | [], _ => True
  | a :: asked, f :: found =>
      match asked with
      | [] => exists part rest, f = part +:+ rest /\ eq_ignore_case a part = true /\ is_char_boundary (bytes_of f) (String.length part) = true
      | _ => eq_ignore_case a f = true
      end /\ names_up_to_case asked found
  | _ :: _, [] => False
  end.

Fixpoint spelled_exactly (asked found : list string) : bool :=
  match asked, found with
  | [], _ => true
  | a :: asked, f :: found => (if bool_decide (asked = []) then starts_with a f else String.eqb a f) && spelled_exactly asked found
  | _ :: _, [] => false
  end.

Lemma map_bytes_length g s : String.length (map_bytes g s) = String.length s.
Proof. induction s as [|c s IH]; cbn; [done|by rewrite IH]. Qed.

Lemma eq_ignore_case_length a b : eq_ignore_case a b = true -> String.length a = String.length b.
Proof.
  unfold eq_ignore_case, to_ascii_lowercase. intros H%String.eqb_eq. apply (f_equal String.length) in H.
  by rewrite !map_bytes_length in H.
Qed.

Lemma comparable_part_prefix is_last a f part : comparable_part is_last a f = Some part -> starts_with part f = true.
Proof.
  unfold comparable_part. destruct (is_last && (String.length a <? String.length f)) eqn:E.
  - destruct (is_char_boundary _ _); [|done]. intros [= <-]. apply andb_true_iff in E as [_ E%Nat.ltb_lt].
    apply starts_with_true. exists (String.substring (String.length a) (String.length f - String.length a) f).
    revert E. generalize (String.length a). clear. induction f as [|c f IH]; intros [|n] H; cbn in *; try lia.
    + f_equal. clear. induction f as [|c f IH]; cbn; [done|by f_equal].
    + f_equal. apply IH. lia.
  - intros [= <-]. apply starts_with_true. exists "". by rewrite sapp_nil_r.
Qed.

Lemma comparable_part_named is_last a part rest : String.length a = String.length part ->
  (is_last = false -> rest = "") -> is_char_boundary (bytes_of (part +:+ rest)) (String.length part) = true ->
  comparable_part is_last a (part +:+ rest) = Some part.
Proof.
  intros Hl Hr Hb. unfold comparable_part. rewrite Hl, slength_sapp.
  destruct is_last; cbn [andb]; [|by rewrite (Hr eq_refl), sapp_nil_r].
  destruct (_ <? _) eqn:E; [by rewrite Hb, substring_take|].
  apply Nat.ltb_ge in E. destruct rest; [by rewrite sapp_nil_r|cbn in E; lia].
Qed.

Lemma mismatch_loop_sound asked : forall found m, mismatch_loop asked found = Some m ->
  eq_ignore_case (requested m) (resolved m) = true /\ requested m <> resolved m /\
  exists i f, asked !! i = Some (requested m) /\ found !! i = Some f /\ starts_with (resolved m) f = true.
Proof.
  induction asked as [|a asked IH]; intros [|f found] m; cbn [mismatch_loop]; try done.
  assert (mismatch_loop asked found = Some m -> eq_ignore_case (requested m) (resolved m) = true /\ requested m <> resolved m /\
    exists i f', (a :: asked) !! i = Some (requested m) /\ (f :: found) !! i = Some f' /\ starts_with (resolved m) f' = true) as Hrec.
  { intros H. apply IH in H as (H1 & H2 & i & f' & H3 & H4 & H5). split_and!; [done..|]. by exists (S i), f'. }
  destruct (comparable_part _ a f) as [part|] eqn:Ep; [|done].
  destruct (differs_only_by_ascii_case a part) eqn:Ed; [|done]. intros [= <-]. cbn.
  apply andb_true_iff in Ed as [Ed Hne%negb_true_iff%String.eqb_neq]. split_and!; [done..|].
  exists 0, f. split_and!; [done..|]. by eapply comparable_part_prefix.
Qed.

Lemma mismatch_loop_decides asked : forall found, names_up_to_case asked found ->
  mismatch_loop asked found = None <-> spelled_exactly asked found = true.
Proof.
  induction asked as [|a asked IH]; intros [|f found] Hn; cbn [mismatch_loop spelled_exactly]; try done.
  destruct Hn as [Ha Hn]. specialize (IH found Hn).
  assert (exists part rest, f = part +:+ rest /\ eq_ignore_case a part = true /\
    comparable_part (bool_decide (asked = [])) a f = Some part /\ (asked <> [] -> rest = "")) as (part & rest & -> & He & -> & Hr).
  { destruct asked as [|b asked].
    - destruct Ha as (part & rest & -> & He & Hb). exists part, rest. split_and!; [done..| |done].
      apply comparable_part_named; [by apply eq_ignore_case_length|done|done].
    - exists f, "". rewrite sapp_nil_r. split_and!; [done..| |done]. unfold comparable_part. by rewrite bool_decide_eq_false_2. }
  unfold differs_only_by_ascii_case. rewrite He. cbn [andb]. rewrite andb_true_iff, <- IH.
  assert ((if bool_decide (asked = []) then starts_with a (part +:+ rest) else String.eqb a (part +:+ rest)) = String.eqb a part) as ->.
  { destruct (bool_decide_reflect (asked = [])) as [|Hne]; [|by rewrite (Hr Hne), sapp_nil_r].
    apply eq_bool_prop_intro. rewrite !Is_true_true, starts_with_true, String.eqb_eq. split.
    - intros [r Hr']. apply eq_ignore_case_length in He. by destruct (sapp_inj part a rest r) as [-> _].
    - intros ->. by exists rest. }
  destruct (String.eqb a part); cbn [negb]; naive_solver.
Qed.

(** An import whose path names the resolved file up to the case of its
    letters, extensions and a directory index appended, passes the case check
    exactly when it spells every segment as the file system does; and whatever
    the paths, a report names a segment of the import that differs from what
    is on disk in the case of ASCII letters alone. *)
Theorem import_case_decides asked found :
  (forall m, import_case_mismatch asked found = Some m ->
     eq_ignore_case (requested m) (resolved m) = true /\ requested m <> resolved m /\
     exists i f, lexical_segments asked !! i = Some (requested m) /\ lexical_segments found !! i = Some f /\
       starts_with (resolved m) f = true) /\
  (names_up_to_case (lexical_segments asked) (lexical_segments found) ->
     import_case_mismatch asked found = None <-> spelled_exactly (lexical_segments asked) (lexical_segments found) = true).
Proof.
  unfold import_case_mismatch. set (a := lexical_segments asked). set (f := lexical_segments found). split.
  - destruct (_ || _); [done|]. intros m. apply mismatch_loop_sound.
  - intros Hn. rewrite <- mismatch_loop_decides by done. destruct (bool_decide_reflect (a = [])) as [->|Ha]; [done|]. cbn [orb].
    destruct (length f <? length a) eqn:E; [exfalso|done]. apply Nat.ltb_lt in E.
    clear Ha. clearbody a f. revert f Hn E. induction a as [|x a IH]; intros [|y f] Hn E; cbn in *; try lia.
    destruct Hn as [_ Hn]. apply (IH f Hn). lia.
Qed.
