(* ===== verification/PackageExports.v ===== *)
(** Resolving package specifiers (crates/ruvyxa_bundler/src/resolver.rs): the
    [exports] and [imports] maps, the legacy entry fields, the walk up the
    [node_modules] directories, and self references.

    The file system is a parameter, one snapshot for a run: [is_file],
    [canonicalize], and [read_package], the JSON of a package.json as the serde
    visitor builds it, [None] where it is missing or malformed. *)
From S2P Require Import Prelude Order RustStr Paths PathBuf FileProbe.

(** ** Definitions *)

(** JSON in declaration order; [PUnsupported] is a number or a boolean. *)
Inductive PackageJsonValue :=
  | PNull
  | PString (s : string)
  | PArray (values : list PackageJsonValue)
  | PObject (map : list (string * PackageJsonValue))
  | PUnsupported.

Inductive BundleTarget := TClient | TSsr | TEdge | TReactServer.
#[export] Instance BundleTarget_eq_dec : EqDecision BundleTarget.
Proof. solve_decision. Defined.

Record PackageManifest := mkManifest {
  pm_exports : option PackageJsonValue;
  pm_imports : option PackageJsonValue;
  pm_name : option string;
  pm_browser : option string;
  pm_module : option string;
  pm_main : option string;
}.
Definition empty_manifest : PackageManifest := mkManifest None None None None None None.

(** One field of a package.json. *)
Definition manifest_field (m : PackageManifest) (field : string) (value : PackageJsonValue) : PackageManifest :=
  match field, value with
  | "exports", v => mkManifest (Some v) (pm_imports m) (pm_name m) (pm_browser m) (pm_module m) (pm_main m)
  | "imports", v => mkManifest (pm_exports m) (Some v) (pm_name m) (pm_browser m) (pm_module m) (pm_main m)
  | "name", PString s => mkManifest (pm_exports m) (pm_imports m) (Some s) (pm_browser m) (pm_module m) (pm_main m)
  | "browser", PString s => mkManifest (pm_exports m) (pm_imports m) (pm_name m) (Some s) (pm_module m) (pm_main m)
  | "module", PString s => mkManifest (pm_exports m) (pm_imports m) (pm_name m) (pm_browser m) (Some s) (pm_main m)
  | "main", PString s => mkManifest (pm_exports m) (pm_imports m) (pm_name m) (pm_browser m) (pm_module m) (Some s)
  | _, _ => m
  end.

(** [parse_package_manifest], after the JSON is read *)
Definition parse_package_manifest (value : PackageJsonValue) : option PackageManifest :=
  match value with
  | PObject fields => Some (foldl (fun m '(field, v) => manifest_field m field v) empty_manifest fields)
  | _ => None
  end.

Inductive ExportTargets := Targets (ts : list string) | Blocked | Unmatched.
Inductive PackageExportsResolution := Unavailable | PBlocked | Resolved (p : PathBuf).

(** [path.replace('*', wildcard)] *)
Fixpoint replace_star (wildcard s : string) : string :=
  match s with
  | "" => ""
  | String c rest => (if Ascii.eqb c "*" then wildcard else String c "") +:+ replace_star wildcard rest
  end.

Definition expand_star (wildcard : option string) (path : string) : string :=
  match wildcard with Some w => replace_star w path | None => path end.

(** The conditions a target takes, and those only tried after them. *)
Definition preferred_conditions (t : BundleTarget) : list string :=
  match t with
  | TClient => ["browser"; "import"; "module"; "default"]
  | TSsr => ["node"; "import"; "module"; "default"]
  | TReactServer => ["react-server"; "node"; "import"; "module"; "default"]
  | TEdge => ["worker"; "edge-light"; "import"; "module"; "default"]
  end.
Definition fallback_conditions (t : BundleTarget) : list string :=
  match t with TEdge => [] | _ => ["require"] end.

Section values.
Variable resolve : PackageJsonValue -> ExportTargets.

(** The loop over an array of targets. *)
Definition resolve_array : list PackageJsonValue -> list string -> ExportTargets :=
  fix go values targets :=
    match values with
    | [] => match targets with [] => Unmatched | _ => Targets targets end
    | v :: rest =>
        match resolve v with
        | Targets candidates => go rest (targets ++ candidates)
        | Blocked => match targets with [] => Blocked | _ => go rest targets end
        | Unmatched => go rest targets
        end
    end.

(** One pass over the conditions of an object, in the author's order. *)
Definition resolve_conditions (conditions : list string) : list (string * PackageJsonValue) -> ExportTargets :=
  fix go map :=
    match map with
    | [] => Unmatched
    | (condition, v) :: rest =>
        if existsb (String.eqb condition) conditions then
          match resolve v with Unmatched => go rest | resolved => resolved end
        else go rest
    end.
End values.

(** [resolve_exports_value] *)
Fixpoint resolve_exports_value (target : BundleTarget) (wildcard : option string) (value : PackageJsonValue) : ExportTargets :=
  match value with
  | PNull => Blocked
  | PString path =>
      let path := expand_star wildcard path in
      if starts_with "./" path then Targets [path] else Unmatched
  | PArray values => resolve_array (resolve_exports_value target wildcard) values []
  | PObject map =>
      match resolve_conditions (resolve_exports_value target wildcard) (preferred_conditions target) map with
      | Unmatched => resolve_conditions (resolve_exports_value target wildcard) (fallback_conditions target) map
      | resolved => resolved
      end
  | PUnsupported => Unmatched
  end.

(** What the star of a pattern with one star stands for in [key], with the
    lengths of what is around it. *)
Definition pattern_match (key pattern : string) : option (nat * nat * string) :=
  '(prefix, suffix) ← split_once "*"%char pattern;
  if negb (has_char "*"%char suffix) && starts_with prefix key && ends_with suffix key
     && (String.length prefix + String.length suffix <=? String.length key)
  then Some (String.length prefix, String.length suffix,
             String.substring (String.length prefix) (String.length key - String.length suffix - String.length prefix) key)
  else None.

(** The entries whose pattern stands for [key], with what the star stands for. *)
Definition pattern_candidates (key : string) (map : list (string * PackageJsonValue)) : list (nat * nat * string * PackageJsonValue) :=
  omap (fun '(pattern, value) => (fun m => (m, value)) <$> pattern_match key pattern) map.

(** Prefix length, then suffix length. *)
Definition pattern_cmp : nat * nat * string * PackageJsonValue -> nat * nat * string * PackageJsonValue -> comparison :=
  lex_cmp (by_key (fun c => fst (fst (fst c))) Nat.compare) (by_key (fun c => snd (fst (fst c))) Nat.compare).

(** [resolve_exports_subpath] *)
Definition resolve_exports_subpath (target : BundleTarget) (map : list (string * PackageJsonValue)) (key : string) : ExportTargets :=
  match find (fun '(entry, _) => String.eqb entry key) map with
  | Some (_, value) => resolve_exports_value target None value
  | None =>
      match max_by pattern_cmp (pattern_candidates key map) with
      | Some (_, _, wildcard, value) => resolve_exports_value target (Some wildcard) value
      | None => Unmatched
      end
  end.

(** [resolve_exports_entry] *)
Definition resolve_exports_entry (target : BundleTarget) (exports : PackageJsonValue) (key : string) : ExportTargets :=
  match exports with
  | PNull => Blocked
  | PString _ | PArray _ => if String.eqb key "." then resolve_exports_value target None exports else Unmatched
  | PObject map =>
      if existsb (fun '(entry, _) => starts_with "." entry) map then resolve_exports_subpath target map key
      else if String.eqb key "." then resolve_exports_value target None exports else Unmatched
  | PUnsupported => Unmatched
  end.

(** [package_name_and_export_key] *)
Definition package_name_and_export_key (specifier : string) : option (string * string) :=
  if is_empty_str specifier || starts_with "." specifier || starts_with "/" specifier then None
  else if starts_with "@" specifier then
    '(scope, rest) ← split_once "/"%char specifier;
    let '(name, subpath) := default (rest, "") (split_once "/"%char rest) in
    Some (scope +:+ "/" +:+ name, if is_empty_str subpath then "." else "./" +:+ subpath)
  else
    match split_once "/"%char specifier with
    | Some (name, subpath) => Some (name, "./" +:+ subpath)
    | None => Some (specifier, ".")
    end.

(** [strip_dot_slash] *)
Definition strip_dot_slash (value : string) : string := default value (strip_prefix "./" value).

(** [legacy_entry_candidates] *)
Definition legacy_entry_candidates (m : PackageManifest) (export_key : string) (target : BundleTarget) : list string :=
  if negb (String.eqb export_key ".") then [strip_dot_slash export_key]
  else
    strip_dot_slash <$>
      ((if bool_decide (target = TClient) then option_list (pm_browser m) else []) ++
       option_list (pm_module m) ++ option_list (pm_main m) ++ ["index"]).

(** [node_modules_candidates] *)
Definition modules_dir_of (dir : PathBuf) : option PathBuf :=
  if bool_decide (file_name_of dir = Some "node_modules") then None else Some (join_path dir "node_modules").
Fixpoint first_paths (dirs : list PathBuf) (seen : list Path) : list PathBuf :=
  match dirs with
  | [] => []
  | d :: rest =>
      if bool_decide (path_new d ∈ seen) then first_paths rest seen else d :: first_paths rest (path_new d :: seen)
  end.
Definition node_modules_candidates (importer_dir project_root : PathBuf) : list PathBuf :=
  first_paths (omap modules_dir_of (ancestors_of importer_dir ++ ancestors_of project_root)) [].

Section packages.
Variables (is_file : PathBuf -> bool) (canonicalize : PathBuf -> option PathBuf) (read_package : PathBuf -> option PackageJsonValue).

(** [ResolveGraphCache::package_manifest], on one snapshot *)
Definition package_manifest (pkg_json_path : PathBuf) : option PackageManifest :=
  read_package pkg_json_path ≫= parse_package_manifest.

(** A subpath that stays below its directory: not empty, no backslash, only names. *)
Definition plain_subpath (relative : string) : bool :=
  negb (is_empty_str relative) && negb (has_char "\"%char relative) && all_normal relative.

(** [resolve_package_relative] *)
Definition resolve_package_relative (pkg_dir : PathBuf) (relative : string) : option PathBuf :=
  let relative := strip_dot_slash relative in
  if plain_subpath relative then
    found ← resolve_file_candidate is_file canonicalize (join_path pkg_dir relative);
    let candidate := normalized_canonical_path canonicalize found in
    if inside (normalized_canonical_path canonicalize pkg_dir) candidate then Some candidate else None
  else None.

(** [resolve_export_target] *)
Definition resolve_export_target (pkg_dir : PathBuf) (target : string) : option PathBuf :=
  relative ← strip_prefix "./" target;
  if plain_subpath relative then
    candidate ← canonicalize (join_path pkg_dir relative);
    if inside (normalized_canonical_path canonicalize pkg_dir) candidate then Some candidate else None
  else None.

(** [resolve_legacy_entry] *)
Definition resolve_legacy_entry (pkg_dir : PathBuf) (m : PackageManifest) (export_key : string) (target : BundleTarget) : option PathBuf :=
  find_map (resolve_package_relative pkg_dir) (legacy_entry_candidates m export_key target).

(** The first target that is there. *)
Definition first_target (pkg_dir : PathBuf) (targets : list string) : PackageExportsResolution :=
  match find_map (resolve_export_target pkg_dir) targets with Some p => Resolved p | None => Unavailable end.

(** What the nearest package with the name answers. *)
Definition resolve_in_package (pkg_dir : PathBuf) (m : PackageManifest) (export_key : string) (target : BundleTarget)
    : PackageExportsResolution :=
  let legacy :=
    match resolve_legacy_entry pkg_dir m export_key target with Some p => Resolved p | None => Unavailable end in
  match pm_exports m with
  | None => legacy
  | Some exports =>
      match resolve_exports_entry target exports export_key with
      | Blocked => PBlocked
      | Targets targets => first_target pkg_dir targets
      | Unmatched => legacy
      end
  end.

(** The walk of [resolve_node_modules_specifier]. *)
Fixpoint node_modules_walk (dirs : list PathBuf) (pkg_name export_key : string) (target : BundleTarget) : PackageExportsResolution :=
  match dirs with
  | [] => Unavailable
  | modules_dir :: rest =>
      let pkg_dir := join_path modules_dir pkg_name in
      match package_manifest (join_path pkg_dir "package.json") with
      | Some m => resolve_in_package pkg_dir m export_key target
      | None =>
          match (if String.eqb export_key "." then None else resolve_package_relative pkg_dir export_key) with
          | Some p => Resolved p
          | None => node_modules_walk rest pkg_name export_key target
          end
      end
  end.

(** [resolve_node_modules_specifier] *)
Definition resolve_node_modules_specifier (importer_dir project_root : PathBuf) (specifier : string) (target : BundleTarget)
    : PackageExportsResolution :=
  match package_name_and_export_key specifier with
  | None => Unavailable
  | Some (pkg_name, export_key) =>
      node_modules_walk (node_modules_candidates importer_dir project_root) pkg_name export_key target
  end.

(** The upward walk of [nearest_package_manifest]. *)
Fixpoint nearest_from (dirs : list PathBuf) (project_root : PathBuf) : option (PathBuf * PackageManifest) :=
  match dirs with
  | [] => None
  | dir :: rest =>
      match package_manifest (join_path dir "package.json") with
      | Some m => Some (dir, m)
      | None =>
          if bool_decide (file_name_of dir = Some "node_modules") then None
          else if same_path dir project_root then None
          else nearest_from rest project_root
      end
  end.
(** [nearest_package_manifest] *)
Definition nearest_package_manifest (importer_dir project_root : PathBuf) : option (PathBuf * PackageManifest) :=
  nearest_from (ancestors_of importer_dir) project_root.

(** What targets answer, with no legacy fields to fall back on. *)
Definition of_targets (pkg_dir : PathBuf) (t : ExportTargets) : PackageExportsResolution :=
  match t with
  | Blocked => PBlocked
  | Unmatched => Unavailable
  | Targets targets => first_target pkg_dir targets
  end.

(** [resolve_package_imports_specifier] *)
Definition resolve_package_imports_specifier (importer_dir project_root : PathBuf) (specifier : string) (target : BundleTarget)
    : PackageExportsResolution :=
  match nearest_package_manifest importer_dir project_root with
  | None => Unavailable
  | Some (pkg_dir, m) =>
      match pm_imports m with
      | Some (PObject map) => of_targets pkg_dir (resolve_exports_subpath target map specifier)
      | _ => Unavailable
      end
  end.

(** [self_reference_applies] *)
Definition self_reference_applies (importer_dir project_root : PathBuf) (specifier : string) : bool :=
  match nearest_package_manifest importer_dir project_root ≫= (fun '(_, m) => pm_name m) with
  | None => false
  | Some name =>
      String.eqb specifier name ||
      match strip_prefix name specifier with Some rest => starts_with "/" rest | None => false end
  end.

(** [resolve_self_reference] *)
Definition resolve_self_reference (importer_dir project_root : PathBuf) (specifier : string) (target : BundleTarget)
    : PackageExportsResolution :=
  match nearest_package_manifest importer_dir project_root with
  | None => Unavailable
  | Some (pkg_dir, m) =>
      match pm_name m, pm_exports m with
      | Some name, Some exports =>
          match strip_prefix name specifier with
          | None => Unavailable
          | Some rest =>
              of_targets pkg_dir (resolve_exports_entry target exports (if is_empty_str rest then "." else "." +:+ rest))
          end
      | _, _ => Unavailable
      end
  end.
End packages.

(** ** Specification *)

Definition active_conditions (t : BundleTarget) : list string := preferred_conditions t ++ fallback_conditions t.

(** A package-relative path a value holds under conditions the target takes. *)
Inductive offers (t : BundleTarget) (wildcard : option string) : PackageJsonValue -> string -> Prop :=
  | offers_string s : starts_with "./" (expand_star wildcard s) = true -> offers t wildcard (PString s) (expand_star wildcard s)
  | offers_array values v p : (v ∈ values) -> offers t wildcard v p -> offers t wildcard (PArray values) p
  | offers_condition map c v p : ((c, v) ∈ map) -> (c ∈ active_conditions t) -> offers t wildcard v p ->
      offers t wildcard (PObject map) p.

(** A null under conditions the target takes. *)
Inductive refuses (t : BundleTarget) : PackageJsonValue -> Prop :=
  | refuses_null : refuses t PNull
  | refuses_array values v : (v ∈ values) -> refuses t v -> refuses t (PArray values)
  | refuses_condition map c v : ((c, v) ∈ map) -> (c ∈ active_conditions t) -> refuses t v -> refuses t (PObject map).

(** The pattern [prefix*suffix] of the map stands for [key] with [wildcard]. *)
Definition stands_for (map : list (string * PackageJsonValue)) (key prefix suffix wildcard : string) (v : PackageJsonValue) : Prop :=
  ((prefix +:+ String "*" suffix, v) ∈ map) /\ has_char "*"%char prefix = false /\ has_char "*"%char suffix = false /\
  key = prefix +:+ wildcard +:+ suffix.

(** ** Properties *)

(** Induction over a value and the values inside it. *)
Lemma value_ind' (P : PackageJsonValue -> Prop) :
  P PNull -> (forall s, P (PString s)) -> (forall values, Forall P values -> P (PArray values)) ->
  (forall map, Forall (fun e => P (snd e)) map -> P (PObject map)) -> P PUnsupported -> forall v, P v.
Proof.
  intros Hn Hs Ha Ho Hu. fix go 1. intros [|s|values|map|]; [done|done| | |done].
  - apply Ha. induction values as [|v values IH]; constructor; [apply go|done].
  - apply Ho. induction map as [|[c v] map IH]; constructor; [apply go|done].
Qed.

Lemma existsb_eqb c l : existsb (String.eqb c) l = true <-> c ∈ l.
Proof. rewrite existsb_exists, list_elem_of_In. setoid_rewrite String.eqb_eq. naive_solver. Qed.

Section array.
Context (resolve : PackageJsonValue -> ExportTargets).

Lemma resolve_array_found values : forall targets, targets <> [] ->
  exists more, resolve_array resolve values targets = Targets (targets ++ more) /\
    forall p, p ∈ more -> exists v ts, v ∈ values /\ resolve v = Targets ts /\ p ∈ ts.
Proof.
  induction values as [|v values IH]; intros targets Hne; cbn.
  { destruct targets; [done|]. exists []. rewrite app_nil_r. set_solver. }
  destruct (resolve v) as [ts| |] eqn:Ev.
  - destruct (IH (targets ++ ts)) as (more & -> & Hm); [by destruct targets|]. exists (ts ++ more). rewrite app_assoc.
    split; [done|]. intros p [Hp|Hp]%elem_of_app; [exists v, ts; set_solver|]. apply Hm in Hp as (v' & ts' & ? & ? & ?).
    exists v', ts'. set_solver.
  - destruct targets as [|t0 targets]; [done|]. destruct (IH (t0 :: targets) Hne) as (more & -> & Hm). exists more. set_solver.
  - destruct (IH targets Hne) as (more & -> & Hm). exists more. set_solver.
Qed.

Lemma resolve_array_spec values : (forall v ts, v ∈ values -> resolve v = Targets ts -> ts <> []) ->
  match resolve_array resolve values [] with
  | Targets ts => ts <> [] /\ forall p, p ∈ ts -> exists v ts', v ∈ values /\ resolve v = Targets ts' /\ p ∈ ts'
  | Blocked => exists v, v ∈ values /\ resolve v = Blocked
  | Unmatched => forall v, v ∈ values -> resolve v = Unmatched
  end.
Proof.
  induction values as [|v values IH]; intros Hne; cbn; [set_solver|].
  destruct (resolve v) as [ts| |] eqn:Ev.
  - assert (ts <> []) as Hts by (eapply Hne; [by left|done]).
    destruct (resolve_array_found values ts Hts) as (more & -> & Hm). split; [by destruct ts|].
    intros p [Hp|Hp]%elem_of_app; [exists v, ts; set_solver|]. apply Hm in Hp as (v' & ts' & ? & ? & ?). exists v', ts'. set_solver.
  - exists v. set_solver.
  - specialize (IH ltac:(set_solver)). destruct (resolve_array resolve values []) as [ts| |]; [|set_solver..].
    destruct IH as [? IH]. split; [done|]. intros p Hp. apply IH in Hp as (v' & ts' & ? & ? & ?). exists v', ts'. set_solver.
Qed.

Lemma resolve_conditions_spec conditions map :
  match resolve_conditions resolve conditions map with
  | Unmatched => forall c v, (c, v) ∈ map -> c ∈ conditions -> resolve v = Unmatched
  | r => exists c v, (c, v) ∈ map /\ c ∈ conditions /\ resolve v = r
  end.
Proof.
  induction map as [|[c v] map IH]; cbn; [set_solver|].
  destruct (existsb (String.eqb c) conditions) eqn:Ec.
  - apply existsb_eqb in Ec. destruct (resolve v) as [ts| |] eqn:Ev; [exists c, v; set_solver..|].
    destruct (resolve_conditions resolve conditions map); [set_solver..|].
    intros c' v' [Heq|Hin]%elem_of_cons; [by injection Heq as -> ->|intros; by apply (IH c' v')].
  - assert (c ∉ conditions) by (rewrite <- existsb_eqb; congruence).
    destruct (resolve_conditions resolve conditions map); [set_solver..|].
    intros c' v' [Heq|Hin]%elem_of_cons; [by injection Heq as -> ->|intros; by apply (IH c' v')].
Qed.

Lemma resolve_conditions_filter conditions drop map : (drop ∉ conditions) ->
  resolve_conditions resolve conditions (filter (fun e => fst e <> drop) map) = resolve_conditions resolve conditions map.
Proof.
  intros Hd. induction map as [|[c v] map IH]; [done|]. rewrite filter_cons. case_decide as Hc; cbn in Hc |- *.
  - by rewrite IH.
  - subst c. rewrite IH. destruct (existsb (String.eqb drop) conditions) eqn:E; [|done].
    by apply existsb_eqb in E.
Qed.
End array.

Lemma array_answers t w values :
  Forall (fun v => forall ts, resolve_exports_value t w v = Targets ts -> ts <> []) values ->
  forall v ts, v ∈ values -> resolve_exports_value t w v = Targets ts -> ts <> [].
Proof. intros H v ts Hv. rewrite Forall_forall in H. by apply H. Qed.

(** An object answers with the value of a condition the target takes. *)
Lemma object_spec t w map :
  match resolve_exports_value t w (PObject map) with
  | Unmatched => forall c v, (c, v) ∈ map -> c ∈ active_conditions t -> resolve_exports_value t w v = Unmatched
  | r => exists c v, (c, v) ∈ map /\ c ∈ active_conditions t /\ resolve_exports_value t w v = r
  end.
Proof.
  cbn [resolve_exports_value]. unfold active_conditions.
  pose proof (resolve_conditions_spec (resolve_exports_value t w) (preferred_conditions t) map) as H1.
  pose proof (resolve_conditions_spec (resolve_exports_value t w) (fallback_conditions t) map) as H2.
  destruct (resolve_conditions _ (preferred_conditions t) map) as [ts| |];
    [destruct H1 as (c & v & ? & ? & ?); exists c, v; rewrite elem_of_app; by auto..|].
  destruct (resolve_conditions _ (fallback_conditions t) map) as [ts| |];
    [destruct H2 as (c & v & ? & ? & ?); exists c, v; rewrite elem_of_app; by auto..|].
  intros c v Hv [Hc|Hc]%elem_of_app; [by eapply H1|by eapply H2].
Qed.

Lemma targets_ne t w v ts : resolve_exports_value t w v = Targets ts -> ts <> [].
Proof.
  revert ts. induction v as [|s|values IH|map IH|] using value_ind'; intros ts; [done| | | |done].
  - cbn [resolve_exports_value]. destruct (starts_with _ _); [|done]. by intros [= <-].
  - intros H. pose proof (resolve_array_spec (resolve_exports_value t w) values (array_answers t w values IH)) as Hs.
    cbn [resolve_exports_value] in H. rewrite H in Hs. apply Hs.
  - intros H. pose proof (object_spec t w map) as Hs. rewrite H in Hs. destruct Hs as (c & v & Hv & _ & Hr).
    rewrite Forall_forall in IH. by apply (IH (c, v) Hv).
Qed.

Lemma array_spec t w values :
  match resolve_exports_value t w (PArray values) with
  | Targets ts => forall p, p ∈ ts -> exists v ts', v ∈ values /\ resolve_exports_value t w v = Targets ts' /\ p ∈ ts'
  | Blocked => exists v, v ∈ values /\ resolve_exports_value t w v = Blocked
  | Unmatched => forall v, v ∈ values -> resolve_exports_value t w v = Unmatched
  end.
Proof.
  cbn [resolve_exports_value]. pose proof (resolve_array_spec (resolve_exports_value t w) values ltac:(intros; by eapply targets_ne)) as H.
  destruct (resolve_array _ values []); naive_solver.
Qed.

Lemma value_sound t w v :
  (forall ts p, resolve_exports_value t w v = Targets ts -> p ∈ ts -> offers t w v p) /\
  (resolve_exports_value t w v = Blocked -> refuses t v).
Proof.
  induction v as [|s|values IH|map IH|] using value_ind'; (split; [intros ts p|]); try done; try (intros; by constructor).
  - cbn [resolve_exports_value]. destruct (starts_with _ _) eqn:E; [|done]. intros [= <-] ->%list_elem_of_singleton. by constructor.
  - cbn [resolve_exports_value]. by destruct (starts_with _ _).
  - intros H Hp. pose proof (array_spec t w values) as Hs. rewrite H in Hs. apply Hs in Hp as (v & ts' & Hv & Hr & Hp).
    rewrite Forall_forall in IH. econstructor; [done|]. by eapply IH.
  - intros H. pose proof (array_spec t w values) as Hs. rewrite H in Hs. destruct Hs as (v & Hv & Hr).
    rewrite Forall_forall in IH. econstructor; [done|]. by apply IH.
  - intros H Hp. pose proof (object_spec t w map) as Hs. rewrite H in Hs. destruct Hs as (c & v & Hv & Hc & Hr).
    rewrite Forall_forall in IH. econstructor; [done..|]. by eapply (IH (c, v)).
  - intros H. pose proof (object_spec t w map) as Hs. rewrite H in Hs. destruct Hs as (c & v & Hv & Hc & Hr).
    rewrite Forall_forall in IH. econstructor; [done..|]. by eapply (IH (c, v)).
Qed.

Lemma value_complete t w v : resolve_exports_value t w v = Unmatched -> (forall p, ~ offers t w v p) /\ ~ refuses t v.
Proof.
  induction v as [|s|values IH|map IH|] using value_ind'; intros H; [done| | | |].
  - split; [|by inversion 1]. intros p Ho. inversion Ho as [s' Hs| |]; subst. cbn [resolve_exports_value] in H. by rewrite Hs in H.
  - pose proof (array_spec t w values) as Hs. rewrite H in Hs. rewrite Forall_forall in IH.
    split; [intros p Ho|intros Ho]; inversion Ho; subst;
      match goal with Hv : ?v ∈ _ |- _ => destruct (IH v Hv (Hs v Hv)) as [Hno Hnr] end; naive_solver.
  - pose proof (object_spec t w map) as Hs. rewrite H in Hs. rewrite Forall_forall in IH.
    split; [intros p Ho|intros Ho]; inversion Ho; subst;
      match goal with Hv : (?c, ?v) ∈ _, Hc : ?c ∈ active_conditions _ |- _ => destruct (IH (c, v) Hv (Hs c v Hv Hc)) as [Hno Hnr] end; naive_solver.
  - split; [intros p Ho|intros Ho]; inversion Ho.
Qed.

(** What an exports value answers.  The targets are package-relative paths
    the value holds under conditions the target takes, at least one of them;
    it is blocked only by a null under such conditions; it is unmatched exactly
    when it holds neither; and [require] is a fallback: where an object answers
    without its [require] entries, these change nothing, wherever the author
    wrote them. *)
Theorem exports_value_decides t w :
  (forall v ts, resolve_exports_value t w v = Targets ts -> ts <> [] /\ forall p, p ∈ ts -> offers t w v p) /\
  (forall v, resolve_exports_value t w v = Blocked -> refuses t v) /\
  (forall v, resolve_exports_value t w v = Unmatched <-> (forall p, ~ offers t w v p) /\ ~ refuses t v) /\
  (forall map, let esm := PObject (filter (fun e => fst e <> "require") map) in
     resolve_exports_value t w esm <> Unmatched -> resolve_exports_value t w (PObject map) = resolve_exports_value t w esm).
Proof.
  split_and!.
  - intros v ts H. split; [by eapply targets_ne|]. intros p. by apply value_sound.
  - intros v. apply value_sound.
  - intros v. split; [apply value_complete|]. intros [Ho Hr]. destruct (resolve_exports_value t w v) as [ts| |] eqn:E; [| |done].
    + exfalso. pose proof (targets_ne _ _ _ _ E). destruct ts as [|p ts]; [done|]. apply (Ho p).
      destruct (value_sound t w v) as [Hs _]. apply (Hs _ p E). by left.
    + exfalso. apply Hr. by apply (value_sound t w v).
  - intros map esm. subst esm. cbn [resolve_exports_value].
    rewrite resolve_conditions_filter by (by destruct t; cbn; rewrite ?elem_of_cons, elem_of_nil; naive_solver).
    destruct (resolve_conditions _ (preferred_conditions t) map); [done..|].
    intros H. exfalso. apply H.
    pose proof (resolve_conditions_spec (resolve_exports_value t w) (fallback_conditions t) (filter (fun e => fst e <> "require") map)) as Hs.
    destruct (resolve_conditions _ (fallback_conditions t) _) as [ts| |]; [| |done];
      destruct Hs as (c & v & [Hne _]%list_elem_of_filter & Hc & _); exfalso; apply Hne; by destruct t; cbn in Hc; set_solver.
Qed.

(** *** Patterns *)

Lemma pattern_match_spec key pattern p s w :
  pattern_match key pattern = Some (p, s, w) <->
  exists prefix suffix, pattern = prefix +:+ String "*" suffix /\ has_char "*"%char prefix = false /\ has_char "*"%char suffix = false /\
    key = prefix +:+ w +:+ suffix /\ p = String.length prefix /\ s = String.length suffix.
Proof.
  unfold pattern_match. split.
  - destruct (split_once "*"%char pattern) as [[prefix suffix]|] eqn:E; cbn [mbind option_bind]; [|done].
    apply split_once_sound in E as [-> Hp].
    destruct (_ && _) eqn:Ec; [|done]. intros [= <- <- <-].
    rewrite !andb_true_iff, negb_true_iff, Nat.leb_le in Ec. destruct Ec as [[[Hs Hpre] Hsuf] Hl].
    destruct (starts_ends_decomp prefix suffix key Hpre Hsuf Hl) as [m ->].
    exists prefix, suffix. rewrite substring_between. by split_and!.
  - intros (prefix & suffix & -> & Hp & Hs & -> & -> & ->). rewrite split_once_app by done. cbn [mbind option_bind].
    assert (ends_with suffix (prefix +:+ w +:+ suffix) = true) as -> by (rewrite <- sapp_assoc; apply ends_with_app).
    rewrite Hs, starts_with_app, substring_between, !slength_sapp.
    by rewrite (proj2 (Nat.leb_le _ _)) by lia.
Qed.

Lemma elem_of_candidates key map p s w v :
  (p, s, w, v) ∈ pattern_candidates key map <-> exists prefix suffix, stands_for map key prefix suffix w v /\
    p = String.length prefix /\ s = String.length suffix.
Proof.
  unfold pattern_candidates. rewrite list_elem_of_omap. split.
  - intros ([pattern v'] & Hin & Hm). destruct (pattern_match key pattern) as [m|] eqn:E; [|done]. injection Hm as -> ->.
    apply pattern_match_spec in E as (prefix & suffix & -> & ? & ? & ? & ? & ?). exists prefix, suffix. by unfold stands_for.
  - intros (prefix & suffix & (Hin & ? & ? & ?) & -> & ->). exists (prefix +:+ String "*" suffix, v). split; [done|].
    assert (pattern_match key (prefix +:+ String "*" suffix) = Some (String.length prefix, String.length suffix, w)) as ->; [|done].
    apply pattern_match_spec. by exists prefix, suffix.
Qed.

(** How a subpath is looked up.  The entry spelled like the key decides;
    without one, of the patterns whose single star stands for some part of the
    key, one with the longest prefix and then the longest suffix decides, with
    what its star stands for put into its targets; without such a pattern
    nothing matches. *)
Theorem longest_pattern_decides t map key :
  match find (fun '(entry, _) => String.eqb entry key) map with
  | Some (entry, v) => entry = key /\ resolve_exports_subpath t map key = resolve_exports_value t None v
  | None =>
      (exists prefix suffix w v, stands_for map key prefix suffix w v /\
         resolve_exports_subpath t map key = resolve_exports_value t (Some w) v /\
         forall prefix' suffix' w' v', stands_for map key prefix' suffix' w' v' ->
           String.length prefix' < String.length prefix \/
           String.length prefix' = String.length prefix /\ String.length suffix' <= String.length suffix) \/
      ((forall prefix suffix w v, ~ stands_for map key prefix suffix w v) /\ resolve_exports_subpath t map key = Unmatched)
  end.
Proof.
  unfold resolve_exports_subpath. destruct (find _ map) as [[entry v]|] eqn:Ef.
  { apply find_some in Ef as [_ Heq]. by apply String.eqb_eq in Heq. }
  destruct (max_by pattern_cmp (pattern_candidates key map)) as [[[[p s] w] v]|] eqn:Em; [left|right].
  - apply max_by_spec in Em as [Hin Hmax]. apply elem_of_candidates in Hin as (prefix & suffix & Hs & -> & ->).
    exists prefix, suffix, w, v. split_and!; [done..|]. intros prefix' suffix' w' v' Hs'.
    assert ((String.length prefix', String.length suffix', w', v') ∈ pattern_candidates key map) as Hin
      by (apply elem_of_candidates; by exists prefix', suffix').
    apply Hmax in Hin. unfold pattern_cmp, lex_cmp, by_key in Hin. cbn in Hin.
    destruct (Nat.compare_spec (String.length prefix') (String.length prefix)), (Nat.compare_spec (String.length suffix') (String.length suffix));
      cbn in Hin; try done; lia.
  - split; [|done]. intros prefix suffix w v Hs.
    assert ((String.length prefix, String.length suffix, w, v) ∈ pattern_candidates key map) as Hin
      by (apply elem_of_candidates; by exists prefix, suffix).
    destruct (pattern_candidates key map); [by apply elem_of_nil in Hin|done].
Qed.

(** *** Packages *)

Section packages.
Context (is_file : PathBuf -> bool) (canonicalize : PathBuf -> option PathBuf) (read_package : PathBuf -> option PackageJsonValue).
Abbreviation canonical := (normalized_canonical_path canonicalize).

Lemma resolve_export_target_inside pkg_dir target p :
  resolve_export_target canonicalize pkg_dir target = Some p -> inside (canonical pkg_dir) p = true.
Proof.
  unfold resolve_export_target. destruct (strip_prefix "./" target) as [relative|]; cbn [mbind option_bind]; [|done].
  destruct (plain_subpath relative); [|done]. destruct (canonicalize _) as [c|]; cbn [mbind option_bind]; [|done].
  destruct (inside _ c) eqn:E; [|done]. by intros [= <-].
Qed.

Lemma resolve_package_relative_inside pkg_dir relative p :
  resolve_package_relative is_file canonicalize pkg_dir relative = Some p -> inside (canonical pkg_dir) p = true.
Proof.
  unfold resolve_package_relative. destruct (plain_subpath _); [|done].
  destruct (resolve_file_candidate _ _ _) as [c|]; cbn [mbind option_bind]; [|done].
  destruct (inside _ _) eqn:E; [|done]. by intros [= <-].
Qed.

Lemma first_target_inside pkg_dir targets p : first_target canonicalize pkg_dir targets = Resolved p -> inside (canonical pkg_dir) p = true.
Proof.
  unfold first_target. destruct (find_map _ targets) as [q|] eqn:E; [|done]. intros [= <-].
  apply find_map_Some in E as (l1 & x & l2 & _ & Hx & _). by eapply resolve_export_target_inside.
Qed.

Lemma of_targets_inside pkg_dir ts p : of_targets canonicalize pkg_dir ts = Resolved p -> inside (canonical pkg_dir) p = true.
Proof. destruct ts; cbn; [apply first_target_inside|done..]. Qed.

Lemma resolve_in_package_inside pkg_dir m key t p :
  resolve_in_package is_file canonicalize pkg_dir m key t = Resolved p -> inside (canonical pkg_dir) p = true.
Proof.
  assert (match resolve_legacy_entry is_file canonicalize pkg_dir m key t with Some q => Resolved q | None => Unavailable end = Resolved p ->
    inside (canonical pkg_dir) p = true) as Hl.
  { unfold resolve_legacy_entry. destruct (find_map _ _) as [q|] eqn:E; [|done]. intros [= <-].
    apply find_map_Some in E as (l1 & x & l2 & _ & Hx & _). by eapply resolve_package_relative_inside. }
  unfold resolve_in_package. destruct (pm_exports m); [|done].
  destruct (resolve_exports_entry _ _ _); [apply first_target_inside|done|done].
Qed.

Lemma node_modules_walk_inside dirs name key t p :
  node_modules_walk is_file canonicalize read_package dirs name key t = Resolved p ->
  exists d, d ∈ dirs /\ inside (canonical (join_path d name)) p = true.
Proof.
  induction dirs as [|d dirs IH]; cbn [node_modules_walk]; [done|].
  destruct (package_manifest read_package _) as [m|].
  { intros H%resolve_in_package_inside. exists d. set_solver. }
  destruct (String.eqb key "."); [intros H; apply IH in H as (d' & ? & ?); exists d'; set_solver|].
  destruct (resolve_package_relative _ _ _ _) as [q|] eqn:E.
  - intros [= <-]. apply resolve_package_relative_inside in E. exists d. set_solver.
  - intros H. apply IH in H as (d' & ? & ?). exists d'. set_solver.
Qed.

(** The nearest manifest lies at or above the importer, below any boundary. *)
Lemma nearest_from_spec root dirs dir m : nearest_from read_package dirs root = Some (dir, m) ->
  package_manifest read_package (join_path dir "package.json") = Some m /\
  exists below above, dirs = below ++ dir :: above /\
    forall d, d ∈ below -> package_manifest read_package (join_path d "package.json") = None /\
      file_name_of d <> Some "node_modules" /\ same_path d root = false.
Proof.
  induction dirs as [|d dirs IH]; cbn [nearest_from]; [done|].
  destruct (package_manifest _ (join_path d _)) as [m'|] eqn:Em.
  { intros [= <- <-]. split; [done|]. exists [], dirs. set_solver. }
  case_bool_decide; [done|]. destruct (same_path d root) eqn:Es; [done|].
  intros H1. apply IH in H1 as (Hm & below & above & -> & Hb). split; [done|]. exists (d :: below), above. split; [done|].
  intros d' [->|Hd]%elem_of_cons; [done|by apply Hb].
Qed.

Lemma node_modules_inside importer root specifier t p :
  resolve_node_modules_specifier is_file canonicalize read_package importer root specifier t = Resolved p ->
  exists name key d, package_name_and_export_key specifier = Some (name, key) /\
    (d ∈ node_modules_candidates importer root) /\ inside (canonical (join_path d name)) p = true.
Proof.
  unfold resolve_node_modules_specifier. destruct (package_name_and_export_key specifier) as [[name key]|]; [|done].
  intros H. apply node_modules_walk_inside in H as (d & ? & ?). by exists name, key, d.
Qed.

Lemma nearest_answer_inside importer root specifier t p :
  resolve_package_imports_specifier canonicalize read_package importer root specifier t = Resolved p \/
  resolve_self_reference canonicalize read_package importer root specifier t = Resolved p ->
  exists dir m, nearest_package_manifest read_package importer root = Some (dir, m) /\ inside (canonical dir) p = true.
Proof.
  unfold resolve_package_imports_specifier, resolve_self_reference. intros H.
  destruct (nearest_package_manifest read_package importer root) as [[dir m]|]; [|by destruct H].
  exists dir, m. split; [done|]. destruct H as [H|H].
  - destruct (pm_imports m) as [[]|]; try done. by apply of_targets_inside in H.
  - destruct (pm_name m); [|done]. destruct (pm_exports m); [|done]. destruct (strip_prefix _ specifier); [|done].
    by apply of_targets_inside in H.
Qed.

Lemma nearest_package_inside importer root specifier t p :
  resolve_package_imports_specifier canonicalize read_package importer root specifier t = Resolved p \/
  resolve_self_reference canonicalize read_package importer root specifier t = Resolved p ->
  exists dir m, dir ∈ ancestors_of importer /\ package_manifest read_package (join_path dir "package.json") = Some m /\
    inside (canonical dir) p = true.
Proof.
  intros (dir & m & Hn & Hp)%nearest_answer_inside. apply nearest_from_spec in Hn as (Hm & below & above & Hd & _).
  exists dir, m. rewrite Hd. set_solver.
Qed.

(** Wherever a package specifier leads, it stays in a package.  A bare
    specifier resolves inside the directory its package name has under one of
    the [node_modules] directories above the importer or the root; a [#] name
    and a self reference resolve inside the directory of the nearest manifest
    above the importer, with no [node_modules] directory and no project root
    passed on the way up.  Inside is after links are followed, on both sides. *)
Theorem packages_stay_inside importer root specifier t p :
  (resolve_node_modules_specifier is_file canonicalize read_package importer root specifier t = Resolved p ->
     exists name key d, package_name_and_export_key specifier = Some (name, key) /\
       (d ∈ node_modules_candidates importer root) /\ inside (canonical (join_path d name)) p = true) /\
  (resolve_package_imports_specifier canonicalize read_package importer root specifier t = Resolved p \/
   resolve_self_reference canonicalize read_package importer root specifier t = Resolved p ->
     exists dir m below above, package_manifest read_package (join_path dir "package.json") = Some m /\
       inside (canonical dir) p = true /\ ancestors_of importer = below ++ dir :: above /\
       forall d, (d ∈ below) -> file_name_of d <> Some "node_modules" /\ same_path d root = false).
Proof.
  split; [apply node_modules_inside|]. intros (dir & m & Hn & Hp)%nearest_answer_inside.
  apply nearest_from_spec in Hn as (Hm & below & above & Hd & Hb). exists dir, m, below, above.
  split_and!; [done..|]. intros d Hin. by destruct (Hb d Hin) as (_ & ? & ?).
Qed.
End packages.
