(* ===== verification/TsConfig.v ===== *)
(** TypeScript's path aliases (crates/ruvyxa_bundler/src/resolver.rs): tsconfig
    text read as JSONC, the chain of extended configurations, and the [paths]
    and [baseUrl] a specifier is matched against.

    The file system is a parameter, as in [FileProbe], with [is_dir],
    [read_to_string] (the text, or the error's text) and [from_str], serde's
    JSON parser: an object's entries in the map's order, each key once. *)
From S2P Require Import Prelude Order RustStr Utf8 Text Paths PathBuf FileProbe PackageExports.

(** ** Definitions *)

(** *** JSONC *)

Inductive JsoncMode := InCode | InString | InLine | InBlock (previous : ascii).

(** The first pass of [strip_json_comments]. *)
Fixpoint strip_comments (mode : JsoncMode) (l : list ascii) {struct l} : list ascii :=
  match l with
  | [] => []
  | c :: rest =>
      match mode with
      | InString =>
          if Ascii.eqb c "\" then
            match rest with [] => [c] | next :: rest => c :: next :: strip_comments InString rest end
          else c :: strip_comments (if Ascii.eqb c "034" then InCode else InString) rest
      | InLine => if Ascii.eqb c "010" then c :: strip_comments InCode rest else strip_comments InLine rest
      | InBlock previous =>
          if Ascii.eqb previous "*" && Ascii.eqb c "/" then strip_comments InCode rest
          else (if Ascii.eqb c "010" then [c] else []) ++ strip_comments (InBlock c) rest
      | InCode =>
          if Ascii.eqb c "034" then c :: strip_comments InString rest
          else if Ascii.eqb c "/" then
            match rest with
            | "/"%char :: _ => strip_comments InLine rest
            | "*"%char :: rest => strip_comments (InBlock "000") rest
            | _ => c :: strip_comments InCode rest
            end
          else c :: strip_comments InCode rest
      end
  end.

(** [strip_trailing_commas]: [pending] is where in [out] a comma stands that
    only whitespace has followed. *)
Fixpoint commas_loop (fuel : nat) (in_string : bool) (pending : option nat) (out l : list ascii) : list ascii :=
  match fuel, l with
  | O, _ | _, [] => out
  | S fuel, c :: rest =>
      if in_string then
        if Ascii.eqb c "\" then
          match rest with
          | [] => out ++ [c]
          | next :: rest => commas_loop fuel true pending (out ++ [c; next]) rest
          end
        else commas_loop fuel (negb (Ascii.eqb c "034")) pending (out ++ [c]) rest
      else if Ascii.eqb c "034" then commas_loop fuel true None (out ++ [c]) rest
      else if Ascii.eqb c "," then commas_loop fuel false (Some (length out)) (out ++ [c]) rest
      else if Ascii.eqb c "]" || Ascii.eqb c "}" then
        let out := match pending with Some comma => take comma out ++ drop (S comma) out | None => out end in
        commas_loop fuel false None (out ++ [c]) rest
      else
        match split_char1 l with
        | Some (ch, rest) =>
            commas_loop fuel false (if is_char_whitespace (code_point ch) then pending else None) (out ++ ch) rest
        | None => out
        end
  end.
Definition strip_trailing_commas (l : list ascii) : list ascii := commas_loop (length l) false None [] l.

(** [strip_json_comments] *)
Definition strip_json_comments (input : list ascii) : list ascii := strip_trailing_commas (strip_comments InCode input).

(** *** Aliases *)

(** [pattern.find('*')] *)
Definition find_star (pattern : string) : option nat := String.length ∘ fst <$> split_once "*"%char pattern.

(** [alias_pattern_order] *)
Definition alias_rank (pattern : string) : bool * nat * nat * nat :=
  let wildcard := find_star pattern in
  (bool_decide (wildcard = None), default (String.length pattern) wildcard,
   match wildcard with Some i => String.length pattern - (i + 1) | None => 0 end, String.length pattern).
Definition bool_cmp (a b : bool) : comparison :=
  match a, b with false, true => Lt | true, false => Gt | _, _ => Eq end.
Definition rank_cmp : bool * nat * nat * nat -> bool * nat * nat * nat -> comparison :=
  lex_cmp (by_key (fun r => fst (fst (fst r))) bool_cmp)
    (lex_cmp (by_key (fun r => snd (fst (fst r))) Nat.compare)
       (lex_cmp (by_key (fun r => snd (fst r)) Nat.compare) (by_key snd Nat.compare))).
Definition alias_pattern_order (left right : string) : comparison :=
  then_cmp (rank_cmp (alias_rank right) (alias_rank left)) (String.compare left right).

(** [match_alias_pattern] *)
Definition match_alias_pattern (pattern specifier : string) : option string :=
  match split_once "*"%char pattern with
  | None => if String.eqb pattern specifier then Some "" else None
  | Some (prefix, suffix) =>
      if has_char "*"%char suffix then None
      else rest ← strip_prefix prefix specifier; strip_suffix suffix rest
  end.

(** [is_reserved_alias_specifier] *)
Definition is_reserved_alias_specifier (s : string) : bool :=
  existsb (String.eqb s) ["react"; "react-dom"; "ruvyxa"] ||
  existsb (fun p => starts_with p s) ["react/"; "react-dom/"; "ruvyxa/"; "@ruvyxa/"].

(** [target.replacen('*', suffix, 1)] *)
Definition replace_first_star (suffix target : string) : string :=
  match split_once "*"%char target with Some (before, after) => before +:+ suffix +:+ after | None => target end.

Record TsConfigPaths := mkTsConfig {
  config_dir : PathBuf;
  base_url : option PathBuf;
  paths : list (string * list string);
  path_bases : list PathBuf;
  config_files : list PathBuf;
  ts_project_root : PathBuf;
}.
Definition default_tsconfig : TsConfigPaths := mkTsConfig "" None [] [] [] "".

Record TsConfigProblem := mkProblem { problem_path : PathBuf; problem_message : string }.

(** [empty_tsconfig] *)
Definition empty_tsconfig (project_root : PathBuf) : TsConfigPaths := mkTsConfig project_root None [] [] [] project_root.

(** The aliases in the order they are tried, each with its base directory. *)
Definition aliases_in_order (ts : TsConfigPaths) : list (string * list string * PathBuf) :=
  sort_by (by_key (fun a => fst (fst a)) alias_pattern_order)
    (imap (fun i alias => (alias, default (config_dir ts) (path_bases ts !! i))) (paths ts)).

(** Where a target of an alias leads. *)
Definition alias_target (base : PathBuf) (suffix target : string) : PathBuf :=
  let candidate := replace_first_star suffix target in
  if is_absolute candidate then candidate else join_path base candidate.

Section tsconfig.
Variables (is_file is_dir : PathBuf -> bool) (canonicalize : PathBuf -> option PathBuf)
  (read_to_string : PathBuf -> list ascii + string) (from_str : list ascii -> PackageJsonValue + string).

(** A file inside the project. *)
Definition resolve_inside (root candidate : PathBuf) : option PathBuf :=
  found ← resolve_file_candidate is_file canonicalize candidate;
  if path_is_inside canonicalize found root then Some found else None.

(** What one alias answers. *)
Definition alias_answer (root : PathBuf) (specifier : string) : string * list string * PathBuf -> option PathBuf :=
  fun '(pattern, targets, base) =>
    suffix ← match_alias_pattern pattern specifier;
    find_map (fun target => resolve_inside root (alias_target base suffix target)) targets.

(** [TsConfigPaths::resolve] *)
Definition resolve_alias (ts : TsConfigPaths) (specifier : string) : option PathBuf :=
  if is_reserved_alias_specifier specifier then None
  else
    match find_map (alias_answer (ts_project_root ts) specifier) (aliases_in_order ts) with
    | Some p => Some p
    | None =>
        if starts_with "." specifier || starts_with "/" specifier then None
        else base ← base_url ts; resolve_inside (ts_project_root ts) (join_path base specifier)
    end.

(** [TsConfigPaths::resolve_glob_pattern] *)
Definition resolve_glob_pattern (ts : TsConfigPaths) (pattern : string) : option PathBuf :=
  if is_reserved_alias_specifier pattern then None
  else
    match find_map (fun '(alias, targets, base) =>
        suffix ← match_alias_pattern alias pattern; target ← head targets; Some (alias_target base suffix target))
        (aliases_in_order ts) with
    | Some p => Some p
    | None => (fun base => join_path base pattern) <$> base_url ts
    end.

(** *** The configuration chain *)

(** [Value::get] on an object, and [as_str]. *)
Definition json_get (v : PackageJsonValue) (key : string) : option PackageJsonValue :=
  match v with PObject map => snd <$> find (fun '(k, _) => String.eqb k key) map | _ => None end.
Definition json_str (v : PackageJsonValue) : option string := match v with PString s => Some s | _ => None end.

(** [config_file_candidate] *)
Definition config_file_candidate (p : PathBuf) : option PathBuf :=
  find is_file [p; with_extension p "json"; join_path p "tsconfig.json"].

(** [resolve_extends_config] *)
Definition extends_in (path : PathBuf) (directory : PathBuf) : option PathBuf :=
  let package_candidate := join_path (join_path directory "node_modules") path in
  match config_file_candidate package_candidate with
  | Some c => Some c
  | None =>
      if is_dir package_candidate then
        match read_to_string (join_path package_candidate "package.json") with
        | inr _ => None
        | inl text =>
            match from_str text with
            | inr _ => None
            | inl package =>
                config_file_candidate (join_path package_candidate
                  (default "tsconfig.json" (json_get package "tsconfig" ≫= json_str)))
            end
        end
      else None
  end.
Definition resolve_extends_config (specifier : string) (config_dir : PathBuf) : option PathBuf :=
  if is_absolute specifier || starts_with "." specifier then config_file_candidate (join_path config_dir specifier)
  else find_map (extends_in specifier) (ancestors_of config_dir).

(** What a configuration's own [compilerOptions] change. *)
Definition apply_options (config_dir' : PathBuf) (value : PackageJsonValue) (ts : TsConfigPaths) : TsConfigPaths :=
  match json_get value "compilerOptions" with
  | None => ts
  | Some options =>
      let ts :=
        match json_get options "baseUrl" ≫= json_str with
        | Some base => mkTsConfig (config_dir ts) (Some (if is_absolute base then base else join_path config_dir' base))
            (paths ts) (path_bases ts) (config_files ts) (ts_project_root ts)
        | None => ts
        end in
      match json_get options "paths" with
      | Some (PObject entries) =>
          let declaration_base := default config_dir' (base_url ts) in
          mkTsConfig (config_dir ts) (base_url ts)
            ((fun '(pattern, targets) => (pattern, match targets with PArray l => omap json_str l | _ => [] end)) <$> entries)
            (replicate (length entries) declaration_base) (config_files ts) (ts_project_root ts)
      | _ => ts
      end
  end.

(** A [Vec<PathBuf>] after [sort] and [dedup]. *)
Definition push_config_file (file : PathBuf) (files : list PathBuf) : list PathBuf :=
  dedup_by same_path (sort_by (by_key path_new path_order) (files ++ [file])).

(** [parse_jsonc] *)
Definition parse_jsonc (text : list ascii) : PackageJsonValue + string := from_str (strip_json_comments text).

(** [load_config_chain]: the configuration, the problem, and [visiting]. *)
Fixpoint load_config_chain (fuel : nat) (config_path project_root : PathBuf) (visiting : gset Path)
    : option (TsConfigPaths * option TsConfigProblem * gset Path) :=
  match fuel with
  | O => None
  | S fuel =>
      let cycle_key := path_new (normalized_canonical_path canonicalize config_path) in
      let failed message visiting := Some (empty_tsconfig project_root, Some (mkProblem config_path message), visiting) in
      if decide (cycle_key ∈ visiting) then failed "cyclic tsconfig/jsconfig extends chain" visiting
      else
        let visiting := {[cycle_key]} ∪ visiting in
        match read_to_string config_path with
        | inr error => failed ("cannot read extended configuration: " +:+ error) (visiting ∖ {[cycle_key]})
        | inl content =>
            match parse_jsonc content with
            | inr error => failed error (visiting ∖ {[cycle_key]})
            | inl value =>
                let config_dir' := default project_root (parent_of config_path) in
                '(effective, problem, visiting) ←
                  match json_get value "extends" ≫= json_str with
                  | None => Some (empty_tsconfig project_root, None, visiting)
                  | Some specifier =>
                      match resolve_extends_config specifier config_dir' with
                      | Some parent => load_config_chain fuel parent project_root visiting
                      | None => Some (empty_tsconfig project_root,
                          Some (mkProblem config_path ("cannot resolve extended configuration `" +:+ specifier +:+ "`")), visiting)
                      end
                  end;
                let effective := apply_options config_dir' value effective in
                Some (mkTsConfig config_dir' (base_url effective) (paths effective) (path_bases effective)
                        (push_config_file config_path (config_files effective)) project_root,
                      problem, visiting ∖ {[cycle_key]})
            end
        end
  end.

(** [TsConfigPaths::load_reporting] *)
Fixpoint load_candidates (fuel : nat) (candidates : list PathBuf) (project_root : PathBuf) (problem : option TsConfigProblem)
    : option (TsConfigPaths * option TsConfigProblem) :=
  match candidates with
  | [] => Some (default_tsconfig, problem)
  | path :: rest =>
      if negb (is_file path) then load_candidates fuel rest project_root problem
      else
        '(config, config_problem, _) ← load_config_chain fuel path project_root ∅;
        if negb (bool_decide (paths config = [])) || bool_decide (is_Some (base_url config)) || bool_decide (config_problem = None)
        then Some (config, config_problem)
        else load_candidates fuel rest project_root config_problem
  end.
Definition load_reporting (fuel : nat) (project_root : PathBuf) : option (TsConfigPaths * option TsConfigProblem) :=
  load_candidates fuel [join_path project_root "tsconfig.json"; join_path project_root "jsconfig.json"] project_root None.

(** [TsConfigPaths::load] *)
Definition load (fuel : nat) (project_root : PathBuf) : option TsConfigPaths := fst <$> load_reporting fuel project_root.
End tsconfig.

(** ** Properties *)

(** *** The configuration chain ends *)

Section chain.
Context (is_file is_dir : PathBuf -> bool) (canonicalize : PathBuf -> option PathBuf)
  (read_to_string : PathBuf -> list ascii + string) (from_str : list ascii -> PackageJsonValue + string).
Abbreviation key_of p := (path_new (normalized_canonical_path canonicalize p)).
(** The configuration files there are, by their canonical paths. *)
Context (configs : gset Path).
Hypothesis configs_all : forall p text, read_to_string p = inl text -> key_of p ∈ configs.

Abbreviation load_chain := (load_config_chain is_file is_dir canonicalize read_to_string from_str).

Lemma load_chain_some fuel : forall p root visiting, size (configs ∖ visiting) + 1 < fuel ->
  exists ts problem, load_chain fuel p root visiting = Some (ts, problem, visiting).
Proof.
  induction fuel as [|fuel IH]; intros p root visiting Hf; [lia|]. cbn [load_config_chain].
  destruct (decide (key_of p ∈ visiting)) as [Hv|Hv]; [by do 2 eexists|].
  assert (({[key_of p]} ∪ visiting) ∖ {[key_of p]} = visiting) as Hback by set_solver.
  destruct (read_to_string p) as [content|error] eqn:Er; [|rewrite Hback; by do 2 eexists].
  destruct (parse_jsonc from_str content) as [value|error]; [|rewrite Hback; by do 2 eexists].
  assert (size (configs ∖ ({[key_of p]} ∪ visiting)) < size (configs ∖ visiting)) as Hless.
  { apply subset_size. apply configs_all in Er. set_solver. }
  match goal with |- context [mbind _ ?x] => assert (exists ts problem, x = Some (ts, problem, {[key_of p]} ∪ visiting)) as (ts & problem & ->) end.
  { destruct (json_get value "extends" ≫= json_str) as [specifier|]; [|by do 2 eexists].
    destruct (resolve_extends_config _ _ _ _ specifier _) as [parent|]; [|by do 2 eexists]. apply IH. lia. }
  cbn [mbind option_bind]. rewrite Hback. by do 2 eexists.
Qed.

(** Loading a configuration ends, cycles of [extends] included: with as
    many configuration files as there are, and two turns more, the chain is
    read to its end or to the file it already is in, and the set of files being
    visited is what it was.  A file that reaches itself reports the cycle, and
    whatever goes wrong above it, a file that declares aliases keeps them. *)
Theorem configuration_chain_ends fuel root :
  size configs + 1 < fuel ->
  (forall p visiting, exists ts problem, load_chain fuel p root visiting = Some (ts, problem, visiting)) /\
  (exists r, load_reporting is_file is_dir canonicalize read_to_string from_str fuel root = Some r) /\
  (forall p visiting, (key_of p ∈ visiting) -> exists ts message,
     load_chain fuel p root visiting = Some (ts, Some (mkProblem p message), visiting) /\ paths ts = [] /\ base_url ts = None) /\
  (forall p visiting content value options entries, (key_of p ∉ visiting) -> read_to_string p = inl content ->
     parse_jsonc from_str content = inl value -> json_get value "compilerOptions" = Some options ->
     json_get options "paths" = Some (PObject entries) ->
     exists ts problem, load_chain fuel p root visiting = Some (ts, problem, visiting) /\ (paths ts).*1 = entries.*1).
Proof.
  intros Hf. assert (forall p visiting, exists ts problem, load_chain fuel p root visiting = Some (ts, problem, visiting)) as Hall.
  { intros p visiting. apply load_chain_some. assert (size (configs ∖ visiting) <= size configs) by (apply subseteq_size; set_solver). lia. }
  split_and!; [done| | |].
  - unfold load_reporting. generalize (@None TsConfigProblem).
    generalize [join_path root "tsconfig.json"; join_path root "jsconfig.json"]. intros candidates.
    induction candidates as [|c rest IH]; intros problem; cbn [load_candidates]; [by eexists|].
    destruct (negb (is_file c)); [apply IH|]. destruct (Hall c ∅) as (ts & p & ->). cbn [mbind option_bind].
    destruct (_ || _ || _); [by eexists|apply IH].
  - intros p visiting Hv. destruct fuel as [|fuel]; [lia|]. cbn [load_config_chain]. rewrite decide_True by done. by do 2 eexists.
  - intros p visiting content value options entries Hv Hr Hj Ho He.
    destruct (Hall p visiting) as (ts & problem & Hload). exists ts, problem. split; [done|].
    destruct fuel as [|fuel]; [lia|]. cbn [load_config_chain] in Hload. rewrite decide_False, Hr, Hj in Hload by done.
    match type of Hload with mbind _ ?x = _ => destruct x as [[[effective pr] visiting']|] end; [|done].
    cbn [mbind option_bind] in Hload. injection Hload as <- _ _. cbn [paths]. unfold apply_options. rewrite Ho, He.
    destruct (json_get options "baseUrl" ≫= json_str); cbn [paths]; rewrite <- list_fmap_compose; apply list_fmap_ext; by intros ? [? ?] _.
Qed.
End chain.

(** A configuration that extends itself. *)
Lemma configuration_chain_witness : exists r, load_reporting (fun _ => true) (fun _ => false) Some
    (fun p => if String.eqb p "/p/tsconfig.json" then inl [] else inr "")
    (fun _ => inl (PObject [("extends", PString "./tsconfig.json")])) 3 "/p" = Some r.
Proof.
  refine (proj1 (proj2 (configuration_chain_ends (fun _ => true) (fun _ => false) Some
    (fun p => if String.eqb p "/p/tsconfig.json" then inl [] else inr "")
    (fun _ => inl (PObject [("extends", PString "./tsconfig.json")])) {[path_new "/p/tsconfig.json"]} _ 3 "/p" _))).
  - intros p text. cbn beta. destruct (String.eqb_spec p "/p/tsconfig.json") as [->|]; [|discriminate].
    intros _. apply elem_of_singleton. reflexivity.
  - apply Nat.ltb_lt. vm_compute. reflexivity.
Defined.

(** *** The most specific alias *)

#[export] Instance bool_cmp_order : CmpOrder bool_cmp.
Proof. split; [by intros [] []|by intros [] [] []]. Qed.

Lemma flip_cmp_order {A} (cmp : A -> A -> comparison) : CmpOrder cmp -> CmpOrder (fun x y => cmp y x).
Proof. intros H. split; [intros x y; apply (cmp_antisym cmp)|intros x y z Hxy Hyz; by apply (cmp_le_trans cmp z y x)]. Qed.

#[export] Instance alias_pattern_cmp_order : CmpOrder alias_pattern_order.
Proof.
  assert (CmpOrder rank_cmp) as Hr by (unfold rank_cmp; apply _).
  change (CmpOrder (lex_cmp (fun x y => by_key alias_rank rank_cmp y x) String.compare)).
  apply lex_cmp_order; [|apply _]. apply (flip_cmp_order (by_key alias_rank rank_cmp)). by apply by_key_order.
Qed.

Lemma find_map_sorted {A B} (cmp : A -> A -> comparison) `{!CmpOrder cmp} (f : A -> option B) l y :
  find_map f (sort_by cmp l) = Some y ->
  exists x, x ∈ l /\ f x = Some y /\ forall x', x' ∈ l -> cmp x' x = Lt -> f x' = None.
Proof.
  intros (l1 & x & l2 & Hl & Hx & Hn)%find_map_Some. exists x.
  assert (forall z, z ∈ l <-> z ∈ sort_by cmp l) as Hin by (intros z; by rewrite sort_by_perm).
  split_and!; [apply Hin; rewrite Hl; set_solver|done|]. intros x' Hx' Hlt.
  apply Hin in Hx'. rewrite Hl in Hx'. rewrite Forall_forall in Hn.
  apply elem_of_app in Hx' as [Hx'|[->|Hx']%elem_of_cons]; [by apply Hn|by rewrite (cmp_refl cmp) in Hlt|exfalso].
  pose proof (sort_by_sorted (cmp := cmp) l) as Hs. rewrite Hl in Hs. apply StronglySorted_app_1_r in Hs.
  apply StronglySorted_cons in Hs as [Hs _]. rewrite Forall_forall in Hs. apply (Hs x') in Hx'.
  apply Hx'. by apply (cmp_gt cmp).
Qed.

Section aliases.
Context (is_file : PathBuf -> bool) (canonicalize : PathBuf -> option PathBuf).
Abbreviation resolve_inside := (resolve_inside is_file canonicalize).

(** An alias of the configuration takes the specifier to [p]. *)
Definition alias_resolves (ts : TsConfigPaths) (specifier pattern : string) (p : PathBuf) : Prop :=
  exists targets base suffix target, (pattern, targets, base) ∈ aliases_in_order ts /\
    match_alias_pattern pattern specifier = Some suffix /\ (target ∈ targets) /\
    resolve_inside (ts_project_root ts) (alias_target base suffix target) = Some p.

Lemma resolve_inside_root root c p : resolve_inside root c = Some p -> path_is_inside canonicalize p root = true.
Proof.
  unfold TsConfig.resolve_inside. destruct (resolve_file_candidate _ _ c); cbn [mbind option_bind]; [|done].
  destruct (path_is_inside _ _ root) eqn:E; [|done]. by intros [= <-].
Qed.

Abbreviation alias_answer := (alias_answer is_file canonicalize).

Lemma alias_answer_Some ts specifier a p : (a ∈ aliases_in_order ts) -> alias_answer (ts_project_root ts) specifier a = Some p ->
  alias_resolves ts specifier (fst (fst a)) p.
Proof.
  destruct a as [[pattern targets] base]. intros Ha. cbn. destruct (match_alias_pattern pattern specifier) as [suffix|] eqn:Em; [|done].
  cbn [mbind option_bind]. intros (t1 & target & t2 & -> & Ht & _)%find_map_Some.
  exists (t1 ++ target :: t2), base, suffix, target. split_and!; [done..|set_solver|done].
Qed.

Lemma alias_resolves_inv ts specifier pattern p : alias_resolves ts specifier pattern p ->
  exists a, a ∈ aliases_in_order ts /\ fst (fst a) = pattern /\ alias_answer (ts_project_root ts) specifier a <> None.
Proof.
  intros (targets & base & suffix & target & Hin & Hm & Ht & Hr). exists (pattern, targets, base). split_and!; [done..|].
  cbn. rewrite Hm. cbn [mbind option_bind]. rewrite find_map_None, Forall_forall. intros Hn. rewrite (Hn target Ht) in Hr. done.
Qed.

Lemma resolve_alias_root ts specifier p : resolve_alias is_file canonicalize ts specifier = Some p ->
  path_is_inside canonicalize p (ts_project_root ts) = true.
Proof.
  unfold resolve_alias. destruct (is_reserved_alias_specifier specifier); [done|].
  destruct (find_map _ (aliases_in_order ts)) as [q|] eqn:Efm.
  - intros [= <-]. apply find_map_Some in Efm as (l1 & a & l2 & Hl & Ha & _).
    apply alias_answer_Some in Ha as (? & ? & ? & ? & _ & _ & _ & Hr); [by eapply resolve_inside_root|rewrite Hl; set_solver].
  - destruct (_ || _); [done|]. destruct (base_url ts); cbn [mbind option_bind]; [|done]. apply resolve_inside_root.
Qed.

(** Which alias a specifier takes.  Nothing resolves outside the project
    or for the framework's own packages; the path comes from an alias that
    matches, where no alias that matches and comes before it in the order of
    patterns leads to a file of the project, and from [baseUrl] only when no
    alias does.  In that order a pattern without a star comes before one with
    a star, and a longer text before the star before a shorter one. *)
Theorem most_specific_alias_wins :
  (forall ts specifier p, resolve_alias is_file canonicalize ts specifier = Some p ->
     is_reserved_alias_specifier specifier = false /\ path_is_inside canonicalize p (ts_project_root ts) = true /\
     ((exists pattern, alias_resolves ts specifier pattern p /\
         forall pattern' p', alias_resolves ts specifier pattern' p' -> alias_pattern_order pattern' pattern <> Lt) \/
      ((forall pattern p', ~ alias_resolves ts specifier pattern p') /\
       exists base, base_url ts = Some base /\ resolve_inside (ts_project_root ts) (join_path base specifier) = Some p))) /\
  (forall a b, has_char "*"%char a = false -> has_char "*"%char b = true -> alias_pattern_order a b = Lt) /\
  (forall pre pre' suf suf', has_char "*"%char pre = false -> has_char "*"%char pre' = false ->
     String.length pre' < String.length pre -> alias_pattern_order (pre +:+ String "*" suf) (pre' +:+ String "*" suf') = Lt).
Proof.
  split_and!.
  - intros ts specifier p. unfold resolve_alias. destruct (is_reserved_alias_specifier specifier); [done|].
    destruct (find_map _ (aliases_in_order ts)) as [q|] eqn:Efm.
    + intros [= <-]. unfold aliases_in_order in Efm. apply find_map_sorted in Efm as (a & Hin & Ha & Hmin); [|apply _].
      rewrite <- (sort_by_perm (cmp := by_key (fun a => fst (fst a)) alias_pattern_order)) in Hin.
      pose proof (alias_answer_Some ts specifier a q Hin Ha) as Hres. split; [done|]. split.
      { destruct Hres as (? & ? & ? & ? & _ & _ & _ & Hr). by eapply resolve_inside_root. }
      left. exists (fst (fst a)). split; [done|]. intros pattern' p' (a' & Hin' & <- & Hne)%alias_resolves_inv Hlt.
      apply Hne, Hmin; [|exact Hlt]. unfold aliases_in_order in Hin'. by rewrite sort_by_perm in Hin'.
    + destruct (_ || _); [done|]. destruct (base_url ts) as [base|]; cbn [mbind option_bind]; [|done]. intros Hr.
      split; [done|]. split; [by eapply resolve_inside_root|]. right. split; [|by exists base].
      intros pattern p' (a & Hin & _ & Hne)%alias_resolves_inv. apply find_map_None in Efm. rewrite Forall_forall in Efm. by apply Hne, Efm.
  - intros a b Ha Hb. unfold alias_pattern_order, alias_rank, find_star. rewrite (proj2 (split_once_None _ _) Ha).
    destruct (split_once "*"%char b) as [[l r]|] eqn:E; [done|]. apply split_once_None in E. congruence.
  - intros pre pre' suf suf' Hp Hp' Hl. unfold alias_pattern_order, alias_rank, find_star. rewrite !split_once_app by done.
    cbn [fmap option_fmap option_map compose fst]. rewrite !bool_decide_eq_false_2 by done. unfold rank_cmp, lex_cmp, by_key. cbn.
    by rewrite (proj2 (Nat.compare_lt_iff _ _) Hl).
Qed.
End aliases.

(** *** Comments *)

(** A piece of JSONC text: a byte outside strings and comments, a string, a comment. *)
Inductive Piece := Plain (c : ascii) | Quoted (body : list ascii) | LineComment (body : list ascii) | BlockComment (body : list ascii).

Definition piece_source (p : Piece) : list ascii :=
  match p with
  | Plain c => [c]
  | Quoted body => "034"%char :: body ++ ["034"%char]
  | LineComment body => "/"%char :: "/"%char :: body ++ ["010"%char]
  | BlockComment body => "/"%char :: "*"%char :: body ++ ["*"; "/"]%char
  end.

(** What stays of it. *)
Definition piece_kept (p : Piece) : list ascii :=
  match p with
  | LineComment _ => ["010"%char]
  | BlockComment body => filter (fun c => c = "010"%char) body
  | _ => piece_source p
  end.

(** The body of a string: escapes are whole, and no quote closes it early. *)
Fixpoint string_body (l : list ascii) : bool :=
  match l with
  | [] => true
  | c :: rest =>
      if Ascii.eqb c "\" then match rest with [] => false | _ :: rest => string_body rest end
      else negb (Ascii.eqb c "034") && string_body rest
  end.

Fixpoint closes_comment (l : list ascii) : bool :=
  match l with
  | [] => false
  | c :: rest => Ascii.eqb c "*" && bool_decide (head rest = Some "/"%char) || closes_comment rest
  end.

Definition piece_ok (p : Piece) : bool :=
  match p with
  | Plain c => negb (Ascii.eqb c "034") && negb (Ascii.eqb c "/")
  | Quoted body => string_body body
  | LineComment body => negb (bool_decide ("010"%char ∈ body))
  | BlockComment body => negb (closes_comment body)
  end.

Definition newlines (l : list ascii) : nat := length (filter (fun c => c = "010"%char) l).

Lemma strip_string body rest : string_body body = true ->
  strip_comments InString (body ++ "034"%char :: rest) = body ++ "034"%char :: strip_comments InCode rest.
Proof.
  assert (forall n body, length body <= n -> string_body body = true ->
    strip_comments InString (body ++ "034"%char :: rest) = body ++ "034"%char :: strip_comments InCode rest) as H.
  2:{ by apply (H (length body)). }
  clear body. induction n as [|n IH]; intros [|c body] Hl Hb; cbn in Hl; try done; [lia|].
  cbn [app strip_comments]. cbn [string_body] in Hb. destruct (Ascii.eqb c "\").
  - destruct body as [|d body]; [done|]. cbn [app]. by rewrite IH by (cbn in Hl; lia || done).
  - apply andb_true_iff in Hb as [Hc Hb]. apply negb_true_iff in Hc. rewrite Hc. by rewrite IH by (lia || done).
Qed.

Lemma strip_line body rest : ("010"%char ∉ body) ->
  strip_comments InLine (body ++ "010"%char :: rest) = "010"%char :: strip_comments InCode rest.
Proof.
  induction body as [|c body IH]; intros Hb; [done|]. cbn [app strip_comments].
  destruct (Ascii.eqb_spec c "010") as [->|]; [set_solver|]. apply IH. set_solver.
Qed.

Lemma strip_block body rest : forall previous, closes_comment (previous :: body) = false ->
  strip_comments (InBlock previous) (body ++ "*"%char :: "/"%char :: rest) =
    filter (fun c => c = "010"%char) body ++ strip_comments InCode rest.
Proof.
  induction body as [|c body IH]; intros previous Hb.
  - cbn [app filter]. rewrite filter_nil. cbn [app strip_comments]. destruct (Ascii.eqb previous "*"); done.
  - cbn [app strip_comments]. destruct (Ascii.eqb previous "*" && Ascii.eqb c "/") eqn:E.
    { apply andb_true_iff in E as [->%Ascii.eqb_eq ->%Ascii.eqb_eq]. done. }
    assert (closes_comment (c :: body) = false) as Hb' by (by apply orb_false_iff in Hb as [_ Hb]).
    rewrite (IH c Hb'), filter_cons.
    destruct (Ascii.eqb_spec c "010") as [->|Hc]; [by rewrite decide_True|by rewrite decide_False].
Qed.

Lemma strip_newlines mode l : newlines (strip_comments mode l) = newlines l.
Proof.
  unfold newlines.
  assert (forall n mode l, length l <= n ->
    length (filter (fun c => c = "010"%char) (strip_comments mode l)) = length (filter (fun c => c = "010"%char) l)) as H.
  2:{ by apply (H (length l)). }
  clear. induction n as [|n IH]; intros mode [|c l] Hl; cbn in Hl; try (by destruct mode); [lia|].
  assert (forall mode, length (filter (fun c => c = "010"%char) (c :: strip_comments mode l)) =
    length (filter (fun c => c = "010"%char) (c :: l))) as Hkeep.
  { intros m. rewrite !filter_cons. specialize (IH m l ltac:(lia)). case_decide; cbn; lia. }
  assert (forall mode, Ascii.eqb c "010" = false -> length (filter (fun c => c = "010"%char) (strip_comments mode l)) =
    length (filter (fun c => c = "010"%char) (c :: l))) as Hdrop.
  { intros m Hc. rewrite filter_cons_False by (by apply Ascii.eqb_neq). apply IH. lia. }
  destruct mode as [| | |previous]; cbn [strip_comments].
  - destruct (Ascii.eqb c "034"); [apply Hkeep|]. destruct (Ascii.eqb_spec c "/") as [->|]; [|apply Hkeep].
    destruct l as [|d l]; [done|].
    destruct (Ascii.eqb_spec d "/") as [->|]; [by apply Hdrop|]. destruct (Ascii.eqb_spec d "*") as [->|].
    + rewrite !filter_cons_False by done. apply IH. cbn in Hl. lia.
    + etransitivity; [|apply (Hkeep InCode)]. repeat case_match; subst; done.
  - destruct (Ascii.eqb c "\"); [|apply Hkeep]. destruct l as [|d l]; [done|].
    specialize (IH InString l ltac:(cbn in Hl; lia)). rewrite !filter_cons. repeat case_decide; cbn; lia.
  - destruct (Ascii.eqb c "010") eqn:Ec; [apply Hkeep|by apply Hdrop].
  - destruct (Ascii.eqb previous "*" && Ascii.eqb c "/") eqn:E.
    { apply andb_true_iff in E as [_ ->%Ascii.eqb_eq]. by apply Hdrop. }
    destruct (Ascii.eqb c "010") eqn:Ec; [apply Hkeep|by apply Hdrop].
Qed.

(** Comments leave tsconfig text and nothing else does.  Text cut into
    bytes outside strings, strings and comments comes out with its strings and
    other bytes as they were, a line comment as its line feed and a block
    comment as the line feeds inside it; and whatever the text, well formed or
    cut off in a comment or a string, its line feeds all stay, so a parse error
    is reported on the line the user wrote. *)
Theorem comments_leave_lines_and_strings :
  (forall pieces, Forall (fun p => piece_ok p = true) pieces ->
     strip_comments InCode (concat (piece_source <$> pieces)) = concat (piece_kept <$> pieces)) /\
  (forall mode text, newlines (strip_comments mode text) = newlines text).
Proof.
  split; [|apply strip_newlines]. intros pieces Hok. induction Hok as [|p pieces Hp _ IH]; [done|]. cbn [fmap list_fmap concat].
  destruct p as [c|body|body|body]; cbn [piece_ok] in Hp; cbn [piece_source piece_kept].
  - apply andb_true_iff in Hp as [H1%negb_true_iff H2%negb_true_iff]. cbn [app strip_comments]. by rewrite H1, H2, IH.
  - cbn [app strip_comments]. cbn [Ascii.eqb Bool.eqb]. rewrite <- app_assoc. cbn [app]. rewrite strip_string, IH by done.
    by rewrite <- app_assoc.
  - cbn [app]. rewrite <- app_assoc. cbn [app]. rewrite <- IH. apply negb_true_iff, bool_decide_eq_false in Hp.
    change (strip_comments InLine ("/"%char :: body ++ "010"%char :: concat (piece_source <$> pieces)) = "010"%char :: strip_comments InCode (concat (piece_source <$> pieces))).
    apply (strip_line ("/"%char :: body)). set_solver.
  - cbn [app]. rewrite <- app_assoc. cbn [app]. apply negb_true_iff in Hp. rewrite <- IH.
    exact (strip_block body (concat (piece_source <$> pieces)) "000"%char Hp).
Qed.
