(* ===== verification/JsScanner.v ===== *)
(** The byte scanner of JavaScript and TypeScript text
    (crates/ruvyxa_bundler/src/ast.rs): where strings, template literals,
    comments, regular expressions and JSX text begin and end.

    A source is a list of bytes; offsets are [nat].  Loops over the remaining
    bytes are structural recursion on [drop index bytes].  The six mutually
    recursive walks of template literals and JSX take fuel, [scan_fuel bytes]
    being enough (proved below).  An offset past the end where Rust would panic
    reads as no byte; every caller passes an offset it has read. *)
From S2P Require Import Prelude RustStr Utf8.

(** ** Definitions *)

Definition newline : ascii := "010".
Definition dquote : ascii := "034".
Definition squote : ascii := "039".
Definition byte_is (c : ascii) (b : ascii) : bool := Ascii.eqb c b.
Definition one_of (cs : list ascii) (b : ascii) : bool := existsb (Ascii.eqb b) cs.

(** [u8::is_ascii_whitespace] *)
Definition is_ascii_whitespace (b : ascii) : bool := one_of [" "; "009"; "010"; "012"; "013"]%char b.
Definition is_ascii_alphabetic (b : ascii) : bool := is_upper b || is_lower b.
Definition is_ident_start_byte (b : ascii) : bool := is_ascii_alphabetic b || one_of ["_"; "$"]%char b.
Definition is_ident_continue_byte (b : ascii) : bool := is_ident_start_byte b || is_digit b.
Definition is_quote (b : ascii) : bool := one_of [dquote; squote; "`"%char] b.
Definition is_jsx_name_start (b : ascii) : bool := is_ascii_alphabetic b || one_of ["_"; "$"]%char b.
Definition is_jsx_name_byte (b : ascii) : bool :=
  is_alnum b || one_of ["_"; "$"; "-"; "."; ":"]%char b || negb (is_ascii_byte b).

(** How many bytes at the front satisfy [p]. *)
Fixpoint span_length (p : ascii -> bool) (l : list ascii) : nat :=
  match l with
  | [] => 0
  | b :: rest => if p b then S (span_length p rest) else 0
  end.

(** [iter().position(p)] *)
Fixpoint position (p : ascii -> bool) (l : list ascii) : option nat :=
  match l with
  | [] => None
  | b :: rest => if p b then Some 0 else S <$> position p rest
  end.

(** The offset just past the first star and slash, starting at offset [i]. *)
Fixpoint block_comment_end (l : list ascii) (i : nat) : option nat :=
  match l with
  | b1 :: (b2 :: _) as rest => if byte_is "*" b1 && byte_is "/" b2 then Some (i + 2) else block_comment_end rest (S i)
  | _ => None
  end.

(** The offset past the quote closing a literal, [None] when its line or the
    input ends first. *)
Fixpoint string_end (quote : ascii) (l : list ascii) (i : nat) : option nat :=
  match l with
  | [] => None
  | b :: rest =>
      if byte_is newline b then None
      else if byte_is "\" b then
        match rest with
        | [] => None
        | c :: rest' =>
            match rest' with
            | d :: rest'' =>
                if byte_is "013" c && byte_is newline d then string_end quote rest'' (i + 3)
                else string_end quote rest' (i + 2)
            | [] => string_end quote rest' (i + 2)
            end
        end
      else if byte_is quote b then Some (S i)
      else string_end quote rest (S i)
  end.

(** The body of a regular expression: [inl] the offset of the line end an
    unterminated literal stops at, [inr] the offset its flags start at. *)
Fixpoint regex_body (inside_character_class : bool) (l : list ascii) (i : nat) : nat + nat :=
  match l with
  | [] => inr i
  | b :: rest =>
      if byte_is "\" b then
        match rest with
        | [] => inr (S i)
        | _ :: rest' => regex_body inside_character_class rest' (i + 2)
        end
      else if byte_is "[" b then regex_body true rest (S i)
      else if byte_is "]" b && inside_character_class then regex_body false rest (S i)
      else if byte_is newline b then inl i
      else if byte_is "/" b && negb inside_character_class then inr (S i)
      else regex_body inside_character_class rest (S i)
  end.

(** What a walk answers: out of fuel, the element declined, or a result. *)
Inductive Walk (A : Type) := NoFuel | Declined | Found (a : A).
#[global] Arguments NoFuel {A}.
#[global] Arguments Declined {A}.
#[global] Arguments Found {A} a.

Definition walk_bind {A B} (w : Walk A) (f : A -> Walk B) : Walk B :=
  match w with NoFuel => NoFuel | Declined => Declined | Found a => f a end.
Notation "x <~ w ; k" := (walk_bind w (fun x => k)) (at level 20, w at level 100, k at level 200, right associativity).

Inductive JsxRegion := Text (first last : nat) | Code (first last : nat).
Definition region_bounds (r : JsxRegion) : nat * nat := match r with Text a b | Code a b => (a, b) end.

Record JsxElement := mkElement { element_end : nat; regions : list JsxRegion }.

(** [push_region]: append a region, dropping an empty one. *)
Definition push_region (rs : list JsxRegion) (r : JsxRegion) : list JsxRegion :=
  let '(first, last) := region_bounds r in if first <? last then rs ++ [r] else rs.

Section scanner.
Variable bytes : list ascii.

(** [bytes.get(index) == Some(&c)] and its generalisation to a test *)
Definition at_byte (index : nat) (p : ascii -> bool) : bool :=
  match bytes !! index with Some b => p b | None => false end.

(** [while bytes.get(index).is_some_and(p) { index += 1 }] *)
Definition skip_while (p : ascii -> bool) (index : nat) : nat := index + span_length p (drop index bytes).

Definition skip_identifier (index : nat) : nat := skip_while is_ident_continue_byte index.
Definition skip_jsx_name (index : nat) : nat := skip_while is_jsx_name_byte index.
Definition skip_jsx_whitespace (index : nat) : nat := skip_while is_ascii_whitespace index.

Definition is_comment_start (index : nat) : bool :=
  at_byte index (byte_is "/") && at_byte (S index) (one_of ["/"; "*"]%char).

Definition skip_comment (start : nat) : nat :=
  if at_byte (S start) (byte_is "/") then
    match position (byte_is newline) (drop (start + 2) bytes) with
    | Some offset => start + 2 + offset + 1
    | None => length bytes
    end
  else
    match block_comment_end (drop (start + 2) bytes) (start + 2) with
    | Some after => after
    | None => length bytes
    end.

Fixpoint skip_gaps (fuel : nat) (index : nat) : nat :=
  let index := skip_while is_ascii_whitespace index in
  match fuel with
  | S fuel' => if is_comment_start index then skip_gaps fuel' (skip_comment index) else index
  | O => index
  end.

(** [skip_whitespace_and_comments]: every round but the last skips two bytes. *)
Definition skip_whitespace_and_comments (index : nat) : nat := skip_gaps (length bytes) index.

(** [char_start] *)
Fixpoint char_start (index : nat) : nat :=
  match index with
  | O => O
  | S before => if at_byte index is_continuation then char_start before else index
  end.

(** One character of a slice that holds nothing else, as [from_utf8] reads it. *)
Definition first_char (first last : nat) : option N :=
  let slice := take (S last - first) (drop first bytes) in
  if valid_utf8 slice then code_point ∘ fst <$> split_char1 slice else None.

(** Whitespace to the JavaScript expression [\s], for a character of several bytes. *)
Definition is_wide_space (c : N) : bool :=
  (c =? 65279)%N || (is_char_whitespace c && negb (c =? 133)%N).

(** [last_token_byte]: step back over whitespace of any width; [fuel] counts down with the offset. *)
Fixpoint last_token_loop (fuel index : nat) : option nat :=
  match fuel, bytes !! index with
  | S fuel', Some b =>
      if is_ascii_byte b then
        if negb (is_ascii_whitespace b) then Some index
        else match index with O => None | S before => last_token_loop fuel' before end
      else
        let start := char_start index in
        match first_char start index with
        | None => None
        | Some character =>
            if negb (is_wide_space character) then Some index
            else match start with O => None | S before => last_token_loop fuel' before end
        end
  | _, _ => None
  end.
Definition last_token_byte (index : nat) : option nat := last_token_loop (S index) index.

(** The start of the identifier bytes that end before [start]. *)
Fixpoint word_start (start : nat) : nat :=
  match start with
  | O => O
  | S before => if at_byte before is_ident_continue_byte then word_start before else start
  end.

(** [previous_word]: the identifier bytes ending at [last], inclusive. *)
Definition previous_word (last : nat) : string :=
  let start := word_start (S last) in
  String.string_of_list_ascii (take (S last - start) (drop start bytes)).

Definition previous_token_is_keyword (last : nat) : bool :=
  existsb (String.eqb (previous_word last))
    ["await"; "case"; "delete"; "do"; "else"; "in"; "instanceof"; "new"; "of"; "return"; "throw"; "typeof"; "void";
     "yield"].

(** [regex_can_start]: whether a slash opens a regular expression here. *)
Definition regex_can_start (previous_significant : option nat) : bool :=
  match previous_significant ≫= last_token_byte with
  | None => true
  | Some index =>
      match bytes !! index with
      | None => true
      | Some b =>
          if one_of [")"%char; "]"%char; "}"%char; squote; dquote; "`"%char] b then false
          else if is_ident_continue_byte b then previous_token_is_keyword index
          else is_ascii_byte b
      end
  end.

(** [skip_regex_literal]: the literal and its flags. *)
Definition skip_regex_literal (start : nat) : nat :=
  match regex_body false (drop (S start) bytes) (S start) with
  | inl index => index
  | inr index => skip_while is_ident_continue_byte index
  end.

Definition skip_string (start : nat) : nat :=
  match bytes !! start with
  | Some quote => default (S start) (string_end quote (drop (S start) bytes) (S start))
  | None => S start
  end.

Definition looks_like_jsx_at (index : nat) : bool :=
  at_byte (S index) (fun b => one_of [">"; "/"]%char b || is_ascii_alphabetic b).

Definition jsx_can_start (previous_significant : option nat) : bool :=
  regex_can_start previous_significant ||
  match previous_significant ≫= last_token_byte with
  | Some index => String.eqb (previous_word index) "default"
  | None => false
  end.

(** [jsx_attribute_value_end] *)
Definition jsx_attribute_value_end (start : nat) (quote : ascii) : option nat :=
  (fun offset => start + 1 + offset) <$> position (byte_is quote) (drop (S start) bytes).

(** [previous_non_whitespace]: the last byte before [index] that is not ASCII whitespace. *)
Definition previous_non_whitespace (index : nat) : option ascii :=
  head (filter (fun b => is_ascii_whitespace b = false) (rev (take index bytes))).

(** [decorator_can_start] *)
Definition decorator_can_start (at_ : nat) : bool :=
  match head (filter (fun b => one_of [" "; "009"; "013"; "010"]%char b = false) (rev (take at_ bytes))) with
  | None => true
  | Some previous => one_of ["{"; "}"; ";"; ")"; "]"]%char previous || is_alnum previous || one_of ["_"; "$"]%char previous
  end.

(** The walks that know each other: an interpolation holds code, code holds
    JSX and template literals, both hold interpolations. *)
Fixpoint interpolation_loop (fuel index depth : nat) (previous_significant : option nat) {struct fuel} : Walk nat :=
  match fuel with
  | O => NoFuel
  | S fuel =>
      match bytes !! index with
      | None => Found (length bytes)
      | Some b =>
          if is_comment_start index then interpolation_loop fuel (skip_comment index) depth previous_significant
          else if byte_is "/" b && regex_can_start previous_significant then
            interpolation_loop fuel (skip_regex_literal index) depth (Some index)
          else
            let plain :=
              if byte_is "`" b then
                t <~ template_loop fuel (S index) [];
                interpolation_loop fuel (fst t) depth (Some index)
              else if byte_is squote b || byte_is dquote b then interpolation_loop fuel (skip_string index) depth (Some index)
              else if byte_is "{" b then interpolation_loop fuel (S index) (S depth) (Some index)
              else if byte_is "}" b then
                if depth =? 1 then Found index else interpolation_loop fuel (S index) (depth - 1) (Some index)
              else interpolation_loop fuel (S index) depth
                     (if is_ascii_whitespace b then previous_significant else Some index) in
            if byte_is "<" b && looks_like_jsx_at index && jsx_can_start previous_significant then
              match jsx_loop fuel index 0 [] with
              | NoFuel => NoFuel
              | Declined => plain
              | Found element =>
                  interpolation_loop fuel (element_end element) depth (Some (element_end element - 1))
              end
            else plain
      end
  end
with template_loop (fuel index : nat) (interpolations : list (nat * nat)) {struct fuel} : Walk (nat * list (nat * nat)) :=
  match fuel with
  | O => NoFuel
  | S fuel =>
      match bytes !! index with
      | None => Found (length bytes, interpolations)
      | Some b =>
          if byte_is "\" b then template_loop fuel (Nat.min (index + 2) (length bytes)) interpolations
          else if byte_is "`" b then Found (S index, interpolations)
          else if byte_is "$" b && at_byte (S index) (byte_is "{") then
            code_end <~ interpolation_loop fuel (index + 2) 1 None;
            template_loop fuel (Nat.min (S code_end) (length bytes)) (interpolations ++ [(index + 2, code_end)])
          else template_loop fuel (S index) interpolations
      end
  end
with jsx_container (fuel index : nat) (rs : list JsxRegion) {struct fuel} : Walk (nat * list JsxRegion) :=
  match fuel with
  | O => NoFuel
  | S fuel =>
      close <~ interpolation_loop fuel (S index) 1 None;
      if length bytes <=? close then Declined else Found (S close, push_region rs (Code (S index) close))
  end
with jsx_attributes (fuel index : nat) (rs : list JsxRegion) {struct fuel} : Walk (nat * bool * list JsxRegion) :=
  match fuel with
  | O => NoFuel
  | S fuel =>
      let index := skip_jsx_whitespace index in
      match bytes !! index with
      | None => Declined
      | Some b =>
          if byte_is ">" b then Found (S index, false, rs)
          else if byte_is "/" b && at_byte (S index) (byte_is ">") then Found (index + 2, true, rs)
          else if byte_is "{" b then
            t <~ jsx_container fuel index rs; jsx_attributes fuel (fst t) (snd t)
          else if is_jsx_name_start b then
            let after_name := skip_jsx_name index in
            let after_gap := skip_jsx_whitespace after_name in
            if negb (at_byte after_gap (byte_is "=")) then jsx_attributes fuel after_name rs
            else
              let index := skip_jsx_whitespace (S after_gap) in
              match bytes !! index with
              | None => Declined
              | Some quote =>
                  if one_of [dquote; squote] quote then
                    match jsx_attribute_value_end index quote with
                    | None => Declined
                    | Some close => jsx_attributes fuel (S close) (push_region rs (Text (S index) close))
                    end
                  else if byte_is "{" quote then
                    t <~ jsx_container fuel index rs; jsx_attributes fuel (fst t) (snd t)
                  else Declined
              end
          else Declined
      end
  end
with jsx_children (fuel index text_start : nat) (rs : list JsxRegion) {struct fuel} : Walk (nat * list JsxRegion) :=
  match fuel with
  | O => NoFuel
  | S fuel =>
      match bytes !! index with
      | None => Declined
      | Some b =>
          if byte_is "<" b then Found (index, push_region rs (Text text_start index))
          else if byte_is "{" b then
            t <~ jsx_container fuel index (push_region rs (Text text_start index));
            jsx_children fuel (fst t) (fst t) (snd t)
          else jsx_children fuel (S index) text_start rs
      end
  end
with jsx_loop (fuel index depth : nat) (rs : list JsxRegion) {struct fuel} : Walk JsxElement :=
  match fuel with
  | O => NoFuel
  | S fuel =>
      let continue index depth rs :=
        if depth =? 0 then Found (mkElement index rs)
        else t <~ jsx_children fuel index index rs; jsx_loop fuel (fst t) depth (snd t) in
      if negb (at_byte index (byte_is "<")) then Declined
      else
        match bytes !! S index with
        | None => Declined
        | Some b =>
            if byte_is "/" b then
              let cursor := skip_jsx_whitespace (skip_jsx_name (index + 2)) in
              if negb (at_byte cursor (byte_is ">")) then Declined
              else match depth with O => Declined | S depth => continue (S cursor) depth rs end
            else if byte_is ">" b then continue (index + 2) (S depth) rs
            else if is_jsx_name_start b then
              t <~ jsx_attributes fuel (skip_jsx_name (S index)) rs;
              let '(after_tag, self_closing, rs) := t in
              continue after_tag (if self_closing : bool then depth else S depth) rs
            else Declined
        end
  end.

(** Fuel for any of the walks. *)
Definition scan_fuel : nat := 2 * length bytes + 4.

(** [template_literal] *)
Definition template_literal (start : nat) : Walk (nat * list (nat * nat)) := template_loop scan_fuel (S start) [].
(** [interpolation_end] *)
Definition interpolation_end (start : nat) : Walk nat := interpolation_loop scan_fuel start 1 None.
(** [jsx_element] *)
Definition jsx_element (start : nat) : Walk JsxElement := jsx_loop scan_fuel start 0 [].
End scanner.

(** ** Properties of the skips *)

Lemma drop_inv {A} (l : list A) i b rest : drop i l = b :: rest -> l !! i = Some b /\ rest = drop (S i) l /\ i < length l.
Proof.
  intros H. assert (l !! i = Some b) as Hi by (rewrite <- (Nat.add_0_r i), <- lookup_drop, H; done).
  split; [done|]. split; [|by apply lookup_lt_Some in Hi]. rewrite (drop_S l b i Hi) in H. congruence.
Qed.

Lemma span_length_le p l : span_length p l <= length l.
Proof. induction l as [|b l IH]; cbn; [lia|]. destruct (p b); lia. Qed.

Lemma span_length_run p l k : k < span_length p l -> exists b, l !! k = Some b /\ p b = true.
Proof.
  revert k. induction l as [|b l IH]; intros k; cbn; [lia|]. destruct (p b) eqn:E; [|lia].
  destruct k as [|k]; [by exists b|]. intros H. apply IH. lia.
Qed.

Lemma span_length_stop p l b : l !! span_length p l = Some b -> p b = false.
Proof. induction l as [|c l IH]; cbn; [done|]. destruct (p c) eqn:E; cbn; [done|]. by intros [= ->]. Qed.

Lemma position_Some p l k : position p l = Some k -> exists b, l !! k = Some b /\ p b = true.
Proof.
  revert k. induction l as [|c l IH]; intros k; cbn; [done|]. destruct (p c) eqn:E.
  - intros [= <-]. by exists c.
  - intros (k' & Hk & ->)%fmap_Some. by apply IH.
Qed.

Section skips.
Variable bytes : list ascii.
Abbreviation L := (length bytes).

Lemma at_byte_true i p : at_byte bytes i p = true <-> exists b, bytes !! i = Some b /\ p b = true.
Proof. unfold at_byte. destruct (bytes !! i) as [b|]; split; try done; [by exists b|by intros (? & [= <-] & ?)|by intros (? & ? & ?)]. Qed.

Lemma at_byte_lt i p : at_byte bytes i p = true -> i < L.
Proof. intros (b & H & _)%at_byte_true. by apply lookup_lt_Some in H. Qed.

(** An offset between two characters: the ends, or next to an ASCII byte. *)
Definition edge (i : nat) : Prop :=
  i = 0 \/ i = L \/ at_byte bytes i is_ascii_byte = true \/ exists j, i = S j /\ at_byte bytes j is_ascii_byte = true.

Lemma edge_at i b : bytes !! i = Some b -> is_ascii_byte b = true -> edge i.
Proof. intros H Hb. right; right; left. apply at_byte_true. eauto. Qed.
Lemma edge_after i b : bytes !! i = Some b -> is_ascii_byte b = true -> edge (S i).
Proof. intros H Hb. do 3 right. exists i. split; [done|]. apply at_byte_true. eauto. Qed.
Lemma edge_end : edge L.
Proof. by right; left. Qed.

Lemma byte_is_true c b : byte_is c b = true -> b = c.
Proof. by intros ->%Ascii.eqb_eq. Qed.

Lemma one_of_true cs b : one_of cs b = true -> b ∈ cs.
Proof. intros (c & Hc & ->%Ascii.eqb_eq)%existsb_exists. by apply list_elem_of_In. Qed.

Lemma one_of_ascii cs b : forallb is_ascii_byte cs = true -> one_of cs b = true -> is_ascii_byte b = true.
Proof. intros Hc Hb%one_of_true%list_elem_of_In. rewrite forallb_forall in Hc. by apply Hc. Qed.

Lemma quote_ascii b : is_quote b = true -> is_ascii_byte b = true.
Proof. by apply one_of_ascii. Qed.

Lemma byte_of_nat b : byte_of b = N.of_nat (nat_of_ascii b).
Proof. unfold byte_of, nat_of_ascii. lia. Qed.

Lemma alnum_ascii b : is_alnum b = true -> is_ascii_byte b = true.
Proof.
  unfold is_alnum, is_upper, is_lower, is_digit, is_ascii_byte. rewrite byte_of_nat. intros H.
  apply N.ltb_lt. rewrite !orb_true_iff, !andb_true_iff, !Nat.leb_le in H. lia.
Qed.

Lemma ident_continue_ascii b : is_ident_continue_byte b = true -> is_ascii_byte b = true.
Proof.
  unfold is_ident_continue_byte, is_ident_start_byte, is_ascii_alphabetic. intros H.
  destruct (one_of ["_"%char; "$"%char] b) eqn:E; [by apply one_of_ascii in E|]. apply alnum_ascii. unfold is_alnum.
  by rewrite orb_false_r in H.
Qed.

Lemma skip_while_bounds p i : i <= L -> i <= skip_while bytes p i <= L.
Proof. intros Hi. unfold skip_while. pose proof (span_length_le p (drop i bytes)). rewrite length_drop in *. lia. Qed.

Lemma skip_while_run p i k : i <= k < skip_while bytes p i -> exists b, bytes !! k = Some b /\ p b = true.
Proof.
  intros Hk. unfold skip_while in Hk. destruct (span_length_run p (drop i bytes) (k - i)) as (b & Hb & Hp); [lia|].
  exists b. rewrite lookup_drop in Hb. replace (i + (k - i)) with k in Hb by lia. done.
Qed.

Lemma skip_while_stop p i b : bytes !! skip_while bytes p i = Some b -> p b = false.
Proof. intros H. apply (span_length_stop p (drop i bytes)). by rewrite lookup_drop. Qed.

Lemma skip_while_moves p i b : bytes !! i = Some b -> p b = true -> i < skip_while bytes p i.
Proof. intros Hi Hp. unfold skip_while. rewrite (drop_S _ b i Hi). cbn. rewrite Hp. lia. Qed.

Lemma comment_start_spec i : is_comment_start bytes i = true -> bytes !! i = Some "/"%char /\ S i < L.
Proof.
  unfold is_comment_start. intros [H1 H2]%andb_true_iff. apply at_byte_lt in H2. split; [|done].
  apply at_byte_true in H1 as (b & Hb & ->%byte_is_true). done.
Qed.

Lemma block_comment_end_spec i r :
  block_comment_end (drop i bytes) i = Some r -> i + 2 <= r <= L /\ bytes !! (r - 1) = Some "/"%char.
Proof.
  remember (L - i) as n eqn:Hn. revert i Hn. induction n as [n IH] using lt_wf_ind. intros i Hn H.
  destruct (drop i bytes) as [|b1 rest] eqn:E1; [done|]. apply drop_inv in E1 as (H1 & -> & Hi).
  destruct (drop (S i) bytes) as [|b2 rest] eqn:E2; [done|].
  change (block_comment_end (b1 :: b2 :: rest) i)
    with (if byte_is "*" b1 && byte_is "/" b2 then Some (i + 2) else block_comment_end (b2 :: rest) (S i)) in H.
  destruct (byte_is "*" b1 && byte_is "/" b2) eqn:E.
  - injection H as <-. apply andb_true_iff in E as [_ ->%byte_is_true]. apply drop_inv in E2 as (H2 & _ & ?).
    replace (i + 2 - 1) with (S i) by lia. split; [lia|done].
  - rewrite <- E2 in H. apply (IH (L - S i)) in H as [? ?]; try lia. split; [lia|done].
Qed.

Lemma skip_comment_spec i :
  is_comment_start bytes i = true -> i < skip_comment bytes i <= L /\ edge (skip_comment bytes i).
Proof.
  intros [_ Hl]%comment_start_spec. unfold skip_comment. destruct (at_byte bytes (S i) (byte_is "/")).
  - destruct (position (byte_is newline) (drop (i + 2) bytes)) as [k|] eqn:E; [|split; [lia|apply edge_end]].
    apply position_Some in E as (b & Hb & ->%byte_is_true). rewrite lookup_drop in Hb.
    pose proof (lookup_lt_Some _ _ _ Hb). split; [lia|]. rewrite (Nat.add_1_r (i + 2 + k)). by eapply edge_after.
  - destruct (block_comment_end (drop (i + 2) bytes) (i + 2)) as [r|] eqn:E; [|split; [lia|apply edge_end]].
    apply block_comment_end_spec in E as [Hr Hb]. split; [lia|]. replace r with (S (r - 1)) by lia. by eapply edge_after.
Qed.

Lemma string_end_spec quote i r :
  string_end quote (drop i bytes) i = Some r -> i < r <= L /\ bytes !! (r - 1) = Some quote.
Proof.
  remember (L - i) as n eqn:Hn. revert i Hn. induction n as [n IH] using lt_wf_ind. intros i Hn H.
  destruct (drop i bytes) as [|b rest] eqn:E1; [done|]. apply drop_inv in E1 as (H1 & -> & Hi). cbn [string_end] in H.
  destruct (byte_is newline b); [done|]. destruct (byte_is "\" b).
  - destruct (drop (S i) bytes) as [|c rest] eqn:E2; [done|]. apply drop_inv in E2 as (H2 & -> & Hi2).
    destruct (drop (S (S i)) bytes) as [|d rest] eqn:E3; [done|]. pose proof E3 as (H3 & -> & Hi3)%drop_inv.
    destruct (byte_is "013" c && byte_is newline d).
    + rewrite (Nat.add_comm i 3) in H. apply (IH (L - (3 + i))) in H; [|lia|done]. destruct H. split; [lia|done].
    + rewrite <- E3, (Nat.add_comm i 2) in H. apply (IH (L - (2 + i))) in H; [|lia|done]. destruct H. split; [lia|done].
  - destruct (byte_is quote b) eqn:Eq.
    + injection H as <-. apply byte_is_true in Eq as ->. cbn [Nat.sub]. rewrite Nat.sub_0_r. split; [lia|done].
    + apply (IH (L - S i)) in H; [|lia|done]. destruct H. split; [lia|done].
Qed.

Lemma skip_string_spec i quote :
  bytes !! i = Some quote -> is_ascii_byte quote = true -> i < skip_string bytes i <= L /\ edge (skip_string bytes i).
Proof.
  intros Hi Hq. pose proof (lookup_lt_Some _ _ _ Hi). unfold skip_string. rewrite Hi.
  destruct (string_end quote (drop (S i) bytes) (S i)) as [r|] eqn:E; cbn [default from_option].
  - apply string_end_spec in E as [Hr Hb]. unfold id. split; [lia|]. replace r with (S (r - 1)) by lia. by eapply edge_after.
  - split; [lia|]. by eapply edge_after.
Qed.

Lemma regex_body_spec cls i :
  i <= L ->
  match regex_body cls (drop i bytes) i with
  | inl r => i <= r < L /\ bytes !! r = Some newline
  | inr r => i <= r <= L /\ (r = L \/ i < r /\ bytes !! (r - 1) = Some "/"%char)
  end.
Proof.
  remember (L - i) as n eqn:Hn. revert cls i Hn. induction n as [n IH] using lt_wf_ind. intros cls i Hn Hle.
  destruct (drop i bytes) as [|b rest] eqn:E1.
  { cbn. apply (f_equal length) in E1. rewrite length_drop in E1. cbn in E1. split; [lia|left; lia]. }
  apply drop_inv in E1 as (H1 & -> & Hi). cbn [regex_body].
  assert (forall cls' k, k = S i \/ k = i + 2 -> k <= L ->
    match regex_body cls' (drop k bytes) k with
    | inl r => i <= r < L /\ bytes !! r = Some newline
    | inr r => i <= r <= L /\ (r = L \/ i < r /\ bytes !! (r - 1) = Some "/"%char)
    end) as Hnext.
  { intros cls' k Hk HkL. specialize (IH (L - k) ltac:(lia) cls' k eq_refl HkL).
    destruct (regex_body cls' (drop k bytes) k) as [r|r].
    - destruct IH. split; [lia|done].
    - destruct IH as [? [?|[? ?]]]; (split; [lia|]); [by left|right; split; [lia|done]]. }
  destruct (byte_is "\" b).
  { destruct (drop (S i) bytes) as [|c rest] eqn:E2.
    - apply (f_equal length) in E2. rewrite length_drop in E2. cbn in E2. split; [lia|left; lia].
    - apply drop_inv in E2 as (_ & -> & ?). replace (S (S i)) with (i + 2) by lia. apply Hnext; [by right|lia]. }
  destruct (byte_is "[" b); [apply Hnext; [by left|lia]|].
  destruct (byte_is "]" b && cls); [apply Hnext; [by left|lia]|].
  destruct (byte_is newline b) eqn:En; [apply byte_is_true in En as ->; split; [lia|done]|].
  destruct (byte_is "/" b && negb cls) eqn:Es; [|apply Hnext; [by left|lia]].
  apply andb_true_iff in Es as [->%byte_is_true _]. cbn [Nat.sub]. rewrite Nat.sub_0_r. split; [lia|right; split; [lia|done]].
Qed.

Lemma skip_regex_spec i :
  i < L -> i < skip_regex_literal bytes i <= L /\ edge (skip_regex_literal bytes i).
Proof.
  intros Hi. unfold skip_regex_literal. pose proof (regex_body_spec false (S i) Hi) as H.
  destruct (regex_body false (drop (S i) bytes) (S i)) as [r|r].
  - destruct H as [Hr Hb]. split; [lia|]. by eapply edge_at.
  - destruct H as [Hr Hb]. pose proof (skip_while_bounds is_ident_continue_byte r (proj2 Hr)) as Hs. split; [lia|].
    set (j := skip_while bytes is_ident_continue_byte r) in *. destruct (decide (j = r)) as [->|Hj].
    + destruct Hb as [->|[? Hb]]; [apply edge_end|]. replace r with (S (r - 1)) by lia. by eapply edge_after.
    + destruct (skip_while_run is_ident_continue_byte r (j - 1)) as (b & Hb' & Hp); [fold j; lia|].
      replace j with (S (j - 1)) by lia. eapply edge_after; [done|]. by apply ident_continue_ascii.
Qed.

(** Ranges in ascending order within [lo, hi], all cut between characters. *)
Inductive chain : nat -> nat -> list (nat * nat) -> Prop :=
| chain_nil lo hi : lo <= hi -> chain lo hi []
| chain_cons lo hi first last rest :
    lo <= first -> first <= last -> edge first -> edge last -> chain last hi rest -> chain lo hi ((first, last) :: rest).

Lemma chain_le lo hi l : chain lo hi l -> lo <= hi.
Proof. induction 1; lia. Qed.

Lemma chain_wider lo hi lo' hi' l : lo' <= lo -> hi <= hi' -> chain lo hi l -> chain lo' hi' l.
Proof.
  intros Hlo Hhi H. revert lo' Hlo. induction H as [lo hi H|lo hi a b l Hlo Hab Ha Hb H IH]; intros lo' Hlo'.
  - constructor. lia.
  - constructor; [lia|done..|]. by apply IH.
Qed.

Lemma walk_chain_app lo mid hi l1 l2 : chain lo mid l1 -> chain mid hi l2 -> chain lo hi (l1 ++ l2).
Proof.
  induction 1 as [lo mid H|lo mid a b l Hlo Hab Ha Hb H IH]; intros H2; cbn.
  - by eapply chain_wider; [..|exact H2].
  - constructor; auto.
Qed.

Lemma chain_one lo hi a b : lo <= a -> a <= b -> b <= hi -> edge a -> edge b -> chain lo hi [(a, b)].
Proof. intros. do 2 (constructor; try done). Qed.

(** What [push_region] appends. *)
Lemma push_region_spec rs r lo hi :
  chain lo hi [region_bounds r] ->
  exists new, push_region rs r = rs ++ new /\ chain lo hi (region_bounds <$> new) /\ Forall (fun p => fst p < snd p) (region_bounds <$> new).
Proof.
  intros H. unfold push_region. destruct (region_bounds r) as [a b] eqn:E. destruct (a <? b) eqn:Hab.
  - exists [r]. cbn. rewrite E. split_and!; [done..|]. apply Nat.ltb_lt in Hab. repeat constructor. done.
  - exists []. rewrite app_nil_r. split_and!; [done| |constructor]. constructor. by apply chain_le in H.
Qed.

(** A step of the element walk is declined, or ends at [r] with more regions. *)
Definition grows (lo : nat) (rs : list JsxRegion) (r : nat) (rs' : list JsxRegion) : Prop :=
  exists new, rs' = rs ++ new /\ chain lo r (region_bounds <$> new) /\
    Forall (fun p => fst p < snd p) (region_bounds <$> new).

Lemma grows_refl lo rs : grows lo rs lo rs.
Proof. exists []. rewrite app_nil_r. split_and!; [done|by constructor|constructor]. Qed.

Lemma grows_trans lo rs mid rs1 hi rs2 : grows lo rs mid rs1 -> grows mid rs1 hi rs2 -> grows lo rs hi rs2.
Proof.
  intros (n1 & -> & H1 & F1) (n2 & -> & H2 & F2). exists (n1 ++ n2). rewrite <- app_assoc, fmap_app.
  split_and!; [done|by eapply walk_chain_app|by apply Forall_app].
Qed.

Lemma grows_wider lo rs hi rs' lo' hi' : lo' <= lo -> hi <= hi' -> grows lo rs hi rs' -> grows lo' rs hi' rs'.
Proof. intros Hl Hh (n & -> & H & F). exists n. split_and!; [done| |done]. by eapply chain_wider; [..|exact H]. Qed.

Lemma grows_push lo rs hi r : chain lo hi [region_bounds r] -> grows lo rs hi (push_region rs r).
Proof. intros (new & -> & H & F)%(push_region_spec rs). by exists new. Qed.

Definition ends_after_ascii (i r : nat) : Prop := i < r <= L /\ exists b, bytes !! (r - 1) = Some b /\ is_ascii_byte b = true.

(** What each walk answers, with enough fuel. *)
Definition interpolation_ok (fuel : nat) : Prop := forall i depth prev,
  i <= L -> 1 <= depth -> 2 * (L - i) + 2 <= fuel ->
  exists r, interpolation_loop bytes fuel i depth prev = Found r /\ i <= r <= L /\ (r = L \/ bytes !! r = Some "}"%char).
Definition template_ok (fuel : nat) : Prop := forall i found,
  i <= L -> 2 * (L - i) + 1 <= fuel ->
  exists r new, template_loop bytes fuel i found = Found (r, found ++ new) /\ i <= r <= L /\ edge r /\ chain i r new.
Definition container_ok (fuel : nat) : Prop := forall i rs,
  bytes !! i = Some "{"%char -> 2 * (L - i) + 1 <= fuel ->
  jsx_container bytes fuel i rs = Declined \/
  exists r rs', jsx_container bytes fuel i rs = Found (r, rs') /\ ends_after_ascii i r /\ grows i rs r rs'.
Definition attributes_ok (fuel : nat) : Prop := forall i rs,
  i <= L -> 2 * (L - i) + 2 <= fuel ->
  jsx_attributes bytes fuel i rs = Declined \/
  exists r closed rs', jsx_attributes bytes fuel i rs = Found (r, closed, rs') /\ ends_after_ascii i r /\ grows i rs r rs'.
Definition children_ok (fuel : nat) : Prop := forall i text_start rs,
  text_start <= i -> i <= L -> edge text_start -> 2 * (L - i) + 2 <= fuel ->
  jsx_children bytes fuel i text_start rs = Declined \/
  exists r rs', jsx_children bytes fuel i text_start rs = Found (r, rs') /\ i <= r < L /\ grows text_start rs r rs'.
Definition element_ok (fuel : nat) : Prop := forall i depth rs,
  i <= L -> 2 * (L - i) + 1 <= fuel ->
  jsx_loop bytes fuel i depth rs = Declined \/
  exists r rs', jsx_loop bytes fuel i depth rs = Found (mkElement r rs') /\ ends_after_ascii i r /\ grows (S i) rs r rs'.

Lemma ends_after_edge i r : ends_after_ascii i r -> edge r.
Proof. intros [Hr (b & Hb & Ha)]. replace r with (S (r - 1)) by lia. by eapply edge_after. Qed.

Lemma ends_after_weaken i j r : i <= j -> ends_after_ascii j r -> ends_after_ascii i r.
Proof. intros Hi [Hr H]. split; [lia|done]. Qed.

Lemma ends_after_intro i r b : bytes !! r = Some b -> is_ascii_byte b = true -> i <= r -> ends_after_ascii i (S r).
Proof.
  intros Hb Ha Hi. pose proof (lookup_lt_Some _ _ _ Hb). split; [lia|]. exists b. cbn. by rewrite Nat.sub_0_r.
Qed.

Lemma interpolation_step fuel :
  interpolation_ok fuel -> template_ok fuel -> element_ok fuel -> interpolation_ok (S fuel).
Proof.
  intros Hi Ht He i depth prev Hil Hd Hf. cbn [interpolation_loop].
  assert (forall j d p, i < j -> j <= L -> 1 <= d ->
    exists r, interpolation_loop bytes fuel j d p = Found r /\ i <= r <= L /\ (r = L \/ bytes !! r = Some "}"%char)) as Hnext.
  { intros j d p Hij Hj Hd'. destruct (Hi j d p Hj Hd') as (r & E & Hr & Hb); [lia|]. exists r. split_and!; [done|lia..|done]. }
  destruct (bytes !! i) as [b|] eqn:Hb; [|exists L; split_and!; [done|lia..|by left]].
  pose proof (lookup_lt_Some _ _ _ Hb) as Hlt.
  destruct (is_comment_start bytes i) eqn:Ec.
  { apply skip_comment_spec in Ec as [? _]. apply Hnext; [lia..|done]. }
  destruct (byte_is "/" b && regex_can_start bytes prev).
  { destruct (skip_regex_spec i Hlt) as [? _]. apply Hnext; [lia..|done]. }
  match goal with |- context [if byte_is "`" b then ?x else ?y] => set (plain := if byte_is "`" b then x else y) end.
  assert (exists r, plain = Found r /\ i <= r <= L /\ (r = L \/ bytes !! r = Some "}"%char)) as Hplain.
  { unfold plain. destruct (byte_is "`" b).
    { destruct (Ht (S i) []) as (r & new & -> & Hr & _); [lia..|]. cbn [walk_bind fst]. apply Hnext; [lia..|done]. }
    destruct (byte_is squote b || byte_is dquote b) eqn:Eq.
    { destruct (skip_string_spec i b Hb) as [? _]; [|apply Hnext; [lia..|done]].
      by apply orb_true_iff in Eq as [->%byte_is_true| ->%byte_is_true]. }
    destruct (byte_is "{" b); [apply Hnext; lia|].
    destruct (byte_is "}" b) eqn:Eb; [|apply Hnext; lia].
    destruct (depth =? 1) eqn:Ed; breflect; [|apply Hnext; lia].
    exists i. apply byte_is_true in Eb as ->. split_and!; [done|lia..|by right]. }
  destruct (byte_is "<" b && looks_like_jsx_at bytes i && jsx_can_start bytes prev); [|done].
  destruct (He i 0 []) as [->|(r & rs' & -> & [Hr _] & _)]; [lia..|done|]. cbn [element_end]. apply Hnext; [lia..|done].
Qed.

Lemma template_step fuel : interpolation_ok fuel -> template_ok fuel -> template_ok (S fuel).
Proof.
  intros Hi Ht i found Hil Hf. cbn [template_loop].
  assert (forall j found' , i < j -> j <= L ->
    exists r new, template_loop bytes fuel j found' = Found (r, found' ++ new) /\ i <= r <= L /\ edge r /\ chain j r new) as Hnext.
  { intros j found' Hij Hj. destruct (Ht j found' Hj) as (r & new & E & Hr & He & Hc); [lia|]. exists r, new. split_and!; [done|lia..|done|done]. }
  assert (forall j found' , i < j -> j <= L ->
    exists r new, template_loop bytes fuel j found' = Found (r, found' ++ new) /\ i <= r <= L /\ edge r /\ chain i r new) as Hnext'.
  { intros j found' Hij Hj. destruct (Hnext j found' Hij Hj) as (r & new & E & Hr & He & Hc). exists r, new.
    split_and!; [done|lia..|done|]. by eapply chain_wider; [..|exact Hc]; lia. }
  destruct (bytes !! i) as [b|] eqn:Hb.
  2:{ exists L, []. rewrite app_nil_r. split_and!; [done|lia..|apply edge_end|by constructor]. }
  pose proof (lookup_lt_Some _ _ _ Hb) as Hlt.
  destruct (byte_is "\" b); [apply Hnext'; lia|].
  destruct (byte_is "`" b) eqn:Et.
  { apply byte_is_true in Et as ->. exists (S i), []. rewrite app_nil_r.
    split_and!; [done|lia..|by eapply edge_after|constructor; lia]. }
  destruct (byte_is "$" b && at_byte bytes (S i) (byte_is "{")) eqn:Ed; [|apply Hnext'; lia].
  apply andb_true_iff in Ed as [_ (c & Hc & ->%byte_is_true)%at_byte_true]. pose proof (lookup_lt_Some _ _ _ Hc).
  destruct (Hi (i + 2) 1 None) as (e & -> & He & Hb'); [lia..|]. cbn [walk_bind].
  assert (edge e) as Hedge by (destruct Hb' as [->|Hb']; [apply edge_end|by eapply edge_at]).
  destruct (Hnext (S e `min` L) (found ++ [(i + 2, e)])) as (r & new & -> & Hr & Her & Hch); [lia..|].
  exists r, ((i + 2, e) :: new). rewrite <- app_assoc. split_and!; [done|lia..|done|].
  constructor; [lia..| |done|].
  - rewrite Nat.add_comm. by eapply (edge_after (S i)).
  - eapply chain_wider; [..|exact Hch]; lia.
Qed.

Lemma container_step fuel : interpolation_ok fuel -> container_ok (S fuel).
Proof.
  intros Hi i rs Hb Hf. pose proof (lookup_lt_Some _ _ _ Hb). cbn [jsx_container].
  destruct (Hi (S i) 1 None) as (e & -> & He & Hb'); [lia..|]. cbn [walk_bind].
  destruct (L <=? e) eqn:El; [by left|]. breflect. destruct Hb' as [->|Hb']; [lia|]. right.
  exists (S e), (push_region rs (Code (S i) e)). split; [done|]. split; [by eapply ends_after_intro; [done|done|lia]|].
  apply grows_push. apply chain_one; [lia..|by eapply edge_after|by eapply edge_at].
Qed.

Lemma name_start_ascii b : is_jsx_name_start b = true -> is_ascii_byte b = true /\ is_jsx_name_byte b = true.
Proof.
  unfold is_jsx_name_start. intros H. assert (is_ident_continue_byte b = true) as Hc.
  { unfold is_ident_continue_byte, is_ident_start_byte. by rewrite H. }
  split; [by apply ident_continue_ascii|]. unfold is_jsx_name_byte, is_alnum. unfold is_ascii_alphabetic in H.
  apply orb_true_iff in H as [H|H]; [by rewrite H|].
  apply orb_true_iff. left. apply orb_true_iff. right. apply one_of_true in H. apply existsb_exists. exists b.
  split; [|by apply Ascii.eqb_eq]. apply list_elem_of_In. set_solver.
Qed.

Lemma attributes_step fuel : container_ok fuel -> attributes_ok fuel -> attributes_ok (S fuel).
Proof.
  intros Hc Ha i rs Hil Hf. cbn [jsx_attributes]. set (j := skip_jsx_whitespace bytes i).
  assert (i <= j <= L) as Hj by by apply skip_while_bounds.
  assert (forall k rs', j < k -> k <= L -> grows i rs k rs' ->
    jsx_attributes bytes fuel k rs' = Declined \/
    exists r closed rs'', jsx_attributes bytes fuel k rs' = Found (r, closed, rs'') /\ ends_after_ascii i r /\ grows i rs r rs'')
    as Hnext.
  { intros k rs' Hjk Hk Hg. destruct (Ha k rs' Hk) as [->|(r & c & rs'' & -> & Hr & Hg')]; [lia|by left|]. right.
    exists r, c, rs''. split_and!; [done|by eapply ends_after_weaken; [|exact Hr]; lia|by eapply grows_trans]. }
  assert (forall k, i <= k -> j <= k -> bytes !! k = Some "{"%char ->
    (t <~ jsx_container bytes fuel k rs; jsx_attributes bytes fuel t.1 t.2) = Declined \/
    exists r closed rs'', (t <~ jsx_container bytes fuel k rs; jsx_attributes bytes fuel t.1 t.2) = Found (r, closed, rs'') /\
      ends_after_ascii i r /\ grows i rs r rs'') as Hcont.
  { intros k Hik Hjk Hk. pose proof (lookup_lt_Some _ _ _ Hk).
    destruct (Hc k rs Hk) as [->|(r & rs' & -> & [Hr _] & Hg)]; [lia|by left|]. cbn [walk_bind fst snd].
    apply Hnext; [lia..|]. eapply grows_wider; [..|exact Hg]; lia. }
  destruct (bytes !! j) as [b|] eqn:Hb; [|by left]. pose proof (lookup_lt_Some _ _ _ Hb) as Hlt.
  assert (forall k, i <= k -> grows i rs k rs) as Hsame by (intros k Hk; eapply grows_wider; [..|apply (grows_refl i)]; lia).
  destruct (byte_is ">" b) eqn:E1.
  { right. apply byte_is_true in E1 as ->. exists (S j), false, rs. split_and!; [done| |apply Hsame; lia].
    by eapply ends_after_intro; [done..|lia]. }
  destruct (byte_is "/" b && at_byte bytes (S j) (byte_is ">")) eqn:E2.
  { right. apply andb_true_iff in E2 as [_ (c & Hc' & ->%byte_is_true)%at_byte_true]. exists (j + 2), true, rs.
    split_and!; [done| |apply Hsame; lia]. rewrite Nat.add_comm. by eapply (ends_after_intro i (S j)); [done..|lia]. }
  destruct (byte_is "{" b) eqn:E3; [apply byte_is_true in E3 as ->; by apply Hcont; [lia..|]|].
  destruct (is_jsx_name_start b) eqn:E4; [|by left]. apply name_start_ascii in E4 as [_ Hname].
  pose proof (skip_while_moves is_jsx_name_byte j b Hb Hname) as Hn.
  pose proof (skip_while_bounds is_jsx_name_byte j) as Hn'. fold (skip_jsx_name bytes j) in Hn, Hn'.
  set (after_name := skip_jsx_name bytes j) in *.
  pose proof (skip_while_bounds is_ascii_whitespace after_name) as Hgap. fold (skip_jsx_whitespace bytes after_name) in Hgap.
  set (gap := skip_jsx_whitespace bytes after_name) in *.
  destruct (at_byte bytes gap (byte_is "=")) eqn:E5; cbn [negb]; [|apply Hnext; [lia..|apply Hsame; lia]].
  apply at_byte_lt in E5.
  pose proof (skip_while_bounds is_ascii_whitespace (S gap)) as Hv. fold (skip_jsx_whitespace bytes (S gap)) in Hv.
  set (v := skip_jsx_whitespace bytes (S gap)) in *.
  destruct (bytes !! v) as [q|] eqn:Hq; [|by left]. pose proof (lookup_lt_Some _ _ _ Hq).
  destruct (one_of [dquote; squote] q) eqn:E6.
  - unfold jsx_attribute_value_end. destruct (position (byte_is q) (drop (S v) bytes)) as [k|] eqn:Ek; cbn [fmap option_fmap option_map]; [|by left].
    apply position_Some in Ek as (c & Hk & ->%byte_is_true). rewrite lookup_drop in Hk. replace (S v + k) with (v + 1 + k) in Hk by lia.
    pose proof (lookup_lt_Some _ _ _ Hk). assert (is_ascii_byte q = true) as Hqa by (by eapply one_of_ascii; [|exact E6]).
    apply Hnext; [lia..|]. eapply grows_wider; [reflexivity| |apply (grows_push i rs (v + 1 + k))]; [lia|].
    apply chain_one; [lia..|by eapply edge_after|by eapply edge_at].
  - destruct (byte_is "{" q) eqn:E7; [|by left]. apply byte_is_true in E7 as ->. apply Hcont; [lia..|done].
Qed.

Lemma children_step fuel : container_ok fuel -> children_ok fuel -> children_ok (S fuel).
Proof.
  intros Hc Hch i ts rs Hts Hil He Hf. cbn [jsx_children].
  destruct (bytes !! i) as [b|] eqn:Hb; [|by left]. pose proof (lookup_lt_Some _ _ _ Hb) as Hlt.
  assert (is_ascii_byte b = true -> grows ts rs i (push_region rs (Text ts i))) as Hpush.
  { intros Ha. apply grows_push, chain_one; [lia..|done|by eapply edge_at]. }
  destruct (byte_is "<" b) eqn:E1.
  { right. apply byte_is_true in E1 as ->. exists i, (push_region rs (Text ts i)). split_and!; [done|lia..|by apply Hpush]. }
  destruct (byte_is "{" b) eqn:E2.
  - apply byte_is_true in E2 as ->. specialize (Hpush eq_refl).
    destruct (Hc i (push_region rs (Text ts i)) Hb) as [->|(r & rs' & -> & Hr & Hg)]; [lia|by left|]. cbn [walk_bind fst snd].
    pose proof (ends_after_edge _ _ Hr) as Her. destruct Hr as [Hr _].
    destruct (Hch r r rs' (le_n r)) as [->|(r' & rs'' & -> & Hr' & Hg')]; [lia|done|lia|by left|]. right.
    exists r', rs''. split_and!; [done|lia..|]. eapply grows_trans; [exact Hpush|]. by eapply grows_trans.
  - destruct (Hch (S i) ts rs) as [->|(r' & rs'' & -> & Hr' & Hg')]; [lia|lia|done|lia|by left|]. right.
    exists r', rs''. split_and!; [done|lia..|done].
Qed.

Lemma element_step fuel : attributes_ok fuel -> children_ok fuel -> element_ok fuel -> element_ok (S fuel).
Proof.
  intros Ha Hch He i depth rs Hil Hf. cbn [jsx_loop].
  pose (continue := fun (k d : nat) (rs' : list JsxRegion) =>
    if d =? 0 then Found (mkElement k rs')
    else t <~ jsx_children bytes fuel k k rs'; jsx_loop bytes fuel t.1 d t.2).
  assert (forall k d rs', ends_after_ascii i k -> i + 2 <= k -> grows (S i) rs k rs' ->
    continue k d rs' = Declined \/
    exists r rs'', continue k d rs' = Found (mkElement r rs'') /\ ends_after_ascii i r /\ grows (S i) rs r rs'') as Hnext.
  { intros k d rs' Hk Hik Hg. unfold continue. destruct (d =? 0); [right; by exists k, rs'|].
    pose proof (ends_after_edge _ _ Hk) as Hek. destruct Hk as [Hk _].
    destruct (Hch k k rs' (le_n k)) as [->|(r & rs'' & -> & Hr & Hg')]; [lia|done|lia|by left|]. cbn [walk_bind fst snd].
    destruct (He r d rs'') as [->|(r' & rs3 & -> & Hr' & Hg3)]; [lia..|by left|]. right. exists r', rs3. split; [done|].
    split; [eapply ends_after_weaken; [|exact Hr']; lia|]. eapply grows_trans; [exact Hg|]. eapply grows_trans; [exact Hg'|]. eapply grows_wider; [..|exact Hg3]; lia. }
  assert (forall k, S i <= k -> grows (S i) rs k rs) as Hsame by (intros k Hk; eapply grows_wider; [..|apply (grows_refl (S i))]; lia).
  destruct (at_byte bytes i (byte_is "<")) eqn:E0; cbn [negb]; [|by left].
  destruct (bytes !! S i) as [b|] eqn:Hb; [|by left]. pose proof (lookup_lt_Some _ _ _ Hb) as Hlt.
  destruct (byte_is "/" b).
  { set (cursor := skip_jsx_whitespace bytes (skip_jsx_name bytes (i + 2))).
    destruct (at_byte bytes cursor (byte_is ">")) eqn:E1; cbn [negb]; [|by left].
    destruct depth as [|depth]; [by left|]. apply at_byte_true in E1 as (c & Hc & ->%byte_is_true).
    assert (i + 2 <= cursor) as Hcur.
    { pose proof (skip_while_bounds is_jsx_name_byte (i + 2)) as H1.
      pose proof (skip_while_bounds is_ascii_whitespace (skip_jsx_name bytes (i + 2))) as H2.
      unfold skip_jsx_name, skip_jsx_whitespace in *. lia. }
    apply Hnext; [by eapply ends_after_intro; [done..|lia]|lia|apply Hsame; lia]. }
  destruct (byte_is ">" b) eqn:E2.
  { apply byte_is_true in E2 as ->. rewrite Nat.add_comm.
    apply Hnext; [by eapply ends_after_intro; [done..|lia]|lia|apply Hsame; lia]. }
  destruct (is_jsx_name_start b) eqn:E3; [|by left]. apply name_start_ascii in E3 as [_ Hname].
  pose proof (skip_while_moves is_jsx_name_byte (S i) b Hb Hname) as Hn.
  pose proof (skip_while_bounds is_jsx_name_byte (S i)) as Hn'. fold (skip_jsx_name bytes (S i)) in Hn, Hn'.
  destruct (Ha (skip_jsx_name bytes (S i)) rs) as [->|(r & closed & rs' & -> & Hr & Hg)]; [lia..|by left|].
  cbn [walk_bind]. assert (i + 2 <= r) by (destruct Hr; lia).
  apply Hnext; [eapply ends_after_weaken; [|exact Hr]; lia|done|eapply grows_wider; [..|exact Hg]; lia].
Qed.

Lemma walks_ok fuel :
  interpolation_ok fuel /\ template_ok fuel /\ container_ok fuel /\ attributes_ok fuel /\ children_ok fuel /\ element_ok fuel.
Proof.
  induction fuel as [|fuel (Hi & Ht & Hc & Ha & Hch & He)].
  - split_and!; intros ?*; try lia.
  - split_and!.
    + by apply interpolation_step.
    + by apply template_step.
    + by apply container_step.
    + by apply attributes_step.
    + by apply children_step.
    + by apply element_step.
Qed.

(** A template literal is read whole: to its end, or to the end of the input,
    its interpolations in order. *)
Lemma template_literal_spec i b :
  bytes !! i = Some b ->
  exists after inner, template_literal bytes i = Found (after, inner) /\ i < after <= L /\ edge after /\ chain (S i) after inner.
Proof.
  intros Hb%lookup_lt_Some. destruct (proj1 (proj2 (walks_ok (scan_fuel bytes))) (S i) []) as (r & new & E & Hr & He & Hc).
  - lia.
  - unfold scan_fuel. lia.
  - exists r, new. split_and!; [done|lia..|done|done].
Qed.

(** An element is declined, or read to the byte after its closing tag. *)
Lemma jsx_element_spec i :
  i <= L ->
  jsx_element bytes i = Declined \/
  exists e, jsx_element bytes i = Found e /\ ends_after_ascii i (element_end e) /\
    chain (S i) (element_end e) (region_bounds <$> regions e) /\ Forall (fun p => fst p < snd p) (region_bounds <$> regions e).
Proof.
  intros Hi. unfold jsx_element.
  destruct (proj2 (proj2 (proj2 (proj2 (proj2 (walks_ok (scan_fuel bytes)))))) i 0 [] Hi) as [E|(r & rs & E & Hr & new & -> & Hc & F)].
  - unfold scan_fuel. lia.
  - by left.
  - right. rewrite E. by exists (mkElement r new).
Qed.

Lemma interpolation_end_spec i :
  i <= L -> exists r, interpolation_end bytes i = Found r /\ i <= r <= L /\ (r = L \/ bytes !! r = Some "}"%char).
Proof. intros Hi. apply (proj1 (walks_ok (scan_fuel bytes))); [done|lia|unfold scan_fuel; lia]. Qed.
End skips.

(** *** Edges and characters *)

Lemma split_char1_utf8 l : utf8 l -> l <> [] -> exists c rest, split_char1 l = Some (c, rest) /\ utf8 rest /\ c <> [].
Proof.
  intros H. destruct H as [|c rest l Hs Hr]; [done|]. intros _. exists c, rest. split_and!; [done|done|].
  apply split_char1_Some in Hs as [_ [(x & -> & _)|[Hl _]]]; [done|]. intros ->. cbn in Hl. lia.
Qed.

(** Cut between two characters, text is text. *)
Lemma utf8_drop_edge l i : utf8 l -> i <= length l -> edge l i -> utf8 (drop i l).
Proof.
  intros H. revert i. induction H as [|c rest l Hs Hrest IH]; intros i Hi He; [rewrite drop_nil; constructor|].
  pose proof Hs as Hs'. apply split_char1_Some in Hs as [-> Hc]. destruct (decide (i = 0)) as [->|Hi0]; [by eapply utf8_cons|].
  destruct (decide (length c <= i)) as [Hle|Hlt].
  - rewrite drop_app_ge by done. apply IH; [rewrite length_app in Hi; lia|].
    destruct He as [->|[->|[Ha|(j & -> & Ha)]]]; [by left|right; left; rewrite length_app; lia|..].
    + right; right; left. unfold at_byte in *. by rewrite lookup_app_r in Ha.
    + destruct (decide (length c = S j)) as [Heq|Hne]; [left; lia|]. do 3 right. exists (j - length c). split; [lia|].
      unfold at_byte in *. by rewrite lookup_app_r in Ha by lia.
  - exfalso. assert (forall k, k < length c -> at_byte (c ++ rest) k is_ascii_byte = true -> length c = 1) as Hone.
    { intros k Hk Ha. unfold at_byte in Ha. rewrite lookup_app_l in Ha by done. destruct Hc as [(x & -> & _)|[_ Hw]]; [done|].
      destruct (c !! k) as [b|] eqn:Ek; [|done]. rewrite Forall_lookup in Hw. specialize (Hw _ _ Ek). congruence. }
    destruct He as [->|[->|[Ha|(j & -> & Ha)]]]; [done|rewrite length_app in Hlt; lia|..].
    + pose proof (Hone i ltac:(lia) Ha). lia.
    + pose proof (Hone j ltac:(lia) Ha). lia.
Qed.

(** A character that starts before an edge ends before it. *)
Lemma char_before_edge l i last c rest : edge l last -> i < last -> last <= length l -> split_char1 (drop i l) = Some (c, rest) -> i + length c <= last.
Proof.
  intros He Hi Hl Hs. apply split_char1_Some in Hs as [Hd Hc]. destruct (decide (i + length c <= last)) as [|Hgt]; [done|]. exfalso.
  assert (i + length c <= length l) as Hlen by (apply (f_equal length) in Hd; rewrite length_drop, length_app in Hd; lia).
  destruct Hc as [(x & -> & _)|[_ Hw]]; [cbn in Hgt; lia|].
  assert (forall k, i <= k < i + length c -> at_byte l k is_ascii_byte = false) as Hwide.
  { intros k Hk. unfold at_byte. assert (l !! k = c !! (k - i)) as ->.
    { rewrite <- (lookup_app_l c rest) by lia. rewrite <- Hd, lookup_drop. f_equal. lia. }
    destruct (c !! (k - i)) as [b|] eqn:Ek; [|done]. by apply (Forall_lookup_1 _ _ _ _ Hw Ek). }
  destruct He as [->|[->|[Ha|(j & -> & Ha)]]]; [lia|lia|rewrite Hwide in Ha by lia; done|rewrite Hwide in Ha by lia; done].
Qed.
