(* ===== verification/ModuleAst.v ===== *)
(** What the bundler reads off module text (crates/ruvyxa_bundler/src/ast.rs):
    [masked_code], the source with everything that is not code blanked, and
    [parse_module], its imports, environment reads, syntax flags and text
    spans.  Both walk the bytes with the helpers of JsScanner.v.

    The walks take fuel, [scan_fuel] being enough (proved below); [None] is a
    panic or lack of fuel. *)
From S2P Require Import Prelude Order RustStr Utf8 Text JsScanner.

(** ** Definitions *)

(** A fold that may panic. *)
Fixpoint fold_opt {A B} (f : B -> A -> option B) (b : B) (l : list A) : option B :=
  match l with
  | [] => Some b
  | x :: rest => b' ← f b x; fold_opt f b' rest
  end.

(** [&source[first..last]] as text *)
Definition slice (source : list ascii) (first last : nat) : string :=
  String.string_of_list_ascii (take (last - first) (drop first source)).

(** *** The mask *)

(** [out[first..last].copy_from_slice(&bytes[first..last])] *)
Definition copy_range (bytes : list ascii) (first last : nat) (out : list ascii) : option (list ascii) :=
  if (first <=? last) && (last <=? length bytes) && (last <=? length out) then
    Some (take first out ++ take (last - first) (drop first bytes) ++ drop last out)
  else None.

(** [mask_range], at offset [index] of [source[..last]] *)
Fixpoint mask_range (fuel : nat) (source : list ascii) (last index : nat) (previous_significant : option nat)
    (out : list ascii) {struct fuel} : option (list ascii) :=
  match fuel with
  | O => None
  | S fuel =>
      let bytes := take last source in
      match bytes !! index with
      | None => Some out
      | Some b =>
          if is_comment_start bytes index then
            mask_range fuel source last (skip_comment bytes index) previous_significant out
          else if byte_is "`" b then
            match template_literal bytes index with
            | Found (after, interpolations) =>
                out ← fold_opt (fun out '(first, close) => mask_range fuel source close first None out) out interpolations;
                mask_range fuel source last after (Some index) out
            | _ => None
            end
          else if is_quote b then mask_range fuel source last (skip_string bytes index) (Some index) out
          else if byte_is "/" b && regex_can_start bytes previous_significant then
            mask_range fuel source last (skip_regex_literal bytes index) (Some index) out
          else
            let plain :=
              mask_range fuel source last (S index) (if is_ascii_whitespace b then previous_significant else Some index)
                (<[index := b]> out) in
            if byte_is "<" b && looks_like_jsx_at bytes index && jsx_can_start bytes previous_significant then
              match jsx_element bytes index with
              | Found element =>
                  state ← fold_opt (fun '(cursor, out) region =>
                      out ← copy_range bytes cursor (fst (region_bounds region)) out;
                      out ← match region with
                            | Code first close => mask_range fuel source close first None out
                            | Text _ _ => Some out
                            end;
                      Some (snd (region_bounds region), out)) (index, out) (regions element);
                  let '(cursor, out) := state in
                  out ← copy_range bytes cursor (element_end element) out;
                  mask_range fuel source last (element_end element) (Some (element_end element - 1)) out
              | Declined => plain
              | NoFuel => None
              end
            else plain
      end
  end.

(** The blank page a mask is copied onto. *)
Definition blank (source : list ascii) : list ascii :=
  (fun b => if byte_is newline b then newline else " "%char) <$> source.

(** [masked_code] *)
Definition masked_code (source : list ascii) : option (list ascii) :=
  out ← mask_range (scan_fuel source) source (length source) 0 None (blank source);
  Some (if valid_utf8 out then out else replicate (length source) " "%char).

(** *** Facts *)

Inductive ImportKind := Static | Dynamic | Require_ | ReExport | SideEffect.
#[export] Instance import_kind_eq_dec : EqDecision ImportKind.
Proof. solve_decision. Defined.
Record ImportEdge := mkEdge { specifier : string; edge_kind : ImportKind }.

Record ModuleAst := mkAst {
  imports : list ImportEdge;
  env_reads : list string;
  has_jsx : bool;
  has_typescript : bool;
  has_decorators : bool;
  has_enums : bool;
  has_default : bool;
  text_spans : list (nat * nat);
}.
Definition empty_ast : ModuleAst := mkAst [] [] false false false false false [].

Definition add_import (a : ModuleAst) (e : option ImportEdge) : ModuleAst :=
  match e with
  | Some e => mkAst (imports a ++ [e]) (env_reads a) (has_jsx a) (has_typescript a) (has_decorators a) (has_enums a)
                (has_default a) (text_spans a)
  | None => a
  end.
Definition add_env_read (a : ModuleAst) (name : option string) : ModuleAst :=
  match name with
  | Some n => mkAst (imports a) (env_reads a ++ [n]) (has_jsx a) (has_typescript a) (has_decorators a) (has_enums a)
                (has_default a) (text_spans a)
  | None => a
  end.
Definition see_jsx (a : ModuleAst) : ModuleAst :=
  mkAst (imports a) (env_reads a) true (has_typescript a) (has_decorators a) (has_enums a) (has_default a) (text_spans a).
Definition see_typescript (a : ModuleAst) : ModuleAst :=
  mkAst (imports a) (env_reads a) (has_jsx a) true (has_decorators a) (has_enums a) (has_default a) (text_spans a).
Definition see_decorator (a : ModuleAst) : ModuleAst :=
  mkAst (imports a) (env_reads a) (has_jsx a) (has_typescript a) true (has_enums a) (has_default a) (text_spans a).
Definition see_enum (a : ModuleAst) : ModuleAst :=
  mkAst (imports a) (env_reads a) (has_jsx a) true (has_decorators a) true (has_default a) (text_spans a).
Definition see_default (a : ModuleAst) (yes : bool) : ModuleAst :=
  mkAst (imports a) (env_reads a) (has_jsx a) (has_typescript a) (has_decorators a) (has_enums a)
    (yes || has_default a) (text_spans a).
Definition add_span (a : ModuleAst) (first last : nat) : ModuleAst :=
  mkAst (imports a) (env_reads a) (has_jsx a) (has_typescript a) (has_decorators a) (has_enums a) (has_default a)
    (text_spans a ++ [(first, last)]).
Definition with_spans (a : ModuleAst) (spans : list (nat * nat)) : ModuleAst :=
  mkAst (imports a) (env_reads a) (has_jsx a) (has_typescript a) (has_decorators a) (has_enums a) (has_default a) spans.

Definition import_specifiers (a : ModuleAst) : list string := specifier <$> imports a.
Definition dynamic_import_specifiers (a : ModuleAst) : list string :=
  specifier <$> filter (fun e => edge_kind e = Dynamic) (imports a).

Section facts.
Variables (source : list ascii) (last : nat).
Let bytes : list ascii := take last source.

(** [word_at] *)
Definition word_at (start : nat) : option string :=
  if at_byte bytes start is_ident_start_byte then Some (slice source start (skip_identifier bytes start)) else None.

(** [quoted_value_at]: the closing quote, then the text before it. *)
Fixpoint closing_quote (quote : ascii) (l : list ascii) (i : nat) : option nat :=
  match l with
  | [] => None
  | b :: rest =>
      if byte_is "\" b then match rest with [] => None | _ :: rest' => closing_quote quote rest' (i + 2) end
      else if byte_is quote b then Some i
      else closing_quote quote rest (S i)
  end.
Definition quoted_value_at (start : nat) : option string :=
  match bytes !! start with
  | None => None
  | Some quote =>
      if negb (is_quote quote) || byte_is "`" quote then None
      else slice source (S start) <$> closing_quote quote (drop (S start) bytes) (S start)
  end.

(** [call_specifier] *)
Definition call_specifier (after_keyword : nat) : option string :=
  let index := skip_whitespace_and_comments bytes after_keyword in
  if at_byte bytes index (byte_is "(") then quoted_value_at (skip_whitespace_and_comments bytes (S index)) else None.

(** [find_from_specifier]; every round moves on. *)
Fixpoint find_from_loop (fuel index : nat) : option string :=
  match fuel with
  | O => None
  | S fuel =>
      if length bytes <=? index then None
      else
        let index := skip_whitespace_and_comments bytes index in
        match bytes !! index with
        | None => None
        | Some b =>
            if byte_is ";" b then None
            else if is_quote b then find_from_loop fuel (skip_string bytes index)
            else if bool_decide (word_at index = Some "from") then
              quoted_value_at (skip_whitespace_and_comments bytes (index + 4))
            else find_from_loop fuel (S index)
        end
  end.
Definition find_from_specifier (index : nat) : option string := find_from_loop (S (length bytes)) index.

(** [import_edge] *)
Definition import_edge (after_keyword : nat) : option ImportEdge :=
  let index := skip_whitespace_and_comments bytes after_keyword in
  match bytes !! index with
  | None => None
  | Some b =>
      if byte_is "." b then None
      else if byte_is "(" b then (fun s => mkEdge s Dynamic) <$> call_specifier index
      else if is_quote b then (fun s => mkEdge s SideEffect) <$> quoted_value_at index
      else if bool_decide (word_at index = Some "type") then None
      else (fun s => mkEdge s Static) <$> find_from_specifier index
  end.

(** [export_edge] *)
Definition export_edge (after_keyword : nat) : option ImportEdge :=
  let index := skip_whitespace_and_comments bytes after_keyword in
  if bool_decide (word_at index = Some "type") || negb (at_byte bytes index (one_of ["{"; "*"]%char)) then None
  else (fun s => mkEdge s ReExport) <$> find_from_specifier index.

(** The run of identifier and non-ASCII bytes a clause name goes on with. *)
Definition skip_wide_identifier (index : nat) : nat :=
  skip_while bytes (fun b => negb (is_ascii_byte b) || is_ident_continue_byte b) index.

(** [named_clause_exports]; every round moves on. *)
Fixpoint clause_loop (fuel index : nat) (last_word : option string) (name : string) : bool :=
  match fuel with
  | O => false
  | S fuel =>
      match bytes !! index with
      | None => false
      | Some b =>
          if is_comment_start bytes index then clause_loop fuel (skip_comment bytes index) last_word name
          else if is_quote b then clause_loop fuel (skip_string bytes index) None name
          else if byte_is "}" b then bool_decide (last_word = Some name)
          else if byte_is "," b then
            if bool_decide (last_word = Some name) then true else clause_loop fuel (S index) None name
          else if is_ident_start_byte b then
            let after := skip_wide_identifier (skip_identifier bytes index) in
            let word := slice source index after in
            clause_loop fuel after (if String.eqb word "as" then last_word else Some word) name
          else clause_loop fuel (S index) last_word name
      end
  end.
Definition named_clause_exports (brace : nat) (name : string) : bool :=
  clause_loop (S (length bytes)) (S brace) None name.

(** [export_declares_default] *)
Definition export_declares_default (after_keyword : nat) : bool :=
  let index := skip_whitespace_and_comments bytes after_keyword in
  match word_at index with
  | Some word => String.eqb word "default"
  | None =>
      if at_byte bytes index (byte_is "*") then
        let index := skip_whitespace_and_comments bytes (S index) in
        if bool_decide (word_at index = Some "as") then
          bool_decide (word_at (skip_whitespace_and_comments bytes (index + 2)) = Some "default")
        else false
      else if at_byte bytes index (byte_is "{") then named_clause_exports index "default"
      else false
  end.

Definition ENV_MARKER : string := "process.env".

(** [starts_env_read] *)
Definition starts_env_read (index : nat) : bool :=
  String.eqb (slice bytes index (index + String.length ENV_MARKER)) ENV_MARKER &&
  match index with
  | O => true
  | S before => negb (at_byte bytes before (fun b => is_ident_continue_byte b || byte_is "." b))
  end.

(** [env_read_name] *)
Definition env_read_name (index : nat) : option string :=
  let index := skip_while bytes is_ascii_whitespace index in
  let named first last := if first <? last then Some (slice bytes first last) else None in
  if at_byte bytes index (byte_is ".") then named (S index) (skip_identifier bytes (S index))
  else if at_byte bytes index (byte_is "[") then
    let index := skip_while bytes is_ascii_whitespace (S index) in
    match bytes !! index with
    | None => None
    | Some quote =>
        if one_of [squote; dquote] quote then
          let after := skip_identifier bytes (S index) in
          name ← named (S index) after;
          if at_byte bytes after (byte_is quote) then
            let index := skip_while bytes is_ascii_whitespace (S after) in
            if at_byte bytes index (byte_is "]") then Some name else None
          else None
        else None
    end
  else None.

(** What the word at [start], ending before [after], adds to the facts, and
    where the walk resumes. *)
Definition scan_word (start after : nat) (a : ModuleAst) : nat * ModuleAst :=
  let word := slice source start after in
  if String.eqb word "import" then (after, add_import a (import_edge after))
  else if String.eqb word "require" && bool_decide (previous_non_whitespace bytes start <> Some "."%char) then
    (after, add_import a ((fun s => mkEdge s Require_) <$> call_specifier after))
  else if String.eqb word "export" then
    (after, see_default (add_import a (export_edge after)) (export_declares_default after))
  else if String.eqb word "process" && starts_env_read start then
    (start + String.length ENV_MARKER, add_env_read a (env_read_name (start + String.length ENV_MARKER)))
  else if String.eqb word "enum" then (after, see_enum a)
  else if existsb (String.eqb word)
      ["interface"; "type"; "satisfies"; "implements"; "declare"; "abstract"; "readonly"; "public"; "private";
       "protected"; "override"] then (after, see_typescript a)
  else if String.eqb word "as" && bool_decide (is_Some (previous_non_whitespace bytes start)) then
    (after, see_typescript a)
  else (after, a).
End facts.

(** [scan_code], at offset [index] of [source[..last]] *)
Fixpoint scan_code (fuel : nat) (source : list ascii) (last index : nat) (previous_significant : option nat)
    (a : ModuleAst) {struct fuel} : option ModuleAst :=
  match fuel with
  | O => None
  | S fuel =>
      let bytes := take last source in
      match bytes !! index with
      | None => Some a
      | Some b =>
          if is_comment_start bytes index then
            let after := skip_comment bytes index in
            scan_code fuel source last after previous_significant (add_span a index after)
          else if byte_is "`" b then
            match template_literal bytes index with
            | Found (after, interpolations) =>
                state ← fold_opt (fun '(text_start, a) '(first, close) =>
                    a ← scan_code fuel source close first None (add_span a text_start first);
                    Some (close, a)) (index, a) interpolations;
                let '(text_start, a) := state in
                scan_code fuel source last after (Some index) (add_span a text_start after)
            | _ => None
            end
          else if is_quote b then
            let after := skip_string bytes index in
            scan_code fuel source last after (Some index) (add_span a index after)
          else if byte_is "/" b && regex_can_start bytes previous_significant then
            let after := skip_regex_literal bytes index in
            scan_code fuel source last after (Some index) (add_span a index after)
          else if byte_is "@" b && decorator_can_start bytes index then
            scan_code fuel source last (S index) (Some index) (see_decorator a)
          else
            let plain a :=
              if is_ident_start_byte b then
                let '(after, a) := scan_word source last index (skip_identifier bytes index) a in
                scan_code fuel source last after (Some (after - 1)) a
              else scan_code fuel source last (S index)
                     (if is_ascii_whitespace b then previous_significant else Some index) a in
            if byte_is "<" b && looks_like_jsx_at bytes index then
              let a := see_jsx a in
              if jsx_can_start bytes previous_significant then
                match jsx_element bytes index with
                | Found element =>
                    a ← fold_opt (fun a region =>
                          match region with
                          | Text first close => Some (add_span a first close)
                          | Code first close => scan_code fuel source close first None a
                          end) a (regions element);
                    scan_code fuel source last (element_end element) (Some (element_end element - 1)) a
                | Declined => plain a
                | NoFuel => None
                end
              else plain a
            else plain a
      end
  end.

(** Lexicographic order of spans. *)
Definition span_cmp : nat * nat -> nat * nat -> comparison := lex_cmp (by_key fst Nat.compare) (by_key snd Nat.compare).

(** [parse_module] *)
Definition parse_module (source : list ascii) : option ModuleAst :=
  a ← scan_code (scan_fuel source) source (length source) 0 None empty_ast;
  Some (with_spans a (sort_by span_cmp (text_spans a))).

(** [ModuleAst::is_code_offset]: the search answers a span starting at the
    offset, or else how many start before it. *)
Definition is_code_offset (a : ModuleAst) (offset : nat) : bool :=
  if existsb (fun s => fst s =? offset) (text_spans a) then false
  else
    match length (filter (fun s => fst s < offset) (text_spans a)) with
    | O => true
    | S before => match text_spans a !! before with Some (_, close) => close <=? offset | None => true end
    end.

(** [has_default_export] *)
Definition has_default_export (source : list ascii) : option bool := has_default <$> parse_module source.

(** *** Named exports *)

(** [is_identifier_byte]: every byte of a character outside ASCII counts. *)
Definition is_identifier_byte (b : ascii) : bool := is_alnum b || one_of ["_"; "$"]%char b || negb (is_ascii_byte b).

Definition is_identifier_boundary (source : list ascii) (start length_ : nat) : bool :=
  match start with O => true | S before => negb (at_byte source before is_identifier_byte) end &&
  negb (at_byte source (start + length_) is_identifier_byte).

Definition is_export_name (rest : list ascii) (name : string) : bool :=
  match strip_bytes name rest with
  | Some remaining => match remaining with b :: _ => negb (is_identifier_byte b) | [] => true end
  | None => false
  end.

(** The loop both export tests share: [found] at some [export] keyword of the code. *)
Fixpoint export_loop (fuel : nat) (source : list ascii) (a : ModuleAst) (found : nat -> bool) (offset : nat) : bool :=
  match fuel, find_bytes (bytes_of "export") (drop offset source) with
  | S fuel, Some ahead =>
      let index := offset + ahead in
      let offset := index + 6 in
      (is_code_offset a index && is_identifier_boundary source index 6 && found offset) ||
      export_loop fuel source a found offset
  | _, _ => false
  end.
Definition any_export (source : list ascii) (a : ModuleAst) (found : nat -> bool) : bool :=
  export_loop (length source) source a found 0.

(** The declaration after [export] names [name]. *)
Definition declares_name (source : list ascii) (name : string) (offset : nat) : bool :=
  let declaration := trim_start (drop offset source) in
  let declaration := default declaration (strip_bytes "async " declaration) in
  existsb (fun prefix => match strip_bytes prefix declaration with Some rest => is_export_name rest name | None => false end)
    ["function "; "const "; "let "; "var "; "class "] ||
  match strip_bytes "function" declaration with
  | Some rest =>
      match strip_bytes "*" (trim_start rest) with Some rest => is_export_name (trim_start rest) name | None => false end
  | None => false
  end.

(** [has_named_runtime_export] *)
Definition has_named_runtime_export (source : list ascii) (a : ModuleAst) (name : string) : bool :=
  if is_empty_str name || negb (all_bytes (fun b => is_alnum b || one_of ["_"; "$"]%char b) name) then false
  else any_export source a (declares_name source name).

(** [has_named_clause_export] *)
Definition has_named_clause_export (source : list ascii) (a : ModuleAst) (name : string) : bool :=
  any_export source a (fun offset =>
    let clause := trim_start (drop offset source) in
    match clause with
    | b :: _ => byte_is "{" b && named_clause_exports source (length source) (length source - length clause) name
    | [] => false
    end).

(** *** Skipping for line-by-line rewriters *)

Inductive NonCode := Opaque (close : nat) | Template (close : nat) (interpolations : list (nat * nat)).

(** [skip_non_code]: what is not code at [index], and whether a block comment goes on. *)
Definition skip_non_code (bytes : list ascii) (index : nat) (previous_significant : option nat) (in_block_comment : bool)
    : Walk (option NonCode * bool) :=
  if in_block_comment then
    match block_comment_end (drop index bytes) index with
    | Some after => Found (Some (Opaque after), false)
    | None => Found (Some (Opaque (length bytes)), true)
    end
  else if is_comment_start bytes index then
    let after := skip_comment bytes index in
    let block := at_byte bytes (S index) (byte_is "*") in
    let closed := (index + 4 <=? after) && at_byte bytes (after - 2) (byte_is "*") && at_byte bytes (after - 1) (byte_is "/") in
    Found (Some (Opaque after), block && negb closed)
  else
    match bytes !! index with
    | None => NoFuel
    | Some b =>
        if byte_is "`" b then
          t <~ template_literal bytes index; Found (Some (Template (fst t) (snd t)), false)
        else if is_quote b then Found (Some (Opaque (skip_string bytes index)), false)
        else if byte_is "/" b && regex_can_start bytes previous_significant then
          Found (Some (Opaque (skip_regex_literal bytes index)), false)
        else Found (None, false)
    end.

(** *** Painting *)

(** Whether [i] lies in one of the ranges. *)
Definition in_spans (i : nat) (spans : list (nat * nat)) : bool := existsb (fun s => (fst s <=? i) && (i <? snd s)) spans.

(** [out] with the bytes of [source[first..last]] outside [spans] copied in. *)
Definition paint (source : list ascii) (first last : nat) (spans : list (nat * nat)) (out : list ascii) : list ascii :=
  imap (fun i o => if (first <=? i) && (i <? last) && negb (in_spans i spans) then default o (source !! i) else o) out.

(** A byte both walks step over one at a time. *)
Definition plain_byte (b : ascii) : bool :=
  negb (one_of ["/"%char; "`"%char; dquote; squote; "<"%char] b) && negb (is_ascii_whitespace b).

(** [value] is written between quotes at offset [start]. *)
Definition quoted (source : list ascii) (start : nat) (value : string) : Prop :=
  exists close quote, source !! start = Some quote /\ one_of [dquote; squote] quote = true /\ start < close /\
    source !! close = Some quote /\ value = slice source (S start) close.

Definition keyword_of (k : ImportKind) : string :=
  match k with Require_ => "require" | ReExport => "export" | _ => "import" end.

(** An edge found between [lo] and [hi]: its keyword is there, in the code, and
    its specifier is quoted further on. *)
Definition import_in (source : list ascii) (lo hi : nat) (spans : list (nat * nat)) (e : ImportEdge) : Prop :=
  exists k j, lo <= k < hi /\ in_spans k spans = false /\
    slice source k (k + String.length (keyword_of (edge_kind e))) = keyword_of (edge_kind e) /\
    k + String.length (keyword_of (edge_kind e)) <= j /\ quoted source j (specifier e).

(** An environment read found between [lo] and [hi]. *)
Definition env_read_in (source : list ascii) (lo hi : nat) (spans : list (nat * nat)) (name : string) : Prop :=
  exists k first close, lo <= k < hi /\ in_spans k spans = false /\
    slice source k (k + String.length ENV_MARKER) = ENV_MARKER /\
    k + String.length ENV_MARKER < first < close /\ name = slice source first close.

(** The facts [a'] adds to [a] by a walk from [lo] to [hi]. *)
Definition grew (source : list ascii) (lo hi : nat) (spans : list (nat * nat)) (a a' : ModuleAst) : Prop :=
  text_spans a' = text_spans a ++ spans /\
  (forall e, e ∈ imports a' -> e ∈ imports a \/ import_in source lo hi spans e) /\
  (forall n, n ∈ env_reads a' -> n ∈ env_reads a \/ env_read_in source lo hi spans n).

(** The two walks from [index] to [last] succeed and find the same spans: one
    records them, the other leaves them blank. *)
Definition agree (source : list ascii) (last index : nat) (prev : option nat) : Prop :=
  exists spans, chain source index last spans /\
    (forall fuel a, last - index < fuel ->
      exists a', scan_code fuel source last index prev a = Some a' /\ grew source index last spans a a') /\
    (forall fuel out, last - index < fuel -> length out = length source ->
      mask_range fuel source last index prev out = Some (paint source index last spans out)).

(** ** Properties *)

Lemma paint_length source a b spans out : length (paint source a b spans out) = length out.
Proof. apply length_imap. Qed.

Lemma paint_lookup source a b spans out i :
  paint source a b spans out !! i =
    (fun o => if (a <=? i) && (i <? b) && negb (in_spans i spans) then default o (source !! i) else o) <$> out !! i.
Proof. apply list_lookup_imap. Qed.

Lemma paint_empty source a spans out : paint source a a spans out = out.
Proof.
  apply list_eq. intros i. rewrite paint_lookup. destruct (out !! i); [cbn [fmap option_fmap option_map]|done]. f_equal.
  destruct (a <=? i) eqn:E1, (i <? a) eqn:E2; breflect; try done. lia.
Qed.

Lemma paint_text source a b out : paint source a b [(a, b)] out = out.
Proof.
  apply list_eq. intros i. rewrite paint_lookup. destruct (out !! i); [cbn [fmap option_fmap option_map]|done]. f_equal.
  unfold in_spans. cbn [existsb fst snd]. by destruct (a <=? i), (i <? b).
Qed.

Lemma in_spans_app i s1 s2 : in_spans i (s1 ++ s2) = in_spans i s1 || in_spans i s2.
Proof. apply existsb_app. Qed.

Lemma chain_outside source lo hi spans i : chain source lo hi spans -> i < lo \/ hi <= i -> in_spans i spans = false.
Proof.
  intros H. revert i. induction H as [lo hi H|lo hi a b l Hlo Hab Ha Hb H IH]; intros i Hi; [done|].
  pose proof (chain_le _ _ _ _ H). unfold in_spans in *. cbn [existsb fst snd]. rewrite IH by lia. rewrite orb_false_r.
  destruct (a <=? i) eqn:E1, (i <? b) eqn:E2; breflect; try done. lia.
Qed.

Lemma paint_app source a m b s1 s2 out :
  chain source a m s1 -> chain source m b s2 ->
  paint source a b (s1 ++ s2) out = paint source m b s2 (paint source a m s1 out).
Proof.
  intros H1 H2. pose proof (chain_le _ _ _ _ H1). pose proof (chain_le _ _ _ _ H2).
  apply list_eq. intros i. rewrite !paint_lookup. destruct (out !! i) as [o|]; [cbn [fmap option_fmap option_map]|done]. f_equal. rewrite in_spans_app.
  destruct (decide (i < m)) as [Hi|Hi].
  - rewrite (chain_outside _ _ _ _ i H2), orb_false_r by lia.
    replace (m <=? i) with false by (symmetry; apply Nat.leb_gt; lia).
    replace (i <? b) with true by (symmetry; apply Nat.ltb_lt; lia).
    replace (i <? m) with true by (symmetry; apply Nat.ltb_lt; lia). by rewrite !andb_true_r.
  - rewrite (chain_outside _ _ _ _ i H1) by lia. cbn [orb].
    replace (i <? m) with false by (symmetry; apply Nat.ltb_ge; lia).
    replace (a <=? i) with true by (symmetry; apply Nat.leb_le; lia).
    replace (m <=? i) with true by (symmetry; apply Nat.leb_le; lia). by rewrite andb_false_r.
Qed.

Lemma paint_one source i b out :
  source !! i = Some b -> length out = length source -> <[i := b]> out = paint source i (S i) [] out.
Proof.
  intros Hb Hl. apply list_eq. intros j. rewrite paint_lookup. cbn [in_spans existsb negb]. rewrite andb_true_r.
  destruct (decide (i = j)) as [<-|Hj].
  - pose proof (lookup_lt_Some _ _ _ Hb). rewrite list_lookup_insert_eq by lia.
    destruct (out !! i) as [o|] eqn:Eo; [|apply lookup_ge_None in Eo; lia]. cbn. rewrite Hb.
    replace (i <=? i) with true by (symmetry; by apply Nat.leb_le).
    by replace (i <? S i) with true by (symmetry; apply Nat.ltb_lt; lia).
  - rewrite list_lookup_insert_ne by done. destruct (out !! j); [cbn [fmap option_fmap option_map]|done]. f_equal.
    destruct (i <=? j) eqn:E1, (j <? S i) eqn:E2; breflect; try done. lia.
Qed.

Lemma copy_range_paint source last a b out :
  a <= b -> b <= last -> last <= length source -> length out = length source ->
  copy_range (take last source) a b out = Some (paint source a b [] out).
Proof.
  intros Hab Hb Hl Ho. unfold copy_range. rewrite length_take_le by done.
  replace (a <=? b) with true by (symmetry; by apply Nat.leb_le).
  replace (b <=? last) with true by (symmetry; by apply Nat.leb_le).
  replace (b <=? length out) with true by (symmetry; apply Nat.leb_le; lia). cbn [andb]. f_equal.
  apply list_eq. intros i. rewrite paint_lookup. cbn [in_spans existsb negb]. rewrite andb_true_r.
  destruct (decide (i < a)) as [H1|H1].
  - rewrite lookup_app_l by (rewrite length_take; lia). rewrite lookup_take_lt by done.
    replace (a <=? i) with false by (symmetry; by apply Nat.leb_gt). by destruct (out !! i).
  - replace (a <=? i) with true by (symmetry; apply Nat.leb_le; lia).
    rewrite lookup_app_r by (rewrite length_take; lia). rewrite length_take_le by lia.
    destruct (decide (i < b)) as [H2|H2].
    + replace (i <? b) with true by (symmetry; by apply Nat.ltb_lt).
      rewrite lookup_app_l by (rewrite length_take, length_drop, length_take; lia).
      rewrite lookup_take_lt, lookup_drop, lookup_take_lt by lia. replace (a + (i - a)) with i by lia.
      destruct (source !! i) eqn:E1; [|apply lookup_ge_None in E1; lia].
      destruct (out !! i) eqn:E2; [done|apply lookup_ge_None in E2; lia].
    + replace (i <? b) with false by (symmetry; apply Nat.ltb_ge; lia).
      rewrite lookup_app_r by (rewrite length_take, length_drop, length_take; lia).
      rewrite lookup_drop, length_take_le by (rewrite length_drop, length_take; lia).
      replace (b + (i - a - (b - a))) with i by lia. by destruct (out !! i).
Qed.

Section take.
Variables (source : list ascii) (last : nat).
Hypothesis Hlast : last <= length source.
Hypothesis Hedge : edge source last.

Lemma at_byte_take i p : at_byte (take last source) i p = true -> at_byte source i p = true.
Proof. intros (b & Hb & Hp)%at_byte_true. apply lookup_take_Some in Hb as [Hb _]. apply at_byte_true. eauto. Qed.

Lemma edge_take i : edge (take last source) i -> edge source i.
Proof.
  intros [->|[->|[H|(j & -> & H)]]]; [by left| |right; right; left; by apply at_byte_take|].
  - by rewrite length_take_le.
  - do 3 right. exists j. split; [done|]. by apply at_byte_take.
Qed.

Lemma chain_take lo hi l : chain (take last source) lo hi l -> chain source lo hi l.
Proof. induction 1; constructor; auto using edge_take. Qed.
End take.

Lemma chain_widths bytes lo hi l : chain bytes lo hi l -> Forall (fun p => lo <= fst p /\ fst p <= snd p /\ snd p <= hi) l.
Proof.
  induction 1 as [lo hi H|lo hi a b l Hlo Hab Ha Hb H IH]; [constructor|]. pose proof (chain_le _ _ _ _ H).
  constructor; [cbn; lia|]. eapply Forall_impl; [exact IH|]. cbn. lia.
Qed.

Lemma chain_edges bytes lo hi l : chain bytes lo hi l -> Forall (fun p => edge bytes (fst p) /\ edge bytes (snd p)) l.
Proof. induction 1; constructor; auto. Qed.

(** *** What a walk adds *)

Lemma import_in_app source lo mid hi s1 s2 e :
  chain source lo mid s1 -> chain source mid hi s2 ->
  import_in source lo mid s1 e \/ import_in source mid hi s2 e -> import_in source lo hi (s1 ++ s2) e.
Proof.
  intros H1 H2. pose proof (chain_le _ _ _ _ H1). pose proof (chain_le _ _ _ _ H2).
  intros [(k & j & Hk & Hs & Hrest)|(k & j & Hk & Hs & Hrest)]; exists k, j; (split; [lia|]); (split; [|done]);
    rewrite in_spans_app, Hs; [|rewrite orb_false_r]; eapply chain_outside; [exact H2|lia|exact H1|lia].
Qed.

Lemma env_read_in_app source lo mid hi s1 s2 n :
  chain source lo mid s1 -> chain source mid hi s2 ->
  env_read_in source lo mid s1 n \/ env_read_in source mid hi s2 n -> env_read_in source lo hi (s1 ++ s2) n.
Proof.
  intros H1 H2. pose proof (chain_le _ _ _ _ H1). pose proof (chain_le _ _ _ _ H2).
  intros [(k & p & q & Hk & Hs & Hrest)|(k & p & q & Hk & Hs & Hrest)]; exists k, p, q; (split; [lia|]); (split; [|done]);
    rewrite in_spans_app, Hs; [|rewrite orb_false_r]; eapply chain_outside; [exact H2|lia|exact H1|lia].
Qed.

Lemma grew_trans source lo mid hi s1 s2 a b c :
  chain source lo mid s1 -> chain source mid hi s2 ->
  grew source lo mid s1 a b -> grew source mid hi s2 b c -> grew source lo hi (s1 ++ s2) a c.
Proof.
  intros Hc1 Hc2 (T1 & I1 & E1) (T2 & I2 & E2). split_and!.
  - by rewrite T2, T1, app_assoc.
  - intros e [He|He]%I2; [apply I1 in He as [He|He]; [by left|]|]; right; eapply import_in_app; eauto.
  - intros n [Hn|Hn]%E2; [apply E1 in Hn as [Hn|Hn]; [by left|]|]; right; eapply env_read_in_app; eauto.
Qed.

Lemma grew_span source lo hi first close a : grew source lo hi [(first, close)] a (add_span a first close).
Proof. split_and!; [done|by left..]. Qed.

Lemma grew_same source lo hi a a' :
  text_spans a' = text_spans a -> imports a' = imports a -> env_reads a' = env_reads a -> grew source lo hi [] a a'.
Proof. intros Ht Hi He. unfold grew. rewrite Ht, Hi, He, app_nil_r. split_and!; [done|by left..]. Qed.

Lemma slice_length source first close : close <= length source -> String.length (slice source first close) = close - first.
Proof.
  intros H. unfold slice. rewrite <- (String.list_ascii_of_string_of_list_ascii (take _ _)) at 1.
  assert (forall l, String.length (String.string_of_list_ascii l) = length l) as Hl by (intros l; induction l; cbn; congruence).
  rewrite String.list_ascii_of_string_of_list_ascii, Hl, length_take, length_drop. lia.
Qed.

Lemma slice_take source last first close : close <= last -> slice (take last source) first close = slice source first close.
Proof. intros H. unfold slice. f_equal. rewrite skipn_firstn_comm, take_take. f_equal. lia. Qed.

(** *** The two walks step together *)

Section agree.
Variables (source : list ascii) (last : nat).
Hypothesis Hlast : last <= length source.
Hypothesis Hedge : edge source last.
Abbreviation bytes := (take last source).

Lemma bytes_lookup i b : bytes !! i = Some b -> source !! i = Some b /\ i < last.
Proof. by intros [? ?]%lookup_take_Some. Qed.

Lemma bytes_length : length bytes = last.
Proof. by apply length_take_le. Qed.

(** From a common step to [j] and agreement there, agreement here. *)
Lemma agree_step index prev j prev' s :
  index <= j -> chain source index j s -> agree source last j prev' ->
  (forall fuel a, last - index < fuel -> exists fuel' a1, last - j < fuel' /\ grew source index j s a a1 /\
    scan_code fuel source last index prev a = scan_code fuel' source last j prev' a1) ->
  (forall fuel out, last - index < fuel -> length out = length source -> exists fuel', last - j < fuel' /\
    mask_range fuel source last index prev out = mask_range fuel' source last j prev' (paint source index j s out)) ->
  agree source last index prev.
Proof.
  intros Hij Hs (s2 & Hc & Hscan & Hmask) H1 H2. exists (s ++ s2). split_and!.
  - by eapply walk_chain_app.
  - intros fuel a Hf. destruct (H1 fuel a Hf) as (fuel' & a1 & Hf' & Ht & ->).
    destruct (Hscan fuel' a1 Hf') as (a' & -> & Ht'). exists a'. split; [done|]. by eapply grew_trans.
  - intros fuel out Hf Ho. destruct (H2 fuel out Hf Ho) as (fuel' & Hf' & ->).
    rewrite Hmask by (rewrite ?paint_length; done). by rewrite (paint_app _ _ j last).
Qed.

Lemma plain_byte_spec b : plain_byte b = true ->
  byte_is "/" b = false /\ byte_is "`" b = false /\ is_quote b = false /\ byte_is "<" b = false /\ is_ascii_whitespace b = false.
Proof.
  unfold plain_byte, is_quote, one_of. cbn [existsb]. rewrite andb_true_iff, !negb_true_iff, !orb_false_iff.
  unfold byte_is. intros [(H1 & H2 & H3 & H4 & H5 & _) Hw]. rewrite (Ascii.eqb_sym "/"), (Ascii.eqb_sym "`"), (Ascii.eqb_sym "<").
  by rewrite H1, H2, H3, H4, H5.
Qed.

Lemma not_slash_no_comment b i : bytes !! i = Some b -> byte_is "/" b = false -> is_comment_start bytes i = false.
Proof. intros Hb Hs. unfold is_comment_start, at_byte. by rewrite Hb, Hs. Qed.

(** The mask copies a run of plain bytes. *)
Lemma mask_plain_run n : forall i prev fuel out,
  (forall k, i <= k < i + n -> exists b, bytes !! k = Some b /\ plain_byte b = true) -> n < fuel -> length out = length source ->
  mask_range fuel source last i prev out =
    mask_range (fuel - n) source last (i + n) (if n =? 0 then prev else Some (i + n - 1)) (paint source i (i + n) [] out).
Proof.
  induction n as [|n IH]; intros i prev fuel out Hrun Hf Ho.
  - by rewrite Nat.add_0_r, Nat.sub_0_r, paint_empty.
  - destruct fuel as [|fuel]; [lia|]. destruct (Hrun i) as (b & Hb & Hp); [lia|].
    apply plain_byte_spec in Hp as (H1 & H2 & H3 & H4 & H5). cbn [mask_range]. rewrite Hb.
    rewrite (not_slash_no_comment _ _ Hb H1), H2, H3, H1, H4. cbn [andb]. rewrite H5.
    pose proof (bytes_lookup _ _ Hb) as [Hs _]. rewrite (paint_one source i b out Hs Ho).
    rewrite IH; [|intros k Hk; apply Hrun; lia|lia|by rewrite paint_length].
    replace (S i + n) with (i + S n) by lia. cbn [Nat.eqb Nat.sub]. f_equal.
    + destruct (n =? 0) eqn:En; breflect; [|done]. f_equal. lia.
    + symmetry. apply (paint_app source i (S i) (i + S n) [] []); constructor; lia.
Qed.

(** A word is plain, and reading it adds no text. *)
Lemma ident_plain b : is_ident_continue_byte b = true -> plain_byte b = true.
Proof.
  intros H. unfold plain_byte. apply andb_true_iff. rewrite !negb_true_iff. split.
  - destruct (one_of _ b) eqn:E; [|done]. apply one_of_true in E. exfalso. revert H.
    repeat (apply elem_of_cons in E as [->|E]; [by vm_compute|]). by apply elem_of_nil in E.
  - destruct (is_ascii_whitespace b) eqn:E; [|done]. apply one_of_true in E. exfalso. revert H.
    repeat (apply elem_of_cons in E as [->|E]; [by vm_compute|]). by apply elem_of_nil in E.
Qed.

Lemma skip_gaps_ge fuel : forall i, i <= skip_gaps bytes fuel i.
Proof.
  induction fuel as [|fuel IH]; intros i; cbn [skip_gaps]; unfold skip_while; [lia|].
  set (j := i + _). assert (i <= j) by lia. destruct (is_comment_start bytes j) eqn:E; [|done].
  apply skip_comment_spec in E as [? _]. specialize (IH (skip_comment bytes j)). lia.
Qed.
Lemma skip_gap_ge i : i <= skip_whitespace_and_comments bytes i.
Proof. apply skip_gaps_ge. Qed.

Lemma closing_quote_spec quote i m :
  closing_quote quote (drop i bytes) i = Some m -> i <= m /\ bytes !! m = Some quote.
Proof.
  remember (length bytes - i) as n eqn:Hn. revert i Hn. induction n as [n IH] using lt_wf_ind. intros i Hn H.
  destruct (drop i bytes) as [|b rest] eqn:E1; [done|]. apply drop_inv in E1 as (H1 & -> & Hi). cbn [closing_quote] in H.
  destruct (byte_is "\" b).
  - destruct (drop (S i) bytes) as [|c rest] eqn:E2; [done|]. apply drop_inv in E2 as (H2 & -> & Hi2).
    replace (S (S i)) with (i + 2) in H by lia. apply (IH (length bytes - (i + 2))) in H as [? ?]; [|lia|done]. split; [lia|done].
  - destruct (byte_is quote b) eqn:Eq.
    + injection H as <-. apply byte_is_true in Eq as ->. done.
    + apply (IH (length bytes - S i)) in H as [? ?]; [|lia|done]. split; [lia|done].
Qed.

Lemma quoted_value_spec start v : quoted_value_at source last start = Some v -> quoted source start v.
Proof.
  unfold quoted_value_at. destruct (bytes !! start) as [q|] eqn:Hq; [|done].
  destruct (negb (is_quote q) || byte_is "`" q) eqn:E; [done|]. intros (m & Hm & ->)%fmap_Some.
  apply closing_quote_spec in Hm as [Hm Hb]. apply bytes_lookup in Hq as [Hq _]. apply bytes_lookup in Hb as [Hb _].
  exists m, q. split_and!; [done| |lia|done..]. apply orb_false_iff in E as [E1%negb_false_iff E2].
  unfold is_quote, one_of in *. cbn [existsb] in *. unfold byte_is in E2. rewrite Ascii.eqb_sym in E2.
  rewrite E2 in E1. exact E1.
Qed.

Lemma call_specifier_spec i v : call_specifier source last i = Some v -> exists j, i <= j /\ quoted source j v.
Proof.
  unfold call_specifier. destruct (at_byte _ _ _); [|done]. intros H%quoted_value_spec. eexists. split; [|exact H].
  pose proof (skip_gap_ge i). pose proof (skip_gap_ge (S (skip_whitespace_and_comments bytes i))). lia.
Qed.

Lemma find_from_spec fuel : forall i v, find_from_loop source last fuel i = Some v -> exists j, i <= j /\ quoted source j v.
Proof.
  induction fuel as [|fuel IH]; intros i v; cbn [find_from_loop]; [done|]. destruct (length bytes <=? i); [done|].
  pose proof (skip_gap_ge i) as Hg. set (i' := skip_whitespace_and_comments bytes i) in *.
  destruct (bytes !! i') as [b|] eqn:Hb; [|done]. destruct (byte_is ";" b); [done|]. destruct (is_quote b) eqn:Eq.
  { apply quote_ascii in Eq. destruct (skip_string_spec bytes i' b Hb Eq) as [Hs _]. intros (j & Hj & H)%IH.
    exists j. split; [lia|done]. }
  destruct (bool_decide _).
  - intros H%quoted_value_spec. eexists. split; [|exact H]. pose proof (skip_gap_ge (i' + 4)). lia.
  - intros (j & Hj & H)%IH. exists j. split; [lia|done].
Qed.

Lemma import_edge_spec i e : import_edge source last i = Some e ->
  keyword_of (edge_kind e) = "import" /\ exists j, i <= j /\ quoted source j (specifier e).
Proof.
  unfold import_edge. pose proof (skip_gap_ge i) as Hg. set (i' := skip_whitespace_and_comments bytes i) in *.
  destruct (bytes !! i') as [b|]; [|done]. destruct (byte_is "." b); [done|].
  assert (forall j v, i' <= j -> quoted source j v -> exists j, i <= j /\ quoted source j v) as Hw.
  { intros j v Hj Hq. exists j. split; [lia|done]. }
  destruct (byte_is "(" b); [intros (v & (j & Hj & H)%call_specifier_spec & ->)%fmap_Some; split; [done|by eapply Hw]|].
  destruct (is_quote b); [intros (v & H%quoted_value_spec & ->)%fmap_Some; split; [done|by eapply Hw]|].
  destruct (bool_decide _); [done|]. intros (v & (j & Hj & H)%find_from_spec & ->)%fmap_Some. split; [done|by eapply Hw].
Qed.

Lemma export_edge_spec i e : export_edge source last i = Some e ->
  keyword_of (edge_kind e) = "export" /\ exists j, i <= j /\ quoted source j (specifier e).
Proof.
  unfold export_edge. pose proof (skip_gap_ge i) as Hg. destruct (_ || _); [done|].
  intros (v & (j & Hj & H)%find_from_spec & ->)%fmap_Some. split; [done|]. exists j. split; [lia|done].
Qed.

Lemma named_spec first n :
  (if first <? skip_identifier bytes first then Some (slice bytes first (skip_identifier bytes first)) else None) = Some n ->
  exists close, first < close /\ n = slice source first close.
Proof.
  destruct (first <? _) eqn:E; [|done]. breflect. intros [= <-]. exists (skip_identifier bytes first). split; [done|].
  apply slice_take. destruct (decide (first <= last)) as [H|H].
  - pose proof (skip_while_bounds bytes is_ident_continue_byte first) as Hb. rewrite bytes_length in Hb. by apply Hb.
  - unfold skip_identifier, skip_while in E. rewrite drop_ge in E by (rewrite bytes_length; lia). cbn in E. lia.
Qed.

Lemma env_read_name_spec i n :
  env_read_name source last i = Some n -> exists first close, i < first < close /\ n = slice source first close.
Proof.
  unfold env_read_name. assert (forall k, k <= skip_while bytes is_ascii_whitespace k) as Hge by (intros k; unfold skip_while; lia).
  pose proof (Hge i). set (i' := skip_while bytes is_ascii_whitespace i) in *.
  destruct (at_byte bytes i' (byte_is ".")).
  { intros (c & Hc & ->)%named_spec. exists (S i'), c. split; [lia|done]. }
  destruct (at_byte bytes i' (byte_is "[")); [|done]. pose proof (Hge (S i')). set (j := skip_while bytes is_ascii_whitespace (S i')) in *.
  destruct (bytes !! j) as [q|]; [|done]. destruct (one_of _ q); [|done].
  intros (n' & (c & Hc & ->)%named_spec & H2)%bind_Some. exists (S j), c.
  destruct (at_byte _ _ _); [|done]. destruct (at_byte _ _ _); [|done]. injection H2 as <-. split; [lia|done].
Qed.

Lemma env_marker_run i :
  starts_env_read source last i = true ->
  i + String.length ENV_MARKER <= last /\
  forall k, i <= k < i + String.length ENV_MARKER -> exists b, bytes !! k = Some b /\ plain_byte b = true.
Proof.
  unfold starts_env_read. intros [H%String.eqb_eq _]%andb_true_iff. unfold slice in H.
  set (n := String.length ENV_MARKER) in *. replace (i + n - i) with n in H by lia.
  apply (f_equal bytes_of) in H. rewrite String.list_ascii_of_string_of_list_ascii in H.
  assert (length (take n (drop i bytes)) = n) as Hn by (rewrite H; done).
  rewrite length_take, length_drop, bytes_length in Hn. assert (i + n <= last) as Hi by (change n with 11 in *; lia).
  split; [done|]. intros k Hk. destruct (bytes !! k) as [b|] eqn:Hb; [|apply lookup_ge_None in Hb; rewrite bytes_length in Hb; lia].
  exists b. split; [done|]. assert (b ∈ bytes_of ENV_MARKER) as Hin.
  { rewrite <- H. apply (list_elem_of_lookup_2 _ (k - i)). rewrite lookup_take_lt, lookup_drop by lia. rewrite <- Hb. f_equal. lia. }
  assert (forallb plain_byte (bytes_of ENV_MARKER) = true) as Hall by done.
  rewrite forallb_forall in Hall. by apply Hall, list_elem_of_In.
Qed.

Lemma scan_word_spec i b a j a' :
  bytes !! i = Some b -> is_ident_start_byte b = true ->
  scan_word source last i (skip_identifier bytes i) a = (j, a') ->
  i < j <= last /\ grew source i j [] a a' /\
  forall k, i <= k < j -> exists c, bytes !! k = Some c /\ plain_byte c = true.
Proof.
  intros Hb Hs Hw. pose proof (bytes_lookup _ _ Hb) as [_ Hi].
  assert (i < skip_identifier bytes i <= last) as Hskip.
  { split; [eapply skip_while_moves; [done|]; unfold is_ident_continue_byte; by rewrite Hs|].
    pose proof (skip_while_bounds bytes is_ident_continue_byte i) as H. rewrite bytes_length in H. unfold skip_identifier. lia. }
  assert (forall k, i <= k < skip_identifier bytes i -> exists c, bytes !! k = Some c /\ plain_byte c = true) as Hrun.
  { intros k Hk. destruct (skip_while_run bytes is_ident_continue_byte i k Hk) as (c & Hc & Hp). eauto using ident_plain. }
  unfold scan_word in Hw. set (after := skip_identifier bytes i) in *.
  assert (forall w, String.eqb (slice source i after) w = true -> after = i + String.length w /\ slice source i (i + String.length w) = w) as Hword.
  { intros w Hw'%String.eqb_eq. assert (after = i + String.length w) as <-; [|done]. rewrite <- Hw', slice_length; lia. }
  set (word := slice source i after) in *. clearbody word.
  assert (forall x : ModuleAst, grew source i after [] a x -> (after, x) = (j, a') ->
    i < j <= last /\ grew source i j [] a a' /\ forall k, i <= k < j -> exists c, bytes !! k = Some c /\ plain_byte c = true) as Hsame.
  { intros x Hx [= <- <-]. done. }
  assert (forall e w, String.eqb word w = true ->
    (forall x, e = Some x -> keyword_of (edge_kind x) = w /\ exists j, after <= j /\ quoted source j (specifier x)) ->
    grew source i after [] a (add_import a e)) as Himport.
  { intros [e|] w E He; [|by apply grew_same]. destruct (He e eq_refl) as (Hk & k & Hj & Hq). apply Hword in E as [E1 E2].
    split_and!; [by rewrite app_nil_r| |by left]. intros x [Hx|Hx]%elem_of_app; [by left|].
    apply list_elem_of_singleton in Hx as ->. right. exists i, k. rewrite Hk. split_and!; [lia..|done|done|lia|done]. }
  destruct (String.eqb word "import") eqn:E1.
  { eapply Hsame; [|exact Hw]. eapply Himport; [exact E1|]. intros x Hx. by apply import_edge_spec. }
  destruct (String.eqb word "require" && _) eqn:E2.
  { eapply Hsame; [|exact Hw]. apply andb_true_iff in E2 as [E2 _]. eapply Himport; [exact E2|].
    intros x (v & Hx%call_specifier_spec & ->)%fmap_Some. done. }
  destruct (String.eqb word "export") eqn:E3.
  { eapply Hsame; [|exact Hw]. apply (Himport (export_edge source last after) "export" E3). intros x Hx. by apply export_edge_spec. }
  destruct (String.eqb word "process" && starts_env_read source last i) eqn:E.
  { apply andb_true_iff in E as [_ E]. pose proof (env_marker_run i E) as [Hn Hplain]. injection Hw as <- <-.
    assert (String.length ENV_MARKER = 11) as Hm by done. split; [lia|]. split; [|done].
    destruct (env_read_name source last _) as [n|] eqn:En; [|by apply grew_same].
    apply env_read_name_spec in En as (p & q & Hp & ->). split_and!; [by rewrite app_nil_r|by left|].
    intros x [Hx|Hx]%elem_of_app; [by left|]. apply list_elem_of_singleton in Hx as ->. right. exists i, p, q.
    split_and!; [lia..|done| |lia|lia|done]. apply andb_true_iff in E as [E%String.eqb_eq _]. by rewrite slice_take in E. }
  destruct (String.eqb word "enum"); [eapply Hsame; [|exact Hw]; by apply grew_same|].
  destruct (existsb _ _); [eapply Hsame; [|exact Hw]; by apply grew_same|].
  destruct (String.eqb word "as" && _); (eapply Hsame; [|exact Hw]; by apply grew_same).
Qed.

(** A template literal: the text between the interpolations, and what the
    interpolations hold. *)
Lemma agree_template w inner : forall text_start lo after,
  chain source lo after inner -> text_start <= lo -> edge source text_start -> edge source after ->
  Forall (fun p => snd p - fst p < w) inner ->
  Forall (fun p => agree source (snd p) (fst p) None) inner ->
  exists spans, chain source text_start after spans /\
    (forall fuel a, w <= fuel -> exists te a1,
      fold_opt (fun '(text_start, a) '(first, close) =>
        a ← scan_code fuel source close first None (add_span a text_start first); Some (close, a)) (text_start, a) inner
        = Some (te, a1) /\ grew source text_start after spans a (add_span a1 te after)) /\
    (forall fuel out, w <= fuel -> length out = length source ->
      fold_opt (fun out '(first, close) => mask_range fuel source close first None out) out inner
        = Some (paint source text_start after spans out)).
Proof.
  induction inner as [|[first close] inner IH]; intros ts lo after Hc Hts He Hae Hw Hag.
  - pose proof (chain_le _ _ _ _ Hc). exists [(ts, after)]. split_and!.
    + apply chain_one; [lia..|done|done].
    + intros fuel a _. exists ts, a. split; [done|]. apply grew_span.
    + intros fuel out _ _. cbn. by rewrite paint_text.
  - inversion Hc as [|? ? ? ? ? Hlo Hfc Hef Hec Hrest]; subst. inversion Hw as [|? ? Hw1 Hw']; subst.
    inversion Hag as [|? ? (s1 & Hs1 & Hscan & Hmask) Hag']; subst. cbn [fst snd] in *.
    destruct (IH close close after Hrest (le_n _) Hec Hae Hw' Hag') as (s2 & Hs2 & Hscan2 & Hmask2).
    exists ([(ts, first)] ++ s1 ++ s2). split_and!.
    + apply walk_chain_app with first; [apply chain_one; [lia..|done|done]|]. by eapply walk_chain_app.
    + intros fuel a Hf. destruct (Hscan fuel (add_span a ts first)) as (a1 & E1 & Ht1); [lia|].
      destruct (Hscan2 fuel a1 Hf) as (te & a2 & E2 & Ht2). exists te, a2. cbn [fold_opt]. rewrite E1. cbn [mbind option_bind].
      rewrite E2. split; [done|].
      apply (grew_trans source ts first after _ _ a (add_span a ts first)); [apply chain_one; [lia..|done|done]| |apply grew_span|].
      { by eapply walk_chain_app. }
      eapply grew_trans; [exact Hs1|exact Hs2|exact Ht1|exact Ht2].
    + intros fuel out Hf Ho. cbn [fold_opt]. rewrite Hmask by (try done; lia). cbn [mbind option_bind].
      rewrite Hmask2 by (try done; by rewrite paint_length). f_equal.
      rewrite (paint_app source ts first after [(ts, first)] (s1 ++ s2)).
      * rewrite paint_text. symmetry. by apply paint_app.
      * apply chain_one; [lia..|done|done].
      * by eapply walk_chain_app.
Qed.

(** An element: its text regions, and what its containers hold. *)
Lemma agree_element w rs : forall cursor finish,
  chain source cursor finish (region_bounds <$> rs) -> finish <= last ->
  Forall (fun p => snd p - fst p < w) (region_bounds <$> rs) ->
  Forall (fun p => agree source (snd p) (fst p) None) (region_bounds <$> rs) ->
  exists spans, chain source cursor finish spans /\
    (forall fuel a, w <= fuel -> exists a1,
      fold_opt (fun a region => match region with
                                | Text first close => Some (add_span a first close)
                                | Code first close => scan_code fuel source close first None a
                                end) a rs = Some a1 /\ grew source cursor finish spans a a1) /\
    (forall fuel out, w <= fuel -> length out = length source -> exists cursor' out',
      fold_opt (fun '(cursor, out) region =>
        out ← copy_range bytes cursor (fst (region_bounds region)) out;
        out ← match region with Code first close => mask_range fuel source close first None out | Text _ _ => Some out end;
        Some (snd (region_bounds region), out)) (cursor, out) rs = Some (cursor', out') /\
      copy_range bytes cursor' finish out' = Some (paint source cursor finish spans out)).
Proof.
  induction rs as [|r rs IH]; intros cursor finish Hc Hfin Hw Hag.
  - exists []. split_and!; [done| |].
    + intros fuel a _. exists a. split; [done|]. by apply grew_same.
    + intros fuel out _ Ho. exists cursor, out. split; [done|]. apply copy_range_paint; try done. by apply chain_le in Hc.
  - rewrite fmap_cons in *. destruct (region_bounds r) as [first close] eqn:Er.
    inversion Hc as [|? ? ? ? ? Hlo Hfc Hef Hec Hrest]; subst. inversion Hw as [|? ? Hw1 Hw']; subst.
    inversion Hag as [|? ? (s1 & Hs1 & Hscan & Hmask) Hag']; subst. cbn [fst snd] in *.
    pose proof (chain_le _ _ _ _ Hrest) as Hcf.
    destruct (IH close finish Hrest Hfin Hw' Hag') as (s2 & Hs2 & Hscan2 & Hmask2).
    set (mid := match r with Text a b => [(a, b)] | Code _ _ => s1 end).
    assert (chain source first close mid) as Hmid.
    { unfold mid. destruct r; [|done]. injection Er as -> ->. apply chain_one; [lia..|done|done]. }
    exists (mid ++ s2). split_and!.
    + apply walk_chain_app with close; [|done]. eapply chain_wider; [..|exact Hmid]; lia.
    + intros fuel a Hf.
      assert (exists a1, match r with Text x y => Some (add_span a x y) | Code x y => scan_code fuel source y x None a end = Some a1
        /\ grew source first close mid a a1) as (a1 & E1 & Ht1).
      { destruct r; injection Er as -> ->; [eexists; split; [done|apply grew_span]|]. apply Hscan. lia. }
      destruct (Hscan2 fuel a1 Hf) as (a2 & E2 & Ht2). exists a2. cbn [fold_opt]. rewrite E1. cbn [mbind option_bind].
      rewrite E2. split; [done|]. eapply grew_trans; [|exact Hs2| |exact Ht2]; [eapply chain_wider; [..|exact Hmid]; lia|].
      apply (grew_trans source cursor first close [] mid a a a1); [by constructor|done|by apply grew_same|done].
    + intros fuel out Hf Ho. cbn [fold_opt]. rewrite Er. cbn [fst snd].
      rewrite copy_range_paint by (try done; lia). cbn [mbind option_bind].
      assert (match r with Code x y => mask_range fuel source y x None (paint source cursor first [] out)
              | Text _ _ => Some (paint source cursor first [] out) end = Some (paint source cursor close mid out)) as ->.
      { change mid with ([] ++ mid).
        rewrite (paint_app source cursor first close [] mid) by (done || by constructor). unfold mid.
        destruct r; injection Er as -> ->; [by rewrite paint_text|]. apply Hmask; [lia|by rewrite paint_length]. }
      cbn [mbind option_bind]. destruct (Hmask2 fuel (paint source cursor close mid out) Hf) as (c' & o' & E & Hcopy).
      { by rewrite paint_length. }
      exists c', o'. split; [exact E|]. rewrite Hcopy. f_equal. symmetry. apply paint_app; [|done].
      eapply chain_wider; [..|exact Hmid]; lia.
Qed.
End agree.

(** Where the walk resumes after a word does not depend on the facts so far. *)
Lemma scan_word_stop source last start after a a' :
  fst (scan_word source last start after a) = fst (scan_word source last start after a').
Proof. unfold scan_word. repeat case_match; done. Qed.

(** The walks step over the byte at [index]: both over a byte of their own,
    or both over a word. *)
Lemma agree_plain source last index prev b f :
  last <= length source -> edge source last -> take last source !! index = Some b ->
  (forall j p, index < j <= last -> agree source last j p) ->
  (forall a, text_spans (f a) = text_spans a /\ imports (f a) = imports a /\ env_reads (f a) = env_reads a) ->
  (forall fuel out, mask_range (S fuel) source last index prev out =
    mask_range fuel source last (S index) (if is_ascii_whitespace b then prev else Some index) (<[index := b]> out)) ->
  (forall fuel a, scan_code (S fuel) source last index prev a =
    if is_ident_start_byte b then
      let '(after, a) := scan_word source last index (skip_identifier (take last source) index) (f a) in
      scan_code fuel source last after (Some (after - 1)) a
    else scan_code fuel source last (S index) (if is_ascii_whitespace b then prev else Some index) (f a)) ->
  agree source last index prev.
Proof.
  intros Hlast Hedge Hb Hnext Hf Hm Hscan. pose proof (bytes_lookup _ _ _ _ Hb) as [Hs Hlt].
  destruct (is_ident_start_byte b) eqn:Ei.
  - assert (forall a, exists j a', scan_word source last index (skip_identifier (take last source) index) (f a) = (j, a') /\
      index < j <= last /\ grew source index j [] a a' /\
      forall k, index <= k < j -> exists c, take last source !! k = Some c /\ plain_byte c = true) as Hword.
    { intros a. destruct (scan_word _ _ _ _ _) as [j a'] eqn:E. exists j, a'. split; [done|].
      eapply scan_word_spec in E as (? & Hg & ?); [|done..]. split_and!; try done; [lia..|].
      destruct (Hf a) as (T & I & N). unfold grew in *. by rewrite T, I, N in Hg. }
    destruct (Hword empty_ast) as (j & a0 & E0 & Hj & _ & Hrun).
    assert (forall a, exists a', scan_word source last index (skip_identifier (take last source) index) (f a) = (j, a') /\
      grew source index j [] a a') as Hword'.
    { intros a. destruct (Hword a) as (j' & a' & E & _ & Ht & _). exists a'. assert (j' = j) as <-; [|done]. apply (f_equal fst) in E, E0. cbn in E, E0. rewrite <- E, <- E0. apply scan_word_stop. }
    apply (agree_step source last index prev j (Some (j - 1)) []); [lia|by constructor; lia|by apply Hnext| |].
    + intros [|fuel] a Hfu; [lia|]. destruct (Hword' a) as (a' & E & Ht). exists fuel, a'. split_and!; [lia|done|].
      by rewrite Hscan, E.
    + intros fuel out Hfu Ho. exists (fuel - (j - index)). split; [lia|].
      rewrite (mask_plain_run source last Hlast (j - index)); [|intros k Hk; apply Hrun; lia|lia|done].
      replace (index + (j - index)) with j by lia. replace (j - index =? 0) with false by (symmetry; apply Nat.eqb_neq; lia). done.
  - apply (agree_step source last index prev (S index) (if is_ascii_whitespace b then prev else Some index) []);
      [lia|by constructor; lia|by apply Hnext; lia| |].
    + intros [|fuel] a Hfu; [lia|]. exists fuel, (f a). destruct (Hf a) as (T & I & N).
      split_and!; [lia|by apply grew_same|apply Hscan].
    + intros [|fuel] out Hfu Ho; [lia|]. exists fuel. split; [lia|]. by rewrite Hm, (paint_one source index b).
Qed.

Lemma agree_all n : forall source last index prev,
  last - index <= n -> index <= last -> last <= length source -> edge source last -> agree source last index prev.
Proof.
  induction n as [n IH] using lt_wf_ind. intros source last index prev Hn Hi Hlast Hedge.
  assert (forall j p, index < j <= last -> agree source last j p) as Hnext.
  { intros j p Hj. apply (IH (last - j)); try done; lia. }
  destruct (take last source !! index) as [b|] eqn:Hb.
  2:{ pose proof Hb as Hge. apply lookup_ge_None in Hge. rewrite bytes_length in Hge by done. assert (index = last) as -> by lia.
      exists []. split_and!; [by constructor| |].
      - intros [|fuel] a Hf; [lia|]. exists a. cbn [scan_code]. rewrite Hb. split; [done|by apply grew_same].
      - intros [|fuel] out Hf Ho; [lia|]. cbn [mask_range]. by rewrite paint_empty, Hb. }
  pose proof (bytes_lookup _ _ _ _ Hb) as [Hs Hlt]. set (bytes := take last source) in *.
  assert (forall i, edge bytes i -> edge source i) as Hbe by (intros i; by apply edge_take).
  assert (length bytes = last) as Hbl by by apply bytes_length.
  assert (forall j p, is_ascii_byte b = true -> index < j <= length bytes /\ edge bytes j ->
    (forall fuel a, scan_code (S fuel) source last index prev a = scan_code fuel source last j p (add_span a index j)) ->
    (forall fuel out, mask_range (S fuel) source last index prev out = mask_range fuel source last j p out) ->
    agree source last index prev) as Htext.
  { intros j p Hba [Hj Hje] H1 H2. rewrite Hbl in Hj. apply (agree_step source last index prev j p [(index, j)]); [lia| |auto|..].
    - apply chain_one; [lia..|by eapply edge_at|auto].
    - intros [|fuel] a Hf; [lia|]. exists fuel, (add_span a index j). split_and!; [lia|apply grew_span|apply H1].
    - intros [|fuel] out Hf Ho; [lia|]. exists fuel. split; [lia|]. by rewrite H2, paint_text. }
  destruct (is_comment_start bytes index) eqn:Ec.
  { apply (Htext (skip_comment bytes index) prev).
    - apply comment_start_spec in Ec as [Hb' _]. rewrite Hb in Hb'. by injection Hb' as ->.
    - by apply skip_comment_spec.
    - intros fuel a. cbn [scan_code]. fold bytes. by rewrite Hb, Ec.
    - intros fuel out. cbn [mask_range]. fold bytes. by rewrite Hb, Ec. }
  destruct (byte_is "`" b) eqn:Et.
  { assert (edge source index) as Hie by (apply byte_is_true in Et as ->; by eapply edge_at).
    destruct (template_literal_spec bytes index b Hb) as (after & inner & E & Ha & Hae & Hc). rewrite Hbl in Ha.
    apply Hbe in Hae. apply (chain_take source last Hlast Hedge) in Hc. pose proof (chain_widths _ _ _ _ Hc) as Hw.
    pose proof (chain_edges _ _ _ _ Hc) as Hes.
    destruct (agree_template source last Hlast (last - index) inner index (S index) after) as (spans & Hsp & Hscan & Hmask); auto.
    { eapply Forall_impl; [exact Hw|]. cbn. lia. }
    { apply Forall_forall. intros [a c] Hin. rewrite Forall_forall in Hw, Hes. specialize (Hw _ Hin). specialize (Hes _ Hin).
      cbn [fst snd] in *. apply (IH (c - a)); try lia; tauto. }
    apply (agree_step source last index prev after (Some index) spans); auto; [lia|..].
    - intros [|fuel] a Hf; [lia|]. destruct (Hscan fuel a) as (te & a1 & E1 & Ht1); [lia|].
      exists fuel, (add_span a1 te after). split_and!; [lia|done|]. cbn [scan_code]. fold bytes. rewrite Hb, Ec, Et, E, E1. done.
    - intros [|fuel] out Hf Ho; [lia|]. exists fuel. split; [lia|]. cbn [mask_range]. fold bytes. rewrite Hb, Ec, Et, E.
      rewrite Hmask by (done || lia). done. }
  destruct (is_quote b) eqn:Eq.
  { apply (Htext (skip_string bytes index) (Some index)); [by apply quote_ascii|by eapply skip_string_spec; [|apply quote_ascii]|..].
    - intros fuel a. cbn [scan_code]. fold bytes. by rewrite Hb, Ec, Et, Eq.
    - intros fuel out. cbn [mask_range]. fold bytes. by rewrite Hb, Ec, Et, Eq. }
  destruct (byte_is "/" b && regex_can_start bytes prev) eqn:Er.
  { apply (Htext (skip_regex_literal bytes index) (Some index)); [|apply skip_regex_spec; lia|..].
    - by apply andb_true_iff in Er as [->%byte_is_true _].
    - intros fuel a. cbn [scan_code]. fold bytes. by rewrite Hb, Ec, Et, Eq, Er.
    - intros fuel out. cbn [mask_range]. fold bytes. by rewrite Hb, Ec, Et, Eq, Er. }
  destruct (byte_is "@" b && decorator_can_start bytes index) eqn:Ed.
  { apply andb_true_iff in Ed as Ed'. destruct Ed' as [->%byte_is_true _].
    apply (agree_step source last index prev (S index) (Some index) []); [lia|by constructor; lia|apply Hnext; lia|..].
    - intros [|fuel] a Hf; [lia|]. exists fuel, (see_decorator a). split_and!; [lia|by apply grew_same|].
      cbn [scan_code]. fold bytes. by rewrite Hb, Ec, Et, Eq, Er, Ed.
    - intros [|fuel] out Hf Ho; [lia|]. exists fuel. split; [lia|]. cbn [mask_range]. fold bytes.
      rewrite Hb, Ec, Et, Eq, Er. by rewrite (paint_one source index "@"). }
  destruct (byte_is "<" b && looks_like_jsx_at bytes index && jsx_can_start bytes prev) eqn:Ej.
  2:{ apply (agree_plain source last index prev b
        (fun a => if byte_is "<" b && looks_like_jsx_at bytes index then see_jsx a else a)); try done.
      - intros a. by case_match.
      - intros fuel out. cbn [mask_range]. fold bytes. by rewrite Hb, Ec, Et, Eq, Er, Ej.
      - intros fuel a. cbn [scan_code]. fold bytes. rewrite Hb, Ec, Et, Eq, Er, Ed.
        destruct (byte_is "<" b && looks_like_jsx_at bytes index); [|done]. cbn [andb] in Ej. by rewrite Ej. }
  apply andb_true_iff in Ej as Ej'. destruct Ej' as [Ej1 Ej2].
  destruct (jsx_element_spec bytes index) as [E|(e & E & Hend & Hc & _)]; [lia|..].
  { apply (agree_plain source last index prev b see_jsx); try done.
    - intros fuel out. cbn [mask_range]. fold bytes. by rewrite Hb, Ec, Et, Eq, Er, Ej, E.
    - intros fuel a. cbn [scan_code]. fold bytes. by rewrite Hb, Ec, Et, Eq, Er, Ed, Ej1, Ej2, E. }
  destruct Hend as [Hend _]. rewrite Hbl in Hend. apply (chain_take source last Hlast Hedge) in Hc.
  pose proof (chain_widths _ _ _ _ Hc) as Hw. pose proof (chain_edges _ _ _ _ Hc) as Hes.
  destruct (agree_element source last Hlast (last - index) (regions e) index (element_end e)) as (spans & Hsp & Hscan & Hmask).
  { eapply chain_wider; [..|exact Hc]; lia. }
  { lia. }
  { eapply Forall_impl; [exact Hw|]. cbn. lia. }
  { apply Forall_forall. intros [a c] Hin. rewrite Forall_forall in Hw, Hes. specialize (Hw _ Hin). specialize (Hes _ Hin).
    cbn [fst snd] in *. apply (IH (c - a)); try lia; tauto. }
  apply (agree_step source last index prev (element_end e) (Some (element_end e - 1)) spans); auto; [lia|..].
  - intros [|fuel] a Hf; [lia|]. destruct (Hscan fuel (see_jsx a)) as (a1 & E1 & Ht1); [lia|].
    exists fuel, a1. split_and!; [lia|done|]. cbn [scan_code]. fold bytes. by rewrite Hb, Ec, Et, Eq, Er, Ed, Ej1, Ej2, E, E1.
  - intros [|fuel] out Hf Ho; [lia|]. destruct (Hmask fuel out) as (c' & o' & E1 & E2); [lia|done|].
    fold bytes in E1, E2. exists fuel. split; [lia|]. cbn [mask_range]. fold bytes. rewrite Hb, Ec, Et, Eq, Er, Ej, E, E1. cbn [mbind option_bind].
    by rewrite E2.
Qed.

(** *** The whole source *)

(** What the mask shows of byte [b] at offset [i]. *)
Definition shown (spans : list (nat * nat)) (i : nat) (b : ascii) : ascii :=
  if in_spans i spans then (if byte_is newline b then newline else " "%char) else b.

Lemma paint_shown source spans i :
  paint source 0 (length source) spans (blank source) !! i = shown spans i <$> source !! i.
Proof.
  rewrite paint_lookup. unfold blank. rewrite list_lookup_fmap. destruct (source !! i) as [b|] eqn:E; [|done].
  cbn [fmap option_fmap option_map]. f_equal. pose proof (lookup_lt_Some _ _ _ E) as Hi. unfold shown.
  apply Nat.ltb_lt in Hi. rewrite Hi. cbn [Nat.leb andb default from_option id]. by destruct (in_spans i spans).
Qed.

(** Between edges, a byte and its neighbour are shown alike. *)
Lemma in_spans_neighbour source spans i b c :
  Forall (fun p => edge source (fst p) /\ edge source (snd p)) spans ->
  source !! i = Some b -> is_ascii_byte b = false -> source !! S i = Some c -> is_ascii_byte c = false ->
  in_spans (S i) spans = in_spans i spans.
Proof.
  intros He Hb Hba Hc Hca. assert (~ edge source (S i)) as Hne.
  { pose proof (lookup_lt_Some _ _ _ Hc). intros [?|[?|[(x & Hx & Ha)%at_byte_true|(j & [= <-] & (x & Hx & Ha)%at_byte_true)]]];
      try lia; congruence. }
  unfold in_spans. induction He as [|[x y] spans [Hx Hy] He IH]; [done|]. cbn [existsb fst snd] in *. rewrite IH. f_equal.
  assert (x <> S i) by (intros ->; done). assert (y <> S i) by (intros ->; done).
  assert ((x <=? S i) = (x <=? i)) as ->.
  { destruct (x <=? S i) eqn:E1, (x <=? i) eqn:E2; breflect; try done; lia. }
  assert ((S i <? y) = (i <? y)) as ->; [|done].
  destruct (S i <? y) eqn:E1, (i <? y) eqn:E2; breflect; try done; lia.
Qed.

Lemma wide_run_shown source spans c : forall i,
  Forall (fun p => edge source (fst p) /\ edge source (snd p)) spans ->
  (forall k b, c !! k = Some b -> source !! (i + k) = Some b) -> Forall (fun b => is_ascii_byte b = false) c ->
  forall k b, c !! k = Some b -> in_spans (i + k) spans = in_spans i spans.
Proof.
  intros i He Hc Hw k. induction k as [|k IH]; intros b Hb; [by rewrite Nat.add_0_r|].
  destruct (lookup_lt_is_Some_2 c k) as [b' Hb']; [apply lookup_lt_Some in Hb; lia|].
  rewrite <- (IH b' Hb'). rewrite Forall_lookup in Hw. replace (i + S k) with (S (i + k)) by lia.
  apply (in_spans_neighbour source spans (i + k) b' b); eauto. replace (S (i + k)) with (i + S k) by lia. auto.
Qed.

Lemma shown_ascii spans i b : is_ascii_byte b = true -> is_ascii_byte (shown spans i b) = true.
Proof. intros Hb. unfold shown. by repeat case_match. Qed.

(** Blanking whole characters leaves well-formed text. *)
Lemma shown_utf8 source out spans :
  Forall (fun p => edge source (fst p) /\ edge source (snd p)) spans ->
  (forall i, out !! i = shown spans i <$> source !! i) -> utf8 source -> utf8 out.
Proof.
  intros He Hout Hu. assert (forall l, utf8 l -> forall i, drop i source = l -> utf8 (drop i out)) as H; [|by apply (H source Hu 0)].
  induction 1 as [|c rest l Hs Hrest IH]; intros i Hd.
  - assert (out = imap (shown spans) source) as ->.
    { apply list_eq. intros j. by rewrite Hout, list_lookup_imap. }
    rewrite drop_ge; [constructor|]. rewrite length_imap. apply (f_equal length) in Hd. rewrite length_drop in Hd. cbn in Hd. lia.
  - apply split_char1_Some in Hs as Hs'. destruct Hs' as [-> Hc].
    assert (forall k b, c !! k = Some b -> source !! (i + k) = Some b) as Hck.
    { intros k b Hk. rewrite <- lookup_drop, Hd. by apply lookup_app_l_Some. }
    assert (utf8 (drop (i + length c) out)) as Hnext.
    { apply IH. by rewrite <- drop_drop, Hd, drop_app_length. }
    assert (drop i out = imap (fun k => shown spans (i + k)) c ++ drop (i + length c) out) as ->.
    { apply list_eq. intros k. rewrite lookup_drop. destruct (decide (k < length c)) as [Hk|Hk].
      - rewrite lookup_app_l by by rewrite length_imap. rewrite list_lookup_imap.
        destruct (lookup_lt_is_Some_2 _ _ Hk) as [b Hb]. by rewrite Hout, Hb, (Hck k b Hb).
      - rewrite lookup_app_r, lookup_drop by (rewrite length_imap; lia). f_equal. rewrite length_imap. lia. }
    destruct Hc as [(b & -> & Hb)|[Hlen Hw]].
    + apply utf8_ascii_app; [|done]. repeat constructor. by apply shown_ascii.
    + pose proof (wide_run_shown source spans c i He Hck Hw) as Hrun. destruct (in_spans i spans) eqn:Ei.
      * apply utf8_ascii_app; [|done]. apply Forall_lookup. intros k b. rewrite list_lookup_imap.
        destruct (c !! k) as [b'|] eqn:Hb'; [|done]. intros [= <-]. unfold shown. rewrite (Hrun k b' Hb'). by case_match.
      * assert (imap (fun k => shown spans (i + k)) c = c) as ->.
        { apply list_eq. intros k. rewrite list_lookup_imap. destruct (c !! k) as [b'|] eqn:Hb'; [|done].
          cbn. unfold shown. by rewrite (Hrun k b' Hb'). }
        apply utf8_cons with c (drop (i + length c) out); [|done]. by eapply split_char1_app.
Qed.

Lemma chain_sorted source lo hi l : chain source lo hi l -> StronglySorted (cmp_le (cmp := span_cmp)) l.
Proof.
  induction 1 as [lo hi H|lo hi a b l Hlo Hab Ha Hb H IH]; [constructor|]. apply StronglySorted_cons. split; [|done].
  eapply Forall_impl; [exact (chain_widths _ _ _ _ H)|]. intros [x y]. cbn [fst snd]. intros (Hx & Hy & _).
  unfold cmp_le, span_cmp, lex_cmp, by_key. cbn [fst snd]. destruct (Nat.compare_spec a x); cbn [then_cmp]; [|done|lia].
  destruct (Nat.compare_spec b y); [done..|lia].
Qed.

(** Both walks of a whole source. *)
Lemma parse_and_mask source :
  exists a, parse_module source = Some a /\ chain source 0 (length source) (text_spans a) /\
    (forall e, e ∈ imports a -> import_in source 0 (length source) (text_spans a) e) /\
    (forall n, n ∈ env_reads a -> env_read_in source 0 (length source) (text_spans a) n) /\
    (utf8 source -> masked_code source = Some (paint source 0 (length source) (text_spans a) (blank source))).
Proof.
  destruct (agree_all (length source) source (length source) 0 None) as (spans & Hc & Hscan & Hmask); [lia|lia|done|apply edge_end|].
  destruct (Hscan (scan_fuel source) empty_ast) as (a & Ea & Ht & HI & HE); [unfold scan_fuel; lia|].
  cbn [text_spans empty_ast app] in Ht. exists (with_spans a (sort_by span_cmp (text_spans a))).
  cbn [text_spans imports env_reads with_spans]. rewrite Ht, (sort_by_id spans) by by eapply chain_sorted. split_and!; try done.
  - unfold parse_module. rewrite Ea. cbn [mbind option_bind]. rewrite Ht, (sort_by_id spans); [done|by eapply chain_sorted].
  - intros e He. apply HI in He as [He|He]; [by apply elem_of_nil in He|done].
  - intros n Hn. apply HE in Hn as [Hn|Hn]; [by apply elem_of_nil in Hn|done].
  - intros Hu. unfold masked_code. rewrite Hmask; [|unfold scan_fuel; lia|by unfold blank; rewrite length_fmap].
    cbn [mbind option_bind]. assert (valid_utf8 (paint source 0 (length source) spans (blank source)) = true) as ->; [|done].
    apply valid_utf8_spec. apply (shown_utf8 source _ spans); [by eapply chain_edges|apply paint_shown|done].
Qed.

(** The mask byte by byte. *)
Lemma masked_code_lookup source : utf8 source ->
  exists spans out, masked_code source = Some out /\ length out = length source /\
    forall i, out !! i = shown spans i <$> source !! i.
Proof.
  intros Hu. destruct (parse_and_mask source) as (a & _ & _ & _ & _ & Hm). exists (text_spans a). eexists.
  split; [by apply Hm|]. split; [rewrite paint_length; unfold blank; by rewrite length_fmap|]. apply paint_shown.
Qed.

Lemma shown_newline spans i b : shown spans i b = newline <-> b = newline.
Proof.
  unfold shown. destruct (in_spans i spans); [|done]. destruct (byte_is newline b) eqn:E.
  - by apply byte_is_true in E as ->.
  - split; [done|]. intros ->. done.
Qed.

(** A byte that is neither a blank nor a line feed is shown only where it is. *)
Lemma shown_solid spans i b c : shown spans i b = c -> c <> " "%char -> c <> newline -> b = c.
Proof. unfold shown. destruct (in_spans i spans); [|done]. by destruct (byte_is newline b); intros <-. Qed.

(** The last span that starts before an offset is the only one that can hold it. *)
Lemma code_offset_chain source lo hi spans i :
  chain source lo hi spans -> existsb (fun s => fst s =? i) spans = false ->
  match length (filter (fun s => fst s < i) spans) with
  | O => true
  | S before => match spans !! before with Some (_, close) => close <=? i | None => true end
  end = negb (in_spans i spans).
Proof.
  induction 1 as [lo hi H|lo hi a b l Hlo Hab Ha Hb H IH]; intros Hne; [done|]. cbn [existsb fst] in Hne. apply orb_false_iff in Hne as [Hai Hne].
  specialize (IH Hne). breflect. pose proof (chain_widths _ _ _ _ H) as Hw. unfold in_spans in *. cbn [existsb fst snd].
  rewrite filter_cons. cbn [fst]. destruct (decide (a < i)) as [Hlt|Hge].
  - cbn [length]. replace (a <=? i) with true by (symmetry; apply Nat.leb_le; lia).
    destruct (length (filter (fun s : nat * nat => s.1 < i) l)) as [|n] eqn:En.
    + cbn [lookup list_lookup]. rewrite negb_orb, <- IH. cbn [andb negb].
      rewrite andb_true_r. apply Nat.leb_antisym.
    + change (((a, b) :: l) !! S n) with (l !! n). rewrite IH. f_equal.
      assert ((b <=? i) = true) as Hbi.
      { destruct (filter (fun s : nat * nat => s.1 < i) l) as [|[x y] f] eqn:Ef; [done|].
        assert ((x, y) ∈ filter (fun s : nat * nat => s.1 < i) l) as Hin by (rewrite Ef; by left).
        apply list_elem_of_filter in Hin as [Hx Hin]. rewrite Forall_forall in Hw. specialize (Hw _ Hin). cbn in *.
        apply Nat.leb_le. lia. }
      breflect. replace (i <? b) with false by (symmetry; apply Nat.ltb_ge; lia). done.
  - replace (a <=? i) with false by (symmetry; apply Nat.leb_gt; lia). cbn [andb orb].
    assert (filter (fun s : nat * nat => s.1 < i) l = []) as Hnil.
    { apply filter_nil_iff. intros [x y] Hin Hx. rewrite Forall_forall in Hw. specialize (Hw _ Hin). cbn in *. lia. }
    rewrite Hnil in *. done.
Qed.

Definition demo_source : list ascii :=
  bytes_of "import a from './a'; // b
const p = <p title='@x'>it's {`t${require('./c')}`} é</p>; process.env.KEY / 2".

(** *** Claims *)

(** Masking never fails and never cuts a character.  For any source the mask
    exists, is as long as the source and well-formed UTF-8, keeps every line
    break, and shows at each offset the byte of the source when the offset is
    in no text span of [parse_module], and a blank (or the line break) when it
    is: the mask and the facts of a module cannot disagree about what is text. *)
Theorem masked_code_shows_code source :
  valid_utf8 source = true ->
  exists a out, parse_module source = Some a /\ masked_code source = Some out /\ valid_utf8 out = true /\
    length out = length source /\
    (forall i b, source !! i = Some b -> in_spans i (text_spans a) = false -> out !! i = Some b) /\
    (forall i b, source !! i = Some b -> in_spans i (text_spans a) = true ->
      out !! i = Some (if byte_is newline b then newline else " "%char)).
Proof.
  intros Hu%valid_utf8_spec. destruct (parse_and_mask source) as (a & Ea & Hc & _ & _ & Hm). exists a. eexists.
  split_and!; [done|by apply Hm|..].
  - apply valid_utf8_spec, (shown_utf8 source _ (text_spans a)); [by eapply chain_edges|apply paint_shown|done].
  - rewrite paint_length. unfold blank. by rewrite length_fmap.
  - intros i b Hb Hi. rewrite paint_shown, Hb. cbn. unfold shown. by rewrite Hi.
  - intros i b Hb Hi. rewrite paint_shown, Hb. cbn. unfold shown. by rewrite Hi.
Qed.

Lemma masked_code_witness :
  valid_utf8 demo_source = true /\ exists a out, parse_module demo_source = Some a /\ masked_code demo_source = Some out /\
    length out = length demo_source.
Proof.
  assert (valid_utf8 demo_source = true) as H by (vm_compute; reflexivity). split; [exact H|].
  destruct (masked_code_shows_code demo_source H) as (a & out & Ha & Ho & _ & Hl & _). exists a, out. split; [exact Ha|]. by split.
Defined.

(** [parse_module] answers for every byte list, and what it says of text is
    exact.  Its text spans lie in the source in ascending order without
    overlap, each cut between characters, and the binary search of
    [is_code_offset] calls an offset code exactly when no span holds it or
    starts at it. *)
Theorem text_spans_partition source :
  exists a, parse_module source = Some a /\ chain source 0 (length source) (text_spans a) /\
    forall i, is_code_offset a i = true <->
      Forall (fun s => ~ (fst s <= i < snd s) /\ fst s <> i) (text_spans a).
Proof.
  destruct (parse_and_mask source) as (a & Ea & Hc & _). exists a. split_and!; [done..|]. intros i. unfold is_code_offset.
  destruct (existsb (fun s => s.1 =? i) (text_spans a)) eqn:Ee.
  - split; [done|]. intros Hf. apply existsb_exists in Ee as (s & Hs%list_elem_of_In & Hi). breflect.
    rewrite Forall_forall in Hf. by destruct (Hf s Hs).
  - rewrite (code_offset_chain source _ _ _ i Hc Ee), negb_true_iff, <- not_true_iff_false. unfold in_spans.
    rewrite <- not_true_iff_false, existsb_exists in Ee. rewrite existsb_exists, Forall_forall. split.
    + intros Hn s Hs%list_elem_of_In. split; [|intros Hi; apply Ee; exists s; split; [done|by apply Nat.eqb_eq]].
      intros [H1 H2]. apply Hn. exists s. split; [done|]. apply andb_true_iff. by rewrite Nat.leb_le, Nat.ltb_lt.
    + intros Hf (s & Hs%list_elem_of_In & [H1%Nat.leb_le H2%Nat.ltb_lt]%andb_true_iff). destruct (Hf s Hs). lia.
Qed.
