(* ===== verification/ModuleFacts.v ===== *)
(** * The facts of a module (crates/ruvyxa_bundler/src/ast.rs: [scan_code], [parse_module])

    What [parse_module] says of a module, read off its code: the offsets its walk
    stops at, what each of them adds, and that nothing of the code is left out.
    A word stands for what it says at the offset it begins at, within the code
    that encloses it: the whole source, an interpolation of a template, or a
    container of an element. *)
From S2P Require Import Prelude Order RustStr Utf8 Text JsScanner ModuleAst.

(** ** Specification *)

(** An offset of the code, and where the code that encloses it ends. *)
Record CodeVisit := mkVisit { visit_end : nat; visit_at : nat }.

(** The words that only TypeScript has. *)
Definition TYPESCRIPT_WORDS : list string :=
  ["interface"; "type"; "satisfies"; "implements"; "declare"; "abstract"; "readonly"; "public"; "private"; "protected"; "override"].

Section facts_at.
Context (source : list ascii) (v : CodeVisit).
Abbreviation seen := (take (visit_end v) source).

(** The word that begins at the offset, if one does, and where it ends. *)
Definition at_word : bool := at_byte seen (visit_at v) is_ident_start_byte.
Definition word_close : nat := skip_identifier seen (visit_at v).
Definition word : string := if at_word then slice source (visit_at v) word_close else "".

(** The edge an [import], [export] or [require] makes. *)
Definition imported : option ImportEdge :=
  if String.eqb word "import" then import_edge source (visit_end v) word_close
  else if String.eqb word "export" then export_edge source (visit_end v) word_close
  else if String.eqb word "require" && bool_decide (previous_non_whitespace seen (visit_at v) <> Some "."%char)
  then (fun s => mkEdge s Require_) <$> call_specifier source (visit_end v) word_close
  else None.

(** The variable a [process.env] reads. *)
Definition reads_env : bool := String.eqb word "process" && starts_env_read source (visit_end v) (visit_at v).
Definition env_read : option string :=
  if reads_env then env_read_name source (visit_end v) (visit_at v + String.length ENV_MARKER) else None.

Definition opens_jsx : bool := at_byte seen (visit_at v) (byte_is "<") && looks_like_jsx_at seen (visit_at v).
Definition decorates : bool := at_byte seen (visit_at v) (byte_is "@") && decorator_can_start seen (visit_at v).
Definition names_enum : bool := String.eqb word "enum".
Definition names_typescript : bool :=
  names_enum || existsb (String.eqb word) TYPESCRIPT_WORDS ||
  (String.eqb word "as" && bool_decide (is_Some (previous_non_whitespace seen (visit_at v)))).
Definition names_default : bool := String.eqb word "export" && export_declares_default source (visit_end v) word_close.

(** Where what begins at the offset ends: a word, the whole of [process.env], or one byte. *)
Definition reach : nat :=
  if reads_env then visit_at v + String.length ENV_MARKER else if at_word then word_close else S (visit_at v).

(** The facts with those of the offset. *)
Definition add (a : ModuleAst) : ModuleAst :=
  mkAst (imports a ++ option_list imported) (env_reads a ++ option_list env_read) (has_jsx a || opens_jsx)
    (has_typescript a || names_typescript) (has_decorators a || decorates) (has_enums a || names_enum)
    (has_default a || names_default) (text_spans a).
End facts_at.

Definition all_facts (source : list ascii) (visits : list CodeVisit) (a : ModuleAst) : ModuleAst := foldl (fun a v => add source v a) a visits.

(** Where code begins and ends: the source, and inside code each interpolation
    of a template literal and each container of an element. *)
Inductive window (source : list ascii) : nat -> nat -> Prop :=
  | window_whole : window source 0 (length source)
  | window_interpolation first last i after inner f c :
      window source first last -> first <= i -> template_literal (take last source) i = Found (after, inner) -> (f, c) ∈ inner ->
      window source f c
  | window_container first last i e f c :
      window source first last -> first <= i -> jsx_element (take last source) i = Found e -> Code f c ∈ regions e ->
      window source f c.

(** A range of an element that is neither text nor a container: its tags. *)
Definition is_tag (source : list ascii) (t : nat * nat) : Prop :=
  exists first last i e, window source first last /\ first <= i /\ jsx_element (take last source) i = Found e /\
    i <= fst t /\ snd t <= element_end e /\
    forall r, r ∈ regions e -> snd (region_bounds r) <= fst t \/ snd t <= fst (region_bounds r).

(** [visits] are the offsets of the code from [lo] to [hi], text spans and tags
    left out: in order, apart, in the code, and leaving nothing out. *)
Record covers (source : list ascii) (lo hi : nat) (visits : list CodeVisit) (tags spans : list (nat * nat)) : Prop := {
  cov_chain : chain source lo hi spans;
  cov_visits : Forall (fun v => lo <= visit_at v < reach source v /\ reach source v <= hi /\ in_spans (visit_at v) spans = false /\
    exists first, window source first (visit_end v) /\ first <= visit_at v < visit_end v) visits;
  cov_order : StronglySorted (fun v v' => reach source v <= visit_at v') visits;
  cov_tags : Forall (fun t => lo <= fst t /\ snd t <= hi /\ is_tag source t) tags;
  cov_all : forall k, lo <= k < hi -> in_spans k spans = false -> in_spans k tags = false ->
    exists v, v ∈ visits /\ visit_at v <= k < reach source v;
}.

(** The walk from [index] to [last] adds what the offsets it covers say. *)
Definition traced (source : list ascii) (last index : nat) (prev : option nat) : Prop :=
  exists visits tags spans, covers source index last visits tags spans /\
    (tags = [] \/ exists v, v ∈ visits /\ opens_jsx source v = true) /\
    forall fuel a, last - index < fuel ->
      scan_code fuel source last index prev a = Some (with_spans (all_facts source visits a) (text_spans a ++ spans)).

(** ** Properties *)

(** *** What an offset adds *)

Lemma all_facts_with_spans source visits a s : all_facts source visits (with_spans a s) = with_spans (all_facts source visits a) s.
Proof. revert a. induction visits as [|v visits IH]; intros a; [done|]. exact (IH (add source v a)). Qed.

Lemma all_facts_app source v1 v2 a : all_facts source (v1 ++ v2) a = all_facts source v2 (all_facts source v1 a).
Proof. apply foldl_app. Qed.

Lemma with_spans_same a : with_spans a (text_spans a ++ []) = a.
Proof. rewrite app_nil_r. by destruct a. Qed.

(** The facts are those of all the offsets. *)
Lemma all_facts_facts source visits a :
  imports (all_facts source visits a) = imports a ++ omap (imported source) visits /\
  env_reads (all_facts source visits a) = env_reads a ++ omap (env_read source) visits /\
  has_jsx (all_facts source visits a) = has_jsx a || existsb (opens_jsx source) visits /\
  has_typescript (all_facts source visits a) = has_typescript a || existsb (names_typescript source) visits /\
  has_decorators (all_facts source visits a) = has_decorators a || existsb (decorates source) visits /\
  has_enums (all_facts source visits a) = has_enums a || existsb (names_enum source) visits /\
  has_default (all_facts source visits a) = has_default a || existsb (names_default source) visits.
Proof.
  revert a. induction visits as [|v visits IH]; intros a; [cbn; by rewrite !app_nil_r, !orb_false_r|].
  change (all_facts source (v :: visits) a) with (all_facts source visits (add source v a)).
  destruct (IH (add source v a)) as (-> & -> & -> & -> & -> & -> & ->). cbn. rewrite <- !app_assoc, <- !orb_assoc.
  by destruct (imported source v), (env_read source v).
Qed.

(** Both sides of a fact add up to the same list or flag. *)
Ltac same_facts Hx := cbn; rewrite ?app_nil_r, ?orb_false_r, ?orb_true_r, ?Hx; first [done | by rewrite orb_comm].

(** A word adds what the walk says it does. *)
Lemma scan_word_add source last i b a : take last source !! i = Some b -> is_ident_start_byte b = true ->
  scan_word source last i (skip_identifier (take last source) i) a = (reach source (mkVisit last i), add source (mkVisit last i) a).
Proof.
  intros Hb Hi.
  assert (at_word source (mkVisit last i) = true) as Hw by (unfold at_word, at_byte; cbn; by rewrite Hb).
  assert (opens_jsx source (mkVisit last i) = false) as Hj.
  { unfold opens_jsx, at_byte. cbn. rewrite Hb. by destruct b as [[] [] [] [] [] [] [] []]. }
  assert (decorates source (mkVisit last i) = false) as Hd.
  { unfold decorates, at_byte. cbn. rewrite Hb. by destruct b as [[] [] [] [] [] [] [] []]. }
  unfold scan_word, add, reach, imported, env_read, names_typescript, names_enum, names_default, reads_env.
  rewrite Hj, Hd. unfold word. rewrite Hw. cbn [visit_at visit_end].
  change (word_close source (mkVisit last i)) with (skip_identifier (take last source) i).
  set (W := slice source i (skip_identifier (take last source) i)). set (after := skip_identifier (take last source) i). clearbody W after.
  rewrite !orb_false_r.
  assert (forall x : ModuleAst, mkAst (imports x) (env_reads x) (has_jsx x) (has_typescript x) (has_decorators x) (has_enums x) (has_default x) (text_spans x) = x) as Hx by by intros [].
  destruct (String.eqb_spec W "import") as [->|H1]; [destruct (import_edge source last after); same_facts Hx|].
  destruct (String.eqb_spec W "require") as [->|H2]; cbn [andb].
  { cbn. destruct (bool_decide _); [destruct (call_specifier source last after)|]; same_facts Hx. }
  destruct (String.eqb_spec W "export") as [->|H3]; [destruct (export_edge source last after); same_facts Hx|].
  destruct (String.eqb_spec W "process") as [->|H4]; cbn [andb].
  { cbn. destruct (starts_env_read source last i); [destruct (env_read_name _ _ _)|]; same_facts Hx. }
  cbn [andb]. destruct (String.eqb_spec W "enum") as [->|H5]; [same_facts Hx|]. fold TYPESCRIPT_WORDS.
  destruct (existsb (String.eqb W) TYPESCRIPT_WORDS); [same_facts Hx|].
  destruct (String.eqb W "as" && _); same_facts Hx.
Qed.


(** Any other byte adds its mark, if it is one. *)
Lemma byte_add source last i b a : take last source !! i = Some b -> is_ident_start_byte b = false ->
  let v := mkVisit last i in
  reach source v = S i /\
  add source v a = (if byte_is "@" b && decorator_can_start (take last source) i then see_decorator a
                    else if byte_is "<" b && looks_like_jsx_at (take last source) i then see_jsx a else a).
Proof.
  intros Hb Hi v. assert (at_word source v = false) as Hw by (unfold at_word, at_byte; cbn; by rewrite Hb).
  assert (word source v = "") as Hword by (unfold word; by rewrite Hw).
  unfold reach, add, imported, env_read, names_typescript, names_enum, names_default, reads_env. rewrite Hword, Hw. split; [done|].
  assert (opens_jsx source v = byte_is "<" b && looks_like_jsx_at (take last source) i) as -> by (unfold opens_jsx, at_byte; cbn; by rewrite Hb).
  assert (decorates source v = byte_is "@" b && decorator_can_start (take last source) i) as -> by (unfold decorates, at_byte; cbn; by rewrite Hb).
  destruct (byte_is "@" b && decorator_can_start (take last source) i) eqn:ED.
  - apply andb_prop in ED as [->%byte_is_true _]. cbn. rewrite !app_nil_r, !orb_false_r, orb_true_r. by destruct a.
  - destruct (byte_is "<" b && looks_like_jsx_at (take last source) i); cbn; rewrite !app_nil_r, !orb_false_r, ?orb_true_r; by destruct a.
Qed.

(** *** Pieces of code, one after the other *)

Lemma chain_in_spans source lo hi spans i : chain source lo hi spans -> in_spans i spans = true -> lo <= i < hi.
Proof.
  intros Hc Hi. destruct (decide (lo <= i < hi)) as [|Hn]; [done|]. rewrite (chain_outside source lo hi) in Hi; [done|done|lia].
Qed.

Lemma covers_app source lo mid hi v1 t1 s1 v2 t2 s2 :
  covers source lo mid v1 t1 s1 -> covers source mid hi v2 t2 s2 -> covers source lo hi (v1 ++ v2) (t1 ++ t2) (s1 ++ s2).
Proof.
  intros [C1 V1 O1 T1 A1] [C2 V2 O2 T2 A2]. pose proof (chain_le _ _ _ _ C1). pose proof (chain_le _ _ _ _ C2). split.
  - by eapply walk_chain_app.
  - apply Forall_app. split.
    + eapply Forall_impl; [exact V1|]. intros v (H1 & H2 & H3 & H4). split_and!; [lia..| |done].
      rewrite in_spans_app, H3. apply (chain_outside _ _ _ _ _ C2). lia.
    + eapply Forall_impl; [exact V2|]. intros v (H1 & H2 & H3 & H4). split_and!; [lia..| |done].
      rewrite in_spans_app, H3, orb_false_r. apply (chain_outside _ _ _ _ _ C1). lia.
  - apply StronglySorted_app_2; [|done|done]. intros x y Hx Hy. rewrite Forall_forall in V1, V2.
    specialize (V1 x Hx). specialize (V2 y Hy). cbn in *. lia.
  - apply Forall_app. split; (eapply Forall_impl; [eassumption|]); intros t (H1 & H2 & H3); (split; [lia|split; [lia|done]]).
  - intros k Hk Hs Ht. rewrite in_spans_app in Hs, Ht. apply orb_false_iff in Hs as [Hs1 Hs2], Ht as [Ht1 Ht2].
    destruct (decide (k < mid)) as [Hlt|Hge].
    + destruct (A1 k) as (v & Hv & Hr); [lia|done|done|]. exists v. rewrite elem_of_app. tauto.
    + destruct (A2 k) as (v & Hv & Hr); [lia|done|done|]. exists v. rewrite elem_of_app. tauto.
Qed.

Lemma in_one_span k first close : first <= k < close -> in_spans k [(first, close)] = true.
Proof. intros Hk. unfold in_spans. cbn [existsb fst snd]. rewrite orb_false_r. apply andb_true_iff. split; [apply Nat.leb_le; lia|apply Nat.ltb_lt; lia]. Qed.

Lemma covers_span source first close : first <= close -> edge source first -> edge source close -> covers source first close [] [] [(first, close)].
Proof.
  intros Hle Hf Hc. split; [by apply chain_one|constructor|constructor|constructor|].
  intros k Hk Hs _. by rewrite in_one_span in Hs.
Qed.

Lemma covers_tag source lo hi : lo <= hi -> is_tag source (lo, hi) -> covers source lo hi [] [(lo, hi)] [].
Proof.
  intros Hle Ht. split; [by constructor|constructor|constructor|by repeat constructor|].
  intros k Hk _ Hs. by rewrite in_one_span in Hs.
Qed.

Lemma covers_visit source last i first : window source first last -> first <= i < last ->
  let v := mkVisit last i in i < reach source v -> covers source i (reach source v) [v] [] [].
Proof.
  intros Hw Hi v Hr. split.
  - constructor. lia.
  - constructor; [|constructor]. cbn. split_and!; [lia..|done|]. exists first. split; [done|lia].
  - repeat constructor.
  - constructor.
  - intros k Hk _ _. exists v. split; [by left|done].
Qed.

(** *** The walk, piece by piece *)

(** From a step to [j] that covers its part, and the walk from there. *)
Lemma traced_step source last index prev j prev' v1 t1 s1 :
  covers source index j v1 t1 s1 -> (t1 = [] \/ exists v, v ∈ v1 /\ opens_jsx source v = true) -> traced source last j prev' ->
  (forall fuel a, last - index < fuel -> exists fuel', last - j < fuel' /\
    scan_code fuel source last index prev a = scan_code fuel' source last j prev' (with_spans (all_facts source v1 a) (text_spans a ++ s1))) ->
  traced source last index prev.
Proof.
  intros H1 Hj1 (v2 & t2 & s2 & H2 & Hj2 & Hscan) Hstep. exists (v1 ++ v2), (t1 ++ t2), (s1 ++ s2). split_and!.
  - by eapply covers_app.
  - destruct Hj1 as [->|(v & Hv & Hx)]; [|right; exists v; rewrite elem_of_app; tauto].
    destruct Hj2 as [->|(v & Hv & Hx)]; [by left|]. right. exists v. rewrite elem_of_app. tauto.
  - intros fuel a Hf. destruct (Hstep fuel a Hf) as (fuel' & Hf' & ->). rewrite Hscan by done.
    rewrite all_facts_with_spans, all_facts_app. cbn [text_spans with_spans]. by rewrite app_assoc.
Qed.

(** A range of the interpolations of a template, with the text between them. *)
Lemma traced_template source w inner : forall text_start lo after,
  chain source lo after inner -> text_start <= lo -> edge source text_start -> edge source after ->
  Forall (fun p => snd p - fst p < w) inner -> Forall (fun p => traced source (snd p) (fst p) None) inner ->
  exists visits tags spans, covers source text_start after visits tags spans /\
    (tags = [] \/ exists v, v ∈ visits /\ opens_jsx source v = true) /\
    forall fuel a, w <= fuel -> exists te a1,
      fold_opt (fun '(text_start, a) '(first, close) =>
        a ← scan_code fuel source close first None (add_span a text_start first); Some (close, a)) (text_start, a) inner
        = Some (te, a1) /\ add_span a1 te after = with_spans (all_facts source visits a) (text_spans a ++ spans).
Proof.
  induction inner as [|[first close] inner IH]; intros ts lo after Hc Hts He Hae Hw Htr.
  - pose proof (chain_le _ _ _ _ Hc). exists [], [], [(ts, after)]. split_and!; [apply covers_span; [lia|done|done]|by left|].
    intros fuel a _. by exists ts, a.
  - inversion Hc as [|? ? ? ? ? Hlo Hfc Hef Hec Hrest]; subst. inversion Hw as [|? ? Hw1 Hw']; subst.
    inversion Htr as [|? ? (v1 & t1 & s1 & H1 & Hj1 & Hscan) Htr']; subst. cbn [fst snd] in *.
    destruct (IH close close after Hrest (le_n _) Hec Hae Hw' Htr') as (v2 & t2 & s2 & H2 & Hj2 & Hfold).
    exists (v1 ++ v2), (t1 ++ t2), ([(ts, first)] ++ s1 ++ s2). split_and!.
    + apply (covers_app source ts first after [] [] [(ts, first)]); [apply covers_span; [lia|done|done]|]. by eapply covers_app.
    + destruct Hj1 as [->|(v & Hv & Hx)]; [|right; exists v; rewrite elem_of_app; tauto].
      destruct Hj2 as [->|(v & Hv & Hx)]; [by left|]. right. exists v. rewrite elem_of_app. tauto.
    + intros fuel a Hf. cbn [fold_opt]. rewrite Hscan by lia. cbn [mbind option_bind].
      destruct (Hfold fuel (with_spans (all_facts source v1 (add_span a ts first)) (text_spans (add_span a ts first) ++ s1)) Hf) as (te & a2 & -> & E).
      exists te, a2. split; [done|]. rewrite E, all_facts_with_spans, all_facts_app. cbn [text_spans with_spans add_span].
      change (add_span a ts first) with (with_spans a (text_spans a ++ [(ts, first)])). rewrite !all_facts_with_spans. by rewrite <- !app_assoc.
Qed.

(** The regions of an element from [cursor] on, and the tags between them. *)
Lemma traced_regions source w rs : forall cursor finish,
  chain source cursor finish (region_bounds <$> rs) ->
  (forall x y, cursor <= x -> x <= y -> y <= finish ->
    (forall r, r ∈ rs -> snd (region_bounds r) <= x \/ y <= fst (region_bounds r)) -> is_tag source (x, y)) ->
  Forall (fun p => snd p - fst p < w) (region_bounds <$> rs) ->
  (forall first close, Code first close ∈ rs -> traced source close first None) ->
  exists visits tags spans, covers source cursor finish visits tags spans /\
    forall fuel a, w <= fuel ->
      fold_opt (fun a region => match region with
                                | Text first close => Some (add_span a first close)
                                | Code first close => scan_code fuel source close first None a
                                end) a rs = Some (with_spans (all_facts source visits a) (text_spans a ++ spans)).
Proof.
  induction rs as [|r rs IH]; intros cursor finish Hc Htag Hw Htr.
  - exists [], [(cursor, finish)], []. split; [|intros fuel a _; cbn; by rewrite with_spans_same].
    apply chain_le in Hc. apply covers_tag; [done|]. apply Htag; [lia..|]. by intros r Hr%elem_of_nil.
  - rewrite fmap_cons in *. destruct (region_bounds r) as [first close] eqn:Er.
    inversion Hc as [|? ? ? ? ? Hlo Hfc Hef Hec Hrest]; subst. inversion Hw as [|? ? Hw1 Hw']; subst. cbn [fst snd] in *.
    pose proof (chain_le _ _ _ _ Hrest) as Hcf. pose proof (chain_widths _ _ _ _ Hrest) as Hwidths. rewrite Forall_fmap, Forall_forall in Hwidths.
    destruct (IH close finish Hrest) as (v2 & t2 & s2 & H2 & Hfold).
    { intros x y Hx Hxy Hy Hr. apply Htag; [lia..|]. intros r' [->|Hr']%elem_of_cons; [left; rewrite Er; cbn; lia|by apply Hr]. }
    { done. }
    { intros f c Hr. apply Htr. by right. }
    assert (exists v1 t1 s1, covers source first close v1 t1 s1 /\ forall fuel a, w <= fuel ->
      match r with Text x y => Some (add_span a x y) | Code x y => scan_code fuel source y x None a end
        = Some (with_spans (all_facts source v1 a) (text_spans a ++ s1))) as (v1 & t1 & s1 & H1 & Hscan).
    { destruct r as [x y|x y]; injection Er as -> ->.
      - exists [], [], [(first, close)]. split; [by apply covers_span|done].
      - destruct (Htr first close) as (v1 & t1 & s1 & H1 & _ & Hs); [by left|]. exists v1, t1, s1. split; [done|]. intros fuel a Hf. apply Hs. lia. }
    exists ([] ++ v1 ++ v2), ([(cursor, first)] ++ t1 ++ t2), ([] ++ s1 ++ s2). split.
    + apply (covers_app source cursor first finish); [|by eapply covers_app]. apply covers_tag; [done|]. apply Htag; [lia..|].
      intros r' [->|Hr']%elem_of_cons; right; [rewrite Er; cbn; lia|]. specialize (Hwidths r' Hr'). cbn in *. lia.
    + intros fuel a Hf. cbn [fold_opt app]. rewrite Hscan by done. cbn [mbind option_bind]. rewrite Hfold by done.
      rewrite all_facts_with_spans, all_facts_app. cbn [text_spans with_spans]. by rewrite <- app_assoc.
Qed.

(** Text is left out. *)
Lemma traced_text source last index prev j p :
  index <= j -> edge source index -> edge source j -> traced source last j p ->
  (forall fuel a, scan_code (S fuel) source last index prev a = scan_code fuel source last j p (add_span a index j)) -> index < j <= last ->
  traced source last index prev.
Proof.
  intros Hj Hi He Hnext Hscan Hlt. eapply (traced_step source last index prev j p [] [] [(index, j)]); [by apply covers_span|by left|done|].
  intros [|fuel] a Hf; [lia|]. exists fuel. split; [lia|]. apply Hscan.
Qed.

(** What begins at an offset ends within the code around it. *)
Lemma reach_bounds source last index b : last <= length source -> edge source last -> take last source !! index = Some b ->
  index < reach source (mkVisit last index) <= last.
Proof.
  intros Hlast He Hb. pose proof (bytes_lookup _ _ _ _ Hb) as [_ Hlt]. destruct (is_ident_start_byte b) eqn:Ei.
  - pose proof (scan_word_add source last index b empty_ast Hb Ei) as E.
    by destruct (scan_word_spec source last Hlast index b empty_ast _ _ Hb Ei E) as [? _].
  - destruct (byte_add source last index b empty_ast Hb Ei) as [-> _]. lia.
Qed.

(** The plain step: over the byte at [index], or the word that begins there. *)
Lemma traced_plain source last index prev b first f :
  last <= length source -> edge source last -> window source first last -> first <= index -> take last source !! index = Some b ->
  (forall j p, index < j <= last -> traced source last j p) ->
  byte_is "@" b && decorator_can_start (take last source) index = false ->
  (forall a, f a = if byte_is "<" b && looks_like_jsx_at (take last source) index then see_jsx a else a) ->
  (forall fuel a, scan_code (S fuel) source last index prev a =
    if is_ident_start_byte b then
      let '(after, a) := scan_word source last index (skip_identifier (take last source) index) (f a) in
      scan_code fuel source last after (Some (after - 1)) a
    else scan_code fuel source last (S index) (if is_ascii_whitespace b then prev else Some index) (f a)) ->
  traced source last index prev.
Proof.
  intros Hlast He Hw Hi Hb Hnext Hd Hf Hscan. pose proof (bytes_lookup _ _ _ _ Hb) as [_ Hlt].
  pose proof (reach_bounds source last index b Hlast He Hb) as Hr. set (v := mkVisit last index) in *.
  pose (p := if is_ident_start_byte b then Some (reach source v - 1) else if is_ascii_whitespace b then prev else Some index).
  apply (traced_step source last index prev (reach source v) p [v] [] []); [apply (covers_visit source last index first); [done|lia|by destruct Hr]|by left|by apply Hnext|].
  intros [|fuel] a Hfu; [lia|]. exists fuel. split; [lia|]. rewrite Hscan, app_nil_r. unfold p.
  change (all_facts source [v] a) with (add source v a).
  assert (with_spans (add source v a) (text_spans a) = add source v a) as -> by done.
  destruct (is_ident_start_byte b) eqn:Ei.
  - assert (f a = a) as ->.
    { rewrite Hf. replace (byte_is "<" b) with false; [done|]. by destruct b as [[] [] [] [] [] [] [] []]. }
    by rewrite (scan_word_add source last index b a Hb Ei).
  - destruct (byte_add source last index b a Hb Ei) as [Hre Had]. fold v in Hre, Had. by rewrite Hre, Had, Hd, Hf.
Qed.

Lemma traced_all n : forall source last index prev first,
  last - index <= n -> index <= last -> last <= length source -> edge source last -> window source first last -> first <= index ->
  traced source last index prev.
Proof.
  induction n as [n IH] using lt_wf_ind. intros source last index prev first0 Hn Hi Hlast Hedge Hwin Hfirst.
  assert (forall j p, index < j <= last -> traced source last j p) as Hnext.
  { intros j p Hj. apply (IH (last - j)) with first0; try done; lia. }
  destruct (take last source !! index) as [b|] eqn:Hb.
  2:{ pose proof Hb as Hge. apply lookup_ge_None in Hge. rewrite bytes_length in Hge by done. assert (index = last) as -> by lia.
      exists [], [], []. split_and!; [|by left|].
      - split; try constructor; lia.
      - intros [|fuel] a Hf; [lia|]. cbn [scan_code]. rewrite Hb. cbn. by rewrite with_spans_same. }
  pose proof (bytes_lookup _ _ _ _ Hb) as [Hs Hlt]. set (bytes := take last source) in *.
  assert (forall i, edge bytes i -> edge source i) as Hbe by (intros i; by apply edge_take).
  assert (length bytes = last) as Hbl by by apply bytes_length.
  assert (forall j p, is_ascii_byte b = true -> index < j <= length bytes /\ edge bytes j ->
    (forall fuel a, scan_code (S fuel) source last index prev a = scan_code fuel source last j p (add_span a index j)) ->
    traced source last index prev) as Htext.
  { intros j p Hba [Hj Hje] H1. rewrite Hbl in Hj. apply (traced_text source last index prev j p); [lia|by eapply edge_at|auto|auto|done|lia]. }
  destruct (is_comment_start bytes index) eqn:Ec.
  { apply (Htext (skip_comment bytes index) prev).
    - apply comment_start_spec in Ec as [Hb' _]. rewrite Hb in Hb'. by injection Hb' as ->.
    - by apply skip_comment_spec.
    - intros fuel a. cbn [scan_code]. fold bytes. by rewrite Hb, Ec. }
  destruct (byte_is "`" b) eqn:Et.
  { assert (edge source index) as Hie by (apply byte_is_true in Et as ->; by eapply edge_at).
    destruct (template_literal_spec bytes index b Hb) as (after & inner & E & Ha & Hae & Hc). rewrite Hbl in Ha.
    apply Hbe in Hae. apply (chain_take source last Hlast Hedge) in Hc. pose proof (chain_widths _ _ _ _ Hc) as Hw.
    pose proof (chain_edges _ _ _ _ Hc) as Hes.
    destruct (traced_template source (last - index) inner index (S index) after) as (vs & ts & spans & Hcov & Hjsx & Hfold); auto.
    { eapply Forall_impl; [exact Hw|]. cbn. lia. }
    { apply Forall_forall. intros [a c] Hin. rewrite Forall_forall in Hw, Hes. specialize (Hw _ Hin). specialize (Hes _ Hin).
      cbn [fst snd] in *. apply (IH (c - a)) with a; try lia; try tauto. by eapply window_interpolation. }
    apply (traced_step source last index prev after (Some index) vs ts spans); [done|done|apply Hnext; lia|].
    intros [|fuel] a Hf; [lia|]. destruct (Hfold fuel a) as (te & a1 & E1 & Ea); [lia|].
    exists fuel. split; [lia|]. cbn [scan_code]. fold bytes. rewrite Hb, Ec, Et, E, E1. cbn [mbind option_bind]. by rewrite Ea. }
  destruct (is_quote b) eqn:Eq.
  { apply (Htext (skip_string bytes index) (Some index)); [by apply quote_ascii|by eapply skip_string_spec; [|apply quote_ascii]|].
    intros fuel a. cbn [scan_code]. fold bytes. by rewrite Hb, Ec, Et, Eq. }
  destruct (byte_is "/" b && regex_can_start bytes prev) eqn:Er.
  { apply (Htext (skip_regex_literal bytes index) (Some index)); [|apply skip_regex_spec; lia|].
    - by apply andb_true_iff in Er as [->%byte_is_true _].
    - intros fuel a. cbn [scan_code]. fold bytes. by rewrite Hb, Ec, Et, Eq, Er. }
  destruct (byte_is "@" b && decorator_can_start bytes index) eqn:Ed.
  { apply andb_true_iff in Ed as Ed'. destruct Ed' as [Eb _].
    assert (is_ident_start_byte b = false) as Ei by (apply byte_is_true in Eb as ->; done).
    destruct (byte_add source last index b empty_ast Hb Ei) as [Hreach _].
    apply (traced_step source last index prev (S index) (Some index) [mkVisit last index] [] []).
    - rewrite <- Hreach. apply (covers_visit source last index first0); [done|lia|]. rewrite Hreach. lia.
    - by left.
    - apply Hnext. lia.
    - intros [|fuel] a Hf; [lia|]. exists fuel. split; [lia|]. cbn [scan_code]. fold bytes. rewrite Hb, Ec, Et, Eq, Er, Ed, app_nil_r.
      change (all_facts source [mkVisit last index] a) with (add source (mkVisit last index) a).
      destruct (byte_add source last index b a Hb Ei) as [_ ->]. fold bytes. by rewrite Ed. }
  destruct (byte_is "<" b && looks_like_jsx_at bytes index && jsx_can_start bytes prev) eqn:Ej.
  2:{ apply (traced_plain source last index prev b first0
        (fun a => if byte_is "<" b && looks_like_jsx_at bytes index then see_jsx a else a)); try done.
      intros fuel a. cbn [scan_code]. fold bytes. rewrite Hb, Ec, Et, Eq, Er, Ed.
      destruct (byte_is "<" b && looks_like_jsx_at bytes index); [|done]. cbn [andb] in Ej. by rewrite Ej. }
  apply andb_true_iff in Ej as Ej'. destruct Ej' as [Ej1 Ej2].
  destruct (jsx_element_spec bytes index) as [E|(e & E & Hend & Hc & _)]; [lia|..].
  { apply (traced_plain source last index prev b first0 see_jsx); try done.
    - intros a. fold bytes. by rewrite Ej1.
    - intros fuel a. cbn [scan_code]. fold bytes. by rewrite Hb, Ec, Et, Eq, Er, Ed, Ej1, Ej2, E. }
  destruct Hend as [Hend _]. rewrite Hbl in Hend. apply (chain_take source last Hlast Hedge) in Hc.
  pose proof (chain_widths _ _ _ _ Hc) as Hw. pose proof (chain_edges _ _ _ _ Hc) as Hes.
  destruct (traced_regions source (last - index) (regions e) (S index) (element_end e)) as (vs & ts & spans & Hcov & Hfold).
  { done. }
  { intros x y Hx Hxy Hy Hr. exists first0, last, index, e. cbn. split_and!; [done|done|exact E|lia|done|done]. }
  { eapply Forall_impl; [exact Hw|]. cbn. lia. }
  { intros f c Hin. assert ((f, c) ∈ region_bounds <$> regions e) as Hin' by (apply list_elem_of_fmap; by exists (Code f c)).
    rewrite Forall_forall in Hw, Hes. specialize (Hw _ Hin'). specialize (Hes _ Hin').
    cbn [fst snd] in *. apply (IH (c - f)) with f; try lia; try tauto. by eapply window_container. }
  assert (is_ident_start_byte b = false) as Ei.
  { apply andb_prop in Ej1 as [->%byte_is_true _]. done. }
  destruct (byte_add source last index b empty_ast Hb Ei) as [Hreach _].
  apply (traced_step source last index prev (element_end e) (Some (element_end e - 1)) ([mkVisit last index] ++ vs) ([] ++ ts) ([] ++ spans)).
  - eapply covers_app; [|exact Hcov]. rewrite <- Hreach. apply (covers_visit source last index first0); [done|lia|]. rewrite Hreach. lia.
  - right. exists (mkVisit last index). split; [by left|]. unfold opens_jsx, at_byte. cbn. fold bytes. by rewrite Hb.
  - apply Hnext. lia.
  - intros [|fuel] a Hf; [lia|]. exists fuel. split; [lia|]. cbn [scan_code]. fold bytes. rewrite Hb, Ec, Et, Eq, Er, Ed, Ej1, Ej2, E.
    rewrite Hfold by lia. cbn [mbind option_bind]. rewrite all_facts_app. 
    change (all_facts source [mkVisit last index] a) with (add source (mkVisit last index) a).
    destruct (byte_add source last index b a Hb Ei) as [_ ->]. fold bytes. by rewrite Ed, Ej1.
Qed.

(** A word of the code that stands alone is visited, unless it is the [env] of
    a [process.env] that is. *)
Lemma word_is_visited source visits tags spans k b :
  covers source 0 (length source) visits tags spans -> source !! k = Some b -> is_ident_start_byte b = true ->
  (forall c, source !! (k - 1) = Some c -> is_ident_continue_byte c = true -> k = 0) ->
  in_spans k spans = false -> in_spans k tags = false ->
  exists v, v ∈ visits /\ (visit_at v = k \/ (reads_env source v = true /\ visit_at v < k < visit_at v + String.length ENV_MARKER)).
Proof.
  intros Hcov Hb Hi Halone Hs Ht. pose proof (lookup_lt_Some _ _ _ Hb).
  destruct (cov_all _ _ _ _ _ _ Hcov k) as (v & Hv & Hk); [lia|done|done|]. exists v. split; [done|].
  destruct (decide (visit_at v = k)) as [|Hne]; [by left|right]. unfold reach in Hk.
  destruct (reads_env source v); [split; [done|lia]|]. exfalso. destruct (at_word source v); [|lia].
  destruct (skip_while_run (take (visit_end v) source) is_ident_continue_byte (visit_at v) (k - 1)) as (c & Hc & Hcont).
  { unfold word_close, skip_identifier in Hk. lia. }
  apply bytes_lookup in Hc as [Hc _]. specialize (Halone c Hc Hcont). lia.
Qed.

(** *** Claims *)

(** C9: the facts of a module are exactly what its code says.  [parse_module]
    answers for every byte list; its walk stops at offsets of the code, in order
    and apart, each inside the source, an interpolation or a container; and every
    offset outside the text spans and the tags of elements belongs to what begins
    at one of them (a word, a [process.env], or a single byte).  The imports, the
    environment reads and the flags are those of these offsets, no more and no
    less: an edge for each [import], [export] and [require] that has a specifier,
    a read for each named [process.env], JSX for a [<] that looks like a tag, a
    decorator for an [@] that can begin one, TypeScript and enums for their
    words, a default export for an [export] that declares one.  There are tags
    only when the module is said to have JSX.  Every specifier is written between
    matching quotes behind its keyword, and every name behind its
    [process.env]. *)
Theorem facts_come_from_code source :
  exists a visits tags, parse_module source = Some a /\
    covers source 0 (length source) visits tags (text_spans a) /\ (tags = [] \/ has_jsx a = true) /\
    imports a = omap (imported source) visits /\ env_reads a = omap (env_read source) visits /\
    has_jsx a = existsb (opens_jsx source) visits /\ has_decorators a = existsb (decorates source) visits /\
    has_typescript a = existsb (names_typescript source) visits /\ has_enums a = existsb (names_enum source) visits /\
    has_default a = existsb (names_default source) visits /\
    (forall e, e ∈ imports a -> import_in source 0 (length source) (text_spans a) e) /\
    (forall n, n ∈ env_reads a -> env_read_in source 0 (length source) (text_spans a) n).
Proof.
  destruct (parse_and_mask source) as (a & Ea & _ & HI & HE & _).
  destruct (traced_all (length source) source (length source) 0 None 0) as (visits & tags & spans & Hcov & Hjsx & Hscan);
    [lia|lia|done|apply edge_end|apply window_whole|lia|].
  specialize (Hscan (scan_fuel source) empty_ast ltac:(unfold scan_fuel; lia)).
  assert (a = with_spans (all_facts source visits empty_ast) spans) as Ha.
  { unfold parse_module in Ea. rewrite Hscan in Ea. cbn [mbind option_bind text_spans empty_ast app with_spans] in Ea.
    rewrite sort_by_id in Ea by (eapply chain_sorted; exact (cov_chain _ _ _ _ _ _ Hcov)). by injection Ea as <-. }
  destruct (all_facts_facts source visits empty_ast) as (F1 & F2 & F3 & F4 & F5 & F6 & F7).
  exists a, visits, tags. split; [done|].
  split; [by rewrite Ha|].
  assert (has_jsx a = existsb (opens_jsx source) visits) as Hj by (by rewrite Ha).
  split_and!; [|by rewrite Ha..|exact HI|exact HE].
  destruct Hjsx as [->|(v & Hv & Ho)]; [by left|right]. rewrite Hj. apply existsb_exists. exists v. by rewrite <- list_elem_of_In.
Qed.

(** A default export, a decorator and an environment read; the word in the string is none. *)
Example facts_of_code :
  (fun a => (env_reads a, has_default a, has_decorators a, has_jsx a, imports a)) <$>
    parse_module (bytes_of "@bean class A {} export default process.env.KEY + 'import x'") = Some (["KEY"], true, true, false, []).
Proof. vm_compute. reflexivity. Qed.
