(* ===== verification/References.v ===== *)
(** Module references (crates/ruvyxa_bundler/src/references.rs): the directive a
    module starts with, the lane it belongs to, and the reference manifest,
    whose lanes close a client boundary over its shared dependencies and refuse
    an invalid crossing.

    [hash16] stands for the first sixteen hexadecimal digits of a BLAKE3 hash,
    [encode] for the JSON text of the references. *)
From S2P Require Import Prelude Order Worklist RustStr Utf8 Text Paths.

(** ** Definitions *)

(** *** Directives *)

(** Skip one leading trivia: what is left, or [None] when there is none. *)
Definition skip_one_trivia (source : list ascii) : option (list ascii) :=
  match strip_bytes "//" source with
  | Some comment =>
      Some (drop_while (fun b => negb (Ascii.eqb b "013" || Ascii.eqb b "010")) comment)
  | None =>
      match strip_bytes "/*" source with
      | Some comment =>
          match find_bytes (bytes_of "*/") comment with
          | Some n => Some (drop (n + 2) comment)
          | None => Some []
          end
      | None => None
      end
  end.

(** [skip_leading_trivia]; every comment is two bytes at least. *)
Fixpoint skip_trivia_loop (fuel : nat) (source : list ascii) : list ascii :=
  let source := trim_start source in
  match fuel, skip_one_trivia source with
  | S fuel, Some rest => skip_trivia_loop fuel rest
  | _, _ => source
  end.
Definition skip_leading_trivia (source : list ascii) : list ascii := skip_trivia_loop (length source) source.

(** [trim_start_matches('\u{feff}')] *)
Fixpoint trim_marks (fuel : nat) (source : list ascii) : list ascii :=
  match fuel, source with
  | S fuel, b1 :: b2 :: b3 :: rest =>
      if Ascii.eqb b1 "239" && Ascii.eqb b2 "187" && Ascii.eqb b3 "191" then trim_marks fuel rest else source
  | _, _ => source
  end.
Definition trim_byte_order_marks (source : list ascii) : list ascii := trim_marks (length source) source.

Definition starts_with_bytes (p : list ascii) (l : list ascii) : bool := bool_decide (take (length p) l = p).

(** [directive] *)
Definition directive (source : list ascii) : option string :=
  let source := skip_leading_trivia (trim_byte_order_marks source) in
  find (fun d =>
    existsb (fun quote => starts_with_bytes (quote :: bytes_of d ++ [quote]) source) ["039"; "034"]%char)
    ["use client"; "use server"; "use cache"].

(** [has_module_directive] *)
Definition has_module_directive (source : list ascii) (expected : string) : bool :=
  bool_decide (directive source = Some expected).

(** [directive_prologue_end], from [offset]; every round passes a literal. *)
Fixpoint prologue_loop (fuel : nat) (source : list ascii) (offset : nat) : nat :=
  match fuel with
  | O => offset
  | S fuel =>
      let rest := drop offset source in
      let trimmed := skip_leading_trivia rest in
      match trimmed with
      | quote :: body =>
          if Ascii.eqb quote "039" || Ascii.eqb quote "034" then
            match find_bytes [quote] body with
            | None => offset
            | Some n =>
                if existsb (Ascii.eqb "010") (take n body) then offset
                else
                  let next := offset + (length rest - length trimmed) + 1 + n + 1 in
                  let tail := drop next source in
                  let after := drop_while (fun b => Ascii.eqb b " " || Ascii.eqb b "009") tail in
                  prologue_loop fuel source
                    (match after with
                     | b :: _ => if Ascii.eqb b ";" then next + (length tail - length after) + 1 else next
                     | [] => next
                     end)
            end
          else offset
      | [] => offset
      end
  end.
Definition directive_prologue_end (source : list ascii) : nat :=
  prologue_loop (S (length source)) source (length source - length (trim_byte_order_marks source)).

(** *** Lanes *)

Inductive ModuleLane := Shared | Server | Client | Action.
#[export] Instance lane_eq : EqDecision ModuleLane.
Proof. solve_decision. Defined.

(** The fields of [CompiledModule] the references read. *)
Record CompiledModule := mkCompiledModule {
  cm_path : Path;
  cm_js : list ascii;
  cm_deps : list Path;
  cm_external : bool;
}.

Record ModuleReference := mkReference {
  ref_id : string;
  ref_module : string;
  ref_lane : ModuleLane;
  ref_dependencies : list string;
}.

Record ReferenceManifest := mkReferences {
  contract : string;
  schema_version : N;
  artifact_version : string;
  ref_modules : list ModuleReference;
}.

Definition REFERENCE_MANIFEST_CONTRACT : string := "ruvyxa.references".
Definition REFERENCE_MANIFEST_SCHEMA_VERSION : N := 1.

(** [is_installed_dependency] *)
Definition is_installed_dependency (p : Path) : bool := bool_decide ("node_modules" ∈ comps p).

(** [declared_lane] *)
Definition declared_lane (m : CompiledModule) : ModuleLane :=
  match directive (cm_js m) with
  | Some "use client" => Client
  | Some "use server" => Action
  | _ =>
      if is_installed_dependency (cm_path m) then Shared
      else match path_stem (cm_path m) with
           | Some "client" => Client
           | Some "action" | Some "actions" => Action
           | Some "server" => Server
           | _ => Shared
           end
  end.

(** [lane_name] *)
Definition lane_name (l : ModuleLane) : string :=
  match l with Shared => "shared" | Server => "server" | Client => "client" | Action => "action" end.

Abbreviation Lanes := (gmap Path ModuleLane).

(** The lanes as declared: a later module with the same path wins, as collecting into a map does. *)
Definition declared_lanes (modules : list CompiledModule) : Lanes :=
  foldl (fun lanes m => <[cm_path m := declared_lane m]> lanes) ∅
    (filter (fun m => cm_external m = false) modules).

(** The first module with each path. *)
Definition by_path (modules : list CompiledModule) (p : Path) : option CompiledModule :=
  find (fun m => bool_decide (cm_path m = p)) modules.

(** Promote the shared dependencies of a client module, queueing each. *)
Fixpoint promote (deps : list Path) (lanes : Lanes) (pending : list Path) : Lanes * list Path :=
  match deps with
  | [] => (lanes, pending)
  | d :: rest =>
      if decide (lanes !! d = Some Shared) then promote rest (<[d := Client]> lanes) (pending ++ [d])
      else promote rest lanes pending
  end.

(** The closure loop. *)
Fixpoint close_lanes (fuel : nat) (modules : list CompiledModule) (lanes : Lanes) (pending : list Path) : option Lanes :=
  match pending, fuel with
  | [], _ => Some lanes
  | _ :: _, O => None
  | p :: rest, S fuel =>
      match by_path modules p with
      | None => close_lanes fuel modules lanes rest
      | Some m => let '(lanes, pending) := promote (cm_deps m) lanes rest in close_lanes fuel modules lanes pending
      end
  end.

(** The paths of the client modules, in path order. *)
Definition client_paths (lanes : Lanes) : list Path :=
  sort_by path_order (fst <$> filter (fun '(_, l) => l = Client) (map_to_list lanes)).

(** A dependency a lane may not have. *)
Definition invalid_crossing (importer dependency : ModuleLane) : bool :=
  match importer, dependency with
  | Client, Server | Client, Action | Action, Client => true
  | _, _ => false
  end.

(** [display_module]: the path below the project root, with forward slashes. *)
Definition display_module (p root : Path) : string :=
  map_bytes (fun c => if Ascii.eqb c "\" then "/"%char else c)
    (match strip_base root p with Some rest => join "/" rest | None => path_text p end).

Inductive ReferenceError := InvalidCrossing (importer dependency : ModuleLane) (module_ : string) (imports : string)
  | EncodeFailed (error : string).

(** The message of the [BundleError::Compiler]. *)
Definition reference_error_text (e : ReferenceError) : string :=
  match e with
  | InvalidCrossing a b m d =>
      "RUV1820 invalid " +:+ lane_name a +:+ " to " +:+ lane_name b +:+ " module crossing: " +:+ m +:+ " imports " +:+ d
  | EncodeFailed e => "reference manifest: " +:+ e
  end.

(** The first invalid crossing, module by module, dependency by dependency. *)
Definition crossing_of (lanes : Lanes) (root : Path) (m : CompiledModule) : option ReferenceError :=
  let importer := default Shared (lanes !! cm_path m) in
  find_map (fun d =>
    match lanes !! d with
    | Some dependency =>
        if invalid_crossing importer dependency
        then Some (InvalidCrossing importer dependency (display_module (cm_path m) root) (display_module d root)) else None
    | None => None
    end) (cm_deps m).

Definition project_modules (modules : list CompiledModule) : list CompiledModule :=
  filter (fun m => cm_external m = false) modules.

Section manifest.
Variable hash16 : string -> string.
Variable encode : list ModuleReference -> string + string.

(** [reference_id] *)
Definition reference_id (p root : Path) : string := "m_" +:+ hash16 (display_module p root).

(** One module's reference; its dependencies are a set, so in order without repeats. *)
Definition reference_of (lanes : Lanes) (root : Path) (m : CompiledModule) : ModuleReference :=
  mkReference (reference_id (cm_path m) root) (display_module (cm_path m) root) (default Shared (lanes !! cm_path m))
    (dedup_by String.eqb
       (sort_by String.compare ((fun d => reference_id d root) <$> filter (fun d => is_Some (lanes !! d)) (cm_deps m)))).

(** Fuel for the closure: every path is queued once at most. *)
Definition closure_fuel (lanes : Lanes) : nat := size lanes.

(** [build_reference_manifest]; [None] would be the closure out of fuel. *)
Definition build_reference_manifest (modules : list CompiledModule) (root : Path) : option (ReferenceManifest + ReferenceError) :=
  let declared := declared_lanes modules in
  lanes ← close_lanes (closure_fuel declared) modules declared (client_paths declared);
  match find_map (crossing_of lanes root) (project_modules modules) with
  | Some e => Some (inr e)
  | None =>
      let references := sort_by (by_key ref_id String.compare) (reference_of lanes root <$> project_modules modules) in
      match encode references with
      | inr e => Some (inr (EncodeFailed e))
      | inl text =>
          Some (inl (mkReferences REFERENCE_MANIFEST_CONTRACT REFERENCE_MANIFEST_SCHEMA_VERSION (hash16 text) references))
      end
  end.
End manifest.

(** ** Specification *)

(** The shared dependencies of a module: the edges a client boundary spreads along. *)
Definition shared_deps (modules : list CompiledModule) (declared : Lanes) (p : Path) : list Path :=
  match by_path modules p with
  | Some m => filter (fun d => declared !! d = Some Shared) (cm_deps m)
  | None => []
  end.

(** [p] is a declared client module, or a shared one such a module reaches. *)
Definition owned_by_client (modules : list CompiledModule) (p : Path) : Prop :=
  let declared := declared_lanes modules in
  reachable (shared_deps modules declared) (client_paths declared) p.

(** One import of a project module that names a project module. *)
Definition imports_project (modules : list CompiledModule) (p d : Path) : Prop :=
  exists m, by_path modules p = Some m /\ cm_external m = false /\ d ∈ cm_deps m /\ is_Some (declared_lanes modules !! d).

Definition demo_client : CompiledModule :=
  mkCompiledModule (path_new "/app/client.ts") (bytes_of "'use client'; import './util'") [path_new "/app/util.ts"] false.
Definition demo_util : CompiledModule := mkCompiledModule (path_new "/app/util.ts") (bytes_of "export const a = 1") [] false.
Definition demo_modules : list CompiledModule := [demo_client; demo_util].

(** ** Properties *)

(** The lanes with the met paths promoted. *)
Definition marked (declared : Lanes) (met : gset Path) : Lanes :=
  map_imap (fun p l => Some (if decide (p ∈ met) then Client else l)) declared.

Lemma marked_lookup declared met p : marked declared met !! p = (fun l => if decide (p ∈ met) then Client else l) <$> declared !! p.
Proof. unfold marked. rewrite map_lookup_imap. by destruct (declared !! p). Qed.

Lemma promote_marked declared deps : forall met pending,
  promote deps (marked declared met) pending =
    (let '(pending', met') := push_new (filter (fun d => declared !! d = Some Shared) deps) pending met in
     (marked declared met', pending')).
Proof.
  induction deps as [|d deps IH]; intros met pending; [done|]. cbn [promote]. rewrite filter_cons, marked_lookup.
  destruct (decide (declared !! d = Some Shared)) as [Hd|Hd].
  - rewrite Hd. cbn [fmap option_fmap option_map push_new]. destruct (decide (d ∈ met)) as [Hm|Hm].
    + rewrite decide_False by done. apply IH.
    + rewrite decide_True by done. rewrite <- IH. f_equal. apply map_eq. intros p.
      destruct (decide (p = d)) as [->|Hp].
      * rewrite lookup_insert_eq, marked_lookup, Hd. cbn. by rewrite decide_True by set_solver.
      * rewrite lookup_insert_ne by done. rewrite !marked_lookup. destruct (declared !! p); [cbn|done]. f_equal.
        destruct (decide (p ∈ met)); [by rewrite decide_True by set_solver|by rewrite decide_False by set_solver].
  - rewrite decide_False; [apply IH|]. destruct (declared !! d) as [l|]; [cbn|done].
    destruct (decide (d ∈ met)); [done|]. intros [= ->]. by apply Hd.
Qed.

Lemma close_lanes_marked modules declared fuel : forall pending met,
  close_lanes fuel modules (marked declared met) pending =
    marked declared <$> walk_push (shared_deps modules declared) fuel pending met.
Proof.
  induction fuel as [|fuel IH]; intros [|p pending] met; cbn [close_lanes walk_push]; try done.
  unfold shared_deps at 1. destruct (by_path modules p) as [m|]; [|cbn [push_new]; apply IH].
  rewrite promote_marked. destruct (push_new _ pending met) as [pending' met']. apply IH.
Qed.

Lemma client_paths_spec lanes p : p ∈ client_paths lanes <-> lanes !! p = Some Client.
Proof.
  unfold client_paths. rewrite sort_by_perm, list_elem_of_fmap. split.
  - intros ([q l] & -> & [Hl Hq]%list_elem_of_filter). apply elem_of_map_to_list in Hq. cbn in *. by rewrite Hq, Hl.
  - intros H. exists (p, Client). split; [done|]. apply list_elem_of_filter. split; [done|]. by apply elem_of_map_to_list.
Qed.

Lemma client_paths_length lanes :
  length (client_paths lanes) + size (dom (filter (fun '(_, l) => l = Shared) lanes)) <= size lanes.
Proof.
  unfold client_paths. rewrite (Permutation_length (sort_by_perm _)), length_fmap, size_dom.
  induction lanes as [|p l lanes Hp IH] using map_ind; [done|]. rewrite map_size_insert_None by done.
  assert (length (filter (fun '(_, l') => l' = Client) (map_to_list (<[p := l]> lanes)))
    = (if decide (l = Client) then 1 else 0) + length (filter (fun '(_, l') => l' = Client) (map_to_list lanes))) as ->.
  { rewrite (Permutation_length (filter_Permutation _ _ _ (map_to_list_insert _ _ _ Hp))). rewrite filter_cons.
    by destruct (decide (l = Client)). }
  destruct (decide (l = Shared)) as [->|Hl].
  - rewrite map_filter_insert_True, map_size_insert_None by (done || by rewrite map_lookup_filter_None; left). rewrite decide_False by done. lia.
  - rewrite map_filter_insert_False by done. rewrite delete_id by done. destruct (decide (l = Client)); lia.
Qed.

(** The closure loop ends with the fuel given, and promotes exactly what a
    client module owns. *)
Lemma close_lanes_spec modules :
  let declared := declared_lanes modules in
  exists lanes, close_lanes (closure_fuel declared) modules declared (client_paths declared) = Some lanes /\
    (forall p, owned_by_client modules p -> lanes !! p = Some Client) /\
    (forall p, ~ owned_by_client modules p -> lanes !! p = declared !! p).
Proof.
  intros declared. set (succ := shared_deps modules declared).
  assert (marked declared (list_to_set (client_paths declared)) = declared) as Hstart.
  { apply map_eq. intros p. rewrite marked_lookup. destruct (declared !! p) as [l|] eqn:E; [cbn|done]. f_equal.
    destruct (decide _) as [Hin|]; [|done]. apply elem_of_list_to_set, client_paths_spec in Hin. congruence. }
  assert (forall x y, edge succ x y -> y ∈ dom (filter (fun '(_, l) => l = Shared) declared)) as Hu.
  { intros x y. unfold edge, succ, shared_deps. destruct (by_path modules x); [|by intros ?%elem_of_nil].
    intros [Hs _]%list_elem_of_filter. apply elem_of_dom. exists Shared. by apply map_lookup_filter_Some. }
  destruct (walk_push_inv succ (client_paths declared) (dom (filter (fun '(_, l) => l = Shared) declared))
    (closure_fuel declared) (client_paths declared) ∅ (list_to_set (client_paths declared))) as (met & Hw & Hmet).
  - split; [set_solver|set_solver|set_solver|]. intros x Hx. exists x. split; [set_solver|done].
  - set_solver.
  - done.
  - pose proof (client_paths_length declared) as Hl. unfold closure_fuel.
    assert (size (dom (filter (fun '(_, l) => l = Shared) declared) ∖ list_to_set (client_paths declared))
      <= size (dom (filter (fun '(_, l) => l = Shared) declared))) by (apply subseteq_size; set_solver). lia.
  - exists (marked declared met).
    pose proof (close_lanes_marked modules declared (closure_fuel declared) (client_paths declared)
      (list_to_set (client_paths declared))) as Hc. rewrite Hstart in Hc. fold succ in Hc. rewrite Hc, Hw. split; [done|].
    assert (forall p, p ∈ met -> is_Some (declared !! p)) as Hdom.
    { intros p (x & Hx & Hr)%Hmet. apply rtc_inv_r in Hr as [->|(z & _ & Hz)].
      - exists Client. by apply client_paths_spec.
      - apply Hu in Hz. apply elem_of_dom in Hz as [l Hl]. apply map_lookup_filter_Some in Hl as [Hl _]. by exists l. }
    split; intros p Hp; rewrite marked_lookup.
    + apply Hmet in Hp. destruct (Hdom p Hp) as [l ->]. cbn. by rewrite decide_True.
    + destruct (declared !! p); [cbn|done]. rewrite decide_False; [done|]. intros Hm. by apply Hp, Hmet.
Qed.

Section manifest_lemmas.
Variable hash16 : string -> string.
Variable encode : list ModuleReference -> string + string.

Lemma accepted_crossings modules root manifest :
  build_reference_manifest hash16 encode modules root = Some (inl manifest) ->
  exists lanes, close_lanes (closure_fuel (declared_lanes modules)) modules (declared_lanes modules)
      (client_paths (declared_lanes modules)) = Some lanes /\
    (forall m d l, m ∈ project_modules modules -> d ∈ cm_deps m -> lanes !! d = Some l ->
      invalid_crossing (default Shared (lanes !! cm_path m)) l = false) /\
    ref_modules manifest = sort_by (by_key ref_id String.compare) (reference_of hash16 lanes root <$> project_modules modules).
Proof.
  unfold build_reference_manifest. intros (lanes & Hl & H)%bind_Some. exists lanes. split; [done|].
  destruct (find_map (crossing_of lanes root) (project_modules modules)) eqn:Ef; [done|].
  destruct (encode _); [|done]. injection H as <-. split; [|done]. intros m d l Hm Hd Hdl.
  apply find_map_None in Ef. rewrite Forall_forall in Ef. specialize (Ef m Hm). apply find_map_None in Ef.
  rewrite Forall_forall in Ef. specialize (Ef d Hd). cbn beta in Ef. rewrite Hdl in Ef. by destruct (invalid_crossing _ _).
Qed.

Lemma by_path_Some modules p m : by_path modules p = Some m -> m ∈ modules /\ cm_path m = p.
Proof.
  unfold by_path. intros H%find_some. destruct H as [H1 H2]. split; [by apply list_elem_of_In|]. by apply bool_decide_eq_true in H2.
Qed.

Lemma owned_lane modules p :
  owned_by_client modules p -> declared_lanes modules !! p = Some Client \/ declared_lanes modules !! p = Some Shared.
Proof.
  intros (y & Hy & Hr). apply rtc_inv_r in Hr as [->|(z & _ & Hz)]; [left; by apply client_paths_spec|]. right.
  unfold edge, shared_deps in Hz. destruct (by_path modules z); [|by apply elem_of_nil in Hz].
  by apply list_elem_of_filter in Hz as [Hz _].
Qed.

(** C10: a client boundary never reaches server code.  When a manifest is built,
    every project module reached by imports from a module declared client,
    through any number of project modules, is declared client or shared, so
    no server module and no server action is in a browser closure; and the
    lane recorded for each of them is the client lane. *)
Theorem client_closure_has_no_server_module modules root manifest start p :
  build_reference_manifest hash16 encode modules root = Some (inl manifest) ->
  declared_lanes modules !! start = Some Client -> rtc (imports_project modules) start p ->
  (declared_lanes modules !! p = Some Client \/ declared_lanes modules !! p = Some Shared) /\
  forall m, by_path modules p = Some m -> cm_external m = false ->
    exists r, r ∈ ref_modules manifest /\ ref_module r = display_module p root /\ ref_lane r = Client.
Proof.
  intros (lanes & Hl & Hok & Hmods)%accepted_crossings Hstart Hreach.
  destruct (close_lanes_spec modules) as (lanes' & Hl' & Hown & Hother). rewrite Hl in Hl'. injection Hl' as <-.
  assert (owned_by_client modules p /\ (declared_lanes modules !! p = Some Client \/ declared_lanes modules !! p = Some Shared))
    as [Hp Hlane].
  { refine (rtc_ind_r (fun p => owned_by_client modules p /\
      (declared_lanes modules !! p = Some Client \/ declared_lanes modules !! p = Some Shared)) start _ _ p Hreach).
    - split; [|by left]. exists start. split; [by apply client_paths_spec|done].
    - intros x d _ (m & Hm & Hext & Hd & [l Hdl]) [Hx _]. pose proof (by_path_Some _ _ _ Hm) as [Hin <-].
      assert (invalid_crossing Client (default Shared (lanes !! d)) = false) as Hc.
      { specialize (Hok m d). rewrite (Hown _ Hx) in Hok. destruct (lanes !! d) as [ld|] eqn:E; [|done].
        apply Hok; [by apply list_elem_of_filter|done|done]. }
      destruct l.
      + split; [|by right]. eapply reachable_edge; [exact Hx|]. unfold edge, shared_deps. rewrite Hm.
        by apply list_elem_of_filter.
      + exfalso. rewrite (Hother d), Hdl in Hc; [done|]. intros [?|?]%owned_lane; congruence.
      + split; [|by left]. exists d. split; [by apply client_paths_spec|done].
      + exfalso. rewrite (Hother d), Hdl in Hc; [done|]. intros [?|?]%owned_lane; congruence. }
  split; [done|]. intros m Hm Hext. pose proof (by_path_Some _ _ _ Hm) as [Hin Hpath].
  exists (reference_of hash16 lanes root m). rewrite Hmods, sort_by_perm. unfold reference_of. cbn [ref_module ref_lane].
  rewrite Hpath, (Hown _ Hp). split_and!; [|done|done]. apply list_elem_of_fmap. exists m. unfold reference_of.
  rewrite Hpath, (Hown _ Hp). split; [done|]. by apply list_elem_of_filter.
Qed.

(** The closure ends and decides.  For any modules the closure loop ends,
    the lanes it leaves are the declared ones with exactly the shared modules
    a client module reaches through shared modules promoted, and the build is
    refused for a crossing exactly when some project module imports, between
    these lanes, what its lane may not. *)
Theorem reference_lanes_decide modules root :
  exists lanes, close_lanes (closure_fuel (declared_lanes modules)) modules (declared_lanes modules)
      (client_paths (declared_lanes modules)) = Some lanes /\
    (forall p, owned_by_client modules p -> lanes !! p = Some Client) /\
    (forall p, ~ owned_by_client modules p -> lanes !! p = declared_lanes modules !! p) /\
    ((exists a b m d, build_reference_manifest hash16 encode modules root = Some (inr (InvalidCrossing a b m d))) <->
     exists m d l, m ∈ project_modules modules /\ d ∈ cm_deps m /\ lanes !! d = Some l /\
       invalid_crossing (default Shared (lanes !! cm_path m)) l = true).
Proof.
  destruct (close_lanes_spec modules) as (lanes & Hl & Hown & Hother). exists lanes. split_and!; [done..|].
  unfold build_reference_manifest. rewrite Hl. cbn [mbind option_bind].
  destruct (find_map (crossing_of lanes root) (project_modules modules)) as [e|] eqn:Ef.
  - apply find_map_Some in Ef as (l1 & m & l2 & Hm & Hc & _). apply find_map_Some in Hc as (d1 & d & d2 & Hd & Hc & _).
    destruct (lanes !! d) as [l|] eqn:El; [|done]. destruct (invalid_crossing _ l) eqn:Ei; [|done]. injection Hc as <-.
    split; [|by eauto]. intros _. exists m, d, l. rewrite Hm, Hd. split_and!; [set_solver|set_solver|done|done].
  - split.
    + intros (a & b & x & y & H). by destruct (encode _).
    + intros (m & d & l & Hm & Hd & Hdl & Hi). exfalso.
      apply find_map_None in Ef. rewrite Forall_forall in Ef. specialize (Ef m Hm). apply find_map_None in Ef.
      rewrite Forall_forall in Ef. specialize (Ef d Hd). cbn beta in Ef. by rewrite Hdl, Hi in Ef.
Qed.
End manifest_lemmas.

Lemma client_closure_witness :
  build_reference_manifest id (fun _ => inl "") demo_modules (path_new "/app") =
    Some (inl (mkReferences REFERENCE_MANIFEST_CONTRACT 1 ""
      [mkReference "m_client.ts" "client.ts" Client ["m_util.ts"]; mkReference "m_util.ts" "util.ts" Client []])) /\
  declared_lanes demo_modules !! path_new "/app/client.ts" = Some Client /\
  (declared_lanes demo_modules !! path_new "/app/util.ts" = Some Client \/
   declared_lanes demo_modules !! path_new "/app/util.ts" = Some Shared).
Proof.
  assert (build_reference_manifest id (fun _ => inl "") demo_modules (path_new "/app") =
    Some (inl (mkReferences REFERENCE_MANIFEST_CONTRACT 1 ""
      [mkReference "m_client.ts" "client.ts" Client ["m_util.ts"]; mkReference "m_util.ts" "util.ts" Client []]))) as Hb
    by (vm_compute; reflexivity).
  assert (declared_lanes demo_modules !! path_new "/app/client.ts" = Some Client) as Hc by (vm_compute; reflexivity).
  split; [exact Hb|]. split; [exact Hc|].
  refine (proj1 (client_closure_has_no_server_module id (fun _ => inl "") _ _ _ _ (path_new "/app/util.ts") Hb Hc _)).
  apply rtc_once. exists demo_client. split; [vm_compute; reflexivity|]. split; [reflexivity|]. split; [left|].
  exists Shared. vm_compute. reflexivity.
Defined.
