(* ===== verification/Manifest.v ===== *)
(** The route manifest: the data every other part of the program reads
    (crates/ruvyxa_graph/src/manifest.rs), the project-wide rendering defaults
    (render.rs) and the cache policy of a rendered document (cache_policy.rs).

    [serde_json::Value] is modelled as a JSON tree whose numbers keep their
    literal text; [RouteParams] is a [BTreeMap], so a finite map whose
    iteration order is the key order. *)
From S2P Require Import Prelude RustStr.

(** ** Definitions *)

(** A JSON value, as [serde_json::Value] holds it. *)
Inductive Value :=
  | VNull
  | VBool (b : bool)
  | VNumber (literal : string)
  | VString (s : string)
  | VArray (items : list Value)
  | VObject (fields : list (string * Value)).

(** [pub type RouteParams = BTreeMap<String, serde_json::Value>] *)
Abbreviation RouteParams := (gmap string Value).

Inductive RouteKind := Page | Api.

Inductive RuntimeTarget := RNode | REdge | RStatic.

Inductive RenderStrategy := Ssr | Ssg | Isr | Csr | Ppr.

Inductive HydrationMode := HLoad | HIdle | HVisible | HNone.

#[export] Instance RouteKind_eq_dec : EqDecision RouteKind.
Proof. solve_decision. Defined.
#[export] Instance RuntimeTarget_eq_dec : EqDecision RuntimeTarget.
Proof. solve_decision. Defined.
#[export] Instance RenderStrategy_eq_dec : EqDecision RenderStrategy.
Proof. solve_decision. Defined.
#[export] Instance HydrationMode_eq_dec : EqDecision HydrationMode.
Proof. solve_decision. Defined.

Record RenderMeta := mkRenderMeta {
  strategy : RenderStrategy;
  revalidate : option N;
  has_static_params : bool;
  static_paths : list string;
  has_dynamic_slots : bool;
  hydration : HydrationMode;
  server_components : bool;
  force_dynamic : bool;
}.

(** [impl Default for RenderMeta] *)
Definition default_render_meta : RenderMeta := {|
  strategy := Ssr;
  revalidate := None;
  has_static_params := false;
  static_paths := [];
  has_dynamic_slots := false;
  hydration := HLoad;
  server_components := false;
  force_dynamic := false;
|}.

(** [RenderMeta::ships_client_bundle] *)
Definition ships_client_bundle (m : RenderMeta) : bool :=
  negb (bool_decide (hydration m = HNone)).

Record RouteIntercept := mkRouteIntercept {
  intercept_level : string;
  intercept_name : string;
  intercept_target : string;
  intercept_marker : string;
  intercept_file : string;
}.

Record RouteSlot := mkRouteSlot {
  slot_level : string;
  slot_name : string;
  slot_file : string;
}.

Record I18nRouting := mkI18nRouting {
  locales : list string;
  default_locale : string;
  locale_param : string;
  detect_locale : bool;
  cookie : string;
}.

Record RouteEntry := mkRouteEntry {
  route_id : string;
  route_path : string;
  route_kind : RouteKind;
  route_file : string;
  layout_chain : list string;
  template_chain : list string;
  slots : list RouteSlot;
  intercepts : list RouteIntercept;
  server_modules : list string;
  client_modules : list string;
  runtime : RuntimeTarget;
  render : RenderMeta;
}.

Record RouteManifest := mkRouteManifest {
  app_dir : string;
  routes : list RouteEntry;
  manifest_i18n : option I18nRouting;
}.

(** A page or API entry with nothing but an id, a path and a file, for witnesses. *)
Definition bare_route (id path : string) (kind : RouteKind) (file : string) : RouteEntry := {|
  route_id := id; route_path := path; route_kind := kind; route_file := file;
  layout_chain := []; template_chain := []; slots := []; intercepts := [];
  server_modules := []; client_modules := []; runtime := RNode;
  render := default_render_meta;
|}.

Definition set_strategy (s : RenderStrategy) (r : option N) (m : RenderMeta) : RenderMeta := {|
  strategy := s;
  revalidate := r;
  has_static_params := has_static_params m;
  static_paths := static_paths m;
  has_dynamic_slots := has_dynamic_slots m;
  hydration := hydration m;
  server_components := server_components m;
  force_dynamic := force_dynamic m;
|}.

(** [render::apply_rendering_defaults] *)
Definition apply_rendering_defaults
    (m : RenderMeta) (default_strategy : option RenderStrategy)
    (default_revalidate : option N) : RenderMeta :=
  if negb (bool_decide (strategy m = Ssr)) then m
  else match default_strategy with
       | None => m
       | Some s =>
           if bool_decide (s = Isr)
           then set_strategy s (Some (default 60%N default_revalidate)) m
           else set_strategy s (revalidate m) m
       end.

(** *** cache_policy.rs *)

Definition DOCUMENT_CACHE_CONTROL : string := "public, max-age=0, must-revalidate".
Definition DEFAULT_REVALIDATE_SECONDS : N := 60.
Definition ISR_EXPIRE_SECONDS : N := 31536000.

(** [isr_window] *)
Definition isr_window (rv : option N) : N := default DEFAULT_REVALIDATE_SECONDS rv.

(** Decimal digits of a number, as [Display] prints them. *)
Fixpoint dec_digits (fuel : nat) (n : N) (acc : string) : string :=
  let acc' := String (ascii_of_nat (48 + N.to_nat (n mod 10))) acc in
  match fuel with
  | O => acc'
  | S fuel' => if (n / 10 =? 0)%N then acc' else dec_digits fuel' (n / 10) acc'
  end.

Definition show_N (n : N) : string := dec_digits (N.to_nat (N.log2 n)) n "".

(** [document_cache_control] *)
Definition document_cache_control (s : RenderStrategy) (rv : option N) : string :=
  match s with
  | Isr =>
      let w := isr_window rv in
      "public, max-age=0, s-maxage=" +:+ show_N w +:+ ", stale-while-revalidate="
        +:+ show_N (ISR_EXPIRE_SECONDS - w)
  | Ssg | Csr => DOCUMENT_CACHE_CONTROL
  | Ssr | Ppr => "no-store"
  end.

Definition DOCUMENT_VALIDATOR_STRATEGIES : list RenderStrategy := [Ssg; Csr; Isr].

(** [document_has_validator] *)
Definition document_has_validator (s : RenderStrategy) : bool :=
  bool_decide (s ∈ DOCUMENT_VALIDATOR_STRATEGIES).

(** ** Lemmas *)

Lemma strategy_set s r m : strategy (set_strategy s r m) = s.
Proof. done. Qed.

Lemma apply_defaults_ssr m s r :
  strategy m = Ssr ->
  strategy (apply_rendering_defaults m (Some s) r) = s /\
  force_dynamic (apply_rendering_defaults m (Some s) r) = force_dynamic m.
Proof.
  intros H. unfold apply_rendering_defaults. rewrite H. simpl.
  by destruct (bool_decide (s = Isr)).
Qed.

(** ** Properties *)

(** A project-wide default reaches pages that asked never to be
    pre-rendered.  A page with [export const dynamic = 'force-dynamic'] is
    detected as [Ssr] with [force_dynamic] set; under a project default of
    [ssg] or [isr], [apply_rendering_defaults] makes it a pre-rendered route
    all the same, with its [force_dynamic] flag still up, a document validator
    and a [Cache-Control] that lets shared caches store it, while without the
    default it is [no-store]. *)
Theorem force_dynamic_overridden_by_default : forall m rv s,
  strategy m = Ssr -> force_dynamic m = true -> s = Ssg \/ s = Isr ->
  document_cache_control (strategy (apply_rendering_defaults m None rv))
    (revalidate (apply_rendering_defaults m None rv)) = "no-store" /\
  let m' := apply_rendering_defaults m (Some s) rv in
  strategy m' = s /\ force_dynamic m' = true /\ document_has_validator (strategy m') = true /\
  starts_with "public" (document_cache_control (strategy m') (revalidate m')) = true.
Proof.
  intros m rv s Hm Hf Hs. split.
  - unfold apply_rendering_defaults. rewrite Hm. simpl. by rewrite Hm.
  - cbv zeta. destruct (apply_defaults_ssr m s rv Hm) as [-> ->].
    split_and!; [done|done|by destruct Hs as [-> | ->]|by destruct Hs as [-> | ->]].
Qed.

Lemma force_dynamic_witness :
  let m := {| strategy := Ssr; revalidate := None; has_static_params := false; static_paths := [];
              has_dynamic_slots := false; hydration := HLoad; server_components := false;
              force_dynamic := true |} in
  strategy (apply_rendering_defaults m (Some Ssg) None) = Ssg.
Proof.
  intros m.
  exact (proj1 (proj2 (force_dynamic_overridden_by_default m None Ssg eq_refl eq_refl (or_introl eq_refl)))).
Defined.

(** ** Numbers as text *)

#[local] Ltac Zify.zify_post_hook ::= Z.to_euclidean_division_equations.
Lemma digit_byte d : (d < 10)%N -> is_digit (ascii_of_nat (48 + N.to_nat d)) = true /\ (N_of_ascii (ascii_of_nat (48 + N.to_nat d)) - 48 = d)%N.
Proof.
  intros Hd. unfold is_digit, nat_of_ascii, ascii_of_nat. rewrite N_ascii_embedding by lia. split; [|lia].
  rewrite andb_true_iff, !Nat.leb_le. lia.
Qed.

Lemma dec_digits_head fuel : forall n s, exists d rest, dec_digits fuel n s = String d rest /\ is_digit d = true.
Proof.
  induction fuel as [|fuel IH]; intros n s; cbn [dec_digits].
  - do 2 eexists. split; [done|]. apply digit_byte. by apply N.mod_lt.
  - destruct (n / 10 =? 0)%N; [|apply IH]. do 2 eexists. split; [done|]. apply digit_byte. by apply N.mod_lt.
Qed.

Lemma parse_dec_digits max fuel : forall n s, (n < 2 ^ N.of_nat (S fuel))%N -> (n <= max)%N ->
  parse_digits max (dec_digits fuel n s) 0 = parse_digits max s n.
Proof.
  assert (forall n s, (n <= max)%N -> parse_digits max (String (ascii_of_nat (48 + N.to_nat (n mod 10))) s) (n / 10) = parse_digits max s n) as Hone.
  { intros n s Hn. cbn [parse_digits]. destruct (digit_byte (n mod 10)) as [H1 H2]; [by apply N.mod_lt|]. rewrite H1, H2.
    replace (n / 10 * 10 + n mod 10)%N with n by lia. by destruct (N.leb_spec n max); [|lia]. }
  induction fuel as [|fuel IH]; intros n s Hn Hm; cbn [dec_digits].
  - change (2 ^ N.of_nat 1)%N with 2%N in Hn. rewrite <- (Hone n s Hm). replace (n / 10)%N with 0%N by lia. done.
  - destruct (N.eqb_spec (n / 10) 0) as [E|E]; [rewrite <- (Hone n s Hm); by rewrite E|].
    rewrite IH; [by apply Hone| |lia]. rewrite Nat2N.inj_succ, N.pow_succ_r' in Hn. lia.
Qed.

(** The text of a number parses to it. *)
Lemma parse_show_N max n : (n <= max)%N -> parse_uint max (show_N n) = Some n.
Proof.
  intros Hn. unfold parse_uint. destruct (dec_digits_head (N.to_nat (N.log2 n)) n "") as (d & rest & Hd & Hdig).
  assert (strip_prefix "+" (show_N n) = None) as ->.
  { unfold show_N. rewrite Hd. cbn [strip_prefix]. destruct (Ascii.eqb_spec "+" d) as [<-|]; [done|]. done. }
  cbn [default]. assert (is_empty_str (show_N n) = false) as -> by (unfold show_N; by rewrite Hd).
  unfold show_N. rewrite parse_dec_digits; [done| |done]. rewrite Nat2N.inj_succ, N2Nat.id.
  destruct (N.eq_dec n 0) as [->|Hz]; [done|]. apply N.log2_spec. lia.
Qed.

Lemma show_N_inj m n : show_N m = show_N n -> m = n.
Proof.
  intros H. assert (parse_uint (N.max m n) (show_N m) = Some m) as Hm by (apply parse_show_N; lia).
  rewrite H, parse_show_N in Hm by lia. congruence.
Qed.
