(* ===== verification/Diagnostics.v ===== *)
(** Framework diagnostics (crates/ruvyxa_diagnostics/src/lib.rs): the value the
    validators refuse with, its text form, and the rule that a relayed message
    never carries two codes. *)
From S2P Require Import Prelude RustStr Manifest.

(** ** Definitions *)

Record SourceSpan := mkSourceSpan {
  span_file : string;
  span_line : option N;
  span_column : option N;
}.

Record Diagnostic := mkDiagnostic {
  diag_code : string;
  diag_title : string;
  explanation : string;
  span : option SourceSpan;
  import_chain : list string;
  suggested_fix : option string;
  affected_routes : list string;
}.

(** [RuvyxaError] *)
Inductive RuvyxaError :=
  | EDiagnostic (d : Diagnostic)
  | EIo (message : string)
  | EMessage (message : string).

(** [Diagnostic::new] *)
Definition diagnostic (code title : string) : Diagnostic :=
  mkDiagnostic code title "" None [] None [].

(** [Diagnostic::explain] *)
Definition explain (e : string) (d : Diagnostic) : Diagnostic :=
  mkDiagnostic (diag_code d) (diag_title d) e (span d) (import_chain d) (suggested_fix d) (affected_routes d).

(** [Diagnostic::at_file] *)
Definition at_file (f : string) (d : Diagnostic) : Diagnostic :=
  mkDiagnostic (diag_code d) (diag_title d) (explanation d) (Some (mkSourceSpan f None None))
    (import_chain d) (suggested_fix d) (affected_routes d).

(** [Diagnostic::at_file_with_span] *)
Definition at_file_with_span (f : string) (line column : N) (d : Diagnostic) : Diagnostic :=
  mkDiagnostic (diag_code d) (diag_title d) (explanation d)
    (Some (mkSourceSpan f (Some line) (Some column)))
    (import_chain d) (suggested_fix d) (affected_routes d).

(** [Diagnostic::suggest] *)
Definition suggest (fix_text : string) (d : Diagnostic) : Diagnostic :=
  mkDiagnostic (diag_code d) (diag_title d) (explanation d) (span d) (import_chain d)
    (Some fix_text) (affected_routes d).

(** [diagnostic.affected_routes = ids] *)
Definition with_affected (ids : list string) (d : Diagnostic) : Diagnostic :=
  mkDiagnostic (diag_code d) (diag_title d) (explanation d) (span d) (import_chain d)
    (suggested_fix d) ids.

Definition nl : string := String (ascii_of_nat 10) "".

(** [impl fmt::Display for Diagnostic] *)
Definition show_diagnostic (d : Diagnostic) : string :=
  diag_code d +:+ ": " +:+ diag_title d +:+ nl +:+
  match span d with
  | None => ""
  | Some sp =>
      match span_line sp, span_column sp with
      | Some line, Some col => "File: " +:+ span_file sp +:+ ":" +:+ show_N line +:+ ":" +:+ show_N col +:+ nl
      | Some line, None => "File: " +:+ span_file sp +:+ ":" +:+ show_N line +:+ nl
      | _, _ => "File: " +:+ span_file sp +:+ nl
      end
  end +:+
  (if is_empty_str (explanation d) then "" else nl +:+ "Why:" +:+ nl +:+ "  " +:+ explanation d +:+ nl) +:+
  match suggested_fix d with
  | None => ""
  | Some fix_text => nl +:+ "Fix:" +:+ nl +:+ "  " +:+ fix_text +:+ nl
  end +:+
  (match affected_routes d with
   | [] => ""
   | ids => nl +:+ "Affected routes:" +:+ nl +:+ "  " +:+ join (nl +:+ "  ") ids +:+ nl
   end).

(** [starts_with_diagnostic_code] *)
Definition starts_with_diagnostic_code (message : string) : bool :=
  match strip_prefix "RUV" message with
  | Some (String d1 (String d2 (String d3 (String d4 rest)))) =>
      is_digit d1 && is_digit d2 && is_digit d3 && is_digit d4 &&
      match rest with
      | "" => true
      | String c _ => Ascii.eqb c " "%char || Ascii.eqb c ":"%char
      end
  | _ => false
  end.

(** [label_with_code] *)
Definition label_with_code (code message : string) : string :=
  if starts_with_diagnostic_code message then message else code +:+ " " +:+ message.

(** [worker_failure_message] *)
Definition worker_failure_message (message : option string) : string :=
  default ("the worker reported a failure without sending a message; "
    +:+ "re-run with RUST_LOG=debug to see the output it wrote to stderr") message.

(** ** Lemmas *)

Lemma code_then_space_starts code rest :
  starts_with_diagnostic_code code = true -> String.length code = 7%nat ->
  starts_with_diagnostic_code (code +:+ " " +:+ rest) = true.
Proof.
  unfold starts_with_diagnostic_code. intros H Hlen.
  destruct (strip_prefix "RUV" code) as [body|] eqn:E; [|done].
  apply strip_prefix_Some in E as ->. rewrite sapp_assoc, strip_prefix_app.
  by destruct body as [|d1 [|d2 [|d3 [|d4 [|c r]]]]].
Qed.
