(* ===== verification/RenderDetect.v ===== *)
(** What a route file exports about its own rendering: reading one
    [export const] off masked text (crates/ruvyxa_graph/src/exports.rs) and the
    strategy, hydration and runtime it chooses (render.rs).

    A source and its mask are byte lists of the same length.  An outer [None]
    is a panic: a slice that would cut a character.  [wide_alphanumeric] stands
    for [char::is_alphanumeric] outside ASCII.  The file system is outside:
    each function gets the text it reads. *)
From S2P Require Import Prelude RustStr Utf8 Text JsScanner ModuleAst References Diagnostics Manifest.

(** ** Definitions *)

(** *** Reading an export *)

(** [quoted_literal_end] *)
Definition quoted_literal_end (tail : list ascii) : option nat :=
  start ← position (fun b => negb (is_ascii_whitespace b)) tail;
  quote ← tail !! start;
  if one_of [squote; dquote; "`"%char] quote then S <$> closing_quote quote (drop (S start) tail) (S start) else None.

(** [assignment_offset]: [prev] is the byte before. *)
Fixpoint assignment_from (prev : option ascii) (l : list ascii) (depth : Z) (index : nat) : option nat :=
  match l with
  | [] => None
  | b :: rest =>
      if one_of ["("; "["; "{"]%char b then assignment_from (Some b) rest (depth + 1) (S index)
      else if one_of [")"; "]"; "}"]%char b then assignment_from (Some b) rest (depth - 1) (S index)
      else if byte_is "=" b && (depth =? 0)%Z then
        if match rest with c :: _ => one_of ["="; ">"]%char c | [] => false end
           || match prev with Some c => one_of ["="; "!"; "<"; ">"]%char c | None => false end
        then assignment_from (Some b) rest depth (S index)
        else Some index
      else assignment_from (Some b) rest depth (S index)
  end.
Definition assignment_offset (after : list ascii) : option nat := assignment_from None after 0 0.

Section exports.
Variable wide_alphanumeric : N -> bool.

(** The next character continues the export's name. *)
Definition name_goes_on (after : list ascii) : bool :=
  match split_char1 after with
  | Some ([b], _) => is_alnum b || one_of ["_"; "$"]%char b
  | Some (c, _) => wide_alphanumeric (code_point c)
  | None => false
  end.

(** One turn of the loop of [export_const_value]: [None] is a panic, [Some None]
    goes on to the next line, [Some (Some r)] returns [r]. *)
Definition export_on_line (source prefix line : list ascii) (line_start : nat) : option (option (option (list ascii))) :=
  let indent := length line - length (trim_start line) in
  if starts_with_bytes prefix (drop indent line) then
    let after := drop (indent + length prefix) line in
    if name_goes_on after then Some None
    else
      match assignment_offset after with
      | None => Some None
      | Some equals =>
          let value_start := indent + length prefix + equals + 1 in
          let masked_tail := drop value_start line in
          raw_tail ← slice_text source (line_start + value_start) (line_start + length line);
          let last :=
            match trim_text masked_tail with
            | [] => quoted_literal_end raw_tail
            | _ => Some (length (trim_end masked_tail))
            end in
          Some (Some (e ← last;
                      value ← slice_text raw_tail 0 e;
                      match trim_text value with [] => None | v => Some v end))
      end
  else Some None.

(** The loop over the lines of the mask; [line_start] adds up their lengths and
    one byte each. *)
Fixpoint export_value_loop (source prefix : list ascii) (mask_lines : list (list ascii)) (line_start : nat)
    : option (option (list ascii)) :=
  match mask_lines with
  | [] => Some None
  | line :: rest =>
      answer ← export_on_line source prefix line line_start;
      match answer with
      | Some r => Some r
      | None => export_value_loop source prefix rest (line_start + length line + 1)
      end
  end.

(** [export_const_value] *)
Definition export_const_value (source masked : list ascii) (name : string) : option (option (list ascii)) :=
  export_value_loop source (bytes_of ("export const " +:+ name)) (lines masked) 0.

(** [value.trim_end_matches(';').trim()] *)
Definition trim_statement (value : list ascii) : list ascii := trim_text (trim_end_matches (byte_is ";") value).

(** [has_export_const_bool] *)
Definition has_export_const_bool (source masked : list ascii) (name : string) (expected : bool) : option bool :=
  value ← export_const_value source masked name;
  Some match value with
       | Some v => bool_decide (trim_statement v = bytes_of (if expected then "true" else "false"))
       | None => false
       end.

(** [parse_export_const_number] *)
Definition parse_export_const_number (source masked : list ascii) (name : string) : option (option N) :=
  value ← export_const_value source masked name; Some (v ← value; parse_u64 (trim_statement v)).

(** [has_export_function] *)
Definition has_export_function (code : list ascii) (name : string) : bool :=
  existsb (fun line =>
    let trimmed := trim_text line in
    existsb (fun pattern =>
      match strip_bytes (pattern +:+ name) trimmed with
      | Some rest =>
          match rest with
          | [] => true
          | b :: _ =>
              one_of ["("; "<"; ":"; "="]%char b
              || match split_char1 rest with Some (c, _) => is_char_whitespace (code_point c) | None => false end
          end
      | None => false
      end) ["export function "; "export async function "; "export const "]) (lines code).

Definition STATIC_PARAMS_EXPORTS : list string := ["getStaticParams"; "staticParams"; "generateStaticParams"].

(** [has_static_params_export] *)
Definition has_static_params_export (code : list ascii) : bool := existsb (has_export_function code) STATIC_PARAMS_EXPORTS.

(** *** Rendering *)

Definition is_plain_quote (b : ascii) : bool := one_of [squote; dquote] b.

(** A value with its quotes off, for comparison with a word. *)
Definition unquoted (v : list ascii) : string := text_of (trim_matches is_plain_quote v).

(** [value.strip_suffix("as const").unwrap_or(value).trim()] *)
Definition strip_as_const (v : list ascii) : list ascii := trim_text (default v (strip_suffix_bytes "as const" v)).

(** [parse_hydration_mode] *)
Definition parse_hydration_mode (source masked : list ascii) : option HydrationMode :=
  value ← export_const_value source masked "hydrate";
  Some match value with
       | None => HLoad
       | Some v =>
           let word := unquoted (strip_as_const (trim_statement v)) in
           if existsb (String.eqb word) ["false"; "none"] then HNone
           else if String.eqb word "idle" then HIdle
           else if String.eqb word "visible" then HVisible
           else HLoad
       end.

(** [route_has_dynamic_segments] *)
Definition route_has_dynamic_segments (route_path : string) : bool :=
  existsb (fun segment => starts_with "[" segment && ends_with "]" segment) (split_char "/"%char route_path).

(** [contains_marker_identifier]; [before] is the byte before [code].  The next
    match is looked for after the whole marker. *)
Fixpoint marker_from (fuel : nat) (marker : list ascii) (before : option ascii) (code : list ascii) : bool :=
  match fuel, find_bytes marker code with
  | S fuel, Some n =>
      let prev := match n with O => before | S m => code !! m end in
      if match prev with Some b => is_ident_continue_byte b | None => false end
      then marker_from fuel marker (last marker) (drop (n + length marker) code)
      else true
  | _, _ => false
  end.
Definition contains_marker_identifier (code : list ascii) (marker : string) : bool :=
  marker_from (length code) (bytes_of marker) None code.

Definition MARKERS : list string :=
  ["fetch("; "headers("; "cookies("; "searchParams"; "Date.now("; "Math.random("; "process.env."].

(** [has_dynamic_data_markers] *)
Definition has_dynamic_data_markers (code : list ascii) : bool := existsb (contains_marker_identifier code) MARKERS.

Definition with_hydration (s : RenderStrategy) (r : option N) (static_params slots force : bool) (h : HydrationMode) : RenderMeta :=
  {| strategy := s; revalidate := r; has_static_params := static_params; static_paths := []; has_dynamic_slots := slots;
     hydration := h; server_components := false; force_dynamic := force |}.

(** [detect_render_meta], given the page's [source], its mask [code], and the
    code its graph reaches. *)
Definition detect_render_meta (source code : list ascii) (route_path : string) (reachable_code : option (list ascii))
    : option RenderMeta :=
  if has_module_directive source "use client" then Some (with_hydration Csr None false false false HLoad)
  else
    h ← parse_hydration_mode source code;
    dynamic ← export_const_value source code "dynamic";
    let dynamic := (fun v => unquoted (trim_statement v)) <$> dynamic in
    if bool_decide (dynamic = Some "force-dynamic") then Some (with_hydration Ssr None false false true h)
    else if bool_decide (dynamic = Some "force-static") || bool_decide (dynamic = Some "error") then
      Some (with_hydration Ssg None (has_static_params_export code) false false h)
    else
      ppr ← has_export_const_bool source code "ppr" true;
      if ppr : bool then Some (with_hydration Ppr None false true false h)
      else
        seconds ← parse_export_const_number source code "revalidate";
        match seconds with
        | Some n => Some (with_hydration Isr (Some n) (has_static_params_export code) false false h)
        | None =>
            if has_static_params_export code then Some (with_hydration Ssg None true false false h)
            else if negb (route_has_dynamic_segments route_path)
                    && match reachable_code with Some c => negb (has_dynamic_data_markers c) | None => false end
            then Some (with_hydration Ssg None false false false h)
            else Some (with_hydration Ssr None false false false h)
        end.

(** [opts_into_server_components], for a page that could be read. *)
Definition opts_into_server_components (source code : list ascii) : option bool :=
  has_export_const_bool source code "serverComponents" true.

Definition EDGE_UNAVAILABLE_BUILTINS : list string :=
  ["child_process"; "cluster"; "dgram"; "dns"; "fs"; "http2"; "inspector"; "module"; "net"; "os"; "readline"; "repl";
   "tls"; "trace_events"; "tty"; "v8"; "vm"; "wasi"; "worker_threads"].

(** [edge_forbidden_builtin] *)
Definition edge_forbidden_builtin (specifier : string) : option string :=
  let bare := default specifier (strip_prefix "node:" specifier) in
  let head := default bare (head (split_char "/"%char bare)) in
  find (String.eqb head) EDGE_UNAVAILABLE_BUILTINS.

(** [runtime_target_from_value] *)
Definition runtime_target_from_value (raw : list ascii) : option RuntimeTarget :=
  let word := text_of (trim_matches (one_of [squote; dquote; "`"%char]) (strip_as_const (trim_statement raw))) in
  if String.eqb word "edge" then Some REdge
  else if existsb (String.eqb word) ["nodejs"; "node"] then Some RNode
  else None.

(** [detect_runtime_target], for a file that could be read. *)
Definition detect_runtime_target (file : string) (source masked : list ascii) : option (RuntimeTarget + Diagnostic) :=
  value ← export_const_value source masked "runtime";
  Some match value with
       | None => inl RNode
       | Some raw =>
           match runtime_target_from_value raw with
           | Some target => inl target
           | None => inr
               (suggest "Use `export const runtime = 'edge'` to run this route on a Web-standards runtime, or remove the export to keep the Node default."
                 (at_file file (explain ("`export const runtime = " +:+ text_of (trim_text raw) +:+
                   "` names a runtime this framework does not have. The choices are `'edge'` and `'nodejs'`.")
                   (diagnostic "RUV1012" "Unknown route runtime"))))
           end
       end.
End exports.

(** ** Specification *)

(** [line] is a whole line of [text], at offset [start]. *)
Definition is_line (text : list ascii) (start : nat) (line : list ascii) : Prop :=
  take (length line) (drop start text) = line /\ start + length line <= length text /\
  (start = 0 \/ text !! (start - 1) = Some newline) /\
  (start + length line = length text \/ text !! (start + length line) = Some newline).

(** The value [v] is the source text that follows the assignment of an
    [export const] statement the mask shows on one of its lines. *)
Definition declared_on_line (source masked : list ascii) (name : string) (v : list ascii) : Prop :=
  exists start line indent equals e,
    let prefix := bytes_of ("export const " +:+ name) in
    is_line masked start line /\
    starts_with_bytes prefix (drop indent line) = true /\
    assignment_offset (drop (indent + length prefix) line) = Some equals /\
    let value_start := indent + length prefix + equals + 1 in
    value_start + e <= length line /\ v = trim_text (take e (drop (start + value_start) source)) /\ v <> [].

Definition crlf : string := String "013" (String "010" "").
Definition lf : string := String "010" "".

(** Two statements with the given line ends. *)
Definition two_lines (eol : string) : list ascii :=
  bytes_of ("export const title = 'a';" +:+ eol +:+ "export const hydrate = false;" +:+ eol).
Definition commented (eol : string) : list ascii :=
  bytes_of ("import './a';" +:+ eol +:+ "import './b';" +:+ eol +:+ "export const revalidate = 60 // é" +:+ eol).

(** ** Properties *)

Lemma assignment_from_spec prev l : forall depth index k,
  assignment_from prev l depth index = Some k -> index <= k /\ l !! (k - index) = Some "="%char.
Proof.
  revert prev. induction l as [|b l IH]; intros prev depth index k; cbn [assignment_from]; [done|].
  assert (forall d, assignment_from (Some b) l d (S index) = Some k -> index <= k /\ (b :: l) !! (k - index) = Some "="%char) as Hnext.
  { intros d [Hk Hl]%IH. split; [lia|]. by replace (k - index) with (S (k - S index)) by lia. }
  destruct (one_of _ b); [apply Hnext|]. destruct (one_of _ b); [apply Hnext|].
  destruct (byte_is "=" b && (depth =? 0)%Z) eqn:E; [|apply Hnext]. destruct (_ || _); [apply Hnext|].
  intros [= <-]. apply andb_true_iff in E as [->%byte_is_true _]. by rewrite Nat.sub_diag.
Qed.

Section reading.
Variable wide_alphanumeric : N -> bool.

(** One line of a mask without carriage returns. *)
Lemma export_on_line_spec source masked spans name start line :
  utf8 source -> length masked = length source -> (forall i, masked !! i = shown spans i <$> source !! i) ->
  is_line masked start line ->
  exists r, export_on_line wide_alphanumeric source (bytes_of ("export const " +:+ name)) line start = Some r /\
    forall v, r = Some (Some v) -> declared_on_line source masked name v.
Proof.
  intros Hu Hlen Hshown (Hline & Hle & Hstart & Hend). unfold export_on_line. set (prefix := bytes_of ("export const " +:+ name)).
  set (indent := length line - length (trim_start line)).
  destruct (starts_with_bytes prefix (drop indent line)) eqn:Hp; [|by exists None].
  destruct (name_goes_on _ _); [by exists None|].
  destruct (assignment_offset (drop (indent + length prefix) line)) as [equals|] eqn:He; [|by exists None].
  pose proof (assignment_from_spec _ _ _ _ _ He) as [_ Heq]. rewrite Nat.sub_0_r, lookup_drop in Heq.
  set (value_start := indent + length prefix + equals + 1).
  assert (value_start <= length line) as Hvs by (apply lookup_lt_Some in Heq; lia).
  assert (source !! (start + (indent + length prefix + equals)) = Some "="%char) as Hsrc.
  { rewrite <- Hline, lookup_take_lt, lookup_drop in Heq by lia. rewrite Hshown in Heq.
    apply fmap_Some in Heq as (b & Hb & Hsb). rewrite Hb. f_equal. by eapply shown_solid. }
  rewrite slice_text_Some; [|lia|..].
  - set (raw := take _ (drop (start + value_start) source)). cbn [mbind option_bind]. eexists. split; [done|]. intros v [= Hv].
    assert (length raw = length line - value_start) as Hraw.
    { unfold raw. rewrite length_take, length_drop. lia. }
    apply bind_Some in Hv as (e & He' & Hv). apply bind_Some in Hv as (value & Hval & Hv).
    assert (e <= length raw) as Hele.
    { unfold slice_text in Hval. destruct (_ && _ && _) eqn:Eb; [|done]. split_andb.
      unfold is_char_boundary in *. apply orb_true_iff in H0 as [H0|H0].
      - apply orb_true_iff in H0 as [H0|H0]; breflect; lia.
      - destruct (raw !! e) eqn:Ee; [|done]. apply lookup_lt_Some in Ee. lia. }
    apply slice_text_inv in Hval as ->. cbn [Nat.sub] in Hv. rewrite Nat.sub_0_r, drop_0 in Hv.
    exists start, line, indent, equals, e. cbv zeta. fold prefix. fold value_start. split_and!; try done; [lia|..].
    + destruct (trim_text (take e raw)) eqn:Et; [done|]. injection Hv as <-. rewrite <- Et. f_equal. unfold raw.
      rewrite take_take. f_equal. lia.
    + destruct (trim_text (take e raw)); [done|]. by injection Hv as <-.
  - apply boundary_at; [done|lia|]. do 3 right. exists "="%char. split; [|done]. rewrite <- Hsrc. f_equal. lia.
  - apply boundary_at; [done|lia|]. destruct Hend as [Hend|Hend]; [right; left; lia|]. right; right; left.
    rewrite Hshown in Hend. apply fmap_Some in Hend as (b & Hb & Hsb). symmetry in Hsb. apply shown_newline in Hsb as ->. by eexists.
Qed.

Lemma no_return line : "013"%char ∉ line -> chop_return line = line.
Proof.
  intros H. unfold chop_return. destruct (rev line) as [|b rest] eqn:E.
  - apply (f_equal (@rev ascii)) in E. by rewrite rev_involutive in E.
  - destruct (Ascii.eqb_spec b "013") as [->|]; [|done]. exfalso. apply H. rewrite <- (rev_involutive line), E.
    apply list_elem_of_In, in_rev. rewrite rev_involutive. by left.
Qed.

Lemma export_value_loop_spec source masked spans name l : forall before line,
  utf8 source -> length masked = length source -> (forall i, masked !! i = shown spans i <$> source !! i) ->
  masked = before ++ line ++ l -> "013"%char ∉ line ++ l -> newline ∉ line ->
  (before = [] \/ last before = Some newline) ->
  exists r, export_value_loop wide_alphanumeric source (bytes_of ("export const " +:+ name)) (lines_from line l) (length before) = Some r /\
    forall v, r = Some v -> declared_on_line source masked name v.
Proof.
  induction l as [|b l IH]; intros before line Hu Hlen Hshown Hm Hcr Hnl Hb.
  - cbn [lines_from]. destruct line as [|c line]; [by exists None|]. cbn [export_value_loop].
    destruct (export_on_line_spec source masked spans name (length before) (c :: line)) as (r & -> & Hr); [done..| |].
    { rewrite app_nil_r in Hm. unfold is_line. subst masked. rewrite drop_app_length, length_app. split_and!; [by rewrite firstn_all|lia| |by left].
      destruct Hb as [->|Hb]; [by left|]. right. rewrite last_lookup in Hb.
      destruct before as [|x before]; [done|]. rewrite lookup_app_l by (cbn; lia). rewrite <- Hb. f_equal. cbn. lia. }
    cbn [mbind option_bind]. destruct r as [r|]; [|by exists None]. exists r. split; [done|]. intros v ->. by apply Hr.
  - cbn [lines_from]. destruct (Ascii.eqb_spec b "010") as [->|Hne].
    + rewrite no_return by set_solver. cbn [export_value_loop].
      destruct (export_on_line_spec source masked spans name (length before) line) as (r & -> & Hr); [done..| |].
      { unfold is_line. subst masked. rewrite drop_app_length, !length_app. split_and!.
        - by rewrite take_app_length.
        - lia.
        - destruct Hb as [->|Hb]; [by left|]. right. rewrite last_lookup in Hb.
          destruct before as [|x before]; [done|]. rewrite lookup_app_l by (cbn; lia). rewrite <- Hb. f_equal. cbn. lia.
        - right. rewrite lookup_app_r by lia. rewrite lookup_app_r by lia.
          by replace (length before + length line - length before - length line) with 0 by lia. }
      cbn [mbind option_bind]. destruct r as [r|]; [exists r; split; [done|]; intros v ->; by apply Hr|].
      replace (length before + length line + 1) with (length (before ++ line ++ [newline])) by (rewrite !length_app; cbn; lia).
      apply (IH (before ++ line ++ [newline]) []); try done.
      * by rewrite Hm, <- !app_assoc.
      * set_solver.
      * set_solver.
      * right. by rewrite app_assoc, last_snoc.
    + apply (IH before (line ++ [b])); try done.
      * by rewrite Hm, <- !app_assoc.
      * by rewrite <- app_assoc.
      * intros [?|H%list_elem_of_singleton]%elem_of_app; [done|]. by apply Hne.
Qed.

(** Reading an export.  In a source without carriage returns, reading
    [export const name] never panics, and a value it answers is the text that
    follows the assignment of such a statement on one line the mask shows as
    code: never text of a comment, of a string or of another line. *)
Theorem lf_export_is_read_from_its_line source name :
  valid_utf8 source = true -> ("013"%char ∉ source) ->
  exists masked r, masked_code source = Some masked /\ export_const_value wide_alphanumeric source masked name = Some r /\
    forall v, r = Some v -> declared_on_line source masked name v.
Proof.
  intros Hu%valid_utf8_spec Hcr. destruct (masked_code_lookup source Hu) as (spans & masked & Hm & Hlen & Hshown).
  destruct (export_value_loop_spec source masked spans name masked [] []) as (r & Hr & Hv); try done.
  - intros H. apply Hcr. apply list_elem_of_lookup in H as [i Hi]. rewrite Hshown in Hi.
    apply fmap_Some in Hi as (b & Hb & Hs). symmetry in Hs. apply shown_solid in Hs as ->; [|done..]. by eapply list_elem_of_lookup_2.
  - set_solver.
  - by left.
  - exists masked, r. by split_and!.
Qed.

(** Carriage returns shift what is read.  A mask keeps the carriage return
    of a code line, [lines] drops it, and the loop counts one byte per line
    end: in a file with CRLF line ends, the second statement's value is taken
    from one byte too early, so [hydrate = false] ships the client bundle the
    page turned off, and a value line that ends in a longer character panics.
    With LF line ends both are read. *)
Theorem crlf_misreads_exports :
  (m ← masked_code (two_lines crlf); parse_hydration_mode wide_alphanumeric (two_lines crlf) m) = Some HLoad /\
  (m ← masked_code (two_lines lf); parse_hydration_mode wide_alphanumeric (two_lines lf) m) = Some HNone /\
  (exists m, masked_code (commented crlf) = Some m /\
    parse_export_const_number wide_alphanumeric (commented crlf) m "revalidate" = None) /\
  (exists m, masked_code (commented lf) = Some m /\
    parse_export_const_number wide_alphanumeric (commented lf) m "revalidate" = Some (Some 60%N)).
Proof.
  split; [vm_compute; reflexivity|]. split; [vm_compute; reflexivity|].
  split; eexists; (split; [vm_compute; reflexivity|vm_compute; reflexivity]).
Qed.
End reading.

Lemma lf_export_witness :
  valid_utf8 (two_lines lf) = true /\ ("013"%char ∉ two_lines lf) /\
  exists masked r, masked_code (two_lines lf) = Some masked /\
    export_const_value (fun _ => false) (two_lines lf) masked "hydrate" = Some r.
Proof.
  assert (valid_utf8 (two_lines lf) = true) as H1 by (vm_compute; reflexivity).
  assert ("013"%char ∉ two_lines lf) as H2 by (apply (bool_decide_unpack _); vm_compute; exact I).
  split; [exact H1|]. split; [exact H2|].
  destruct (lf_export_is_read_from_its_line (fun _ => false) (two_lines lf) "hydrate" H1 H2) as (masked & r & Hm & Hr & _).
  exists masked, r. split; [exact Hm|exact Hr].
Defined.

(** *** Markers *)

(** The byte before offset [k] of [code], itself preceded by [before]. *)
Definition byte_before (before : option ascii) (code : list ascii) (k : nat) : option ascii :=
  match k with O => before | S j => code !! j end.

Definition ends_identifier (b : option ascii) : bool := match b with Some b => is_ident_continue_byte b | None => false end.

(** Where a pattern can overlap itself, the byte before the overlap belongs to an identifier. *)
Definition overlaps_hidden (p : list ascii) : bool :=
  forallb (fun j => negb (bool_decide (take (length p - j) p = drop j p)) || ends_identifier (p !! (j - 1)))
    (seq 1 (length p - 1)).

Lemma overlap_hidden p (l : list ascii) n k :
  overlaps_hidden p = true -> take (length p) (drop n l) = p -> take (length p) (drop k l) = p -> n < k ->
  ends_identifier (l !! (k - 1)) = false -> n + length p <= k.
Proof.
  intros Hb Hn Hk Hlt Hend. destruct (decide (n + length p <= k)) as [|Hov]; [done|exfalso].
  unfold overlaps_hidden in Hb. rewrite forallb_forall in Hb.
  assert (In (k - n) (seq 1 (length p - 1))) as Hin by (apply in_seq; lia).
  specialize (Hb _ Hin). apply orb_true_iff in Hb as [Hb|Hb].
  - apply negb_true_iff, bool_decide_eq_false in Hb. apply Hb.
    rewrite <- Hk at 2. rewrite <- Hn at 3. rewrite take_take.
    replace ((length p - (k - n)) `min` length p) with (length p - (k - n)) by lia.
    rewrite skipn_firstn_comm, drop_drop. by replace (n + (k - n)) with k by lia.
  - assert (p !! (k - n - 1) = l !! (k - 1)) as Hl; [|by rewrite Hl, Hend in Hb].
    transitivity (take (length p) (drop n l) !! (k - n - 1)); [by rewrite Hn|].
    rewrite lookup_take_lt, lookup_drop by lia. f_equal. lia.
Qed.

(** The byte before what follows a match is the last byte of the marker. *)
Lemma last_of_match marker (code : list ascii) n : marker <> [] -> take (length marker) (drop n code) = marker ->
  last marker = byte_before None code (n + length marker).
Proof.
  intros Hne Hn. destruct marker as [|b marker]; [done|]. rewrite last_lookup, <- (f_equal (fun l => l !! pred (length (b :: marker))) Hn).
  rewrite lookup_take_lt, lookup_drop by (cbn; lia). unfold byte_before. cbn [length]. by rewrite Nat.add_succ_r.
Qed.

Lemma marker_from_complete marker fuel : forall before code k,
  overlaps_hidden marker = true -> marker <> [] -> length code <= fuel ->
  take (length marker) (drop k code) = marker -> ends_identifier (byte_before before code k) = false ->
  marker_from fuel marker before code = true.
Proof.
  induction fuel as [|fuel IH]; intros before code k Hb Hne Hf Hk Hprev.
  - destruct code as [|c code]; [|cbn in Hf; lia]. rewrite drop_nil, take_nil in Hk. by subst marker.
  - assert (length marker > 0) as Hpos by (destruct marker; [done|cbn; lia]).
    assert (k + length marker <= length code) as Hkl.
    { apply (f_equal length) in Hk. rewrite length_take, length_drop in Hk. lia. }
    cbn [marker_from]. destruct (find_bytes marker code) as [n|] eqn:En.
    2:{ exfalso. apply (find_bytes_None marker code k En); [lia|done]. }
    apply find_bytes_Some in En as [Hn Hfirst].
    assert (n <= k) as Hnk. { destruct (decide (n <= k)); [done|]. exfalso. apply (Hfirst k); [lia|done]. }
    change (match n with 0 => before | S m => code !! m end) with (byte_before before code n).
    fold (ends_identifier (byte_before before code n)). destruct (ends_identifier (byte_before before code n)) eqn:Ep; [|done].
    assert (n <> k) by (intros ->; congruence).
    assert (n + length marker <= k) as Hap.
    { apply (overlap_hidden marker code n k Hb Hn Hk); [lia|]. destruct k as [|k]; [lia|]. cbn [Nat.sub]. by rewrite Nat.sub_0_r. }
    apply (IH _ _ (k - (n + length marker))); [done|done|rewrite length_drop; lia|..].
    + rewrite drop_drop. by replace (n + length marker + (k - (n + length marker))) with k by lia.
    + rewrite <- Hprev. f_equal. unfold byte_before. destruct (k - (n + length marker)) as [|j] eqn:Ej.
      * rewrite (last_of_match marker code n Hne Hn). replace k with (n + length marker) by lia.
        by destruct (n + length marker) as [|j] eqn:E; [lia|].
      * rewrite lookup_drop. destruct k as [|k]; [lia|]. f_equal. lia.
Qed.

(** What the search accepts is an occurrence that starts no longer name. *)
Lemma marker_from_sound marker fuel : forall code prev, marker <> [] -> marker_from fuel marker prev code = true ->
  exists k, take (length marker) (drop k code) = marker /\ k + length marker <= length code /\
    ends_identifier (byte_before prev code k) = false.
Proof.
  induction fuel as [|fuel IH]; intros code prev Hne; cbn [marker_from]; [done|].
  assert (length marker > 0) as Hpos by (destruct marker; [done|cbn; lia]).
  destruct (find_bytes marker code) as [n|] eqn:En; [|done]. apply find_bytes_Some in En as [Hn _].
  assert (n + length marker <= length code) as Hnl.
  { apply (f_equal length) in Hn. rewrite length_take, length_drop in Hn. lia. }
  change (match n with 0 => prev | S m => code !! m end) with (byte_before prev code n).
  fold (ends_identifier (byte_before prev code n)). destruct (ends_identifier (byte_before prev code n)) eqn:Ep; [|by exists n].
  intros H. apply IH in H as (k & Hk & Hkl & Hp); [|done]. rewrite drop_drop in Hk. rewrite length_drop in Hkl.
  exists (n + length marker + k). split_and!; [done|lia|]. rewrite <- Hp. f_equal. unfold byte_before.
  destruct k as [|k].
  - rewrite Nat.add_0_r, (last_of_match marker code n Hne Hn). by destruct (n + length marker) as [|j] eqn:E; [lia|].
  - rewrite lookup_drop. replace (n + length marker + S k) with (S (n + length marker + k)) by lia. done.
Qed.

(** A marker is an occurrence no longer name ends in. *)
Lemma contains_marker_spec marker code : overlaps_hidden (bytes_of marker) = true -> bytes_of marker <> [] ->
  contains_marker_identifier code marker = true <->
  exists k, take (length (bytes_of marker)) (drop k code) = bytes_of marker /\ k + length (bytes_of marker) <= length code /\
    ends_identifier (byte_before None code k) = false.
Proof.
  intros Hb Hne. split; [by apply marker_from_sound|]. intros (k & Hk & _ & Hp). by eapply marker_from_complete.
Qed.

(** What each marker is: it overlaps itself only inside a name, and stays on a line. *)
Lemma markers_are_plain marker : marker ∈ MARKERS ->
  overlaps_hidden (bytes_of marker) = true /\ bytes_of marker <> [] /\ newline ∉ bytes_of marker.
Proof.
  intros Hm. assert (forallb (fun m => overlaps_hidden (bytes_of m) &&
    bool_decide (bytes_of m <> []) && bool_decide (newline ∉ bytes_of m)) MARKERS = true) as H by (vm_compute; reflexivity).
  rewrite forallb_forall in H. apply list_elem_of_In, H in Hm. rewrite !andb_true_iff, !bool_decide_eq_true in Hm. naive_solver.
Qed.

(** A line feed between two texts keeps their markers apart. *)
Lemma contains_marker_joined marker code more : marker ∈ MARKERS ->
  contains_marker_identifier (code ++ newline :: more) marker =
  contains_marker_identifier code marker || contains_marker_identifier more marker.
Proof.
  intros (Hb & Hne & Hnl)%markers_are_plain. apply eq_bool_prop_intro. rewrite !Is_true_true, orb_true_iff, !contains_marker_spec by done.
  set (m := bytes_of marker) in *. assert (length m > 0) as Hpos by (destruct m; [done|cbn; lia]). split.
  - intros (k & Hk & Hkl & Hp). rewrite length_app in Hkl. cbn in Hkl.
    destruct (decide (k + length m <= length code)) as [Hin|Hout]; [left|].
    { exists k. split_and!; [|done|].
      - rewrite drop_app_le, take_app_le in Hk; [done|rewrite ?length_drop; lia..].
      - rewrite <- Hp. f_equal. destruct k; [done|]. cbn. rewrite lookup_app_l; [done|lia]. }
    destruct (decide (k <= length code)) as [Hle|Hgt].
    { exfalso. apply Hnl. rewrite <- Hk. apply (list_elem_of_lookup_2 _ (length code - k)).
      rewrite lookup_take_lt, lookup_drop by lia. replace (k + (length code - k)) with (length code) by lia. by rewrite list_lookup_middle. }
    right. exists (k - length code - 1). split_and!; [|lia|].
    + rewrite drop_app_ge in Hk by lia. by replace (k - length code) with (S (k - length code - 1)) in Hk by lia.
    + rewrite <- Hp. destruct (k - length code - 1) as [|j] eqn:Ej; destruct k as [|k]; try lia; cbn.
      * replace k with (length code) by lia. by rewrite list_lookup_middle.
      * rewrite lookup_app_r by lia. by replace (k - length code) with (S j) by lia.
  - intros [(k & Hk & Hkl & Hp)|(k & Hk & Hkl & Hp)].
    + exists k. rewrite length_app. split_and!; [|lia|].
      * rewrite drop_app_le, take_app_le; [done|rewrite ?length_drop; lia..].
      * rewrite <- Hp. f_equal. destruct k; [done|]. cbn. rewrite lookup_app_l; [done|lia].
    + exists (length code + 1 + k). rewrite length_app. cbn [length]. split_and!; [|lia|].
      * rewrite drop_app_ge by lia. by replace (length code + 1 + k - length code) with (S k) by lia.
      * rewrite <- Hp. replace (length code + 1 + k) with (S (length code + k)) by lia. cbn.
        rewrite lookup_app_r by lia. replace (length code + k - length code) with k by lia. by destruct k.
Qed.

(** The files of a graph, each followed by a line feed, hold a marker when one of them does. *)
Lemma markers_joined code more :
  has_dynamic_data_markers (code ++ newline :: more) = has_dynamic_data_markers code || has_dynamic_data_markers more.
Proof.
  apply eq_bool_prop_intro. rewrite !Is_true_true, orb_true_iff. unfold has_dynamic_data_markers. rewrite !existsb_exists.
  setoid_rewrite <- list_elem_of_In. split.
  - intros (m & Hm & H). rewrite contains_marker_joined in H by done. apply orb_true_iff in H as [H|H]; [left|right]; by exists m.
  - intros [(m & Hm & H)|(m & Hm & H)]; exists m; (split; [done|]); rewrite contains_marker_joined by done; rewrite H; [done|apply orb_true_r].
Qed.
