(* ===== verification/ModuleGraph.v ===== *)
(** The module graph of the routes and its validation
    (crates/ruvyxa_graph/src/graph.rs and validate.rs, with the file-level half
    of render.rs and the environment policy of crates/ruvyxa_bundler/src/boundary.rs):
    the cache of what is read off each file, the graph a file reaches, the code a
    page's strategy depends on, and the rules [ruvyxa check] enforces.

    The file system and the resolver are parameters, one snapshot for a run:
    [read_to_string], [canonical_path] ([normalized_canonical_path]),
    [resolve_specifier], [resolve_alias] (the project's [tsconfig.json] paths,
    [None] without a project root), [mdx_provider], [resolve_layout] and
    [io_error].  A graph walk takes fuel; [None] is fuel run out or a panic. *)
From S2P Require Import Prelude Order Worklist RustStr Utf8 Text Paths JsScanner ModuleAst References Diagnostics Manifest RenderDetect.

(** ** Definitions *)

(** [env_read_is_private] *)
Definition env_read_is_private (name : string) : bool :=
  negb (String.eqb name "NODE_ENV") && negb (starts_with "RUVYXA_PUBLIC_" name).

(** [private_env_reads] *)
Definition private_env_reads (a : ModuleAst) : list string := filter (fun n => env_read_is_private n = true) (env_reads a).

(** [is_server_only_specifier] *)
Definition is_server_only_specifier (s : string) : bool :=
  existsb (String.eqb s) ["server-only"; "@ruvyxa/auth"; "@ruvyxa/database"].

(** [relative_starts_with_server] *)
Definition relative_starts_with_server (relative : list string) : bool := bool_decide (head relative = Some "server").

(** *** Markdown *)

(** [is_markdown_route] *)
Definition is_markdown_route (file : Path) : bool :=
  match file_name file ≫= extension with Some e => existsb (String.eqb e) ["md"; "mdx"] | None => false end.

(** [split_inclusive('\n')] *)
Fixpoint split_inclusive_from (line l : list ascii) : list (list ascii) :=
  match l with
  | [] => match line with [] => [] | _ => [line] end
  | b :: rest =>
      if byte_is newline b then (line ++ [b]) :: split_inclusive_from [] rest else split_inclusive_from (line ++ [b]) rest
  end.
Definition split_inclusive (l : list ascii) : list (list ascii) := split_inclusive_from [] l.

(** The fence a line opens or closes: its character and how many there are. *)
Definition fence_marker (line : list ascii) : option (ascii * nat) :=
  let trimmed := trim_start line in
  find_map (fun marker =>
    let length_ := span_length (byte_is marker) trimmed in
    if 3 <=? length_ then Some (marker, length_) else None) ["`"; "~"]%char.

(** A line outside fences: inline spans become one space per character. *)
Fixpoint blank_spans (in_span : bool) (line : list ascii) : list ascii :=
  match line with
  | [] => []
  | b :: rest =>
      if byte_is "`" b then " "%char :: blank_spans (negb in_span) rest
      else if in_span && negb (byte_is newline b) then
        (if is_continuation b then [] else [" "%char]) ++ blank_spans in_span rest
      else b :: blank_spans in_span rest
  end.

(** What one line leaves, and the fence after it. *)
Definition markdown_line (fence : option (ascii * nat)) (line : list ascii) : list ascii * option (ascii * nat) :=
  match fence, fence_marker line with
  | None, Some marker => ([newline], Some marker)
  | Some (open_char, open_len), Some (close_char, close_len) =>
      if Ascii.eqb close_char open_char && (open_len <=? close_len) then ([newline], None) else ([newline], fence)
  | Some _, None => ([newline], fence)
  | None, None => (blank_spans false line, None)
  end.

Fixpoint markdown_lines (fence : option (ascii * nat)) (ls : list (list ascii)) : list ascii :=
  match ls with
  | [] => []
  | line :: rest => let '(out, fence) := markdown_line fence line in out ++ markdown_lines fence rest
  end.

(** [markdown_without_code_examples] *)
Definition markdown_without_code_examples (source : list ascii) : list ascii := markdown_lines None (split_inclusive source).

(** *** The cache *)

Record ParsedModule := mkParsed { source : list ascii; ast : ModuleAst }.

Record ModuleCache := mkCache {
  canonical_memo : gmap Path Path;
  modules_memo : gmap Path (option ParsedModule);
  masked_memo : gmap Path (list ascii);
  edges_memo : gmap Path (list Path);
}.
Definition empty_cache : ModuleCache := mkCache ∅ ∅ ∅ ∅.

(** Scanning always answers ([text_spans_partition], [masked_code_shows_code]). *)
Definition scanned (text : list ascii) : ModuleAst := default empty_ast (parse_module text).
(** [code_without_strings_and_comments] *)
Definition code_without_strings_and_comments (text : list ascii) : list ascii := default [] (masked_code text).

(** [Path::parent] *)
Definition parent (p : Path) : option Path :=
  match comps p with [] => None | _ => Some (mkPath (absolute p) (take (length (comps p) - 1) (comps p))) end.

Section graph.
Variables (read_to_string : Path -> option (list ascii)) (canonical_path : Path -> Path)
  (resolve_specifier : Path -> string -> option Path) (resolve_alias : option (string -> option Path))
  (mdx_provider : Path -> option Path) (resolve_layout : string -> string -> option Path)
  (io_error : Path -> string) (wide_alphanumeric : N -> bool).

(** [ModuleCache::canonical] *)
Definition canonical (file : Path) (c : ModuleCache) : Path * ModuleCache :=
  match canonical_memo c !! file with
  | Some p => (p, c)
  | None =>
      let p := canonical_path file in
      (p, mkCache (<[file := p]> (canonical_memo c)) (modules_memo c) (masked_memo c) (edges_memo c))
  end.

(** Read and scan the file at a canonical path. *)
Definition load (key : Path) : option ParsedModule :=
  text ← read_to_string key;
  let text := if is_markdown_route key then markdown_without_code_examples text else text in
  Some (mkParsed text (scanned text)).

(** [ModuleCache::module] *)
Definition module (file : Path) (c : ModuleCache) : option ParsedModule * ModuleCache :=
  let '(key, c) := canonical file c in
  match modules_memo c !! key with
  | Some cached => (cached, c)
  | None =>
      let parsed := load key in
      (parsed, mkCache (canonical_memo c) (<[key := parsed]> (modules_memo c)) (masked_memo c) (edges_memo c))
  end.

(** [ModuleCache::require] *)
Definition require (file : Path) (c : ModuleCache) : (ParsedModule + RuvyxaError) * ModuleCache :=
  let '(m, c) := module file c in
  (match m with Some m => inl m | None => inr (EIo (io_error file)) end, c).

(** [ModuleCache::masked] *)
Definition masked (file : Path) (c : ModuleCache) : option (list ascii) * ModuleCache :=
  let '(key, c) := canonical file c in
  match masked_memo c !! key with
  | Some cached => (Some cached, c)
  | None =>
      let '(m, c) := module key c in
      match m with
      | None => (None, c)
      | Some m =>
          let code := code_without_strings_and_comments (source m) in
          (Some code, mkCache (canonical_memo c) (modules_memo c) (<[key := code]> (masked_memo c)) (edges_memo c))
      end
  end.

(** [ModuleCache::aliased_import] *)
Definition aliased_import (specifier : string) (c : ModuleCache) : option Path * ModuleCache :=
  match resolve_alias ≫= fun alias => alias specifier with
  | Some resolved => let '(p, c) := canonical resolved c in (Some p, c)
  | None => (None, c)
  end.

(** The edge of one import of the module at [key]. *)
Definition import_target (key : Path) (specifier : string) (c : ModuleCache) : option Path * ModuleCache :=
  if starts_with "." specifier then (parent key ≫= fun directory => resolve_specifier directory specifier, c)
  else aliased_import specifier c.

Fixpoint edge_loop (key : Path) (specifiers : list string) (c : ModuleCache) : list Path * ModuleCache :=
  match specifiers with
  | [] => ([], c)
  | s :: rest =>
      let '(edge, c) := import_target key s c in
      let '(edges, c) := edge_loop key rest c in
      (option_list edge ++ edges, c)
  end.

(** [ModuleCache::edges] *)
Definition edges (file : Path) (c : ModuleCache) : list Path * ModuleCache :=
  let '(key, c) := canonical file c in
  match edges_memo c !! key with
  | Some cached => (cached, c)
  | None =>
      let '(m, c) := module key c in
      let '(resolved, c) :=
        match m with
        | Some m =>
            let '(imports, c) := edge_loop key (import_specifiers (ast m)) c in
            (imports ++ option_list (canonical_path <$> mdx_provider key), c)
        | None => ([], c)
        end in
      (resolved, mkCache (canonical_memo c) (modules_memo c) (masked_memo c) (<[key := resolved]> (edges_memo c)))
  end.

Fixpoint collect_loop (fuel : nat) (queue : list Path) (visited : gset Path) (c : ModuleCache)
    : option (gset Path * ModuleCache) :=
  match queue, fuel with
  | [], _ => Some (visited, c)
  | _ :: _, O => None
  | file :: queue, S fuel =>
      if decide (file ∈ visited) then collect_loop fuel queue visited c
      else let '(next, c) := edges file c in collect_loop fuel (queue ++ next) ({[file]} ∪ visited) c
  end.

Variable fuel : nat.

(** [collect_relative_graph] *)
Definition collect_relative_graph (entry : Path) (c : ModuleCache) : option (gset Path * ModuleCache) :=
  let '(start, c) := canonical entry c in collect_loop fuel [start] ∅ c.

(** A [BTreeSet<PathBuf>] in iteration order. *)
Definition in_order (s : gset Path) : list Path := sort_by path_order (elements s).

(** The graphs of the layouts that resolve, added to [files]. *)
Fixpoint collect_layouts (app_dir : string) (layouts : list string) (files : gset Path) (c : ModuleCache)
    : option (gset Path * ModuleCache) :=
  match layouts with
  | [] => Some (files, c)
  | layout :: rest =>
      match resolve_layout app_dir layout with
      | None => collect_layouts app_dir rest files c
      | Some file =>
          '(g, c) ← collect_relative_graph file c;
          collect_layouts app_dir rest (files ∪ g) c
      end
  end.

(** *** Rendering, from files *)

(** Masks of the files in order, each followed by a line feed. *)
Fixpoint join_masked (files : list Path) (c : ModuleCache) : option (list ascii) * ModuleCache :=
  match files with
  | [] => (Some [], c)
  | file :: rest =>
      let '(code, c) := masked file c in
      match code with
      | None => (None, c)
      | Some code =>
          let '(more, c) := join_masked rest c in
          ((fun more => code ++ newline :: more) <$> more, c)
      end
  end.

(** Every layout resolves, or the whole answer is none. *)
Fixpoint all_layouts (app_dir : string) (layouts : list string) (files : gset Path) (c : ModuleCache)
    : option (option (gset Path) * ModuleCache) :=
  match layouts with
  | [] => Some (Some files, c)
  | layout :: rest =>
      match resolve_layout app_dir layout with
      | None => Some (None, c)
      | Some file => '(g, c) ← collect_relative_graph file c; all_layouts app_dir rest (files ∪ g) c
      end
  end.

(** [render_reachable_code] *)
Definition render_reachable_code (app_dir : string) (file : Path) (layouts : list string) (c : ModuleCache)
    : option (option (list ascii) * ModuleCache) :=
  '(files, c) ← collect_relative_graph file c;
  '(files, c) ← all_layouts app_dir layouts files c;
  match files with
  | None => Some (None, c)
  | Some files => Some (join_masked (in_order files) c)
  end.

(** [detect_render_strategy]: the file's mask, its graph's code when the route
    has no dynamic segment, and the server-components opt-in. *)
Definition detect_render_strategy (app_dir : string) (file : Path) (route_path : string) (layouts : list string) (c : ModuleCache)
    : option (RenderMeta * ModuleCache) :=
  let '(page, c) := module file c in
  let '(code, c) := masked file c in
  match page, code with
  | Some page, Some code =>
      '(reachable, c) ← (if route_has_dynamic_segments route_path then Some (None, c)
                         else render_reachable_code app_dir file layouts c);
      render ← detect_render_meta wide_alphanumeric (source page) code route_path reachable;
      components ← opts_into_server_components wide_alphanumeric (source page) code;
      Some ({| strategy := strategy render; revalidate := revalidate render; has_static_params := has_static_params render;
               static_paths := static_paths render; has_dynamic_slots := has_dynamic_slots render;
               hydration := hydration render; server_components := components; force_dynamic := force_dynamic render |}, c)
  | _, _ => Some (default_render_meta, c)
  end.

(** *** Validation *)

(** [is_client_boundary] *)
Definition is_client_boundary (file : Path) (c : ModuleCache) : bool * ModuleCache :=
  let '(m, c) := module file c in
  (match m with Some m => has_module_directive (source m) "use client" | None => false end, c).

Definition server_only_diagnostic (file : Path) : Diagnostic :=
  suggest "Move server-only work behind a route handler/server module and pass serializable data to the client."
    (at_file (path_text file)
      (explain "This module is reachable from a hydrated page or client module but declares `server-only`."
        (diagnostic "RUV1007" "Server-only module imported into client graph"))).

Definition private_env_diagnostic (file : Path) (name : string) : Diagnostic :=
  suggest "Move the env read into server-only code or rename it to `RUVYXA_PUBLIC_*` if it is safe to expose."
    (at_file (path_text file)
      (explain ("`process.env." +:+ name +:+
         "` is reachable from browser code. Only `RUVYXA_PUBLIC_*` env vars may be exposed to client modules.")
        (diagnostic "RUV1008" "Private environment variable used in client graph"))).

Definition server_dir_diagnostic (file : Path) : Diagnostic :=
  suggest "Move shared browser-safe code outside server/, or import it from a server route only."
    (at_file (path_text file)
      (explain "Files under server/ are reserved for server-only code."
        (diagnostic "RUV1010" "Server directory module reached by client graph"))).

Definition client_only_diagnostic (file : Path) : Diagnostic :=
  suggest "Move browser-only code into a client component or client.tsx module."
    (at_file (path_text file)
      (explain "This module is reachable from server runtime code but declares `client-only`."
        (diagnostic "RUV1009" "Client-only module imported into server graph"))).

(** The names in first-seen order, each once. *)
Fixpoint first_seen (names : list string) (reported : gset string) : list string :=
  match names with
  | [] => []
  | n :: rest => if decide (n ∈ reported) then first_seen rest reported else n :: first_seen rest ({[n]} ∪ reported)
  end.

(** Whether the file lies under the project's [server] directory. *)
Definition is_server_dir (canonical_root file : Path) : bool :=
  match strip_base canonical_root file with
  | Some relative => relative_starts_with_server relative
  | None =>
      match strip_base canonical_root (canonical_path file) with
      | Some relative => relative_starts_with_server relative
      | None => false
      end
  end.

(** What [validate_client_module] reports about a module that can be read. *)
Definition client_diagnostics (canonical_root file : Path) (m : ParsedModule) : list Diagnostic :=
  (if existsb is_server_only_specifier (specifier <$> imports (ast m)) then [server_only_diagnostic file] else []) ++
  (private_env_diagnostic file <$> first_seen (private_env_reads (ast m)) ∅) ++
  (if is_server_dir canonical_root file then [server_dir_diagnostic file] else []).

(** What [validate_server_module] reports. *)
Definition server_diagnostics (file : Path) (m : ParsedModule) : list Diagnostic :=
  if existsb (String.eqb "client-only") (specifier <$> imports (ast m)) then [client_only_diagnostic file] else [].

(** [validate_client_module] and [validate_server_module] *)
Definition validate_client_module (canonical_root file : Path) (c : ModuleCache) : list Diagnostic * ModuleCache :=
  let '(m, c) := module file c in
  (match m with Some m => client_diagnostics canonical_root file m | None => [] end, c).
Definition validate_server_module (file : Path) (c : ModuleCache) : list Diagnostic * ModuleCache :=
  let '(m, c) := module file c in (match m with Some m => server_diagnostics file m | None => [] end, c).

(** The sets and lists [validate_app] fills. *)
Record Validation := mkValidation {
  v_diagnostics : list Diagnostic;
  v_client : gset Path;
  v_server : gset Path;
  v_validated_client : gset Path;
  v_validated_server : gset Path;
  v_inert : list string;
  v_cache : ModuleCache;
}.

Definition with_cache (v : Validation) (c : ModuleCache) : Validation :=
  mkValidation (v_diagnostics v) (v_client v) (v_server v) (v_validated_client v) (v_validated_server v) (v_inert v) c.
Definition report (v : Validation) (ds : list Diagnostic) : Validation :=
  mkValidation (v_diagnostics v ++ ds) (v_client v) (v_server v) (v_validated_client v) (v_validated_server v) (v_inert v) (v_cache v).

(** A module of the client graph: counted, and validated the first time. *)
Definition see_client (canonical_root file : Path) (v : Validation) : Validation :=
  let client := {[file]} ∪ v_client v in
  if decide (file ∈ v_validated_client v) then
    mkValidation (v_diagnostics v) client (v_server v) (v_validated_client v) (v_validated_server v) (v_inert v) (v_cache v)
  else
    let '(ds, c) := validate_client_module canonical_root file (v_cache v) in
    mkValidation (v_diagnostics v ++ ds) client (v_server v) ({[file]} ∪ v_validated_client v) (v_validated_server v) (v_inert v) c.

(** A module of the server graph. *)
Definition see_server (file : Path) (v : Validation) : Validation :=
  let server := {[file]} ∪ v_server v in
  if decide (file ∈ v_validated_server v) then
    mkValidation (v_diagnostics v) (v_client v) server (v_validated_client v) (v_validated_server v) (v_inert v) (v_cache v)
  else
    let '(ds, c) := validate_server_module file (v_cache v) in
    mkValidation (v_diagnostics v ++ ds) (v_client v) server (v_validated_client v) ({[file]} ∪ v_validated_server v) (v_inert v) c.

Definition missing_default_diagnostic (file : string) : Diagnostic :=
  suggest "Add `export default function Page() { return <main /> }`."
    (at_file file
      (explain "Every TypeScript/JavaScript page must export a default component. Markdown and MDX pages receive one from the content compiler."
        (diagnostic "RUV1004" "Page is missing a default export"))).

(** The modules of one page's graph, each on its side of the boundary. *)
Fixpoint page_graph (canonical_root : Path) (components : bool) (graph : list Path) (reaches_client : bool) (v : Validation)
    : option (bool * Validation) :=
  match graph with
  | [] => Some (reaches_client, v)
  | m :: rest =>
      let '(boundary, c) := if components then is_client_boundary m (v_cache v) else (true, v_cache v) in
      let v := with_cache v c in
      if boundary then
        if components then
          '(reachable, c) ← collect_relative_graph m (v_cache v);
          page_graph canonical_root components rest true
            (foldl (fun v f => see_client canonical_root f v) (with_cache v c) (in_order reachable))
        else page_graph canonical_root components rest true (see_client canonical_root m v)
      else page_graph canonical_root components rest reaches_client (see_server m v)
  end.

Definition validate_page (canonical_root : Path) (app_dir : string) (route : RouteEntry) (v : Validation)
    : option (Validation + RuvyxaError) :=
  let file := path_new (route_file route) in
  let '(page, c) := require file (v_cache v) in
  match page with
  | inr e => Some (inr e)
  | inl page =>
      let v := with_cache v c in
      let v := if negb (is_markdown_route file) && negb (has_default (ast page))
               then report v [missing_default_diagnostic (route_file route)] else v in
      '(graph, c) ← collect_relative_graph file (v_cache v);
      '(graph, c) ← collect_layouts app_dir (layout_chain route) graph c;
      '(reaches_client, v) ← page_graph canonical_root (server_components (render route)) (in_order graph) false (with_cache v c);
      Some (inl (if server_components (render route) && ships_client_bundle (render route) && negb reaches_client
                    && bool_decide (client_modules route = [])
                 then mkValidation (v_diagnostics v) (v_client v) (v_server v) (v_validated_client v) (v_validated_server v)
                        (v_inert v ++ [route_path route]) (v_cache v)
                 else v))
  end.

Definition edge_diagnostic (route : RouteEntry) (file : Path) (s builtin : string) : Diagnostic :=
  with_affected [route_id route]
    (suggest "Replace the import with a Web API — `fetch`, `crypto.subtle`, `URL` — or drop `export const runtime = 'edge'` so the route runs on Node."
      (at_file (path_text file)
        (explain (path_text file +:+ " imports `" +:+ s +:+ "`, and `" +:+ builtin +:+
           "` does not exist in a Web-standards runtime. This route declares `export const runtime = 'edge'`.")
          (diagnostic "RUV1013" "Edge route reaches a Node built-in")))).

(** The forbidden built-ins the modules of an edge route import. *)
Fixpoint edge_graph (route : RouteEntry) (graph : list Path) (v : Validation) : Validation :=
  match graph with
  | [] => v
  | file :: rest =>
      let '(m, c) := module file (v_cache v) in
      let v := with_cache v c in
      let v := match m with
               | Some m => report v (omap (fun s => edge_diagnostic route file s <$> edge_forbidden_builtin s)
                                       (import_specifiers (ast m)))
               | None => v
               end in
      edge_graph route rest v
  end.

Definition validate_edge (app_dir : string) (route : RouteEntry) (v : Validation) : option Validation :=
  if bool_decide (runtime route = REdge) then
    '(graph, c) ← collect_relative_graph (path_new (route_file route)) (v_cache v);
    '(graph, c) ← collect_layouts app_dir (layout_chain route) graph c;
    Some (edge_graph route (in_order graph) (with_cache v c))
  else Some v.

(** The graphs of the server modules a route names. *)
Fixpoint see_server_graphs (entries : list Path) (v : Validation) : option Validation :=
  match entries with
  | [] => Some v
  | m :: rest =>
      '(graph, c) ← collect_relative_graph m (v_cache v);
      see_server_graphs rest (foldl (fun v f => see_server f v) (with_cache v c) (in_order graph))
  end.

(** One turn of the loop of [validate_app]. *)
Definition validate_route (canonical_root : Path) (app_dir : string) (route : RouteEntry) (v : Validation)
    : option (Validation + RuvyxaError) :=
  kind ← (match route_kind route with
          | Page => validate_page canonical_root app_dir route v
          | Api => v ← see_server_graphs [path_new (route_file route)] v; Some (inl v)
          end);
  match kind with
  | inr e => Some (inr e)
  | inl v =>
      v ← validate_edge app_dir route v;
      v ← see_server_graphs (path_new <$> server_modules route) v;
      Some (inl (foldl (fun v f => see_client canonical_root f v) v (path_new <$> client_modules route)))
  end.

Fixpoint validate_routes (canonical_root : Path) (app_dir : string) (routes : list RouteEntry) (v : Validation)
    : option (Validation + RuvyxaError) :=
  match routes with
  | [] => Some (inl v)
  | route :: rest =>
      r ← validate_route canonical_root app_dir route v;
      match r with
      | inr e => Some (inr e)
      | inl v => validate_routes canonical_root app_dir rest v
      end
  end.

Record ValidationReport := mkReport {
  report_routes : nat;
  report_page_routes : nat;
  report_api_routes : nat;
  report_client_modules : nat;
  report_server_modules : nat;
  report_inert : list string;
  report_diagnostics : list Diagnostic;
}.

Definition empty_validation : Validation := mkValidation [] ∅ ∅ ∅ ∅ [] empty_cache.

(** [validate_app] *)
Definition validate_app (root : Path) (manifest : RouteManifest) : option (ValidationReport + RuvyxaError) :=
  r ← validate_routes (canonical_path root) (app_dir manifest) (routes manifest) empty_validation;
  Some match r with
       | inr e => inr e
       | inl v => inl (mkReport (length (routes manifest))
           (length (filter (fun r => route_kind r = Page) (routes manifest)))
           (length (filter (fun r => route_kind r = Api) (routes manifest)))
           (size (v_client v)) (size (v_server v)) (v_inert v) (v_diagnostics v))
       end.

(** The entries whose graphs a route needs staged. *)
Definition route_entries (app_dir : string) (route : RouteEntry) : list Path :=
  path_new (route_file route) :: omap (resolve_layout app_dir) (layout_chain route) ++
  omap (resolve_layout app_dir) (template_chain route) ++ (path_new <$> server_modules route) ++ (path_new <$> client_modules route).

(** Outside [app], inside the project, and not installed. *)
Definition is_project_module (canonical_root canonical_app file : Path) : bool :=
  negb (path_starts_with canonical_app file) &&
  match strip_base canonical_root file with
  | Some relative => negb (bool_decide ("node_modules" ∈ relative))
  | None => false
  end.

Fixpoint stage_entries (canonical_root canonical_app : Path) (entries : list Path) (found : gset Path) (c : ModuleCache)
    : option (gset Path * ModuleCache) :=
  match entries with
  | [] => Some (found, c)
  | e :: rest =>
      '(graph, c) ← collect_relative_graph e c;
      stage_entries canonical_root canonical_app rest
        (found ∪ filter (fun f => is_project_module canonical_root canonical_app f = true) graph) c
  end.

(** [reachable_project_modules] *)
Definition reachable_project_modules (root : Path) (manifest : RouteManifest) : option (gset Path) :=
  fst <$> stage_entries (canonical_path root) (canonical_path (path_new (app_dir manifest)))
    (routes manifest ≫= route_entries (app_dir manifest)) ∅ empty_cache.
End graph.

(** ** Specification *)

Section pure.
Variables (read_to_string : Path -> option (list ascii)) (canonical_path : Path -> Path)
  (resolve_specifier : Path -> string -> option Path) (resolve_alias : option (string -> option Path))
  (mdx_provider : Path -> option Path).

(** Where one import of the module at [key] leads. *)
Definition target_of (key : Path) (specifier : string) : option Path :=
  if starts_with "." specifier then parent key ≫= fun directory => resolve_specifier directory specifier
  else canonical_path <$> (resolve_alias ≫= fun alias => alias specifier).

(** The edges of a file, read off the file system directly. *)
Definition edges_of (file : Path) : list Path :=
  match load read_to_string (canonical_path file) with
  | Some m => omap (target_of (canonical_path file)) (import_specifiers (ast m)) ++
      option_list (canonical_path <$> mdx_provider (canonical_path file))
  | None => []
  end.

(** What is cached is what the file system says. *)
Record cache_ok (c : ModuleCache) : Prop := {
  ok_canonical : forall file p, canonical_memo c !! file = Some p -> p = canonical_path file;
  ok_modules : forall key m, modules_memo c !! key = Some m -> m = load read_to_string key;
  ok_masked : forall key code, masked_memo c !! key = Some code ->
    canonical_path key = key /\ exists m, load read_to_string key = Some m /\ code = code_without_strings_and_comments (source m);
  ok_edges : forall key l, edges_memo c !! key = Some l -> canonical_path key = key /\ l = edges_of key;
}.

(** The graph of an entry, walked without a cache. *)
Definition graph_of (fuel : nat) (entry : Path) : gset Path := default ∅ (walk_pop edges_of fuel [canonical_path entry] ∅).

(** What the file at [f] holds. *)
Definition module_at (f : Path) : option ParsedModule := load read_to_string (canonical_path f).

(** A client boundary. *)
Definition boundary (f : Path) : bool :=
  match module_at f with Some m => has_module_directive (source m) "use client" | None => false end.

(** The files of a page: its graph and those of the layouts that resolve. *)
Definition page_files (fuel : nat) (resolve_layout : string -> string -> option Path) (app_dir : string) (file : Path)
    (layouts : list string) : gset Path :=
  graph_of fuel file ∪ ⋃ (graph_of fuel <$> omap (resolve_layout app_dir) layouts).

(** No file hides its code, and none shows a marker. *)
Definition marker_free (f : Path) : bool :=
  match module_at f with
  | Some m => negb (has_dynamic_data_markers (code_without_strings_and_comments (source m)))
  | None => false
  end.

(** A page that declares nothing about how it renders. *)
Record automatic_page (wide_alphanumeric : N -> bool) (source code : list ascii) : Prop := {
  auto_server : has_module_directive source "use client" = false;
  auto_hydration : is_Some (parse_hydration_mode wide_alphanumeric source code);
  auto_dynamic : export_const_value wide_alphanumeric source code "dynamic" = Some None;
  auto_ppr : has_export_const_bool wide_alphanumeric source code "ppr" true = Some false;
  auto_revalidate : parse_export_const_number wide_alphanumeric source code "revalidate" = Some None;
  auto_params : has_static_params_export code = false;
  auto_components : is_Some (opts_into_server_components wide_alphanumeric source code);
}.

Section reported.
Context (fuel : nat) (resolve_layout : string -> string -> option Path).

(** The files of a route in the client graph. *)
Definition client_files (app_dir : string) (route : RouteEntry) : gset Path :=
  list_to_set (path_new <$> client_modules route) ∪
  match route_kind route with
  | Page =>
      let files := page_files fuel resolve_layout app_dir (path_new (route_file route)) (layout_chain route) in
      if server_components (render route) then ⋃ (graph_of fuel <$> filter (fun f => boundary f = true) (elements files)) else files
  | Api => ∅
  end.

(** The files of a route in the server graph. *)
Definition server_files (app_dir : string) (route : RouteEntry) : gset Path :=
  ⋃ (graph_of fuel <$> (path_new <$> server_modules route)) ∪
  match route_kind route with
  | Page =>
      if server_components (render route)
      then filter (fun f => boundary f = false) (page_files fuel resolve_layout app_dir (path_new (route_file route)) (layout_chain route))
      else ∅
  | Api => graph_of fuel (path_new (route_file route))
  end.

(** What is reported of one file of a graph. *)
Definition client_report (root f : Path) : list Diagnostic :=
  match module_at f with Some m => client_diagnostics canonical_path (canonical_path root) f m | None => [] end.
Definition server_report (f : Path) : list Diagnostic :=
  match module_at f with Some m => server_diagnostics f m | None => [] end.

(** What is reported of a route itself: a page without a default export, and
    the built-ins an edge route reaches. *)
Definition missing_default (route : RouteEntry) : list Diagnostic :=
  match route_kind route, module_at (path_new (route_file route)) with
  | Page, Some m =>
      if negb (is_markdown_route (path_new (route_file route))) && negb (has_default (ast m))
      then [missing_default_diagnostic (route_file route)] else []
  | _, _ => []
  end.
Definition edge_report (route : RouteEntry) (f : Path) : list Diagnostic :=
  match module_at f with
  | Some m => omap (fun s => edge_diagnostic route f s <$> edge_forbidden_builtin s) (import_specifiers (ast m))
  | None => []
  end.
Definition route_report (app_dir : string) (route : RouteEntry) : list Diagnostic :=
  missing_default route ++
  if bool_decide (runtime route = REdge)
  then elements (page_files fuel resolve_layout app_dir (path_new (route_file route)) (layout_chain route)) ≫= edge_report route
  else [].

(** Server components that ship a bundle no file needs. *)
Definition inert (app_dir : string) (route : RouteEntry) : bool :=
  bool_decide (route_kind route = Page) && server_components (render route) && ships_client_bundle (render route) &&
  bool_decide (client_modules route = []) &&
  forallb (fun f => negb (boundary f))
    (elements (page_files fuel resolve_layout app_dir (path_new (route_file route)) (layout_chain route))).

(** A page that cannot be read. *)
Definition unreadable (route : RouteEntry) : bool :=
  bool_decide (route_kind route = Page) && bool_decide (module_at (path_new (route_file route)) = None).
End reported.

(** The sets of a validation run are [C] and [S]; each file of them was reported
    once, besides the [D] of the routes; [I] are the inert routes. *)
Record tracks (root : Path) (C S : gset Path) (D : list Diagnostic) (I : list string) (v : Validation) : Prop := {
  tracks_client : v_client v = C;
  tracks_validated_client : v_validated_client v = C;
  tracks_server : v_server v = S;
  tracks_validated_server : v_validated_server v = S;
  tracks_inert : v_inert v = I;
  tracks_cache : cache_ok (v_cache v);
  tracks_diagnostics : v_diagnostics v ≡ₚ D ++ (elements C ≫= client_report root) ++ (elements S ≫= server_report);
}.
End pure.

(** ** Properties *)

Section cache.
Context (read_to_string : Path -> option (list ascii)) (canonical_path : Path -> Path)
  (resolve_specifier : Path -> string -> option Path) (resolve_alias : option (string -> option Path))
  (mdx_provider : Path -> option Path).
(** Canonicalizing a canonical path changes nothing. *)
Hypothesis canonical_idem : forall p, canonical_path (canonical_path p) = canonical_path p.

Abbreviation ok := (cache_ok read_to_string canonical_path resolve_specifier resolve_alias mdx_provider).
Abbreviation load := (load read_to_string).
Abbreviation edges_of := (edges_of read_to_string canonical_path resolve_specifier resolve_alias mdx_provider).

Lemma empty_cache_ok : ok empty_cache.
Proof. split; cbn; intros ? ? H; by rewrite lookup_empty in H. Qed.

Lemma canonical_spec file c : ok c -> exists c', canonical canonical_path file c = (canonical_path file, c') /\ ok c'.
Proof.
  intros Hc. unfold canonical. destruct (canonical_memo c !! file) as [p|] eqn:E.
  - exists c. by rewrite (ok_canonical _ _ _ _ _ _ Hc _ _ E).
  - eexists. split; [done|]. destruct Hc as [H1 H2 H3 H4]. split; cbn; try done.
    intros f p. rewrite lookup_insert_Some. intros [[<- <-]|[_ H]]; [done|by apply H1].
Qed.

Lemma module_spec file c : ok c ->
  exists c', module read_to_string canonical_path file c = (load (canonical_path file), c') /\ ok c'.
Proof.
  intros Hc. unfold module. destruct (canonical_spec file c Hc) as (c1 & -> & H1).
  destruct (modules_memo c1 !! canonical_path file) as [m|] eqn:E.
  - exists c1. by rewrite (ok_modules _ _ _ _ _ _ H1 _ _ E).
  - eexists. split; [done|]. destruct H1 as [A1 A2 A3 A4]. split; cbn; try done.
    intros k m. rewrite lookup_insert_Some. intros [[<- <-]|[_ H]]; [done|by apply A2].
Qed.

Lemma masked_spec file c : ok c ->
  exists c', masked read_to_string canonical_path file c =
    ((fun m => code_without_strings_and_comments (source m)) <$> load (canonical_path file), c') /\ ok c'.
Proof.
  intros Hc. unfold masked. destruct (canonical_spec file c Hc) as (c1 & -> & H1).
  destruct (masked_memo c1 !! canonical_path file) as [code|] eqn:E.
  - exists c1. destruct (ok_masked _ _ _ _ _ _ H1 _ _ E) as (_ & m & -> & ->). done.
  - destruct (module_spec (canonical_path file) c1 H1) as (c2 & -> & H2). rewrite canonical_idem.
    destruct (load (canonical_path file)) as [m|] eqn:Em; [|by exists c2].
    eexists. split; [done|]. destruct H2 as [A1 A2 A3 A4]. split; cbn; try done.
    intros k code. rewrite lookup_insert_Some. intros [[<- <-]|[_ H]]; [|by apply A3]. split; [done|]. by exists m.
Qed.

Lemma edge_loop_spec key specifiers : forall c, ok c ->
  exists c', edge_loop canonical_path resolve_specifier resolve_alias key specifiers c =
    (omap (target_of canonical_path resolve_specifier resolve_alias key) specifiers, c') /\ ok c'.
Proof.
  induction specifiers as [|s rest IH]; intros c Hc; cbn [edge_loop omap list_omap]; [by exists c|].
  assert (exists c1, import_target canonical_path resolve_specifier resolve_alias key s c =
    (target_of canonical_path resolve_specifier resolve_alias key s, c1) /\ ok c1) as (c1 & -> & H1).
  { unfold import_target, aliased_import, target_of. destruct (starts_with "." s); [by exists c|].
    destruct (resolve_alias ≫= _) as [p|]; [|by exists c].
    destruct (canonical_spec p c Hc) as (c1 & -> & H1). by exists c1. }
  destruct (IH c1 H1) as (c2 & -> & H2). exists c2. split; [|done].
  by destruct (target_of canonical_path resolve_specifier resolve_alias key s).
Qed.

Lemma edges_spec file c : ok c ->
  exists c', edges read_to_string canonical_path resolve_specifier resolve_alias mdx_provider file c = (edges_of file, c') /\ ok c'.
Proof.
  intros Hc. unfold edges. destruct (canonical_spec file c Hc) as (c1 & -> & H1).
  assert (edges_of (canonical_path file) = edges_of file) as Hcan by (unfold ModuleGraph.edges_of; by rewrite canonical_idem).
  destruct (edges_memo c1 !! canonical_path file) as [l|] eqn:E.
  { exists c1. destruct (ok_edges _ _ _ _ _ _ H1 _ _ E) as [_ ->]. by rewrite Hcan. }
  destruct (module_spec (canonical_path file) c1 H1) as (c2 & -> & H2). rewrite canonical_idem.
  assert (forall l c3, l = edges_of file -> ok c3 -> exists c',
    (l, mkCache (canonical_memo c3) (modules_memo c3) (masked_memo c3) (<[canonical_path file := l]> (edges_memo c3)))
      = (edges_of file, c') /\ ok c') as Hdone.
  { intros l c3 -> [A1 A2 A3 A4]. eexists. split; [done|]. split; cbn; try done.
    intros k l. rewrite lookup_insert_Some. intros [[<- <-]|[_ H]]; [by rewrite Hcan|by apply A4]. }
  unfold ModuleGraph.edges_of in Hdone |- *. destruct (load (canonical_path file)) as [m|]; [|by apply Hdone].
  destruct (edge_loop_spec (canonical_path file) (import_specifiers (ast m)) c2 H2) as (c3 & -> & H3). by apply Hdone.
Qed.

(** A walk through the cache is the walk of the edges read directly. *)
Lemma collect_loop_spec fuel : forall queue visited c, ok c ->
  exists c', collect_loop read_to_string canonical_path resolve_specifier resolve_alias mdx_provider fuel queue visited c =
    (fun s => (s, c')) <$> walk_pop edges_of fuel queue visited /\ ok c'.
Proof.
  induction fuel as [|fuel IH]; intros [|x queue] visited c Hc; cbn [collect_loop walk_pop]; try by exists c.
  destruct (decide (x ∈ visited)); [by apply IH|].
  destruct (edges_spec x c Hc) as (c1 & -> & H1). by apply IH.
Qed.

Section finite.
(** The project: a finite set of paths closed under imports, and enough fuel for it. *)
Context (fuel : nat) (project : gset Path).
Hypothesis project_closed : forall x y, x ∈ project -> y ∈ edges_of x -> y ∈ project.
Hypothesis fuel_enough : S (out_edges edges_of project) <= fuel.

(** The files an entry reaches. *)
Definition reaches (entry file : Path) : Prop := reachable edges_of [canonical_path entry] file.
Abbreviation graph_of := (graph_of read_to_string canonical_path resolve_specifier resolve_alias mdx_provider fuel).
Abbreviation collect := (collect_relative_graph read_to_string canonical_path resolve_specifier resolve_alias mdx_provider fuel).

Lemma graph_of_spec entry f : canonical_path entry ∈ project -> f ∈ graph_of entry <-> reaches entry f.
Proof.
  intros He. unfold ModuleGraph.graph_of.
  destruct (walk_pop_closed edges_of project [canonical_path entry] fuel) as (s & -> & Hs); [done|set_solver|done|]. apply Hs.
Qed.

Lemma collect_spec entry c : ok c -> canonical_path entry ∈ project ->
  exists c', collect entry c = Some (graph_of entry, c') /\ ok c'.
Proof.
  intros Hc He. unfold collect_relative_graph. destruct (canonical_spec entry c Hc) as (c1 & -> & H1).
  destruct (collect_loop_spec fuel [canonical_path entry] ∅ c1 H1) as (c2 & -> & H2). unfold ModuleGraph.graph_of.
  destruct (walk_pop_closed edges_of project [canonical_path entry] fuel) as (s & -> & _); [done|set_solver|done|].
  by exists c2.
Qed.

Lemma graph_of_project entry f : canonical_path entry ∈ project -> f ∈ graph_of entry -> f ∈ project.
Proof.
  intros He (x & Hx & Hxf)%graph_of_spec; [|done]. apply list_elem_of_singleton in Hx as ->.
  revert He. induction Hxf as [|a b z Hab _ IH]; [done|]. intros Ha. apply IH. by eapply project_closed.
Qed.

Section layouts.
Context (resolve_layout : string -> string -> option Path).
Abbreviation page_files := (page_files read_to_string canonical_path resolve_specifier resolve_alias mdx_provider fuel resolve_layout).
Hypothesis project_layouts : forall app layout f, resolve_layout app layout = Some f -> canonical_path f ∈ project.

Lemma collect_layouts_spec app layouts : forall files c, ok c ->
  exists c', collect_layouts read_to_string canonical_path resolve_specifier resolve_alias mdx_provider resolve_layout fuel
    app layouts files c = Some (files ∪ ⋃ (graph_of <$> omap (resolve_layout app) layouts), c') /\ ok c'.
Proof.
  induction layouts as [|l rest IH]; intros files c Hc; cbn [collect_layouts omap list_omap fmap list_fmap].
  { exists c. cbn. by rewrite union_empty_r_L. }
  destruct (resolve_layout app l) as [f|] eqn:El; [|by apply IH].
  destruct (collect_spec f c Hc) as (c1 & -> & H1); [by eapply project_layouts|]. cbn.
  destruct (IH (files ∪ graph_of f) c1 H1) as (c2 & -> & H2). exists c2. by rewrite union_assoc_L.
Qed.

Lemma page_files_project app file layouts f : canonical_path file ∈ project -> f ∈ page_files app file layouts -> f ∈ project.
Proof.
  intros Hp Hf. unfold ModuleGraph.page_files in Hf. apply elem_of_union in Hf as [Hf|Hf]; [by eapply graph_of_project|].
  apply elem_of_union_list in Hf as (g & Hg & Hf). apply list_elem_of_fmap in Hg as (e & -> & He).
  apply list_elem_of_omap in He as (l & _ & He). eapply graph_of_project; [|done]. by eapply project_layouts.
Qed.

(** *** The strategy *)

Abbreviation module_at := (module_at read_to_string canonical_path).
Abbreviation marker_free := (marker_free read_to_string canonical_path).
Abbreviation boundary := (boundary read_to_string canonical_path).
Abbreviation mask f := ((fun m => code_without_strings_and_comments (source m)) <$> module_at f).

Lemma all_layouts_spec app layouts : forall files c, ok c ->
  exists c', all_layouts read_to_string canonical_path resolve_specifier resolve_alias mdx_provider resolve_layout fuel app layouts files c =
    Some (if forallb (fun l => bool_decide (is_Some (resolve_layout app l))) layouts
          then Some (files ∪ ⋃ (graph_of <$> omap (resolve_layout app) layouts)) else None, c') /\ ok c'.
Proof.
  induction layouts as [|l rest IH]; intros files c Hc; cbn [all_layouts omap list_omap fmap list_fmap forallb].
  { exists c. cbn. by rewrite union_empty_r_L. }
  destruct (resolve_layout app l) as [f|] eqn:El.
  - destruct (collect_spec f c Hc) as (c1 & -> & H1); [by eapply project_layouts|].
    destruct (IH (files ∪ graph_of f) c1 H1) as (c2 & H2 & Hok). exists c2. split; [|done]. cbn [mbind option_bind]. rewrite H2.
    rewrite bool_decide_eq_true_2 by done. cbn [andb list_fmap fmap union_list foldr]. by rewrite <- union_assoc_L.
  - exists c. rewrite bool_decide_eq_false_2; [done|]. by intros [? ?].
Qed.

(** The joined masks are there when every file is read, and hold a marker when one of them does. *)
Lemma join_masked_spec files : forall c, ok c ->
  exists code c', join_masked read_to_string canonical_path files c = (code, c') /\ ok c' /\
    match code with Some code => negb (has_dynamic_data_markers code) | None => false end = forallb marker_free files.
Proof.
  induction files as [|f rest IH]; intros c Hc; cbn [join_masked forallb].
  { exists (Some []), c. split_and!; [done|done|]. vm_compute. reflexivity. }
  destruct (masked_spec f c Hc) as (c1 & -> & H1). unfold ModuleGraph.marker_free, ModuleGraph.module_at.
  destruct (load (canonical_path f)) as [m|]; cbn [fmap option_fmap option_map]; [|by exists None, c1].
  destruct (IH c1 H1) as ([code|] & c2 & -> & H2 & Hm); cbn [fmap option_fmap option_map];
    (do 2 eexists; split_and!; [done|done|]).
  - cbn beta iota. rewrite markers_joined, negb_orb. by f_equal.
  - symmetry. apply andb_false_iff. right. by symmetry.
Qed.

Lemma render_reachable_code_spec app file layouts c : ok c -> canonical_path file ∈ project ->
  exists code c', render_reachable_code read_to_string canonical_path resolve_specifier resolve_alias mdx_provider resolve_layout fuel
      app file layouts c = Some (code, c') /\ ok c' /\
    match code with Some code => negb (has_dynamic_data_markers code) | None => false end =
    forallb (fun l => bool_decide (is_Some (resolve_layout app l))) layouts &&
    forallb marker_free (in_order (page_files app file layouts)).
Proof.
  intros Hc He. unfold render_reachable_code. destruct (collect_spec file c Hc He) as (c1 & -> & H1). cbn [mbind option_bind].
  destruct (all_layouts_spec app layouts (graph_of file) c1 H1) as (c2 & -> & H2). cbn [mbind option_bind].
  destruct (forallb _ layouts); [|by exists None, c2].
  fold (page_files app file layouts). destruct (join_masked_spec (in_order (page_files app file layouts)) c2 H2) as (code & c3 & -> & H3 & Hm).
  by exists code, c3.
Qed.

Lemma in_order_perm (g : gset Path) : in_order g ≡ₚ elements g.
Proof. apply sort_by_perm. Qed.
Lemma elem_of_in_order (g : gset Path) f : f ∈ in_order g <-> f ∈ g.
Proof. by rewrite in_order_perm, elem_of_elements. Qed.

Lemma elem_of_page_files app file layouts f : canonical_path file ∈ project ->
  f ∈ page_files app file layouts <->
  reaches file f \/ exists l g, l ∈ layouts /\ resolve_layout app l = Some g /\ reaches g f.
Proof.
  intros Hp. unfold ModuleGraph.page_files. rewrite elem_of_union, graph_of_spec by done. apply or_iff_compat_l.
  rewrite elem_of_union_list. setoid_rewrite list_elem_of_fmap. setoid_rewrite list_elem_of_omap. split.
  - intros (? & (g & -> & l & Hl & Hg) & Hf). exists l, g. split_and!; [done..|]. apply graph_of_spec; [by eapply project_layouts|done].
  - intros (l & g & Hl & Hg & Hf). eexists. split; [by exists g; split; [done|exists l]|].
    apply graph_of_spec; [by eapply project_layouts|done].
Qed.

Lemma marker_free_spec f : marker_free f = true <-> exists m, module_at f = Some m /\
  forall marker, marker ∈ MARKERS -> contains_marker_identifier (code_without_strings_and_comments (source m)) marker = false.
Proof.
  unfold ModuleGraph.marker_free. destruct (module_at f) as [m|]; [|by split; [|intros (? & ? & _)]].
  unfold has_dynamic_data_markers. rewrite negb_true_iff, <- not_true_iff_false, existsb_exists. split.
  - intros H. exists m. split; [done|]. intros marker Hm. apply not_true_iff_false. intros Hc. apply H.
    exists marker. by rewrite <- list_elem_of_In.
  - intros (? & [= <-] & H) (marker & Hm & Hc). apply list_elem_of_In, H in Hm. congruence.
Qed.

(** A page that declares nothing is rendered once, at build time, exactly
    when its path has no dynamic segment, every layout above it resolves, and
    every file the page and its layouts reach can be read and shows no marker
    of request-time data in its code; every other such page is rendered per
    request.  The answer is there for any project, whatever is cached. *)
Theorem automatic_strategy_decides wide_alphanumeric app file route_path layouts c page :
  ok c -> canonical_path file ∈ project -> module_at file = Some page ->
  automatic_page wide_alphanumeric (source page) (code_without_strings_and_comments (source page)) ->
  exists meta c', detect_render_strategy read_to_string canonical_path resolve_specifier resolve_alias mdx_provider resolve_layout
      wide_alphanumeric fuel app file route_path layouts c = Some (meta, c') /\ ok c' /\
    (strategy meta = Ssg \/ strategy meta = Ssr) /\
    (strategy meta = Ssg <->
     route_has_dynamic_segments route_path = false /\
     (forall l, l ∈ layouts -> is_Some (resolve_layout app l)) /\
     forall f, reaches file f \/ (exists l g, l ∈ layouts /\ resolve_layout app l = Some g /\ reaches g f) ->
       exists m, module_at f = Some m /\
         forall marker, marker ∈ MARKERS -> contains_marker_identifier (code_without_strings_and_comments (source m)) marker = false).
Proof.
  intros Hc Hp Hpage [Hcl [h Hh] Hd Hppr Hre Hsp [comps Hco]]. unfold detect_render_strategy.
  destruct (module_spec file c Hc) as (c1 & -> & H1). destruct (masked_spec file c1 H1) as (c2 & -> & H2).
  unfold ModuleGraph.module_at in Hpage. rewrite Hpage. cbn [fmap option_fmap option_map].
  assert (exists reachable c3, (if route_has_dynamic_segments route_path then Some (None, c2)
      else render_reachable_code read_to_string canonical_path resolve_specifier resolve_alias mdx_provider resolve_layout fuel
             app file layouts c2) = Some (reachable, c3) /\ ok c3 /\
      (negb (route_has_dynamic_segments route_path) &&
         match reachable with Some c => negb (has_dynamic_data_markers c) | None => false end = true <->
       route_has_dynamic_segments route_path = false /\
       (forall l, l ∈ layouts -> is_Some (resolve_layout app l)) /\
       forall f, f ∈ page_files app file layouts -> marker_free f = true)) as (reachable & c3 & -> & H3 & Hiff).
  { destruct (route_has_dynamic_segments route_path); [exists None, c2; split_and!; [done..|naive_solver]|].
    destruct (render_reachable_code_spec app file layouts c2 H2 Hp) as (code & c3 & -> & H3 & Hm). exists code, c3.
    split_and!; [done..|]. cbn [negb andb]. rewrite Hm, andb_true_iff, !forallb_forall. setoid_rewrite bool_decide_eq_true.
    setoid_rewrite <- list_elem_of_In. setoid_rewrite elem_of_in_order. naive_solver. }
  cbn [mbind option_bind]. unfold detect_render_meta. rewrite Hcl, Hh, Hd, Hppr, Hre, Hsp, Hco. cbn.
  setoid_rewrite elem_of_page_files in Hiff; [|done]. setoid_rewrite marker_free_spec in Hiff.
  destruct (negb _ && _); (do 2 eexists; split_and!; [done|done|cbn; by auto|cbn; by rewrite <- Hiff]).
Qed.

(** *** Validation *)

Lemma negb_existsb {A} (p : A -> bool) l : negb (existsb p l) = forallb (fun x => negb (p x)) l.
Proof. induction l as [|x l IH]; cbn; [done|]. by rewrite negb_orb, IH. Qed.

Abbreviation tracks root := (tracks read_to_string canonical_path resolve_specifier resolve_alias mdx_provider root).
Abbreviation client_report root := (client_report read_to_string canonical_path root).
Abbreviation server_report := (server_report read_to_string canonical_path).
Abbreviation see_client root := (see_client read_to_string canonical_path (canonical_path root)).
Abbreviation see_server := (see_server read_to_string canonical_path).

Lemma tracks_with_cache root C S D I v c : tracks root C S D I v -> ok c -> tracks root C S D I (with_cache v c).
Proof. intros [] ?. by split. Qed.
Lemma tracks_report root C S D I v ds : tracks root C S D I v -> tracks root C S (D ++ ds) I (report v ds).
Proof.
  intros []. split; try done. cbn. rewrite tracks_diagnostics0. solve_Permutation.
Qed.

Lemma tracks_sets root C C' S S' D I v : tracks root C S D I v -> C = C' -> S = S' -> tracks root C' S' D I v.
Proof. by intros H -> ->. Qed.

Lemma see_client_tracks root C S D I f v : tracks root C S D I v -> tracks root ({[f]} ∪ C) S D I (see_client root f v).
Proof.
  intros [H1 H2 H3 H4 H5 H6 H7]. unfold ModuleGraph.see_client. rewrite H2. destruct (decide (f ∈ C)) as [Hin|Hout].
  - assert ({[f]} ∪ C = C) as Heq by set_solver. rewrite Heq. split; cbn; try done. by rewrite H1.
  - unfold validate_client_module. destruct (module_spec f (v_cache v) H6) as (c & -> & Hc).
    split; cbn; [by rewrite H1|done|done|done|done|done|].
    rewrite H7, elements_union_singleton by done. cbn. unfold ModuleGraph.client_report at 2, ModuleGraph.module_at.
    destruct (load (canonical_path f)) as [m|]; [|by rewrite app_nil_r]. solve_Permutation.
Qed.

Lemma see_server_tracks root C S D I f v : tracks root C S D I v -> tracks root C ({[f]} ∪ S) D I (see_server f v).
Proof.
  intros [H1 H2 H3 H4 H5 H6 H7]. unfold ModuleGraph.see_server. rewrite H4. destruct (decide (f ∈ S)) as [Hin|Hout].
  - assert ({[f]} ∪ S = S) as Heq by set_solver. rewrite Heq. split; cbn; try done. by rewrite H3.
  - unfold validate_server_module. destruct (module_spec f (v_cache v) H6) as (c & -> & Hc).
    split; cbn; [done|done|by rewrite H3|done|done|done|].
    rewrite H7, elements_union_singleton by done. cbn. unfold ModuleGraph.server_report at 2, ModuleGraph.module_at.
    destruct (load (canonical_path f)) as [m|]; [|by rewrite app_nil_r]. solve_Permutation.
Qed.

Lemma see_clients_tracks root fs : forall C S D I v, tracks root C S D I v ->
  tracks root (list_to_set fs ∪ C) S D I (foldl (fun v f => see_client root f v) v fs).
Proof.
  induction fs as [|f fs IH]; intros C S D I v H; cbn; [by rewrite union_empty_l_L|].
  apply (see_client_tracks _ _ _ _ _ f), IH in H. eapply tracks_sets; [exact H|set_solver..].
Qed.
Lemma see_servers_tracks root fs : forall C S D I v, tracks root C S D I v ->
  tracks root C (list_to_set fs ∪ S) D I (foldl (fun v f => see_server f v) v fs).
Proof.
  induction fs as [|f fs IH]; intros C S D I v H; cbn; [by rewrite union_empty_l_L|].
  apply (see_server_tracks _ _ _ _ _ f), IH in H. eapply tracks_sets; [exact H|set_solver..].
Qed.

Lemma in_order_set g : list_to_set (in_order g) = g.
Proof. apply set_eq. intros f. by rewrite elem_of_list_to_set, elem_of_in_order. Qed.

Lemma see_server_graphs_tracks root entries : forall C S D I v, tracks root C S D I v ->
  (forall e, e ∈ entries -> canonical_path e ∈ project) ->
  exists v', see_server_graphs read_to_string canonical_path resolve_specifier resolve_alias mdx_provider fuel entries v = Some v' /\
    tracks root C (⋃ (graph_of <$> entries) ∪ S) D I v'.
Proof.
  induction entries as [|e rest IH]; intros C S D I v H Hp; cbn [see_server_graphs].
  { exists v. cbn. by rewrite union_empty_l_L. }
  destruct (collect_spec e (v_cache v)) as (c & -> & Hc); [by apply (tracks_cache _ _ _ _ _ _ _ _ _ _ _ H)|by apply Hp; left|].
  cbn [mbind option_bind].
  apply (tracks_with_cache _ _ _ _ _ _ c) in H; [|done]. apply (see_servers_tracks _ (in_order (graph_of e))) in H.
  rewrite in_order_set in H. destruct (IH _ _ _ _ _ H) as (v' & -> & Hv'); [by intros; apply Hp; right|].
  exists v'. split; [done|]. eapply tracks_sets; [exact Hv'|cbn; set_solver..].
Qed.

Hypothesis project_canonical : forall f, f ∈ project -> canonical_path f ∈ project.

Context (io_error : Path -> string).

Section validation.
Context (root : Path) (app_dir : string).
Abbreviation canonical_root := (canonical_path root).
Abbreviation page_graph := (page_graph read_to_string canonical_path resolve_specifier resolve_alias mdx_provider fuel canonical_root).
Abbreviation client_files := (client_files read_to_string canonical_path resolve_specifier resolve_alias mdx_provider fuel resolve_layout app_dir).
Abbreviation server_files := (server_files read_to_string canonical_path resolve_specifier resolve_alias mdx_provider fuel resolve_layout app_dir).
Abbreviation route_report := (route_report read_to_string canonical_path resolve_specifier resolve_alias mdx_provider fuel resolve_layout app_dir).
Abbreviation inert := (inert read_to_string canonical_path resolve_specifier resolve_alias mdx_provider fuel resolve_layout app_dir).
Abbreviation unreadable := (unreadable read_to_string canonical_path).
Abbreviation files_of route := (page_files app_dir (path_new (route_file route)) (layout_chain route)).

(** A page without server components: every file is client code. *)
Lemma page_graph_hydrated fs : forall C S D I v b, tracks root C S D I v ->
  exists b' v', page_graph false fs b v = Some (b', v') /\ tracks root (list_to_set fs ∪ C) S D I v'.
Proof.
  induction fs as [|f fs IH]; intros C S D I v b H; cbn [ModuleGraph.page_graph].
  { exists b, v. split; [done|]. eapply tracks_sets; [exact H|set_solver..]. }
  apply (tracks_with_cache _ _ _ _ _ _ (v_cache v)) in H; [|by apply H].
  apply (see_client_tracks _ _ _ _ _ f) in H. destruct (IH _ _ _ _ _ true H) as (b' & v' & -> & Hv).
  exists b', v'. split; [done|]. eapply tracks_sets; [exact Hv|cbn; set_solver..].
Qed.

(** With them: the boundaries' graphs are client code, the other files server code. *)
Lemma page_graph_components fs : forall C S D I v b, tracks root C S D I v -> (forall f, f ∈ fs -> f ∈ project) ->
  exists v', page_graph true fs b v = Some (b || existsb boundary fs, v') /\
    tracks root (⋃ (graph_of <$> filter (fun f => boundary f = true) fs) ∪ C)
      (list_to_set (filter (fun f => boundary f = false) fs) ∪ S) D I v'.
Proof.
  induction fs as [|f fs IH]; intros C S D I v b H Hp; cbn [ModuleGraph.page_graph].
  { exists v. rewrite !filter_nil, orb_false_r. cbn. by rewrite !union_empty_l_L. }
  unfold is_client_boundary. destruct (module_spec f (v_cache v)) as (c & -> & Hc); [by apply H|].
  change (match load (canonical_path f) with Some m => _ | None => false end) with (boundary f).
  apply (tracks_with_cache _ _ _ _ _ _ c) in H; [|done]. rewrite !filter_cons. cbn [existsb].
  destruct (boundary f); cbn [orb].
  - rewrite decide_True by done. rewrite decide_False by done.
    destruct (collect_spec f (v_cache (with_cache v c))) as (c' & -> & Hc'); [done|by apply project_canonical, Hp; left|].
    cbn [mbind option_bind]. apply (tracks_with_cache _ _ _ _ _ _ c') in H; [|done].
    apply (see_clients_tracks _ (in_order (graph_of f))) in H. rewrite in_order_set in H.
    destruct (IH _ _ _ _ _ true H) as (v' & -> & Hv); [by intros; apply Hp; right|].
    exists v'. rewrite orb_true_r. split; [done|]. eapply tracks_sets; [exact Hv|cbn; set_solver..].
  - rewrite decide_False by done. rewrite decide_True by done. apply (see_server_tracks _ _ _ _ _ f) in H.
    destruct (IH _ _ _ _ _ b H) as (v' & -> & Hv); [by intros; apply Hp; right|].
    exists v'. split; [done|]. eapply tracks_sets; [exact Hv|cbn; set_solver..].
Qed.

Abbreviation page_client route :=
  (if server_components (render route) then ⋃ (graph_of <$> filter (fun f => boundary f = true) (elements (files_of route))) else files_of route).
Abbreviation page_server route :=
  (if server_components (render route) then filter (fun f => boundary f = false) (files_of route) else ∅).
Abbreviation missing_default := (missing_default read_to_string canonical_path).

Lemma page_graph_tracks C S D I v route : tracks root C S D I v -> canonical_path (path_new (route_file route)) ∈ project ->
  exists b v', page_graph (server_components (render route)) (in_order (files_of route)) false v = Some (b, v') /\
    (server_components (render route) = true -> b = existsb boundary (elements (files_of route))) /\
    tracks root (page_client route ∪ C) (page_server route ∪ S) D I v'.
Proof.
  intros H Hp. destruct (server_components (render route)).
  - destruct (page_graph_components (in_order (files_of route)) C S D I v false H) as (v' & -> & Hv).
    { intros f Hf%elem_of_in_order. by eapply page_files_project. }
    exists (existsb boundary (in_order (files_of route))), v'. split_and!; [done| |].
    + intros _. apply eq_bool_prop_intro. rewrite !Is_true_true, !existsb_exists. setoid_rewrite <- list_elem_of_In.
      by setoid_rewrite in_order_perm.
    + eapply tracks_sets; [exact Hv|..].
      * f_equal. apply set_eq. intros f. rewrite !elem_of_union_list. setoid_rewrite list_elem_of_fmap.
        setoid_rewrite list_elem_of_filter. by setoid_rewrite in_order_perm.
      * f_equal. apply set_eq. intros f. by rewrite elem_of_list_to_set, list_elem_of_filter, elem_of_filter, elem_of_in_order.
  - destruct (page_graph_hydrated (in_order (files_of route)) C S D I v false H) as (b & v' & -> & Hv).
    exists b, v'. split_and!; [done..|]. rewrite in_order_set in Hv. eapply tracks_sets; [exact Hv|set_solver..].
Qed.

Lemma validate_page_tracks C S D I v route : tracks root C S D I v -> route_kind route = Page ->
  canonical_path (path_new (route_file route)) ∈ project ->
  exists r, validate_page read_to_string canonical_path resolve_specifier resolve_alias mdx_provider resolve_layout io_error fuel
      canonical_root app_dir route v = Some r /\
    if unreadable route then r = inr (EIo (io_error (path_new (route_file route))))
    else exists v', r = inl v' /\ tracks root (page_client route ∪ C) (page_server route ∪ S) (D ++ missing_default route)
           (I ++ if inert route then [route_path route] else []) v'.
Proof.
  intros H Hk Hp. unfold validate_page, require, ModuleGraph.unreadable. rewrite Hk.
  destruct (module_spec (path_new (route_file route)) (v_cache v)) as (c & -> & Hc); [by apply H|].
  fold (module_at (path_new (route_file route))). destruct (module_at _) as [page|] eqn:Epage.
  2:{ eexists. split; [done|]. by rewrite !bool_decide_eq_true_2. }
  rewrite (bool_decide_eq_false_2 (Some page = None)) by done. rewrite andb_false_r.
  apply (tracks_with_cache _ _ _ _ _ _ c) in H; [|done].
  set (v1 := if _ && _ then _ else _).
  assert (tracks root C S (D ++ missing_default route) I v1) as H1.
  { unfold ModuleGraph.missing_default. rewrite Hk, Epage. unfold v1. destruct (_ && _); [by apply tracks_report|by rewrite app_nil_r]. }
  destruct (collect_spec (path_new (route_file route)) (v_cache v1)) as (c2 & -> & H2); [by apply H1|done|]. cbn [mbind option_bind].
  destruct (collect_layouts_spec app_dir (layout_chain route) (graph_of (path_new (route_file route))) c2 H2) as (c3 & -> & H3).
  cbn [mbind option_bind]. apply (tracks_with_cache _ _ _ _ _ _ c3) in H1; [|done].
  destruct (page_graph_tracks _ _ _ _ _ route H1 Hp) as (b & v' & Hpg & Hb & Hv). unfold ModuleGraph.page_files in Hpg.
  rewrite Hpg. cbn [mbind option_bind].
  eexists. split; [done|]. eexists. split; [done|].
  assert ((server_components (render route) && ships_client_bundle (render route) && negb b && bool_decide (client_modules route = []))
    = inert route) as ->.
  { unfold ModuleGraph.inert. rewrite Hk, (bool_decide_eq_true_2 (Page = Page)) by done. cbn [andb].
    destruct (server_components (render route)); [|done]. rewrite (Hb eq_refl). cbn [andb]. rewrite negb_existsb, <- !andb_assoc.
    f_equal. apply andb_comm. }
  destruct (inert route); [|by rewrite app_nil_r]. destruct Hv. split; cbn; try done. by f_equal.
Qed.

Lemma tracks_perm C S D D' I v : tracks root C S D I v -> D ≡ₚ D' -> tracks root C S D' I v.
Proof. intros [] HD. split; try done. by rewrite <- HD. Qed.

Abbreviation edge_report := (edge_report read_to_string canonical_path).

Lemma edge_graph_tracks route fs : forall C S D I v, tracks root C S D I v ->
  tracks root C S (D ++ (fs ≫= edge_report route)) I (edge_graph read_to_string canonical_path route fs v).
Proof.
  induction fs as [|f fs IH]; intros C S D I v H; cbn [edge_graph mbind list_bind]; [by rewrite app_nil_r|].
  destruct (module_spec f (v_cache v)) as (c & -> & Hc); [by apply H|]. rewrite app_assoc. apply IH.
  apply (tracks_with_cache _ _ _ _ _ _ c) in H; [|done]. unfold ModuleGraph.edge_report, ModuleGraph.module_at.
  destruct (load (canonical_path f)); [by apply tracks_report|by rewrite app_nil_r].
Qed.

Lemma validate_edge_tracks C S D I v route : tracks root C S D I v -> canonical_path (path_new (route_file route)) ∈ project ->
  exists v', validate_edge read_to_string canonical_path resolve_specifier resolve_alias mdx_provider resolve_layout fuel app_dir route v
      = Some v' /\
    tracks root C S (D ++ if bool_decide (runtime route = REdge) then elements (files_of route) ≫= edge_report route else []) I v'.
Proof.
  intros H Hp. unfold validate_edge. destruct (bool_decide _); [|exists v; by rewrite app_nil_r].
  destruct (collect_spec (path_new (route_file route)) (v_cache v)) as (c2 & -> & H2); [by apply H|done|]. cbn [mbind option_bind].
  destruct (collect_layouts_spec app_dir (layout_chain route) (graph_of (path_new (route_file route))) c2 H2) as (c3 & -> & H3).
  cbn [mbind option_bind]. apply (tracks_with_cache _ _ _ _ _ _ c3) in H; [|done]. eexists. split; [done|].
  eapply tracks_perm; [by apply edge_graph_tracks|]. by rewrite in_order_perm.
Qed.

(** The paths a route hands to the walks lie in the project. *)
Definition route_in_project (route : RouteEntry) : Prop :=
  canonical_path (path_new (route_file route)) ∈ project /\
  forall e, e ∈ path_new <$> server_modules route -> canonical_path e ∈ project.

Lemma validate_route_tracks C S D I v route : tracks root C S D I v -> route_in_project route ->
  exists r, validate_route read_to_string canonical_path resolve_specifier resolve_alias mdx_provider resolve_layout io_error fuel
      canonical_root app_dir route v = Some r /\
    if unreadable route then r = inr (EIo (io_error (path_new (route_file route))))
    else exists v', r = inl v' /\ tracks root (client_files route ∪ C) (server_files route ∪ S) (D ++ route_report route)
           (I ++ if inert route then [route_path route] else []) v'.
Proof.
  intros H [Hp Hs]. unfold validate_route.
  set (kind := match route_kind route with Page => _ | Api => _ end).
  assert (exists r, kind = Some r /\
    if unreadable route then r = inr (EIo (io_error (path_new (route_file route))))
    else exists v', r = inl v' /\
      tracks root (match route_kind route with Page => page_client route | Api => ∅ end ∪ C)
        (match route_kind route with Page => page_server route | Api => graph_of (path_new (route_file route)) end ∪ S)
        (D ++ missing_default route) (I ++ if inert route then [route_path route] else []) v') as (r & -> & Hr).
  { unfold kind. destruct (route_kind route) eqn:Ek; [by apply validate_page_tracks|].
    assert (unreadable route = false) as -> by (unfold ModuleGraph.unreadable; by rewrite Ek).
    assert (inert route = false) as -> by (unfold ModuleGraph.inert; by rewrite Ek).
    unfold ModuleGraph.missing_default. rewrite Ek, !app_nil_r.
    destruct (see_server_graphs_tracks root [path_new (route_file route)] C S D I v H) as (v' & -> & Hv).
    { intros e ->%list_elem_of_singleton. done. }
    cbn [mbind option_bind]. eexists. split; [done|]. eexists. split; [done|]. eapply tracks_sets; [exact Hv|cbn; set_solver..]. }
  cbn [mbind option_bind]. destruct (unreadable route); [subst r; by eexists|]. destruct Hr as (v1 & -> & H1).
  destruct (validate_edge_tracks _ _ _ _ _ route H1 Hp) as (v2 & -> & H2). cbn [mbind option_bind].
  destruct (see_server_graphs_tracks root (path_new <$> server_modules route) _ _ _ _ _ H2) as (v3 & -> & H3); [done|].
  cbn [mbind option_bind]. eexists. split; [done|]. eexists. split; [done|].
  apply (see_clients_tracks _ (path_new <$> client_modules route)) in H3. rewrite <- app_assoc in H3.
  eapply tracks_sets; [exact H3|by rewrite union_assoc_L..].
Qed.

Lemma validate_routes_tracks routes : forall C S D I v, tracks root C S D I v -> Forall route_in_project routes ->
  exists r, validate_routes read_to_string canonical_path resolve_specifier resolve_alias mdx_provider resolve_layout io_error fuel
      canonical_root app_dir routes v = Some r /\
    match find unreadable routes with
    | Some route => r = inr (EIo (io_error (path_new (route_file route))))
    | None => exists v', r = inl v' /\ tracks root (⋃ (client_files <$> routes) ∪ C) (⋃ (server_files <$> routes) ∪ S)
        (D ++ (routes ≫= route_report)) (I ++ (route_path <$> filter (fun r => inert r = true) routes)) v'
    end.
Proof.
  induction routes as [|route rest IH]; intros C S D I v H Hp.
  { exists (inl v). split; [done|]. exists v. split; [done|]. rewrite filter_nil. cbn. rewrite !app_nil_r.
    eapply tracks_sets; [exact H|set_solver..]. }
  apply Forall_cons in Hp as [Hp Hps]. cbn [validate_routes find].
  destruct (validate_route_tracks _ _ _ _ _ route H Hp) as (r & -> & Hr). cbn [mbind option_bind].
  destruct (unreadable route); [subst r; by eexists|]. destruct Hr as (v1 & -> & H1).
  destruct (IH _ _ _ _ _ H1 Hps) as (r & -> & Hr). exists r. split; [done|].
  destruct (find unreadable rest); [done|]. destruct Hr as (v2 & -> & H2). exists v2. split; [done|].
  rewrite <- !app_assoc in H2. rewrite filter_cons.
  assert ((if inert route then [route_path route] else []) ++ (route_path <$> filter (fun r => inert r = true) rest) =
    route_path <$> (if decide (inert route = true) then route :: filter (fun r => inert r = true) rest
                    else filter (fun r => inert r = true) rest)) as <- by (by destruct (inert route)).
  eapply tracks_sets; [exact H2|cbn; set_solver..].
Qed.
End validation.

(** In a project whose files resolve into it, validation answers, through
    the cache, what the files say: an unreadable page stops it with that page's
    error, the first such page in route order; otherwise each route's own
    diagnostics are reported, each file of a client graph is reported once for
    the client rules and each file of a server graph once for the server rules,
    whatever the number of routes that reach it, the module counts are the
    sizes of those graphs, and the routes with an idle bundle are listed in
    order. *)
Theorem validate_app_reports_each_module_once root manifest :
  Forall route_in_project (routes manifest) ->
  exists r, validate_app read_to_string canonical_path resolve_specifier resolve_alias mdx_provider resolve_layout io_error fuel
      root manifest = Some r /\
    let client := ⋃ (client_files read_to_string canonical_path resolve_specifier resolve_alias mdx_provider fuel resolve_layout
                       (app_dir manifest) <$> routes manifest) in
    let server := ⋃ (server_files read_to_string canonical_path resolve_specifier resolve_alias mdx_provider fuel resolve_layout
                       (app_dir manifest) <$> routes manifest) in
    match find (unreadable read_to_string canonical_path) (routes manifest) with
    | Some route => r = inr (EIo (io_error (path_new (route_file route))))
    | None => exists report, r = inl report /\
        report_diagnostics report ≡ₚ
          (routes manifest ≫= route_report read_to_string canonical_path resolve_specifier resolve_alias mdx_provider fuel resolve_layout
             (app_dir manifest)) ++
          (elements client ≫= client_report root) ++ (elements server ≫= server_report) /\
        report_client_modules report = size client /\ report_server_modules report = size server /\
        report_inert report = route_path <$> filter (fun r => inert read_to_string canonical_path resolve_specifier resolve_alias
          mdx_provider fuel resolve_layout (app_dir manifest) r = true) (routes manifest) /\
        report_page_routes report + report_api_routes report = report_routes report
    end.
Proof.
  intros Hp. unfold validate_app.
  assert (tracks root ∅ ∅ [] [] empty_validation) as H0 by (split; try done; apply empty_cache_ok).
  destruct (validate_routes_tracks root (app_dir manifest) (routes manifest) _ _ _ _ _ H0 Hp) as (r & -> & Hr).
  cbn [mbind option_bind]. eexists. split; [done|]. cbn zeta.
  destruct (find _ (routes manifest)); [by subst r|]. destruct Hr as (v & -> & [H1 _ H3 _ H5 _ H7]). rewrite !union_empty_r_L in *.
  eexists. split; [done|]. split_and!; [exact H7|by cbn; rewrite H1|by cbn; rewrite H3|exact H5|].
  cbn. clear. induction (routes manifest) as [|r rs IH]; [done|]. rewrite !filter_cons.
  destruct (route_kind r); repeat case_decide; try congruence; cbn [length] in *; lia.
Qed.
End layouts.

(** C11: a graph walk ends and, whatever valid cache it starts from, finds
    exactly the files that a chain of imports leads to; the cache it leaves is
    valid for the next walk. *)
Theorem module_graph_is_exact entry c : ok c -> canonical_path entry ∈ project ->
  exists files c', collect entry c = Some (files, c') /\ ok c' /\ forall f, f ∈ files <-> reaches entry f.
Proof.
  intros Hc He. destruct (collect_spec entry c Hc He) as (c' & H & Hok). exists (graph_of entry), c'.
  split_and!; [done..|]. intros f. by apply graph_of_spec.
Qed.
End finite.
End cache.

(** ** A project of three files *)

Module Sample.
Definition page : Path := path_new "/p/app/page.tsx".
Definition helper : Path := path_new "/p/app/b.ts".
Definition layout : Path := path_new "/p/app/layout.tsx".
Definition read (p : Path) : option (list ascii) :=
  if decide (p = page) then Some (bytes_of "import './b'; export default () => 1")
  else if decide (p = helper) then Some (bytes_of "import './page'; import 'server-only'; process.env.KEY")
  else if decide (p = layout) then Some (bytes_of "export default 1")
  else None.
Definition resolve (dir : Path) (specifier : string) : option Path :=
  if String.eqb specifier "./b" then Some helper else if String.eqb specifier "./page" then Some page else None.
Definition resolve_layout (app level : string) : option Path := if String.eqb level "/" then Some layout else None.
Definition project : gset Path := {[page; helper; layout]}.
Definition route : RouteEntry := {| route_id := "r"; route_path := "/"; route_kind := Page; route_file := "/p/app/page.tsx";
  layout_chain := ["/"]; template_chain := []; slots := []; intercepts := []; server_modules := []; client_modules := [];
  runtime := RNode; render := default_render_meta |}.
Definition manifest : RouteManifest := mkRouteManifest "/p/app" [route] None.

Abbreviation example_edges := (edges_of read (fun p => p) resolve None (fun _ => None)).

Lemma project_is_closed : forall x y, x ∈ project -> y ∈ example_edges x -> y ∈ project.
Proof.
  assert (set_Forall (fun x => Forall (fun y => y ∈ project) (example_edges x)) project) as H
    by (apply (bool_decide_unpack _); vm_compute; exact I).
  intros x y Hx Hy. specialize (H x Hx). rewrite Forall_forall in H. by apply H.
Defined.
Lemma fuel_is_enough : S (out_edges example_edges project) <= 10.
Proof. apply Nat.leb_le. vm_compute. reflexivity. Defined.
Lemma layouts_in_project app level f : resolve_layout app level = Some f -> (fun p : Path => p) f ∈ project.
Proof.
  unfold resolve_layout. destruct (String.eqb _ _); [|done]. intros [= <-]. apply (bool_decide_unpack _). vm_compute. exact I.
Defined.
Lemma page_in_project : page ∈ project.
Proof. apply (bool_decide_unpack _). vm_compute. exact I. Defined.
End Sample.

Lemma module_graph_witness : exists files c', collect_relative_graph Sample.read (fun p => p) Sample.resolve None (fun _ => None) 10
    Sample.page empty_cache = Some (files, c') /\
  forall f, f ∈ files <-> reaches Sample.read (fun p => p) Sample.resolve None (fun _ => None) Sample.page f.
Proof.
  destruct (module_graph_is_exact Sample.read (fun p => p) Sample.resolve None (fun _ => None) (fun _ => eq_refl)
    10 Sample.project Sample.project_is_closed Sample.fuel_is_enough Sample.page empty_cache
    (empty_cache_ok _ _ _ _ _) Sample.page_in_project) as (files & c' & H & _ & Hf).
  exists files, c'. split; [exact H|exact Hf].
Defined.

Lemma automatic_strategy_witness : exists meta c',
  detect_render_strategy Sample.read (fun p => p) Sample.resolve None (fun _ => None) Sample.resolve_layout (fun _ => false)
    10 "/p/app" Sample.page "/" ["/"] empty_cache = Some (meta, c') /\ (strategy meta = Ssg \/ strategy meta = Ssr).
Proof.
  destruct (load Sample.read Sample.page) as [page|] eqn:E; [|exfalso; vm_compute in E; discriminate].
  destruct (automatic_strategy_decides Sample.read (fun p => p) Sample.resolve None (fun _ => None) (fun _ => eq_refl)
    10 Sample.project Sample.project_is_closed Sample.fuel_is_enough Sample.resolve_layout Sample.layouts_in_project
    (fun _ => false) "/p/app" Sample.page "/" ["/"] empty_cache page (empty_cache_ok _ _ _ _ _) Sample.page_in_project E)
    as (meta & c' & H & _ & Hs & _).
  - vm_compute in E. injection E as <-. split; try (vm_compute; reflexivity); eexists; vm_compute; reflexivity.
  - exists meta, c'. split; [exact H|exact Hs].
Defined.

Lemma validate_app_witness : exists r, validate_app Sample.read (fun p => p) Sample.resolve None (fun _ => None)
    Sample.resolve_layout (fun _ => "") 10 (path_new "/p") Sample.manifest = Some r.
Proof.
  destruct (validate_app_reports_each_module_once Sample.read (fun p => p) Sample.resolve None (fun _ => None)
    (fun _ => eq_refl) 10 Sample.project Sample.project_is_closed Sample.fuel_is_enough Sample.resolve_layout
    Sample.layouts_in_project (fun _ H => H) (fun _ => "") (path_new "/p") Sample.manifest) as (r & H & _).
  - constructor; [|constructor]. split; [exact Sample.page_in_project|]. intros e He. by apply elem_of_nil in He.
  - exists r. exact H.
Defined.
