(* ===== verification/Resolver.v ===== *)
(** The dependencies of one module and the graph of an entry
    (crates/ruvyxa_bundler/src/resolver.rs, collecting half).

    [collect_deps_cached] answers from the shared caches; [imports_of] is the
    same answer without them.  The file system is the snapshot of [FileProbe]
    and [PackageExports]; a build hook's host is a process, so what it answers
    is a function, and so is the hash of a source. *)
From S2P Require Import Prelude Worklist RustStr Utf8 Text Paths PathBuf FileProbe ModuleAst Manifest Diagnostics PackageExports TsConfig.

(** ** Definitions *)

Inductive JsxRuntime := JsxClassic | JsxAutomatic.
#[export] Instance JsxRuntime_eq_dec : EqDecision JsxRuntime.
Proof. solve_decision. Defined.

(** What the text of a [BundleError::Compiler] raised here is built from. *)
Inductive CompilerMessage :=
  | CaseMessage (specifier importer : string) (mismatch : ImportCaseMismatch)
  | ShadowMessage (specifier importer shadow : string)
  | OtherMessage (text : string).

Inductive BundleError :=
  | BDiagnostic (d : Diagnostic)
  | BIo (error : string)
  | BCompiler (message : CompilerMessage)
  | BUnresolved (specifier importer : string)
  | BCircular (cycle : string).

Record ResolvedDependencies := mkDeps { dep_paths : list PathBuf; dep_aliases : gmap string PathBuf }.
Definition no_deps : ResolvedDependencies := mkDeps [] ∅.

Definition JSX_RUNTIME_SPECIFIER : string := "react/jsx-runtime".

(** [compiler::jsx_is_enabled] *)
Definition jsx_is_enabled (extension : string) (source_looks_like_jsx : bool) : bool :=
  let e := to_ascii_lowercase (trim_start_while (Ascii.eqb "."%char) extension) in
  if existsb (String.eqb e) ["tsx"; "jsx"] then true
  else if existsb (String.eqb e) ["ts"; "mts"; "cts"] then false
  else source_looks_like_jsx.

(** [is_non_js_asset_specifier] *)
Definition is_non_js_asset_specifier (specifier : string) : bool :=
  match extension_of (to_ascii_lowercase specifier) with
  | Some e => existsb (String.eqb e) ["css"; "scss"; "sass"; "less"]
  | None => false
  end.

(** [style_module::is_css_module_path] *)
Definition is_css_module_path (p : PathBuf) : bool :=
  match file_name_of p with
  | Some name => existsb (fun suffix => ends_with suffix (to_ascii_lowercase name)) [".module.css"; ".module.scss"; ".module.sass"]
  | None => false
  end.

(** [specifier.split(['?', '#']).next()] *)
Fixpoint before_query_or_hash (s : string) : string :=
  match s with
  | "" => ""
  | String c rest => if Ascii.eqb c "?" || Ascii.eqb c "#" then "" else String c (before_query_or_hash rest)
  end.

(** [is_css_module_specifier] *)
Definition is_css_module_specifier (specifier : string) : bool := is_css_module_path (before_query_or_hash specifier).

(** A style sheet, left to the style pipeline. *)
Definition is_skipped (specifier : string) : bool := is_non_js_asset_specifier specifier && negb (is_css_module_specifier specifier).

(** The specifiers a module's dependencies are collected from. *)
Definition specifiers_of (source : list ascii) (extension : string) (jsx : JsxRuntime) : list string :=
  let parsed := default empty_ast (parse_module source) in
  let specifiers := import_specifiers parsed in
  if bool_decide (jsx = JsxAutomatic) && has_jsx parsed && jsx_is_enabled extension (has_jsx parsed)
     && negb (existsb (String.eqb JSX_RUNTIME_SPECIFIER) specifiers)
  then specifiers ++ [JSX_RUNTIME_SPECIFIER] else specifiers.

Definition of_package (r : PackageExportsResolution) : option PathBuf := match r with Resolved p => Some p | _ => None end.

Abbreviation Resolutions := (gmap (string * string) (option PathBuf)).

(** [DependencyCacheKey]: directory, source hash, target, automatic JSX, JSX allowed by the extension. *)
Definition target_index (t : BundleTarget) : N := match t with TClient => 0 | TSsr => 1 | TEdge => 2 | TReactServer => 3 end.
Abbreviation DependencyCacheKey := (string * string * N * bool * bool)%type.

Record ResolveCache := mkResolveCache {
  rc_resolutions : Resolutions;
  rc_dependencies : gmap DependencyCacheKey ResolvedDependencies;
}.

(** One host of [BuildHookPipeline] (hooks.rs): its name, and its [resolve_id]. *)
Record HookHost := mkHost { host_name : string; host_resolve_id : string -> PathBuf -> option PathBuf + string }.

Definition hook_failed (host error : string) : BundleError :=
  BCompiler (OtherMessage ("build hook host `" +:+ host +:+ "` resolve_id failed: " +:+ error)).
Definition hook_not_a_path (host specifier path : string) : BundleError :=
  BCompiler (OtherMessage ("build hook host `" +:+ host +:+ "` resolved `" +:+ specifier +:+ "` to `" +:+ path +:+
    "`, which is not a file path. A resolve hook answers with a path " +:+ "— the file itself may be virtual, and a load hook can supply its contents — so return something like `${root}/virtual-" +:+
    specifier +:+ ".ts` rather than a bare or NUL-prefixed id.")).

(** [BuildHookPipeline::resolve_id], with [validate_resolved_id] *)
Fixpoint resolve_id (hosts : list HookHost) (specifier : string) (importer : PathBuf) : option PathBuf + BundleError :=
  match hosts with
  | [] => inl None
  | host :: rest =>
      match host_resolve_id host specifier importer with
      | inr error => inr (hook_failed (host_name host) error)
      | inl (Some path) =>
          if has_char "000"%char path then inr (hook_not_a_path (host_name host) specifier path) else inl (Some path)
      | inl None => resolve_id rest specifier importer
      end
  end.

Section collect.
Variables (is_file : PathBuf -> bool) (canonicalize : PathBuf -> option PathBuf) (read_package : PathBuf -> option PackageJsonValue).
Variable hosts : list HookHost.
Variable hash : list ascii -> string.
Variables (project_root : PathBuf) (tsconfig : TsConfigPaths).

(** What a bare specifier names when no alias does. *)
Definition resolve_bare (base_dir : PathBuf) (specifier : string) (target : BundleTarget) : option PathBuf + BundleError :=
  if self_reference_applies read_package base_dir project_root specifier then
    inl (of_package (resolve_self_reference canonicalize read_package base_dir project_root specifier target))
  else
    match resolve_node_modules_specifier is_file canonicalize read_package base_dir project_root specifier target with
    | Resolved p => inl (Some p)
    | _ =>
        match resolve_project_specifier is_file canonicalize project_root specifier with
        | Some shadow =>
            if is_project_local shadow project_root then inr (BCompiler (ShadowMessage specifier base_dir shadow)) else inl None
        | None => inl None
        end
    end.

(** A specifier that is not relative, with no answer from the hooks. *)
Definition resolve_named (base_dir : PathBuf) (specifier : string) (target : BundleTarget) : option PathBuf + BundleError :=
  if starts_with "#" specifier then
    match resolve_alias is_file canonicalize tsconfig specifier with
    | Some p => inl (Some p)
    | None => inl (of_package (resolve_package_imports_specifier canonicalize read_package base_dir project_root specifier target))
    end
  else if is_absolute specifier then inl (resolve_project_specifier is_file canonicalize project_root specifier)
  else
    match resolve_alias is_file canonicalize tsconfig specifier with
    | Some p => inl (Some p)
    | None => resolve_bare base_dir specifier target
    end.

(** The path of one import, through the cache of relative resolutions. *)
Definition resolve_import (base_dir : PathBuf) (specifier : string) (target : BundleTarget) (c : Resolutions)
    : (option PathBuf + BundleError) * Resolutions :=
  match resolve_id hosts specifier base_dir with
  | inr e => (inr e, c)
  | inl (Some p) => (inl (Some p), c)
  | inl None =>
      if starts_with "." specifier then
        match c !! (base_dir, specifier) with
        | Some cached => (inl cached, c)
        | None =>
            let result := resolve_specifier is_file canonicalize base_dir specifier in
            (inl result, <[(base_dir, specifier) := result]> c)
        end
      else (resolve_named base_dir specifier target, c)
  end.

(** What an import adds once it is resolved. *)
Definition add_import_edge (base_dir : PathBuf) (specifier : string) (target : BundleTarget) (resolved : option PathBuf)
    (d : ResolvedDependencies) : ResolvedDependencies + BundleError :=
  match resolved with
  | Some p =>
      match (if starts_with "." specifier then import_case_mismatch (join_path base_dir specifier) p else None) with
      | Some mismatch => inr (BCompiler (CaseMessage specifier base_dir mismatch))
      | None =>
          inl (if is_project_local p project_root || bool_decide (target = TClient)
               then mkDeps (dep_paths d ++ [p]) (<[specifier := p]> (dep_aliases d)) else d)
      end
  | None => if starts_with "." specifier then inr (BUnresolved specifier base_dir) else inl d
  end.

Fixpoint collect_loop (base_dir : PathBuf) (target : BundleTarget) (specifiers : list string) (d : ResolvedDependencies) (c : Resolutions)
    : (ResolvedDependencies + BundleError) * Resolutions :=
  match specifiers with
  | [] => (inl d, c)
  | s :: rest =>
      if is_skipped s then collect_loop base_dir target rest d c
      else
        let '(resolved, c) := resolve_import base_dir s target c in
        match resolved with
        | inr e => (inr e, c)
        | inl resolved =>
            match add_import_edge base_dir s target resolved d with
            | inr e => (inr e, c)
            | inl d => collect_loop base_dir target rest d c
            end
        end
  end.

(** [collect_deps_uncached] *)
Definition collect_deps_uncached (source : list ascii) (extension : string) (base_dir : PathBuf) (target : BundleTarget) (jsx : JsxRuntime)
    (c : Resolutions) : (ResolvedDependencies + BundleError) * Resolutions :=
  collect_loop base_dir target (specifiers_of source extension jsx) no_deps c.

(** [collect_deps_cached] *)
Definition collect_deps_cached (source : list ascii) (extension : string) (base_dir : PathBuf) (target : BundleTarget) (jsx : JsxRuntime)
    (c : ResolveCache) : (ResolvedDependencies + BundleError) * ResolveCache :=
  if bool_decide (length hosts = 0) then
    let key : DependencyCacheKey :=
      (base_dir, hash source, target_index target, bool_decide (jsx = JsxAutomatic), jsx_is_enabled extension true) in
    match rc_dependencies c !! key with
    | Some cached => (inl cached, c)
    | None =>
        match collect_deps_uncached source extension base_dir target jsx (rc_resolutions c) with
        | (inr e, rs) => (inr e, mkResolveCache rs (rc_dependencies c))
        | (inl d, rs) => (inl d, mkResolveCache rs (<[key := d]> (rc_dependencies c)))
        end
    end
  else
    let '(r, rs) := collect_deps_uncached source extension base_dir target jsx (rc_resolutions c) in
    (r, mkResolveCache rs (rc_dependencies c)).
End collect.

(** ** Specification *)

Section spec.
Variables (is_file : PathBuf -> bool) (canonicalize : PathBuf -> option PathBuf) (read_package : PathBuf -> option PackageJsonValue)
  (hosts : list HookHost) (project_root : PathBuf) (tsconfig : TsConfigPaths).

(** Where an import leads, with no cache. *)
Definition import_target (base_dir : PathBuf) (specifier : string) (target : BundleTarget) : option PathBuf + BundleError :=
  match resolve_id hosts specifier base_dir with
  | inr e => inr e
  | inl (Some p) => inl (Some p)
  | inl None =>
      if starts_with "." specifier then inl (resolve_specifier is_file canonicalize base_dir specifier)
      else resolve_named is_file canonicalize read_package project_root tsconfig base_dir specifier target
  end.

(** The dependencies a list of imports adds. *)
Fixpoint imports_from (base_dir : PathBuf) (target : BundleTarget) (specifiers : list string) (d : ResolvedDependencies)
    : ResolvedDependencies + BundleError :=
  match specifiers with
  | [] => inl d
  | s :: rest =>
      if is_skipped s then imports_from base_dir target rest d
      else
        match import_target base_dir s target with
        | inr e => inr e
        | inl resolved =>
            match add_import_edge project_root base_dir s target resolved d with
            | inr e => inr e
            | inl d => imports_from base_dir target rest d
            end
        end
  end.
Definition imports_of (source : list ascii) (extension : string) (base_dir : PathBuf) (target : BundleTarget) (jsx : JsxRuntime)
    : ResolvedDependencies + BundleError :=
  imports_from base_dir target (specifiers_of source extension jsx) no_deps.

(** What is cached of the relative resolutions is what the file system says. *)
Definition resolutions_ok (c : Resolutions) : Prop :=
  forall base s r, c !! (base, s) = Some r -> r = resolve_specifier is_file canonicalize base s.

(** And what is cached of the dependencies is what any module with the key has. *)
Definition resolve_cache_ok (hash : list ascii -> string) (c : ResolveCache) : Prop :=
  resolutions_ok (rc_resolutions c) /\
  forall source extension base target jsx d,
    rc_dependencies c !! (base, hash source, target_index target, bool_decide (jsx = JsxAutomatic), jsx_is_enabled extension true) = Some d ->
    imports_of source extension base target jsx = inl d.

(** The path is one of the project, or in the directory of a package above the importer or the root. *)
Definition in_project_or_package (base_dir : PathBuf) (specifier : string) (p : PathBuf) : Prop :=
  path_is_inside canonicalize p (ts_project_root tsconfig) = true \/
  (exists name key d, package_name_and_export_key specifier = Some (name, key) /\ (d ∈ node_modules_candidates base_dir project_root) /\
     inside (normalized_canonical_path canonicalize (join_path d name)) p = true) \/
  (exists dir m, dir ∈ ancestors_of base_dir /\ package_manifest read_package (join_path dir "package.json") = Some m /\
     inside (normalized_canonical_path canonicalize dir) p = true).
End spec.

(** ** Properties *)

Section properties.
Context (is_file : PathBuf -> bool) (canonicalize : PathBuf -> option PathBuf) (read_package : PathBuf -> option PackageJsonValue)
  (hosts : list HookHost) (project_root : PathBuf) (tsconfig : TsConfigPaths) (hash : list ascii -> string).
Abbreviation resolutions_ok := (resolutions_ok is_file canonicalize).
Abbreviation cache_ok := (resolve_cache_ok is_file canonicalize read_package hosts project_root tsconfig hash).
Abbreviation imports_of := (imports_of is_file canonicalize read_package hosts project_root tsconfig).
Abbreviation import_target := (import_target is_file canonicalize read_package hosts project_root tsconfig).

Lemma resolve_import_spec base s target c : resolutions_ok c ->
  exists c', resolve_import is_file canonicalize read_package hosts project_root tsconfig base s target c = (import_target base s target, c') /\
    resolutions_ok c'.
Proof.
  intros Hc. unfold resolve_import, Resolver.import_target. destruct (resolve_id hosts s base) as [[p|]|e]; [by exists c| |by exists c].
  destruct (starts_with "." s); [|by exists c]. destruct (c !! (base, s)) as [r|] eqn:E.
  - exists c. by rewrite (Hc _ _ _ E).
  - eexists. split; [done|]. intros b' s' r. rewrite lookup_insert_Some. intros [[[= <- <-] <-]|[_ H]]; [done|by apply Hc].
Qed.

Lemma collect_imports_spec base target specifiers : forall d c, resolutions_ok c ->
  exists c', collect_loop is_file canonicalize read_package hosts project_root tsconfig base target specifiers d c =
    (imports_from is_file canonicalize read_package hosts project_root tsconfig base target specifiers d, c') /\ resolutions_ok c'.
Proof.
  induction specifiers as [|s rest IH]; intros d c Hc; cbn [collect_loop imports_from]; [by exists c|].
  destruct (is_skipped s); [by apply IH|].
  destruct (resolve_import_spec base s target c Hc) as (c1 & -> & H1). fold (import_target base s target).
  destruct (import_target base s target) as [r|e]; [|by exists c1].
  destruct (add_import_edge project_root base s target r d) as [d'|e]; [by apply IH|by exists c1].
Qed.

(** The extension matters to the specifiers only through whether it allows JSX. *)
Lemma specifiers_of_extension source ext ext' jsx : jsx_is_enabled ext true = jsx_is_enabled ext' true ->
  specifiers_of source ext jsx = specifiers_of source ext' jsx.
Proof.
  intros H. unfold specifiers_of. destruct (has_jsx _) eqn:E; [by rewrite H|]. by rewrite !andb_false_r.
Qed.

(** The shared caches never change an answer.  Started from caches that
    are right, collecting a module's dependencies gives exactly what resolving
    its imports from scratch gives, errors included, and leaves the caches
    right for every module, whatever its file extension and directory. *)
Theorem dependency_caches_transparent (hash_inj : forall a b, hash a = hash b -> a = b) source extension base target jsx c : cache_ok c ->
  exists c', collect_deps_cached is_file canonicalize read_package hosts hash project_root tsconfig source extension base target jsx c =
    (imports_of source extension base target jsx, c') /\ cache_ok c'.
Proof.
  intros [Hr Hd]. unfold collect_deps_cached, collect_deps_uncached.
  destruct (collect_imports_spec base target (specifiers_of source extension jsx) no_deps (rc_resolutions c) Hr) as (rs & Hl & Hrs).
  rewrite Hl. fold (imports_of source extension base target jsx).
  destruct (bool_decide (length hosts = 0)); [|eexists; by split_and!].
  destruct (rc_dependencies c !! _) as [d|] eqn:E; [exists c; split; [|done]; by rewrite (Hd _ _ _ _ _ _ E)|].
  destruct (imports_of source extension base target jsx) as [d|e] eqn:Ei; [|eexists; by split_and!].
  eexists. split; [done|]. split; [done|]. cbn [rc_dependencies]. intros source' extension' base' target' jsx' d'.
  rewrite lookup_insert_Some. intros [[Heq <-]|[_ H]]; [|by apply Hd]. injection Heq as <- Hh Ht Hj He.
  apply hash_inj in Hh as <-. assert (target' = target) as -> by (by destruct target, target').
  assert (jsx' = jsx) as -> by (destruct jsx, jsx'; try done; by rewrite bool_decide_eq_true_2, bool_decide_eq_false_2 in Hj).
  rewrite <- Ei. unfold Resolver.imports_of. by rewrite (specifiers_of_extension source extension' extension).
Qed.

(** The dependencies so far: their aliases are imports already resolved. *)
Definition collected (base : PathBuf) (target : BundleTarget) (specifiers : list string) (d : ResolvedDependencies) : Prop :=
  (forall s p, dep_aliases d !! s = Some p -> s ∈ specifiers /\ import_target base s target = inl (Some p)) /\
  (forall p, p ∈ dep_paths d <-> exists s, dep_aliases d !! s = Some p).

(** One more import resolved. *)
Lemma add_import_edge_collected base target before d s r d1 : collected base target before d ->
  import_target base s target = inl r -> add_import_edge project_root base s target r d = inl d1 ->
  collected base target (before ++ [s]) d1 /\ (forall s' p, dep_aliases d !! s' = Some p -> dep_aliases d1 !! s' = Some p) /\
  match r with
  | Some p => is_project_local p project_root || bool_decide (target = TClient) = true -> dep_aliases d1 !! s = Some p
  | None => starts_with "." s = false
  end.
Proof.
  intros Hd Et Ea. destruct Hd as [Ha Hpaths]. unfold add_import_edge in Ea. destruct r as [p|].
  - destruct (if starts_with "." s then _ else None); [done|].
    destruct (_ || _) eqn:El; injection Ea as <-; [|split_and!; [split; [set_solver|done]|done|done]].
    assert (forall s' p', dep_aliases d !! s' = Some p' -> <[s:=p]> (dep_aliases d) !! s' = Some p') as Hmono.
    { intros s' p' H. destruct (decide (s = s')) as [<-|]; [|by rewrite lookup_insert_ne].
      rewrite lookup_insert_eq. apply Ha in H as [_ H]. congruence. }
    split_and!; [split; cbn|done|intros _; cbn; by rewrite lookup_insert_eq].
    + intros s' p'. rewrite lookup_insert_Some. intros [[<- <-]|[_ H]]; [set_solver|]. apply Ha in H. set_solver.
    + intros p'. rewrite elem_of_app, list_elem_of_singleton, Hpaths. split.
      * intros [[s' H]| ->]; [exists s'; by apply Hmono|exists s; by rewrite lookup_insert_eq].
      * intros [s' H]. apply lookup_insert_Some in H as [[_ <-]|[_ H]]; [by right|left; by exists s'].
  - destruct (starts_with "." s) eqn:Edot; [done|]. injection Ea as <-. split_and!; [split; [set_solver|done]|done|done].
Qed.

Lemma imports_from_spec base target specifiers : forall before d, collected base target before d ->
  match imports_from is_file canonicalize read_package hosts project_root tsconfig base target specifiers d with
  | inl d' => collected base target (before ++ specifiers) d' /\ (forall s p, dep_aliases d !! s = Some p -> dep_aliases d' !! s = Some p) /\
      forall s, s ∈ specifiers -> is_skipped s = false -> exists r, import_target base s target = inl r /\
        match r with
        | Some p => is_project_local p project_root || bool_decide (target = TClient) = true -> dep_aliases d' !! s = Some p
        | None => starts_with "." s = false
        end
  | inr e => exists s, s ∈ specifiers /\ is_skipped s = false /\
      (import_target base s target = inr e \/
       exists r d', import_target base s target = inl r /\ add_import_edge project_root base s target r d' = inr e)
  end.
Proof.
  induction specifiers as [|s rest IH]; intros before d Hd; cbn [imports_from].
  { rewrite app_nil_r. split_and!; [done..|set_solver]. }
  destruct (is_skipped s) eqn:Es.
  { assert (collected base target (before ++ [s]) d) as Hd' by (destruct Hd as [H1 H2]; split; [set_solver|done]).
    specialize (IH _ _ Hd'). rewrite <- app_assoc in IH. destruct (imports_from _ _ _ _ _ _ _ _ rest d) as [d'|e]; [|set_solver].
    destruct IH as (H1 & H2 & H3). split_and!; [done..|]. intros s' [->|Hs]%elem_of_cons Hk; [congruence|by apply H3]. }
  fold (import_target base s target). destruct (import_target base s target) as [r|e] eqn:Et; [|exists s; split_and!; [by left|done|by left]].
  destruct (add_import_edge project_root base s target r d) as [d1|e] eqn:Ea.
  2:{ exists s. split_and!; [by left|done|]. right. by exists r, d. }
  destruct (add_import_edge_collected _ _ _ _ _ _ _ Hd Et Ea) as (H1 & H2 & H3).
  specialize (IH _ _ H1). rewrite <- app_assoc in IH. destruct (imports_from _ _ _ _ _ _ _ _ rest d1) as [d'|e]; [|set_solver].
  destruct IH as (H4 & H5 & H6). split_and!; [done|by auto|]. intros s' [->|Hs]%elem_of_cons Hk; [|by apply H6].
  exists r. split; [done|]. destruct r as [p|]; [by auto|done].
Qed.

(** No import is lost.  When a module's dependencies are collected, every
    import that is not a style sheet was resolved: where it leads to a file of
    the project, or to any file of a browser bundle, that path is among the
    dependencies under the import's own spelling; an import that leads nowhere
    is not a relative one.  Nothing else is among them.  When they are not
    collected, one of the imports is refused or leads nowhere. *)
Theorem no_import_is_lost source extension base target jsx :
  match imports_of source extension base target jsx with
  | inl d =>
      (forall s, s ∈ specifiers_of source extension jsx -> is_skipped s = false -> exists r, import_target base s target = inl r /\
         match r with
         | Some p => is_project_local p project_root || bool_decide (target = TClient) = true -> dep_aliases d !! s = Some p
         | None => starts_with "." s = false
         end) /\
      (forall s p, dep_aliases d !! s = Some p -> s ∈ specifiers_of source extension jsx /\ import_target base s target = inl (Some p)) /\
      (forall p, p ∈ dep_paths d <-> exists s, dep_aliases d !! s = Some p)
  | inr e => exists s, s ∈ specifiers_of source extension jsx /\ is_skipped s = false /\
      (import_target base s target = inr e \/
       exists r d', import_target base s target = inl r /\ add_import_edge project_root base s target r d' = inr e)
  end.
Proof.
  assert (collected base target [] no_deps) as H0.
  { split; cbn; [intros s p H; by rewrite lookup_empty in H|]. intros p. split; [set_solver|]. intros [s H]. by rewrite lookup_empty in H. }
  pose proof (imports_from_spec base target (specifiers_of source extension jsx) [] no_deps H0) as H. cbn [app] in H.
  unfold Resolver.imports_of. destruct (imports_from _ _ _ _ _ _ _ _ _ no_deps) as [d|e]; [|done].
  destruct H as ([H1 H2] & _ & H3). by split_and!.
Qed.

(** An import that is neither relative nor absolute cannot leave the
    project and its packages: a path it resolves to lies, after links are
    followed, inside the project, inside the directory of its package in one of
    the [node_modules] directories above the importer or the root, or inside
    the directory of a manifest at or above the importer. *)
Theorem bare_imports_stay_inside base specifier target p :
  resolve_named is_file canonicalize read_package project_root tsconfig base specifier target = inl (Some p) ->
  is_absolute specifier = false ->
  in_project_or_package canonicalize read_package project_root tsconfig base specifier p.
Proof.
  assert (resolve_alias is_file canonicalize tsconfig specifier = Some p -> path_is_inside canonicalize p (ts_project_root tsconfig) = true) as Halias.
  { apply resolve_alias_root. }
  assert (forall r, of_package r = Some p -> r = Resolved p) as Hof by (intros [| |q]; cbn; congruence).
  unfold resolve_named, resolve_bare. intros H Habs. rewrite Habs in H.
  assert ((resolve_package_imports_specifier canonicalize read_package base project_root specifier target = Resolved p \/
    resolve_self_reference canonicalize read_package base project_root specifier target = Resolved p) ->
    exists dir m, dir ∈ ancestors_of base /\ package_manifest read_package (join_path dir "package.json") = Some m /\
      inside (normalized_canonical_path canonicalize dir) p = true) as Hnear.
  { intros Hr. apply (nearest_package_inside is_file) in Hr as (dir & m & ? & ? & ?). by exists dir, m. }
  destruct (resolve_alias is_file canonicalize tsconfig specifier) as [q|].
  { destruct (starts_with "#" specifier); injection H as ->; left; by apply Halias. }
  right. destruct (starts_with "#" specifier); [right; injection H as H; apply Hnear; left; by apply Hof|].
  destruct (self_reference_applies _ _ _ _); [right; injection H as H; apply Hnear; right; by apply Hof|]. left.
  destruct (resolve_node_modules_specifier _ _ _ _ _ _ _) as [| |q] eqn:E; [repeat case_match; congruence..|].
  injection H as ->. by apply node_modules_inside in E.
Qed.
End properties.

(** ** Inputs *)

Module Inputs.
Definition is_file (p : PathBuf) : bool := String.eqb p "/p/src/utils.ts".
Definition tsconfig : TsConfigPaths := mkTsConfig "/p" (Some "/p/src") [] [] [] "/p".
Definition cache : ResolveCache := mkResolveCache ∅ ∅.

Lemma text_of_inj a b : text_of a = text_of b -> a = b.
Proof.
  intros H. rewrite <- (String.list_ascii_of_string_of_list_ascii a), <- (String.list_ascii_of_string_of_list_ascii b).
  unfold text_of in H. by rewrite H.
Qed.
Lemma cache_is_ok : resolve_cache_ok is_file Some (fun _ => None) [] "/p" tsconfig text_of cache.
Proof. split; [intros b s r H|intros s e b t j d H]; unfold cache in H; cbn in H; by rewrite lookup_empty in H. Qed.
End Inputs.

Lemma dependency_caches_witness : exists c', collect_deps_cached Inputs.is_file Some (fun _ => None) [] text_of "/p" Inputs.tsconfig
    (bytes_of "import 'utils'") "ts" "/p/app" TClient JsxAutomatic Inputs.cache =
    (imports_of Inputs.is_file Some (fun _ => None) [] "/p" Inputs.tsconfig (bytes_of "import 'utils'") "ts" "/p/app" TClient JsxAutomatic, c').
Proof.
  destruct (dependency_caches_transparent Inputs.is_file Some (fun _ => None) [] "/p" Inputs.tsconfig text_of Inputs.text_of_inj
    (bytes_of "import 'utils'") "ts" "/p/app" TClient JsxAutomatic Inputs.cache Inputs.cache_is_ok) as (c' & H & _).
  exists c'. exact H.
Defined.

Lemma bare_imports_witness :
  resolve_named Inputs.is_file Some (fun _ => None) "/p" Inputs.tsconfig "/p/app" "utils" TClient = inl (Some "/p/src/utils.ts") /\
  in_project_or_package Some (fun _ => None) "/p" Inputs.tsconfig "/p/app" "utils" "/p/src/utils.ts".
Proof.
  assert (resolve_named Inputs.is_file Some (fun _ => None) "/p" Inputs.tsconfig "/p/app" "utils" TClient = inl (Some "/p/src/utils.ts")) as H
    by (vm_compute; reflexivity).
  split; [exact H|]. exact (bare_imports_stay_inside Inputs.is_file Some (fun _ => None) "/p" Inputs.tsconfig "/p/app" "utils" TClient
    "/p/src/utils.ts" H eq_refl).
Defined.
