(* ===== verification/ResolveGraph.v ===== *)
(** The walk over the modules of an entry
    ([resolve_graph_with_incremental] of crates/ruvyxa_bundler/src/resolver.rs):
    the layers of the breadth-first walk, and the order its modules come out in.

    What one module of a layer becomes, the body of the parallel loop, is the
    function [visit]: it reads the file, runs the hooks and the content
    compiler, and collects the dependencies ([Resolver]). *)
From S2P Require Import Prelude RustStr Paths PathBuf Resolver.

(** ** Definitions *)

Record ResolvedModule := mkResolved {
  rm_path : PathBuf;
  rm_source : string;
  rm_compiled_content : option string;
  rm_load_source_map : option string;
  rm_deps : list PathBuf;
  rm_dependency_aliases : gmap string PathBuf;
  rm_watch_paths : list PathBuf;
  rm_glob_matches : list PathBuf;
  rm_is_external : bool;
}.

(** The module of the virtual entry. *)
Definition entry_module (entry_label entry_source : string) (deps : ResolvedDependencies) : ResolvedModule :=
  mkResolved entry_label entry_source None None (dep_paths deps) (dep_aliases deps) [] [] false.

(** [visited_set.insert] on each path: those that are new, in order. *)
Fixpoint insert_new (paths : list PathBuf) (visited : gset Path) : list PathBuf * gset Path :=
  match paths with
  | [] => ([], visited)
  | p :: rest =>
      if decide (path_new p ∈ visited) then insert_new rest visited
      else let '(fresh, visited) := insert_new rest ({[path_new p]} ∪ visited) in (p :: fresh, visited)
  end.

Section graph.
Variable visit : PathBuf -> ResolvedModule + BundleError.

(** The results of a layer, in the order of the layer: the next layer, or the first error. *)
Fixpoint collect_layer (frontier : list PathBuf) (next : list PathBuf) (visited : gset Path) (order : list (PathBuf * ResolvedModule))
    : (list PathBuf * gset Path * list (PathBuf * ResolvedModule)) + BundleError :=
  match frontier with
  | [] => inl (next, visited, order)
  | p :: rest =>
      match visit p with
      | inr e => inr e
      | inl m =>
          let '(fresh, visited) := insert_new (rm_deps m) visited in
          collect_layer rest (next ++ fresh) visited (order ++ [(p, m)])
      end
  end.

Fixpoint resolve_layers (fuel : nat) (frontier : list PathBuf) (visited : gset Path) (order : list (PathBuf * ResolvedModule))
    : option (list (PathBuf * ResolvedModule) + BundleError) :=
  match frontier, fuel with
  | [], _ => Some (inl order)
  | _ :: _, O => None
  | _ :: _, S fuel =>
      match collect_layer frontier [] visited order with
      | inr e => Some (inr e)
      | inl (next, visited, order) => resolve_layers fuel next visited order
      end
  end.

(** [resolve_graph_with_incremental], once the entry's dependencies are collected *)
Definition resolve_graph (fuel : nat) (entry_label entry_source : string) (entry_deps : ResolvedDependencies)
    : option (list ResolvedModule + BundleError) :=
  let '(frontier, visited) := insert_new (dep_paths entry_deps) {[path_new entry_label]} in
  match resolve_layers fuel frontier visited [(entry_label, entry_module entry_label entry_source entry_deps)] with
  | None => None
  | Some (inr e) => Some (inr e)
  | Some (inl order) => Some (inl (snd <$> order))
  end.
End graph.

(** ** Specification *)

(** A path the entry's dependencies lead to. *)
Inductive reached (visit : PathBuf -> ResolvedModule + BundleError) (start : list PathBuf) : PathBuf -> Prop :=
  | reached_start p : (p ∈ start) -> reached visit start p
  | reached_step p m d : reached visit start p -> visit p = inl m -> (d ∈ rm_deps m) -> reached visit start d.

Abbreviation keys l := (path_new <$> l).

(** Between two steps: [order] is finished, [queue] is waiting, both are what
    was marked as visited, each path once, and what the finished modules need
    is among them. *)
Record walking (visit : PathBuf -> ResolvedModule + BundleError) (start : list PathBuf) (entry : PathBuf * ResolvedModule)
    (queue : list PathBuf) (visited : gset Path) (order : list (PathBuf * ResolvedModule)) : Prop := {
  walking_entry : exists done, order = entry :: done /\ Forall (fun pm => visit (fst pm) = inl (snd pm) /\ reached visit start (fst pm)) done;
  walking_queue : Forall (reached visit start) queue;
  walking_once : NoDup (keys (order.*1 ++ queue));
  walking_visited : forall k, k ∈ visited <-> k ∈ keys (order.*1 ++ queue);
  walking_closed : forall p m d, (p, m) ∈ order -> d ∈ rm_deps m -> path_new d ∈ visited;
}.

(** ** Properties *)

Lemma insert_new_spec paths : forall visited,
  let '(fresh, visited') := insert_new paths visited in
  (forall p, p ∈ fresh -> p ∈ paths) /\ NoDup (keys fresh) /\ (forall p, p ∈ fresh -> path_new p ∉ visited) /\
  (forall k, k ∈ visited' <-> k ∈ visited \/ k ∈ keys fresh) /\ (forall p, p ∈ paths -> path_new p ∈ visited').
Proof.
  induction paths as [|p paths IH]; intros visited; cbn [insert_new].
  { split_and!; [done|constructor|by intros p ?%elem_of_nil| |by intros p ?%elem_of_nil].
    intros k. cbn. rewrite elem_of_nil. tauto. }
  case_decide as Hp.
  - specialize (IH visited). destruct (insert_new paths visited) as [fresh visited'].
    destruct IH as (H1 & H2 & H3 & H4 & H5). split_and!; [intros q Hq; right; by apply H1|done|done|done|].
    intros q [->|Hq]%elem_of_cons; [apply H4; by left|by apply H5].
  - specialize (IH ({[path_new p]} ∪ visited)). destruct (insert_new paths ({[path_new p]} ∪ visited)) as [fresh visited'].
    destruct IH as (H1 & H2 & H3 & H4 & H5). cbn [fmap list_fmap].
    setoid_rewrite elem_of_union in H3. setoid_rewrite elem_of_union in H4. setoid_rewrite elem_of_singleton in H3.
    setoid_rewrite elem_of_singleton in H4. setoid_rewrite elem_of_cons. split_and!.
    + intros q [->|Hq]; [by left|right; by apply H1].
    + constructor; [|done]. rewrite list_elem_of_fmap. intros (q & Heq & Hq). apply (H3 q Hq). by left.
    + intros q [->|Hq]; [done|]. intros Hv. apply (H3 q Hq). by right.
    + intros k. rewrite H4. tauto.
    + intros q [->|Hq]; [apply H4; left; by left|by apply H5].
Qed.

Section walk.
Context (visit : PathBuf -> ResolvedModule + BundleError) (start : list PathBuf) (entry : PathBuf * ResolvedModule).
Abbreviation walking := (walking visit start entry).

Lemma walking_step p queue m visited order : walking (p :: queue) visited order -> visit p = inl m ->
  let '(fresh, visited') := insert_new (rm_deps m) visited in walking (queue ++ fresh) visited' (order ++ [(p, m)]).
Proof.
  intros [(done & -> & Hdone) Hq Honce Hvis Hcl] Hm. pose proof (insert_new_spec (rm_deps m) visited) as Hi.
  destruct (insert_new (rm_deps m) visited) as [fresh visited']. destruct Hi as (H1 & H2 & H3 & H4 & H5).
  apply Forall_cons in Hq as [Hp Hq].
  assert (keys (((entry :: done) ++ [(p, m)]).*1 ++ queue ++ fresh) = keys ((entry :: done).*1 ++ (p :: queue)) ++ keys fresh) as Heq.
  { rewrite <- fmap_app. f_equal. rewrite fmap_app. cbn [fmap list_fmap fst app]. by rewrite <- !app_assoc. }
  split.
  - exists (done ++ [(p, m)]). split; [done|]. apply Forall_app. by split; [|constructor].
  - apply Forall_app. split; [done|]. rewrite Forall_forall. intros d Hd. eapply reached_step; [done..|by apply H1].
  - rewrite Heq. apply NoDup_app. split_and!; [done| |done]. intros k Hk (q & -> & Hf)%list_elem_of_fmap.
    apply (H3 q Hf). by apply Hvis.
  - intros k. rewrite Heq, elem_of_app, H4. by rewrite Hvis.
  - intros q m' d [Hin|[= -> ->]%list_elem_of_singleton]%elem_of_app Hd; [apply H4; left; by eapply Hcl|by apply H5].
Qed.

Lemma collect_layer_spec frontier : forall next visited order, walking (frontier ++ next) visited order ->
  match collect_layer visit frontier next visited order with
  | inl (next', visited', order') => walking next' visited' order' /\ length order' = length order + length frontier
  | inr e => exists p, reached visit start p /\ visit p = inr e
  end.
Proof.
  induction frontier as [|p frontier IH]; intros next visited order Hw; cbn [collect_layer].
  { split; [done|cbn; lia]. }
  destruct (visit p) as [m|e] eqn:Em.
  2:{ exists p. split; [|done]. pose proof (walking_queue _ _ _ _ _ _ Hw) as Hq. by apply Forall_cons in Hq as [Hq _]. }
  pose proof (walking_step p (frontier ++ next) m visited order Hw Em) as Hs.
  destruct (insert_new (rm_deps m) visited) as [fresh visited']. rewrite <- app_assoc in Hs. apply IH in Hs.
  destruct (collect_layer _ frontier _ _ _) as [[[next' visited''] order']|e]; [|done].
  destruct Hs as [Hs Hl]. split; [done|]. rewrite Hl, length_app. cbn. lia.
Qed.

Context (project : gset Path).
Hypothesis project_all : forall p, reached visit start p -> path_new p ∈ project.

Lemma walking_bound queue visited order : walking queue visited order -> length order + length queue <= S (size project).
Proof.
  intros [(done & -> & Hdone) Hq Honce _ _]. cbn [fmap list_fmap app] in Honce. apply NoDup_cons in Honce as [_ Honce].
  apply (size_list_to_set (C := gset Path)) in Honce.
  rewrite length_fmap, length_app, length_fmap in Honce.
  assert (size (list_to_set (C := gset Path) (keys (done.*1 ++ queue))) <= size project) as Hs; [|cbn; lia].
  apply subseteq_size. intros k Hk. apply elem_of_list_to_set, list_elem_of_fmap in Hk as (p & -> & Hp). apply project_all.
  apply elem_of_app in Hp as [Hp|Hp]; [|rewrite Forall_forall in Hq; by apply Hq].
  apply list_elem_of_fmap in Hp as (pm & -> & Hin). rewrite Forall_forall in Hdone. by apply Hdone.
Qed.

Lemma resolve_layers_spec fuel : forall frontier visited order, walking frontier visited order ->
  S (size project) <= fuel + length order ->
  exists r, resolve_layers visit fuel frontier visited order = Some r /\
    match r with
    | inl order' => exists visited', walking [] visited' order'
    | inr e => exists p, reached visit start p /\ visit p = inr e
    end.
Proof.
  induction fuel as [|fuel IH]; intros frontier visited order Hw Hf; pose proof (walking_bound _ _ _ Hw) as Hb.
  - destruct frontier as [|p frontier]; cbn [resolve_layers]; [|cbn in Hb; lia]. eexists. split; [done|]. by exists visited.
  - destruct frontier as [|p frontier]; cbn [resolve_layers]; [eexists; split; [done|]; by exists visited|].
    pose proof (collect_layer_spec (p :: frontier) [] visited order) as Hs. rewrite app_nil_r in Hs. specialize (Hs Hw).
    destruct (collect_layer _ _ _ _ _) as [[[next visited'] order']|e]; [|by eexists].
    destruct Hs as [Hs Hl]. apply IH; [done|]. cbn in Hl. lia.
Qed.
End walk.

(** C12: walking an entry's graph ends.  Where every path that can be reached
    lies in a finite project, it stops with the error of a module that was
    reached, or with the entry's module first and then every module reached,
    each path once: whatever the entry or a module of the result depends on is
    in the result. *)
Theorem resolved_graph_is_complete visit fuel label source deps (project : gset Path) :
  (forall p, reached visit (dep_paths deps) p -> path_new p ∈ project) -> size project <= fuel ->
  exists r, resolve_graph visit fuel label source deps = Some r /\
    match r with
    | inl modules => exists done, modules = entry_module label source deps :: done.*2 /\
        Forall (fun pm => visit (fst pm) = inl (snd pm) /\ reached visit (dep_paths deps) (fst pm)) done /\
        NoDup (keys (label :: done.*1)) /\
        forall d, (exists m, m ∈ modules /\ d ∈ rm_deps m) -> path_new d ∈ keys (label :: done.*1)
    | inr e => exists p, reached visit (dep_paths deps) p /\ visit p = inr e
    end.
Proof.
  intros Hproject Hf. unfold resolve_graph. set (entry := (label, entry_module label source deps)).
  pose proof (insert_new_spec (dep_paths deps) {[path_new label]}) as Hi.
  destruct (insert_new (dep_paths deps) {[path_new label]}) as [frontier visited]. destruct Hi as (H1 & H2 & H3 & H4 & H5).
  assert (walking visit (dep_paths deps) entry frontier visited [entry]) as Hw.
  { split.
    - by exists [].
    - rewrite Forall_forall. intros p Hp. apply reached_start. by apply H1.
    - cbn. constructor; [|done]. intros (p & Heq & Hp)%list_elem_of_fmap. apply (H3 p Hp). rewrite <- Heq. by apply elem_of_singleton.
    - intros k. rewrite H4. cbn [fmap list_fmap app fst]. by rewrite elem_of_cons, elem_of_singleton.
    - intros p m d [= -> ->]%list_elem_of_singleton Hd. by apply H5. }
  destruct (resolve_layers_spec visit (dep_paths deps) entry project Hproject fuel frontier visited [entry] Hw) as (r & -> & Hr); [cbn; lia|].
  destruct r as [order|e]; [|by eexists]. destruct Hr as (visited' & [(done & -> & Hdone) _ Honce Hvis Hcl]).
  rewrite app_nil_r in Honce, Hvis. eexists. split; [done|]. exists done. split_and!; [done..|].
  intros d (m & Hm & Hd). apply (list_elem_of_fmap snd (entry :: done)) in Hm as ([p m'] & -> & Hin).
  apply Hvis. by eapply Hcl.
Qed.

(** Two modules that import each other. *)
Lemma resolved_graph_witness : exists r, resolve_graph
    (fun p => inl (mkResolved p "" None None (if String.eqb p "/a" then ["/b"] else ["/a"]) ∅ [] [] false)) 2 "entry" ""
    (mkDeps ["/a"] ∅) = Some r.
Proof.
  destruct (resolved_graph_is_complete
    (fun p => inl (mkResolved p "" None None (if String.eqb p "/a" then ["/b"] else ["/a"]) ∅ [] [] false)) 2 "entry" ""
    (mkDeps ["/a"] ∅) {[path_new "/a"; path_new "/b"]}) as (r & H & _).
  - intros p Hp. induction Hp as [p Hp|p m d _ _ Hm Hd].
    + apply list_elem_of_singleton in Hp as ->. set_solver.
    + injection Hm as <-. cbn in Hd. destruct (String.eqb p "/a"); apply list_elem_of_singleton in Hd as ->; set_solver.
  - apply Nat.leb_le. vm_compute. reflexivity.
  - exists r. exact H.
Defined.
