(* ===== verification/Router.v ===== *)
(** The radix-trie route matcher (crates/ruvyxa_dev_server/src/router.rs) and a
    declarative account of what it computes.

    [TrieNode], [insert], [lookup], [parse_pattern] and [extract_params] follow
    the source.  The specification of a router is the class [RouteMatcher]: a
    compiled table and a lookup such that the route returned matches the path,
    is the most specific of those that match, and is the last registered among
    equals.  [linear_find], a scan over all routes, is a second
    implementation of the class; the trie is proved equal to it. *)
From S2P Require Import Prelude RustStr Manifest.

(** ** Definitions *)

Inductive PatternSegment :=
  | Static (value : string)
  | Param (name : string)
  | Wildcard (name : string)
  | OptionalWildcard (name : string).

#[export] Instance PatternSegment_eq_dec : EqDecision PatternSegment.
Proof. solve_decision. Defined.

(** [split_path] *)
Definition split_path (path : string) : list string :=
  filter (fun s => is_empty_str s = false)
    (split_char slash_char (trim_while (Ascii.eqb slash_char) path)).

(** One segment of a pattern: the closure of [parse_pattern]. *)
Definition parse_segment (segment : string) : PatternSegment :=
  if starts_with "[[..." segment && ends_with "]]" segment then
    OptionalWildcard (trim_end_str "]]" (trim_start_str "[[..." segment))
  else if starts_with "[..." segment && ends_with "]" segment then
    Wildcard (trim_end_str "]" (trim_start_str "[..." segment))
  else if starts_with "[" segment && ends_with "]" segment then
    Param (trim_end_str "]" (trim_start_str "[" segment))
  else Static segment.

(** [parse_pattern] *)
Definition parse_pattern (pattern : string) : list PatternSegment :=
  parse_segment <$> split_path pattern.

(** [struct TrieNode] *)
Inductive TrieNode := mkNode {
  static_children : list (string * TrieNode);
  param_child : option TrieNode;
  wildcard : option nat;
  optional_wildcard : option nat;
  route_index : option nat;
}.

(** [TrieNode::new] *)
Definition new_node : TrieNode := mkNode [] None None None None.

(** [find_or_create_static] followed by an update of the child found: the first
    child stored under [segment] is replaced, or a new one is pushed. *)
Fixpoint update_static (segment : string) (f : TrieNode -> TrieNode)
    (children : list (string * TrieNode)) : list (string * TrieNode) :=
  match children with
  | [] => [(segment, f new_node)]
  | (key, child) :: rest =>
      if String.eqb key segment then (key, f child) :: rest
      else (key, child) :: update_static segment f rest
  end.

(** [TrieNode::insert] *)
Fixpoint insert_route (segments : list PatternSegment) (idx : nat) (n : TrieNode) : TrieNode :=
  match segments with
  | [] => mkNode (static_children n) (param_child n) (wildcard n) (optional_wildcard n) (Some idx)
  | Static value :: rest =>
      mkNode (update_static value (insert_route rest idx) (static_children n))
        (param_child n) (wildcard n) (optional_wildcard n) (route_index n)
  | Param _ :: rest =>
      mkNode (static_children n) (Some (insert_route rest idx (default new_node (param_child n))))
        (wildcard n) (optional_wildcard n) (route_index n)
  | Wildcard _ :: _ =>
      mkNode (static_children n) (param_child n) (Some idx) (optional_wildcard n) (route_index n)
  | OptionalWildcard _ :: _ =>
      mkNode (static_children n) (param_child n) (wildcard n) (Some idx) (route_index n)
  end.

(** The child [lookup_static] descends into: the first one stored under [segment]. *)
Fixpoint find_static (segment : string) (children : list (string * TrieNode)) : option TrieNode :=
  match children with
  | [] => None
  | (key, child) :: rest => if String.eqb key segment then Some child else find_static segment rest
  end.

(** [a.or(b)] on options *)
Definition or_option {A} (a b : option A) : option A :=
  match a with Some x => Some x | None => b end.

(** [TrieNode::lookup] and [lookup_static]; [parts] is the slice from [index] on. *)
Fixpoint lookup_route (parts : list string) (n : TrieNode) : option nat :=
  match parts with
  | [] => or_option (route_index n) (optional_wildcard n)
  | segment :: rest =>
      match (match find_static segment (static_children n) with
             | Some child => lookup_route rest child
             | None => None
             end) with
      | Some result => Some result
      | None =>
          match (match param_child n with
                 | Some child => lookup_route rest child
                 | None => None
                 end) with
          | Some result => Some result
          | None => or_option (wildcard n) (optional_wildcard n)
          end
      end
  end.

(** [struct RadixRouter] *)
Record RadixRouter := mkRadixRouter {
  root : TrieNode;
  patterns : list (list PatternSegment);
}.

(** The loop of [RadixRouter::compile]: [index] numbers the routes from where it starts. *)
Fixpoint insert_all (index : nat) (pats : list (list PatternSegment)) (n : TrieNode) : TrieNode :=
  match pats with
  | [] => n
  | segments :: rest => insert_all (S index) rest (insert_route segments index n)
  end.

(** [RadixRouter::compile] *)
Definition compile (manifest : RouteManifest) : RadixRouter :=
  let pats := (fun r => parse_pattern (route_path r)) <$> routes manifest in
  mkRadixRouter (insert_all 0 pats new_node) pats.

(** [extract_params]: the loop over the pattern, [index] being the position of
    its head in the whole path; [break] ends it. *)
Fixpoint extract_from (pattern : list PatternSegment) (parts : list string)
    (params : RouteParams) : RouteParams :=
  match pattern with
  | [] => params
  | Static _ :: pattern' => extract_from pattern' (drop 1 parts) params
  | Param name :: pattern' =>
      match parts with
      | [] => params
      | value :: rest => extract_from pattern' rest (<[name := VString value]> params)
      end
  | Wildcard name :: _ | OptionalWildcard name :: _ =>
      match parts with
      | [] => params
      | _ => <[name := VArray (VString <$> parts)]> params
      end
  end.

Definition extract_params (pattern : list PatternSegment) (parts : list string) : RouteParams :=
  extract_from pattern parts ∅.

Record RouteMatch := mkRouteMatch { matched_route : RouteEntry; matched_params : RouteParams }.

(** [RadixRouter::find] *)
Definition find_route (r : RadixRouter) (manifest : RouteManifest) (request_path : string)
    : option RouteMatch :=
  let parts := split_path request_path in
  match lookup_route parts (root r) with
  | None => None
  | Some i =>
      match routes manifest !! i with
      | None => None
      | Some route =>
          let params := default ∅ ((fun p => extract_params p parts) <$> patterns r !! i) in
          Some (mkRouteMatch route params)
      end
  end.

(** *** The specification *)

(** What a pattern looks like once parameter names are forgotten and everything
    behind a catch-all is dropped. *)
Inductive Shape :=
  | ShEnd
  | ShStatic (value : string) (rest : Shape)
  | ShParam (rest : Shape)
  | ShWild
  | ShOpt.

#[export] Instance Shape_eq_dec : EqDecision Shape.
Proof. solve_decision. Defined.

Fixpoint shape_of (p : list PatternSegment) : Shape :=
  match p with
  | [] => ShEnd
  | Static v :: p' => ShStatic v (shape_of p')
  | Param _ :: p' => ShParam (shape_of p')
  | Wildcard _ :: _ => ShWild
  | OptionalWildcard _ :: _ => ShOpt
  end.

(** Does a path belong to a shape? *)
Fixpoint shape_matches (sh : Shape) (parts : list string) : bool :=
  match sh, parts with
  | ShEnd, [] => true
  | ShStatic v sh', s :: rest => String.eqb v s && shape_matches sh' rest
  | ShParam sh', _ :: rest => shape_matches sh' rest
  | ShWild, _ :: _ => true
  | ShOpt, _ => true
  | _, _ => false
  end.

Definition pattern_matches (p : list PatternSegment) (parts : list string) : bool :=
  shape_matches (shape_of p) parts.

(** The shapes a path can belong to, most specific first: at every segment the
    static shape before the parameter, the required catch-all before the
    optional one, and an exact end before an empty optional catch-all. *)
Fixpoint shapes_of_path (parts : list string) : list Shape :=
  match parts with
  | [] => [ShEnd; ShOpt]
  | s :: rest => (ShStatic s <$> shapes_of_path rest) ++ (ShParam <$> shapes_of_path rest)
                 ++ [ShWild; ShOpt]
  end.

(** The order of the declarative account: [a] is strictly more specific than [b]. *)
Fixpoint more_specific (a b : Shape) : bool :=
  match a, b with
  | ShEnd, ShOpt => true
  | ShStatic _ a', ShStatic _ b' => more_specific a' b'
  | ShStatic _ _, (ShParam _ | ShWild | ShOpt) => true
  | ShParam a', ShParam b' => more_specific a' b'
  | ShParam _, (ShWild | ShOpt) => true
  | ShWild, ShOpt => true
  | _, _ => false
  end.

(** Last registered index whose pattern has the shape. *)
Fixpoint last_with_shape (index : nat) (pats : list (list PatternSegment)) (sh : Shape) : option nat :=
  match pats with
  | [] => None
  | p :: rest =>
      match last_with_shape (S index) rest sh with
      | Some i => Some i
      | None => if decide (shape_of p = sh) then Some index else None
      end
  end.

(** The linear scan the trie replaces: keep the best match seen so far, a later
    route winning unless an earlier one is strictly more specific. *)
Fixpoint scan (index : nat) (pats : list (list PatternSegment)) (parts : list string)
    (best : option (nat * Shape)) : option nat :=
  match pats with
  | [] => fst <$> best
  | p :: rest =>
      let sh := shape_of p in
      let best' :=
        if shape_matches sh parts then
          match best with
          | Some (i, b) => if more_specific b sh then Some (i, b) else Some (index, sh)
          | None => Some (index, sh)
          end
        else best in
      scan (S index) rest parts best'
  end.

Definition linear_find (pats : list (list PatternSegment)) (parts : list string) : option nat :=
  scan 0 pats parts None.

(** The route and the parameters a scan of the whole manifest answers. *)
Definition linear_route (m : RouteManifest) (path : string) : option RouteMatch :=
  let parts := split_path path in
  match linear_find ((fun r => parse_pattern (route_path r)) <$> routes m) parts with
  | None => None
  | Some i =>
      (fun r => mkRouteMatch r (extract_params (parse_pattern (route_path r)) parts)) <$> routes m !! i
  end.

(** The contract between the request pipeline and a router. *)
Class RouteMatcher (R : Type) := {
  build : list (list PatternSegment) -> R;
  resolve : R -> list string -> option nat;
  resolve_none : forall pats parts,
    resolve (build pats) parts = None <->
    forall i p, pats !! i = Some p -> pattern_matches p parts = false;
  resolve_some : forall pats parts i,
    resolve (build pats) parts = Some i ->
    exists p, pats !! i = Some p /\ pattern_matches p parts = true /\
      forall j q, pats !! j = Some q -> pattern_matches q parts = true ->
        more_specific (shape_of q) (shape_of p) = false /\
        (shape_of q = shape_of p -> j <= i);
}.

(** Put captured parameters back into a pattern: the path a pattern and its
    bindings stand for. *)
Fixpoint fill_pattern (p : list PatternSegment) (params : RouteParams) : option (list string) :=
  match p with
  | [] => Some []
  | Static v :: p' => cons v <$> fill_pattern p' params
  | Param name :: p' =>
      match params !! name with
      | Some (VString v) => cons v <$> fill_pattern p' params
      | _ => None
      end
  | Wildcard name :: _ | OptionalWildcard name :: _ =>
      match params !! name with
      | Some (VArray items) =>
          mapM (fun v => match v with VString s => Some s | _ => None end) items
      | Some _ => None
      | None => Some []
      end
  end.

Definition seg_name (s : PatternSegment) : list string :=
  match s with
  | Static _ => []
  | Param n | Wildcard n | OptionalWildcard n => [n]
  end.

(** The parameter names a pattern declares. *)
Fixpoint pattern_names (p : list PatternSegment) : list string :=
  match p with [] => [] | s :: p' => seg_name s ++ pattern_names p' end.

(** The answer the contract asks for. *)
Definition best_match (pats : list (list PatternSegment)) (parts : list string) (i : nat) : Prop :=
  exists p, pats !! i = Some p /\ pattern_matches p parts = true /\
    forall j q, pats !! j = Some q -> pattern_matches q parts = true ->
      more_specific (shape_of q) (shape_of p) = false /\
      (shape_of q = shape_of p -> j <= i).

Definition scan_inv (pats : list (list PatternSegment)) (parts : list string)
    (best : option (nat * Shape)) : Prop :=
  match best with
  | None => forall j q, pats !! j = Some q -> pattern_matches q parts = false
  | Some (i, sh) => best_match pats parts i /\ exists p, pats !! i = Some p /\ shape_of p = sh
  end.

(** ** The trie as a finite map from shapes *)

(** The index stored in a trie under a shape. *)
Fixpoint trie_get (n : TrieNode) (sh : Shape) : option nat :=
  match sh with
  | ShEnd => route_index n
  | ShStatic v sh' => match find_static v (static_children n) with
                      | Some c => trie_get c sh'
                      | None => None
                      end
  | ShParam sh' => match param_child n with
                   | Some c => trie_get c sh'
                   | None => None
                   end
  | ShWild => wildcard n
  | ShOpt => optional_wildcard n
  end.

Lemma trie_get_new sh : trie_get new_node sh = None.
Proof. by destruct sh. Qed.

Lemma find_static_update k k' f ch :
  find_static k (update_static k' f ch) =
  if String.eqb k' k then Some (f (default new_node (find_static k' ch))) else find_static k ch.
Proof.
  induction ch as [|[key c] ch IH]; simpl; [by destruct (String.eqb k' k)|].
  destruct (String.eqb_spec key k') as [->|Hk]; simpl.
  - by destruct (String.eqb_spec k' k).
  - rewrite IH. destruct (String.eqb_spec key k) as [->|]; [|done].
    by destruct (String.eqb_spec k' k) as [->|].
Qed.

Lemma trie_get_default n sh : trie_get (default new_node n) sh = n ≫= fun c => trie_get c sh.
Proof. destruct n; [done|]. apply trie_get_new. Qed.

Lemma trie_get_insert segs i n sh :
  trie_get (insert_route segs i n) sh = if decide (shape_of segs = sh) then Some i else trie_get n sh.
Proof.
  revert n sh. induction segs as [|s segs IH]; intros n sh.
  { by destruct sh. }
  destruct s as [v|name|name|name], sh as [|v' sh|sh| |]; try done; simpl.
  - rewrite find_static_update. destruct (String.eqb_spec v v') as [->|Hv].
    + rewrite IH, trie_get_default.
      repeat case_decide; simplify_eq; [done|]. by destruct (find_static v' _).
    + by rewrite decide_False by congruence.
  - rewrite IH, trie_get_default.
    repeat case_decide; simplify_eq; [done|]. by destruct (param_child n).
Qed.

Lemma trie_get_insert_all k pats n sh :
  trie_get (insert_all k pats n) sh = or_option (last_with_shape k pats sh) (trie_get n sh).
Proof.
  revert k n. induction pats as [|p pats IH]; intros k n; simpl; [done|].
  rewrite IH, trie_get_insert. destruct (last_with_shape (S k) pats sh); [done|]. simpl.
  by case_decide.
Qed.

Lemma find_map_const_none {A B} (l : list A) : find_map (fun _ => @None B) l = None.
Proof. by induction l. Qed.

(** A lookup is the first shape of the path, most specific first, that the trie knows. *)
Lemma lookup_route_get parts n :
  lookup_route parts n = find_map (trie_get n) (shapes_of_path parts).
Proof.
  revert n. induction parts as [|s parts IH]; intros n; simpl.
  { destruct (route_index n); [done|]. by destruct (optional_wildcard n). }
  rewrite !find_map_app, !find_map_map. simpl.
  assert (forall o : option TrieNode,
            match o with Some c => lookup_route parts c | None => None end =
            find_map (fun x => match o with Some c => trie_get c x | None => None end)
              (shapes_of_path parts)) as Hc.
  { intros [c|]; [apply IH|]. by rewrite find_map_const_none. }
  rewrite <- !Hc.
  destruct (match find_static s _ with Some c => _ | None => _ end); [done|].
  destruct (match param_child n with Some c => _ | None => _ end); [done|].
  destruct (wildcard n); [done|]. by destruct (optional_wildcard n).
Qed.

Lemma lookup_compiled pats parts :
  lookup_route parts (insert_all 0 pats new_node) =
  find_map (last_with_shape 0 pats) (shapes_of_path parts).
Proof.
  rewrite lookup_route_get. apply find_map_ext. intros sh.
  rewrite trie_get_insert_all, trie_get_new. by destruct (last_with_shape 0 pats sh).
Qed.

(** ** Shapes: membership and order *)

Lemma shapes_of_path_matches sh parts :
  sh ∈ shapes_of_path parts <-> shape_matches sh parts = true.
Proof.
  revert sh. induction parts as [|s parts IH]; intros sh; simpl.
  - destruct sh; simpl; set_solver.
  - rewrite !elem_of_app, !list_elem_of_fmap.
    destruct sh as [|v sh|sh| |]; simpl; rewrite ?andb_true_iff, ?String.eqb_eq, <- ?IH; set_solver.
Qed.

Lemma more_specific_asym a b : more_specific a b = true -> more_specific b a = false.
Proof.
  revert b. induction a as [|v a IH|a IH| |]; intros [|v' b|b| |]; simpl; try done; apply IH.
Qed.

Lemma more_specific_total parts a b :
  shape_matches a parts = true -> shape_matches b parts = true ->
  more_specific a b = false -> more_specific b a = false -> a = b.
Proof.
  revert a b. induction parts as [|s parts IH]; intros [|v a|a| |] [|v' b|b| |]; simpl; try done.
  - intros [->%String.eqb_eq Ha]%andb_true_iff [->%String.eqb_eq Hb]%andb_true_iff H1 H2.
    f_equal. by apply IH.
  - intros Ha Hb H1 H2. f_equal. by apply IH.
Qed.

Lemma more_specific_trans parts a b c :
  shape_matches a parts = true -> shape_matches b parts = true -> shape_matches c parts = true ->
  more_specific a b = true -> more_specific b c = true -> more_specific a c = true.
Proof.
  revert a b c. induction parts as [|s parts IH];
    intros [|v a|a| |] [|v' b|b| |] [|v'' c|c| |]; simpl; try done.
  - intros [_ Ha]%andb_true_iff [_ Hb]%andb_true_iff [_ Hc]%andb_true_iff. by apply IH.
  - by apply IH.
Qed.

Lemma shapes_of_path_sorted parts : StronglySorted (fun a b => more_specific a b = true) (shapes_of_path parts).
Proof.
  induction parts as [|s parts IH]; simpl; [by repeat constructor|].
  assert (forall f : Shape -> Shape, (forall a b, more_specific (f a) (f b) = more_specific a b) ->
            StronglySorted (fun a b => more_specific a b = true) (f <$> shapes_of_path parts)) as Hf.
  { intros f Hmono. induction IH as [|x l Hl IHl Hx]; simpl; constructor; [done|].
    apply Forall_fmap. eapply Forall_impl; [exact Hx|]. intros y. simpl. by rewrite Hmono. }
  apply StronglySorted_app_2; [|by apply Hf|apply StronglySorted_app_2].
  - intros x1 x2 H1 H2. apply list_elem_of_fmap in H1 as (y & -> & _).
    apply elem_of_app in H2 as [H2|H2]; [by apply list_elem_of_fmap in H2 as (z & -> & _)|].
    set_unfold. by destruct H2 as [-> | [-> |]].
  - intros x1 x2 H1 H2. apply list_elem_of_fmap in H1 as (y & -> & _).
    set_unfold. by destruct H2 as [-> | [-> |]].
  - by apply Hf.
  - by repeat constructor.
Qed.

(** ** What a matcher must find *)

Lemma last_with_shape_None k pats sh :
  last_with_shape k pats sh = None <-> forall j q, pats !! j = Some q -> shape_of q <> sh.
Proof.
  revert k. induction pats as [|p pats IH]; intros k; simpl; [by split|].
  split.
  - destruct (last_with_shape (S k) pats sh) eqn:E; [done|].
    case_decide as Hp; [done|]. intros _ [|j] q; simpl; [by intros [= <-]|by apply (IH (S k))].
  - intros H. rewrite (proj2 (IH (S k))) by (intros j; exact (H (S j))).
    by rewrite decide_False by exact (H 0 p eq_refl).
Qed.

Lemma last_with_shape_Some k pats sh i :
  last_with_shape k pats sh = Some i ->
  k <= i /\ (exists p, pats !! (i - k) = Some p /\ shape_of p = sh) /\
  forall j q, pats !! j = Some q -> shape_of q = sh -> j + k <= i.
Proof.
  revert k. induction pats as [|p pats IH]; intros k; simpl; [done|].
  destruct (last_with_shape (S k) pats sh) as [i'|] eqn:E.
  - intros [= ->]. destruct (IH _ E) as (Hle & (q & Hq & Hsh) & Hlast). split_and!; [lia| |].
    + exists q. split; [|done]. by replace (i - k) with (S (i - S k)) by lia.
    + intros [|j] q'; simpl; [lia|]. intros Hq' Hsh'. specialize (Hlast j q' Hq' Hsh'). lia.
  - case_decide as Hp; [|done]. intros [= <-]. split_and!; [done| |].
    + exists p. by rewrite Nat.sub_diag.
    + intros [|j] q; simpl; [done|]. intros Hq Hsh.
      by apply (proj1 (last_with_shape_None (S k) pats sh) E j q Hq) in Hsh.
Qed.

Lemma best_match_unique pats parts i j :
  best_match pats parts i -> best_match pats parts j -> i = j.
Proof.
  intros (p & Hp & Hpm & Hpb) (q & Hq & Hqm & Hqb).
  destruct (Hpb j q Hq Hqm) as [H1 H2], (Hqb i p Hp Hpm) as [H3 H4].
  assert (shape_of q = shape_of p) as Heq by by apply (more_specific_total parts).
  specialize (H2 Heq). specialize (H4 (eq_sym Heq)). lia.
Qed.

Lemma lookup_compiled_none pats parts :
  lookup_route parts (insert_all 0 pats new_node) = None <->
  forall i p, pats !! i = Some p -> pattern_matches p parts = false.
Proof.
  rewrite lookup_compiled, find_map_None, Forall_forall. split.
  - intros H i p Hp. apply not_true_iff_false. intros Hm.
    apply shapes_of_path_matches, H in Hm.
    by eapply (proj1 (last_with_shape_None 0 pats _) Hm i p).
  - intros H sh Hsh%shapes_of_path_matches. apply last_with_shape_None.
    intros j q Hq <-. specialize (H j q Hq). unfold pattern_matches in H. congruence.
Qed.

Lemma lookup_compiled_some pats parts i :
  lookup_route parts (insert_all 0 pats new_node) = Some i -> best_match pats parts i.
Proof.
  rewrite lookup_compiled, find_map_Some. intros (l1 & sh & l2 & Hl & Hi & Hnone).
  apply last_with_shape_Some in Hi as (_ & (p & Hp & <-) & Hlast). rewrite Nat.sub_0_r in Hp.
  pose proof (shapes_of_path_sorted parts) as Hsort. rewrite Hl in Hsort.
  exists p. split_and!; [done| |].
  { apply shapes_of_path_matches. rewrite Hl. set_solver. }
  intros j q Hq Hm. apply shapes_of_path_matches in Hm as Hin. rewrite Hl in Hin.
  split.
  - apply elem_of_app in Hin as [Hin|[->|Hin]%elem_of_cons].
    + exfalso. rewrite Forall_forall in Hnone.
      by eapply (proj1 (last_with_shape_None 0 pats _) (Hnone _ Hin) j q).
    + apply not_true_iff_false. intros H. pose proof (more_specific_asym _ _ H). congruence.
    + apply more_specific_asym.
      apply StronglySorted_app in Hsort as (_ & _ & Hs).
      apply StronglySorted_cons in Hs as [Hs _]. rewrite Forall_forall in Hs. by apply Hs.
  - intros Hsh. specialize (Hlast j q Hq Hsh). lia.
Qed.

(** ** The scan *)

Lemma scan_step pats parts best p :
  scan_inv pats parts best ->
  scan_inv (pats ++ [p]) parts
    (if shape_matches (shape_of p) parts then
       match best with
       | Some (i, b) => if more_specific b (shape_of p) then Some (i, b)
                        else Some (List.length pats, shape_of p)
       | None => Some (List.length pats, shape_of p)
       end
     else best).
Proof.
  intros Hinv.
  assert (forall j q, (pats ++ [p]) !! j = Some q ->
            (j < List.length pats /\ pats !! j = Some q) \/ (j = List.length pats /\ q = p)) as Hcase.
  { intros j q [Hq|[Hj Hq]]%lookup_app_Some; [left; split; [by eapply lookup_lt_Some|done]|].
    right. destruct (j - List.length pats) eqn:E; simplify_eq/=. split; [lia|done]. }
  assert ((pats ++ [p]) !! List.length pats = Some p) as Hlast.
  { by rewrite lookup_app_r, Nat.sub_diag by lia. }
  destruct (shape_matches (shape_of p) parts) eqn:Hm.
  2:{ destruct best as [[i sh]|]; simpl in *.
      - destruct Hinv as [(p' & Hp' & Hpm & Hb) (p'' & Hp'' & Hsh)]. simplify_eq.
        assert ((pats ++ [p]) !! i = Some p') by by apply lookup_app_l_Some.
        split; [|eauto]. exists p'. split_and!; [done|done|].
        intros j q [[Hj Hq]|[-> ->]]%Hcase Hqm; [by apply Hb|].
        unfold pattern_matches in Hqm. congruence.
      - intros j q [[_ Hq]|[-> ->]]%Hcase; [by eapply Hinv|done]. }
  destruct best as [[i sh]|]; simpl in *.
  - destruct Hinv as [(p' & Hp' & Hpm & Hb) (p0 & Hp0 & Hsh)]. simplify_eq.
    assert ((pats ++ [p]) !! i = Some p') by by apply lookup_app_l_Some.
    pose proof (lookup_lt_Some _ _ _ Hp') as Hlt.
    destruct (more_specific (shape_of p') (shape_of p)) eqn:Hms; simpl.
    + split; [|eauto]. exists p'. split_and!; [done|done|].
      intros j q [[Hj Hq]|[-> ->]]%Hcase Hqm; [by apply Hb|].
      split; [by apply more_specific_asym|]. intros Heq.
      rewrite Heq in Hms. pose proof (more_specific_asym _ _ Hms). congruence.
    + split; [|eauto]. exists p. split_and!; [done|done|].
      intros j q [[Hj Hq]|[-> ->]]%Hcase Hqm; [|split; [|done]].
      * split; [|lia]. apply not_true_iff_false. intros Hqp.
        destruct (Hb j q Hq Hqm) as [Hqp' Hsame].
        destruct (more_specific (shape_of p) (shape_of p')) eqn:Hpp.
        -- rewrite (more_specific_trans parts (shape_of q) (shape_of p) (shape_of p')) in Hqp'; done.
        -- rewrite (more_specific_total parts (shape_of p') (shape_of p)) in Hqp' by done. congruence.
      * apply not_true_iff_false. intros H'. pose proof (more_specific_asym _ _ H'). congruence.
  - split; [|eauto]. exists p. split_and!; [done|done|].
    intros j q [[Hj Hq]|[-> ->]]%Hcase Hqm; [by rewrite (Hinv j q Hq) in Hqm|].
    split; [|done]. apply not_true_iff_false. intros H'. pose proof (more_specific_asym _ _ H'). congruence.
Qed.

Lemma scan_spec done pats parts best :
  scan_inv done parts best ->
  match scan (List.length done) pats parts best with
  | Some i => best_match (done ++ pats) parts i
  | None => forall j q, (done ++ pats) !! j = Some q -> pattern_matches q parts = false
  end.
Proof.
  revert done best. induction pats as [|p pats IH]; intros dn best Hinv; simpl.
  - rewrite app_nil_r. destruct best as [[i sh]|]; simpl in *; [by destruct Hinv|done].
  - replace (dn ++ p :: pats) with ((dn ++ [p]) ++ pats) by by rewrite <- app_assoc.
    replace (S (List.length dn)) with (List.length (dn ++ [p])) by (rewrite length_app; simpl; lia).
    apply IH. by apply scan_step.
Qed.

Lemma linear_find_spec pats parts :
  match linear_find pats parts with
  | Some i => best_match pats parts i
  | None => forall j q, pats !! j = Some q -> pattern_matches q parts = false
  end.
Proof. apply (scan_spec [] pats parts None). by intros j q. Qed.

(** ** Two matchers behind one interface *)

#[export] Instance trie_matcher : RouteMatcher TrieNode := {
  build := fun pats => insert_all 0 pats new_node;
  resolve := fun n parts => lookup_route parts n;
  resolve_none := lookup_compiled_none;
  resolve_some := lookup_compiled_some;
}.

Lemma linear_find_none pats parts :
  linear_find pats parts = None <->
  forall i p, pats !! i = Some p -> pattern_matches p parts = false.
Proof.
  pose proof (linear_find_spec pats parts) as H. destruct (linear_find pats parts) as [i|]; [|done].
  split; [done|]. intros Hn. destruct H as (p & Hp & Hm & _). by rewrite (Hn i p Hp) in Hm.
Qed.

Lemma linear_find_some pats parts i : linear_find pats parts = Some i -> best_match pats parts i.
Proof. intros H. pose proof (linear_find_spec pats parts) as Hs. by rewrite H in Hs. Qed.

#[export] Instance linear_matcher : RouteMatcher (list (list PatternSegment)) := {
  build := fun pats => pats;
  resolve := linear_find;
  resolve_none := linear_find_none;
  resolve_some := linear_find_some;
}.

(** The contract determines the answer, so any two matchers agree. *)
Lemma matchers_agree {R1 R2} `{M1 : RouteMatcher R1, M2 : RouteMatcher R2} pats parts :
  resolve (build (R:=R1) pats) parts = resolve (build (R:=R2) pats) parts.
Proof.
  destruct (resolve (build (R:=R1) pats) parts) as [i|] eqn:E1,
    (resolve (build (R:=R2) pats) parts) as [j|] eqn:E2; [|exfalso|exfalso|done].
  - f_equal. apply resolve_some in E1, E2. by eapply best_match_unique.
  - apply resolve_some in E1 as (p & Hp & Hm & _).
    by rewrite (proj1 (resolve_none pats parts) E2 i p Hp) in Hm.
  - apply resolve_some in E2 as (p & Hp & Hm & _).
    by rewrite (proj1 (resolve_none pats parts) E1 j p Hp) in Hm.
Qed.

(** ** Parameter binding *)

Lemma extract_from_other p parts m n :
  n ∉ pattern_names p -> extract_from p parts m !! n = m !! n.
Proof.
  revert parts m. induction p as [|s p IH]; intros parts m; [done|]. cbn [pattern_names].
  intros [Hn Hp]%not_elem_of_app.
  destruct s as [v|name|name|name]; cbn [extract_from seg_name] in *; [by apply IH|..];
    destruct parts as [|x parts]; try done; rewrite ?IH by done; by apply lookup_insert_ne; set_solver.
Qed.

Lemma mapM_VString l :
  mapM (fun v => match v with VString s => Some s | _ => None end) (VString <$> l) = Some l.
Proof. by apply mapM_fmap_Some. Qed.

Lemma fill_extract_from p parts m :
  shape_matches (shape_of p) parts = true -> NoDup (pattern_names p) ->
  (forall n, n ∈ pattern_names p -> m !! n = None) ->
  fill_pattern p (extract_from p parts m) = Some parts.
Proof.
  revert parts m. induction p as [|s p IH]; intros parts m; cbn [pattern_names].
  { by destruct parts. }
  intros Hm [_ [Hdisj Hp]]%NoDup_app Hnone.
  destruct s as [v|name|name|name], parts as [|x parts]; cbn [shape_of shape_matches] in Hm; try done;
    cbn [extract_from fill_pattern drop seg_name] in *.
  - apply andb_true_iff in Hm as [->%String.eqb_eq Hm]. rewrite IH; [done|done|done|].
    intros n Hn. apply Hnone. set_solver.
  - rewrite extract_from_other, lookup_insert_eq by set_solver.
    rewrite IH; [done|done|done|].
    intros n Hn. rewrite lookup_insert_ne; [apply Hnone|]; set_solver.
  - by rewrite lookup_insert_eq, mapM_VString.
  - by rewrite Hnone by set_solver.
  - by rewrite lookup_insert_eq, mapM_VString.
Qed.

(** The route found, by its index in the manifest. *)
Lemma find_route_index m path :
  let parts := split_path path in
  match find_route (compile m) m path with
  | Some found =>
      exists i, routes m !! i = Some (matched_route found) /\
        matched_params found = extract_params (parse_pattern (route_path (matched_route found))) parts /\
        best_match ((fun r => parse_pattern (route_path r)) <$> routes m) parts i
  | None => forall r, r ∈ routes m -> pattern_matches (parse_pattern (route_path r)) parts = false
  end.
Proof.
  intros parts. unfold find_route, compile. fold parts. cbn [root patterns].
  set (pats := (fun r => parse_pattern (route_path r)) <$> routes m).
  destruct (lookup_route parts (insert_all 0 pats new_node)) as [i|] eqn:E.
  - apply lookup_compiled_some in E as Hb. destruct Hb as (p & Hp & Hb).
    unfold pats in Hp. rewrite list_lookup_fmap in Hp.
    destruct (routes m !! i) as [r|] eqn:Hr; [|done]. exists i. cbn [matched_route matched_params].
    split_and!; [done| |by apply lookup_compiled_some].
    unfold pats. by rewrite list_lookup_fmap, Hr.
  - intros r Hr. apply list_elem_of_lookup in Hr as [i Hr].
    apply (proj1 (lookup_compiled_none pats parts) E i). unfold pats. by rewrite list_lookup_fmap, Hr.
Qed.

(** The router and the scan give one answer, route and parameters. *)
Lemma find_route_linear m path : find_route (compile m) m path = linear_route m path.
Proof.
  unfold find_route, compile, linear_route. cbn [root patterns].
  set (pats := (fun r => parse_pattern (route_path r)) <$> routes m).
  rewrite (matchers_agree (M1 := trie_matcher) (M2 := linear_matcher) pats (split_path path)
            : lookup_route (split_path path) (insert_all 0 pats new_node)
              = linear_find pats (split_path path)).
  destruct (linear_find pats (split_path path)) as [i|]; [|done].
  unfold pats. rewrite list_lookup_fmap. by destruct (routes m !! i).
Qed.

(** What [find_route] answers, in terms of routes rather than indices. *)
Lemma find_route_spec m path :
  let parts := split_path path in
  match find_route (compile m) m path with
  | Some f =>
      matched_route f ∈ routes m /\
      matched_params f = extract_params (parse_pattern (route_path (matched_route f))) parts /\
      pattern_matches (parse_pattern (route_path (matched_route f))) parts = true /\
      forall r, r ∈ routes m -> pattern_matches (parse_pattern (route_path r)) parts = true ->
        more_specific (shape_of (parse_pattern (route_path r)))
          (shape_of (parse_pattern (route_path (matched_route f)))) = false
  | None => forall r, r ∈ routes m -> pattern_matches (parse_pattern (route_path r)) parts = false
  end.
Proof.
  pose proof (find_route_index m path) as H. cbv zeta in *.
  destruct (find_route (compile m) m path) as [f|]; [|done].
  destruct H as (i & Hi & Hp & (p & Hpi & Hm & Hb)).
  rewrite list_lookup_fmap, Hi in Hpi. simplify_eq/=.
  split_and!; [by eapply list_elem_of_lookup_2|done|done|].
  intros r [j Hj]%list_elem_of_lookup Hr. by apply (Hb j); [rewrite list_lookup_fmap, Hj|].
Qed.

(** ** Properties *)

(** C1: for every manifest and every request path, [RadixRouter::find] on the
    router [compile] builds answers the route and the parameters that a scan of
    the whole manifest answers: the most specific matching route, the last
    registered of those sharing its shape, or nothing when no route matches.
    The parameters answered are named by the pattern of the route only, and when
    those names are distinct, putting them back into the pattern gives exactly
    the segments of the request. *)
Theorem router_equals_linear_scan : forall m path,
  find_route (compile m) m path = linear_route m path /\
  forall found, find_route (compile m) m path = Some found ->
    let pattern := parse_pattern (route_path (matched_route found)) in
    (forall name, name ∉ pattern_names pattern -> matched_params found !! name = None) /\
    (NoDup (pattern_names pattern) ->
     fill_pattern pattern (matched_params found) = Some (split_path path)).
Proof.
  intros m path. split; [apply find_route_linear|]. intros found Hf pattern.
  pose proof (find_route_index m path) as H. cbv zeta in H. rewrite Hf in H.
  destruct H as (i & Hi & Hp & (p & Hpi & Hm & _)).
  rewrite list_lookup_fmap, Hi in Hpi. simplify_eq/=. rewrite Hp. split.
  - intros name Hn. unfold extract_params. by rewrite extract_from_other.
  - intros Hn. by apply fill_extract_from.
Qed.

(** A static page, a dynamic one and a catch-all below a dynamic segment. *)
Definition sample_routes : RouteManifest := mkRouteManifest "app" [
  bare_route "new" "/users/new" Page "app/users/new/page.tsx";
  bare_route "user" "/users/[id]" Page "app/users/[id]/page.tsx";
  bare_route "files" "/users/[id]/files/[...rest]" Page "app/users/[id]/files/[...rest]/page.tsx"] None.

Lemma router_equals_linear_scan_witness :
  exists found,
    find_route (compile sample_routes) sample_routes "/users/7/files/a/b" = Some found /\
    route_path (matched_route found) = "/users/[id]/files/[...rest]" /\
    fill_pattern (parse_pattern (route_path (matched_route found))) (matched_params found)
    = Some ["users"; "7"; "files"; "a"; "b"].
Proof.
  eexists. split; [vm_compute; reflexivity|]. split; [reflexivity|].
  destruct (router_equals_linear_scan sample_routes "/users/7/files/a/b") as [_ H].
  refine (proj2 (H _ _) _); [vm_compute; reflexivity|by apply (bool_decide_unpack _)].
Defined.

(** [RadixRouter::find] on the router compiled from a manifest returns a
    route of the manifest whose pattern matches the path and that no other
    matching route is more specific than, the last of those sharing its shape,
    with the parameters bound by its own pattern; it answers [None] exactly when
    no route of the manifest matches. *)
Theorem find_route_correct : forall m path,
  let parts := split_path path in
  match find_route (compile m) m path with
  | Some found =>
      exists i, routes m !! i = Some (matched_route found) /\
        matched_params found = extract_params (parse_pattern (route_path (matched_route found))) parts /\
        best_match ((fun r => parse_pattern (route_path r)) <$> routes m) parts i
  | None => forall r, r ∈ routes m -> pattern_matches (parse_pattern (route_path r)) parts = false
  end.
Proof. exact find_route_index. Qed.

(** Binding is invertible: putting the parameters [extract_params] bound
    back into the pattern rebuilds exactly the segments of the request, for a
    matching pattern whose parameter names are distinct. *)
Theorem extract_params_roundtrip : forall p parts,
  pattern_matches p parts = true -> NoDup (pattern_names p) ->
  fill_pattern p (extract_params p parts) = Some parts.
Proof. intros p parts Hm Hn. by apply fill_extract_from. Qed.

Lemma extract_params_roundtrip_witness :
  let p := parse_pattern "/users/[id]/files/[...rest]" in
  fill_pattern p (extract_params p ["users"; "7"; "files"; "a"; "b"])
  = Some ["users"; "7"; "files"; "a"; "b"].
Proof.
  apply (extract_params_roundtrip (parse_pattern "/users/[id]/files/[...rest]")
           ["users"; "7"; "files"; "a"; "b"]); [reflexivity|].
  by apply (bool_decide_unpack _).
Defined.
