(* ===== verification/Conflicts.v ===== *)
(** Route validation across the whole manifest
    (crates/ruvyxa_graph/src/conflicts.rs): two routes of one URL shape, an
    interception of a page that does not exist, and opt-ins that would silently
    do nothing.

    A [PathBuf] is its text; [Ord] on paths compares components, which is what
    [path_cmp] does.  A [BTreeMap] keyed by shape is a finite map. *)
From S2P Require Import Prelude Order RustStr Manifest Diagnostics Router.

(** ** Definitions *)

(** One segment of [route_match_shape]. *)
Definition segment_shape (segment : string) : string :=
  if starts_with "[[..." segment && ends_with "]]" segment then "*?"
  else if starts_with "[..." segment && ends_with "]" segment then "*"
  else if starts_with "[" segment && ends_with "]" segment then ":"
  else segment.

(** [route_match_shape] *)
Definition route_match_shape (path : string) : string :=
  join "/" (segment_shape <$> split_char slash_char path).

Definition conflict_diagnostic (previous route : RouteEntry) : Diagnostic :=
  with_affected [route_id previous; route_id route]
    (suggest "Keep only one route for this URL shape or move one route to a distinct URL segment."
      (at_file (route_file route)
        (explain (route_file previous +:+ " and " +:+ route_file route +:+
          " resolve to the same URL match shape. Route parameter names and page/API kinds do not make overlapping routes distinct.")
          (diagnostic "RUV1003" "Conflicting route paths")))).

(** The loop of [detect_conflicts] over the map of shapes already seen. *)
Fixpoint detect_conflicts_from (seen : gmap string RouteEntry) (rs : list RouteEntry)
    : unit + RuvyxaError :=
  match rs with
  | [] => inl tt
  | route :: rest =>
      let key := route_match_shape (route_path route) in
      match seen !! key with
      | Some previous => inr (EDiagnostic (conflict_diagnostic previous route))
      | None => detect_conflicts_from (<[key := route]> seen) rest
      end
  end.

(** [detect_conflicts] *)
Definition detect_conflicts (rs : list RouteEntry) : unit + RuvyxaError :=
  detect_conflicts_from ∅ rs.

(** [Ord] of two paths: component by component. *)
Definition path_cmp : string -> string -> comparison :=
  by_key (split_char slash_char) (list_cmp String.compare).

(** The comparison of the [sort_by] in [detect_unreachable_intercepts]. *)
Definition intercept_cmp : RouteIntercept -> RouteIntercept -> comparison :=
  lex_cmp (by_key intercept_file path_cmp) (by_key intercept_target String.compare).

Definition same_intercept (a b : RouteIntercept) : bool :=
  String.eqb (intercept_file a) (intercept_file b) &&
  String.eqb (intercept_target a) (intercept_target b).

Definition unreachable_diagnostic (i : RouteIntercept) : Diagnostic :=
  suggest ("Add the page the interception stands in for, at the route `" +:+ intercept_target i
           +:+ "`, or correct the folder name.")
    (at_file (intercept_file i)
      (explain ("`" +:+ intercept_marker i +:+ "` intercepts `" +:+ intercept_target i +:+
        "`, and no page answers that URL. An interception is an overlay: a hard load or a shared link still has to render the real page.")
        (diagnostic "RUV1006" "Intercepting route has no route to intercept"))).

(** The shapes the pages of the manifest answer. *)
Definition page_shapes (rs : list RouteEntry) : list string :=
  (fun r => route_match_shape (route_path r)) <$> filter (fun r => route_kind r = Page) rs.

(** The interceptions whose target no page answers. *)
Definition unreachable_intercepts (rs : list RouteEntry) : list RouteIntercept :=
  filter (fun i => route_match_shape (intercept_target i) ∉ page_shapes rs)
    (rs ≫= intercepts).

(** [detect_unreachable_intercepts] *)
Definition detect_unreachable_intercepts (rs : list RouteEntry) : unit + RuvyxaError :=
  let unreachable := dedup_by same_intercept (sort_by intercept_cmp (unreachable_intercepts rs)) in
  match head unreachable with
  | None => inl tt
  | Some i => inr (EDiagnostic (unreachable_diagnostic i))
  end.

Definition client_component_diagnostic (r : RouteEntry) : Diagnostic :=
  suggest "Remove the `'use client'` directive from the page and move the interactive parts into their own `'use client'` components, or drop the `serverComponents` export."
    (at_file (route_file r)
      (explain "A `'use client'` page runs entirely in the browser, so there is no server graph for `export const serverComponents = true` to render. One of the two is not doing what it says."
        (diagnostic "RUV1011" "Page declares both `use client` and server components"))).

Definition ppr_diagnostic (r : RouteEntry) : Diagnostic :=
  suggest "Remove `export const ppr = true` or `export const serverComponents = true` from this page."
    (at_file (route_file r)
      (explain "Partial pre-rendering streams a static shell and fills its holes later, through a render entry the server-components pipeline does not build. The route would be pre-rendered as an ordinary shell and the `serverComponents` export would do nothing."
        (diagnostic "RUV1019" "Server components route also opts into partial pre-rendering"))).

Definition intercept_diagnostic (r : RouteEntry) (i : RouteIntercept) : Diagnostic :=
  suggest "Drop `export const serverComponents = true` from this route, or move the interception to a route that does not use server components."
    (at_file (route_file r)
      (explain ("`" +:+ intercept_marker i +:+ "` intercepts `" +:+ intercept_target i +:+
        "`, and an interception is resolved by the client router from a registry a server-components route does not publish. The overlay would never open.")
        (diagnostic "RUV1020" "Server components route carries an intercepting route"))).

(** [detect_server_component_conflicts] *)
Fixpoint detect_server_component_conflicts (rs : list RouteEntry) : unit + RuvyxaError :=
  match rs with
  | [] => inl tt
  | r :: rest =>
      if server_components (render r) then
        if bool_decide (strategy (render r) = Csr) then inr (EDiagnostic (client_component_diagnostic r))
        else if bool_decide (strategy (render r) = Ppr) then inr (EDiagnostic (ppr_diagnostic r))
        else match intercepts r with
             | i :: _ => inr (EDiagnostic (intercept_diagnostic r i))
             | [] => detect_server_component_conflicts rest
             end
      else detect_server_component_conflicts rest
  end.

(** *** Well-formed paths: what discovery produces *)

Definition wf_segment (s : string) : Prop := s <> "" /\ has_char slash_char s = false.

(** The URL path made of a list of segments. *)
Definition path_of_segments (segs : list string) : string := "/" +:+ join "/" segs.

Definition is_catch_all (s : PatternSegment) : bool :=
  match s with Wildcard _ | OptionalWildcard _ => true | _ => false end.

(** A catch-all may only end a pattern. *)
Fixpoint catch_all_last (p : list PatternSegment) : bool :=
  match p with
  | [] | [_] => true
  | s :: rest => negb (is_catch_all s) && catch_all_last rest
  end.

Definition wf_route (r : RouteEntry) : Prop :=
  exists segs, route_path r = path_of_segments segs /\ Forall wf_segment segs /\
    catch_all_last (parse_segment <$> segs) = true.

(** The map of shapes seen so far is the prefix of the list already walked. *)
Definition seen_prefix (seen : gmap string RouteEntry) (dn : list RouteEntry) : Prop :=
  forall k r, seen !! k = Some r <-> r ∈ dn /\ route_match_shape (route_path r) = k.

Definition demo_routes : list RouteEntry := [
  bare_route "app/page" "/" Page "app/page.tsx";
  bare_route "app/blog/[slug]/page" "/blog/[slug]" Page "app/blog/[slug]/page.tsx";
  bare_route "app/blog/new/page" "/blog/new" Page "app/blog/new/page.tsx";
  bare_route "app/docs/[...rest]/page" "/docs/[...rest]" Page "app/docs/[...rest]/page.tsx"
].

(** ** Lemmas *)

Lemma wf_segment_slash s : wf_segment s -> has_char "/"%char s = false.
Proof. by intros [_ ?]. Qed.

Lemma split_path_segments segs :
  Forall wf_segment segs -> split_path (path_of_segments segs) = segs.
Proof.
  intros Hwf. unfold split_path, path_of_segments. rewrite split_char_trim.
  destruct segs as [|s segs]; [done|].
  change ("/" +:+ join "/" (s :: segs)) with ("" +:+ String "/"%char (join "/" (s :: segs))).
  rewrite split_char_app by done. rewrite filter_cons_False by done.
  rewrite split_char_join; [|done|].
  - induction Hwf as [|s' l [Hs _] Hl IH]; [done|]. rewrite filter_cons_True; [by f_equal|by destruct s'].
  - eapply Forall_impl; [exact Hwf|]. apply wf_segment_slash.
Qed.

Lemma route_match_shape_segments segs :
  Forall wf_segment segs ->
  route_match_shape (path_of_segments segs) = "/" +:+ join "/" (segment_shape <$> segs).
Proof.
  intros Hwf. unfold route_match_shape, path_of_segments.
  change ("/" +:+ join "/" segs) with ("" +:+ String "/"%char (join "/" segs)).
  rewrite split_char_app by done. destruct segs as [|s segs]; [done|].
  rewrite split_char_join; [done|done|].
  eapply Forall_impl; [exact Hwf|]. apply wf_segment_slash.
Qed.

(** The shape of a segment, from its parsed form. *)
Lemma segment_shape_parse s :
  segment_shape s = match parse_segment s with
                    | Static v => v
                    | Param _ => ":"
                    | Wildcard _ => "*"
                    | OptionalWildcard _ => "*?"
                    end.
Proof.
  unfold segment_shape, parse_segment.
  by destruct (starts_with "[[..." s && ends_with "]]" s),
    (starts_with "[..." s && ends_with "]" s), (starts_with "[" s && ends_with "]" s).
Qed.

(** Equal trie shapes are equal match shapes when catch-alls come last. *)
Lemma shape_of_segment_shapes segs1 segs2 :
  catch_all_last (parse_segment <$> segs1) = true ->
  catch_all_last (parse_segment <$> segs2) = true ->
  shape_of (parse_segment <$> segs1) = shape_of (parse_segment <$> segs2) ->
  segment_shape <$> segs1 = segment_shape <$> segs2.
Proof.
  assert (forall s p, catch_all_last (s :: p) = true -> is_catch_all s = true -> p = []) as Hlast.
  { intros s [|x p]; simpl; [done|]. by destruct s. }
  assert (forall s p, catch_all_last (s :: p) = true -> catch_all_last p = true) as Htl.
  { intros s [|x p]; [done|]. by intros [_ ?]%andb_true_iff. }
  revert segs2. induction segs1 as [|s1 segs1 IH]; intros [|s2 segs2]; rewrite ?fmap_cons; intros H1 H2 Hsh;
    [done|by simpl in Hsh; destruct (parse_segment s2)|by simpl in Hsh; destruct (parse_segment s1)|].
  rewrite !segment_shape_parse.
  pose proof (Htl _ _ H1) as T1. pose proof (Htl _ _ H2) as T2.
  destruct (parse_segment s1) eqn:E1, (parse_segment s2) eqn:E2; cbn [shape_of] in Hsh; simplify_eq;
    f_equal; auto; pose proof (Hlast _ _ H1 eq_refl) as L1; pose proof (Hlast _ _ H2 eq_refl) as L2;
    apply fmap_nil_inv in L1, L2; by subst.
Qed.

Lemma wf_route_shape r1 r2 :
  wf_route r1 -> wf_route r2 ->
  shape_of (parse_pattern (route_path r1)) = shape_of (parse_pattern (route_path r2)) ->
  route_match_shape (route_path r1) = route_match_shape (route_path r2).
Proof.
  intros (s1 & -> & W1 & C1) (s2 & -> & W2 & C2). unfold parse_pattern.
  rewrite !split_path_segments, !route_match_shape_segments by done.
  intros H. do 2 f_equal. by apply shape_of_segment_shapes.
Qed.

Abbreviation shapes rs := ((fun r => route_match_shape (route_path r)) <$> rs).

Lemma seen_prefix_snoc seen dn r :
  seen_prefix seen dn -> seen !! route_match_shape (route_path r) = None ->
  seen_prefix (<[route_match_shape (route_path r) := r]> seen) (dn ++ [r]).
Proof.
  intros Hs Hnone k r'. rewrite elem_of_app, list_elem_of_singleton, lookup_insert.
  case_decide as Hk.
  - split; [intros [= ->]; by split; [right|]|]. intros [[Hin| ->] Hsh]; [|done].
    subst k. assert (seen !! route_match_shape (route_path r) = Some r') as H by by apply Hs.
    congruence.
  - rewrite (Hs k r'). split; [intros [? ?]; by split; [left|]|]. intros [[?| ->] ?]; done.
Qed.

(** The walk: it accepts exactly when all shapes are distinct, and a refusal
    names the first route whose shape was taken and the route that took it. *)
Lemma detect_conflicts_from_spec seen dn rs :
  seen_prefix seen dn -> NoDup (shapes dn) ->
  match detect_conflicts_from seen rs with
  | inl _ => NoDup (shapes (dn ++ rs))
  | inr e => exists mid r rest previous, rs = mid ++ r :: rest /\
      e = EDiagnostic (conflict_diagnostic previous r) /\
      previous ∈ dn ++ mid /\
      route_match_shape (route_path previous) = route_match_shape (route_path r) /\
      NoDup (shapes (dn ++ mid))
  end.
Proof.
  revert seen dn. induction rs as [|r rs IH]; intros seen dn Hs Hnd; simpl.
  { by rewrite app_nil_r. }
  destruct (seen !! route_match_shape (route_path r)) as [prev|] eqn:E.
  { apply Hs in E as [Hin Hsh]. exists [], r, rs, prev. rewrite app_nil_r. done. }
  assert (NoDup (shapes (dn ++ [r]))) as Hnd'.
  { rewrite fmap_app. apply NoDup_app. split_and!; [done| |apply NoDup_singleton].
    intros k (r' & -> & Hin)%list_elem_of_fmap. simpl. rewrite list_elem_of_singleton. intros Hk.
    assert (seen !! route_match_shape (route_path r) = Some r') by by apply Hs. congruence. }
  specialize (IH _ (dn ++ [r]) (seen_prefix_snoc _ _ _ Hs E) Hnd').
  destruct (detect_conflicts_from _ rs); [by rewrite <- app_assoc in IH|].
  destruct IH as (mid & r' & rest & prev & -> & -> & Hin & Hsh & Hn).
  rewrite <- app_assoc in Hin, Hn. by exists (r :: mid), r', rest, prev.
Qed.

Lemma detect_conflicts_spec rs :
  match detect_conflicts rs with
  | inl _ => NoDup (shapes rs)
  | inr e => exists mid r rest previous, rs = mid ++ r :: rest /\
      e = EDiagnostic (conflict_diagnostic previous r) /\ previous ∈ mid /\
      route_match_shape (route_path previous) = route_match_shape (route_path r) /\
      NoDup (shapes mid)
  end.
Proof.
  apply (detect_conflicts_from_spec ∅ []); [|constructor].
  intros k r. rewrite lookup_empty. set_solver.
Qed.

Lemma unreachable_intercepts_perm rs rs' :
  rs ≡ₚ rs' -> unreachable_intercepts rs ≡ₚ unreachable_intercepts rs'.
Proof.
  intros H. unfold unreachable_intercepts.
  assert (page_shapes rs ≡ₚ page_shapes rs') as Hp by (unfold page_shapes; by rewrite H).
  assert (rs ≫= intercepts ≡ₚ rs' ≫= intercepts) as -> by by rewrite H.
  induction (rs' ≫= intercepts) as [|i l IH]; [done|]. rewrite !filter_cons.
  assert (route_match_shape (intercept_target i) ∈ page_shapes rs <->
          route_match_shape (intercept_target i) ∈ page_shapes rs') as Hiff by by rewrite Hp.
  repeat case_decide; try tauto. by rewrite IH.
Qed.

Lemma detect_unreachable_cases rs :
  match detect_unreachable_intercepts rs with
  | inl _ => unreachable_intercepts rs = []
  | inr e => exists i, e = EDiagnostic (unreachable_diagnostic i) /\
      i ∈ unreachable_intercepts rs /\
      forall j, j ∈ unreachable_intercepts rs -> intercept_cmp i j <> Gt
  end.
Proof.
  unfold detect_unreachable_intercepts. rewrite dedup_by_head.
  destruct (head (sort_by intercept_cmp (unreachable_intercepts rs))) as [i|] eqn:E.
  - exists i. split; [done|]. by apply sort_by_head_least.
  - pose proof (sort_by_perm (cmp := intercept_cmp) (unreachable_intercepts rs)) as Hp.
    destruct (sort_by _ _); [|done]. by apply Permutation_nil_l in Hp.
Qed.

(** Two routes of a conflict-free manifest that match one path and are equally
    specific are the same entry. *)
Lemma conflict_free_unique rs path r1 r2 :
  NoDup (shapes rs) -> Forall wf_route rs -> r1 ∈ rs -> r2 ∈ rs ->
  pattern_matches (parse_pattern (route_path r1)) path = true ->
  pattern_matches (parse_pattern (route_path r2)) path = true ->
  more_specific (shape_of (parse_pattern (route_path r1))) (shape_of (parse_pattern (route_path r2))) = false ->
  more_specific (shape_of (parse_pattern (route_path r2))) (shape_of (parse_pattern (route_path r1))) = false ->
  r1 = r2.
Proof.
  intros Hnd Hwf H1 H2 M1 M2 S12 S21. rewrite Forall_forall in Hwf.
  pose proof (more_specific_total path _ _ M1 M2 S12 S21) as Hsh.
  apply wf_route_shape in Hsh; [|by apply Hwf..].
  apply list_elem_of_lookup in H1 as [i Hi], H2 as [j Hj].
  assert (i = j) as ->; [|congruence].
  eapply (NoDup_lookup (shapes rs)); [done|by rewrite list_lookup_fmap, Hi|].
  by rewrite list_lookup_fmap, Hj; simpl; rewrite Hsh.
Qed.

(** ** Properties *)

(** [detect_conflicts] accepts a manifest exactly when the URL shapes of its
    routes are pairwise distinct; a refusal carries the first route (in manifest
    order) whose shape an earlier route already has, names both in the
    diagnostic's affected routes, and nothing before it conflicts. *)
Theorem detect_conflicts_decides : forall rs,
  (detect_conflicts rs = inl tt <-> NoDup (shapes rs)) /\
  (forall e, detect_conflicts rs = inr e ->
     exists mid r rest previous, rs = mid ++ r :: rest /\
       e = EDiagnostic (conflict_diagnostic previous r) /\ previous ∈ mid /\
       route_match_shape (route_path previous) = route_match_shape (route_path r) /\
       NoDup (shapes mid)).
Proof.
  intros rs. pose proof (detect_conflicts_spec rs) as H. split.
  - destruct (detect_conflicts rs) as [[]|e]; [done|]. split; [done|].
    destruct H as (mid & r & rest & prev & -> & _ & Hin & Hsh & _). intros Hnd. exfalso.
    rewrite fmap_app, fmap_cons in Hnd. apply NoDup_app in Hnd as (_ & Hd & _).
    apply (Hd (route_match_shape (route_path prev))); [apply list_elem_of_fmap; eauto|].
    rewrite Hsh. set_solver.
  - intros e He. by rewrite He in H.
Qed.

(** On a conflict-free manifest of discovered paths the router's answer does
    not depend on the order in which the routes are listed. *)
Theorem conflict_free_resolution_order_irrelevant : forall m m' path,
  detect_conflicts (routes m) = inl tt -> Forall wf_route (routes m) ->
  routes m ≡ₚ routes m' ->
  find_route (compile m) m path = find_route (compile m') m' path.
Proof.
  intros m m' path Hok Hwf Hperm.
  pose proof (detect_conflicts_spec (routes m)) as Hnd. rewrite Hok in Hnd.
  pose proof (find_route_spec m path) as F. pose proof (find_route_spec m' path) as F'.
  destruct (find_route (compile m) m path) as [f|], (find_route (compile m') m' path) as [f'|];
    [|exfalso|exfalso|done].
  - destruct F as (Hin & Hp & Hm & Hb), F' as (Hin' & Hp' & Hm' & Hb').
    rewrite <- Hperm in Hin'.
    assert (matched_route f = matched_route f') as Heq.
    { eapply (conflict_free_unique (routes m) (split_path path)); try done.
      - apply Hb'; [by rewrite <- Hperm|done].
      - by apply Hb. }
    destruct f, f'; simpl in *; subst; done.
  - destruct F as (Hin & _ & Hm & _). rewrite Hperm in Hin. by rewrite (F' _ Hin) in Hm.
  - destruct F' as (Hin & _ & Hm & _). rewrite <- Hperm in Hin. by rewrite (F _ Hin) in Hm.
Qed.

Lemma conflict_free_resolution_witness :
  find_route (compile (mkRouteManifest "app" demo_routes None)) (mkRouteManifest "app" demo_routes None) "/blog/new"
  = find_route (compile (mkRouteManifest "app" (reverse demo_routes) None))
      (mkRouteManifest "app" (reverse demo_routes) None) "/blog/new".
Proof.
  apply conflict_free_resolution_order_irrelevant; [reflexivity| |exact (symmetry (reverse_Permutation demo_routes))].
  repeat constructor.
  - by exists []; repeat constructor.
  - by exists ["blog"; "[slug]"]; repeat constructor.
  - by exists ["blog"; "new"]; repeat constructor.
  - by exists ["docs"; "[...rest]"]; repeat constructor.
Defined.

(** [detect_unreachable_intercepts] accepts a manifest exactly when every
    interception's target has the URL shape of some page; a refusal names an
    unreachable interception whose (file, target) pair no other unreachable one
    precedes, and listing the routes in another order refuses the same pair. *)
Theorem detect_unreachable_intercepts_decides : forall rs,
  (detect_unreachable_intercepts rs = inl tt <->
     forall r i, r ∈ rs -> i ∈ intercepts r ->
       exists p, p ∈ rs /\ route_kind p = Page /\
         route_match_shape (route_path p) = route_match_shape (intercept_target i)) /\
  (forall e, detect_unreachable_intercepts rs = inr e ->
     exists i, e = EDiagnostic (unreachable_diagnostic i) /\ i ∈ unreachable_intercepts rs /\
       (forall j, j ∈ unreachable_intercepts rs -> intercept_cmp i j <> Gt) /\
       forall rs', rs ≡ₚ rs' -> exists i', detect_unreachable_intercepts rs' =
         inr (EDiagnostic (unreachable_diagnostic i')) /\ intercept_cmp i i' = Eq).
Proof.
  intros rs. split.
  - assert (detect_unreachable_intercepts rs = inl tt <-> unreachable_intercepts rs = []) as ->.
    { pose proof (detect_unreachable_cases rs) as H.
      destruct (detect_unreachable_intercepts rs) as [[]|e]; [done|].
      split; [done|]. destruct H as (i & _ & Hi & _). intros Hn. rewrite Hn in Hi. set_solver. }
    unfold unreachable_intercepts. rewrite filter_nil_iff. split.
    + intros H r i Hr Hi. assert (i ∈ rs ≫= intercepts) as Hin by (apply list_elem_of_bind; eauto).
      specialize (H i Hin). apply dec_stable in H. unfold page_shapes in H.
      apply list_elem_of_fmap in H as (p & Heq & [Hk Hp]%list_elem_of_filter). eauto.
    + intros H i (r & Hi & Hr)%list_elem_of_bind Hn. apply Hn.
      destruct (H r i Hr Hi) as (p & Hp & Hk & Hsh). unfold page_shapes.
      apply list_elem_of_fmap. exists p. split; [done|]. by apply list_elem_of_filter.
  - intros e He. pose proof (detect_unreachable_cases rs) as H. rewrite He in H.
    destruct H as (i & -> & Hi & Hleast). exists i. split_and!; [done|done|done|].
    intros rs' Hperm. pose proof (unreachable_intercepts_perm _ _ Hperm) as Hp.
    pose proof (detect_unreachable_cases rs') as H'.
    destruct (detect_unreachable_intercepts rs') as [[]|e'].
    { rewrite Hp, H' in Hi. set_solver. }
    destruct H' as (i' & -> & Hi' & Hleast'). exists i'. split; [done|].
    rewrite Hp in Hi. rewrite <- Hp in Hi'. specialize (Hleast _ Hi'). specialize (Hleast' _ Hi).
    destruct (intercept_cmp i i') eqn:E; [done| |done].
    exfalso. apply Hleast'. unfold intercept_cmp in *. by apply (cmp_gt _).
Qed.
