(* ===== verification/Discovery.v ===== *)
(** From a folder of the app directory to a URL pattern
    (crates/ruvyxa_graph/src/discovery.rs): which file names declare a route,
    how a chain of folders becomes a path, which dynamic segments are refused
    and with what advice, and which layout, template and sibling modules a route
    composes.

    A relative directory is the list of its [Component::Normal] names, which is
    all [components().filter_map(..)] keeps; the file system is a predicate on
    paths given as lists of components.  Names are UTF-8, so [to_string_lossy]
    is the identity. *)
From S2P Require Import Prelude Order RustStr Manifest Diagnostics Router Conflicts.

(** ** Definitions *)

Definition COMPONENT_EXTENSIONS : list string := ["tsx"; "jsx"].
Definition PAGE_MARKUP_EXTENSIONS : list string := ["md"; "mdx"].
Definition HANDLER_EXTENSIONS : list string := ["ts"; "js"].

(** [route_file_names] *)
Definition route_file_names (stem : string) (extensions : list string) : list string :=
  (fun e => stem +:+ "." +:+ e) <$> extensions.

(** [is_route_file] *)
Definition is_route_file (file_name stem : string) (extensions : list string) : bool :=
  match strip_prefix stem file_name ≫= strip_prefix "." with
  | Some extension => bool_decide (extension ∈ extensions)
  | None => false
  end.

(** [page_file_names] *)
Definition page_file_names : list string :=
  route_file_names "page" COMPONENT_EXTENSIONS ++ route_file_names "page" PAGE_MARKUP_EXTENSIONS.

(** [is_page_file] *)
Definition is_page_file (file_name : string) : bool :=
  is_route_file file_name "page" COMPONENT_EXTENSIONS ||
  is_route_file file_name "page" PAGE_MARKUP_EXTENSIONS.

(** The kind the walk of [discover_routes] gives a file, [None] when it declares no route. *)
Definition route_kind_of_file (file_name : string) : option RouteKind :=
  if is_page_file file_name then Some Page
  else if is_route_file file_name "route" HANDLER_EXTENSIONS then Some Api
  else None.

(** [display_route_folder] *)
Definition display_route_folder (relative_dir : list string) : string :=
  let joined := join "/" (replace_str "\" "/" <$> relative_dir) in
  if is_empty_str joined then "app" else "app/" +:+ joined.

Definition is_param_byte (a : ascii) : bool := is_alnum a || Ascii.eqb a "_"%char.

(** The loop of [suggested_dynamic_name]: [capitalize] is raised by a dropped
    byte once something has been kept. *)
Fixpoint suggest_from (name suggestion : string) (capitalize : bool) : string :=
  match name with
  | "" => suggestion
  | String byte rest =>
      if is_param_byte byte then
        suggest_from rest
          (suggestion +:+ String (if capitalize then upper_byte byte else byte) "") false
      else suggest_from rest suggestion (negb (is_empty_str suggestion))
  end.

(** [suggested_dynamic_name] *)
Definition suggested_dynamic_name (name : string) : option string :=
  let suggestion := suggest_from name "" false in
  if negb (is_empty_str suggestion) && negb (String.eqb suggestion name) then Some suggestion else None.

Definition valid_dynamic_name (name : string) : bool :=
  negb (is_empty_str name) && all_bytes is_param_byte name.

Definition invalid_name_diagnostic (folder : list string) (segment name : string) : Diagnostic :=
  let folder := display_route_folder folder in
  let text :=
    if is_empty_str name then
      "`" +:+ segment +:+ "` in `" +:+ folder +:+ "` declares a dynamic route segment with an empty parameter name."
    else
      "`" +:+ segment +:+ "` in `" +:+ folder +:+ "` names the route parameter `" +:+ name +:+
      "`, which uses characters outside the ASCII letters, digits, and `_`. The route matcher recognises only that character set, so this segment is compiled as a literal URL component: the route is discovered and written into the manifest, and then never matches a request." in
  let advice :=
    match suggested_dynamic_name name with
    | Some replacement =>
        "Rename the folder to `" +:+ replace_str name replacement segment +:+
        "`. A parameter name has to be usable as `params." +:+ replacement +:+
        "`, so it may contain only ASCII letters, digits, and `_`."
    | None => "Use [name], [...name], or [[...name]] with a parameter name of ASCII letters, digits, and `_` — the same characters you would write after `params.`."
    end in
  suggest advice (explain text (diagnostic "RUV1002" "Invalid dynamic route segment")).

(** [validate_dynamic_name] *)
Definition validate_dynamic_name (folder : list string) (segment name : string) : unit + RuvyxaError :=
  if valid_dynamic_name name then inl tt
  else inr (EDiagnostic (invalid_name_diagnostic folder segment name)).

(** [catch_all_must_be_last] *)
Definition catch_all_must_be_last : RuvyxaError :=
  EDiagnostic (suggest "Move the catch-all folder to the end of the route or remove the child segment."
    (explain "Catch-all routes consume every remaining URL segment and cannot have a child URL segment."
      (diagnostic "RUV1017" "Catch-all route must be the final URL segment"))).

Definition bracket_diagnostic (folder : list string) (segment : string) : Diagnostic :=
  suggest "Rename the route folder to a valid dynamic segment, or remove the brackets to make it an ordinary URL segment."
    (explain ("`" +:+ segment +:+ "` in `" +:+ display_route_folder folder +:+
        "` uses brackets, but it is not one of the dynamic forms [name], [...name], or [[...name]].")
      (diagnostic "RUV1002" "Invalid dynamic route segment")).

(** [&segment[from..segment.len() - trailing]] *)
Definition slice (from trailing : nat) (segment : string) : string :=
  String.substring from (String.length segment - trailing - from) segment.

(** [route_segment] *)
Definition route_segment (folder : list string) (segment : string) (is_last : bool) : string + RuvyxaError :=
  if starts_with "[[..." segment && ends_with "]]" segment then
    match validate_dynamic_name folder segment (slice 5 2 segment) with
    | inr e => inr e
    | inl _ => if is_last then inl segment else inr catch_all_must_be_last
    end
  else if starts_with "[..." segment && ends_with "]" segment then
    match validate_dynamic_name folder segment (slice 4 1 segment) with
    | inr e => inr e
    | inl _ => if is_last then inl segment else inr catch_all_must_be_last
    end
  else if starts_with "[" segment && ends_with "]" segment then
    match validate_dynamic_name folder segment (slice 1 1 segment) with
    | inr e => inr e
    | inl _ => inl segment
    end
  else if has_char "["%char segment || has_char "]"%char segment then
    inr (EDiagnostic (bracket_diagnostic folder segment))
  else inl segment.

(** The folders that contribute a URL segment: not a group and not a slot. *)
Definition is_visible (segment : string) : bool :=
  negb ((starts_with "(" segment && ends_with ")" segment) || starts_with "@" segment).

(** The loop of [route_path_from_dir] over the visible segments. *)
Fixpoint route_segments (folder visible : list string) : list string + RuvyxaError :=
  match visible with
  | [] => inl []
  | segment :: rest =>
      match route_segment folder segment (match rest with [] => true | _ => false end) with
      | inr e => inr e
      | inl s => match route_segments folder rest with
                 | inr e => inr e
                 | inl l => inl (s :: l)
                 end
      end
  end.

(** [route_path_from_dir] *)
Definition route_path_from_dir (relative_dir : list string) : string + RuvyxaError :=
  match route_segments relative_dir (filter (fun s => is_visible s = true) relative_dir) with
  | inr e => inr e
  | inl [] => inl "/"
  | inl segments => inl ("/" +:+ join "/" segments)
  end.

(** *** Files beside a route *)

Section files.
(** [Path::is_file], as the walk sees the project. *)
Context (is_file : list string -> bool).

(** [path.with_extension("")] on a file name: everything before the last dot,
    unless that dot opens the name. *)
Definition file_stem (name : string) : string :=
  match split_once "."%char (srev name) with
  | Some (_, rest) => if is_empty_str rest then name else srev rest
  | None => name
  end.

Definition map_last {A} (f : A -> A) (l : list A) : list A :=
  match reverse l with
  | [] => []
  | x :: l' => reverse (f x :: l')
  end.

(** [path.strip_prefix(base).unwrap_or(path)] on components *)
Fixpoint strip_dir (base path : list string) : option (list string) :=
  match base, path with
  | [], _ => Some path
  | b :: base', p :: path' => if String.eqb b p then strip_dir base' path' else None
  | _ :: _, [] => None
  end.

(** [route_id] *)
Definition route_id_of (app_dir file : list string) : string :=
  let relative := default file (strip_dir app_dir file) in
  "app/" +:+ join "/" (replace_str "\" "/" <$> map_last file_stem relative).

(** [directory_id] *)
Definition directory_id (app_dir directory : list string) : string :=
  let segments := replace_str "\" "/" <$> default directory (strip_dir app_dir directory) in
  match segments with
  | [] => "app"
  | _ => "app/" +:+ join "/" segments
  end.

(** [nested_file_id] *)
Definition nested_file_id (app_dir directory file_names : list string) : option string :=
  match filter (fun c => is_file c = true) ((fun name => directory ++ [name]) <$> file_names) with
  | [] => None
  | candidate :: _ => Some (route_id_of app_dir candidate)
  end.

(** The levels [nested_chain] visits: the app root and every folder down to the route. *)
Fixpoint levels (current rest : list string) : list (list string) :=
  current :: match rest with
             | [] => []
             | s :: rest' => levels (current ++ [s]) rest'
             end.

(** [nested_chain] *)
Definition nested_chain (app_dir route_dir file_names : list string) : list string :=
  match strip_dir app_dir route_dir with
  | Some relative => omap (fun d => nested_file_id app_dir d file_names) (levels app_dir relative)
  | None => option_list (nested_file_id app_dir app_dir file_names)
  end.

(** [layout_chain] *)
Definition layout_chain_of (app_dir route_dir : list string) : list string :=
  nested_chain app_dir route_dir (route_file_names "layout" COMPONENT_EXTENSIONS).

(** [template_chain] *)
Definition template_chain_of (app_dir route_dir : list string) : list string :=
  nested_chain app_dir route_dir (route_file_names "template" COMPONENT_EXTENSIONS).

(** [sibling_module] *)
Definition sibling_module (route_dir names : list string) : list (list string) :=
  match filter (fun c => is_file c = true) ((fun name => route_dir ++ [name]) <$> names) with
  | [] => []
  | m :: _ => [m]
  end.

(** [sibling_modules] *)
Definition sibling_modules (route_dir names : list string) : list (list string) :=
  filter (fun c => is_file c = true) ((fun name => route_dir ++ [name]) <$> names).
End files.

(** *** What a folder name may be *)

(** The forms a URL folder is allowed: the three dynamic ones with a usable
    parameter name, or a name with no bracket at all. *)
Inductive route_folder : string -> PatternSegment -> Prop :=
  | folder_optional n : valid_dynamic_name n = true ->
      route_folder ("[[..." +:+ n +:+ "]]") (OptionalWildcard n)
  | folder_wildcard n : valid_dynamic_name n = true ->
      route_folder ("[..." +:+ n +:+ "]") (Wildcard n)
  | folder_param n : valid_dynamic_name n = true ->
      route_folder ("[" +:+ n +:+ "]") (Param n)
  | folder_static s : has_char "["%char s = false -> has_char "]"%char s = false ->
      route_folder s (Static s).

(** The folders of a route directory that reach the URL. *)
Definition visible_folders (dir : list string) : list string :=
  filter (fun s => is_visible s = true) dir.

(** ** Lemmas *)

Lemma is_param_byte_bracket : is_param_byte "["%char = false /\ is_param_byte "]"%char = false
  /\ is_param_byte "."%char = false.
Proof. by vm_compute. Qed.

Lemma valid_name_bytes n : valid_dynamic_name n = true -> n <> "" /\ all_bytes is_param_byte n = true.
Proof. unfold valid_dynamic_name. intros [H ?]%andb_true_iff. split; [|done]. by intros ->. Qed.

Lemma validate_ok folder seg n x :
  validate_dynamic_name folder seg n = inl x -> valid_dynamic_name n = true.
Proof. unfold validate_dynamic_name. by destruct (valid_dynamic_name n). Qed.

(** A slice that yields a valid name is the text between the two markers. *)
Lemma slice_decomp p q s :
  starts_with p s = true -> ends_with q s = true ->
  valid_dynamic_name (slice (String.length p) (String.length q) s) = true ->
  s = p +:+ slice (String.length p) (String.length q) s +:+ q.
Proof.
  intros Hp Hq Hv.
  destruct (decide (String.length p + String.length q <= String.length s)) as [Hle|Hgt].
  - destruct (starts_ends_decomp p q s Hp Hq Hle) as [m ->]. unfold slice.
    by rewrite substring_between.
  - exfalso. unfold slice in Hv. replace (_ - _ - _) with 0 in Hv by lia.
    replace (String.substring _ 0 s) with "" in Hv; [done|].
    generalize (String.length p) as k. clear. induction s as [|a s IH]; intros [|k]; simpl; done.
Qed.

Lemma marker_not_in_name f a p n s :
  n <> "" -> all_bytes f n = true -> f a = false -> starts_with (String a p) (n +:+ s) = false.
Proof.
  destruct n as [|b n]; [done|]. simpl. intros _ [Hb _]%andb_true_iff Ha.
  destruct (Ascii.eqb_spec a b) as [<-|]; [congruence|done].
Qed.

Section param_names.
Context (n : string) (Hn : valid_dynamic_name n = true).

Lemma name_start a p s : is_param_byte a = false -> starts_with (String a p) (n +:+ s) = false.
Proof using Hn.
  destruct (valid_name_bytes n Hn) as [He Hb]. by apply (marker_not_in_name is_param_byte).
Qed.

Lemma name_end a p : is_param_byte a = false -> ends_with (p +:+ String a "") n = false.
Proof using Hn.
  destruct (valid_name_bytes n Hn) as [_ Hb]. by apply (all_bytes_ends_with is_param_byte).
Qed.

Lemma optional_tests :
  starts_with "[[..." ("[[..." +:+ n +:+ "]]") && ends_with "]]" ("[[..." +:+ n +:+ "]]") = true.
Proof using. rewrite starts_with_app, <- sapp_assoc, ends_with_app. done. Qed.

Lemma wildcard_tests :
  starts_with "[[..." ("[..." +:+ n +:+ "]") = false /\
  starts_with "[..." ("[..." +:+ n +:+ "]") && ends_with "]" ("[..." +:+ n +:+ "]") = true.
Proof using. split; [done|]. rewrite starts_with_app, <- sapp_assoc, ends_with_app. done. Qed.

Lemma param_tests :
  starts_with "[[..." ("[" +:+ n +:+ "]") = false /\
  starts_with "[..." ("[" +:+ n +:+ "]") = false /\
  starts_with "[" ("[" +:+ n +:+ "]") && ends_with "]" ("[" +:+ n +:+ "]") = true.
Proof using Hn.
  split_and!.
  - change (starts_with "[..." (n +:+ "]") = false). by apply name_start.
  - change (starts_with "..." (n +:+ "]") = false). by apply name_start.
  - rewrite starts_with_app, <- sapp_assoc, ends_with_app. done.
Qed.
End param_names.

Lemma no_open_no_marker s p : has_char "["%char s = false -> starts_with (String "["%char p) s = false.
Proof.
  destruct s as [|a s]; [done|]. cbn [has_char]. intros [Ho _]%orb_false_iff.
  change (Ascii.eqb "["%char a && starts_with p s = false). by rewrite Ascii.eqb_sym, Ho.
Qed.

(** The parser reads back exactly the form a folder was accepted as. *)
Lemma route_folder_parse s g : route_folder s g -> parse_segment s = g.
Proof.
  unfold parse_segment. destruct 1 as [n Hn|n Hn|n Hn|s Ho Hc].
  - rewrite optional_tests, trim_start_str_one; [|done|by apply name_start].
    rewrite trim_end_str_one; [done|done|by apply (name_end n Hn "]"%char "]")].
  - destruct (wildcard_tests n) as [-> ->]. rewrite trim_start_str_one; [|done|by apply name_start].
    cbn [andb]. rewrite trim_end_str_one; [done|done|by apply (name_end n Hn "]"%char "")].
  - destruct (param_tests n Hn) as (-> & -> & ->).
    rewrite trim_start_str_one; [|done|by apply name_start].
    cbn [andb]. rewrite trim_end_str_one; [done|done|by apply (name_end n Hn "]"%char "")].
  - by rewrite !no_open_no_marker.
Qed.

Lemma slice_name p q s :
  starts_with p s = true -> ends_with q s = true ->
  valid_dynamic_name (slice (String.length p) (String.length q) s) = true ->
  exists n, s = p +:+ n +:+ q /\ valid_dynamic_name n = true.
Proof. intros Hp Hq Hv. eexists. split; [by apply slice_decomp|done]. Qed.

Lemma slice_between p n q : slice (String.length p) (String.length q) (p +:+ n +:+ q) = n.
Proof. apply substring_between. Qed.

(** One segment: accepted exactly in the allowed forms, unchanged, and a
    catch-all only at the end. *)
Lemma route_segment_spec folder s is_last s' :
  route_segment folder s is_last = inl s' <->
  s' = s /\ exists g, route_folder s g /\ (is_last = false -> is_catch_all g = false).
Proof.
  split.
  - unfold route_segment.
    destruct (starts_with "[[..." s && ends_with "]]" s) eqn:E1;
      [|destruct (starts_with "[..." s && ends_with "]" s) eqn:E2;
      [|destruct (starts_with "[" s && ends_with "]" s) eqn:E3]].
    1,2,3: split_andb; destruct (validate_dynamic_name _ _ _) as [u|] eqn:Hv; [|done];
      apply validate_ok in Hv.
    + destruct is_last; [|done]. intros [= <-]. split; [done|].
      destruct (slice_name "[[..." "]]" s) as (n & -> & Hn); [done..|].
      eexists; split; [by constructor|done].
    + destruct is_last; [|done]. intros [= <-]. split; [done|].
      destruct (slice_name "[..." "]" s) as (n & -> & Hn); [done..|].
      eexists; split; [by constructor|done].
    + intros [= <-]. split; [done|].
      destruct (slice_name "[" "]" s) as (n & -> & Hn); [done..|].
      eexists; split; [by constructor|done].
    + destruct (has_char "["%char s || has_char "]"%char s) eqn:E4; [done|]. split_andb.
      intros [= <-]. split; [done|]. eexists; split; [by constructor|done].
  - intros (-> & g & Hg & Hlast). unfold route_segment, validate_dynamic_name.
    destruct Hg as [n Hn|n Hn|n Hn|s Ho Hc].
    + rewrite optional_tests, (slice_between "[[..." n "]]" : slice 5 2 _ = n), Hn.
      destruct is_last; [done|by specialize (Hlast eq_refl)].
    + destruct (wildcard_tests n) as [-> ->].
      rewrite (slice_between "[..." n "]" : slice 4 1 _ = n), Hn.
      destruct is_last; [done|by specialize (Hlast eq_refl)].
    + destruct (param_tests n Hn) as (-> & -> & ->). by rewrite (slice_between "[" n "]" : slice 1 1 _ = n), Hn.
    + rewrite Ho, Hc.
      by rewrite !no_open_no_marker.
Qed.

Lemma route_segments_spec folder vis l :
  route_segments folder vis = inl l <->
  l = vis /\ exists gs, Forall2 route_folder vis gs /\ catch_all_last gs = true.
Proof.
  revert l. induction vis as [|s vis IH]; intros l; simpl.
  { split; [intros [= <-]; split; [done|]; by exists []|by intros [-> _]]. }
  split.
  - destruct (route_segment _ _ _) as [s'|] eqn:E; [|done].
    apply route_segment_spec in E as (-> & g & Hg & Hlast).
    destruct (route_segments folder vis) as [l'|]; [|done]. intros [= <-].
    destruct (proj1 (IH l') eq_refl) as (-> & gs & Hgs & Hc).
    split; [done|]. exists (g :: gs). split; [by constructor|].
    destruct gs as [|g' gs]; [done|]. destruct vis as [|s' vis]; [by inversion Hgs|].
    simpl. rewrite (Hlast eq_refl). done.
  - intros (-> & gs & Hgs & Hc). inversion Hgs as [|? g ? gs' Hg Hgs']; subst.
    rewrite (proj2 (route_segment_spec folder s _ s)).
    2:{ split; [done|]. exists g. split; [done|]. destruct vis; [done|]. intros _.
        destruct gs' as [|g' gs']; [by inversion Hgs'|]. simpl in Hc.
        by apply andb_true_iff in Hc as [?%negb_true_iff _]. }
    rewrite (proj2 (IH vis)); [done|]. split; [done|]. exists gs'. split; [done|].
    destruct gs'; [done|]. by apply andb_true_iff in Hc as [_ ?].
Qed.

Lemma route_path_from_dir_spec dir p :
  route_path_from_dir dir = inl p <->
  p = path_of_segments (visible_folders dir) /\
  exists gs, Forall2 route_folder (visible_folders dir) gs /\ catch_all_last gs = true.
Proof.
  unfold route_path_from_dir. fold (visible_folders dir).
  destruct (route_segments dir (visible_folders dir)) as [l|e] eqn:E.
  - apply route_segments_spec in E as (-> & Hgs). unfold path_of_segments.
    destruct (visible_folders dir) as [|s vis]; naive_solver.
  - split; [done|]. intros [_ Hgs].
    assert (route_segments dir (visible_folders dir) = inl (visible_folders dir)) as E'
      by by apply route_segments_spec. congruence.
Qed.

Lemma route_folder_names s g : route_folder s g -> Forall (fun n => valid_dynamic_name n = true) (seg_name g).
Proof. by destruct 1; repeat constructor. Qed.

Lemma visible_wf dir : Forall wf_segment dir -> Forall wf_segment (visible_folders dir).
Proof.
  rewrite !Forall_forall. intros H s Hs. apply list_elem_of_filter in Hs as [_ Hs]. by apply H.
Qed.

(** A path made from a directory parses to the forms its folders were accepted as. *)
Lemma dir_path_parse dir gs :
  Forall wf_segment dir -> Forall2 route_folder (visible_folders dir) gs ->
  parse_pattern (path_of_segments (visible_folders dir)) = gs /\
  parse_segment <$> visible_folders dir = gs.
Proof.
  intros Hwf Hgs. unfold parse_pattern. rewrite split_path_segments by by apply visible_wf.
  assert (parse_segment <$> visible_folders dir = gs) as H; [|done].
  induction Hgs as [|s g vis gs Hg Hgs IH]; [done|]. cbn. by rewrite IH, (route_folder_parse s g).
Qed.

(** *** The suggested name *)

Lemma upper_param a : is_param_byte a = true -> is_param_byte (upper_byte a) = true.
Proof. destruct a as [[] [] [] [] [] [] [] []]; vm_compute; congruence. Qed.

Lemma suggest_from_bytes name acc cap :
  all_bytes is_param_byte acc = true -> all_bytes is_param_byte (suggest_from name acc cap) = true.
Proof.
  revert acc cap. induction name as [|a name IH]; intros acc cap H; simpl; [done|].
  destruct (is_param_byte a) eqn:E; [|by apply IH].
  apply IH. rewrite all_bytes_sapp, H. simpl. rewrite andb_true_r.
  destruct cap; [by apply upper_param|done].
Qed.

Lemma suggest_from_valid name acc :
  all_bytes is_param_byte name = true -> suggest_from name acc false = acc +:+ name.
Proof.
  revert acc. induction name as [|a name IH]; intros acc; simpl; [by rewrite sapp_nil_r|].
  intros [-> H]%andb_true_iff. rewrite IH by done. by rewrite sapp_assoc.
Qed.

Lemma suggest_from_empty name acc cap :
  suggest_from name acc cap = "" <->
  acc = "" /\ all_bytes (fun a => negb (is_param_byte a)) name = true.
Proof.
  revert acc cap. induction name as [|a name IH]; intros acc cap; simpl; [naive_solver|].
  destruct (is_param_byte a); rewrite IH; simpl; [|naive_solver].
  split; [|by intros [_ ?]]. intros [H _]. by destruct acc.
Qed.

(** *** Chains of nested files *)

Lemma strip_dir_app base rest : strip_dir base (base ++ rest) = Some rest.
Proof. induction base as [|b base IH]; [done|]. simpl. by rewrite String.eqb_refl. Qed.

Lemma levels_snoc current rest s :
  levels current (rest ++ [s]) = levels current rest ++ [current ++ rest ++ [s]].
Proof.
  revert current. induction rest as [|r rest IH]; intros current; [done|].
  simpl. rewrite IH. do 2 f_equal. by rewrite <- app_assoc.
Qed.

(** ** Properties *)

(** Which directories become routes, and as what.  For folder names that
    are non-empty and hold no separator, [route_path_from_dir] answers a path
    exactly when every folder that reaches the URL (no route group, no slot)
    has an allowed form and a catch-all ends the path; and the pattern the
    router compiles that path to is, segment by segment, the form each folder
    was accepted as. *)
Theorem route_path_from_dir_decides : forall dir,
  Forall wf_segment dir ->
  forall p, route_path_from_dir dir = inl p <->
    p = path_of_segments (visible_folders dir) /\
    Forall2 route_folder (visible_folders dir) (parse_pattern p) /\
    catch_all_last (parse_pattern p) = true.
Proof.
  intros dir Hwf p. rewrite route_path_from_dir_spec. split.
  - intros (-> & gs & Hgs & Hc). destruct (dir_path_parse dir gs Hwf Hgs) as [-> _]. done.
  - intros (-> & Hgs & Hc). eauto.
Qed.

Lemma route_path_from_dir_witness :
  let dir := ["(shop)"; "items"; "[id]"; "@modal"; "[[...rest]]"] in
  route_path_from_dir dir = inl "/items/[id]/[[...rest]]" /\
  parse_pattern "/items/[id]/[[...rest]]" = [Static "items"; Param "id"; OptionalWildcard "rest"] /\
  catch_all_last (parse_pattern "/items/[id]/[[...rest]]") = true.
Proof.
  split; [|split]; [reflexivity|reflexivity|].
  apply (route_path_from_dir_decides ["(shop)"; "items"; "[id]"; "@modal"; "[[...rest]]"]);
    [repeat constructor; discriminate|reflexivity].
Defined.

(** The advice given with a refused parameter name is usable.  A suggested
    name is itself accepted and is only offered for a name that was not; no
    suggestion is made only for a name that needs none, or that has no byte a
    suggestion could keep. *)
Theorem suggested_name_is_accepted : forall name,
  match suggested_dynamic_name name with
  | Some replacement => valid_dynamic_name replacement = true /\ valid_dynamic_name name = false
  | None => valid_dynamic_name name = true \/ all_bytes (fun a => negb (is_param_byte a)) name = true
  end.
Proof.
  intros name. unfold suggested_dynamic_name.
  pose proof (suggest_from_bytes name "" false eq_refl) as Hb.
  destruct (is_empty_str (suggest_from name "" false)) eqn:He; cbn [negb andb].
  - right. eapply (suggest_from_empty name "" false). by destruct (suggest_from name "" false).
  - destruct (String.eqb_spec (suggest_from name "" false) name) as [Heq|Hne]; cbn [negb].
    + left. unfold valid_dynamic_name. by rewrite <- Heq, He, Hb.
    + split; [unfold valid_dynamic_name; by rewrite He, Hb|].
      destruct (valid_dynamic_name name) eqn:Hv; [|done]. exfalso. apply Hne.
      apply valid_name_bytes in Hv as [_ Hv]. by apply suggest_from_valid.
Qed.

(** The layout (or template) chain of a route is the chain of its parent
    folder followed by the folder's own file when there is one, so the chain
    runs from the app root down to the route and skips nothing on the way; at
    the root it is the root's own file. *)
Theorem nested_chain_extends_parent : forall is_file app_dir dir s names,
  nested_chain is_file app_dir app_dir names = option_list (nested_file_id is_file app_dir app_dir names) /\
  nested_chain is_file app_dir (app_dir ++ dir ++ [s]) names =
    nested_chain is_file app_dir (app_dir ++ dir) names ++
    option_list (nested_file_id is_file app_dir (app_dir ++ dir ++ [s]) names).
Proof.
  intros is_file app_dir dir s names. unfold nested_chain. split.
  - rewrite <- (app_nil_r app_dir) at 2. rewrite strip_dir_app. simpl.
    by destruct (nested_file_id is_file app_dir app_dir names).
  - rewrite !strip_dir_app, levels_snoc, omap_app. by f_equal.
Qed.
