(* ===== verification/Recency.v ===== *)
(** The recency order of the render cache
    (crates/ruvyxa_dev_server/src/render_cache.rs, [RecencyList]): a doubly
    linked list whose nodes live in a hash map and are addressed by key.

    Every [expect] of the source is a branch that answers [None]: the model
    panics where the code would, and the refinement theorem shows that a
    well-linked list never does. *)
From S2P Require Import Prelude.

(** ** Definitions *)

Record RecencyLinks := mkLinks { prev : option string; next : option string }.

Record RecencyList := mkRecency {
  links : gmap string RecencyLinks;
  rl_head : option string;
  rl_tail : option string;
}.

Definition empty_recency : RecencyList := mkRecency ∅ None None.

(** [RecencyList::len] *)
Definition recency_len (rl : RecencyList) : nat := size (links rl).

(** [self.links.get_mut(key).expect(..)] followed by a write through the reference. *)
Definition update_links (f : RecencyLinks -> RecencyLinks) (key : string)
    (m : gmap string RecencyLinks) : option (gmap string RecencyLinks) :=
  match m !! key with
  | Some l => Some (<[key := f l]> m)
  | None => None
  end.

Definition set_next (n : option string) (l : RecencyLinks) : RecencyLinks := mkLinks (prev l) n.
Definition set_prev (p : option string) (l : RecencyLinks) : RecencyLinks := mkLinks p (next l).

(** [push_back] *)
Definition push_back (key : string) (rl : RecencyList) : option RecencyList :=
  let new_links := mkLinks (rl_tail rl) None in
  match rl_tail rl with
  | Some tail =>
      m ← update_links (set_next (Some key)) tail (links rl);
      Some (mkRecency (<[key := new_links]> m) (rl_head rl) (Some key))
  | None => Some (mkRecency (<[key := new_links]> (links rl)) (Some key) (Some key))
  end.

(** [take]: the inner [option] is the answer, the outer one the panic. *)
Definition take (key : string) (rl : RecencyList) : option (option string * RecencyList) :=
  match links rl !! key with
  | None => Some (None, rl)
  | Some l =>
      let m := delete key (links rl) in
      '(m, head) ←
        match prev l with
        | Some p => m' ← update_links (set_next (next l)) p m; Some (m', rl_head rl)
        | None => Some (m, next l)
        end;
      '(m, tail) ←
        match next l with
        | Some n => m' ← update_links (set_prev (prev l)) n m; Some (m', rl_tail rl)
        | None => Some (m, prev l)
        end;
      Some (Some key, mkRecency m head tail)
  end.

(** [remove] *)
Definition remove (key : string) (rl : RecencyList) : option (bool * RecencyList) :=
  '(owned, rl') ← take key rl; Some (bool_decide (is_Some owned), rl').

(** [promote] *)
Definition promote (key : string) (rl : RecencyList) : option RecencyList :=
  '(owned, rl') ← take key rl;
  match owned with
  | Some k => push_back k rl'
  | None => Some rl'
  end.

(** [pop_front] *)
Definition pop_front (rl : RecencyList) : option (option string * RecencyList) :=
  match rl_head rl with
  | None => Some (None, rl)
  | Some head => take head rl
  end.

(** [clear] *)
Definition clear (rl : RecencyList) : RecencyList := empty_recency.

(** The [while] loop of [retain]: the cursor moves on before its key is unlinked. *)
Fixpoint retain_loop (fuel : nat) (keep : string -> bool) (cursor : option string)
    (rl : RecencyList) : option RecencyList :=
  match fuel, cursor with
  | _, None => Some rl
  | O, Some _ => None
  | S fuel', Some key =>
      let cursor' := links rl !! key ≫= next in
      if keep key then retain_loop fuel' keep cursor' rl
      else '(_, rl') ← take key rl; retain_loop fuel' keep cursor' rl'
  end.

(** [retain] *)
Definition retain (keep : string -> bool) (rl : RecencyList) : option RecencyList :=
  retain_loop (recency_len rl) keep (rl_head rl) rl.

(** The loop of [keys_front_to_back], whose indexing panics on an unlinked key. *)
Fixpoint keys_loop (fuel : nat) (cursor : option string) (rl : RecencyList) : option (list string) :=
  match fuel, cursor with
  | _, None => Some []
  | O, Some _ => None
  | S fuel', Some key =>
      l ← links rl !! key;
      keys ← keys_loop fuel' (next l) rl;
      Some (key :: keys)
  end.

(** [keys_front_to_back] *)
Definition keys_front_to_back (rl : RecencyList) : option (list string) :=
  keys_loop (recency_len rl) (rl_head rl) rl.

(** *** The abstraction: a list of keys, least recently used first *)

(** The map of links of a run of keys, its outer neighbours given, over a base map. *)
Fixpoint chain (p : option string) (l : list string) (n : option string)
    (m : gmap string RecencyLinks) : gmap string RecencyLinks :=
  match l with
  | [] => m
  | k :: l' =>
      <[k := mkLinks p (match l' with [] => n | k' :: _ => Some k' end)]> (chain (Some k) l' n m)
  end.

(** [rl] is the linked form of the keys [l]. *)
Definition linked (rl : RecencyList) (l : list string) : Prop :=
  NoDup l /\ links rl = chain None l None ∅ /\ rl_head rl = head l /\ rl_tail rl = last l.

(** Move a key to the most recently used end. *)
Definition list_promote (key : string) (l : list string) : list string :=
  if decide (key ∈ l) then filter (.≠ key) l ++ [key] else l.

(** ** Lemmas *)

Lemma chain_app p l1 l2 n m :
  chain p (l1 ++ l2) n m =
  chain p l1 (match l2 with [] => n | k :: _ => Some k end)
    (chain (match last l1 with Some k => Some k | None => p end) l2 n m).
Proof.
  revert p. induction l1 as [|k l1 IH]; intros p; [done|]. cbn [app chain]. rewrite IH.
  destruct l1 as [|k' l1]; [by destruct l2|].
  change (last (k :: k' :: l1)) with (last (k' :: l1)). cbn [app].
  destruct (last (k' :: l1)) eqn:E; [done|by apply last_None in E].
Qed.

Lemma chain_lookup_ne p l n m k : k ∉ l -> chain p l n m !! k = m !! k.
Proof.
  revert p. induction l as [|k' l IH]; intros p; [done|]. rewrite not_elem_of_cons. intros [Hk Hl].
  simpl. rewrite lookup_insert_ne by congruence. by apply IH.
Qed.

Lemma chain_delete p l n m k : k ∉ l -> delete k (chain p l n m) = chain p l n (delete k m).
Proof.
  revert p. induction l as [|k' l IH]; intros p; [done|]. rewrite not_elem_of_cons. intros [Hk Hl].
  simpl. rewrite delete_insert_ne by congruence. by rewrite IH.
Qed.

Lemma chain_insert p l n m k x :
  k ∉ l -> <[k := x]> (chain p l n m) = chain p l n (<[k := x]> m).
Proof.
  revert p. induction l as [|k' l IH]; intros p; [done|]. rewrite not_elem_of_cons. intros [Hk Hl].
  simpl. rewrite insert_insert_ne by congruence. by rewrite IH.
Qed.

Lemma chain_size p l n : NoDup l -> size (chain p l n ∅) = length l.
Proof.
  intros Hl. revert p. induction Hl as [|k l Hk Hl IH]; intros p; [apply map_size_empty|].
  simpl. rewrite map_size_insert_None; [by rewrite IH|]. by rewrite chain_lookup_ne.
Qed.

Lemma chain_dom p l n : dom (chain p l n ∅) = (list_to_set l : gset string).
Proof.
  revert p. induction l as [|k l IH]; intros p; [apply dom_empty_L|].
  simpl. by rewrite dom_insert_L, IH.
Qed.

(** Writing through the links of a node inside the chain. *)
Lemma chain_set_next p l k n n' m :
  k ∉ l -> update_links (set_next n') k (chain p (l ++ [k]) n m) = Some (chain p (l ++ [k]) n' m).
Proof.
  intros Hk. unfold update_links. rewrite !chain_app. simpl.
  rewrite chain_lookup_ne by done. rewrite lookup_insert_eq. unfold set_next. simpl.
  rewrite chain_insert by done. by rewrite insert_insert_eq.
Qed.

Lemma chain_set_prev p p' k l n m :
  update_links (set_prev p') k (chain p (k :: l) n m) = Some (chain p' (k :: l) n m).
Proof.
  unfold update_links. simpl. rewrite lookup_insert_eq. unfold set_prev. simpl.
  by rewrite insert_insert_eq.
Qed.

Lemma update_links_under f k p l n m :
  k ∉ l -> update_links f k (chain p l n m) = (chain p l n) <$> update_links f k m.
Proof.
  intros Hk. unfold update_links. rewrite chain_lookup_ne by done.
  destruct (m !! k); [|done]. simpl. by rewrite chain_insert.
Qed.

Lemma head_match {A} (l : list A) (d : option A) :
  match l with [] => d | k :: _ => Some k end = match head l with Some k => Some k | None => d end.
Proof. by destruct l. Qed.

Lemma linked_empty : linked empty_recency [].
Proof. repeat split. constructor. Qed.

Lemma linked_len rl l : linked rl l -> recency_len rl = length l.
Proof. intros (Hn & Hl & _ & _). unfold recency_len. rewrite Hl. by apply chain_size. Qed.

Lemma linked_lookup_None rl l k : linked rl l -> links rl !! k = None <-> k ∉ l.
Proof.
  intros (_ & -> & _). rewrite <- not_elem_of_dom, chain_dom. by rewrite elem_of_list_to_set.
Qed.

(** The links a node holds are its neighbours. *)
Lemma linked_lookup rl l1 k l2 :
  linked rl (l1 ++ k :: l2) -> links rl !! k = Some (mkLinks (last l1) (head l2)).
Proof.
  intros (Hn & -> & _). apply NoDup_app in Hn as (_ & Hd & _).
  rewrite chain_app, chain_lookup_ne; [|intros Hk; apply (Hd k Hk); set_solver].
  cbn [chain]. rewrite lookup_insert_eq. rewrite head_match. by destruct (last l1), (head l2).
Qed.

Lemma push_back_linked rl l k :
  linked rl l -> k ∉ l -> exists rl', push_back k rl = Some rl' /\ linked rl' (l ++ [k]).
Proof.
  intros (Hn & Hm & Hh & Ht) Hk. unfold push_back. rewrite Ht.
  assert (NoDup (l ++ [k])) as Hn'.
  { apply NoDup_app. split_and!; [done| |apply NoDup_singleton]. set_solver. }
  destruct l as [|x l'] using rev_ind.
  - eexists. split; [done|]. split_and!; [done| |done|done]. cbn [links]. by rewrite Hm.
  - rewrite last_snoc, Hm. apply NoDup_app in Hn as (_ & Hd & _).
    rewrite chain_set_next by set_solver. cbn. eexists. split; [done|].
    split_and!; [done| | |by rewrite last_snoc]; cbn [links rl_head].
    + rewrite chain_insert by done. by rewrite (chain_app None (l' ++ [x]) [k]), last_snoc.
    + rewrite Hh. by destruct l'.
Qed.

(** The links once the key between [l1] and [l2] has been deleted. *)
Lemma linked_delete rl l1 k l2 :
  linked rl (l1 ++ k :: l2) ->
  delete k (links rl) = chain None l1 (Some k) (chain (Some k) l2 None ∅).
Proof.
  intros (Hn & -> & _). apply NoDup_app in Hn as (_ & Hd & [Hk2 _]%NoDup_cons).
  rewrite chain_app, chain_delete; [|intros Hk; apply (Hd k Hk); set_solver].
  cbn [chain]. rewrite delete_insert_eq, delete_id; [done|].
  by rewrite chain_lookup_ne.
Qed.

Lemma take_absent rl l k : linked rl l -> k ∉ l -> take k rl = Some (None, rl).
Proof. intros H Hk. unfold take. by rewrite (proj2 (linked_lookup_None rl l k H)). Qed.

Lemma take_linked rl l1 k l2 :
  linked rl (l1 ++ k :: l2) ->
  exists rl', take k rl = Some (Some k, rl') /\ linked rl' (l1 ++ l2).
Proof.
  intros H. pose proof (linked_lookup _ _ _ _ H) as Hk. pose proof (linked_delete _ _ _ _ H) as Hdel.
  destruct H as (Hn & Hm & Hh & Ht). unfold take. rewrite Hk, Hdel. cbn [prev next].
  pose proof Hn as Hn0. apply NoDup_app in Hn0 as (Hn1 & Hd & Hn2). apply NoDup_cons in Hn2 as [Hk2 Hn2].
  assert (NoDup (l1 ++ l2)) as Hn'.
  { apply NoDup_app. split_and!; [done| |done]. intros x Hx. specialize (Hd x Hx). set_solver. }
  assert (exists m,
    match last l1 with
    | Some p => m' ← update_links (set_next (head l2)) p (chain None l1 (Some k) (chain (Some k) l2 None ∅));
                Some (m', rl_head rl)
    | None => Some (chain None l1 (Some k) (chain (Some k) l2 None ∅), head l2)
    end = Some (m, head (l1 ++ l2)) /\ m = chain None l1 (head l2) (chain (Some k) l2 None ∅))
    as (m & -> & ->).
  { destruct l1 as [|p l1 _] using rev_ind; [by eexists|]. rewrite last_snoc.
    rewrite chain_set_next by (apply NoDup_app in Hn1 as (_ & Hd1 & _); set_solver).
    cbn. eexists. split; [|done]. rewrite Hh. by destruct l1. }
  cbn [mbind option_bind].
  assert (exists m,
    match head l2 with
    | Some n => m' ← update_links (set_prev (last l1)) n (chain None l1 (head l2) (chain (Some k) l2 None ∅));
                Some (m', rl_tail rl)
    | None => Some (chain None l1 (head l2) (chain (Some k) l2 None ∅), last l1)
    end = Some (m, last (l1 ++ l2)) /\ m = chain None (l1 ++ l2) None ∅) as (m & -> & ->).
  { destruct l2 as [|n l2]; cbn [head]; [by eexists; rewrite app_nil_r|].
    rewrite update_links_under by (specialize (Hd n); set_solver).
    rewrite (chain_set_prev (Some k) (last l1)). cbn. eexists. split.
    - rewrite Ht, !last_app_cons. done.
    - rewrite (chain_app None l1 (n :: l2)). by destruct (last l1). }
  cbn. eexists. split; [done|]. by repeat split.
Qed.

Lemma filter_ne_id (k : string) (l : list string) : k ∉ l -> filter (.≠ k) l = l.
Proof.
  induction l as [|x l IH]; [done|]. rewrite not_elem_of_cons. intros [Hx Hl].
  rewrite filter_cons_True by congruence. by rewrite IH.
Qed.

Lemma filter_ne_split (k : string) (l1 l2 : list string) :
  NoDup (l1 ++ k :: l2) -> filter (.≠ k) (l1 ++ k :: l2) = l1 ++ l2.
Proof.
  intros (_ & Hd & [Hk2 _]%NoDup_cons)%NoDup_app.
  rewrite filter_app, filter_cons_False by congruence.
  rewrite !filter_ne_id; [done|done|]. intros Hk. apply (Hd k Hk). set_solver.
Qed.

Lemma linked_NoDup rl l : linked rl l -> NoDup l.
Proof. by intros [? _]. Qed.

Lemma take_spec rl l k :
  linked rl l ->
  exists rl', take k rl = Some (if decide (k ∈ l) then Some k else None, rl') /\
    linked rl' (filter (.≠ k) l).
Proof.
  intros H. destruct (decide (k ∈ l)) as [Hk|Hk].
  - apply list_elem_of_split in Hk as (l1 & l2 & ->).
    rewrite filter_ne_split by by eapply linked_NoDup. by apply take_linked.
  - rewrite filter_ne_id by done. exists rl. split; [by eapply take_absent|done].
Qed.

Lemma remove_spec rl l k :
  linked rl l ->
  exists rl', remove k rl = Some (bool_decide (k ∈ l), rl') /\ linked rl' (filter (.≠ k) l).
Proof.
  intros H. destruct (take_spec rl l k H) as (rl' & Ht & Hl). unfold remove. rewrite Ht. cbn.
  exists rl'. split; [|done]. do 2 f_equal. apply bool_decide_ext.
  destruct (decide (k ∈ l)); [split; eauto|]. split; [by intros [? ?]|done].
Qed.

Lemma not_elem_filter_ne (k : string) (l : list string) : k ∉ filter (.≠ k) l.
Proof. intros H. apply list_elem_of_filter in H. naive_solver. Qed.

Lemma promote_spec rl l k :
  linked rl l -> exists rl', promote k rl = Some rl' /\ linked rl' (list_promote k l).
Proof.
  intros H. destruct (take_spec rl l k H) as (rl' & Ht & Hl). unfold promote, list_promote.
  rewrite Ht. cbn. destruct (decide (k ∈ l)) as [Hk|Hk].
  - apply (push_back_linked rl'); [done|apply not_elem_filter_ne].
  - rewrite filter_ne_id in Hl by done. by eexists.
Qed.

Lemma pop_front_spec rl l :
  linked rl l -> exists rl', pop_front rl = Some (head l, rl') /\ linked rl' (tail l).
Proof.
  intros H. unfold pop_front. destruct (H) as (_ & _ & -> & _).
  destruct l as [|k l]; cbn [head tail]; [by eexists|]. by apply (take_linked rl [] k l).
Qed.

Lemma retain_loop_spec keep fuel l1 l2 rl :
  linked rl (l1 ++ l2) -> length l2 <= fuel ->
  exists rl', retain_loop fuel keep (head l2) rl = Some rl' /\
    linked rl' (l1 ++ filter (fun k => keep k = true) l2).
Proof.
  revert l1 l2 rl. induction fuel as [|fuel IH]; intros l1 l2 rl H Hf.
  { destruct l2; simpl in Hf; [|lia]. rewrite filter_nil. by exists rl. }
  destruct l2 as [|k l2]; [rewrite filter_nil; by exists rl|]. cbn [head retain_loop].
  rewrite (linked_lookup _ _ _ _ H). cbn [mbind option_bind next]. simpl in Hf.
  destruct (keep k) eqn:E.
  - rewrite filter_cons_True by done.
    destruct (IH (l1 ++ [k]) l2 rl) as (rl' & Hr & Hl'); [by rewrite <- app_assoc|lia|].
    exists rl'. split; [done|]. by rewrite <- app_assoc in Hl'.
  - rewrite filter_cons_False by congruence.
    destruct (take_linked _ _ _ _ H) as (rl1 & -> & H1). cbn. apply IH; [done|lia].
Qed.

Lemma retain_spec rl l keep :
  linked rl l ->
  exists rl', retain keep rl = Some rl' /\ linked rl' (filter (fun k => keep k = true) l).
Proof.
  intros H. unfold retain. destruct (H) as (_ & _ & -> & _).
  apply (retain_loop_spec keep _ [] l rl); [done|]. by rewrite (linked_len rl l).
Qed.

Lemma keys_loop_spec fuel l1 l2 rl :
  linked rl (l1 ++ l2) -> length l2 <= fuel -> keys_loop fuel (head l2) rl = Some l2.
Proof.
  revert l1 l2. induction fuel as [|fuel IH]; intros l1 l2 H Hf.
  { by destruct l2; simpl in Hf; [|lia]. }
  destruct l2 as [|k l2]; [done|]. cbn [head keys_loop].
  rewrite (linked_lookup _ _ _ _ H). cbn [mbind option_bind next]. simpl in Hf.
  rewrite (IH (l1 ++ [k]) l2); [done|by rewrite <- app_assoc|lia].
Qed.

Lemma keys_spec rl l : linked rl l -> keys_front_to_back rl = Some l.
Proof.
  intros H. unfold keys_front_to_back. destruct (H) as (_ & _ & -> & _).
  apply (keys_loop_spec _ [] l rl); [done|]. by rewrite (linked_len rl l).
Qed.

(** ** Properties *)

(** The hash-linked recency list implements a plain list of keys.  On the
    linked form of a duplicate-free list no operation reaches an [expect] that
    would panic, each terminates within the number of stored keys, and each
    yields the linked form of what the list operation gives: append, erase,
    move to the end, drop the first, filter in order; reading the keys back
    gives the list. *)
Theorem recency_list_refines_list : forall rl l,
  linked rl l ->
  (forall k, k ∉ l -> exists rl', push_back k rl = Some rl' /\ linked rl' (l ++ [k])) /\
  (forall k, exists rl', remove k rl = Some (bool_decide (k ∈ l), rl') /\ linked rl' (filter (.≠ k) l)) /\
  (forall k, exists rl', promote k rl = Some rl' /\ linked rl' (list_promote k l)) /\
  (exists rl', pop_front rl = Some (head l, rl') /\ linked rl' (tail l)) /\
  (forall keep, exists rl', retain keep rl = Some rl' /\ linked rl' (filter (fun k => keep k = true) l)) /\
  keys_front_to_back rl = Some l /\ recency_len rl = length l /\ linked (clear rl) [].
Proof.
  intros rl l H. split_and!.
  - intros k. by apply push_back_linked.
  - intros k. by apply remove_spec.
  - intros k. by apply promote_spec.
  - by apply pop_front_spec.
  - intros keep. by apply retain_spec.
  - by apply keys_spec.
  - by apply linked_len.
  - apply linked_empty.
Qed.

Lemma recency_list_refines_list_witness :
  linked (mkRecency {["a" := mkLinks None (Some "b"); "b" := mkLinks (Some "a") None]} (Some "a") (Some "b"))
    ["a"; "b"] /\
  keys_front_to_back (mkRecency {["a" := mkLinks None (Some "b"); "b" := mkLinks (Some "a") None]}
    (Some "a") (Some "b")) = Some ["a"; "b"].
Proof.
  assert (linked (mkRecency {["a" := mkLinks None (Some "b"); "b" := mkLinks (Some "a") None]}
    (Some "a") (Some "b")) ["a"; "b"]) as H.
  { split; [apply (bool_decide_unpack _); reflexivity|]. split; [reflexivity|]. by split. }
  split; [exact H|].
  apply (recency_list_refines_list _ _ H).
Defined.
