(* ===== verification/RenderCache.v ===== *)
(** The render cache (crates/ruvyxa_dev_server/src/render_cache.rs): the keyed
    store of rendered documents, its least-recently-used order, its TTL, the
    claims [revalidatePath()] leaves behind, and the key format invalidation
    reads back.

    [RenderCache] is shared between requests behind locks.  An operation that
    takes the locks once is one definition; an operation that releases them and
    takes them again ([get_document], [revalidate_path], ..) is the composition
    of one definition per critical section, and the step relation [step]
    interleaves the sections of any number of requests.  An outer [option] is a
    panic.  Instants and durations are nanoseconds ([N]). *)
From S2P Require Import Prelude RustStr Manifest Recency.

(** ** Definitions *)

Definition DEFAULT_CAPACITY : N := 1024.
Definition DEFAULT_TTL_SECS : N := 300.
Definition MAX_ENV_RENDER_CACHE_CAPACITY : N := 16384.

(** [compressed] names the [Arc<OnceLock<_>>] an entry shares with the
    documents handed out for it: a slot of [slots]. *)
Record CacheEntry := mkEntry { value : string; compressed : nat; created_at : N }.
Record CompressedDocument := mkCompressed { encoding : string; bytes : string }.
Record CachedDocument := mkDoc { html : string; doc_compressed : nat }.

(** *** Claims of [revalidatePath()] *)

Definition MAX_FORCED_REVALIDATIONS : N := 1024.
Definition FORCED_REVALIDATION_HIGH_WATER : N := MAX_FORCED_REVALIDATIONS * 3 / 4.

Inductive MarkOutcome := Recorded | HighWater | FailedClosed.

Record ForcedRevalidations := mkForced {
  paths : gmap string N;
  next_generation : N;
  bypass_prerendered : bool;
  warned_high_water : bool;
}.

Inductive ForcedRevalidationClaim := Exact (generation : N) | All.

Definition no_forced : ForcedRevalidations := mkForced ∅ 0 false false.

(** [ForcedRevalidations::fail_closed] *)
Definition fail_closed (f : ForcedRevalidations) : ForcedRevalidations :=
  mkForced ∅ (next_generation f) true true.

Definition map_len {A} (m : gmap string A) : N := N.of_nat (size m).

(** [ForcedRevalidations::mark] *)
Definition mark (path : string) (f : ForcedRevalidations) : MarkOutcome * ForcedRevalidations :=
  if bypass_prerendered f then (Recorded, f)
  else if bool_decide (paths f !! path = None) && (MAX_FORCED_REVALIDATIONS <=? map_len (paths f))%N
  then (FailedClosed, fail_closed f)
  else match checked_add64 (next_generation f) 1 with
       | None => (FailedClosed, fail_closed f)
       | Some generation =>
           let paths' := <[path := generation]> (paths f) in
           if negb (warned_high_water f) && (FORCED_REVALIDATION_HIGH_WATER <=? map_len paths')%N
           then (HighWater, mkForced paths' generation false true)
           else (Recorded, mkForced paths' generation false (warned_high_water f))
       end.

(** [ForcedRevalidations::claim] *)
Definition claim (path : string) (f : ForcedRevalidations) : option ForcedRevalidationClaim :=
  if bypass_prerendered f then Some All else Exact <$> paths f !! path.

(** [ForcedRevalidations::acknowledge] *)
Definition acknowledge (path : string) (c : ForcedRevalidationClaim) (f : ForcedRevalidations)
    : ForcedRevalidations :=
  match c with
  | All => f
  | Exact generation =>
      if bool_decide (paths f !! path = Some generation)
      then mkForced (delete path (paths f)) (next_generation f) (bypass_prerendered f) (warned_high_water f)
      else f
  end.

(** *** Cache keys *)

Definition RENDER_NAMESPACES : list string := ["ssg:"; "isr:"; "ppr:"; "csr:"].
Definition KEY_MARKERS : list string := ["client:"; "ssr:"].

Section keys.
(** [serde_json::to_string] of the bound parameters. *)
Context (params_json : gmap string Value -> string).

(** [page_cache_key] *)
Definition page_cache_key (namespace request_path : string) (params : gmap string Value) : string :=
  if bool_decide (params = ∅) then namespace +:+ "ssr:" +:+ request_path
  else namespace +:+ "ssr:" +:+ request_path +:+ "?" +:+ params_json params.

(** [ssr_cache_key] *)
Definition ssr_cache_key (request_path : string) (params : gmap string Value) : string :=
  page_cache_key "" request_path params.

(** [client_cache_key] *)
Definition client_cache_key (request_path : string) (params : gmap string Value) : string :=
  if bool_decide (params = ∅) then "client:" +:+ request_path
  else "client:" +:+ request_path +:+ "?" +:+ params_json params.
End keys.

(** [path.split('?').next().unwrap_or(path)] *)
Definition before_query (path : string) : string := default path (head (split_char "?"%char path)).

Definition without_namespace (cache_key : string) : string :=
  default cache_key (find_map (fun ns => strip_prefix ns cache_key) RENDER_NAMESPACES).

(** [cache_key_request_path] *)
Definition cache_key_request_path (cache_key : string) : option string :=
  before_query <$> find_map (fun marker => strip_prefix marker (without_namespace cache_key)) KEY_MARKERS.

(** [cache_key_matches_path] *)
Definition cache_key_matches_path (cache_key request_path : string) : bool :=
  match cache_key_request_path cache_key with
  | None => false
  | Some keyed_path => String.eqb keyed_path request_path
  end.

(** The text before the first [:], [*] or [[] of a route pattern, [None] when it has none. *)
Fixpoint static_head (route_path : string) : option string :=
  match route_path with
  | "" => None
  | String a rest =>
      if Ascii.eqb a ":"%char || Ascii.eqb a "*"%char || Ascii.eqb a "["%char then Some ""
      else String a <$> static_head rest
  end.

(** [cache_key_matches_route] *)
Definition cache_key_matches_route (cache_key route_path : string) : bool :=
  let request_path := default cache_key (cache_key_request_path cache_key) in
  match static_head route_path with
  | Some prefix => starts_with prefix request_path
  | None => String.eqb request_path route_path
  end.

(** *** The cache *)

Record RenderCache := mkCache {
  entries : gmap string CacheEntry;
  order : RecencyList;
  forced : ForcedRevalidations;
  capacity : N;
  ttl : N;
  hits : N;
  misses : N;
  slots : gmap nat CompressedDocument;
  next_slot : nat;
}.

Definition nanos_per_second : N := 1000000000.

(** [RenderCache::new] *)
Definition new_cache (capacity ttl_secs : N) : RenderCache :=
  mkCache ∅ empty_recency no_forced capacity (ttl_secs * nanos_per_second) 0 0 ∅ 0.

Definition with_store (e : gmap string CacheEntry) (o : RecencyList) (c : RenderCache) : RenderCache :=
  mkCache e o (forced c) (capacity c) (ttl c) (hits c) (misses c) (slots c) (next_slot c).
Definition with_forced (f : ForcedRevalidations) (c : RenderCache) : RenderCache :=
  mkCache (entries c) (order c) f (capacity c) (ttl c) (hits c) (misses c) (slots c) (next_slot c).
Definition with_slot (s : nat) (d : CompressedDocument) (c : RenderCache) : RenderCache :=
  mkCache (entries c) (order c) (forced c) (capacity c) (ttl c) (hits c) (misses c)
    (<[s := d]> (slots c)) (next_slot c).

(** [AtomicU64::fetch_add] wraps. *)
Definition wrap_succ64 (n : N) : N := (n + 1) mod (u64_max + 1).
Definition count_hit (c : RenderCache) : RenderCache :=
  mkCache (entries c) (order c) (forced c) (capacity c) (ttl c) (wrap_succ64 (hits c)) (misses c)
    (slots c) (next_slot c).
Definition count_miss (c : RenderCache) : RenderCache :=
  mkCache (entries c) (order c) (forced c) (capacity c) (ttl c) (hits c) (wrap_succ64 (misses c))
    (slots c) (next_slot c).
(** [Arc::new(OnceLock::new())] *)
Definition alloc_slot (c : RenderCache) : nat * RenderCache :=
  (next_slot c, mkCache (entries c) (order c) (forced c) (capacity c) (ttl c) (hits c) (misses c)
    (slots c) (S (next_slot c))).

(** [Instant::elapsed], saturating. *)
Definition elapsed (now : N) (e : CacheEntry) : N := now - created_at e.

(** The read section of [get_document]. *)
Definition read_fresh (now : N) (key : string) (c : RenderCache) : option CachedDocument :=
  match entries c !! key with
  | Some e => if (elapsed now e <=? ttl c)%N then Some (mkDoc (value e) (compressed e)) else None
  | None => None
  end.

(** [RenderCache::promote] *)
Definition promote_key (key : string) (c : RenderCache) : option RenderCache :=
  o ← promote key (order c); Some (with_store (entries c) o c).

(** [remove_if_expired] *)
Definition remove_if_expired (now : N) (key : string) (c : RenderCache) : option RenderCache :=
  match entries c !! key with
  | Some e =>
      if (ttl c <? elapsed now e)%N then
        '(_, o) ← remove key (order c); Some (with_store (delete key (entries c)) o c)
      else Some c
  | None => Some c
  end.

(** [get_document]; the clock is read again by the removal. *)
Definition get_document (now now' : N) (key : string) (c : RenderCache)
    : option (option CachedDocument * RenderCache) :=
  match read_fresh now key c with
  | Some doc => c' ← promote_key key (count_hit c); Some (Some doc, c')
  | None =>
      c' ← (if bool_decide (is_Some (entries c !! key)) then remove_if_expired now' key c else Some c);
      Some (None, count_miss c')
  end.

(** [get_stale_with_age] *)
Definition get_stale_with_age (now : N) (key : string) (c : RenderCache)
    : option (option (CachedDocument * N) * RenderCache) :=
  match entries c !! key with
  | None => Some (None, c)
  | Some e =>
      c' ← promote_key key (count_hit c);
      Some (Some (mkDoc (value e) (compressed e), elapsed now e), c')
  end.

(** [CachedDocument::compressed] on a document that shares the slots of [c]. *)
Definition compressed_copy (accepts : string -> bool) (encode : string -> option CompressedDocument)
    (d : CachedDocument) (c : RenderCache) : option CompressedDocument * RenderCache :=
  match slots c !! doc_compressed d with
  | Some existing => (if accepts (encoding existing) then Some existing else None, c)
  | None =>
      match encode (html d) with
      | None => (None, c)
      | Some built => (if accepts (encoding built) then Some built else None,
                       with_slot (doc_compressed d) built c)
      end
  end.

(** The eviction loop of [put]. *)
Fixpoint evict_loop (fuel : nat) (cap : N) (e : gmap string CacheEntry) (o : RecencyList)
    : option (gmap string CacheEntry * RecencyList) :=
  if (cap <=? map_len e)%N then
    match fuel with
    | O => None
    | S fuel' =>
        '(oldest, o') ← pop_front o;
        match oldest with
        | None => Some (∅, o')
        | Some k => evict_loop fuel' cap (delete k e) o'
        end
    end
  else Some (e, o).

(** [put] *)
Definition put (now : N) (key val : string) (c : RenderCache) : option (CachedDocument * RenderCache) :=
  let '(slot, c) := alloc_slot c in
  if (capacity c =? 0)%N then Some (mkDoc val slot, c)
  else
    '(e, o) ← (if bool_decide (is_Some (entries c !! key))
               then ('(_, o) ← remove key (order c); Some (entries c, o))
               else evict_loop (S (recency_len (order c))) (capacity c) (entries c) (order c));
    o' ← push_back key o;
    Some (mkDoc val slot, with_store (<[key := mkEntry val slot now]> e) o' c).

(** [retain_matching] *)
Definition retain_matching (discard : string -> bool) (c : RenderCache) : option (N * RenderCache) :=
  let e := filter (fun kv => discard kv.1 = false) (entries c) in
  o ← retain (fun key => negb (discard key)) (order c);
  Some ((map_len (entries c) - map_len e)%N, with_store e o c).

(** [invalidate_all] and [invalidate_all_blocking] *)
Definition invalidate_all (c : RenderCache) : option (N * RenderCache) :=
  retain_matching (fun _ => true) c.

(** [invalidate_route] and [invalidate_route_blocking] *)
Definition invalidate_route (route_path : string) (c : RenderCache) : option (N * RenderCache) :=
  retain_matching (fun key => cache_key_matches_route key route_path) c.

(** The two sections of [revalidate_path]: dropping the renders, then marking the path. *)
Definition drop_path (request_path : string) (c : RenderCache) : option (N * RenderCache) :=
  retain_matching (fun key => cache_key_matches_path key request_path) c.
Definition mark_path (request_path : string) (c : RenderCache) : MarkOutcome * RenderCache :=
  let '(outcome, f) := mark request_path (forced c) in (outcome, with_forced f c).

(** [revalidate_path] *)
Definition revalidate_path (request_path : string) (c : RenderCache) : option (N * RenderCache) :=
  '(dropped, c') ← drop_path request_path c;
  Some (dropped, (mark_path request_path c').2).

(** The two sections of [revalidate_all_paths]. *)
Definition clear_store (c : RenderCache) : N * RenderCache :=
  (map_len (entries c), with_store ∅ (clear (order c)) c).
Definition fail_closed_cache (c : RenderCache) : RenderCache := with_forced (fail_closed (forced c)) c.

(** [revalidate_all_paths] *)
Definition revalidate_all_paths (c : RenderCache) : N * RenderCache :=
  let '(dropped, c') := clear_store c in (dropped, fail_closed_cache c').

(** [forced_claim] *)
Definition forced_claim (request_path : string) (c : RenderCache) : option ForcedRevalidationClaim :=
  claim request_path (forced c).

(** [acknowledge_forced] *)
Definition acknowledge_forced (request_path : string) (cl : ForcedRevalidationClaim) (c : RenderCache)
    : RenderCache :=
  with_forced (acknowledge request_path cl (forced c)) c.

Record RenderCacheSnapshot := mkSnapshot {
  snap_entries : N;
  snap_capacity : N;
  snap_ttl_seconds : N;
  snap_hits : N;
  snap_misses : N;
  lru_keys : list string;
  forced_pending : N;
  snap_bypass_prerendered : bool;
}.

(** [snapshot] *)
Definition snapshot (c : RenderCache) : option RenderCacheSnapshot :=
  keys ← keys_front_to_back (order c);
  Some (mkSnapshot (map_len (entries c)) (capacity c) (ttl c / nanos_per_second) (hits c) (misses c)
    keys (map_len (paths (forced c))) (bypass_prerendered (forced c))).

(** [str::parse::<usize>] on a 64-bit target *)
Definition parse_usize (s : string) : option N := parse_uint u64_max s.

(** [render_cache_capacity] *)
Definition render_cache_capacity (v : option string) (default_ : N) : N :=
  default default_ (N.min MAX_ENV_RENDER_CACHE_CAPACITY <$> (v ≫= parse_usize)).

(** *** The abstract cache: entries in recency order, least recently used first *)

Definition lru_put (cap : N) (key : string) (e : CacheEntry) (al : list (string * CacheEntry))
    : list (string * CacheEntry) :=
  (if decide (key ∈ al.*1) then filter (fun kv => kv.1 ≠ key) al
   else drop (length al + 1 - N.to_nat cap) al) ++ [(key, e)].

Definition lru_touch (key : string) (al : list (string * CacheEntry)) : list (string * CacheEntry) :=
  match (list_to_map al : gmap string CacheEntry) !! key with
  | Some e => filter (fun kv => kv.1 ≠ key) al ++ [(key, e)]
  | None => al
  end.

(** [c] stores exactly the entries [al], in that order of use. *)
Definition stores (c : RenderCache) (al : list (string * CacheEntry)) : Prop :=
  linked (order c) al.*1 /\ entries c = list_to_map al.

(** *** Interleaved critical sections *)

(** One critical section of some request.  [SRead] and [SReadStale] hand the
    document they find to their request; [SCompress i] is [compressed] called
    on the [i]-th document handed out. *)
Inductive section :=
  | SRead (now : N) (key : string)
  | SReadStale (key : string)
  | SHit | SMiss
  | SPromote (key : string)
  | SExpire (now : N) (key : string)
  | SPut (now : N) (key val : string)
  | SRetain (discard : string -> bool)
  | SMark (path : string)
  | SAck (path : string) (cl : ForcedRevalidationClaim)
  | SClear | SFailClosed
  | SCompress (i : nat) (accepts : string -> bool).

Definition sys : Type := RenderCache * list CachedDocument.

Section interleaving.
(** The content encoder the requests share. *)
Context (encode : string -> option CompressedDocument).

Definition run (s : section) (st : sys) : option sys :=
  let '(c, ds) := st in
  match s with
  | SRead now key => Some (c, option_list (read_fresh now key c) ++ ds)
  | SReadStale key =>
      Some (c, option_list ((fun e => mkDoc (value e) (compressed e)) <$> entries c !! key) ++ ds)
  | SHit => Some (count_hit c, ds)
  | SMiss => Some (count_miss c, ds)
  | SPromote key => c' ← promote_key key c; Some (c', ds)
  | SExpire now key => c' ← remove_if_expired now key c; Some (c', ds)
  | SPut now key val => '(d, c') ← put now key val c; Some (c', d :: ds)
  | SRetain discard => '(_, c') ← retain_matching discard c; Some (c', ds)
  | SMark path => Some ((mark_path path c).2, ds)
  | SAck path cl => Some (acknowledge_forced path cl c, ds)
  | SClear => Some ((clear_store c).2, ds)
  | SFailClosed => Some (fail_closed_cache c, ds)
  | SCompress i accepts =>
      match ds !! i with
      | Some d => Some ((compressed_copy accepts encode d c).2, ds)
      | None => Some (c, ds)
      end
  end.

Fixpoint run_all (ss : list section) (st : sys) : option sys :=
  match ss with
  | [] => Some st
  | s :: ss' => st' ← run s st; run_all ss' st'
  end.

(** The claims are within their bound, and every generation was handed out. *)
Definition forced_ok (f : ForcedRevalidations) : Prop :=
  (map_len (paths f) <= MAX_FORCED_REVALIDATIONS)%N /\
  (forall p g, paths f !! p = Some g -> (g <= next_generation f)%N) /\
  (next_generation f <= u64_max)%N /\
  (warned_high_water f = false -> (map_len (paths f) < FORCED_REVALIDATION_HIGH_WATER)%N).

(** Every slot belongs to one text: the entries and documents that hold it carry
    that text, and a copy stored in it encodes that text. *)
Definition slots_ok (owner : nat -> string) (st : sys) : Prop :=
  let '(c, ds) := st in
  (forall k e, entries c !! k = Some e -> owner (compressed e) = value e /\ compressed e < next_slot c) /\
  (forall d, d ∈ ds -> owner (doc_compressed d) = html d /\ doc_compressed d < next_slot c) /\
  (forall s cd, slots c !! s = Some cd -> encode (owner s) = Some cd /\ s < next_slot c).

Definition store_ok (c : RenderCache) : Prop :=
  exists al, stores c al /\ (N.of_nat (length al) <= capacity c)%N.

Definition sys_ok (st : sys) : Prop :=
  store_ok st.1 /\ forced_ok (forced st.1) /\ exists owner, slots_ok owner st.
End interleaving.

(** ** Lemmas *)

(** *** Association lists *)

Lemma fst_filter {A} (P : string -> Prop) `{forall k, Decision (P k)} (al : list (string * A)) :
  (filter (fun kv => P kv.1) al).*1 = filter P al.*1.
Proof.
  induction al as [|[k e] al IH]; [done|]. rewrite fmap_cons. destruct (decide (P k)).
  - rewrite !filter_cons_True by done. rewrite fmap_cons. by rewrite IH.
  - by rewrite !filter_cons_False by done.
Qed.

Lemma list_to_map_filter {A} (P : string -> Prop) `{forall k, Decision (P k)} (al : list (string * A)) :
  NoDup al.*1 ->
  filter (fun kv => P kv.1) (list_to_map al : gmap string A) =
  list_to_map (filter (fun kv => P kv.1) al).
Proof.
  induction al as [|[k e] al IH]; [intros _; apply map_filter_empty|].
  rewrite fmap_cons, NoDup_cons, list_to_map_cons. intros [Hk Hn].
  destruct (decide (P k)).
  - rewrite map_filter_insert_True, filter_cons_True by done. by rewrite IH.
  - rewrite map_filter_insert_False, filter_cons_False by done.
    rewrite delete_id by by apply not_elem_of_list_to_map_1. by apply IH.
Qed.

Lemma map_len_list_to_map {A} (al : list (string * A)) :
  NoDup al.*1 -> map_len (list_to_map al : gmap string A) = N.of_nat (length al).
Proof. intros H. unfold map_len. by rewrite map_size_list_to_map. Qed.

Lemma filter_ne_delete {A} (k : string) (m : gmap string A) :
  filter (fun kv => kv.1 ≠ k) m = delete k m.
Proof.
  apply map_eq. intros i. destruct (decide (i = k)) as [->|Hi].
  - rewrite lookup_delete_eq. apply map_lookup_filter_None_2. right. naive_solver.
  - rewrite lookup_delete_ne by done. destruct (m !! i) eqn:E.
    + by apply map_lookup_filter_Some_2.
    + apply map_lookup_filter_None_2. by left.
Qed.

Lemma list_to_map_erase {A} (k : string) (al : list (string * A)) :
  NoDup al.*1 ->
  list_to_map (filter (fun kv => kv.1 ≠ k) al) = delete k (list_to_map al : gmap string A).
Proof. intros H. rewrite <- filter_ne_delete. symmetry. exact (list_to_map_filter (A := A) (fun i => i ≠ k) al H). Qed.

Lemma fst_erase {A} (k : string) (al : list (string * A)) :
  (filter (fun kv => kv.1 ≠ k) al).*1 = filter (.≠ k) al.*1.
Proof. exact (fst_filter (A := A) (fun i => i ≠ k) al). Qed.

Lemma list_to_map_discard {A} (discard : string -> bool) (al : list (string * A)) :
  NoDup al.*1 ->
  filter (fun kv => discard kv.1 = false) (list_to_map al : gmap string A) =
  list_to_map (filter (fun kv => discard kv.1 = false) al).
Proof. intros H. exact (list_to_map_filter (A := A) (fun k => discard k = false) al H). Qed.

Lemma fst_discard {A} (discard : string -> bool) (al : list (string * A)) :
  (filter (fun kv => discard kv.1 = false) al).*1 = filter (fun k => discard k = false) al.*1.
Proof. exact (fst_filter (A := A) (fun k => discard k = false) al). Qed.

Lemma key_lookup {A} (k : string) (al : list (string * A)) :
  is_Some ((list_to_map al : gmap string A) !! k) <-> k ∈ al.*1.
Proof.
  rewrite <- elem_of_dom, dom_list_to_map_L, elem_of_list_to_set. done.
Qed.

Lemma stores_NoDup c al : stores c al -> NoDup al.*1.
Proof. intros [H _]. by eapply linked_NoDup. Qed.

(** *** Each section on the abstract cache *)

Lemma cache_evict_loop_spec fuel cap al o :
  linked o al.*1 -> (0 < cap)%N -> length al <= fuel ->
  exists o', evict_loop fuel cap (list_to_map al) o =
               Some (list_to_map (drop (length al + 1 - N.to_nat cap) al), o') /\
    linked o' (drop (length al + 1 - N.to_nat cap) al).*1.
Proof.
  revert al o. induction fuel as [|fuel IH]; intros al o Ho Hc Hf; cbn [evict_loop];
    rewrite map_len_list_to_map by (by eapply linked_NoDup);
    destruct (N.leb_spec cap (N.of_nat (length al))) as [Hle|Hgt].
  - destruct al; simpl in *; lia.
  - replace (_ + 1 - _) with 0 by lia. rewrite drop_0. by eexists.
  - destruct al as [|[k e] al]; [simpl in *; lia|].
    destruct (pop_front_spec o _ Ho) as (o' & -> & Ho'). cbn.
    pose proof (linked_NoDup _ _ Ho) as Hn. cbn in Hn. apply NoDup_cons in Hn as [Hk Hn].
    rewrite delete_insert_eq, delete_id by by apply not_elem_of_list_to_map_1.
    destruct (IH al o' Ho' Hc) as (o2 & H2 & L2); [simpl in Hf; lia|].
    exists o2. simpl in Hle.
    replace (S (length al + 1) - N.to_nat cap) with (S (length al + 1 - N.to_nat cap)) by lia. done.
  - replace (_ + 1 - _) with 0 by lia. rewrite drop_0. by eexists.
Qed.

Lemma not_in_drop (k : string) {A} n (al : list (string * A)) : k ∉ al.*1 -> k ∉ (drop n al).*1.
Proof. rewrite fmap_drop. intros H Hd. apply H. rewrite <- (take_drop n al.*1). set_solver. Qed.

Lemma put_spec now key val c al :
  stores c al -> (N.of_nat (length al) <= capacity c)%N ->
  exists c', put now key val c = Some (mkDoc val (next_slot c), c') /\
    stores c' (if (capacity c =? 0)%N then al
               else lru_put (capacity c) key (mkEntry val (next_slot c) now) al) /\
    capacity c' = capacity c /\ forced c' = forced c /\ slots c' = slots c /\
    next_slot c' = S (next_slot c).
Proof.
  intros Hs Hcap. pose proof (stores_NoDup _ _ Hs) as Hn. destruct Hs as [Ho He].
  unfold put. cbn [alloc_slot capacity entries order].
  destruct (N.eqb_spec (capacity c) 0); [by eexists|]. unfold lru_put.
  assert (exists al' o', (if bool_decide (is_Some (entries c !! key))
       then ('(_, o) ← remove key (order c); Some (entries c, o))
       else evict_loop (S (recency_len (order c))) (capacity c) (entries c) (order c)) =
       Some (if decide (key ∈ al.*1) then entries c else list_to_map al', o') /\
       linked o' al'.*1 /\ (key ∉ al'.*1) /\
       al' = (if decide (key ∈ al.*1) then filter (fun kv => kv.1 ≠ key) al
              else drop (length al + 1 - N.to_nat (capacity c)) al))
    as (al' & o' & -> & Ho' & Hk' & Hal).
  { rewrite He. destruct (decide (key ∈ al.*1)) as [Hk|Hk].
    - rewrite bool_decide_true by by apply key_lookup.
      destruct (remove_spec _ _ key Ho) as (o' & -> & Ho'). cbn.
      eexists _, o'. split; [done|]. rewrite fst_erase.
      split_and!; [done|apply not_elem_filter_ne|done].
    - rewrite bool_decide_false by by rewrite key_lookup.
      destruct (cache_evict_loop_spec (S (recency_len (order c))) (capacity c) al (order c)) as (o' & -> & Ho').
      { done. } { lia. } { rewrite (linked_len _ _ Ho), length_fmap. lia. }
      eexists _, o'. split; [done|]. split_and!; [done|by apply not_in_drop|done]. }
  cbn [mbind option_bind].
  rewrite <- Hal. destruct (push_back_linked o' _ key Ho' Hk') as (o2 & -> & Ho2). cbn [mbind option_bind].
  eexists. split; [done|]. split_and!; [|done..]. split; cbn [with_store order entries].
  - by rewrite fmap_app.
  - rewrite list_to_map_snoc by done. destruct (decide (key ∈ al.*1)) as [Hk|Hk]; [|done].
    by rewrite He, Hal, list_to_map_erase, insert_delete_eq.
Qed.

Lemma promote_key_spec key c al :
  stores c al ->
  exists c', promote_key key c = Some c' /\ stores c' (lru_touch key al) /\
    entries c' = entries c /\ capacity c' = capacity c /\ forced c' = forced c /\
    slots c' = slots c /\ next_slot c' = next_slot c.
Proof.
  intros Hs. pose proof (stores_NoDup _ _ Hs) as Hn. destruct Hs as [Ho He].
  unfold promote_key. destruct (promote_spec _ _ key Ho) as (o' & -> & Ho').
  cbn [mbind option_bind]. eexists. split; [done|]. split_and!; [|done..].
  unfold lru_touch. destruct ((list_to_map al : gmap string CacheEntry) !! key) as [e|] eqn:E;
    unfold list_promote in Ho'.
  - rewrite decide_True in Ho' by (apply key_lookup; by rewrite E). split; cbn [with_store order entries].
    + by rewrite fmap_app, fst_erase.
    + rewrite He, list_to_map_snoc.
      * by rewrite list_to_map_erase, insert_delete_id.
      * rewrite fst_erase. apply not_elem_filter_ne.
  - rewrite decide_False in Ho' by (rewrite <- key_lookup, E; by intros [? ?]). by split.
Qed.

Lemma retain_matching_spec discard c al :
  stores c al ->
  exists dropped c', retain_matching discard c = Some (dropped, c') /\
    stores c' (filter (fun kv => discard kv.1 = false) al) /\
    dropped = N.of_nat (length al - length (filter (fun kv => discard kv.1 = false) al)) /\
    entries c' = filter (fun kv => discard kv.1 = false) (entries c) /\
    capacity c' = capacity c /\ forced c' = forced c /\ slots c' = slots c /\ next_slot c' = next_slot c.
Proof.
  intros Hs. pose proof (stores_NoDup _ _ Hs) as Hn. destruct Hs as [Ho He]. unfold retain_matching.
  destruct (retain_spec _ _ (fun key => negb (discard key)) Ho) as (o' & -> & Ho').
  cbn [mbind option_bind]. eexists _, _. split; [done|].
  rewrite He, list_to_map_discard by done.
  assert ((filter (fun kv => discard kv.1 = false) al).*1 =
          filter (fun k => negb (discard k) = true) al.*1) as Hf.
  { rewrite fst_discard. apply list_filter_iff.
    intros k. by rewrite negb_true_iff. }
  split_and!; [| |done..].
  - by split; cbn [with_store order entries]; [rewrite Hf|].
  - rewrite !map_len_list_to_map; [lia| |done]. rewrite Hf. by apply NoDup_filter.
Qed.

Lemma remove_if_expired_spec now key c al :
  stores c al ->
  exists c', remove_if_expired now key c = Some c' /\
    (c' = c \/ stores c' (filter (fun kv => kv.1 ≠ key) al) /\ entries c' = delete key (entries c) /\
      capacity c' = capacity c /\ forced c' = forced c /\ slots c' = slots c /\ next_slot c' = next_slot c).
Proof.
  intros Hs. pose proof (stores_NoDup _ _ Hs) as Hn. destruct Hs as [Ho He]. unfold remove_if_expired.
  destruct (entries c !! key) as [e|]; [|by eexists; split; [|left]].
  destruct (ttl c <? elapsed now e)%N; [|by eexists; split; [|left]].
  destruct (remove_spec _ _ key Ho) as (o' & -> & Ho'). cbn [mbind option_bind].
  eexists. split; [done|]. right. split_and!; [|done..].
  split; cbn [with_store order entries].
  - by rewrite fst_erase.
  - by rewrite He, list_to_map_erase.
Qed.

(** *** Claims *)

Lemma mark_ok path f : forced_ok f -> forced_ok (mark path f).2.
Proof.
  intros (Hlen & Hg & Hmax & Hw). unfold mark.
  assert (forced_ok (fail_closed f)) as Hfc.
  { unfold forced_ok, fail_closed, map_len. cbn. rewrite map_size_empty. split_and!; [by vm_compute| |done|done].
    intros p g. by rewrite lookup_empty. }
  destruct (bypass_prerendered f); [done|].
  destruct (bool_decide (paths f !! path = None) && (MAX_FORCED_REVALIDATIONS <=? map_len (paths f))%N) eqn:E;
    [done|].
  destruct (checked_add64 (next_generation f) 1) as [g|] eqn:Eg; [|done].
  assert (g = next_generation f + 1 /\ g <= u64_max)%N as [Hgen Hle].
  { unfold checked_add64 in Eg. destruct (N.leb_spec (next_generation f + 1) u64_max); simplify_eq; lia. }
  assert (map_len (<[path := g]> (paths f)) <= MAX_FORCED_REVALIDATIONS)%N as Hlen'.
  { unfold map_len in *. destruct (paths f !! path) as [g0|] eqn:Ep.
    - by rewrite map_size_insert_Some by done.
    - rewrite map_size_insert_None by done. rewrite bool_decide_true in E by done. cbn in E. breflect. lia. }
  assert (forall p g', <[path := g]> (paths f) !! p = Some g' -> (g' <= g)%N) as Hg'.
  { intros p g' Hp. apply lookup_insert_Some in Hp as [[_ <-]|[_ Hp]]; [lia|]. apply Hg in Hp. lia. }
  destruct (negb (warned_high_water f) && _) eqn:Ew; cbn [snd]; split_and!; cbn [paths next_generation warned_high_water];
    try done.
  intros Hwf. rewrite Hwf in Ew. cbn in Ew. by breflect.
Qed.

Lemma acknowledge_ok path cl f : forced_ok f -> forced_ok (acknowledge path cl f).
Proof.
  intros (Hlen & Hg & Hmax & Hw). destruct cl as [g|]; [|done]. unfold acknowledge.
  destruct (bool_decide _); [|done].
  assert (map_len (delete path (paths f)) <= map_len (paths f))%N as Hd.
  { unfold map_len. rewrite map_size_delete. destruct (paths f !! path); unfold id; lia. }
  split_and!; cbn; [lia| |done|].
  - intros p g' Hp. apply lookup_delete_Some in Hp as [_ Hp]. by eapply Hg.
  - intros Hwf. specialize (Hw Hwf). lia.
Qed.

Lemma mark_generation path f :
  forced_ok f -> (next_generation f <= next_generation (mark path f).2)%N.
Proof.
  intros (_ & _ & Hmax & _). unfold mark. destruct (bypass_prerendered f); [done|].
  destruct (bool_decide _ && _); [cbn; lia|].
  unfold checked_add64. destruct (N.leb_spec (next_generation f + 1) u64_max); [|cbn; lia].
  destruct (negb (warned_high_water f) && _); cbn; lia.
Qed.

(** A path just marked is claimed, and by a generation newer than all before it. *)
Lemma mark_claims path f :
  forced_ok f ->
  claim path (mark path f).2 = Some All \/
  exists g, claim path (mark path f).2 = Some (Exact g) /\ (next_generation f < g)%N.
Proof.
  intros (_ & _ & Hmax & _). unfold mark, claim.
  destruct (bypass_prerendered f) eqn:Eb; [cbn; rewrite Eb; by left|].
  destruct (bool_decide _ && _); [by left|].
  unfold checked_add64. destruct (N.leb_spec (next_generation f + 1) u64_max); [|by left].
  right. exists (next_generation f + 1)%N. split; [|lia].
  destruct (negb (warned_high_water f) && _); cbn; by rewrite lookup_insert_eq.
Qed.

Lemma claim_generation path f g :
  forced_ok f -> claim path f = Some (Exact g) -> (g <= next_generation f)%N.
Proof.
  intros (_ & Hg & _) Hc. unfold claim in Hc. destruct (bypass_prerendered f); [done|].
  destruct (paths f !! path) eqn:E; simplify_eq/=. by eapply Hg.
Qed.

Lemma acknowledge_stale path g g' f :
  claim path f = Some (Exact g') -> g <> g' -> claim path (acknowledge path (Exact g) f) = claim path f.
Proof.
  intros Hc Hne. unfold acknowledge. rewrite bool_decide_false; [done|].
  unfold claim in Hc. destruct (bypass_prerendered f); [done|].
  intros Hg. rewrite Hg in Hc. simplify_eq/=.
Qed.

Lemma acknowledge_generation path cl f :
  next_generation (acknowledge path cl f) = next_generation f.
Proof. destruct cl; [|done]. simpl. by destruct (bool_decide _). Qed.

Lemma acknowledge_bypass path cl f :
  claim path f = Some All -> claim path (acknowledge path cl f) = Some All.
Proof.
  unfold claim, acknowledge. destruct (bypass_prerendered f) eqn:E; [|by destruct (paths f !! path)].
  intros _. destruct cl as [g|]; [|by rewrite E]. destruct (bool_decide _); cbn; by rewrite ?E.
Qed.

(** *** Interleavings *)

Section interleaved.
Context (encode : string -> option CompressedDocument).

Lemma store_ok_with_forced f c : store_ok c -> store_ok (with_forced f c).
Proof. done. Qed.

Lemma filter_length_le {A} (P : A -> Prop) `{forall x, Decision (P x)} (l : list A) :
  length (filter P l) <= length l.
Proof. apply length_filter. Qed.

Lemma lru_put_length cap key e al :
  (0 < cap)%N -> (N.of_nat (length al) <= cap)%N ->
  (N.of_nat (length (lru_put cap key e al)) <= cap)%N.
Proof.
  intros Hc Hl. unfold lru_put. rewrite length_app. simpl. destruct (decide (key ∈ al.*1)) as [Hk|Hk].
  - assert (length (filter (fun kv => kv.1 ≠ key) al) < length al); [|lia].
    apply list_elem_of_fmap in Hk as ([k e'] & -> & Hk). apply list_elem_of_split in Hk as (l1 & l2 & ->).
    rewrite filter_app, filter_cons_False by naive_solver.
    rewrite !length_app. pose proof (filter_length_le (fun kv => kv.1 ≠ k) l1).
    pose proof (filter_length_le (fun kv => kv.1 ≠ k) l2). simpl in *. lia.
  - rewrite length_drop. lia.
Qed.

Lemma lru_touch_length key al : length (lru_touch key al) <= length al \/ ~ NoDup al.*1.
Proof.
  unfold lru_touch. destruct (_ !! key) as [e|] eqn:E; [|by left].
  destruct (decide (NoDup al.*1)); [left|by right].
  apply elem_of_list_to_map_2 in E. apply list_elem_of_split in E as (l1 & l2 & ->).
  rewrite filter_app, filter_cons_False by naive_solver. rewrite !length_app. simpl.
  pose proof (filter_length_le (fun kv => kv.1 ≠ key) l1).
  pose proof (filter_length_le (fun kv => kv.1 ≠ key) l2). simpl in *. lia.
Qed.

(** Sections that only drop entries keep the slots' owners. *)
Lemma slots_ok_subset owner c ds c' :
  slots_ok encode owner (c, ds) ->
  (forall k e, entries c' !! k = Some e -> entries c !! k = Some e) ->
  slots c' = slots c -> next_slot c' = next_slot c ->
  slots_ok encode owner (c', ds).
Proof.
  intros (He & Hd & Hs) Hsub Hsl Hn. unfold slots_ok. rewrite Hsl, Hn. split_and!; [|done..].
  intros k e Hk. apply He with k. by apply Hsub.
Qed.

Lemma slots_ok_docs owner c ds d k e :
  slots_ok encode owner (c, ds) -> entries c !! k = Some e ->
  d = mkDoc (value e) (compressed e) -> slots_ok encode owner (c, d :: ds).
Proof.
  intros (He & Hd & Hs) Hk ->. split_and!; [done| |done].
  intros d [-> | Hin]%elem_of_cons; [|by apply Hd]. cbn. by apply (He k).
Qed.

Lemma slots_ok_put owner c ds key val now c' d :
  slots_ok encode owner (c, ds) ->
  d = mkDoc val (next_slot c) -> slots c' = slots c -> next_slot c' = S (next_slot c) ->
  (forall k e, entries c' !! k = Some e ->
     entries c !! k = Some e \/ (k = key /\ e = mkEntry val (next_slot c) now)) ->
  slots_ok encode (fun s => if decide (s = next_slot c) then val else owner s) (c', d :: ds).
Proof.
  intros (He & Hd & Hs) -> Hsl Hn Hent. unfold slots_ok. rewrite Hsl, Hn. split_and!.
  - intros k e [Hk | [-> ->]]%Hent; [|cbn; rewrite decide_True by done; split; [done|lia]].
    apply He in Hk as [Ho Hlt]. rewrite decide_False by lia. split; [done|lia].
  - intros d [-> | Hin]%elem_of_cons; [cbn; rewrite decide_True by done; split; [done|lia]|].
    apply Hd in Hin as [Ho Hlt]. rewrite decide_False by lia. split; [done|lia].
  - intros s cd Hc. apply Hs in Hc as [Ho Hlt]. rewrite decide_False by lia. split; [done|lia].
Qed.

Lemma put_lookup cap key e0 al k e :
  NoDup al.*1 ->
  (list_to_map (if (cap =? 0)%N then al else lru_put cap key e0 al) : gmap string CacheEntry) !! k = Some e ->
  (list_to_map al : gmap string CacheEntry) !! k = Some e \/ (k = key /\ e = e0).
Proof.
  intros Hn. destruct (cap =? 0)%N; [by left|]. intros Hk%elem_of_list_to_map_2.
  unfold lru_put in Hk. apply elem_of_app in Hk as [Hk|Hk%list_elem_of_singleton]; [left|right; naive_solver].
  apply elem_of_list_to_map_1; [done|]. destruct (decide (key ∈ al.*1)).
  - by apply list_elem_of_filter in Hk as [_ ?].
  - rewrite <- (take_drop (length al + 1 - N.to_nat cap) al). set_solver.
Qed.

(** The parts of the state a section may change. *)
Definition section_frame (c c' : RenderCache) : Prop :=
  capacity c' = capacity c /\ (next_generation (forced c) <= next_generation (forced c'))%N.

Lemma run_put now key val c ds :
  sys_ok encode (c, ds) ->
  exists st', run encode (SPut now key val) (c, ds) = Some st' /\ sys_ok encode st' /\ section_frame c st'.1.
Proof.
  intros ((al & Hs & Hcap) & Hf & owner & Hown). cbn [fst] in *.
  pose proof (stores_NoDup _ _ Hs) as Hn.
  destruct (put_spec now key val c al Hs Hcap) as (c' & Hput & Hs' & Hc & Hfo & Hsl & Hnx).
  cbn [run]. rewrite Hput. cbn. eexists. split; [done|]. split.
  - split_and!; cbn [fst]; [|by rewrite Hfo|].
    + eexists. split; [exact Hs'|]. rewrite Hc. destruct (N.eqb_spec (capacity c) 0); [done|].
      apply lru_put_length; [lia|done].
    + eexists. eapply (slots_ok_put owner c ds key val now); [done..|].
      intros k e Hk. destruct Hs as [_ He], Hs' as [_ He']. rewrite He' in Hk. rewrite He.
      by eapply put_lookup.
  - split; cbn [fst]; [done|]. by rewrite Hfo.
Qed.

Lemma run_shrink owner c ds c' al :
  forced_ok (forced c) -> slots_ok encode owner (c, ds) ->
  stores c' al -> (N.of_nat (length al) <= capacity c)%N ->
  (forall k e, entries c' !! k = Some e -> entries c !! k = Some e) ->
  capacity c' = capacity c -> forced c' = forced c -> slots c' = slots c -> next_slot c' = next_slot c ->
  sys_ok encode (c', ds) /\ section_frame c c'.
Proof.
  intros Hf Hown Hs Hlen Hsub Hc Hfo Hsl Hnx. split; [|split; [done|by rewrite Hfo]].
  split_and!; cbn [fst]; [|by rewrite Hfo|].
  - exists al. by rewrite Hc.
  - exists owner. by eapply slots_ok_subset.
Qed.

Lemma run_compress i accepts c ds :
  sys_ok encode (c, ds) ->
  exists st', run encode (SCompress i accepts) (c, ds) = Some st' /\ sys_ok encode st' /\ section_frame c st'.1.
Proof.
  intros Hok. cbn [run]. destruct (ds !! i) as [d|] eqn:Hi; [|by exists (c, ds)].
  eexists. split; [done|]. unfold compressed_copy.
  destruct (slots c !! doc_compressed d) eqn:Hsl; [by split; [|split]|].
  destruct (encode (html d)) as [built|] eqn:Henc; [|by split; [|split]].
  destruct Hok as (Hst & Hf & owner & He & Hd & Hs). split; [|by split].
  split_and!; [done..|]. exists owner. split_and!; [done..|].
  intros s cd Hsc. cbn in Hsc. apply lookup_insert_Some in Hsc as [[<- <-]|[_ Hsc]]; [|by apply Hs].
  apply list_elem_of_lookup_2, Hd in Hi as [-> Hlt]. done.
Qed.

Lemma section_ok s st :
  sys_ok encode st -> exists st', run encode s st = Some st' /\ sys_ok encode st' /\ section_frame st.1 st'.1.
Proof.
  destruct st as [c ds]. intros Hok. cbn [fst].
  pose proof Hok as ((al & Hs & Hcap) & Hf & owner & Hown). cbn [fst] in Hs, Hcap, Hf.
  destruct s; cbn [run];
    try (eexists; split; [done|]; split; [done|by split]); [idtac ..|by apply run_compress].
  - eexists. split; [done|]. split; [|by split]. unfold read_fresh.
    destruct (entries c !! key) as [e|] eqn:E; [|done]. destruct (_ <=? _)%N; [|done].
    split_and!; [by exists al|done|exists owner; by eapply slots_ok_docs].
  - eexists. split; [done|]. split; [|by split].
    destruct (entries c !! key) as [e|] eqn:E; [|done].
    split_and!; [by exists al|done|exists owner; by eapply slots_ok_docs].
  - destruct (promote_key_spec key c al Hs) as (c' & -> & Hs' & He & Hc & Hfo & Hsl & Hnx). cbn.
    eexists. split; [done|]. cbn [fst]. eapply run_shrink; [done|done|done| |by intros k e; rewrite He|done..].
    destruct (lru_touch_length key al) as [Hl|Hl]; [lia|]. by apply stores_NoDup in Hs.
  - destruct (remove_if_expired_spec now key c al Hs) as (c' & -> & [->|(Hs' & He & Hc & Hfo & Hsl & Hnx)]); cbn;
      (eexists; split; [done|]); [done|].
    cbn [fst]. eapply run_shrink; [done|done|done| | |done..].
    + pose proof (filter_length_le (fun kv : string * CacheEntry => kv.1 ≠ key) al). lia.
    + intros k e. rewrite He. by intros [_ ?]%lookup_delete_Some.
  - by apply run_put.
  - destruct (retain_matching_spec discard c al Hs) as (n & c' & -> & Hs' & _ & He & Hc & Hfo & Hsl & Hnx). cbn.
    eexists. split; [done|]. cbn [fst]. eapply run_shrink; [done|done|done| | |done..].
    + pose proof (filter_length_le (fun kv : string * CacheEntry => discard kv.1 = false) al). lia.
    + intros k e. rewrite He. by intros [? _]%map_lookup_filter_Some.
  - eexists. split; [done|]. unfold mark_path.
    pose proof (mark_ok path (forced c) Hf) as Hm. pose proof (mark_generation path (forced c) Hf) as Hg.
    destruct (mark path (forced c)) as [o f]. cbn in *. split; [|by split].
    split_and!; [by exists al|done|by exists owner].
  - eexists. split; [done|]. split; [|split; [done|cbn; by rewrite acknowledge_generation]].
    split_and!; [by exists al|by apply acknowledge_ok|by exists owner].
  - eexists. split; [done|]. cbn. eapply (run_shrink owner c ds _ []); [done|done| |cbn; lia| |done..].
    + split; [apply linked_empty|done].
    + intros k e. cbn. by rewrite lookup_empty.
  - eexists. split; [done|]. split; [|by split]. split_and!; [by exists al| |by exists owner].
    destruct Hf as (_ & _ & Hmax & _). split_and!; cbn; [by vm_compute| |done|done].
    intros p g. by rewrite lookup_empty.
Qed.

Lemma sections_ok ss st :
  sys_ok encode st ->
  exists st', run_all encode ss st = Some st' /\ sys_ok encode st' /\ section_frame st.1 st'.1.
Proof.
  revert st. induction ss as [|s ss IH]; intros st Hok; [by exists st|].
  destruct (section_ok s st Hok) as (st1 & H1 & Hok1 & Hc1 & Hg1). cbn [run_all]. rewrite H1.
  cbn [mbind option_bind]. destruct (IH st1 Hok1) as (st2 & H2 & Hok2 & Hc2 & Hg2).
  exists st2. split; [done|]. split; [done|]. split; [congruence|]. by etrans.
Qed.

Lemma new_cache_ok cap ttl_secs : sys_ok encode (new_cache cap ttl_secs, []).
Proof.
  split_and!; cbn [fst].
  - exists []. split; [split; [apply linked_empty|done]|cbn; lia].
  - split_and!; cbn; [by vm_compute| |done|by vm_compute]. intros p g. by rewrite lookup_empty.
  - exists (fun _ => ""). split_and!.
    + intros k e. cbn. by rewrite lookup_empty.
    + intros d Hd. by apply elem_of_nil in Hd.
    + intros s cd. cbn. by rewrite lookup_empty.
Qed.
End interleaved.

(** *** Cache keys *)

Lemma before_query_plain path : has_char "?"%char path = false -> before_query path = path.
Proof. intros H. unfold before_query. by rewrite split_char_none. Qed.

Lemma before_query_params path q : has_char "?"%char path = false -> before_query (path +:+ "?" +:+ q) = path.
Proof.
  intros H. unfold before_query. change (path +:+ "?" +:+ q) with (path +:+ String "?" q).
  by rewrite split_char_app.
Qed.

Lemma key_of_marked ns marker rest :
  ns ∈ "" :: RENDER_NAMESPACES -> marker ∈ KEY_MARKERS ->
  cache_key_request_path (ns +:+ marker +:+ rest) = Some (before_query rest).
Proof.
  intros Hns Hm. unfold RENDER_NAMESPACES, KEY_MARKERS in *.
  rewrite !elem_of_cons in Hns. rewrite !elem_of_cons in Hm.
  destruct Hm as [-> | [-> | Hm%elem_of_nil]]; [| |done];
    destruct Hns as [-> | [-> | [-> | [-> | [-> | Hns%elem_of_nil]]]]]; done.
Qed.

Section key_roundtrip.
Context (params_json : gmap string Value -> string).

Lemma page_key_request_path ns path params :
  ns ∈ "" :: RENDER_NAMESPACES -> has_char "?"%char path = false ->
  cache_key_request_path (page_cache_key params_json ns path params) = Some path.
Proof.
  intros Hns Hp. unfold page_cache_key. destruct (bool_decide (params = ∅));
    rewrite key_of_marked; try done; try set_solver; f_equal;
    [by apply before_query_plain|by apply before_query_params].
Qed.

Lemma client_key_request_path path params :
  has_char "?"%char path = false ->
  cache_key_request_path (client_cache_key params_json path params) = Some path.
Proof.
  intros Hp. unfold client_cache_key.
  assert (forall rest, cache_key_request_path ("client:" +:+ rest) = Some (before_query rest)) as H.
  { intros rest. apply (key_of_marked "" "client:"); set_solver. }
  destruct (bool_decide (params = ∅)); rewrite H; f_equal;
    [by apply before_query_plain|by apply before_query_params].
Qed.
End key_roundtrip.

(** ** Properties *)

(** Any interleaving of the critical sections of any number of requests is
    safe.  From an empty cache no section panics; at every moment the store and
    the recency order hold the same keys, without repetition and within the
    capacity; the pending claims stay within their bound; and a compressed copy
    reached through a document handed out is the encoding of that very
    document, never of another one. *)
Theorem render_cache_interleavings_safe : forall encode cap ttl_secs ss,
  exists c ds, run_all encode ss (new_cache cap ttl_secs, []) = Some (c, ds) /\
    (exists l, keys_front_to_back (order c) = Some l /\ NoDup l /\
       (forall k, k ∈ l <-> is_Some (entries c !! k)) /\ (N.of_nat (length l) <= cap)%N) /\
    (map_len (paths (forced c)) <= MAX_FORCED_REVALIDATIONS)%N /\
    (forall d cd, d ∈ ds -> slots c !! doc_compressed d = Some cd -> encode (html d) = Some cd).
Proof.
  intros encode cap ttl_secs ss.
  destruct (sections_ok encode ss _ (new_cache_ok encode cap ttl_secs))
    as ([c ds] & Hrun & ((al & Hs & Hlen) & (Hf & _) & owner & He & Hd & Hsl) & Hcap & _).
  exists c, ds. split; [done|]. cbn [fst] in *. split_and!; [|done|].
  - destruct Hs as [Ho Hent]. exists al.*1. rewrite length_fmap. split_and!.
    + by apply keys_spec.
    + by eapply linked_NoDup.
    + intros k. by rewrite Hent, key_lookup.
    + cbn in Hcap. by rewrite <- Hcap.
  - intros d cd Hin Hcd. apply Hd in Hin as [<- _]. by apply Hsl in Hcd as [? _].
Qed.

(** C2: each operation of the cache implements the least-recently-used cache
    of its entries in recency order, errors of none: [put] answers the value
    stored and evicts only from the least recent end, and only when the key is
    new and the cache full (a cache of capacity zero stores nothing); a hit
    answers the stored text and moves its key to the recent end; a read of an
    entry past its TTL answers nothing and drops that entry alone, while the
    stale read still answers it. *)
Theorem render_cache_refines_lru : forall c al now now' key val,
  stores c al -> (N.of_nat (length al) <= capacity c)%N -> (now <= now')%N ->
  (exists d c', put now key val c = Some (d, c') /\ html d = val /\
     stores c' (if (capacity c =? 0)%N then al
                else lru_put (capacity c) key (mkEntry val (doc_compressed d) now) al)) /\
  (exists r c', get_document now now' key c = Some (r, c') /\
     match (list_to_map al : gmap string CacheEntry) !! key with
     | None => r = None /\ stores c' al
     | Some e =>
         if (elapsed now e <=? ttl c)%N
         then r = Some (mkDoc (value e) (compressed e)) /\ stores c' (lru_touch key al)
         else r = None /\ stores c' (filter (fun kv => kv.1 ≠ key) al)
     end) /\
  (exists r c', get_stale_with_age now key c = Some (r, c') /\
     r = (fun e => (mkDoc (value e) (compressed e), elapsed now e)) <$>
         ((list_to_map al : gmap string CacheEntry) !! key) /\
     stores c' (lru_touch key al)).
Proof.
  intros c al now now' key val Hs Hcap Hnow. split_and!.
  - destruct (put_spec now key val c al Hs Hcap) as (c' & Hput & Hs' & _). by eexists _, c'.
  - destruct (promote_key_spec key (count_hit c) al Hs) as (c1 & Hp & Hs1 & _).
    unfold get_document, read_fresh. destruct (Hs) as [Ho <-].
    destruct (entries c !! key) as [e|] eqn:Ee; [|by eexists _, _].
    destruct (N.leb_spec (elapsed now e) (ttl c)) as [Hle|Hgt].
    + rewrite Hp. by eexists _, _.
    + rewrite bool_decide_true by done. unfold remove_if_expired. rewrite Ee.
      assert ((ttl c <? elapsed now' e)%N = true) as -> by (apply N.ltb_lt; unfold elapsed in *; lia).
      destruct (remove_spec _ _ key Ho) as (o' & -> & Ho'). cbn. eexists _, _. split; [done|].
      split; [done|]. split; cbn [order entries count_miss with_store]; [by rewrite fst_erase|].
      rewrite list_to_map_erase by by eapply stores_NoDup. by destruct Hs as [_ <-].
  - destruct (promote_key_spec key (count_hit c) al Hs) as (c1 & Hp & Hs1 & _).
    unfold get_stale_with_age. destruct (Hs) as [Ho He]. rewrite <- He.
    destruct (entries c !! key) as [e|] eqn:Ee; [rewrite Hp; by eexists _, _|].
    eexists _, _. split; [done|]. split; [done|]. unfold lru_touch. by rewrite <- He, Ee.
Qed.

Lemma render_cache_refines_lru_witness :
  exists d c', put 7 "ssr:/" "<p>" (new_cache 2 300) = Some (d, c') /\ html d = "<p>" /\
    stores c' (lru_put 2 "ssr:/" (mkEntry "<p>" (doc_compressed d) 7) []).
Proof.
  apply (render_cache_refines_lru (new_cache 2 300) [] 7 7 "ssr:/" "<p>");
    [split; [apply linked_empty|reflexivity]|vm_compute; discriminate|vm_compute; discriminate].
Defined.

(** A slow render cannot cancel a newer request to revalidate.  A claim
    read at some moment, acknowledged after the path has been marked again
    (whatever other sections ran in between), leaves the newer claim pending;
    and a marked path is always claimed. *)
Theorem stale_acknowledgement_keeps_claim : forall encode cap ttl_secs ss1 ss2 path c1 ds1 c2 ds2 cl,
  run_all encode ss1 (new_cache cap ttl_secs, []) = Some (c1, ds1) ->
  forced_claim path c1 = Some cl ->
  run_all encode ss2 (c1, ds1) = Some (c2, ds2) ->
  let marked := (mark_path path c2).2 in
  is_Some (forced_claim path marked) /\
  forced_claim path (acknowledge_forced path cl marked) = forced_claim path marked.
Proof.
  intros encode cap ttl_secs ss1 ss2 path c1 ds1 c2 ds2 cl H1 Hcl H2 marked.
  destruct (sections_ok encode ss1 _ (new_cache_ok encode cap ttl_secs)) as (st1 & H1' & Hok1 & _).
  rewrite H1 in H1'. injection H1' as <-.
  destruct (sections_ok encode ss2 _ Hok1) as (st2 & H2' & Hok2 & _ & Hg). rewrite H2 in H2'. injection H2' as <-.
  destruct Hok1 as (_ & Hf1 & _), Hok2 as (_ & Hf2 & _). cbn [fst] in *.
  assert (forced marked = (mark path (forced c2)).2) as Hm.
  { unfold marked, mark_path. by destruct (mark path (forced c2)). }
  unfold forced_claim in *. cbn [acknowledge_forced with_forced forced]. rewrite Hm.
  destruct (mark_claims path (forced c2) Hf2) as [Ha | (g & Hc & Hlt)].
  - rewrite Ha. split; [done|]. by apply acknowledge_bypass.
  - rewrite Hc. split; [done|]. destruct cl as [g0|]; [|done].
    apply claim_generation in Hcl; [|done]. rewrite <- Hc. apply (acknowledge_stale path g0 g); [done|lia].
Qed.

Lemma stale_acknowledgement_witness :
  let marked := (mark_path "/a" (mark_path "/a" (new_cache 4 300)).2).2 in
  forced_claim "/a" (acknowledge_forced "/a" (Exact 1) marked) = forced_claim "/a" marked.
Proof.
  intros marked.
  apply (stale_acknowledgement_keeps_claim (fun _ => None) 4 300 [SMark "/a"] [] "/a"
    (mark_path "/a" (new_cache 4 300)).2 [] (mark_path "/a" (new_cache 4 300)).2 [] (Exact 1));
    [reflexivity|vm_compute; reflexivity|reflexivity].
Defined.

(** [revalidatePath()] reaches every render of its URL and nothing else.
    For a path with no [?], whatever the render namespace and the bound
    parameters, the page and client entries stored under the keys built for it
    are gone afterwards and the path is claimed; an entry whose key names
    another path is kept as it was. *)
Theorem revalidate_path_drops_every_render : forall params_json c al path,
  stores c al -> forced_ok (forced c) -> has_char "?"%char path = false ->
  exists n c', revalidate_path path c = Some (n, c') /\ is_Some (forced_claim path c') /\
    (forall ns params, ns ∈ "" :: RENDER_NAMESPACES ->
       entries c' !! page_cache_key params_json ns path params = None /\
       entries c' !! client_cache_key params_json path params = None) /\
    (forall key, cache_key_request_path key ≠ Some path -> entries c' !! key = entries c !! key).
Proof.
  intros params_json c al path Hs Hf Hp.
  destruct (retain_matching_spec (fun key => cache_key_matches_path key path) c al Hs)
    as (n & c1 & Hr & _ & _ & He & _ & Hfo & _).
  unfold revalidate_path, drop_path. rewrite Hr. cbn [mbind option_bind].
  assert (entries (mark_path path c1).2 = entries c1) as Hem.
  { unfold mark_path. by destruct (mark path (forced c1)). }
  assert (forall key, cache_key_request_path key = Some path -> entries c1 !! key = None) as Hdrop.
  { intros key Hk. rewrite He. apply map_lookup_filter_None_2. right. intros e _. cbn.
    unfold cache_key_matches_path. by rewrite Hk, String.eqb_refl. }
  eexists _, _. split; [done|]. rewrite Hem. split_and!.
  - unfold forced_claim, mark_path.
    destruct (mark path (forced c1)) as [o f] eqn:E. cbn.
    destruct (mark_claims path (forced c1)) as [Ha|(g & Hc & _)]; [by rewrite Hfo| |];
      rewrite E in *; cbn in *; eauto.
  - intros ns params Hns. split; apply Hdrop; [by apply page_key_request_path|by apply client_key_request_path].
  - intros key Hk. rewrite He. destruct (entries c !! key) as [e|] eqn:Ee.
    + apply map_lookup_filter_Some_2; [done|]. cbn. unfold cache_key_matches_path.
      destruct (cache_key_request_path key) as [p|]; [|done].
      destruct (String.eqb_spec p path); [congruence|done].
    + apply map_lookup_filter_None_2. by left.
Qed.

Lemma revalidate_path_witness :
  exists n c', revalidate_path "/a" (new_cache 4 300) = Some (n, c') /\ is_Some (forced_claim "/a" c').
Proof.
  destruct (revalidate_path_drops_every_render (fun _ => "{}") (new_cache 4 300) [] "/a")
    as (n & c' & H & Hc & _);
    [split; [apply linked_empty|reflexivity]| |reflexivity|by exists n, c'].
  split; [vm_compute; discriminate|]. split; [intros p g; cbn; by rewrite lookup_empty|].
  split; [vm_compute; discriminate|intros _; vm_compute; reflexivity].
Defined.
