(* ===== verification/TaskGraph.v ===== *)
(** The artifact task graph of the bundler
    (crates/ruvyxa_bundler/src/task_graph.rs): which build artifacts are known,
    what each depends on, and what invalidation, eviction and persistence do to
    them.

    [ArtifactTaskGraph] guards [ArtifactGraphInner] with one mutex; each
    operation that takes it once is one definition on the state, and [publish],
    which takes it three times, is the composition of three.  The relation
    between records and their dependents is kept as the code keeps it, in both
    directions.  Sums of [u64] sizes are unbounded [N]. *)
From S2P Require Import Prelude Order RustStr Worklist.

(** ** Definitions *)

Definition RETENTION_EPOCHS : N := 3.

Inductive ArtifactKind := Source | Resolve | Transform | Analyze | ChunkPlan | Emit | SourceMap | Manifest.

(** [ArtifactKind::as_str] *)
Definition kind_as_str (k : ArtifactKind) : string :=
  match k with
  | Source => "source" | Resolve => "resolve" | Transform => "transform" | Analyze => "analyze"
  | ChunkPlan => "chunkPlan" | Emit => "emit" | SourceMap => "sourceMap" | Manifest => "manifest"
  end.

(** The derived [Ord]: declaration order. *)
Definition kind_index (k : ArtifactKind) : nat :=
  match k with
  | Source => 0 | Resolve => 1 | Transform => 2 | Analyze => 3
  | ChunkPlan => 4 | Emit => 5 | SourceMap => 6 | Manifest => 7
  end.
Definition kind_of_index (n : nat) : ArtifactKind :=
  match n with
  | 0 => Source | 1 => Resolve | 2 => Transform | 3 => Analyze
  | 4 => ChunkPlan | 5 => Emit | 6 => SourceMap | _ => Manifest
  end.

Record ArtifactKey := mkKey { kind : ArtifactKind; key_namespace : string; identity : string }.

Record ArtifactDependency := mkDep { dep_key : ArtifactKey; dep_content_hash : option string }.

Inductive ArtifactState := Building | Ready | Failed | Cancelled.

#[export] Instance kind_eq_dec : EqDecision ArtifactKind.
Proof. solve_decision. Defined.
#[export] Instance key_eq_dec : EqDecision ArtifactKey.
Proof. solve_decision. Defined.
#[export] Instance dep_eq_dec : EqDecision ArtifactDependency.
Proof. solve_decision. Defined.
#[export] Instance state_eq_dec : EqDecision ArtifactState.
Proof. solve_decision. Defined.
#[export] Instance kind_countable : Countable ArtifactKind.
Proof. refine (inj_countable' kind_index kind_of_index _). by intros []. Defined.
#[export] Instance key_countable : Countable ArtifactKey.
Proof.
  refine (inj_countable' (fun k => (kind k, key_namespace k, identity k)) (fun '(a, b, c) => mkKey a b c) _).
  by intros [].
Defined.
#[export] Instance dep_countable : Countable ArtifactDependency.
Proof.
  refine (inj_countable' (fun d => (dep_key d, dep_content_hash d)) (fun '(a, b) => mkDep a b) _).
  by intros [].
Defined.

(** The derived [Ord] of [ArtifactKey]. *)
Definition key_cmp : ArtifactKey -> ArtifactKey -> comparison :=
  lex_cmp (by_key (fun k => kind_index (kind k)) Nat.compare)
    (lex_cmp (by_key key_namespace String.compare) (by_key identity String.compare)).

(** *** Keys from inputs *)

(** [u64::to_le_bytes] *)
Fixpoint le_bytes (n : nat) (v : N) : string :=
  match n with
  | O => ""
  | S n' => String (ascii_of_N (v mod 256)) (le_bytes n' (v / 256))
  end.

Definition str_len (s : string) : N := N.of_nat (String.length s).

(** The bytes [hash_part] feeds the hasher. *)
Definition hash_part (value : string) : string := le_bytes 8 (str_len value) +:+ value.

Definition input_cmp : string * string -> string * string -> comparison :=
  lex_cmp (by_key fst String.compare) (by_key snd String.compare).

Definition input_bytes (nv : string * string) : string := hash_part nv.1 +:+ hash_part nv.2.

(** Names and values whose lengths fit the [u64] they are framed with. *)
Definition short_input (nv : string * string) : Prop :=
  (str_len nv.1 <= u64_max)%N /\ (str_len nv.2 <= u64_max)%N.

(** Everything [from_inputs] feeds the hasher, in order. *)
Definition hashed_bytes (k : ArtifactKind) (namespace : string) (inputs : list (string * string)) : string :=
  hash_part (kind_as_str k) +:+ hash_part namespace +:+
  join "" (input_bytes <$> sort_by input_cmp inputs).

(** [ArtifactKey::from_inputs], [blake3_hex] being the hash and its hexadecimal form. *)
Definition from_inputs (blake3_hex : string -> string) (k : ArtifactKind) (namespace : string)
    (inputs : list (string * string)) : ArtifactKey :=
  mkKey k namespace (blake3_hex (hashed_bytes k namespace inputs)).

(** *** Records and the graph *)

Record ArtifactRecord := mkRecord {
  rec_key : ArtifactKey;
  state : ArtifactState;
  dependencies : gset ArtifactDependency;
  content_hash : option string;
  reason : option string;
  generation : N;
  last_touched_epoch : N;
  active_builders : N;
}.

Inductive ArtifactGraphError :=
  | NamespaceMismatch (expected actual : string)
  | DependencyMismatch (id : string)
  | StaleCompletion (id : string)
  | NonDeterministicOutput (id : string).

Abbreviation Records := (gmap ArtifactKey ArtifactRecord).
Abbreviation Dependents := (gmap ArtifactKey (gset ArtifactKey)).

Record ArtifactGraphInner := mkInner {
  records : Records;
  dependents : Dependents;
  epoch : N;
  hits : N;
  misses : N;
  invalidations : N;
  evictions : N;
}.

Definition empty_inner : ArtifactGraphInner := mkInner ∅ ∅ 0 0 0 0 0.

Record ArtifactTaskGraph := mkGraph { namespace : string; inner : ArtifactGraphInner; enabled : bool }.

(** A completion token; [finished] tokens do nothing when dropped. *)
Record ArtifactTask := mkTask { task_key : ArtifactKey; task_generation : N; finished : bool }.

Definition with_inner (i : ArtifactGraphInner) (g : ArtifactTaskGraph) : ArtifactTaskGraph :=
  mkGraph (namespace g) i (enabled g).
Definition with_records (r : Records) (i : ArtifactGraphInner) : ArtifactGraphInner :=
  mkInner r (dependents i) (epoch i) (hits i) (misses i) (invalidations i) (evictions i).
Definition with_graph (r : Records) (d : Dependents) (i : ArtifactGraphInner) : ArtifactGraphInner :=
  mkInner r d (epoch i) (hits i) (misses i) (invalidations i) (evictions i).
Definition count_hit (i : ArtifactGraphInner) : ArtifactGraphInner :=
  mkInner (records i) (dependents i) (epoch i) (sat_add64 (hits i) 1) (misses i) (invalidations i) (evictions i).
Definition count_miss (i : ArtifactGraphInner) : ArtifactGraphInner :=
  mkInner (records i) (dependents i) (epoch i) (hits i) (sat_add64 (misses i) 1) (invalidations i) (evictions i).
Definition count_invalidations (n : N) (i : ArtifactGraphInner) : ArtifactGraphInner :=
  mkInner (records i) (dependents i) (epoch i) (hits i) (misses i) (sat_add64 (invalidations i) n) (evictions i).
Definition count_evictions (n : N) (i : ArtifactGraphInner) : ArtifactGraphInner :=
  mkInner (records i) (dependents i) (epoch i) (hits i) (misses i) (invalidations i) (sat_add64 (evictions i) n).

(** [ensure_namespace] *)
Definition ensure_namespace (key : ArtifactKey) (g : ArtifactTaskGraph) : option ArtifactGraphError :=
  if String.eqb (key_namespace key) (namespace g) || negb (enabled g) then None
  else Some (NamespaceMismatch (namespace g) (key_namespace key)).

(** One dependent taken off one dependency, and the set with it when it empties. *)
Definition remove_edge (key dep : ArtifactKey) (d : Dependents) : Dependents :=
  match d !! dep with
  | Some s => if bool_decide (s ∖ {[key]} = ∅) then delete dep d else <[dep := s ∖ {[key]}]> d
  | None => d
  end.

Definition add_edge (key dep : ArtifactKey) (d : Dependents) : Dependents :=
  <[dep := {[key]} ∪ default ∅ (d !! dep)]> d.

Definition dep_keys (deps : gset ArtifactDependency) : list ArtifactKey := dep_key <$> elements deps.

(** [replace_dependency_edges] *)
Definition replace_dependency_edges (key : ArtifactKey) (deps : gset ArtifactDependency)
    (r : Records) (d : Dependents) : Dependents :=
  let previous := from_option dependencies ∅ (r !! key) in
  let d := foldl (fun d dep => remove_edge key dep d) d (dep_keys previous) in
  foldl (fun d dep => add_edge key dep d) d (dep_keys deps).

(** [rebuild_dependents] *)
Definition rebuild_dependents (r : Records) : Dependents :=
  foldl (fun d '(dep, key) => add_edge key dep d) ∅
    (map_to_list r ≫= fun '(key, record) => (fun dep => (dep, key)) <$> dep_keys (dependencies record)).

(** *** Building an artifact *)

Definition set_state (s : ArtifactState) (h why : option string) (r : ArtifactRecord) : ArtifactRecord :=
  mkRecord (rec_key r) s (dependencies r) h why (generation r) (last_touched_epoch r) (active_builders r).
Definition set_builders (n : N) (r : ArtifactRecord) : ArtifactRecord :=
  mkRecord (rec_key r) (state r) (dependencies r) (content_hash r) (reason r) (generation r)
    (last_touched_epoch r) n.
Definition touch (e : N) (r : ArtifactRecord) : ArtifactRecord :=
  mkRecord (rec_key r) (state r) (dependencies r) (content_hash r) (reason r) (generation r) e
    (active_builders r).
(** [active_builders.saturating_sub(1)] *)
Definition release_builder (r : ArtifactRecord) : ArtifactRecord := set_builders (active_builders r - 1) r.

Definition joinable (r : ArtifactRecord) : bool :=
  (0 <? active_builders r)%N && bool_decide (state r = Building \/ state r = Ready).

(** The record a new generation of a build starts from. *)
Definition started_record (key : ArtifactKey) (deps : gset ArtifactDependency) (i : ArtifactGraphInner)
    : ArtifactRecord :=
  mkRecord key Building deps None None
    (from_option (fun r => sat_add64 (generation r) 1) 1%N (records i !! key)) (epoch i) 1.

Definition start_build (key : ArtifactKey) (deps : gset ArtifactDependency) (i : ArtifactGraphInner)
    : ArtifactGraphInner :=
  count_miss (with_graph (<[key := started_record key deps i]> (records i))
    (replace_dependency_edges key deps (records i) (dependents i)) i).

(** [begin] *)
Definition begin (key : ArtifactKey) (deps : gset ArtifactDependency) (g : ArtifactTaskGraph)
    : (ArtifactTask + ArtifactGraphError) * ArtifactTaskGraph :=
  match ensure_namespace key g with
  | Some e => (inr e, g)
  | None =>
      if negb (enabled g) then (inl (mkTask key 0 true), g)
      else
        let i := inner g in
        let fresh := (inl (mkTask key (generation (started_record key deps i)) false),
                      with_inner (start_build key deps i) g) in
        match records i !! key with
        | Some existing =>
            if joinable existing then
              if bool_decide (dependencies existing = deps) then
                let r := touch (epoch i) (set_builders (active_builders existing + 1) existing) in
                (inl (mkTask key (generation existing) false),
                 with_inner (with_records (<[key := r]> (records i)) i) g)
              else (inr (DependencyMismatch (identity key)), g)
            else fresh
        | None => fresh
        end
  end.

(** [ArtifactTaskGraph::complete] *)
Definition complete (key : ArtifactKey) (gen : N) (hash : string) (g : ArtifactTaskGraph)
    : (unit + ArtifactGraphError) * ArtifactTaskGraph :=
  if negb (enabled g) then (inl tt, g)
  else
    let i := inner g in
    match records i !! key with
    | None => (inr (StaleCompletion (identity key)), g)
    | Some r =>
        if negb (generation r =? gen)%N || bool_decide (state r = Cancelled \/ state r = Failed)
        then (inr (StaleCompletion (identity key)), g)
        else if bool_decide (state r = Ready) && negb (bool_decide (content_hash r = Some hash))
        then (inr (NonDeterministicOutput (identity key)),
              with_inner (with_records (<[key := release_builder
                (set_state Failed (content_hash r) (Some "two builders produced different content") r)]>
                (records i)) i) g)
        else (inl tt, with_inner (with_records (<[key := release_builder
                (set_state Ready (Some hash) None r)]> (records i)) i) g)
    end.

(** [ArtifactTaskGraph::fail] *)
Definition fail (key : ArtifactKey) (gen : N) (why : string) (g : ArtifactTaskGraph) : ArtifactTaskGraph :=
  if negb (enabled g) then g
  else
    match records (inner g) !! key with
    | Some r =>
        if (generation r =? gen)%N
        then with_inner (with_records (<[key := set_state Failed None (Some why) (release_builder r)]>
               (records (inner g))) (inner g)) g
        else g
    | None => g
    end.

(** [ArtifactTaskGraph::cancel] *)
Definition cancel (key : ArtifactKey) (gen : N) (g : ArtifactTaskGraph) : ArtifactTaskGraph :=
  if negb (enabled g) then g
  else
    match records (inner g) !! key with
    | Some r =>
        if (generation r =? gen)%N
        then
          let r := release_builder r in
          let r := if (active_builders r =? 0)%N && bool_decide (state r = Building)
                   then set_state Cancelled (content_hash r)
                          (Some "artifact task ended without completion") r
                   else r in
          with_inner (with_records (<[key := r]> (records (inner g))) (inner g)) g
        else g
    | None => g
    end.

(** [ArtifactTask::complete], [ArtifactTask::fail] and [Drop for ArtifactTask] *)
Definition task_complete (t : ArtifactTask) (hash : string) (g : ArtifactTaskGraph)
    : (unit + ArtifactGraphError) * ArtifactTaskGraph := complete (task_key t) (task_generation t) hash g.
Definition task_fail (t : ArtifactTask) (why : string) (g : ArtifactTaskGraph) : ArtifactTaskGraph :=
  fail (task_key t) (task_generation t) why g.
Definition task_drop (t : ArtifactTask) (g : ArtifactTaskGraph) : ArtifactTaskGraph :=
  if finished t then g else cancel (task_key t) (task_generation t) g.

(** The first section of [publish]: [inl true] answers from the graph, [inl
    false] goes on to build. *)
Definition publish_lookup (key : ArtifactKey) (deps : gset ArtifactDependency) (hash : string)
    (g : ArtifactTaskGraph) : (bool + ArtifactGraphError) * ArtifactTaskGraph :=
  let i := inner g in
  match records i !! key with
  | None => (inl false, g)
  | Some existing =>
      if negb (bool_decide (dependencies existing = deps))
      then (inr (DependencyMismatch (identity key)), g)
      else if bool_decide (state existing = Ready) then
        if bool_decide (content_hash existing = Some hash)
        then (inl true, with_inner (count_hit (with_records
               (<[key := touch (epoch i) existing]> (records i)) i)) g)
        else (inr (NonDeterministicOutput (identity key)),
              with_inner (with_records (<[key := set_state Failed (content_hash existing)
                (Some "same semantic key produced different content") existing]> (records i)) i) g)
      else (inl false, g)
  end.

(** [publish] *)
Definition publish (key : ArtifactKey) (deps : gset ArtifactDependency) (hash : string)
    (g : ArtifactTaskGraph) : (bool + ArtifactGraphError) * ArtifactTaskGraph :=
  match ensure_namespace key g with
  | Some e => (inr e, g)
  | None =>
      if negb (enabled g) then (inl false, g)
      else match publish_lookup key deps hash g with
           | (inl false, g) =>
               match begin key deps g with
               | (inr e, g) => (inr e, g)
               | (inl t, g) => match task_complete t hash g with
                               | (inr e, g) => (inr e, g)
                               | (inl _, g) => (inl false, g)
                               end
               end
           | answer => answer
           end
  end.

(** *** Invalidation *)

Definition cancel_record (why : string) (r : ArtifactRecord) : ArtifactRecord :=
  mkRecord (rec_key r) Cancelled (dependencies r) None (Some why) (sat_add64 (generation r) 1)
    (last_touched_epoch r) 0.

Definition dependents_of (d : Dependents) (key : ArtifactKey) : list ArtifactKey :=
  elements (default ∅ (d !! key)).

Fixpoint invalidate_loop (fuel : nat) (why : string) (d : Dependents) (queue : list ArtifactKey)
    (invalidated : gset ArtifactKey) (r : Records) : option (gset ArtifactKey * Records) :=
  match queue, fuel with
  | [], _ => Some (invalidated, r)
  | _ :: _, O => None
  | current :: queue, S fuel' =>
      if decide (current ∈ invalidated) then invalidate_loop fuel' why d queue invalidated r
      else invalidate_loop fuel' why d (queue ++ dependents_of d current) ({[current]} ∪ invalidated)
             (alter (cancel_record why) current r)
  end.

(** Enough turns for every key and every edge. *)
Definition invalidate_fuel (d : Dependents) : nat := S (out_edges (dependents_of d) (dom d)).

(** [invalidate] *)
Definition invalidate (key : ArtifactKey) (why : string) (g : ArtifactTaskGraph)
    : option (list ArtifactKey * ArtifactTaskGraph) :=
  if negb (enabled g) then Some ([], g)
  else
    let i := inner g in
    '(invalidated, r) ← invalidate_loop (invalidate_fuel (dependents i)) why (dependents i) [key] ∅ (records i);
    Some (sort_by key_cmp (elements invalidated),
          with_inner (count_invalidations (N.of_nat (size invalidated)) (with_records r i)) g).

(** *** Eviction *)

Definition opt_len (s : option string) : N := from_option str_len 0%N s.

Definition sum_N (l : list N) : N := foldr N.add 0%N l.

(** [artifact_record_bytes] *)
Definition artifact_record_bytes (r : ArtifactRecord) : N :=
  str_len (key_namespace (rec_key r)) + str_len (identity (rec_key r)) + opt_len (content_hash r) +
  opt_len (reason r) +
  sum_N ((fun d => str_len (key_namespace (dep_key d)) + str_len (identity (dep_key d)) +
                   opt_len (dep_content_hash d))%N <$> elements (dependencies r)).

(** [is_evictable] *)
Definition is_evictable (r : ArtifactRecord) (d : Dependents) (key : ArtifactKey) : bool :=
  negb (bool_decide (state r = Building)) && (active_builders r =? 0)%N &&
  bool_decide (default ∅ (d !! key) = ∅).

(** [eviction_priority] *)
Definition eviction_priority (s : ArtifactState) : N :=
  match s with Failed | Cancelled => 0 | Ready => 1 | Building => 2 end.

Definition dependencies_of (r : Records) (key : ArtifactKey) : list ArtifactKey :=
  from_option (fun record => dep_keys (dependencies record)) [] (r !! key).

Definition building_keys (r : Records) : list ArtifactKey :=
  fst <$> filter (fun kr => state kr.2 = Building) (map_to_list r).

(** Every key a record is stored under or depends on. *)
Definition known_keys (r : Records) : gset ArtifactKey :=
  list_to_set (map_to_list r ≫= fun kr => kr.1 :: dep_keys (dependencies kr.2)).

(** [protected_artifacts] *)
Definition protected_artifacts (r : Records) : option (gset ArtifactKey) :=
  let start := building_keys r in
  walk_push (dependencies_of r) (length start + size (known_keys r)) start (list_to_set start).

Definition unprotected_bytes (protected : gset ArtifactKey) (r : Records) : N :=
  sum_N ((fun kr => artifact_record_bytes kr.2) <$> filter (fun kr => kr.1 ∉ protected) (map_to_list r)).

(** [evictable_bytes] *)
Definition evictable_bytes (g : ArtifactTaskGraph) : option N :=
  protected ← protected_artifacts (records (inner g)); Some (unprotected_bytes protected (records (inner g))).

Abbreviation Eligible := (gset (N * ArtifactKey)).

(** The order of the [(priority, key)] set. *)
Definition eligible_cmp : N * ArtifactKey -> N * ArtifactKey -> comparison :=
  lex_cmp (by_key fst N.compare) (by_key snd key_cmp).

Definition first_eligible (e : Eligible) : option (N * ArtifactKey) := head (sort_by eligible_cmp (elements e)).

Definition eligible_records (r : Records) (d : Dependents) : Eligible :=
  list_to_set ((fun kr => (eviction_priority (state kr.2), kr.1)) <$>
    filter (fun kr => is_evictable kr.2 d kr.1 = true) (map_to_list r)).

(** The body of [for dependency in record.dependencies]. *)
Definition free_dependency (key : ArtifactKey) (r : Records) (st : Eligible * Dependents) (dep : ArtifactKey)
    : Eligible * Dependents :=
  let '(e, d) := st in
  match d !! dep with
  | None => (e, d)
  | Some s =>
      let d' := remove_edge key dep d in
      if bool_decide (s ∖ {[key]} = ∅) then
        match r !! dep with
        | Some freed => if is_evictable freed d' dep
                        then ({[(eviction_priority (state freed), dep)]} ∪ e, d') else (e, d')
        | None => (e, d')
        end
      else (e, d')
  end.

Record EvictState := mkEvict {
  ev_records : Records;
  ev_dependents : Dependents;
  ev_eligible : Eligible;
  ev_resident : N;
  ev_evicted : N;
}.

Fixpoint evict_loop (fuel : nat) (target : N) (s : EvictState) : option EvictState :=
  if (target <? ev_resident s)%N then
    match first_eligible (ev_eligible s) with
    | None => Some s
    | Some (p, key) =>
        let e := ev_eligible s ∖ {[(p, key)]} in
        match ev_records s !! key, fuel with
        | None, _ => Some (mkEvict (ev_records s) (ev_dependents s) e (ev_resident s) (ev_evicted s))
        | Some _, O => None
        | Some record, S fuel' =>
            let r := delete key (ev_records s) in
            let d := delete key (ev_dependents s) in
            let '(e, d) := foldl (free_dependency key r) (e, d) (dep_keys (dependencies record)) in
            evict_loop fuel' target
              (mkEvict r d e (ev_resident s - artifact_record_bytes record) (sat_add64 (ev_evicted s) 1))
        end
    end
  else Some s.

(** [evict_to_bytes] *)
Definition evict_to_bytes (target_bytes : N) (g : ArtifactTaskGraph) : option (N * ArtifactTaskGraph) :=
  if negb (enabled g) then Some (0%N, g)
  else
    let i := inner g in
    protected ← protected_artifacts (records i);
    s ← evict_loop (size (records i)) target_bytes
          (mkEvict (records i) (dependents i) (eligible_records (records i) (dependents i))
             (unprotected_bytes protected (records i)) 0);
    Some (ev_evicted s, with_inner (count_evictions (ev_evicted s)
            (with_graph (ev_records s) (ev_dependents s) i)) g).

(** *** Persistence *)

Record ArtifactGraphManifest := mkManifest {
  man_identity : string;
  man_namespace : string;
  man_epoch : N;
  man_records : list ArtifactRecord;
}.

Definition saved_record (r : ArtifactRecord) : ArtifactRecord :=
  let r := set_builders 0 r in
  if bool_decide (state r = Building)
  then set_state Cancelled (content_hash r) (Some "artifact was active when graph was saved") r
  else r.

(** Records kept for their own sake: touched recently, or held by something. *)
Definition retained_directly (i : ArtifactGraphInner) (kr : ArtifactKey * ArtifactRecord) : bool :=
  (epoch i - last_touched_epoch kr.2 <? RETENTION_EPOCHS)%N ||
  negb (is_evictable kr.2 (dependents i) kr.1).

Definition recorded_dependencies (r : Records) (key : ArtifactKey) : list ArtifactKey :=
  filter (fun k => is_Some (r !! k)) (dependencies_of r key).

(** The keys [save] writes. *)
Definition retained_keys (i : ArtifactGraphInner) : option (gset ArtifactKey) :=
  let start := fst <$> filter (fun kr => retained_directly i kr = true) (map_to_list (records i)) in
  walk_push (recorded_dependencies (records i)) (length start + size (dom (records i))) start
    (list_to_set start).

Definition record_cmp : ArtifactRecord -> ArtifactRecord -> comparison := by_key rec_key key_cmp.

(** The records [save] writes, in key order. *)
Definition saved_records (i : ArtifactGraphInner) (retained : gset ArtifactKey) : list ArtifactRecord :=
  saved_record <$> (snd <$> sort_by (by_key fst key_cmp)
    (filter (fun kr => kr.1 ∈ retained) (map_to_list (records i)))).

Section persistence.
(** [CARGO_PKG_VERSION], and the JSON codec of the manifest file. *)
Context (version : string)
  (to_vec : ArtifactGraphManifest -> option string)
  (from_slice : string -> option ArtifactGraphManifest).

Definition ARTIFACT_GRAPH_IDENTITY : string := "ruvyxa_artifact_graph:" +:+ version.

(** [save]: the bytes written to the manifest file, [None] inside when nothing is. *)
Definition save (g : ArtifactTaskGraph) : option (option string) :=
  if negb (enabled g) then Some None
  else
    retained ← retained_keys (inner g);
    Some (to_vec (mkManifest ARTIFACT_GRAPH_IDENTITY (namespace g) (epoch (inner g))
            (saved_records (inner g) retained))).

Fixpoint insert_unique (l : list ArtifactRecord) (r : Records) : option Records :=
  match l with
  | [] => Some r
  | x :: l' => match r !! rec_key x with
               | Some _ => None
               | None => insert_unique l' (<[rec_key x := x]> r)
               end
  end.

(** [load_manifest] *)
Definition load_manifest (file : option string) (ns : string) : option (Records * N) :=
  m ← file ≫= from_slice;
  if bool_decide (man_identity m = ARTIFACT_GRAPH_IDENTITY) && bool_decide (man_namespace m = ns)
  then r ← insert_unique (man_records m) ∅; Some (r, man_epoch m)
  else None.

(** What a freshly loaded record becomes. *)
Definition revived_record (r : ArtifactRecord) : ArtifactRecord :=
  let r := set_builders 0 r in
  if bool_decide (state r = Building)
  then set_state Cancelled (content_hash r) (Some "build process ended before artifact completion") r
  else r.

(** [at_dir], the manifest file being [file]. *)
Definition at_dir (file : option string) (ns : string) (enable : bool) : ArtifactTaskGraph :=
  let '(r, previous_epoch) := default (∅, 0%N) (if enable then load_manifest file ns else None) in
  let r := revived_record <$> r in
  mkGraph ns (mkInner r (rebuild_dependents r) (sat_add64 previous_epoch 1) 0 0 0 0) enable.
End persistence.

(** [clear], the manifest file being removed with it. *)
Definition clear (g : ArtifactTaskGraph) : ArtifactTaskGraph := with_inner empty_inner g.

(** *** Interleaved operations *)

(** One locked section of some caller.  The tokens of builds in flight are kept
    in a list; finishing the [i]-th one takes it out. *)
Inductive op :=
  | OLookup (key : ArtifactKey) (deps : gset ArtifactDependency) (hash : string)
  | OBegin (key : ArtifactKey) (deps : gset ArtifactDependency)
  | OComplete (i : nat) (hash : string)
  | OFail (i : nat) (why : string)
  | ODrop (i : nat)
  | OInvalidate (key : ArtifactKey) (why : string)
  | OEvict (target : N)
  | OClear.

Definition sys : Type := ArtifactTaskGraph * list ArtifactTask.

Definition finish (i : nat) (f : ArtifactTask -> ArtifactTaskGraph) (st : sys) : sys :=
  match st.2 !! i with
  | Some t => (f t, delete i st.2)
  | None => st
  end.

Definition run (o : op) (st : sys) : option sys :=
  let '(g, ts) := st in
  match o with
  | OLookup key deps hash => Some ((publish_lookup key deps hash g).2, ts)
  | OBegin key deps =>
      match begin key deps g with
      | (inl t, g') => Some (g', t :: ts)
      | (inr _, g') => Some (g', ts)
      end
  | OComplete i hash => Some (finish i (fun t => (task_complete t hash g).2) st)
  | OFail i why => Some (finish i (fun t => task_fail t why g) st)
  | ODrop i => Some (finish i (fun t => task_drop t g) st)
  | OInvalidate key why => '(_, g') ← invalidate key why g; Some (g', ts)
  | OEvict target => '(_, g') ← evict_to_bytes target g; Some (g', ts)
  | OClear => Some (clear g, ts)
  end.

Fixpoint run_all (os : list op) (st : sys) : option sys :=
  match os with
  | [] => Some st
  | o :: os' => st' ← run o st; run_all os' st'
  end.

(** *** What is kept true *)

Definition depends_on (r : Records) (key dep : ArtifactKey) : Prop :=
  exists record, r !! key = Some record /\ dep ∈ dep_keys (dependencies record).

Definition has_edge (d : Dependents) (dep key : ArtifactKey) : Prop :=
  exists s, d !! dep = Some s /\ key ∈ s.

Definition no_empty (d : Dependents) : Prop := forall dep s, d !! dep = Some s -> s ≠ ∅.

(** Records are stored under their own key, and [dependents] is exactly the
    reverse of their dependencies, without empty sets. *)
Definition graph_ok (r : Records) (d : Dependents) : Prop :=
  (forall key record, r !! key = Some record -> rec_key record = key) /\
  (forall dep key, has_edge d dep key <-> depends_on r key dep) /\
  no_empty d.

Definition inner_ok (i : ArtifactGraphInner) : Prop := graph_ok (records i) (dependents i).

(** What an invalidation reaches: the key and everything that depends on it. *)
Definition affected (r : Records) (key x : ArtifactKey) : Prop :=
  rtc (fun dep k => depends_on r k dep) key x.

(** [e] is exactly the set of records that may be evicted now. *)
Definition eligible_ok (e : Eligible) (r : Records) (d : Dependents) : Prop :=
  forall p k, (p, k) ∈ e <->
    exists record, r !! k = Some record /\ is_evictable record d k = true /\
      p = eviction_priority (state record).

(** Every protected key is being built, or is a dependency of a protected key. *)
Definition protected_ok (protected : gset ArtifactKey) (r : Records) : Prop :=
  forall k, k ∈ protected ->
    (exists record, r !! k = Some record /\ state record = Building) \/
    (exists k', k' ∈ protected /\ depends_on r k' k).

(** What eviction may do to the records [r]: it only removes, only records that
    are idle, and never one that a record left behind depends on. *)
Definition evicts_to (r r' : Records) : Prop :=
  r' ⊆ r /\
  forall k record, r !! k = Some record -> r' !! k = None ->
    state record ≠ Building /\ active_builders record = 0%N /\
    forall k', depends_on r k' k -> r' !! k' = None.

(** No record may be evicted. *)
Definition nothing_evictable (r : Records) (d : Dependents) : Prop :=
  forall k record, r !! k = Some record -> is_evictable record d k = false.

(** The record of a key has moved past generation [n]. *)
Definition newer (key : ArtifactKey) (n : N) (i : ArtifactGraphInner) : Prop :=
  exists record, records i !! key = Some record /\ (n < generation record <= u64_max)%N.

Definition forgets (o : op) : bool := match o with OEvict _ | OClear => true | _ => false end.

(** The codec reads back what it wrote, for records whose skipped field is 0. *)
Definition codec_ok (to_vec : ArtifactGraphManifest -> option string)
    (from_slice : string -> option ArtifactGraphManifest) : Prop :=
  forall m bytes, to_vec m = Some bytes ->
    Forall (fun r => active_builders r = 0%N) (man_records m) -> from_slice bytes = Some m.

(** ** Lemmas *)

(** *** Edges *)

Lemma remove_edge_spec key dep d dep' key' :
  has_edge (remove_edge key dep d) dep' key' <->
  has_edge d dep' key' /\ (dep' = dep -> key' ≠ key).
Proof.
  unfold remove_edge, has_edge. destruct (d !! dep) as [s|] eqn:E.
  - case_bool_decide as Hs.
    + destruct (decide (dep' = dep)) as [->|Hne].
      * rewrite lookup_delete_eq. split; [by intros (? & ? & _)|]. intros [(s' & Hs' & Hk) Hkey].
        simplify_eq. exfalso. specialize (Hkey eq_refl). set_solver.
      * rewrite lookup_delete_ne by done. naive_solver.
    + destruct (decide (dep' = dep)) as [->|Hne].
      * rewrite lookup_insert_eq. rewrite E. split.
        -- intros (s' & [= <-] & Hk). split; [exists s; set_solver|set_solver].
        -- intros [(s' & [= <-] & Hk) Hkey]. eexists. split; [done|].
           specialize (Hkey eq_refl). set_solver.
      * rewrite lookup_insert_ne by done. naive_solver.
  - split; [|by intros [? _]]. intros H. split; [done|]. intros ->. destruct H as (s & Hs & _). congruence.
Qed.

Lemma remove_edge_no_empty key dep d : no_empty d -> no_empty (remove_edge key dep d).
Proof.
  intros Hn dep' s. unfold remove_edge. destruct (d !! dep) eqn:E; [|by apply Hn].
  case_bool_decide as Hs; [intros [_ ?]%lookup_delete_Some; by eapply Hn|].
  intros [[_ <-]|[_ ?]]%lookup_insert_Some; [done|by eapply Hn].
Qed.

Lemma add_edge_spec key dep d dep' key' :
  has_edge (add_edge key dep d) dep' key' <-> has_edge d dep' key' \/ (dep' = dep /\ key' = key).
Proof.
  unfold add_edge, has_edge. destruct (decide (dep' = dep)) as [->|Hne].
  - rewrite lookup_insert_eq. destruct (d !! dep) as [s|] eqn:E; cbn.
    + split.
      * intros (s' & [= <-] & Hk). apply elem_of_union in Hk as [->%elem_of_singleton|Hk]; [by right|].
        left. by exists s.
      * intros [(s' & [= <-] & Hk)|[_ ->]]; eexists; (split; [done|]); set_solver.
    + split.
      * intros (s' & [= <-] & Hk). right. set_solver.
      * intros [(s' & ? & _)|[_ ->]]; [done|]. eexists. split; [done|]. set_solver.
  - rewrite lookup_insert_ne by done. naive_solver.
Qed.

Lemma add_edge_no_empty key dep d : no_empty d -> no_empty (add_edge key dep d).
Proof.
  intros Hn dep' s. unfold add_edge. intros [[_ <-]|[_ ?]]%lookup_insert_Some; [|by eapply Hn].
  set_solver.
Qed.

Lemma fold_remove_spec key l d dep' key' :
  has_edge (foldl (fun d dep => remove_edge key dep d) d l) dep' key' <->
  has_edge d dep' key' /\ (dep' ∈ l -> key' ≠ key).
Proof.
  revert d. induction l as [|x l IH]; intros d; cbn [foldl]; [set_solver|].
  rewrite IH, remove_edge_spec. set_solver.
Qed.

Lemma fold_remove_no_empty key l d :
  no_empty d -> no_empty (foldl (fun d dep => remove_edge key dep d) d l).
Proof. revert d. induction l as [|x l IH]; intros d H; [done|]. by apply IH, remove_edge_no_empty. Qed.

Lemma fold_add_spec key l d dep' key' :
  has_edge (foldl (fun d dep => add_edge key dep d) d l) dep' key' <->
  has_edge d dep' key' \/ (dep' ∈ l /\ key' = key).
Proof.
  revert d. induction l as [|x l IH]; intros d; cbn [foldl]; [set_solver|].
  rewrite IH, add_edge_spec. set_solver.
Qed.

Lemma fold_add_no_empty key l d : no_empty d -> no_empty (foldl (fun d dep => add_edge key dep d) d l).
Proof. revert d. induction l as [|x l IH]; intros d H; [done|]. by apply IH, add_edge_no_empty. Qed.

Lemma insert_graph_ok key r d record :
  graph_ok r d -> rec_key record = key ->
  graph_ok (<[key := record]> r) (replace_dependency_edges key (dependencies record) r d).
Proof.
  intros (Hk & He & Hn) Hrk. split_and!.
  - intros key' record' [[<- <-]|[_ H]]%lookup_insert_Some; [done|by eapply Hk].
  - intros dep key'. unfold replace_dependency_edges.
    rewrite fold_add_spec, fold_remove_spec, He. unfold depends_on.
    destruct (decide (key' = key)) as [->|Hne].
    + rewrite lookup_insert_eq. destruct (r !! key) as [old|]; cbn; naive_solver.
    + rewrite lookup_insert_ne by done. naive_solver.
  - unfold replace_dependency_edges. by apply fold_add_no_empty, fold_remove_no_empty.
Qed.

(** Changing a record without its key and dependencies keeps the graph. *)
Lemma update_graph_ok key r d old new :
  graph_ok r d -> r !! key = Some old -> rec_key new = rec_key old -> dependencies new = dependencies old ->
  graph_ok (<[key := new]> r) d.
Proof.
  intros (Hk & He & Hn) Hold Hkey Hdeps. split_and!; [| |done].
  - intros key' record [[<- <-]|[_ H]]%lookup_insert_Some; [|by eapply Hk].
    rewrite Hkey. by apply Hk in Hold.
  - intros dep key'. rewrite He. unfold depends_on. destruct (decide (key' = key)) as [->|Hne].
    + rewrite lookup_insert_eq, Hold. split; intros (? & [= <-] & H); eexists; (split; [done|]).
      * by rewrite Hdeps.
      * by rewrite Hdeps in H.
    + by rewrite lookup_insert_ne by done.
Qed.

Lemma fold_pairs_spec l d dep' key' :
  has_edge (foldl (fun d '(dep, key) => add_edge key dep d) d l) dep' key' <->
  has_edge d dep' key' \/ (dep', key') ∈ l.
Proof.
  revert d. induction l as [|[x k] l IH]; intros d; cbn [foldl]; [set_solver|].
  rewrite IH, add_edge_spec, elem_of_cons. naive_solver.
Qed.

Lemma fold_pairs_no_empty l d :
  no_empty d -> no_empty (foldl (fun d '(dep, key) => add_edge key dep d) d l).
Proof. revert d. induction l as [|[x k] l IH]; intros d H; [done|]. by apply IH, add_edge_no_empty. Qed.

Lemma rebuild_dependents_spec r dep key : has_edge (rebuild_dependents r) dep key <-> depends_on r key dep.
Proof.
  unfold rebuild_dependents, depends_on. rewrite fold_pairs_spec, list_elem_of_bind. split.
  - intros [(s & Hs & _)|([k record] & Hin & Hk)]; [by rewrite lookup_empty in Hs|].
    apply list_elem_of_fmap in Hin as (dep' & [= -> ->] & Hd). apply elem_of_map_to_list in Hk. by eexists.
  - intros (record & Hk & Hd). right. exists (key, record). split; [|by apply elem_of_map_to_list].
    apply list_elem_of_fmap. by exists dep.
Qed.

Lemma rebuild_graph_ok r :
  (forall key record, r !! key = Some record -> rec_key record = key) -> graph_ok r (rebuild_dependents r).
Proof.
  intros Hk. split_and!; [done|intros dep key; apply rebuild_dependents_spec|].
  apply fold_pairs_no_empty. intros dep s. by rewrite lookup_empty.
Qed.

Lemma empty_inner_ok : inner_ok empty_inner.
Proof.
  split_and!.
  - intros key record. cbn. by rewrite lookup_empty.
  - intros dep key. split; [intros (s & Hs & _)|intros (r & Hr & _)]; cbn in *; by rewrite lookup_empty in *.
  - intros dep s. cbn. by rewrite lookup_empty.
Qed.

(** *** Building *)

Ltac inner_update :=
  cbn; match goal with
       | Hok : inner_ok _, H : records _ !! _ = Some ?r |- _ =>
           by apply (update_graph_ok _ _ _ r _ Hok H)
       end.

Lemma start_build_ok key deps i : inner_ok i -> inner_ok (start_build key deps i).
Proof. intros Hok. by apply (insert_graph_ok key (records i) (dependents i) (started_record key deps i)). Qed.

Lemma start_build_lookup key deps i :
  records (start_build key deps i) !! key = Some (started_record key deps i).
Proof. apply lookup_insert_eq. Qed.

Lemma begin_ok key deps g : inner_ok (inner g) -> inner_ok (inner (begin key deps g).2).
Proof.
  intros Hok. unfold begin. destruct (ensure_namespace key g); [done|]. destruct (negb (enabled g)); [done|].
  cbv zeta. pose proof (start_build_ok key deps _ Hok) as Hfresh.
  destruct (records (inner g) !! key) as [r|] eqn:E; [|done].
  destruct (joinable r); [|done]. case_bool_decide; [|done]. inner_update.
Qed.

Lemma complete_ok key gen hash g : inner_ok (inner g) -> inner_ok (inner (complete key gen hash g).2).
Proof.
  intros Hok. unfold complete. destruct (negb (enabled g)); [done|].
  destruct (records (inner g) !! key) as [r|] eqn:E; [|done].
  destruct (_ || _); [done|]. destruct (_ && _); inner_update.
Qed.

Lemma fail_ok key gen why g : inner_ok (inner g) -> inner_ok (inner (fail key gen why g)).
Proof.
  intros Hok. unfold fail. destruct (negb (enabled g)); [done|].
  destruct (records (inner g) !! key) as [r|] eqn:E; [|done]. destruct (_ =? _)%N; [|done]. inner_update.
Qed.

Lemma cancel_ok key gen g : inner_ok (inner g) -> inner_ok (inner (cancel key gen g)).
Proof.
  intros Hok. unfold cancel. destruct (negb (enabled g)); [done|].
  destruct (records (inner g) !! key) as [r|] eqn:E; [|done]. destruct (_ =? _)%N; [|done].
  destruct (_ && _); inner_update.
Qed.

Lemma publish_lookup_ok key deps hash g :
  inner_ok (inner g) -> inner_ok (inner (publish_lookup key deps hash g).2).
Proof.
  intros Hok. unfold publish_lookup. destruct (records (inner g) !! key) as [r|] eqn:E; [|done].
  destruct (negb _); [done|]. case_bool_decide; [|done]. case_bool_decide; inner_update.
Qed.

(** *** Invalidation *)

Lemma invalidate_loop_walk fuel why d queue seen r :
  invalidate_loop fuel why d queue seen r =
  match walk_pop (dependents_of d) fuel queue seen with
  | Some s => Some (s, map_imap (fun k x => Some (if decide (k ∈ s ∧ k ∉ seen) then cancel_record why x else x)) r)
  | None => None
  end.
Proof.
  assert (forall (s : gset ArtifactKey) r, map_imap (fun k (x : ArtifactRecord) =>
    Some (if decide (k ∈ s ∧ k ∉ s) then cancel_record why x else x)) r = r) as Hid.
  { intros s r'. apply map_eq. intros k. rewrite map_lookup_imap. destruct (r' !! k); [|done]. cbn.
    rewrite decide_False by naive_solver. done. }
  revert queue seen r. induction fuel as [|fuel IH]; intros queue seen r.
  { destruct queue; [cbn; by rewrite Hid|done]. }
  destruct queue as [|x queue]; [cbn; by rewrite Hid|]. cbn [invalidate_loop walk_pop].
  destruct (decide (x ∈ seen)) as [Hx|Hx]; [apply IH|]. rewrite IH.
  destruct (walk_pop (dependents_of d) fuel (queue ++ dependents_of d x) ({[x]} ∪ seen)) as [s|] eqn:Ew; [|done].
  do 2 f_equal. assert (x ∈ s) as Hxs.
  { apply walk_pop_mono in Ew. set_solver. }
  apply map_eq. intros k. rewrite !map_lookup_imap. destruct (decide (k = x)) as [->|Hk].
  - rewrite lookup_alter_eq. destruct (r !! x); [|done]. cbn.
    rewrite decide_False by set_solver. by rewrite decide_True by done.
  - rewrite lookup_alter_ne by done. destruct (r !! k); [|done]. cbn. f_equal.
    destruct (decide (k ∈ s ∧ k ∉ {[x]} ∪ seen)), (decide (k ∈ s ∧ k ∉ seen)); set_solver.
Qed.

Lemma reachable_affected r d key x :
  graph_ok r d -> reachable (dependents_of d) [key] x <-> affected r key x.
Proof.
  intros (_ & He & _). unfold reachable, affected.
  assert (forall a b, edge (dependents_of d) a b <-> depends_on r b a) as Hedge.
  { intros a b. rewrite <- He. unfold edge, dependents_of, has_edge. rewrite elem_of_elements.
    destruct (d !! a); cbn; [naive_solver|]. split; [set_solver|by intros (? & ? & _)]. }
  split.
  - intros (k & ->%list_elem_of_singleton & Hr). eapply rtc_subrel; [|exact Hr]. intros a b. apply Hedge.
  - intros Hr. exists key. split; [set_solver|]. eapply rtc_subrel; [|exact Hr]. intros a b. apply Hedge.
Qed.

Lemma invalidate_spec key why g :
  inner_ok (inner g) -> enabled g = true ->
  exists (s : gset ArtifactKey) (r' : Records), invalidate key why g = Some (sort_by key_cmp (elements s),
      with_inner (count_invalidations (N.of_nat (size s)) (with_records r' (inner g))) g) /\
    (forall x, x ∈ s <-> affected (records (inner g)) key x) /\
    (forall x, r' !! x = (fun record => if decide (x ∈ s) then cancel_record why record else record)
                         <$> records (inner g) !! x).
Proof.
  intros Hok Hen. unfold invalidate, invalidate_fuel. rewrite Hen. cbn [negb].
  rewrite invalidate_loop_walk.
  destruct (walk_pop_spec (dependents_of (dependents (inner g))) (dom (dependents (inner g))) [key])
    as (s & Hw & Hs).
  { intros x Hx. apply elem_of_dom. unfold dependents_of in Hx.
    destruct (dependents (inner g) !! x); [done|]. exfalso; apply Hx; apply elements_empty. }
  cbn [length Nat.add] in Hw. rewrite Hw. cbn [mbind option_bind]. eexists s, _. split; [done|]. split.
  - intros x. rewrite Hs. by apply reachable_affected.
  - intros x. rewrite map_lookup_imap. destruct (records (inner g) !! x); [|done]. cbn.
    destruct (decide (x ∈ s ∧ x ∉ ∅)), (decide (x ∈ s)); set_solver.
Qed.

Lemma map_deps_graph_ok r r' d :
  graph_ok r d ->
  (forall x, exists f : ArtifactRecord -> ArtifactRecord, r' !! x = f <$> r !! x /\
     forall y, rec_key (f y) = rec_key y /\ dependencies (f y) = dependencies y) ->
  graph_ok r' d.
Proof.
  intros (Hk & He & Hn) Hf. split_and!; [| |done].
  - intros key record Hr. destruct (Hf key) as (f & Hfx & Hfy). rewrite Hfx in Hr.
    destruct (r !! key) eqn:E; [|done]. injection Hr as <-. rewrite (proj1 (Hfy _)). by apply Hk.
  - intros dep key. rewrite He. unfold depends_on. destruct (Hf key) as (f & -> & Hfy).
    destruct (r !! key) as [x|]; cbn; [|done].
    split; intros (? & [= <-] & H); eexists; (split; [done|]); [by rewrite (proj2 (Hfy _))|].
    by rewrite (proj2 (Hfy _)) in H.
Qed.

Lemma invalidate_ok key why g :
  inner_ok (inner g) -> exists ks g', invalidate key why g = Some (ks, g') /\ inner_ok (inner g').
Proof.
  intros Hok. destruct (enabled g) eqn:E.
  - destruct (invalidate_spec key why g Hok E) as (s & r' & -> & _ & Hr'). eexists _, _. split; [done|].
    cbn. apply (map_deps_graph_ok (records (inner g))); [done|]. intros x. eexists. split; [apply Hr'|].
    intros y. cbn. by destruct (decide (x ∈ s)).
  - exists [], g. split; [|done]. unfold invalidate. by rewrite E.
Qed.

(** *** Eviction *)

Lemma is_evictable_iff record d k :
  is_evictable record d k = true <->
  state record ≠ Building /\ active_builders record = 0%N /\ forall k', ~ has_edge d k k'.
Proof.
  unfold is_evictable, has_edge. rewrite !andb_true_iff, negb_true_iff, bool_decide_eq_false, N.eqb_eq,
    bool_decide_eq_true.
  cut (default ∅ (d !! k) = ∅ <-> forall k', ~ exists s, d !! k = Some s /\ k' ∈ s); [tauto|].
  destruct (d !! k) as [s|]; cbn.
  - split; [intros -> k' (s' & [= <-] & H); set_solver|]. intros H. apply set_eq. intros k'.
    split; [|set_solver]. intros Hk. exfalso. apply (H k'). by exists s.
  - split; [by intros _ k' (s' & ? & _)|done].
Qed.

Lemma is_evictable_local record d d' k : d !! k = d' !! k -> is_evictable record d k = is_evictable record d' k.
Proof. unfold is_evictable. by intros ->. Qed.

Lemma remove_edge_lookup_ne key dep d k : k ≠ dep -> remove_edge key dep d !! k = d !! k.
Proof.
  intros Hne. unfold remove_edge. destruct (d !! dep); [|done].
  case_bool_decide; [by rewrite lookup_delete_ne|by rewrite lookup_insert_ne].
Qed.

(** Taking one edge away keeps the set of evictable records exact. *)
Lemma free_dependency_spec key r e d dep :
  eligible_ok e r d -> no_empty d ->
  exists e', free_dependency key r (e, d) dep = (e', remove_edge key dep d) /\
    eligible_ok e' r (remove_edge key dep d).
Proof.
  intros He Hn. unfold free_dependency. destruct (d !! dep) as [s|] eqn:Es.
  2:{ exists e. unfold remove_edge. by rewrite Es. }
  assert (forall p k, k ≠ dep -> (p, k) ∈ e <-> exists record, r !! k = Some record /\
      is_evictable record (remove_edge key dep d) k = true /\ p = eviction_priority (state record)) as Hother.
  { intros p k Hk. rewrite (He p k). by setoid_rewrite (is_evictable_local _ d (remove_edge key dep d) k);
      [|by rewrite remove_edge_lookup_ne]. }
  assert (forall p, (p, dep) ∉ e) as Hdep.
  { intros p (record & _ & Hev & _)%He. apply is_evictable_iff in Hev as (_ & _ & Hno).
    apply (Hn dep s Es), set_eq. intros k. split; [|set_solver]. intros Hk. exfalso.
    apply (Hno k). by exists s. }
  case_bool_decide as Hs.
  - assert (remove_edge key dep d !! dep = None) as Hnone.
    { unfold remove_edge. rewrite Es, bool_decide_true by done. apply lookup_delete_eq. }
    destruct (r !! dep) as [freed|] eqn:Ef.
    + destruct (is_evictable freed (remove_edge key dep d) dep) eqn:Eev; eexists; (split; [done|]);
        intros p k; destruct (decide (k = dep)) as [->|Hk].
      * rewrite elem_of_union, elem_of_singleton. split.
        -- intros [[= ->]|?]; [by exists freed|by destruct (Hdep p)].
        -- intros (record & Hr & _ & ->). left. congruence.
      * rewrite elem_of_union, elem_of_singleton. rewrite <- (Hother p k Hk).
        split; [intros [[= _ ->]|?]; done|by right].
      * split; [by intros ?%Hdep|]. intros (record & Hr & Hev & _). congruence.
      * by apply Hother.
    + eexists. split; [done|]. intros p k. destruct (decide (k = dep)) as [->|Hk]; [|by apply Hother].
      split; [by intros ?%Hdep|]. intros (record & Hr & _). congruence.
  - eexists. split; [done|]. intros p k. destruct (decide (k = dep)) as [->|Hk]; [|by apply Hother].
    split; [by intros ?%Hdep|]. intros (record & Hr & Hev & _).
    apply is_evictable_iff in Hev as (_ & _ & Hno). exfalso. apply Hs, set_eq. intros k. split; [|set_solver].
    intros Hk. exfalso. apply (Hno k). apply remove_edge_spec. split; [exists s|intros _]; set_solver.
Qed.

Lemma free_dependencies_spec key r l e d :
  eligible_ok e r d -> no_empty d ->
  exists e', foldl (free_dependency key r) (e, d) l = (e', foldl (fun d dep => remove_edge key dep d) d l) /\
    eligible_ok e' r (foldl (fun d dep => remove_edge key dep d) d l).
Proof.
  revert e d. induction l as [|dep l IH]; intros e d He Hn; cbn [foldl]; [by exists e|].
  destruct (free_dependency_spec key r e d dep He Hn) as (e' & -> & He').
  apply IH; [done|by apply remove_edge_no_empty].
Qed.

Lemma eligible_records_ok r d : eligible_ok (eligible_records r d) r d.
Proof.
  intros p k. unfold eligible_records. rewrite elem_of_list_to_set, list_elem_of_fmap. split.
  - intros ([k' record] & [= -> ->] & [Hev Hin]%list_elem_of_filter). exists record.
    by apply elem_of_map_to_list in Hin.
  - intros (record & Hr & Hev & ->). exists (k, record). split; [done|].
    apply list_elem_of_filter. split; [done|]. by apply elem_of_map_to_list.
Qed.

(** Removing one evictable record and its edges. *)
Lemma evict_one r d e p k record :
  graph_ok r d -> eligible_ok e r d -> (p, k) ∈ e -> r !! k = Some record ->
  exists e' d', foldl (free_dependency k (delete k r)) (e ∖ {[(p, k)]}, delete k d)
                  (dep_keys (dependencies record)) = (e', d') /\
    graph_ok (delete k r) d' /\ eligible_ok e' (delete k r) d'.
Proof.
  intros (Hk & He & Hn) Hel Hin Hr.
  apply Hel in Hin as (record' & Hr' & Hev & ->). rewrite Hr in Hr'. injection Hr' as <-.
  apply is_evictable_iff in Hev as (Hst & Hact & Hno).
  assert (eligible_ok (e ∖ {[(eviction_priority (state record), k)]}) (delete k r) (delete k d)) as Hel0.
  { intros p' k'. rewrite elem_of_difference, elem_of_singleton, (Hel p' k'). destruct (decide (k' = k)) as [->|Hne].
    - rewrite lookup_delete_eq. split; [|by intros (? & ? & _)].
      intros [(? & Hr2 & _ & ->) Hneq]. rewrite Hr in Hr2. by injection Hr2 as <-.
    - rewrite lookup_delete_ne by done.
      setoid_rewrite (is_evictable_local _ (delete k d) d k'); [|by rewrite lookup_delete_ne].
      split; [by intros [? _]|]. intros H. split; [done|congruence]. }
  assert (no_empty (delete k d)) as Hn0.
  { intros dep s [_ Hs]%lookup_delete_Some. by eapply Hn. }
  destruct (free_dependencies_spec k (delete k r) (dep_keys (dependencies record)) _ _ Hel0 Hn0)
    as (e' & Hfold & Hel').
  eexists _, _. split; [exact Hfold|]. split; [|exact Hel']. split_and!.
  - intros k' record' [_ H]%lookup_delete_Some. by eapply Hk.
  - intros dep k'. rewrite fold_remove_spec.
    assert (has_edge (delete k d) dep k' <-> has_edge d dep k') as ->.
    { unfold has_edge. destruct (decide (dep = k)) as [->|Hne]; [|by rewrite lookup_delete_ne].
      rewrite lookup_delete_eq. split; [by intros (? & ? & _)|]. intros Hs. by destruct (Hno k'). }
    rewrite He. unfold depends_on. destruct (decide (k' = k)) as [->|Hne].
    + rewrite lookup_delete_eq. rewrite Hr. split; [|by intros (? & ? & _)].
      intros [(? & [= <-] & Hd) Hf]. by destruct (Hf Hd).
    + rewrite lookup_delete_ne by done. naive_solver.
  - by apply fold_remove_no_empty.
Qed.

Lemma first_eligible_spec e :
  match first_eligible e with
  | Some pk => pk ∈ e
  | None => e = ∅
  end.
Proof.
  unfold first_eligible. pose proof (sort_by_perm (cmp := eligible_cmp) (elements e)) as Hp.
  destruct (sort_by eligible_cmp (elements e)) as [|pk l] eqn:E; cbn.
  - apply Permutation_nil_l in Hp. apply leibniz_equiv, elements_empty_inv. done.
  - apply elem_of_elements. rewrite <- Hp. set_solver.
Qed.

Lemma sum_N_perm l l' : l ≡ₚ l' -> sum_N l = sum_N l'.
Proof. unfold sum_N. induction 1; cbn [foldr]; try lia; congruence. Qed.

Lemma unprotected_bytes_delete protected r k record :
  r !! k = Some record -> k ∉ protected ->
  unprotected_bytes protected r =
    (artifact_record_bytes record + unprotected_bytes protected (delete k r))%N.
Proof.
  intros Hr Hk. unfold unprotected_bytes.
  rewrite (sum_N_perm _ ((fun kr : ArtifactKey * ArtifactRecord => artifact_record_bytes kr.2) <$>
    filter (fun kr : ArtifactKey * ArtifactRecord => kr.1 ∉ protected) ((k, record) :: map_to_list (delete k r)))).
  - by rewrite filter_cons_True.
  - apply fmap_Permutation. by rewrite map_to_list_delete.
Qed.

Lemma protected_not_evictable protected r d k record :
  graph_ok r d -> protected_ok protected r -> r !! k = Some record -> is_evictable record d k = true ->
  k ∉ protected.
Proof.
  intros (_ & He & _) Hp Hr (Hst & _ & Hno)%is_evictable_iff Hin.
  destruct (Hp k Hin) as [(record' & Hr' & Hb)|(k' & _ & Hd)]; [congruence|].
  apply (Hno k'). by apply He.
Qed.

Lemma protected_ok_delete protected r k :
  k ∉ protected -> protected_ok protected r -> protected_ok protected (delete k r).
Proof.
  intros Hk Hp x Hx. unfold depends_on. destruct (Hp x Hx) as [(record & Hr & Hb)|(k' & Hk' & (record & Hr & Hd))].
  - left. exists record. rewrite lookup_delete_ne by (intros ->; done). done.
  - right. exists k'. split; [done|]. exists record.
    rewrite lookup_delete_ne by (intros ->; done). done.
Qed.

Lemma evicts_to_refl r : evicts_to r r.
Proof. split; [done|]. intros k record H1 H2. congruence. Qed.

Lemma evicts_to_step r d r' k record :
  graph_ok r d -> r !! k = Some record -> is_evictable record d k = true ->
  evicts_to (delete k r) r' -> evicts_to r r'.
Proof.
  intros (_ & He & _) Hr (Hst & Hact & Hno)%is_evictable_iff [Hsub Hev].
  split; [etrans; [exact Hsub|apply delete_subseteq]|].
  intros x rx Hx Hx'. destruct (decide (x = k)) as [->|Hne].
  - rewrite Hr in Hx. injection Hx as <-. split_and!; [done..|]. intros k' Hk'.
    exfalso. apply (Hno k'). by apply He.
  - destruct (Hev x rx) as (H1 & H2 & H3); [by rewrite lookup_delete_ne|done|].
    split_and!; [done..|]. intros k' (record' & Hk' & Hd). destruct (decide (k' = k)) as [->|Hne'].
    + destruct (r' !! k) eqn:E; [|done]. eapply lookup_weaken in E; [|exact Hsub].
      by rewrite lookup_delete_eq in E.
    + apply H3. exists record'. by rewrite lookup_delete_ne.
Qed.

Lemma evict_loop_spec protected fuel target s :
  graph_ok (ev_records s) (ev_dependents s) ->
  eligible_ok (ev_eligible s) (ev_records s) (ev_dependents s) ->
  protected_ok protected (ev_records s) ->
  ev_resident s = unprotected_bytes protected (ev_records s) ->
  size (ev_records s) <= fuel ->
  exists s', evict_loop fuel target s = Some s' /\
    graph_ok (ev_records s') (ev_dependents s') /\
    evicts_to (ev_records s) (ev_records s') /\
    (forall k, k ∈ protected -> ev_records s' !! k = ev_records s !! k) /\
    ((unprotected_bytes protected (ev_records s') <= target)%N \/
     nothing_evictable (ev_records s') (ev_dependents s')).
Proof.
  revert s. induction fuel as [|fuel IH]; intros [r d e res n] Hg Hel Hp Hres Hf;
    cbn [evict_loop ev_records ev_dependents ev_eligible ev_resident ev_evicted] in *;
    (destruct (N.ltb_spec target res) as [Hlt|Hle];
      [|eexists; split; [done|]; cbn; split_and!; [apply Hg..|apply evicts_to_refl|done|left; lia]]);
    pose proof (first_eligible_spec e) as Hfe; destruct (first_eligible e) as [[p k]|];
    try (eexists; split; [done|]; cbn; split_and!; [apply Hg..|apply evicts_to_refl|done|right];
         intros k record Hr; apply not_true_iff_false; intros Hev;
         assert ((eviction_priority (state record), k) ∈ e) by (apply Hel; by exists record); set_solver);
    destruct (proj1 (Hel p k) Hfe) as (record & Hr & Hev & ->); rewrite Hr.
  - exfalso. assert (r = ∅) as -> by (apply map_size_empty_inv; lia). by rewrite lookup_empty in Hr.
  - pose proof (protected_not_evictable _ _ _ _ _ Hg Hp Hr Hev) as Hk.
    destruct (evict_one r d e _ k record Hg Hel Hfe Hr) as (e' & d' & Hfold & Hg' & Hel'). rewrite Hfold.
    destruct (IH (mkEvict (delete k r) d' e' (res - artifact_record_bytes record) (sat_add64 n 1)))
      as (s' & Hs' & Hgs & Hevs & Hps & Hfin); cbn [ev_records ev_dependents ev_eligible ev_resident]; try done.
    { by apply protected_ok_delete. }
    { rewrite Hres, (unprotected_bytes_delete _ _ _ _ Hr Hk). lia. }
    { rewrite map_size_delete_Some by done. lia. }
    exists s'. split; [done|]. cbn [ev_records] in *. split; [done|]. split_and!; [by eapply evicts_to_step; eauto..| |done].
    intros x Hx. rewrite Hps by done. by rewrite lookup_delete_ne by (intros ->; done).
Qed.

(** *** The protected closure *)

Lemma known_keys_record r k record : r !! k = Some record -> k ∈ known_keys r.
Proof.
  intros Hr. apply elem_of_list_to_set, list_elem_of_bind. exists (k, record).
  split; [set_solver|by apply elem_of_map_to_list].
Qed.

Lemma known_keys_dep r k dep : dep ∈ dependencies_of r k -> dep ∈ known_keys r.
Proof.
  unfold dependencies_of. destruct (r !! k) as [record|] eqn:E; cbn; [|by intros ?%elem_of_nil].
  intros Hd. apply elem_of_list_to_set, list_elem_of_bind. exists (k, record).
  split; [by right|by apply elem_of_map_to_list].
Qed.

Lemma building_keys_spec r k : k ∈ building_keys r <-> exists record, r !! k = Some record /\ state record = Building.
Proof.
  unfold building_keys. rewrite list_elem_of_fmap. split.
  - intros ([k' record] & -> & [Hb Hin]%list_elem_of_filter). apply elem_of_map_to_list in Hin. by exists record.
  - intros (record & Hr & Hb). exists (k, record). split; [done|]. apply list_elem_of_filter.
    split; [done|]. by apply elem_of_map_to_list.
Qed.

Lemma depends_edge r k dep : edge (dependencies_of r) k dep <-> depends_on r k dep.
Proof.
  unfold edge, dependencies_of, depends_on. destruct (r !! k) as [record|]; cbn; [naive_solver|].
  split; [by intros ?%elem_of_nil|by intros (? & ? & _)].
Qed.

(** The protected keys are those being built and all they depend on. *)
Lemma protected_artifacts_spec r :
  exists protected, protected_artifacts r = Some protected /\
    forall k, k ∈ protected <-> reachable (dependencies_of r) (building_keys r) k.
Proof. apply (walk_push_spec (dependencies_of r) (known_keys r)). intros k dep. apply known_keys_dep. Qed.

Lemma protected_artifacts_ok r protected : protected_artifacts r = Some protected -> protected_ok protected r.
Proof.
  intros Hp. destruct (protected_artifacts_spec r) as (p' & Hp' & Hin). rewrite Hp in Hp'. injection Hp' as <-.
  intros k Hk. apply Hin in Hk as (x & Hx & Hr). apply rtc_inv_r in Hr as [->|(y & Hxy & Hyk)].
  - left. by apply building_keys_spec.
  - right. exists y. split; [apply Hin; by exists x|]. by apply depends_edge.
Qed.

(** The protected set is the same once unprotected records are gone. *)
Lemma protected_artifacts_stable r r' protected :
  protected_artifacts r = Some protected -> r' ⊆ r ->
  (forall k, k ∈ protected -> r' !! k = r !! k) -> protected_artifacts r' = Some protected.
Proof.
  intros Hp Hsub Hsame.
  destruct (protected_artifacts_spec r) as (p1 & Hp1 & Hin). rewrite Hp in Hp1. injection Hp1 as <-.
  destruct (protected_artifacts_spec r') as (p2 & -> & Hin2). f_equal. apply set_eq. intros k.
  rewrite Hin2. split.
  - intros (x & Hx & Hr). apply Hin. exists x. split.
    + apply building_keys_spec in Hx as (record & Hrx & Hb). apply building_keys_spec. exists record.
      split; [by eapply lookup_weaken|done].
    + eapply rtc_subrel; [|exact Hr]. intros a b Hab. apply depends_edge. apply depends_edge in Hab as (rec & Ha & Hd).
      exists rec. split; [by eapply lookup_weaken|done].
  - intros Hk. apply Hin in Hk as (x & Hx & Hr). exists x. split.
    + assert (x ∈ protected) as Hxp by (apply Hin; exists x; done).
      apply building_keys_spec in Hx as (record & Hrx & Hb). apply building_keys_spec. exists record.
      by rewrite Hsame.
    + assert (x ∈ protected) as Hxp by (apply Hin; exists x; done). clear Hx.
      induction Hr as [|x y z Hxy Hyz IH]; [done|]. eapply rtc_l.
      * apply depends_edge. apply depends_edge in Hxy as (rec & Ha & Hd). exists rec. by rewrite Hsame.
      * apply IH. apply Hin. apply Hin in Hxp. by eapply reachable_edge.
Qed.

Lemma evict_to_bytes_spec target g :
  inner_ok (inner g) -> enabled g = true ->
  exists n g' b, evict_to_bytes target g = Some (n, g') /\ inner_ok (inner g') /\
    evicts_to (records (inner g)) (records (inner g')) /\
    evictable_bytes g' = Some b /\
    ((b <= target)%N \/ nothing_evictable (records (inner g')) (dependents (inner g'))) /\
    (forall protected k, protected_artifacts (records (inner g)) = Some protected -> k ∈ protected ->
       records (inner g') !! k = records (inner g) !! k).
Proof.
  intros Hok Hen. unfold evict_to_bytes, evictable_bytes. rewrite Hen. cbn [negb].
  destruct (protected_artifacts_spec (records (inner g))) as (protected & Hp & _). rewrite Hp.
  cbn [mbind option_bind].
  destruct (evict_loop_spec protected (size (records (inner g))) target
    (mkEvict (records (inner g)) (dependents (inner g)) (eligible_records (records (inner g)) (dependents (inner g)))
             (unprotected_bytes protected (records (inner g))) 0))
    as (s' & -> & Hg & Hev & Hpr & Hfin); cbn [ev_records ev_dependents ev_eligible ev_resident] in *; try done.
  { apply eligible_records_ok. } { by apply protected_artifacts_ok. }
  cbn [mbind option_bind]. eexists _, _, (unprotected_bytes protected (ev_records s')).
  split; [done|]. cbn. split_and!; try apply Hg; try apply Hev; try done.
  - rewrite (protected_artifacts_stable (records (inner g)) (ev_records s') protected); [done|done|apply Hev|done].
  - intros p k [= <-]. apply Hpr.
Qed.

Lemma evict_ok target g :
  inner_ok (inner g) -> exists n g', evict_to_bytes target g = Some (n, g') /\ inner_ok (inner g').
Proof.
  intros Hok. destruct (enabled g) eqn:E.
  - destruct (evict_to_bytes_spec target g Hok E) as (n & g' & b & -> & Hg & _). by exists n, g'.
  - exists 0%N, g. split; [|done]. unfold evict_to_bytes. by rewrite E.
Qed.

(** *** Any interleaving *)

Lemma finish_ok i f st :
  inner_ok (inner st.1) -> (forall t, st.2 !! i = Some t -> inner_ok (inner (f t))) ->
  inner_ok (inner (finish i f st).1).
Proof. intros Hok Hf. unfold finish. destruct (st.2 !! i) eqn:E; [by apply Hf|done]. Qed.

Lemma run_ok o st : inner_ok (inner st.1) -> exists st', run o st = Some st' /\ inner_ok (inner st'.1).
Proof.
  destruct st as [g ts]. intros Hok. destruct o; cbn [run].
  - eexists. split; [done|]. by apply publish_lookup_ok.
  - pose proof (begin_ok key deps g Hok). destruct (begin key deps g) as [[t|e] g']; by eexists.
  - eexists. split; [done|]. apply finish_ok; [done|]. intros t _. unfold task_complete. by apply complete_ok.
  - eexists. split; [done|]. apply finish_ok; [done|]. intros t _. unfold task_fail. by apply fail_ok.
  - eexists. split; [done|]. apply finish_ok; [done|]. intros t _. unfold task_drop.
    destruct (finished t); [done|by apply cancel_ok].
  - destruct (invalidate_ok key why g Hok) as (ks & g' & -> & Hg). by eexists.
  - destruct (evict_ok target g Hok) as (n & g' & -> & Hg). by eexists.
  - eexists. split; [done|]. apply empty_inner_ok.
Qed.

Lemma run_all_ok os st : inner_ok (inner st.1) -> exists st', run_all os st = Some st' /\ inner_ok (inner st'.1).
Proof.
  revert st. induction os as [|o os IH]; intros st Hok; [by exists st|].
  destruct (run_ok o st Hok) as (st1 & H1 & Hok1). cbn [run_all]. rewrite H1. by apply IH.
Qed.

(** *** Keys *)

#[export] Instance key_cmp_order : CmpOrder key_cmp.
Proof. unfold key_cmp. apply _. Qed.

#[export] Instance input_cmp_order : CmpOrder input_cmp.
Proof. unfold input_cmp. apply _. Qed.

#[export] Instance input_cmp_eq : CmpEq input_cmp.
Proof.
  intros [a b] [a' b']. unfold input_cmp, lex_cmp, by_key, then_cmp. cbn.
  destruct (String.compare a a') eqn:E1; [|done|done]. intros E2.
  f_equal; by apply (cmp_eq_eq String.compare).
Qed.

Lemma le_bytes_length n v : String.length (le_bytes n v) = n.
Proof. revert v. induction n as [|n IH]; intros v; [done|]. cbn. by rewrite IH. Qed.

Lemma le_bytes_inj n v w :
  (v < 256 ^ N.of_nat n)%N -> (w < 256 ^ N.of_nat n)%N -> le_bytes n v = le_bytes n w -> v = w.
Proof.
  revert v w. induction n as [|n IH]; intros v w Hv Hw; [cbn in *; lia|].
  rewrite Nat2N.inj_succ, N.pow_succ_r' in Hv, Hw. cbn [le_bytes]. intros [= Ha Hl].
  apply (f_equal N_of_ascii) in Ha.
  rewrite !N_ascii_embedding in Ha by (apply N.mod_lt; lia).
  apply IH in Hl; [|apply N.Div0.div_lt_upper_bound; lia..].
  rewrite (N.div_mod' v 256), (N.div_mod' w 256). congruence.
Qed.

(** A framed value and what follows it can be told apart. *)
Lemma hash_part_inj a b x y :
  (str_len a <= u64_max)%N -> (str_len b <= u64_max)%N ->
  hash_part a +:+ x = hash_part b +:+ y -> a = b /\ x = y.
Proof.
  intros Ha Hb. unfold hash_part. rewrite !sapp_assoc. intros H.
  apply sapp_inj in H as [Hlen H]; [|by rewrite !le_bytes_length].
  apply le_bytes_inj in Hlen; [|unfold u64_max in *; cbn; lia..].
  apply sapp_inj in H; [done|]. unfold str_len in Hlen. lia.
Qed.

Lemma join_empty_cons s l : join "" (s :: l) = s +:+ join "" l.
Proof. destruct l; cbn; [by rewrite sapp_nil_r|done]. Qed.

Lemma inputs_inj l l' :
  Forall short_input l -> Forall short_input l' ->
  join "" (input_bytes <$> l) = join "" (input_bytes <$> l') -> l = l'.
Proof.
  intros Hl. revert l'. induction Hl as [|[n v] l [Hn Hv] Hl IH]; intros l' Hl'.
  - destruct Hl' as [|[n v] l' _ _]; [done|]. rewrite fmap_cons, join_empty_cons. done.
  - destruct Hl' as [|[n' v'] l' [Hn' Hv'] Hl']; [rewrite fmap_cons, join_empty_cons; done|].
    rewrite !fmap_cons, !join_empty_cons. unfold input_bytes at 1 3. cbn [fst snd] in *.
    rewrite !sapp_assoc. intros H.
    apply hash_part_inj in H as [-> H]; [|done..]. apply hash_part_inj in H as [-> H]; [|done..].
    f_equal. by apply IH.
Qed.

Lemma kind_as_str_inj k k' : kind_as_str k = kind_as_str k' -> k = k'.
Proof. by destruct k, k'. Qed.

Lemma kind_as_str_len k : (str_len (kind_as_str k) <= u64_max)%N.
Proof. by destruct k. Qed.

(** *** Staleness *)

Lemma newer_update key n i k old new :
  newer key n i -> records i !! k = Some old -> (generation old <= generation new)%N ->
  (generation old <= u64_max -> generation new <= u64_max)%N ->
  newer key n (with_records (<[k := new]> (records i)) i).
Proof.
  intros (record & Hr & Hn) Ho Hg Hm. unfold newer. cbn. destruct (decide (key = k)) as [->|Hne].
  - rewrite lookup_insert_eq. exists new. split; [done|]. rewrite Hr in Ho. injection Ho as ->. lia.
  - rewrite lookup_insert_ne by done. by exists record.
Qed.

Ltac newer_step :=
  cbn; match goal with
       | Hn : newer _ _ _, H : records _ !! _ = Some ?r |- _ =>
           apply (newer_update _ _ _ _ r _ Hn H); cbn; lia
       end.

Lemma newer_begin key n k deps g : newer key n (inner g) -> newer key n (inner (begin k deps g).2).
Proof.
  intros Hn. unfold begin. destruct (ensure_namespace k g); [done|]. destruct (negb (enabled g)); [done|].
  cbv zeta. assert (newer key n (start_build k deps (inner g))) as Hs.
  { destruct Hn as (record & Hr & Hn). unfold newer. cbn. destruct (decide (key = k)) as [->|Hne].
    - rewrite lookup_insert_eq. eexists. split; [done|]. cbn. rewrite Hr. cbn. unfold sat_add64. lia.
    - rewrite lookup_insert_ne by done. by exists record. }
  destruct (records (inner g) !! k) as [r|] eqn:E; [|done]. destruct (joinable r); [|done].
  case_bool_decide; [|done]. newer_step.
Qed.

Lemma newer_complete key n k gen hash g :
  newer key n (inner g) -> newer key n (inner (complete k gen hash g).2).
Proof.
  intros Hn. unfold complete. destruct (negb (enabled g)); [done|].
  destruct (records (inner g) !! k) as [r|] eqn:E; [|done]. destruct (_ || _); [done|].
  destruct (_ && _); newer_step.
Qed.

Lemma newer_fail key n k gen why g : newer key n (inner g) -> newer key n (inner (fail k gen why g)).
Proof.
  intros Hn. unfold fail. destruct (negb (enabled g)); [done|].
  destruct (records (inner g) !! k) as [r|] eqn:E; [|done]. destruct (_ =? _)%N; [|done]. newer_step.
Qed.

Lemma newer_cancel key n k gen g : newer key n (inner g) -> newer key n (inner (cancel k gen g)).
Proof.
  intros Hn. unfold cancel. destruct (negb (enabled g)); [done|].
  destruct (records (inner g) !! k) as [r|] eqn:E; [|done]. destruct (_ =? _)%N; [|done].
  destruct (_ && _); newer_step.
Qed.

Lemma newer_lookup key n k deps hash g :
  newer key n (inner g) -> newer key n (inner (publish_lookup k deps hash g).2).
Proof.
  intros Hn. unfold publish_lookup. destruct (records (inner g) !! k) as [r|] eqn:E; [|done].
  destruct (negb _); [done|]. case_bool_decide; [|done]. case_bool_decide; newer_step.
Qed.

Lemma newer_invalidate key n k why g :
  inner_ok (inner g) -> newer key n (inner g) ->
  exists ks g', invalidate k why g = Some (ks, g') /\ newer key n (inner g') /\ enabled g' = enabled g.
Proof.
  intros Hok (record & Hr & Hn). destruct (enabled g) eqn:E.
  - destruct (invalidate_spec k why g Hok E) as (s & r' & -> & _ & Hr'). eexists _, _. split; [done|].
    split; [|done]. unfold newer. cbn. rewrite Hr', Hr. cbn. eexists. split; [done|].
    destruct (decide (key ∈ s)); [cbn; unfold sat_add64; lia|done].
  - exists [], g. split; [|split; [by exists record|done]]. unfold invalidate. by rewrite E.
Qed.

Lemma complete_frame key gen hash g :
  enabled (complete key gen hash g).2 = enabled g.
Proof.
  unfold complete. destruct (negb (enabled g)); [done|]. destruct (records (inner g) !! key); [|done].
  destruct (_ || _); [done|]. by destruct (_ && _).
Qed.

Lemma run_newer key n o st st' :
  inner_ok (inner st.1) -> newer key n (inner st.1) -> forgets o = false -> run o st = Some st' ->
  newer key n (inner st'.1) /\ enabled st'.1 = enabled st.1.
Proof.
  destruct st as [g ts]. cbn [fst]. intros Hok Hn Hf. destruct o; cbn [run]; try done.
  - intros [= <-]. cbn. split; [by apply newer_lookup|]. unfold publish_lookup.
    destruct (records (inner g) !! key0); [|done]. destruct (negb _); [done|].
    case_bool_decide; [|done]. by case_bool_decide.
  - pose proof (newer_begin key n key0 deps g Hn) as Hb.
    assert (enabled (begin key0 deps g).2 = enabled g) as He.
    { unfold begin. destruct (ensure_namespace key0 g); [done|]. destruct (negb (enabled g)); [done|].
      destruct (records (inner g) !! key0); [|done]. destruct (joinable _); [|done]. by case_bool_decide. }
    destruct (begin key0 deps g) as [[t|e] g']; intros [= <-]; by split.
  - intros [= <-]. unfold finish. cbn. destruct (ts !! i); [|by split]. cbn [fst].
    unfold task_complete. split; [by apply newer_complete|apply complete_frame].
  - intros [= <-]. unfold finish. cbn. destruct (ts !! i); [|by split]. cbn [fst]. unfold task_fail. split; [by apply newer_fail|].
    unfold fail. destruct (negb (enabled g)); [done|].
    destruct (records (inner g) !! task_key a); [|done]. by destruct (_ =? _)%N.
  - intros [= <-]. unfold finish. cbn. destruct (ts !! i) as [t|]; [|by split]. cbn. unfold task_drop.
    destruct (finished t); [done|]. split; [by apply newer_cancel|]. unfold cancel.
    destruct (negb (enabled g)); [done|]. destruct (records (inner g) !! task_key t); [|done].
    by destruct (_ =? _)%N.
  - destruct (newer_invalidate key n key0 why g Hok Hn) as (ks & g' & -> & Hg & He). cbn. by intros [= <-].
Qed.

Lemma run_all_newer key n os st st' :
  inner_ok (inner st.1) -> newer key n (inner st.1) -> Forall (fun o => forgets o = false) os ->
  run_all os st = Some st' -> newer key n (inner st'.1) /\ enabled st'.1 = enabled st.1.
Proof.
  intros Hok Hn Hos. revert st Hok Hn. induction Hos as [|o os Ho Hos IH]; intros st Hok Hn; cbn [run_all].
  { by intros [= <-]. }
  destruct (run_ok o st Hok) as (st1 & H1 & Hok1). rewrite H1. cbn [mbind option_bind]. intros H2.
  destruct (run_newer key n o st st1 Hok Hn Ho H1) as [Hn1 He1].
  destruct (IH st1 Hok1 Hn1 H2) as [Hn2 He2]. split; [done|congruence].
Qed.

Lemma complete_newer key n hash g :
  enabled g = true -> newer key n (inner g) -> complete key n hash g = (inr (StaleCompletion (identity key)), g).
Proof.
  intros He (record & Hr & Hn). unfold complete. rewrite He, Hr. cbn [negb].
  assert ((generation record =? n)%N = false) as -> by (apply N.eqb_neq; lia). done.
Qed.

(** *** Persistence *)

Lemma saved_record_fields r :
  rec_key (saved_record r) = rec_key r /\ dependencies (saved_record r) = dependencies r /\
  active_builders (saved_record r) = 0%N /\ state (saved_record r) ≠ Building.
Proof. unfold saved_record. cbn. case_bool_decide; by split_and!. Qed.

Lemma revived_saved r : revived_record (saved_record r) = saved_record r.
Proof.
  destruct (saved_record_fields r) as (_ & _ & Ha & Hs). unfold revived_record.
  rewrite bool_decide_false by done. unfold set_builders. rewrite <- Ha. by destruct (saved_record r).
Qed.

Lemma insert_unique_spec l r :
  NoDup (rec_key <$> l) -> (forall x, x ∈ l -> r !! rec_key x = None) ->
  exists r', insert_unique l r = Some r' /\
    forall k x, r' !! k = Some x <-> (x ∈ l /\ rec_key x = k) \/ r !! k = Some x.
Proof.
  revert r. induction l as [|y l IH]; intros r Hn Hd; cbn [insert_unique].
  { exists r. split; [done|]. set_solver. }
  rewrite fmap_cons in Hn. apply NoDup_cons in Hn as [Hy Hn]. rewrite Hd by set_solver.
  destruct (IH (<[rec_key y := y]> r) Hn) as (r' & -> & Hr').
  { intros x Hx. rewrite lookup_insert_ne; [apply Hd; set_solver|]. intros Heq. apply Hy.
    apply list_elem_of_fmap. by exists x. }
  exists r'. split; [done|]. intros k x. rewrite Hr', lookup_insert_Some, elem_of_cons.
  assert (rec_key y = k -> r !! k = None) by (intros <-; apply Hd; set_solver).
  split; [naive_solver|]. intros [[[->|Hx] Hk]|Hk]; [naive_solver..|].
  destruct (decide (rec_key y = k)) as [E|E]; [specialize (H E); congruence|]. naive_solver.
Qed.

Lemma retained_keys_spec i :
  exists retained, retained_keys i = Some retained /\
    forall k, (k ∈ retained) <-> exists k0 record, records i !! k0 = Some record /\
      retained_directly i (k0, record) = true /\
      rtc (fun a b => depends_on (records i) a b /\ is_Some (records i !! b)) k0 k.
Proof.
  unfold retained_keys.
  destruct (walk_push_spec (recorded_dependencies (records i)) (dom (records i))
    (fst <$> filter (fun kr => retained_directly i kr = true) (map_to_list (records i)))) as (s & -> & Hs).
  { intros x y Hxy. unfold edge, recorded_dependencies in Hxy. apply list_elem_of_filter in Hxy as [Hy _].
    by apply elem_of_dom. }
  exists s. split; [done|]. intros k. rewrite Hs. unfold reachable.
  assert (forall a b, edge (recorded_dependencies (records i)) a b <->
    depends_on (records i) a b /\ is_Some (records i !! b)) as Hedge.
  { intros a b. unfold edge, recorded_dependencies. rewrite list_elem_of_filter.
    change (b ∈ dependencies_of (records i) a) with (edge (dependencies_of (records i)) a b).
    rewrite depends_edge. tauto. }
  split.
  - intros (x & Hx & Hr). apply list_elem_of_fmap in Hx as ([k0 record] & -> & [Hd Hin]%list_elem_of_filter).
    apply elem_of_map_to_list in Hin. exists k0, record. split_and!; [done..|].
    eapply rtc_subrel; [|exact Hr]. intros a b. apply Hedge.
  - intros (k0 & record & Hr & Hd & Hrtc). exists k0. split.
    + apply list_elem_of_fmap. exists (k0, record). split; [done|]. apply list_elem_of_filter.
      split; [done|]. by apply elem_of_map_to_list.
    + eapply rtc_subrel; [|exact Hrtc]. intros a b. apply Hedge.
Qed.

Lemma saved_records_spec i retained :
  inner_ok i ->
  NoDup (rec_key <$> saved_records i retained) /\
  (forall x, (x ∈ saved_records i retained) <->
     exists k record, records i !! k = Some record /\ k ∈ retained /\ x = saved_record record).
Proof.
  intros (Hk & _ & _). unfold saved_records.
  set (l := sort_by (by_key fst key_cmp) (filter (fun kr => kr.1 ∈ retained) (map_to_list (records i)))).
  assert (l ≡ₚ filter (fun kr => kr.1 ∈ retained) (map_to_list (records i))) as Hp by apply sort_by_perm.
  assert (forall k record, (k, record) ∈ l <-> k ∈ retained /\ records i !! k = Some record) as Hin.
  { intros k record. rewrite Hp, list_elem_of_filter, elem_of_map_to_list. done. }
  split.
  - assert (rec_key <$> (saved_record <$> (snd <$> l)) = fst <$> l) as ->.
    { rewrite <- !list_fmap_compose. apply list_fmap_ext. intros j [k record] Hj.
      apply list_elem_of_lookup_2, Hin in Hj as [_ Hr]. cbn.
      rewrite (proj1 (saved_record_fields record)). by apply Hk. }
    apply NoDup_fmap_fst.
    + intros k r1 r2 [_ H1]%Hin [_ H2]%Hin. congruence.
    + rewrite Hp. apply NoDup_filter, NoDup_map_to_list.
  - intros x. rewrite list_elem_of_fmap. split.
    + intros (record & -> & Hr). apply list_elem_of_fmap in Hr as ([k record'] & -> & [H1 H2]%Hin).
      by exists k, record'.
    + intros (k & record & Hr & Hret & ->). exists record. split; [done|].
      apply list_elem_of_fmap. exists (k, record). split; [done|]. by apply Hin.
Qed.

Lemma reload_spec version to_vec from_slice g file :
  codec_ok to_vec from_slice -> inner_ok (inner g) -> enabled g = true ->
  save version to_vec g = Some (Some file) ->
  exists retained r, retained_keys (inner g) = Some retained /\
    load_manifest version from_slice (Some file) (namespace g) = Some (r, epoch (inner g)) /\
    forall k x, r !! k = Some x <->
      exists record, records (inner g) !! k = Some record /\ k ∈ retained /\ x = saved_record record.
Proof.
  intros Hcodec Hok Hen. unfold save. rewrite Hen. cbn [negb].
  destruct (retained_keys_spec (inner g)) as (retained & -> & _). cbn [mbind option_bind]. intros [= Hfile].
  exists retained. destruct (saved_records_spec (inner g) retained Hok) as [Hnd Hin].
  destruct (insert_unique_spec (saved_records (inner g) retained) ∅ Hnd) as (r & Hr & Hspec).
  { intros x _. apply lookup_empty. }
  exists r. split; [done|]. split.
  - unfold load_manifest. cbn. rewrite (Hcodec _ _ Hfile).
    + cbn. rewrite !bool_decide_true by done. cbn. by rewrite Hr.
    + cbn. apply Forall_forall. intros x (k & record & _ & _ & ->)%Hin.
      apply saved_record_fields.
  - intros k x. rewrite Hspec, Hin. destruct Hok as (Hkey & _). split.
    + intros [[(k' & record & Hr' & Hret & ->) Hk]|Hk]; [|by rewrite lookup_empty in Hk].
      rewrite (proj1 (saved_record_fields record)), (Hkey _ _ Hr') in Hk. subst. by exists record.
    + intros (record & Hr' & Hret & ->). left. split; [by exists k, record|].
      rewrite (proj1 (saved_record_fields record)). by apply Hkey.
Qed.

Lemma insert_unique_keys l r r' :
  (forall k x, r !! k = Some x -> rec_key x = k) -> insert_unique l r = Some r' ->
  forall k x, r' !! k = Some x -> rec_key x = k.
Proof.
  revert r. induction l as [|y l IH]; intros r Hr; cbn [insert_unique]; [by intros [= <-]|].
  destruct (r !! rec_key y); [done|]. apply IH. intros k x [[<- <-]|[_ H]]%lookup_insert_Some; [done|by apply Hr].
Qed.

Lemma at_dir_ok version from_slice file ns enable :
  inner_ok (inner (at_dir version from_slice file ns enable)).
Proof.
  unfold at_dir. destruct (default _ _) as [r e] eqn:E. apply (rebuild_graph_ok (revived_record <$> r)).
  intros key record Hr. rewrite lookup_fmap in Hr. destruct (r !! key) as [x|] eqn:Ex; [|done].
  injection Hr as <-. assert (rec_key x = key) as <-; [|unfold revived_record; by case_bool_decide].
  destruct enable; cbn in E; [|injection E as <- _; by rewrite lookup_empty in Ex].
  unfold load_manifest in E. destruct (file ≫= from_slice) as [m|]; cbn in E;
    [|injection E as <- _; by rewrite lookup_empty in Ex].
  destruct (_ && _); cbn in E; [|injection E as <- _; by rewrite lookup_empty in Ex].
  destruct (insert_unique (man_records m) ∅) as [r'|] eqn:Ei; cbn in E;
    injection E as <- _; [|by rewrite lookup_empty in Ex].
  eapply insert_unique_keys; [|exact Ei|exact Ex]. intros k y. by rewrite lookup_empty.
Qed.

(** ** Properties *)

(** C3: the graph stays consistent under any interleaving of its callers.
    Starting from whatever a manifest file loads to, whatever lookups, begins,
    completions, failures, drops, invalidations, evictions and clears run in
    whatever order, every operation returns, every record is stored under its
    own key, and [dependents] is exactly the reverse of the dependency sets of
    the records, with no empty set left behind. *)
Theorem task_graph_invariant : forall version from_slice file ns enable os,
  exists g ts, run_all os (at_dir version from_slice file ns enable, []) = Some (g, ts) /\
    (forall key record, records (inner g) !! key = Some record -> rec_key record = key) /\
    (forall dep key, has_edge (dependents (inner g)) dep key <-> depends_on (records (inner g)) key dep) /\
    (forall dep s, dependents (inner g) !! dep = Some s -> s ≠ ∅).
Proof.
  intros version from_slice file ns enable os.
  destruct (run_all_ok os (at_dir version from_slice file ns enable, []) (at_dir_ok _ _ _ _ _))
    as ([g ts] & Hrun & Hok). by exists g, ts.
Qed.

(** C4: [invalidate] cancels an artifact and exactly its transitive
    dependents.  On a consistent graph it always returns; it answers, in key
    order and without repetition, the keys reached from the given one by going
    from dependency to dependent; each record among them is cancelled with the
    reason given, without content or builders and in a new generation; every
    other record is as it was. *)
Theorem invalidate_exactly_transitive_dependents : forall key why g,
  inner_ok (inner g) -> enabled g = true ->
  exists keys g', invalidate key why g = Some (keys, g') /\
    NoDup keys /\ StronglySorted (cmp_le (cmp := key_cmp)) keys /\
    (forall x, x ∈ keys <-> affected (records (inner g)) key x) /\
    (forall x, x ∈ keys -> records (inner g') !! x = cancel_record why <$> records (inner g) !! x) /\
    (forall x, x ∉ keys -> records (inner g') !! x = records (inner g) !! x).
Proof.
  intros key why g Hok Hen. destruct (invalidate_spec key why g Hok Hen) as (s & r' & -> & Hs & Hr').
  eexists _, _. split; [done|].
  pose proof (sort_by_perm (cmp := key_cmp) (elements s)) as Hp.
  assert (forall x, x ∈ sort_by key_cmp (elements s) <-> x ∈ s) as Hin.
  { intros x. by rewrite Hp, elem_of_elements. }
  split_and!.
  - rewrite Hp. apply NoDup_elements.
  - apply sort_by_sorted.
  - intros x. by rewrite Hin, Hs.
  - intros x Hx%Hin. cbn. rewrite Hr'. destruct (records (inner g) !! x); [|done]. cbn. by rewrite decide_True.
  - intros x Hx. rewrite Hin in Hx. cbn. rewrite Hr'.
    destruct (records (inner g) !! x); [|done]. cbn. by rewrite decide_False.
Qed.

Lemma invalidate_witness :
  exists keys g', invalidate (mkKey Source "n" "s") "edit"
    (mkGraph "n" (start_build (mkKey Source "n" "s") ∅ empty_inner) true) = Some (keys, g') /\ NoDup keys.
Proof.
  destruct (invalidate_exactly_transitive_dependents (mkKey Source "n" "s") "edit"
    (mkGraph "n" (start_build (mkKey Source "n" "s") ∅ empty_inner) true)) as (keys & g' & H & Hn & _).
  - apply start_build_ok, empty_inner_ok.
  - reflexivity.
  - exists keys, g'. split; [exact H|exact Hn].
Defined.

(** Eviction under memory pressure is safe and makes all the progress it
    may.  On a consistent graph it ends; it only removes records, only idle
    ones, and none that a remaining record depends on; what is being built and
    all it depends on is untouched; and afterwards either the reclaimable bytes
    fit the target or no record at all may be evicted, so the incrementally
    repaired candidate set misses nothing a full rescan would find. *)
Theorem eviction_safe_and_complete : forall target g,
  inner_ok (inner g) -> enabled g = true ->
  exists n g' bytes, evict_to_bytes target g = Some (n, g') /\ inner_ok (inner g') /\
    evicts_to (records (inner g)) (records (inner g')) /\
    (forall protected k, protected_artifacts (records (inner g)) = Some protected -> k ∈ protected ->
       records (inner g') !! k = records (inner g) !! k) /\
    evictable_bytes g' = Some bytes /\
    ((bytes <= target)%N \/ nothing_evictable (records (inner g')) (dependents (inner g'))).
Proof.
  intros target g Hok Hen.
  destruct (evict_to_bytes_spec target g Hok Hen) as (n & g' & b & H1 & H2 & H3 & H4 & H5 & H6).
  by exists n, g', b.
Qed.

Lemma eviction_witness :
  exists n g' bytes, evict_to_bytes 0 (mkGraph "n" (start_build (mkKey Emit "n" "e") ∅ empty_inner) true)
    = Some (n, g') /\ evictable_bytes g' = Some bytes.
Proof.
  destruct (eviction_safe_and_complete 0
    (mkGraph "n" (start_build (mkKey Emit "n" "e") ∅ empty_inner) true))
    as (n & g' & b & H1 & _ & _ & _ & H5 & _).
  - apply start_build_ok, empty_inner_ok.
  - reflexivity.
  - exists n, g', b. split; [exact H1|exact H5].
Defined.

(** Work started before an invalidation is never accepted after it, as
    long as nothing is evicted or cleared in between.  The token of an
    invalidated record's build is refused as stale, and the refusal changes
    nothing, whatever other operations (a new build of the same key included)
    ran since. *)
Theorem stale_completion_refused : forall g ts key0 why os g' ts' t record hash,
  inner_ok (inner g) -> enabled g = true ->
  records (inner g) !! task_key t = Some record ->
  (task_generation t <= generation record < u64_max)%N ->
  affected (records (inner g)) key0 (task_key t) ->
  Forall (fun o => forgets o = false) os ->
  run_all (OInvalidate key0 why :: os) (g, ts) = Some (g', ts') ->
  task_complete t hash g' = (inr (StaleCompletion (identity (task_key t))), g').
Proof.
  intros g ts key0 why os g' ts' t record hash Hok Hen Hr Hgen Haff Hos Hrun.
  destruct (invalidate_spec key0 why g Hok Hen) as (s & r' & Hinv & Hs & Hr').
  cbn [run_all run] in Hrun. rewrite Hinv in Hrun. cbn [mbind option_bind] in Hrun.
  destruct (invalidate_ok key0 why g Hok) as (ks & g1 & H1 & Hok1). rewrite Hinv in H1. injection H1 as <- <-.
  eapply (run_all_newer (task_key t) (task_generation t)) in Hrun as [Hn He]; [|exact Hok1| |exact Hos].
  - unfold task_complete. cbn [fst] in *. apply complete_newer; [|exact Hn]. rewrite He. exact Hen.
  - unfold newer. cbn. rewrite Hr', Hr. cbn. rewrite decide_True by by apply Hs.
    eexists. split; [done|]. cbn. unfold sat_add64. lia.
Qed.

Lemma stale_completion_witness :
  let k := mkKey Transform "n" "x" in
  let g := mkGraph "n" (start_build k ∅ empty_inner) true in
  exists g' ts', run_all [OInvalidate k "edit"; OBegin k ∅] (g, []) = Some (g', ts') /\
    task_complete (mkTask k 1 false) "old" g' = (inr (StaleCompletion "x"), g').
Proof.
  intros k g.
  destruct (run_all_ok [OInvalidate k "edit"; OBegin k ∅] (g, [])) as ([g' ts'] & Hrun & _).
  { apply start_build_ok, empty_inner_ok. }
  exists g', ts'. split; [exact Hrun|].
  apply (stale_completion_refused g [] k "edit" [OBegin k ∅] g' ts' (mkTask k 1 false)
    (started_record k ∅ empty_inner)).
  - apply start_build_ok, empty_inner_ok.
  - reflexivity.
  - apply start_build_lookup.
  - split; [vm_compute; discriminate|vm_compute; reflexivity].
  - apply rtc_refl.
  - repeat constructor.
  - exact Hrun.
Defined.

(** With an eviction in between, work started before an invalidation is
    accepted after it.  Eviction forgets the generation of the record it
    removes, so the next build of the key starts again at generation 1 and the
    old token matches it: its output, computed before the invalidation, is
    recorded as the ready content of the new build that is still running. *)
Theorem stale_completion_accepted_after_eviction :
  let k := mkKey Transform "n" "x" in
  let g := at_dir "1" (fun _ => None) None "n" true in
  exists t t' g2 ts2 g3,
    run_all [OBegin k ∅] (g, []) = Some (mkGraph "n" (start_build k ∅ (inner g)) true, [t]) /\
    run_all [OBegin k ∅; OInvalidate k "source changed"; OEvict 0; OBegin k ∅] (g, []) = Some (g2, t' :: ts2) /\
    t ∈ ts2 /\ task_complete t "output of the old source" g2 = (inl tt, g3) /\
    from_option (fun r => (state r, content_hash r, active_builders r)) (Building, None, 0%N)
      (records (inner g3) !! k) = (Ready, Some "output of the old source", 0%N).
Proof.
  intros k g. eexists (mkTask k 1 false), (mkTask k 1 false), _, [mkTask k 1 false], _.
  split; [vm_compute; reflexivity|]. split; [vm_compute; reflexivity|]. split; [set_solver|].
  split; [vm_compute; reflexivity|vm_compute; reflexivity].
Qed.

(** A builder whose completion is refused is never released.  Two callers
    join one build; the first fails; the second's completion is refused as
    stale.  No token is left, yet the failed record still counts an active
    builder, so no eviction can ever reclaim it and every later save keeps it. *)
Theorem refused_builder_pins_record :
  let k := mkKey Transform "n" "x" in
  let g := at_dir "1" (fun _ => None) None "n" true in
  exists g2 n g3,
    run_all [OBegin k ∅; OBegin k ∅; OFail 0 "broken"; OComplete 0 "out"] (g, []) = Some (g2, []) /\
    evict_to_bytes 0 g2 = Some (n, g3) /\
    from_option (fun r => (state r, active_builders r)) (Building, 0%N) (records (inner g3) !! k) = (Failed, 1%N).
Proof.
  intros k g. eexists _, _, _.
  split; [vm_compute; reflexivity|]. split; [vm_compute; reflexivity|vm_compute; reflexivity].
Qed.

(** What a build saves is what the next one loads.  When a consistent
    graph is saved and the file read back, the next graph is consistent, one
    epoch later, and holds exactly the retained records, each as it was except
    that a build in flight has become a cancelled one; a record is retained
    exactly when it was touched within the last three epochs or is held by
    something, or when a retained record depends on it: no edge is left
    dangling. *)
Theorem saved_graph_reloads : forall version to_vec from_slice g file,
  codec_ok to_vec from_slice -> inner_ok (inner g) -> enabled g = true ->
  save version to_vec g = Some (Some file) ->
  let g' := at_dir version from_slice (Some file) (namespace g) true in
  exists retained : gset ArtifactKey,
    inner_ok (inner g') /\ epoch (inner g') = sat_add64 (epoch (inner g)) 1 /\
    (forall k, records (inner g') !! k =
       if decide (k ∈ retained) then saved_record <$> records (inner g) !! k else None) /\
    (forall k record, records (inner g) !! k = Some record ->
       (epoch (inner g) - last_touched_epoch record < RETENTION_EPOCHS)%N \/
       is_evictable record (dependents (inner g)) k = false -> k ∈ retained) /\
    (forall k dep, k ∈ retained -> depends_on (records (inner g)) k dep ->
       is_Some (records (inner g) !! dep) -> dep ∈ retained).
Proof.
  intros version to_vec from_slice g file Hcodec Hok Hen Hsave g'.
  destruct (reload_spec version to_vec from_slice g file Hcodec Hok Hen Hsave) as (retained & r & Hret & Hload & Hr).
  destruct (retained_keys_spec (inner g)) as (retained' & Hret' & Hspec).
  rewrite Hret in Hret'. injection Hret' as <-.
  exists retained. split; [apply at_dir_ok|]. unfold g', at_dir. rewrite Hload. cbn.
  split; [done|]. split_and!.
  - intros k. rewrite lookup_fmap. destruct (r !! k) as [x|] eqn:E.
    + apply Hr in E as (record & -> & Hk & ->). rewrite decide_True by done. cbn. by rewrite revived_saved.
    + destruct (decide (k ∈ retained)); [|done]. destruct (records (inner g) !! k) as [record|] eqn:Ek; [|done].
      assert (r !! k = Some (saved_record record)); [apply Hr; by exists record|congruence].
  - intros k record Hk Hd. apply Hspec. exists k, record. split; [done|]. split; [|done].
    unfold retained_directly. cbn [fst snd]. apply orb_true_iff.
    destruct Hd as [Hd|Hd]; [left; by apply N.ltb_lt|right; by rewrite Hd].
  - intros k dep Hk Hd Hs. apply Hspec. apply Hspec in Hk as (k0 & record & H1 & H2 & H3).
    exists k0, record. split_and!; [done..|]. by eapply rtc_r.
Qed.

Lemma saved_graph_reloads_witness :
  let g := mkGraph "n" empty_inner true in
  let m := mkManifest "ruvyxa_artifact_graph:1" "n" 0 [] in
  epoch (inner (at_dir "1" (fun _ => Some m) (Some "file") "n" true)) = 1%N.
Proof.
  intros g m.
  destruct (saved_graph_reloads "1"
    (fun x => match man_records x with
              | [] => if bool_decide (man_epoch x = 0%N) && bool_decide (man_identity x = "ruvyxa_artifact_graph:1")
                         && bool_decide (man_namespace x = "n") then Some "file" else None
              | _ => None end)
    (fun _ => Some m) g "file") as (retained & _ & H & _).
  - intros [i ns e [|r l]] bytes; cbn; [|discriminate].
    case_bool_decide as H1; [|discriminate]. case_bool_decide as H2; [|discriminate].
    case_bool_decide as H3; [|discriminate]. intros _ _. unfold m. by rewrite H1, H2, H3.
  - apply empty_inner_ok.
  - reflexivity.
  - vm_compute. reflexivity.
  - exact H.
Defined.

(** A key stands for its semantic inputs.  The key of a computation does
    not depend on the order its inputs are given in, and the bytes hashed for
    it determine the kind, the namespace and the inputs (up to that order), so
    two different computations only share a key if the hash collides. *)
Theorem artifact_key_input_complete : forall k ns inputs k' ns' inputs',
  (forall blake3_hex, inputs ≡ₚ inputs' ->
     from_inputs blake3_hex k ns inputs = from_inputs blake3_hex k ns inputs') /\
  ((str_len ns <= u64_max)%N -> (str_len ns' <= u64_max)%N ->
   Forall short_input inputs -> Forall short_input inputs' ->
   hashed_bytes k ns inputs = hashed_bytes k' ns' inputs' -> k = k' /\ ns = ns' /\ inputs ≡ₚ inputs').
Proof.
  intros k ns inputs k' ns' inputs'. split.
  - intros blake3_hex Hp. unfold from_inputs, hashed_bytes. by rewrite (sort_by_unique input_cmp _ _ Hp).
  - intros Hns Hns' Hi Hi' H. unfold hashed_bytes in H.
    apply hash_part_inj in H as [Hk H]; [|apply kind_as_str_len..]. apply kind_as_str_inj in Hk as ->.
    apply hash_part_inj in H as [-> H]; [|done..]. split; [done|]. split; [done|].
    rewrite <- (sort_by_perm (cmp := input_cmp) inputs), <- (sort_by_perm (cmp := input_cmp) inputs').
    assert (sort_by input_cmp inputs = sort_by input_cmp inputs') as ->; [|done].
    apply inputs_inj; [by rewrite sort_by_perm..|done].
Qed.
