(* ===== verification/Hmr.v ===== *)
(** The update tracker of the dev server
    (crates/ruvyxa_dev_server/src/hmr_tracker.rs): which source files each
    route was built from, per build lane, the reverse map from files to routes,
    and which routes a set of changed files affects.

    The state is guarded by one lock; [register_versioned_graph] checks the
    version under a read lock and again under the write lock, which is one
    definition here because the second check decides alone.  The file system
    enters as [canonicalize], given to each operation, since it may answer
    differently from one call to the next. *)
From S2P Require Import Prelude Order RustStr Paths Manifest.

(** ** Definitions *)

(** [extension_is] *)
Definition extension_is (p : Path) (expected : string) : bool :=
  match file_name p ≫= extension with
  | Some ext => eq_ignore_case ext expected
  | None => false
  end.

(** [is_layout_file] *)
Definition is_layout_file (p : Path) : bool :=
  match file_name p with Some name => starts_with "layout." name | None => false end.

(** *** State *)

Inductive DependencyGraph := LaneManifest | LaneServer | LaneClient | LaneAction.

#[export] Instance lane_eq_dec : EqDecision DependencyGraph.
Proof. solve_decision. Defined.
Definition lane_index (g : DependencyGraph) : nat :=
  match g with LaneManifest => 0 | LaneServer => 1 | LaneClient => 2 | LaneAction => 3 end.
Definition lane_of_index (n : nat) : DependencyGraph :=
  match n with 0 => LaneManifest | 1 => LaneServer | 2 => LaneClient | _ => LaneAction end.
#[export] Instance lane_countable : Countable DependencyGraph.
Proof. refine (inj_countable' lane_index lane_of_index _). by intros []. Defined.

Abbreviation Graphs := (gmap string (gmap DependencyGraph (gset Path))).
Abbreviation ReverseMap := (gmap Path (gset string)).

Record HmrState := mkHmr {
  file_to_routes : ReverseMap;
  route_graphs : Graphs;
  graph_versions : gmap string (gmap DependencyGraph string);
}.

(** [HmrTracker::new] and [HmrTracker::clear] *)
Definition empty_hmr : HmrState := mkHmr ∅ ∅ ∅.

(** [HmrState::graph_version] *)
Definition graph_version (route : string) (g : DependencyGraph) (s : HmrState) : option string :=
  graph_versions s !! route ≫= fun versions => versions !! g.

(** [HmrState::set_graph_version] *)
Definition set_graph_version (route : string) (g : DependencyGraph) (version : string) (s : HmrState) : HmrState :=
  mkHmr (file_to_routes s) (route_graphs s)
    (<[route := <[g := version]> (default ∅ (graph_versions s !! route))]> (graph_versions s)).

(** [HmrState::remove_graph_version] *)
Definition remove_graph_version (route : string) (g : DependencyGraph) (s : HmrState) : HmrState :=
  match graph_versions s !! route with
  | Some versions =>
      let versions := delete g versions in
      mkHmr (file_to_routes s) (route_graphs s)
        (if bool_decide (versions = ∅) then delete route (graph_versions s)
         else <[route := versions]> (graph_versions s))
  | None => s
  end.

(** [HmrState::route_files] *)
Definition route_files (route : string) (s : HmrState) : gset Path :=
  union_list (snd <$> map_to_list (default ∅ (route_graphs s !! route))).

Definition unlink_file (route : string) (m : ReverseMap) (file : Path) : ReverseMap :=
  match m !! file with
  | Some routes =>
      if bool_decide (routes ∖ {[route]} = ∅) then delete file m else <[file := routes ∖ {[route]}]> m
  | None => m
  end.

Definition link_file (route : string) (m : ReverseMap) (file : Path) : ReverseMap :=
  <[file := {[route]} ∪ default ∅ (m !! file)]> m.

(** [HmrState::update_reverse_map] *)
Definition update_reverse_map (route : string) (old_files new_files : gset Path) (m : ReverseMap) : ReverseMap :=
  foldl (link_file route) (foldl (unlink_file route) m (elements (old_files ∖ new_files)))
    (elements (new_files ∖ old_files)).

(** [HmrState::replace_graph] *)
Definition replace_graph (route : string) (g : DependencyGraph) (files : gset Path) (s : HmrState) : HmrState :=
  let s' := mkHmr (file_to_routes s)
              (<[route := <[g := files]> (default ∅ (route_graphs s !! route))]> (route_graphs s))
              (graph_versions s) in
  mkHmr (update_reverse_map route (route_files route s) (route_files route s') (file_to_routes s))
    (route_graphs s') (graph_versions s').

(** [HmrState::remove_route] *)
Definition remove_route (route : string) (s : HmrState) : HmrState :=
  mkHmr (update_reverse_map route (route_files route s) ∅ (file_to_routes s))
    (delete route (route_graphs s)) (delete route (graph_versions s)).

(** [HmrTracker::tracked_route_count] *)
Definition tracked_route_count (s : HmrState) : nat := size (route_graphs s).

(** *** Operations *)

Section file_system.
(** [Path::canonicalize] *)
Context (canonicalize : Path -> option Path).

(** [normalize_source_path], outside Windows *)
Definition normalize_source_path (p : Path) : Path := default p (canonicalize p).

Definition normalized (files : list Path) : gset Path := list_to_set (normalize_source_path <$> files).

(** [register_graph], and with it [register_route] and [register_client_route] *)
Definition register_graph (route : string) (g : DependencyGraph) (files : list Path) (s : HmrState) : HmrState :=
  remove_graph_version route g (replace_graph route g (normalized files) s).

(** [register_versioned_graph], and its three callers *)
Definition register_versioned_graph (route : string) (g : DependencyGraph) (version : string)
    (files : list Path) (s : HmrState) : HmrState :=
  if bool_decide (graph_version route g s = Some version) then s
  else set_graph_version route g version (replace_graph route g (normalized files) s).

(** The files a manifest entry names. *)
Definition manifest_files (r : RouteEntry) : gset Path :=
  normalized (path_new <$> route_file r :: layout_chain r ++ server_modules r ++ client_modules r).

(** [populate_from_manifest] *)
Definition populate_from_manifest (rs : list RouteEntry) (s : HmrState) : HmrState :=
  let removed := filter (fun route => route ∉ route_path <$> rs) (elements (dom (route_graphs s))) in
  let s := foldl (fun s route => remove_route route s) s removed in
  foldl (fun s r => replace_graph (route_path r) LaneManifest (manifest_files r) s) s rs.

Inductive HmrEventType := CssUpdate | ComponentUpdate | FullReload.

Record HmrUpdate := mkUpdate {
  affected_routes : list string;
  full_reload : bool;
  changed_files : list Path;
  event_type : HmrEventType;
}.

(** The routes [compute_update] collects for one changed path. *)
Definition routes_of_path (m : ReverseMap) (p : Path) : gset string :=
  union_list ((fun a => default ∅ (m !! a)) <$> ancestors (normalize_source_path p)).

(** [compute_update] *)
Definition compute_update (changed : list Path) (s : HmrState) : HmrUpdate :=
  match changed with
  | [] => mkUpdate [] true [] FullReload
  | _ =>
      let all_css := forallb (fun p => extension_is p "css" || extension_is p "scss" || extension_is p "sass") changed in
      let has_layout_change := existsb is_layout_file changed in
      let event := if all_css then CssUpdate else if has_layout_change then FullReload else ComponentUpdate in
      let affected := union_list (routes_of_path (file_to_routes s) <$> changed) in
      mkUpdate (sort_by String.compare (elements affected))
        (has_layout_change ||
         (bool_decide (affected = ∅) && negb all_css && negb (bool_decide (file_to_routes s = ∅))))
        changed event
  end.
End file_system.

(** [HmrEventType::as_str] *)
Definition event_as_str (e : HmrEventType) : string :=
  match e with CssUpdate => "css-update" | ComponentUpdate => "component-update" | FullReload => "full-reload" end.

(** *** Sequences of operations *)

Inductive op :=
  | OPopulate (canonicalize : Path -> option Path) (rs : list RouteEntry)
  | ORegister (canonicalize : Path -> option Path) (route : string) (g : DependencyGraph) (files : list Path)
  | OVersioned (canonicalize : Path -> option Path) (route : string) (g : DependencyGraph) (version : string)
      (files : list Path)
  | OClear.

Definition run (o : op) (s : HmrState) : HmrState :=
  match o with
  | OPopulate c rs => populate_from_manifest c rs s
  | ORegister c route g files => register_graph c route g files s
  | OVersioned c route g version files => register_versioned_graph c route g version files s
  | OClear => empty_hmr
  end.

(** [route] was built from [file] in some lane. *)
Definition built_from (graphs : Graphs) (route : string) (file : Path) : Prop :=
  exists lanes g files, graphs !! route = Some lanes /\ lanes !! g = Some files /\ file ∈ files.

Definition listed (m : ReverseMap) (file : Path) (route : string) : Prop :=
  exists routes, m !! file = Some routes /\ route ∈ routes.

Definition no_empty (m : ReverseMap) : Prop := forall file routes, m !! file = Some routes -> routes ≠ ∅.

(** The files recorded for one lane of one route. *)
Definition lane_files (graphs : Graphs) (route : string) (g : DependencyGraph) : option (gset Path) :=
  graphs !! route ≫= fun lanes => lanes !! g.

(** The reverse map is exactly the inverse of the lanes, without empty sets. *)
Definition hmr_ok (s : HmrState) : Prop :=
  (forall file route, listed (file_to_routes s) file route <-> built_from (route_graphs s) route file) /\
  no_empty (file_to_routes s).

(** ** Lemmas *)

Lemma unlink_file_spec route m file f r :
  listed (unlink_file route m file) f r <-> listed m f r /\ (f = file -> r ≠ route).
Proof.
  unfold unlink_file, listed. destruct (m !! file) as [s|] eqn:E.
  - case_bool_decide as Hs.
    + destruct (decide (f = file)) as [->|Hne].
      * rewrite lookup_delete_eq. split; [by intros (? & ? & _)|]. intros [(s' & Hs' & Hk) Hr].
        simplify_eq. exfalso. specialize (Hr eq_refl). set_solver.
      * rewrite lookup_delete_ne by done. naive_solver.
    + destruct (decide (f = file)) as [->|Hne].
      * rewrite lookup_insert_eq, E. split.
        -- intros (s' & [= <-] & Hk). split; [exists s; set_solver|set_solver].
        -- intros [(s' & [= <-] & Hk) Hr]. eexists. split; [done|]. specialize (Hr eq_refl). set_solver.
      * rewrite lookup_insert_ne by done. naive_solver.
  - split; [|by intros [? _]]. intros H. split; [done|]. intros ->. destruct H as (s & Hs & _). congruence.
Qed.

Lemma link_file_spec route m file f r :
  listed (link_file route m file) f r <-> listed m f r \/ (f = file /\ r = route).
Proof.
  unfold link_file, listed. destruct (decide (f = file)) as [->|Hne].
  - rewrite lookup_insert_eq. destruct (m !! file) as [s|]; cbn.
    + split; [intros (s' & [= <-] & Hk)|].
      * apply elem_of_union in Hk as [->%elem_of_singleton|Hk]; [by right|]. left. by exists s.
      * intros [(s' & [= <-] & Hk)|[_ ->]]; eexists; (split; [done|]); set_solver.
    + split; [intros (s' & [= <-] & Hk); right; set_solver|].
      intros [(s' & ? & _)|[_ ->]]; [done|]. eexists. split; [done|]. set_solver.
  - rewrite lookup_insert_ne by done. naive_solver.
Qed.

Lemma unlink_file_no_empty route m file : no_empty m -> no_empty (unlink_file route m file).
Proof.
  intros Hn f routes. unfold unlink_file. destruct (m !! file); [|by apply Hn].
  case_bool_decide; [intros [_ ?]%lookup_delete_Some; by eapply Hn|].
  intros [[_ <-]|[_ ?]]%lookup_insert_Some; [done|by eapply Hn].
Qed.

Lemma link_file_no_empty route m file : no_empty m -> no_empty (link_file route m file).
Proof.
  intros Hn f routes. unfold link_file. intros [[_ <-]|[_ ?]]%lookup_insert_Some; [set_solver|by eapply Hn].
Qed.

Lemma fold_unlink_spec route l m f r :
  listed (foldl (unlink_file route) m l) f r <-> listed m f r /\ (f ∈ l -> r ≠ route).
Proof.
  revert m. induction l as [|x l IH]; intros m; cbn [foldl]; [set_solver|].
  rewrite IH, unlink_file_spec. set_solver.
Qed.

Lemma fold_link_spec route l m f r :
  listed (foldl (link_file route) m l) f r <-> listed m f r \/ (f ∈ l /\ r = route).
Proof.
  revert m. induction l as [|x l IH]; intros m; cbn [foldl]; [set_solver|].
  rewrite IH, link_file_spec. set_solver.
Qed.

Lemma fold_no_empty (step : ReverseMap -> Path -> ReverseMap) l m :
  (forall m f, no_empty m -> no_empty (step m f)) -> no_empty m -> no_empty (foldl step m l).
Proof. intros Hs. revert m. induction l as [|x l IH]; intros m H; [done|]. by apply IH, Hs. Qed.

(** The reverse map after a route's files went from [old] to [new]. *)
Lemma update_reverse_map_spec route old new m f r :
  (forall file, listed m file route <-> file ∈ old) ->
  listed (update_reverse_map route old new m) f r <->
  (if decide (r = route) then f ∈ new else listed m f r).
Proof.
  intros Hold. unfold update_reverse_map. rewrite fold_link_spec, fold_unlink_spec.
  rewrite !elem_of_elements, !elem_of_difference.
  destruct (decide (r = route)) as [->|Hne]; [|naive_solver].
  rewrite Hold. destruct (decide (f ∈ old)), (decide (f ∈ new)); naive_solver.
Qed.

Lemma update_reverse_map_no_empty route old new m :
  no_empty m -> no_empty (update_reverse_map route old new m).
Proof.
  intros Hn. apply fold_no_empty; [intros; by apply link_file_no_empty|].
  apply fold_no_empty; [intros; by apply unlink_file_no_empty|done].
Qed.

Lemma route_files_spec route s file : file ∈ route_files route s <-> built_from (route_graphs s) route file.
Proof.
  unfold route_files, built_from. rewrite elem_of_union_list. split.
  - intros (files & Hin & Hf). apply list_elem_of_fmap in Hin as ([g files'] & -> & Hin).
    apply elem_of_map_to_list in Hin. destruct (route_graphs s !! route) as [lanes|]; cbn in Hin.
    + by exists lanes, g, files'.
    + by rewrite lookup_empty in Hin.
  - intros (lanes & g & files & Hl & Hg & Hf). exists files. split; [|done]. rewrite Hl. cbn.
    apply list_elem_of_fmap. exists (g, files). split; [done|]. by apply elem_of_map_to_list.
Qed.

Lemma replace_graph_ok route g files s : hmr_ok s -> hmr_ok (replace_graph route g files s).
Proof.
  intros [He Hn]. split; [|by apply update_reverse_map_no_empty].
  intros f r. unfold replace_graph. cbn [file_to_routes route_graphs]. rewrite update_reverse_map_spec.
  2:{ intros file. by rewrite route_files_spec. }
  destruct (decide (r = route)) as [->|Hne]; [by rewrite route_files_spec|].
  rewrite He. unfold built_from. by rewrite lookup_insert_ne.
Qed.

Lemma remove_route_ok route s : hmr_ok s -> hmr_ok (remove_route route s).
Proof.
  intros [He Hn]. split; [|by apply update_reverse_map_no_empty].
  intros f r. unfold remove_route. cbn [file_to_routes route_graphs]. rewrite update_reverse_map_spec.
  2:{ intros file. by rewrite route_files_spec. }
  unfold built_from. destruct (decide (r = route)) as [->|Hne].
  - rewrite lookup_delete_eq. split; [set_solver|by intros (? & ? & ? & ? & _)].
  - rewrite lookup_delete_ne by done. apply He.
Qed.

Lemma remove_graph_version_frame route g s :
  file_to_routes (remove_graph_version route g s) = file_to_routes s /\
  route_graphs (remove_graph_version route g s) = route_graphs s.
Proof. unfold remove_graph_version. by destruct (graph_versions s !! route). Qed.

Lemma hmr_ok_frame s s' :
  file_to_routes s' = file_to_routes s -> route_graphs s' = route_graphs s -> hmr_ok s -> hmr_ok s'.
Proof. unfold hmr_ok. by intros -> ->. Qed.

Lemma fold_ok {A} (f : HmrState -> A -> HmrState) l s :
  (forall s x, hmr_ok s -> hmr_ok (f s x)) -> hmr_ok s -> hmr_ok (foldl f s l).
Proof. intros Hf. revert s. induction l as [|x l IH]; intros s H; [done|]. by apply IH, Hf. Qed.

Lemma empty_hmr_ok : hmr_ok empty_hmr.
Proof.
  split.
  - intros file route. split; [intros (s & Hs & _)|intros (l & g & files & Hl & _)]; cbn in *;
      by rewrite lookup_empty in *.
  - intros file routes. cbn. by rewrite lookup_empty.
Qed.

Lemma run_hmr_ok o s : hmr_ok s -> hmr_ok (run o s).
Proof.
  intros H. destruct o; cbn [run].
  - unfold populate_from_manifest. apply fold_ok; [intros; by apply replace_graph_ok|].
    apply fold_ok; [intros; by apply remove_route_ok|done].
  - destruct (remove_graph_version_frame route g (replace_graph route g (normalized canonicalize files) s)) as [H1 H2].
    eapply hmr_ok_frame; [exact H1|exact H2|]. by apply replace_graph_ok.
  - unfold register_versioned_graph. case_bool_decide; [done|].
    eapply hmr_ok_frame; [reflexivity|reflexivity|]. by apply replace_graph_ok.
  - apply empty_hmr_ok.
Qed.

Lemma run_all_hmr_ok os s : hmr_ok s -> hmr_ok (foldl (fun s o => run o s) s os).
Proof. revert s. induction os as [|o os IH]; intros s H; [done|]. by apply IH, run_hmr_ok. Qed.

(** *** Lanes *)

Lemma lane_files_replace route g files s route' g' :
  lane_files (route_graphs (replace_graph route g files s)) route' g' =
  if decide (route' = route /\ g' = g) then Some files else lane_files (route_graphs s) route' g'.
Proof.
  unfold lane_files, replace_graph. cbn [route_graphs].
  destruct (decide (route' = route)) as [->|Hr].
  - rewrite lookup_insert_eq. cbn. destruct (decide (g' = g)) as [->|Hg].
    + rewrite lookup_insert_eq. by rewrite decide_True.
    + rewrite lookup_insert_ne by done. rewrite decide_False by naive_solver.
      destruct (route_graphs s !! route); [done|]. cbn. by rewrite lookup_empty.
  - rewrite lookup_insert_ne by done. by rewrite decide_False by naive_solver.
Qed.

Lemma lane_files_remove route s route' g' :
  lane_files (route_graphs (remove_route route s)) route' g' =
  if decide (route' = route) then None else lane_files (route_graphs s) route' g'.
Proof.
  unfold lane_files, remove_route. cbn [route_graphs]. destruct (decide (route' = route)) as [->|Hr].
  - by rewrite lookup_delete_eq.
  - by rewrite lookup_delete_ne.
Qed.

Lemma lane_files_remove_all l s route g :
  lane_files (route_graphs (foldl (fun s route => remove_route route s) s l)) route g =
  if decide (route ∈ l) then None else lane_files (route_graphs s) route g.
Proof.
  revert s. induction l as [|x l IH]; intros s; cbn [foldl]; [by rewrite decide_False by set_solver|].
  rewrite IH, lane_files_remove.
  destruct (decide (route ∈ l)), (decide (route = x)), (decide (route ∈ x :: l)); set_solver.
Qed.

(** Later entries of one path win, so what remains is the last entry's files. *)
Lemma lane_files_populate c l s route g :
  lane_files (route_graphs (foldl (fun s r => replace_graph (route_path r) LaneManifest (manifest_files c r) s) s l)) route g =
  match last (filter (fun r => route_path r = route) l) with
  | Some r => if decide (g = LaneManifest) then Some (manifest_files c r) else lane_files (route_graphs s) route g
  | None => lane_files (route_graphs s) route g
  end.
Proof.
  induction l as [|r l IH] using rev_ind; [done|].
  rewrite foldl_snoc, lane_files_replace, filter_app. destruct (decide (route_path r = route)) as [Hr|Hr].
  - rewrite (filter_cons_True _ r []) by done. rewrite filter_nil, last_snoc.
    destruct (decide (g = LaneManifest)) as [->|Hg]; [by rewrite decide_True|].
    rewrite decide_False by naive_solver. rewrite IH.
    destruct (last _); [by rewrite ?decide_False by done|done].
  - rewrite (filter_cons_False _ r []) by done. rewrite filter_nil, app_nil_r.
    rewrite decide_False by naive_solver. apply IH.
Qed.

Lemma last_filter_None (route : string) (rs : list RouteEntry) :
  last (filter (fun r => route_path r = route) rs) = None <-> route ∉ route_path <$> rs.
Proof.
  rewrite last_None, filter_nil_iff, list_elem_of_fmap. naive_solver.
Qed.

(** ** Properties *)

(** The two directions of the tracker never drift apart.  After any
    sequence of manifest refreshes, plain and versioned registrations and
    clears, whatever the file system answered meanwhile, a route is listed
    under a file exactly when that file is in one of the route's lanes, and no
    file is left with an empty set of routes. *)
Theorem hmr_reverse_map_exact : forall os,
  let s := foldl (fun s o => run o s) empty_hmr os in
  (forall file route, listed (file_to_routes s) file route <-> built_from (route_graphs s) route file) /\
  (forall file routes, file_to_routes s !! file = Some routes -> routes ≠ ∅).
Proof. intros os. exact (run_all_hmr_ok os empty_hmr empty_hmr_ok). Qed.

(** [compute_update] names exactly the routes that were built from a
    changed file or from a directory above one, each once and in order; and an
    update that names no route forces a full reload unless only style sheets
    changed or nothing is tracked, so no edit is silently dropped. *)
Theorem compute_update_exact : forall canonicalize changed s,
  hmr_ok s -> changed ≠ [] ->
  let u := compute_update canonicalize changed s in
  NoDup (affected_routes u) /\
  StronglySorted (cmp_le (cmp := String.compare)) (affected_routes u) /\
  (forall route, route ∈ affected_routes u <->
     exists p a, p ∈ changed /\ a ∈ ancestors (normalize_source_path canonicalize p) /\
       built_from (route_graphs s) route a) /\
  (affected_routes u = [] -> event_type u ≠ CssUpdate -> file_to_routes s ≠ ∅ -> full_reload u = true).
Proof.
  intros canonicalize changed s [He Hn] Hc u. unfold u, compute_update.
  destruct changed as [|p0 ps]; [done|]. set (changed := p0 :: ps) in *.
  cbn [affected_routes full_reload event_type].
  set (affected := union_list (routes_of_path canonicalize (file_to_routes s) <$> changed)).
  pose proof (sort_by_perm (cmp := String.compare) (elements affected)) as Hp.
  split_and!.
  - rewrite Hp. apply NoDup_elements.
  - apply sort_by_sorted.
  - intros route. rewrite Hp, elem_of_elements. unfold affected. rewrite elem_of_union_list. split.
    + intros (rs & Hin & Hr). apply list_elem_of_fmap in Hin as (p & -> & Hp'). unfold routes_of_path in Hr.
      apply elem_of_union_list in Hr as (rs & Hin & Hr). apply list_elem_of_fmap in Hin as (a & -> & Ha).
      exists p, a. split_and!; [done..|]. apply He. unfold listed.
      destruct (file_to_routes s !! a) as [rs|]; cbn in Hr; [by exists rs|set_solver].
    + intros (p & a & Hp' & Ha & Hb). apply He in Hb as (rs & Hrs & Hr).
      exists (routes_of_path canonicalize (file_to_routes s) p). split; [apply list_elem_of_fmap; by exists p|].
      unfold routes_of_path. apply elem_of_union_list. exists rs. split; [|done].
      apply list_elem_of_fmap. exists a. by rewrite Hrs.
  - intros Hempty Hev Hne. rewrite Hempty in Hp. apply Permutation_nil_l in Hp.
    symmetry in Hp. apply elements_empty_inv, leibniz_equiv in Hp. rewrite (bool_decide_true (affected = ∅)) by done.
    rewrite (bool_decide_false (file_to_routes s = ∅)) by done.
    destruct (forallb _ _); [done|]. by destruct (existsb _ _).
Qed.

Lemma compute_update_witness :
  let page := path_new "/p/app/page.tsx" in
  let s := register_graph (fun _ => None) "/" LaneServer [page] empty_hmr in
  affected_routes (compute_update (fun _ => None) [page] s) = ["/"] /\
  NoDup (affected_routes (compute_update (fun _ => None) [page] s)).
Proof.
  intros page s. split; [vm_compute; reflexivity|].
  apply (compute_update_exact (fun _ => None) [page] s); [|discriminate].
  exact (run_hmr_ok (ORegister (fun _ => None) "/" LaneServer [page]) empty_hmr empty_hmr_ok).
Defined.

(** Build lanes do not overwrite each other.  Registering one lane of one
    route sets exactly that lane; a manifest refresh sets the manifest lane of
    the routes it lists (the last entry of a path wins), keeps their other
    lanes, and forgets every route it no longer lists. *)
Theorem lanes_are_independent : forall canonicalize route g files rs s route' g',
  lane_files (route_graphs (register_graph canonicalize route g files s)) route' g' =
    (if decide (route' = route /\ g' = g) then Some (normalized canonicalize files)
     else lane_files (route_graphs s) route' g') /\
  lane_files (route_graphs (populate_from_manifest canonicalize rs s)) route' g' =
    match last (filter (fun r => route_path r = route') rs) with
    | Some r => if decide (g' = LaneManifest) then Some (manifest_files canonicalize r)
                else lane_files (route_graphs s) route' g'
    | None => None
    end.
Proof.
  intros canonicalize route g files rs s route' g'. split.
  - unfold register_graph.
    destruct (remove_graph_version_frame route g (replace_graph route g (normalized canonicalize files) s)) as [_ ->].
    apply lane_files_replace.
  - unfold populate_from_manifest. rewrite lane_files_populate, lane_files_remove_all.
    destruct (last _) as [r|] eqn:E.
    + rewrite (decide_False (P := route' ∈ _)); [done|]. intros [Hn _]%list_elem_of_filter.
      apply last_filter_None in Hn. congruence.
    + destruct (decide (route' ∈ _)) as [|Hn]; [done|]. rewrite list_elem_of_filter, elem_of_elements in Hn.
      apply last_filter_None in E. unfold lane_files. destruct (route_graphs s !! route') eqn:Er; [|done].
      exfalso. apply Hn. split; [done|]. apply elem_of_dom. by rewrite Er.
Qed.
