(* ===== verification/Collab.v ===== *)
(** Collaboration rooms (crates/ruvyxa_dev_server/src/collab.rs): presence and
    shared state of process-local rooms, sequenced by the server, the limits
    that bound them, and the per-connection frame limiter.

    A frame is kept as the structure its JSON text encodes.  The broadcast
    channel of a room is the list of frames sent on it and a receiver is a
    position in that list; tokio's bounded buffer, which tells a slow receiver
    that it lagged, is not modelled.  Instants are nanoseconds. *)
From S2P Require Import Prelude RustStr Manifest.

(** ** Definitions *)

Definition MAX_ROOM_PEERS : nat := 64.
Definition MAX_STATE_KEYS : nat := 256.
Definition MAX_FRAME_BYTES : nat := 32 * 1024.
Definition MAX_KEY_BYTES : nat := 128.
Definition MAX_ENTRIES_PER_WRITE : nat := 32.
Definition MAX_ROOMS : nat := 1024.
Definition MAX_FRAMES_PER_SECOND : N := 120.

Record StateEntry := mkStateEntry { entry_value : Value; entry_version : N; entry_peer : string }.

(** The frames the server broadcasts. *)
Inductive Frame :=
  | FJoin (peer : string)
  | FPresence (peer : string) (state : Value)
  | FPatch (peer : string) (room_version : N) (patch : gmap string Value)
  | FLeave (peer : string).

Record Room := mkRoom {
  peers : gmap string Value;
  room_state : gmap string StateEntry;
  version : N;
  tx : list Frame;
}.

(** The welcome frame: the snapshot a peer joined on. *)
Record Welcome := mkWelcome {
  welcome_room : string;
  welcome_peer : string;
  welcome_peers : gmap string Value;
  welcome_state : gmap string StateEntry;
  welcome_version : N;
}.

(** [receiver] is the number of frames sent before the peer subscribed. *)
Record JoinedPeer := mkJoined { joined_peer : string; welcome : Welcome; receiver : nat }.

Record CollabRegistry := mkRegistry { rooms : gmap string Room; next_peer : N }.

(** [CollabRegistry::new] *)
Definition new_registry : CollabRegistry := mkRegistry ∅ 0.

Definition is_room_byte (a : ascii) : bool :=
  is_alnum a || existsb (Ascii.eqb a) [":"; "."; "_"; "/"; "-"]%char.

(** [valid_room_id] *)
Definition valid_room_id (room : string) : bool :=
  negb (is_empty_str room) && (String.length room <=? 128) && all_bytes is_room_byte room.

(** [text.trim().is_empty()]: only characters with the Unicode property
    White_Space, read from their UTF-8 bytes. *)
Fixpoint is_blank (s : string) : bool :=
  match s with
  | "" => true
  | String a r =>
      let n := nat_of_ascii a in
      if ((9 <=? n) && (n <=? 13)) || (n =? 32) then is_blank r
      else match r with
           | String b r' =>
               let m := nat_of_ascii b in
               if (n =? 194) && ((m =? 133) || (m =? 160)) then is_blank r'
               else match r' with
                    | String c r'' =>
                        let k := nat_of_ascii c in
                        if ((n =? 225) && (m =? 154) && (k =? 128)) ||
                           ((n =? 226) && (m =? 128) &&
                              (((128 <=? k) && (k <=? 138)) || (k =? 168) || (k =? 169) || (k =? 175))) ||
                           ((n =? 226) && (m =? 129) && (k =? 159)) ||
                           ((n =? 227) && (m =? 128) && (k =? 128))
                        then is_blank r'' else false
                    | "" => false
                    end
           | "" => false
           end
  end.

(** [valid_state_key] *)
Definition valid_state_key (key : string) : bool :=
  negb (is_blank key) && (String.length key <=? MAX_KEY_BYTES).

Definition peer_name (n : N) : string := "p" +:+ show_N n.

(** [AtomicU64::fetch_add] and [u64 += 1] in a release build. *)
Definition wrap_succ64 (n : N) : N := (n + 1) mod (u64_max + 1).

Definition empty_room : Room := mkRoom ∅ ∅ 0 [].

(** [room.tx.send(frame)] *)
Definition send (f : Frame) (r : Room) : Room := mkRoom (peers r) (room_state r) (version r) (tx r ++ [f]).
Definition with_peers (p : gmap string Value) (r : Room) : Room := mkRoom p (room_state r) (version r) (tx r).
Definition with_rooms (m : gmap string Room) (c : CollabRegistry) : CollabRegistry := mkRegistry m (next_peer c).

(** [join] *)
Definition join_room (room_id : string) (c : CollabRegistry) : (JoinedPeer + string) * CollabRegistry :=
  if negb (valid_room_id room_id) then
    (inr "Collaboration rooms use 1-128 letters, digits, colon, dot, underscore, slash, or dash", c)
  else if bool_decide (rooms c !! room_id = None) && (MAX_ROOMS <=? size (rooms c)) then
    (inr "Collaboration room limit reached for this server", c)
  else
    let room := default empty_room (rooms c !! room_id) in
    if MAX_ROOM_PEERS <=? size (peers room) then
      (inr "Collaboration room is full",
       with_rooms (if bool_decide (peers room = ∅) then delete room_id (rooms c)
                   else <[room_id := room]> (rooms c)) c)
    else
      let peer := peer_name (next_peer c) in
      let w := mkWelcome room_id peer (peers room) (room_state room) (version room) in
      let room' := send (FJoin peer) (with_peers (<[peer := VNull]> (peers room)) room) in
      (inl (mkJoined peer w (length (tx room))),
       mkRegistry (<[room_id := room']> (rooms c)) (wrap_succ64 (next_peer c))).

(** [update_presence] *)
Definition update_presence (room_id peer : string) (state : Value) (c : CollabRegistry) : CollabRegistry :=
  match rooms c !! room_id with
  | None => c
  | Some room =>
      if bool_decide (peers room !! peer = None) then c
      else with_rooms (<[room_id := send (FPresence peer state)
             (with_peers (<[peer := state]> (peers room)) room)]> (rooms c)) c
  end.

Definition is_null (v : Value) : bool := match v with VNull => true | _ => false end.

(** One key of a batch: [null] deletes, anything else writes. *)
Definition apply_entry (peer : string) (ver : N) (m : gmap string StateEntry) (kv : string * Value)
    : gmap string StateEntry :=
  if is_null kv.2 then delete kv.1 m else <[kv.1 := mkStateEntry kv.2 ver peer]> m.

Definition apply_entries (peer : string) (ver : N) (patch : gmap string Value) (m : gmap string StateEntry)
    : gmap string StateEntry :=
  foldl (apply_entry peer ver) m (map_to_list patch).

(** [write_state] *)
Definition write_state (room_id peer : string) (patch : gmap string Value) (c : CollabRegistry)
    : (unit + string) * CollabRegistry :=
  if bool_decide (patch = ∅) then (inl tt, c)
  else if MAX_ENTRIES_PER_WRITE <? size patch then (inr "Collaboration writes carry at most 32 keys", c)
  else if existsb (fun kv => negb (valid_state_key kv.1)) (map_to_list patch) then
    (inr "Collaboration state keys are 1-128 bytes and cannot be blank", c)
  else match rooms c !! room_id with
       | None => (inl tt, c)
       | Some room =>
           if bool_decide (peers room !! peer = None) then (inl tt, c)
           else
             let additions := length (filter (fun kv => is_null kv.2 = false /\ room_state room !! kv.1 = None)
                                        (map_to_list patch)) in
             if MAX_STATE_KEYS <? size (room_state room) + additions then
               (inr "Collaboration room holds at most 256 shared-state keys", c)
             else
               let ver := wrap_succ64 (version room) in
               let room' := mkRoom (peers room) (apply_entries peer ver patch (room_state room)) ver
                              (tx room ++ [FPatch peer ver patch]) in
               (inl tt, with_rooms (<[room_id := room']> (rooms c)) c)
       end.

(** [leave] *)
Definition leave (room_id peer : string) (c : CollabRegistry) : CollabRegistry :=
  match rooms c !! room_id with
  | None => c
  | Some room =>
      if bool_decide (peers room !! peer = None) then c
      else
        let room' := send (FLeave peer) (with_peers (delete peer (peers room)) room) in
        with_rooms (if bool_decide (peers room' = ∅) then delete room_id (rooms c)
                    else <[room_id := room']> (rooms c)) c
  end.

(** *** Inbound frames *)

Inductive ParsedFrame := Presence (state : Value) | SetEntries (patch : gmap string Value).

Section codec.
(** [serde_json::from_str::<RawClientFrame>]: the version and the body. *)
Context (from_str : string -> option (N * ParsedFrame)).

(** [parse_client_frame] *)
Definition parse_client_frame (payload : string) : ParsedFrame + string :=
  if MAX_FRAME_BYTES <? String.length payload then inr "Collaboration frames are limited to 32 KiB"
  else match from_str payload with
       | None => inr "Collaboration frame is not valid JSON"
       | Some (v, body) =>
           if negb (v =? 1)%N then inr "Collaboration frame version is not supported" else inl body
       end.
End codec.

(** *** The frame limiter *)

Record FrameRateLimiter := mkLimiter { window_start : N; count : N }.

Definition new_limiter (now : N) : FrameRateLimiter := mkLimiter now 0.

Definition one_second : N := 1000000000.

(** [u32 += 1] in a release build. *)
Definition wrap_succ32 (n : N) : N := (n + 1) mod (u32_max + 1).

(** [allow] *)
Definition allow (now : N) (l : FrameRateLimiter) : bool * FrameRateLimiter :=
  let l := if (one_second <=? now - window_start l)%N then mkLimiter now 0 else l in
  let l := mkLimiter (window_start l) (wrap_succ32 (count l)) in
  ((count l <=? MAX_FRAMES_PER_SECOND)%N, l).

Fixpoint allow_all (times : list N) (l : FrameRateLimiter) : list bool :=
  match times with
  | [] => []
  | t :: ts => let '(b, l) := allow t l in b :: allow_all ts l
  end.

(** How many of the answers are acceptances. *)
Definition accepted (l : list bool) : nat := length (filter (fun b => b = true) l).

(** *** Sequences of operations, and the view of a client *)

Inductive op :=
  | OJoin (room_id : string)
  | OPresence (room_id peer : string) (state : Value)
  | OWrite (room_id peer : string) (patch : gmap string Value)
  | OLeave (room_id peer : string).

Definition run (o : op) (c : CollabRegistry) : CollabRegistry :=
  match o with
  | OJoin room_id => (join_room room_id c).2
  | OPresence room_id peer state => update_presence room_id peer state c
  | OWrite room_id peer patch => (write_state room_id peer patch c).2
  | OLeave room_id peer => leave room_id peer c
  end.

Definition run_all (os : list op) (c : CollabRegistry) : CollabRegistry := foldl (fun c o => run o c) c os.

(** What a client holds: the peers, the shared state and the room version. *)
Definition view : Type := gmap string Value * gmap string StateEntry * N.

Definition view_of (r : Room) : view := (peers r, room_state r, version r).

Definition welcome_view (w : Welcome) : view := (welcome_peers w, welcome_state w, welcome_version w).

(** A client applying one broadcast frame. *)
Definition apply_frame (v : view) (f : Frame) : view :=
  let '(ps, st, ver) := v in
  match f with
  | FJoin peer => (<[peer := VNull]> ps, st, ver)
  | FPresence peer state => (<[peer := state]> ps, st, ver)
  | FPatch peer ver' patch => (ps, apply_entries peer ver' patch st, ver')
  | FLeave peer => (delete peer ps, st, ver)
  end.

(** A room's limits. *)
Definition room_ok (r : Room) : Prop :=
  peers r ≠ ∅ /\ size (peers r) <= MAX_ROOM_PEERS /\ size (room_state r) <= MAX_STATE_KEYS /\
  (forall k e, room_state r !! k = Some e -> valid_state_key k = true /\ is_null (entry_value e) = false).

Definition registry_ok (c : CollabRegistry) : Prop :=
  size (rooms c) <= MAX_ROOMS /\
  forall id r, rooms c !! id = Some r -> valid_room_id id = true /\ room_ok r.

(** [r'] continues [r]: what was broadcast since turns one view into the other. *)
Definition continues (r r' : Room) : Prop :=
  exists sent, tx r' = tx r ++ sent /\ foldl apply_frame (view_of r) sent = view_of r'.

(** ** Lemmas *)

(** *** Views *)

Lemma continues_refl r : continues r r.
Proof. exists []. by rewrite app_nil_r. Qed.

Lemma continues_trans r1 r2 r3 : continues r1 r2 -> continues r2 r3 -> continues r1 r3.
Proof.
  intros (s1 & H1 & V1) (s2 & H2 & V2). exists (s1 ++ s2).
  by rewrite H2, H1, app_assoc, foldl_app, V1.
Qed.

Lemma continues_one r r' f :
  tx r' = tx r ++ [f] -> apply_frame (view_of r) f = view_of r' -> continues r r'.
Proof. intros Ht Hv. by exists [f]. Qed.

(** One operation, seen from a room where [peer] keeps its seat. *)
Lemma run_continues id peer o c r :
  rooms c !! id = Some r -> is_Some (peers r !! peer) -> o ≠ OLeave id peer ->
  exists r', rooms (run o c) !! id = Some r' /\ is_Some (peers r' !! peer) /\ continues r r'.
Proof.
  intros Hr Hp Ho. assert (exists r', rooms c !! id = Some r' /\ is_Some (peers r' !! peer) /\ continues r r') as Hsame.
  { exists r. split_and!; [done..|apply continues_refl]. }
  destruct o as [room_id|room_id p state|room_id p patch|room_id p]; cbn [run].
  - unfold join_room. destruct (negb _); [done|]. destruct (_ && _); [done|].
    destruct (decide (room_id = id)) as [->|Hne].
    + rewrite Hr. cbn [default from_option]. destruct (_ <=? _); cbn.
      * rewrite bool_decide_false by (intros E; rewrite E in Hp; by rewrite lookup_empty in Hp; destruct Hp).
        rewrite lookup_insert_eq. exists r. split_and!; [done..|apply continues_refl].
      * rewrite lookup_insert_eq. eexists. split; [done|]. cbn. split.
        -- apply lookup_insert_is_Some'. by right.
        -- by eapply continues_one.
    + destruct (_ <=? _); cbn; [|by rewrite lookup_insert_ne].
      case_bool_decide; [by rewrite lookup_delete_ne|by rewrite lookup_insert_ne].
  - unfold update_presence. destruct (rooms c !! room_id) as [room|] eqn:E; [|done].
    destruct (bool_decide _); [done|]. cbn. destruct (decide (room_id = id)) as [->|Hne].
    + rewrite Hr in E. injection E as <-. rewrite lookup_insert_eq. eexists. split; [done|]. cbn. split.
      * apply lookup_insert_is_Some'. by right.
      * by eapply continues_one.
    + by rewrite lookup_insert_ne.
  - unfold write_state. destruct (bool_decide (patch = ∅)); [done|]. destruct (_ <? size patch); [done|].
    destruct (existsb _ _); [done|]. destruct (rooms c !! room_id) as [room|] eqn:E; [|done].
    destruct (bool_decide _); [done|]. destruct (_ <? _); [done|]. cbn.
    destruct (decide (room_id = id)) as [->|Hne].
    + rewrite Hr in E. injection E as <-. rewrite lookup_insert_eq. eexists. split; [done|]. cbn.
      split; [done|]. by eapply continues_one.
    + by rewrite lookup_insert_ne.
  - unfold leave. destruct (rooms c !! room_id) as [room|] eqn:E; [|done].
    destruct (bool_decide _); [done|]. cbn. destruct (decide (room_id = id)) as [->|Hne].
    + rewrite Hr in E. injection E as <-. assert (p ≠ peer) as Hpp by congruence.
      assert (is_Some (delete p (peers r) !! peer)) as Hp' by by rewrite lookup_delete_ne.
      rewrite bool_decide_false by (intros E; rewrite E in Hp'; by rewrite lookup_empty in Hp'; destruct Hp').
      rewrite lookup_insert_eq. eexists. split; [done|]. cbn. split; [done|]. by eapply continues_one.
    + case_bool_decide; [by rewrite lookup_delete_ne|by rewrite lookup_insert_ne].
Qed.

Lemma run_all_continues id peer os c r :
  rooms c !! id = Some r -> is_Some (peers r !! peer) -> Forall (fun o => o ≠ OLeave id peer) os ->
  exists r', rooms (run_all os c) !! id = Some r' /\ is_Some (peers r' !! peer) /\ continues r r'.
Proof.
  intros Hr Hp Hos. revert c r Hr Hp. induction Hos as [|o os Ho Hos IH]; intros c r Hr Hp.
  { exists r. split_and!; [done..|apply continues_refl]. }
  destruct (run_continues id peer o c r Hr Hp Ho) as (r1 & Hr1 & Hp1 & Hc1).
  destruct (IH _ r1 Hr1 Hp1) as (r2 & Hr2 & Hp2 & Hc2). exists r2. split_and!; [done..|].
  by eapply continues_trans.
Qed.

Lemma join_seats room_id c jp c1 :
  join_room room_id c = (inl jp, c1) ->
  exists r, rooms c1 !! room_id = Some r /\ is_Some (peers r !! joined_peer jp) /\
    foldl apply_frame (welcome_view (welcome jp)) (drop (receiver jp) (tx r)) = view_of r /\
    receiver jp <= length (tx r).
Proof.
  unfold join_room. destruct (negb _); [done|]. destruct (_ && _); [done|]. destruct (_ <=? _); [done|].
  intros [= <- <-]. cbn. rewrite lookup_insert_eq. eexists. split; [done|]. cbn. split_and!.
  - rewrite lookup_insert_eq. by eexists.
  - by rewrite drop_app_length.
  - rewrite length_app. lia.
Qed.

(** *** Limits *)

Lemma apply_entries_size peer ver l m :
  NoDup l.*1 ->
  size (foldl (apply_entry peer ver) m l) <=
  size m + length (filter (fun kv => is_null kv.2 = false /\ m !! kv.1 = None) l).
Proof.
  revert m. induction l as [|[k v] l IH]; intros m; [cbn; lia|].
  rewrite fmap_cons. intros [Hk Hn]%NoDup_cons. cbn [foldl]. specialize (IH (apply_entry peer ver m (k, v)) Hn).
  assert (filter (fun kv => is_null kv.2 = false /\ apply_entry peer ver m (k, v) !! kv.1 = None) l =
          filter (fun kv : string * Value => is_null kv.2 = false /\ m !! kv.1 = None) l) as Hf.
  { apply filter_ext_Forall, Forall_forall. intros [k' v'] Hin.
    assert (k ≠ k') as Hne. { intros ->. apply Hk. apply list_elem_of_fmap. by exists (k', v'). }
    unfold apply_entry. cbn. destruct (is_null v); [by rewrite lookup_delete_ne|by rewrite lookup_insert_ne]. }
  rewrite Hf in IH. rewrite filter_cons.
  assert (size (apply_entry peer ver m (k, v)) <=
    size m + (if decide (is_null v = false /\ m !! k = None) then 1 else 0)) as Hs.
  { unfold apply_entry. cbn. destruct (is_null v) eqn:E.
    - rewrite decide_False by (by intros [? _]). rewrite map_size_delete. destruct (m !! k); unfold id; lia.
    - destruct (m !! k) eqn:Em.
      + rewrite map_size_insert_Some by done. lia.
      + rewrite map_size_insert_None by done. rewrite decide_True by done. lia. }
  cbn [fst snd] in *. destruct (decide (is_null v = false /\ m !! k = None)); cbn [length] in *; lia.
Qed.

Lemma apply_entries_keys (P : string -> StateEntry -> Prop) peer ver l m :
  (forall k e, m !! k = Some e -> P k e) ->
  (forall k v, (k, v) ∈ l -> is_null v = false -> P k (mkStateEntry v ver peer)) ->
  forall k e, foldl (apply_entry peer ver) m l !! k = Some e -> P k e.
Proof.
  revert m. induction l as [|[k0 v0] l IH]; intros m Hm Hl; [done|]. cbn [foldl]. apply IH; [|set_solver].
  intros k e. unfold apply_entry. cbn. destruct (is_null v0) eqn:E.
  - intros [_ H]%lookup_delete_Some. by apply Hm.
  - intros [[<- <-]|[_ H]]%lookup_insert_Some; [apply Hl; [by left|done]|by apply Hm].
Qed.

Lemma size_insert_le {A} (m : gmap string A) k x : size (<[k := x]> m) <= S (size m).
Proof.
  destruct (m !! k) eqn:E; [rewrite map_size_insert_Some by done; lia|by rewrite map_size_insert_None].
Qed.

Lemma size_delete_le {A} (m : gmap string A) k : size (delete k m) <= size m.
Proof. rewrite map_size_delete. destruct (m !! k); unfold id; lia. Qed.

Lemma update_registry_ok c id r r' :
  registry_ok c -> rooms c !! id = Some r -> room_ok r' -> registry_ok (with_rooms (<[id := r']> (rooms c)) c).
Proof.
  intros [Hs Hr] Hid Hok. split; cbn.
  - by rewrite map_size_insert_Some by done.
  - intros id' r0 [[<- <-]|[_ H]]%lookup_insert_Some; [|by apply Hr].
    split; [by apply (Hr id r)|done].
Qed.

Lemma run_registry_ok o c : registry_ok c -> registry_ok (run o c).
Proof.
  intros Hok. pose proof Hok as [Hs Hr].
  destruct o as [room_id|room_id p state|room_id p patch|room_id p]; cbn [run].
  - unfold join_room. destruct (negb (valid_room_id room_id)) eqn:Ev; [done|]. apply negb_false_iff in Ev.
    destruct (bool_decide (rooms c !! room_id = None) && (MAX_ROOMS <=? size (rooms c))) eqn:Eb; [done|].
    set (room := default empty_room (rooms c !! room_id)).
    destruct (MAX_ROOM_PEERS <=? size (peers room)) eqn:Ep; cbn; breflect.
    + destruct (rooms c !! room_id) as [r|] eqn:E; cbn in room.
      * rewrite bool_decide_false by apply (Hr room_id r E). unfold room. rewrite insert_id by done. by destruct c.
      * unfold room, MAX_ROOM_PEERS in Ep. cbn in Ep. rewrite map_size_empty in Ep. lia.
    + split; cbn.
      * destruct (rooms c !! room_id) as [r|] eqn:E.
        -- by rewrite map_size_insert_Some by done.
        -- rewrite map_size_insert_None by done. rewrite bool_decide_true in Eb by done. rewrite andb_true_l in Eb. breflect. lia.
      * intros id r [[<- <-]|[_ H]]%lookup_insert_Some; [|by apply Hr]. split; [done|]. split_and!; cbn.
        -- apply insert_non_empty.
        -- etrans; [apply size_insert_le|]. exact Ep.
        -- unfold room. destruct (rooms c !! room_id) as [r|] eqn:E; cbn; [apply (Hr room_id r E)|].
           rewrite map_size_empty. unfold MAX_STATE_KEYS. lia.
        -- unfold room. destruct (rooms c !! room_id) as [r|] eqn:E; cbn; [apply (Hr room_id r E)|].
           intros k e. by rewrite lookup_empty.
  - unfold update_presence. destruct (rooms c !! room_id) as [r|] eqn:E; [|done].
    case_bool_decide as Hp; [done|]. eapply update_registry_ok; [done..|].
    destruct (Hr room_id r E) as (_ & H1 & H2 & H3 & H4). split_and!; cbn; [apply insert_non_empty| |done|done].
    destruct (peers r !! p) eqn:Ep; [|done]. by rewrite map_size_insert_Some by done.
  - unfold write_state. destruct (bool_decide (patch = ∅)); [done|]. destruct (_ <? size patch); [done|].
    destruct (existsb _ _) eqn:Ek; [done|]. destruct (rooms c !! room_id) as [r|] eqn:E; [|done].
    destruct (bool_decide _); [done|]. destruct (_ <? _) eqn:El; [done|]. breflect. cbn.
    eapply update_registry_ok; [done..|].
    destruct (Hr room_id r E) as (_ & H1 & H2 & H3 & H4). split_and!; cbn; [done|done| |].
    + pose proof (apply_entries_size p (wrap_succ64 (version r)) (map_to_list patch) (room_state r)
        (NoDup_fst_map_to_list _)) as Hsz. unfold apply_entries. lia.
    + unfold apply_entries.
      apply (apply_entries_keys (fun k e => valid_state_key k = true /\ is_null (entry_value e) = false)); [done|].
      intros k v Hin Hv. split; [|done]. rewrite <- not_true_iff_false in Ek.
      destruct (valid_state_key k) eqn:Evk; [done|]. exfalso. apply Ek. apply existsb_exists.
      exists (k, v). split; [by apply list_elem_of_In|]. cbn. by rewrite Evk.
  - unfold leave. destruct (rooms c !! room_id) as [r|] eqn:E; [|done]. case_bool_decide as Hp; [done|]. cbn.
    destruct (Hr room_id r E) as (Hv & H1 & H2 & H3 & H4). case_bool_decide as He.
    + split; cbn; [etrans; [apply size_delete_le|done]|]. intros id' r' [_ H]%lookup_delete_Some. by apply Hr.
    + eapply update_registry_ok; [done..|]. split_and!; cbn; [done| |done|done].
      etrans; [apply size_delete_le|done].
Qed.

Lemma run_all_registry_ok os c : registry_ok c -> registry_ok (run_all os c).
Proof. revert c. induction os as [|o os IH]; intros c H; [done|]. by apply IH, run_registry_ok. Qed.

(** *** The frame limiter *)

Lemma accepted_cons b l : accepted (b :: l) = (if b then 1 else 0) + accepted l.
Proof. unfold accepted. by destruct b. Qed.

(** Inside one window only the rest of the budget is granted, and all of it is. *)
Lemma allow_all_window times l :
  Forall (fun t => (t - window_start l < one_second)%N) times ->
  (count l + N.of_nat (length times) <= u32_max)%N ->
  accepted (allow_all times l) = length times `min` N.to_nat (MAX_FRAMES_PER_SECOND - count l).
Proof.
  revert l. induction times as [|t times IH]; intros [ws n] Ht Hn; [done|].
  apply Forall_cons in Ht as [Ht Hts]. cbn [allow_all allow window_start count] in *.
  assert ((one_second <=? t - ws)%N = false) as -> by (apply N.leb_gt; done).
  cbn [window_start count]. rewrite accepted_cons. simpl length in *.
  assert (wrap_succ32 n = (n + 1)%N) as Hw.
  { unfold wrap_succ32. apply N.mod_small. lia. }
  rewrite IH; cbn [window_start count]; [|done|rewrite Hw; lia]. rewrite Hw.
  destruct (N.leb_spec (n + 1) MAX_FRAMES_PER_SECOND); unfold MAX_FRAMES_PER_SECOND in *; lia.
Qed.

Lemma allow_all_span t0 times l :
  Forall (fun t => (t0 <= t < t0 + one_second)%N) times ->
  (count l + N.of_nat (length times) <= u32_max)%N ->
  accepted (allow_all times l) <= N.to_nat (MAX_FRAMES_PER_SECOND - count l) + N.to_nat MAX_FRAMES_PER_SECOND.
Proof.
  revert l. induction times as [|t times IH]; intros l Ht Hn; [unfold accepted; cbn; lia|].
  apply Forall_cons in Ht as [Ht Hts].
  destruct (N.leb_spec one_second (t - window_start l)) as [Hreset|Hkeep].
  - assert (allow_all (t :: times) l = allow_all (t :: times) (mkLimiter t 0)) as ->.
    { cbn [allow_all allow window_start count]. rewrite N.sub_diag.
      assert ((one_second <=? t - window_start l)%N = true) as -> by by apply N.leb_le. done. }
    rewrite allow_all_window; cbn [window_start count]; [lia| |lia].
    constructor; [rewrite N.sub_diag; done|]. eapply Forall_impl; [exact Hts|]. intros t' Ht'. cbn in *. lia.
  - destruct l as [ws n]. cbn [allow_all allow window_start count] in *.
    assert ((one_second <=? t - ws)%N = false) as -> by by apply N.leb_gt.
    cbn [window_start count]. rewrite accepted_cons. simpl length in *.
    assert (wrap_succ32 n = (n + 1)%N) as Hw.
    { unfold wrap_succ32. apply N.mod_small. lia. }
    specialize (IH (mkLimiter ws (wrap_succ32 n)) Hts). cbn [count] in IH.
    rewrite Hw in *. specialize (IH ltac:(lia)).
    destruct (N.leb_spec (n + 1) MAX_FRAMES_PER_SECOND); unfold MAX_FRAMES_PER_SECOND in *; lia.
Qed.

(** ** Properties *)

(** C5: every seated client sees what the server holds.  A peer that joins and
    applies to its welcome snapshot the frames broadcast after it subscribed
    holds, whatever all peers of all rooms do meanwhile, exactly the peers, the
    shared state with its writers and versions, and the version of the room,
    for as long as it does not leave; and its room stays alive that long. *)
Theorem collab_views_converge : forall c room_id jp c1 os,
  join_room room_id c = (inl jp, c1) ->
  Forall (fun o => o ≠ OLeave room_id (joined_peer jp)) os ->
  exists r, rooms (run_all os c1) !! room_id = Some r /\ is_Some (peers r !! joined_peer jp) /\
    foldl apply_frame (welcome_view (welcome jp)) (drop (receiver jp) (tx r)) = view_of r.
Proof.
  intros c room_id jp c1 os Hj Hos.
  destruct (join_seats room_id c jp c1 Hj) as (r1 & Hr1 & Hp1 & Hv1 & Hlen).
  destruct (run_all_continues room_id (joined_peer jp) os c1 r1 Hr1 Hp1 Hos) as (r & Hr & Hp & sent & Htx & Hv).
  exists r. split_and!; [done..|]. rewrite Htx, drop_app_le by done. by rewrite foldl_app, Hv1.
Qed.

Lemma collab_views_witness :
  let c1 := (join_room "doc" new_registry).2 in
  exists r, rooms (run_all [OJoin "doc"; OPresence "doc" "p1" VNull; OWrite "doc" "p0" {["k" := VString "v"]}] c1)
              !! "doc" = Some r /\ is_Some (peers r !! "p0").
Proof.
  intros c1.
  destruct (collab_views_converge new_registry "doc" (mkJoined "p0" (mkWelcome "doc" "p0" ∅ ∅ 0) 0) c1
    [OJoin "doc"; OPresence "doc" "p1" VNull; OWrite "doc" "p0" {["k" := VString "v"]}])
    as (r & Hr & Hp & _).
  - vm_compute. reflexivity.
  - repeat constructor; discriminate.
  - exists r. split; [exact Hr|exact Hp].
Defined.

(** Clients cannot grow the server without bound.  Whatever frames
    arrive, there are at most 1024 rooms, each with a valid name, at least one
    and at most 64 peers, and at most 256 shared keys, every one of them a valid
    key with a value that is not null: an abandoned room never stays. *)
Theorem collab_limits_hold : forall os,
  let c := run_all os new_registry in
  size (rooms c) <= MAX_ROOMS /\
  (forall id r, rooms c !! id = Some r ->
     valid_room_id id = true /\ peers r ≠ ∅ /\ size (peers r) <= MAX_ROOM_PEERS /\
     size (room_state r) <= MAX_STATE_KEYS /\
     (forall k e, room_state r !! k = Some e -> valid_state_key k = true /\ is_null (entry_value e) = false)).
Proof.
  intros os c. apply run_all_registry_ok. split; cbn; [rewrite map_size_empty; unfold MAX_ROOMS; lia|].
  intros id r. by rewrite lookup_empty.
Qed.

(** The frame limiter grants its budget and little more.  While a window
    lasts, exactly the frames left in its budget of 120 are accepted; and in
    any span of one second, wherever the windows fall, at most twice the budget
    is. *)
Theorem frame_limiter_bounds : forall times l t0,
  (count l + N.of_nat (length times) <= u32_max)%N ->
  (Forall (fun t => (t - window_start l < one_second)%N) times ->
   accepted (allow_all times l) = length times `min` N.to_nat (MAX_FRAMES_PER_SECOND - count l)) /\
  (Forall (fun t => (t0 <= t < t0 + one_second)%N) times -> accepted (allow_all times l) <= 240).
Proof.
  intros times l t0 Hn. split; intros Ht; [by apply allow_all_window|].
  etrans; [by eapply allow_all_span|]. unfold MAX_FRAMES_PER_SECOND. lia.
Qed.

Lemma frame_limiter_witness : accepted (allow_all (replicate 130 5%N) (new_limiter 5)) = 120.
Proof.
  rewrite (proj1 (frame_limiter_bounds (replicate 130 5%N) (new_limiter 5) 5 ltac:(vm_compute; discriminate)));
    [reflexivity|].
  repeat constructor.
Defined.
