(* ===== verification/ClientIp.v ===== *)
(** Who a request belongs to (crates/ruvyxa_middleware/src/client_ip.rs):
    address prefixes, the proxies that may be believed, and the client address
    read from forwarded headers.

    [checks] is whether the build checks arithmetic overflow (a debug build);
    then [None] is the panic.  [parse_ip] is the standard library's parser of
    addresses. *)
From S2P Require Import Prelude RustStr.

(** ** Definitions *)

(** [http::HeaderMap]: for a lower-case name, its values in order, [None] for
    one that is not visible ASCII text. *)
Definition HeaderMap : Type := string -> list (option string).

(** [headers.get(name).and_then(|value| value.to_str().ok())] *)
Definition get_str (headers : HeaderMap) (name : string) : option string :=
  match headers name with v :: _ => v | [] => None end.

Inductive IpAddr := V4 (bits : N) | V6 (bits : N).

#[export] Instance ip_eq_dec : EqDecision IpAddr.
Proof. solve_decision. Defined.
#[export] Instance ip_countable : Countable IpAddr.
Proof.
  refine (inj_countable' (fun ip => match ip with V4 n => inl n | V6 n => inr n end)
            (fun s => match s with inl n => V4 n | inr n => V6 n end) _).
  by intros [].
Defined.

(** [host_prefix_len] *)
Definition host_prefix_len (a : IpAddr) : N := match a with V4 _ => 32 | V6 _ => 128 end.

(** The bits of an address fit its family. *)
Definition wf_ip (a : IpAddr) : Prop :=
  match a with V4 n => (n < 2 ^ 32)%N | V6 n => (n < 2 ^ 128)%N end.

(** [unmap_v4] *)
Definition unmap_v4 (a : IpAddr) : IpAddr :=
  match a with
  | V6 n => if (N.shiftr n 32 =? 65535)%N then V4 (N.land n (N.ones 32)) else a
  | V4 _ => a
  end.

(** [IpAddr::is_loopback] *)
Definition is_loopback (a : IpAddr) : bool :=
  match a with V4 n => (N.shiftr n 24 =? 127)%N | V6 n => (n =? 1)%N end.

(** [MAX << (width - prefix_len)] on a [width]-bit integer; the subtraction is
    on [u32], and a release build takes the shift amount modulo the width. *)
Definition mask_of (checks : bool) (width prefix_len : N) : option N :=
  if (prefix_len =? 0)%N then Some 0%N
  else if (prefix_len <=? width)%N then Some (N.land (N.shiftl (N.ones width) (width - prefix_len)) (N.ones width))
  else if checks then None
  else Some (N.land (N.shiftl (N.ones width) ((width + 2 ^ 32 - prefix_len) mod width)) (N.ones width)).

(** [mask_address] *)
Definition mask_address (checks : bool) (a : IpAddr) (prefix_len : N) : option IpAddr :=
  match a with
  | V4 n => mask ← mask_of checks 32 prefix_len; Some (V4 (N.land n mask))
  | V6 n => mask ← mask_of checks 128 prefix_len; Some (V6 (N.land n mask))
  end.

Record IpPrefix := mkPrefix { network : IpAddr; prefix_len : N }.

Definition same_family (a b : IpAddr) : bool :=
  match a, b with V4 _, V4 _ | V6 _, V6 _ => true | _, _ => false end.

(** [IpPrefix::contains] *)
Definition prefix_contains (checks : bool) (p : IpPrefix) (candidate : IpAddr) : option bool :=
  let candidate := unmap_v4 candidate in
  let net := unmap_v4 (network p) in
  if same_family net candidate then
    masked ← mask_address checks candidate (prefix_len p);
    Some (bool_decide (masked = net))
  else Some false.

Section parser.
Context (parse_ip : string -> option IpAddr) (checks : bool).

(** [IpPrefix::parse]; the outer [option] is the panic. *)
Definition parse_prefix (value : string) : option (option IpPrefix) :=
  let value := trim value in
  let parsed :=
    match split_once "/"%char value with
    | Some (address, length) =>
        a ← parse_ip (trim address); n ← parse_uint 255 (trim length); Some (a, n)
    | None => a ← parse_ip value; Some (a, host_prefix_len a)
    end in
  match parsed with
  | None => Some None
  | Some (a, n) =>
      if (host_prefix_len a <? n)%N then Some None
      else net ← mask_address checks a n; Some (Some (mkPrefix net n))
  end.

(** [TrustedProxies::parse_all] *)
Fixpoint parse_all (values : list string) : option (list IpPrefix + string) :=
  match values with
  | [] => Some (inl [])
  | v :: rest =>
      p ← parse_prefix v;
      match p with
      | None => Some (inr ("invalid IP or CIDR range `" +:+ v +:+ "`"))
      | Some p => r ← parse_all rest;
                  Some (match r with inl ps => inl (p :: ps) | inr e => inr e end)
      end
  end.

(** [TrustedProxies::contains] *)
Fixpoint proxies_contain (trusted : list IpPrefix) (ip : IpAddr) : option bool :=
  match trusted with
  | [] => Some false
  | p :: rest => b ← prefix_contains checks p ip; if b : bool then Some true else proxies_contain rest ip
  end.

(** [is_trusted_proxy_ip] *)
Definition is_trusted_proxy_ip (trusted : list IpPrefix) (ip : IpAddr) : option bool :=
  let ip := unmap_v4 ip in
  if is_loopback ip then Some true else proxies_contain trusted ip.

(** The hops of the field lines, last line first and right to left inside one. *)
Definition forwarded_hops (values : list (option string)) : list IpAddr :=
  omap (fun hop => parse_ip (trim hop)) (omap id (reverse values) ≫= fun v => reverse (split_char ","%char v)).

Fixpoint first_untrusted (trusted : list IpPrefix) (hops : list IpAddr) : option (option IpAddr) :=
  match hops with
  | [] => Some None
  | h :: rest => b ← is_trusted_proxy_ip trusted h; if b : bool then first_untrusted trusted rest else Some (Some h)
  end.

(** [forwarded_client_ip] *)
Definition forwarded_client_ip (trusted : list IpPrefix) (headers : HeaderMap) : option (option IpAddr) :=
  let forwarded := headers "x-forwarded-for" in
  first_untrusted trusted (forwarded_hops (match forwarded with [] => headers "x-real-ip" | _ => forwarded end)).

(** [client_ip] *)
Definition client_ip (peer : IpAddr) (headers : HeaderMap) (trusted : list IpPrefix) : option IpAddr :=
  b ← is_trusted_proxy_ip trusted peer;
  if b : bool then r ← forwarded_client_ip trusted headers; Some (default peer r) else Some peer.
End parser.

(** A configured prefix: what [parse_prefix] builds from a well-formed address. *)
Definition wf_prefix (p : IpPrefix) : Prop :=
  wf_ip (network p) /\ (prefix_len p <= host_prefix_len (network p))%N /\
  mask_address true (network p) (prefix_len p) = Some (network p).

(** The prefix is not written in the IPv4-mapped form of IPv6. *)
Definition plain_prefix (p : IpPrefix) : Prop := unmap_v4 (network p) = network p.

(** The leading bits two addresses of one family share with a prefix. *)
Definition leading_bits (a : IpAddr) (n : N) : N :=
  match a with V4 b => N.shiftr b (32 - n) | V6 b => N.shiftr b (128 - n) end.

Definition in_prefix (p : IpPrefix) (a : IpAddr) : bool :=
  same_family (network p) (unmap_v4 a) &&
  (leading_bits (unmap_v4 a) (prefix_len p) =? leading_bits (network p) (prefix_len p))%N.

(** *** The specification *)

(** The entries of the field lines, in the order they were written. *)
Definition entries_of (lines : list (option string)) : list string :=
  omap id lines ≫= split_char ","%char.

(** The field lines [forwarded_client_ip] reads. *)
Definition forwarded_lines (headers : HeaderMap) : list (option string) :=
  let forwarded := headers "x-forwarded-for" in
  match forwarded with [] => headers "x-real-ip" | _ => forwarded end.

(** Proxies pass a request on, each recording the address it saw by appending a
    field line of its own or by extending the last one. *)
Inductive recorded (caller : list (option string)) : list string -> list (option string) -> Prop :=
  | recorded_none : recorded caller [] caller
  | recorded_line hops lines hop :
      recorded caller hops lines -> has_char ","%char hop = false ->
      recorded caller (hops ++ [hop]) (lines ++ [Some hop])
  | recorded_extended hops lines text hop :
      recorded caller hops (lines ++ [Some text]) -> has_char ","%char hop = false ->
      recorded caller (hops ++ [hop]) (lines ++ [Some (text +:+ "," +:+ hop)]).

(** An entry that is a trusted proxy's address, or no address. *)
Definition passed_over (parse_ip : string -> option IpAddr) (checks : bool) (trusted : list IpPrefix)
    (text : string) : Prop :=
  match parse_ip (trim text) with
  | Some a => is_trusted_proxy_ip checks trusted a = Some true
  | None => True
  end.

(** ** Lemmas *)

Lemma mask_of_spec checks w n :
  (n <= w)%N -> mask_of checks w n = Some (N.shiftl (N.ones n) (w - n)).
Proof.
  intros Hn. unfold mask_of. destruct (N.eqb_spec n 0) as [->|H0]; [by rewrite N.ones_equiv; cbn; rewrite N.shiftl_0_l|].
  assert ((n <=? w)%N = true) as -> by by apply N.leb_le. f_equal. apply N.bits_inj. intros i.
  rewrite N.land_spec. destruct (N.ltb_spec i (w - n)) as [Hi|Hi].
  - by rewrite !N.shiftl_spec_low.
  - rewrite !N.shiftl_spec_high' by done.
    destruct (N.ltb_spec (i - (w - n)) n) as [Hj|Hj].
    + rewrite !N.ones_spec_low by lia. done.
    + rewrite (N.ones_spec_high n), (N.ones_spec_high w i) by lia. apply andb_false_r.
Qed.

Lemma land_mask a w n : (a < 2 ^ w)%N -> (n <= w)%N ->
  N.land a (N.shiftl (N.ones n) (w - n)) = N.shiftl (N.shiftr a (w - n)) (w - n).
Proof.
  intros Ha Hn. apply N.bits_inj. intros i. rewrite N.land_spec.
  destruct (N.ltb_spec i (w - n)) as [Hi|Hi].
  - rewrite !N.shiftl_spec_low by done. apply andb_false_r.
  - rewrite !N.shiftl_spec_high' by done. rewrite N.shiftr_spec'.
    replace (i - (w - n) + (w - n))%N with i by lia.
    destruct (N.ltb_spec (i - (w - n)) n) as [Hj|Hj].
    + rewrite N.ones_spec_low by lia. apply andb_true_r.
    + rewrite N.ones_spec_high by lia. rewrite andb_false_r. symmetry.
      destruct (decide (a = 0%N)) as [->|H0]; [apply N.bits_0|]. apply N.bits_above_log2.
      apply N.log2_lt_pow2; [lia|]. apply (N.lt_le_trans _ (2 ^ w)); [done|].
      apply N.pow_le_mono_r; lia.
Qed.

Lemma shiftl_shiftr_inj a b k : N.shiftl a k = N.shiftl b k <-> a = b.
Proof.
  split; [|by intros ->]. intros H. apply (f_equal (fun x => N.shiftr x k)) in H.
  by rewrite !N.shiftr_shiftl_l, N.sub_diag, !N.shiftl_0_r in H.
Qed.

Lemma unmap_wf a : wf_ip a -> wf_ip (unmap_v4 a).
Proof.
  destruct a as [n|n]; [done|]. cbn. destruct (_ =? _)%N; [|done]. intros _. cbn.
  rewrite N.land_ones. apply N.mod_lt. by vm_compute.
Qed.

(** Masking an address keeps its leading bits and clears the rest. *)
Lemma mask_address_spec checks a n :
  wf_ip a -> (n <= host_prefix_len a)%N ->
  mask_address checks a n =
  Some (match a with
        | V4 b => V4 (N.shiftl (N.shiftr b (32 - n)) (32 - n))
        | V6 b => V6 (N.shiftl (N.shiftr b (128 - n)) (128 - n))
        end).
Proof.
  intros Ha Hn. destruct a as [b|b]; cbn [mask_address host_prefix_len wf_ip] in *;
    rewrite mask_of_spec by done; cbn [mbind option_bind]; by rewrite land_mask.
Qed.

Lemma prefix_contains_spec checks p a :
  wf_prefix p -> plain_prefix p -> wf_ip a -> prefix_contains checks p a = Some (in_prefix p a).
Proof.
  intros (Hw & Hlen & Hm) Hp Ha. unfold prefix_contains, in_prefix. rewrite Hp.
  apply unmap_wf in Ha. set (c := unmap_v4 a) in *. clearbody c.
  destruct p as [net n]. cbn [network prefix_len] in *.
  rewrite mask_address_spec in Hm by done. injection Hm as Hm.
  destruct net as [nb|nb], c as [cb|cb]; cbn [same_family]; try done;
    rewrite mask_address_spec by done; cbn [mbind option_bind andb leading_bits]; f_equal;
    injection Hm as Hm; apply eq_true_iff_eq; rewrite bool_decide_eq_true, N.eqb_eq;
    (split; [intros [= H]; rewrite <- Hm in H; by apply shiftl_shiftr_inj in H|intros ->; by f_equal]).
Qed.

Lemma unmap_idem a : wf_ip a -> unmap_v4 (unmap_v4 a) = unmap_v4 a.
Proof. destruct a as [n|n]; [done|]. cbn. intros _. destruct (N.shiftr n 32 =? 65535)%N eqn:E; cbn; by rewrite ?E. Qed.

Lemma in_prefix_unmap p a : wf_ip a -> in_prefix p (unmap_v4 a) = in_prefix p a.
Proof. intros Ha. unfold in_prefix. by rewrite unmap_idem. Qed.

Lemma proxies_contain_spec checks trusted a :
  Forall (fun p => wf_prefix p /\ plain_prefix p) trusted -> wf_ip a ->
  proxies_contain checks trusted a = Some (existsb (fun p => in_prefix p a) trusted).
Proof.
  intros Ht Ha. induction Ht as [|p ps [Hw Hp] Ht IH]; [done|]. cbn [proxies_contain existsb].
  rewrite prefix_contains_spec by done. cbn [mbind option_bind].
  by destruct (in_prefix p a).
Qed.

Lemma reverse_bind {A B} (f : A -> list B) l : reverse (l ≫= f) = reverse l ≫= (reverse ∘ f).
Proof.
  induction l as [|x l IH]; [done|]. cbn [mbind list_bind]. rewrite reverse_app, reverse_cons, bind_app.
  rewrite IH. cbn [mbind list_bind]. by rewrite app_nil_r.
Qed.

Lemma omap_id_reverse {A} (l : list (option A)) : omap id (reverse l) = reverse (omap id l).
Proof.
  induction l as [|x l IH]; [done|]. rewrite reverse_cons, omap_app, IH.
  destruct x as [x|]; [|by apply app_nil_r].
  change (omap id (Some x :: l)) with (x :: omap id l). by rewrite reverse_cons.
Qed.

(** The hops are the entries, read from the last one back. *)
Lemma forwarded_hops_entries parse_ip lines :
  forwarded_hops parse_ip lines = omap (fun hop => parse_ip (trim hop)) (reverse (entries_of lines)).
Proof. unfold forwarded_hops, entries_of. by rewrite reverse_bind, omap_id_reverse. Qed.

Lemma entries_of_app l1 l2 : entries_of (l1 ++ l2) = entries_of l1 ++ entries_of l2.
Proof. unfold entries_of. by rewrite omap_app, bind_app. Qed.

Lemma split_char_last c s hop :
  has_char c hop = false -> split_char c (s +:+ String c hop) = split_char c s ++ [hop].
Proof.
  intros Hh. induction s as [|a s IH].
  - change (split_char c ("" +:+ String c hop) = "" :: [hop]). by rewrite split_char_app, split_char_none.
  - cbn [String.append split_char]. rewrite IH. destruct (Ascii.eqb a c); [done|].
    pose proof (split_char_ne c s). by destruct (split_char c s).
Qed.

(** However a proxy records an address, it becomes the last entry. *)
Lemma recorded_entries caller hops lines :
  recorded caller hops lines -> entries_of lines = entries_of caller ++ hops.
Proof.
  induction 1 as [|hops lines hop H IH Hc|hops lines text hop H IH Hc]; [by rewrite app_nil_r|..];
    rewrite app_assoc, <- IH, !entries_of_app.
  - f_equal. unfold entries_of. cbn. by rewrite app_nil_r, split_char_none.
  - rewrite <- app_assoc. f_equal. unfold entries_of. cbn. rewrite !app_nil_r.
    change ("," +:+ hop) with (String "," hop). by apply split_char_last.
Qed.

(** Hops that are all passed over. *)
Lemma first_untrusted_passed parse_ip checks trusted chain hops :
  Forall (passed_over parse_ip checks trusted) chain ->
  first_untrusted checks trusted (omap (fun hop => parse_ip (trim hop)) chain ++ hops)
  = first_untrusted checks trusted hops.
Proof.
  induction 1 as [|text chain Ht Hc IH]; [done|]. cbn. unfold passed_over in Ht.
  destruct (parse_ip (trim text)) as [a|]; [|done]. cbn. by rewrite Ht.
Qed.

(** ** Properties *)

(** Which proxies are believed.  For configured prefixes built from
    well-formed addresses and not written in the IPv4-mapped form, in a debug
    and in a release build alike, the check never panics and accepts exactly
    loopback and the addresses that share a prefix's family and leading bits,
    an IPv4 peer of a dual-stack socket being taken for the IPv4 address it is. *)
Theorem trusted_proxy_decides : forall checks trusted a,
  Forall (fun p => wf_prefix p /\ plain_prefix p) trusted -> wf_ip a ->
  is_trusted_proxy_ip checks trusted a =
    Some (is_loopback (unmap_v4 a) || existsb (fun p => in_prefix p a) trusted).
Proof.
  intros checks trusted a Ht Ha. unfold is_trusted_proxy_ip.
  destruct (is_loopback (unmap_v4 a)); [done|]. rewrite proxies_contain_spec; [|done|by apply unmap_wf].
  f_equal. cbn [orb]. clear Ht. induction trusted as [|p ps IH]; [done|]. cbn [existsb].
  by rewrite in_prefix_unmap, IH.
Qed.

Lemma trusted_proxy_witness :
  is_trusted_proxy_ip true [mkPrefix (V4 167772160) 8] (V6 281470849515529) = Some true.
Proof.
  rewrite (trusted_proxy_decides true [mkPrefix (V4 167772160) 8] (V6 281470849515529)).
  - vm_compute. reflexivity.
  - constructor; [|constructor]. split; [split; [vm_compute; reflexivity|split; [vm_compute; discriminate|reflexivity]]|reflexivity].
  - vm_compute. reflexivity.
Defined.

(** C6: a client cannot choose who it is.  A peer that is no trusted proxy is
    its own identity whatever it sends.  Behind a trusted peer the identity is
    the last entry of the forwarded field lines that is an untrusted address,
    every later entry being a trusted proxy or no address at all, and whatever
    stands before it; when every entry is passed over it is the peer.  Proxies
    that record the addresses they saw, each by a field line of its own or by
    extending the last one, only put those addresses after what the caller wrote. *)
Theorem client_identity_not_forgeable : forall parse_ip checks trusted peer headers,
  let entries := entries_of (forwarded_lines headers) in
  (is_trusted_proxy_ip checks trusted peer = Some false ->
   client_ip parse_ip checks peer headers trusted = Some peer) /\
  (is_trusted_proxy_ip checks trusted peer = Some true ->
   (forall forged hop chain ip,
     entries = forged ++ hop :: chain ->
     parse_ip (trim hop) = Some ip -> is_trusted_proxy_ip checks trusted ip = Some false ->
     Forall (passed_over parse_ip checks trusted) chain ->
     client_ip parse_ip checks peer headers trusted = Some ip) /\
   (Forall (passed_over parse_ip checks trusted) entries ->
    client_ip parse_ip checks peer headers trusted = Some peer)) /\
  (forall caller hops, recorded caller hops (forwarded_lines headers) -> entries = entries_of caller ++ hops).
Proof.
  intros parse_ip checks trusted peer headers entries.
  assert (forall caller hops, recorded caller hops (forwarded_lines headers) ->
    entries = entries_of caller ++ hops) as Hrecorded by (intros caller hops; apply recorded_entries).
  unfold client_ip, forwarded_client_ip.
  change (match headers "x-forwarded-for" with [] => headers "x-real-ip" | _ => headers "x-forwarded-for" end)
    with (forwarded_lines headers).
  rewrite forwarded_hops_entries. fold entries. clearbody entries.
  split; [by intros ->|]. split; [intros ->; cbn [mbind option_bind]; split|done].
  - intros forged hop chain ip -> Hparse Hip Hchain%Forall_reverse.
    rewrite reverse_app, reverse_cons, <- app_assoc, omap_app.
    rewrite first_untrusted_passed by done. cbn. rewrite Hparse. cbn. by rewrite Hip.
  - intros Hall%Forall_reverse. rewrite <- (app_nil_r (omap _ _)).
    by rewrite first_untrusted_passed by done.
Qed.

(** The caller forges two lines; the edge proxy sees it at 9.9.9.9 and extends
    the last one, an inner proxy adds the edge's own address 10.0.0.1. *)
Lemma client_identity_witness :
  let parse_ip := fun s => if String.eqb s "9.9.9.9" then Some (V4 151587081)
    else if String.eqb s "10.0.0.1" then Some (V4 167772161) else None in
  let headers := fun n => if String.eqb n "x-forwarded-for"
    then [Some "127.0.0.1"; Some "1.1.1.1,9.9.9.9"; Some "10.0.0.1"] else [] in
  client_ip parse_ip true (V4 2130706433) headers [mkPrefix (V4 167772160) 8] = Some (V4 151587081).
Proof.
  intros parse_ip headers.
  destruct (client_identity_not_forgeable parse_ip true [mkPrefix (V4 167772160) 8] (V4 2130706433) headers)
    as (_ & Htrusted & Hrecorded).
  assert (recorded [Some "127.0.0.1"; Some "1.1.1.1"] (["9.9.9.9"] ++ ["10.0.0.1"]) (forwarded_lines headers)) as H.
  { apply (recorded_line _ ["9.9.9.9"] [Some "127.0.0.1"; Some "1.1.1.1,9.9.9.9"]); [|reflexivity].
    apply (recorded_extended _ [] [Some "127.0.0.1"] "1.1.1.1" "9.9.9.9"); [constructor|reflexivity]. }
  apply Hrecorded in H.
  refine (proj1 (Htrusted _) _ _ _ _ H _ _ _); [reflexivity|reflexivity|reflexivity|].
  constructor; [reflexivity|constructor].
Defined.

(** A prefix written in the IPv4-mapped form is not honoured.  A value
    such as [::ffff:0:0/96], the range of all IPv4-mapped addresses, is
    accepted by [parse_prefix]; matching any IPv4 peer against it then
    subtracts 96 from 32: a debug build panics on every such request, and a
    release build compares whole addresses, so only 0.0.0.0 is in the range. *)
Theorem mapped_prefix_not_honoured : forall parse_ip checks b,
  parse_ip "::ffff:0:0" = Some (V6 281470681743360) -> wf_ip (V4 b) ->
  let p := mkPrefix (V6 281470681743360) 96 in
  parse_prefix parse_ip checks "::ffff:0:0/96" = Some (Some p) /\
  prefix_contains true p (V4 b) = None /\
  prefix_contains false p (V4 b) = Some (b =? 0)%N.
Proof.
  intros parse_ip checks b Hparse Hb p. split_and!.
  - unfold parse_prefix. change (trim "::ffff:0:0/96") with "::ffff:0:0/96".
    change (split_once "/" "::ffff:0:0/96") with (Some ("::ffff:0:0", "96")).
    change (trim "::ffff:0:0") with "::ffff:0:0". cbv beta iota zeta. change (trim "::ffff:0:0") with "::ffff:0:0". rewrite Hparse. by destruct checks.
  - reflexivity.
  - unfold prefix_contains. cbn [network p unmap_v4].
    change (N.shiftr 281470681743360 32 =? 65535)%N with true. cbn [same_family mask_address].
    change (mask_of false 32 (prefix_len p)) with (Some (N.ones 32)). cbn [mbind option_bind].
    rewrite N.land_ones, N.mod_small by exact Hb. f_equal. apply eq_true_iff_eq.
    rewrite bool_decide_eq_true, N.eqb_eq. change (N.land 281470681743360 (N.ones 32)) with 0%N.
    split; [by intros [=]|by intros ->].
Qed.

Lemma mapped_prefix_witness :
  prefix_contains false (mkPrefix (V6 281470681743360) 96) (V4 3232235777) = Some false.
Proof.
  exact (proj2 (proj2 (mapped_prefix_not_honoured
    (fun s => if String.eqb s "::ffff:0:0" then Some (V6 281470681743360) else None) true 3232235777
    eq_refl eq_refl))).
Defined.
