(* ===== verification/WorkerProtocol.v ===== *)
(** * The worker protocol (ruvyxa_dev_server/src/worker_protocol.rs)

    The requests a host writes to a render worker and the frames it reads back,
    one JSON document per line.  Serialization is serde's; what is the program's
    own is which fields a request has, which requests may be sent twice, which
    frames end a response, and the identifiers. *)
From S2P Require Import Prelude RustStr Manifest.

(** ** Definitions *)

(** *** Requests *)

Record WarmupRoute := mkWarmup { warm_page_file : string; warm_app_dir : string; warm_route_path : string }.

Record StaticParamsRoute := mkParamsRoute { params_path : string; params_id : string }.

Record StaticParamSegment := mkParamSegment { segment_name : string; catch_all : bool; optional : bool }.

Inductive WorkerRequest :=
  | Ssr (id project_root app_dir page_file request_path request_target route_path : string) (params : RouteParams)
      (header_pairs : list (string * string)) (method : string) (server_components : bool) (form_content_type form_body : option string)
  | Flight (id project_root app_dir page_file request_path route_path : string) (params : RouteParams) (artifact_version : string)
  | Api (id project_root route_file method request_path : string) (headers : gmap string string) (header_pairs : list (string * string))
      (body body_base64 : option string) (stream_response : bool) (params : RouteParams) (known_inputs_version : option string)
  | Action (id project_root action_file action_name payload_json content_type request_path : string) (header_pairs : list (string * string))
      (known_inputs_version : option string)
  | Client (id project_root app_dir page_file request_path route_path : string) (params : RouteParams) (server_components : bool)
  | ClientVendor (id project_root name : string)
  | RscPayload (id project_root app_dir page_file request_path request_target route_path : string) (params : RouteParams)
      (header_pairs : list (string * string)) (method : string)
  | RscDocument (id project_root app_dir page_file request_path request_target route_path : string) (params : RouteParams)
      (header_pairs : list (string * string)) (method : string) (form_content_type form_body : option string)
  | RscAction (id project_root app_dir page_file request_path request_target route_path : string) (params : RouteParams)
      (header_pairs : list (string * string)) (method reference content_type body : string)
  | RscClientEntry (id project_root app_dir page_file route_path : string)
  | Invalidate (id : string) (paths : list string) (trace_id : option string)
  | DocumentRead (id pathname : string) (revalidate : option N)
  | DocumentWrite (id pathname html : string) (revalidate : option N) (forced : bool)
  | Ping (id : string)
  | Cancel (id : string)
  | Warmup (id project_root : string) (routes : list WarmupRoute)
  | Ssg (id project_root app_dir page_file request_path route_path : string) (params : RouteParams) (mode : string) (fresh server_components : bool)
  | StaticParams (id project_root page_file route_path : string) (segments : list StaticParamSegment) (routes : list StaticParamsRoute).

(** [WorkerRequest::id] *)
Definition request_id (r : WorkerRequest) : string :=
  match r with
  | Ssr id _ _ _ _ _ _ _ _ _ _ _ _ | Flight id _ _ _ _ _ _ _ | Api id _ _ _ _ _ _ _ _ _ _ _ | Action id _ _ _ _ _ _ _ _
  | Client id _ _ _ _ _ _ _ | Invalidate id _ _ | Ping id | Cancel id | Warmup id _ _ | Ssg id _ _ _ _ _ _ _ _ _ | ClientVendor id _ _
  | RscPayload id _ _ _ _ _ _ _ _ _ | RscDocument id _ _ _ _ _ _ _ _ _ _ _ | RscAction id _ _ _ _ _ _ _ _ _ _ _ _
  | RscClientEntry id _ _ _ _ | DocumentRead id _ _ | DocumentWrite id _ _ _ _ | StaticParams id _ _ _ _ _ => id
  end.

(** [retains_an_isolated_module_graph] *)
Definition retains_an_isolated_module_graph (r : WorkerRequest) : bool :=
  match r with Ssg _ _ _ _ _ _ _ _ true _ => true | _ => false end.

(** [is_idempotent] *)
Definition is_idempotent (r : WorkerRequest) : bool :=
  match r with
  | Ssr _ _ _ _ _ _ _ _ _ _ _ _ None => true
  | Flight _ _ _ _ _ _ _ _ | Ssg _ _ _ _ _ _ _ _ _ _ | StaticParams _ _ _ _ _ _ | Client _ _ _ _ _ _ _ _ | ClientVendor _ _ _
  | RscPayload _ _ _ _ _ _ _ _ _ _ | RscClientEntry _ _ _ _ _ | Ping _ | Warmup _ _ _ | DocumentRead _ _ _ | DocumentWrite _ _ _ _ _
  | Invalidate _ _ _ => true
  | _ => false
  end.

(** *** Identifiers *)

(** [next_request_id]: the identifier, and the counter after it. *)
Definition next_request_id (counter : N) : string * N := (show_N counter, ((counter + 1) mod 2 ^ 64)%N).

(** *** Responses *)

Record ServerReferenceSource := mkReference { reference_id : string; reference_file : string; reference_source : string }.

Record WorkerResponse := mkResponse {
  response_id : string;
  response_ok : bool;
  frame : option string;
  html : option string;
  flight : option string;
  script : option string;
  response_status : option N;
  response_headers : option (gmap string string);
  response_header_pairs : option (list (string * string));
  response_body : option string;
  body_base64 : option string;
  response_code : option string;
  response_message : option string;
  response_stack : option string;
  pong : option bool;
  warmed : option N;
  module_cache_size : option N;
  retained_module_urls : option N;
  response_params : option (list RouteParams);
  request_scoped : option bool;
  stale : option bool;
  response_revalidate : option (list string);
  dependency_hash : option string;
  inputs_version : option string;
  inputs : option (list string);
  server_references : option (list ServerReferenceSource);
  entry_source : option string;
  rsc_payload : option string;
}.

(** [WorkerResponse::default] *)
Definition default_response : WorkerResponse :=
  mkResponse "" false None None None None None None None None None None None None None None None None None None None None None None None None None None.

(** A frame for [id] with the fields the host itself sets. *)
Definition response_frame (id : string) (kind code message : option string) : WorkerResponse :=
  mkResponse id false kind None None None None None None None None code message None None None None None None None None None None None None None None None.

(** [is_terminal] *)
Definition is_terminal (r : WorkerResponse) : bool :=
  match frame r with Some kind => negb (String.eqb kind "api-start" || String.eqb kind "api-chunk") | None => true end.

(** [stream_error] *)
Definition stream_error (id message : string) : WorkerResponse := response_frame id (Some "api-error") (Some "RUV1704") (Some message).

(** Whether a frame opens a stream. *)
Definition starts_stream (r : WorkerResponse) : bool := match frame r with Some kind => String.eqb kind "api-start" | None => false end.

(** ** Properties *)

(** A request that runs a server function, an action or a route handler is never sent twice. *)
Lemma effects_are_not_idempotent r :
  is_idempotent r = false <->
  match r with
  | Api _ _ _ _ _ _ _ _ _ _ _ _ | Action _ _ _ _ _ _ _ _ _ | RscAction _ _ _ _ _ _ _ _ _ _ _ _ _ | RscDocument _ _ _ _ _ _ _ _ _ _ _ _ | Cancel _ => True
  | Ssr _ _ _ _ _ _ _ _ _ _ _ _ form_body => is_Some form_body
  | _ => False
  end.
Proof.
  destruct r; try done. destruct form_body; cbn; [split; [by eexists|done]|]. split; [done|]. by intros [? ?].
Qed.

Lemma stream_error_terminal id message : is_terminal (stream_error id message) = true.
Proof. done. Qed.
