(* ===== verification/WorkerIo.v ===== *)
(** * Talking to a render worker (ruvyxa_dev_server/src/worker_pool.rs)

    The bounded line reader both pipes of a worker are read with, the tags of
    its diagnostic lines, and the deadlines and budgets read from the
    environment.  A reader is the bytes it has buffered and what each later read
    of the pipe gives: bytes, or the error it fails with; no more reads is the
    end of the pipe.  Durations are milliseconds. *)
From S2P Require Import Prelude RustStr Utf8 Text JsScanner Manifest.

(** ** Definitions *)

(** *** Lines *)

Record Reader := mkReader { buffered : list ascii; reads : list (list ascii + string) }.

(** [fill_buf]: what is buffered, or else the next read. *)
Definition fill_buf (r : Reader) : (list ascii + string) * Reader :=
  match buffered r with
  | [] => match reads r with
          | [] => (inl [], r)
          | inl bytes :: rest => (inl bytes, mkReader bytes rest)
          | inr e :: rest => (inr e, mkReader [] rest)
          end
  | bytes => (inl bytes, r)
  end.

(** [consume] *)
Definition consume (n : nat) (r : Reader) : Reader := mkReader (drop n (buffered r)) (reads r).

Inductive LineRead := Line | Eof (had_data : bool) | TooLong.

(** The loop of [read_line_bounded], with the buffer so far; each round but the last uses up one read. *)
Fixpoint read_line_loop (fuel : nat) (limit : nat) (r : Reader) (buffer : list ascii) : option ((LineRead + string) * list ascii * Reader) :=
  match fuel with
  | O => None
  | S fuel =>
      match fill_buf r with
      | (inr e, r) => Some (inr e, buffer, r)
      | (inl [], r) => Some (inl (Eof (negb (bool_decide (buffer = [])))), buffer, r)
      | (inl available, r) =>
          match position (byte_is newline) available with
          | Some index =>
              if limit <? length buffer + index then Some (inl TooLong, buffer, r)
              else Some (inl Line, buffer ++ take index available, consume (index + 1) r)
          | None =>
              let consumed := length available in
              if limit <? length buffer + consumed then Some (inl TooLong, buffer, r)
              else read_line_loop fuel limit (consume consumed r) (buffer ++ available)
          end
      end
  end.

(** [read_line_bounded]: the outcome, the buffer and the reader after it. *)
Definition read_line_bounded (limit : nat) (r : Reader) : option ((LineRead + string) * list ascii * Reader) :=
  read_line_loop (S (S (length (reads r)))) limit r [].

(** The loop of the reader tasks: the lines, and why it stopped. *)
Fixpoint read_lines (fuel : nat) (limit : nat) (r : Reader) : option (list (list ascii) * (LineRead + string)) :=
  match fuel with
  | O => None
  | S fuel =>
      '(outcome, buffer, r) ← read_line_bounded limit r;
      match outcome with
      | inl Line => '(lines, stop) ← read_lines fuel limit r; Some (buffer :: lines, stop)
      | stop => Some ([], stop)
      end
  end.

(** [parse_worker_stderr_tag] *)
Definition parse_worker_stderr_tag (line : string) : option (string * string) :=
  rest ← strip_prefix "[ruvyxa:" line;
  '(level, message) ← split_once "]" rest;
  Some (level, default message (strip_prefix " " message)).

Inductive Severity := Debug | Info | Warn | Error.

(** [log_worker_stderr]: what is logged, and how loudly *)
Definition log_worker_stderr (line : string) : Severity * string :=
  match parse_worker_stderr_tag line with
  | Some ("debug", message) => (Debug, message)
  | Some ("info", message) => (Info, message)
  | Some ("warn", message) => (Warn, message)
  | Some ("error", message) => (Error, message)
  | _ => (Warn, line)
  end.

(** *** Deadlines and budgets *)

Definition DEFAULT_POOL_SIZE : N := 4.
Definition MIN_POOL_SIZE : N := 2.
Definition MAX_POOL_SIZE : N := 8.
Definition WORKER_TIMEOUT_ENV : string := "RUVYXA_WORKER_TIMEOUT_MS".
Definition DEFAULT_WORKER_TIMEOUT_MS : N := 30000.
Definition BUILD_WORKER_TIMEOUT_MS : N := 300000.
Definition MAX_NODE_TIMEOUT_MS : N := 2147483647.
Definition WORKER_TIMEOUT_GRACE : N := 5000.
Definition WORKER_SHUTDOWN_ENV : string := "RUVYXA_WORKER_SHUTDOWN_MS".
Definition DEFAULT_WORKER_SHUTDOWN_GRACE_MS : N := 5000.
Definition WORKER_SHUTDOWN_MARGIN : N := 1000.
Definition DEFAULT_ISOLATED_RENDERS_PER_WORKER : N := 32.
Definition ISOLATED_RENDER_RECYCLE_ENV : string := "RUVYXA_PRERENDER_RECYCLE_AFTER".
Definition DEFAULT_MAX_WORKER_LINE_BYTES : N := 64 * 1024 * 1024.
Definition MAX_WORKER_LINE_BYTES_ENV : string := "RUVYXA_WORKER_MAX_LINE_BYTES".
Definition WORKER_POOL_SIZE_ENV : string := "RUVYXA_WORKER_POOL_SIZE".

(** [value.trim().parse()], of an unsigned 64-bit integer *)
Definition trimmed_number (value : string) : option N := parse_u64 (trim_text (bytes_of value)).

(** [positive_worker_timeout_ms] *)
Definition positive_worker_timeout_ms (value : string) : option N :=
  n ← trimmed_number value; if ((0 <? n) && (n <=? MAX_NODE_TIMEOUT_MS))%N then Some n else None.

(** The environment of the child, and of this process. *)
Section environment.
Context (process_env : string -> option string).

Definition configured (name : string) (env : gmap string string) : option string :=
  match env !! name with Some value => Some value | None => process_env name end.

(** [configure_worker_timeout]: the environment with the normalized value, and the host's deadline *)
Definition configure_worker_timeout (env : gmap string string) (fallback_ms : N) : gmap string string * N :=
  let timeout_ms := default fallback_ms (configured WORKER_TIMEOUT_ENV env ≫= positive_worker_timeout_ms) in
  (<[WORKER_TIMEOUT_ENV := show_N timeout_ms]> env, (timeout_ms + WORKER_TIMEOUT_GRACE)%N).

(** [configure_worker_shutdown_grace] *)
Definition configure_worker_shutdown_grace (env : gmap string string) : gmap string string * N :=
  let grace_ms := default DEFAULT_WORKER_SHUTDOWN_GRACE_MS (configured WORKER_SHUTDOWN_ENV env ≫= positive_worker_timeout_ms) in
  (<[WORKER_SHUTDOWN_ENV := show_N grace_ms]> env, (grace_ms + WORKER_SHUTDOWN_MARGIN)%N).

(** [worker_shutdown_timeout] *)
Definition worker_shutdown_timeout (env : gmap string string) : N :=
  (default DEFAULT_WORKER_SHUTDOWN_GRACE_MS (env !! WORKER_SHUTDOWN_ENV ≫= positive_worker_timeout_ms) + WORKER_SHUTDOWN_MARGIN)%N.

(** [isolated_renders_per_worker] *)
Definition isolated_renders_per_worker : option N :=
  match process_env ISOLATED_RENDER_RECYCLE_ENV ≫= trimmed_number with
  | Some 0%N => None
  | Some budget => Some budget
  | None => Some DEFAULT_ISOLATED_RENDERS_PER_WORKER
  end.

(** [max_worker_line_bytes] *)
Definition max_worker_line_bytes : N :=
  match process_env MAX_WORKER_LINE_BYTES_ENV ≫= trimmed_number with
  | Some value => if (0 <? value)%N then value else DEFAULT_MAX_WORKER_LINE_BYTES
  | None => DEFAULT_MAX_WORKER_LINE_BYTES
  end.

(** The pool size of [start_with_timeout]; [parallelism] is what the machine reports. *)
Definition pool_size (worker_count parallelism : option N) : N :=
  match worker_count with
  | Some worker_count => N.min MAX_POOL_SIZE (N.max 1 worker_count)
  | None =>
      let wanted := default (default DEFAULT_POOL_SIZE parallelism) (process_env WORKER_POOL_SIZE_ENV ≫= parse_uint u64_max) in
      N.min MAX_POOL_SIZE (N.max MIN_POOL_SIZE wanted)
  end.
End environment.

(** ** Specification *)

(** The bytes of a pipe up to its end, and the error it ends with, if it does. *)
Fixpoint pipe_bytes (parts : list (list ascii + string)) : list ascii * option string :=
  match parts with
  | [] => ([], None)
  | inr e :: _ => ([], Some e)
  | inl bytes :: rest => (bytes ++ fst (pipe_bytes rest), snd (pipe_bytes rest))
  end.
Definition bytes_left (r : Reader) : list ascii := buffered r ++ fst (pipe_bytes (reads r)).
Definition ending (r : Reader) : option string := snd (pipe_bytes (reads r)).

(** Reads of a pipe before its end are not empty. *)
Definition reads_ok (r : Reader) : Prop := Forall (fun p => p <> inl []) (reads r).

(** The lines of a text that are within the limit, and why reading stops. *)
Fixpoint lines_within (fuel : nat) (limit : nat) (text : list ascii) (e : option string) : list (list ascii) * (LineRead + string) :=
  match fuel with
  | O => ([], inl TooLong)
  | S fuel =>
      match position (byte_is newline) text with
      | Some i =>
          if limit <? i then ([], inl TooLong)
          else let '(lines, stop) := lines_within fuel limit (drop (S i) text) e in (take i text :: lines, stop)
      | None =>
          ([], if limit <? length text then inl TooLong
               else match e with Some e => inr e | None => inl (Eof (negb (bool_decide (text = [])))) end)
      end
  end.

(** ** Properties *)

(** *** Reading lines *)

Lemma position_app p a b : position p (a ++ b) = match position p a with Some i => Some i | None => Nat.add (length a) <$> position p b end.
Proof.
  induction a as [|x a IH]; [cbn; by destruct (position p b)|]. cbn. destruct (p x); [done|]. rewrite IH.
  destruct (position p a); [done|]. by destruct (position p b).
Qed.

Lemma position_bound p l i : position p l = Some i -> i < length l.
Proof. intros (b & Hb & _)%position_Some. by eapply lookup_lt_Some. Qed.

(** What one call of the reader answers, of the text that is left and of how it ends. *)
Definition line_answer (limit : nat) (buffer t : list ascii) (e : option string) (res : LineRead + string) (buf : list ascii) (left : list ascii) : Prop :=
  match position (byte_is newline) t with
  | Some i =>
      if limit <? length buffer + i then res = inl TooLong
      else res = inl Line /\ buf = buffer ++ take i t /\ left = drop (S i) t
  | None =>
      if limit <? length buffer + length t then res = inl TooLong
      else buf = buffer ++ t /\ res = match e with Some e => inr e | None => inl (Eof (negb (bool_decide (buffer ++ t = [])))) end
  end.

Lemma line_answer_more limit buffer a t e res buf left : position (byte_is newline) a = None -> length buffer + length a <= limit ->
  line_answer limit (buffer ++ a) t e res buf left -> line_answer limit buffer (a ++ t) e res buf left.
Proof.
  intros Ha Hl. unfold line_answer. rewrite position_app, Ha, !length_app.
  destruct (position (byte_is newline) t) as [i|]; cbn [fmap option_fmap option_map].
  - rewrite Nat.add_assoc. destruct (limit <? _); [done|]. intros (-> & -> & ->). split_and!; [done| |].
    + rewrite <- app_assoc. f_equal. by rewrite take_app_add.
    + rewrite (drop_app_ge a t (S (length a + i))) by lia. f_equal. lia.
  - rewrite Nat.add_assoc. destruct (limit <? _); [done|]. intros [-> ->]. by rewrite <- app_assoc.
Qed.

Definition weight (r : Reader) : nat := length (reads r) + match buffered r with [] => 0 | _ => 1 end.

Lemma read_loop_spec limit fuel : forall r buffer, weight r < fuel -> reads_ok r -> length buffer <= limit ->
  exists res buf r', read_line_loop fuel limit r buffer = Some (res, buf, r') /\
    line_answer limit buffer (bytes_left r) (ending r) res buf (bytes_left r') /\
    length buf <= limit /\ (res = inl Line -> ending r' = ending r /\ reads_ok r' /\ length (reads r') <= length (reads r)).
Proof.
  induction fuel as [|fuel IH]; intros r buffer Hf Hr Hb; [lia|]. cbn [read_line_loop].
  assert (forall available rest, available <> [] -> reads_ok (mkReader available rest) -> length rest < fuel ->
    exists res buf r', match position (byte_is newline) available with
      | Some index => if limit <? length buffer + index then Some (inl TooLong, buffer, mkReader available rest)
                      else Some (inl Line, buffer ++ take index available, consume (index + 1) (mkReader available rest))
      | None => if limit <? length buffer + length available then Some (inl TooLong, buffer, mkReader available rest)
                else read_line_loop fuel limit (consume (length available) (mkReader available rest)) (buffer ++ available)
      end = Some (res, buf, r') /\
      line_answer limit buffer (bytes_left (mkReader available rest)) (ending (mkReader available rest)) res buf (bytes_left r') /\
      length buf <= limit /\
      (res = inl Line -> ending r' = ending (mkReader available rest) /\ reads_ok r' /\ length (reads r') <= length rest)) as Hmain.
  { intros available rest Hne Hok Hw. unfold bytes_left. cbn [buffered reads].
    destruct (position (byte_is newline) available) as [index|] eqn:Ep.
    - pose proof (position_bound _ _ _ Ep). unfold line_answer. rewrite position_app, Ep.
      destruct (limit <? length buffer + index) eqn:El; [by do 3 eexists; split_and!|]. apply Nat.ltb_ge in El.
      do 3 eexists. split_and!; [done|done| | | |done].
      + by rewrite take_app_le by lia.
      + cbn [consume buffered reads]. rewrite drop_app_le by lia. by rewrite Nat.add_1_r.
      + rewrite length_app, length_take. lia.
    - destruct (limit <? length buffer + length available) eqn:El.
      { do 3 eexists. split_and!; [done| |done|done]. unfold line_answer. rewrite position_app, Ep, length_app. apply Nat.ltb_lt in El.
        destruct (position (byte_is newline) (fst (pipe_bytes rest))) as [k|]; cbn [fmap option_fmap option_map]; 
          match goal with |- context [?a <? ?b] => destruct (Nat.ltb_spec a b); [done|lia] end. }
      apply Nat.ltb_ge in El. destruct (IH (consume (length available) (mkReader available rest)) (buffer ++ available)) as (res & buf & r' & H1 & H2 & H3 & H4).
      + unfold weight, consume. cbn [reads buffered]. rewrite drop_all. lia.
      + done.
      + rewrite length_app. lia.
      + exists res, buf, r'. split_and!; [done| |done|done]. apply line_answer_more; [done|done|].
        unfold bytes_left, consume in H2. cbn [reads buffered] in H2. rewrite drop_all in H2. exact H2. }
  destruct r as [bytes rest]. unfold fill_buf. cbn [buffered reads]. unfold weight in Hf. cbn [buffered reads] in Hf.
  destruct bytes as [|b bytes]; [|apply Hmain; [done|done|lia]].
  destruct rest as [|[available|e] rest].
  - do 3 eexists. split_and!; [done| |done|done]. unfold line_answer, bytes_left, ending.
    cbn [buffered reads pipe_bytes fst snd app position length]. rewrite Nat.add_0_r, app_nil_r.
    destruct (Nat.ltb_spec limit (length buffer)); [lia|]. by rewrite ?app_nil_r.
  - unfold reads_ok in Hr. cbn [reads] in Hr. apply Forall_cons in Hr as [Hne Hr]. destruct available as [|a available]; [done|].
    cbn [length] in Hf. destruct (Hmain (a :: available) rest) as (res & buf & r' & H1 & H2 & H3 & H4); [done|done|lia|].
    exists res, buf, r'. split_and!; [exact H1|exact H2|done|]. intros Hline. destruct (H4 Hline) as (E1 & E2 & E3).
    split_and!; [done|done|]. cbn [reads length]. lia.
  - do 3 eexists. split_and!; [done| |done|done]. unfold line_answer, bytes_left, ending.
    cbn [buffered reads pipe_bytes fst snd app position length]. rewrite Nat.add_0_r, app_nil_r.
    destruct (Nat.ltb_spec limit (length buffer)); [lia|]. by rewrite ?app_nil_r.
Qed.

Lemma lines_within_more limit text e : forall f1 f2, length text < f1 -> length text < f2 -> lines_within f1 limit text e = lines_within f2 limit text e.
Proof.
  intros f1 f2. remember (length text) as n eqn:En. revert text En f1 f2. induction (lt_wf n) as [n _ IH]. intros text -> [|f1] [|f2] H1 H2; try lia.
  cbn [lines_within]. destruct (position (byte_is newline) text) as [i|] eqn:Ep; [|done]. pose proof (position_bound _ _ _ Ep).
  destruct (limit <? i); [done|]. rewrite (IH (length (drop (S i) text)) ltac:(rewrite length_drop; lia) _ eq_refl f1 f2); rewrite ?length_drop; [done|lia..].
Qed.

Lemma read_lines_exact limit fuel : forall r, length (bytes_left r) < fuel -> reads_ok r ->
  read_lines fuel limit r = Some (lines_within fuel limit (bytes_left r) (ending r)).
Proof.
  induction fuel as [|fuel IH]; intros r Hf Hr; [lia|]. cbn [read_lines lines_within].
  destruct (read_loop_spec limit (S (S (length (reads r)))) r []) as (res & buf & r' & H1 & H2 & _ & H4).
  { unfold weight. destruct (buffered r); lia. } { done. } { cbn. lia. }
  unfold read_line_bounded. rewrite H1. cbn [mbind option_bind]. unfold line_answer in H2. cbn [length app] in H2.
  destruct (position (byte_is newline) (bytes_left r)) as [i|] eqn:Ep; rewrite Nat.add_0_l in H2.
  - destruct (limit <? i); [by subst|]. destruct H2 as (-> & -> & Hleft). destruct (H4 eq_refl) as (E1 & E2 & _).
    pose proof (position_bound _ _ _ Ep). rewrite IH by (rewrite ?Hleft, ?length_drop; (done || lia)). cbn [mbind option_bind].
    rewrite Hleft, E1. by destruct (lines_within _ _ _ _).
  - destruct (limit <? length (bytes_left r)); [by subst|]. destruct H2 as [-> ->]. by destruct (ending r).
Qed.

Lemma lines_within_bounded limit fuel : forall text e, Forall (fun l => length l <= limit) (fst (lines_within fuel limit text e)).
Proof.
  induction fuel as [|fuel IH]; intros text e; cbn [lines_within]; [done|].
  destruct (position (byte_is newline) text) as [i|]; [|done]. destruct (Nat.ltb_spec limit i); [done|].
  specialize (IH (drop (S i) text) e). destruct (lines_within _ _ _ _) as [ls stop]. constructor; [rewrite length_take; lia|done].
Qed.

Lemma position_no p l : Forall (fun b => p b = false) l -> position p l = None.
Proof. induction 1 as [|b l Hb _ IH]; [done|]. cbn. by rewrite Hb, IH. Qed.

Lemma lines_within_written limit ls : Forall (fun l => (newline ∉ l) /\ length l <= limit) ls -> forall fuel, length ls < fuel ->
  lines_within fuel limit (mjoin ((fun l => l ++ [newline]) <$> ls)) None = (ls, inl (Eof false)).
Proof.
  induction 1 as [|l ls [Hl Hlen] _ IH]; intros [|fuel] Hf; cbn [length] in Hf; try lia; [done|].
  change (mjoin ((fun l => l ++ [newline]) <$> l :: ls)) with ((l ++ [newline]) ++ mjoin ((fun l => l ++ [newline]) <$> ls)).
  cbn [lines_within]. rewrite <- app_assoc, position_app, (position_no _ l).
  2:{ apply Forall_forall. intros b Hb. apply not_true_iff_false. intros <-%Ascii.eqb_eq. done. }
  change (position (byte_is newline) ([newline] ++ mjoin ((fun l => l ++ [newline]) <$> ls))) with (Some 0).
  cbn [fmap option_fmap option_map]. rewrite Nat.add_0_r. destruct (Nat.ltb_spec limit (length l)); [lia|].
  rewrite (drop_app_ge l _ (S (length l))) by lia. replace (S (length l) - length l) with 1 by lia. cbn [app drop]. rewrite drop_0, IH by lia.
  by rewrite take_app_length.
Qed.

(** C26: What is read from a worker depends on the bytes it wrote and not on how
    the pipe broke them up.  However the bytes arrive, reading returns; the lines
    are those of the text, cut at its newlines, none longer than the limit, up to
    the first that is too long or to the end of the pipe, and reading stops for
    exactly that reason; lines written one by one within the limit, none holding
    a newline, are read back as they were, to a clean end. *)
Theorem worker_lines_exact limit r : reads_ok r ->
  exists lines stop, read_lines (S (length (bytes_left r))) limit r = Some (lines, stop) /\
    (lines, stop) = lines_within (S (length (bytes_left r))) limit (bytes_left r) (ending r) /\
    Forall (fun l => length l <= limit) lines /\
    forall ls, bytes_left r = mjoin ((fun l => l ++ [newline]) <$> ls) -> ending r = None -> Forall (fun l => (newline ∉ l) /\ length l <= limit) ls ->
      lines = ls /\ stop = inl (Eof false).
Proof.
  intros Hr. pose proof (read_lines_exact limit (S (length (bytes_left r))) r (Nat.lt_succ_diag_r _) Hr) as H.
  pose proof (lines_within_bounded limit (S (length (bytes_left r))) (bytes_left r) (ending r)) as Hb.
  destruct (lines_within _ limit (bytes_left r) (ending r)) as [lines stop] eqn:E. exists lines, stop. split_and!; [done|done|done|].
  intros ls Hls He Hok. rewrite Hls, He in E. rewrite lines_within_written in E; [by injection E as <- <-|done|].
  clear. induction ls as [|l ls IH]; [cbn; lia|].
  change (mjoin ((fun l => l ++ [newline]) <$> l :: ls)) with ((l ++ [newline]) ++ mjoin ((fun l => l ++ [newline]) <$> ls)).
  rewrite !length_app. cbn [length]. lia.
Qed.

Definition fragments : Reader := mkReader (bytes_of "on") [inl (bytes_of ("e" +:+ String newline "t")); inl (bytes_of ("wo" +:+ String newline ""))].

Lemma worker_lines_witness : reads_ok fragments /\
  exists lines stop, read_lines (S (length (bytes_left fragments))) 3 fragments = Some (lines, stop) /\ lines = [bytes_of "one"; bytes_of "two"] /\ stop = inl (Eof false).
Proof.
  assert (reads_ok fragments) as H by (repeat constructor; discriminate).
  destruct (worker_lines_exact 3 fragments H) as (lines & stop & H1 & _ & _ & H4). split; [exact H|]. exists lines, stop. split; [exact H1|].
  apply (H4 [bytes_of "one"; bytes_of "two"]); [vm_compute; reflexivity|reflexivity|].
  repeat constructor; cbn; try lia; intros Hin; repeat (apply elem_of_cons in Hin as [Hin|Hin]; [discriminate Hin|]); by apply elem_of_nil in Hin.
Defined.

(** *** Deadlines *)


(** *** Deadlines *)

Lemma digit_char1 d rest : is_digit d = true -> split_char1 (d :: rest) = Some ([d], rest) /\ is_char_whitespace (code_point [d]) = false.
Proof. destruct d as [[] [] [] [] [] [] [] []]; try discriminate; intros _; destruct rest as [|? [|? [|? ?]]]; split; reflexivity. Qed.

Lemma solid_digits l : forall pos, Forall (fun d => is_digit d = true) l -> solid_length (length l) l pos pos = pos + length l.
Proof.
  induction l as [|d l IH]; intros pos H; cbn [length]; [cbn; lia|]. apply Forall_cons in H as [Hd Hl].
  destruct (digit_char1 d l Hd) as [H1 H2]. cbn [solid_length]. rewrite H1, H2. cbn [length]. rewrite IH by done. lia.
Qed.

Lemma trim_digits l : Forall (fun d => is_digit d = true) l -> trim_text l = l.
Proof.
  intros H. unfold trim_text, trim_start. assert (trim_start_loop (length l) l = l) as ->.
  { destruct H as [|d l Hd Hl]; [done|]. destruct (digit_char1 d l Hd) as [H1 H2]. cbn [length trim_start_loop]. by rewrite H1, H2. }
  unfold trim_end. rewrite solid_digits by done. apply firstn_all.
Qed.

Lemma show_N_digits n : Forall (fun d => is_digit d = true) (bytes_of (show_N n)).
Proof.
  unfold show_N. assert (forall fuel n s, Forall (fun d => is_digit d = true) (bytes_of s) -> Forall (fun d => is_digit d = true) (bytes_of (dec_digits fuel n s))) as H; [|by apply H; constructor].
  clear n. intros fuel. induction fuel as [|fuel IH]; intros n s Hs; cbn [dec_digits].
  - constructor; [|done]. apply digit_byte. by apply N.mod_lt.
  - destruct (n / 10 =? 0)%N; [|apply IH]; (constructor; [|done]; apply digit_byte; by apply N.mod_lt).
Qed.

(** What the host writes into a worker's environment reads back as the number it is. *)
Lemma trimmed_show n : (n <= u64_max)%N -> trimmed_number (show_N n) = Some n.
Proof.
  intros Hn. unfold trimmed_number, parse_u64. rewrite trim_digits by apply show_N_digits.
  unfold text_of, bytes_of. rewrite String.string_of_list_ascii_of_string. by apply parse_show_N.
Qed.

Lemma positive_show n : (0 < n)%N -> (n <= MAX_NODE_TIMEOUT_MS)%N -> positive_worker_timeout_ms (show_N n) = Some n.
Proof.
  intros H1 H2. unfold positive_worker_timeout_ms. rewrite trimmed_show by (unfold MAX_NODE_TIMEOUT_MS in H2; unfold u64_max; lia). cbn [mbind option_bind].
  apply N.ltb_lt in H1. apply N.leb_le in H2. by rewrite H1, H2.
Qed.

Lemma positive_bounds value n : positive_worker_timeout_ms value = Some n -> (0 < n <= MAX_NODE_TIMEOUT_MS)%N.
Proof.
  unfold positive_worker_timeout_ms. destruct (trimmed_number value) as [k|]; [|done]. cbn [mbind option_bind].
  destruct (_ && _)%N eqn:E; [|done]. intros [= <-]. apply andb_true_iff in E as [E1%N.ltb_lt E2%N.leb_le]. done.
Qed.

Lemma positive_default (value : option string) fallback : (0 < fallback <= MAX_NODE_TIMEOUT_MS)%N ->
  (0 < default fallback (value ≫= positive_worker_timeout_ms) <= MAX_NODE_TIMEOUT_MS)%N.
Proof.
  intros Hf. destruct value as [v|]; [|done]. cbn [mbind option_bind]. destruct (positive_worker_timeout_ms v) eqn:E; [|done].
  by apply positive_bounds in E.
Qed.

(** Whatever the two environments hold, a worker and its host agree on the
    deadlines, and the worker's always comes first.  The variable a worker is
    started with is a number between one and the longest a timer can wait, it
    reads back as itself, and the host waits the grace longer for an answer and
    the margin longer for an exit; a worker started later, from the same
    environment, is given the same time to exit; a pool has at most eight
    workers and never none. *)
Theorem worker_deadlines_ordered process_env env fallback parallelism count :
  (0 < fallback <= MAX_NODE_TIMEOUT_MS)%N ->
  let '(env1, response_timeout) := configure_worker_timeout process_env env fallback in
  let '(env2, shutdown_timeout) := configure_worker_shutdown_grace process_env env1 in
  (exists n, env2 !! WORKER_TIMEOUT_ENV = Some (show_N n) /\ positive_worker_timeout_ms (show_N n) = Some n /\
     response_timeout = (n + WORKER_TIMEOUT_GRACE)%N /\ (0 < n <= MAX_NODE_TIMEOUT_MS)%N) /\
  (exists n, env2 !! WORKER_SHUTDOWN_ENV = Some (show_N n) /\ positive_worker_timeout_ms (show_N n) = Some n /\
     shutdown_timeout = (n + WORKER_SHUTDOWN_MARGIN)%N /\ (0 < n <= MAX_NODE_TIMEOUT_MS)%N) /\
  worker_shutdown_timeout env2 = shutdown_timeout /\
  (1 <= pool_size process_env count parallelism <= MAX_POOL_SIZE)%N /\
  (count = None -> (MIN_POOL_SIZE <= pool_size process_env count parallelism)%N).
Proof.
  intros Hf. unfold configure_worker_timeout, configure_worker_shutdown_grace. cbn zeta.
  set (n1 := default fallback _). pose proof (positive_default (configured process_env WORKER_TIMEOUT_ENV env) fallback Hf) as H1. fold n1 in H1.
  set (n2 := default DEFAULT_WORKER_SHUTDOWN_GRACE_MS _).
  pose proof (positive_default (configured process_env WORKER_SHUTDOWN_ENV (<[WORKER_TIMEOUT_ENV:=show_N n1]> env)) DEFAULT_WORKER_SHUTDOWN_GRACE_MS) as H2.
  fold n2 in H2. specialize (H2 ltac:(split; done)). clearbody n1 n2.
  destruct H1 as [H1 H1'], H2 as [H2 H2']. split_and!.
  - exists n1. split_and!; [|by apply positive_show|done..]. rewrite lookup_insert_ne by done. by rewrite lookup_insert_eq.
  - exists n2. split_and!; [by rewrite lookup_insert_eq|by apply positive_show|done..].
  - unfold worker_shutdown_timeout. rewrite lookup_insert_eq. cbn [mbind option_bind]. rewrite positive_show by done. done.
  - unfold pool_size, MAX_POOL_SIZE, MIN_POOL_SIZE. destruct count; lia.
  - unfold pool_size, MAX_POOL_SIZE. destruct count; lia.
  - intros ->. unfold pool_size, MAX_POOL_SIZE, MIN_POOL_SIZE. lia.
Qed.

Definition spaced_env (name : string) : option string := Some " 250 ".

Lemma worker_deadlines_witness : (0 < BUILD_WORKER_TIMEOUT_MS <= MAX_NODE_TIMEOUT_MS)%N /\
  let '(env1, _) := configure_worker_timeout spaced_env ∅ BUILD_WORKER_TIMEOUT_MS in
  let '(env2, shutdown_timeout) := configure_worker_shutdown_grace spaced_env env1 in
  worker_shutdown_timeout env2 = shutdown_timeout /\ shutdown_timeout = 1250%N /\ (1 <= pool_size spaced_env (Some 20%N) None <= MAX_POOL_SIZE)%N.
Proof.
  assert (0 < BUILD_WORKER_TIMEOUT_MS <= MAX_NODE_TIMEOUT_MS)%N as H by (split; reflexivity || discriminate).
  split; [exact H|].
  destruct (worker_deadlines_ordered spaced_env ∅ BUILD_WORKER_TIMEOUT_MS None (Some 20%N) H) as (_ & _ & H1 & H2 & _).
  split; [exact H1|]. split; [vm_compute; reflexivity|exact H2].
Defined.
