(* ===== verification/Worker.v ===== *)
(** * One render worker (ruvyxa_dev_server/src/worker_pool.rs: the pending set, [Worker] and [WorkerBodyStream])

    Any number of requests share one worker process.  Each is a task of its own;
    a writer task feeds the worker's input from a bounded queue, a reader task
    delivers the frames it prints, and the pool may shut the worker down at any
    time.  A definition is what one of these does between two points at which
    the others can run, and [step] interleaves them.  The worker is arbitrary:
    it may print any frame at any time, stop reading, or end.

    A call is known by the identifier of its request, which is never drawn
    twice.  The channel of a response is the frames in it and whether its
    receiver is still there; it is closed when nobody holds a sender.  base64
    is a parameter; messages leave out the durations and frames they quote. *)
From S2P Require Import Prelude RustStr Order Manifest WorkerProtocol Runs.

(** ** Definitions *)

(** *** The pending set *)

(** The entries by identifier; the sender of an entry is that of the call's channel. *)
Record PendingResponseSet := mkPending { entries : gset string; count : N }.

Definition empty_pending : PendingResponseSet := mkPending ∅ 0.

(** [insert] *)
Definition insert (id : string) (s : PendingResponseSet) : PendingResponseSet :=
  mkPending ({[id]} ∪ entries s) (if decide (id ∈ entries s) then count s else count s + 1).

(** [remove]: whether there was an entry *)
Definition remove (id : string) (s : PendingResponseSet) : bool * PendingResponseSet :=
  if decide (id ∈ entries s) then (true, mkPending (entries s ∖ {[id]}) (count s - 1)) else (false, s).

(** [response]: whether there is an entry, which a terminal frame takes *)
Definition response (id : string) (terminal : bool) (s : PendingResponseSet) : bool * PendingResponseSet :=
  if terminal then remove id s else (bool_decide (id ∈ entries s), s).

(** [take_all]: the entries, in the order of the map *)
Definition take_all (s : PendingResponseSet) : list string * PendingResponseSet :=
  (sort_by String.compare (elements (entries s)), empty_pending).

(** [clear] *)
Definition clear (s : PendingResponseSet) : PendingResponseSet := empty_pending.

(** *** Calls and channels *)

Definition MAX_PENDING_RESPONSE_FRAMES : nat := 16.
Definition STDIN_QUEUE : nat := 256.
Definition MAX_CONSECUTIVE_WORKER_TIMEOUTS : N := 3.

Record Channel := mkChannel { frames : list WorkerResponse; receiver : bool; streaming : bool }.

(** [WorkerSendFailure] *)
Inductive WorkerSendFailure := Transport (message : string) | Timeout (consecutive : N).

(** [warrants_replacement] *)
Definition warrants_replacement (f : WorkerSendFailure) : bool :=
  match f with Transport _ => true | Timeout consecutive => (MAX_CONSECUTIVE_WORKER_TIMEOUTS <=? consecutive)%N end.

(** What a call waited for and got. *)
Inductive Received := Answer (r : WorkerResponse) | Closed | TimedOut | Unexpected (r : WorkerResponse).

Inductive Outcome := Answered (r : WorkerResponse) | Failed (f : WorkerSendFailure) | StreamEnded.

(** What a body stream yields. *)
Inductive ErrorKind := InvalidData | Other | UnexpectedEof | IdleTimeout.
Inductive Item := Bytes (encoded : string) | ItemError (kind : ErrorKind) (message : string).

(** An item as the consumer reads it, with base64's decoder. *)
Definition delivered (decode : string -> list ascii + string) (i : Item) : list ascii + (ErrorKind * string) :=
  match i with
  | Bytes encoded => match decode encoded with
                     | inl bytes => inl bytes
                     | inr error => inr (InvalidData, "API stream chunk was not valid base64: " +:+ error)
                     end
  | ItemError kind message => inr (kind, message)
  end.

(** Where a call is; [Abandoned] is a future that was dropped. *)
Inductive Phase :=
  | Checking | Connecting | Registering | Rechecking | Refusing (message : string) | Enqueueing | Arming
  | Waiting | Collecting (x : Received) | Concluding (x : Received)
  | Streaming | Removing | Draining | Forgetting
  | Done (o : Outcome) | Abandoned.

(** [api] calls are [start_api_response], the others [send]; [handle] is whether the call can still withdraw. *)
Record Call := mkCall { api : bool; phase : Phase; handle : bool; body : list Item; trailer : option WorkerResponse }.

Inductive InputLine := RequestLine (id : string) | CancelLine (id : string) | InvalidateLine.

Inductive Writer := Writing | WriteFailed | WriteNotifying (ids : list string) | WriterStopped.

Inductive ReaderTask := Reading | Found (id : string) (r : WorkerResponse) | Delivering (id : string) (r : WorkerResponse)
  | ForgettingEntry (id : string) | ReadEnded | ReadNotifying (ids : list string) | ReaderExited.

Record Worker := mkWorker {
  alive : bool;
  stdin_open : bool;
  input : list InputLine;
  writer : Writer;
  reader : ReaderTask;
  pending : PendingResponseSet;
  channels : gmap string Channel;
  calls : gmap string Call;
  consecutive_timeouts : N;
}.

(** A worker as [Worker::spawn] returns it. *)
Definition spawned : Worker := mkWorker true true [] Writing Reading empty_pending ∅ ∅ 0.

Definition with_pending (p : PendingResponseSet) (w : Worker) : Worker :=
  mkWorker (alive w) (stdin_open w) (input w) (writer w) (reader w) p (channels w) (calls w) (consecutive_timeouts w).
Definition with_input (l : list InputLine) (w : Worker) : Worker :=
  mkWorker (alive w) (stdin_open w) l (writer w) (reader w) (pending w) (channels w) (calls w) (consecutive_timeouts w).
Definition with_call (id : string) (c : Call) (w : Worker) : Worker :=
  mkWorker (alive w) (stdin_open w) (input w) (writer w) (reader w) (pending w) (channels w) (<[id := c]> (calls w)) (consecutive_timeouts w).
Definition with_channel (id : string) (ch : Channel) (w : Worker) : Worker :=
  mkWorker (alive w) (stdin_open w) (input w) (writer w) (reader w) (pending w) (<[id := ch]> (channels w)) (calls w) (consecutive_timeouts w).
Definition with_timeouts (n : N) (w : Worker) : Worker :=
  mkWorker (alive w) (stdin_open w) (input w) (writer w) (reader w) (pending w) (channels w) (calls w) n.
Definition with_writer (x : Writer) (w : Worker) : Worker :=
  mkWorker (alive w) (stdin_open w) (input w) x (reader w) (pending w) (channels w) (calls w) (consecutive_timeouts w).
Definition with_reader (x : ReaderTask) (w : Worker) : Worker :=
  mkWorker (alive w) (stdin_open w) (input w) (writer w) x (pending w) (channels w) (calls w) (consecutive_timeouts w).
Definition not_alive (w : Worker) : Worker :=
  mkWorker false (stdin_open w) (input w) (writer w) (reader w) (pending w) (channels w) (calls w) (consecutive_timeouts w).
Definition stdin_taken (w : Worker) : Worker :=
  mkWorker (alive w) false (input w) (writer w) (reader w) (pending w) (channels w) (calls w) (consecutive_timeouts w).

Definition at_phase (p : Phase) (c : Call) : Call := mkCall (api c) p (handle c) (body c) (trailer c).
Definition armed (h : bool) (c : Call) : Call := mkCall (api c) (phase c) h (body c) (trailer c).
Definition yields (i : Item) (c : Call) : Call := mkCall (api c) (phase c) (handle c) (body c ++ [i]) (trailer c).
Definition ends_with (r : WorkerResponse) (c : Call) : Call := mkCall (api c) (phase c) (handle c) (body c) (Some r).

Definition go (id : string) (c : Call) (p : Phase) (w : Worker) : Worker := with_call id (at_phase p c) w.

(** The receiver of a channel is dropped, and what was in it. *)
Definition drop_receiver (id : string) (w : Worker) : Worker :=
  match channels w !! id with Some ch => with_channel id (mkChannel [] false (streaming ch)) w | None => w end.

(** [pending.remove(id)] *)
Definition forget (id : string) (w : Worker) : Worker := with_pending (snd (remove id (pending w))) w.

(** Who holds a sender of the channel of [id]. *)
Definition reader_holds (id : string) (r : ReaderTask) : bool :=
  match r with
  | Found id' _ | Delivering id' _ => bool_decide (id' = id)
  | ReadNotifying ids => bool_decide (id ∈ ids)
  | _ => false
  end.
Definition writer_holds (id : string) (x : Writer) : bool := match x with WriteNotifying ids => bool_decide (id ∈ ids) | _ => false end.
Definition held (id : string) (w : Worker) : bool :=
  bool_decide (id ∈ entries (pending w)) || reader_holds id (reader w) || writer_holds id (writer w).

(** [try_send] on the input queue *)
Definition try_send (l : InputLine) (w : Worker) : Worker :=
  match writer w with
  | WriterStopped => w
  | _ => if length (input w) <? STDIN_QUEUE then with_input (input w ++ [l]) w else w
  end.

(** [WorkerCancelHandle::withdraw] *)
Definition withdraw (id : string) (c : Call) (w : Worker) : Worker := if handle c then try_send (CancelLine id) w else w.

(** *** What a call does *)

(** What [poll_next] makes of a frame of a stream. *)
Definition poll_frame (id : string) (c : Call) (r : WorkerResponse) (w : Worker) : Worker :=
  let kind := default "" (frame r) in
  if String.eqb kind "api-chunk" then
    with_call id (yields (match body_base64 r with
                          | Some encoded => Bytes encoded
                          | None => ItemError InvalidData "API stream chunk did not include bodyBase64"
                          end) c) w
  else if String.eqb kind "api-error" then
    drop_receiver id (go id (yields (ItemError Other (default "Node worker API stream failed" (response_message r))) c) (Done StreamEnded) w)
  else if String.eqb kind "api-end" then drop_receiver id (go id (ends_with r c) (Done StreamEnded) w)
  else go id (yields (ItemError InvalidData "Unexpected worker API stream frame") c) Removing w.

(** What [start_api_response] makes of the first frame. *)
Definition first_frame (id : string) (c : Call) (r : WorkerResponse) (w : Worker) : Worker :=
  let w := with_timeouts 0 w in
  match frame r with
  | Some kind =>
      if String.eqb kind "api-start" then
        let w := match channels w !! id with Some ch => with_channel id (mkChannel (frames ch) (receiver ch) true) w | None => w end in
        with_call id (armed (stdin_open w) (at_phase Streaming c)) w
      else go id c (Collecting (Unexpected r)) w
  | None => drop_receiver id (go id c (Done (Answered r)) w)
  end.

(** A call receives a frame, or learns that its channel is closed; [None]: it waits. *)
Definition receive (id : string) (c : Call) (w : Worker) : option Worker :=
  ch ← channels w !! id;
  match frames ch with
  | r :: rest =>
      let w := with_channel id (mkChannel rest (receiver ch) (streaming ch)) w in
      Some (match phase c with
            | Waiting => if api c then first_frame id c r w else go id c (Collecting (Answer r)) w
            | Streaming => poll_frame id c r w
            | _ => w
            end)
  | [] =>
      if held id w then None
      else Some (match phase c with
                 | Waiting => if api c then drop_receiver id (go id c (Done (Failed (Transport "Worker response channel closed unexpectedly"))) w)
                              else go id c (Collecting Closed) w
                 | Streaming => drop_receiver id (go id (yields (ItemError UnexpectedEof "Node worker API stream ended before api-end") c) (Done StreamEnded) w)
                 | _ => go id c Forgetting w
                 end)
  end.

(** How a call that collected [x] ends. *)
Definition conclude (id : string) (c : Call) (x : Received) (w : Worker) : Worker :=
  let w := drop_receiver id w in
  match x with
  | Answer r => go id c (Done (Answered r)) (with_timeouts 0 w)
  | Closed => go id c (Done (Failed (Transport "Worker response channel closed unexpectedly"))) w
  | TimedOut =>
      let n := (consecutive_timeouts w + 1)%N in
      go id c (Done (Failed (Timeout n))) (withdraw id c (with_timeouts n w))
  | Unexpected r => go id c (Done (Failed (Transport "Worker returned an unexpected first API response frame"))) (withdraw id c w)
  end.

(** The next thing a call does by itself; [None]: nothing, it waits or has ended. *)
Definition own_step (id : string) (w : Worker) : option Worker :=
  c ← calls w !! id;
  match phase c with
  | Checking => Some (go id c (if alive w then Connecting else Done (Failed (Transport "Worker process has exited"))) w)
  | Connecting => Some (go id c (if stdin_open w then Registering else Done (Failed (Transport "Worker process is shutting down"))) w)
  | Registering => Some (go id c Rechecking (with_channel id (mkChannel [] true false) (with_pending (insert id (pending w)) w)))
  | Rechecking => Some (go id c (if alive w then Enqueueing else Refusing "Worker process has exited") w)
  | Refusing message => Some (drop_receiver id (go id c (Done (Failed (Transport message))) (forget id w)))
  | Enqueueing =>
      match writer w with
      | WriterStopped => Some (go id c (Refusing "Worker process stdin closed") w)
      | _ => if length (input w) <? STDIN_QUEUE then Some (go id c Arming (with_input (input w ++ [RequestLine id]) w)) else None
      end
  | Arming => Some (with_call id (armed (stdin_open w) (at_phase Waiting c)) w)
  | Waiting | Streaming | Draining => receive id c w
  | Collecting x => Some (go id c (Concluding x) (forget id w))
  | Concluding x => Some (conclude id c x w)
  | Removing | Forgetting => Some (drop_receiver id (go id c (Done StreamEnded) (forget id w)))
  | Done _ | Abandoned => None
  end.

(** Its deadline passes: only while there is nothing else for it to do. *)
Definition deadline (id : string) (w : Worker) : option Worker :=
  match own_step id w with
  | Some _ => None
  | None =>
      c ← calls w !! id;
      match phase c with
      | Enqueueing => Some (go id c (Refusing "Worker did not accept a request; its input queue is full") w)
      | Waiting => Some (go id c (Collecting TimedOut) w)
      | Streaming => Some (go id (yields (ItemError IdleTimeout "Worker API response stream was idle") c) Removing w)
      | Draining => Some (go id c Forgetting w)
      | _ => None
      end
  end.

(** It is dropped, where it awaits: a future stops, a stream leaves a task that drains it. *)
Definition abandon (id : string) (w : Worker) : option Worker :=
  c ← calls w !! id;
  match phase c with
  | Registering => Some (go id c Abandoned w)
  | Refusing _ | Enqueueing => Some (drop_receiver id (go id c Abandoned w))
  | Waiting | Collecting _ => Some (drop_receiver id (go id c Abandoned (withdraw id c w)))
  | Streaming => Some (go id (armed false c) Draining (withdraw id c w))
  | _ => None
  end.

(** *** What the worker's tasks do *)

(** The reader reads a frame and looks for its entry. *)
Definition read_frame (r : WorkerResponse) (w : Worker) : option Worker :=
  match reader w with
  | Reading =>
      let '(known, pending) := response (response_id r) (is_terminal r) (pending w) in
      Some (with_pending pending (if known then with_reader (Found (response_id r) r) w else w))
  | _ => None
  end.

(** The reader goes on with what it read. *)
Definition deliver (w : Worker) : option Worker :=
  match reader w with
  | Found id r =>
      let w := match starts_stream r, channels w !! id with
               | true, Some ch => with_channel id (mkChannel (frames ch) (receiver ch) true) w
               | _, _ => w
               end in
      Some (with_reader (Delivering id r) w)
  | Delivering id r =>
      ch ← channels w !! id;
      if receiver ch then
        if length (frames ch) <? MAX_PENDING_RESPONSE_FRAMES
        then Some (with_reader Reading (with_channel id (mkChannel (frames ch ++ [r]) true (streaming ch)) w))
        else None
      else Some (with_reader (ForgettingEntry id) w)
  | ForgettingEntry id => Some (with_reader Reading (forget id w))
  | _ => None
  end.

(** One entry of a worker that is gone: the consumer of a stream is told, another's sender is dropped; [None]: the channel is full. *)
Definition notify (message : string) (id : string) (w : Worker) : option Worker :=
  match channels w !! id with
  | None => Some w
  | Some ch =>
      if negb (streaming ch) || negb (receiver ch) then Some w
      else if length (frames ch) <? MAX_PENDING_RESPONSE_FRAMES
      then Some (with_channel id (mkChannel (frames ch ++ [stream_error id message]) true true) w)
      else None
  end.

(** The reader's pipe has ended, been broken, or lost its framing. *)
Definition read_end (w : Worker) : option Worker :=
  match reader w with
  | Reading => Some (with_reader ReadEnded (not_alive w))
  | ReadEnded => let '(ids, p) := take_all (pending w) in Some (with_reader (ReadNotifying ids) (with_pending p w))
  | ReadNotifying (id :: ids) =>
      with_reader (ReadNotifying ids) <$> notify "Node worker exited before completing API response stream" id w
  | ReadNotifying [] => Some (with_reader ReaderExited w)
  | _ => None
  end.

(** The writer writes a line. *)
Definition write_line (w : Worker) : option Worker :=
  match writer w, input w with Writing, _ :: rest => Some (with_input rest w) | _, _ => None end.

(** The writer fails to write a line, and goes on from there. *)
Definition write_end (w : Worker) : option Worker :=
  match writer w with
  | Writing => match input w with _ :: rest => Some (with_writer WriteFailed (not_alive (with_input rest w))) | [] => None end
  | WriteFailed => let '(ids, p) := take_all (pending w) in Some (with_writer (WriteNotifying ids) (with_pending p w))
  | WriteNotifying (id :: ids) =>
      with_writer (WriteNotifying ids) <$> notify "Node worker stdin closed before completing API response stream" id w
  | WriteNotifying [] => Some (with_writer WriterStopped w)
  | WriterStopped => None
  end.

(** A call that holds a sender of the input queue. *)
Definition holds_input (c : Call) : bool :=
  match phase c with Registering | Rechecking | Refusing _ | Enqueueing => true | Done _ | Abandoned => false | _ => handle c end.

(** The queue is closed once nobody can write to it. *)
Definition writer_stops (w : Worker) : option Worker :=
  match writer w, input w with
  | Writing, [] =>
      if stdin_open w || existsb (fun c => holds_input (snd c)) (map_to_list (calls w)) then None else Some (with_writer WriterStopped w)
  | _, _ => None
  end.

(** [Worker::shutdown], in its three parts, and [try_queue_invalidation]. *)
Definition shutdown_stdin (w : Worker) : Worker := stdin_taken w.
Definition shutdown_clear (w : Worker) : Worker := with_pending (clear (pending w)) w.
Definition try_queue_invalidation (w : Worker) : Worker := if stdin_open w then try_send InvalidateLine w else w.

(** A request is made: its call begins. *)
Definition begin (id : string) (api : bool) (w : Worker) : option Worker :=
  match calls w !! id with Some _ => None | None => Some (with_call id (mkCall api Checking false [] None) w) end.

(** *** Interleavings *)

Inductive Label := Own (id : string) | Deadline (id : string) | Abandon (id : string) | Task.

Inductive step : Worker -> Label -> Worker -> Prop :=
  | step_own id w w' : own_step id w = Some w' -> step w (Own id) w'
  | step_deadline id w w' : deadline id w = Some w' -> step w (Deadline id) w'
  | step_abandon id w w' : abandon id w = Some w' -> step w (Abandon id) w'
  | step_begin id api w w' : begin id api w = Some w' -> step w Task w'
  | step_read r w w' : read_frame r w = Some w' -> step w Task w'
  | step_deliver w w' : deliver w = Some w' -> step w Task w'
  | step_read_end w w' : read_end w = Some w' -> step w Task w'
  | step_write w w' : write_line w = Some w' -> step w Task w'
  | step_write_end w w' : write_end w = Some w' -> step w Task w'
  | step_writer_stops w w' : writer_stops w = Some w' -> step w Task w'
  | step_shutdown_alive w : step w Task (not_alive w)
  | step_shutdown_stdin w : alive w = false -> step w Task (shutdown_stdin w)
  | step_shutdown_clear w : alive w = false -> stdin_open w = false -> step w Task (shutdown_clear w)
  | step_invalidate w : step w Task (try_queue_invalidation w)
  | step_idle w : step w Task w.

Definition reached : Worker -> Prop := reachable (fun w => w = spawned) step.

(** ** Specification *)

(** The frames that have not reached their call: in its channel, or with the reader. *)
Definition in_flight_frame (id : string) (w : Worker) (r : WorkerResponse) : Prop :=
  (exists ch, channels w !! id = Some ch /\ r ∈ frames ch) \/ reader w = Found id r \/ reader w = Delivering id r.

(** Phases by what a call has done: it has not registered itself; it has not been let in; it listens; its worker serves it. *)
Definition unregistered (p : Phase) : Prop := match p with Checking | Connecting | Registering => True | _ => False end.
Definition undecided (p : Phase) : Prop := match p with Rechecking | Refusing _ | Abandoned => True | _ => False end.
Definition listening (p : Phase) : Prop := match p with Rechecking | Enqueueing | Arming | Waiting | Streaming | Draining => True | _ => False end.
Definition counted (p : Phase) : Prop := match p with Rechecking | Enqueueing | Arming | Waiting | Streaming => True | _ => False end.
Definition over (p : Phase) : Prop := match p with Concluding _ | Done _ => True | _ => False end.

(** What an answer says of the call it was given to. *)
Definition answers_own (id : string) (p : Phase) : Prop :=
  match p with
  | Collecting (Answer r) | Concluding (Answer r) | Collecting (Unexpected r) | Concluding (Unexpected r) | Done (Answered r) => response_id r = id
  | _ => True
  end.

(** The tasks that took the entries of a worker that is gone, and the calls they still have to tell. *)
Definition took (w : Worker) : Prop :=
  match reader w with ReadNotifying _ | ReaderExited => True | _ => match writer w with WriteNotifying _ => True | _ => False end end.
Definition listed (id : string) (w : Worker) : Prop :=
  (exists ids, reader w = ReadNotifying ids /\ id ∈ ids) \/ exists ids, writer w = WriteNotifying ids /\ id ∈ ids.
Definition read_for (id : string) (w : Worker) : Prop :=
  reader w = ForgettingEntry id \/ exists r, reader w = Found id r \/ reader w = Delivering id r.

(** What holds of a call between any two steps. *)
Record call_ok (id : string) (w : Worker) : Prop := {
  ok_entry : id ∈ entries (pending w) -> exists c, calls w !! id = Some c /\ ~ unregistered (phase c) /\ ~ over (phase c);
  ok_known : is_Some (channels w !! id) \/ read_for id w \/ listed id w -> exists c, calls w !! id = Some c /\ ~ unregistered (phase c);
  ok_listening : forall c, calls w !! id = Some c -> listening (phase c) -> exists ch, channels w !! id = Some ch /\ receiver ch = true;
  ok_frames : forall r, in_flight_frame id w r -> response_id r = id;
  ok_answers : forall c, calls w !! id = Some c -> answers_own id (phase c);
  ok_terminal : forall r, in_flight_frame id w r -> is_terminal r = true -> id ∉ entries (pending w);
  ok_listed : listed id w -> id ∉ entries (pending w);
  ok_taken : took w -> forall c, calls w !! id = Some c -> id ∈ entries (pending w) -> undecided (phase c);
  ok_forgetting : reader w = ForgettingEntry id -> exists ch, channels w !! id = Some ch /\ receiver ch = false;
  ok_counted : alive w = true -> forall c, calls w !! id = Some c -> counted (phase c) ->
    id ∈ entries (pending w) \/ exists r, in_flight_frame id w r /\ is_terminal r = true;
}.

Definition dying (w : Worker) : Prop := reader w = ReadEnded \/ writer w = WriteFailed \/ took w.

Record worker_ok (w : Worker) : Prop := {
  ok_count : count (pending w) = N.of_nat (size (entries (pending w)));
  ok_dying : dying w -> alive w = false;
  ok_calls : forall id, call_ok id w;
}.

(** ** Properties *)

(** *** The pending set *)

Definition exact (s : PendingResponseSet) : Prop := count s = N.of_nat (size (entries s)).

Lemma insert_exact id s : exact s -> exact (insert id s).
Proof.
  unfold exact, insert. cbn [count entries]. intros ->. destruct (decide (id ∈ entries s)).
  - by replace ({[id]} ∪ entries s) with (entries s) by set_solver.
  - rewrite size_union, size_singleton by set_solver. lia.
Qed.

Lemma remove_exact id s : exact s -> exact (snd (remove id s)).
Proof.
  unfold exact, remove. intros Hs. destruct (decide (id ∈ entries s)) as [Hin|]; [|done]. cbn [snd count entries]. rewrite Hs.
  rewrite size_difference, size_singleton by set_solver. 
  assert (size (entries s) <> 0) by (apply size_non_empty_iff; set_solver). lia.
Qed.

Lemma remove_entries id s : entries (snd (remove id s)) = entries s ∖ {[id]}.
Proof. unfold remove. destruct (decide (id ∈ entries s)); [done|]. cbn. set_solver. Qed.

Lemma remove_known id s : fst (remove id s) = bool_decide (id ∈ entries s).
Proof. unfold remove. destruct (decide (id ∈ entries s)); [by rewrite bool_decide_true|by rewrite bool_decide_false]. Qed.

(** *** Frames of a step *)

(** Nothing a call depends on changed. *)
Record same_view (id : string) (w w' : Worker) : Prop := {
  same_entry : id ∈ entries (pending w') <-> id ∈ entries (pending w);
  same_call : calls w' !! id = calls w !! id;
  same_channel : channels w' !! id = channels w !! id;
  same_read : forall r, (reader w' = Found id r \/ reader w' = Delivering id r) <-> (reader w = Found id r \/ reader w = Delivering id r);
  same_forgetting : reader w' = ForgettingEntry id <-> reader w = ForgettingEntry id;
  same_listed : listed id w' -> listed id w;
  same_took : took w' -> took w;
  same_alive : alive w' = true -> alive w = true;
}.

Lemma same_view_ok id w w' : same_view id w w' -> call_ok id w -> call_ok id w'.
Proof.
  intros [V1 V2 V3 V4 V5 V6 V7 V8] [O1 O2 O3 O4 O5 O6 O7 O8 O9 O10].
  assert (forall r, in_flight_frame id w' r <-> in_flight_frame id w r) as Hf by (intros r; unfold in_flight_frame; rewrite V3; by rewrite V4).
  constructor; rewrite ?V2, ?V3.
  - rewrite V1. done.
  - intros [H|[[H|(r & H)]|H]]; apply O2; [by left|right; left; left; by apply V5|right; left; right; exists r; by apply V4|right; right; by apply V6].
  - done.
  - intros r Hr. by apply O4, Hf.
  - done.
  - intros r Hr. rewrite V1. by apply O6, Hf.
  - intros Hl. rewrite V1. by apply O7, V6.
  - intros Ht c Hc. rewrite V1. by apply O8; [apply V7|].
  - rewrite V5. done.
  - intros Ha c Hc Hs. rewrite V1. setoid_rewrite Hf. by apply (O10 (V8 Ha) c).
Qed.

(** Only call [id] is touched, and no task of the worker. *)
Record local (id : string) (w w' : Worker) : Prop := {
  local_reader : reader w' = reader w;
  local_writer : writer w' = writer w;
  local_alive : alive w' = alive w;
  local_entries : forall id', id' <> id -> id' ∈ entries (pending w') <-> id' ∈ entries (pending w);
  local_calls : forall id', id' <> id -> calls w' !! id' = calls w !! id';
  local_channels : forall id', id' <> id -> channels w' !! id' = channels w !! id';
}.

Lemma local_refl id w : local id w w.
Proof. by constructor. Qed.

Lemma local_call id c w w1 : local id w w1 -> local id w (with_call id c w1).
Proof. intros [H1 H2 H3 H4 H5 H6]. constructor; cbn; try done. intros id' Hne. rewrite lookup_insert_ne by done. by apply H5. Qed.

Lemma local_go id c p w w1 : local id w w1 -> local id w (go id c p w1).
Proof. apply local_call. Qed.

Lemma local_channel id ch w w1 : local id w w1 -> local id w (with_channel id ch w1).
Proof. intros [H1 H2 H3 H4 H5 H6]. constructor; cbn; try done. intros id' Hne. rewrite lookup_insert_ne by done. by apply H6. Qed.

Lemma local_same id w w1 w2 : local id w w1 -> reader w2 = reader w1 -> writer w2 = writer w1 -> alive w2 = alive w1 -> pending w2 = pending w1 ->
  calls w2 = calls w1 -> channels w2 = channels w1 -> local id w w2.
Proof. intros [H1 H2 H3 H4 H5 H6] E1 E2 E3 E4 E5 E6. constructor; rewrite ?E1, ?E2, ?E3, ?E4, ?E5, ?E6; done. Qed.

Lemma local_timeouts id n w w1 : local id w w1 -> local id w (with_timeouts n w1).
Proof. intros H. by apply (local_same id w w1). Qed.

Lemma local_input id l w w1 : local id w w1 -> local id w (with_input l w1).
Proof. intros H. by apply (local_same id w w1). Qed.

Lemma try_send_same l w : try_send l w = w \/ try_send l w = with_input (input w ++ [l]) w.
Proof. unfold try_send. destruct (writer w), (length (input w) <? STDIN_QUEUE); auto. Qed.

Lemma local_withdraw id c w w1 : local id w w1 -> local id w (withdraw id c w1).
Proof. intros H. unfold withdraw. destruct (handle c); [|done]. destruct (try_send_same (CancelLine id) w1) as [->| ->]; [done|by apply local_input]. Qed.

Lemma local_forget id w w1 : local id w w1 -> local id w (forget id w1).
Proof.
  intros [H1 H2 H3 H4 H5 H6]. constructor; try done. intros id' Hne. unfold forget. cbn. rewrite remove_entries, <- H4 by done. set_solver.
Qed.

Lemma local_insert id w w1 : local id w w1 -> local id w (with_pending (insert id (pending w1)) w1).
Proof. intros [H1 H2 H3 H4 H5 H6]. constructor; try done. intros id' Hne. cbn. rewrite <- H4 by done. set_solver. Qed.

Lemma local_drop id w w1 : local id w w1 -> local id w (drop_receiver id w1).
Proof. intros H. unfold drop_receiver. destruct (channels w1 !! id); [by apply local_channel|done]. Qed.

Ltac locals :=
  repeat first [apply local_refl | apply local_drop | apply local_go | apply local_call | apply local_channel | apply local_timeouts
               | apply local_withdraw | apply local_forget | apply local_insert | apply local_input].

Lemma local_view id w w' id' : local id w w' -> id' <> id -> same_view id' w w'.
Proof.
  intros [H1 H2 H3 H4 H5 H6] Hne. constructor; unfold listed, took; rewrite ?H1, ?H2, ?H3; try done; [by apply H4|by apply H5|by apply H6].
Qed.

Lemma local_dying id w w' : local id w w' -> dying w' <-> dying w.
Proof. intros [H1 H2 _ _ _ _]. unfold dying, took. by rewrite H1, H2. Qed.

(** The count after each of them. *)
Lemma pending_drop id w : pending (drop_receiver id w) = pending w.
Proof. unfold drop_receiver. by destruct (channels w !! id). Qed.

Lemma pending_withdraw id c w : pending (withdraw id c w) = pending w.
Proof. unfold withdraw. destruct (handle c); [|done]. by destruct (try_send_same (CancelLine id) w) as [->| ->]. Qed.

Lemma calls_drop id w : calls (drop_receiver id w) = calls w.
Proof. unfold drop_receiver. by destruct (channels w !! id). Qed.

Lemma channels_withdraw id c w : channels (withdraw id c w) = channels w.
Proof. unfold withdraw. destruct (handle c); [|done]. by destruct (try_send_same (CancelLine id) w) as [->| ->]. Qed.

Lemma channels_drop id w : channels (drop_receiver id w) !! id = (fun ch => mkChannel [] false (streaming ch)) <$> channels w !! id.
Proof. unfold drop_receiver. destruct (channels w !! id) eqn:E; [cbn; by rewrite lookup_insert_eq|by rewrite E]. Qed.

(** A step of a call leaves its channel no more than it was. *)
Definition channel_shrinks (old new : option Channel) : Prop :=
  match old, new with
  | None, None => True
  | Some ch, Some ch' => (forall r, r ∈ frames ch' -> r ∈ frames ch) /\ (receiver ch' = true -> receiver ch = true)
  | _, _ => False
  end.

Lemma own_ok id w w' c c' : call_ok id w -> local id w w' -> calls w !! id = Some c -> calls w' !! id = Some c' ->
  (id ∈ entries (pending w') -> id ∈ entries (pending w)) ->
  (unregistered (phase c') -> unregistered (phase c)) ->
  (over (phase c') -> id ∉ entries (pending w')) ->
  channel_shrinks (channels w !! id) (channels w' !! id) ->
  (listening (phase c') -> exists ch, channels w' !! id = Some ch /\ receiver ch = true) ->
  answers_own id (phase c') ->
  (took w -> id ∈ entries (pending w') -> undecided (phase c) -> undecided (phase c')) ->
  (alive w = true -> counted (phase c') -> id ∈ entries (pending w') \/ exists r, in_flight_frame id w' r /\ is_terminal r = true) ->
  call_ok id w'.
Proof.
  intros [O1 O2 O3 O4 O5 O6 O7 O8 O9 O10] [L1 L2 L3 _ _ _] Hc Hc' He Hu Ho Hch Hl Ha Ht Hn.
  assert (forall r, in_flight_frame id w' r -> in_flight_frame id w r) as Hf.
  { intros r [(ch & H1 & H2)|H]; [|right; by rewrite L1 in H]. left. rewrite H1 in Hch. destruct (channels w !! id) as [ch0|]; [|done].
    exists ch0. split; [done|]. by apply Hch. }
  assert (listed id w' -> listed id w) as Hli by (unfold listed; by rewrite L1, L2).
  assert (~ unregistered (phase c) -> ~ unregistered (phase c')) as Hu' by tauto.
  constructor.
  - intros Hin. exists c'. destruct (O1 (He Hin)) as (c0 & H1 & H2 & _). rewrite Hc in H1. injection H1 as <-.
    split_and!; [done|by apply Hu'|]. intros Hov. by apply (Ho Hov).
  - intros H. destruct O2 as (c0 & H1 & H2); [|rewrite Hc in H1; injection H1 as <-; exists c'; split; [done|by apply Hu']].
    destruct H as [H|[H|H]]; [left|right; left|right; right; by apply Hli].
    + destruct H as [ch' H]. rewrite H in Hch. by destruct (channels w !! id).
    + unfold read_for in *. by rewrite L1 in H.
  - intros c0 H1 H2. rewrite Hc' in H1. injection H1 as <-. by apply Hl.
  - intros r Hr. by apply O4, Hf.
  - intros c0 H1. rewrite Hc' in H1. by injection H1 as <-.
  - intros r Hr Hterm Hin. by apply (O6 r (Hf r Hr) Hterm), He.
  - intros H Hin. by apply (O7 (Hli H)), He.
  - intros H c0 H1 Hin. rewrite Hc' in H1. injection H1 as <-. assert (took w) as Htw by (unfold took in *; by rewrite L1, L2 in H).
    apply Ht; [done|done|]. by apply (O8 Htw c Hc), He.
  - rewrite L1. intros H. destruct (O9 H) as (ch & H1 & H2). rewrite H1 in Hch. destruct (channels w' !! id) as [ch'|]; [|done].
    exists ch'. split; [done|]. apply not_true_iff_false. intros Hr. apply Hch in Hr. congruence.
  - rewrite L3. intros H c0 H1. rewrite Hc' in H1. injection H1 as <-. by apply Hn.
Qed.

Lemma shrinks_refl o : channel_shrinks o o.
Proof. by destruct o. Qed.

Lemma shrinks_drop o : channel_shrinks o ((fun ch => mkChannel [] false (streaming ch)) <$> o).
Proof. destruct o as [ch|]; [|done]. split; [by intros r ?%elem_of_nil|done]. Qed.

(** Before a call is registered there is nothing of it. *)
Lemma unregistered_nothing id w c : call_ok id w -> calls w !! id = Some c -> unregistered (phase c) ->
  channels w !! id = None /\ (id ∉ entries (pending w)) /\ ~ read_for id w /\ ~ listed id w.
Proof.
  intros [O1 O2 _ _ _ _ _ _ _ _] Hc Hu. split_and!.
  - apply eq_None_not_Some. intros H. destruct O2 as (c0 & H1 & H2); [by left|]. congruence.
  - intros H. destruct (O1 H) as (c0 & H1 & H2 & _). congruence.
  - intros H. destruct O2 as (c0 & H1 & H2); [by right; left|]. congruence.
  - intros H. destruct O2 as (c0 & H1 & H2); [by right; right|]. congruence.
Qed.

(** Nothing is in flight to a call that can be told its channel is closed. *)
Lemma not_held id w : held id w = false -> (id ∉ entries (pending w)) /\ forall r, reader w <> Found id r /\ reader w <> Delivering id r.
Proof.
  unfold held. rewrite !orb_false_iff. intros [[H1%bool_decide_eq_false H2] _]. split; [done|]. intros r.
  split; intros E; rewrite E in H2; cbn in H2; by rewrite bool_decide_true in H2.
Qed.

(** The entries and the channel a step of a call leaves. *)
Lemma entries_forget id w : entries (pending (forget id w)) = entries (pending w) ∖ {[id]}.
Proof. unfold forget. cbn. apply remove_entries. Qed.

Ltac look := rewrite ?calls_drop, ?pending_drop, ?pending_withdraw, ?channels_drop, ?channels_withdraw, ?entries_forget;
  cbn [go with_call with_channel with_timeouts with_input with_pending calls channels pending entries];
  rewrite ?calls_drop, ?pending_drop, ?pending_withdraw, ?channels_drop, ?channels_withdraw, ?entries_forget, ?lookup_insert_eq.

(** A step that leaves the entries and the channel of its call as they are, to a phase that is counted only if it was. *)
Lemma own_moves id w c c' : call_ok id w -> calls w !! id = Some c -> ~ over (phase c') -> unregistered (phase c') \/ ~ unregistered (phase c) ->
  (unregistered (phase c') -> unregistered (phase c)) -> (listening (phase c') -> listening (phase c)) -> answers_own id (phase c') ->
  (undecided (phase c) -> undecided (phase c') \/ (alive w = true /\ (took w -> alive w = false))) ->
  (counted (phase c') -> counted (phase c)) -> call_ok id (with_call id c' w).
Proof.
  intros Hok Hc Ho _ Hu Hl Ha Ht Hn. apply (own_ok id w _ c c'); try done.
  - locals.
  - look. done.
  - apply shrinks_refl.
  - intros H. by apply (ok_listening id w Hok c Hc), Hl.
  - intros H Hin Hund. destruct (Ht Hund) as [|[H1 H2]]; [done|]. specialize (H2 H). congruence.
  - intros H1 H2. apply (ok_counted id w Hok H1 c Hc), Hn. done.
Qed.

Ltac own_goals Ep := try done; try (by locals); try (by look); try (by look; apply shrinks_refl); try (by look; apply shrinks_drop); try (by rewrite Ep).

(** The phases before a call is served. *)
Lemma own_early_ok id w w' c : worker_ok w -> calls w !! id = Some c ->
  match phase c with Checking | Connecting | Registering | Rechecking | Refusing _ | Enqueueing | Arming => True | _ => False end ->
  own_step id w = Some w' -> call_ok id w'.
Proof.
  intros [_ Hdy Hall] Hc Hp H. pose proof (Hall id) as Hok. unfold own_step in H. rewrite Hc in H. cbn [mbind option_bind] in H.
  assert (took w -> alive w = false) as Htook by (intros Ht; apply Hdy; by right; right).
  destruct (phase c) eqn:Ep; try done.
  - injection H as <-. destruct (unregistered_nothing id w c Hok Hc) as (N1 & N2 & N3 & N4); [by rewrite Ep|].
    apply (own_ok id w _ c (at_phase (if alive w then Connecting else Done (Failed (Transport "Worker process has exited"))) c)).
    all: own_goals Ep; by destruct (alive w).
  - injection H as <-. destruct (unregistered_nothing id w c Hok Hc) as (N1 & N2 & N3 & N4); [by rewrite Ep|].
    apply (own_ok id w _ c (at_phase (if stdin_open w then Registering else Done (Failed (Transport "Worker process is shutting down"))) c)).
    all: own_goals Ep; by destruct (stdin_open w).
  - injection H as <-. destruct (unregistered_nothing id w c Hok Hc) as (N1 & N2 & N3 & N4); [by rewrite Ep|].
    assert (forall r, ~ in_flight_frame id (go id c Rechecking (with_channel id (mkChannel [] true false) (with_pending (insert id (pending w)) w))) r) as Hno.
    { intros r [(ch & H1 & H2)|Hr]; [|apply N3; right; by exists r].
      cbn in H1. rewrite lookup_insert_eq in H1. injection H1 as <-. by apply elem_of_nil in H2. }
    constructor; cbn [go with_call with_pending with_channel calls pending channels]; rewrite ?lookup_insert_eq.
    + intros _. eexists. split_and!; [done|intros []..].
    + intros _. eexists. split; [done|intros []].
    + intros c0 [= <-] _. by eexists.
    + intros r Hr. by apply Hno in Hr.
    + by intros c0 [= <-].
    + intros r Hr. by apply Hno in Hr.
    + intros Hl. by destruct (N4 Hl).
    + by intros _ c0 [= <-].
    + intros Hf. destruct N3. by left.
    + intros _ c0 [= <-] _. left. cbn. set_solver.
  - injection H as <-. apply (own_moves id w c); try done; destruct (alive w) eqn:Ea; rewrite ?Ep; try done; try (by intros []); try (by right; intros []); try (by intros _; auto).
  - injection H as <-. apply (own_ok id w _ c (at_phase (Done (Failed (Transport message))) c)).
    all: own_goals Ep; look; set_solver.
  - destruct (writer w) eqn:Ew.
    all: try (destruct (length (input w) <? STDIN_QUEUE); [|done]); injection H as <-.
    all: first [apply (own_ok id w _ c (at_phase Arming c)); [done|by locals|done|by look|..]
               |apply (own_ok id w _ c (at_phase (Refusing "Worker process stdin closed") c)); [done|by locals|done|by look|..]].
    all: own_goals Ep; try (by intros _; apply (ok_listening id w Hok c Hc); rewrite Ep).
    all: intros Ha _; apply (ok_counted id w Hok Ha c Hc); by rewrite Ep.
  - injection H as <-. apply (own_ok id w _ c (armed (stdin_open w) (at_phase Waiting c))).
    all: own_goals Ep; try (by intros _; apply (ok_listening id w Hok c Hc); rewrite Ep).
    intros Ha _. apply (ok_counted id w Hok Ha c Hc). by rewrite Ep.
Qed.

Lemma calls_withdraw id c w : calls (withdraw id c w) = calls w.
Proof. unfold withdraw. destruct (handle c); [|done]. by destruct (try_send_same (CancelLine id) w) as [->| ->]. Qed.

(** *** A call that waits *)

(** After a frame was taken from the channel, it and what is left. *)
Lemma popped id w ch r rest : channels w !! id = Some ch -> frames ch = r :: rest ->
  let w1 := with_channel id (mkChannel rest (receiver ch) (streaming ch)) w in
  in_flight_frame id w r /\ (forall r', in_flight_frame id w r' -> r' = r \/ in_flight_frame id w1 r').
Proof.
  intros Hch Hf w1. split; [left; exists ch; rewrite Hf; by split; [|left]|].
  intros r' [(ch' & H1 & H2)|H]; [|by right; right]. rewrite Hch in H1. injection H1 as <-. rewrite Hf in H2.
  apply elem_of_cons in H2 as [->|H2]; [by left|]. right. left. eexists. split; [apply lookup_insert_eq|done].
Qed.

Lemma terminal_kind r kind : frame r = Some kind -> is_terminal r = negb (String.eqb kind "api-start" || String.eqb kind "api-chunk").
Proof. unfold is_terminal. by intros ->. Qed.

(** The frame taken is not the one a counted call waits for, unless it ends the response. *)
Lemma still_counted id w ch r rest c : call_ok id w -> calls w !! id = Some c -> counted (phase c) ->
  channels w !! id = Some ch -> frames ch = r :: rest -> is_terminal r = false -> alive w = true ->
  id ∈ entries (pending w) \/ exists r', in_flight_frame id (with_channel id (mkChannel rest (receiver ch) (streaming ch)) w) r' /\ is_terminal r' = true.
Proof.
  intros Hok Hc Hn Hch Hf Ht Ha. destruct (popped id w ch r rest Hch Hf) as [_ Hp].
  destruct (ok_counted id w Hok Ha c Hc Hn) as [H|(r' & H1 & H2)]; [by left|]. right. exists r'. split; [|done].
  destruct (Hp r' H1) as [->|H]; [congruence|done].
Qed.

Lemma shrinks_pop ch r rest b : frames ch = r :: rest -> channel_shrinks (Some ch) (Some (mkChannel rest (receiver ch) b)).
Proof. intros Hf. split; [|done]. intros r' Hr. rewrite Hf. by right. Qed.

Lemma shrinks_dropped ch b : channel_shrinks (Some ch) (Some (mkChannel [] false b)).
Proof. split; [by intros r ?%elem_of_nil|done]. Qed.

Lemma first_frame_ok id w ch r rest c : worker_ok w -> calls w !! id = Some c -> phase c = Waiting -> channels w !! id = Some ch -> frames ch = r :: rest ->
  call_ok id (first_frame id c r (with_channel id (mkChannel rest (receiver ch) (streaming ch)) w)).
Proof.
  intros Hw Hc Ep Hch Hf. pose proof (ok_calls w Hw id) as Hok. destruct (popped id w ch r rest Hch Hf) as [Hin Hp].
  assert (response_id r = id) as Hid by by apply (ok_frames id w Hok).
  destruct (ok_listening id w Hok c Hc) as (ch0 & H0 & Hrc); [by rewrite Ep|]. rewrite Hch in H0. injection H0 as <-.
  unfold first_frame. destruct (frame r) as [kind|] eqn:Ek; [destruct (String.eqb_spec kind "api-start") as [->|Hne]|].
  - cbn [with_timeouts with_channel channels]. rewrite lookup_insert_eq. cbn [frames receiver].
    apply (own_ok id w _ c (armed (stdin_open w) (at_phase Streaming c))); own_goals Ep.
    + look. rewrite Hch. by eapply shrinks_pop.
    + intros _. look. eexists. split; [done|]. done.
    + intros Ha _. destruct (still_counted id w ch r rest c) as [H|(r' & [(ch' & C1 & C2)|H1] & H2)]; try done.
      * by rewrite Ep.
      * by rewrite (terminal_kind r _ Ek).
      * by left.
      * right. exists r'. split; [|done]. left. look. cbn in C1. rewrite lookup_insert_eq in C1. injection C1 as <-. eexists. by split.
      * right. exists r'. split; [|done]. by right.
  - apply (own_ok id w _ c (at_phase (Collecting (Unexpected r)) c)); own_goals Ep.
    + look. rewrite Hch. by eapply shrinks_pop.
  - apply (own_ok id w _ c (at_phase (Done (Answered r)) c)); own_goals Ep.
    + look. intros _. apply (ok_terminal id w Hok r Hin). unfold is_terminal. by rewrite Ek.
    + look. rewrite Hch. apply (shrinks_dropped ch (streaming ch)).
Qed.

Lemma poll_frame_ok id w ch r rest c : worker_ok w -> calls w !! id = Some c -> phase c = Streaming -> channels w !! id = Some ch -> frames ch = r :: rest ->
  call_ok id (poll_frame id c r (with_channel id (mkChannel rest (receiver ch) (streaming ch)) w)).
Proof.
  intros Hw Hc Ep Hch Hf. pose proof (ok_calls w Hw id) as Hok. destruct (popped id w ch r rest Hch Hf) as [Hin Hp].
  destruct (ok_listening id w Hok c Hc) as (ch0 & H0 & Hrc); [by rewrite Ep|]. rewrite Hch in H0. injection H0 as <-.
  assert (channel_shrinks (channels w !! id) (Some (mkChannel rest (receiver ch) (streaming ch)))) as Hs by (rewrite Hch; by eapply shrinks_pop).
  assert (channel_shrinks (channels w !! id) (Some (mkChannel [] false (streaming ch)))) as Hd by (rewrite Hch; apply shrinks_dropped).
  assert (forall kind, default "" (frame r) = kind -> kind <> "" -> kind <> "api-start" -> kind <> "api-chunk" -> is_terminal r = true) as Hterm.
  { intros kind <- Hne H1 H2. destruct (frame r) as [kind|] eqn:Ek; [|done]. cbn in H1, H2. rewrite (terminal_kind r kind Ek).
    by destruct (String.eqb_spec kind "api-start"), (String.eqb_spec kind "api-chunk"). }
  unfold poll_frame. destruct (String.eqb_spec (default "" (frame r)) "api-chunk") as [E1|E1];
    [|destruct (String.eqb_spec (default "" (frame r)) "api-error") as [E2|E2]; [|destruct (String.eqb_spec (default "" (frame r)) "api-end") as [E3|E3]]].
  - apply (own_ok id w _ c (yields (match body_base64 r with
                          | Some encoded => Bytes encoded
                          | None => ItemError InvalidData "API stream chunk did not include bodyBase64"
                          end) c)); own_goals Ep; cbn [yields phase]; rewrite ?Ep; own_goals Ep.
    + intros _. look. by eexists.
    + intros Ha _. destruct (frame r) as [kind|] eqn:Ek; [|done]. cbn in E1. subst kind.
      apply (still_counted id w ch r rest c); try done; [by rewrite Ep|]. by rewrite (terminal_kind r _ Ek).
  - apply (own_ok id w _ c (at_phase (Done StreamEnded) (yields (ItemError Other (default "Node worker API stream failed" (response_message r))) c))); own_goals Ep.
    look. intros _. apply (ok_terminal id w Hok r Hin). by apply (Hterm _ E2).
  - apply (own_ok id w _ c (at_phase (Done StreamEnded) (ends_with r c))); own_goals Ep.
    look. intros _. apply (ok_terminal id w Hok r Hin). by apply (Hterm _ E3).
  - apply (own_ok id w _ c (at_phase Removing (yields (ItemError InvalidData "Unexpected worker API stream frame") c))); own_goals Ep.
Qed.

Lemma receive_ok id w w' c : worker_ok w -> calls w !! id = Some c -> phase c = Waiting \/ phase c = Streaming \/ phase c = Draining ->
  receive id c w = Some w' -> call_ok id w'.
Proof.
  intros Hw Hc Hp H. pose proof (ok_calls w Hw id) as Hok. unfold receive in H. destruct (channels w !! id) as [ch|] eqn:Hch; [|done].
  cbn [mbind option_bind] in H. destruct (frames ch) as [|r rest] eqn:Hf.
  - destruct (held id w) eqn:Eh; [done|]. destruct (not_held id w Eh) as [Hn _].
    assert (channel_shrinks (channels w !! id) (Some (mkChannel [] false (streaming ch)))) as Hd by (rewrite Hch; apply shrinks_dropped).
    assert (channel_shrinks (channels w !! id) (channels w !! id)) as Hs by apply shrinks_refl.
    destruct Hp as [Ep|[Ep|Ep]]; rewrite Ep in H; [destruct (api c)|..]; injection H as <-.
    + apply (own_ok id w _ c (at_phase (Done (Failed (Transport "Worker response channel closed unexpectedly"))) c)); own_goals Ep; by look; rewrite Hch.
    + apply (own_ok id w _ c (at_phase (Collecting Closed) c)); own_goals Ep.
    + apply (own_ok id w _ c (at_phase (Done StreamEnded) (yields (ItemError UnexpectedEof "Node worker API stream ended before api-end") c))); own_goals Ep; by look; rewrite Hch.
    + apply (own_ok id w _ c (at_phase Forgetting c)); own_goals Ep.
  - injection H as <-. destruct Hp as [Ep|[Ep|Ep]]; rewrite Ep; [destruct (api c)|..].
    + by apply first_frame_ok.
    + destruct (popped id w ch r rest Hch Hf) as [Hin _]. assert (response_id r = id) as Hid by by apply (ok_frames id w Hok).
      apply (own_ok id w _ c (at_phase (Collecting (Answer r)) c)); own_goals Ep. look. rewrite Hch. by eapply shrinks_pop.
    + by apply poll_frame_ok.
    + destruct (ok_listening id w Hok c Hc) as (ch0 & H0 & Hrc); [by rewrite Ep|]. rewrite Hch in H0. injection H0 as <-.
      apply (own_ok id w _ c c); own_goals Ep.
      * look. rewrite Hch. by eapply shrinks_pop.
      * intros _. look. by eexists.
Qed.

Lemma over_gone id w c : call_ok id w -> calls w !! id = Some c -> over (phase c) -> id ∉ entries (pending w).
Proof. intros Hok Hc Ho Hin. destruct (ok_entry id w Hok Hin) as (c0 & H1 & _ & H2). rewrite Hc in H1. by injection H1 as <-. Qed.

Lemma shrinks_dropped_at id w : channel_shrinks (channels w !! id) (channels (drop_receiver id w) !! id).
Proof. rewrite channels_drop. apply shrinks_drop. Qed.

Lemma conclude_ok id w c x : worker_ok w -> calls w !! id = Some c -> phase c = Concluding x -> call_ok id (conclude id c x w).
Proof.
  intros Hw Hc Ep. pose proof (ok_calls w Hw id) as Hok. pose proof (ok_answers id w Hok c Hc) as Ha. rewrite Ep in Ha.
  assert (id ∉ entries (pending w)) as Hn by (apply (over_gone id w c); [done|done|by rewrite Ep]).
  assert (forall w1 o, local id w w1 -> pending w1 = pending w -> calls w1 = calls w -> channels w1 !! id = channels (drop_receiver id w) !! id ->
    answers_own id (Done o) -> call_ok id (go id c (Done o) w1)) as Hdone.
  { intros w1 o H1 H2 H3 H4 H5. apply (own_ok id w _ c (at_phase (Done o) c)); own_goals Ep; try (by apply local_go); look; rewrite ?H2, ?H4; try done.
    apply shrinks_dropped_at. }
  unfold conclude. destruct x as [r| | |r]; apply Hdone; try done; try (by locals); rewrite ?calls_withdraw; look; by rewrite ?pending_drop, ?calls_drop.
Qed.

Lemma own_late_ok id w w' c : worker_ok w -> calls w !! id = Some c ->
  match phase c with Collecting _ | Concluding _ | Removing | Forgetting => True | _ => False end -> own_step id w = Some w' -> call_ok id w'.
Proof.
  intros Hw Hc Hp H. pose proof (ok_calls w Hw id) as Hok. unfold own_step in H. rewrite Hc in H. cbn [mbind option_bind] in H.
  destruct (phase c) eqn:Ep; try done; injection H as <-.
  - pose proof (ok_answers id w Hok c Hc) as Ha. rewrite Ep in Ha.
    apply (own_ok id w _ c (at_phase (Concluding x) c)); own_goals Ep; look; set_solver.
  - by apply conclude_ok.
  - apply (own_ok id w _ c (at_phase (Done StreamEnded) c)); own_goals Ep; look; set_solver.
  - apply (own_ok id w _ c (at_phase (Done StreamEnded) c)); own_goals Ep; look; set_solver.
Qed.

(** *** Deadlines and dropped futures *)

Lemma deadline_ok id w w' : worker_ok w -> deadline id w = Some w' -> call_ok id w'.
Proof.
  intros Hw H. pose proof (ok_calls w Hw id) as Hok. unfold deadline in H. destruct (own_step id w); [done|].
  destruct (calls w !! id) as [c|] eqn:Hc; [|done]. cbn [mbind option_bind] in H. destruct (phase c) eqn:Ep; try done; injection H as <-.
  - apply (own_ok id w _ c (at_phase (Refusing "Worker did not accept a request; its input queue is full") c)); own_goals Ep.
  - apply (own_ok id w _ c (at_phase (Collecting TimedOut) c)); own_goals Ep.
  - apply (own_ok id w _ c (at_phase Removing (yields (ItemError IdleTimeout "Worker API response stream was idle") c))); own_goals Ep.
  - apply (own_ok id w _ c (at_phase Forgetting c)); own_goals Ep.
Qed.

Lemma abandon_ok id w w' : worker_ok w -> abandon id w = Some w' -> call_ok id w'.
Proof.
  intros Hw H. pose proof (ok_calls w Hw id) as Hok. unfold abandon in H. destruct (calls w !! id) as [c|] eqn:Hc; [|done].
  cbn [mbind option_bind] in H. destruct (phase c) eqn:Ep; try done; injection H as <-.
  1: { destruct (unregistered_nothing id w c Hok Hc) as (N1 & N2 & N3 & N4); [by rewrite Ep|].
    apply (own_ok id w _ c (at_phase Abandoned c)); own_goals Ep. }
  all: try (apply (own_ok id w _ c (at_phase Abandoned c)); own_goals Ep; by look; apply shrinks_drop).
  apply (own_ok id w _ c (at_phase Draining (armed false c))); own_goals Ep.
  intros _. look. apply (ok_listening id w Hok c Hc). by rewrite Ep.
Qed.

(** *** The worker's tasks *)

Lemma not_alive_ok id w : call_ok id w -> call_ok id (not_alive w).
Proof. apply same_view_ok. constructor; try done. Qed.

(** The entries are taken, all at once, from a worker that is not alive. *)
Lemma taken_ok id w w' : call_ok id w -> alive w = false -> alive w' = false -> entries (pending w') = ∅ ->
  calls w' !! id = calls w !! id -> channels w' !! id = channels w !! id -> (read_for id w' -> read_for id w) ->
  (forall r, reader w' = Found id r \/ reader w' = Delivering id r -> reader w = Found id r \/ reader w = Delivering id r) ->
  (reader w' = ForgettingEntry id -> reader w = ForgettingEntry id) ->
  (listed id w' -> listed id w \/ id ∈ entries (pending w)) -> call_ok id w'.
Proof.
  intros [O1 O2 O3 O4 O5 O6 O7 O8 O9 O10] Ha Ha' He Hc Hch Hr Hr' Hfe Hl.
  assert (forall r, in_flight_frame id w' r -> in_flight_frame id w r) as Hf.
  { intros r [H|H]; [left; by rewrite <- Hch|right; by apply Hr']. }
  constructor; rewrite ?Hc, ?Hch.
  - rewrite He. set_solver.
  - intros [H|[H|H]]; [apply O2; by left|apply O2; right; left; by apply Hr|]. destruct (Hl H) as [H'|H']; [apply O2; by right; right|].
    destruct (O1 H') as (c & H1 & H2 & _). by exists c.
  - done.
  - intros r H. by apply O4, Hf.
  - done.
  - intros r _ _. rewrite He. set_solver.
  - intros _. rewrite He. set_solver.
  - intros _ c _. rewrite He. set_solver.
  - intros H. by apply O9, Hfe.
  - by rewrite Ha'.
Qed.

Lemma elements_taken id (s : PendingResponseSet) : id ∈ fst (take_all s) <-> id ∈ entries s.
Proof. unfold take_all. cbn [fst]. rewrite (sort_by_perm (cmp := String.compare)). apply elem_of_elements. Qed.

(** A frame is read: its entry is found, and taken by a terminal frame. *)
Lemma read_frame_ok r w w' : worker_ok w -> read_frame r w = Some w' -> worker_ok w'.
Proof.
  intros [Hco Hdy Hok] H. unfold read_frame in H. destruct (reader w) eqn:Er; try done.
  assert (forall p, (p = pending w \/ p = snd (remove (response_id r) (pending w))) -> exact p) as Hex.
  { intros p [->| ->]; [done|by apply remove_exact]. }
  destruct (response (response_id r) (is_terminal r) (pending w)) as [known p] eqn:Eresp.
  assert ((known = true -> response_id r ∈ entries (pending w)) /\
    ((is_terminal r = false /\ p = pending w) \/ (is_terminal r = true /\ p = snd (remove (response_id r) (pending w))))) as [Hk Hp].
  { unfold response in Eresp. destruct (is_terminal r).
    - destruct (remove (response_id r) (pending w)) as [b q] eqn:Erem. injection Eresp as <- <-. split; [|by right].
      intros ->. pose proof (remove_known (response_id r) (pending w)) as H1. rewrite Erem in H1. cbn in H1. symmetry in H1. by apply bool_decide_eq_true in H1.
    - injection Eresp as <- <-. split; [|by left]. by intros ?%bool_decide_eq_true. }
  assert (forall id, id ∈ entries p <-> id ∈ entries (pending w) /\ (is_terminal r = true -> id <> response_id r)) as Hpe.
  { intros id. destruct Hp as [[Ht ->]|[Ht ->]]; rewrite Ht; [split; [done|tauto]|]. rewrite remove_entries. set_solver. }
  injection H as <-. constructor.
  - destruct known; cbn; apply Hex; destruct Hp as [[_ ->]|[_ ->]]; auto.
  - intros Hd. assert (dying w) as Hd'; [|destruct known; by apply Hdy].
    unfold dying, took in *. rewrite Er. destruct known; cbn in Hd; rewrite ?Er in Hd; destruct Hd as [Hd|[Hd|Hd]]; try done; auto.
  - intros id. destruct (decide (known = true /\ id = response_id r)) as [[-> ->]|Hne].
    + specialize (Hok (response_id r)). destruct Hok as [O1 O2 O3 O4 O5 O6 O7 O8 O9 O10]. specialize (Hk eq_refl).
      destruct (O1 Hk) as (c & H1 & H2 & H3).
      assert (forall r', in_flight_frame (response_id r) (with_pending p (with_reader (Found (response_id r) r) w)) r' -> r' = r \/ in_flight_frame (response_id r) w r') as Hf.
      { intros r' [Hr|[[= <-]|[= <-]]]; [by right; left|by left]. }
      constructor; cbn [with_pending with_reader calls channels pending reader writer alive]; try done.
      * intros Hin. apply Hpe in Hin as [Hin _]. by apply O1.
      * intros _. by exists c.
      * intros r' Hr. destruct (Hf r' Hr) as [->|Hr']; [done|by apply O4].
      * intros r' Hr Ht. rewrite Hpe. intros [Hin Hnt]. destruct (Hf r' Hr) as [->|Hr']; [by apply Hnt|by apply (O6 r' Hr' Ht)].
      * intros Hl. rewrite Hpe. intros [Hin _]. apply O7; [|done]. unfold listed in *. cbn in Hl. destruct Hl as [(ids & Hx & _)|Hl]; [done|by right].
      * intros Ht c0 Hc0. rewrite Hpe. intros [Hin _]. apply (O8 ltac:(unfold took in *; cbn in Ht; by rewrite Er) c0 Hc0 Hin).
      * intros Ha c0 Hc0 Hn. rewrite Hpe. destruct (is_terminal r) eqn:Et.
        -- right. exists r. split; [|done]. right. by left.
        -- left. split; [done|done].
    + apply (same_view_ok id w); [|done]. constructor; destruct known; cbn; try done; unfold listed, took; cbn; rewrite ?Er; try done.
      * rewrite Hpe. split; [tauto|]. intros Hin. split; [done|]. intros _ ->. by apply Hne.
      * rewrite Hpe. split; [tauto|]. intros Hin. split; [done|]. intros Ht ->. destruct Hp as [[H1 _]|[_ ->]]; [congruence|].
        unfold response in Eresp. rewrite Ht in Eresp. pose proof (remove_known (response_id r) (pending w)) as H1. rewrite Eresp in H1.
        symmetry in H1. cbn in H1. by apply bool_decide_eq_false in H1.
      * intros r'. split; [intros [[= <- <-]|[=]]; by destruct Hne|by intros [?|?]].
      * intros [(ids & ? & _)|Hl]; [done|by right].
Qed.

(** A step of a task that leaves the entries and calls, and takes nothing from a call but what the reader drops. *)
Record task_view (id : string) (w w' : Worker) : Prop := {
  view_pending : pending w' = pending w;
  view_calls : calls w' = calls w;
  view_alive : alive w' = alive w;
  view_known : is_Some (channels w' !! id) \/ read_for id w' -> is_Some (channels w !! id) \/ read_for id w;
  view_receiver : forall ch, channels w !! id = Some ch -> exists ch', channels w' !! id = Some ch' /\ receiver ch' = receiver ch;
  view_frames : forall r, in_flight_frame id w' r -> response_id r = id /\ (is_terminal r = true -> id ∉ entries (pending w));
  view_listed : listed id w' -> listed id w;
  view_took : took w' -> took w;
  view_forgetting : reader w' = ForgettingEntry id -> reader w = ForgettingEntry id \/ exists ch, channels w !! id = Some ch /\ receiver ch = false;
  view_counted : alive w = true -> forall c, calls w !! id = Some c -> counted (phase c) ->
    forall r, in_flight_frame id w r -> is_terminal r = true -> exists r', in_flight_frame id w' r' /\ is_terminal r' = true;
}.

Lemma task_ok id w w' : call_ok id w -> task_view id w w' -> call_ok id w'.
Proof.
  intros [O1 O2 O3 O4 O5 O6 O7 O8 O9 O10] [V1 V2 V3 V4 V5 V6 V7 V8 V9 V10].
  constructor; rewrite ?V2, ?V3.
  - rewrite V1. done.
  - intros [H|[H|H]]; apply O2; [| |right; right; by apply V7]; destruct (V4 ltac:(auto)) as [?|?]; auto.
  - intros c Hc Hl. destruct (O3 c Hc Hl) as (ch & H1 & H2). destruct (V5 ch H1) as (ch' & H3 & H4). exists ch'. split; [done|congruence].
  - intros r Hr. by apply V6.
  - done.
  - intros r Hr. rewrite V1. by apply V6.
  - intros H. rewrite V1. by apply O7, V7.
  - intros H. rewrite V1. by apply O8, V8.
  - intros H. destruct (V9 H) as [H'|(ch & H1 & H2)]; [destruct (O9 H') as (ch & H1 & H2)|];
      destruct (V5 ch H1) as (ch' & H3 & H4); exists ch'; (split; [done|congruence]).
  - intros Ha c Hc Hn. rewrite V1. destruct (O10 Ha c Hc Hn) as [Hin|(r & Hr & Ht)]; [by left|]. right. by apply (V10 Ha c Hc Hn r).
Qed.

(** What is in flight stays so: then it is right. *)
Lemma view_frames_ok id w w' : call_ok id w -> (forall r, in_flight_frame id w' r -> in_flight_frame id w r) ->
  forall r, in_flight_frame id w' r -> response_id r = id /\ (is_terminal r = true -> id ∉ entries (pending w)).
Proof. intros Hok Hf r Hr. split; [apply (ok_frames id w Hok), Hf, Hr|]. intros Ht. by apply (ok_terminal id w Hok r (Hf r Hr)). Qed.

Lemma worker_task_ok w w' : worker_ok w -> (forall id, task_view id w w') -> (dying w' -> dying w) -> worker_ok w'.
Proof.
  intros [Hco Hdy Hok] Hv Hd. constructor.
  - by rewrite (view_pending "" w w' (Hv "")).
  - intros H. rewrite (view_alive "" w w' (Hv "")). by apply Hdy, Hd.
  - intros id. by apply (task_ok id w).
Qed.

(** Neither the lists nor the entries of a worker that is gone are touched while its reader reads. *)
Lemma reading_on w w' : writer w' = writer w -> (forall ids, reader w' <> ReadNotifying ids) -> reader w' <> ReaderExited -> reader w' <> ReadEnded ->
  (forall id, listed id w' -> listed id w) /\ (took w' -> took w) /\ (dying w' -> dying w).
Proof.
  intros Hw H1 H2 H3. assert (took w' -> took w) as Ht.
  { unfold took. rewrite Hw. destruct (reader w') eqn:E; try done; try (by intros; destruct (reader w)); by destruct (H1 ids). }
  split_and!; [|done|].
  - intros id. unfold listed. rewrite Hw. intros [(ids & H & _)|H]; [by destruct (H1 ids)|by right].
  - unfold dying. rewrite Hw. intros [H|[H|H]]; [done|by right; left|right; right; by apply Ht].
Qed.

Lemma marked_ok w id r : worker_ok w -> reader w = Found id r -> forall w', deliver w = Some w' -> worker_ok w'.
Proof.
  intros Hw Er w' H. unfold deliver in H. rewrite Er in H. injection H as <-.
  set (w1 := match starts_stream r, channels w !! id with true, Some ch => with_channel id (mkChannel (frames ch) (receiver ch) true) w | _, _ => w end).
  assert (pending w1 = pending w /\ calls w1 = calls w /\ alive w1 = alive w /\ writer w1 = writer w /\
    forall id', (exists ch b, channels w !! id' = Some ch /\ channels w1 !! id' = Some (mkChannel (frames ch) (receiver ch) b)) \/
                (channels w !! id' = None /\ channels w1 !! id' = None)) as (E1 & E2 & E3 & E4 & E5).
  { assert (forall id' (w0 : Worker), (exists ch b, channels w0 !! id' = Some ch /\ channels w0 !! id' = Some (mkChannel (frames ch) (receiver ch) b)) \/
      (channels w0 !! id' = None /\ channels w0 !! id' = None)) as Hsame.
    { intros id' w0. destruct (channels w0 !! id') as [[f rc b]|]; [left; by exists (mkChannel f rc b), b|by right]. }
    unfold w1. destruct (starts_stream r); [destruct (channels w !! id) as [ch|] eqn:Ech|]; (split_and!; [done..|]); intros id'; [|apply Hsame..].
    cbn. destruct (decide (id' = id)) as [->|Hne]; [left; exists ch, true; by rewrite lookup_insert_eq|]. rewrite lookup_insert_ne by done. apply Hsame. }
  destruct (reading_on w (with_reader (Delivering id r) w1)) as (R1 & R2 & R3); try done.
  assert (forall id' r', in_flight_frame id' (with_reader (Delivering id r) w1) r' <-> in_flight_frame id' w r') as Hf.
  { intros id' r'. unfold in_flight_frame. cbn [with_reader channels reader]. rewrite Er.
    destruct (E5 id') as [(ch & b & H1 & H2)|[H1 H2]]; rewrite H1, H2.
    - split; (intros [(ch' & [= <-] & H)|[[= -> ->]|[= -> ->]]]; [left; by eexists|by auto..]).
    - split; (intros [(ch' & [=] & H)|[[= -> ->]|[= -> ->]]]; by auto). }
  apply (worker_task_ok w); [done| |done]. intros id'. constructor; try done; cbn [with_reader channels]; try by auto.
  - intros [H|H]; [left|right].
    + destruct (E5 id') as [(ch & b & H1 & H2)|[H1 H2]]; [by rewrite H1|by rewrite H2 in H; destruct H].
    + destruct H as [H|(r' & [H|H])]; [done..|]. injection H as -> ->. right. exists r'. by left.
  - intros ch Hch. destruct (E5 id') as [(ch0 & b & H1 & H2)|[H1 H2]]; [|congruence]. rewrite H2. eexists. split; [done|]. cbn. congruence.
  - apply view_frames_ok; [by apply ok_calls|]. intros r'. apply Hf.
  - intros _ c _ _ r' Hr Ht. exists r'. by rewrite Hf.
Qed.

(** A frame is pushed into a channel: one the reader held, or the notice of a worker that is gone. *)
Lemma push_view id r ch b x y w : worker_ok w -> channels w !! id = Some ch -> receiver ch = true -> response_id r = id ->
  (is_terminal r = true -> id ∉ entries (pending w)) ->
  let w' := with_reader x (with_writer y (with_channel id (mkChannel (frames ch ++ [r]) true b) w)) in
  (forall id' r', x = Found id' r' \/ x = Delivering id' r' -> reader w = Found id' r' \/ reader w = Delivering id' r') ->
  (forall id' r', reader w = Found id' r' \/ reader w = Delivering id' r' -> (x = Found id' r' \/ x = Delivering id' r') \/ (id' = id /\ r' = r)) ->
  (forall id', x = ForgettingEntry id' -> reader w = ForgettingEntry id') -> (forall id', listed id' w' -> listed id' w) -> (took w' -> took w) ->
  forall id', task_view id' w w'.
Proof.
  intros Hw Hch Hrc Hid Hterm w' X1 X2 X3 X4 X5 id'. pose proof (ok_calls w Hw id') as Hok.
  assert (forall r', in_flight_frame id' w' r' -> (id' = id /\ r' = r) \/ in_flight_frame id' w r') as Hf.
  { intros r' [(ch' & H1 & H2)|H]; [|right; right; by apply X1]. cbn in H1. destruct (decide (id' = id)) as [->|Hne].
    - rewrite lookup_insert_eq in H1. injection H1 as <-. cbn in H2. apply elem_of_app in H2 as [H2| ->%list_elem_of_singleton]; [|by left].
      right. left. by exists ch.
    - rewrite lookup_insert_ne in H1 by done. right. left. by exists ch'. }
  assert (forall r', in_flight_frame id' w r' -> in_flight_frame id' w' r') as Hf'.
  { intros r' [(ch' & H1 & H2)|H].
    - left. cbn. destruct (decide (id' = id)) as [->|Hne]; [|rewrite lookup_insert_ne by done; by exists ch'].
      rewrite lookup_insert_eq. rewrite Hch in H1. injection H1 as <-. eexists. split; [done|]. cbn. apply elem_of_app. by left.
    - destruct (X2 id' r' H) as [H'|[-> ->]]; [by right|]. left. cbn. rewrite lookup_insert_eq. eexists. split; [done|]. cbn.
      rewrite elem_of_app, list_elem_of_singleton. by right. }
  constructor; try done; try by auto.
  - intros [H|H]; [left|right].
    + cbn in H. destruct (decide (id' = id)) as [->|Hne]; [by rewrite Hch|by rewrite lookup_insert_ne in H].
    + destruct H as [H|(r' & H)]; [left; by apply X3|right; exists r'; by apply X1].
  - intros ch0 H0. cbn. destruct (decide (id' = id)) as [->|Hne]; [|rewrite lookup_insert_ne by done; by exists ch0].
    rewrite lookup_insert_eq. eexists. split; [done|]. cbn. congruence.
  - intros r' Hr. destruct (Hf r' Hr) as [[-> ->]|Hr']; [done|]. split; [by apply (ok_frames id' w Hok)|]. intros Ht. by apply (ok_terminal id' w Hok r').
  - intros _ c _ _ r' Hr Ht. exists r'. split; [by apply Hf'|done].
Qed.

Lemma push_ok w id r ch : worker_ok w -> reader w = Delivering id r -> channels w !! id = Some ch -> receiver ch = true ->
  worker_ok (with_reader Reading (with_channel id (mkChannel (frames ch ++ [r]) true (streaming ch)) w)).
Proof.
  intros Hw Er Hch Hrc. pose proof (ok_calls w Hw id) as Hok.
  assert (in_flight_frame id w r) as Hin by by right; right.
  set (w' := with_reader Reading _). destruct (reading_on w w') as (R1 & R2 & R3); try done.
  apply (worker_task_ok w); [done| |done].
  apply (push_view id r ch (streaming ch) Reading (writer w)); try done.
  - by apply (ok_frames id w Hok).
  - by apply (ok_terminal id w Hok).
  - by intros id' r' [|].
  - intros id' r'. rewrite Er. intros [|[= -> ->]]; [done|by right].
Qed.

(** The receiver is gone: the entry is to be removed. *)
Lemma refused_ok w id r ch : worker_ok w -> reader w = Delivering id r -> channels w !! id = Some ch -> receiver ch = false ->
  worker_ok (with_reader (ForgettingEntry id) w).
Proof.
  intros Hw Er Hch Hrc. set (w' := with_reader (ForgettingEntry id) w). destruct (reading_on w w') as (R1 & R2 & R3); try done.
  apply (worker_task_ok w); [done| |done]. intros id'. pose proof (ok_calls w Hw id') as Hok.
  assert (forall r', in_flight_frame id' w' r' -> in_flight_frame id' w r') as Hf by (intros r' [H|[|]]; [by left|done..]).
  constructor; try done; try by auto.
  - intros [H|H]; [by left|right]. destruct H as [[= ->]|(? & [|])]; [|done..]. right. exists r. by right.
  - intros ch0 H0. by exists ch0.
  - by apply view_frames_ok.
  - intros [= ->]. right. by exists ch.
  - intros Ha c Hc Hn r' Hr Ht. exists r'. split; [|done]. destruct Hr as [Hr|[Hr|Hr]]; [by left|congruence|].
    rewrite Er in Hr. injection Hr as -> ->. destruct (ok_listening id' w Hok c Hc) as (ch0 & H1 & H2); [by destruct (phase c)|]. congruence.
Qed.

Lemma forget_entry_ok w id : worker_ok w -> reader w = ForgettingEntry id -> worker_ok (with_reader Reading (forget id w)).
Proof.
  intros [Hco Hdy Hok] Er. set (w' := with_reader Reading (forget id w)). destruct (reading_on w w') as (R1 & R2 & R3); try done.
  assert (entries (pending w') = entries (pending w) ∖ {[id]}) as He by apply entries_forget.
  constructor; [apply (remove_exact id (pending w) Hco)|intros H; by apply Hdy, R3|].
  intros id'. destruct (Hok id') as [O1 O2 O3 O4 O5 O6 O7 O8 O9 O10].
  assert (forall r', in_flight_frame id' w' r' <-> in_flight_frame id' w r') as Hf.
  { intros r'. unfold in_flight_frame, w'. cbn. rewrite Er. split; (intros [H|[|]]; [by left|done..]). }
  constructor; try done.
  - rewrite He. intros [Hin _]%elem_of_difference. by apply O1.
  - intros [H|[H|H]]; apply O2; [by left|by destruct H as [|(? & [|])]|right; right; by apply R1].
  - intros r' Hr. by apply O4, Hf.
  - intros r' Hr Ht. rewrite He. pose proof (O6 r' ltac:(by apply Hf) Ht). set_solver.
  - intros H. rewrite He. pose proof (O7 (R1 id' H)). set_solver.
  - intros H c Hc. rewrite He. intros [Hin _]%elem_of_difference. by apply O8; [apply R2|..].
  - intros Ha c Hc Hn. rewrite He. setoid_rewrite Hf. destruct (O10 Ha c Hc Hn) as [Hin|Hr]; [|by right]. left.
    apply elem_of_difference. split; [done|]. intros ->%elem_of_singleton. destruct (O9 Er) as (ch & H1 & H2).
    destruct (O3 c Hc) as (ch0 & H3 & H4); [by destruct (phase c)|]. congruence.
Qed.

Lemma deliver_ok w w' : worker_ok w -> deliver w = Some w' -> worker_ok w'.
Proof.
  intros Hw H. pose proof H as H0. unfold deliver in H. destruct (reader w) as [|id r|id r|id| | |] eqn:Er; try done.
  - by apply (marked_ok w id r Hw Er).
  - destruct (channels w !! id) as [ch|] eqn:Ech; [|done]. cbn [mbind option_bind] in H. destruct (receiver ch) eqn:Erc.
    + destruct (length (frames ch) <? MAX_PENDING_RESPONSE_FRAMES); [|done]. injection H as <-. by apply push_ok.
    + injection H as <-. by apply (refused_ok w id r ch).
  - injection H as <-. by apply forget_entry_ok.
Qed.

(** Only what the tasks do next changes. *)
Lemma tasks_view x y w : worker_ok w -> let w' := with_reader x (with_writer y w) in
  (forall id r, x = Found id r \/ x = Delivering id r <-> reader w = Found id r \/ reader w = Delivering id r) ->
  (forall id, x = ForgettingEntry id -> reader w = ForgettingEntry id) -> (forall id, listed id w' -> listed id w) -> (took w' -> took w) ->
  forall id, task_view id w w'.
Proof.
  intros Hw w' X1 X2 X3 X4 id.
  assert (forall r, in_flight_frame id w' r <-> in_flight_frame id w r) as Hf.
  { intros r. unfold in_flight_frame. change (channels w' !! id) with (channels w !! id). change (reader w') with x. by rewrite (X1 id r). }
  constructor; try done; try by auto.
  - intros [H|[H|(r & H)]]; [by left|right; left; by apply X2|right; right; exists r; by apply X1].
  - intros ch Hch. by exists ch.
  - apply view_frames_ok; [by apply ok_calls|]. intros r. apply Hf.
  - intros _ c _ _ r Hr Ht. exists r. by rewrite Hf.
Qed.

(** One call is told, by the reader or the writer that goes on to [x] or [y]. *)
Lemma notify_view message id x y w w1 : worker_ok w -> notify message id w = Some w1 -> listed id w ->
  let w' := with_reader x (with_writer y w1) in
  (forall id' r, x = Found id' r \/ x = Delivering id' r <-> reader w = Found id' r \/ reader w = Delivering id' r) ->
  (forall id', x = ForgettingEntry id' -> reader w = ForgettingEntry id') -> (forall id', listed id' w' -> listed id' w) -> (took w' -> took w) ->
  forall id', task_view id' w w'.
Proof.
  intros Hw H Hl w' X1 X2 X3 X4. unfold notify in H. destruct (channels w !! id) as [ch|] eqn:Ech.
  - destruct (negb (streaming ch) || negb (receiver ch)) eqn:Eb.
    + injection H as <-. by apply tasks_view.
    + apply orb_false_iff in Eb as [_ Erc]. apply negb_false_iff in Erc. destruct (_ <? _); [|done]. injection H as <-.
      apply (push_view id (stream_error id message) ch true x y); try done.
      * intros _. by apply (ok_listed id w (ok_calls w Hw id)).
      * intros id' r. by apply X1.
      * intros id' r H. left. by apply X1.
  - injection H as <-. by apply tasks_view.
Qed.

Lemma calls_taken w x y : worker_ok w -> alive w = false ->
  (forall id r, x = Found id r \/ x = Delivering id r -> reader w = Found id r \/ reader w = Delivering id r) ->
  (forall id, x = ForgettingEntry id -> reader w = ForgettingEntry id) ->
  (forall id, listed id (with_reader x (with_writer y w)) -> listed id w \/ id ∈ entries (pending w)) ->
  worker_ok (with_pending empty_pending (with_reader x (with_writer y w))).
Proof.
  intros [Hco Hdy Hok] Ha X1 X2 X3. constructor; [done|done|]. intros id. apply (taken_ok id w); try done.
  - intros [H|(r & H)]; [left; by apply X2|right; exists r; by apply X1].
  - intros r. apply X1.
  - apply X2.
  - apply X3.
Qed.

Lemma read_end_ok w w' : worker_ok w -> read_end w = Some w' -> worker_ok w'.
Proof.
  intros Hw H. unfold read_end in H. destruct (reader w) as [|id r|id r|id| |[|id ids]|] eqn:Er; try done.
  - injection H as <-. pose proof Hw as [Hco Hdy Hok]. constructor; [done|done|]. intros id. apply (same_view_ok id w); [|done].
    constructor; try done.
    + intros r. cbn. rewrite Er. split; by intros [|].
    + cbn. by rewrite Er.
    + intros [(ids & ? & _)|H]; [done|by right].
    + unfold took. by rewrite Er.
  - injection H as <-. change (snd (take_all (pending w))) with empty_pending.
    apply (calls_taken w _ (writer w)); [done|apply (ok_dying w Hw); by left|by intros id r [|]|done|].
    intros id [(ids & Hx & Hin)|H]; [|left; by right]. right. cbn in Hx. injection Hx as <-. by apply elements_taken.
  - injection H as <-. apply (worker_task_ok w); [done| |].
    + apply (tasks_view ReaderExited (writer w) w Hw); try done.
      * intros id r. rewrite Er. split; by intros [|].
      * intros id [(ids & ? & _)|H]; [done|by right].
      * intros _. unfold took. by rewrite Er.
    + intros _. right; right. unfold took. by rewrite Er.
  - destruct (notify _ id w) as [w1|] eqn:En; [|done]. injection H as <-.
    assert (writer w1 = writer w) as Ewr by (unfold notify in En; repeat case_match; by simplify_eq).
    assert (with_reader (ReadNotifying ids) w1 = with_reader (ReadNotifying ids) (with_writer (writer w) w1)) as -> by (rewrite <- Ewr; by destruct w1).
    assert (listed id w) as Hl by (left; eexists; split; [done|by left]).
    apply (worker_task_ok w); [done| |].
    + eapply notify_view; try done.
      * intros id' r. rewrite Er. split; by intros [|].
      * intros id' [(ids' & [= <-] & Hin)|H]; [|by right]. left. eexists. split; [done|by right].
      * intros _. unfold took. by rewrite Er.
    + intros _. right; right. unfold took. by rewrite Er.
Qed.

Lemma quiet_ok w w' : worker_ok w -> pending w' = pending w -> calls w' = calls w -> channels w' = channels w -> reader w' = reader w ->
  (alive w' = true -> alive w = true) -> (forall id, listed id w' -> listed id w) -> (took w' -> took w) -> (dying w' -> dying w \/ alive w' = false) -> worker_ok w'.
Proof.
  intros [Hco Hdy Hok] E1 E2 E3 E4 Ha Hl Ht Hd. constructor.
  - by rewrite E1.
  - intros H. destruct (Hd H) as [H'|H']; [|done]. apply not_true_iff_false. intros H1%Ha. by rewrite (Hdy H') in H1.
  - intros id. apply (same_view_ok id w); [|done]. constructor; rewrite ?E1, ?E2, ?E3, ?E4; auto.
Qed.

Lemma write_end_ok w w' : worker_ok w -> write_end w = Some w' -> worker_ok w'.
Proof.
  intros Hw H. unfold write_end in H. destruct (writer w) as [| |[|id ids]|] eqn:Ew; try done.
  - destruct (input w); [done|]. injection H as <-. apply (quiet_ok w); try done.
    + unfold listed. rewrite Ew. intros id [H|(ids & ? & _)]; [by left|done].
    + unfold took. cbn. rewrite Ew. by destruct (reader w).
    + by right.
  - injection H as <-. change (snd (take_all (pending w))) with empty_pending.
    apply (calls_taken w (reader w)); try done; [apply (ok_dying w Hw); by right; left|].
    intros id [H|(ids & Hx & Hin)]; [left; by left|]. right. cbn in Hx. injection Hx as <-. by apply elements_taken.
  - injection H as <-. apply (quiet_ok w); try done.
    + intros id [H|(ids & ? & _)]; [by left|done].
    + unfold took. cbn. rewrite Ew. by destruct (reader w).
    + unfold dying, took. cbn. rewrite Ew. intros [H|[H|H]]; [by left; left|done|]. left. right; right. by destruct (reader w).
  - destruct (notify _ id w) as [w1|] eqn:En; [|done]. injection H as <-.
    assert (reader w1 = reader w) as Ere by (unfold notify in En; repeat case_match; by simplify_eq).
    assert (with_writer (WriteNotifying ids) w1 = with_reader (reader w) (with_writer (WriteNotifying ids) w1)) as -> by (rewrite <- Ere; by destruct w1).
    assert (listed id w) as Hl by (right; eexists; split; [done|by left]).
    assert (took w) as Htook by (unfold took; rewrite Ew; by destruct (reader w)).
    apply (worker_task_ok w); [done| |intros _; by right; right].
    eapply notify_view; try done.
    intros id' [H|(ids' & [= <-] & Hin)]; [by left|]. right. eexists. split; [done|by right].
Qed.

(** *** Every step *)

(** A step of one call. *)
Lemma own_worker_ok id w w' : worker_ok w -> local id w w' -> exact (pending w') -> call_ok id w' -> worker_ok w'.
Proof.
  intros [Hco Hdy Hok] Hl He Hc. constructor; [done| |].
  - intros H. rewrite (local_alive id w w' Hl). apply Hdy. by apply (local_dying id w w').
  - intros id'. destruct (decide (id' = id)) as [->|Hne]; [done|]. apply (same_view_ok id' w); [by apply (local_view id)|done].
Qed.

Lemma receive_local id c w w' : receive id c w = Some w' -> local id w w' /\ pending w' = pending w.
Proof.
  intros H. unfold receive in H. destruct (channels w !! id) as [ch|]; [|done]. cbn [mbind option_bind] in H.
  destruct (frames ch) as [|r rest].
  - destruct (held id w); [done|]. destruct (phase c); try destruct (api c); injection H as <-; (split; [by locals|by rewrite ?pending_drop]).
  - injection H as <-. destruct (phase c); try (split; [by locals|done]).
    + destruct (api c); [|split; [by locals|done]]. unfold first_frame. destruct (frame r) as [kind|]; [destruct (String.eqb kind "api-start")|].
      * cbn [with_timeouts with_channel channels]. rewrite lookup_insert_eq. split; [by locals|done].
      * split; [by locals|done].
      * split; [by locals|by rewrite pending_drop].
    + unfold poll_frame. repeat match goal with |- context [if ?b then _ else _] => destruct b end; (split; [by locals|by rewrite ?pending_drop]).
Qed.

Ltac exacts := let Hx := fresh in intros Hx; cbn zeta;
  repeat first [rewrite pending_drop | rewrite pending_withdraw | progress cbn [go with_call with_channel with_timeouts with_pending forget pending]];
  first [exact Hx | apply remove_exact, Hx | apply insert_exact, Hx].

Lemma own_step_local id w w' : own_step id w = Some w' -> local id w w' /\ (exact (pending w) -> exact (pending w')).
Proof.
  intros H. unfold own_step in H. destruct (calls w !! id) as [c|]; [|done]. cbn [mbind option_bind] in H.
  assert (forall w1, Some w1 = Some w' -> local id w w1 -> (exact (pending w) -> exact (pending w1)) -> local id w w' /\ (exact (pending w) -> exact (pending w'))) as Hdone.
  { by intros w1 [= ->]. }
  destruct (phase c) as [| | | |message| | | |x|x| | | | |o|].
  all: try done.
  all: try (apply receive_local in H as [H1 H2]; split; [done|by rewrite H2]).
  all: try (apply (Hdone _ H); [by locals|exacts]).
  - destruct (writer w); try (destruct (length (input w) <? STDIN_QUEUE); [|done]); (apply (Hdone _ H); [by locals|exacts]).
  - apply (Hdone _ H); unfold conclude; destruct x; first [by locals | exacts].
Qed.

Lemma own_step_ok id w w' : worker_ok w -> own_step id w = Some w' -> worker_ok w'.
Proof.
  intros Hw H. destruct (own_step_local id w w' H) as [Hl He]. apply (own_worker_ok id w); [done|done|apply He, (ok_count w Hw)|].
  pose proof H as H0. unfold own_step in H0. destruct (calls w !! id) as [c|] eqn:Hc; [|done]. cbn [mbind option_bind] in H0.
  destruct (phase c) eqn:Ep; try done.
  all: try (eapply own_early_ok; [done|exact Hc|by rewrite Ep|exact H]).
  all: try (eapply own_late_ok; [done|exact Hc|by rewrite Ep|exact H]).
  all: eapply receive_ok; [done|exact Hc|by auto|exact H0].
Qed.

Lemma deadline_worker_ok id w w' : worker_ok w -> deadline id w = Some w' -> worker_ok w'.
Proof.
  intros Hw H. apply (own_worker_ok id w); [done| | |by apply (deadline_ok id w)]; unfold deadline in H; (destruct (own_step id w); [done|]);
    destruct (calls w !! id) as [c|]; try done; cbn [mbind option_bind] in H; destruct (phase c); try done; injection H as <-;
    first [by locals | apply (ok_count w Hw)].
Qed.

Lemma abandon_worker_ok id w w' : worker_ok w -> abandon id w = Some w' -> worker_ok w'.
Proof.
  intros Hw H. apply (own_worker_ok id w); [done| | |by apply (abandon_ok id w)]; unfold abandon in H;
    destruct (calls w !! id) as [c|]; try done; cbn [mbind option_bind] in H; destruct (phase c); try done; injection H as <-;
    try (by locals); look; apply (ok_count w Hw).
Qed.

Lemma begun_ok id api w w' : worker_ok w -> begin id api w = Some w' -> worker_ok w'.
Proof.
  intros [Hco Hdy Hok] H. unfold begin in H. destruct (calls w !! id) eqn:Hc; [done|]. injection H as <-. constructor; [done|done|].
  intros id'. destruct (decide (id' = id)) as [->|Hne]; [|apply (same_view_ok id' w); [apply (local_view id); [by locals|done]|done]].
  destruct (Hok id) as [O1 O2 O3 O4 O5 O6 O7 O8 O9 O10].
  assert (forall c, calls w !! id = Some c -> False) as Hno by (intros c; by rewrite Hc).
  constructor; cbn; rewrite ?lookup_insert_eq; try done.
  - intros Hin. destruct (O1 Hin) as (c & H & _). by destruct (Hno c).
  - intros H. destruct (O2 H) as (c & H1 & _). by destruct (Hno c).
  - by intros c [= <-].
  - by intros c [= <-].
  - intros _ c [= <-] Hin. destruct (O1 Hin) as (c & H & _). by destruct (Hno c).
  - by intros _ c [= <-].
Qed.

Lemma try_send_ok l w : worker_ok w -> worker_ok (try_send l w).
Proof. intros Hw. destruct (try_send_same l w) as [->| ->]; [done|]. apply (quiet_ok w); try done. by left. Qed.

Lemma step_ok w l w' : worker_ok w -> step w l w' -> worker_ok w'.
Proof.
  intros Hw H. destruct H as [id w w' H|id w w' H|id w w' H|id api w w' H|r w w' H|w w' H|w w' H|w w' H|w w' H|w w' H|w|w Ha|w Ha Hs|w|w].
  - by apply (own_step_ok id w).
  - by apply (deadline_worker_ok id w).
  - by apply (abandon_worker_ok id w).
  - by apply (begun_ok id api w).
  - by apply (read_frame_ok r w).
  - by apply (deliver_ok w).
  - by apply (read_end_ok w).
  - unfold write_line in H. destruct (writer w), (input w); try done. injection H as <-. apply (quiet_ok w); try done. by left.
  - by apply (write_end_ok w).
  - unfold writer_stops in H. destruct (writer w) eqn:Ew, (input w); try done. destruct (_ || _); [done|]. injection H as <-. apply (quiet_ok w); try done.
    + intros id [H|(ids & ? & _)]; [by left|done].
    + unfold took. cbn. rewrite Ew. by destruct (reader w).
    + unfold dying, took. cbn. rewrite Ew. intros [H|[H|H]]; [by left; left|done|]. left. right; right. by destruct (reader w).
  - apply (quiet_ok w); try done. by right.
  - apply (quiet_ok w); try done. by left.
  - assert (with_pending empty_pending w = with_pending empty_pending (with_reader (reader w) (with_writer (writer w) w))) as E by by destruct w.
    unfold shutdown_clear, clear. rewrite E. apply calls_taken; try done. intros id H. by left.
  - unfold try_queue_invalidation. destruct (stdin_open w); [by apply try_send_ok|done].
  - done.
Qed.

Lemma spawned_ok : worker_ok spawned.
Proof.
  constructor; [done|by intros [|[|]]|]. intros id. assert (forall r, ~ in_flight_frame id spawned r) as Hno.
  { by intros r [(ch & H & _)|[|]]. }
  constructor; try done; try (by intros r Hr; destruct (Hno r)).
  - by intros [[ch H]|[[|(r & [|])]|[(ids & ? & _)|(ids & ? & _)]]].
Qed.

Lemma reached_ok w : reached w -> worker_ok w.
Proof. apply (reachable_invariant _ step worker_ok); [intros s ->; apply spawned_ok|intros s l s' _; apply step_ok]. Qed.

(** *** The life of a call whose worker is gone *)

Section gone.
Context (id : string).

(** It has not been let in, and will not be. *)
Definition early (p : Phase) : bool := match p with Checking | Connecting | Registering | Rechecking | Refusing _ => true | _ => false end.

(** It waits, or has something left to do. *)
Definition late (p : Phase) : bool := match p with Done _ | Abandoned => false | p => negb (early p) end.

Definition finished (w : Worker) : Prop := exists c, calls w !! id = Some c /\ (phase c = Abandoned \/ exists o, phase c = Done o).

(** The reader has told everyone, and the writer does not hold the channel of a call that is late. *)
Definition going (w : Worker) : Prop :=
  worker_ok w /\ reader w = ReaderExited /\
  exists c, calls w !! id = Some c /\ (early (phase c) = true \/ (late (phase c) = true /\ writer_holds id (writer w) = false)).

Definition weight (p : Phase) : nat :=
  match p with
  | Checking => 20 | Connecting => 19 | Registering => 18 | Rechecking => 17 | Refusing _ => 16
  | Enqueueing => 30 | Arming => 10 | Waiting => 9 | Collecting _ => 8 | Concluding _ => 7 | Streaming => 8 | Draining => 7 | Removing => 3 | Forgetting => 3
  | Done _ | Abandoned => 0
  end.

Definition left_to_do (w : Worker) : nat :=
  match calls w !! id with
  | Some c => if early (phase c) then weight (phase c)
              else weight (phase c) + match channels w !! id with Some ch => length (frames ch) | None => 0 end
  | None => 0
  end.

Lemma gone_took w : reader w = ReaderExited -> took w.
Proof. unfold took. by intros ->. Qed.

Lemma gone_dead w : worker_ok w -> reader w = ReaderExited -> alive w = false.
Proof. intros Hw Hr. apply (ok_dying w Hw). right; right. by apply gone_took. Qed.

(** What it waits for is there, or the channel is closed, or the input queue is full and its deadline can pass. *)
Lemma going_acts w : going w -> (exists w', own_step id w = Some w') \/ own_step id w = None /\ exists c, calls w !! id = Some c /\ phase c = Enqueueing.
Proof.
  intros (Hw & Hr & c & Hc & Hp). pose proof (ok_calls w Hw id) as Hok. unfold own_step. rewrite Hc. cbn [mbind option_bind].
  assert (listening (phase c) -> late (phase c) = true -> writer_holds id (writer w) = false -> phase c <> Enqueueing -> exists w', receive id c w = Some w') as Hrec.
  { intros Hl Hlate Hwr Hne. unfold receive. destruct (ok_listening id w Hok c Hc Hl) as (ch & -> & _). cbn [mbind option_bind].
    destruct (frames ch); [|by eexists]. assert (held id w = false) as ->; [|by eexists].
    unfold held. rewrite Hr, Hwr. cbn [reader_holds]. rewrite !orb_false_r, bool_decide_eq_false. intros Hin.
    pose proof (ok_taken id w Hok (gone_took w Hr) c Hc Hin) as Hu. destruct (phase c); try done. }
  destruct (phase c) eqn:Ep; destruct Hp as [Hp|[Hp Hwr]]; try done; try (left; by eexists); try (left; by apply Hrec).
  destruct (writer w); try (destruct (_ <? _)); try (left; by eexists); right; (split; [done|]); by eexists.
Qed.

Definition mine (l : Label) : Prop := l = Own id \/ l = Deadline id.

Lemma going_moves w : going w -> finished w \/ can_move step mine w.
Proof.
  intros [[w' H]|(H & c & Hc & Hp)]%going_acts; right.
  - exists (Own id), w'. split; [by left|by constructor].
  - exists (Deadline id), (go id c (Refusing "Worker did not accept a request; its input queue is full") w). split; [by right|].
    constructor. unfold deadline. rewrite H, Hc. cbn [mbind option_bind]. by rewrite Hp.
Qed.

(** The call went on by a step of its own: it is over, or closer to that. *)
Definition went (c : Call) (w w' : Worker) : Prop :=
  reader w' = reader w /\ writer w' = writer w /\ exists c', calls w' !! id = Some c' /\
    ((phase c' = Abandoned \/ exists o, phase c' = Done o) \/
     (early (phase c') = true /\ weight (phase c') < weight (phase c)) \/
     (late (phase c) = true /\ late (phase c') = true /\
      weight (phase c') + match channels w' !! id with Some ch => length (frames ch) | None => 0 end <
      weight (phase c) + match channels w !! id with Some ch => length (frames ch) | None => 0 end)).

Lemma late_not_early p : late p = true -> early p = false.
Proof. by destruct p. Qed.

Lemma went_progress c w w' : going w -> calls w !! id = Some c -> worker_ok w' -> went c w w' ->
  finished w' \/ going w' /\ left_to_do w' < left_to_do w.
Proof.
  intros (Hw & Hr & c0 & Hc0 & Hp) Hc Hw' (E1 & E2 & c' & Hc' & H). rewrite Hc in Hc0. injection Hc0 as <-.
  destruct H as [H|[(H1 & H2)|(H1 & H2 & H3)]]; [left; by exists c'|right; split|right; split].
  - split; [done|]. split; [congruence|]. exists c'. by auto.
  - unfold left_to_do. rewrite Hc, Hc', H1. destruct (early (phase c)); lia.
  - split; [done|]. split; [congruence|]. exists c'. split; [done|]. right. split; [done|]. rewrite E2. pose proof (late_not_early _ H1).
    destruct Hp as [Hp|[_ Hp]]; [congruence|done].
  - unfold left_to_do. rewrite Hc, Hc'. by rewrite (late_not_early _ H1), (late_not_early _ H2).
Qed.

(** Taking a frame, or learning that there is none to come. *)
Lemma receive_went c w w' : calls w !! id = Some c -> phase c = Waiting \/ phase c = Streaming \/ phase c = Draining ->
  receive id c w = Some w' -> went c w w'.
Proof.
  intros Hc Hp H. pose proof (receive_local id c w w' H) as [[L1 L2 _ _ _ _] _]. split; [done|]. split; [done|]. clear L1 L2.
  unfold receive in H. destruct (channels w !! id) as [ch|] eqn:Hch; [|done]. cbn [mbind option_bind] in H.
  assert (forall w1 c', Some w1 = Some w' -> calls w1 !! id = Some c' -> (exists o, phase c' = Done o) ->
    exists c', calls w' !! id = Some c' /\ ((phase c' = Abandoned \/ exists o, phase c' = Done o) \/
     (early (phase c') = true /\ weight (phase c') < weight (phase c)) \/
     (late (phase c) = true /\ late (phase c') = true /\
      weight (phase c') + match channels w' !! id with Some ch => length (frames ch) | None => 0 end < weight (phase c) + length (frames ch)))) as Hdone.
  { intros w1 c' [= ->] H1 H2. exists c'. by auto. }
  destruct (frames ch) as [|r rest] eqn:Hf; [destruct (held id w); [done|]|].
  - destruct Hp as [Ep|[Ep|Ep]]; rewrite Ep in H; try destruct (api c);
      try (eapply Hdone; [exact H|look; done|by eexists]); injection H as <-; eexists; (split; [look; done|]); right; right;
      rewrite Ep; look; rewrite Hch, Hf; cbn; split_and!; done || lia.
  - destruct Hp as [Ep|[Ep|Ep]]; rewrite Ep in H.
    + destruct (api c); [|injection H as <-; eexists; (split; [look; done|]); right; right; rewrite Ep; look; cbn; split_and!; done || lia].
      unfold first_frame in H. destruct (frame r) as [kind|]; [destruct (String.eqb kind "api-start")|].
      * cbn [with_timeouts with_channel channels] in H. rewrite lookup_insert_eq in H. injection H as <-.
        eexists. split; [look; done|]. right; right. rewrite Ep. look. cbn. split_and!; done || lia.
      * injection H as <-. eexists. split; [look; done|]. right; right. rewrite Ep. look. cbn. split_and!; done || lia.
      * eapply Hdone; [exact H|look; done|by eexists].
    + unfold poll_frame in H. repeat match type of H with context [if ?b then _ else _] => destruct b end;
        try (eapply Hdone; [exact H|look; done|by eexists]); injection H as <-; eexists; (split; [look; done|]); right; right;
        cbn [yields at_phase phase]; rewrite Ep; look; cbn; split_and!; done || lia.
    + injection H as <-. exists c. split; [done|]. right; right. rewrite Ep. look. cbn. split_and!; done || lia.
Qed.

Lemma own_went w w' : going w -> own_step id w = Some w' -> exists c, calls w !! id = Some c /\ went c w w'.
Proof.
  intros (Hw & Hr & c & Hc & Hp) H. exists c. split; [done|]. pose proof (gone_dead w Hw Hr) as Ha.
  pose proof (own_step_local id w w' H) as [[L1 L2 _ _ _ _] _]. unfold own_step in H. rewrite Hc in H. cbn [mbind option_bind] in H.
  destruct (phase c) as [| | | |message| | | |x|x| | | | |o|] eqn:Ep; try done.
  all: try (apply receive_went; [done|by rewrite Ep; auto|done]).
  all: split; [done|]; (split; [done|]); rewrite ?Ep.
  6: { assert (forall m w1, Some w1 = Some w' -> calls w1 !! id = Some (at_phase (Refusing m) c) -> exists c', calls w' !! id = Some c' /\
         ((phase c' = Abandoned \/ exists o, phase c' = Done o) \/ (early (phase c') = true /\ weight (phase c') < weight Enqueueing) \/
          (late Enqueueing = true /\ late (phase c') = true /\
           weight (phase c') + match channels w' !! id with Some ch => length (frames ch) | None => 0 end <
           weight Enqueueing + match channels w !! id with Some ch => length (frames ch) | None => 0 end))) as Hrefuse.
       { intros m w1 [= ->] H1. eexists. split; [done|]. right; left. split; [done|]. cbn. lia. }
       destruct (writer w); try (destruct (_ <? _); [|done]); try (eapply Hrefuse; [exact H|look; done]);
         (injection H as <-; eexists; (split; [look; done|]); right; right; look; cbn; split_and!; done || lia). }
  all: rewrite ?Ha in H; injection H as <-.
  all: try (destruct x; eexists; (split; [unfold conclude; look; done|]); left; right; by eexists).
  all: try (eexists; (split; [look; done|]); left; right; by eexists).
  - destruct (stdin_open w); (eexists; split; [look; done|]); [right; left|left; right; by eexists]. cbn. split_and!; done || lia.
  - eexists. split; [look; done|]. right; left. cbn. split_and!; done || lia.
  - eexists. split; [look; done|]. right; left. cbn. split_and!; done || lia.
  - eexists. split; [look; done|]. right; right. look. cbn. split_and!; done || lia.
  - eexists. split; [look; done|]. right; right. look. cbn. split_and!; done || lia.
Qed.

(** What another task may do to it: nothing, or send to a call that will not look. *)
Definition undisturbed (w w' : Worker) : Prop :=
  reader w' = reader w /\ calls w' !! id = calls w !! id /\
  forall c, calls w !! id = Some c -> early (phase c) = true \/
    channels w' !! id = channels w !! id /\ (writer_holds id (writer w) = false -> writer_holds id (writer w') = false).

Lemma undisturbed_going w w' : going w -> worker_ok w' -> undisturbed w w' -> going w' /\ left_to_do w' = left_to_do w.
Proof.
  intros (Hw & Hr & c & Hc & Hp) Hw' (E1 & E2 & H). specialize (H c Hc). split.
  - split; [done|]. split; [congruence|]. exists c. rewrite E2. split; [done|]. destruct Hp as [Hp|[Hp Hwr]]; [by left|right].
    split; [done|]. destruct H as [H|[_ H]]; [by rewrite (late_not_early _ Hp) in H|auto].
  - unfold left_to_do. rewrite E2, Hc. destruct (early (phase c)) eqn:E; [done|]. destruct H as [H|[-> _]]; [congruence|done].
Qed.

Lemma local_undisturbed id' w w' : local id' w w' -> id <> id' -> undisturbed w w'.
Proof.
  intros [L1 L2 _ _ L5 L6] Hne. split; [done|]. split; [by apply L5|]. intros c _. right. rewrite L2. split; [by apply L6|done].
Qed.

Lemma notify_channel message id' w w1 : notify message id' w = Some w1 ->
  reader w1 = reader w /\ calls w1 = calls w /\ forall i, i <> id' -> channels w1 !! i = channels w !! i.
Proof.
  unfold notify. intros H. destruct (channels w !! id') as [ch|]; [|by injection H as <-].
  destruct (_ || _); [by injection H as <-|]. destruct (_ <? _); [|done]. injection H as <-.
  split_and!; [done|done|]. intros i Hi. cbn. by rewrite lookup_insert_ne.
Qed.

(** The writer tells no call that is late. *)
Lemma write_end_undisturbed w w' : going w -> write_end w = Some w' -> undisturbed w w'.
Proof.
  intros (Hw & Hr & c & Hc & Hp) H. unfold write_end in H. destruct (writer w) as [| |[|id' ids]|] eqn:Ew; try done.
  - destruct (input w); [done|]. injection H as <-. split_and!; [done|done|]. intros c0 _. by right.
  - injection H as <-. split_and!; [done|done|]. intros c0 Hc0. rewrite Hc in Hc0. injection Hc0 as <-.
    destruct Hp as [Hp|[Hp _]]; [by left|right]. split; [done|]. intros _. cbn [with_writer with_pending writer writer_holds].
    apply bool_decide_eq_false. intros Hin%elements_taken. pose proof (ok_taken id w (ok_calls w Hw id) (gone_took w Hr) c Hc Hin) as Hu.
    destruct (phase c); done.
  - injection H as <-. split_and!; [done|done|]. intros c0 _. by right.
  - destruct (notify _ id' w) as [w1|] eqn:En; [|done]. injection H as <-. apply notify_channel in En as (E1 & E2 & E3).
    split; [done|]. split; [cbn; by rewrite E2|]. intros c0 Hc0. rewrite Hc in Hc0. injection Hc0 as <-.
    destruct Hp as [Hp|[Hp Hwr]]; [by left|right]. cbn [writer_holds] in Hwr. apply bool_decide_eq_false in Hwr.
    rewrite not_elem_of_cons in Hwr. destruct Hwr as [H1 H2]. split; [by apply E3|]. intros _. cbn. by apply bool_decide_eq_false.
Qed.

Lemma task_undisturbed w w' : going w -> step w Task w' -> undisturbed w w'.
Proof.
  intros Hg H. pose proof Hg as (_ & Hr & c & Hc & _). assert (forall w1, w1 = w -> undisturbed w w1) as Hsame.
  { intros w1 ->. split_and!; [done|done|]. by right. }
  inversion H as [| | |id' api ? ? H1|r ? ? H1|? ? H1|? ? H1|? ? H1|? ? H1|? ? H1|?|? Ha|? Ha Hs|?|?]; subst.
  - unfold begin in H1. destruct (calls w !! id') eqn:E; [done|]. injection H1 as <-. apply (local_undisturbed id'); [by locals|congruence].
  - unfold read_frame in H1. by rewrite Hr in H1.
  - unfold deliver in H1. by rewrite Hr in H1.
  - unfold read_end in H1. by rewrite Hr in H1.
  - unfold write_line in H1. destruct (writer w) eqn:Ew, (input w); try done. injection H1 as <-. split_and!; [done|done|]. by right.
  - by apply write_end_undisturbed.
  - unfold writer_stops in H1. destruct (writer w), (input w); try done. destruct (_ || _); [done|]. injection H1 as <-. split_and!; [done|done|]. by right.
  - split_and!; [done|done|]. by right.
  - split_and!; [done|done|]. by right.
  - split_and!; [done|done|]. by right.
  - unfold try_queue_invalidation. destruct (stdin_open w); [|by apply Hsame].
    destruct (try_send_same InvalidateLine w) as [->| ->]; [by apply Hsame|]. split_and!; [done|done|]. by right.
  - by apply Hsame.
Qed.

(** Dropped, it is over, or its stream is drained. *)
Lemma abandon_progress w w' : going w -> worker_ok w' -> abandon id w = Some w' -> finished w' \/ going w' /\ left_to_do w' < left_to_do w.
Proof.
  intros Hg Hw' H. pose proof Hg as (Hw & Hr & c & Hc & Hp). apply (went_progress c w); [done|done|done|].
  unfold abandon in H. rewrite Hc in H. cbn [mbind option_bind] in H.
  assert (local id w w') as [L1 L2 _ _ _ _].
  { destruct (phase c); try done; injection H as <-; by locals. }
  split; [done|]. split; [done|]. destruct (phase c) eqn:Ep; try done; injection H as <-; eexists; (split; [look; done|]).
  all: try (left; left; done).
  right; right. look. cbn. split_and!; [done|done|]. destruct (channels w !! id); cbn; lia.
Qed.

Lemma going_step w l w' : going w -> step w l w' ->
  finished w' \/ going w' /\ left_to_do w' <= left_to_do w /\ (mine l -> left_to_do w' < left_to_do w).
Proof.
  intros Hg H. pose proof (step_ok w l w' (proj1 Hg) H) as Hw'. pose proof Hg as (Hw & Hr & c & Hc & Hp).
  assert ((finished w' \/ going w' /\ left_to_do w' < left_to_do w) -> finished w' \/ going w' /\ left_to_do w' <= left_to_do w /\ (mine l -> left_to_do w' < left_to_do w)) as Hfast.
  { intros [H1|[H1 H2]]; [by left|right]. split_and!; [done|lia|done]. }
  assert (undisturbed w w' -> ~ mine l -> finished w' \/ going w' /\ left_to_do w' <= left_to_do w /\ (mine l -> left_to_do w' < left_to_do w)) as Hslow.
  { intros H1 H2. destruct (undisturbed_going w w' Hg Hw' H1) as [H3 H4]. right. split_and!; [done|lia|done]. }
  destruct l as [id'|id'|id'|].
  - assert (own_step id' w = Some w') as Ho by by inversion H. destruct (decide (id = id')) as [<-|Hne].
    + apply Hfast. destruct (own_went w w' Hg Ho) as (c0 & Hc0 & Hwent). by apply (went_progress c0 w).
    + apply Hslow; [|by intros [[=]|[=]]]. apply (local_undisturbed id'); [|done]. by apply own_step_local.
  - assert (deadline id' w = Some w') as Ho by by inversion H. destruct (decide (id = id')) as [<-|Hne].
    + destruct (going_acts w Hg) as [[w1 E]|(E & c1 & Hc1 & Hp1)]; unfold deadline in Ho; rewrite E in Ho; [done|].
      apply Hfast, (went_progress c1 w); [done|done|done|]. rewrite Hc1 in Ho. cbn [mbind option_bind] in Ho. rewrite Hp1 in Ho. injection Ho as <-.
      split_and!; [done|done|]. eexists. split; [look; done|]. right; left. rewrite Hp1. cbn. split; [done|lia].
    + apply Hslow; [|by intros [[=]|[=]]]. apply (local_undisturbed id'); [|done]. unfold deadline in Ho. destruct (own_step id' w); [done|].
      destruct (calls w !! id') as [c'|]; [|done]. cbn [mbind option_bind] in Ho. destruct (phase c'); try done; injection Ho as <-; by locals.
  - assert (abandon id' w = Some w') as Ho by by inversion H. destruct (decide (id = id')) as [<-|Hne]; [by apply Hfast, abandon_progress|].
    apply Hslow; [|by intros [[=]|[=]]]. apply (local_undisturbed id'); [|done]. unfold abandon in Ho.
    destruct (calls w !! id') as [c'|]; [|done]. cbn [mbind option_bind] in Ho. destruct (phase c'); try done; injection Ho as <-; by locals.
  - apply Hslow; [|by intros [[=]|[=]]]. by apply task_undisturbed.
Qed.
End gone.

(** *** Claims *)

(** At any moment of any run of a worker, whatever it prints and whoever is dropped, the in-flight number is the number of entries, an entry belongs to a call that registered itself and has not ended, and while the worker lives every call that waits for its answer or reads its stream has an entry, or its last frame is already on its way. *)
Theorem pending_set_is_in_flight w : reached w ->
  count (pending w) = N.of_nat (size (entries (pending w))) /\
  (forall id, id ∈ entries (pending w) -> exists c, calls w !! id = Some c /\ ~ unregistered (phase c) /\ ~ over (phase c)) /\
  (alive w = true -> forall id c, calls w !! id = Some c -> phase c = Waiting \/ phase c = Streaming ->
    id ∈ entries (pending w) \/ exists r, in_flight_frame id w r /\ is_terminal r = true).
Proof.
  intros Hr%reached_ok. split_and!; [by apply ok_count|intros id; apply ok_entry, (ok_calls w Hr id)|].
  intros Ha id c Hc Hp. apply (ok_counted id w (ok_calls w Hr id) Ha c Hc). by destruct Hp as [-> | ->].
Qed.

(** C25: answers do not cross: a frame that is on its way to a call carries that call's identifier, and so does the answer a call is given. *)
Theorem answers_do_not_cross w id : reached w ->
  (forall r, in_flight_frame id w r -> response_id r = id) /\
  (forall c r, calls w !! id = Some c -> phase c = Done (Answered r) -> response_id r = id).
Proof.
  intros Hr%reached_ok. pose proof (ok_calls w Hr id) as Hok. split; [by apply ok_frames|].
  intros c r Hc Hp. pose proof (ok_answers id w Hok c Hc) as H. by rewrite Hp in H.
Qed.

(** C24: once the reader of a worker that ended has told everyone, no call is left waiting: however its steps are interleaved with the others', if it is scheduled and its deadline passes, it ends, unless the writer has yet to tell it. *)
Theorem dead_worker_answers_every_call states labels n id c :
  states 0 = spawned -> is_run step states labels -> fair step (mine id) states labels ->
  reader (states n) = ReaderExited -> writer_holds id (writer (states n)) = false -> calls (states n) !! id = Some c ->
  exists m c', n <= m /\ calls (states m) !! id = Some c' /\ (phase c' = Abandoned \/ exists o, phase c' = Done o).
Proof.
  intros H0 Hrun Hfair Hr Hwr Hc.
  assert (worker_ok (states n)) as Hw.
  { apply reached_ok. clear - H0 Hrun. induction n as [|n IH]; [by constructor|by eapply reach_step]. }
  destruct (early (phase c)) eqn:He; [|destruct (late (phase c)) eqn:Hl].
  3: { exists n, c. split_and!; [done|done|]. destruct (phase c); try done; [right; by eexists|by left]. }
  all: destruct (leads_to step (mine id) (going id) (finished id) (left_to_do id) states labels Hrun Hfair (going_step id) (going_moves id) n) as (m & Hm & c' & H1 & H2);
    [|by exists m, c'].
  all: split; [done|]; (split; [done|]); exists c; (split; [done|]); auto.
Qed.

(** *** Concrete workers *)

Definition attempt (f : Worker -> option Worker) (w : Worker) : Worker := default w (f w).
Definition own_steps (n : nat) (id : string) (w : Worker) : Worker := Nat.iter n (attempt (own_step id)) w.
Definition read_ends (n : nat) (w : Worker) : Worker := Nat.iter n (attempt read_end) w.
Definition full_input (w : Worker) : Worker := Nat.iter STDIN_QUEUE try_queue_invalidation w.

Lemma attempt_reached l f w : (forall w', f w = Some w' -> step w l w') -> reached w -> reached (attempt f w).
Proof. intros H Hw. unfold attempt. destruct (f w) as [w'|] eqn:E; [|done]. cbn. eapply reach_step; [done|by apply H]. Qed.

Lemma own_steps_reached n id w : reached w -> reached (own_steps n id w).
Proof. intros Hw. induction n as [|n IH]; [done|]. cbn. apply (attempt_reached (Own id)); [|done]. intros w'. by constructor. Qed.

Lemma read_ends_reached n w : reached w -> reached (read_ends n w).
Proof. intros Hw. induction n as [|n IH]; [done|]. cbn. apply (attempt_reached Task); [|done]. intros w'. by constructor. Qed.

Lemma full_input_reached w : reached w -> reached (full_input w).
Proof. intros Hw. unfold full_input. generalize STDIN_QUEUE. intros n. induction n as [|n IH]; [done|]. cbn. eapply reach_step; [done|apply step_invalidate]. Qed.

Lemma begin_reached id api w : reached w -> reached (attempt (begin id api) w).
Proof. apply (attempt_reached Task). intros w'. by apply step_begin. Qed.

Lemma spawned_reached : reached spawned.
Proof. by apply reach_init. Qed.

(** A request that waits for its answer, and the frame that answers it. *)
Definition one_waiting : Worker := own_steps 6 "1" (attempt (begin "1" false) spawned).
Definition answer : WorkerResponse := response_frame "1" None None None.
Definition one_answered : Worker := own_steps 4 "1" (attempt deliver (attempt deliver (attempt (read_frame answer) one_waiting))).

Lemma one_waiting_reached : reached one_waiting.
Proof. apply own_steps_reached, begin_reached, spawned_reached. Qed.

Lemma one_answered_reached : reached one_answered.
Proof.
  apply own_steps_reached, (attempt_reached Task); [by constructor|]. apply (attempt_reached Task); [by constructor|].
  apply (attempt_reached Task); [|apply one_waiting_reached]. intros w'. by apply step_read.
Qed.

Lemma pending_set_witness : (phase <$> calls one_waiting !! "1") = Some Waiting /\ alive one_waiting = true /\ count (pending one_waiting) = 1%N /\
  count (pending one_waiting) = N.of_nat (size (entries (pending one_waiting))).
Proof.
  split; [vm_compute; reflexivity|]. split; [reflexivity|]. split; [vm_compute; reflexivity|].
  apply (pending_set_is_in_flight one_waiting one_waiting_reached).
Defined.

Lemma answers_witness : exists c r, calls one_answered !! "1" = Some c /\ phase c = Done (Answered r) /\ response_id r = "1".
Proof.
  exists (mkCall false (Done (Answered answer)) true [] None), answer.
  assert (calls one_answered !! "1" = Some (mkCall false (Done (Answered answer)) true [] None)) as H by (vm_compute; reflexivity).
  split; [exact H|]. split; [reflexivity|]. exact (proj2 (answers_do_not_cross one_answered "1" one_answered_reached) _ answer H eq_refl).
Defined.

(** A worker that ends while a request waits: what is done, and in which order. *)
Definition ending : list (Label * (Worker -> option Worker)) :=
  (Task, begin "1" false) :: replicate 6 (Own "1", own_step "1") ++ replicate 4 (Task, read_end) ++ replicate 3 (Own "1", own_step "1").

Fixpoint played (script : list (Label * (Worker -> option Worker))) (n : nat) (w : Worker) : Worker :=
  match script with [] => w | (_, f) :: script => match n with 0 => w | S n => played script n (attempt f w) end end.

Lemma played_after script n w : length script <= n -> played script n w = played script (length script) w.
Proof. revert n w. induction script as [|[l f] script IH]; intros [|n] w H; try done; cbn in H; [lia|]. cbn. apply IH. lia. Qed.

Definition ending_states (n : nat) : Worker := played ending n spawned.
Definition ending_labels (n : nat) : Label := default Task (fst <$> ending !! n).

Lemma ending_run : is_run step ending_states ending_labels.
Proof.
  intros n. do 14 (destruct n as [|n]; [first [apply step_own; vm_compute; reflexivity | apply (step_begin "1" false); vm_compute; reflexivity | apply step_read_end; vm_compute; reflexivity]|]).
  unfold ending_states. rewrite 2!(played_after ending (S _)) by (cbn; lia). apply step_idle.
Qed.

Lemma still_over w : own_step "1" w = None -> deadline "1" w = None -> ~ can_move step (mine "1") w.
Proof. intros H1 H2 (l & w' & [->| ->] & H); inversion H; congruence. Qed.

Lemma ending_fair : fair step (mine "1") ending_states ending_labels.
Proof.
  intros n. exists (14 + n). split; [lia|]. right. unfold ending_states. rewrite played_after by (cbn; lia).
  apply still_over; vm_compute; reflexivity.
Qed.

Lemma dead_worker_witness : exists c, calls (ending_states 11) !! "1" = Some c /\ phase c = Waiting /\
  exists m c', 11 <= m /\ calls (ending_states m) !! "1" = Some c' /\ (phase c' = Abandoned \/ exists o, phase c' = Done o).
Proof.
  exists (mkCall false Waiting true [] None).
  assert (calls (ending_states 11) !! "1" = Some (mkCall false Waiting true [] None)) as H by (vm_compute; reflexivity).
  split; [exact H|]. split; [reflexivity|].
  apply (dead_worker_answers_every_call ending_states ending_labels 11 "1" (mkCall false Waiting true [] None)).
  - reflexivity.
  - exact ending_run.
  - exact ending_fair.
  - vm_compute. reflexivity.
  - vm_compute. reflexivity.
  - exact H.
Defined.

(** A request dropped while its line waits for room in the queue: its entry stays, and no line of it was queued that the worker could answer. *)
Definition dropped_in_queue : Worker := attempt (abandon "1") (own_steps 4 "1" (attempt (begin "1" false) (full_input spawned))).

Example abandoned_request_stays_in_flight : reached dropped_in_queue /\ alive dropped_in_queue = true /\
  (phase <$> calls dropped_in_queue !! "1") = Some Abandoned /\ count (pending dropped_in_queue) = 1%N /\ ~ RequestLine "1" ∈ input dropped_in_queue.
Proof.
  split.
  { apply (attempt_reached (Abandon "1")); [by constructor|]. apply own_steps_reached, begin_reached, full_input_reached, spawned_reached. }
  split; [vm_compute; reflexivity|]. split; [vm_compute; reflexivity|]. split; [vm_compute; reflexivity|].
  intros H. assert (Forall (fun l => l = InvalidateLine) (input dropped_in_queue)) as Hall by (vm_compute; repeat constructor).
  rewrite Forall_forall in Hall. by specialize (Hall _ H).
Qed.

(** A stream whose consumer has stopped reading holds up the others: until it reads again a call behind it waits. *)
Example teardown_waits_for_a_slow_stream w ids id id' ch : reader w = ReadNotifying (id :: ids) -> id' ∈ ids ->
  channels w !! id = Some ch -> streaming ch = true -> receiver ch = true -> length (frames ch) = MAX_PENDING_RESPONSE_FRAMES ->
  read_end w = None /\ held id' w = true.
Proof.
  intros Hr Hin Hch Hs Hrc Hl. split.
  - unfold read_end. rewrite Hr. unfold notify. rewrite Hch, Hs, Hrc, Hl. reflexivity.
  - unfold held. rewrite Hr. cbn [reader_holds]. rewrite (bool_decide_true (id' ∈ id :: ids)) by (by right). by rewrite !orb_true_r.
Qed.
