(* ===== verification/WorkerPool.v ===== *)
(** * The pool of render workers (ruvyxa_dev_server/src/worker_pool.rs: [NodeWorkerPool])

    The slots requests are sent to, the workers that were taken out of them and
    still drain, and every activity that moves a worker: a request and what its
    failure sets off, the replacement of a saturated worker, a new generation,
    the shutdown.  An activity is a job; a definition is what it does between
    two points at which the others can run (a lock taken and released, an
    await), and [step] interleaves the jobs, the processes that exit, and the
    futures that are dropped.

    A worker is its number, drawn when its process is spawned; it stands for
    the [Arc] the code compares by pointer.  A process runs until it exits or
    until the last [Arc] of its worker, or the future that waits for its exit,
    is dropped ([kill_on_drop]).  What a worker answers, and when it is idle,
    is arbitrary here (Worker.v).  A lock is never poisoned. *)
From stdpp Require Import relations.
From S2P Require Import Prelude Runs WorkerProtocol Worker.

(** ** Definitions *)

(** What a job does once what it stops has stopped. *)
Inductive After :=
  | ThenRetry (r : WorkerRequest) (index : nat) (active : option N)
  | ThenDeregister (w : N) | ThenReleaseGate | ThenNothing.

Inductive Job :=
  | Sending (r : WorkerRequest) (index : nat) (w : N) (retry : bool)
  | Warming (index : nat) (w : N)
  | Replacing (r : WorkerRequest) (index : nat) (failed : N)
  | Replaced (r : WorkerRequest) (index : nat) (failed replacement : N)
  | Saturated (index : nat) (w : N)
  | Renewed (index : nat) (w replacement : N)
  | Stopping (concurrently : bool) (todo waiting : list N) (after : After)
  | Draining (w : N)
  | Asked (requested_at : N)
  | Recycling (worker_count : nat) (replacements : list N)
  | Swapped (old_workers : list N)
  | Publishing (old_workers : list N)
  | Sampled (live : list N)
  | Finished.

(** A request handed to a worker, and by which job. *)
Record Sent := mkSent { sent_job : N; sent_request : WorkerRequest; sent_worker : N }.

(** [NodeWorkerPool], the processes, and the jobs.  [sent] and [dropped] record what has happened: the requests handed out, and the workers whose shutdown was dropped before it began. *)
Record Pool := mkPool {
  retained_module_urls_per_worker : option N;
  workers : list N;
  retiring : list N;
  next_worker : N;
  recycle_gate : bool;
  recycle_generation : N;
  retained_module_urls : gmap N N;
  running : gset N;
  closing : gset N;
  jobs : gmap N Job;
  fresh : N;
  sent : list Sent;
  dropped : gset N;
}.

(** The pool [start_with_timeout] answers, over [n] workers. *)
Definition started (budget : option N) (n : nat) : Pool :=
  let ws := N.of_nat <$> seq 0 n in mkPool budget ws [] 0 false 0 ∅ (list_to_set ws) ∅ ∅ (N.of_nat n) [] ∅.

Definition with_workers x (s : Pool) : Pool :=
  mkPool (retained_module_urls_per_worker s) x (retiring s) (next_worker s) (recycle_gate s) (recycle_generation s) (retained_module_urls s) (running s) (closing s) (jobs s) (fresh s) (sent s) (dropped s).
Definition with_retiring x (s : Pool) : Pool :=
  mkPool (retained_module_urls_per_worker s) (workers s) x (next_worker s) (recycle_gate s) (recycle_generation s) (retained_module_urls s) (running s) (closing s) (jobs s) (fresh s) (sent s) (dropped s).
Definition with_next_worker x (s : Pool) : Pool :=
  mkPool (retained_module_urls_per_worker s) (workers s) (retiring s) x (recycle_gate s) (recycle_generation s) (retained_module_urls s) (running s) (closing s) (jobs s) (fresh s) (sent s) (dropped s).
Definition with_gate x (s : Pool) : Pool :=
  mkPool (retained_module_urls_per_worker s) (workers s) (retiring s) (next_worker s) x (recycle_generation s) (retained_module_urls s) (running s) (closing s) (jobs s) (fresh s) (sent s) (dropped s).
Definition with_generation x (s : Pool) : Pool :=
  mkPool (retained_module_urls_per_worker s) (workers s) (retiring s) (next_worker s) (recycle_gate s) x (retained_module_urls s) (running s) (closing s) (jobs s) (fresh s) (sent s) (dropped s).
Definition with_retained x (s : Pool) : Pool :=
  mkPool (retained_module_urls_per_worker s) (workers s) (retiring s) (next_worker s) (recycle_gate s) (recycle_generation s) x (running s) (closing s) (jobs s) (fresh s) (sent s) (dropped s).
Definition with_running x (s : Pool) : Pool :=
  mkPool (retained_module_urls_per_worker s) (workers s) (retiring s) (next_worker s) (recycle_gate s) (recycle_generation s) (retained_module_urls s) x (closing s) (jobs s) (fresh s) (sent s) (dropped s).
Definition with_closing x (s : Pool) : Pool :=
  mkPool (retained_module_urls_per_worker s) (workers s) (retiring s) (next_worker s) (recycle_gate s) (recycle_generation s) (retained_module_urls s) (running s) x (jobs s) (fresh s) (sent s) (dropped s).
Definition with_jobs x (s : Pool) : Pool :=
  mkPool (retained_module_urls_per_worker s) (workers s) (retiring s) (next_worker s) (recycle_gate s) (recycle_generation s) (retained_module_urls s) (running s) (closing s) x (fresh s) (sent s) (dropped s).
Definition with_fresh x (s : Pool) : Pool :=
  mkPool (retained_module_urls_per_worker s) (workers s) (retiring s) (next_worker s) (recycle_gate s) (recycle_generation s) (retained_module_urls s) (running s) (closing s) (jobs s) x (sent s) (dropped s).
Definition with_sent x (s : Pool) : Pool :=
  mkPool (retained_module_urls_per_worker s) (workers s) (retiring s) (next_worker s) (recycle_gate s) (recycle_generation s) (retained_module_urls s) (running s) (closing s) (jobs s) (fresh s) x (dropped s).
Definition with_dropped x (s : Pool) : Pool :=
  mkPool (retained_module_urls_per_worker s) (workers s) (retiring s) (next_worker s) (recycle_gate s) (recycle_generation s) (retained_module_urls s) (running s) (closing s) (jobs s) (fresh s) (sent s) x.

Definition go (id : N) (j : Job) (s : Pool) : Pool := with_jobs (<[id := j]> (jobs s)) s.

(** A new job. *)
Definition launch (j : Job) (s : Pool) : Pool := with_fresh (fresh s + 1)%N (go (fresh s) j s).

(** [Worker::spawn]: the worker, and its process *)
Definition spawn (s : Pool) : N * Pool := (fresh s, with_fresh (fresh s + 1)%N (with_running ({[fresh s]} ∪ running s) s)).

(** *** Selection *)

Definition usize_max : N := 18446744073709551615.

(** The scan of [select_worker] over the offsets that are left. *)
Fixpoint probe (load : N -> N) (ws : list N) (start : N) (offsets : list nat) (best : nat) (best_load : N) : nat :=
  match offsets with
  | [] => best
  | offset :: offsets =>
      let index := N.to_nat (((start + N.of_nat offset) mod 2 ^ 64) mod N.of_nat (length ws)) in
      let n := load (nth index ws 0%N) in
      if (n =? 0)%N then index
      else if (n <? best_load)%N then probe load ws start offsets index n else probe load ws start offsets best best_load
  end.

(** [select_worker]: the slot and the worker in it; [load] is what [in_flight] answers for each. *)
Definition select_worker (load : N -> N) (s : Pool) : option (nat * N * Pool) :=
  match workers s with
  | [] => None
  | ws =>
      let start := next_worker s in
      let index := probe load ws start (seq 0 (length ws)) (N.to_nat (start mod N.of_nat (length ws))) usize_max in
      w ← ws !! index; Some (index, w, with_next_worker ((start + 1) mod 2 ^ 64)%N s)
  end.

(** [size] *)
Definition size (s : Pool) : nat := Nat.max (length (workers s)) 1.

(** *** A request *)

(** [worker.send(&request, ..)] begins. *)
Definition transmit (id : N) (r : WorkerRequest) (index : nat) (w : N) (retry : bool) (s : Pool) : Pool :=
  with_sent (sent s ++ [mkSent id r w]) (go id (Sending r index w retry) s).

(** [send], up to its first await; with no worker it answers an error. *)
Definition send (load : N -> N) (r : WorkerRequest) (s : Pool) : Pool :=
  match select_worker load s with
  | Some (index, w, s) => with_fresh (fresh s + 1)%N (transmit (fresh s) r index w false s)
  | None => s
  end.

(** [retire_worker_if_saturated], up to the spawn. *)
Definition retire_worker_if_saturated (id : N) (index : nat) (w : N) (observed : option N) (isolated : bool) (s : Pool) : Pool :=
  match retained_module_urls_per_worker s with
  | None => go id Finished s
  | Some budget =>
      let counted := (default 0%N (retained_module_urls s !! w) + 1)%N in
      match observed, isolated with
      | None, false => go id Finished s
      | _, _ =>
          let retained := match observed with Some n => n | None => counted end in
          let s := with_retained (<[w := retained]> (retained_module_urls s)) s in
          go id (if (retained <? budget)%N then Finished else Saturated index w) s
      end
  end.

(** [send] is answered, or fails. *)
Definition send_failed (id : N) (r : WorkerRequest) (index : nat) (w : N) (retry : bool) (f : WorkerSendFailure) (s : Pool) : Pool :=
  go id (if negb retry && warrants_replacement f then Replacing r index w else Finished) s.

(** [replace_failed_worker]: the spawn, then what happens under the lock. *)
Definition spawn_for_failed (id : N) (r : WorkerRequest) (index : nat) (failed : N) (ok : bool) (s : Pool) : Pool :=
  if ok then let '(replacement, s) := spawn s in go id (Replaced r index failed replacement) s else go id Finished s.

Definition replace_failed_worker (id : N) (r : WorkerRequest) (index : nat) (failed replacement : N) (s : Pool) : Pool :=
  match workers s !! index with
  | Some w =>
      if decide (w = failed)
      then go id (Stopping false [failed] [] (ThenRetry r index (Some replacement))) (with_workers (<[index := replacement]> (workers s)) s)
      else go id (Stopping false [replacement] [] (ThenRetry r index (Some w))) s
  | None => go id (Stopping false [replacement] [] (ThenRetry r index None)) s
  end.

(** [replace_saturated_worker]: the spawn, then [install_replacement] and the drain it starts. *)
Definition spawn_for_saturated (id : N) (index : nat) (w : N) (ok : bool) (s : Pool) : Pool :=
  if ok then let '(replacement, s) := spawn s in go id (Renewed index w replacement) s
  else go id Finished (with_retained (<[w := 0%N]> (retained_module_urls s)) s).

Definition install_replacement (index : nat) (saturated replacement : N) (s : Pool) : option Pool :=
  match workers s !! index with
  | Some w => if decide (w = saturated)
              then Some (with_workers (<[index := replacement]> (workers s)) (with_retiring (retiring s ++ [saturated]) s))
              else None
  | None => None
  end.

Definition replace_saturated_worker (id : N) (index : nat) (saturated replacement : N) (s : Pool) : Pool :=
  match install_replacement index saturated replacement s with
  | Some s => go id (Draining saturated) s
  | None => go id (Stopping false [replacement] [] ThenNothing) s
  end.

(** *** Stopping workers *)

(** [Worker::shutdown] begins for the [k]th worker of the list: its child is taken, unless another shutdown has it. *)
Definition stop_one (id : N) (concurrently : bool) (todo waiting : list N) (after : After) (k : nat) (s : Pool) : option Pool :=
  if concurrently || bool_decide (k = 0 /\ waiting = []) then
    w ← todo !! k;
    Some (if decide (w ∈ closing s) then go id (Stopping concurrently (delete k todo) waiting after) s
          else go id (Stopping concurrently (delete k todo) (w :: waiting) after) (with_closing ({[w]} ∪ closing s) s))
  else None.

(** [child.wait()] answers. *)
Definition stopped_one (id : N) (concurrently : bool) (todo waiting : list N) (after : After) (w : N) (s : Pool) : option Pool :=
  if bool_decide (w ∈ waiting /\ w ∉ running s)
  then Some (go id (Stopping concurrently todo (filter (fun x => x <> w) waiting) after) s) else None.

(** What comes after. *)
Definition stopped_all (id : N) (after : After) (s : Pool) : Pool :=
  match after with
  | ThenRetry r index (Some active) => if is_idempotent r then transmit id r index active true s else go id Finished s
  | ThenRetry _ _ None => go id Finished s
  | ThenDeregister w => go id Finished (with_retiring (filter (fun x => x <> w) (retiring s)) s)
  | ThenReleaseGate => go id Finished (with_gate false s)
  | ThenNothing => go id Finished s
  end.

(** [drain_then_shutdown]: the worker is idle, or has had its time. *)
Definition drain_then_shutdown (id : N) (w : N) (s : Pool) : Pool := go id (Stopping false [w] [] (ThenDeregister w)) s.

(** *** A new generation *)

(** [recycle] is called. *)
Definition recycle (s : Pool) : Pool := launch (Asked (recycle_generation s)) s.

(** It gets the gate: it joins a recycle that finished meanwhile, or starts one. *)
Definition recycle_enter (id : N) (requested_at : N) (s : Pool) : option Pool :=
  if recycle_gate s then None
  else Some (if (recycle_generation s =? requested_at)%N then go id (Recycling (length (workers s)) []) (with_gate true s) else go id Finished s).

Definition recycle_spawn (id : N) (worker_count : nat) (replacements : list N) (ok : bool) (s : Pool) : option Pool :=
  if length replacements <? worker_count then
    Some (if ok then let '(replacement, s) := spawn s in go id (Recycling worker_count (replacements ++ [replacement])) s
          else go id (Stopping false replacements [] ThenReleaseGate) s)
  else None.

Definition recycle_swap (id : N) (worker_count : nat) (replacements : list N) (s : Pool) : option Pool :=
  if length replacements <? worker_count then None
  else Some (if length (workers s) =? length replacements
             then go id (Swapped (workers s)) (with_workers replacements (with_retiring (retiring s ++ workers s) s))
             else go id (Stopping false replacements [] ThenReleaseGate) s).

Definition recycle_publish (id : N) (old_workers : list N) (s : Pool) : Pool :=
  go id (Publishing old_workers) (with_generation ((recycle_generation s + 1) mod 2 ^ 64)%N s).

(** [drain_registered_in_background] for each of the old workers; the gate is released at the end. *)
Definition recycle_drain (id : N) (old_workers : list N) (s : Pool) : Pool :=
  match old_workers with
  | w :: old_workers => launch (Draining w) (go id (Publishing old_workers) s)
  | [] => go id Finished (with_gate false s)
  end.

(** *** Shutdown, warmup, invalidation *)

(** [shutdown]: the slots are read, then the retiring workers taken. *)
Definition shutdown (s : Pool) : Pool := launch (Sampled (workers s)) s.
Definition shutdown_take (id : N) (live : list N) (s : Pool) : Pool :=
  go id (Stopping true (live ++ retiring s) [] ThenNothing) (with_retiring [] s).

(** [warmup] sends to every worker. *)
Definition warmup (s : Pool) : Pool := foldl (fun s iw => launch (Warming (fst iw) (snd iw)) s) s (imap pair (workers s)).

(** [invalidate_from_watcher]: [queue] is what [try_queue_invalidation] answers for a worker. *)
Definition invalidate_from_watcher (queue : N -> option string) (s : Pool) : nat + (nat * list (nat * string)) :=
  let results := imap (fun i w => (i, queue w)) (workers s) in
  let queued := length (filter (fun x => snd x = None) results) in
  match omap (fun x => pair (fst x) <$> snd x) results with
  | [] => inl queued
  | failures => inr (queued, failures)
  end.

(** *** Interleavings *)

(** A job holds the [Arc] of a worker. *)
Definition mentions (w : N) (j : Job) : bool :=
  match j with
  | Sending _ _ w' _ | Warming _ w' | Replacing _ _ w' | Saturated _ w' | Draining w' => bool_decide (w = w')
  | Replaced _ _ w1 w2 | Renewed _ w1 w2 => bool_decide (w = w1) || bool_decide (w = w2)
  | Stopping _ todo waiting after =>
      bool_decide (w ∈ todo) || bool_decide (w ∈ waiting) ||
      match after with ThenRetry _ _ (Some w') | ThenDeregister w' => bool_decide (w = w') | _ => false end
  | Recycling _ ws | Swapped ws | Publishing ws | Sampled ws => bool_decide (w ∈ ws)
  | Asked _ | Finished => false
  end.

(** A job waits for the process of [w] to exit: it has its child. *)
Definition waits (w : N) (j : Job) : bool := match j with Stopping _ _ waiting _ => bool_decide (w ∈ waiting) | _ => false end.

Definition some_job (p : Job -> bool) (s : Pool) : bool := existsb (fun x => p (snd x)) (map_to_list (jobs s)).

(** Somebody still holds the process. *)
Definition owned (w : N) (s : Pool) : bool :=
  if decide (w ∈ closing s) then some_job (waits w) s
  else bool_decide (w ∈ workers s) || bool_decide (w ∈ retiring s) || some_job (mentions w) s.

(** [kill_on_drop] *)
Definition drop_unowned (s : Pool) : Pool := with_running (filter (fun w => owned w s = true) (running s)) s.

(** What the rest of the world does to a job. *)
Inductive Choice := Go | Answers (retained : option N) | Fails (f : WorkerSendFailure) | Spawns (ok : bool) | Stops (k : nat) | Exited (w : N).

Definition act (c : Choice) (id : N) (s : Pool) : option Pool :=
  j ← jobs s !! id;
  match c, j with
  | Answers observed, Sending r index w _ => Some (retire_worker_if_saturated id index w observed (retains_an_isolated_module_graph r) s)
  | Fails f, Sending r index w retry => Some (send_failed id r index w retry f s)
  | Answers observed, Warming index w => Some (retire_worker_if_saturated id index w observed false s)
  | Fails _, Warming _ _ => Some (go id Finished s)
  | Spawns ok, Replacing r index failed => Some (spawn_for_failed id r index failed ok s)
  | Go, Replaced r index failed replacement => Some (replace_failed_worker id r index failed replacement s)
  | Spawns ok, Saturated index w => Some (spawn_for_saturated id index w ok s)
  | Go, Renewed index w replacement => Some (replace_saturated_worker id index w replacement s)
  | Stops k, Stopping concurrently todo waiting after => stop_one id concurrently todo waiting after k s
  | Exited w, Stopping concurrently todo waiting after => stopped_one id concurrently todo waiting after w s
  | Go, Stopping _ [] [] after => Some (stopped_all id after s)
  | Go, Draining w => Some (drain_then_shutdown id w s)
  | Go, Asked requested_at => recycle_enter id requested_at s
  | Spawns ok, Recycling n replacements => recycle_spawn id n replacements ok s
  | Go, Recycling n replacements => recycle_swap id n replacements s
  | Go, Swapped old_workers => Some (recycle_publish id old_workers s)
  | Go, Publishing old_workers => Some (recycle_drain id old_workers s)
  | Go, Sampled live => Some (shutdown_take id live s)
  | _, _ => None
  end.

(** The future of a job is dropped, where it awaits; a drain is a task of its own. *)
Definition abandon (id : N) (s : Pool) : option Pool :=
  j ← jobs s !! id;
  let gone := with_jobs (delete id (jobs s)) s in
  match j with
  | Sending _ _ _ _ | Warming _ _ | Asked _ => Some gone
  | Stopping _ _ _ (ThenDeregister _) => None
  | Stopping _ todo _ ThenReleaseGate => Some (with_gate false (with_dropped (list_to_set todo ∪ dropped s) gone))
  | Stopping _ todo _ _ => Some (with_dropped (list_to_set todo ∪ dropped s) gone)
  | _ => None
  end.

(** A process exits. *)
Definition exit (w : N) (s : Pool) : Pool := with_running (running s ∖ {[w]}) s.

Inductive Label := Request | Recycle | Warmup | Shutdown | Acts (id : N) | Abandons (id : N) | Exits (w : N).

Inductive step : Pool -> Label -> Pool -> Prop :=
  | step_send load r s : step s Request (drop_unowned (send load r s))
  | step_recycle s : step s Recycle (drop_unowned (recycle s))
  | step_warmup s : step s Warmup (drop_unowned (warmup s))
  | step_shutdown s : step s Shutdown (drop_unowned (shutdown s))
  | step_act c id s s' : act c id s = Some s' -> step s (Acts id) (drop_unowned s')
  | step_abandon id s s' : abandon id s = Some s' -> step s (Abandons id) (drop_unowned s')
  | step_exit w s : step s (Exits w) (drop_unowned (exit w s)).

Definition reached (budget : option N) (n : nat) : Pool -> Prop := reachable (fun s => s = started budget n) step.

(** ** Specification *)

(** New workers a job has spawned and is to install. *)
Definition brings (j : Job) : list N :=
  match j with Replaced _ _ _ w | Renewed _ _ w => [w] | Recycling _ ws => ws | _ => [] end.

(** Workers a job will install or see stopped. *)
Definition in_hand (j : Job) : list N := match j with Stopping _ todo waiting _ => todo ++ waiting | j => brings j end.

(** The retiring workers a job will take off the list when they have drained. *)
Definition drains (j : Job) : list N :=
  match j with Draining w | Stopping _ _ _ (ThenDeregister w) => [w] | Swapped ws | Publishing ws => ws | _ => [] end.

(** A job has the gate of [recycle]. *)
Definition holds_gate (j : Job) : bool :=
  match j with Recycling _ _ | Swapped _ | Publishing _ | Stopping _ _ _ ThenReleaseGate => true | _ => false end.

Definition minded (w : N) (s : Pool) : Prop :=
  w ∈ workers s \/ w ∈ retiring s \/ exists id j, jobs s !! id = Some j /\ w ∈ in_hand j.

Definition waited (w : N) (s : Pool) : Prop := exists id j, jobs s !! id = Some j /\ waits w j = true.

(** What holds of a job. *)
Record job_ok (j : Job) (s : Pool) : Prop := {
  job_new_once : NoDup (brings j);
  job_new : forall w, w ∈ brings j -> (w < fresh s)%N /\ (w ∉ workers s) /\ (w ∉ retiring s);
  job_waits : forall w, waits w j = true -> w ∈ closing s;
  job_stops : forall b todo waiting w, j = Stopping b todo waiting (ThenDeregister w) -> w ∈ todo \/ w ∈ closing s;
}.

(** What holds within a step, before the processes nobody holds are gone. *)
Record pool_pre (n : nat) (s : Pool) : Prop := {
  pre_size : length (workers s) = n;
  pre_slots : NoDup (workers s ++ retiring s);
  pre_known : forall w, w ∈ workers s ++ retiring s -> (w < fresh s)%N;
  pre_ids : forall id j, jobs s !! id = Some j -> (id < fresh s)%N;
  pre_jobs : forall id j, jobs s !! id = Some j -> job_ok j s;
  pre_apart : forall id id' j j' w, jobs s !! id = Some j -> jobs s !! id' = Some j' -> w ∈ brings j -> w ∈ brings j' -> id = id';
  pre_gate : forall id j, jobs s !! id = Some j -> holds_gate j = true ->
    recycle_gate s = true /\ forall id' j', jobs s !! id' = Some j' -> holds_gate j' = true -> id' = id;
  pre_minded : forall w, w ∈ running s -> minded w s \/ w ∈ dropped s \/ w ∈ closing s;
  pre_drained : forall w, w ∈ retiring s -> exists id j, jobs s !! id = Some j /\ w ∈ drains j;
}.

(** And what holds between two steps. *)
Definition pool_ok (n : nat) (s : Pool) : Prop := pool_pre n s /\ forall w, w ∈ running s -> w ∈ closing s -> waited w s.

(** ** Properties *)

(** *** Processes nobody holds *)

Lemma some_job_true p s : some_job p s = true <-> exists id j, jobs s !! id = Some j /\ p j = true.
Proof.
  unfold some_job. rewrite existsb_exists. split.
  - intros ([id j] & H%list_elem_of_In%elem_of_map_to_list & Hp). by exists id, j.
  - intros (id & j & H & Hp). exists (id, j). split; [|done]. by apply list_elem_of_In, elem_of_map_to_list.
Qed.

Lemma running_left w s : w ∈ running (drop_unowned s) <-> w ∈ running s /\ owned w s = true.
Proof. change (w ∈ filter (fun w => owned w s = true) (running s) <-> w ∈ running s /\ owned w s = true). rewrite elem_of_filter. by split; intros [? ?]. Qed.

Lemma settled_ok n s : pool_pre n s -> pool_ok n (drop_unowned s).
Proof.
  intros [H1 H2 H3 H4 H5 H6 H7 H8 H9]. split.
  - constructor; try done.
    + intros id j Hj. destruct (H5 id j Hj). by constructor.
    + intros w [Hw _]%running_left. by apply H8.
  - intros w [Hw Ho]%running_left Hc. unfold owned in Ho. rewrite decide_True in Ho by done. by apply some_job_true.
Qed.

Lemma waits_in_hand w j : waits w j = true -> w ∈ in_hand j.
Proof. destruct j; try done. cbn. rewrite bool_decide_eq_true. set_solver. Qed.

Lemma ok_minded n s w : pool_ok n s -> w ∈ running s -> minded w s \/ w ∈ dropped s.
Proof.
  intros [Hp Hw] Hr. destruct (pre_minded n s Hp w Hr) as [H|[H|H]]; [by left|by right|left].
  destruct (Hw w Hr H) as (id & j & Hj & Hwait). right; right. exists id, j. split; [done|by apply waits_in_hand].
Qed.

(** *** A step of one job *)

(** The job [id] of [s], if there is one. *)
Definition of_job (id : N) (s : Pool) (P : Job -> Prop) : Prop := exists j, jobs s !! id = Some j /\ P j.

(** What has to be known of a step that puts job [id] at [j']. *)
Record moves (n : nat) (id : N) (j' : Job) (s s' : Pool) : Prop := {
  mv_jobs : jobs s' = <[id := j']> (jobs s);
  mv_id : (id < fresh s')%N;
  mv_fresh : (fresh s <= fresh s')%N;
  mv_closing : closing s ⊆ closing s';
  mv_dropped : dropped s ⊆ dropped s';
  mv_size : length (workers s') = n;
  mv_slots : NoDup (workers s' ++ retiring s');
  mv_known : forall w, w ∈ workers s' ++ retiring s' -> w ∈ workers s ++ retiring s \/ of_job id s (fun j => w ∈ brings j);
  mv_job : job_ok j' s';
  mv_brings : forall w, w ∈ brings j' -> (fresh s <= w)%N \/ of_job id s (fun j => w ∈ brings j);
  mv_gate : (recycle_gate s' = recycle_gate s /\ (holds_gate j' = true -> of_job id s (fun j => holds_gate j = true))) \/
            (recycle_gate s = false /\ recycle_gate s' = true) \/ (of_job id s (fun j => holds_gate j = true) /\ holds_gate j' = false);
  mv_old : forall w, w ∈ running s' -> w ∈ running s -> (w ∈ workers s \/ w ∈ retiring s \/ of_job id s (fun j => w ∈ in_hand j)) ->
    w ∈ workers s' \/ w ∈ retiring s' \/ w ∈ in_hand j' \/ w ∈ closing s';
  mv_new : forall w, w ∈ running s' -> (w ∉ running s) -> w ∈ in_hand j';
  mv_drained : forall w, w ∈ retiring s' -> (w ∈ drains j' \/ w ∈ retiring s /\ forall j, jobs s !! id = Some j -> w ∈ drains j -> w ∈ drains j') \/
    exists i j, i <> id /\ jobs s !! i = Some j /\ w ∈ drains j;
}.

Lemma moves_pre n id j' s s' : pool_ok n s -> moves n id j' s s' -> pool_pre n s'.
Proof.
  intros Hok [E Hid Hf Hc Hd Hsz Hsl Hk Hj' Hb Hg Ho Hn Hdr]. pose proof Hok as [[H1 H2 H3 H4 H5 H6 H7 H8 H9] _].
  assert (forall i j, jobs s' !! i = Some j -> i = id /\ j = j' \/ i <> id /\ jobs s !! i = Some j) as Hcases.
  { intros i j. rewrite E, lookup_insert_Some. intros [[-> ->]|[? ?]]; [by left|right; auto]. }
  assert (forall i j, jobs s !! i = Some j -> forall w, w ∈ brings j -> (w < fresh s)%N) as Hlt by (intros i j Hj w Hw; by apply (job_new _ _ (H5 i j Hj))).
  constructor; try done.
  - intros w Hw. apply Hk in Hw as [Hw|(j & Hj & Hw)]; [specialize (H3 w Hw); lia|specialize (Hlt _ _ Hj w Hw); lia].
  - intros i j [[-> ->]|[_ Hj]]%Hcases; [done|]. specialize (H4 i j Hj). lia.
  - intros i j [[-> ->]|[Hne Hj]]%Hcases; [done|]. destruct (H5 i j Hj) as [J1 J2 J3 J4]. constructor; [done| | |].
    + intros w Hw. destruct (J2 w Hw) as (? & Hw1 & Hw2). split; [lia|]. apply not_elem_of_app. intros [Hin|(j0 & Hj0 & Hin)]%Hk; [set_solver|].
      by destruct (Hne (H6 i id j j0 w Hj Hj0 Hw Hin)).
    + intros w Hw. by apply Hc, J3.
    + intros b todo waiting w Hjj. destruct (J4 _ _ _ _ Hjj); [by left|right; by apply Hc].
  - intros i1 i2 j1 j2 w Hj1 Hj2 Hw1 Hw2. apply Hcases in Hj1 as [[-> ->]|[N1 Hj1]]; apply Hcases in Hj2 as [[-> ->]|[N2 Hj2]]; try done.
    + destruct (Hb w Hw1) as [Hge|(j & Hj & Hin)]; [specialize (Hlt _ _ Hj2 w Hw2); lia|by apply (H6 id i2 j j2 w)].
    + destruct (Hb w Hw2) as [Hge|(j & Hj & Hin)]; [specialize (Hlt _ _ Hj1 w Hw1); lia|by apply (H6 i1 id j1 j w)].
    + by apply (H6 i1 i2 j1 j2 w).
  - intros i1 j1 Hj1 Hh1. apply Hcases in Hj1 as [[-> ->]|[N1 Hj1]].
    + destruct Hg as [[E1 Hg]|[[E1 E2]|[_ Hg]]]; [| |congruence].
      * destruct (Hg Hh1) as (j & Hj & Hh). destruct (H7 id j Hj Hh) as [Hgt Hu]. split; [congruence|].
        intros i2 j2 [[-> _]|[_ Hj2]]%Hcases Hh2; [done|by apply (Hu i2 j2)].
      * split; [done|]. intros i2 j2 [[-> _]|[_ Hj2]]%Hcases Hh2; [done|]. destruct (H7 i2 j2 Hj2 Hh2). congruence.
    + destruct (H7 i1 j1 Hj1 Hh1) as [Hgt Hu]. destruct Hg as [[E1 Hg]|[[E1 E2]|[(j & Hj & Hh) _]]]; [|congruence|by destruct N1; rewrite (Hu id j Hj Hh)].
      split; [congruence|]. intros i2 j2 [[-> ->]|[_ Hj2]]%Hcases Hh2; [|by apply (Hu i2 j2)].
      destruct (Hg Hh2) as (j & Hj & Hh). by apply (Hu id j).
  - intros w Hw. destruct (decide (w ∈ running s)) as [Hr|Hr].
    + assert (w ∈ workers s \/ w ∈ retiring s \/ of_job id s (fun j => w ∈ in_hand j) -> minded w s' \/ w ∈ dropped s' \/ w ∈ closing s') as Hgo.
      { intros Hold. destruct (Ho w Hw Hr Hold) as [H|[H|[H|H]]]; [left; by left|left; by right; left|left; right; right|by right; right].
        exists id, j'. split; [by rewrite E, lookup_insert_eq|done]. }
      destruct (ok_minded n s w Hok Hr) as [[H|[H|(i & j & Hj & Hin)]]|H]; [by auto|by auto| |right; left; by apply Hd].
      destruct (decide (i = id)) as [->|Hne]; [apply Hgo; right; right; by exists j|].
      left. right; right. exists i, j. split; [by rewrite E, lookup_insert_ne by done|done].
    + left. right; right. exists id, j'. split; [by rewrite E, lookup_insert_eq|by apply Hn].
  - intros w Hw. destruct (Hdr w Hw) as [[H|[Hin H]]|(i & j & Hne & Hj & H)];
      [exists id, j'; split; [by rewrite E, lookup_insert_eq|done]| |exists i, j; split; [by rewrite E, lookup_insert_ne by done|done]].
    destruct (H9 w Hin) as (i & j & Hj & Hwd). destruct (decide (i = id)) as [->|Hne].
    + exists id, j'. split; [by rewrite E, lookup_insert_eq|by apply (H j)].
    + exists i, j. split; [by rewrite E, lookup_insert_ne by done|done].
Qed.

(** The lists, the processes and the gate are as they were. *)
Record same_pool (s s' : Pool) : Prop := {
  sp_workers : workers s' = workers s;
  sp_retiring : retiring s' = retiring s;
  sp_running : running s' = running s;
  sp_closing : closing s' = closing s;
  sp_dropped : dropped s ⊆ dropped s';
  sp_fresh : (fresh s <= fresh s')%N;
  sp_gate : recycle_gate s' = recycle_gate s;
}.

Lemma same_pool_refl s : same_pool s s.
Proof. by constructor. Qed.

Lemma in_app_slots n s w : pool_ok n s -> w ∈ workers s -> w ∉ retiring s.
Proof. intros [[_ H2 _ _ _ _ _ _ _] _] Hw Hr. apply NoDup_app in H2 as (_ & H & _). by apply (H w). Qed.

(** A job of [s] goes on, and nothing else changes. *)
Lemma go_moves n id j j' s s' : pool_ok n s -> jobs s !! id = Some j -> jobs s' = <[id := j']> (jobs s) -> same_pool s s' ->
  NoDup (brings j') -> (forall w, w ∈ brings j' -> w ∈ brings j) -> (forall w, waits w j' = true -> w ∈ closing s) ->
  (forall b todo waiting w, j' = Stopping b todo waiting (ThenDeregister w) -> w ∈ todo \/ w ∈ closing s) ->
  (holds_gate j' = true -> holds_gate j = true) ->
  (forall w, w ∈ running s -> w ∈ in_hand j -> w ∈ workers s \/ w ∈ retiring s \/ w ∈ in_hand j' \/ w ∈ closing s) ->
  (forall w, w ∈ retiring s -> w ∈ drains j -> w ∈ drains j') -> moves n id j' s s'.
Proof.
  intros Hok Hj E [E1 E2 E3 E4 E5 E6 E7] Hnd Hb Hw Hst Hg Hh Hd. pose proof Hok as [[H1 H2 H3 H4 H5 _ _ _ _] _].
  assert (id < fresh s')%N as Hid by (specialize (H4 id j Hj); lia).
  constructor; rewrite ?E1, ?E2, ?E3, ?E4; try done.
  - intros w. by left.
  - constructor; rewrite ?E1, ?E2, ?E4; try done. intros w Hin. destruct (job_new _ _ (H5 id j Hj) w (Hb w Hin)) as (? & ? & ?). split_and!; [lia|done|done].
  - intros w Hin. right. exists j. split; [done|by apply Hb].
  - left. split; [done|]. intros H. exists j. split; [done|by apply Hg].
  - intros w Hr _ [H|[H|(j0 & Hj0 & H)]]; [by left|by right; left|]. rewrite Hj in Hj0. injection Hj0 as <-. by apply Hh.
  - intros w Hin. left; right. split; [done|]. intros j0 Hj0. rewrite Hj in Hj0. injection Hj0 as <-. by apply Hd.
Qed.

(** A new job, which holds nothing. *)
Lemma launch_moves n j' s s' : pool_ok n s -> jobs s' = <[fresh s := j']> (jobs s) -> same_pool s s' -> (fresh s < fresh s')%N ->
  brings j' = [] -> (forall w, waits w j' = false) -> drains j' = [] \/ (exists w, j' = Draining w) -> holds_gate j' = false -> moves n (fresh s) j' s s'.
Proof.
  intros Hok E [E1 E2 E3 E4 E5 E6 E7] Hf Hb Hw Hd Hg. pose proof Hok as [[H1 H2 H3 H4 H5 _ _ _ _] _].
  assert (forall P, ~ of_job (fresh s) s P) as Hno by (intros P (j & Hj & _); specialize (H4 _ _ Hj); lia).
  constructor; rewrite ?E1, ?E2, ?E3, ?E4; try done.
  - intros w. by left.
  - constructor; rewrite ?Hb; try done; [apply NoDup_nil_2|by intros w ?%elem_of_nil|intros w; by rewrite Hw|].
    intros b todo waiting w ->. destruct Hd as [Hd|[w' Hd]]; discriminate.
  - rewrite Hb. by intros w ?%elem_of_nil.
  - left. split; [done|]. by rewrite Hg.
  - intros w Hr _ [H|[H|H]]; [by left|by right; left|by apply Hno in H].
  - intros w Hin. left; right. split; [done|]. intros j Hj. specialize (H4 _ _ Hj). lia.
Qed.

(** A job goes on with a worker it has spawned. *)
Lemma spawn_moves n id j j' s s' : pool_ok n s -> jobs s !! id = Some j -> jobs s' = <[id := j']> (jobs s) ->
  same_pool (with_fresh (fresh s + 1)%N (with_running ({[fresh s]} ∪ running s) s)) s' ->
  brings j' = brings j ++ [fresh s] -> in_hand j' = brings j' -> in_hand j = brings j -> drains j = [] -> (forall w, waits w j' = false) ->
  (forall b todo waiting a, j' <> Stopping b todo waiting a) ->
  (holds_gate j' = true -> holds_gate j = true) -> moves n id j' s s'.
Proof.
  intros Hok Hj E [E1 E2 E3 E4 E5 E6 E7] Hb Hh' Hh Hd Hw Hns Hg. cbn in E1, E2, E3, E4, E5, E6, E7. pose proof Hok as [[H1 H2 H3 H4 H5 _ _ _ _] _].
  specialize (H4 id j Hj). destruct (H5 id j Hj) as [J1 J2 _ _].
  assert (forall w, w ∈ brings j' <-> w ∈ brings j \/ w = fresh s) as Hin by (intros w; rewrite Hb; set_solver).
  constructor; rewrite ?E1, ?E2, ?E3, ?E4; try done; try lia.
  - intros w. by left.
  - constructor; rewrite ?E1, ?E2, ?E4; try done.
    + rewrite Hb. apply NoDup_app. split_and!; [done| |apply NoDup_singleton]. intros w Hw1 ->%list_elem_of_singleton. destruct (J2 _ Hw1). lia.
    + intros w [Hw1| ->]%Hin; [destruct (J2 w Hw1) as (? & ? & ?); split_and!; [lia|done|done]|]. split; [lia|].
      split; intros Hx; (assert (fresh s < fresh s)%N by (apply H3, elem_of_app; auto)); lia.
    + intros w. by rewrite Hw.
    + intros b todo waiting w ->. by destruct (Hns b todo waiting (ThenDeregister w)).
  - intros w [Hw1| ->]%Hin; [right; by exists j|left; lia].
  - left. split; [done|]. intros H. exists j. split; [done|by apply Hg].
  - intros w Hr _ [H|[H|(j0 & Hj0 & H)]]; [by left|by right; left|]. rewrite Hj in Hj0. injection Hj0 as <-.
    right; right; left. rewrite Hh', Hin. left. by rewrite <- Hh.
  - intros w Hr Hn. rewrite Hh', Hin. right. set_solver.
  - intros w Hr. left; right. split; [done|]. intros j0 Hj0. rewrite Hj in Hj0. injection Hj0 as <-. rewrite Hd. by intros ?%elem_of_nil.
Qed.

(** *** Each thing a job does *)

Definition moved (n : nat) (id : N) (s s' : Pool) : Prop := exists j', moves n id j' s s'.

Lemma go_moved n id j j' s s' : pool_ok n s -> jobs s !! id = Some j -> jobs s' = <[id := j']> (jobs s) -> same_pool s s' ->
  brings j' = [] -> in_hand j = [] -> drains j = [] -> (forall w, waits w j' = false) ->
  (forall b todo waiting a, j' <> Stopping b todo waiting a) -> holds_gate j' = false -> moved n id s s'.
Proof.
  intros Hok Hj E Hs Hb Hh Hd Hw Hns Hg. exists j'. apply (go_moves n id j); try done; rewrite ?Hb, ?Hg, ?Hh, ?Hd; try done.
  - apply NoDup_nil_2.
  - by intros w ?%elem_of_nil.
  - intros w. by rewrite Hw.
  - intros b todo waiting w ->. by destruct (Hns b todo waiting (ThenDeregister w)).
  - by intros w _ ?%elem_of_nil.
  - by intros w _ ?%elem_of_nil.
Qed.

Lemma retire_moved n id j index w observed isolated s : pool_ok n s -> jobs s !! id = Some j -> in_hand j = [] -> drains j = [] ->
  moved n id s (retire_worker_if_saturated id index w observed isolated s).
Proof.
  intros Hok Hj Hh Hd. unfold retire_worker_if_saturated.
  destruct (retained_module_urls_per_worker s) as [budget|]; [|by apply (go_moved n id j Finished)].
  destruct observed as [k|], isolated; cbn zeta; try (by apply (go_moved n id j Finished)); destruct (_ <? budget)%N;
    first [by apply (go_moved n id j Finished) | by apply (go_moved n id j (Saturated index w))].
Qed.

Lemma elem_of_delete_at {A} (l : list A) k x y : l !! k = Some x -> y ∈ l -> y = x \/ y ∈ delete k l.
Proof. intros Hk Hy. rewrite <- (take_drop_middle l k x Hk) in Hy. rewrite delete_take_drop. set_solver. Qed.

Lemma stop_one_moved n id c todo waiting after k s s' : pool_ok n s -> jobs s !! id = Some (Stopping c todo waiting after) ->
  stop_one id c todo waiting after k s = Some s' -> moved n id s s'.
Proof.
  intros Hok Hj H. unfold stop_one in H. destruct (_ || _); [|done]. destruct (todo !! k) as [w|] eqn:Hk; [|done]. cbn [mbind option_bind] in H.
  pose proof Hok as [[H1 H2 H3 H4 H5 _ _ _ _] _]. destruct (H5 id _ Hj) as [_ _ J3 J4].
  assert (forall x, x ∈ todo -> x = w \/ x ∈ delete k todo) as Hdel by (intros x; by apply elem_of_delete_at).
  destruct (decide (w ∈ closing s)) as [Hc|Hc]; injection H as <-.
  - exists (Stopping c (delete k todo) waiting after). apply (go_moves n id (Stopping c todo waiting after)); try done.
    + apply NoDup_nil_2.
    + intros b t wt x [= -> <- <- ->]. destruct (J4 _ _ _ _ eq_refl) as [Hx|Hx]; [|by right]. by destruct (Hdel x Hx) as [->|]; [right|left].
    + intros x _ [Hx|Hx]%elem_of_app; right; right; [destruct (Hdel x Hx) as [->|]; [by right|left]|left]; set_solver.
  - exists (Stopping c (delete k todo) (w :: waiting) after). constructor; cbn; try done.
    + by apply (H4 id _ Hj).
    + set_solver.
    + intros x. by left.
    + constructor; try done; [apply NoDup_nil_2|by intros x ?%elem_of_nil| |].
      * intros x Hx%bool_decide_eq_true. cbn. apply elem_of_cons in Hx as [->|Hx]; [set_solver|].
        apply elem_of_union_r, J3. by apply bool_decide_eq_true.
      * intros b t wt x [= -> <- <- ->]. cbn. destruct (J4 _ _ _ _ eq_refl) as [Hx|Hx]; [|set_solver]. destruct (Hdel x Hx) as [->|]; [set_solver|by left].
    + by intros x ?%elem_of_nil.
    + left. split; [done|]. intros Hg. by exists (Stopping c todo waiting after).
    + intros x Hr _ [Hx|[Hx|(j & Hj' & Hx)]]; [by left|by right; left|]. rewrite Hj in Hj'. injection Hj' as <-. right; right.
      apply elem_of_app in Hx as [Hx|Hx]; [destruct (Hdel x Hx) as [->|]|]; set_solver.
    + intros x Hx. left; right. split; [done|]. intros j Hj'. rewrite Hj in Hj'. by injection Hj' as <-.
Qed.

Lemma stopped_one_moved n id c todo waiting after w s s' : pool_ok n s -> jobs s !! id = Some (Stopping c todo waiting after) ->
  stopped_one id c todo waiting after w s = Some s' -> moved n id s s'.
Proof.
  intros Hok Hj H. unfold stopped_one in H. case_bool_decide as Hw; [|done]. injection H as <-. destruct Hw as [Hw Hr].
  pose proof Hok as [[_ _ _ _ H5 _ _ _ _] _]. destruct (H5 id _ Hj) as [_ _ J3 J4].
  exists (Stopping c todo (filter (fun x => x <> w) waiting) after). apply (go_moves n id (Stopping c todo waiting after)); try done.
  - apply NoDup_nil_2.
  - intros x Hx%bool_decide_eq_true. apply list_elem_of_filter in Hx as [_ Hx]. apply J3. by apply bool_decide_eq_true.
  - intros b t wt x [= -> <- <- ->]. by apply (J4 b todo waiting).
  - intros x Hxr [Hx|Hx]%elem_of_app; right; right; left; [set_solver|]. apply elem_of_app. right. apply list_elem_of_filter. split; [by intros ->|done].
Qed.

Lemma stopped_all_moved n id c after s : pool_ok n s -> jobs s !! id = Some (Stopping c [] [] after) -> moved n id s (stopped_all id after s).
Proof.
  intros Hok Hj. pose proof Hok as [[H1 H2 H3 H4 H5 _ _ _ _] _]. destruct after as [r index [active|]|w| |]; cbn [stopped_all].
  - destruct (is_idempotent r); [apply (go_moved n id _ (Sending r index active true) s _ Hok Hj)|apply (go_moved n id _ Finished s _ Hok Hj)]; done.
  - by apply (go_moved n id _ Finished s _ Hok Hj).
  - exists Finished. destruct (H5 id _ Hj) as [_ _ _ J4]. destruct (J4 _ _ _ _ eq_refl) as [Hx|Hx]; [by apply elem_of_nil in Hx|].
    apply NoDup_app in H2 as (N1 & N2 & N3). constructor; cbn; try done.
    + by apply (H4 id _ Hj).
    + apply NoDup_app. split_and!; [done| |by apply NoDup_filter]. intros x Hxw [_ Hxr]%list_elem_of_filter. by apply (N2 x).
    + intros x Hin. left. rewrite elem_of_app in *. rewrite list_elem_of_filter in Hin. tauto.
    + constructor; try done; [apply NoDup_nil_2|by intros x ?%elem_of_nil].
    + by intros x ?%elem_of_nil.
    + by left.
    + intros x Hr _ [Hxx|[Hxx|(j & Hj' & Hxx)]]; [by left| |rewrite Hj in Hj'; injection Hj' as <-; by apply elem_of_nil in Hxx].
      destruct (decide (x = w)) as [->|Hne]; [by right; right; right|]. right; left. by apply list_elem_of_filter.
    + intros x [Hne Hin]%list_elem_of_filter. left; right. split; [done|]. intros j Hj'. rewrite Hj in Hj'. injection Hj' as <-.
      by intros ->%list_elem_of_singleton.
  - exists Finished. constructor; cbn; try done.
    + by apply (H4 id _ Hj).
    + intros x. by left.
    + constructor; try done; [apply NoDup_nil_2|by intros x ?%elem_of_nil].
    + by intros x ?%elem_of_nil.
    + right; right. split; [|done]. by exists (Stopping c [] [] ThenReleaseGate).
    + intros x Hr _ [Hxx|[Hxx|(j & Hj' & Hxx)]]; [by left|by right; left|rewrite Hj in Hj'; injection Hj' as <-; by apply elem_of_nil in Hxx].
    + intros x Hin. left; right. split; [done|]. intros j Hj'. rewrite Hj in Hj'. injection Hj' as <-. by intros ?%elem_of_nil.
  - by apply (go_moved n id _ Finished s _ Hok Hj).
Qed.

(** A slot is given another worker. *)
Lemma slot_swap {A} (l : list A) i x y : l !! i = Some x -> exists rest, l ≡ₚ x :: rest /\ <[i := y]> l ≡ₚ y :: rest.
Proof.
  intros H. exists (take i l ++ drop (S i) l). split.
  - by rewrite <- (take_drop_middle l i x H) at 1; rewrite Permutation_middle.
  - rewrite insert_take_drop by by eapply lookup_lt_Some. by rewrite Permutation_middle.
Qed.

(** The worker a job brings is new to the lists. *)
Lemma brought n id j s w : pool_ok n s -> jobs s !! id = Some j -> w ∈ brings j -> (w < fresh s)%N /\ (w ∉ workers s) /\ (w ∉ retiring s).
Proof. intros [[_ _ _ _ H5 _ _ _ _] _] Hj Hw. by apply (job_new _ _ (H5 id j Hj)). Qed.

Lemma replace_failed_moved n id r index failed replacement s : pool_ok n s -> jobs s !! id = Some (Replaced r index failed replacement) ->
  moved n id s (replace_failed_worker id r index failed replacement s).
Proof.
  intros Hok Hj. unfold replace_failed_worker. pose proof Hok as [[H1 H2 H3 H4 H5 _ _ _ _] _].
  assert (forall active, moved n id s (go id (Stopping false [replacement] [] (ThenRetry r index active)) s)) as Hkeep.
  { intros active. exists (Stopping false [replacement] [] (ThenRetry r index active)).
    apply (go_moves n id (Replaced r index failed replacement)); try done; [apply NoDup_nil_2|by intros w ?%elem_of_nil|]. intros w _ Hw. by right; right; left. }
  destruct (workers s !! index) as [w|] eqn:Hi; [|apply Hkeep]. destruct (decide (w = failed)) as [->|]; [|apply Hkeep].
  destruct (brought n id _ s replacement Hok Hj) as (B1 & B2 & B3); [by left|].
  destruct (slot_swap (workers s) index failed replacement Hi) as (rest & P1 & P2).
  assert (NoDup (failed :: rest ++ retiring s)) as Hnd by (change (failed :: rest ++ retiring s) with ((failed :: rest) ++ retiring s); by rewrite <- P1).
  exists (Stopping false [failed] [] (ThenRetry r index (Some replacement))). constructor; cbn; try done.
  - by apply (H4 id _ Hj).
  - by rewrite length_insert.
  - rewrite P2. cbn. apply NoDup_cons. split; [|by apply NoDup_cons in Hnd as [_ ?]]. rewrite P1 in B2. set_solver.
  - intros x. rewrite P2, P1. rewrite !elem_of_app, !elem_of_cons. intros [[->|Hx]|Hx]; [right|by left; left; right|by left; right].
    exists (Replaced r index failed replacement). split; [done|by left].
  - constructor; try done; [apply NoDup_nil_2|by intros x ?%elem_of_nil].
  - by intros x ?%elem_of_nil.
  - by left.
  - intros x Hr _. rewrite P2, P1, !elem_of_cons. intros [[->|Hx]|[Hx|(j & Hj' & Hx)]].
    + by right; right; left; left.
    + by left; right.
    + by right; left.
    + rewrite Hj in Hj'. injection Hj' as <-. apply list_elem_of_singleton in Hx as ->. by left; left.
  - intros x Hx. left; right. split; [done|]. intros j Hj'. rewrite Hj in Hj'. injection Hj' as <-. by intros ?%elem_of_nil.
Qed.

Lemma replace_saturated_moved n id index w replacement s : pool_ok n s -> jobs s !! id = Some (Renewed index w replacement) ->
  moved n id s (replace_saturated_worker id index w replacement s).
Proof.
  intros Hok Hj. unfold replace_saturated_worker, install_replacement. pose proof Hok as [[H1 H2 H3 H4 H5 _ _ _ _] _].
  assert (moved n id s (go id (Stopping false [replacement] [] ThenNothing) s)) as Hkeep.
  { exists (Stopping false [replacement] [] ThenNothing).
    apply (go_moves n id (Renewed index w replacement)); try done; [apply NoDup_nil_2|by intros x ?%elem_of_nil|]. intros x _ Hx. by right; right; left. }
  destruct (workers s !! index) as [w'|] eqn:Hi; [|apply Hkeep]. destruct (decide (w' = w)) as [->|]; [|apply Hkeep].
  destruct (brought n id _ s replacement Hok Hj) as (B1 & B2 & B3); [by left|].
  destruct (slot_swap (workers s) index w replacement Hi) as (rest & P1 & P2).
  assert (NoDup (w :: rest ++ retiring s)) as Hnd by (change (w :: rest ++ retiring s) with ((w :: rest) ++ retiring s); by rewrite <- P1).
  exists (Draining w). constructor; cbn; try done.
  - by apply (H4 id _ Hj).
  - by rewrite length_insert.
  - rewrite P2. apply NoDup_cons. split; [rewrite P1 in B2; set_solver|]. change (NoDup (rest ++ retiring s ++ [w])). by rewrite app_assoc, Permutation_app_comm.
  - intros x. rewrite P2, P1. rewrite !elem_of_app, !elem_of_cons. intros [[->|Hx]|[Hx| [->|Hx]]]; [right|by left; left; right|by left; right|by left; left; left|by apply elem_of_nil in Hx].
    exists (Renewed index w replacement). split; [done|by left].
  - constructor; try done; [apply NoDup_nil_2|by intros x ?%elem_of_nil].
  - by intros x ?%elem_of_nil.
  - by left.
  - intros x Hr _. rewrite P2, P1, elem_of_app, !elem_of_cons. intros [[->|Hx]|[Hx|(j & Hj' & Hx)]].
    + right; left; right. by left.
    + by left; right.
    + by right; left; left.
    + rewrite Hj in Hj'. injection Hj' as <-. apply list_elem_of_singleton in Hx as ->. by left; left.
  - intros x [Hx|Hx]%elem_of_app; [left; right|by left; left]. split; [done|]. intros j Hj'. rewrite Hj in Hj'. injection Hj' as <-. by intros ?%elem_of_nil.
Qed.

Lemma recycle_enter_moved n id requested_at s s' : pool_ok n s -> jobs s !! id = Some (Asked requested_at) ->
  recycle_enter id requested_at s = Some s' -> moved n id s s'.
Proof.
  intros Hok Hj H. unfold recycle_enter in H. destruct (recycle_gate s) eqn:Hg; [done|]. injection H as <-. pose proof Hok as [[H1 H2 H3 H4 H5 _ _ _ _] _].
  destruct (_ =? _)%N; [|by apply (go_moved n id _ Finished s _ Hok Hj)].
  exists (Recycling (length (workers s)) []). constructor; cbn; try done.
  - by apply (H4 id _ Hj).
  - intros x. by left.
  - constructor; try done; [apply NoDup_nil_2|by intros x ?%elem_of_nil].
  - by intros x ?%elem_of_nil.
  - by right; left.
  - intros x Hr _ [Hx|[Hx|(j & Hj' & Hx)]]; [by left|by right; left|rewrite Hj in Hj'; injection Hj' as <-; by apply elem_of_nil in Hx].
  - intros x Hx. left; right. split; [done|]. intros j Hj'. rewrite Hj in Hj'. injection Hj' as <-. by intros ?%elem_of_nil.
Qed.

(** The replacements of a recycle that gives up are stopped. *)
Lemma recycle_fails n id k replacements s : pool_ok n s -> jobs s !! id = Some (Recycling k replacements) ->
  moved n id s (go id (Stopping false replacements [] ThenReleaseGate) s).
Proof.
  intros Hok Hj. exists (Stopping false replacements [] ThenReleaseGate).
  apply (go_moves n id (Recycling k replacements)); try done; [apply NoDup_nil_2|by intros x ?%elem_of_nil|]. intros x _ Hx. right; right; left. cbn. by rewrite app_nil_r.
Qed.

Lemma recycle_spawn_moved n id k replacements ok s s' : pool_ok n s -> jobs s !! id = Some (Recycling k replacements) ->
  recycle_spawn id k replacements ok s = Some s' -> moved n id s s'.
Proof.
  intros Hok Hj H. unfold recycle_spawn in H. destruct (_ <? k); [|done]. destruct ok; injection H as <-; [|by apply (recycle_fails n id k)].
  exists (Recycling k (replacements ++ [fresh s])). by apply (spawn_moves n id (Recycling k replacements)).
Qed.

Lemma recycle_swap_moved n id k replacements s s' : pool_ok n s -> jobs s !! id = Some (Recycling k replacements) ->
  recycle_swap id k replacements s = Some s' -> moved n id s s'.
Proof.
  intros Hok Hj H. unfold recycle_swap in H. destruct (_ <? k); [done|]. injection H as <-.
  destruct (Nat.eqb_spec (length (workers s)) (length replacements)) as [Hl|]; [|by apply (recycle_fails n id k)].
  pose proof Hok as [[H1 H2 H3 H4 H5 _ _ _ _] _]. destruct (H5 id _ Hj) as [J1 J2 _ _]. exists (Swapped (workers s)). constructor; cbn; try done.
  - by apply (H4 id _ Hj).
  - congruence.
  - apply NoDup_app. split_and!; [done| |by rewrite Permutation_app_comm]. intros x Hx [Hx'|Hx']%elem_of_app; by destruct (J2 x Hx) as (? & ? & ?).
  - intros x. rewrite !elem_of_app. intros [Hx|[Hx|Hx]]; [right|by left; right|by left; left]. exists (Recycling k replacements). by split.
  - constructor; try done; [apply NoDup_nil_2|by intros x ?%elem_of_nil].
  - by intros x ?%elem_of_nil.
  - left. split; [done|]. intros _. by exists (Recycling k replacements).
  - intros x Hr _. rewrite elem_of_app. intros [Hx|[Hx|(j & Hj' & Hx)]]; [by right; left; right|by right; left; left|rewrite Hj in Hj'; injection Hj' as <-; by left].
  - intros x [Hx|Hx]%elem_of_app; [left; right|by left; left]. split; [done|]. intros j Hj'. rewrite Hj in Hj'. injection Hj' as <-. by intros ?%elem_of_nil.
Qed.

Lemma shutdown_take_moved n id live s : pool_ok n s -> jobs s !! id = Some (Sampled live) -> moved n id s (shutdown_take id live s).
Proof.
  intros Hok Hj. pose proof Hok as [[H1 H2 H3 H4 H5 _ _ _ _] _]. exists (Stopping true (live ++ retiring s) [] ThenNothing). constructor; cbn; try done.
  - by apply (H4 id _ Hj).
  - rewrite app_nil_r. by apply NoDup_app in H2 as [? _].
  - intros x. rewrite app_nil_r, elem_of_app. by left; left.
  - constructor; try done; [apply NoDup_nil_2|by intros x ?%elem_of_nil].
  - by intros x ?%elem_of_nil.
  - by left.
  - intros x Hr _. rewrite !elem_of_app. intros [Hx|[Hx|(j & Hj' & Hx)]]; [by left|by right; right; left; left; right|rewrite Hj in Hj'; injection Hj' as <-; by apply elem_of_nil in Hx].
  - by intros x ?%elem_of_nil.
Qed.

Lemma spawn_for_failed_moved n id r index failed ok s : pool_ok n s -> jobs s !! id = Some (Replacing r index failed) ->
  moved n id s (spawn_for_failed id r index failed ok s).
Proof.
  intros Hok Hj. unfold spawn_for_failed. destruct ok; [|by apply (go_moved n id _ Finished s _ Hok Hj)].
  exists (Replaced r index failed (fresh s)). by apply (spawn_moves n id (Replacing r index failed)).
Qed.

Lemma spawn_for_saturated_moved n id index w ok s : pool_ok n s -> jobs s !! id = Some (Saturated index w) ->
  moved n id s (spawn_for_saturated id index w ok s).
Proof.
  intros Hok Hj. unfold spawn_for_saturated. destruct ok; [|by apply (go_moved n id _ Finished s _ Hok Hj)].
  exists (Renewed index w (fresh s)). by apply (spawn_moves n id (Saturated index w)).
Qed.

Lemma drain_moved n id w s : pool_ok n s -> jobs s !! id = Some (Draining w) -> moved n id s (drain_then_shutdown id w s).
Proof.
  intros Hok Hj. exists (Stopping false [w] [] (ThenDeregister w)).
  apply (go_moves n id (Draining w)); try done; [apply NoDup_nil_2| |by intros x _ ?%elem_of_nil].
  intros b todo waiting x [= <- <- <- ->]. left. by left.
Qed.

(** Publishing keeps the workers to drain. *)
Lemma still_publishing n id j ws s s' : pool_ok n s -> jobs s !! id = Some j -> jobs s' = <[id := Publishing ws]> (jobs s) -> same_pool s s' ->
  holds_gate j = true -> in_hand j = [] -> (forall w, w ∈ retiring s -> w ∈ drains j -> w ∈ ws) -> moved n id s s'.
Proof.
  intros Hok Hj E Hs Hg Hh Hd. exists (Publishing ws). apply (go_moves n id j); try done.
  - apply NoDup_nil_2.
  - by intros x ?%elem_of_nil.
  - rewrite Hh. by intros x _ ?%elem_of_nil.
Qed.

Lemma launch_ok n j' s : pool_ok n s -> brings j' = [] -> (forall w, waits w j' = false) -> drains j' = [] \/ (exists w, j' = Draining w) -> holds_gate j' = false ->
  pool_pre n (launch j' s).
Proof.
  intros Hok Hb Hw Hd Hg. apply (moves_pre n (fresh s) j' s); [done|]. apply launch_moves; try done; [|by cbn; lia]. constructor; try done. by cbn; lia.
Qed.

(** Within a step nothing else runs, so a second thing may be done. *)
Lemma launch_keeps n j' s : pool_ok n s -> brings j' = [] -> (forall w, waits w j' = false) -> drains j' = [] \/ (exists w, j' = Draining w) -> holds_gate j' = false ->
  pool_ok n (launch j' s).
Proof.
  intros Hok Hb Hw Hd Hg. split; [by apply launch_ok|]. destruct Hok as [[_ _ _ H4 _ _ _ _ _] H]. intros w Hr Hc.
  destruct (H w Hr Hc) as (id & j & Hj & Hwait). exists id, j. split; [|done]. cbn. rewrite lookup_insert_ne; [done|]. specialize (H4 id j Hj). lia.
Qed.

Lemma recycle_drain_pre n id old_workers s : pool_ok n s -> jobs s !! id = Some (Publishing old_workers) -> pool_pre n (recycle_drain id old_workers s).
Proof.
  intros Hok Hj. pose proof Hok as [[H1 H2 H3 H4 H5 _ _ _ _] _]. pose proof (H4 id _ Hj) as Hlt. destruct old_workers as [|w ws]; cbn [recycle_drain].
  - apply (moves_pre n id Finished s); [done|]. constructor; cbn; try done.
    + intros x. by left.
    + constructor; try done; [apply NoDup_nil_2|by intros x ?%elem_of_nil].
    + by intros x ?%elem_of_nil.
    + right; right. split; [|done]. by exists (Publishing []).
    + intros x Hr _ [Hx|[Hx|(j & Hj' & Hx)]]; [by left|by right; left|rewrite Hj in Hj'; injection Hj' as <-; by apply elem_of_nil in Hx].
    + intros x Hx. left; right. split; [done|]. intros j Hj'. rewrite Hj in Hj'. injection Hj' as <-. by intros ?%elem_of_nil.
  - assert (pool_ok n (launch (Draining w) s)) as Hl by (apply launch_keeps; try done; right; by eexists).
    assert (jobs (launch (Draining w) s) !! id = Some (Publishing (w :: ws))) as Hj2 by (cbn; rewrite lookup_insert_ne by lia; done).
    apply (moves_pre n id (Publishing ws) (launch (Draining w) s)); [done|].
    constructor; cbn; try done.
    + apply insert_insert_ne. lia.
    + lia.
    + intros x. by left.
    + constructor; try done; [apply NoDup_nil_2|by intros x ?%elem_of_nil].
    + by intros x ?%elem_of_nil.
    + left. split; [done|]. intros _. by exists (Publishing (w :: ws)).
    + intros x Hr _ [Hx|[Hx|(j & Hj' & Hx)]]; [by left|by right; left|pose proof (eq_trans (eq_sym Hj') Hj2) as [= ->]; by apply elem_of_nil in Hx].
    + intros x Hx. destruct (decide (x = w)) as [->|Hne].
      * right. exists (fresh s), (Draining w). split_and!; [lia|cbn; by rewrite lookup_insert_eq|by left].
      * left; right. split; [done|]. intros j Hj'. pose proof (eq_trans (eq_sym Hj') Hj2) as [= ->]. intros [->|Hin]%elem_of_cons; [done|by cbn].
Qed.

Lemma act_ok n c id s s' : pool_ok n s -> act c id s = Some s' -> pool_pre n s'.
Proof.
  intros Hok H. unfold act in H. destruct (jobs s !! id) as [j|] eqn:Hj; [|done]. cbn [mbind option_bind] in H.
  assert (moved n id s s' -> pool_pre n s') as Hm by (intros [j' Hmv]; by apply (moves_pre n id j' s)).
  destruct j as [r index w retry|index w|r index failed|r index failed replacement|index w|index w replacement|conc todo waiting after|w|requested_at|k replacements|ws|ws|live|];
    destruct c as [|observed|f|ok|k'|w']; try done;
    repeat match type of H with match ?l with [] => _ | _ :: _ => _ end = _ => destruct l; try done end; try (injection H as <-).
  - by apply Hm, (retire_moved n id _ index w observed _ s Hok Hj).
  - apply Hm. unfold send_failed. destruct (_ && _); [apply (go_moved n id _ (Replacing r index w) s _ Hok Hj)|apply (go_moved n id _ Finished s _ Hok Hj)]; done.
  - by apply Hm, (retire_moved n id _ index w observed _ s Hok Hj).
  - by apply Hm, (go_moved n id _ Finished s _ Hok Hj).
  - by apply Hm, spawn_for_failed_moved.
  - by apply Hm, replace_failed_moved.
  - by apply Hm, spawn_for_saturated_moved.
  - by apply Hm, replace_saturated_moved.
  - by apply Hm, (stopped_all_moved n id conc after s).
  - by apply Hm, (stop_one_moved n id conc todo waiting after k' s).
  - by apply Hm, (stopped_one_moved n id conc todo waiting after w' s).
  - by apply Hm, drain_moved.
  - by apply Hm, (recycle_enter_moved n id requested_at).
  - by apply Hm, (recycle_swap_moved n id k replacements).
  - by apply Hm, (recycle_spawn_moved n id k replacements ok).
  - by apply Hm, (still_publishing n id (Swapped ws) ws s _ Hok Hj).
  - by apply recycle_drain_pre.
  - by apply Hm, shutdown_take_moved.
Qed.

(** *** Every step *)

Lemma sent_pre n load r s : pool_ok n s -> pool_pre n (send load r s).
Proof.
  intros Hok. unfold send, select_worker. destruct (workers s) as [|w ws] eqn:Ew; [apply Hok|].
  destruct (_ !! _) as [x|]; [|apply Hok]. cbn [mbind option_bind].
  eapply (moves_pre n (fresh s) (Sending r _ x false) s); [done|]. apply launch_moves; try done; [|by cbn; lia|by left]. constructor; try done. by cbn; lia.
Qed.

Lemma warmup_pre n s : pool_ok n s -> pool_ok n (warmup s).
Proof.
  unfold warmup. generalize (imap pair (workers s)). intros l. revert s. induction l as [|iw l IH]; intros s Hok; [done|].
  apply IH, launch_keeps; try done. by left.
Qed.

(** A job ends without having finished. *)
Lemma delete_pre n id j s s' : pool_ok n s -> jobs s !! id = Some j -> jobs s' = delete id (jobs s) -> workers s' = workers s -> retiring s' = retiring s ->
  running s' = running s -> closing s' = closing s -> fresh s' = fresh s -> dropped s ⊆ dropped s' ->
  recycle_gate s' = recycle_gate s \/ holds_gate j = true -> drains j = [] -> (forall w, w ∈ running s -> w ∈ in_hand j -> w ∈ dropped s' \/ w ∈ closing s) -> pool_pre n s'.
Proof.
  intros Hok Hj E E1 E2 E3 E4 E5 E6 Hg Hd Hh. pose proof Hok as [[H1 H2 H3 H4 H5 H6 H7 H8 H9] _].
  assert (forall i x, jobs s' !! i = Some x <-> i <> id /\ jobs s !! i = Some x) as Hl.
  { intros i x. rewrite E, lookup_delete_Some. split; intros [? ?]; split; congruence. }
  constructor; rewrite ?E1, ?E2, ?E3, ?E4, ?E5; try done.
  - intros i x [_ Hx]%Hl. by apply (H4 i x).
  - intros i x [_ Hx]%Hl. destruct (H5 i x Hx) as [J1 J2 J3 J4]. constructor; rewrite ?E1, ?E2, ?E4, ?E5; done.
  - intros i i' x x' w [_ Hx]%Hl [_ Hx']%Hl. by apply (H6 i i' x x').
  - intros i x [Hne Hx]%Hl Hhx. destruct (H7 i x Hx Hhx) as [Hgt Hu]. split.
    + destruct Hg as [->|Hg]; [done|]. destruct Hne. by rewrite (Hu id j).
    + intros i' x' [_ Hx']%Hl. by apply Hu.
  - intros w Hw. destruct (ok_minded n s w Hok Hw) as [[H|[H|(i & x & Hx & Hin)]]|H]; [left; left; by rewrite E1|left; right; left; by rewrite E2| |right; left; by apply E6].
    destruct (decide (i = id)) as [->|Hne]; [|left; right; right; exists i, x; by rewrite Hl].
    rewrite Hj in Hx. injection Hx as <-. right. by apply Hh.
  - intros w Hw. destruct (H9 w Hw) as (i & x & Hx & Hwd). exists i, x. rewrite Hl. split; [|done]. split; [|done]. intros ->.
    rewrite Hj in Hx. injection Hx as <-. rewrite Hd in Hwd. by apply elem_of_nil in Hwd.
Qed.

Lemma abandon_pre n id s s' : pool_ok n s -> abandon id s = Some s' -> pool_pre n s'.
Proof.
  intros Hok H. unfold abandon in H. destruct (jobs s !! id) as [j|] eqn:Hj; [|done]. cbn [mbind option_bind] in H.
  assert (forall c todo waiting after w, j = Stopping c todo waiting after -> w ∈ in_hand j -> w ∈ (list_to_set todo ∪ dropped s : gset N) \/ w ∈ closing s) as Hstop.
  { intros c todo waiting after w -> [Hw|Hw]%elem_of_app; [left; set_solver|right]. pose proof Hok as [[_ _ _ _ H5 _ _ _ _] _].
    apply (job_waits _ _ (H5 id _ Hj)). by apply bool_decide_eq_true. }
  destruct j as [| | | | | |c todo waiting after| | | | | | |] eqn:Ej; try done; try (injection H as <-; apply (delete_pre n id _ s _ Hok Hj); try done; try (by left); by intros ? _ ?%elem_of_nil).
  destruct after; try done; injection H as <-; apply (delete_pre n id _ s _ Hok Hj); try done; try (by cbn; set_solver); try (by left); try (by right);
    intros w _ Hw; by eapply Hstop.
Qed.

Lemma step_pool_ok n s l s' : pool_ok n s -> step s l s' -> pool_ok n s'.
Proof.
  intros Hok H. destruct H as [load r s|s|s|s|c id s s' H|id s s' H|w s]; apply settled_ok.
  - by apply sent_pre.
  - apply launch_ok; try done. by left.
  - by apply warmup_pre.
  - apply launch_ok; try done. by left.
  - by apply (act_ok n c id s).
  - by apply (abandon_pre n id s).
  - destruct Hok as [[H1 H2 H3 H4 H5 H6 H7 H8 H9] _]. constructor; try done.
    + intros id j Hj. destruct (H5 id j Hj). by constructor.
    + intros x Hx. apply H8. cbn in Hx. set_solver.
Qed.

Lemma started_ok budget n : pool_ok n (started budget n).
Proof.
  split; [|done]. constructor; cbn; try done.
  - by rewrite length_fmap, length_seq.
  - rewrite app_nil_r. apply NoDup_fmap_2; [intros ? ?; lia|apply NoDup_seq].
  - intros w. rewrite app_nil_r. intros (k & -> & Hk)%list_elem_of_fmap. apply elem_of_seq in Hk. lia.
  - intros w Hw. left; left. by apply elem_of_list_to_set in Hw.
  - by intros w ?%elem_of_nil.
Qed.

Lemma reached_pool_ok budget n s : reached budget n s -> pool_ok n s.
Proof. apply (reachable_invariant _ step (pool_ok n)); [intros x ->; apply started_ok|intros x l x' _; apply step_pool_ok]. Qed.

(** Whatever runs between two steps is held. *)
Lemma reached_owned budget n s : reached budget n s -> forall w, w ∈ running s -> owned w s = true.
Proof.
  intros Hs. assert (reached budget n s /\ forall w, w ∈ running s -> owned w s = true) as [_ H]; [|done].
  induction Hs as [s ->|s l s' Hs [_ IH] Hst].
  - split; [by apply reach_init|]. intros w Hw. unfold owned, started in *. cbn in *. rewrite decide_False by set_solver.
    by rewrite bool_decide_eq_true_2 by set_solver.
  - split; [by eapply reach_step|]. destruct Hst; by intros worker [_ Hw]%running_left.
Qed.

(** *** Requests are handed out once, or twice *)

Definition sent_by (id : N) (s : Pool) : list Sent := filter (fun e => sent_job e = id) (sent s).

(** What a job has handed out. *)
Definition sent_as (id : N) (j : option Job) (es : list Sent) : Prop :=
  match j with
  | Some (Sending r _ w false) | Some (Replacing r _ w) => es = [mkSent id r w]
  | Some (Replaced r _ w replacement) => es = [mkSent id r w] /\ replacement <> w
  | Some (Stopping _ _ _ (ThenRetry r _ active)) => exists w, es = [mkSent id r w] /\ active <> Some w
  | _ => es = [] \/ (exists r w, es = [mkSent id r w]) \/ exists r w w', es = [mkSent id r w; mkSent id r w'] /\ w <> w' /\ is_idempotent r = true
  end.

Record sent_ok (s : Pool) : Prop := {
  sent_ids : forall e, e ∈ sent s -> (sent_job e < fresh s)%N /\ (sent_worker e < fresh s)%N;
  sent_jobs : forall id, sent_as id (jobs s !! id) (sent_by id s);
  sent_active : forall id c todo waiting r index w, jobs s !! id = Some (Stopping c todo waiting (ThenRetry r index (Some w))) -> (w < fresh s)%N;
}.

Lemma sent_as_few id j es : sent_as id j es -> sent_as id None es.
Proof.
  destruct j as [[r ? w [|]| |r ? w|r ? w w'| | |? ? ? [r ? [a|]| | |]| | | | | | |]|]; cbn; try done;
    first [intros -> | intros [-> _] | intros (x & -> & _)]; right; left; by eexists _, _.
Qed.

(** The job of a request goes on; the other jobs keep what they have. *)
Lemma sent_go id j' s s' : sent_ok s -> (forall i, i <> id -> jobs s' !! i = jobs s !! i \/ jobs s !! i = None /\ exists w, jobs s' !! i = Some (Draining w)) ->
  jobs s' !! id = j' -> sent s' = sent s -> (fresh s <= fresh s')%N -> sent_as id j' (sent_by id s) ->
  (forall c todo waiting r index w, j' = Some (Stopping c todo waiting (ThenRetry r index (Some w))) -> (w < fresh s')%N) -> sent_ok s'.
Proof.
  intros [S1 S2 S3] Ho Ej Es Hf Hj Ha. assert (forall i, sent_by i s' = sent_by i s) as Hby by (intros i; unfold sent_by; by rewrite Es). constructor.
  - intros e. rewrite Es. intros He. destruct (S1 e He). lia.
  - intros i. rewrite Hby. destruct (decide (i = id)) as [->|Hne]; [by rewrite Ej|]. specialize (S2 i). destruct (Ho i Hne) as [->|[Hn [w ->]]]; [done|].
    by rewrite Hn in S2.
  - intros i c todo waiting r index w Hi. destruct (decide (i = id)) as [->|Hne]; [rewrite Ej in Hi; by eapply Ha|].
    destruct (Ho i Hne) as [E|[_ [x E]]]; rewrite E in Hi; [|done]. specialize (S3 i _ _ _ _ _ _ Hi). lia.
Qed.

(** A request is handed out. *)
Lemma sent_transmit id r index w retry s s' : sent_ok s -> (id < fresh s')%N -> (w < fresh s')%N -> (fresh s <= fresh s')%N ->
  jobs s' = <[id := Sending r index w retry]> (jobs s) -> sent s' = sent s ++ [mkSent id r w] ->
  (if retry then exists w', sent_by id s = [mkSent id r w'] /\ w' <> w /\ is_idempotent r = true else sent_by id s = []) -> sent_ok s'.
Proof.
  intros [S1 S2 S3] Hid Hw Hf Ej Es Hby. constructor.
  - intros e. rewrite Es. intros [He| ->%list_elem_of_singleton]%elem_of_app; [destruct (S1 e He); lia|done].
  - intros i. unfold sent_by. rewrite Es, filter_app, Ej. fold (sent_by i s). destruct (decide (i = id)) as [->|Hne].
    + rewrite lookup_insert_eq, filter_cons_True, filter_nil by done. destruct retry.
      * destruct Hby as (w' & -> & Hne & Hi). right; right. by exists r, w', w.
      * by rewrite Hby.
    + rewrite lookup_insert_ne, filter_cons_False, filter_nil, app_nil_r by (done || cbn; congruence). apply S2.
  - intros i c todo waiting r' index' w'. rewrite Ej, lookup_insert_Some. intros [[_ [=]]|[_ Hi]]. specialize (S3 i _ _ _ _ _ _ Hi). lia.
Qed.

(** A job goes on that is not a request being handed out again. *)
Lemma sent_quiet id j s s' : sent_ok s -> jobs s' = <[id := j]> (jobs s) -> sent s' = sent s -> (fresh s <= fresh s')%N ->
  (forall es, sent_as id None es -> sent_as id (Some j) es) -> (forall c todo waiting r index w, j <> Stopping c todo waiting (ThenRetry r index w)) -> sent_ok s'.
Proof.
  intros Hs Ej Es Hf Hj Hn. apply (sent_go id (Some j) s); try done.
  - intros i Hne. left. by rewrite Ej, lookup_insert_ne.
  - by rewrite Ej, lookup_insert_eq.
  - apply Hj. by eapply sent_as_few, (sent_jobs _ Hs id).
  - intros c todo waiting r index w [= ->]. by destruct (Hn c todo waiting r index (Some w)).
Qed.

(** A request goes on, with what it has handed out. *)
Lemma sent_goes id j s s' : sent_ok s -> jobs s' = <[id := j]> (jobs s) -> sent s' = sent s -> (fresh s <= fresh s')%N ->
  sent_as id (Some j) (sent_by id s) -> (forall c todo waiting r index w, j = Stopping c todo waiting (ThenRetry r index (Some w)) -> (w < fresh s')%N) -> sent_ok s'.
Proof.
  intros Hs Ej Es Hf Hj Ha. apply (sent_go id (Some j) s); try done.
  - intros i Hne. left. by rewrite Ej, lookup_insert_ne.
  - by rewrite Ej, lookup_insert_eq.
  - intros c todo waiting r index w [= ->]. by eapply Ha.
Qed.

Lemma retire_sent id index w observed isolated s : sent_ok s -> sent_ok (retire_worker_if_saturated id index w observed isolated s).
Proof.
  intros Hs. unfold retire_worker_if_saturated. destruct (retained_module_urls_per_worker s) as [budget|]; [|by apply (sent_quiet id Finished s)].
  destruct observed as [k|], isolated; cbn zeta; try (by apply (sent_quiet id Finished s)); destruct (_ <? budget)%N;
    first [by apply (sent_quiet id Finished s) | by apply (sent_quiet id (Saturated index w) s)].
Qed.

Lemma replace_failed_sent n id r index failed replacement s : pool_ok n s -> sent_ok s -> jobs s !! id = Some (Replaced r index failed replacement) ->
  sent_ok (replace_failed_worker id r index failed replacement s).
Proof.
  intros Hok Hs Hj. pose proof (sent_jobs s Hs id) as Hby. rewrite Hj in Hby. destruct Hby as [Hby Hne].
  destruct (brought n id _ s replacement Hok Hj) as (B1 & _ & _); [by left|]. unfold replace_failed_worker.
  destruct (workers s !! index) as [w|] eqn:Hi; [destruct (decide (w = failed)) as [->|Hw]|].
  - eapply (sent_goes id); try done; [exists failed; split; [done|congruence]|]. by intros c todo waiting r' index' x [= _ _ _ _ _ <-].
  - eapply (sent_goes id); try done; [exists failed; split; [done|congruence]|]. intros c todo waiting r' index' x [= _ _ _ _ _ <-].
    apply (pre_known n s (proj1 Hok)), elem_of_app. left. by eapply list_elem_of_lookup_2.
  - eapply (sent_goes id); try done. by exists failed.
Qed.

Lemma stopping_sent id c todo waiting todo' waiting' after s s' : sent_ok s -> jobs s !! id = Some (Stopping c todo waiting after) ->
  jobs s' = <[id := Stopping c todo' waiting' after]> (jobs s) -> sent s' = sent s -> fresh s' = fresh s -> sent_ok s'.
Proof.
  intros Hs Hj Ej Es Ef. pose proof (sent_jobs s Hs id) as Hby. rewrite Hj in Hby. apply (sent_goes id (Stopping c todo' waiting' after) s); try done; [by rewrite Ef|].
  intros c' t wt r index w [= <- <- <- ->]. rewrite Ef. by eapply (sent_active s Hs id).
Qed.

Lemma stopped_all_sent n id c after s : pool_ok n s -> sent_ok s -> jobs s !! id = Some (Stopping c [] [] after) -> sent_ok (stopped_all id after s).
Proof.
  intros Hok Hs Hj. destruct after as [r index [active|]|w| |]; cbn [stopped_all]; try (by apply (sent_quiet id Finished s)).
  destruct (is_idempotent r) eqn:Hi; [|by apply (sent_quiet id Finished s)].
  pose proof (sent_jobs s Hs id) as Hby. rewrite Hj in Hby. destruct Hby as (w & Hby & Hne).
  apply (sent_transmit id r index active true s); try done.
  - by apply (pre_ids n s (proj1 Hok) id _ Hj).
  - by eapply (sent_active s Hs id).
  - exists w. split_and!; [done|congruence|done].
Qed.

Lemma act_sent n c id s s' : pool_ok n s -> sent_ok s -> act c id s = Some s' -> sent_ok s'.
Proof.
  intros Hok Hs H. unfold act in H. destruct (jobs s !! id) as [j|] eqn:Hj; [|done]. cbn [mbind option_bind] in H.
  pose proof (sent_jobs s Hs id) as Hby. rewrite Hj in Hby.
  destruct j as [r index w retry|index w|r index failed|r index failed replacement|index w|index w replacement|conc todo waiting after|w|requested_at|k replacements|ws|ws|live|];
    destruct c as [|observed|f|ok|k'|w']; try done;
    repeat match type of H with match ?l with [] => _ | _ :: _ => _ end = _ => destruct l; try done end; try (injection H as <-);
    try (by apply retire_sent).
  - unfold send_failed. destruct retry; cbn [negb andb]; [by apply (sent_quiet id Finished s)|]. destruct (warrants_replacement f); [by apply (sent_goes id (Replacing r index w) s)|by apply (sent_quiet id Finished s)].
  - by apply (sent_quiet id Finished s).
  - unfold spawn_for_failed. destruct ok; [|by apply (sent_quiet id Finished s)]. apply (sent_goes id (Replaced r index failed (fresh s)) s); try done; [by cbn; lia|].
    split; [done|]. cbn in Hby. intros E. assert (mkSent id r failed ∈ sent_by id s) as [_ Hin]%list_elem_of_filter by (rewrite Hby; by left).
    destruct (sent_ids s Hs _ Hin) as [_ Hlt]. cbn in Hlt. lia.
  - by apply (replace_failed_sent n).
  - unfold spawn_for_saturated. destruct ok; [|by apply (sent_quiet id Finished s)]. apply (sent_quiet id (Renewed index w (fresh s)) s); try done. by cbn; lia.
  - unfold replace_saturated_worker. destruct (install_replacement _ _ _ _) as [s1|] eqn:E; [|by apply (sent_quiet id (Stopping false [replacement] [] ThenNothing) s)].
    unfold install_replacement in E. destruct (workers s !! index); [|done]. destruct (decide _); [|done]. injection E as <-. by apply (sent_quiet id (Draining w) s).
  - by apply (stopped_all_sent n id conc).
  - unfold stop_one in H. destruct (_ || _); [|done]. destruct (todo !! k'); [|done]. cbn [mbind option_bind] in H.
    destruct (decide _); injection H as <-; by eapply stopping_sent.
  - unfold stopped_one in H. case_bool_decide; [|done]. injection H as <-. by eapply stopping_sent.
  - by apply (sent_quiet id (Stopping false [w] [] (ThenDeregister w)) s).
  - unfold recycle_enter in H. destruct (recycle_gate s); [done|]. injection H as <-. destruct (_ =? _)%N; [by apply (sent_quiet id (Recycling (length (workers s)) []) s)|by apply (sent_quiet id Finished s)].
  - unfold recycle_swap in H. destruct (_ <? k); [done|]. injection H as <-. destruct (_ =? _); [by apply (sent_quiet id (Swapped (workers s)) s)|by apply (sent_quiet id (Stopping false replacements [] ThenReleaseGate) s)].
  - unfold recycle_spawn in H. destruct (_ <? k); [|done]. destruct ok; injection H as <-; [|by apply (sent_quiet id (Stopping false replacements [] ThenReleaseGate) s)].
    apply (sent_quiet id (Recycling k (replacements ++ [fresh s])) s); try done. by cbn; lia.
  - by apply (sent_quiet id (Publishing ws) s).
  - destruct ws as [|w ws]; cbn [recycle_drain]; [by apply (sent_quiet id Finished s)|]. pose proof (pre_ids n s (proj1 Hok) id _ Hj) as Hlt.
    apply (sent_go id (Some (Publishing ws)) s); try done; [|by cbn; rewrite lookup_insert_ne, lookup_insert_eq by lia|by cbn; lia].
    intros i Hne. cbn. destruct (decide (i = fresh s)) as [->|Hf]; [right|left; by rewrite !lookup_insert_ne by done]. split; [|exists w; by rewrite lookup_insert_eq].
    apply eq_None_not_Some. intros [x Hx]. specialize (pre_ids n s (proj1 Hok) _ _ Hx). lia.
  - by apply (sent_quiet id (Stopping true (live ++ retiring s) [] ThenNothing) s).
Qed.

Lemma launch_sent j s : (forall id w, jobs s !! id = Some w -> (id < fresh s)%N) -> sent_ok s ->
  (forall es, sent_as (fresh s) None es -> sent_as (fresh s) (Some j) es) -> (forall c todo waiting r index w, j <> Stopping c todo waiting (ThenRetry r index w)) -> sent_ok (launch j s).
Proof. intros Hid Hs H1 H2. apply (sent_quiet (fresh s) j s); try done. by cbn; lia. Qed.

Lemma step_sent_ok n s l s' : pool_ok n s -> sent_ok s -> step s l s' -> sent_ok s'.
Proof.
  intros Hok Hs H. assert (forall x, sent_ok x -> sent_ok (drop_unowned x)) as Hdrop by (intros x [? ? ?]; by constructor).
  assert (forall x i y, pool_ok n x -> jobs x !! i = Some y -> (i < fresh x)%N) as Hid by (intros x i y Hx; apply (pre_ids n x (proj1 Hx))).
  destruct H as [load r s|s|s|s|c id s s' H|id s s' H|w s]; apply Hdrop.
  - unfold send, select_worker. destruct (workers s) as [|w ws] eqn:Ew; [done|]. rewrite <- Ew. destruct (_ !! _) as [x|] eqn:Ex; [|done]. cbn [mbind option_bind].
    assert (x < fresh s)%N as Hx by (apply (pre_known n s (proj1 Hok)), elem_of_app; left; by eapply list_elem_of_lookup_2).
    eapply (sent_transmit (fresh s) r _ x false s); try done; cbn; try lia. apply filter_nil_iff. intros e He E. destruct (sent_ids s Hs e He). lia.
  - apply launch_sent; try done. intros i y. by apply Hid.
  - revert Hok Hs. unfold warmup. generalize (imap pair (workers s)). intros l. revert s. induction l as [|iw l IH]; intros s Hok Hs; [done|].
    apply IH; [apply launch_keeps; try done; by left|]. apply launch_sent; try done. intros i y. by apply Hid.
  - apply launch_sent; try done. intros i y. by apply Hid.
  - by apply (act_sent n c id s).
  - unfold abandon in H. destruct (jobs s !! id) as [j|] eqn:Hj; [|done]. cbn [mbind option_bind] in H.
    assert (forall s1, jobs s1 = delete id (jobs s) -> sent s1 = sent s -> fresh s1 = fresh s -> sent_ok s1) as Hdel.
    { intros s1 E1 E2 E3. apply (sent_go id None s); try done; [|by rewrite E1, lookup_delete_eq|lia|by eapply sent_as_few, (sent_jobs s Hs)].
      intros i Hne. left. by rewrite E1, lookup_delete_ne. }
    destruct j as [| | | | | |c todo waiting after| | | | | | |]; try done; try (injection H as <-; by apply Hdel). destruct after; try done; injection H as <-; by apply Hdel.
  - destruct Hs. by constructor.
Qed.

Lemma reached_sent_ok budget n s : reached budget n s -> sent_ok s.
Proof.
  intros Hr. apply (reachable_invariant (fun s => s = started budget n) step (fun x => pool_ok n x /\ sent_ok x)); [| |done].
  - intros x ->. split; [apply started_ok|]. constructor; cbn; try done; [by intros e ?%elem_of_nil|]. intros id. by left.
  - intros x l x' _ [H1 H2] H. split; [by apply (step_pool_ok n x l)|by apply (step_sent_ok n x l)].
Qed.

(** *** What the other jobs leave alone *)

Record frame (id : N) (s s' : Pool) : Prop := {
  fr_closing : closing s ⊆ closing s';
  fr_jobs : forall i, i <> id -> (i < fresh s)%N -> jobs s' !! i = jobs s !! i;
  fr_fresh : (fresh s <= fresh s')%N;
  fr_retiring : forall w, w ∈ retiring s -> w ∈ retiring s' \/ w ∈ closing s \/ exists live, jobs s !! id = Some (Sampled live);
  fr_sampled : forall i live, jobs s' !! i = Some (Sampled live) -> jobs s !! i = Some (Sampled live);
}.

Lemma frame_go id j s s' : jobs s' = <[id := j]> (jobs s) -> (forall live, j <> Sampled live) -> closing s ⊆ closing s' -> (forall w, w ∈ retiring s -> w ∈ retiring s') ->
  (fresh s <= fresh s')%N -> frame id s s'.
Proof.
  intros E Hn Hc Hr Hf. constructor; try done.
  - intros i Hne Hx. by rewrite E, lookup_insert_ne.
  - intros w Hw. left. by apply Hr.
  - intros i live. rewrite E, lookup_insert_Some. intros [[_ ->]|[_ ?]]; [by destruct (Hn live)|done].
Qed.

Lemma frame_launch j s : (forall i x, jobs s !! i = Some x -> (i < fresh s)%N) -> (forall live, j <> Sampled live) -> frame (fresh s) s (launch j s).
Proof. intros Hid Hn. apply (frame_go (fresh s) j); try done. by cbn; lia. Qed.

Lemma act_frame n c id s s' : pool_ok n s -> act c id s = Some s' -> frame id s s'.
Proof.
  intros Hok H. unfold act in H. destruct (jobs s !! id) as [j|] eqn:Hj; [|done]. cbn [mbind option_bind] in H.
  destruct c as [|observed|f|ok|k'|w']; destruct j as [r index w retry|index w|r index failed|r index failed replacement|index w|index w replacement|conc todo waiting after|w|requested_at|k replacements|ws|ws|live|];
    try done; repeat match type of H with match ?l with [] => _ | _ :: _ => _ end = _ => destruct l; try done end; try (injection H as <-).
  - unfold replace_failed_worker. destruct (workers s !! index) as [w|]; [destruct (decide _)|]; by eapply (frame_go id).
  - unfold replace_saturated_worker, install_replacement. destruct (workers s !! index); [destruct (decide _)|]; eapply (frame_go id); try done. intros x Hx. cbn. set_solver.
  - destruct after as [r index [active|]|w| |]; cbn [stopped_all]; try destruct (is_idempotent r); try (by eapply (frame_go id)).
    destruct (pre_jobs n s (proj1 Hok) id _ Hj) as [_ _ _ J4]. destruct (J4 _ _ _ _ eq_refl) as [Hx|Hx]; [by apply elem_of_nil in Hx|].
    constructor; cbn; try done.
    + intros i Hne Hix. by rewrite lookup_insert_ne.
    + intros x Hix. destruct (decide (x = w)) as [->|Hne]; [by right; left|left; by apply list_elem_of_filter].
    + intros i live. rewrite lookup_insert_Some. by intros [[_ [=]]|[_ ?]].
  - by eapply (frame_go id).
  - unfold recycle_enter in H. destruct (recycle_gate s); [done|]. injection H as <-. destruct (_ =? _)%N; by eapply (frame_go id).
  - unfold recycle_swap in H. destruct (_ <? k); [done|]. injection H as <-. destruct (_ =? _); eapply (frame_go id); try done. intros x Hx. cbn. set_solver.
  - by eapply (frame_go id).
  - destruct ws as [|w ws]; cbn [recycle_drain]; [by eapply (frame_go id)|]. pose proof (pre_ids n s (proj1 Hok)) as Hid. constructor; cbn; try done.
    + intros i Hne Hx. by rewrite !lookup_insert_ne by lia.
    + lia.
    + by left.
    + intros i live. rewrite !lookup_insert_Some. intros [[_ [=]]|[_ [[_ [=]]|[_ ?]]]]. done.
  - constructor; cbn; try done.
    + intros i Hne Hx. by rewrite lookup_insert_ne.
    + intros w Hw. right; right. by exists live.
    + intros i live'. rewrite lookup_insert_Some. intros [[_ [=]]|[_ ?]]. done.
  - unfold retire_worker_if_saturated. destruct (retained_module_urls_per_worker s); [|by eapply (frame_go id)].
    destruct observed, (retains_an_isolated_module_graph r); cbn zeta; try (by eapply (frame_go id)); destruct (_ <? _)%N; by eapply (frame_go id).
  - unfold retire_worker_if_saturated. destruct (retained_module_urls_per_worker s); [|by eapply (frame_go id)].
    destruct observed; cbn zeta; try (by eapply (frame_go id)); destruct (_ <? _)%N; by eapply (frame_go id).
  - unfold send_failed. destruct (_ && _); by eapply (frame_go id).
  - by eapply (frame_go id).
  - unfold spawn_for_failed. destruct ok; eapply (frame_go id); try done. by cbn; lia.
  - unfold spawn_for_saturated. destruct ok; eapply (frame_go id); try done. by cbn; lia.
  - unfold recycle_spawn in H. destruct (_ <? k); [|done]. destruct ok; injection H as <-; eapply (frame_go id); try done. by cbn; lia.
  - unfold stop_one in H. destruct (_ || _); [|done]. destruct (todo !! k'); [|done]. cbn [mbind option_bind] in H.
    destruct (decide _); injection H as <-; eapply (frame_go id); try done. cbn. set_solver.
  - unfold stopped_one in H. case_bool_decide; [|done]. injection H as <-. by eapply (frame_go id).
Qed.

(** *** Shutdown *)

(** A worker the shutdown [id] has to see stopped is on its list, will be, or is stopped by somebody. *)
Definition in_charge (id w : N) (s : Pool) : Prop :=
  match jobs s !! id with
  | Some (Sampled live) => w ∈ live \/ w ∈ retiring s \/ w ∈ closing s
  | Some (Stopping _ todo _ ThenNothing) => w ∈ todo \/ w ∈ closing s
  | Some Finished => w ∈ closing s
  | None => True
  | _ => False
  end.

Definition only_shutdown (id : N) (s : Pool) : Prop := (id < fresh s)%N /\ forall i live, jobs s !! i = Some (Sampled live) -> i = id.

Lemma in_charge_other id id' w s s' : frame id' s s' -> id' <> id -> (forall live, jobs s !! id' <> Some (Sampled live)) -> (id < fresh s)%N ->
  in_charge id w s -> in_charge id w s'.
Proof.
  intros [F1 F2 _ F3 F4] Hne Hns Hid H. unfold in_charge in *. rewrite (F2 id) by done. destruct (jobs s !! id) as [j|]; [|done]. destruct j; try done.
  - destruct after; try done. destruct H as [H|H]; [by left|right; by apply F1].
  - destruct H as [H|[H|H]]; [by left| |right; right; by apply F1].
    destruct (F3 w H) as [H'|[H'|[live' H']]]; [by right; left|right; right; by apply F1|by destruct (Hns live')].
  - by apply F1.
Qed.

Lemma in_charge_own n c id w s s' : pool_ok n s -> act c id s = Some s' -> in_charge id w s -> in_charge id w s'.
Proof.
  intros Hok H Hi. unfold in_charge in Hi. unfold act in H. destruct (jobs s !! id) as [j|] eqn:Hj; [|done]. cbn [mbind option_bind] in H.
  destruct j as [r index w0 retry|index w0|r index failed|r index failed replacement|index w0|index w0 replacement|conc todo waiting after|w0|requested_at|k replacements|ws|ws|live|];
    try done; destruct c; try done; try (destruct after; try done).
  - repeat match type of H with match ?l with [] => _ | _ :: _ => _ end = _ => destruct l; try done end. injection H as <-. unfold in_charge. cbn.
    rewrite lookup_insert_eq. destruct Hi as [Hi|Hi]; [by apply elem_of_nil in Hi|done].
  - unfold stop_one in H. destruct (_ || _); [|done]. destruct (todo !! k) as [x|] eqn:Hk; [|done]. cbn [mbind option_bind] in H.
    destruct (decide (x ∈ closing s)) as [Hc|Hc]; injection H as <-; unfold in_charge; cbn; rewrite lookup_insert_eq.
    + destruct Hi as [Hi|Hi]; [|by right]. by destruct (elem_of_delete_at todo k x w Hk Hi) as [->|]; [right|left].
    + destruct Hi as [Hi|Hi]; [|set_solver]. destruct (elem_of_delete_at todo k x w Hk Hi) as [->|]; [set_solver|by left].
  - unfold stopped_one in H. case_bool_decide; [|done]. injection H as <-. unfold in_charge. cbn. by rewrite lookup_insert_eq.
  - injection H as <-. unfold in_charge. cbn. rewrite lookup_insert_eq. rewrite elem_of_app. tauto.
Qed.

Lemma in_charge_step n id w s l s' : pool_ok n s -> only_shutdown id s -> in_charge id w s -> l <> Shutdown -> step s l s' ->
  only_shutdown id s' /\ in_charge id w s'.
Proof.
  intros Hok [Hid Hos] Hi Hl H. pose proof (pre_ids n s (proj1 Hok)) as Hids.
  assert (forall id' s1, frame id' s s1 -> id' <> id -> (forall live, jobs s !! id' <> Some (Sampled live)) -> only_shutdown id s1 /\ in_charge id w s1) as Hframe.
  { intros id' s1 Hf Hne Hns. split; [|by apply (in_charge_other id id' w s)]. split; [by pose proof (fr_fresh _ _ _ Hf); lia|].
    intros i live Hlv%(fr_sampled _ _ _ Hf). by eapply Hos. }
  assert (forall j, (forall live, j <> Sampled live) -> only_shutdown id (launch j s) /\ in_charge id w (launch j s)) as Hlaunch.
  { intros j Hj. apply (Hframe (fresh s)); [by apply frame_launch|lia|]. intros live Hx. specialize (Hids _ _ Hx). lia. }
  destruct H as [load r s|s|s|s|c id' s s' H|id' s s' H|x s]; [..|done].
  - change (only_shutdown id (send load r s) /\ in_charge id w (send load r s)). unfold send, select_worker. destruct (workers s); [done|].
    destruct (_ !! _) as [x|]; [|done]. cbn [mbind option_bind]. apply (Hframe (fresh s)); [|lia|intros live Hx; specialize (Hids _ _ Hx); lia].
    eapply (frame_go (fresh s)); try done. by cbn; lia.
  - by apply Hlaunch.
  - change (only_shutdown id (warmup s) /\ in_charge id w (warmup s)). clear Hframe Hlaunch Hids Hl. revert Hok Hid Hos Hi. unfold warmup. generalize (imap pair (workers s)).
    intros l0. revert s. induction l0 as [|iw l0 IH]; intros s Hok Hid Hos Hi; [done|].
    pose proof (pre_ids n s (proj1 Hok)) as Hids. assert (frame (fresh s) s (launch (Warming (fst iw) (snd iw)) s)) as Hf by by apply frame_launch.
    apply IH; [apply launch_keeps; try done; by left|by cbn; lia|intros i live Hx%(fr_sampled _ _ _ Hf); by eapply Hos|].
    apply (in_charge_other id (fresh s) w s); [done|lia|intros live Hx; specialize (Hids _ _ Hx); lia|done|done].
  - by destruct Hl.
  - change (only_shutdown id s' /\ in_charge id w s'). pose proof (act_frame n c id' s s' Hok H) as Hf. destruct (decide (id' = id)) as [->|Hne].
    + split; [|by apply (in_charge_own n c id w s)]. split; [by pose proof (fr_fresh _ _ _ Hf); lia|]. intros i live Hx%(fr_sampled _ _ _ Hf). by eapply Hos.
    + apply (Hframe id'); [done|done|]. intros live Hx. by destruct Hne; eapply Hos.
  - change (only_shutdown id s' /\ in_charge id w s'). unfold abandon in H. destruct (jobs s !! id') as [j|] eqn:Hj; [|done]. cbn [mbind option_bind] in H.
    assert (jobs s' = delete id' (jobs s) /\ retiring s' = retiring s /\ closing s' = closing s /\ fresh s' = fresh s) as (E1 & E2 & E3 & E4).
    { destruct j as [| | | | | |c todo waiting after| | | | | | |]; try done; try (by injection H as <-). destruct after; try done; by injection H as <-. }
    split.
    + split; [by rewrite E4|]. intros i live. rewrite E1, lookup_delete_Some. intros [_ Hx]. by eapply Hos.
    + unfold in_charge. rewrite E1, E2, E3. destruct (decide (id = id')) as [->|Hne]; [by rewrite lookup_delete_eq|by rewrite lookup_delete_ne].
Qed.

(** A run in which nobody else shuts the pool down. *)
Definition quiet_run : Pool -> Pool -> Prop := rtc (fun s s' => exists l, l <> Shutdown /\ step s l s').

Lemma in_charge_run n id w s s' : pool_ok n s -> only_shutdown id s -> in_charge id w s -> quiet_run s s' -> pool_ok n s' /\ in_charge id w s'.
Proof.
  intros Hok Hos Hi Hrun. revert Hok Hos Hi. induction Hrun as [s|s s1 s' (l & Hl & H) _ IH]; intros Hok Hos Hi; [done|].
  destruct (in_charge_step n id w s l s1 Hok Hos Hi Hl H). apply IH; [by apply (step_pool_ok n s l)|done|done].
Qed.

(** *** Selection *)

Section selection.
Context (load : N -> N) (ws : list N) (start : N).
Context (Hload : forall x, (load x <= usize_max)%N) (Hstart : (start + N.of_nat (length ws) <= 2 ^ 64)%N).

Definition slot_at (o : nat) : nat := N.to_nat (((start + N.of_nat o) mod 2 ^ 64) mod N.of_nat (length ws)).
Definition load_at (o : nat) : N := load (nth (slot_at o) ws 0%N).

(** The best of the first [k] offsets: none before it is as good, none after it better. *)
Definition best_of (k : nat) (best : nat) (best_load : N) : Prop :=
  exists o, best = slot_at o /\ (k = 0 -> o = 0 /\ best_load = usize_max) /\ (0 < k -> o < k /\ best_load = load_at o) /\
    (forall o', o' < o -> (load_at o < load_at o')%N) /\ (forall o', o' < k -> (load_at o <= load_at o')%N /\ load_at o' <> 0%N).

Lemma best_better k best best_load : best_of k best best_load -> load_at k <> 0%N -> (load_at k < best_load)%N -> best_of (S k) (slot_at k) (load_at k).
Proof.
  intros (o & _ & H0 & H1 & _ & H3) Hz Hlt. exists k. split_and!; [done|lia|split; [lia|done]| |].
  - intros o' Ho'. destruct H1 as [_ ->]; [lia|]. destruct (H3 o' Ho'). lia.
  - intros o' Ho'. destruct (decide (o' = k)) as [->|]; [split; [lia|done]|]. destruct H1 as [_ ->]; [lia|]. destruct (H3 o' ltac:(lia)). split; [lia|done].
Qed.

Lemma best_kept k best best_load : best_of k best best_load -> load_at k <> 0%N -> (best_load <= load_at k)%N -> best_of (S k) best best_load.
Proof.
  intros (o & Hb & H0 & H1 & H2 & H3) Hz Hle. destruct (decide (k = 0)) as [->|].
  - destruct (H0 eq_refl) as [-> ->]. exists 0. pose proof (Hload (nth (slot_at 0) ws 0%N)) as Hm. fold (load_at 0) in Hm.
    split_and!; [done|lia|intros _; split; lia|lia|]. intros o' Ho'. by replace o' with 0 by lia.
  - destruct H1 as [H1 ->]; [lia|]. exists o. split_and!; [done|lia|intros _; split; [lia|done]|done|].
    intros o' Ho'. destruct (decide (o' = k)) as [->|]; [done|]. apply H3. lia.
Qed.

Lemma probe_best m : forall k best best_load, best_of k best best_load -> 0 < k + m ->
  exists o, probe load ws start (seq k m) best best_load = slot_at o /\ o < k + m /\
    (forall o', o' < o -> (load_at o < load_at o')%N) /\ (forall o', o' < k + m -> (load_at o <= load_at o')%N).
Proof.
  induction m as [|m IH]; intros k best best_load Hb Hkm; cbn [seq probe].
  - destruct Hb as (o & -> & _ & H1 & H2 & H3). exists o. rewrite Nat.add_0_r. split_and!; [done|apply H1; lia|done|]. intros o' Ho'. by apply H3.
  - fold (slot_at k). fold (load_at k). destruct (N.eqb_spec (load_at k) 0) as [Hz|Hz].
    + destruct Hb as (o & _ & _ & _ & _ & H3). exists k. split_and!; [done|lia| |intros; lia]. intros o' Ho'. destruct (H3 o' Ho'). lia.
    + rewrite Nat.add_succ_r. destruct (N.ltb_spec (load_at k) best_load) as [Hlt|Hle].
      * apply (IH (S k)); [by eapply best_better|lia].
      * apply (IH (S k)); [by apply best_kept|lia].
Qed.

Lemma slot_in o : 0 < length ws -> slot_at o < length ws.
Proof. intros H. unfold slot_at. pose proof (N.mod_lt ((start + N.of_nat o) mod 2 ^ 64) (N.of_nat (length ws)) ltac:(lia)). lia. Qed.

(** Every slot is probed: the start rotates, and nothing wraps. *)
Lemma slot_probed i : i < length ws -> exists o, o < length ws /\ slot_at o = i.
Proof.
  intros Hi. set (n := N.of_nat (length ws)). set (r := (start mod n)%N). assert (r < n)%N as Hr by (apply N.mod_lt; lia).
  pose proof (N.div_mod start n ltac:(lia)) as Hdm. fold r in Hdm.
  assert (forall o q, o < length ws -> (start + N.of_nat o = n * q + N.of_nat i)%N -> slot_at o = i) as Hslot.
  { intros o q Ho E. unfold slot_at. fold n. rewrite (N.mod_small (start + N.of_nat o)) by lia. rewrite E, N.add_comm, N.mul_comm, N.Div0.mod_add, N.mod_small by lia. lia. }
  destruct (decide (N.to_nat r <= i)) as [Hle|Hgt].
  - exists (i - N.to_nat r). split; [lia|]. apply (Hslot _ (start / n)%N); lia.
  - exists (i + length ws - N.to_nat r). split; [lia|]. apply (Hslot _ (start / n + 1)%N); lia.
Qed.

Lemma probe_least : 0 < length ws -> exists o, o < length ws /\
  probe load ws start (seq 0 (length ws)) (N.to_nat (start mod N.of_nat (length ws))) usize_max = slot_at o /\
  (forall o', o' < o -> (load_at o < load_at o')%N) /\ forall w, w ∈ ws -> (load_at o <= load w)%N.
Proof.
  intros Hne. destruct (probe_best (length ws) 0 (N.to_nat (start mod N.of_nat (length ws))) usize_max) as (o & E & Ho & H1 & H2); [|lia|].
  - exists 0. split_and!; [|done|lia|lia|lia]. unfold slot_at. rewrite N.add_0_r, (N.mod_small start (2 ^ 64)) by lia. done.
  - exists o. split_and!; [done|done|done|]. intros w (i & Hi)%list_elem_of_lookup.
    destruct (slot_probed i) as (o' & Ho' & Es); [by eapply lookup_lt_Some|]. specialize (H2 o' ltac:(lia)). unfold load_at in H2 at 2.
    rewrite Es in H2. by rewrite (nth_lookup_Some _ _ _ _ Hi) in H2.
Qed.
End selection.

(** *** Claims *)

(** C27: However requests, replacements, new generations, shutdowns, exits and
    dropped futures are interleaved: the pool keeps its size, no worker is in two
    places, every retiring worker has a drain that takes it off the list, and at
    most one recycle runs.  Every running process is in a slot, retiring, or in
    the hands of a job that installs it or sees it stopped, but for one case: a
    worker taken out of the pool whose shutdown was dropped with the future that
    awaited it, before it began.  Its process runs on only while a job that is
    under way still holds the worker. *)
Theorem pool_owns_every_process budget n s : reached budget n s ->
  length (workers s) = n /\ NoDup (workers s ++ retiring s) /\
  (forall w, w ∈ running s ->
     w ∈ workers s \/ w ∈ retiring s \/ (exists id j, jobs s !! id = Some j /\ w ∈ in_hand j) \/
     (w ∈ dropped s /\ (w ∉ closing s) /\ exists id j, jobs s !! id = Some j /\ mentions w j = true)) /\
  (forall w, w ∈ retiring s -> exists id j, jobs s !! id = Some j /\ w ∈ drains j) /\
  (forall id id' j j', jobs s !! id = Some j -> jobs s !! id' = Some j' -> holds_gate j = true -> holds_gate j' = true -> id = id').
Proof.
  intros Hs. pose proof (reached_owned budget n s Hs) as Hown. apply reached_pool_ok in Hs as Hok.
  pose proof (proj1 Hok) as [H1 H2 _ _ _ _ H7 _ H9]. split_and!; [done|done| |done|].
  - intros w Hw. destruct (ok_minded n s w Hok Hw) as [[H|[H|H]]|H]; [tauto..|]. specialize (Hown w Hw). unfold owned in Hown.
    destruct (decide (w ∈ closing s)) as [Hc|Hc].
    + right; right; left. apply some_job_true in Hown as (id & j & Hj & Hwait). exists id, j. split; [done|by apply waits_in_hand].
    + apply orb_true_iff in Hown as [[Hin|Hin]%orb_true_iff|Hin]; [apply bool_decide_eq_true in Hin; tauto..|].
      right; right; right. split_and!; [done|done|by apply some_job_true].
  - intros id id' j j' Hj Hj' Hh Hh'. by apply (proj2 (H7 id' j' Hj' Hh') id j).
Qed.

(** C28: A shutdown reaches every process the pool owned when it began, in a slot or draining, though it reads the two lists one after the other and replacements go on meanwhile: when it has finished, each has exited, or another job has had its child since before and waits for it. *)
Theorem shutdown_reaches_every_process budget n s s' w :
  reached budget n s -> (forall id live, jobs s !! id <> Some (Sampled live)) -> quiet_run (drop_unowned (shutdown s)) s' ->
  jobs s' !! fresh s = Some Finished -> w ∈ workers s ++ retiring s ->
  (w ∉ running s') \/ exists id j, id <> fresh s /\ jobs s' !! id = Some j /\ waits w j = true.
Proof.
  intros Hok%reached_pool_ok Hno Hrun Hfin Hw. assert (step s Shutdown (drop_unowned (shutdown s))) as Hst by constructor.
  pose proof (step_pool_ok n _ _ _ Hok Hst) as Hok1. destruct (in_charge_run n (fresh s) w _ s' Hok1) as [Hok' Hi]; [| |done|].
  - split; [cbn; lia|]. intros i live. cbn. rewrite lookup_insert_Some. intros [[? _]|[_ Hx]]; [done|by destruct (Hno i live)].
  - unfold in_charge. cbn. rewrite lookup_insert_eq. apply elem_of_app in Hw as [Hw|Hw]; tauto.
  - unfold in_charge in Hi. rewrite Hfin in Hi. destruct (decide (w ∈ running s')) as [Hr|]; [right|by left].
    destruct (proj2 Hok' w Hr Hi) as (id & j & Hj & Hwait). exists id, j. split_and!; [|done|done]. intros ->. rewrite Hfin in Hj. by injection Hj as <-.
Qed.

(** A request whose work may not be repeated is handed to one worker only; any other to two at most, and the second time to another worker. *)
Theorem requests_are_sent_once budget n s id : reached budget n s ->
  sent_by id s = [] \/ (exists r w, sent_by id s = [mkSent id r w]) \/
  exists r w w', sent_by id s = [mkSent id r w; mkSent id r w'] /\ w <> w' /\ is_idempotent r = true.
Proof. intros Hs%reached_sent_ok. exact (sent_as_few id _ _ (sent_jobs s Hs id)). Qed.

(** Selection answers a slot with the least load of all, the first such from the rotating start on; only an empty pool has none. *)
Theorem select_worker_least_loaded load s : (forall w, (load w <= usize_max)%N) -> (next_worker s + N.of_nat (length (workers s)) <= 2 ^ 64)%N -> workers s <> [] ->
  exists o w, select_worker load s = Some (slot_at (workers s) (next_worker s) o, w, with_next_worker ((next_worker s + 1) mod 2 ^ 64)%N s) /\
    workers s !! slot_at (workers s) (next_worker s) o = Some w /\ (forall w', w' ∈ workers s -> (load w <= load w')%N) /\
    (forall o' w', o' < o -> workers s !! slot_at (workers s) (next_worker s) o' = Some w' -> (load w < load w')%N).
Proof.
  intros Hload Hstart Hne. assert (0 < length (workers s)) as Hlen by (destruct (workers s); [done|cbn; lia]).
  destruct (probe_least load (workers s) (next_worker s) Hload Hstart Hlen) as (o & Ho & E & H1 & H2).
  destruct (lookup_lt_is_Some_2 (workers s) (slot_at (workers s) (next_worker s) o)) as [w Hw]; [by apply slot_in|].
  assert (load_at load (workers s) (next_worker s) o = load w) as Elw by (unfold load_at; by rewrite (nth_lookup_Some _ _ _ _ Hw)).
  exists o, w. split_and!; [|done| |].
  - unfold select_worker. destruct (workers s) as [|x ws] eqn:Ew; [done|]. rewrite E, Hw. done.
  - intros w' Hw'. rewrite <- Elw. by apply H2.
  - intros o' w' Ho' Hw'. specialize (H1 o' Ho'). rewrite Elw in H1. unfold load_at in H1. by rewrite (nth_lookup_Some _ _ _ _ Hw') in H1.
Qed.

(** *** Concrete pools *)

Definition attempt_act (c : Choice) (id : N) (s : Pool) : Pool := match act c id s with Some s' => drop_unowned s' | None => s end.
Definition acts (script : list (Choice * N)) (s : Pool) : Pool := foldl (fun s x => attempt_act (fst x) (snd x) s) s script.

Lemma acts_reached budget n script s : reached budget n s -> reached budget n (acts script s).
Proof.
  revert s. induction script as [|[c id] script IH]; intros s Hs; [done|]. apply IH. unfold attempt_act. cbn [fst snd].
  destruct (act c id s) as [s'|] eqn:E; [|done]. eapply reach_step; [done|by apply (step_act c id)].
Qed.

Lemma acts_quiet script s : quiet_run s (acts script s).
Proof.
  revert s. induction script as [|[c id] script IH]; intros s; [apply rtc_refl|]. cbn. etransitivity; [|apply IH]. unfold attempt_act. cbn [fst snd].
  destruct (act c id s) as [s'|] eqn:E; [|apply rtc_refl]. apply rtc_once. exists (Acts id). split; [done|by apply (step_act c id)].
Qed.

Definition ping : WorkerRequest := Ping "1".
Definition gone : WorkerSendFailure := Transport "".

(** Two workers; a ping goes to the first, whose process is gone, and is sent again to its replacement. *)
Definition pinged : Pool := drop_unowned (send (fun _ => 0%N) ping (started None 2)).
Definition pinged_again : Pool :=
  acts [(Go, 2%N)] (drop_unowned (exit 0%N (acts [(Fails gone, 2%N); (Spawns true, 2%N); (Go, 2%N); (Stops 0, 2%N)] pinged))).
Definition retried : Pool := acts [(Exited 0%N, 2%N); (Go, 2%N)] pinged_again.

Lemma retried_reached : reached None 2 retried.
Proof.
  apply acts_reached, acts_reached. eapply reach_step; [|apply step_exit]. apply acts_reached. eapply reach_step; [|apply step_send]. by apply reach_init.
Qed.

Lemma pool_owns_witness : reached None 2 retried /\ workers retried = [3%N; 1%N] /\ running retried = {[1%N; 3%N]} /\
  length (workers retried) = 2 /\ NoDup (workers retried ++ retiring retried).
Proof.
  pose proof (pool_owns_every_process None 2 retried retried_reached) as (H1 & H2 & _).
  split; [exact retried_reached|]. split; [vm_compute; reflexivity|]. split; [vm_compute; reflexivity|]. split; [exact H1|exact H2].
Defined.

(** Two requests are with the only worker when its process fails.  The first has
    replaced it and is dropped while it shuts the old process down; the second
    still holds that process, which no list of the pool names, and which goes
    when the second is answered. *)
Definition replaced_and_dropped : Pool :=
  let s := drop_unowned (send (fun _ => 0%N) ping (drop_unowned (send (fun _ => 0%N) ping (started None 1)))) in
  let s := acts [(Fails gone, 1%N); (Spawns true, 1%N); (Go, 1%N)] s in
  default s (drop_unowned <$> abandon 1%N s).

Example a_dropped_replacement_leaves_a_process :
  workers replaced_and_dropped = [3%N] /\ retiring replaced_and_dropped = [] /\ 
  running replaced_and_dropped = {[0%N; 3%N]} /\ dropped replaced_and_dropped = {[0%N]} /\
  jobs replaced_and_dropped = {[2%N := Sending ping 0 0%N false]} /\
  running (acts [(Answers None, 2%N)] replaced_and_dropped) = {[3%N]}.
Proof. vm_compute. done. Qed.

Lemma requests_witness : sent_by 2%N retried = [mkSent 2%N ping 0%N; mkSent 2%N ping 3%N] /\
  (sent_by 2%N retried = [] \/ (exists r w, sent_by 2%N retried = [mkSent 2%N r w]) \/
   exists r w w', sent_by 2%N retried = [mkSent 2%N r w; mkSent 2%N r w'] /\ w <> w' /\ is_idempotent r = true).
Proof. split; [vm_compute; reflexivity|exact (requests_are_sent_once None 2 retried 2%N retried_reached)]. Defined.

Lemma select_witness : exists o w, select_worker (fun w => if (w =? 1)%N then 1%N else 2%N) (started None 3) =
  Some (slot_at [0%N; 1%N; 2%N] 0%N o, w, with_next_worker 1%N (started None 3)) /\ w = 1%N.
Proof.
  destruct (select_worker_least_loaded (fun w => if (w =? 1)%N then 1%N else 2%N) (started None 3)) as (o & w & H & Hw & Hmin & _).
  - intros w. destruct (w =? 1)%N; vm_compute; discriminate.
  - vm_compute. discriminate.
  - discriminate.
  - exists o, w. split; [exact H|]. assert (1%N ∈ workers (started None 3)) as Hin by (right; left).
    specialize (Hmin 1%N Hin). destruct (N.eqb_spec w 1) as [->|Hne]; [reflexivity|]. apply N.le_ngt in Hmin. destruct Hmin. reflexivity.
Defined.

(** A saturated worker drains while the pool is shut down. *)
Definition saturated : Pool :=
  acts [(Answers (Some 9%N), 2%N); (Spawns true, 2%N); (Go, 2%N)] (drop_unowned (send (fun _ => 0%N) ping (started (Some 4%N) 2))).

Lemma saturated_reached : reached (Some 4%N) 2 saturated.
Proof. apply acts_reached. eapply reach_step; [|apply step_send]. by apply reach_init. Qed.

Definition closing_down : Pool := acts [(Go, 4%N); (Stops 0, 4%N); (Stops 0, 4%N); (Stops 0, 4%N)] (drop_unowned (shutdown saturated)).

(** The three processes exit. *)
Definition all_exit (s : Pool) : Pool := drop_unowned (exit 0%N (drop_unowned (exit 1%N (drop_unowned (exit 3%N s))))).

Lemma all_exit_quiet s : quiet_run s (all_exit s).
Proof.
  unfold all_exit. eapply rtc_l; [exists (Exits 3%N); split; [done|apply step_exit]|].
  eapply rtc_l; [exists (Exits 1%N); split; [done|apply step_exit]|]. apply rtc_once. exists (Exits 0%N). split; [done|apply step_exit].
Qed.

Definition closed_down : Pool := acts [(Exited 0%N, 4%N); (Exited 1%N, 4%N); (Exited 3%N, 4%N); (Go, 4%N)] (all_exit closing_down).

Lemma shutdown_witness : workers saturated = [3%N; 1%N] /\ retiring saturated = [0%N] /\
  ((0%N ∉ running closed_down) \/ exists id j, id <> fresh saturated /\ jobs closed_down !! id = Some j /\ waits 0%N j = true).
Proof.
  split; [vm_compute; reflexivity|]. split; [vm_compute; reflexivity|].
  apply (shutdown_reaches_every_process (Some 4%N) 2 saturated closed_down 0%N saturated_reached).
  - intros id live H. assert (jobs saturated = {[2%N := Draining 0%N]}) as E by (vm_compute; reflexivity). rewrite E in H.
    apply lookup_singleton_Some in H as [_ H]. discriminate H.
  - unfold closed_down, closing_down. unfold quiet_run. etransitivity; [apply acts_quiet|]. etransitivity; [apply all_exit_quiet|apply acts_quiet].
  - vm_compute. reflexivity.
  - vm_compute. right. right. left.
Defined.

(** *** What the comments promise and the code does not *)

(** A worker that is retired between the two reads of a shutdown is on its list twice, and the replacement that took its slot is not on it. *)
Example shutdown_lists_a_worker_twice :
  let s := acts [(Go, 3%N)] (acts [(Spawns true, 2%N); (Go, 2%N)] (drop_unowned (shutdown
    (drop_unowned (attempt_act (Answers (Some 9%N)) 2%N (drop_unowned (send (fun _ => 0%N) ping (started (Some 4%N) 2)))))))) in
  exists id todo, jobs s !! id = Some (Stopping true todo [] ThenNothing) /\ ~ NoDup todo /\ workers s = [4%N; 1%N] /\ ~ (4%N ∈ todo).
Proof.
  cbn zeta. exists 3%N, [0%N; 1%N; 0%N]. split; [vm_compute; reflexivity|]. split; [|split; [vm_compute; reflexivity|set_solver]]. intros H. apply NoDup_cons in H as [H _]. apply H. right. left.
Qed.

(** A caller that asks for a new generation while one is being started joins it: the workers it gets were spawned before it asked. *)
Definition asked_before : Pool := acts [(Go, 2%N); (Spawns true, 2%N); (Spawns true, 2%N)] (drop_unowned (recycle (started None 2))).
Definition joined : Pool := acts [(Go, 2%N); (Go, 2%N); (Go, 2%N); (Go, 2%N); (Go, 2%N); (Go, 5%N)] (drop_unowned (recycle asked_before)).

Example a_joined_recycle_may_be_older : reached None 2 joined /\ jobs joined !! 5%N = Some Finished /\
  workers joined = [3%N; 4%N] /\ (forall w, w ∈ workers joined -> w ∈ running asked_before).
Proof.
  split; [|split; [vm_compute; reflexivity|split; [vm_compute; reflexivity|]]].
  - apply acts_reached. eapply reach_step; [|apply step_recycle]. apply acts_reached. eapply reach_step; [|apply step_recycle]. by apply reach_init.
  - assert (workers joined = [3%N; 4%N]) as -> by (vm_compute; reflexivity). intros w Hw. rewrite !elem_of_cons, elem_of_nil in Hw.
    destruct Hw as [->|[->|[]]]; vm_compute; reflexivity.
Qed.
