(* ===== verification/RateLimit.v ===== *)
(** The fixed-window rate limiter of the middleware stack
    (crates/ruvyxa_middleware/src/builtin.rs, [RateLimitLayer]).

    Instants are nanoseconds and monotone.  Each method takes the lock once, so
    a method is one step of the limiter's state.  blake3 is a parameter. *)
From S2P Require Import Prelude RustStr Order ClientIp.

(** ** Definitions *)

Definition MAX_TRACKED_RATE_LIMIT_KEYS : N := 10000.

Definition tracked {A} (state : gmap string A) : N := N.of_nat (size state).

Record RateBucket := mkBucket { tokens : N; last_refill : N }.

(** The configured limits, and the tracked buckets. *)
Record RateLimitLayer := mkLimiter { max_requests : N; window : N }.
Abbreviation RateState := (gmap string RateBucket).

Definition nanos (seconds : N) : N := seconds * 1000000000.

Record RateLimitConfig := mkRateConfig { rate_max_requests : N; window_secs : N; rate_key_by : string }.

(** [RateLimitLayer::from_config] *)
Definition limiter_from_config (config : RateLimitConfig) : RateLimitLayer :=
  mkLimiter (N.max (rate_max_requests config) 1) (nanos (N.max (window_secs config) 1)).

(** [state.iter().min_by_key(|bucket| bucket.last_refill)], the first in key order. *)
Definition oldest_key (state : RateState) : option string :=
  fst <$> head (sort_by (lex_cmp (by_key (fun p => last_refill p.2) N.compare) (by_key fst String.compare)) (map_to_list state)).

(** The eviction loop. *)
Fixpoint evict_oldest (fuel : nat) (state : RateState) : RateState :=
  if (MAX_TRACKED_RATE_LIMIT_KEYS <=? tracked state)%N then
    match fuel, oldest_key state with
    | S fuel, Some oldest => evict_oldest fuel (delete oldest state)
    | _, _ => state
    end
  else state.

(** The sweep under capacity pressure, one round of the loop for each key. *)
Definition make_room (l : RateLimitLayer) (now : N) (key : string) (state : RateState) : RateState :=
  if bool_decide (state !! key = None) && (MAX_TRACKED_RATE_LIMIT_KEYS <=? tracked state)%N then
    let state := filter (fun p => (now - last_refill p.2 < window l)%N) state in
    evict_oldest (S (size state)) state
  else state.

(** The bucket of the key, created full, refilled when its window is over, one token taken. *)
Definition take_token (l : RateLimitLayer) (now : N) (bucket : RateBucket) : bool * RateBucket :=
  let bucket := if (window l <=? now - last_refill bucket)%N then mkBucket (max_requests l) now else bucket in
  if (0 <? tokens bucket)%N then (true, mkBucket (tokens bucket - 1) (last_refill bucket)) else (false, bucket).

(** [allow] *)
Definition allow (l : RateLimitLayer) (now : N) (key : string) (state : RateState) : bool * RateState :=
  let state := make_room l now key state in
  let '(allowed, bucket) := take_token l now (default (mkBucket (max_requests l) now) (state !! key)) in
  (allowed, <[key := bucket]> state).

(** [retry_after_seconds] *)
Definition retry_after_seconds (l : RateLimitLayer) (now : N) (key : string) (state : RateState) : N :=
  match state !! key with
  | None => 1
  | Some bucket =>
      let remaining := (window l - (now - last_refill bucket))%N in
      N.max (remaining / 1000000000 + (if (0 <? remaining mod 1000000000)%N then 1 else 0)) 1
  end.

(** A run of requests, each at its instant and under its key. *)
Fixpoint admit_all (l : RateLimitLayer) (requests : list (N * string)) (state : RateState) : list bool * RateState :=
  match requests with
  | [] => ([], state)
  | (now, key) :: rest =>
      let '(allowed, state) := allow l now key state in
      let '(answers, state) := admit_all l rest state in (allowed :: answers, state)
  end.

(** The instants at which [key] was admitted. *)
Fixpoint admissions (key : string) (requests : list (N * string)) (answers : list bool) : list N :=
  match requests, answers with
  | (now, k) :: rest, allowed :: answers =>
      (if allowed && String.eqb k key then [now] else []) ++ admissions key rest answers
  | _, _ => []
  end.

Section keys.
Context (hash : string -> string) (show_ip : IpAddr -> string) (checks : bool) (parse_ip : string -> option IpAddr).

(** [bounded_key] *)
Definition bounded_key (identity : string) : string := hash identity.

(** [extract_key], [None] where [client_ip] panics *)
Definition extract_key (headers : HeaderMap) (peer : option IpAddr) (key_by : string) (trusted : list IpPrefix) : option string :=
  let by_peer :=
    match peer with
    | None => Some (bounded_key "unknown")
    | Some peer => ip ← client_ip parse_ip checks peer headers trusted; Some (bounded_key (show_ip ip))
    end in
  match strip_prefix "header:" key_by with
  | Some name =>
      match get_str headers (to_ascii_lowercase name) with
      | Some value => if is_empty_str value then by_peer else Some (bounded_key value)
      | None => by_peer
      end
  | None => by_peer
  end.
End keys.

(** ** Capacity *)

Lemma oldest_key_Some state : (0 < size state)%nat -> exists k, oldest_key state = Some k /\ is_Some (state !! k).
Proof.
  intros Hs. unfold oldest_key. set (cmp := lex_cmp _ _).
  pose proof (sort_by_perm (cmp := cmp) (map_to_list state)) as Hp.
  destruct (sort_by cmp (map_to_list state)) as [|[k b] l].
  - apply Permutation_nil in Hp. pose proof (length_map_to_list state) as Hl. rewrite Hp in Hl. cbn in Hl. lia.
  - exists k. split; [done|]. exists b. apply elem_of_map_to_list. rewrite <- Hp. by left.
Qed.

Lemma evict_oldest_size fuel state : size state < fuel -> (tracked (evict_oldest fuel state) < MAX_TRACKED_RATE_LIMIT_KEYS)%N.
Proof.
  revert state. induction fuel as [|fuel IH]; intros state Hf; [lia|]. cbn [evict_oldest].
  destruct (N.leb_spec MAX_TRACKED_RATE_LIMIT_KEYS (tracked state)) as [Hl|]; [|done].
  unfold MAX_TRACKED_RATE_LIMIT_KEYS, tracked in Hl. destruct (oldest_key_Some state) as (k & -> & Hk); [lia|].
  apply IH. destruct Hk as [b Hk]. pose proof (map_size_delete_Some k state (mk_is_Some _ _ Hk)) as Hd. lia.
Qed.

Lemma allow_size l now key state : (tracked state <= MAX_TRACKED_RATE_LIMIT_KEYS)%N ->
  (tracked (allow l now key state).2 <= MAX_TRACKED_RATE_LIMIT_KEYS)%N.
Proof.
  intros Hs. unfold allow. destruct (take_token _ _ _) as [allowed bucket]. cbn [snd]. unfold tracked in *. rewrite map_size_insert.
  unfold make_room. destruct (state !! key) as [b|] eqn:E.
  - rewrite bool_decide_eq_false_2 by done. cbn [andb]. by rewrite E.
  - rewrite bool_decide_eq_true_2 by done. cbn [andb]. destruct (N.leb_spec MAX_TRACKED_RATE_LIMIT_KEYS (tracked state)) as [Hl|Hl]; unfold tracked in *.
    + match goal with |- context [evict_oldest ?f ?s] => pose proof (evict_oldest_size f s ltac:(lia)) as He end. unfold tracked in He. case_match; unfold id; lia.
    + rewrite E. lia.
Qed.

(** ** One key's admissions *)

(** The instants of [l] in the window that starts at [t]. *)
Definition within (t w : N) (l : list N) : list N := filter (fun a => (t <= a < t + w)%N) l.

Lemma within_cons t w a l : within t w (a :: l) = (if bool_decide (t <= a < t + w)%N then [a] else []) ++ within t w l.
Proof. unfold within. rewrite filter_cons. by destruct (decide (t <= a < t + w)%N) as [H|H]; [rewrite bool_decide_eq_true_2|rewrite bool_decide_eq_false_2]. Qed.

(** Requests come in the order of their instants, none before [now]. *)
Fixpoint in_order (now : N) (requests : list (N * string)) : Prop :=
  match requests with [] => True | (t, _) :: rest => (now <= t)%N /\ in_order t rest end.

Lemma in_order_le requests : forall now now', (now' <= now)%N -> in_order now requests -> in_order now' requests.
Proof. destruct requests as [|[t k] rest]; intros now now' Hn; cbn; [done|]. intros [? ?]. split; [lia|done]. Qed.

Section limiter.
Context (l : RateLimitLayer) (window_pos : (0 < window l)%N).

Lemma take_token_spec now b allowed b' : take_token l now b = (allowed, b') -> (tokens b <= max_requests l)%N -> (last_refill b <= now)%N ->
  (tokens b' <= max_requests l)%N /\ (last_refill b' <= now)%N /\
  ((window l <= now - last_refill b)%N /\ last_refill b' = now /\
     (if allowed then tokens b' + 1 = max_requests l else tokens b' = 0 /\ max_requests l = 0)%N \/
   (now - last_refill b < window l)%N /\ last_refill b' = last_refill b /\
     (if allowed then tokens b' + 1 = tokens b else tokens b' = 0 /\ tokens b = 0)%N).
Proof.
  unfold take_token. intros H Ht Hr. destruct (N.leb_spec (window l) (now - last_refill b)); cbn [tokens last_refill] in H.
  - destruct (N.ltb_spec 0 (max_requests l)); injection H as <- <-; cbn [tokens last_refill]; (split_and!; [lia|lia|]; left; split_and!; lia).
  - destruct (N.ltb_spec 0 (tokens b)); injection H as <- <-; cbn [tokens last_refill]; (split_and!; [lia|lia|]; right; split_and!; lia).
Qed.

(** No bucket is evicted while the keys fit. *)
Definition keys_fit (K : gset string) (requests : list (N * string)) (state : RateState) : Prop :=
  (N.of_nat (size K) <= MAX_TRACKED_RATE_LIMIT_KEYS)%N /\ dom state ⊆ K /\ forall now key, (now, key) ∈ requests -> key ∈ K.

Lemma make_room_fits K now key rest state : keys_fit K ((now, key) :: rest) state -> make_room l now key state = state.
Proof.
  intros (Hk & Hd & Hr). unfold make_room. destruct (state !! key) as [b|] eqn:E; [by rewrite bool_decide_eq_false_2|].
  rewrite bool_decide_eq_true_2 by done. cbn [andb]. destruct (N.leb_spec MAX_TRACKED_RATE_LIMIT_KEYS (tracked state)) as [Hl|]; [|done].
  exfalso. assert ({[key]} ∪ dom state ⊆ K) as Hsub.
  { apply union_subseteq. split; [|done]. apply singleton_subseteq_l. apply (Hr now). by left. }
  apply subseteq_size in Hsub. rewrite size_union, size_singleton, size_dom in Hsub; [unfold tracked in *; lia|].
  apply disjoint_singleton_l. by rewrite not_elem_of_dom.
Qed.

(** One request, no bucket evicted: what the key's bucket and the others become. *)
Lemma allow_fits K now key rest state : keys_fit K ((now, key) :: rest) state ->
  exists allowed b', take_token l now (default (mkBucket (max_requests l) now) (state !! key)) = (allowed, b') /\
    allow l now key state = (allowed, <[key := b']> state) /\ keys_fit K rest (<[key := b']> state).
Proof.
  intros Hf. unfold allow. rewrite (make_room_fits _ _ _ _ _ Hf). destruct (take_token _ _ _) as [allowed b']. exists allowed, b'.
  split_and!; [done..|]. destruct Hf as (Hk & Hd & Hr). split_and!; [done| |].
  - rewrite dom_insert. apply union_subseteq. split; [|done]. apply singleton_subseteq_l, (Hr now). by left.
  - intros t k Hin. apply (Hr t). by right.
Qed.

Definition count (t : N) (key : string) (requests : list (N * string)) (state : RateState) : N :=
  N.of_nat (length (within t (window l) (admissions key requests (admit_all l requests state).1))).

(** The admissions of a run, one request at a time. *)
Lemma count_cons K t key now k rest state b : keys_fit K ((now, k) :: rest) state ->
  state !! key = Some b \/ state !! key = None /\ b = mkBucket (max_requests l) now ->
  exists state', keys_fit K rest state' /\
    if decide (k = key) then
      exists allowed b', take_token l now b = (allowed, b') /\ state' !! key = Some b' /\
        count t key ((now, k) :: rest) state =
          ((if allowed && bool_decide (t <= now < t + window l)%N then 1 else 0) + count t key rest state')%N
    else state' !! key = state !! key /\ count t key ((now, k) :: rest) state = count t key rest state'.
Proof.
  intros Hf Hb. destruct (allow_fits K now k rest state Hf) as (allowed & b' & Ht & Ha & Hf').
  exists (<[k := b']> state). split; [done|]. unfold count. cbn [admit_all]. rewrite Ha. destruct (admit_all l rest (<[k:=b']> state)) as [answers s'].
  cbn [fst admissions]. destruct (decide (k = key)) as [->|Hne].
  - assert (default (mkBucket (max_requests l) now) (state !! key) = b) as Hdef by (by destruct Hb as [-> | [-> ->]]).
    rewrite Hdef in Ht. exists allowed, b'. split_and!; [done|by rewrite lookup_insert_eq|]. rewrite String.eqb_refl.
    destruct allowed; cbn [andb]; [|by rewrite app_nil_l]. cbn [app]. rewrite within_cons, length_app.
    destruct (bool_decide (t <= now < t + window l)%N); cbn [length]; lia.
  - rewrite lookup_insert_ne by done. split; [done|]. apply String.eqb_neq in Hne. rewrite Hne, andb_false_r. done.
Qed.

(** Admissions happen at the instants of requests. *)
Lemma admissions_in_order key requests : forall state now, in_order now requests ->
  Forall (fun a => now <= a)%N (admissions key requests (admit_all l requests state).1).
Proof.
  induction requests as [|[s k] rest IH]; intros state now Ho; cbn [admit_all]; [constructor|]. destruct Ho as [Hs Ho].
  destruct (allow l s k state) as [allowed state']. specialize (IH state' now (in_order_le _ _ _ Hs Ho)).
  destruct (admit_all l rest state') as [answers s'']. cbn [fst admissions] in *. destruct (allowed && _); [|done]. by constructor.
Qed.

Lemma count_past t key requests state now : in_order now requests -> (t + window l <= now)%N -> count t key requests state = 0%N.
Proof.
  intros Ho Hn. unfold count, within. rewrite (proj2 (filter_nil_iff _ _)); [done|]. intros a Ha.
  pose proof (admissions_in_order key requests state now Ho) as Hf. rewrite Forall_forall in Hf. specialize (Hf a Ha). lia.
Qed.

(** A bucket refilled inside the window admits no more in it than its tokens. *)
Lemma count_refilled K t key requests : forall state now b, in_order now requests -> keys_fit K requests state ->
  state !! key = Some b -> (tokens b <= max_requests l)%N -> (t <= last_refill b <= now)%N -> (count t key requests state <= tokens b)%N.
Proof.
  induction requests as [|[s k] rest IH]; intros state now b Ho Hf Hb Ht Hr; [unfold count, within; cbn; lia|].
  destruct Ho as [Hs Ho]. destruct (count_cons K t key s k rest state b Hf (or_introl Hb)) as (state' & Hf' & H).
  destruct (decide (k = key)) as [->|Hne].
  - destruct H as (allowed & b' & Htake & Hb' & ->). apply take_token_spec in Htake as (Ht' & Hr' & Hc); [|done|lia].
    destruct Hc as [(Hw & Hl & Hc)|(Hw & Hl & Hc)].
    + rewrite (count_past t key rest state' s Ho) by lia. rewrite bool_decide_eq_false_2 by lia. rewrite andb_false_r. lia.
    + pose proof (IH state' s b' Ho Hf' Hb' Ht' ltac:(lia)). destruct allowed; cbn [andb]; [|lia]. destruct (bool_decide _); lia.
  - destruct H as [Hb' ->]. eapply IH; [done..|by rewrite Hb'|done|lia].
Qed.

(** From the window's start on, an older bucket admits its tokens and a refill. *)
Lemma count_started K t key requests : forall state now b, in_order now requests -> (t <= now)%N -> keys_fit K requests state ->
  state !! key = Some b -> (tokens b <= max_requests l)%N -> (last_refill b <= now)%N ->
  (count t key requests state <= tokens b + max_requests l)%N.
Proof.
  induction requests as [|[s k] rest IH]; intros state now b Ho Hn Hf Hb Ht Hr; [unfold count, within; cbn; lia|].
  destruct Ho as [Hs Ho]. destruct (count_cons K t key s k rest state b Hf (or_introl Hb)) as (state' & Hf' & H).
  destruct (decide (k = key)) as [->|Hne].
  - destruct H as (allowed & b' & Htake & Hb' & ->). apply take_token_spec in Htake as (Ht' & Hr' & Hc); [|done|lia].
    destruct Hc as [(Hw & Hl & Hc)|(Hw & Hl & Hc)].
    + pose proof (count_refilled K t key rest state' s b' Ho Hf' Hb' Ht' ltac:(lia)). destruct allowed; cbn [andb]; [|lia].
      destruct (bool_decide _); lia.
    + pose proof (IH state' s b' Ho ltac:(lia) Hf' Hb' Ht' ltac:(lia)). destruct allowed; cbn [andb]; [|lia]. destruct (bool_decide _); lia.
  - destruct H as [Hb' ->]. eapply IH; [done|lia|done|by rewrite Hb'|done|lia].
Qed.

Definition bucket_ok (now : N) (b : RateBucket) : Prop := (tokens b <= max_requests l)%N /\ (last_refill b <= now)%N.

Lemma count_bound K t key requests : forall state now, in_order now requests -> keys_fit K requests state ->
  (forall b, state !! key = Some b -> bucket_ok now b) -> (count t key requests state <= 2 * max_requests l)%N.
Proof.
  induction requests as [|[s k] rest IH]; intros state now Ho Hf Hb; [unfold count, within; cbn; lia|]. destruct Ho as [Hs Ho].
  set (b := default (mkBucket (max_requests l) s) (state !! key)).
  assert (bucket_ok s b) as [Ht Hr].
  { unfold b. destruct (state !! key) as [b'|] eqn:E; cbn; [|split; cbn; lia]. destruct (Hb b' eq_refl). split; [done|lia]. }
  assert (state !! key = Some b \/ state !! key = None /\ b = mkBucket (max_requests l) s) as Hcase by (unfold b; destruct (state !! key); auto).
  destruct (count_cons K t key s k rest state b Hf Hcase) as (state' & Hf' & H). destruct (decide (k = key)) as [->|Hne].
  - destruct H as (allowed & b' & Htake & Hb' & ->). apply take_token_spec in Htake as (Ht' & Hr' & Hc); [|done|lia].
    destruct (N.lt_ge_cases s t) as [Hst|Hst].
    + rewrite bool_decide_eq_false_2 by lia. rewrite andb_false_r. apply (IH state' s); [done..|]. rewrite Hb'. intros ? [= <-]. by split.
    + destruct Hc as [(Hw & Hl & Hc)|(Hw & Hl & Hc)].
      * pose proof (count_refilled K t key rest state' s b' Ho Hf' Hb' Ht' ltac:(lia)). destruct allowed; cbn [andb]; [|lia]. destruct (bool_decide _); lia.
      * pose proof (count_started K t key rest state' s b' Ho Hst Hf' Hb' Ht' Hr'). destruct allowed; cbn [andb]; [|lia]. destruct (bool_decide _); lia.
  - destruct H as [Hb' ->]. apply (IH state' s); [done..|]. rewrite Hb'. intros b0 E. destruct (Hb b0 E). split; [done|lia].
Qed.

(** ** Refusals *)

(** A bucket remembers at least the tokens it gave out since its refill. *)
Definition remembers (now : N) (history : list N) (b : RateBucket) : Prop :=
  bucket_ok now b /\ (max_requests l <= tokens b + N.of_nat (length (filter (fun a => last_refill b <= a)%N history)))%N.

Lemma filter_snoc_length (f : N -> Prop) (dec : forall x, Decision (f x)) l1 a :
  length (filter f (l1 ++ [a])) = length (filter f l1) + (if bool_decide (f a) then 1 else 0).
Proof.
  rewrite filter_app, length_app, filter_cons.
  destruct (decide (f a)); [rewrite bool_decide_eq_true_2 by done|rewrite bool_decide_eq_false_2 by done]; cbn; done.
Qed.

Lemma filter_length_mono (f g : N -> Prop) (fd : forall x, Decision (f x)) (gd : forall x, Decision (g x)) l1 :
  (forall x, f x -> g x) -> length (filter f l1) <= length (filter g l1).
Proof.
  intros Hfg. induction l1 as [|a l1 IH]; [done|]. rewrite !filter_cons. destruct (decide (f a)), (decide (g a)); cbn [length]; try lia.
  exfalso. auto.
Qed.

Lemma take_token_remembers now b allowed b' history past : take_token l now b = (allowed, b') -> (past <= now)%N -> remembers past history b ->
  remembers now (history ++ (if allowed then [now] else [])) b' /\
  (allowed = false -> (max_requests l <= N.of_nat (length (filter (fun a => now < a + window l)%N history)))%N).
Proof.
  intros H Hp [[Ht Hr] Hm]. apply take_token_spec in H as (Ht' & Hr' & Hc); [|done|lia]. unfold remembers. destruct allowed.
  - rewrite filter_snoc_length. rewrite bool_decide_eq_true_2 by lia. split; [|done]. split; [by split|].
    destruct Hc as [(Hw & Hl & Hc)|(Hw & Hl & Hc)]; [lia|]. rewrite Hl in *. lia.
  - rewrite app_nil_r. destruct Hc as [(Hw & Hl & Hc)|(Hw & Hl & Hc)]; [split; [split; [by split|lia]|intros _; lia]|].
    split; [split; [by split|]; rewrite Hl; lia|]. intros _. destruct Hc as [_ Hc].
    pose proof (filter_length_mono (fun a => last_refill b <= a)%N (fun a => now < a + window l)%N _ _ history ltac:(cbn beta; intros; lia)). lia.
Qed.

(** Every tracked bucket remembers its key's admissions. *)
Definition all_remember (now : N) (history : string -> list N) (state : RateState) : Prop :=
  forall key b, state !! key = Some b -> remembers now (history key) b.

Lemma evict_oldest_sub fuel state key b : evict_oldest fuel state !! key = Some b -> state !! key = Some b.
Proof.
  revert state. induction fuel as [|fuel IH]; intros state; cbn [evict_oldest]; destruct (_ <=? _)%N; try done.
  destruct (oldest_key state); [|done]. intros H. apply IH, lookup_delete_Some in H. tauto.
Qed.

Lemma make_room_sub now key state k b : make_room l now key state !! k = Some b -> state !! k = Some b.
Proof.
  unfold make_room. destruct (_ && _); [|done]. intros H. apply evict_oldest_sub, map_lookup_filter_Some in H. tauto.
Qed.

Lemma allow_remembers past now key history state : (past <= now)%N -> all_remember past history state ->
  let '(allowed, state') := allow l now key state in
  all_remember now (fun k => history k ++ (if allowed && String.eqb key k then [now] else [])) state' /\
  (allowed = false -> (max_requests l <= N.of_nat (length (filter (fun a => now < a + window l)%N (history key))))%N).
Proof.
  intros Hp Hall. unfold allow. destruct (take_token l now _) as [allowed b'] eqn:E.
  assert (remembers past (history key) (default (mkBucket (max_requests l) now) (make_room l now key state !! key)) \/
    remembers now (history key) (mkBucket (max_requests l) now) /\ make_room l now key state !! key = None) as Hrem.
  { destruct (make_room l now key state !! key) as [b|] eqn:Eb; [left; by eapply Hall, make_room_sub|].
    right. split; [|done]. split; [split; cbn; lia|]. cbn. lia. }
  assert (exists p, (p <= now)%N /\ remembers p (history key) (default (mkBucket (max_requests l) now) (make_room l now key state !! key)))
    as (p & Hpn & Hr).
  { destruct Hrem as [H|[H ->]]; [by exists past|exists now; by split]. }
  destruct (take_token_remembers _ _ _ _ _ _ E Hpn Hr) as [H1 H2]. split; [|done].
  intros k b. rewrite lookup_insert_Some. intros [[<- <-]|[Hne Hb]]; [by rewrite String.eqb_refl, andb_true_r|].
  apply String.eqb_neq in Hne. rewrite Hne, andb_false_r, app_nil_r. apply make_room_sub, Hall in Hb as [[? ?] ?].
  split; [split; [done|lia]|done].
Qed.

Lemma refused_after_limit requests : forall past history state i now key, in_order past requests -> all_remember past history state ->
  requests !! i = Some (now, key) -> (admit_all l requests state).1 !! i = Some false ->
  (max_requests l <= N.of_nat (length (filter (fun a => now < a + window l)%N
     (history key ++ admissions key (take i requests) (take i (admit_all l requests state).1)))))%N.
Proof.
  induction requests as [|[s k] rest IH]; intros past history state i now key Ho Hall Hi Ha; [by destruct i|]. destruct Ho as [Hs Ho].
  cbn [admit_all] in *. pose proof (allow_remembers past s k history state Hs Hall) as H. destruct (allow l s k state) as [allowed state'].
  destruct H as [Hall' Href]. specialize (IH s (fun k0 => history k0 ++ (if allowed && String.eqb k k0 then [s] else [])) state').
  destruct (admit_all l rest state') as [answers s'']. cbn [fst] in *. destruct i as [|i]; cbn [lookup list_lookup] in Hi, Ha.
  - injection Hi as -> ->. injection Ha as ->. cbn. rewrite app_nil_r. by apply Href.
  - specialize (IH i now key Ho Hall' Hi Ha). cbn [take admissions]. by rewrite app_assoc.
Qed.
End limiter.

(** ** Properties *)

(** C16: the limiter enforces the configured rate, and only that.  Requests come
    in the order of time.  While the clients fit in the tracked buckets, no
    client is admitted more than twice its allowance in any window of time,
    wherever the window starts.  Whether they fit or not, a client is refused
    only after its whole allowance was spent within the window before, and the
    tracked buckets never outgrow their limit, so that no flood of clients makes
    the limiter refuse a stranger or grow without bound. *)
Theorem rate_limit_enforces_rate config requests : let l := limiter_from_config config in in_order 0 requests ->
  let '(answers, state) := admit_all l requests ∅ in
  ((N.of_nat (size (list_to_set requests.*2 : gset string)) <= MAX_TRACKED_RATE_LIMIT_KEYS)%N ->
     forall key t, (N.of_nat (length (within t (window l) (admissions key requests answers))) <= 2 * max_requests l)%N) /\
  (forall i now key, requests !! i = Some (now, key) -> answers !! i = Some false ->
     (max_requests l <= N.of_nat (length (filter (fun a => now < a + window l)%N (admissions key (take i requests) (take i answers)))))%N) /\
  (tracked state <= MAX_TRACKED_RATE_LIMIT_KEYS)%N.
Proof.
  intros l Ho. assert (0 < window l)%N as Hw by (unfold l, limiter_from_config, nanos; cbn; lia).
  pose proof (fun K t key => count_bound l Hw K t key requests ∅ 0 Ho) as Hc.
  pose proof (fun i now key => refused_after_limit l Hw requests 0%N (fun _ => []) ∅ i now key Ho) as Hr.
  assert (forall reqs state, (tracked state <= MAX_TRACKED_RATE_LIMIT_KEYS)%N -> (tracked (admit_all l reqs state).2 <= MAX_TRACKED_RATE_LIMIT_KEYS)%N) as Hsize.
  { clear. induction reqs as [|[s k] rest IH]; intros state Hs; [done|]. cbn [admit_all]. pose proof (allow_size l s k state Hs) as Ha.
    destruct (allow l s k state) as [allowed state']. specialize (IH state' Ha). by destruct (admit_all l rest state'). }
  specialize (Hsize requests ∅ ltac:(unfold tracked; rewrite map_size_empty; unfold MAX_TRACKED_RATE_LIMIT_KEYS; lia)).
  unfold count in Hc. destruct (admit_all l requests ∅) as [answers state]. cbn [fst snd] in *. split_and!; [|intros i now key Hi Ha|done].
  - intros Hk key t. apply (Hc (list_to_set requests.*2)).
    + split_and!; [done|by rewrite dom_empty_L; apply empty_subseteq|]. intros s k Hin. apply elem_of_list_to_set, list_elem_of_fmap. by exists (s, k).
    + intros b Hb. by rewrite lookup_empty in Hb.
  - apply (Hr i now key); [|done|done]. intros k b Hb. by rewrite lookup_empty in Hb.
Qed.

Lemma rate_limit_witness :
  let requests := [(0, "a"); (1000000000, "a"); (1500000000, "a"); (2000000000, "b"); (61000000000, "a")]%N in
  let l := limiter_from_config (mkRateConfig 2 60 "ip") in
  (admit_all l requests ∅).1 = [true; true; false; true; true] /\
  (2 <= N.of_nat (length (filter (fun a => 1500000000 < a + window l)%N (admissions "a" (take 2 requests) (take 2 (admit_all l requests ∅).1)))))%N.
Proof.
  intros requests l. assert (in_order 0 requests) as Ho by (cbn; repeat split; lia).
  pose proof (rate_limit_enforces_rate (mkRateConfig 2 60 "ip") requests Ho) as H.
  assert ((admit_all l requests ∅).1 = [true; true; false; true; true]) as Ha by (vm_compute; reflexivity). split; [exact Ha|].
  fold l in H. destruct (admit_all l requests ∅) as [answers state]. cbn [fst] in *. destruct H as (_ & H & _).
  apply (H 2 1500000000%N "a"); [reflexivity|by rewrite Ha].
Defined.
