(* ===== verification/HttpDate.v ===== *)
(** HTTP dates (crates/ruvyxa_dev_server/src/static_assets.rs): the civil date
    of an epoch second and back, the text of an IMF-fixdate and its parser, and
    the date half of a conditional request.

    A [SystemTime] is its nanoseconds since the epoch, negative before it.  The
    [as i64] casts are exact: a [u64] of seconds has fewer than 2^63 days.  A
    header value is read only when it is visible ASCII, so its [trim] is the
    ASCII one and its slices cut no character. *)
From S2P Require Import Prelude RustStr Manifest ClientIp.

(** ** Definitions *)

Abbreviation SystemTime := Z (only parsing).

(** [epoch_seconds] *)
Definition epoch_seconds (time : SystemTime) : option Z :=
  if (time <? 0)%Z then None else Some (time / 1000000000)%Z.

#[local] Open Scope Z_scope.
#[local] Ltac Zify.zify_post_hook ::= Z.to_euclidean_division_equations.

Record CivilTime := mkCivil {
  ct_year : Z; ct_month : Z; ct_day : Z; ct_weekday : Z;
  ct_hour : Z; ct_minute : Z; ct_second : Z;
}.

(** The position in a 400-year era: (year of the era, March-based month, day). *)
Definition era_date (day_of_era : Z) : Z * Z * Z :=
  let year_of_era := (day_of_era - day_of_era / 1460 + day_of_era / 36524 - day_of_era / 146096) / 365 in
  let day_of_year := day_of_era - (365 * year_of_era + year_of_era / 4 - year_of_era / 100) in
  let march_month := (5 * day_of_year + 2) / 153 in
  let day := day_of_year - (153 * march_month + 2) / 5 + 1 in
  (year_of_era, march_month, day).

(** [civil_from_epoch] *)
Definition civil_from_epoch (seconds : Z) : CivilTime :=
  let days := seconds / 86400 in
  let time := seconds mod 86400 in
  let weekday := (days + 4) mod 7 in
  let shifted := days + 719468 in
  let era := shifted / 146097 in
  let '(year_of_era, march_month, day) := era_date (shifted mod 146097) in
  let month := if (march_month <? 10)%Z then march_month + 3 else march_month - 9 in
  let year := year_of_era + era * 400 + Z.b2z (month <=? 2)%Z in
  mkCivil year month day weekday (time / 3600) (time / 60 mod 60) (time mod 60).

(** The position in the era of a date, the inverse of [era_date]. *)
Definition day_of_era (year_of_era march_month day : Z) : Z :=
  let day_of_year := (153 * march_month + 2) / 5 + day - 1 in
  year_of_era * 365 + year_of_era / 4 - year_of_era / 100 + day_of_year.

(** [epoch_days_from_civil] *)
Definition epoch_days_from_civil (year month day : Z) : Z :=
  let year := year - Z.b2z (month <=? 2)%Z in
  let era := year / 400 in
  let march_month := if (2 <? month)%Z then month - 3 else month + 9 in
  era * 146097 + day_of_era (year mod 400) march_month day - 719468.

Definition HTTP_WEEKDAYS : list string := ["Sun"; "Mon"; "Tue"; "Wed"; "Thu"; "Fri"; "Sat"].
Definition HTTP_MONTHS : list string :=
  ["Jan"; "Feb"; "Mar"; "Apr"; "May"; "Jun"; "Jul"; "Aug"; "Sep"; "Oct"; "Nov"; "Dec"].

(** [{n:0width}] *)
Definition pad (width : nat) (n : Z) : string :=
  let text := show_N (Z.to_N n) in repeat_str (width - String.length text) "0" +:+ text.

(** The text [http_date] formats. *)
Definition show_civil (c : CivilTime) : string :=
  nth (Z.to_nat (ct_weekday c)) HTTP_WEEKDAYS "" +:+ ", " +:+ pad 2 (ct_day c) +:+ " " +:+
  nth (Z.to_nat (ct_month c - 1)) HTTP_MONTHS "" +:+ " " +:+ pad 4 (ct_year c) +:+ " " +:+
  pad 2 (ct_hour c) +:+ ":" +:+ pad 2 (ct_minute c) +:+ ":" +:+ pad 2 (ct_second c) +:+ " GMT".

(** [http_date] *)
Definition http_date (time : SystemTime) : option string :=
  seconds ← epoch_seconds time; Some (show_civil (civil_from_epoch seconds)).

(** The [number] closure of [parse_http_date]. *)
Definition number (text : string) (first count : nat) : option Z :=
  let digits := String.substring first count text in
  if all_bytes is_digit digits then Z.of_N <$> parse_uint u64_max digits else None.

(** [HTTP_MONTHS.iter().position(|name| name == text)] *)
Fixpoint position_of (text : string) (names : list string) : option Z :=
  match names with
  | [] => None
  | name :: rest => if String.eqb name text then Some 0%Z else Z.succ <$> position_of text rest
  end.

(** [parse_http_date] *)
Definition parse_http_date (text : string) : option Z :=
  let text := trim text in
  if negb (String.length text =? 29)%nat || negb (ends_with " GMT" text) then None else
  if negb (existsb (String.eqb (String.substring 0 3 text)) HTTP_WEEKDAYS)
     || negb (String.eqb (String.substring 3 2 text) ", ") then None else
  day ← number text 5 2;
  month ← Z.succ <$> position_of (String.substring 8 3 text) HTTP_MONTHS;
  year ← number text 12 4;
  hour ← number text 17 2;
  minute ← number text 20 2;
  second ← number text 23 2;
  if negb ((1 <=? day) && (day <=? 31))%Z || (23 <? hour)%Z || (59 <? minute)%Z || (60 <? second)%Z then None else
  let days := epoch_days_from_civil year month day in
  if (days <? 0)%Z then None else Some (days * 86400 + hour * 3600 + minute * 60 + second)%Z.

(** [not_modified_since] *)
Definition not_modified_since (headers : option HeaderMap) (modified : SystemTime) : bool :=
  match headers ≫= fun h => get_str h "if-modified-since" with
  | None => false
  | Some value =>
      match parse_http_date value, epoch_seconds modified with
      | Some since, Some modified => (modified <=? since)%Z
      | _, _ => false
      end
  end.

(** The first second of the year 10000, which four digits do not hold. *)
Definition year_10000 : Z := 253402300800.

(** ** Dates *)

(** The day of the era on which a year of it starts; the last one closes the era. *)
Definition year_start (yoe : Z) : Z := if yoe =? 400 then 146097 else yoe * 365 + yoe / 4 - yoe / 100.
(** The dividend [civil_from_epoch] finds the year with. *)
Definition year_dividend (doe : Z) : Z := doe - doe / 1460 + doe / 36524 - doe / 146096.

Definition year_ok (yoe : Z) : bool :=
  (year_dividend (year_start yoe) / 365 =? yoe) && (year_dividend (year_start (yoe + 1) - 1) / 365 =? yoe)
    && (year_start yoe <? year_start (yoe + 1)) && (year_start (yoe + 1) - year_start yoe <=? 366).
Definition day_ok (doy : Z) : bool :=
  let mp := (5 * doy + 2) / 153 in
  let d := doy - (153 * mp + 2) / 5 + 1 in (0 <=? mp) && (mp <? 12) && (1 <=? d) && (d <=? 31).

Lemma years_all : forallb (fun n => year_ok (Z.of_nat n)) (seq 0 400) = true.
Proof. vm_compute. reflexivity. Qed.
Lemma days_all : forallb (fun n => day_ok (Z.of_nat n)) (seq 0 366) = true.
Proof. vm_compute. reflexivity. Qed.

(** A check that holds of the first [count] numbers. *)
Lemma check_all (f : Z -> bool) count n : forallb (fun n => f (Z.of_nat n)) (seq 0 count) = true ->
  0 <= n < Z.of_nat count -> f n = true.
Proof.
  intros H Hn. rewrite forallb_forall in H. specialize (H (Z.to_nat n)). rewrite Z2Nat.id in H by lia. apply H, in_seq. lia.
Qed.

Lemma year_dividend_mono a b : 0 <= a <= b -> b < 146097 -> year_dividend a <= year_dividend b \/ (b = 146096 /\ year_dividend a <= year_dividend b + 1).
Proof.
  intros H Hb. unfold year_dividend.
  assert (b / 1460 <= a / 1460 + (b - a)) by (rewrite <- Z.div_add by lia; apply Z.div_le_mono; lia).
  assert (a / 36524 <= b / 36524) by (apply Z.div_le_mono; lia).
  destruct (Z.eq_dec b 146096) as [->|]; [right|left].
  - change (146096 / 146096) with 1. split; [done|]. assert (0 <= a / 146096) by (apply Z.div_pos; lia). lia.
  - rewrite (Z.div_small a 146096), (Z.div_small b 146096) by lia. lia.
Qed.

Lemma year_start_spec y : 0 <= y < 400 -> year_start y = y * 365 + y / 4 - y / 100 /\ 0 <= year_start y <= 145731.
Proof. intros Hy. unfold year_start. destruct (Z.eqb_spec y 400); lia. Qed.
Lemma year_start_end y : 0 <= y < 400 -> year_start (y + 1) <= 146097.
Proof. intros Hy. destruct (Z.eq_dec y 399) as [->|]; [done|]. pose proof (year_start_spec (y + 1)). lia. Qed.

(** Every day of the era is in one of its years. *)
Lemma day_in_year doe (n : nat) : (n <= 400)%nat -> 0 <= doe < year_start (Z.of_nat n) ->
  exists yoe, 0 <= yoe < Z.of_nat n /\ year_start yoe <= doe < year_start (yoe + 1).
Proof.
  induction n as [|n IH]; intros Hn Hd; [change (year_start (Z.of_nat 0)) with 0 in Hd; lia|].
  destruct (Z.lt_ge_cases doe (year_start (Z.of_nat n))) as [Hl|Hg].
  - destruct IH as (y & ? & ?); [lia|lia|]. exists y. lia.
  - exists (Z.of_nat n). rewrite Nat2Z.inj_succ in *. unfold Z.succ in *. lia.
Qed.

Lemma era_date_inverse doe yoe mp d : 0 <= doe < 146097 -> era_date doe = (yoe, mp, d) ->
  0 <= yoe < 400 /\ 0 <= mp < 12 /\ 1 <= d <= 31 /\ day_of_era yoe mp d = doe.
Proof.
  intros Hd E. destruct (day_in_year doe 400) as (y & Hy & Hdy); [done|change (year_start (Z.of_nat 400)) with 146097; lia|].
  pose proof (check_all year_ok 400 y years_all ltac:(lia)) as H. unfold year_ok in H. split_andb.
  rewrite ?Z.eqb_eq, ?Z.ltb_lt, ?Z.leb_le in *.
  change (Z.of_nat 400) with 400 in Hy. pose proof (year_start_end y Hy) as Hend. destruct (year_start_spec y Hy) as [Es Hs].
  assert (year_dividend doe / 365 = y) as Hyoe.
  { destruct (year_dividend_mono (year_start y) doe) as [H3|[-> H3]]; [lia..| |].
    - destruct (year_dividend_mono doe (year_start (y + 1) - 1)) as [H4|[H4 H5]]; [lia..| |].
      + lia.
      + destruct (Z.eq_dec doe 146096) as [->|]; [by rewrite <- H4|].
        destruct (year_dividend_mono doe 146095) as [H6|[? _]]; [lia..| |lia].
        change (year_dividend 146095) with 145998 in H6. lia.
    - by replace 146096 with (year_start (y + 1) - 1) by lia. }
  unfold era_date in E. fold (year_dividend doe) in E. rewrite Hyoe in E. injection E as <- <- <-.
  pose proof (check_all day_ok 366 (doe - year_start y) days_all ltac:(lia)) as H'. unfold day_ok in H'. rewrite Es in H'. split_andb.
  rewrite ?Z.ltb_lt, ?Z.leb_le in *. unfold day_of_era. lia.
Qed.

(** The calendar of a second, and that the date leads back to the day. *)
Lemma civil_from_epoch_spec seconds : (0 <= seconds)%Z -> let c := civil_from_epoch seconds in
  (1 <= ct_month c <= 12)%Z /\ (1 <= ct_day c <= 31)%Z /\ (0 <= ct_weekday c < 7)%Z /\
  (0 <= ct_hour c < 24)%Z /\ (0 <= ct_minute c < 60)%Z /\ (0 <= ct_second c < 60)%Z /\
  epoch_days_from_civil (ct_year c) (ct_month c) (ct_day c) = (seconds / 86400)%Z /\
  (seconds = seconds / 86400 * 86400 + ct_hour c * 3600 + ct_minute c * 60 + ct_second c)%Z.
Proof.
  intros Hs. cbn zeta. unfold civil_from_epoch.
  set (days := (seconds / 86400)%Z). set (time := (seconds mod 86400)%Z). set (shifted := (days + 719468)%Z).
  assert (0 <= time < 86400)%Z as Ht by (unfold time; lia).
  destruct (era_date (shifted mod 146097)) as [[yoe mp] d] eqn:E. cbn [ct_year ct_month ct_day ct_weekday ct_hour ct_minute ct_second].
  assert (0 <= shifted mod 146097 < 146097) as Hm by (by apply Z.mod_pos_bound).
  destruct (era_date_inverse _ _ _ _ Hm E) as (Hy & Hmp & Hd & Hdoe).
  assert (seconds = days * 86400 + time)%Z as Hsec by (unfold days, time; lia).
  split_and!; try lia.
  - destruct (Z.ltb_spec mp 10); lia.
  - destruct (Z.ltb_spec mp 10); lia.
  - unfold epoch_days_from_civil.
    set (m := if (mp <? 10)%Z then (mp + 3)%Z else (mp - 9)%Z).
    assert ((if (2 <? m)%Z then m - 3 else m + 9) = mp)%Z as ->.
    { unfold m. destruct (Z.ltb_spec mp 10), (Z.ltb_spec 2 (mp + 3)), (Z.ltb_spec 2 (mp - 9)); lia. }
    replace (yoe + shifted / 146097 * 400 + Z.b2z (m <=? 2) - Z.b2z (m <=? 2))%Z with (yoe + shifted / 146097 * 400)%Z by lia.
    rewrite Z.div_add, Z.mod_add by lia. rewrite (Z.div_small yoe), (Z.mod_small yoe) by lia. rewrite Hdoe.
    unfold shifted. lia.
Qed.

(** A date in its era: which years and days of the era there are. *)
Lemma epoch_days_shape y m d : 1 <= m <= 12 -> 1 <= d <= 31 -> exists e r doy,
  y - Z.b2z (m <=? 2) = e * 400 + r /\ 0 <= r < 400 /\ epoch_days_from_civil y m d = e * 146097 + (r * 365 + r / 4 - r / 100) + doy - 719468 /\
  (if m <=? 2 then 306 <= doy <= 367 else 0 <= doy <= 305).
Proof.
  intros Hm Hd. unfold epoch_days_from_civil, day_of_era. set (y' := y - Z.b2z (m <=? 2)).
  exists (y' / 400), (y' mod 400), ((153 * (if 2 <? m then m - 3 else m + 9) + 2) / 5 + d - 1).
  split_and!; [lia|lia|lia|lia|]. destruct (Z.leb_spec m 2), (Z.ltb_spec 2 m); lia.
Qed.

(** A date is of the year 10000 or later exactly from that year's first day on. *)
Lemma civil_year_bound y m d : 1 <= m <= 12 -> 1 <= d <= 31 ->
  y < 10000 <-> epoch_days_from_civil y m d < year_10000 / 86400.
Proof.
  intros Hm Hd. change (year_10000 / 86400) with 2932897. destruct (epoch_days_shape y m d Hm Hd) as (e & r & doy & Hy & Hr & -> & Hdoy).
  assert (0 <= r * 365 + r / 4 - r / 100 <= 145731) as Hrr by lia. destruct (Z.leb_spec m 2); cbn [Z.b2z] in Hy.
  all: destruct (Z.lt_trichotomy e 24) as [He|[->|He]]; [lia| |lia].
  all: destruct (Z.eq_dec r 399) as [->|]; [change (399 * 365 + 399 / 4 - 399 / 100) with 145731; lia|].
  all: assert (r * 365 + r / 4 - r / 100 <= 145366) by lia; lia.
Qed.

Lemma civil_year_low y m d : 1 <= m <= 12 -> 1 <= d <= 31 -> 0 <= epoch_days_from_civil y m d -> 1970 <= y.
Proof.
  intros Hm Hd. destruct (epoch_days_shape y m d Hm Hd) as (e & r & doy & Hy & Hr & -> & Hdoy). intros H.
  assert (0 <= r * 365 + r / 4 - r / 100 <= 145731) as Hrr by lia. destruct (Z.leb_spec m 2); cbn [Z.b2z] in Hy.
  all: destruct (Z.lt_trichotomy e 4) as [He|[->|He]]; [lia| |lia].
  all: destruct (Z.le_gt_cases r 369) as [Hl|]; [|lia].
  all: destruct (Z.eq_dec r 369) as [->|]; [change (369 * 365 + 369 / 4 - 369 / 100) with 134774 in H; lia|].
  all: assert (r * 365 + r / 4 - r / 100 <= 134409) by lia; lia.
Qed.

(** ** Text *)

(** A padded number is its digits, and [number] reads them back. *)
Definition padded_ok (width : nat) (n : Z) : bool :=
  (String.length (pad width n) =? width)%nat && all_bytes is_digit (pad width n)
    && bool_decide (parse_uint u64_max (pad width n) = Some (Z.to_N n)).

Lemma two_all : forallb (fun n => padded_ok 2 (Z.of_nat n)) (seq 0 100) = true.
Proof. vm_compute. reflexivity. Qed.

Lemma padded width count n : forallb (fun n => padded_ok width (Z.of_nat n)) (seq 0 count) = true -> 0 <= n < Z.of_nat count ->
  String.length (pad width n) = width /\ all_bytes is_digit (pad width n) = true /\ parse_uint u64_max (pad width n) = Some (Z.to_N n).
Proof.
  intros H Hn. apply (check_all (padded_ok width)) in Hn; [|done]. unfold padded_ok in Hn. split_andb.
  split_and!; [by apply Nat.eqb_eq|done|by eapply bool_decide_eq_true_1].
Qed.

(** The two digits of a field. *)
Lemma padded_two n : 0 <= n < 100 -> exists a b, pad 2 n = String a (String b "") /\
  number (pad 2 n) 0 2 = Some n.
Proof.
  intros Hn. destruct (padded 2 100 n two_all ltac:(lia)) as (Hl & Hd & Hp). destruct (pad 2 n) as [|a [|b [|]]] eqn:E; try done.
  exists a, b. split; [done|]. unfold number. cbn [String.substring]. rewrite Hd, Hp. cbn. f_equal. lia.
Qed.
(** A digit's byte. *)
Definition digit_char (n : N) : ascii := ascii_of_nat (48 + N.to_nat n).
Lemma digits_all : forallb (fun n => is_digit (digit_char (Z.to_N (Z.of_nat n))) &&
  (N_of_ascii (digit_char (Z.to_N (Z.of_nat n))) - 48 =? Z.to_N (Z.of_nat n))%N) (seq 0 10) = true.
Proof. vm_compute. reflexivity. Qed.

Lemma digit_char_spec n : (n < 10)%N -> is_digit (digit_char n) = true /\ (N_of_ascii (digit_char n) - 48 = n)%N.
Proof.
  intros Hn. pose proof (check_all (fun z => is_digit (digit_char (Z.to_N z)) && (N_of_ascii (digit_char (Z.to_N z)) - 48 =? Z.to_N z)%N)
    10 (Z.of_N n) digits_all ltac:(lia)) as H. cbn beta in H. rewrite N2Z.id in H. apply andb_true_iff in H as [H1 H2]. split; [done|by apply N.eqb_eq].
Qed.

Lemma padded_four n : 1000 <= n < 10000 -> exists a b c d, pad 4 n = String a (String b (String c (String d ""))) /\
  number (pad 4 n) 0 4 = Some n.
Proof.
  intros Hn. assert (exists m, Z.of_N m = n) as [m <-] by (exists (Z.to_N n); lia). assert (1000 <= m < 10000)%N as Hm by lia.
  assert (9 <= N.log2 m)%N as Hlog by (change 9%N with (N.log2 1000); apply N.log2_le_mono; lia).
  assert (pad 4 (Z.of_N m) = String (digit_char (m / 10 / 10 / 10)) (String (digit_char (m / 10 / 10 mod 10)) (String (digit_char (m / 10 mod 10))
    (String (digit_char (m mod 10)) "")))) as Hpad.
  { unfold pad, show_N. rewrite N2Z.id. destruct (N.to_nat (N.log2 m)) as [|[|[|[|f]]]] eqn:Ef; try lia. cbn [dec_digits].
    replace (m / 10 =? 0)%N with false by (symmetry; apply N.eqb_neq; lia). replace (m / 10 / 10 =? 0)%N with false by (symmetry; apply N.eqb_neq; lia).
    replace (m / 10 / 10 / 10 =? 0)%N with false by (symmetry; apply N.eqb_neq; lia). replace (m / 10 / 10 / 10 / 10 =? 0)%N with true by (symmetry; apply N.eqb_eq; lia).
    replace (m / 10 / 10 / 10 mod 10)%N with (m / 10 / 10 / 10)%N by lia. reflexivity. }
  do 4 eexists. split; [exact Hpad|]. rewrite Hpad. unfold number. cbn [String.substring all_bytes].
  destruct (digit_char_spec (m / 10 / 10 / 10)) as [Ha Ha']; [lia|]. destruct (digit_char_spec (m / 10 / 10 mod 10)) as [Hb Hb']; [lia|].
  destruct (digit_char_spec (m / 10 mod 10)) as [Hc Hc']; [lia|]. destruct (digit_char_spec (m mod 10)) as [Hd Hd']; [lia|].
  rewrite Ha, Hb, Hc, Hd. cbn [andb]. unfold parse_uint.
  assert (strip_prefix "+" (String (digit_char (m / 10 / 10 / 10)) (String (digit_char (m / 10 / 10 mod 10)) (String (digit_char (m / 10 mod 10))
    (String (digit_char (m mod 10)) "")))) = None) as ->.
  { cbn [strip_prefix]. destruct (Ascii.eqb_spec "+" (digit_char (m / 10 / 10 / 10))) as [E|E]; [|done]. by rewrite <- E in Ha. }
  cbn [default is_empty_str parse_digits]. rewrite Ha, Hb, Hc, Hd, Ha', Hb', Hc', Hd'. unfold u64_max.
  pose proof (N.div_mod m 10 ltac:(done)) as E1. pose proof (N.div_mod (m / 10) 10 ltac:(done)) as E2.
  pose proof (N.div_mod (m / 10 / 10) 10 ltac:(done)) as E3.
  clear -Hm E1 E2 E3. set (q3 := (m / 10 / 10 / 10)%N) in *. clearbody q3. set (r2 := (m / 10 / 10 mod 10)%N) in *. clearbody r2.
  set (q2 := (m / 10 / 10)%N) in *. clearbody q2. set (r1 := (m / 10 mod 10)%N) in *. clearbody r1.
  set (q1 := (m / 10)%N) in *. clearbody q1. set (r0 := (m mod 10)%N) in *. clearbody r0.
  repeat (rewrite (proj2 (N.leb_le _ _)) by lia). cbn [fmap option_fmap option_map]. f_equal. lia.
Qed.

(** A number of more than [k] digits is not printed with fewer. *)
Lemma dec_digits_length k : forall fuel n acc, (10 ^ N.of_nat k <= n)%N -> (k <= fuel)%nat ->
  (S k + String.length acc <= String.length (dec_digits fuel n acc))%nat.
Proof.
  induction k as [|k IH]; intros fuel n acc Hn Hf.
  - revert n acc Hn. induction fuel as [|fuel IHf]; intros n acc Hn; cbn [dec_digits]; [cbn; lia|].
    destruct (n / 10 =? 0)%N eqn:E; [cbn; lia|]. apply N.eqb_neq in E.
    etransitivity; [|apply IHf; [lia|cbn; lia]]. cbn. lia.
  - destruct fuel as [|fuel]; [lia|]. cbn [dec_digits]. rewrite Nat2N.inj_succ, N.pow_succ_r' in Hn.
    assert (10 ^ N.of_nat k <= n / 10)%N as Hk by (apply N.div_le_lower_bound; lia).
    assert (0 < 10 ^ N.of_nat k)%N by (apply N.neq_0_lt_0, N.pow_nonzero; lia).
    replace (n / 10 =? 0)%N with false by (symmetry; apply N.eqb_neq; lia).
    etransitivity; [|apply IH; [done|lia]]. cbn. lia.
Qed.

Lemma pad_four_long n : 10000 <= n -> (4 < String.length (pad 4 n))%nat.
Proof.
  intros Hn. unfold pad, show_N. rewrite slength_sapp.
  assert (4 <= N.to_nat (N.log2 (Z.to_N n)))%nat.
  { assert (N.log2 (2 ^ 4) <= N.log2 (Z.to_N n))%N by (apply N.log2_le_mono; lia). rewrite N.log2_pow2 in * by lia. lia. }
  pose proof (dec_digits_length 4 (N.to_nat (N.log2 (Z.to_N n))) (Z.to_N n) "" ltac:(cbn; lia) ltac:(lia)). cbn [String.length] in *. lia.
Qed.

Lemma trim_date w rest : is_space w = false -> trim (String w rest +:+ " GMT") = String w rest +:+ " GMT".
Proof.
  intros Hw. unfold trim, trim_while. cbn [String.append trim_start_while]. rewrite Hw. unfold trim_end_while.
  change (String w (rest +:+ " GMT")) with (String w rest +:+ " GMT"). rewrite srev_sapp.
  change (trim_start_while is_space (srev " GMT" +:+ ?x)) with (srev " GMT" +:+ x). by rewrite <- srev_sapp, srev_involutive.
Qed.

(** The text of some characters. *)
Fixpoint chars (l : list ascii) : string := match l with [] => "" | c :: l => String c (chars l) end.

Lemma parse_long w rest : is_space w = false -> (25 <= String.length rest)%nat -> parse_http_date (String w rest +:+ " GMT") = None.
Proof.
  intros Hw Hl. unfold parse_http_date. rewrite trim_date by done. rewrite slength_sapp. cbn [String.length].
  replace (_ =? 29)%nat with false by (symmetry; apply Nat.eqb_neq; lia). done.
Qed.

(** A date in its fixed places, read field by field. *)
Lemma parse_fixed w1 w2 w3 d1 d2 m1 m2 m3 y1 y2 y3 y4 h1 h2 i1 i2 s1 s2 p1 p2 p3 p4 p5 day month year hour minute second :
  is_space w1 = false -> existsb (String.eqb (String w1 (String w2 (String w3 "")))) HTTP_WEEKDAYS = true ->
  number (String d1 (String d2 "")) 0 2 = Some day -> position_of (String m1 (String m2 (String m3 ""))) HTTP_MONTHS = Some (month - 1) ->
  number (String y1 (String y2 (String y3 (String y4 "")))) 0 4 = Some year -> number (String h1 (String h2 "")) 0 2 = Some hour ->
  number (String i1 (String i2 "")) 0 2 = Some minute -> number (String s1 (String s2 "")) 0 2 = Some second ->
  parse_http_date (chars [w1; w2; w3; ","%char; " "%char; d1; d2; p1; m1; m2; m3; p2; y1; y2; y3; y4; p3; h1; h2; p4; i1; i2; p5; s1; s2] +:+ " GMT") =
  if negb ((1 <=? day) && (day <=? 31)) || (23 <? hour) || (59 <? minute) || (60 <? second) then None else
  if epoch_days_from_civil year month day <? 0 then None
  else Some (epoch_days_from_civil year month day * 86400 + hour * 3600 + minute * 60 + second).
Proof.
  intros Hw Hwd Hd Hm Hy Hh Hi Hs. unfold parse_http_date.
  match goal with |- context [trim ?t] => set (text := t) end.
  assert (trim text = text) as Ht.
  { unfold text. cbn [chars]. by apply trim_date. }
  rewrite Ht. clear Ht. change (String.length text =? 29)%nat with true.
  assert (ends_with " GMT" text = true) as ->.
  { unfold text. by apply ends_with_app. }
  change (String.substring 0 3 text) with (String w1 (String w2 (String w3 ""))). rewrite Hwd.
  change (String.eqb (String.substring 3 2 text) ", ") with true. cbn [negb orb].
  change (number text 5 2) with (number (String d1 (String d2 "")) 0 2). rewrite Hd.
  change (String.substring 8 3 text) with (String m1 (String m2 (String m3 ""))). rewrite Hm.
  change (number text 12 4) with (number (String y1 (String y2 (String y3 (String y4 "")))) 0 4). rewrite Hy.
  change (number text 17 2) with (number (String h1 (String h2 "")) 0 2). rewrite Hh.
  change (number text 20 2) with (number (String i1 (String i2 "")) 0 2). rewrite Hi.
  change (number text 23 2) with (number (String s1 (String s2 "")) 0 2). rewrite Hs.
  cbn [mbind option_bind fmap option_fmap option_map]. by replace (Z.succ (month - 1)) with month by lia.
Qed.

(** The names are three characters long, and found where they are. *)
Definition weekday_ok (n : Z) : bool :=
  match nth (Z.to_nat n) HTTP_WEEKDAYS "" with
  | String a (String b (String c "")) => negb (is_space a) && existsb (String.eqb (String a (String b (String c "")))) HTTP_WEEKDAYS
  | _ => false
  end.
Definition month_ok (n : Z) : bool :=
  match nth (Z.to_nat n) HTTP_MONTHS "" with
  | String a (String b (String c "")) => bool_decide (position_of (String a (String b (String c ""))) HTTP_MONTHS = Some n)
  | _ => false
  end.
Lemma weekdays_all : forallb (fun n => weekday_ok (Z.of_nat n)) (seq 0 7) = true.
Proof. vm_compute. reflexivity. Qed.
Lemma months_all : forallb (fun n => month_ok (Z.of_nat n)) (seq 0 12) = true.
Proof. vm_compute. reflexivity. Qed.

Lemma weekday_text n : 0 <= n < 7 -> exists a b c, nth (Z.to_nat n) HTTP_WEEKDAYS "" = String a (String b (String c "")) /\
  is_space a = false /\ existsb (String.eqb (String a (String b (String c "")))) HTTP_WEEKDAYS = true.
Proof.
  intros Hn. pose proof (check_all weekday_ok 7 n weekdays_all ltac:(lia)) as H. unfold weekday_ok in H.
  destruct (nth _ _ _) as [|a [|b [|c [|]]]]; try done. apply andb_true_iff in H as [H1 H2]. exists a, b, c. split; [done|]. by rewrite <- negb_true_iff.
Qed.

Lemma month_text n : 1 <= n <= 12 -> exists a b c, nth (Z.to_nat (n - 1)) HTTP_MONTHS "" = String a (String b (String c "")) /\
  position_of (String a (String b (String c ""))) HTTP_MONTHS = Some (n - 1).
Proof.
  intros Hn. pose proof (check_all month_ok 12 (n - 1) months_all ltac:(lia)) as H. unfold month_ok in H.
  destruct (nth _ _ _) as [|a [|b [|c [|]]]]; try done. exists a, b, c. split; [done|]. by eapply bool_decide_eq_true_1.
Qed.

(** ** Properties *)

(** C15: a date this server sends is one it reads back.  Every time at or after
    the epoch has a text, and parsing that text gives the time's second, up to
    the last second of the year 9999; from the year 10000 on, which the format
    does not hold, it gives nothing.  A time before the epoch has no text. *)
Theorem http_date_roundtrip time :
  match http_date time with
  | Some text => exists seconds, epoch_seconds time = Some seconds /\
      parse_http_date text = if seconds <? year_10000 then Some seconds else None
  | None => time < 0
  end.
Proof.
  unfold http_date, epoch_seconds. destruct (Z.ltb_spec time 0) as [Ht|Ht]; [done|]. cbn [mbind option_bind].
  set (seconds := time / 1000000000). assert (0 <= seconds) as Hs by (unfold seconds; lia). exists seconds. split; [done|]. clearbody seconds.
  destruct (civil_from_epoch_spec seconds Hs) as (Hm & Hd & Hw & Hh & Hi & Hsec & Hday & Hsum).
  pose proof (civil_year_bound (ct_year (civil_from_epoch seconds)) _ _ Hm Hd) as Hy. pose proof (civil_year_low (ct_year (civil_from_epoch seconds)) _ _ Hm Hd) as Hlow. rewrite Hday in Hy, Hlow.
  destruct (civil_from_epoch seconds) as [y m d w h i s]. cbn [ct_year ct_month ct_day ct_weekday ct_hour ct_minute ct_second] in *.
  assert (y < 10000 <-> seconds < year_10000) as Hyear.
  { rewrite Hy. unfold year_10000. change (253402300800 / 86400) with 2932897. clear - Hs. lia. }
  unfold show_civil. cbn [ct_year ct_month ct_day ct_weekday ct_hour ct_minute ct_second].
  destruct (weekday_text w Hw) as (w1 & w2 & w3 & -> & Hw1 & Hwd). destruct (month_text m Hm) as (m1 & m2 & m3 & -> & Hmon).
  destruct (padded_two d) as (d1 & d2 & -> & Hd'); [lia|]. destruct (padded_two h) as (h1 & h2 & -> & Hh'); [lia|].
  destruct (padded_two i) as (i1 & i2 & -> & Hi'); [lia|]. destruct (padded_two s) as (s1 & s2 & -> & Hs'); [lia|].
  destruct (Z.ltb_spec seconds year_10000) as [Hb|Hb].
  - destruct (padded_four y) as (y1 & y2 & y3 & y4 & -> & Hy'); [lia|].
    etransitivity; [apply (parse_fixed w1 w2 w3 d1 d2 m1 m2 m3 y1 y2 y3 y4 h1 h2 i1 i2 s1 s2 " " " " " " ":" ":" d m y h i s); done|].
    rewrite Hday.
    replace ((1 <=? d) && (d <=? 31)) with true by (symmetry; apply andb_true_iff; rewrite !Z.leb_le; lia).
    replace (23 <? h) with false by lia. replace (59 <? i) with false by lia. replace (60 <? s) with false by lia.
    replace (seconds / 86400 <? 0) with false by lia. cbn [negb orb]. f_equal. lia.
  - assert (10000 <= y) as Hge by (apply Z.le_ngt; rewrite Hyear; lia). pose proof (pad_four_long y Hge) as Hl.
    etransitivity; [|apply (parse_long w1 (String w2 (String w3 "") +:+ ", " +:+ String d1 (String d2 "") +:+ " " +:+
      String m1 (String m2 (String m3 "")) +:+ " " +:+ pad 4 y +:+ " " +:+ String h1 (String h2 "") +:+ ":" +:+ String i1 (String i2 "") +:+
      ":" +:+ String s1 (String s2 ""))); [done|]].
    + cbn [String.append]. by rewrite !sapp_assoc.
    + cbn [String.append String.length]. rewrite slength_sapp. cbn [String.append String.length]. lia.
Qed.

Example one_date : http_date 784111777000000000 = Some "Sun, 06 Nov 1994 08:49:37 GMT".
Proof. vm_compute. reflexivity. Qed.

(** The parser takes more than the one format: what stands between the fields
    is not looked at, nor whether the month has the day. *)
Example other_separators : parse_http_date "Mon, 31xFebx1994-08-49-37 GMT" = Some 762684577.
Proof. vm_compute. reflexivity. Qed.
