(* ===== verification/Response.v ===== *)
(** Responses and the headers they carry
    (crates/ruvyxa_dev_server/src/response.rs): the security defaults, the HTML
    responses and the choice of a compressed copy.

    A header map of a response is its values by lower-case name.  The text of
    every header set here is one [HeaderValue] accepts.  Brotli and gzip are
    parameters. *)
From S2P Require Import Prelude RustStr ClientIp RenderCache.

(** ** Definitions *)

Abbreviation ResponseHeaders := (gmap string (list string)).

Record Response := mkResponse { status : N; resp_headers : ResponseHeaders; body : string }.

(** [headers.insert(name, value)] *)
Definition insert_header (name value : string) (r : Response) : Response :=
  mkResponse (status r) (<[name := [value]]> (resp_headers r)) (body r).
(** [headers.get(name)] *)
Definition response_header (r : Response) (name : string) : option string := resp_headers r !! name ≫= head.

Definition with_status (s : N) (r : Response) : Response := mkResponse s (resp_headers r) (body r).
(** [status.into_response()] *)
Definition status_response (s : N) : Response := mkResponse s ∅ "".

Definition DEFAULT_SECURITY_HEADERS : list (string * string) :=
  [("x-content-type-options", "nosniff");
   ("referrer-policy", "strict-origin-when-cross-origin");
   ("permissions-policy", "camera=(), microphone=(), geolocation=()");
   ("cross-origin-opener-policy", "same-origin");
   ("cross-origin-resource-policy", "same-origin");
   ("x-frame-options", "DENY");
   ("x-permitted-cross-domain-policies", "none")].

(** [insert_default_header] *)
Definition insert_default_header (name value : string) (r : Response) : Response :=
  match resp_headers r !! name with None => insert_header name value r | Some _ => r end.

(** [apply_security_headers], [with_security_headers] *)
Definition apply_security_headers (r : Response) : Response :=
  fold_left (fun r '(name, value) => insert_default_header name value r) DEFAULT_SECURITY_HEADERS r.

(** [remove_default_header] *)
Definition remove_default_header (name value : string) (r : Response) : Response :=
  match response_header r name with
  | Some v => if String.eqb v value then mkResponse (status r) (delete name (resp_headers r)) (body r) else r
  | None => r
  end.

(** [finalize_security_headers] *)
Definition finalize_security_headers (r : Response) (enabled : bool) : Response :=
  if enabled then apply_security_headers r
  else fold_left (fun r '(name, value) => remove_default_header name value r) DEFAULT_SECURITY_HEADERS r.

(** [html_response_from_body], and [html_response], [shared_html_response] *)
Definition html_response_from_body (s : N) (text : string) : Response :=
  let r := insert_header "content-type" "text/html; charset=utf-8" (mkResponse s ∅ text) in
  apply_security_headers
    (if (400 <=? s)%N && (s <? 600)%N then insert_header "cache-control" "no-store, max-age=0" r else r).

(** [uncacheable] *)
Definition uncacheable (r : Response) : Response := insert_header "cache-control" "no-store, max-age=0" r.

(** [streamed_html_response] *)
Definition streamed_html_response (text : string) : Response := uncacheable (html_response_from_body 200 text).

Definition MIN_COMPRESSIBLE_BYTES : nat := 256.

(** [accept_encoding_allows] *)
Definition accept_encoding_allows (accept encoding : string) : bool :=
  existsb (fun part =>
    match split_char ";" part with
    | name :: parameters =>
        String.eqb (trim name) encoding
          && negb (existsb (fun p => String.eqb (String.concat "" (split_char " " (trim p))) "q=0") parameters)
    | [] => false
    end) (split_char "," accept).

Section compression.
(** The compressed text, [None] when the encoder fails. *)
Context (brotli gzip : string -> option string).

(** [encode_document] *)
Definition encode_document (accept html : string) : option CompressedDocument :=
  match (if accept_encoding_allows accept "br" then brotli html else None) with
  | Some bytes => Some (mkCompressed "br" bytes)
  | None =>
      match (if accept_encoding_allows accept "gzip" then gzip html else None) with
      | Some bytes => Some (mkCompressed "gzip" bytes)
      | None => None
      end
  end.

(** [cached_html_response] *)
Definition cached_html_response (s : N) (document : CachedDocument) (request_headers : option HeaderMap) (c : RenderCache)
    : Response * RenderCache :=
  let accept := to_ascii_lowercase (default "" (request_headers ≫= fun h => get_str h "accept-encoding")) in
  let '(encoded, c) :=
    if (String.length (html document) <? MIN_COMPRESSIBLE_BYTES)%nat then (None, c)
    else compressed_copy (accept_encoding_allows accept) (encode_document accept) document c in
  match encoded with
  | None => (insert_default_header "vary" "accept-encoding" (html_response_from_body s (html document)), c)
  | Some e =>
      (insert_header "vary" "accept-encoding"
         (insert_header "content-encoding" (encoding e) (html_response_from_body s (bytes e))), c)
  end.
End compression.

(** ** Headers *)

Lemma response_header_insert r name value n :
  response_header (insert_header name value r) n = if decide (name = n) then Some value else response_header r n.
Proof.
  unfold response_header, insert_header. cbn [resp_headers]. destruct (decide (name = n)) as [<-|]; [by rewrite lookup_insert_eq|].
  by rewrite lookup_insert_ne.
Qed.

Lemma response_header_default r name value n : resp_headers r !! n ≠ Some [] ->
  response_header (insert_default_header name value r) n =
  match response_header r n with None => if decide (name = n) then Some value else None | found => found end.
Proof.
  intros Hn. unfold insert_default_header. destruct (resp_headers r !! name) as [l|] eqn:E.
  - destruct (decide (name = n)) as [<-|]; [|by destruct (response_header r n)].
    unfold response_header. rewrite E. destruct l; [congruence|done].
  - rewrite response_header_insert. unfold response_header. destruct (decide (name = n)) as [<-|]; [by rewrite E|by destruct (_ ≫= _)].
Qed.

Lemma insert_default_body r name value : body (insert_default_header name value r) = body r.
Proof. unfold insert_default_header. by destruct (resp_headers r !! name). Qed.

(** No name of a response maps to an empty list of values. *)
Definition no_empty_header (r : Response) : Prop := forall n, resp_headers r !! n ≠ Some [].

Lemma insert_header_no_empty name value r : no_empty_header r -> no_empty_header (insert_header name value r).
Proof. intros H n. unfold insert_header. cbn [resp_headers]. rewrite lookup_insert_Some. intros [[_ [=]]|[_ ?]]; by apply (H n). Qed.

Lemma insert_default_no_empty name value r : no_empty_header r -> no_empty_header (insert_default_header name value r).
Proof. intros H. unfold insert_default_header. destruct (resp_headers r !! name); [done|by apply insert_header_no_empty]. Qed.

(** The default of a name, if it has one. *)
Definition security_default (n : string) : option string :=
  snd <$> List.find (fun p => String.eqb p.1 n) DEFAULT_SECURITY_HEADERS.

Lemma apply_defaults_header l : forall r n, NoDup l.*1 -> no_empty_header r ->
  response_header (fold_left (fun r '(name, value) => insert_default_header name value r) l r) n =
  match response_header r n with None => snd <$> List.find (fun p => String.eqb p.1 n) l | found => found end.
Proof.
  induction l as [|[name value] l IH]; intros r n Hl Hr; cbn [fold_left List.find]; [by destruct (response_header r n)|].
  rewrite IH; [|by apply NoDup_cons in Hl as []|by apply insert_default_no_empty].
  rewrite response_header_default by done. destruct (response_header r n); [done|]. cbn [fst].
  destruct (String.eqb_spec name n) as [->|Hne]; [by destruct (decide (n = n))|by destruct (decide (name = n))].
Qed.

(** Every default is on the response, unless the application set the name. *)
Lemma apply_security_headers_header r n : no_empty_header r ->
  response_header (apply_security_headers r) n = match response_header r n with None => security_default n | found => found end.
Proof. intros Hr. apply apply_defaults_header; [|done]. cbn. repeat constructor; set_solver. Qed.

Lemma apply_security_headers_rest r : status (apply_security_headers r) = status r /\ body (apply_security_headers r) = body r.
Proof.
  unfold apply_security_headers. generalize DEFAULT_SECURITY_HEADERS. intros l. revert r.
  induction l as [|[name value] l IH]; intros r; cbn [fold_left]; [done|]. destruct (IH (insert_default_header name value r)) as [-> ->].
  unfold insert_default_header. by destruct (resp_headers r !! name).
Qed.

Lemma apply_no_empty r : no_empty_header r -> no_empty_header (apply_security_headers r).
Proof.
  unfold apply_security_headers. generalize DEFAULT_SECURITY_HEADERS. intros l. revert r.
  induction l as [|[name value] l IH]; intros r H; cbn [fold_left]; [done|]. by apply IH, insert_default_no_empty.
Qed.

Lemma remove_default_header_ne r name value n : name <> n -> response_header (remove_default_header name value r) n = response_header r n.
Proof.
  intros Hne. unfold remove_default_header. destruct (response_header r name) as [v|]; [|done]. destruct (String.eqb v value); [|done].
  unfold response_header. cbn [resp_headers]. by rewrite lookup_delete_ne.
Qed.

Lemma remove_default_header_eq r n value : response_header (remove_default_header n value r) n =
  match response_header r n with Some v => if String.eqb v value then None else Some v | None => None end.
Proof.
  unfold remove_default_header. destruct (response_header r n) as [v|] eqn:E; [|done]. destruct (String.eqb v value); [|done].
  unfold response_header. cbn [resp_headers]. by rewrite lookup_delete_eq.
Qed.

(** With the project's [security] setting off, exactly the headers that still
    hold a default are gone. *)
Lemma finalize_off_header r n : response_header (finalize_security_headers r false) n =
  match response_header r n, security_default n with
  | Some v, Some d => if String.eqb v d then None else Some v
  | found, _ => found
  end.
Proof.
  unfold finalize_security_headers, security_default.
  assert (NoDup DEFAULT_SECURITY_HEADERS.*1) as Hl by (cbn; repeat constructor; set_solver).
  revert r Hl. induction DEFAULT_SECURITY_HEADERS as [|[name value] l IH]; intros r Hl; cbn [fold_left List.find].
  { by destruct (response_header r n). }
  apply NoDup_cons in Hl as [Hname Hl]. rewrite IH by done. cbn [fst].
  destruct (String.eqb_spec name n) as [->|Hne].
  - assert (List.find (fun p => String.eqb p.1 n) l = None) as ->.
    { destruct (List.find _ l) as [p|] eqn:E; [|done]. apply find_some in E as [Hp E]. apply String.eqb_eq in E.
      exfalso. apply Hname, list_elem_of_fmap. exists p. by rewrite list_elem_of_In. }
    rewrite remove_default_header_eq. cbn [fmap option_fmap option_map snd]. by destruct (response_header r n) as [v|]; [destruct (String.eqb v value)|].
  - by rewrite remove_default_header_ne.
Qed.

Lemma html_response_body s text : body (html_response_from_body s text) = text /\
  response_header (html_response_from_body s text) "content-encoding" = None /\
  response_header (html_response_from_body s text) "vary" = None /\ no_empty_header (html_response_from_body s text).
Proof.
  unfold html_response_from_body. destruct (apply_security_headers_rest
    (if (400 <=? s)%N && (s <? 600)%N then insert_header "cache-control" "no-store, max-age=0" (insert_header "content-type" "text/html; charset=utf-8" (mkResponse s ∅ text))
     else insert_header "content-type" "text/html; charset=utf-8" (mkResponse s ∅ text))) as [_ ->].
  assert (no_empty_header (insert_header "content-type" "text/html; charset=utf-8" (mkResponse s ∅ text))) as H0.
  { apply insert_header_no_empty. intros n. cbn [resp_headers]. by rewrite lookup_empty. }
  destruct ((400 <=? s)%N && (s <? 600)%N).
  - split_and!; [done| | |by apply apply_no_empty, insert_header_no_empty];
      (rewrite apply_security_headers_header by (by apply insert_header_no_empty)); done.
  - split_and!; [done| | |by apply apply_no_empty]; (rewrite apply_security_headers_header by done); done.
Qed.

(** ** Compressed documents *)

Section compression_spec.
Context (brotli gzip : string -> option string).

(** [e] is a compressed form of [text]. *)
Definition encodes (text : string) (e : CompressedDocument) : Prop :=
  (encoding e = "br" /\ brotli text = Some (bytes e)) \/ (encoding e = "gzip" /\ gzip text = Some (bytes e)).

Lemma encode_document_encodes accept text e : encode_document brotli gzip accept text = Some e ->
  encodes text e /\ accept_encoding_allows accept (encoding e) = true.
Proof.
  unfold encode_document, encodes. destruct (accept_encoding_allows accept "br") eqn:Eb.
  - destruct (brotli text) as [b|] eqn:E; [intros [= <-]; cbn; auto|].
    destruct (accept_encoding_allows accept "gzip") eqn:Eg; [|done]. destruct (gzip text) eqn:E'; [|done]. intros [= <-]. cbn. auto.
  - destruct (accept_encoding_allows accept "gzip") eqn:Eg; [|done]. destruct (gzip text) eqn:E'; [|done]. intros [= <-]. cbn. auto.
Qed.

(** A cached page reaches a client in a form the client can read.  Where
    the document's slot holds a compressed form of it, if anything, the answer
    carries the requested status and [Vary: accept-encoding], and its body is
    either the page itself with no [Content-Encoding], or a compressed form of
    the page under its encoding, one the request's [Accept-Encoding] allows;
    and the slot is left holding a compressed form of the page, if anything. *)
Theorem cached_html_response_faithful s document request_headers c :
  (forall e, slots c !! doc_compressed document = Some e -> encodes (html document) e) ->
  let '(r, c') := cached_html_response brotli gzip s document request_headers c in
  let accept := to_ascii_lowercase (default "" (request_headers ≫= fun h => get_str h "accept-encoding")) in
  response_header r "vary" = Some "accept-encoding" /\
  (forall e, slots c' !! doc_compressed document = Some e -> encodes (html document) e) /\
  match response_header r "content-encoding" with
  | None => body r = html document
  | Some enc => accept_encoding_allows accept enc = true /\ encodes (html document) (mkCompressed enc (body r))
  end.
Proof.
  intros Hslot. unfold cached_html_response. set (accept := to_ascii_lowercase _). cbn zeta.
  set (look := if (_ <? _)%nat then _ else _).
  assert (exists c' e, look = (e, c') /\ (forall e, slots c' !! doc_compressed document = Some e -> encodes (html document) e) /\
    forall e', e = Some e' -> encodes (html document) e' /\ accept_encoding_allows accept (encoding e') = true) as (c' & e & -> & Hs & He).
  { unfold look. destruct (_ <? _)%nat; [exists c, None; by split_and!|]. unfold compressed_copy.
    destruct (slots c !! doc_compressed document) as [e|] eqn:E.
    - do 2 eexists. split; [done|]. split; [by rewrite E; intros e' [= <-]; auto|]. destruct (accept_encoding_allows accept (encoding e)) eqn:Ea;
        intros e' [= <-]. auto.
    - destruct (encode_document brotli gzip accept (html document)) as [e|] eqn:Ee; [|exists c, None; rewrite E; by split_and!].
      apply encode_document_encodes in Ee as [He Ha]. do 2 eexists. split; [done|]. cbn [slots with_slot]. rewrite Ha. split.
      + intros e'. rewrite lookup_insert_eq. by intros [= <-].
      + by intros e' [= <-]. }
  destruct e as [e|].
  - destruct (He e eq_refl) as [H1 H2]. rewrite !response_header_insert. cbn [body insert_header].
    destruct (html_response_body s (bytes e)) as (-> & _ & _ & _). rewrite decide_True by done. split_and!; [done..|].
    rewrite decide_False by done. rewrite decide_True by done. split; [done|]. by destruct e.
  - destruct (html_response_body s (html document)) as (Hb & Hc & Hv & Hn). rewrite !response_header_default by done.
    rewrite Hc, Hv. rewrite decide_True by done. rewrite decide_False by done. split_and!; [done..|].
    cbn. by rewrite insert_default_body.
Qed.
End compression_spec.

(** A quality of zero written with a decimal point is not read as a refusal. *)
Example zero_quality : accept_encoding_allows "gzip, br;q=0.0" "br" = true.
Proof. vm_compute. reflexivity. Qed.

Lemma cached_html_response_witness :
  let document := mkDoc (repeat_str 256 "a") 0 in
  let headers : HeaderMap := fun n => if String.eqb n "accept-encoding" then [Some "gzip, BR"] else [] in
  let '(r, c') := cached_html_response Some (fun _ => None) 200 document (Some headers) (new_cache 4 60) in
  response_header r "content-encoding" = Some "br" /\ response_header r "vary" = Some "accept-encoding" /\
  (forall e, slots c' !! 0 = Some e -> encodes Some (fun _ => None) (html document) e).
Proof.
  intros document headers.
  assert (forall e, slots (new_cache 4 60) !! doc_compressed document = Some e -> encodes Some (fun _ => None) (html document) e) as H
    by (intros e He; vm_compute in He; discriminate He).
  pose proof (cached_html_response_faithful Some (fun _ => None) 200 document (Some headers) (new_cache 4 60) H) as Hr.
  assert (response_header (cached_html_response Some (fun _ => None) 200 document (Some headers) (new_cache 4 60)).1 "content-encoding" = Some "br") as He
    by (vm_compute; reflexivity).
  destruct (cached_html_response Some (fun _ => None) 200 document (Some headers) (new_cache 4 60)) as [r c']. cbn [fst] in He.
  destruct Hr as (Hv & Hs & _). split; [exact He|split; [exact Hv|exact Hs]].
Defined.
