(* ===== verification/StaticAssets.v ===== *)
(** Static files (crates/ruvyxa_dev_server/src/static_assets.rs): which file a
    request path names, conditional and range requests, the fingerprint index,
    and the responses of the public and client directories.

    The file system is a set of parameters, one per observation the code makes;
    nothing relates an observation to a later one of the same file.  blake3's
    hexadecimal digest is a parameter.  A header value is the text [to_str]
    gives.  A slice out of range and a subtraction below zero are [Panicked]. *)
From S2P Require Import Prelude RustStr Paths PathBuf Manifest ClientIp HttpDate Response.

(** ** Definitions *)

Definition IMMUTABLE_CACHE_CONTROL : string := "public, max-age=31536000, immutable".
Definition PUBLIC_ASSET_CACHE_CONTROL : string := "public, max-age=3600, must-revalidate".
Definition ASSET_ETAG_CACHE_LIMIT : nat := 1024.
Definition ASSET_ETAG_SETTLE : Z := 2000000000.

Record AssetIdentity := mkIdentity { id_len : N; id_modified : SystemTime }.
#[export] Instance identity_eq_dec : EqDecision AssetIdentity.
Proof. solve_decision. Defined.

Record AssetEtagCache := mkEtagCache {
  etag_entries : gmap PathBuf (AssetIdentity * string);
  insertion_order : list PathBuf;
}.
Definition new_etag_cache : AssetEtagCache := mkEtagCache ∅ [].

(** [cached_asset_etag] *)
Definition cached_asset_etag (c : AssetEtagCache) (file : PathBuf) (identity : AssetIdentity) : option string :=
  '(cached, etag) ← etag_entries c !! file; if decide (cached = identity) then Some etag else None.

(** [is_settled] *)
Definition is_settled (identity : AssetIdentity) (now : SystemTime) : bool := (ASSET_ETAG_SETTLE <=? now - id_modified identity)%Z.

(** The loop of [store_asset_etag]. *)
Fixpoint drop_oldest (order : list PathBuf) (entries : gmap PathBuf (AssetIdentity * string)) : AssetEtagCache :=
  if (ASSET_ETAG_CACHE_LIMIT <? length order)%nat then
    match order with [] => mkEtagCache entries order | oldest :: order => drop_oldest order (delete oldest entries) end
  else mkEtagCache entries order.

(** [store_asset_etag] *)
Definition store_asset_etag (now : SystemTime) (file : PathBuf) (identity : AssetIdentity) (etag : string) (c : AssetEtagCache) : AssetEtagCache :=
  if is_settled identity now then
    drop_oldest (match etag_entries c !! file with None => insertion_order c ++ [file] | Some _ => insertion_order c end)
      (<[file := (identity, etag)]> (etag_entries c))
  else c.

(** *** Validators *)

(** [str::trim_matches] of the double quote. *)
Definition trim_quotes (s : string) : string := trim_while (Ascii.eqb "034") s.

(** [normalized_etag] *)
Definition normalized_etag (value : string) : string := trim_quotes (default (trim value) (strip_prefix "W/" (trim value))).

(** [etag_matches] *)
Definition etag_matches (value etag : string) : bool :=
  existsb (fun candidate => String.eqb (trim candidate) "*" || String.eqb (normalized_etag (trim candidate)) (normalized_etag etag))
    (split_char "," value).

(** [request_matches_etag] *)
Definition request_matches_etag (headers : option HeaderMap) (etag : string) : bool :=
  match headers ≫= fun h => get_str h "if-none-match" with Some value => etag_matches value etag | None => false end.

(** [request_is_fresh] *)
Definition request_is_fresh (headers : option HeaderMap) (etag : string) (modified : option SystemTime) : bool :=
  match headers ≫= fun h => get_str h "if-none-match" with
  | Some value => if is_empty_str (trim value) then from_option (not_modified_since headers) false modified else request_matches_etag headers etag
  | None => from_option (not_modified_since headers) false modified
  end.

(** [insert_last_modified] *)
Definition insert_last_modified (modified : option SystemTime) (r : Response) : Response :=
  match modified ≫= http_date with Some value => insert_header "last-modified" value r | None => r end.

(** [not_modified_response] *)
Definition not_modified_response (etag cache_control : string) (modified : option SystemTime) : Response :=
  apply_security_headers (insert_header "cache-control" cache_control
    (insert_last_modified modified (insert_header "etag" etag (status_response 304)))).

(** *** Ranges *)

Record ByteRange := mkRange { range_start : N; range_end : N }.
(** [ByteRange::len] *)
Definition range_len (r : ByteRange) : N := range_end r - range_start r + 1.

Inductive RangeRequest := Whole | Partial (range : ByteRange) | Unsatisfiable.

(** [byte_position] *)
Definition byte_position (text : string) : option N :=
  if is_empty_str text || negb (all_bytes is_digit text) then None else Some (default u64_max (parse_uint u64_max text)).

(** [parse_single_byte_range] *)
Definition parse_single_byte_range (value : string) (len : N) : RangeRequest :=
  match strip_prefix "bytes=" (trim value) with
  | None => Whole
  | Some spec =>
      let spec := trim spec in
      if has_char "," spec then Whole else
      match split_once "-" spec with
      | None => Whole
      | Some (first, last) =>
          let '(first, last) := (trim first, trim last) in
          if is_empty_str first then
            match byte_position last with
            | None => Whole
            | Some suffix =>
                if (suffix =? 0)%N || (len =? 0)%N then Unsatisfiable else Partial (mkRange (len - suffix) (len - 1))
            end
          else
            match byte_position first with
            | None => Whole
            | Some start =>
                if (len <=? start)%N then Unsatisfiable else
                match (if is_empty_str last then Some (len - 1)%N else (fun e => N.min e (len - 1)) <$> byte_position last) with
                | None => Whole
                | Some end_ => if (end_ <? start)%N then Unsatisfiable else Partial (mkRange start end_)
                end
            end
      end
  end.

(** [requested_range] *)
Definition requested_range (headers : option HeaderMap) (len : N) (validator : option string) (modified : option SystemTime) : RangeRequest :=
  match headers with
  | None => Whole
  | Some headers =>
      match get_str headers "range" with
      | None => Whole
      | Some value =>
          let matched :=
            match get_str headers "if-range" with
            | None => true
            | Some if_range =>
                if starts_with (String "034" "") if_range || starts_with "W/" if_range then
                  match validator with Some v => String.eqb (normalized_etag if_range) (normalized_etag v) | None => false end
                else
                  match parse_http_date if_range, modified ≫= epoch_seconds with
                  | Some sent, Some current => (sent =? current)%Z
                  | _, _ => false
                  end
            end in
          if matched then parse_single_byte_range value len else Whole
      end
  end.

(** [range_not_satisfiable_response] *)
Definition range_not_satisfiable_response (len : N) : Response :=
  apply_security_headers (insert_header "content-range" ("bytes */" +:+ show_N len)
    (insert_header "accept-ranges" "bytes" (status_response 416))).

(** The text of [Content-Range]. *)
Definition content_range (r : ByteRange) (full : N) : string :=
  "bytes " +:+ show_N (range_start r) +:+ "-" +:+ show_N (range_end r) +:+ "/" +:+ show_N full.

(** [{n:x}] *)
Fixpoint hex_digits (fuel : nat) (n : N) (acc : string) : string :=
  let d := (n mod 16)%N in
  let acc' := String (ascii_of_nat (if (d <? 10)%N then 48 + N.to_nat d else 87 + N.to_nat d)) acc in
  match fuel with O => acc' | S fuel => if (n / 16 =? 0)%N then acc' else hex_digits fuel (n / 16) acc' end.
Definition show_hex (n : N) : string := hex_digits (N.to_nat (N.log2 n)) n "".

(** [weak_validator] *)
Definition weak_validator (identity : AssetIdentity) : option string :=
  seconds ← epoch_seconds (id_modified identity);
  Some ("W/" +:+ String "034" (show_hex (id_len identity) +:+ "-" +:+ show_hex (Z.to_N seconds) +:+ String "034" "")).

(** *** Which file a path names *)

(** [char::is_control] on ASCII and on the two-byte C1 block; the others are
    not control characters. *)
Fixpoint has_control (s : string) : bool :=
  match s with
  | "" => false
  | String c rest =>
      let n := nat_of_ascii c in
      (n <? 32)%nat || (n =? 127)%nat ||
      match rest with String d _ => (n =? 194)%nat && (128 <=? nat_of_ascii d)%nat && (nat_of_ascii d <? 160)%nat | "" => false end
      || has_control rest
  end.

(** [is_safe_relative_path] *)
Definition is_safe_relative_path (path : string) : bool :=
  if is_empty_str path || has_char "\" path then false
  else if negb (all_normal path) then false
  else forallb (fun segment => is_empty_str segment ||
    (negb (String.eqb segment ".") && negb (String.eqb segment "..") && negb (has_char ":" segment || has_control segment)))
    (split_char "/" path).

(** [lexically_contained] *)
Definition lexically_contained (root candidate : PathBuf) : bool :=
  match strip_base (path_new root) (path_new candidate) with
  | Some rest => forallb (fun c => negb (String.eqb c ".") && negb (String.eqb c "..")) rest
  | None => false
  end.

Definition STATIC_ASSET_EXTENSIONS : list string :=
  ["apng"; "avif"; "bmp"; "css"; "eot"; "gif"; "ico"; "jpeg"; "jpg"; "js"; "map"; "mjs"; "mov";
   "mp3"; "mp4"; "ogg"; "otf"; "png"; "svg"; "ttf"; "wav"; "webm"; "webp"; "woff"; "woff2"].

(** [is_crawler_discovery_path] *)
Definition is_crawler_discovery_path (request_path : string) : bool :=
  existsb (String.eqb (trim_end_while (Ascii.eqb "/") request_path)) ["/robots.txt"; "/sitemap.xml"; "/sitemap_index.xml"].

(** [is_static_asset_request] *)
Definition is_static_asset_request (request_path : string) : bool :=
  if is_crawler_discovery_path request_path then true else
  match rsplit_once "." (default "" (last (split_char "/" request_path))) with
  | None => false
  | Some (name, extension) =>
      if is_empty_str name || is_empty_str extension then false
      else existsb (String.eqb (to_ascii_lowercase extension)) STATIC_ASSET_EXTENSIONS
  end.

(** [is_convertible_image_url] *)
Definition is_convertible_image_url (path : PathBuf) : bool :=
  match extension_of path with Some e => existsb (String.eqb (to_ascii_lowercase e)) ["png"; "jpg"; "jpeg"] | None => false end.

(** [client_asset_content_type] *)
Definition client_asset_content_type (file : PathBuf) : string :=
  match extension_of file with
  | Some "css" => "text/css; charset=utf-8"
  | Some "map" | Some "json" => "application/json; charset=utf-8"
  | _ => "text/javascript; charset=utf-8"
  end.

(** [content_type_for] *)
Definition content_type_for (path : PathBuf) : string :=
  match to_ascii_lowercase <$> extension_of path with
  | Some "css" => "text/css; charset=utf-8"
  | Some "js" | Some "mjs" => "text/javascript; charset=utf-8"
  | Some "json" | Some "map" => "application/json; charset=utf-8"
  | Some "webmanifest" => "application/manifest+json; charset=utf-8"
  | Some "html" => "text/html; charset=utf-8"
  | Some "txt" => "text/plain; charset=utf-8"
  | Some "xml" => "application/xml; charset=utf-8"
  | Some "svg" => "image/svg+xml"
  | Some "png" => "image/png"
  | Some "jpg" | Some "jpeg" => "image/jpeg"
  | Some "webp" => "image/webp"
  | Some "avif" => "image/avif"
  | Some "gif" => "image/gif"
  | Some "ico" => "image/x-icon"
  | Some "woff" => "font/woff"
  | Some "woff2" => "font/woff2"
  | Some "wasm" => "application/wasm"
  | Some "apng" => "image/apng"
  | Some "bmp" => "image/bmp"
  | Some "eot" => "application/vnd.ms-fontobject"
  | Some "mov" => "video/quicktime"
  | Some "mp3" => "audio/mpeg"
  | Some "mp4" => "video/mp4"
  | Some "ogg" => "audio/ogg"
  | Some "otf" => "font/otf"
  | Some "ttf" => "font/ttf"
  | Some "wav" => "audio/wav"
  | Some "webm" => "video/webm"
  | _ => "application/octet-stream"
  end.

(** *** Serving *)

(** [io::ErrorKind], as far as it is told apart. *)
Inductive ReadError := NotFound | PermissionDenied | OtherError.
(** What [fs::metadata] shows of a regular file. *)
Record FileMetadata := mkMetadata { md_len : N; md_modified : option SystemTime }.
(** An open file: the length its handle reports, whether a seek succeeds, and
    the bytes a reader of it finds. *)
Record OpenFile := mkOpen { open_len : option N; can_seek : bool; open_bytes : string }.

Inductive Served := NotServed | Answer (r : Response) | Fault (message : string) | Panicked.

(** [asset_identity] *)
Definition asset_identity (m : FileMetadata) : option AssetIdentity := mkIdentity (md_len m) <$> md_modified m.

(** [read_failure_is_a_miss] *)
Definition read_failure_is_a_miss (e : ReadError) : bool := match e with OtherError => false | _ => true end.

Definition slen (s : string) : N := N.of_nat (String.length s).

(** [bytes[range.start as usize..=range.end as usize]], [None] when it panics *)
Definition slice_range (bytes : string) (r : ByteRange) : option string :=
  if (range_start r <=? range_end r + 1)%N && (range_end r <? slen bytes)%N
  then Some (String.substring (N.to_nat (range_start r)) (N.to_nat (range_end r + 1 - range_start r)) bytes) else None.

(** The end of every response with a body: a range makes it a 206. *)
Definition with_range (range : option ByteRange) (full_length : N) (r : Response) : Response :=
  match range with
  | Some range => insert_header "content-range" (content_range range full_length) (with_status 206 r)
  | None => r
  end.

Section files.
(** The observations of the file system, and the time of the store. *)
Context (is_file exists_ : PathBuf -> bool) (canonicalize : PathBuf -> option PathBuf)
  (metadata : PathBuf -> option FileMetadata) (read : PathBuf -> string + ReadError) (open : PathBuf -> option OpenFile)
  (hash : string -> string) (threshold : N) (now : SystemTime).

(** [compute_etag] *)
Definition compute_etag (bytes : string) : string := String "034" (String.substring 0 16 (hash bytes) +:+ String "034" "").
(** [weak_content_etag] *)
Definition weak_content_etag (bytes : string) : string := "W/" +:+ compute_etag bytes.

(** [contained_public_asset] *)
Definition contained_public_asset (public_dir candidate : PathBuf) : option PathBuf :=
  if negb (lexically_contained public_dir candidate) then None
  else if negb (exists_ public_dir) || negb (exists_ candidate) then None
  else
    public_root ← canonicalize public_dir;
    candidate ← canonicalize candidate;
    if inside public_root candidate then Some candidate else None.

(** [candidates.sort()] and [dedup()] keep one of equal paths: one is left
    exactly when all are equal. *)
Definition only_candidate (candidates : list PathBuf) : option PathBuf :=
  match candidates with [] => None | p :: rest => if forallb (same_path p) rest then Some p else None end.

(** [resolve_public_asset] *)
Definition resolve_public_asset (public_dir : PathBuf) (request_path : string) : option PathBuf :=
  if negb (is_safe_relative_path request_path) then None else
  if contains_str "../" request_path then None else
  let requested := join_path public_dir request_path in
  if is_file requested then contained_public_asset public_dir requested else
  let source :=
    if bool_decide (extension_of requested = Some "webp") then
      only_candidate (omap (fun e => let path := with_extension requested e in
        if is_file path then contained_public_asset public_dir path else None) ["png"; "jpg"; "jpeg"; "PNG"; "JPG"; "JPEG"])
    else None in
  match source with
  | Some p => Some p
  | None =>
      if is_convertible_image_url requested && is_file (with_extension requested "webp")
      then contained_public_asset public_dir (with_extension requested "webp") else None
  end.

(** [resolve_client_file] *)
Definition resolve_client_file (client_dir : PathBuf) (request_path : string) : option PathBuf :=
  file_name ← strip_prefix "/__ruvyxa/client/" request_path;
  if is_empty_str file_name || has_char "/" file_name || has_char "\" file_name || contains_str ".." file_name then None
  else contained_public_asset client_dir (join_path client_dir file_name).

(** Where a streamed body starts, and how long it is: measured on the open
    file, not on the metadata the range was decided with. *)
Definition stream_span (range : option ByteRange) (full_length : N) : N * N :=
  match range with
  | Some r => (range_start r, N.min (range_len r) (full_length - range_start r))
  | None => (0, full_length)%N
  end.

(** The response around a streamed body. *)
Definition streamed_response (content_type : string) (etag : option string) (modified : option SystemTime) (range : option ByteRange)
    (full_length body_length : N) (text : string) : Response :=
  let r := insert_header "content-length" (show_N body_length)
    (insert_header "accept-ranges" "bytes" (insert_header "content-type" content_type (mkResponse 200 ∅ text))) in
  let r := match etag with Some e => insert_header "etag" e r | None => r end in
  apply_security_headers (with_range range full_length (insert_last_modified modified
    (insert_header "cache-control" PUBLIC_ASSET_CACHE_CONTROL r))).

(** [streamed_file_response] *)
Definition streamed_file_response (file : PathBuf) (m : FileMetadata) (content_type : string) (etag : option string)
    (range : option ByteRange) : Served :=
  match open file with
  | None => Fault ("Failed to open public file " +:+ file)
  | Some handle =>
      if match range with Some _ => negb (can_seek handle) | None => false end then Fault ("Failed to seek public file " +:+ file) else
      let full_length := default (md_len m) (open_len handle) in
      let '(first, body_length) := stream_span range full_length in
      Answer (streamed_response content_type etag (md_modified m) range full_length body_length
        (String.substring (N.to_nat first) (N.to_nat body_length) (open_bytes handle)))
  end.

(** The buffered answer, once the bytes are read. *)
Definition buffered_response (headers : option HeaderMap) (content_type cache_control etag : string) (modified : option SystemTime)
    (bytes : string) : Served :=
  if request_is_fresh headers etag modified then Answer (not_modified_response etag cache_control modified) else
  let full_length := slen bytes in
  match requested_range headers full_length (Some etag) modified with
  | Unsatisfiable => Answer (range_not_satisfiable_response full_length)
  | Partial range =>
      match slice_range bytes range with
      | None => Panicked
      | Some part => Answer (apply_security_headers (with_range (Some range) full_length (insert_last_modified modified
          (insert_header "cache-control" cache_control (insert_header "etag" etag (insert_header "accept-ranges" "bytes"
            (insert_header "content-type" content_type (mkResponse 200 ∅ part))))))))
      end
  | Whole => Answer (apply_security_headers (with_range None full_length (insert_last_modified modified
          (insert_header "cache-control" cache_control (insert_header "etag" etag (insert_header "accept-ranges" "bytes"
            (insert_header "content-type" content_type (mkResponse 200 ∅ bytes))))))))
  end.

(** The answer to a revalidation from the fingerprint index. *)
Definition index_answer (headers : option HeaderMap) (cache_control : string) (file : PathBuf) (identity : option AssetIdentity)
    (c : AssetEtagCache) : option Response :=
  identity ← identity;
  etag ← cached_asset_etag c file identity;
  if request_is_fresh headers etag (Some (id_modified identity))
  then Some (not_modified_response etag cache_control (Some (id_modified identity))) else None.

(** The branch of [serve_public_file] above the threshold. *)
Definition streamed_answer (file : PathBuf) (m : FileMetadata) (headers : option HeaderMap) : Served :=
  let validator := asset_identity m ≫= weak_validator in
  let fresh := match validator with Some etag => request_is_fresh headers etag (md_modified m) | None => false end in
  match validator, fresh with
  | Some etag, true => Answer (not_modified_response etag PUBLIC_ASSET_CACHE_CONTROL (md_modified m))
  | _, _ =>
      match requested_range headers (md_len m) validator (md_modified m) with
      | Unsatisfiable => Answer (range_not_satisfiable_response (md_len m))
      | Whole => streamed_file_response file m (content_type_for file) validator None
      | Partial range => streamed_file_response file m (content_type_for file) validator (Some range)
      end
  end.

(** [serve_public_file] *)
Definition serve_public_file (public_dir : PathBuf) (request_path : string) (headers : option HeaderMap) (c : AssetEtagCache)
    : Served * AssetEtagCache :=
  let trimmed := trim_start_while (Ascii.eqb "/") request_path in
  if negb (is_safe_relative_path trimmed) then (NotServed, c) else
  match resolve_public_asset public_dir trimmed with
  | None => (NotServed, c)
  | Some file =>
      match metadata file with
      | None => (NotServed, c)
      | Some m =>
          match index_answer headers PUBLIC_ASSET_CACHE_CONTROL file (asset_identity m) c with
          | Some r => (Answer r, c)
          | None =>
              if (threshold <? md_len m)%N then (streamed_answer file m headers, c) else
              match read file with
              | inr e => (if read_failure_is_a_miss e then NotServed else Fault ("Failed to read public file " +:+ file), c)
              | inl bytes =>
                  let etag := compute_etag bytes in
                  (buffered_response headers (content_type_for file) PUBLIC_ASSET_CACHE_CONTROL etag (md_modified m) bytes,
                   match asset_identity m with Some id => store_asset_etag now file id etag c | None => c end)
              end
          end
      end
  end.

(** [serve_client_file] *)
Definition serve_client_file (client_dir : PathBuf) (request_path : string) (headers : option HeaderMap) (c : AssetEtagCache)
    : Served * AssetEtagCache :=
  match resolve_client_file client_dir request_path with
  | None => (NotServed, c)
  | Some file =>
      match metadata file with
      | None => (NotServed, c)
      | Some m =>
          match index_answer headers IMMUTABLE_CACHE_CONTROL file (asset_identity m) c with
          | Some r => (Answer r, c)
          | None =>
              match read file with
              | inr e => (if read_failure_is_a_miss e then NotServed else Fault ("Failed to read client file " +:+ file), c)
              | inl bytes =>
                  let etag := compute_etag bytes in
                  (if request_is_fresh headers etag (md_modified m)
                   then Answer (not_modified_response etag IMMUTABLE_CACHE_CONTROL (md_modified m))
                   else Answer (apply_security_headers (insert_header "etag" etag (insert_header "cache-control" IMMUTABLE_CACHE_CONTROL
                     (insert_header "content-type" (client_asset_content_type file) (mkResponse 200 ∅ bytes))))),
                   match asset_identity m with Some id => store_asset_etag now file id etag c | None => c end)
              end
          end
      end
  end.
End files.

(** ** Ranges *)

(** What a range header asks of a file of [len] bytes. *)
Inductive range_spec (len : N) : string -> string -> RangeRequest -> Prop :=
  | range_suffix last n : byte_position last = Some n -> n <> 0%N -> len <> 0%N ->
      range_spec len "" last (Partial (mkRange (len - n) (len - 1)))
  | range_suffix_none last n : byte_position last = Some n -> n = 0%N \/ len = 0%N -> range_spec len "" last Unsatisfiable
  | range_from first n : byte_position first = Some n -> (n < len)%N -> range_spec len first "" (Partial (mkRange n (len - 1)))
  | range_between first last n k : byte_position first = Some n -> byte_position last = Some k -> (n <= k)%N -> (n < len)%N ->
      range_spec len first last (Partial (mkRange n (N.min k (len - 1))))
  | range_past first last n : byte_position first = Some n -> (len <= n)%N -> range_spec len first last Unsatisfiable
  | range_reversed first last n k : byte_position first = Some n -> byte_position last = Some k -> (k < n)%N ->
      range_spec len first last Unsatisfiable.

(** The two positions a single range names, before and after its hyphen. *)
Definition single_range (value : string) : option (string * string) :=
  spec ← strip_prefix "bytes=" (trim value);
  if has_char "," (trim spec) then None else '(first, last) ← split_once "-" (trim spec); Some (trim first, trim last).

Lemma byte_position_nonempty text n : byte_position text = Some n -> text <> "".
Proof. by intros H ->. Qed.

Lemma parse_range_decides value len :
  match parse_single_byte_range value len with
  | Whole => forall first last, single_range value = Some (first, last) -> forall answer, ~ range_spec len first last answer
  | answer => exists first last, single_range value = Some (first, last) /\ range_spec len first last answer
  end.
Proof.
  unfold parse_single_byte_range, single_range. destruct (strip_prefix "bytes=" (trim value)) as [spec|]; cbn [mbind option_bind]; [|done].
  destruct (has_char "," (trim spec)); [done|]. destruct (split_once "-" (trim spec)) as [[first last]|]; cbn [mbind option_bind]; [|done].
  set (f := trim first). set (l := trim last). clearbody f l. clear.
  destruct (is_empty_str f) eqn:Ef.
  { destruct f; [|done]. destruct (byte_position l) as [n|] eqn:El.
    - destruct (N.eqb_spec n 0), (N.eqb_spec len 0); cbn [orb]; do 2 eexists; (split; [done|]);
        first [by eapply range_suffix_none; [done|tauto]|by eapply range_suffix].
    - intros ? ? [= <- <-] answer H. inversion H; subst; congruence || by apply byte_position_nonempty in H0. }
  assert (f <> "") as Hf by (by intros ->).
  destruct (byte_position f) as [n|] eqn:En.
  2:{ intros ? ? [= <- <-] answer H. inversion H; subst; congruence. }
  destruct (N.leb_spec len n).
  { do 2 eexists. split; [done|]. by eapply range_past. }
  destruct (is_empty_str l) eqn:Eemp.
  { destruct l; [|done]. replace (len - 1 <? n)%N with false by (symmetry; apply N.ltb_ge; lia). do 2 eexists. split; [done|]. by apply range_from. }
  destruct (byte_position l) as [k|] eqn:Ek; cbn [fmap option_fmap option_map].
  - destruct (N.ltb_spec (N.min k (len - 1)) n); do 2 eexists; (split; [done|]).
    + eapply range_reversed; [done..|lia].
    + eapply range_between; [done..|lia|lia].
  - intros ? ? [= <- <-] answer Hs. inversion Hs; simplify_eq; lia.
Qed.

Lemma partial_range_bounds value len g : parse_single_byte_range value len = Partial g -> (range_start g <= range_end g < len)%N.
Proof.
  intros H. pose proof (parse_range_decides value len) as Hd. rewrite H in Hd. destruct Hd as (f & l & _ & Hs).
  inversion Hs; subst; cbn [range_start range_end]; lia.
Qed.

(** ** Responses *)

Lemma last_modified_rest modified r : status (insert_last_modified modified r) = status r /\ body (insert_last_modified modified r) = body r /\
  (forall n, n <> "last-modified" -> response_header (insert_last_modified modified r) n = response_header r n) /\
  (no_empty_header r -> no_empty_header (insert_last_modified modified r)).
Proof.
  unfold insert_last_modified. destruct (modified ≫= http_date) as [text|]; [|done]. split_and!; [done..| |by apply insert_header_no_empty].
  intros n Hn. by rewrite response_header_insert, decide_False.
Qed.

Lemma empty_response_no_empty s text : no_empty_header (mkResponse s ∅ text).
Proof. intros n. cbn [resp_headers]. by rewrite lookup_empty. Qed.

Lemma with_status_no_empty s r : no_empty_header r -> no_empty_header (with_status s r).
Proof. done. Qed.
Lemma with_status_header s r n : response_header (with_status s r) n = response_header r n.
Proof. done. Qed.

Lemma with_range_no_empty range full r : no_empty_header r -> no_empty_header (with_range range full r).
Proof. intros H. destruct range; [|done]. by apply insert_header_no_empty. Qed.

Lemma last_modified_no_empty modified r : no_empty_header r -> no_empty_header (insert_last_modified modified r).
Proof. apply (last_modified_rest modified r). Qed.
Lemma status_response_no_empty s : no_empty_header (status_response s).
Proof. apply empty_response_no_empty. Qed.

Create HintDb headers.
#[export] Hint Resolve insert_header_no_empty empty_response_no_empty with_status_no_empty with_range_no_empty last_modified_no_empty status_response_no_empty : headers.

(** Read one header of a response built by insertions. *)
Ltac read_header :=
  rewrite ?apply_security_headers_header by auto 12 with headers; cbn [with_range];
  repeat first
    [ rewrite with_status_header
    | rewrite response_header_insert; first [rewrite decide_True by done | rewrite decide_False by done]
    | rewrite (proj1 (proj2 (proj2 (last_modified_rest _ _)))) by done ];
  try done.

Lemma not_modified_response_spec etag cache_control modified :
  let r := not_modified_response etag cache_control modified in
  status r = 304%N /\ body r = "" /\ response_header r "etag" = Some etag /\ response_header r "cache-control" = Some cache_control.
Proof.
  cbn zeta. unfold not_modified_response. split_and!.
  - rewrite (proj1 (apply_security_headers_rest _)). cbn [insert_header status]. by rewrite (proj1 (last_modified_rest _ _)).
  - rewrite (proj2 (apply_security_headers_rest _)). cbn [insert_header body]. by rewrite (proj1 (proj2 (last_modified_rest _ _))).
  - read_header.
  - read_header.
Qed.

Lemma range_not_satisfiable_spec len : let r := range_not_satisfiable_response len in
  status r = 416%N /\ body r = "" /\ response_header r "content-range" = Some ("bytes */" +:+ show_N len).
Proof.
  cbn zeta. unfold range_not_satisfiable_response. split_and!; [by rewrite (proj1 (apply_security_headers_rest _))|
    by rewrite (proj2 (apply_security_headers_rest _))|read_header].
Qed.

(** [r] carries the part of [whole] that [range] names, or all of it. *)
Definition carries (whole : string) (range : option ByteRange) (r : Response) : Prop :=
  match range with
  | None => status r = 200%N /\ body r = whole
  | Some g => status r = 206%N /\ (range_start g <= range_end g < slen whole)%N /\ slen (body r) = range_len g /\
      body r = String.substring (N.to_nat (range_start g)) (N.to_nat (range_len g)) whole /\
      response_header r "content-range" = Some (content_range g (slen whole))
  end.

(** The range a request gets of [len] bytes: [None] for all of them. *)
Definition granted (answer : RangeRequest) (range : option ByteRange) : Prop :=
  match range with Some g => answer = Partial g | None => answer = Whole end.

Lemma substring_length n m s : n + m <= String.length s -> String.length (String.substring n m s) = m.
Proof.
  revert n m. induction s as [|c s IH]; intros n m H; cbn in *; [destruct n, m; cbn; lia|].
  destruct n as [|n]; [destruct m as [|m]; cbn; [done|]; f_equal; apply (IH 0); lia|apply IH; lia].
Qed.

(** The body of a buffered answer. *)
Lemma buffered_response_spec headers content_type cache_control etag modified bytes :
  exists r, buffered_response headers content_type cache_control etag modified bytes = Answer r /\
    ((request_is_fresh headers etag modified = true /\ r = not_modified_response etag cache_control modified) \/
     (request_is_fresh headers etag modified = false /\
      requested_range headers (slen bytes) (Some etag) modified = Unsatisfiable /\ r = range_not_satisfiable_response (slen bytes)) \/
     (request_is_fresh headers etag modified = false /\
      exists range, granted (requested_range headers (slen bytes) (Some etag) modified) range /\ carries bytes range r /\
        response_header r "etag" = Some etag /\ response_header r "content-type" = Some content_type)).
Proof.
  unfold buffered_response. destruct (request_is_fresh headers etag modified); [eexists; split; [done|by left]|].
  destruct (requested_range headers (slen bytes) (Some etag) modified) as [|g|] eqn:E.
  - eexists. split; [done|]. right; right. split; [done|]. exists None. split_and!; [done| |read_header..].
    cbn [carries with_range]. rewrite (proj1 (apply_security_headers_rest _)), (proj2 (apply_security_headers_rest _)).
    by rewrite (proj1 (last_modified_rest _ _)), (proj1 (proj2 (last_modified_rest _ _))).
  - assert (range_start g <= range_end g < slen bytes)%N as Hg.
    { unfold requested_range in E. repeat case_match; try done; by eapply partial_range_bounds. }
    unfold slice_range. replace (range_start g <=? range_end g + 1)%N with true by (symmetry; apply N.leb_le; lia).
    replace (range_end g <? slen bytes)%N with true by (symmetry; apply N.ltb_lt; lia). cbn [andb].
    assert (range_end g + 1 - range_start g = range_len g)%N as -> by (unfold range_len; lia).
    eexists. split; [done|]. right; right. split; [done|]. exists (Some g). split_and!; [done| |read_header..].
    cbn [carries with_range]. rewrite (proj1 (apply_security_headers_rest _)), (proj2 (apply_security_headers_rest _)).
    cbn [insert_header status body with_status]. rewrite (proj1 (proj2 (last_modified_rest _ _))). cbn [insert_header status body].
    split_and!; [done|lia|lia| |done|read_header].
    unfold slen. rewrite substring_length; [lia|]. unfold slen in Hg. unfold range_len. lia.
  - eexists. split; [done|]. right; left. done.
Qed.

Section file_spec.
Context (is_file exists_ : PathBuf -> bool) (canonicalize : PathBuf -> option PathBuf)
  (metadata : PathBuf -> option FileMetadata) (read : PathBuf -> string + ReadError) (open : PathBuf -> option OpenFile)
  (hash : string -> string) (threshold : N) (now : SystemTime).

(** [file] is what a path under [dir] leads to, and lies inside [dir], both
    with links followed. *)
Definition file_inside (dir file : PathBuf) : Prop :=
  exists root candidate, canonicalize dir = Some root /\ canonicalize candidate = Some file /\
    lexically_contained dir candidate = true /\ inside root file = true.

Lemma contained_inside dir candidate file : contained_public_asset exists_ canonicalize dir candidate = Some file -> file_inside dir file.
Proof.
  unfold contained_public_asset, file_inside. destruct (lexically_contained dir candidate) eqn:El; [|done]. cbn [negb].
  destruct (_ || _); [done|]. destruct (canonicalize dir) as [root|]; [|done]. cbn [mbind option_bind].
  destruct (canonicalize candidate) as [c|] eqn:Ec; [|done]. cbn [mbind option_bind]. destruct (inside root c) eqn:Ei; [|done].
  intros [= <-]. by exists root, candidate.
Qed.

Lemma only_candidate_in l p : only_candidate l = Some p -> p ∈ l.
Proof. destruct l as [|q l]; [done|]. cbn. destruct (forallb _ l); [|done]. intros [= <-]. by left. Qed.

Lemma resolve_public_inside dir path file : resolve_public_asset is_file exists_ canonicalize dir path = Some file -> file_inside dir file.
Proof.
  unfold resolve_public_asset. destruct (negb _); [done|]. destruct (contains_str _ _); [done|].
  destruct (is_file _); [by apply contained_inside|].
  match goal with |- context [match ?s with Some p => Some p | None => _ end] => destruct s as [p|] eqn:E end.
  - intros [= <-]. destruct (bool_decide _); [|done]. apply only_candidate_in, list_elem_of_omap in E as (e & _ & E).
    cbn zeta in E. destruct (is_file _); [by eapply contained_inside|done].
  - destruct (_ && _); [by apply contained_inside|done].
Qed.

Lemma resolve_client_inside dir path file : resolve_client_file exists_ canonicalize dir path = Some file -> file_inside dir file.
Proof.
  unfold resolve_client_file. destruct (strip_prefix _ path) as [name|]; [|done]. cbn [mbind option_bind].
  destruct (_ || _); [done|]. by apply contained_inside.
Qed.

(** A streamed answer: a 206 when a range was granted and a 200 otherwise, under
    the file's validator; its length is the one announced, and over a file that
    did not change since it was measured it carries what was asked for. *)
Definition streams (m : FileMetadata) (h : OpenFile) (validator : option string) (range : option ByteRange) (r : Response) : Prop :=
  status r = (match range with Some _ => 206 | None => 200 end)%N /\
  (forall etag, validator = Some etag -> response_header r "etag" = Some etag) /\
  (open_len h = Some (slen (open_bytes h)) -> response_header r "content-length" = Some (show_N (slen (body r)))) /\
  (open_len h = Some (slen (open_bytes h)) -> slen (open_bytes h) = md_len m -> carries (open_bytes h) range r).

Lemma substring_0_all s : String.substring 0 (String.length s) s = s.
Proof. induction s as [|c s IH]; cbn; [done|]. by rewrite IH. Qed.

Lemma substring_shorter n m s : String.length (String.substring n m s) = m `min` (String.length s - n).
Proof.
  revert n m. induction s as [|c s IH]; intros n m; [destruct n, m; cbn; lia|].
  destruct n as [|n]; [destruct m as [|m]; cbn; [done|]; rewrite IH; lia|cbn; apply IH].
Qed.

Lemma streamed_response_spec content_type etag modified range full len text :
  let r := streamed_response content_type etag modified range full len text in
  status r = (match range with Some _ => 206 | None => 200 end)%N /\ body r = text /\
  response_header r "content-length" = Some (show_N len) /\
  (forall e, etag = Some e -> response_header r "etag" = Some e) /\
  match range with Some g => response_header r "content-range" = Some (content_range g full) | None => True end.
Proof.
  cbn zeta. unfold streamed_response. set (base := insert_header "content-length" _ _).
  assert (no_empty_header base) as Hbase by (unfold base; auto with headers).
  set (x := match etag with Some e => _ | None => _ end).
  assert (no_empty_header x) as Hx by (unfold x; destruct etag; auto with headers).
  assert (status x = 200%N /\ body x = text /\ response_header x "content-length" = Some (show_N len)) as (Hs & Hb & Hl).
  { unfold x, base. destruct etag; split_and!; [done|done|read_header|done|done|read_header]. }
  assert (forall e, etag = Some e -> response_header x "etag" = Some e) as He by (intros e He; unfold x; rewrite He; read_header).
  clearbody x. destruct range as [g|]; cbn [with_range]; rewrite (proj1 (apply_security_headers_rest _)), (proj2 (apply_security_headers_rest _));
    cbn [insert_header status body with_status]; rewrite ?(proj1 (last_modified_rest _ _)), (proj1 (proj2 (last_modified_rest _ _)));
    cbn [insert_header status body]; split_and!; try done; intros; read_header; rewrite ?Hl; try done; by erewrite He.
Qed.

Lemma streamed_file_spec file m content_type etag range r :
  streamed_file_response open file m content_type etag range = Answer r ->
  (forall g, range = Some g -> range_start g <= range_end g < md_len m)%N ->
  exists h, open file = Some h /\ streams m h etag range r.
Proof.
  unfold streamed_file_response. intros H Hg. destruct (open file) as [h|]; [|done]. exists h. split; [done|].
  destruct (match range with Some _ => _ | None => _ end); [done|].
  destruct (stream_span range _) as [first len] eqn:E. injection H as <-.
  destruct (streamed_response_spec content_type etag (md_modified m) range (default (md_len m) (open_len h)) len
    (String.substring (N.to_nat first) (N.to_nat len) (open_bytes h))) as (Hs & Hb & Hl & He & Hr).
  set (r := streamed_response _ _ _ _ _ _ _) in *. clearbody r. unfold streams. rewrite Hl. split_and!; [done|done|..].
  - intros Hopen. rewrite Hb. unfold slen. rewrite substring_shorter. rewrite Hopen in E. cbn [default from_option id] in E. unfold slen in E.
    do 2 f_equal. destruct range as [g|]; cbn [stream_span] in E; injection E as <- <-; lia.
  - intros Hopen Hsame. rewrite Hopen in E, Hr. cbn [default from_option id] in E, Hr. unfold carries.
    destruct range as [g|]; cbn [stream_span] in E; injection E as <- <-; rewrite Hs, Hb.
    + specialize (Hg g eq_refl). assert (N.min (range_len g) (slen (open_bytes h) - range_start g) = range_len g) as Hlen by (unfold range_len; lia).
      rewrite Hlen in *. split_and!; [done|lia|lia| |done|done]. unfold slen in *. rewrite substring_shorter. unfold range_len in *. lia.
    + split; [done|]. unfold slen. rewrite Nat2N.id. apply substring_0_all.
Qed.

(** The version of [file] a request is answered about: its length and its
    validator.  Above the threshold they are those of the metadata, up to it
    those of the bytes read. *)
Inductive served_version (file : PathBuf) (m : FileMetadata) : N -> option string -> Prop :=
  | version_measured : (threshold < md_len m)%N -> served_version file m (md_len m) (asset_identity m ≫= weak_validator)
  | version_read bytes : (md_len m <= threshold)%N -> read file = inl bytes ->
      served_version file m (slen bytes) (Some (compute_etag hash bytes)).

(** The request does not hold the version named by this validator. *)
Definition not_held (headers : option HeaderMap) (m : FileMetadata) (validator : option string) : Prop :=
  forall etag, validator = Some etag -> request_is_fresh headers etag (md_modified m) = false.

(** The fingerprint the index holds for the file as it is measured. *)
Definition index_etag (c : AssetEtagCache) (file : PathBuf) (m : FileMetadata) : option string :=
  asset_identity m ≫= cached_asset_etag c file.

(** What a request for [file] is answered with. *)
Inductive answers (headers : option HeaderMap) (c : AssetEtagCache) (file : PathBuf) (m : FileMetadata) (r : Response) : Prop :=
  | answers_indexed etag : index_etag c file m = Some etag -> request_is_fresh headers etag (md_modified m) = true ->
      status r = 304%N -> body r = "" -> response_header r "etag" = Some etag -> answers headers c file m r
  | answers_not_modified len etag : not_held headers m (index_etag c file m) -> served_version file m len (Some etag) ->
      request_is_fresh headers etag (md_modified m) = true ->
      status r = 304%N -> body r = "" -> response_header r "etag" = Some etag -> answers headers c file m r
  | answers_unsatisfiable len validator : not_held headers m (index_etag c file m) -> served_version file m len validator -> not_held headers m validator ->
      requested_range headers len validator (md_modified m) = Unsatisfiable ->
      status r = 416%N -> body r = "" -> response_header r "content-range" = Some ("bytes */" +:+ show_N len) -> answers headers c file m r
  | answers_buffered bytes range : not_held headers m (index_etag c file m) -> (md_len m <= threshold)%N -> read file = inl bytes ->
      not_held headers m (Some (compute_etag hash bytes)) ->
      granted (requested_range headers (slen bytes) (Some (compute_etag hash bytes)) (md_modified m)) range -> carries bytes range r ->
      response_header r "etag" = Some (compute_etag hash bytes) -> answers headers c file m r
  | answers_streamed h range : let validator := asset_identity m ≫= weak_validator in
      not_held headers m (index_etag c file m) -> (threshold < md_len m)%N -> open file = Some h -> not_held headers m validator ->
      granted (requested_range headers (md_len m) validator (md_modified m)) range ->
      streams m h validator range r -> answers headers c file m r.

(** Why a request for [file] meets an internal error: its bytes cannot be read
    although the file is there, or a large file cannot be opened, or a range of
    it cannot be sought. *)
Definition read_fails (headers : option HeaderMap) (file : PathBuf) (m : FileMetadata) : Prop :=
  ((md_len m <= threshold)%N /\ exists e, read file = inr e /\ read_failure_is_a_miss e = false) \/
  ((threshold < md_len m)%N /\
   (open file = None \/
    exists h g, open file = Some h /\ can_seek h = false /\
      requested_range headers (md_len m) (asset_identity m ≫= weak_validator) (md_modified m) = Partial g)).

Lemma unsatisfiable_answers headers c file m len validator : not_held headers m (index_etag c file m) -> served_version file m len validator ->
  not_held headers m validator -> requested_range headers len validator (md_modified m) = Unsatisfiable ->
  answers headers c file m (range_not_satisfiable_response len).
Proof. intros. destruct (range_not_satisfiable_spec len) as (? & ? & ?). by eapply answers_unsatisfiable. Qed.

Lemma not_modified_answers headers c file m len etag cache_control : not_held headers m (index_etag c file m) -> served_version file m len (Some etag) ->
  request_is_fresh headers etag (md_modified m) = true ->
  answers headers c file m (not_modified_response etag cache_control (md_modified m)).
Proof. intros. destruct (not_modified_response_spec etag cache_control (md_modified m)) as (? & ? & ? & _). by eapply answers_not_modified. Qed.

Lemma requested_range_bounds headers len validator modified g : requested_range headers len validator modified = Partial g ->
  (range_start g <= range_end g < len)%N.
Proof. unfold requested_range. intros E. repeat case_match; try done; by eapply partial_range_bounds. Qed.

Lemma streamed_file_fails file m content_type etag range reason :
  streamed_file_response open file m content_type etag range = Fault reason ->
  open file = None \/ exists h g, open file = Some h /\ can_seek h = false /\ range = Some g.
Proof.
  unfold streamed_file_response. destruct (open file) as [h|]; [|auto].
  destruct range as [g|]; [|by destruct (stream_span _ _)].
  destruct (can_seek h) eqn:E; cbn [negb]; [by destruct (stream_span _ _)|]. intros _. right. by exists h, g.
Qed.

(** A large file that the request does not hold. *)
Lemma streamed_file_answers headers c file m content_type range : not_held headers m (index_etag c file m) -> (threshold < md_len m)%N ->
  let validator := asset_identity m ≫= weak_validator in
  not_held headers m validator -> granted (requested_range headers (md_len m) validator (md_modified m)) range ->
  match streamed_file_response open file m content_type validator range with
  | Answer r => answers headers c file m r | Fault _ => read_fails headers file m | Panicked | NotServed => False end.
Proof.
  intros Hc Hl validator Hv Hg. destruct (streamed_file_response _ _ _ _ _ _) as [|r|reason|] eqn:E.
  - unfold streamed_file_response in E. destruct (open file); [|done]. destruct (match range with Some _ => _ | None => _ end); [done|].
    by destruct (stream_span _ _).
  - apply streamed_file_spec in E as (h & Ho & Hs); [|by intros g ->; eapply requested_range_bounds]. by eapply answers_streamed.
  - right. split; [done|]. apply streamed_file_fails in E as [E|(h & g & Ho & Hn & ->)]; [by left|right]. by exists h, g.
  - unfold streamed_file_response in E. destruct (open file); [|done]. destruct (match range with Some _ => _ | None => _ end); [done|].
    by destruct (stream_span _ _).
Qed.

Lemma streamed_answers headers c file m : not_held headers m (index_etag c file m) -> (threshold < md_len m)%N ->
  match streamed_answer open file m headers with
  | Answer r => answers headers c file m r | Fault _ => read_fails headers file m | Panicked | NotServed => False end.
Proof.
  intros Hc Hl. unfold streamed_answer. pose proof (version_measured file m Hl) as Hver.
  pose proof (fun range => streamed_file_answers headers c file m (content_type_for file) range Hc Hl) as Hstream. cbv zeta in Hstream.
  set (validator := asset_identity m ≫= weak_validator) in *.
  assert (not_held headers m validator ->
    match match requested_range headers (md_len m) validator (md_modified m) with
          | Unsatisfiable => Answer (range_not_satisfiable_response (md_len m))
          | Whole => streamed_file_response open file m (content_type_for file) validator None
          | Partial range => streamed_file_response open file m (content_type_for file) validator (Some range) end with
    | Answer r => answers headers c file m r | Fault _ => read_fails headers file m | Panicked | NotServed => False end) as Hrange.
  { intros Hv. destruct (requested_range headers (md_len m) validator (md_modified m)) as [|g|] eqn:E;
      [by apply (Hstream None)|by apply (Hstream (Some g))|by eapply unsatisfiable_answers]. }
  destruct validator as [etag|]; [|by apply Hrange].
  destruct (request_is_fresh headers etag (md_modified m)) eqn:Ef; [by eapply not_modified_answers|].
  apply Hrange. by intros ? [= <-].
Qed.

(** The index answers a request that holds the fingerprint it has, and no other. *)
Lemma index_answers headers cache_control file m c :
  match index_answer headers cache_control file (asset_identity m) c with
  | Some r => answers headers c file m r
  | None => not_held headers m (index_etag c file m)
  end.
Proof.
  pose proof (answers_indexed headers c file m) as Hin.
  unfold index_answer, not_held, index_etag, asset_identity in *. destruct (md_modified m) as [t|] eqn:Em; cbn [fmap option_fmap option_map mbind option_bind id_modified] in *; [|done].
  destruct (cached_asset_etag c file _) as [etag|]; cbn [mbind option_bind] in *; [|done].
  destruct (request_is_fresh headers etag (Some t)) eqn:Ef; [|by intros ? [= <-]].
  destruct (not_modified_response_spec etag cache_control (Some t)) as (? & ? & ? & _). by eapply Hin.
Qed.
End file_spec.

(** ** The fingerprint index *)

(** The index holds one place in the insertion order for each file, and no more
    than its limit. *)
Definition etag_cache_ok (c : AssetEtagCache) : Prop :=
  NoDup (insertion_order c) /\ (forall f, f ∈ insertion_order c <-> is_Some (etag_entries c !! f)) /\
  length (insertion_order c) <= ASSET_ETAG_CACHE_LIMIT.

Lemma drop_oldest_spec order entries : NoDup order -> (forall f, f ∈ order <-> is_Some (entries !! f)) ->
  etag_cache_ok (drop_oldest order entries) /\ (forall f v, etag_entries (drop_oldest order entries) !! f = Some v -> entries !! f = Some v).
Proof.
  revert entries. induction order as [|oldest order IH]; intros entries Hn He; cbn [drop_oldest].
  { replace (_ <? _) with false by done. split; [|done]. unfold etag_cache_ok. cbn. split_and!; [done..|unfold ASSET_ETAG_CACHE_LIMIT; lia]. }
  destruct (Nat.ltb_spec ASSET_ETAG_CACHE_LIMIT (length (oldest :: order))) as [Hl|Hl]; [|by split].
  apply NoDup_cons in Hn as [Hnot Hn]. destruct (IH (delete oldest entries)) as [H1 H2]; [done| |].
  - intros f. destruct (decide (f = oldest)) as [->|Hne].
    + rewrite lookup_delete_eq. split; [done|by intros []].
    + rewrite lookup_delete_ne by done. rewrite <- He, elem_of_cons. naive_solver.
  - split; [done|]. intros f v Hf. apply H2 in Hf. by apply lookup_delete_Some in Hf as [_ Hf].
Qed.

Lemma store_asset_etag_spec now file identity etag c : etag_cache_ok c ->
  etag_cache_ok (store_asset_etag now file identity etag c) /\
  forall f v, etag_entries (store_asset_etag now file identity etag c) !! f = Some v ->
    etag_entries c !! f = Some v \/ (f = file /\ v = (identity, etag) /\ is_settled identity now = true).
Proof.
  intros (Hn & He & Hl). unfold store_asset_etag. destruct (is_settled identity now); [|split; [done|auto]].
  destruct (drop_oldest_spec (match etag_entries c !! file with None => insertion_order c ++ [file] | Some _ => insertion_order c end)
    (<[file := (identity, etag)]> (etag_entries c))) as [H1 H2].
  - destruct (etag_entries c !! file) eqn:E; [done|]. apply NoDup_app. split_and!; [done| |apply NoDup_singleton].
    intros f Hf ->%list_elem_of_singleton. apply He in Hf as [? Hf]. congruence.
  - intros f. destruct (decide (f = file)) as [->|Hne].
    + rewrite lookup_insert_eq. split; [by eexists|]. intros _. destruct (etag_entries c !! file) eqn:E; [by apply He; rewrite E|set_solver].
    + rewrite lookup_insert_ne, <- He by done. destruct (etag_entries c !! file); set_solver.
  - split; [done|]. intros f v Hf. apply H2, lookup_insert_Some in Hf as [[<- <-]|[_ Hf]]; auto.
Qed.

Section index.
(** A file's bytes and its modification time, at every instant. *)
Context (content : PathBuf -> Z -> string) (mtime : PathBuf -> Z -> SystemTime) (hash : string -> string).

(** The observed identity of a file. *)
Definition identity_at (file : PathBuf) (t : Z) : AssetIdentity := mkIdentity (slen (content file t)) (mtime file t).

(** A write leaves a modification time that is not more than a second before it. *)
Definition writes_are_stamped : Prop :=
  forall file t1 t2, (t1 <= t2)%Z -> content file t1 <> content file t2 -> (t1 - 1000000000 < mtime file t2)%Z.

(** From [t] on, an entry of the index names the file's bytes whenever it is used. *)
Definition index_sound (t : Z) (c : AssetEtagCache) : Prop :=
  forall file identity etag, etag_entries c !! file = Some (identity, etag) ->
    exists bytes, etag = compute_etag hash bytes /\ forall t', (t <= t')%Z -> identity_at file t' = identity -> content file t' = bytes.
End index.

(** ** Properties *)



(** C14: the fingerprint index never lends a file another version's [ETag].  The
    index keeps one place for each file it knows, within its limit.  Where file
    systems stamp a write to the second, storing the fingerprint of bytes read
    within a second before keeps the index sound: an entry found later under
    the file's length and modification time of that moment is the fingerprint of
    the bytes the file then has. *)
Theorem etag_index_never_stale content mtime hash file t_identity t_read now c :
  writes_are_stamped content mtime -> etag_cache_ok c -> index_sound content mtime hash now c ->
  (t_identity <= t_read <= now)%Z -> (now - t_read <= 1000000000)%Z ->
  let c' := store_asset_etag now file (identity_at content mtime file t_identity) (compute_etag hash (content file t_read)) c in
  etag_cache_ok c' /\ index_sound content mtime hash now c' /\
  forall f t etag, (now <= t)%Z -> cached_asset_etag c' f (identity_at content mtime f t) = Some etag -> etag = compute_etag hash (content f t).
Proof.
  intros Hw Hok Hsound Ht Hread c'.
  destruct (store_asset_etag_spec now file (identity_at content mtime file t_identity) (compute_etag hash (content file t_read)) c Hok) as [Hok' He].
  fold c' in Hok', He. assert (index_sound content mtime hash now c') as Hs'.
  { intros f identity etag Hf. apply He in Hf as [Hf|(-> & [= -> ->] & Hset)]; [by apply Hsound in Hf|].
    exists (content file t_read). split; [done|]. intros t' Ht' Hid. destruct (decide (content file t' = content file t_read)) as [|Hne]; [done|].
    exfalso. assert (t_read - 1000000000 < mtime file t')%Z as Hm by (apply Hw; [lia|congruence]).
    unfold is_settled, identity_at, ASSET_ETAG_SETTLE in *. injection Hid as _ Hid. cbn [id_modified] in Hset. apply Z.leb_le in Hset. lia. }
  split_and!; [done..|]. intros f t etag Ht' Hc. unfold cached_asset_etag in Hc.
  destruct (etag_entries c' !! f) as [[identity e]|] eqn:Ef; [|done]. cbn [mbind option_bind] in Hc.
  destruct (decide (identity = _)) as [->|]; [|done]. injection Hc as <-. apply Hs' in Ef as (bytes & -> & Hb). by rewrite (Hb t).
Qed.

Lemma etag_index_witness :
  let content := fun (_ : PathBuf) t => if (t <? 5000000000)%Z then "old" else "new" in
  let mtime := fun (_ : PathBuf) t => if (t <? 5000000000)%Z then 0%Z else 5000000000%Z in
  let c' := store_asset_etag 8000000000%Z "a" (identity_at content mtime "a" 7500000000%Z) (compute_etag id (content "a" 7500000000%Z)) new_etag_cache in
  cached_asset_etag c' "a" (identity_at content mtime "a" 9000000000%Z) = Some (compute_etag id "new") /\
  compute_etag id "new" = compute_etag id (content "a" 9000000000%Z).
Proof.
  intros content mtime c'.
  assert (writes_are_stamped content mtime) as Hw.
  { intros f t1 t2 Ht. unfold content, mtime. destruct (Z.ltb_spec t1 5000000000%Z), (Z.ltb_spec t2 5000000000%Z); intros Hc; first [done|lia]. }
  assert (etag_cache_ok new_etag_cache) as Hok.
  { split_and!; cbn; [constructor| |unfold ASSET_ETAG_CACHE_LIMIT; lia]. intros f. rewrite lookup_empty. split; [by intros Hin%not_elem_of_nil|by intros []]. }
  assert (index_sound content mtime id 8000000000%Z new_etag_cache) as Hs by (intros f i e Hin; unfold new_etag_cache in Hin; cbn [etag_entries] in Hin; by rewrite lookup_empty in Hin).
  destruct (etag_index_never_stale content mtime id "a" 7500000000%Z 7500000000%Z 8000000000%Z new_etag_cache Hw Hok Hs ltac:(lia) ltac:(lia)) as (_ & _ & H).
  assert (cached_asset_etag c' "a" (identity_at content mtime "a" 9000000000%Z) = Some (compute_etag id "new")) as Hc by (vm_compute; reflexivity).
  split; [exact Hc|]. apply (H "a" 9000000000%Z); [lia|exact Hc].
Defined.

(** A file that shrinks between its measure and its opening: the length sent is
    right, but the range named reaches past the end. *)
Example range_of_a_shrunk_file :
  exists r, streamed_file_response (fun _ => Some (mkOpen (Some 4%N) true "abcd")) "a" (mkMetadata 100 None) "text/plain" None (Some (mkRange 2 99)) = Answer r /\
    body r = "cd" /\ response_header r "content-range" = Some "bytes 2-99/4".
Proof. eexists. split; [reflexivity|]. vm_compute. done. Qed.
