(* ===== verification/HtmlDocument.v ===== *)
(** * HTML documents (ruvyxa_dev_server/src/html_document.rs)

    What is put into a rendered document and where, the escapes of text and of
    script data, the data blocks of a page, the URLs of its client bundle, and
    the cache of the client build report.  [serde_json]'s printer and parser and
    blake3 are parameters; the style sheets and markup of the error pages are
    left out, with the log. *)
From S2P Require Import Prelude RustStr Utf8 Text Paths PathBuf Manifest Order HttpDate Response StaticAssets.

(** ** Definitions *)

Definition dq : string := String "034" "".

(** *** Escapes *)

(** [s.replace(c, rep)] for an ASCII character *)
Fixpoint replace_byte (c : ascii) (rep s : string) : string :=
  match s with
  | "" => ""
  | String a s => if Ascii.eqb a c then rep +:+ replace_byte c rep s else String a (replace_byte c rep s)
  end.

(** [escape_html] *)
Definition escape_html (input : string) : string :=
  replace_byte "'" "&#39;" (replace_byte "034" "&quot;" (replace_byte ">" "&gt;" (replace_byte "<" "&lt;" (replace_byte "&" "&amp;" input)))).

(** U+2028 and U+2029, encoded *)
Definition LINE_SEPARATOR : string := String "226" (String "128" (String "168" "")).
Definition PARAGRAPH_SEPARATOR : string := String "226" (String "128" (String "169" "")).

(** [safe_json_for_script] *)
Definition safe_json_for_script (json : string) : string :=
  replace_str PARAGRAPH_SEPARATOR "\u2029" (replace_str LINE_SEPARATOR "\u2028"
    (replace_byte "&" "\u0026" (replace_byte ">" "\u003e" (replace_byte "<" "\u003c" json)))).

(** [{:02X}] of a byte *)
Definition hex_digit (n : N) : ascii := ascii_of_N (if (n <? 10)%N then 48 + n else 55 + n).
Definition hex_byte (a : ascii) : string := String (hex_digit (N_of_ascii a / 16)) (String (hex_digit (N_of_ascii a mod 16)) "").

Definition kept_in_url (a : ascii) : bool := is_alnum a || existsb (Ascii.eqb a) ["-"; "_"; "."; "~"; "/"]%char.

(** [url_encode_component] *)
Fixpoint url_encode_component (input : string) : string :=
  match input with
  | "" => ""
  | String a rest => (if kept_in_url a then String a "" else String "%" (hex_byte a)) +:+ url_encode_component rest
  end.

(** *** Where things go *)

(** A text starts with [needle], ignoring ASCII case. *)
Fixpoint starts_ascii_case (needle s : string) : bool :=
  match needle, s with
  | "", _ => true
  | String a needle, String b s => Ascii.eqb (lower_byte a) (lower_byte b) && starts_ascii_case needle s
  | _, "" => false
  end.

(** A text cut before the first such place. *)
Fixpoint cut_ascii_case (needle s : string) : option (string * string) :=
  if starts_ascii_case needle s then Some ("", s)
  else match s with
       | "" => None
       | String a s => '(before, from) ← cut_ascii_case needle s; Some (String a before, from)
       end.

(** [find_ascii_case]: its index *)
Definition find_ascii_case (input needle : string) : option nat := (fun '(before, _) => String.length before) <$> cut_ascii_case needle input.

(** [contains_ascii_case] *)
Definition contains_ascii_case (input needle : string) : bool := bool_decide (is_Some (find_ascii_case input needle)).

(** [insert_before_ascii_case] *)
Definition insert_before_ascii_case (input needle insertion : string) : string :=
  match cut_ascii_case needle input with
  | None => input +:+ insertion
  | Some (before, from) => before +:+ insertion +:+ from
  end.

Definition in_head (head_content : string) : string := "<head>" +:+ head_content +:+ "</head>".

(** [insert_after_opening_html] *)
Definition insert_after_opening_html (rendered head_content : string) : string :=
  match cut_ascii_case "<html" rendered with
  | None => rendered
  | Some (before, from) =>
      match split_once ">" from with
      | None => rendered
      | Some (opening, rest) => before +:+ opening +:+ ">" +:+ in_head head_content +:+ rest
      end
  end.

Definition SHELL_OPENING : string :=
  "<!doctype html><html lang=" +:+ dq +:+ "en" +:+ dq +:+ "><head><meta charset=" +:+ dq +:+ "utf-8" +:+ dq +:+ "><meta name=" +:+ dq +:+ "viewport" +:+ dq +:+
  " content=" +:+ dq +:+ "width=device-width, initial-scale=1" +:+ dq +:+ ">".

(** [compose_document] *)
Definition compose_document (rendered head_content hmr : string) : string :=
  if contains_ascii_case rendered "<html" then
    let with_head :=
      if contains_ascii_case rendered "<head" then insert_before_ascii_case rendered "</head>" head_content
      else match cut_ascii_case "<body" rendered with
           | Some (before, from) => before +:+ in_head head_content +:+ from
           | None => insert_after_opening_html rendered head_content
           end in
    insert_before_ascii_case with_head "</body>" hmr
  else SHELL_OPENING +:+ head_content +:+ "</head><body>" +:+ rendered +:+ hmr +:+ "</body></html>".

(** A text cut before its first white space. *)
Fixpoint cut_whitespace (fuel : nat) (l : list ascii) : list ascii * list ascii :=
  match fuel, split_char1 l with
  | S fuel, Some (c, rest) =>
      if is_char_whitespace (code_point c) then ([], l) else let '(before, from) := cut_whitespace fuel rest in (c ++ before, from)
  | _, _ => (l, [])
  end.

(** The value of an attribute, [value] being the rest of the tag from it on: what is before the locale, and what is after; [None] when its quote is not closed. *)
Definition around_value (value : string) : option (string * string) :=
  match value with
  | String quote inner =>
      if (Ascii.eqb quote "'" || Ascii.eqb quote "034")%char
      then '(_, after) ← split_once quote inner; Some (String quote "", String quote after)
      else Some ("", text_of (snd (cut_whitespace (String.length value) (bytes_of value))))
  | "" => None
  end.

(** [set_document_lang] *)
Definition set_document_lang (document locale : string) : string :=
  match cut_ascii_case "<html" document with
  | None => document
  | Some (before, from) =>
      match split_once ">" from with
      | None => document
      | Some (opening, rest) =>
          let added := before +:+ opening +:+ " lang=" +:+ dq +:+ locale +:+ dq +:+ ">" +:+ rest in
          match cut_ascii_case " lang=" opening with
          | None => added
          | Some (pre, attribute) =>
              let name := String.substring 0 6 attribute in
              let value := String.substring 6 (String.length attribute) attribute in
              if is_empty_str value then document
              else match around_value value with
                   | Some (opens, closes) => before +:+ pre +:+ name +:+ opens +:+ locale +:+ closes +:+ ">" +:+ rest
                   | None => added
                   end
          end
      end
  end.

(** [compose_document_head] *)
Definition compose_document_head (prefix head_content : string) (locale : option (string * string)) : string :=
  let with_head := insert_before_ascii_case prefix "</head>" head_content in
  match locale with
  | None => with_head
  | Some (locale, locale_head) => set_document_lang (insert_before_ascii_case with_head "</head>" locale_head) locale
  end.

(** *** What the framework adds to a head (static_assets.rs) *)

Definition DOCUMENT_ICONS : list (string * string) := [("ruvyxa.png", "image/png"); ("ruvyxa.webp", "image/webp")].

Definition DEFAULT_VIEWPORT_META : string :=
  "<meta name=" +:+ dq +:+ "viewport" +:+ dq +:+ " content=" +:+ dq +:+ "width=device-width, initial-scale=1" +:+ dq +:+ ">".

Definition OWN_ICON_DECLARATIONS : list string :=
  ["rel=" +:+ dq +:+ "icon" +:+ dq; "rel='icon'"; "rel=" +:+ dq +:+ "shortcut icon" +:+ dq; "rel='shortcut icon'";
   "rel=" +:+ dq +:+ "apple-touch-icon" +:+ dq; "rel='apple-touch-icon'"].

(** [declares_own_icon] *)
Definition declares_own_icon (lowercased : string) : bool := existsb (fun declaration => contains_str declaration lowercased) OWN_ICON_DECLARATIONS.

(** [document_head_defaults] *)
Definition document_head_defaults (document asset_links : string) : string :=
  let lower := to_ascii_lowercase document in
  (if negb (contains_str ("name=" +:+ dq +:+ "viewport" +:+ dq) lower) && negb (contains_str "name='viewport'" lower) then DEFAULT_VIEWPORT_META else "") +:+
  (if negb (declares_own_icon lower) then asset_links else "").

(** [style_head_tag] *)
Definition style_head_tag (asset_url : option string) (css : string) : string :=
  match asset_url with
  | Some url => "<link rel=" +:+ dq +:+ "stylesheet" +:+ dq +:+ " href=" +:+ dq +:+ escape_html url +:+ dq +:+ ">"
  | None => if is_empty_str css then "" else "<style data-ruvyxa-css>" +:+ css +:+ "</style>"
  end.

(** [public_asset_links] *)
Definition public_asset_links (is_file : PathBuf -> bool) (public_dir : PathBuf) : string :=
  match List.find (fun '(file, _) => is_file (join_path public_dir file)) DOCUMENT_ICONS with
  | Some (file, content_type) => "<link rel=" +:+ dq +:+ "icon" +:+ dq +:+ " type=" +:+ dq +:+ content_type +:+ dq +:+ " href=" +:+ dq +:+ "/" +:+ file +:+ dq +:+ ">"
  | None => ""
  end.

(** *** Client bundles *)

Record ClientAssets := mkAssets { src : string; preloads : list string; assets_hydration : HydrationMode; hydration_loader : option string }.

(** One route of the client build report. *)
Record ClientAssetRoute := mkAssetRoute {
  asset_path : string; asset_src : string; shared_chunks : list string; asset_hydration : HydrationMode; asset_loader : option string;
}.

(** [hydration_loader_url] *)
Definition hydration_loader_url (loader_src client_src : string) (mode : HydrationMode) : string :=
  let deferred strategy := loader_src +:+ "?strategy=" +:+ strategy +:+ "&src=" +:+ url_encode_component client_src in
  match mode with HIdle => deferred "idle" | HVisible => deferred "visible" | HLoad | HNone => client_src end.

Definition BOOTSTRAP_ELEMENT_ID : string := "__ruvyxa-bootstrap".
Definition RSC_PAYLOAD_ELEMENT_ID : string := "__ruvyxa-rsc".

(** A JSON data block. *)
Definition data_block (id json : string) : string :=
  "<script type=" +:+ dq +:+ "application/json" +:+ dq +:+ " id=" +:+ dq +:+ id +:+ dq +:+ ">" +:+ safe_json_for_script json +:+ "</script>".

(** [bootstrap_data_block]: the entries of the map, in the order of their keys; [params] is [None] when they do not serialize. *)
Definition bootstrap_data_block (to_string : Value -> string) (params : option Value) (request_path : string) (csr : bool) : string :=
  let payload := (if csr then [("csr", VBool true)] else []) ++ [("params", default (VObject []) params); ("path", VString request_path)] in
  data_block BOOTSTRAP_ELEMENT_ID (to_string (VObject payload)).

(** [rsc_payload_block] *)
Definition rsc_payload_block (to_string : Value -> string) (payload : string) : string :=
  data_block RSC_PAYLOAD_ELEMENT_ID (to_string (VString payload)).

(** [client_hydration_script]; [prebuilt] is the answer of [prebuilt_client_assets]. *)
Definition client_hydration_script (to_string : Value -> string) (watch : bool) (prebuilt : option ClientAssets) (route : RouteEntry) (request_path : string) (params : option Value) : string :=
  if negb (ships_client_bundle (render route)) then ""
  else
    match (if watch
           then Some (mkAssets ("/__ruvyxa/client?path=" +:+ url_encode_component request_path) [] (hydration (render route)) (Some "/__ruvyxa/hydration-loader.js"))
           else prebuilt) with
    | None => ""
    | Some assets =>
        let deferred := match assets_hydration assets with HIdle | HVisible => true | _ => false end in
        let preload_links :=
          if deferred then ""
          else String.concat "" ((fun s => "<link rel=" +:+ dq +:+ "modulepreload" +:+ dq +:+ " href=" +:+ dq +:+ escape_html s +:+ dq +:+ ">") <$> preloads assets) in
        let script_src := match hydration_loader assets with Some loader => hydration_loader_url loader (src assets) (assets_hydration assets) | None => src assets end in
        preload_links +:+ bootstrap_data_block to_string params request_path false +:+
        "<script type=" +:+ dq +:+ "module" +:+ dq +:+ " src=" +:+ dq +:+ escape_html script_src +:+ dq +:+ "></script>"
    end.

(** *** The client build report *)

(** The routes of a report; a path listed twice keeps its first entry. *)
Definition asset_routes (manifest : list ClientAssetRoute) : gmap string ClientAssets :=
  foldl (fun routes r => match routes !! asset_path r with
                         | Some _ => routes
                         | None => <[asset_path r := mkAssets (asset_src r) (shared_chunks r) (asset_hydration r) (asset_loader r)]> routes
                         end) ∅ manifest.

Record CachedClientManifest := mkCached { content_hash : string; sequence : N; settled_identity : option AssetIdentity; cached_routes : gmap string ClientAssets }.

Record ClientManifestCache := mkManifestCache {
  manifests : gmap PathBuf CachedClientManifest;
  next_sequence : N;
  reported_failures : gmap PathBuf string;
}.
Definition new_manifest_cache : ClientManifestCache := mkManifestCache ∅ 0 ∅.

Definition MAX_CACHED_MANIFEST_ROOTS : nat := 128.
Definition MANIFEST_SETTLE : Z := 2000000000.

(** [manifest_identity]: the metadata, if it can be read and is old enough at [now]. *)
Definition manifest_identity (metadata : option AssetIdentity) (now : SystemTime) : option AssetIdentity :=
  identity ← metadata; if (MANIFEST_SETTLE <=? now - id_modified identity)%Z then Some identity else None.

(** The entry with the smallest sequence. *)
Definition oldest_manifest (entries : gmap PathBuf CachedClientManifest) : option PathBuf :=
  fst <$> max_by (fun x y => N.compare (sequence (snd y)) (sequence (snd x))) (rev (map_to_list entries)).

(** The loop of [ClientManifestCache::insert]. *)
Fixpoint evict_manifests (fuel : nat) (entries : gmap PathBuf CachedClientManifest) : gmap PathBuf CachedClientManifest :=
  match fuel with
  | S fuel =>
      if MAX_CACHED_MANIFEST_ROOTS <? size entries then
        match oldest_manifest entries with None => entries | Some oldest => evict_manifests fuel (delete oldest entries) end
      else entries
  | O => entries
  end.

(** [ClientManifestCache::insert] *)
Definition insert_manifest (path : PathBuf) (entry : CachedClientManifest) (c : ClientManifestCache) : ClientManifestCache :=
  let entries := <[path := entry]> (manifests c) in mkManifestCache (evict_manifests (size entries) entries) (next_sequence c) (reported_failures c).

(** [take_sequence] *)
Definition take_sequence (c : ClientManifestCache) : N * ClientManifestCache :=
  (next_sequence c, mkManifestCache (manifests c) (next_sequence c + 1) (reported_failures c)).

(** [report_manifest_failure]: whether it is logged *)
Definition report_manifest_failure (path : PathBuf) (reason : string) (c : ClientManifestCache) : bool * ClientManifestCache :=
  if bool_decide (reported_failures c !! path = Some reason) then (false, c)
  else
    let reported := if MAX_CACHED_MANIFEST_ROOTS <=? size (reported_failures c) then ∅ else reported_failures c in
    (true, mkManifestCache (manifests c) (next_sequence c) (<[path := reason]> reported)).

(** [clear_manifest_failure] *)
Definition clear_manifest_failure (path : PathBuf) (c : ClientManifestCache) : ClientManifestCache :=
  mkManifestCache (manifests c) (next_sequence c) (delete path (reported_failures c)).

Inductive ClientManifest := Absent | Unreadable | Loaded (routes : gmap string ClientAssets).

(** What reading the report gives. *)
Inductive ReadReport := ReadMissing | ReadFailed (reason : string) | ReadBytes (source : string).

(** *** [load_client_manifest], a lock taken at a time *)

(** The answer of the metadata alone. *)
Definition load_settled (path : PathBuf) (identity : option AssetIdentity) (c : ClientManifestCache) : option ClientManifest :=
  identity ← identity; entry ← manifests c !! path;
  if decide (settled_identity entry = Some identity) then Some (Loaded (cached_routes entry)) else None.

(** The answer of the bytes' hash; the entry learns the identity read before. *)
Definition load_same_bytes (hash : string -> string) (path : PathBuf) (identity : option AssetIdentity) (source : string) (c : ClientManifestCache) : option (ClientManifest * ClientManifestCache) :=
  entry ← manifests c !! path;
  if String.eqb (content_hash entry) (hash source)
  then Some (Loaded (cached_routes entry),
             mkManifestCache (<[path := mkCached (content_hash entry) (sequence entry) identity (cached_routes entry)]> (manifests c)) (next_sequence c) (reported_failures c))
  else None.

(** The parse is stored, with the identity read after it. *)
Definition store_parsed (hash : string -> string) (path : PathBuf) (source : string) (routes : gmap string ClientAssets) (identity_after : option AssetIdentity) (c : ClientManifestCache) : ClientManifestCache :=
  let '(sequence, c) := take_sequence c in insert_manifest path (mkCached (hash source) sequence identity_after routes) c.

(** The whole of it, when nobody else is at the cache: [identity] is read first, then the bytes, then [identity_after]. *)
Definition load_client_manifest (hash : string -> string) (from_slice : string -> list ClientAssetRoute + string)
    (path : PathBuf) (identity : option AssetIdentity) (read : ReadReport) (identity_after : option AssetIdentity) (c : ClientManifestCache)
    : ClientManifest * ClientManifestCache :=
  match load_settled path identity c with
  | Some answer => (answer, c)
  | None =>
      match read with
      | ReadMissing => (Absent, clear_manifest_failure path c)
      | ReadFailed reason => (Unreadable, snd (report_manifest_failure path reason c))
      | ReadBytes source =>
          match load_same_bytes hash path identity source c with
          | Some (answer, c) => (answer, c)
          | None =>
              match from_slice source with
              | inr reason => (Unreadable, snd (report_manifest_failure path reason c))
              | inl manifest =>
                  let c := clear_manifest_failure path c in
                  let routes := asset_routes manifest in
                  (Loaded routes, store_parsed hash path source routes identity_after c)
              end
          end
      end
  end.

(** [prebuilt_client_assets] *)
Definition prebuilt_client_assets (answer : ClientManifest) (route_path : string) : option ClientAssets :=
  match answer with Loaded routes => routes !! route_path | Absent | Unreadable => None end.

(** *** Errors *)

(** [extract_code_frame], over the lines of the file *)
Definition extract_code_frame (lines : list string) (line : N) : option string :=
  let idx := N.to_nat (line - 1) in
  if length lines <=? idx then None
  else
    let first := idx - 2 in let last := Nat.min (idx + 3) (length lines) in
    let max_digits := Nat.max (String.length (show_N (N.of_nat last))) 2 in
    Some (String.concat "" (imap (fun i text =>
      let i := first + i in
      let number := show_N (N.of_nat (i + 1)) in
      " " +:+ (if i =? idx then ">" else " ") +:+ " " +:+ repeat_str (max_digits - String.length number) " " +:+ number +:+ " │ " +:+ text +:+
      (if i =? idx then "  ← error" else "") +:+ String "010" "") (take (last - first) (drop first lines)))).

(** [public_internal_error] *)
Definition public_internal_error (watch : bool) (error : string) : string := if watch then error else "Internal server error".

(** ** Specification *)

(** The hexadecimal value of a digit. *)
Definition hex_value (a : ascii) : option N :=
  let n := N_of_ascii a in
  if is_digit a then Some (n - 48)%N
  else if ((97 <=? n) && (n <=? 102))%N then Some (n - 87)%N
  else if ((65 <=? n) && (n <=? 70))%N then Some (n - 55)%N else None.

(** The bytes of a code unit below 65536. *)
Definition unit_bytes (n : N) : list ascii :=
  (if n <? 128 then [ascii_of_N n]
   else if n <? 2048 then [ascii_of_N (192 + n / 64); ascii_of_N (128 + n mod 64)]
   else [ascii_of_N (224 + n / 4096); ascii_of_N (128 + (n / 64) mod 64); ascii_of_N (128 + n mod 64)])%N.

Definition simple_escape (a : ascii) : option ascii :=
  match a with
  | "034" | "\" | "/" => Some a
  | "b" => Some "008" | "f" => Some "012" | "n" => Some "010" | "r" => Some "013" | "t" => Some "009"
  | _ => None
  end%char.

(** A byte JSON has outside its strings. *)
Definition structural (a : ascii) : bool := is_space a || is_alnum a || existsb (Ascii.eqb a) ["{"; "}"; "["; "]"; ":"; ","; "+"; "-"; "."]%char.

(** Where a reader of JSON is: between strings, in one, after its backslash, or in the digits of a code unit. *)
Inductive JsonState := Outside | InString | Escaped | CodeUnit (digits : nat) (value : N).

(** What a byte says there: bytes between the strings, and bytes the strings mean. *)
Definition json_step (state : JsonState) (a : ascii) : option (list (bool * ascii) * JsonState) :=
  match state with
  | Outside => if Ascii.eqb a "034" then Some ([(false, a)], InString) else if structural a then Some ([(false, a)], Outside) else None
  | InString => if Ascii.eqb a "034" then Some ([(false, a)], Outside) else if Ascii.eqb a "\" then Some ([], Escaped) else Some ([(true, a)], InString)
  | Escaped => if Ascii.eqb a "u" then Some ([], CodeUnit 3 0) else c ← simple_escape a; Some ([(true, c)], InString)
  | CodeUnit digits value =>
      n ← hex_value a;
      let value := (value * 16 + n)%N in
      match digits with O => Some (pair true <$> unit_bytes value, InString) | S digits => Some ([], CodeUnit digits value) end
  end.

(** What a text says from there on, and where it leaves the reader. *)
Fixpoint json_read (state : JsonState) (s : string) : option (list (bool * ascii) * JsonState) :=
  match s with
  | "" => Some ([], state)
  | String a s =>
      '(out, state) ← json_step state a; '(rest, state) ← json_read state s; Some (out ++ rest, state)
  end.

(** The character references of [escape_html], read back. *)
Definition references : list (string * ascii) :=
  [("&amp;", "&"%char); ("&lt;", "<"%char); ("&gt;", ">"%char); ("&quot;", "034"%char); ("&#39;", "'"%char)].

Fixpoint unescape_html (fuel : nat) (s : string) : string :=
  match fuel, s with
  | S fuel, String a rest =>
      match find_map (fun '(reference, c) => (fun r => (c, r)) <$> strip_prefix reference s) references with
      | Some (c, rest) => String c (unescape_html fuel rest)
      | None => String a (unescape_html fuel rest)
      end
  | _, _ => ""
  end.

(** ** Properties *)

(** *** Text *)

Definition html_reference (a : ascii) : string :=
  match a with
  | "&"%char => "&amp;" | "<"%char => "&lt;" | ">"%char => "&gt;" | "034"%char => "&quot;" | "'"%char => "&#39;"
  | a => String a ""
  end.

Fixpoint flat_string (f : ascii -> string) (s : string) : string := match s with "" => "" | String a s => f a +:+ flat_string f s end.

Lemma replace_byte_flat c rep f s : replace_byte c rep (flat_string f s) = flat_string (fun a => replace_byte c rep (f a)) s.
Proof.
  induction s as [|a s IH]; [done|]. cbn [flat_string]. rewrite <- IH. generalize (flat_string f s). intros t.
  induction (f a) as [|b u IHu]; [done|]. cbn. destruct (Ascii.eqb b c); rewrite IHu; [by rewrite sapp_assoc|done].
Qed.

Lemma flat_string_ext f g s : (forall a, f a = g a) -> flat_string f s = flat_string g s.
Proof. intros H. induction s as [|a s IH]; [done|]. cbn. by rewrite H, IH. Qed.

(** The five passes are one: none touches what another wrote. *)
Lemma escape_html_flat s : escape_html s = flat_string html_reference s.
Proof.
  assert (s = flat_string (fun a => String a "") s) as E by (induction s as [|a s IH]; [done|]; cbn; by rewrite <- IH).
  unfold escape_html. rewrite E at 1. rewrite !replace_byte_flat. apply flat_string_ext. intros a.
  by destruct a as [[] [] [] [] [] [] [] []].
Qed.

Lemma flat_string_sapp f s t : flat_string f (s +:+ t) = flat_string f s +:+ flat_string f t.
Proof. induction s as [|a s IH]; [done|]. cbn. by rewrite IH, sapp_assoc. Qed.

Lemma unescape_one fuel a s :
  unescape_html (S fuel) (html_reference a +:+ s) = String a (unescape_html fuel s).
Proof. by destruct a as [[] [] [] [] [] [] [] []]. Qed.

Lemma has_char_reference a c : existsb (Ascii.eqb c) ["<"; ">"; "034"; "'"]%char = true -> has_char c (html_reference a) = false.
Proof.
  cbn. intros H. assert (c = "<"%char \/ c = ">"%char \/ c = "034"%char \/ c = "'"%char) as Hc.
  { rewrite !orb_true_iff in H. destruct H as [H|[H|[H|[H|H]]]]; [apply Ascii.eqb_eq in H; auto..|done]. }
  by destruct Hc as [-> | [-> | [-> | ->]]]; destruct a as [[] [] [] [] [] [] [] []].
Qed.

(** Text put into a document stays text: what [escape_html] gives holds no angle bracket and no quote, so it neither opens nor closes a tag nor ends an attribute; and the character references of the result, read back by a browser, give the text that was escaped. *)
Theorem escaped_text_reads_back s fuel :
  String.length s <= fuel ->
  unescape_html fuel (escape_html s) = s /\
  Forall (fun c => has_char c (escape_html s) = false) ["<"; ">"; "034"; "'"]%char.
Proof.
  rewrite escape_html_flat. intros Hf. split.
  - revert fuel Hf. induction s as [|a s IH]; intros fuel Hf; [by destruct fuel|].
    destruct fuel as [|fuel]; [by cbn in Hf; lia|]. cbn [flat_string]. rewrite unescape_one, IH; [done|]. cbn in Hf. lia.
  - apply Forall_forall. intros c Hc.
    assert (existsb (Ascii.eqb c) ["<"; ">"; "034"; "'"]%char = true) as H by (apply existsb_exists; exists c; by rewrite <- list_elem_of_In, Ascii.eqb_refl).
    clear Hc Hf. induction s as [|a s IH]; [done|]. cbn [flat_string]. rewrite has_char_sapp, IH. by rewrite has_char_reference.
Qed.

Lemma escaped_text_reads_back_witness :
  let s := "<b id='x'>1 & " +:+ dq +:+ "2" +:+ dq in
  unescape_html 100 (escape_html s) = s /\ has_char "<" (escape_html s) = false.
Proof. cbv zeta. split; [apply escaped_text_reads_back; vm_compute; lia|]. pose proof (proj2 (escaped_text_reads_back ("<b id='x'>1 & " +:+ dq +:+ "2" +:+ dq) 100 ltac:(vm_compute; lia))) as H. by inversion H. Defined.

(** *** Replacement *)

Lemma replace_fuel_enough pat rep n m s :
  pat <> "" -> String.length s < n -> String.length s < m -> replace_fuel n pat rep s = replace_fuel m pat rep s.
Proof.
  intros Hp. revert m s. induction n as [|n IH]; intros m s Hn Hm; [lia|]. destruct m as [|m]; [lia|]. cbn.
  destruct (strip_prefix pat s) as [rest|] eqn:E.
  - f_equal. apply strip_prefix_Some in E as ->. rewrite slength_sapp in *. destruct pat; [done|]. cbn in *. apply IH; lia.
  - destruct s; [done|]. f_equal. cbn in *. apply IH; lia.
Qed.

Lemma replace_str_match pat rep rest : pat <> "" -> replace_str pat rep (pat +:+ rest) = rep +:+ replace_str pat rep rest.
Proof.
  intros Hp. unfold replace_str at 1. cbn [replace_fuel]. rewrite strip_prefix_app. f_equal.
  apply replace_fuel_enough; [done| |lia]. rewrite slength_sapp. destruct pat; [done|]. cbn. lia.
Qed.

Lemma replace_str_skip pat rep a s : strip_prefix pat (String a s) = None -> replace_str pat rep (String a s) = String a (replace_str pat rep s).
Proof. intros H. unfold replace_str. cbn [String.length]. generalize (S (String.length s)). intros n. cbn [replace_fuel]. by rewrite H. Qed.

Lemma replace_byte_str c rep s : replace_byte c rep s = replace_str (String c "") rep s.
Proof.
  induction s as [|a s IH]; [done|]. cbn [replace_byte]. destruct (Ascii.eqb_spec a c) as [->|Hne].
  - by rewrite IH, <- (replace_str_match (String c "") rep s).
  - rewrite replace_str_skip, IH; [done|]. cbn. by destruct (Ascii.eqb_spec c a) as [->|].
Qed.

(** A text by its pieces: replaced, or kept. *)
Lemma replace_str_ind pat rep (P : string -> string -> Prop) :
  pat <> "" -> P "" "" ->
  (forall rest, P rest (replace_str pat rep rest) -> P (pat +:+ rest) (rep +:+ replace_str pat rep rest)) ->
  (forall a s, strip_prefix pat (String a s) = None -> P s (replace_str pat rep s) -> P (String a s) (String a (replace_str pat rep s))) ->
  forall s, P s (replace_str pat rep s).
Proof.
  intros Hp H0 Hm Hs s. remember (String.length s) as n eqn:Hn. revert s Hn.
  induction n as [n IH] using lt_wf_ind. intros s ->. destruct s as [|a s]; [by destruct pat|].
  destruct (strip_prefix pat (String a s)) as [rest|] eqn:E.
  - pose proof (proj1 (strip_prefix_Some _ _ _) E) as Es. rewrite Es, replace_str_match by done.
    apply Hm. apply (IH (String.length rest)); [|done]. rewrite Es, slength_sapp. destruct pat; [done|]. cbn. lia.
  - rewrite replace_str_skip by done. apply Hs; [done|]. apply (IH (String.length s)); [cbn; lia|done].
Qed.

(** What no replacement wrote was there before. *)
Lemma strip_through_replace pat b rep p s r :
  pat <> "" -> has_char b p = false ->
  strip_prefix p (replace_str pat (String b rep) s) = Some r -> is_Some (strip_prefix p s).
Proof.
  intros Hp. revert r p. apply (replace_str_ind pat (String b rep) (fun s out => forall r p, has_char b p = false -> strip_prefix p out = Some r -> is_Some (strip_prefix p s))); [done|..].
  - intros r p _ ->. eauto.
  - intros rest _ r p Hb. destruct p as [|a p]; [by eexists|]. cbn in *. by apply orb_false_iff in Hb as [-> _].
  - intros a s' _ IH r p Hb. destruct p as [|c p]; [by eexists|]. cbn in *. apply orb_false_iff in Hb as [_ Hb].
    destruct (Ascii.eqb c a); [|done]. by apply IH.
Qed.

Lemma contains_str_cons_free c p rep s : has_char c rep = false -> contains_str (String c p) (rep +:+ s) = contains_str (String c p) s.
Proof.
  induction rep as [|a rep IH]; [done|]. cbn. intros [Ha Hr]%orb_false_iff. rewrite IH by done.
  by rewrite Ascii.eqb_sym, Ha.
Qed.

(** A text is absent from the result when it was absent, or was what is replaced. *)
Lemma replace_str_free c p pat b rep s :
  pat <> "" -> has_char c (String b rep) = false -> has_char b (String c p) = false ->
  pat = String c p \/ contains_str (String c p) s = false ->
  contains_str (String c p) (replace_str pat (String b rep) s) = false.
Proof.
  intros Hp Hc Hb.
  apply (replace_str_ind pat (String b rep) (fun s out => pat = String c p \/ contains_str (String c p) s = false -> contains_str (String c p) out = false)); [done|done|..].
  - intros rest IH H. rewrite contains_str_cons_free by done. apply IH. destruct H as [H|H]; [by left|right].
    clear IH. induction pat as [|a pat IHp]; [done|]. destruct pat as [|a' pat]; cbn in H; apply orb_false_iff in H as [_ H]; [done|]. apply IHp; done.
  - intros a s' Hs IH H.
    assert (starts_with (String c p) (String a (replace_str pat (String b rep) s')) = false) as Hst.
    { rewrite starts_with_strip. apply bool_decide_eq_false. intros [r Hr]. rewrite <- (replace_str_skip pat (String b rep)) in Hr by done.
      apply strip_through_replace in Hr; [|done|done]. destruct H as [-> |H]; [by rewrite Hs in Hr; destruct Hr|].
      cbn [contains_str] in H. apply orb_false_iff in H as [H _]. rewrite starts_with_strip in H. by apply bool_decide_eq_false in H. }
    cbn [contains_str]. rewrite Hst. cbn. apply IH. destruct H as [H|H]; [by left|right]. cbn [contains_str] in H. by apply orb_false_iff in H as [_ ?].
Qed.

(** *** JSON data *)

(** A byte that only stands for itself, and only in a string. *)
Definition plain (a : ascii) : bool :=
  negb (structural a) && negb (Ascii.eqb a "034") && negb (Ascii.eqb a "\") && negb (Ascii.eqb a "/") && bool_decide (hex_value a = None).

Lemma simple_escape_not_plain a c : simple_escape a = Some c -> plain a = false.
Proof. by destruct a as [[] [] [] [] [] [] [] []]. Qed.

Lemma plain_step c state out state' :
  plain c = true -> json_step state c = Some (out, state') -> state = InString /\ out = [(true, c)] /\ state' = InString.
Proof.
  intros Hp. assert (simple_escape c = None) as Hc.
  { destruct (simple_escape c) as [x|] eqn:E; [|done]. apply simple_escape_not_plain in E. congruence. }
  unfold plain in Hp. rewrite !andb_true_iff, !negb_true_iff in Hp. destruct Hp as [[[[Hs Hq] He] _] Hx%bool_decide_eq_true].
  destruct state; cbn; rewrite ?Hq, ?He, ?Hs, ?Hx, ?Hc; [done| |..].
  - by intros [= <- <-].
  - by destruct (Ascii.eqb_spec c "u") as [->|_].
  - done.
Qed.

Lemma plain_step_in_string c : plain c = true -> json_step InString c = Some ([(true, c)], InString).
Proof.
  unfold plain. rewrite !andb_true_iff, !negb_true_iff. intros [[[[_ Hq] He] _] _]. cbn. by rewrite Hq, He.
Qed.

Lemma json_read_sapp state p s :
  json_read state (p +:+ s) = '(out, state) ← json_read state p; '(rest, state) ← json_read state s; Some (out ++ rest, state).
Proof.
  revert state. induction p as [|a p IH]; intros state; cbn.
  - by destruct (json_read state s) as [[rest state']|].
  - destruct (json_step state a) as [[out state']|]; [|done]. cbn. rewrite IH.
    destruct (json_read state' p) as [[out' state'']|]; [|done]. cbn.
    destruct (json_read state'' s) as [[rest state3]|]; [|done]. cbn. by rewrite app_assoc.
Qed.

(** A pass that writes, for a text that only occurs in strings, what means the same there. *)
Lemma replace_str_read c p rep state s t :
  plain c = true -> json_read InString rep = json_read InString (String c p) ->
  json_read state s = Some t -> json_read state (replace_str (String c p) rep s) = Some t.
Proof.
  intros Hc Hrep. revert state t.
  apply (replace_str_ind (String c p) rep (fun s out => forall state t, json_read state s = Some t -> json_read state out = Some t)); [done..| |].
  - intros rest IH state t H. assert (state = InString) as ->.
    { cbn [String.append json_read] in H. apply bind_Some in H as ([out state'] & H & _). by apply plain_step in H as [-> _]. }
    rewrite json_read_sapp in H |- *. rewrite Hrep. apply bind_Some in H as ([out state] & -> & H).
    cbn [mbind option_bind]. apply bind_Some in H as ([out' state'] & Hr & [= <-]). by rewrite (IH state _ Hr).
  - intros a s' _ IH state t H. cbn [json_read] in *. apply bind_Some in H as ([out state'] & -> & H).
    cbn [mbind option_bind]. apply bind_Some in H as ([out' state''] & Hr & [= <-]). by rewrite (IH state' _ Hr).
Qed.

(** The texts [safe_json_for_script] takes out. *)
Definition script_breaking : list string := ["<"; ">"; "&"; LINE_SEPARATOR; PARAGRAPH_SEPARATOR].

Ltac absent := apply replace_str_free; [done|reflexivity|reflexivity|].

(** C29: Data put into a script element: what [safe_json_for_script] makes of a JSON text holds no angle bracket, no ampersand and no U+2028 or U+2029, so nothing in it can close the element or end a line of script; and a reader of JSON takes from it what it takes from the text — the same bytes between the strings, and strings that mean the same bytes. *)
Theorem script_data_is_inert json :
  Forall (fun p => contains_str p (safe_json_for_script json) = false) script_breaking /\
  forall meaning, json_read Outside json = Some meaning -> json_read Outside (safe_json_for_script json) = Some meaning.
Proof.
  unfold safe_json_for_script. rewrite !replace_byte_str. split.
  - repeat apply List.Forall_cons; [..|by apply Forall_nil].
    + do 4 (absent; right). absent. by left.
    + do 3 (absent; right). absent. by left.
    + do 2 (absent; right). absent. by left.
    + absent; right. absent. by left.
    + absent. by left.
  - intros t H. do 5 (apply replace_str_read; [reflexivity|reflexivity|]). done.
Qed.

Lemma script_data_is_inert_witness :
  let json := "{" +:+ dq +:+ "a" +:+ dq +:+ ":" +:+ dq +:+ "</script>&" +:+ LINE_SEPARATOR +:+ dq +:+ "}" in
  exists meaning, json_read Outside json = Some (meaning, Outside) /\ json_read Outside (safe_json_for_script json) = Some (meaning, Outside).
Proof.
  eexists. split; [by vm_compute|]. apply script_data_is_inert. by vm_compute.
Defined.

(** *** The client build report *)

Section report.
(** The file systems history: the report's bytes, its time stamp, and whether its metadata can be read, at each moment. *)
Context (content : PathBuf -> Z -> string) (mtime : PathBuf -> Z -> SystemTime) (readable : PathBuf -> Z -> bool).
Context (hash : string -> string) (from_slice : string -> list ClientAssetRoute + string).

(** [manifest_identity] at a moment. *)
Definition identity_seen (path : PathBuf) (t : Z) : option AssetIdentity :=
  manifest_identity (if readable path t then Some (identity_at content mtime path t) else None) t.

(** A parse is that of bytes with this hash. *)
Definition parse_of (digest : string) (routes : gmap string ClientAssets) : Prop :=
  exists bytes manifest, hash bytes = digest /\ from_slice bytes = inl manifest /\ routes = asset_routes manifest.

(** From [now] on, what the cache keeps of a report is a parse of the bytes it hashed, and they are the report's whenever the metadata matches. *)
Definition entry_sound (now : Z) (path : PathBuf) (entry : CachedClientManifest) : Prop :=
  parse_of (content_hash entry) (cached_routes entry) /\
  forall identity t, settled_identity entry = Some identity -> (now <= t)%Z -> identity_at content mtime path t = identity -> hash (content path t) = content_hash entry.

Definition cache_sound (now : Z) (c : ClientManifestCache) : Prop :=
  (forall path entry, manifests c !! path = Some entry -> entry_sound now path entry /\ (sequence entry < next_sequence c)%N) /\
  size (manifests c) <= MAX_CACHED_MANIFEST_ROOTS.

Lemma cache_sound_later now now' c : (now <= now')%Z -> cache_sound now c -> cache_sound now' c.
Proof.
  intros Hn [He Hs]. split; [|done]. intros path entry H. apply He in H as [[Hp Hi] Hq]. split; [split; [done|]|done].
  intros identity t Hid Ht. apply Hi; [done|lia].
Qed.

Lemma failures_sound now c reported : cache_sound now c -> cache_sound now (mkManifestCache (manifests c) (next_sequence c) reported).
Proof. done. Qed.

#[local] Instance by_sequence_order : CmpOrder (fun x y : PathBuf * CachedClientManifest => N.compare (sequence (snd y)) (sequence (snd x))).
Proof. split; [intros x y; apply N.compare_antisym|intros x y z; rewrite !N.compare_le_iff; lia]. Qed.

Lemma oldest_manifest_spec entries path : oldest_manifest entries = Some path ->
  exists entry, entries !! path = Some entry /\ forall path' entry', entries !! path' = Some entry' -> (sequence entry <= sequence entry')%N.
Proof.
  unfold oldest_manifest. intros ([p entry] & Hm & ->)%fmap_Some. apply max_by_spec in Hm as [Hin Hmax].
  rewrite list_elem_of_In, <- in_rev, <- list_elem_of_In, elem_of_map_to_list in Hin. exists entry. split; [done|]. intros path' entry' Hl.
  specialize (Hmax (path', entry')). rewrite list_elem_of_In, <- in_rev, <- list_elem_of_In, elem_of_map_to_list, N.compare_le_iff in Hmax. by apply Hmax.
Qed.

Lemma oldest_manifest_some entries : entries <> ∅ -> is_Some (oldest_manifest entries).
Proof.
  intros H. unfold oldest_manifest. rewrite fmap_is_Some. destruct (rev (map_to_list entries)) eqn:E; [|by eexists].
  exfalso. apply H. rewrite <- map_to_list_empty_iff. apply Permutation_nil. rewrite <- E. symmetry. apply Permutation_rev.
Qed.

(** The newest entry survives the eviction it causes. *)
Lemma evict_oldest path (entry : CachedClientManifest) entries :
  size entries <= MAX_CACHED_MANIFEST_ROOTS -> (forall p e, entries !! p = Some e -> (sequence e < sequence entry)%N) ->
  let kept := evict_manifests (size (<[path := entry]> entries)) (<[path := entry]> entries) in
  kept !! path = Some entry /\ kept ⊆ <[path := entry]> entries /\ size kept <= MAX_CACHED_MANIFEST_ROOTS.
Proof.
  intros Hsize Hold kept. pose proof (map_size_insert path entry entries) as Hins. unfold kept. clear kept.
  destruct (size (<[path := entry]> entries)) as [|n] eqn:En.
  { apply map_size_empty_inv in En. by apply insert_non_empty in En. }
  cbn [evict_manifests]. rewrite En.
  destruct (Nat.ltb_spec MAX_CACHED_MANIFEST_ROOTS (S n)) as [Hlt|Hle]; [|rewrite lookup_insert_eq, En; by split_and!].
  assert (entries !! path = None) as Hnew by (destruct (entries !! path); [unfold id in Hins; lia|done]). rewrite Hnew in Hins.
  destruct (oldest_manifest_some (<[path := entry]> entries)) as [oldest Ho]; [apply insert_non_empty|]. rewrite Ho.
  apply oldest_manifest_spec in Ho as (e & He & Hmin).
  assert (oldest <> path) as Hne.
  { intros ->. rewrite lookup_insert_eq in He. injection He as <-.
    destruct (map_choose entries) as (p & e & Hp); [intros ->; by rewrite map_size_empty in Hins; unfold MAX_CACHED_MANIFEST_ROOTS in *; lia|].
    pose proof (Hold _ _ Hp). assert (p <> path) by congruence. specialize (Hmin p e). rewrite lookup_insert_ne in Hmin by done. specialize (Hmin Hp). lia. }
  assert (size (delete oldest (<[path := entry]> entries)) = n) as Hd by (rewrite map_size_delete_Some by eauto; lia).
  replace (evict_manifests n (delete oldest (<[path := entry]> entries))) with (delete oldest (<[path := entry]> entries)).
  2:{ destruct n as [|n']; [done|]. cbn [evict_manifests]. rewrite Hd. destruct (Nat.ltb_spec MAX_CACHED_MANIFEST_ROOTS (S n')); [lia|done]. }
  rewrite lookup_delete_ne, lookup_insert_eq by done. split; [done|]. split; [apply delete_subseteq|]. lia.
Qed.

Lemma identity_seen_inv path t identity : identity_seen path t = Some identity ->
  identity_at content mtime path t = identity /\ (mtime path t <= t - 2000000000)%Z.
Proof.
  unfold identity_seen. destruct (readable path t); cbn; [|done].
  destruct (Z.leb_spec MANIFEST_SETTLE (t - mtime path t)); unfold MANIFEST_SETTLE in *; [|done]. intros [= <-]. split; [done|lia].
Qed.

(** An identity that was settled when seen pins the bytes of a read that came after it, or less than a second before it. *)
Lemma settled_identity_pins path t_seen t_read identity t :
  writes_are_stamped content mtime -> identity_seen path t_seen = Some identity ->
  (t_seen - 1000000000 <= t_read)%Z -> (t_read <= t)%Z -> identity_at content mtime path t = identity ->
  content path t = content path t_read.
Proof.
  intros Hw [Hi Hm]%identity_seen_inv H1 H2 Ht. destruct (decide (content path t = content path t_read)) as [|Hne]; [done|].
  exfalso. assert (t_read - 1000000000 < mtime path t)%Z by (apply Hw; [lia|congruence]).
  rewrite <- Ht in Hi. unfold identity_at in Hi. injection Hi as _ Hi. lia.
Qed.

Lemma insert_manifest_sound now path entry c :
  cache_sound now c -> entry_sound now path entry -> (sequence entry < next_sequence c)%N ->
  (forall p e, manifests c !! p = Some e -> (sequence e < sequence entry)%N) ->
  cache_sound now (insert_manifest path entry c) /\ manifests (insert_manifest path entry c) !! path = Some entry.
Proof.
  intros [Hc Hs] He Hq Hold. destruct (evict_oldest path entry (manifests c) Hs Hold) as (Hp & Hsub & Hsize).
  unfold insert_manifest. cbn. split; [|done]. split; [|done]. cbn. intros p e H.
  apply (lookup_weaken _ _ _ _ H) in Hsub. apply lookup_insert_Some in Hsub as [[<- <-]|[_ Hsub]]; [done|by apply Hc].
Qed.

Lemma load_settled_fresh t path c answer :
  cache_sound t c -> load_settled path (identity_seen path t) c = Some answer ->
  exists routes, answer = Loaded routes /\ parse_of (hash (content path t)) routes.
Proof.
  intros [Hc _]. unfold load_settled. destruct (identity_seen path t) as [identity|] eqn:Hi; [|done]. cbn.
  destruct (manifests c !! path) as [entry|] eqn:He; [|done]. cbn. destruct (decide _) as [Hid|]; [|done]. intros [= <-].
  apply Hc in He as [[Hp Hf] _]. eexists. split; [done|]. by rewrite (Hf identity t Hid (Z.le_refl t) (proj1 (identity_seen_inv _ _ _ Hi))).
Qed.

Lemma load_same_bytes_sound t_identity t_read path c answer c' :
  writes_are_stamped content mtime -> (t_identity <= t_read)%Z -> cache_sound t_read c ->
  load_same_bytes hash path (identity_seen path t_identity) (content path t_read) c = Some (answer, c') ->
  cache_sound t_read c' /\ exists routes, answer = Loaded routes /\ parse_of (hash (content path t_read)) routes /\ is_Some (manifests c' !! path).
Proof.
  intros Hw Ht [Hc Hs]. unfold load_same_bytes. destruct (manifests c !! path) as [entry|] eqn:He; [|done]. cbn.
  destruct (String.eqb_spec (content_hash entry) (hash (content path t_read))) as [Hh|]; [|done]. intros [= <- <-]. cbn.
  pose proof (Hc _ _ He) as [[Hp Hf] Hq]. rewrite lookup_insert_eq. split; [split|].
  - cbn. intros p e [[<- <-]|[_ H]]%lookup_insert_Some; [|by apply Hc]. split; [|done]. split; [done|]. cbn. intros identity t Hid Ht' Hi.
    rewrite (settled_identity_pins path t_identity t_read identity t); [done|done|done|lia..|done].
  - cbn. pose proof (map_size_insert path (mkCached (content_hash entry) (sequence entry) (identity_seen path t_identity) (cached_routes entry)) (manifests c)) as ->.
    by rewrite He.
  - rewrite <- Hh. eauto.
Qed.
End report.

(** The client build report a production page is given is never stale. For a cache of parses that are right, and a file system that stamps a write no more than a second early: loading a report answers with the routes of bytes that have the hash of the report's content at the moment its metadata, or its bytes, were read; if the identity read after a parse came less than a second after the bytes, the cache is right again — its later answers from metadata alone too —, holds at most 128 reports, and keeps the one just loaded. An answer is [Absent] only when there is no file, and [Unreadable] only when it cannot be read or parsed. *)
Theorem client_report_never_stale content mtime readable hash from_slice path missing t_identity t_read t_after c :
  writes_are_stamped content mtime -> cache_sound content mtime hash from_slice t_identity c ->
  (t_identity <= t_read <= t_after)%Z -> (t_after - t_read <= 1000000000)%Z ->
  let read := match missing with None => ReadBytes (content path t_read) | Some None => ReadMissing | Some (Some reason) => ReadFailed reason end in
  let result := load_client_manifest hash from_slice path (identity_seen content mtime readable path t_identity) read
                  (identity_seen content mtime readable path t_after) c in
  cache_sound content mtime hash from_slice t_after (snd result) /\
  match fst result with
  | Absent => read = ReadMissing
  | Unreadable => (exists reason, read = ReadFailed reason) \/ exists reason, from_slice (content path t_read) = inr reason
  | Loaded routes =>
      is_Some (manifests (snd result) !! path) /\
      exists t, (t = t_identity \/ t = t_read) /\ parse_of hash from_slice (hash (content path t)) routes
  end.
Proof.
  intros Hw Hc Ht Hafter read. assert (cache_sound content mtime hash from_slice t_read c) as Hr by (apply (cache_sound_later _ _ _ _ t_identity); [lia|done]).
  intros result. unfold result, load_client_manifest. clear result. destruct (load_settled _ _ c) as [answer|] eqn:Hl; cbn [fst snd].
  { pose proof Hl as Hl'. apply (load_settled_fresh content mtime readable hash from_slice) in Hl as (routes & -> & Hp); [|done].
    split; [by apply (cache_sound_later _ _ _ _ t_identity); [lia|]|]. split; [|by eauto].
    unfold load_settled in Hl'. apply bind_Some in Hl' as (i & _ & Hl'). by apply bind_Some in Hl' as (e & -> & _). }
  assert (forall reason, cache_sound content mtime hash from_slice t_after (snd (report_manifest_failure path reason c))) as Hfail.
  { intros reason. unfold report_manifest_failure. case_bool_decide; cbn; [|apply failures_sound]; by apply (cache_sound_later _ _ _ _ t_read); [lia|]. }
  unfold read. clear read. destruct missing as [[reason|]|]; cbn [fst snd]; [by eauto| |].
  { split; [|done]. unfold clear_manifest_failure. apply failures_sound. by apply (cache_sound_later _ _ _ _ t_read); [lia|]. }
  destruct (load_same_bytes _ _ _ _ c) as [[answer c']|] eqn:Hb; cbn [fst snd].
  { apply (load_same_bytes_sound content mtime readable hash from_slice) in Hb as [Hc' (routes & -> & Hp & Hin)]; [|done|lia|done].
    split; [by apply (cache_sound_later _ _ _ _ t_read); [lia|]|]. split; [done|by eauto]. }
  destruct (from_slice (content path t_read)) as [manifest|reason] eqn:Hf; cbn [fst snd]; [|by eauto].
  unfold store_parsed, take_sequence, clear_manifest_failure. cbn [manifests next_sequence reported_failures].
  destruct (insert_manifest_sound content mtime hash from_slice t_after path
              (mkCached (hash (content path t_read)) (next_sequence c) (identity_seen content mtime readable path t_after) (asset_routes manifest))
              (mkManifestCache (manifests c) (next_sequence c + 1) (delete path (reported_failures c)))) as [Hs Hin].
  - split; [|apply Hc]. cbn. intros p e H. destruct Hr as [Hr _]. destruct (Hr _ _ H) as [He Hq]. split; [|lia].
    destruct He as [Hp Hi]. split; [done|]. intros identity t ? ?. apply Hi; [done|lia].
  - split; [by exists (content path t_read), manifest|]. cbn. intros identity t Hid Ht' Hi. f_equal.
    apply (settled_identity_pins content mtime readable path t_after t_read identity t); [done|done|lia..|done].
  - cbn. lia.
  - cbn. intros p e H. by apply Hc in H as [_ ?].
  - split; [done|]. rewrite Hin. split; [by eauto|]. exists t_read. split; [by right|]. by exists (content path t_read), manifest.
Qed.

(** A report rewritten at a moment. *)
Definition rewritten_at (w : Z) : (PathBuf -> Z -> string) * (PathBuf -> Z -> SystemTime) :=
  (fun _ t => if (t <? w)%Z then "old" else "new", fun _ t => if (t <? w)%Z then 0%Z else w).

Lemma rewritten_is_stamped w : writes_are_stamped (fst (rewritten_at w)) (snd (rewritten_at w)).
Proof.
  intros f t1 t2 Ht. cbn. destruct (Z.ltb_spec t1 w), (Z.ltb_spec t2 w); intros Hc; first [done|lia].
Qed.

(** A report naming one route, by its bytes. *)
Definition one_route_report (bytes : string) : list ClientAssetRoute + string := inl [mkAssetRoute "/" bytes [] HLoad None].

Lemma client_report_never_stale_witness :
  let '(content, mtime) := rewritten_at 5000000000 in
  let load := load_client_manifest id one_route_report "/b/client-report.json" (identity_seen content mtime (fun _ _ => true) "/b/client-report.json" 7500000000)
                (ReadBytes "new") (identity_seen content mtime (fun _ _ => true) "/b/client-report.json" 8000000000) new_manifest_cache in
  cache_sound content mtime id one_route_report 8000000000 (snd load) /\
  (settled_identity <$> manifests (snd load) !! "/b/client-report.json") = Some (Some (mkIdentity 3 5000000000)).
Proof.
  cbn beta iota zeta delta [rewritten_at]. split; [|by vm_compute].
  apply (client_report_never_stale (fst (rewritten_at 5000000000)) (snd (rewritten_at 5000000000)) (fun _ _ => true) id one_route_report "/b/client-report.json" None
    7500000000 7700000000 8000000000 new_manifest_cache); [apply rewritten_is_stamped| |lia|lia].
  split; [|vm_compute; lia]. cbn. intros p e H. by rewrite lookup_empty in H.
Defined.

(** The comment at the end of [load_client_manifest] has it the other way round: an identity read before the bytes could only
    fail to match, the one read after them may be that of newer bytes.  A report written three seconds before its parse ends, and
    just after it was read, is answered from the old parse for good. *)
Example a_slow_parse_pins_the_old_report :
  let '(content, mtime) := rewritten_at 4000000000 in
  let path := "/b/client-report.json" in
  let seen := identity_seen content mtime (fun _ _ => true) path in
  let '(_, c) := load_client_manifest id one_route_report path (seen 2900000000%Z) (ReadBytes (content path 3000000000%Z)) (seen 7000000000%Z) new_manifest_cache in
  content path 9000000000%Z = "new" /\
  (src <$> prebuilt_client_assets (fst (load_client_manifest id one_route_report path (seen 9000000000%Z) (ReadBytes (content path 9000000000%Z)) (seen 9000000000%Z) c)) "/") = Some "old".
Proof. vm_compute. done. Qed.

(** A page that has a header and no head gets its head content behind its end. *)
Example a_header_is_taken_for_a_head :
  compose_document "<html><body><header>x</header></body></html>" "<title>T</title>" "" = "<html><body><header>x</header></body></html><title>T</title>" /\
  compose_document "<html><body>x</body></html>" "<title>T</title>" "" = "<html><head><title>T</title></head><body>x</body></html>".
Proof. vm_compute. done. Qed.
