(* ===== verification/I18n.v ===== *)
(** * Locale routing (ruvyxa_dev_server/src/i18n.rs, and the i18n part of
    html_document.rs and of ruvyxa_cli/src/config.rs)

    The options a project gives and their checks, the locale a request prefers,
    the redirect of a page without a locale, and the locale of a document.
    A header is what [ClientIp.get_str] gives; its text is ASCII. *)
From S2P Require Import Prelude RustStr Floats PathBuf Order Manifest Router ClientIp HtmlDocument.

(** ** Definitions *)

(** *** Configuration *)

Record I18nConfigOptions := mkI18nOptions {
  option_locales : list string;
  option_default_locale : string;
  option_locale_param : option string;
  option_detect_locale : option bool;
  option_cookie : option string;
}.

(** [I18nConfigOptions::routing] *)
Definition routing (o : I18nConfigOptions) : I18nRouting :=
  mkI18nRouting (option_locales o) (option_default_locale o) (default "lang" (option_locale_param o)) (default true (option_detect_locale o))
    (default "RUVYXA_LOCALE" (option_cookie o)).

(** [valid_locale] *)
Definition valid_locale (locale : string) : bool :=
  negb (is_empty_str locale) && (String.length locale <=? 35) &&
  forallb (fun part => negb (is_empty_str part) && (String.length part <=? 8) && all_bytes is_alnum part) (split_char "-" locale).

Definition identifier_byte (a : ascii) : bool := is_alnum a || Ascii.eqb a "_" || Ascii.eqb a "$".

(** [valid_identifier] *)
Definition valid_identifier (value : string) : bool :=
  match value with
  | "" => false
  | String a rest => (is_alnum a && negb (is_digit a) || Ascii.eqb a "_" || Ascii.eqb a "$") && all_bytes identifier_byte rest
  end.

Definition is_cookie_byte (a : ascii) : bool :=
  is_alnum a || existsb (Ascii.eqb a) ["!"; "#"; "$"; "%"; "&"; "'"; "*"; "+"; "-"; "."; "^"; "_"; "`"; "|"; "~"]%char.

(** The locales, one after the other; [normalized] are those seen. *)
Fixpoint validate_locales (normalized : list string) (locales : list string) : option string :=
  match locales with
  | [] => None
  | locale :: rest =>
      if negb (valid_locale locale) then Some ("RUV1602 config field `i18n.locales` contains invalid locale `" +:+ locale +:+ "`")
      else if bool_decide (to_ascii_lowercase locale ∈ normalized) then Some ("RUV1602 config field `i18n.locales` contains duplicate locale `" +:+ locale +:+ "`")
      else validate_locales (to_ascii_lowercase locale :: normalized) rest
  end.

(** [validate_i18n]: the error, if any *)
Definition validate_i18n (config : I18nConfigOptions) : option string :=
  let count := length (option_locales config) in
  let cookie := default "RUVYXA_LOCALE" (option_cookie config) in
  if (count =? 0) || (32 <? count) then Some "RUV1602 config field `i18n.locales` must contain between 1 and 32 locales"
  else match validate_locales [] (option_locales config) with
  | Some error => Some error
  | None =>
      if negb (existsb (fun locale => eq_ignore_case locale (option_default_locale config)) (option_locales config))
      then Some "RUV1602 config field `i18n.defaultLocale` must be included in `i18n.locales`"
      else if negb (valid_identifier (default "lang" (option_locale_param config)))
      then Some "RUV1602 config field `i18n.localeParam` must be a JavaScript-style identifier"
      else if is_empty_str cookie || (128 <? String.length cookie) || negb (all_bytes is_cookie_byte cookie)
      then Some "RUV1602 config field `i18n.cookie` must be a valid HTTP cookie name"
      else None
  end.

(** *** Locales and paths *)

(** [canonical_locale] *)
Definition canonical_locale (config : I18nRouting) (locale : string) : option string :=
  List.find (fun supported => eq_ignore_case supported locale) (locales config).

(** [path_locale] *)
Definition path_locale (config : I18nRouting) (path : string) : option string :=
  rest ← strip_prefix "/" path; segment ← head (split_char "/" rest); canonical_locale config segment.

(** [prefixed_path] *)
Definition prefixed_path (locale request_path : string) : string :=
  if String.eqb request_path "/" then "/" +:+ locale else "/" +:+ locale +:+ request_path.

(** [localized_path] *)
Definition localized_path (locale : string) (rest : option string) : string :=
  match rest with
  | Some rest => if is_empty_str rest then "/" +:+ locale else "/" +:+ locale +:+ "/" +:+ rest
  | None => "/" +:+ locale
  end.

(** *** The preferred locale *)

(** The locale of one cookie pair. *)
Definition cookie_locale (config : I18nRouting) (pair : string) : option string :=
  '(name, value) ← split_once "=" (trim pair);
  if String.eqb name (cookie config) then canonical_locale config (trim value) else None.

(** An entry of [Accept-Language]: its language and quality. *)
Definition accepted_language (entry : string) : option (string * f32) :=
  match split_char ";" (trim entry) with
  | [] => None
  | language :: parts =>
      let language := trim language in
      if is_empty_str language || String.eqb language "*" then None
      else Some (language, default f32_one (find_map (fun part => strip_prefix "q=" (trim part)) parts ≫= parse_f32))
  end.

Definition by_quality : string * f32 -> string * f32 -> comparison := fun left right => total_cmp single (snd right) (snd left).

Definition primary_of (language : string) : string := default language (head (split_char "-" language)).

(** The locale of an accepted language. *)
Definition language_locale (config : I18nRouting) (accepted : string * f32) : option string :=
  let '(language, quality) := accepted in
  if not_positive single quality then None
  else match canonical_locale config language with
       | Some locale => Some locale
       | None => List.find (fun locale => eq_ignore_case (default "" (head (split_char "-" locale))) (primary_of language)) (locales config)
       end.

(** [preferred_locale] *)
Definition preferred_locale (config : I18nRouting) (headers : HeaderMap) : string :=
  if negb (detect_locale config) then default_locale config
  else
    match cookie ← get_str headers "cookie"; find_map (cookie_locale config) (split_char ";" cookie) with
    | Some locale => locale
    | None =>
        match accept ← get_str headers "accept-language";
              find_map (language_locale config) (sort_by by_quality (omap accepted_language (split_char "," accept))) with
        | Some locale => locale
        | None => default_locale config
        end
    end.

(** *** The redirect *)

(** [char::from(byte)], pushed *)
Definition push_latin1 (a : ascii) : string :=
  let n := N_of_ascii a in
  if (n <? 128)%N then String a "" else String (ascii_of_N (192 + n / 64)) (String (ascii_of_N (128 + n mod 64)) "").

(** [encoded_query] *)
Fixpoint encoded_query (query : string) : string :=
  match query with
  | "" => ""
  | String a rest =>
      let n := N_of_ascii a in
      (if (n =? 9)%N || (n =? 10)%N || (n =? 13)%N then ""
       else if (n =? 32)%N then "%20" else if (n =? 34)%N then "%22" else if (n =? 60)%N then "%3C" else if (n =? 62)%N then "%3E"
       else if (n <=? 31)%N || (n =? 127)%N then String "%" (hex_byte a)
       else push_latin1 a) +:+ encoded_query rest
  end.

(** [with_query] *)
Definition with_query (location : string) (query : option string) : string :=
  match query with
  | Some query => if is_empty_str query then location else location +:+ "?" +:+ encoded_query query
  | None => location
  end.

(** Does a path lead to a page? *)
Definition finds_page (router : RadixRouter) (manifest : RouteManifest) (path : string) : bool :=
  match find_route router manifest path with Some matched => bool_decide (route_kind (matched_route matched) = Page) | None => false end.

(** [locale_redirect_path] *)
Definition locale_redirect_path (config : option I18nRouting) (manifest : RouteManifest) (router : RadixRouter) (request_path : string) (query : option string)
    (method : string) (headers : HeaderMap) : option string :=
  config ← config;
  if negb (String.eqb method "GET" || String.eqb method "HEAD") || String.eqb request_path "/__ruvyxa" || starts_with "/__ruvyxa/" request_path
     || String.eqb request_path "/api" || starts_with "/api/" request_path
     || bool_decide (is_Some (extension_of request_path)) || bool_decide (is_Some (path_locale config request_path))
  then None
  else
    let candidate := prefixed_path (preferred_locale config headers) request_path in
    let fallback := prefixed_path (default_locale config) request_path in
    location ← (if finds_page router manifest candidate then Some candidate else if finds_page router manifest fallback then Some fallback else None);
    Some (with_query location query).

(** *** Documents *)

Definition alternate_link (hreflang href : string) : string :=
  "<link rel=" +:+ dq +:+ "alternate" +:+ dq +:+ " hreflang=" +:+ dq +:+ hreflang +:+ dq +:+ " href=" +:+ dq +:+ escape_html href +:+ dq +:+ ">".

(** [localized_head]: the locale and its links *)
Definition localized_head (config : option I18nRouting) (route_path request_path : string) (params : RouteParams) : option (string * string) :=
  config ← config;
  if bool_decide (split_char "/" route_path !! 1 = Some ("[" +:+ locale_param config +:+ "]"))
  then
    locale ← (value ← params !! locale_param config; text ← (if value is VString text then Some text else None); canonical_locale config text);
    let rest := snd <$> (strip_prefix "/" request_path ≫= split_once "/") in
    Some (locale, String.concat "" ((fun alternate => alternate_link alternate (localized_path alternate rest)) <$> locales config) +:+
                  alternate_link "x-default" (localized_path (default_locale config) rest))
  else None.

(** [localize_document] *)
Definition localize_document (document : string) (i18n : option I18nRouting) (route_path request_path : string) (params : RouteParams) : string :=
  match localized_head i18n route_path request_path params with
  | None => document
  | Some (locale, locale_head) => set_document_lang (insert_before_ascii_case document "</head>" locale_head) locale
  end.

(** [compose_localized_document] *)
Definition compose_localized_document (rendered head_content hmr : string) (i18n : option I18nRouting) (route : RouteEntry) (request_path : string) (params : RouteParams) : string :=
  localize_document (compose_document rendered head_content hmr) i18n (route_path route) request_path params.

(** *** Specification *)

(** The first of the highest among those that have an answer. *)
Fixpoint first_highest {A B} (higher : A -> A -> bool) (answer : A -> option B) (l : list A) : option (A * B) :=
  match l with
  | [] => None
  | x :: l =>
      match answer x, first_highest higher answer l with
      | None, best => best
      | Some b, Some (y, c) => if higher y x then Some (y, c) else Some (x, b)
      | Some b, None => Some (x, b)
      end
  end.

(** ** Properties *)

(** *** Preference *)

#[export] Instance by_quality_order : CmpOrder by_quality.
Proof.
  split; [intros x y; apply (cmp_antisym (total_cmp single))|].
  intros x y z H1 H2. by apply (cmp_le_trans (total_cmp single) _ (snd y)).
Qed.

Section sorted_search.
Context {A B : Type} (cmp : A -> A -> comparison) `{!CmpOrder cmp} (f : A -> option B).

Definition before (y x : A) : bool := if cmp x y is Gt then true else false.
Definition first_with (l : list A) : option (A * B) := find_map (fun x => pair x <$> f x) l.

Lemma find_map_first_with l : find_map f l = snd <$> first_with l.
Proof. unfold first_with. induction l as [|x l IH]; [done|]. cbn. by destruct (f x). Qed.

Lemma first_with_in l y c : first_with l = Some (y, c) -> y ∈ l.
Proof.
  unfold first_with. induction l as [|x l IH]; [done|]. cbn. destruct (f x); cbn; [intros [= <- _]; by left|].
  intros H. right. by apply IH.
Qed.

Lemma first_with_insert x l : StronglySorted (cmp_le (cmp := cmp)) l ->
  first_with (insert_sorted cmp x l) =
  match f x, first_with l with
  | None, best => best
  | Some b, Some (y, c) => if before y x then Some (y, c) else Some (x, b)
  | Some b, None => Some (x, b)
  end.
Proof.
  induction l as [|y l IH]; intros Hs; [unfold first_with; cbn; by destruct (f x)|].
  apply StronglySorted_cons in Hs as [Hy Hs]. cbn [insert_sorted].
  assert (cmp x y <> Gt -> first_with (x :: y :: l) =
    match f x, first_with (y :: l) with
    | None, best => best | Some b, Some (y, c) => if before y x then Some (y, c) else Some (x, b) | Some b, None => Some (x, b) end) as Hfront.
  { intros Hle. unfold first_with at 1. cbn [find_map]. destruct (f x) as [b|]; cbn [fmap option_fmap option_map]; [|done].
    destruct (first_with (y :: l)) as [[z c]|] eqn:Hz; [|done]. apply first_with_in in Hz. unfold before.
    assert (cmp x z <> Gt) as Hxz; [|by destruct (cmp x z)].
    apply elem_of_cons in Hz as [->|Hz]; [done|]. apply (cmp_le_trans cmp x y z); [done|].
    rewrite Forall_forall in Hy. by apply Hy. }
  destruct (cmp x y) eqn:E; [by apply Hfront|by apply Hfront|].
  unfold first_with in *. cbn [find_map]. destruct (f y) as [c|]; cbn [fmap option_fmap option_map]; [|by apply IH].
  destruct (f x); [|done]. unfold before. by rewrite E.
Qed.

(** Searching what was sorted is taking the first of the best. *)
Lemma first_with_sorted l : first_with (sort_by cmp l) = first_highest before f l.
Proof.
  induction l as [|x l IH]; [done|]. cbn [sort_by first_highest]. rewrite first_with_insert by apply sort_by_sorted.
  by rewrite IH.
Qed.
End sorted_search.

Lemma find_in_locales f (l : list string) x : List.find f l = Some x -> x ∈ l.
Proof. intros [H _]%List.find_some. by apply list_elem_of_In. Qed.

(** A language has a higher quality than another. *)
Definition higher_quality (y x : string * f32) : bool := if total_cmp single (snd y) (snd x) is Gt then true else false.

Lemma cookie_locale_supported config pair locale : cookie_locale config pair = Some locale -> locale ∈ locales config.
Proof.
  unfold cookie_locale. intros ([name value] & _ & H)%bind_Some. destruct (String.eqb name (cookie config)); [|done].
  by apply find_in_locales in H.
Qed.

Lemma language_locale_supported config accepted locale : language_locale config accepted = Some locale -> locale ∈ locales config.
Proof.
  destruct accepted as [language quality]. cbn. destruct (not_positive single quality); [done|].
  destruct (canonical_locale config language) eqn:E; [intros [= <-]|]; by eapply find_in_locales.
Qed.

Lemma preferred_locale_supported config headers : preferred_locale config headers ∈ default_locale config :: locales config.
Proof.
  unfold preferred_locale. destruct (detect_locale config); [cbn [negb]|by left].
  destruct (cookie ← get_str headers "cookie"; _) as [locale|] eqn:Hc.
  { right. apply bind_Some in Hc as (cookie & _ & (l1 & pair & l2 & _ & H & _)%find_map_Some). by eapply cookie_locale_supported. }
  destruct (accept ← get_str headers "accept-language"; _) as [locale|] eqn:Ha; [|by left].
  right. apply bind_Some in Ha as (accept & _ & (l1 & x & l2 & _ & H & _)%find_map_Some). by eapply language_locale_supported.
Qed.

(** The locale a request prefers, when detection is on: that of the first cookie pair that names a supported locale; failing that, of the accepted language of the highest quality above zero that a supported locale answers, the earliest of them — ignoring case, and then by the primary subtag —; failing that the default. It is a supported locale or the default one. *)
Theorem preferred_locale_decided config headers :
  preferred_locale config headers =
  (if negb (detect_locale config) then default_locale config
   else match cookie ← get_str headers "cookie"; find_map (cookie_locale config) (split_char ";" cookie) with
        | Some locale => locale
        | None =>
            default (default_locale config) (accept ← get_str headers "accept-language";
              snd <$> first_highest higher_quality (language_locale config) (omap accepted_language (split_char "," accept)))
        end) /\
  preferred_locale config headers ∈ default_locale config :: locales config.
Proof.
  split; [|apply preferred_locale_supported]. unfold preferred_locale. destruct (detect_locale config); [cbn [negb]|done].
  destruct (cookie ← get_str headers "cookie"; _) as [locale|]; [done|].
  destruct (get_str headers "accept-language") as [accept|]; cbn [mbind option_bind]; [|done].
  rewrite (find_map_first_with (language_locale config)), (first_with_sorted by_quality).
  change (first_highest (before by_quality)) with (@first_highest (string * f32) string higher_quality).
  by destruct (first_highest _ _ _) as [[best locale]|].
Qed.

(** *** The redirect *)

Definition is_locale_byte (a : ascii) : bool := is_alnum a || Ascii.eqb a "-".

Lemma is_locale_byte_lower a : is_locale_byte (lower_byte a) = is_locale_byte a.
Proof. by destruct a as [[] [] [] [] [] [] [] []]. Qed.

Lemma locale_bytes_lower s : all_bytes is_locale_byte (to_ascii_lowercase s) = all_bytes is_locale_byte s.
Proof. unfold to_ascii_lowercase. induction s as [|a s IH]; [done|]. cbn in *. by rewrite is_locale_byte_lower, IH. Qed.

Lemma valid_locale_bytes locale : valid_locale locale = true -> all_bytes is_locale_byte locale = true.
Proof.
  unfold valid_locale. rewrite !andb_true_iff, forallb_forall. intros [_ H]. rewrite <- (join_split_char "-" locale).
  induction (split_char "-" locale) as [|part parts IH]; [done|].
  assert (all_bytes is_locale_byte part = true) as Hp.
  { specialize (H part (or_introl eq_refl)). rewrite !andb_true_iff in H. destruct H as [_ Hb]. clear -Hb.
    induction part as [|a part IH]; [done|]. cbn in *. apply andb_true_iff in Hb as [Ha Hb]. unfold is_locale_byte at 1. by rewrite Ha, IH. }
  destruct parts as [|part' parts]; [done|]. change (join "-" (part :: part' :: parts)) with (part +:+ "-" +:+ join "-" (part' :: parts)).
  rewrite !all_bytes_sapp, Hp, IH; [done|]. intros x Hx. apply H. by right.
Qed.

Lemma validate_locales_valid normalized locales : validate_locales normalized locales = None -> Forall (fun locale => valid_locale locale = true) locales.
Proof.
  revert normalized. induction locales as [|locale rest IH]; intros normalized; [by constructor|]. cbn.
  destruct (valid_locale locale) eqn:E; [|done]. cbn. case_bool_decide as Hin; [done|]. intros H. constructor; [done|]. by eapply IH.
Qed.

(** A locale a checked configuration may name: its bytes, and that it is known. *)
Lemma validated_locale o locale :
  validate_i18n o = None -> locale ∈ default_locale (routing o) :: locales (routing o) ->
  all_bytes is_locale_byte locale = true /\ is_Some (canonical_locale (routing o) locale).
Proof.
  unfold validate_i18n. destruct (_ || _); [done|]. destruct (validate_locales [] (option_locales o)) eqn:Hv; [done|].
  apply validate_locales_valid in Hv. rewrite Forall_forall in Hv.
  destruct (existsb _ _) eqn:He; [|done]. intros _ Hin. cbn [routing locales default_locale] in *.
  assert (exists supported, supported ∈ option_locales o /\ eq_ignore_case supported locale = true) as (supported & Hs & Hi).
  { apply elem_of_cons in Hin as [->|Hin]; [|by exists locale; rewrite eq_ignore_case_refl].
    apply existsb_exists in He as (s & Hs & Hi). exists s. by rewrite list_elem_of_In. }
  split.
  - specialize (Hv _ Hs). apply valid_locale_bytes in Hv. unfold eq_ignore_case in Hi. apply String.eqb_eq in Hi.
    by rewrite <- locale_bytes_lower, <- Hi, locale_bytes_lower.
  - unfold canonical_locale. destruct (List.find _ _) as [s|] eqn:Hf; [by eexists|].
    apply list_elem_of_In in Hs. cbn [locales routing] in Hf. by rewrite (List.find_none _ _ Hf _ Hs) in Hi.
Qed.

(** A path under a known locale says so. *)
Lemma path_locale_prefixed config locale request_path :
  starts_with "/" request_path = true -> all_bytes is_locale_byte locale = true ->
  path_locale config (prefixed_path locale request_path) = canonical_locale config locale.
Proof.
  intros [rest ->]%starts_with_true Hl. assert (has_char "/" locale = false) as Hc by (by apply (all_bytes_has_char is_locale_byte)).
  unfold path_locale, prefixed_path. destruct (String.eqb _ "/"); rewrite strip_prefix_app; cbn [mbind option_bind].
  - by rewrite split_char_none.
  - change ("/" +:+ rest) with (String "/" rest). by rewrite split_char_app.
Qed.

(** No control byte, space, quote or angle bracket. *)
Definition is_location_byte (a : ascii) : bool :=
  let n := N_of_ascii a in ((32 <? n) && negb (n =? 34) && negb (n =? 60) && negb (n =? 62) && negb (n =? 127))%N.

(** A byte [encoded_query] passes on although a URI may not carry it as it is:
    a grave accent, a brace, a bar, a backslash, a caret, or one beyond ASCII. *)
Definition is_passed_on (a : ascii) : bool :=
  existsb (Ascii.eqb a) ["`"; "{"; "}"; "|"; "\"; "^"]%char || (128 <=? N_of_ascii a)%N.

(** A byte of printable ASCII that a URI may carry as it is. *)
Definition is_uri_byte (a : ascii) : bool := is_location_byte a && negb (is_passed_on a).

Lemma all_bytes_mono (P Q : ascii -> bool) s : (forall a, P a = true -> Q a = true) -> all_bytes P s = true -> all_bytes Q s = true.
Proof. intros H. induction s as [|a s IH]; [done|]. cbn. intros [Ha Hs]%andb_true_iff. by rewrite H, IH. Qed.

Lemma encoded_query_bytes query : all_bytes is_location_byte (encoded_query query) = true.
Proof.
  induction query as [|a query IH]; [done|]. cbn [encoded_query]. rewrite all_bytes_sapp, IH, andb_true_r.
  by destruct a as [[] [] [] [] [] [] [] []].
Qed.

Lemma encoded_query_uri query : all_bytes (fun a => negb (is_passed_on a)) query = true -> all_bytes is_uri_byte (encoded_query query) = true.
Proof.
  induction query as [|a query IH]; [done|]. cbn [all_bytes]. intros [Ha Hq]%andb_true_iff. cbn [encoded_query].
  rewrite all_bytes_sapp, IH, andb_true_r by done. by destruct a as [[] [] [] [] [] [] [] []].
Qed.

(** The location, for bytes that a locale, a slash and a question mark are. *)
Lemma location_bytes (P : ascii -> bool) locale request_path query :
  P "/"%char = true -> P "?"%char = true -> all_bytes P locale = true -> all_bytes P request_path = true ->
  all_bytes P (encoded_query (default "" query)) = true ->
  all_bytes P (with_query (prefixed_path locale request_path) query) = true.
Proof.
  intros Hslash Hmark Hl Hp Hq.
  assert (all_bytes P (prefixed_path locale request_path) = true) as Hpath.
  { unfold prefixed_path. destruct (String.eqb _ _); rewrite ?all_bytes_sapp, ?Hl, ?Hp; cbn; by rewrite Hslash. }
  destruct query as [query|]; [|done]. cbn [with_query default] in *. destruct (is_empty_str query); [done|].
  rewrite !all_bytes_sapp, Hpath. cbn. by rewrite Hmark.
Qed.

(** C30: A locale redirect settles, and is well formed.  Under a configuration the
    checks accept, a redirect goes to the request's path below the preferred
    locale when a page is there, and else below the default one, with the query
    behind it; a page is where it goes; that path is never redirected again,
    whatever the method, query and headers of the next request.  When the
    request's path holds no control byte, space, quote or angle bracket, neither
    does the location, whatever the query holds; when that path holds nothing but
    bytes a URI may carry, neither does the location, for a query without one of
    the bytes that are passed on (grave accent, braces, bar, backslash, caret,
    and those beyond ASCII). *)
Theorem locale_redirect_settles o manifest router request_path query method headers location :
  validate_i18n o = None -> starts_with "/" request_path = true ->
  locale_redirect_path (Some (routing o)) manifest router request_path query method headers = Some location ->
  exists locale,
    (locale = preferred_locale (routing o) headers \/
     locale = default_locale (routing o) /\ finds_page router manifest (prefixed_path (preferred_locale (routing o) headers) request_path) = false) /\
    location = with_query (prefixed_path locale request_path) query /\
    finds_page router manifest (prefixed_path locale request_path) = true /\
    (forall query' method' headers', locale_redirect_path (Some (routing o)) manifest router (prefixed_path locale request_path) query' method' headers' = None) /\
    (all_bytes is_location_byte request_path = true -> all_bytes is_location_byte location = true) /\
    (all_bytes is_uri_byte request_path = true -> all_bytes (fun a => negb (is_passed_on a)) (default "" query) = true ->
     all_bytes is_uri_byte location = true).
Proof.
  intros Hv Hs. cbn [locale_redirect_path mbind option_bind]. destruct (_ || _); [done|]. intros H.
  assert (forall locale, locale ∈ default_locale (routing o) :: locales (routing o) ->
    (forall query' method' headers', locale_redirect_path (Some (routing o)) manifest router (prefixed_path locale request_path) query' method' headers' = None) /\
    (all_bytes is_location_byte request_path = true -> all_bytes is_location_byte (with_query (prefixed_path locale request_path) query) = true) /\
    (all_bytes is_uri_byte request_path = true -> all_bytes (fun a => negb (is_passed_on a)) (default "" query) = true ->
     all_bytes is_uri_byte (with_query (prefixed_path locale request_path) query) = true)) as Hgood.
  { intros locale [Hb Hk]%(validated_locale o); [|done]. split_and!.
    - intros query' method' headers'. cbn [locale_redirect_path mbind option_bind]. rewrite path_locale_prefixed by done.
      rewrite (bool_decide_eq_true_2 _ Hk), orb_true_r. done.
    - intros Hp. apply location_bytes; [done|done| |done|apply encoded_query_bytes].
      apply (all_bytes_mono is_locale_byte); [by intros [[] [] [] [] [] [] [] []]|done].
    - intros Hp Hq. apply location_bytes; [done|done| |done|by apply encoded_query_uri].
      apply (all_bytes_mono is_locale_byte); [by intros [[] [] [] [] [] [] [] []]|done]. }
  apply bind_Some in H as (target & Ht & [= <-]).
  destruct (finds_page router manifest (prefixed_path (preferred_locale _ headers) request_path)) eqn:Hf.
  - injection Ht as <-. eexists. split; [by left|]. split; [done|]. split; [done|]. apply Hgood.
    apply preferred_locale_supported.
  - destruct (finds_page router manifest (prefixed_path (default_locale _) request_path)) eqn:Hd; [|done]. injection Ht as <-.
    eexists. split; [by right|]. split; [done|]. split; [done|]. apply Hgood. by left.
Qed.

Lemma locale_redirect_settles_witness :
  let o := mkI18nOptions ["en"; "th"] "en" None None None in
  let manifest := mkRouteManifest "app" [bare_route "a" "/[lang]/about" Page "app/[lang]/about/page.tsx"] None in
  let headers name := if String.eqb name "accept-language" then [Some "fr;q=0.9, th-TH;q=0.8, en;q=0.7"] else [] in
  locale_redirect_path (Some (routing o)) manifest (compile manifest) "/about" (Some "q=a b") "GET" headers = Some "/th/about?q=a%20b" /\
  locale_redirect_path (Some (routing o)) manifest (compile manifest) "/th/about" None "GET" headers = None.
Proof.
  intros o manifest headers.
  assert (locale_redirect_path (Some (routing o)) manifest (compile manifest) "/about" (Some "q=a b") "GET" headers = Some "/th/about?q=a%20b") as H by (vm_compute; reflexivity).
  split; [exact H|].
  destruct (locale_redirect_settles o manifest (compile manifest) "/about" (Some "q=a b") "GET" headers _ ltac:(vm_compute; reflexivity) ltac:(reflexivity) H)
    as (locale & [-> |[-> Hf]] & _ & _ & Hagain & _ & _).
  - exact (Hagain None "GET" headers).
  - vm_compute in Hf. discriminate Hf.
Defined.

(** What detection makes of a header: qualities, white space and case; a quality that is not a number is the highest. *)
Example preferred_locale_examples :
  let config := mkI18nRouting ["en"; "pt-BR"; "th"] "en" "lang" true "L" in
  let accept text name := if String.eqb name "accept-language" then [Some text] else [] in
  preferred_locale config (accept "fr, th;q=0.5, PT;q=0.6") = "pt-BR" /\ preferred_locale config (accept "th;q=0, *;q=0.1") = "en" /\
  preferred_locale config (accept "en, th;q=NaN") = "th" /\
  preferred_locale config (fun name => if String.eqb name "cookie" then [Some "a=1; L=TH"] else []) = "th".
Proof. vm_compute. by split_and!. Qed.

(** A bar of a query stays in the location. *)
Example a_bar_is_passed_on : with_query "/en" (Some "q=a|b") = "/en?q=a|b" /\ all_bytes is_uri_byte "/en?q=a|b" = false.
Proof. vm_compute. done. Qed.

(** A byte of a query above the ASCII ones is written as the character it numbers: the two bytes of U+00E9 become the four of two other characters. *)
Example query_text_is_rewritten :
  with_query "/en" (Some (String "195" (String "169" ""))) = "/en?" +:+ String "195" (String "131" (String "194" (String "169" ""))).
Proof. vm_compute. reflexivity. Qed.

(** The document of a localized page names its locale and links every other. *)
Example localized_document :
  localize_document "<html><head></head></html>" (Some (mkI18nRouting ["en"; "th"] "en" "lang" true "L")) "/[lang]/a" "/TH/a" {["lang" := VString "TH"]} =
  "<html lang=" +:+ dq +:+ "th" +:+ dq +:+ "><head>" +:+ alternate_link "en" "/en/a" +:+ alternate_link "th" "/th/a" +:+ alternate_link "x-default" "/en/a" +:+ "</head></html>".
Proof. vm_compute. reflexivity. Qed.
