(* ===== verification/Serving.v ===== *)
(** * Serving (ruvyxa_dev_server/src/lib.rs)

    The limits a server is configured with, the paths of its sockets, its
    shutdown windows, and admission: how many page requests run and wait, as
    steps that any interleaving of requests takes, requests that are dropped
    because their client went away included. *)
From stdpp Require Import relations.
From S2P Require Import Prelude RustStr Floats Paths PathBuf.

(** ** Definitions *)

(** *** Limits *)

Definition MAX_ACTION_BODY_BYTES : N := 1024 * 1024.
Definition MAX_API_BODY_BYTES : N := 10 * 1024 * 1024.
Definition MAX_ACTION_BODY_LIMIT_BYTES : N := 16 * 1024 * 1024.
Definition MAX_API_BODY_LIMIT_BYTES : N := 256 * 1024 * 1024.
Definition ACTION_RATE_LIMIT_MAX : N := 600.
Definition ACTION_RATE_LIMIT_WINDOW_SECS : N := 60.
Definition MAX_ACTION_RATE_LIMIT_REQUESTS : N := 10000.
Definition MAX_ACTION_RATE_LIMIT_WINDOW_SECS : N := 86400.
Definition nanos_per_sec : N := 1000000000.

(** The limits of [ServerConfig]; the window in nanoseconds. *)
Record Limits := mkLimits { action_body_limit_bytes : N; api_body_limit_bytes : N; action_rate_limit_max : N; action_rate_limit_window : N }.

(** What a configuration is refused for, by what its message says. *)
Inductive ConfigError :=
  | LimitOutOfRange (setting : string) (max : N)
  | BadHeartbeatOrCapacity (kind : string)
  | PathNotLiteral (kind path : string)
  | PathReserved (kind path : string)
  | PathsCollide (path : string).

(** [validate_limits] *)
Definition validate_limits (l : Limits) : option ConfigError :=
  if (action_body_limit_bytes l =? 0)%N || (MAX_ACTION_BODY_LIMIT_BYTES <? action_body_limit_bytes l)%N then Some (LimitOutOfRange "security.actionLimit" MAX_ACTION_BODY_LIMIT_BYTES)
  else if (api_body_limit_bytes l =? 0)%N || (MAX_API_BODY_LIMIT_BYTES <? api_body_limit_bytes l)%N then Some (LimitOutOfRange "security.apiLimit" MAX_API_BODY_LIMIT_BYTES)
  else if (action_rate_limit_max l =? 0)%N || (MAX_ACTION_RATE_LIMIT_REQUESTS <? action_rate_limit_max l)%N then Some (LimitOutOfRange "security.actionRateLimit.max" MAX_ACTION_RATE_LIMIT_REQUESTS)
  else if (action_rate_limit_window l =? 0)%N || (MAX_ACTION_RATE_LIMIT_WINDOW_SECS <? action_rate_limit_window l / nanos_per_sec)%N
       then Some (LimitOutOfRange "security.actionRateLimit.window" MAX_ACTION_RATE_LIMIT_WINDOW_SECS)
  else None.

(** The defaults of [ServerConfig::dev] and [ServerConfig::production]. *)
Definition default_limits : Limits := mkLimits MAX_ACTION_BODY_BYTES MAX_API_BODY_BYTES ACTION_RATE_LIMIT_MAX (ACTION_RATE_LIMIT_WINDOW_SECS * nanos_per_sec).

(** *** The runtime *)

Inductive JavaScriptRuntime := Node | Bun | Deno.

(** [command], [script_args] and [DETECTION_ORDER] *)
Definition command (r : JavaScriptRuntime) : string := match r with Node => "node" | Bun => "bun" | Deno => "deno" end.
Definition script_args (r : JavaScriptRuntime) : list string :=
  match r with Node | Bun => [] | Deno => ["run"; "-A"; "--no-prompt"; "--node-modules-dir=manual"] end.
Definition DETECTION_ORDER : list JavaScriptRuntime := [Node; Bun; Deno].

(** [detect_by]; the runtimes that were probed come with it. *)
Fixpoint first_available (available : JavaScriptRuntime -> bool) (order : list JavaScriptRuntime) : option JavaScriptRuntime * list JavaScriptRuntime :=
  match order with
  | [] => (None, [])
  | r :: rest => if available r then (Some r, [r]) else let '(found, probed) := first_available available rest in (found, r :: probed)
  end.
Definition detect_by (available : JavaScriptRuntime -> bool) : JavaScriptRuntime := default Node (first_available available DETECTION_ORDER).1.

(** [from_availability] *)
Definition from_availability (node_available bun_available deno_available : bool) : JavaScriptRuntime :=
  detect_by (fun r => match r with Node => node_available | Bun => bun_available | Deno => deno_available end).

(** [runtime_home_executable] on a Unix host *)
Definition runtime_home_executable (is_file : PathBuf -> bool) (r : JavaScriptRuntime) (home : PathBuf) : option PathBuf :=
  let candidate := join_path (join_path (join_path home ("." +:+ command r)) "bin") (command r) in if is_file candidate then Some candidate else None.

(** *** Sockets *)

Definition RESERVED_FRAMEWORK_ROUTES : list string :=
  ["/__ruvyxa/hmr"; "/__ruvyxa/client"; "/__ruvyxa/action"; "/__ruvyxa/flight"; "/__ruvyxa/rsc"; "/__ruvyxa/trace"; "/__ruvyxa/devtools"; "/__ruvyxa/devtools/data";
   "/__ruvyxa/image"; "/__ruvyxa/hydration-loader.js"; "/__ruvyxa/client/route-manifest.json"; "/__ruvyxa/client/vendor"; "/__ruvyxa/health"].

(** [is_literal_transport_path] *)
Definition is_path_byte (a : ascii) : bool := is_alnum a || bool_decide (a ∈ ["-"; "."; "_"; "~"]%char).
Definition is_literal_transport_path (path : string) : bool :=
  match strip_prefix "/" path with
  | None => false
  | Some rest => forallb (fun segment => negb (is_empty_str segment) && all_bytes is_path_byte segment) (split_char "/" rest)
  end.

(** [validate_socket_path] *)
Definition validate_socket_path (path kind : string) : option ConfigError :=
  if negb (is_literal_transport_path path) then Some (PathNotLiteral kind path)
  else if bool_decide (path ∈ RESERVED_FRAMEWORK_ROUTES) then Some (PathReserved kind path) else None.

Definition HEARTBEAT_MIN_MS : N := 5000.
Definition HEARTBEAT_MAX_MS : N := 120000.
Definition REALTIME_CAPACITY_MIN : N := 16.
Definition REALTIME_CAPACITY_MAX : N := 4096.

Record RealtimeConfig := mkRealtimeConfig { realtime_config_path : string; realtime_heartbeat_ms : N; realtime_capacity : N }.
Record CollabConfig := mkCollabConfig { collab_config_path : string; collab_heartbeat_ms : N }.

(** [RealtimeRuntime] and [PresenceRuntime] without their channel and rooms *)
Record SocketRuntime := mkSocket { socket_path : string; heartbeat_ms : N; buffered : option N }.

Definition in_bounds (lo hi n : N) : bool := (lo <=? n)%N && (n <=? hi)%N.

(** [realtime_runtime] *)
Definition realtime_runtime (config : option RealtimeConfig) : option SocketRuntime + ConfigError :=
  match config with
  | None => inl None
  | Some c =>
      if negb (in_bounds HEARTBEAT_MIN_MS HEARTBEAT_MAX_MS (realtime_heartbeat_ms c)) || negb (in_bounds REALTIME_CAPACITY_MIN REALTIME_CAPACITY_MAX (realtime_capacity c))
      then inr (BadHeartbeatOrCapacity "realtime")
      else match validate_socket_path (realtime_config_path c) "realtime" with
           | Some e => inr e
           | None => inl (Some (mkSocket (realtime_config_path c) (realtime_heartbeat_ms c) (Some (realtime_capacity c))))
           end
  end.

(** [presence_runtime] *)
Definition presence_runtime (config : option CollabConfig) : option SocketRuntime + ConfigError :=
  match config with
  | None => inl None
  | Some c =>
      if negb (in_bounds HEARTBEAT_MIN_MS HEARTBEAT_MAX_MS (collab_heartbeat_ms c)) then inr (BadHeartbeatOrCapacity "collab")
      else match validate_socket_path (collab_config_path c) "collab" with
           | Some e => inr e
           | None => inl (Some (mkSocket (collab_config_path c) (collab_heartbeat_ms c) None))
           end
  end.

(** [assert_transport_paths_distinct] *)
Definition assert_transport_paths_distinct (realtime presence : option SocketRuntime) : option ConfigError :=
  match realtime, presence with
  | Some r, Some p => if String.eqb (socket_path r) (socket_path p) then Some (PathsCollide (socket_path p)) else None
  | _, _ => None
  end.

(** The sockets a server registers: [serve]'s three checks in their order. *)
Definition transports (realtime : option RealtimeConfig) (collab : option CollabConfig) : (option SocketRuntime * option SocketRuntime) + ConfigError :=
  match realtime_runtime realtime with
  | inr e => inr e
  | inl r =>
      match presence_runtime collab with
      | inr e => inr e
      | inl p => match assert_transport_paths_distinct r p with Some e => inr e | None => inl (r, p) end
      end
  end.

(** [native_only_capability_notes] *)
Definition native_only_capability_notes (watch : bool) (realtime presence : option SocketRuntime) : list string :=
  if negb watch then []
  else match realtime with Some r => ["realtime " +:+ socket_path r] | None => [] end ++ match presence with Some p => ["collab " +:+ socket_path p] | None => [] end.

(** *** Numbers out of the environment *)

Definition usize_bound : N := 18446744073709551615.

(** [positive_count]: [as usize] saturates. *)
Definition positive_count (raw : option string) : option N :=
  value ← raw ≫= (fun s => parse_f64 (trim s)); if finite_positive double value then Some (N.min usize_bound (Z.to_N (truncated double value))) else None.

(** [Duration::from_secs_f64] of a positive number, in nanoseconds; [None] is a panic. *)
Definition from_secs_f64 (value : f64) : option N :=
  let '(n, d) := ratio_of double value in
  let nanos := Z.to_N (round_half_even (n * 1000000000) d) in if (nanos / nanos_per_sec <=? 18446744073709551615)%N then Some nanos else None.

(** [value / 1_000.0] *)
Definition over_1000 (value : f64) : f64 := let '(n, d) := ratio_of double value in round_ratio double n (d * 1000).

(** [positive_millis]; the outer [None] is a panic. *)
Definition positive_millis (raw : option string) : option (option N) :=
  match raw ≫= (fun s => parse_f64 (trim s)) with
  | Some value => if finite_positive double value then Some <$> from_secs_f64 (over_1000 value) else Some None
  | None => Some None
  end.

(** *** Shutdown *)

Definition SERVER_SHUTDOWN_GRACE : N := 25 * nanos_per_sec.
Definition SERVER_DRAIN_DELAY : N := 5 * nanos_per_sec.

Record ShutdownTiming := mkTiming { grace : N; drain_delay : N }.

(** [ShutdownTiming::resolve]; [None] is a panic. *)
Definition resolve_timing (grace_value drain_value : option string) (watch : bool) : option ShutdownTiming :=
  grace ← positive_millis grace_value;
  let grace := default SERVER_SHUTDOWN_GRACE grace in
  let default_delay := if watch then 0%N else SERVER_DRAIN_DELAY in
  drain ← (if bool_decide (trim <$> drain_value = Some "0") then Some 0%N else default default_delay <$> positive_millis (trim <$> drain_value));
  Some (mkTiming grace (N.min drain (grace / 2))).

(** What [serve_with_signals] does next: the phases of a server that is told to stop. *)
Inductive ServingPhase := Accepting | DrainWindow | Closing | Stopped (forced : bool).
Inductive ServingEvent := ServersEnded | Signal | WindowPassed | GracePassed.

(** The phase, and whether the drain flag is up and the listeners are told to close. *)
Record ServingState := mkServing { phase : ServingPhase; draining : bool; shutdown_sent : bool }.

Definition serving_step (timing : ShutdownTiming) (e : ServingEvent) (s : ServingState) : option ServingState :=
  match phase s, e with
  | Accepting, ServersEnded => Some (mkServing (Stopped false) (draining s) (shutdown_sent s))
  | Accepting, Signal => Some (if (drain_delay timing =? 0)%N then mkServing Closing true true else mkServing DrainWindow true (shutdown_sent s))
  | DrainWindow, WindowPassed => Some (mkServing Closing true true)
  | DrainWindow, Signal => Some (mkServing (Stopped true) true true)
  | Closing, ServersEnded | Closing, GracePassed => Some (mkServing (Stopped false) true true)
  | Closing, Signal => Some (mkServing (Stopped true) true true)
  | _, _ => None
  end.

(** *** Admission *)

Definition ADMISSION_QUEUE_PER_SLOT : N := 4.
Definition ADMISSION_DEFAULT_FLOOR : N := 2.
Definition ADMISSION_DEFAULT_CEILING : N := 8.

Record AdmissionLimits := mkAdmission { concurrency : N; queue : N }.

(** [default_admission_concurrency]; [cores] is [available_parallelism]. *)
Definition default_admission_concurrency (cores : option N) : N :=
  N.max ADMISSION_DEFAULT_FLOOR (N.min ADMISSION_DEFAULT_CEILING (default ADMISSION_DEFAULT_FLOOR cores)).

(** [resolve_admission_limits]; the product wraps. *)
Definition resolve_admission_limits (cores : option N) (concurrency_value queue_value : option string) (watch : bool) : option AdmissionLimits :=
  let default_concurrency := if watch then 0%N else default_admission_concurrency cores in
  let concurrency := if bool_decide (trim <$> concurrency_value = Some "0") then 0%N else default default_concurrency (positive_count (trim <$> concurrency_value)) in
  if (concurrency =? 0)%N then None
  else Some (mkAdmission concurrency (default (concurrency * ADMISSION_QUEUE_PER_SLOT mod (usize_bound + 1))%N (positive_count queue_value))).

(** [Semaphore::MAX_PERMITS] *)
Definition MAX_PERMITS : N := usize_bound / 8.

(** [AdmissionControl::new]: [Semaphore::new] panics past its bound. *)
Definition admits (limits : AdmissionLimits) : bool := (concurrency limits <=? MAX_PERMITS)%N.

(** Where a request is in [admit]: about to try, to count itself, to take its count back, to ask the semaphore, in its queue, handed a permit there, about to take its count back with one, running, refused or answered. *)
Inductive Place := Trying | Counting | Refusing | Asking | Parked | Handed | Holding | Running | Refused | Answered.

#[export] Instance Place_eq_dec : EqDecision Place.
Proof. solve_decision. Defined.

(** [AdmissionControl]: the free permits, the semaphore's queue, and the waiter count. *)
Record AdmissionControl := mkControl { permits : N; parked : list N; waiting : N; places : gmap N Place }.

Definition new_control (limits : AdmissionLimits) : AdmissionControl := mkControl (concurrency limits) [] 0 ∅.

Definition put_at (id : N) (p : Place) (s : AdmissionControl) : AdmissionControl := mkControl (permits s) (parked s) (waiting s) (<[id := p]> (places s)).
Definition with_permits (n : N) (s : AdmissionControl) : AdmissionControl := mkControl n (parked s) (waiting s) (places s).
Definition with_waiting (n : N) (s : AdmissionControl) : AdmissionControl := mkControl (permits s) (parked s) n (places s).
Definition with_parked (l : list N) (s : AdmissionControl) : AdmissionControl := mkControl (permits s) l (waiting s) (places s).

(** A permit comes back: to the first in the queue, or to the free ones. *)
Definition give_back (s : AdmissionControl) : AdmissionControl :=
  match parked s with
  | [] => with_permits (permits s + 1) s
  | next :: rest => put_at next Handed (with_parked rest s)
  end.

(** One step of a request in [acquire] and [admit]. *)
Definition admission_act (limits : AdmissionLimits) (id : N) (s : AdmissionControl) : option AdmissionControl :=
  match places s !! id with
  | Some Trying => Some (if (0 <? permits s)%N then put_at id Running (with_permits (permits s - 1) s) else put_at id Counting s)
  | Some Counting => Some (put_at id (if (queue limits <=? waiting s)%N then Refusing else Asking) (with_waiting (waiting s + 1) s))
  | Some Refusing => Some (put_at id Refused (with_waiting (waiting s - 1) s))
  | Some Asking => Some (if (0 <? permits s)%N then put_at id Holding (with_permits (permits s - 1) s) else put_at id Parked (with_parked (parked s ++ [id]) s))
  | Some Handed => Some (put_at id Holding s)
  | Some Holding => Some (put_at id Running (with_waiting (waiting s - 1) s))
  | Some Running => Some (give_back (put_at id Answered s))
  | _ => None
  end.

(** The future of a request is dropped where it waits: in the queue, or while the request runs. *)
Definition admission_drop (id : N) (s : AdmissionControl) : option AdmissionControl :=
  match places s !! id with
  | Some Parked => Some (put_at id Answered (with_parked (filter (fun other => other <> id) (parked s)) s))
  | Some Handed | Some Running => Some (give_back (put_at id Answered s))
  | _ => None
  end.

Inductive Admission := Arrives (id : N) | Advances (id : N) | Leaves (id : N).

Definition admission_move (limits : AdmissionLimits) (m : Admission) (s : AdmissionControl) : option AdmissionControl :=
  match m with
  | Arrives id => match places s !! id with None => Some (put_at id Trying s) | Some _ => None end
  | Advances id => admission_act limits id s
  | Leaves id => admission_drop id s
  end.

(** [should_log_dev_request] *)
Definition should_log_dev_request (request_path : string) : bool :=
  if starts_with "/__ruvyxa/" request_path then false
  else if String.eqb request_path "/api" || starts_with "/api/" request_path then true
  else negb (bool_decide (is_Some (extension_of request_path))).

(** A run of admission; with it comes how many left while they waited. *)
Definition left_waiting (m : Admission) (s : AdmissionControl) : N :=
  match m with
  | Leaves id => match places s !! id with Some Parked | Some Handed => 1 | _ => 0 end
  | _ => 0
  end.

Fixpoint admission_run (limits : AdmissionLimits) (moves : list Admission) (s : AdmissionControl) : option (AdmissionControl * N) :=
  match moves with
  | [] => Some (s, 0%N)
  | m :: rest => s' ← admission_move limits m s; '(s'', gone) ← admission_run limits rest s'; Some (s'', (left_waiting m s + gone)%N)
  end.

(** *** Specification *)

Definition holds_permit (p : Place) : bool := match p with Handed | Holding | Running => true | _ => false end.
Definition let_in (p : Place) : bool := match p with Asking | Parked | Handed | Holding => true | _ => false end.
Definition counted (p : Place) : bool := match p with Refusing => true | _ => let_in p end.

(** How many requests are at such a place. *)
Definition count_places (P : Place -> bool) (m : gmap N Place) : N := N.of_nat (length (filter (fun kv => P kv.2 = true) (map_to_list m))).
Definition number_of (b : bool) : N := if b then 1 else 0.

(** Every permit is free or held, but for those just given up; every wait is counted, and those that left while they waited still are; who waits is let in, and waits for a permit. *)
Definition admission_owes (limits : AdmissionLimits) (gone given_up : N) (s : AdmissionControl) : Prop :=
  (permits s + count_places holds_permit (places s) + given_up = concurrency limits)%N /\
  (waiting s = count_places counted (places s) + gone)%N /\
  (count_places let_in (places s) <= queue limits)%N /\
  (forall id, id ∈ parked s <-> places s !! id = Some Parked) /\
  NoDup (parked s) /\
  ((0 < permits s)%N -> parked s = []).
Definition admission_ok (limits : AdmissionLimits) (gone : N) : AdmissionControl -> Prop := admission_owes limits gone 0.

(** ** Lemmas *)

Lemma count_new P m id p : m !! id = None -> count_places P (<[id := p]> m) = (count_places P m + number_of (P p))%N.
Proof.
  intros Hm. unfold count_places. rewrite map_to_list_insert by done. rewrite filter_cons. cbn. destruct (P p); cbn; [rewrite decide_True by done|rewrite decide_False by done]; cbn; lia.
Qed.

Lemma count_moved P m id p q : m !! id = Some p -> (count_places P (<[id := q]> m) + number_of (P p) = count_places P m + number_of (P q))%N.
Proof.
  intros Hm. assert (forall r, count_places P (<[id := r]> m) = (count_places P (delete id m) + number_of (P r))%N) as H.
  { intros r. rewrite <- insert_delete_eq. apply count_new, lookup_delete_eq. }
  rewrite H. rewrite <- (insert_id m id p Hm) at 2. rewrite H. lia.
Qed.

Lemma count_le P Q m : (forall p, P p = true -> Q p = true) -> (count_places P m <= count_places Q m)%N.
Proof.
  intros H. unfold count_places. induction (map_to_list m) as [|[id p] l IH]; [done|]. rewrite !filter_cons. cbn.
  destruct (P p) eqn:Hp; [rewrite (H p Hp), !decide_True by done; cbn; lia|]. rewrite decide_False by done. destruct (Q p); [rewrite decide_True by done; cbn; lia|by rewrite decide_False by done].
Qed.

Lemma count_one P m id p : m !! id = Some p -> P p = true -> (0 < count_places P m)%N.
Proof. intros Hm Hp. rewrite <- (insert_id m id p Hm), <- insert_delete_eq, count_new, Hp by apply lookup_delete_eq. cbn. lia. Qed.

(** Who is in the queue, when someone else moves. *)
Lemma parked_same (l : list N) (m : gmap N Place) id p q : m !! id = Some p -> p <> Parked -> q <> Parked ->
  (forall x, (x ∈ l) <-> m !! x = Some Parked) -> forall x, (x ∈ l) <-> <[id := q]> m !! x = Some Parked.
Proof.
  intros Hid Hp Hq H x. rewrite H. destruct (decide (x = id)) as [->|Hne]; [rewrite lookup_insert_eq; split; congruence|by rewrite lookup_insert_ne by done].
Qed.

(** Moving a request that is not and will not be in the queue. *)
Lemma moved_owes limits gone given_up s id p q n w :
  places s !! id = Some p -> p <> Parked -> q <> Parked -> admission_owes limits gone given_up s -> (n <= permits s)%N ->
  forall given_up',
  (n + number_of (holds_permit q) + given_up' = permits s + number_of (holds_permit p) + given_up)%N ->
  (w + number_of (counted p) = waiting s + number_of (counted q))%N ->
  (count_places let_in (places s) + number_of (let_in q) <= queue limits + number_of (let_in p))%N ->
  admission_owes limits gone given_up' (mkControl n (parked s) w (<[id := q]> (places s))).
Proof.
  intros Hid Hp Hq (H1 & H2 & H3 & H4 & H5 & H6) Hn given_up' Hh Hw Hl.
  pose proof (count_moved holds_permit _ _ _ q Hid). pose proof (count_moved counted _ _ _ q Hid). pose proof (count_moved let_in _ _ _ q Hid).
  split_and!; cbn; [lia|lia|lia|by eapply parked_same|done|intros Hpos; apply H6; lia].
Qed.

Lemma gave_back limits gone s : admission_owes limits gone 1 s -> admission_ok limits gone (give_back s).
Proof.
  intros (H1 & H2 & H3 & H4 & H5 & H6). unfold give_back. destruct (parked s) as [|next rest] eqn:Hq; [split_and!; cbn; rewrite ?Hq; try done; lia|].
  assert (places s !! next = Some Parked) as Hnext by (apply H4; set_solver). apply NoDup_cons in H5 as [Hnot H5].
  pose proof (count_moved holds_permit _ _ _ Handed Hnext) as C1. pose proof (count_moved counted _ _ _ Handed Hnext) as C2. pose proof (count_moved let_in _ _ _ Handed Hnext) as C3. cbn in C1, C2, C3.
  split_and!; cbn; [lia|lia|lia| |done|intros Hpos; by specialize (H6 Hpos)].
  intros x. destruct (decide (x = next)) as [->|Hne]; [rewrite lookup_insert_eq; split; [done|intros [=]]|].
  rewrite lookup_insert_ne by done. rewrite <- H4. set_solver.
Qed.

(** A request joins the queue, and leaves it. *)
Lemma parks limits gone s id : places s !! id = Some Asking -> permits s = 0%N -> admission_ok limits gone s ->
  admission_ok limits gone (put_at id Parked (with_parked (parked s ++ [id]) s)).
Proof.
  intros Hid Hp (H1 & H2 & H3 & H4 & H5 & H6). pose proof (count_moved holds_permit _ _ _ Parked Hid) as C1. pose proof (count_moved counted _ _ _ Parked Hid) as C2.
  pose proof (count_moved let_in _ _ _ Parked Hid) as C3. cbn in C1, C2, C3.
  assert (id ∉ parked s) as Hnot by (rewrite H4; congruence).
  split_and!; cbn; [lia|lia|lia| | |lia].
  - intros x. rewrite elem_of_app, list_elem_of_singleton. destruct (decide (x = id)) as [->|Hne]; [rewrite lookup_insert_eq; split; [done|by right]|].
    rewrite lookup_insert_ne by done. rewrite <- H4. split; [by intros [?| ->]|by left].
  - apply NoDup_app. split; [done|]. split; [set_solver|apply NoDup_singleton].
Qed.

Lemma leaves_queue limits gone s id : places s !! id = Some Parked -> admission_ok limits gone s ->
  admission_ok limits (1 + gone) (put_at id Answered (with_parked (filter (fun other => other <> id) (parked s)) s)).
Proof.
  intros Hid (H1 & H2 & H3 & H4 & H5 & H6). pose proof (count_moved holds_permit _ _ _ Answered Hid) as C1. pose proof (count_moved counted _ _ _ Answered Hid) as C2.
  pose proof (count_moved let_in _ _ _ Answered Hid) as C3. cbn in C1, C2, C3.
  split_and!; cbn; [lia|lia|lia| | |intros Hpos; by rewrite (H6 Hpos)].
  - intros x. rewrite list_elem_of_filter. destruct (decide (x = id)) as [->|Hne]; [rewrite lookup_insert_eq; split; [by intros []|intros [=]]|].
    rewrite lookup_insert_ne by done. rewrite <- H4. tauto.
  - by apply NoDup_filter.
Qed.

(** A request moves: what it held, and what is counted of it, decides. *)
Ltac moves_to :=
  unfold admission_ok, put_at, with_permits, with_waiting in *; cbn [permits parked waiting places] in *;
  eapply moved_owes; [eassumption|done|done|eassumption|cbn; lia|cbn; lia|cbn; lia|].
Ltac moves := moves_to; cbn; lia.

Lemma admission_act_ok limits gone id s s' : admission_act limits id s = Some s' -> admission_ok limits gone s -> admission_ok limits gone s'.
Proof.
  intros H Hok. pose proof Hok as (H1 & H2 & H3 & _). unfold admission_act in H. destruct (places s !! id) as [p|] eqn:Hid; [|done].
  destruct p; try done; injection H as <-.
  - destruct (N.ltb_spec 0 (permits s)); moves.
  - destruct (N.leb_spec (queue limits) (waiting s)); [moves|]. moves_to.
    assert (count_places let_in (places s) <= count_places counted (places s))%N; [|cbn; lia]. apply count_le. by intros [].
  - pose proof (count_one counted _ _ _ Hid eq_refl). moves.
  - destruct (N.ltb_spec 0 (permits s)); [moves|]. apply parks; [done|lia|done].
  - moves.
  - pose proof (count_one counted _ _ _ Hid eq_refl). moves.
  - apply gave_back. moves.
Qed.

Lemma drop_ok limits gone id s s' : admission_drop id s = Some s' -> admission_ok limits gone s -> admission_ok limits (left_waiting (Leaves id) s + gone) s'.
Proof.
  intros H Hok. pose proof Hok as (_ & _ & Hlet & _). unfold admission_drop in H. unfold left_waiting. destruct (places s !! id) as [p|] eqn:Hid; [|done]. destruct p; try done; injection H as <-.
  - by apply leaves_queue.
  - apply gave_back. destruct Hok as (H1 & H2 & H3 & H4 & H5 & H6).
    pose proof (count_moved holds_permit _ _ _ Answered Hid) as C1. pose proof (count_moved counted _ _ _ Answered Hid) as C2. pose proof (count_moved let_in _ _ _ Answered Hid) as C3. cbn in C1, C2, C3.
    split_and!; cbn; [lia|lia|lia|by eapply parked_same|done|done].
  - apply gave_back. moves.
Qed.

Lemma move_ok limits gone m s s' : admission_move limits m s = Some s' -> admission_ok limits gone s -> admission_ok limits (left_waiting m s + gone) s'.
Proof.
  destruct m as [id|id|id]; cbn [admission_move]; intros H Hok.
  - destruct (places s !! id) eqn:Hid; [done|]. injection H as <-. destruct Hok as (H1 & H2 & H3 & H4 & H5 & H6).
    split_and!; cbn; rewrite ?(count_new _ _ _ _ Hid); cbn; try lia; [|done|done].
    intros x. rewrite H4. destruct (decide (x = id)) as [->|Hne]; [rewrite lookup_insert_eq; split; congruence|by rewrite lookup_insert_ne by done].
  - by eapply admission_act_ok.
  - by eapply drop_ok.
Qed.

Lemma admission_run_ok limits moves : forall gone s s' more, admission_run limits moves s = Some (s', more) -> admission_ok limits gone s -> admission_ok limits (more + gone) s'.
Proof.
  induction moves as [|m moves IH]; intros gone s s' more H Hok; cbn [admission_run] in H; [injection H as <- <-; done|].
  destruct (admission_move limits m s) as [s1|] eqn:Hm; [|done]. cbn in H. destruct (admission_run limits moves s1) as [[s2 more']|] eqn:Hr; [|done].
  injection H as <- <-. replace (left_waiting m s + more' + gone)%N with (more' + (left_waiting m s + gone))%N by lia. eapply IH; [exact Hr|by eapply move_ok].
Qed.

Lemma new_control_ok limits : admission_ok limits 0 (new_control limits).
Proof.
  split_and!; cbn; try done; unfold count_places; rewrite ?map_to_list_empty; cbn; [lia|lia| |constructor].
  intros id. rewrite lookup_empty. split; [by intros H%elem_of_nil|done].
Qed.

(** ** Properties *)

(** C36: admission keeps its bounds.  However requests arrive, advance and are dropped, no more than the configured number run and no more than the queue holds wait; a permit is free or held, never lost; while one is free nobody is in the queue; and the count of waiters is exactly those let in or being refused, and, one each and for good, those whose client went away while they waited. *)
Theorem admission_keeps_bounds limits moves s gone :
  admission_run limits moves (new_control limits) = Some (s, gone) ->
  (count_places (fun p => bool_decide (p = Running)) (places s) <= concurrency limits)%N /\
  (count_places let_in (places s) <= queue limits)%N /\
  (permits s + count_places holds_permit (places s) = concurrency limits)%N /\
  ((0 < permits s)%N -> forall id, places s !! id <> Some Parked) /\
  (waiting s = count_places counted (places s) + gone)%N.
Proof.
  intros H. pose proof (admission_run_ok _ _ _ _ _ _ H (new_control_ok limits)) as (H1 & H2 & H3 & H4 & _ & H6). split_and!.
  - assert (count_places (fun p => bool_decide (p = Running)) (places s) <= count_places holds_permit (places s))%N; [|lia]. apply count_le. by intros [].
  - done.
  - lia.
  - intros Hp id Hid%H4. by rewrite (H6 Hp) in Hid; apply elem_of_nil in Hid.
  - lia.
Qed.

Definition one_slot : AdmissionLimits := mkAdmission 1 1.

(** One request runs; one that waited for it was dropped. *)
Definition dropped_waiter : list Admission := [Arrives 0; Advances 0; Arrives 1; Advances 1; Advances 1; Advances 1; Leaves 1].

Lemma admission_keeps_bounds_witness :
  exists s, admission_run one_slot dropped_waiter (new_control one_slot) = Some (s, 1%N) /\ waiting s = 1%N /\ count_places counted (places s) = 0%N /\
    (count_places let_in (places s) <= queue one_slot)%N.
Proof.
  destruct (admission_run one_slot dropped_waiter (new_control one_slot)) as [[s gone]|] eqn:E; [|by vm_compute in E].
  assert (gone = 1%N /\ waiting s = 1%N) as [-> Hw] by (vm_compute in E; by injection E as <- <-).
  destruct (admission_keeps_bounds one_slot dropped_waiter s 1 E) as (_ & Hq & _ & _ & Hc). exists s. split_and!; [done|done|lia|done].
Defined.

(** A waiter that was dropped is counted for good: the next request is refused although nobody waits. *)
Example a_dropped_waiter_keeps_its_place :
  (fun '(s, _) => (places s !! 2%N, filter (fun kv => kv.2 = Parked) (map_to_list (places s)))) <$>
    admission_run one_slot (dropped_waiter ++ [Arrives 2; Advances 2; Advances 2; Advances 2]) (new_control one_slot) = Some (Some Refused, []).
Proof. by vm_compute. Qed.

(** A fraction turns admission off, a number past any machine's ends the process, and so does a window past any clock's. *)
Example settings_out_of_range :
  resolve_admission_limits (Some 4%N) (Some "0.5") None false = None /\
  (admits <$> resolve_admission_limits (Some 4%N) (Some "1e19") None false) = Some false /\
  resolve_timing (Some "1e25") None false = None /\ resolve_timing (Some "10000") (Some "60000") false = Some (mkTiming 10000000000 5000000000).
Proof. by vm_compute. Qed.
