(* ===== verification/DocumentStream.v ===== *)
(** * Documents that are still arriving (ruvyxa_dev_server/src/document_stream.rs)

    The head is composed once its end was seen, the tail put before the closing
    tag found in the window held back from the end.  The stream below is a list
    of what polling it answers; however it cuts the document, what is sent is the
    same. *)
From S2P Require Import Prelude RustStr Utf8 Text HtmlDocument.

(** ** Definitions *)

#[local] Abbreviation bytes := (list ascii).
(** [String::from_utf8_lossy] *)
Definition lossy (b : bytes) : string := from_utf8_lossy (text_of b).

Definition TAIL_WINDOW : nat := 1024.
Definition MAX_HEAD_PREFIX : nat := N.to_nat (512 * 1024).
Definition HEAD_END : bytes := bytes_of "</head>".
Definition BODY_END : bytes := bytes_of "</body>".

(** [window.eq_ignore_ascii_case(needle)] on the bytes here. *)
Fixpoint starts_case (needle l : bytes) : bool :=
  match needle, l with
  | [], _ => true
  | a :: needle, b :: l => Ascii.eqb (lower_byte a) (lower_byte b) && starts_case needle l
  | _ :: _, [] => false
  end.

Fixpoint window_position (needle l : bytes) : option nat :=
  if starts_case needle l then Some 0
  else match l with [] => None | _ :: l => S <$> window_position needle l end.

(** [find_ascii_case] *)
Definition find_bytes_case (haystack needle : bytes) : option nat :=
  if bool_decide (needle = []) || (length haystack <? length needle) then None else window_position needle haystack.

Definition continues (l : bytes) (i : nat) : bool := match l !! i with Some b => is_continuation b | None => false end.

(** [floor_char_boundary] *)
Fixpoint floor_from (l : bytes) (split : nat) : nat :=
  match split with
  | O => O
  | S split' => if continues l split then floor_from l split' else split
  end.
Definition floor_char_boundary (l : bytes) (at_ : nat) : nat := floor_from l (Nat.min at_ (length l)).

Section stream.
(** What composes the head, and what the tail is when the body is over. *)
Context (compose : string -> string) (tail : string).

(** [StreamedDocument]; [head] and [tail] are closures that are used once. *)
Record StreamedDocument := mkStreamed { head_pending : bool; held : bytes; scanned : nat; tail_pending : bool; finished : bool }.

(** [StreamedDocument::new] *)
Definition new_document : StreamedDocument := mkStreamed true [] 0 true false.

(** [take_head] *)
Definition take_head (d : StreamedDocument) : option bytes * StreamedDocument :=
  if negb (head_pending d) then (None, d)
  else
    let from := scanned d - (length HEAD_END - 1) in
    let end_ := (fun i => from + i + length HEAD_END) <$> find_bytes_case (drop from (held d)) HEAD_END in
    let split_at := match end_ with
                    | Some split => Some split
                    | None => if MAX_HEAD_PREFIX <=? length (held d) then Some (length (held d)) else None
                    end in
    match split_at with
    | None => (None, mkStreamed true (held d) (length (held d)) (tail_pending d) (finished d))
    | Some split =>
        let split := floor_char_boundary (held d) split in
        let prefix := lossy (take split (held d)) in
        (Some (bytes_of (match end_ with Some _ => compose prefix | None => prefix end)),
         mkStreamed false (drop split (held d)) 0 (tail_pending d) (finished d))
    end.

(** [take_body] *)
Definition take_body (d : StreamedDocument) : option bytes * StreamedDocument :=
  if head_pending d || (length (held d) <=? TAIL_WINDOW) then (None, d)
  else
    let split := floor_char_boundary (held d) (length (held d) - TAIL_WINDOW) in
    if split =? 0 then (None, d)
    else (Some (take split (held d)), mkStreamed (head_pending d) (drop split (held d)) (scanned d) (tail_pending d) (finished d)).

(** The tail before the closing tag, or at the end. *)
Definition insert_tail (l tail : bytes) : bytes :=
  match find_bytes_case l BODY_END with Some i => take i l ++ tail ++ drop i l | None => l ++ tail end.

(** [take_end] *)
Definition take_end (d : StreamedDocument) : bytes * StreamedDocument :=
  (insert_tail (bytes_of (lossy (held d))) (if tail_pending d then bytes_of tail else []), mkStreamed false [] (scanned d) false (finished d)).

(** What polling the stream below answers. *)
Inductive Polled := Waiting | Chunk (b : bytes) | Failed (e : string) | Ended.

Inductive Poll := Pending | Ready (item : option (bytes + string)).

Definition extend_held (b : bytes) (d : StreamedDocument) : StreamedDocument := mkStreamed (head_pending d) (held d ++ b) (scanned d) (tail_pending d) (finished d).
Definition finish (d : StreamedDocument) : StreamedDocument := mkStreamed (head_pending d) (held d) (scanned d) (tail_pending d) true.

(** [poll_next] *)
Fixpoint poll_next (inner : list Polled) (d : StreamedDocument) : Poll * list Polled * StreamedDocument :=
  if finished d then (Ready None, inner, d)
  else
    match take_head d with
    | (Some chunk, d) => (Ready (Some (inl chunk)), inner, d)
    | (None, d) =>
        match take_body d with
        | (Some chunk, d) => (Ready (Some (inl chunk)), inner, d)
        | (None, d) =>
            match inner with
            | [] => (Pending, [], d)
            | Waiting :: inner => (Pending, inner, d)
            | Chunk b :: inner => poll_next inner (extend_held b d)
            | Failed e :: inner => (Ready (Some (inr e)), inner, finish d)
            | Ended :: inner => let '(chunk, d) := take_end d in (Ready (Some (inl chunk)), inner, finish d)
            end
        end
    end.

(** Everything a stream sends, polled until it is over; [None] when it is not within the fuel. *)
Fixpoint collect (fuel : nat) (inner : list Polled) (d : StreamedDocument) : option (list (bytes + string)) :=
  match fuel with
  | O => None
  | S fuel =>
      match poll_next inner d with
      | (Pending, [], _) => None
      | (Pending, inner, d) => collect fuel inner d
      | (Ready None, _, _) => Some []
      | (Ready (Some item), inner, d) => cons item <$> collect fuel inner d
      end
  end.

(** ** Specification *)

(** The document as one text: the head composed up to its end, the tail before the closing tag if that is in the window at the end. *)
Definition window_start (rest : bytes) : nat := if length rest <=? TAIL_WINDOW then 0 else floor_char_boundary rest (length rest - TAIL_WINDOW).
Definition with_tail (rest : bytes) : bytes := take (window_start rest) rest ++ insert_tail (drop (window_start rest) rest) (bytes_of tail).

Definition streamed (body : bytes) : bytes :=
  match find_bytes_case body HEAD_END with
  | Some i => bytes_of (compose (text_of (take (i + length HEAD_END) body))) ++ with_tail (drop (i + length HEAD_END) body)
  | None => insert_tail body (bytes_of tail)
  end.

(** The head ends within the bound; a document without one is shorter. *)
Definition head_in_bounds (body : bytes) : Prop :=
  match find_bytes_case body HEAD_END with Some i => i + length HEAD_END <= MAX_HEAD_PREFIX | None => length body < MAX_HEAD_PREFIX end.

Definition chunk_bytes (p : Polled) : option bytes := match p with Waiting => Some [] | Chunk b => Some b | _ => None end.
Definition body_of (polls : list Polled) : bytes := concat (omap chunk_bytes polls).
Definition sent (items : list (bytes + string)) : bytes := concat (omap (fun i => match i with inl b => Some b | inr _ => None end) items).

(** ** Lemmas *)

(** *** Searching *)

Lemma starts_case_length needle l : starts_case needle l = true -> length needle <= length l.
Proof. revert l. induction needle as [|a needle IH]; intros [|b l]; cbn; [lia..|done|]. intros [_ H]%andb_true_iff. apply IH in H. lia. Qed.

Lemma starts_case_app needle l r : starts_case needle l = true -> starts_case needle (l ++ r) = true.
Proof. revert l. induction needle as [|a needle IH]; intros [|b l]; cbn; try done. intros [-> H]%andb_true_iff. by apply IH. Qed.

Lemma starts_case_shorter needle l r : length needle <= length l -> starts_case needle (l ++ r) = starts_case needle l.
Proof. revert l. induction needle as [|a needle IH]; intros [|b l] Hl; cbn in *; [done..|lia|]. f_equal. apply IH. lia. Qed.

(** The first place where the needle starts. *)
Lemma window_position_Some needle l i :
  window_position needle l = Some i <-> starts_case needle (drop i l) = true /\ i <= length l /\ forall j, j < i -> starts_case needle (drop j l) = false.
Proof.
  revert i. induction l as [|b l IH]; intros i; cbn [window_position].
  - destruct (starts_case needle []) eqn:E.
    + split; [intros [= <-]; split_and!; [done|done|lia]|]. intros (_ & Hi & _). cbn in Hi. by assert (i = 0) as -> by lia.
    + split; [done|]. intros (H & _). by rewrite drop_nil, E in H.
  - destruct (starts_case needle (b :: l)) eqn:E.
    + split; [intros [= <-]; split_and!; [done|lia|lia]|]. intros (_ & _ & Hf). destruct i as [|i]; [done|]. specialize (Hf 0 ltac:(lia)). cbn [drop] in Hf. congruence.
    + rewrite fmap_Some. split.
      * intros (k & (Hk & Hl & Hf)%IH & ->). split_and!; [done|cbn; lia|]. intros [|j] Hj; [done|]. apply Hf. lia.
      * intros (Hk & Hl & Hf). destruct i as [|i]; [cbn [drop] in Hk; congruence|]. exists i. split; [|done]. apply IH. split_and!; [done|cbn in Hl; lia|].
        intros j Hj. apply (Hf (S j)). lia.
Qed.

Lemma window_position_None needle l : window_position needle l = None <-> forall j, j <= length l -> starts_case needle (drop j l) = false.
Proof.
  induction l as [|b l IH]; cbn [window_position].
  - destruct (starts_case needle []) eqn:E; (split; [|]); try done.
    + intros H. specialize (H 0 ltac:(cbn; lia)). cbn [drop] in H. congruence.
    + intros _ [|j] Hj; [done|]. by cbn in Hj.
  - destruct (starts_case needle (b :: l)) eqn:E.
    + split; [done|]. intros H. specialize (H 0 ltac:(lia)). cbn [drop] in H. congruence.
    + rewrite fmap_None, IH. split; [intros H [|j] Hj; [done|apply H; cbn in Hj; lia]|intros H j Hj; apply (H (S j)); cbn; lia].
Qed.

Lemma find_bytes_position haystack needle : needle <> [] -> find_bytes_case haystack needle = window_position needle haystack.
Proof.
  intros Hn. unfold find_bytes_case. rewrite bool_decide_false by done. destruct (Nat.ltb_spec (length haystack) (length needle)); [|done]. symmetry.
  apply window_position_None. intros j _. destruct (starts_case needle (drop j haystack)) eqn:E; [|done]. apply starts_case_length in E. rewrite length_drop in E. lia.
Qed.

(** A place found stays the first one when more arrives. *)
Lemma window_position_app needle l r i : window_position needle l = Some i -> window_position needle (l ++ r) = Some i.
Proof.
  rewrite !window_position_Some. intros (Hs & Hi & Hf). pose proof (starts_case_length _ _ Hs) as Hlen. rewrite length_drop in Hlen. split_and!.
  - rewrite drop_app_le by done. by apply starts_case_app.
  - rewrite length_app. lia.
  - intros j Hj. rewrite drop_app_le by lia. rewrite starts_case_shorter; [by apply Hf|]. rewrite length_drop. lia.
Qed.

(** Nothing found in the part already searched: the search may go on where a needle could still begin. *)
Lemma window_position_resume needle l k :
  needle <> [] -> k <= length l -> window_position needle (take k l) = None ->
  let from := k - (length needle - 1) in (fun i => from + i) <$> window_position needle (drop from l) = window_position needle l.
Proof.
  intros Hn Hk Hnone from. assert (forall j, j < from -> starts_case needle (drop j l) = false) as Hearly.
  { intros j Hj. rewrite window_position_None in Hnone. specialize (Hnone j). rewrite length_take, Nat.min_l in Hnone by done. specialize (Hnone ltac:(lia)).
    rewrite <- (take_drop k l). rewrite drop_app_le by (rewrite length_take; lia). rewrite starts_case_shorter; [done|]. rewrite length_drop, length_take. lia. }
  destruct (window_position needle (drop from l)) as [i|] eqn:E; cbn.
  - symmetry. apply window_position_Some in E as (Hs & Hi & Hf). rewrite drop_drop in Hs. apply window_position_Some. split_and!; [done|rewrite length_drop in Hi; lia|].
    intros j Hj. destruct (Nat.lt_ge_cases j from); [by apply Hearly|]. specialize (Hf (j - from) ltac:(lia)). rewrite drop_drop in Hf. by replace (from + (j - from)) with j in Hf by lia.
  - symmetry. apply window_position_None. intros j Hj. rewrite window_position_None in E. destruct (Nat.lt_ge_cases j from); [by apply Hearly|].
    specialize (E (j - from)). rewrite length_drop, drop_drop in E. replace (from + (j - from)) with j in E by lia. apply E. lia.
Qed.
(** *** Character boundaries *)

Lemma floor_from_spec l at_ r :
  floor_from l at_ = r <-> r <= at_ /\ (r = 0 \/ continues l r = false) /\ forall j, r < j <= at_ -> continues l j = true.
Proof.
  revert r. induction at_ as [|at_ IH]; intros r; cbn [floor_from].
  - split; [intros <-; split_and!; [done|by left|lia]|lia].
  - destruct (continues l (S at_)) eqn:E.
    + rewrite IH. split; intros (Hr & Hb & Hc).
      * split_and!; [lia|done|]. intros j Hj. destruct (decide (j = S at_)) as [->|]; [done|]. apply Hc. lia.
      * destruct (decide (r = S at_)) as [->|]; [destruct Hb; [lia|congruence]|]. split_and!; [lia|done|]. intros j Hj. apply Hc. lia.
    + split; [intros <-; split_and!; [lia|by right|lia]|]. intros (Hr & Hb & Hc). destruct (decide (r = S at_)) as [->|]; [done|].
      specialize (Hc (S at_) ltac:(lia)). congruence.
Qed.

Lemma floor_spec l at_ : at_ <= length l ->
  let r := floor_char_boundary l at_ in r <= at_ /\ (r = 0 \/ continues l r = false) /\ forall j, r < j <= at_ -> continues l j = true.
Proof. intros H. unfold floor_char_boundary. rewrite Nat.min_l by done. by apply floor_from_spec. Qed.

Lemma continues_drop l k j : continues (drop k l) j = continues l (k + j).
Proof. unfold continues. by rewrite lookup_drop. Qed.

Lemma continues_app l r j : j < length l -> continues (l ++ r) j = continues l j.
Proof. intros H. unfold continues. by rewrite lookup_app_l. Qed.

(** Cutting at a boundary first makes no difference. *)
Lemma floor_drop l k at_ : k <= at_ -> at_ <= length l -> k = 0 \/ continues l k = false -> floor_char_boundary l at_ = k + floor_char_boundary (drop k l) (at_ - k).
Proof.
  intros Hk Ha Hb. destruct (floor_spec (drop k l) (at_ - k)) as (Hr & Hrb & Hrc); [rewrite length_drop; lia|].
  set (r := floor_char_boundary (drop k l) (at_ - k)) in *. unfold floor_char_boundary. rewrite Nat.min_l by done. apply floor_from_spec. split_and!; [lia| |].
  - destruct Hrb as [->|Hrb]; [by rewrite Nat.add_0_r|]. right. by rewrite continues_drop in Hrb.
  - intros j Hj. specialize (Hrc (j - k) ltac:(lia)). rewrite continues_drop in Hrc. by replace (k + (j - k)) with j in Hrc by lia.
Qed.

Lemma floor_app l r at_ : at_ < length l -> floor_char_boundary (l ++ r) at_ = floor_char_boundary l at_.
Proof.
  intros H. destruct (floor_spec l at_ ltac:(lia)) as (Hr & Hb & Hc). set (k := floor_char_boundary l at_) in *.
  unfold floor_char_boundary. rewrite Nat.min_l by (rewrite length_app; lia). apply floor_from_spec. split_and!; [done|rewrite continues_app by lia; done|].
  intros j Hj. rewrite continues_app by lia. by apply Hc.
Qed.

Lemma second_continues b1 b2 : second_ok b1 b2 = true -> is_continuation b2 = true.
Proof.
  unfold second_ok, is_continuation, in_range. repeat case_match; try done; intros Hsec; split_andb; breflect; apply andb_true_iff; split; apply N.leb_le; lia.
Qed.

(** The bytes of a character after its first continue it. *)
Lemma char_continues l c rest i : split_char1 l = Some (c, rest) -> 0 < i < length c -> continues l i = true.
Proof.
  intros H Hi. pose proof (split_char1_Some _ _ _ H) as [-> [(b & -> & _)|_]]; [cbn in Hi; lia|]. rewrite continues_app by lia.
  destruct c as [|b1 c]; [cbn in Hi; lia|]. cbn [app split_char1] in H. destruct (is_ascii_byte b1); [injection H as <- _; cbn in Hi; lia|].
  destruct (sequence_length b1) as [|[|[|[|[|n]]]]]; try done;
    destruct c as [|b2 [|b3 [|b4 [|b5 c]]]]; destruct rest as [|r1 [|r2 [|r3 rest]]]; cbn in H; try done;
    repeat match goal with H : (if ?b then _ else _) = Some _ |- _ => destruct b eqn:? end; try done; simplify_eq; split_andb; cbn in Hi; unfold continues;
    destruct i as [|[|[|[|i]]]]; try lia; cbn; by eauto using second_continues.
Qed.

Lemma utf8_cut l i : utf8 l -> i <= length l -> continues l i = false -> utf8 (take i l) /\ utf8 (drop i l).
Proof.
  intros H. revert i. induction H as [|c rest l Hs Hrest IH]; intros i Hi Hc; [rewrite take_nil, drop_nil; by split; constructor|].
  destruct (decide (i = 0)) as [->|Hi0]; [cbn [take drop]; split; [constructor|by eapply utf8_cons]|].
  destruct (decide (i < length c)) as [Hlt|Hge]; [rewrite (char_continues _ _ _ _ Hs) in Hc by lia; done|].
  pose proof (split_char1_Some _ _ _ Hs) as [-> _]. rewrite length_app in Hi. destruct (IH (i - length c)) as [Ht Hd]; [lia| |].
  { unfold continues in *. rewrite lookup_app_r in Hc by lia. done. }
  rewrite take_app_ge, drop_app_ge by lia. split; [|done]. eapply utf8_cons; [by eapply split_char1_app|done].
Qed.

Lemma lossy_cons_char l c rest : split_char1 l = Some (c, rest) -> lossy l = text_of c +:+ lossy rest.
Proof.
  destruct l as [|b1 l]; [done|]. unfold lossy, text_of. cbn [split_char1 String.string_of_list_ascii from_utf8_lossy]. unfold is_ascii_byte. destruct (byte_of b1 <? 128)%N; [intros [= <- <-]; done|].
  destruct (sequence_length b1) as [|[|[|[|[|n]]]]]; try done.
  - destruct l as [|b2 l]; [done|]. cbn. destruct (second_ok b1 b2); [|done]. by intros [= <- <-].
  - destruct l as [|b2 [|b3 l]]; [done..|]. cbn. destruct (second_ok b1 b2); [|done]. cbn. destruct (is_continuation b3); [|done]. by intros [= <- <-].
  - destruct l as [|b2 [|b3 [|b4 l]]]; [done..|]. cbn. destruct (second_ok b1 b2); [|done]. cbn. destruct (is_continuation b3); [|done]. cbn. destruct (is_continuation b4); [|done]. by intros [= <- <-].
Qed.

Lemma text_of_app a b : text_of (a ++ b) = text_of a +:+ text_of b.
Proof. induction a as [|x a IH]; [done|]. cbn. f_equal. exact IH. Qed.

Lemma lossy_utf8 l : utf8 l -> lossy l = text_of l.
Proof.
  induction 1 as [|c rest l Hs Hrest IH]; [done|]. rewrite (lossy_cons_char _ _ _ Hs), IH. pose proof (split_char1_Some _ _ _ Hs) as [-> _]. by rewrite text_of_app.
Qed.

Lemma bytes_text l : bytes_of (text_of l) = l.
Proof. apply String.list_ascii_of_string_of_list_ascii. Qed.

(** *** Steps *)

Lemma head_end_shape l i : starts_case HEAD_END (drop i l) = true -> exists b, l !! (i + 6) = Some b /\ is_ascii_byte b = true.
Proof.
  intros H. pose proof (starts_case_length _ _ H) as Hl. rewrite length_drop in Hl. cbn in Hl. destruct (lookup_lt_is_Some_2 l (i + 6) ltac:(lia)) as [b Hb].
  exists b. split; [done|]. rewrite <- (lookup_drop l i) in Hb. destruct (drop i l) as [|b0 [|b1 [|b2 [|b3 [|b4 [|b5 [|b6 r]]]]]]]; try done. injection Hb as ->.
  cbn in H. split_andb. repeat match goal with H : Ascii.eqb _ (lower_byte b) = true |- _ => revert H end. clear. by destruct b as [[] [] [] [] [] [] [] []].
Qed.

(** After the end of the head a character begins. *)
Lemma head_boundary l i : utf8 l -> starts_case HEAD_END (drop i l) = true -> i + 7 <= length l /\ continues l (i + 7) = false.
Proof.
  intros Hu Hs. pose proof (starts_case_length _ _ Hs) as Hl. rewrite length_drop in Hl. cbn in Hl. destruct (head_end_shape _ _ Hs) as (b & Hb & Ha).
  split; [lia|]. unfold continues. destruct (l !! (i + 7)) as [c|] eqn:Hc; [|done]. eapply utf8_after_ascii; [exact Hu|exact Hb|exact Ha|]. by replace (S (i + 6)) with (i + 7) by lia.
Qed.

Lemma collect_chunk fuel b inner d d1 d2 : finished d = false -> take_head d = (None, d1) -> take_body d1 = (None, d2) ->
  collect fuel (Chunk b :: inner) d = collect fuel inner (extend_held b d2).
Proof. intros Hf Hh Hb. destruct fuel as [|fuel]; [done|]. cbn [collect poll_next]. by rewrite Hf, Hh, Hb. Qed.

Lemma collect_waiting fuel inner d d1 d2 : inner <> [] -> finished d = false -> take_head d = (None, d1) -> take_body d1 = (None, d2) ->
  collect (S fuel) (Waiting :: inner) d = collect fuel inner d2.
Proof. intros Hi Hf Hh Hb. cbn [collect poll_next]. rewrite Hf, Hh, Hb. by destruct inner. Qed.

Lemma collect_ended fuel d d1 d2 : finished d = false -> take_head d = (None, d1) -> take_body d1 = (None, d2) ->
  collect (S (S fuel)) [Ended] d = Some [inl (take_end d2).1].
Proof. intros Hf Hh Hb. cbn [collect poll_next]. rewrite Hf, Hh, Hb. done. Qed.

Lemma collect_head fuel inner d c d1 : inner <> [] -> finished d = false -> take_head d = (Some c, d1) -> collect (S fuel) inner d = cons (inl c) <$> collect fuel inner d1.
Proof. intros Hi Hf Hh. destruct inner as [|p inner]; [done|]. cbn [collect]. destruct p; cbn [poll_next]; by rewrite Hf, Hh. Qed.

Lemma collect_body fuel inner d d1 c d2 : inner <> [] -> finished d = false -> take_head d = (None, d1) -> take_body d1 = (Some c, d2) ->
  collect (S fuel) inner d = cons (inl c) <$> collect fuel inner d2.
Proof. intros Hi Hf Hh Hb. destruct inner as [|p inner]; [done|]. cbn [collect]. destruct p; cbn [poll_next]; by rewrite Hf, Hh, Hb. Qed.

(** What is sent early is what the whole would begin with. *)
Lemma with_tail_emit l r : TAIL_WINDOW < length l ->
  let split := floor_char_boundary l (length l - TAIL_WINDOW) in with_tail (l ++ r) = take split l ++ with_tail (drop split l ++ r).
Proof.
  intros Hl split. destruct (floor_spec l (length l - TAIL_WINDOW) ltac:(lia)) as (Hs & Hb & _). fold split in Hs, Hb.
  assert (TAIL_WINDOW = 1024) as HT by done. unfold with_tail. assert (window_start (l ++ r) = split + window_start (drop split l ++ r)) as ->.
  { unfold window_start. rewrite !length_app, length_drop. destruct (Nat.leb_spec (length l + length r) TAIL_WINDOW); [lia|].
    assert (split = 0 \/ continues (l ++ r) split = false) as Hb' by (rewrite continues_app by lia; done).
    destruct (Nat.leb_spec (length l - split + length r) TAIL_WINDOW).
    - assert (length r = 0) as Hr by lia. destruct r; [|done]. rewrite app_nil_r, !Nat.add_0_r. fold split. lia.
    - rewrite (floor_drop (l ++ r) split) by (rewrite ?length_app; lia || done). rewrite drop_app_le by lia. f_equal. f_equal. lia. }
  set (w := window_start (drop split l ++ r)). rewrite <- (take_drop split l) at 1 2. rewrite <- !(assoc_L (++)).
  rewrite take_app_ge, drop_app_ge by (rewrite length_take; lia). rewrite length_take, Nat.min_l by lia. replace (split + w - split) with w by lia. by rewrite <- (assoc_L (++)).
Qed.

Lemma with_tail_short l : length l <= TAIL_WINDOW \/ floor_char_boundary l (length l - TAIL_WINDOW) = 0 -> with_tail l = insert_tail l (bytes_of tail).
Proof.
  intros H. unfold with_tail, window_start. destruct (Nat.leb_spec (length l) TAIL_WINDOW); [done|]. destruct H as [H| ->]; [lia|done].
Qed.

Lemma take_body_none d d2 : head_pending d = false -> take_body d = (None, d2) ->
  d2 = d /\ (length (held d) <= TAIL_WINDOW \/ floor_char_boundary (held d) (length (held d) - TAIL_WINDOW) = 0).
Proof.
  intros Hh. unfold take_body. rewrite Hh. cbn [orb]. destruct (Nat.leb_spec (length (held d)) TAIL_WINDOW); [intros [= <-]; split; [done|by left]|].
  destruct (Nat.eqb_spec (floor_char_boundary (held d) (length (held d) - TAIL_WINDOW)) 0); [|done]. intros [= <-]. split; [done|by right].
Qed.

Lemma body_of_chunk b polls : body_of (Chunk b :: polls) = b ++ body_of polls.
Proof. done. Qed.

Lemma body_of_waiting polls : body_of (Waiting :: polls) = body_of polls.
Proof. done. Qed.

(** Every poll delivers: the stream below does not fail. *)
Definition delivers (p : Polled) : Prop := match p with Waiting | Chunk _ => True | _ => False end.

(** Behind the head. *)
Lemma passing_sent m : forall polls d fuel,
  length polls + length (held d ++ body_of polls) <= m -> length polls + length (held d ++ body_of polls) + 2 <= fuel ->
  Forall delivers polls -> head_pending d = false -> finished d = false -> tail_pending d = true -> utf8 (held d ++ body_of polls) ->
  exists items, collect fuel (polls ++ [Ended]) d = Some items /\ sent items = with_tail (held d ++ body_of polls).
Proof.
  induction m as [m IH] using lt_wf_ind. intros polls d fuel Hm Hfuel Hdel Hh Hf Ht Hu.
  assert (take_head d = (None, d)) as Hth by (unfold take_head; by rewrite Hh). destruct fuel as [|fuel]; [lia|].
  destruct (take_body d) as [[c|] d2] eqn:Hb.
  - unfold take_body in Hb. rewrite Hh in Hb. cbn [orb] in Hb. destruct (Nat.leb_spec (length (held d)) TAIL_WINDOW) as [|Hlen]; [done|].
    destruct (Nat.eqb_spec (floor_char_boundary (held d) (length (held d) - TAIL_WINDOW)) 0) as [|Hs]; [done|]. injection Hb as <- <-.
    destruct (floor_spec (held d) (length (held d) - TAIL_WINDOW) ltac:(lia)) as (Hle & Hbd & _). assert (TAIL_WINDOW = 1024) as HT by done.
    set (split := floor_char_boundary _ _) in *. rewrite (with_tail_emit (held d) (body_of polls)) by done. fold split.
    assert (utf8 (drop split (held d) ++ body_of polls)) as Hu'.
    { rewrite <- drop_app_le by lia. apply utf8_cut; [done|rewrite length_app; lia|]. rewrite continues_app by lia. by destruct Hbd. }
    set (d' := mkStreamed (head_pending d) (drop split (held d)) (scanned d) (tail_pending d) (finished d)).
    assert (take_body d = (Some (take split (held d)), d')) as Hbody.
    { unfold take_body. rewrite Hh. cbn [orb]. destruct (Nat.leb_spec (length (held d)) TAIL_WINDOW); [lia|]. fold split. subst d'. rewrite Hh. by destruct (Nat.eqb_spec split 0). }
    rewrite (collect_body fuel (polls ++ [Ended]) d d _ d') by (done || by destruct polls).
    assert (length (held d' ++ body_of polls) + split = length (held d ++ body_of polls)) as Hlen' by (subst d'; cbn; rewrite !length_app, length_drop; lia).
    destruct (IH (m - 1) ltac:(lia) polls d' fuel ltac:(lia) ltac:(lia) Hdel Hh Hf Ht Hu') as (items & -> & Hsent).
    eexists. split; [done|]. unfold sent. cbn. f_equal. exact Hsent.
  - destruct (take_body_none _ _ Hh Hb) as [-> Hshort]. destruct polls as [|p polls].
    + cbn [app] in *. destruct fuel as [|fuel]; [lia|]. rewrite (collect_ended fuel d d d) by done. eexists. split; [done|].
      change (body_of []) with ([] : bytes) in *. rewrite app_nil_r in *. rewrite (with_tail_short _ Hshort). unfold sent. cbn. rewrite Ht, app_nil_r, lossy_utf8, bytes_text by done. done.
    + apply Forall_cons in Hdel as [Hp Hdel]. destruct p as [|b| |]; [| |done|done].
      * cbn [app]. rewrite (collect_waiting fuel (polls ++ [Ended]) d d d) by (done || by destruct polls). rewrite body_of_waiting in *. cbn [length] in *.
        apply (IH (m - 1) ltac:(lia) polls d fuel ltac:(lia) ltac:(lia)); done.
      * cbn [app]. rewrite (collect_chunk (S fuel) b (polls ++ [Ended]) d d d) by done. rewrite body_of_chunk in *. rewrite (assoc_L (++)) in *. cbn [length] in *.
        apply (IH (m - 1) ltac:(lia) polls (extend_held b d)); cbn; try done; lia.
Qed.

(** *** The search for the head *)

Lemma head_end_nonempty : HEAD_END <> [].
Proof. done. Qed.

(** What the search finds, and where it goes on. *)
Lemma take_head_found d i : head_pending d = true -> scanned d <= length (held d) -> window_position HEAD_END (take (scanned d) (held d)) = None ->
  window_position HEAD_END (held d) = Some i -> continues (held d) (i + 7) = false -> i + 7 <= length (held d) -> utf8 (take (i + 7) (held d)) ->
  take_head d = (Some (bytes_of (compose (text_of (take (i + 7) (held d))))), mkStreamed false (drop (i + 7) (held d)) 0 (tail_pending d) (finished d)).
Proof.
  intros Hh Hsc Hnone Hi Hb Hlen Hu. unfold take_head. rewrite Hh. cbn [negb]. cbv zeta. rewrite find_bytes_position by done.
  pose proof (window_position_resume HEAD_END (held d) (scanned d) head_end_nonempty Hsc Hnone) as Hres. rewrite Hi in Hres. cbv zeta in Hres.
  destruct (window_position HEAD_END (drop _ (held d))) as [k|]; [|done]. cbn [fmap option_fmap option_map] in *. injection Hres as Hres.
  change (length HEAD_END) with 7 in *. change (7 - 1) with 6 in *. rewrite Hres. assert (floor_char_boundary (held d) (i + 7) = i + 7) as ->.
  { unfold floor_char_boundary. rewrite Nat.min_l by done. apply floor_from_spec. split_and!; [done|by right|lia]. }
  by rewrite lossy_utf8 by done.
Qed.

Lemma take_head_missed d : head_pending d = true -> scanned d <= length (held d) -> window_position HEAD_END (take (scanned d) (held d)) = None ->
  window_position HEAD_END (held d) = None -> length (held d) < MAX_HEAD_PREFIX ->
  take_head d = (None, mkStreamed true (held d) (length (held d)) (tail_pending d) (finished d)).
Proof.
  intros Hh Hsc Hnone Hi Hlen. unfold take_head. rewrite Hh. cbn [negb]. cbv zeta. rewrite find_bytes_position by done.
  pose proof (window_position_resume HEAD_END (held d) (scanned d) head_end_nonempty Hsc Hnone) as Hres. rewrite Hi in Hres. cbv zeta in Hres.
  destruct (window_position HEAD_END (drop _ (held d))) as [k|]; [done|]. cbn [fmap option_fmap option_map]. destruct (Nat.leb_spec MAX_HEAD_PREFIX (length (held d))); [lia|done].
Qed.

(** Nothing found in what is held: the bound is not reached. *)
Lemma missed_in_bounds l r : window_position HEAD_END l = None -> head_in_bounds (l ++ r) -> length l < MAX_HEAD_PREFIX.
Proof.
  intros Hn. unfold head_in_bounds. rewrite find_bytes_position by done. change (length HEAD_END) with 7. destruct (window_position HEAD_END (l ++ r)) as [i|] eqn:E; [|rewrite length_app; lia].
  intros Hb. apply window_position_Some in E as (Hs & _ & _). pose proof (starts_case_length _ _ Hs) as Hlen. destruct (Nat.lt_ge_cases (length l) (i + 7)); [lia|].
  rewrite window_position_None in Hn. specialize (Hn i ltac:(lia)). rewrite drop_app_le in Hs by lia. rewrite starts_case_shorter in Hs by (rewrite length_drop; cbn; lia). congruence.
Qed.

Lemma streamed_found body i : window_position HEAD_END body = Some i ->
  streamed body = bytes_of (compose (text_of (take (i + 7) body))) ++ with_tail (drop (i + 7) body).
Proof. intros H. unfold streamed. by rewrite find_bytes_position, H by done. Qed.

(** The head is complete. *)
Lemma found_sent polls d fuel i : window_position HEAD_END (held d) = Some i ->
  length polls + length (held d ++ body_of polls) + 3 <= fuel -> Forall delivers polls -> head_pending d = true -> finished d = false -> tail_pending d = true ->
  scanned d <= length (held d) -> window_position HEAD_END (take (scanned d) (held d)) = None -> utf8 (held d ++ body_of polls) ->
  exists items, collect fuel (polls ++ [Ended]) d = Some items /\ sent items = streamed (held d ++ body_of polls).
Proof.
  intros Hi Hfuel Hdel Hh Hf Ht Hsc Hnone Hu. pose proof (window_position_app _ _ (body_of polls) _ Hi) as Hit.
  pose proof (proj1 (window_position_Some _ _ _) Hi) as (Hs & _ & _). pose proof (starts_case_length _ _ Hs) as Hlen. rewrite length_drop in Hlen. cbn in Hlen.
  pose proof (proj1 (window_position_Some _ _ _) Hit) as (Hst & _ & _). destruct (head_boundary _ _ Hu Hst) as [Hle Hbd].
  destruct (utf8_cut _ (i + 7) Hu Hle Hbd) as [Hut Hud]. rewrite take_app_le in Hut by lia. rewrite drop_app_le in Hud by lia.
  assert (continues (held d) (i + 7) = false) as Hbd'.
  { unfold continues in *. destruct (held d !! (i + 7)) as [c|] eqn:E; [|done]. by rewrite (lookup_app_l_Some _ _ _ _ E) in Hbd. }
  rewrite (streamed_found _ _ Hit), take_app_le, drop_app_le by lia. destruct fuel as [|fuel]; [lia|].
  rewrite (collect_head fuel (polls ++ [Ended]) d _ _ ltac:(by destruct polls) Hf (take_head_found d i Hh Hsc Hnone Hi Hbd' ltac:(lia) Hut)).
  set (d' := mkStreamed false (drop (i + 7) (held d)) 0 (tail_pending d) (finished d)). rewrite length_app in Hfuel.
  destruct (passing_sent (length polls + length (held d' ++ body_of polls)) polls d' fuel ltac:(lia)) as (items & -> & Hsent); try done.
  { subst d'. cbn. rewrite length_app, length_drop. lia. }
  eexists. split; [done|]. unfold sent. cbn. f_equal. exact Hsent.
Qed.

(** The document up to its head. *)
Lemma searching_sent polls : forall d fuel,
  length polls + length (held d ++ body_of polls) + 3 <= fuel -> Forall delivers polls -> head_pending d = true -> finished d = false -> tail_pending d = true ->
  scanned d <= length (held d) -> window_position HEAD_END (take (scanned d) (held d)) = None ->
  utf8 (held d ++ body_of polls) -> head_in_bounds (held d ++ body_of polls) ->
  exists items, collect fuel (polls ++ [Ended]) d = Some items /\ sent items = streamed (held d ++ body_of polls).
Proof.
  induction polls as [|p polls IH]; intros d fuel Hfuel Hdel Hh Hf Ht Hsc Hnone Hu Hb;
    (destruct (window_position HEAD_END (held d)) as [i|] eqn:Hi; [by eapply found_sent|]);
    pose proof (missed_in_bounds _ _ Hi Hb) as Hlen; pose proof (take_head_missed d Hh Hsc Hnone Hi Hlen) as Hth;
    set (d1 := mkStreamed true (held d) (length (held d)) (tail_pending d) (finished d)) in *; assert (take_body d1 = (None, d1)) as Hbody by done.
  - destruct fuel as [|[|fuel]]; [lia..|]. cbn [app]. rewrite (collect_ended fuel d d1 d1 Hf Hth Hbody). eexists. split; [done|].
    change (body_of []) with ([] : bytes) in *. rewrite app_nil_r in *. unfold streamed. rewrite (find_bytes_position (held d)), Hi by done.
    unfold sent. cbn [omap list_omap take_end fst concat]. subst d1. cbn [held tail_pending]. by rewrite Ht, app_nil_r, lossy_utf8, bytes_text by done.
  - apply Forall_cons in Hdel as [Hp Hdel]. destruct p as [|b| |]; [| |done|done].
    + destruct fuel as [|fuel]; [lia|]. cbn [app]. rewrite (collect_waiting fuel (polls ++ [Ended]) d d1 d1) by (done || by destruct polls).
      rewrite body_of_waiting in *. cbn [length] in *. apply (IH d1); subst d1; cbn; try done; [lia|]. by rewrite firstn_all.
    + cbn [app]. rewrite (collect_chunk fuel b (polls ++ [Ended]) d d1 d1) by done. rewrite body_of_chunk, (assoc_L (++)) in *. cbn [length] in *.
      apply (IH (extend_held b d1)); subst d1; cbn; try done; [lia|rewrite length_app; lia|]. by rewrite take_app_length.
Qed.

(** ** Properties *)

(** C35: a document is the same however it arrives.  Whatever way the stream below cuts a document of characters and however often it has nothing yet, what is sent, put together, is the head composed once it was complete, the rest unchanged, and the tail before the closing tag in the last window; polling ends, within as many polls as there are bytes and answers below. *)
Theorem streamed_document_is_whole polls :
  Forall delivers polls -> utf8 (body_of polls) -> head_in_bounds (body_of polls) ->
  exists items, collect (length polls + length (body_of polls) + 3) (polls ++ [Ended]) new_document = Some items /\ sent items = streamed (body_of polls).
Proof. intros Hd Hu Hb. by apply (searching_sent polls new_document). Qed.

(** A document whose closing tag is in the last window is the one a buffered render composes. *)
Lemma streamed_is_buffered body i j :
  find_bytes_case body HEAD_END = Some i -> find_bytes_case (drop (i + 7) body) BODY_END = Some j -> window_start (drop (i + 7) body) <= j ->
  streamed body = bytes_of (compose (text_of (take (i + 7) body))) ++ take j (drop (i + 7) body) ++ bytes_of tail ++ drop (i + 7 + j) body.
Proof.
  intros Hi Hj Hw. unfold streamed. rewrite Hi. change (length HEAD_END) with 7. f_equal. set (rest := drop (i + 7) body) in *. set (w := window_start rest) in *. unfold with_tail. fold w.
  rewrite find_bytes_position in Hj by done. apply window_position_Some in Hj as (Hs & Hl & Hf). unfold insert_tail. rewrite find_bytes_position by done.
  assert (window_position BODY_END (drop w rest) = Some (j - w)) as ->.
  { apply window_position_Some. rewrite drop_drop. replace (w + (j - w)) with j by lia. split_and!; [done|rewrite length_drop; lia|].
    intros k Hk. rewrite drop_drop. apply Hf. lia. }
  rewrite drop_drop. replace (w + (j - w)) with j by lia. rewrite (assoc_L (++)). f_equal; [|subst rest; by rewrite drop_drop].
  rewrite <- (take_drop w (take j rest)). f_equal; [by rewrite take_take, Nat.min_l by lia|]. by rewrite skipn_firstn_comm.
Qed.
End stream.

Lemma streamed_document_is_whole_witness :
  let polls := Chunk (bytes_of "<head></HE") :: Waiting :: Chunk (bytes_of "ad><body>hi") :: Chunk (bytes_of "</body>") :: [] in
  exists items, collect (fun head => head +:+ "<!-- styles -->") "<script>" (4 + 28 + 3) (polls ++ [Ended]) new_document = Some items /\
    text_of (sent items) = "<head></HEad><!-- styles --><body>hi<script></body>".
Proof.
  intros polls. destruct (streamed_document_is_whole (fun head => head +:+ "<!-- styles -->") "<script>" polls) as (items & Hc & Hs).
  - repeat constructor.
  - apply valid_utf8_spec. by vm_compute.
  - apply Nat.leb_le. by vm_compute.
  - exists items. split; [exact Hc|]. rewrite Hs. by vm_compute.
Defined.

(** What is still held when the worker fails is lost: up to a window of a document that was being read. *)
Example a_failure_cuts_the_window :
  collect (fun head => head) "<script>" 9 [Chunk (bytes_of "<head></head><body>hi"); Failed "worker died"] new_document =
  Some [inl (bytes_of "<head></head>"); inr "worker died"].
Proof. by vm_compute. Qed.
