(* ===== verification/RuntimeCache.v ===== *)
(** The caches of the development server between two edits
    (crates/ruvyxa_dev_server/src/lib.rs, [CacheSlot] and [RuntimeCache];
    framework_endpoints.rs, [synthesized_route_manifest]): the discovered
    routes, the collected stylesheet, the URL of a built one, the icon links,
    and the table of the client router.

    A slot is read, filled and emptied under its lock; what fills it is built
    without it.  A lookup is a program of [Programs.v] whose operations are those
    critical sections and the beginning of a build.  What a build finds is the
    answer of its operation, whatever it is: it is noted where the build begins,
    so nothing is assumed of what the build reads after that.  Every loop takes
    fuel; how much is enough is proved.  The watcher's thread empties slots. *)
From stdpp Require Import relations.
From S2P Require Import Prelude RustStr Programs Paths PathBuf Manifest Router Diagnostics HtmlDocument.

(** ** Definitions *)

(** [CacheSlot] *)
Record CacheSlot (T : Type) := mkSlot { generation : N; value : option T }.
#[global] Arguments mkSlot {T}.
#[global] Arguments generation {T}.
#[global] Arguments value {T}.

Definition u64_values : N := 18446744073709551616.

Section slot.
Context {T : Type}.
(** [CacheSlot::default], [with_value], [insert_if_current] and [invalidate] *)
Definition default_slot : CacheSlot T := mkSlot 0 None.
Definition with_value (v : T) : CacheSlot T := mkSlot 0 (Some v).
Definition insert_if_current (g : N) (v : T) (s : CacheSlot T) : bool * CacheSlot T :=
  if negb (generation s =? g)%N || bool_decide (is_Some (value s)) then (false, s) else (true, mkSlot (generation s) (Some v)).
Definition invalidate_slot (s : CacheSlot T) : CacheSlot T := mkSlot ((generation s + 1) mod u64_values) None.
End slot.

(** [RouteCacheEntry] and [RouteCacheEntry::new] *)
Record RouteCacheEntry := mkRouteEntry { manifest : RouteManifest; router : RadixRouter }.
Definition new_route_entry (m : RouteManifest) : RouteCacheEntry := mkRouteEntry m (compile m).

(** [StyleCacheEntry] and [StyleCollection] *)
Record StyleCacheEntry := mkStyleEntry { css : string; files : gset Path }.
Record StyleCollection := mkCollection { collected_css : string; collected_files : list Path }.

(** The fields of [RuntimeCache], and what each holds. *)
Inductive CacheField := Routes | Styles | StyleAsset | AssetLinks | ClientRoutes.

#[export] Instance slot_eq_dec : EqDecision CacheField.
Proof. solve_decision. Defined.

Definition held (k : CacheField) : Type :=
  match k with Routes => RouteCacheEntry | Styles => StyleCacheEntry | StyleAsset => option string | AssetLinks => string | ClientRoutes => string end.

Record RuntimeCache := mkRuntimeCache {
  routes : CacheSlot RouteCacheEntry;
  styles : CacheSlot StyleCacheEntry;
  style_asset : CacheSlot (option string);
  asset_links : CacheSlot string;
  client_routes : CacheSlot string;
}.

Definition slot (k : CacheField) (c : RuntimeCache) : CacheSlot (held k) :=
  match k with Routes => routes c | Styles => styles c | StyleAsset => style_asset c | AssetLinks => asset_links c | ClientRoutes => client_routes c end.

Definition put_slot (k : CacheField) : CacheSlot (held k) -> RuntimeCache -> RuntimeCache :=
  match k with
  | Routes => fun s c => mkRuntimeCache s (styles c) (style_asset c) (asset_links c) (client_routes c)
  | Styles => fun s c => mkRuntimeCache (routes c) s (style_asset c) (asset_links c) (client_routes c)
  | StyleAsset => fun s c => mkRuntimeCache (routes c) (styles c) s (asset_links c) (client_routes c)
  | AssetLinks => fun s c => mkRuntimeCache (routes c) (styles c) (style_asset c) s (client_routes c)
  | ClientRoutes => fun s c => mkRuntimeCache (routes c) (styles c) (style_asset c) (asset_links c) s
  end.

(** [RuntimeCache::default] and [with_manifest] *)
Definition default_cache : RuntimeCache := mkRuntimeCache default_slot default_slot default_slot default_slot default_slot.
Definition with_manifest (m : RouteManifest) : RuntimeCache := mkRuntimeCache (with_value (new_route_entry m)) default_slot default_slot default_slot default_slot.

(** What the build for a slot finds, and the error it may end with: the discovered manifest; the collected stylesheet; the built route manifest, when it could be read; the links, when the task did not fail; the table of the client router. *)
Definition built (k : CacheField) : Type :=
  match k with Routes => RouteManifest | Styles => StyleCollection | StyleAsset => option Value | AssetLinks => option string | ClientRoutes => string end.
Definition build_error (k : CacheField) : Type := match k with Routes | Styles => RuvyxaError | _ => Empty_set end.

(** *** Operations *)

Inductive Op :=
  | Look (k : CacheField)
  | Build (k : CacheField)
  | Install (k : CacheField) (g : N) (v : held k)
  | Observe (m : RouteManifest)
  | Empty (k : CacheField)
  | EmptyStylesOf (changed : gset Path).

(** What is under the write lock of a filled build: what another stored first, or whether this one was taken. *)
Inductive Stored (T : Type) := Existing (v : T) | Taken | Refused.
#[global] Arguments Existing {T}.
#[global] Arguments Taken {T}.
#[global] Arguments Refused {T}.

Definition Ans (op : Op) : Type :=
  match op with
  | Look k => held k + N
  | Build k => built k + build_error k
  | Install k _ _ => Stored (held k)
  | Observe _ => unit
  | Empty _ => unit
  | EmptyStylesOf _ => bool
  end.

(** [if let Some(v) = cached.value { Ok(v) } else { Err(cached.generation) }], under the read lock *)
Definition look {T} (s : CacheSlot T) : T + N := match value s with Some v => inl v | None => inr (generation s) end.

(** [if let Some(existing) = cached.value { .. } cached.insert_if_current(generation, v)], under the write lock *)
Definition install {T} (g : N) (v : T) (s : CacheSlot T) : Stored T * CacheSlot T :=
  match value s with
  | Some existing => (Existing existing, s)
  | None => let '(taken, s) := insert_if_current g v s in (if taken then Taken else Refused, s)
  end.

(** [invalidate_styles_for_paths], the changed paths being normalized *)
Definition empty_styles_of (changed : gset Path) (s : CacheSlot StyleCacheEntry) : bool * CacheSlot StyleCacheEntry :=
  match value s with
  | None => (true, invalidate_slot s)
  | Some cached => let intersects := negb (bool_decide (files cached ## changed)) in (intersects, if intersects then invalidate_slot s else s)
  end.

#[local] Abbreviation Prog := (Programs.Prog Op Ans).
#[local] Abbreviation act := (@Programs.act Op Ans).
#[local] Open Scope prog_scope.

Section lookups.
(** Of [ServerConfig], and the minifier of production stylesheets. *)
Context (cache_route_manifest cache_css watch : bool) (minify_css : string -> string).
(** [normalize_cache_path] of a collected file. *)
Context (normalize_cache_path : Path -> Path).

(** [asset_links] *)
Fixpoint asset_links_lookup (fuel : nat) : Prog (option string) :=
  match fuel with
  | 0 => Ret None
  | S fuel =>
      seen ⇐ act (Look AssetLinks);
      match seen with
      | inl links => Ret (Some links)
      | inr g =>
          found ⇐ act (Build AssetLinks);
          let links := match found with inl (Some links) => links | _ => "" end in
          stored ⇐ act (Install AssetLinks g links);
          match stored with Existing links => Ret (Some links) | Taken => Ret (Some links) | Refused => asset_links_lookup fuel end
      end
  end.

(** [route_snapshot], and [router], which is it *)
Fixpoint route_loop (fuel : nat) : Prog (option (RouteCacheEntry + RuvyxaError)) :=
  match fuel with
  | 0 => Ret None
  | S fuel =>
      seen ⇐ act (Look Routes);
      match seen with
      | inl entry => Ret (Some (inl entry))
      | inr g =>
          found ⇐ act (Build Routes);
          match found with
          | inr e => Ret (Some (inr e))
          | inl m =>
              stored ⇐ act (Install Routes g (new_route_entry m));
              match stored with
              | Existing entry => Ret (Some (inl entry))
              | Refused => route_loop fuel
              | Taken => act (Observe m) ;;; Ret (Some (inl (new_route_entry m)))
              end
          end
      end
  end.

Definition route_snapshot (fuel : nat) : Prog (option (RouteCacheEntry + RuvyxaError)) :=
  if negb cache_route_manifest then
    found ⇐ act (Build Routes);
    match found with inl m => act (Observe m) ;;; Ret (Some (inl (new_route_entry m))) | inr e => Ret (Some (inr e)) end
  else route_loop fuel.

(** [Value::get] on an object *)
Definition value_get (key : string) (v : Value) : option Value :=
  match v with VObject fields => snd <$> find (fun '(name, _) => String.eqb name key) fields | _ => None end.

(** [manifest.get("styles")?.as_array()?.first()?.as_str()?] *)
Definition recorded_stylesheet (v : Value) : option string :=
  match value_get "styles" v with Some (VArray (VString url :: _)) => Some url | _ => None end.

(** [built_style_asset] *)
Fixpoint built_style_asset (fuel : nat) : Prog (option (option string)) :=
  match fuel with
  | 0 => Ret None
  | S fuel =>
      seen ⇐ act (Look StyleAsset);
      match seen with
      | inl url => Ret (Some url)
      | inr g =>
          found ⇐ act (Build StyleAsset);
          let discovered := match found with inl (Some v) => recorded_stylesheet v | _ => None end in
          stored ⇐ act (Install StyleAsset g discovered);
          match stored with Existing url => Ret (Some url) | Taken => Ret (Some discovered) | Refused => built_style_asset fuel end
      end
  end.

Definition sent_css (css : string) : string := if watch then css else minify_css css.

Definition style_entry (c : StyleCollection) : StyleCacheEntry := mkStyleEntry (sent_css (collected_css c)) (list_to_set (normalize_cache_path <$> collected_files c)).

Fixpoint styles_loop (fuel : nat) : Prog (option (string + RuvyxaError)) :=
  match fuel with
  | 0 => Ret None
  | S fuel =>
      seen ⇐ act (Look Styles);
      match seen with
      | inl cached => Ret (Some (inl (css cached)))
      | inr g =>
          found ⇐ act (Build Styles);
          match found with
          | inr e => Ret (Some (inr e))
          | inl collection =>
              stored ⇐ act (Install Styles g (style_entry collection));
              match stored with
              | Existing cached => Ret (Some (inl (css cached)))
              | Taken => Ret (Some (inl (css (style_entry collection))))
              | Refused => styles_loop fuel
              end
          end
      end
  end.

(** [styles] *)
Definition collected_styles (fuel : nat) : Prog (option (string + RuvyxaError)) :=
  if negb cache_css then
    found ⇐ act (Build Styles);
    match found with inl c => Ret (Some (inl (sent_css (collected_css c)))) | inr e => Ret (Some (inr e)) end
  else styles_loop fuel.

(** [style_tag] *)
Definition style_tag (fuel : nat) : Prog (option (string + RuvyxaError)) :=
  url ⇐ (if negb watch then built_style_asset fuel else Ret (Some None));
  match url with
  | None => Ret None
  | Some (Some url) => Ret (Some (inl (style_head_tag (Some url) "")))
  | Some None =>
      css ⇐ collected_styles fuel;
      match css with
      | None => Ret None
      | Some (inl css) => Ret (Some (inl (style_head_tag None css)))
      | Some (inr e) => Ret (Some (inr e))
      end
  end.

(** [synthesized_route_manifest], over [cached_client_routes] and [store_client_routes] *)
Fixpoint synthesized_route_manifest (fuel : nat) : Prog (option string) :=
  match fuel with
  | 0 => Ret None
  | S fuel =>
      seen ⇐ act (Look ClientRoutes);
      match seen with
      | inl body => Ret (Some body)
      | inr g =>
          found ⇐ act (Build ClientRoutes);
          match found with
          | inr e => match e with end
          | inl body =>
              stored ⇐ act (Install ClientRoutes g body);
              match stored with Existing body => Ret (Some body) | Taken => Ret (Some body) | Refused => synthesized_route_manifest fuel end
          end
      end
  end.
End lookups.

(** [RuntimeCache::invalidate] *)
Definition invalidate_slots : Prog unit :=
  act (Empty Routes) ;;; act (Empty Styles) ;;; act (Empty StyleAsset) ;;; act (Empty AssetLinks) ;;; act (Empty ClientRoutes).

(** [invalidate_client_routes] *)
Definition invalidate_client_routes : Prog unit := act (Empty ClientRoutes).

(** [invalidate_runtime_caches] of watcher.rs *)
Definition invalidate_runtime_caches (rediscover : bool) (changed : gset Path) : Prog unit :=
  invalidate_client_routes ;;;
  if rediscover then invalidate_slots else act (EmptyStylesOf changed) ;;; Ret tt.

(** *** The server *)

(** What happened, the latest first: a build began, a slot was emptied, an edit came that keeps the routes. *)
Inductive Event := Began (k : CacheField) (x : built k) | Emptied (k : CacheField) | Saved (changed : gset Path).

(** The cache, and for each program the history when it first and when it last took the lock. *)
Record Caches := mkCaches { cache : RuntimeCache; events : list Event; asks : gmap N (list Event * list Event) }.

Definition ask (id : N) (c : RuntimeCache) (w : list Event) (s : Caches) : Caches :=
  mkCaches c w (<[id := (match asks s !! id with Some (since, _) => since | None => events s end, w)]> (asks s)).

Inductive perform (id fresh : N) : forall op, Ans op -> Caches -> Caches -> Prop :=
  | does_look k s : perform id fresh (Look k) (look (slot k (cache s))) s (ask id (cache s) (events s) s)
  | does_build k x s : perform id fresh (Build k) (inl x) s (ask id (cache s) (Began k x :: events s) s)
  | fails_build k e s : perform id fresh (Build k) (inr e) s (ask id (cache s) (events s) s)
  | does_install k g v s :
      perform id fresh (Install k g v) (install g v (slot k (cache s))).1 s (ask id (put_slot k (install g v (slot k (cache s))).2 (cache s)) (events s) s)
  | does_observe m s : perform id fresh (Observe m) tt s s
  | does_empty k s : perform id fresh (Empty k) tt s (ask id (put_slot k (invalidate_slot (slot k (cache s))) (cache s)) (Emptied k :: events s) s)
  | does_save changed s :
      perform id fresh (EmptyStylesOf changed) (empty_styles_of changed (styles (cache s))).1 s
        (ask id (put_slot Styles (empty_styles_of changed (styles (cache s))).2 (cache s))
           ((if (empty_styles_of changed (styles (cache s))).1 then [Emptied Styles] else []) ++ Saved changed :: events s) s).

(** A dropped program asks no more. *)
Definition dropped (id : N) (s : Caches) : Caches := mkCaches (cache s) (events s) (delete id (asks s)).

(** What a program was, its fuel, and what it answered. *)
Inductive Outcome :=
  | LinksDone (fuel : nat) (r : option string)
  | RoutesDone (fuel : nat) (r : option (RouteCacheEntry + RuvyxaError))
  | TagDone (fuel : nat) (r : option (string + RuvyxaError))
  | TableDone (fuel : nat) (r : option string)
  | Invalidated.

Section server.
Context (cache_route_manifest cache_css watch : bool) (minify_css : string -> string) (normalize_cache_path : Path -> Path).

(** A request arrives, or an edit does. *)
Inductive arrives : Programs.Prog Op Ans Outcome -> Prop :=
  | links_arrive fuel : 0 < fuel -> arrives (r ⇐ asset_links_lookup fuel; Ret (LinksDone fuel r))
  | routes_arrive fuel : 0 < fuel -> arrives (r ⇐ route_snapshot cache_route_manifest fuel; Ret (RoutesDone fuel r))
  | tag_arrives fuel : 0 < fuel -> arrives (r ⇐ style_tag cache_css watch minify_css normalize_cache_path fuel; Ret (TagDone fuel r))
  | table_arrives fuel : 0 < fuel -> arrives (r ⇐ synthesized_route_manifest fuel; Ret (TableDone fuel r))
  | edit_arrives rediscover changed : arrives (invalidate_runtime_caches rediscover changed ;;; Ret Invalidated).

#[local] Abbreviation Server := (System (Op := Op) (Ans := Ans) (S := Caches) (Out := Outcome)).

(** The server when it starts: nothing cached, or the manifest it was started with. *)
Inductive initial : Server -> Prop :=
  | starts_without : initial (mkSystem (mkCaches default_cache [] ∅) ∅ 0)
  | starts_with_routes m : initial (mkSystem (mkCaches (with_manifest m) [Began Routes m] ∅) ∅ 0).

Definition server_step : Server -> Server -> Prop := system_step perform dropped (fun _ _ => None) arrives.
Definition reachable (s : Server) : Prop := exists s0, initial s0 /\ rtc server_step s0 s.

(** *** A schedule *)

(** One operation, its build's answer chosen; [find] is what the builds find. *)
Definition perform_with (id : N) (op : Op) (find : forall k, built k) (s : Caches) : Ans op * Caches :=
  match op return Ans op * Caches with
  | Look k => (look (slot k (cache s)), ask id (cache s) (events s) s)
  | Build k => (inl (find k), ask id (cache s) (Began k (find k) :: events s) s)
  | Install k g v =>
      ((install g v (slot k (cache s))).1, ask id (put_slot k (install g v (slot k (cache s))).2 (cache s)) (events s) s)
  | Observe m => (tt, s)
  | Empty k => (tt, ask id (put_slot k (invalidate_slot (slot k (cache s))) (cache s)) (Emptied k :: events s) s)
  | EmptyStylesOf changed =>
      let r := empty_styles_of changed (styles (cache s)) in
      (r.1, ask id (put_slot Styles r.2 (cache s)) ((if r.1 then [Emptied Styles] else []) ++ Saved changed :: events s) s)
  end.

(** A page wants its styles, an edit comes, a program takes its step. *)
Inductive Move := TagArrives (fuel : nat) | EditArrives (rediscover : bool) (changed : gset Path) | Acts (id : N) (find : forall k, built k).

Definition play_move (s : Server) (m : Move) : option Server :=
  match m with
  | TagArrives fuel =>
      if 0 <? fuel then Some (add_program (Some (r ⇐ style_tag cache_css watch minify_css normalize_cache_path fuel; Ret (TagDone fuel r))%prog) s) else None
  | EditArrives rediscover changed => Some (add_program (Some (invalidate_runtime_caches rediscover changed ;;; Ret Invalidated)%prog) s)
  | Acts id find =>
      match programs s !! id with
      | Some (Act op k) => let '(a, state') := perform_with id op find (shared s) in Some (mkSystem state' (<[id := k a]> (programs s)) (next_id s))
      | _ => None
      end
  end.

Definition play (moves : list Move) (s : Server) : option Server := foldl (fun s m => s ≫= fun s => play_move s m) (Some s) moves.

(** ** Specification *)

(** How often a slot was emptied. *)
Fixpoint emptied (k : CacheField) (w : list Event) : N :=
  match w with
  | [] => 0
  | Emptied k' :: w => (if decide (k = k') then 1 else 0) + emptied k w
  | _ :: w => emptied k w
  end.

(** What is stored of what a build found. *)
Definition made (k : CacheField) : built k -> held k -> Prop :=
  match k with
  | Routes => fun m entry => entry = new_route_entry m
  | Styles => fun c entry => entry = style_entry watch minify_css normalize_cache_path c
  | StyleAsset => fun v url => url = v ≫= recorded_stylesheet
  | AssetLinks => fun found links => links = default "" found
  | ClientRoutes => fun body body' => body' = body
  end.

(** No edit since the build touched the files of a stylesheet. *)
Definition untouched (k : CacheField) : held k -> list Event -> list Event -> Prop :=
  match k with
  | Styles => fun entry since w => forall changed w', (Saved changed :: w') `suffix_of` w -> since `suffix_of` w' -> files entry ## changed
  | _ => fun _ _ _ => True
  end.

(** A value is what a build found that began after the slot was last emptied. *)
Definition current (k : CacheField) (w : list Event) (v : held k) : Prop :=
  exists x w', (Began k x :: w') `suffix_of` w /\ emptied k w' = emptied k w /\ made k x v /\ untouched k v (Began k x :: w') w.

(** What an answer is, when it was last looked for: nothing staler than the cache. *)
Definition answer_current (out : Outcome) (w : list Event) : Prop :=
  match out with
  | LinksDone _ (Some links) => current AssetLinks w links
  | RoutesDone _ (Some (inl entry)) => current Routes w entry
  | TagDone _ (Some (inl tag)) =>
      (exists url, current StyleAsset w (Some url) /\ tag = style_head_tag (Some url) "") \/
      (exists entry, current Styles w entry /\ tag = style_head_tag None (css entry))
  | TableDone _ (Some body) => current ClientRoutes w body
  | _ => True
  end.

(** Some slot was emptied so often meanwhile. *)
Definition emptied_between (n : nat) (since w : list Event) : Prop := exists k, (N.of_nat n + emptied k since <= emptied k w)%N.

Definition answer_made (out : Outcome) (since w : list Event) : Prop :=
  match out with
  | LinksDone fuel None | RoutesDone fuel None | TagDone fuel None | TableDone fuel None => emptied_between fuel since w
  | _ => True
  end.

(** *** What programs rely on *)

Definition Asked : Type := option (list Event * list Event).

(** As long as the generations have not come round. *)
Definition held_current (k : CacheField) (w : list Event) (v : held k) : Prop := (emptied k w < u64_values)%N -> current k w v.

(** The program has just taken the lock. *)
Definition asks_now (l l' : Asked) (w : list Event) : Prop := exists since, l' = Some (since, w) /\ since `suffix_of` w /\ forall p, l = Some p -> since = p.1.

Definition pre (op : Op) (_ : Asked) (w : list Event) : Prop :=
  match op with
  | Install k g v => exists x a b, (Began k x :: b) `suffix_of` w /\ a `suffix_of` b /\ g = (emptied k a mod u64_values)%N /\ made k x v
  | _ => True
  end.

Definition post (op : Op) : Ans op -> Asked -> Asked -> list Event -> Prop :=
  match op with
  | Look k => fun a l l' w => asks_now l l' w /\ match a with inl v => held_current k w v | inr g => g = (emptied k w mod u64_values)%N end
  | Build k => fun a l l' w => asks_now l l' w /\ match a with inl x => exists w', w = Began k x :: w' /\ forall p, l = Some p -> p.2 `suffix_of` w' | inr _ => True end
  | Install k g v => fun a l l' w =>
      asks_now l l' w /\ match a with Existing v' => held_current k w v' | Taken => held_current k w v | Refused => g <> (emptied k w mod u64_values)%N end
  | Observe _ => fun _ l l' _ => l' = l
  | _ => fun _ _ _ _ => True
  end.

(** *** What holds of the server *)

Definition slot_ok (k : CacheField) (s : Caches) : Prop :=
  generation (slot k (cache s)) = (emptied k (events s) mod u64_values)%N /\ forall v, value (slot k (cache s)) = Some v -> held_current k (events s) v.

(** While no stylesheet is cached, every edit emptied the slot. *)
Definition saves_seen (s : Caches) : Prop :=
  value (styles (cache s)) = None -> forall changed w, (Saved changed :: w) `suffix_of` events s -> (emptied Styles w < emptied Styles (events s))%N.

Definition asks_ok (s : Caches) : Prop := forall id since last, asks s !! id = Some (since, last) -> since `suffix_of` last /\ last `suffix_of` events s.

Definition host_ok (s : Caches) : Prop := (forall k, slot_ok k s) /\ saves_seen s /\ asks_ok s.

(** What a program that ended knew when it last looked. *)
Definition done (out : Outcome) (l : Asked) (w : list Event) : Prop :=
  match out with
  | Invalidated => True
  | _ => exists since last, l = Some (since, last) /\ since `suffix_of` last /\ last `suffix_of` w /\
      ((forall k, (emptied k last < u64_values)%N) -> answer_current out last) /\ answer_made out since last
  end.

(** ** Lemmas *)

Lemma slot_put_same k v c : slot k (put_slot k v c) = v.
Proof. by destruct k. Qed.

Lemma slot_put_other k k' v c : k <> k' -> slot k' (put_slot k v c) = slot k' c.
Proof. by destruct k, k'. Qed.

Lemma emptied_app k w w' : emptied k (w ++ w') = (emptied k w + emptied k w')%N.
Proof. induction w as [|[| |] w IH]; cbn; rewrite ?IH; lia. Qed.

Lemma emptied_mono k w w' : w `suffix_of` w' -> (emptied k w <= emptied k w')%N.
Proof. intros [v ->]. rewrite emptied_app. lia. Qed.

(** An event that does not empty the slot. *)
Definition spares (k : CacheField) (e : Event) : held k -> Prop :=
  match e with
  | Began _ _ => fun _ => True
  | Emptied k' => fun _ => k <> k'
  | Saved changed => match k with Styles => fun entry => files entry ## changed | _ => fun _ => True end
  end.

Lemma current_later k e w v : current k w v -> spares k e v -> current k (e :: w) v.
Proof.
  intros (x & b & Hb & He & Hm & Hu) Hs. exists x, b. split; [by apply suffix_cons_r|]. split; [|split; [done|]].
  - destruct e as [| |]; cbn in *; [done| |done]. by rewrite decide_False by done.
  - destruct k; try done. cbn in *. intros changed w' [[= <- ->]|Hw]%suffix_cons_inv Hsince; [done|by eapply Hu].
Qed.

Lemma held_later k e w v : held_current k w v -> spares k e v -> held_current k (e :: w) v.
Proof.
  intros H Hs Hlt. apply current_later; [|done]. apply H. eapply N.le_lt_trans; [|exact Hlt]. apply emptied_mono. by exists [e].
Qed.

Lemma asks_started id s c w : asks_ok s -> events s `suffix_of` w ->
  asks_now (asks s !! id) (asks (ask id c w s) !! id) w /\ asks_ok (ask id c w s).
Proof.
  intros Ha Hw. assert (forall since, (match asks s !! id with Some (since, _) => since | None => events s end) = since -> since `suffix_of` w) as Hsince.
  { intros since <-. destruct (asks s !! id) as [[a b]|] eqn:E; [|done]. destruct (Ha _ _ _ E) as [H1 H2]. etransitivity; [exact H1|]. by etransitivity. }
  split.
  - eexists. cbn. rewrite lookup_insert_eq. split; [done|]. split; [by apply Hsince|]. by intros [a b] ->.
  - intros id' since last. cbn. intros [[<- [= <- <-]]|[_ E]]%lookup_insert_Some; [by split; [apply Hsince|]|].
    destruct (Ha _ _ _ E) as [H1 H2]. split; [done|]. by etransitivity.
Qed.

(** What stays when only who asked changes. *)
Lemma ask_ok id w s : host_ok s -> w = events s -> host_ok (ask id (cache s) w s).
Proof. intros (Hk & Hs & Ha) ->. split; [exact Hk|]. split; [exact Hs|]. by apply asks_started. Qed.

Lemma looked id s k : host_ok s -> post (Look k) (look (slot k (cache s))) (asks s !! id) (asks (ask id (cache s) (events s) s) !! id) (events s).
Proof.
  intros (Hk & Hs & Ha). split; [by apply asks_started|]. destruct (Hk k) as [Hg Hv]. unfold look. destruct (value _) as [v|]; [by apply Hv|done].
Qed.

Lemma began_ok id k x s : host_ok s -> host_ok (ask id (cache s) (Began k x :: events s) s).
Proof.
  intros (Hk & Hs & Ha). split; [|split].
  - intros k'. destruct (Hk k') as [Hg Hv]. split; [exact Hg|]. intros v E. apply held_later; [by apply Hv|done].
  - intros E changed w [[=]|Hw]%suffix_cons_inv. exact (Hs E _ _ Hw).
  - apply asks_started; [done|]. by exists [Began k x].
Qed.

(** A build that began after the slot was last emptied, and an edit that came since: the slot was empty then, so the edit emptied it. *)
Lemma build_untouched k x v b s :
  saves_seen s -> value (slot k (cache s)) = None -> (Began k x :: b) `suffix_of` events s -> emptied k b = emptied k (events s) ->
  untouched k v (Began k x :: b) (events s).
Proof.
  intros Hs E Hb He. destruct k; try done. cbn. intros changed w' Hw Hsince. exfalso.
  specialize (Hs E _ _ Hw). pose proof (emptied_mono Styles _ _ Hsince) as Hm. cbn in Hm. lia.
Qed.

Lemma installed_current k g v s :
  host_ok s -> pre (Install k g v) None (events s) -> value (slot k (cache s)) = None -> generation (slot k (cache s)) = g -> held_current k (events s) v.
Proof.
  intros (Hk & Hs & Ha) (x & a & b & Hb & Hab & -> & Hm) E Hg Hlt. destruct (Hk k) as [Hg' _]. rewrite Hg in Hg'.
  pose proof (emptied_mono k _ _ Hab) as H1. assert (emptied k b <= emptied k (events s))%N as H2.
  { apply emptied_mono. etransitivity; [|exact Hb]. by exists [Began k x]. }
  rewrite !N.mod_small in Hg' by lia. exists x, b. split; [done|]. split; [lia|]. split; [done|].
  eapply build_untouched; [done..|lia].
Qed.

Lemma installed_ok id k g v s :
  host_ok s -> pre (Install k g v) None (events s) ->
  let s' := ask id (put_slot k (install g v (slot k (cache s))).2 (cache s)) (events s) s in
  host_ok s' /\ post (Install k g v) (install g v (slot k (cache s))).1 (asks s !! id) (asks s' !! id) (events s).
Proof.
  intros Hok Hpre. pose proof Hok as (Hk & Hs & Ha). destruct (Hk k) as [Hg Hv]. unfold install, insert_if_current.
  assert (host_ok (ask id (put_slot k (slot k (cache s)) (cache s)) (events s) s)) as Hsame.
  { replace (put_slot k (slot k (cache s)) (cache s)) with (cache s) by (by destruct k, (cache s)). by apply ask_ok. }
  pose proof (fun c => proj1 (asks_started id s c (events s) Ha ltac:(done))) as Hnow.
  destruct (value (slot k (cache s))) as [v'|] eqn:E; [cbn; split; [exact Hsame|split; [exact (Hnow (cache s))|by apply Hv]]|].
  destruct (decide (generation (slot k (cache s)) = g)) as [Hgen|Hgen].
  - subst g. rewrite N.eqb_refl. cbn [negb orb fst snd]. rewrite bool_decide_eq_false_2 by (by intros [? ?]). cbn [negb orb fst snd].
    pose proof (installed_current k _ v s Hok Hpre E eq_refl) as Hcur. split; [|split; [exact (Hnow (cache s))|exact Hcur]]. split; [|split].
    + intros k'. unfold slot_ok. cbn [cache events ask]. destruct (decide (k = k')) as [<-|Hne]; [|rewrite slot_put_other by done; exact (Hk k')].
      rewrite slot_put_same. cbn. split; [exact Hg|]. by intros ? [= <-].
    + unfold saves_seen. cbn [cache events ask]. intros E'. apply Hs. destruct (decide (k = Styles)) as [->|Hne]; [done|]. revert E'. by destruct k.
    + by apply asks_started.
  - apply N.eqb_neq in Hgen as Hb. rewrite Hb. cbn [negb orb fst snd]. split; [exact Hsame|]. split; [exact (Hnow (cache s))|]. rewrite <- Hg. by apply not_eq_sym.
Qed.

Lemma emptied_succ k w : emptied k (Emptied k :: w) = (1 + emptied k w)%N.
Proof. cbn. by rewrite decide_True. Qed.

Lemma invalidated_slot_ok k w (s : CacheSlot (held k)) :
  generation s = (emptied k w mod u64_values)%N -> generation (invalidate_slot s) = (emptied k (Emptied k :: w) mod u64_values)%N.
Proof. intros Hg. rewrite emptied_succ. cbn. rewrite Hg, N.add_comm, N.Div0.add_mod_idemp_r. done. Qed.

Lemma emptied_slot_ok id k s : host_ok s -> host_ok (ask id (put_slot k (invalidate_slot (slot k (cache s))) (cache s)) (Emptied k :: events s) s).
Proof.
  intros (Hk & Hs & Ha). split; [|split].
  - intros k'. unfold slot_ok. cbn [cache events ask]. destruct (decide (k = k')) as [<-|Hne].
    + rewrite slot_put_same. split; [apply invalidated_slot_ok, Hk|done].
    + rewrite slot_put_other by done. destruct (Hk k') as [Hg Hv]. split; [cbn; by rewrite decide_False|]. intros v E. apply held_later; [by apply Hv|done].
  - unfold saves_seen. cbn [cache events ask]. intros E changed w [[=]|Hw]%suffix_cons_inv. destruct (decide (k = Styles)) as [->|Hne].
    + rewrite emptied_succ. assert (emptied Styles w <= emptied Styles (events s))%N; [|lia]. apply emptied_mono. etransitivity; [|exact Hw]. by exists [Saved changed].
    + cbn. rewrite decide_False by done. apply (Hs ltac:(by destruct k) _ _ Hw).
  - apply asks_started; [done|]. by exists [Emptied k].
Qed.

Lemma saved_ok id changed s :
  host_ok s -> host_ok (ask id (put_slot Styles (empty_styles_of changed (styles (cache s))).2 (cache s))
    ((if (empty_styles_of changed (styles (cache s))).1 then [Emptied Styles] else []) ++ Saved changed :: events s) s).
Proof.
  intros (Hk & Hs & Ha). set (s1 := mkCaches (cache s) (Saved changed :: events s) (asks s)).
  assert (asks_ok s1) as Ha1. { intros i since last E. destruct (Ha _ _ _ E) as [H1 H2]. split; [done|]. by apply suffix_cons_r. }
  assert (forall k, generation (slot k (cache s)) = (emptied k (events s) mod u64_values)%N) as Hg by (intros k; apply Hk).
  assert (forall k v, value (slot k (cache s)) = Some v -> spares k (Saved changed) v -> held_current k (Saved changed :: events s) v) as Hlater.
  { intros k v E Hsp. apply held_later; [|done]. by apply (Hk k). }
  destruct (empty_styles_of changed (styles (cache s))).1 eqn:Eb.
  - assert ((empty_styles_of changed (styles (cache s))).2 = invalidate_slot (styles (cache s))) as ->.
    { revert Eb. unfold empty_styles_of. destruct (value (styles (cache s))); [|done]. case_bool_decide; by cbn. }
    cbn [app]. split; [|split].
    + intros k. unfold slot_ok. cbn [cache events ask]. destruct (decide (k = Styles)) as [->|Hne].
      * rewrite slot_put_same. split; [apply (invalidated_slot_ok Styles (Saved changed :: events s)); exact (Hg Styles)|done].
      * rewrite slot_put_other by done. cbn [emptied]. rewrite decide_False by done. split; [apply Hg|]. intros v E.
        apply held_later; [|done]. apply Hlater; [done|by destruct k].
    + unfold saves_seen. cbn [cache events ask]. intros _ c w Hw. rewrite emptied_succ. destruct (suffix_cons_inv _ _ _ _ Hw) as [[=]|Hw'].
      assert (emptied Styles w <= emptied Styles (Saved changed :: events s))%N; [|lia]. apply emptied_mono. etransitivity; [|exact Hw']. by exists [Saved c].
    + apply asks_started; [done|]. by exists [Emptied Styles; Saved changed].
  - revert Eb. unfold empty_styles_of. destruct (value (styles (cache s))) as [entry|] eqn:E; [|done]. case_bool_decide as Hd; [|done]. cbn [fst snd negb app]. intros _.
    split; [|split].
    + intros k. replace (put_slot Styles (styles (cache s)) (cache s)) with (cache s) by (by destruct (cache s)). split; [apply Hg|].
      intros v Ev. apply Hlater; [done|]. destruct k; try done. cbn in *. by simplify_eq.
    + unfold saves_seen. cbn. congruence.
    + apply asks_started; [done|]. by exists [Saved changed].
Qed.

(** *** The programs are safe *)

#[local] Abbreviation safely := (safe (fun w w' : list Event => w `suffix_of` w') pre post).

(** A loop that has gone round [n] times for a slot. *)
Definition turned (k : CacheField) (n : nat) (l : Asked) (w : list Event) : Prop :=
  match l with
  | None => n = 0
  | Some (since, last) => since `suffix_of` last /\ last `suffix_of` w /\ (N.of_nat n + emptied k since <= emptied k last)%N
  end.

(** What a lookup knows that ended: its answer, at its last look, or that it went round [n] times. *)
Definition knows (k : CacheField) (n : nat) {A} (answered : A -> list Event -> Prop) (r : option A) (l : Asked) (w : list Event) : Prop :=
  exists since last, l = Some (since, last) /\ since `suffix_of` last /\ last `suffix_of` w /\
    match r with Some a => (forall k, (emptied k last < u64_values)%N) -> answered a last | None => (N.of_nat n + emptied k since <= emptied k last)%N end.

(** One round: look, and begin to build when nothing is there. *)
Lemma safe_round k n {A} (F : held k -> Prog A) (G : N -> built k + build_error k -> Prog A) Q l w :
  turned k n l w ->
  (forall v since w', since `suffix_of` w' -> held_current k w' v -> safely (F v) Q (Some (since, w')) w') ->
  (forall g found since a w', since `suffix_of` w' -> a `suffix_of` w' -> g = (emptied k a mod u64_values)%N -> (N.of_nat n + emptied k since <= emptied k a)%N ->
     (forall x, found = inl x -> exists b, w' = Began k x :: b /\ a `suffix_of` b) -> safely (G g found) Q (Some (since, w')) w') ->
  safely (Act (Look k) (fun seen => match seen with inl v => F v | inr g => Act (Build k) (G g) end)) Q l w.
Proof.
  intros Ht HF HG. apply safe_act; [apply _|done|]. intros [v|g] l' w' Hw [(since & -> & Hs & Hp) Ha]; [by apply HF|].
  assert (N.of_nat n + emptied k since <= emptied k w')%N as Hn.
  { destruct l as [[s0 h]|]; cbn in Ht.
    - rewrite (Hp _ eq_refl). cbn. destruct Ht as (_ & Hh & Ht). pose proof (emptied_mono k _ _ Hw). pose proof (emptied_mono k _ _ Hh). lia.
    - subst n. pose proof (emptied_mono k _ _ Hs). lia. }
  apply safe_act; [apply _|done|]. intros found l' w'' Hw' [(since' & -> & Hs' & Hp') Hx]. rewrite (Hp' _ eq_refl) in *. cbn in *.
  apply (HG g found since w'); try done. intros x ->. destruct Hx as (b & Hb & Hl). exists b. split; [done|]. exact (Hl _ eq_refl).
Qed.

(** Its end: what was built is stored, or another's is there, or the round was for nothing. *)
Lemma safe_install k n {A} x v (H : Stored (held k) -> Prog A) Q since a b :
  a `suffix_of` b -> made k x v -> (N.of_nat n + emptied k since <= emptied k a)%N ->
  (forall u w', since `suffix_of` w' -> held_current k w' u -> safely (H (Existing u)) Q (Some (since, w')) w') ->
  (forall w', since `suffix_of` w' -> held_current k w' v -> safely (H Taken) Q (Some (since, w')) w') ->
  (forall w', turned k (S n) (Some (since, w')) w' -> safely (H Refused) Q (Some (since, w')) w') ->
  safely (Act (Install k (emptied k a mod u64_values)%N v) H) Q (Some (since, Began k x :: b)) (Began k x :: b).
Proof.
  intros Hab Hm Hn He Ht Hr. apply safe_act; [apply _|by intros w Hw; exists x, a, b|].
  intros stored l' w Hw [(since' & -> & Hs & Hp) Hst]. rewrite (Hp _ eq_refl) in *. cbn [fst] in *.
  destruct stored as [u| |]; [by apply He|by apply Ht|]. apply Hr.
  assert (a `suffix_of` w) as Haw by (etransitivity; [exact Hab|]; etransitivity; [|exact Hw]; by exists [Began k x]).
  pose proof (emptied_mono k _ _ Haw). destruct (decide (emptied k a = emptied k w)) as [E|E]; [by rewrite E in Hst|].
  split; [done|]. split; [done|lia].
Qed.

(** *** The lookups *)

(** Out of fuel. *)
Lemma safe_none k n {A} (answered : A -> list Event -> Prop) l w : 0 < n -> turned k n l w -> safely (Ret None) (knows k n answered) l w.
Proof. intros Hn Ht w' Hw. destruct l as [[since last]|]; cbn in Ht; [|lia]. destruct Ht as (Hs & Hl & Ht). exists since, last. repeat (split; [done|]). split; [by etransitivity|done]. Qed.

Lemma safe_some k n {A} (answered : A -> list Event -> Prop) a since w :
  since `suffix_of` w -> ((forall k, (emptied k w < u64_values)%N) -> answered a w) -> safely (Ret (Some a)) (knows k n answered) (Some (since, w)) w.
Proof. intros Hs Ha w' Hw. exists since, w. done. Qed.

Lemma links_safe fuel n l w :
  0 < n + fuel -> turned AssetLinks n l w -> safely (asset_links_lookup fuel) (knows AssetLinks (n + fuel) (fun links w => current AssetLinks w links)) l w.
Proof.
  revert n l w. induction fuel as [|fuel IH]; intros n l w Hpos Ht; [rewrite Nat.add_0_r in *; by apply safe_none|].
  cbn [asset_links_lookup bind_prog act]. eapply (safe_round AssetLinks n); [done|..].
  - intros v since w' Hs Hv. apply safe_some; auto.
  - intros g [found|[]] since a w' Hs Ha -> Hn Hx. destruct (Hx _ eq_refl) as (b & -> & Hab). cbn [bind_prog].
    eapply (safe_install AssetLinks n); [done|by destruct found|done|..].
    + intros u w'' Hs' Hu. apply safe_some; auto.
    + intros w'' Hs' Hu. apply safe_some; auto.
    + intros w'' Ht'. rewrite Nat.add_succ_r. apply (IH (S n)); [lia|done].
Qed.

Lemma table_safe fuel n l w :
  0 < n + fuel -> turned ClientRoutes n l w -> safely (synthesized_route_manifest fuel) (knows ClientRoutes (n + fuel) (fun body w => current ClientRoutes w body)) l w.
Proof.
  revert n l w. induction fuel as [|fuel IH]; intros n l w Hpos Ht; [rewrite Nat.add_0_r in *; by apply safe_none|].
  cbn [synthesized_route_manifest bind_prog act]. eapply (safe_round ClientRoutes n); [done|..].
  - intros v since w' Hs Hv. apply safe_some; auto.
  - intros g [found|[]] since a w' Hs Ha -> Hn Hx. destruct (Hx _ eq_refl) as (b & -> & Hab). cbn [bind_prog].
    eapply (safe_install ClientRoutes n); [done..|intros; apply safe_some; auto|intros; apply safe_some; auto|].
    intros w'' Ht'. rewrite Nat.add_succ_r. apply (IH (S n)); [lia|done].
Qed.

Lemma asset_safe fuel n l w :
  0 < n + fuel -> turned StyleAsset n l w -> safely (built_style_asset fuel) (knows StyleAsset (n + fuel) (fun url w => current StyleAsset w url)) l w.
Proof.
  revert n l w. induction fuel as [|fuel IH]; intros n l w Hpos Ht; [rewrite Nat.add_0_r in *; by apply safe_none|].
  cbn [built_style_asset bind_prog act]. eapply (safe_round StyleAsset n); [done|..].
  - intros v since w' Hs Hv. apply safe_some; auto.
  - intros g [found|[]] since a w' Hs Ha -> Hn Hx. destruct (Hx _ eq_refl) as (b & -> & Hab). cbn [bind_prog].
    eapply (safe_install StyleAsset n); [done|by destruct found|done|intros; apply safe_some; auto|intros; apply safe_some; auto|].
    intros w'' Ht'. rewrite Nat.add_succ_r. apply (IH (S n)); [lia|done].
Qed.

Definition text_current (r : string + RuvyxaError) (w : list Event) : Prop :=
  match r with inl text => exists entry, current Styles w entry /\ text = css entry | inr _ => True end.

Lemma styles_safe fuel n l w :
  0 < n + fuel -> turned Styles n l w ->
  safely (styles_loop watch minify_css normalize_cache_path fuel) (knows Styles (n + fuel) text_current) l w.
Proof.
  revert n l w. induction fuel as [|fuel IH]; intros n l w Hpos Ht; [rewrite Nat.add_0_r in *; by apply safe_none|].
  cbn [styles_loop bind_prog act]. eapply (safe_round Styles n); [done|..].
  - intros v since w' Hs Hv. apply safe_some; [done|]. intros Hlt. exists v. split; [by apply Hv|done].
  - intros g [found|e] since a w' Hs Ha -> Hn Hx; cbn [bind_prog]; [|by apply safe_some].
    destruct (Hx _ eq_refl) as (b & -> & Hab). eapply (safe_install Styles n); [done..| | |].
    + intros u w'' Hs' Hu. apply safe_some; [done|]. intros Hlt. exists u. split; [by apply Hu|done].
    + intros w'' Hs' Hu. apply safe_some; [done|]. intros Hlt. eexists. split; [by apply Hu|done].
    + intros w'' Ht'. rewrite Nat.add_succ_r. apply (IH (S n)); [lia|done].
Qed.

Definition entry_current (r : RouteCacheEntry + RuvyxaError) (w : list Event) : Prop :=
  match r with inl entry => current Routes w entry | inr _ => True end.

Lemma observed_safe m k n {A} (answered : A -> list Event -> Prop) a since w :
  since `suffix_of` w -> ((forall k, (emptied k w < u64_values)%N) -> answered a w) ->
  safely (Act (Observe m) (fun _ => Ret (Some a))) (knows k n answered) (Some (since, w)) w.
Proof. intros Hs Ha. apply safe_act; [apply _|done|]. intros [] l' w' Hw Hl. cbn in Hl. subst l'. intros w'' Hw'. exists since, w. repeat (split; [done|]). split; [by etransitivity|done]. Qed.

Lemma routes_safe fuel n l w :
  0 < n + fuel -> turned Routes n l w -> safely (route_loop fuel) (knows Routes (n + fuel) entry_current) l w.
Proof.
  revert n l w. induction fuel as [|fuel IH]; intros n l w Hpos Ht; [rewrite Nat.add_0_r in *; by apply safe_none|].
  cbn [route_loop bind_prog act]. eapply (safe_round Routes n); [done|..].
  - intros v since w' Hs Hv. apply safe_some; [done|]. intros Hlt. by apply Hv.
  - intros g [found|e] since a w' Hs Ha -> Hn Hx; cbn [bind_prog]; [|by apply safe_some].
    destruct (Hx _ eq_refl) as (b & -> & Hab). eapply (safe_install Routes n); [done..|intros u w'' Hs' Hu; apply safe_some; [done|]; intros Hlt; by apply Hu|intros w'' Hs' Hu; apply observed_safe; [done|]; intros Hlt; by apply Hu|].
    intros w'' Ht'. rewrite Nat.add_succ_r. apply (IH (S n)); [lia|done].
Qed.

(** A build that nothing is kept of is as fresh as can be. *)
Lemma built_current k x v w : made k x v -> current k (Began k x :: w) v.
Proof.
  intros Hm. exists x, w. split; [done|]. split; [done|]. split; [done|]. destruct k; try done. cbn. intros changed w' Hw Hs. exfalso.
  destruct (suffix_cons_inv _ _ _ _ Hw) as [[=]|Hw']. apply suffix_length in Hw', Hs. cbn in *. lia.
Qed.

(** A lookup that starts. *)
Lemma snapshot_safe fuel w : 0 < fuel -> safely (route_snapshot cache_route_manifest fuel) (knows Routes fuel entry_current) None w.
Proof.
  intros Hf. unfold route_snapshot. destruct cache_route_manifest; cbn [negb]; [by apply (routes_safe fuel 0)|].
  cbn [bind_prog act]. apply safe_act; [apply _|done|]. intros [m|e] l' w' _ [(since & -> & Hs & _) Hb]; cbn [bind_prog]; [|by apply safe_some].
  destruct Hb as (b & -> & _). apply observed_safe; [done|]. intros _. by apply built_current.
Qed.

Lemma collected_safe fuel l w :
  0 < fuel -> turned Styles 0 l w ->
  safely (collected_styles cache_css watch minify_css normalize_cache_path fuel) (knows Styles fuel text_current) l w.
Proof.
  intros Hf Ht. unfold collected_styles. destruct cache_css; cbn [negb]; [by apply (styles_safe fuel 0)|].
  cbn [bind_prog act]. apply safe_act; [apply _|done|]. intros [c|e] l' w' _ [(since & -> & Hs & _) Hb]; [|by apply safe_some].
  destruct Hb as (b & -> & _). apply safe_some; [done|]. intros _. eexists. split; [by apply built_current|done].
Qed.

(** What a page asks for its styles. *)
Definition tag_done (fuel : nat) (r : option (string + RuvyxaError)) : Asked -> list Event -> Prop := done (TagDone fuel r).

Lemma tag_safe fuel w : 0 < fuel -> safely (style_tag cache_css watch minify_css normalize_cache_path fuel) (fun r => tag_done fuel r) None w.
Proof.
  intros Hf. unfold style_tag.
  assert (forall l w, turned Styles 0 l w -> safely
    (css ⇐ collected_styles cache_css watch minify_css normalize_cache_path fuel;
     match css with None => Ret None | Some (inl css) => Ret (Some (inl (style_head_tag None css))) | Some (inr e) => Ret (Some (inr e)) end)%prog (fun r => tag_done fuel r) l w) as Hcollect.
  { intros l w0 Ht. apply safe_bind; [apply _|]. eapply safe_weaken; [apply _| |by apply collected_safe].
    intros [[text|e]|] l' w' _ (since & last & -> & Hs & Hl & Ha); apply safe_ret; intros w'' Hw; exists since, last; (split; [done|]); (split; [done|]); (split; [by etransitivity|]).
    - split; [|done]. intros Hlt. destruct (Ha Hlt) as (entry & Hc & ->). right. by exists entry.
    - done.
    - split; [done|]. by exists Styles. }
  destruct watch; cbn [negb bind_prog]; [by apply Hcollect|]. apply safe_bind; [apply _|].
  eapply safe_weaken; [apply _| |by apply (asset_safe fuel 0)].
  intros [[url|]|] l' w' _ (since & last & -> & Hs & Hl & Ha); [| |]; cbn.
  - intros w'' Hw. exists since, last. split; [done|]. split; [done|]. split; [by etransitivity|]. split; [|done]. intros Hlt. left. exists url. split; [by apply Ha|done].
  - apply Hcollect. split; [done|]. split; [done|]. pose proof (emptied_mono Styles _ _ Hs). lia.
  - intros w'' Hw. exists since, last. split; [done|]. split; [done|]. split; [by etransitivity|]. split; [done|]. by exists StyleAsset.
Qed.

Lemma invalidation_safe rediscover changed l w : safely (invalidate_runtime_caches rediscover changed ;;; Ret Invalidated)%prog (fun out => done out) l w.
Proof. destruct rediscover; cbn; repeat (intros; split; [done|]; intros); done. Qed.

Lemma ends_safe {A} (p : Programs.Prog Op Ans (option A)) (f : option A -> Outcome) k n answered w :
  (forall r l w, knows k n answered r l w -> done (f r) l w) -> safely p (knows k n answered) None w -> safely (r ⇐ p; Ret (f r))%prog (fun out => done out) None w.
Proof.
  intros Hd Hp. apply safe_bind; [apply _|]. eapply safe_weaken; [apply _| |exact Hp]. intros r l' w' _ (since & last & Hl & Hs & Hw & Ha) w'' Hw'. apply Hd.
  exists since, last. split; [done|]. split; [done|]. split; [by etransitivity|done].
Qed.

Lemma arrivals_safe p : arrives p -> forall w, safely p (fun out => done out) None w.
Proof.
  intros Ha w. destruct Ha as [fuel Hf|fuel Hf|fuel Hf|fuel Hf|rediscover changed].
  - eapply ends_safe; [|by apply (links_safe fuel 0)]. intros [a|] l w' (since & last & -> & Hs & Hw & Ha); exists since, last; repeat (split; [done|]); [done|]. by exists AssetLinks.
  - eapply ends_safe; [|by apply snapshot_safe]. intros [[a|e]|] l w' (since & last & -> & Hs & Hw & Ha); exists since, last; repeat (split; [done|]); [done|done|]. by exists Routes.
  - apply safe_bind; [apply _|]. eapply safe_weaken; [apply _| |by apply tag_safe]. intros r l' w' _ (since & last & Hl & Hs & Hw & Ha) w'' Hw'.
    exists since, last. split; [done|]. split; [done|]. split; [by etransitivity|done].
  - eapply ends_safe; [|by apply (table_safe fuel 0)]. intros [a|] l w' (since & last & -> & Hs & Hw & Ha); exists since, last; repeat (split; [done|]); [done|]. by exists ClientRoutes.
  - apply invalidation_safe.
Qed.

(** *** The server keeps its invariant *)

Definition asked_of (s : Caches) (id : N) : Asked := asks s !! id.

Lemma ask_only id fresh c w s : only_local asked_of id fresh s (ask id c w s).
Proof. intros id' Hne _. unfold asked_of. cbn. by rewrite lookup_insert_ne. Qed.

Lemma performed_ok id fresh op a s s' :
  perform id fresh op a s s' -> host_ok s -> pre op (asked_of s id) (events s) ->
  host_ok s' /\ events s `suffix_of` events s' /\ only_local asked_of id fresh s s' /\ post op a (asked_of s id) (asked_of s' id) (events s').
Proof.
  intros Hp Hok Hpre. pose proof Hok as (_ & _ & Ha).
  destruct Hp as [k s|k x s|k e s|k g v s|m s|k s|changed s].
  - split; [by apply ask_ok|]. split; [done|]. split; [apply ask_only|exact (looked id s k Hok)].
  - split; [by apply began_ok|]. split; [by exists [Began k x]|]. split; [apply ask_only|].
    split; [apply asks_started; [done|by exists [Began k x]]|]. exists (events s). split; [done|]. intros [since last] E. cbn. by destruct (Ha _ _ _ E).
  - split; [by apply ask_ok|]. split; [done|]. split; [apply ask_only|]. split; [by apply asks_started|done].
  - destruct (installed_ok id k g v s Hok Hpre) as [Hok' Hpost]. split; [exact Hok'|]. split; [done|]. split; [apply ask_only|exact Hpost].
  - split; [done|]. split; [done|]. split; [by intros ? ?|done].
  - split; [by apply emptied_slot_ok|]. split; [by exists [Emptied k]|]. split; [apply ask_only|done].
  - split; [by apply saved_ok|]. split; [|split; [apply ask_only|done]]. cbn. destruct (empty_styles_of _ _).1; [by exists [Emptied Styles; Saved changed]|by exists [Saved changed]].
Qed.

Lemma performed_fresh id fresh op a s s' : perform id fresh op a s s' -> id <> fresh -> asked_of s' fresh = asked_of s fresh.
Proof. intros Hp Hne. unfold asked_of. destruct Hp; cbn; try done; by rewrite lookup_insert_ne. Qed.

Lemma server_sound :
  sound_operations (S := Caches) (Out := Outcome) perform dropped (fun _ _ => None) arrives (fun w w' => w `suffix_of` w') events asked_of None
    (fun _ => pre) (fun _ => post) host_ok (fun _ out => done out).
Proof.
  split.
  - intros id fresh op a s s' Hp Hok Hne Hnone Hpre. destruct (performed_ok _ _ _ _ _ _ Hp Hok Hpre) as (Hok' & He & Hl & Hpost).
    split; [done|]. split; [done|]. split; [done|]. split; [done|]. by rewrite (performed_fresh _ _ _ _ _ _ Hp Hne).
  - intros id s (Hk & Hs & Ha). split; [|split; [done|split]].
    + split; [exact Hk|]. split; [exact Hs|]. intros i since last E. cbn in E. apply lookup_delete_Some in E as [_ E]. by apply (Ha i).
    + intros id' Hne _. unfold asked_of. cbn. by rewrite lookup_delete_ne.
    + unfold asked_of. cbn. by rewrite lookup_delete_eq.
  - intros p Hp id w. by apply arrivals_safe.
Qed.

Lemma initial_ok s : initial s -> system_ok (fun w w' => w `suffix_of` w') events asked_of None (fun _ => pre) (fun _ => post) host_ok (fun _ out => done out) s.
Proof.
  intros Hi. assert (host_ok (shared s) /\ programs s = ∅ /\ forall id, asked_of (shared s) id = None) as (Hok & Hp & Hn).
  { destruct Hi as [|m]; (split; [|by split]); (split; [|split]; [|intros _|done]).
    - intros k. by destruct k.
    - cbn. intros changed w Hw. by apply suffix_nil_inv in Hw.
    - intros k. destruct k; (split; [done|]); intros v [= <-] _. by apply built_current.
    - cbn. intros changed w [[=]|Hw]%suffix_cons_inv. by apply suffix_nil_inv in Hw. }
  split; [done|]. split; [|split]; [|by intros|].
  - intros id [p E]. rewrite Hp in E. done.
  - intros id p E. rewrite Hp in E. done.
Qed.

Lemma reached s : reachable s -> system_ok (fun w w' => w `suffix_of` w') events asked_of None (fun _ => pre) (fun _ => post) host_ok (fun _ out => done out) s.
Proof. intros (s0 & Hi & Hr). by apply (reachable_ok _ _ _ _ _ _ _ _ _ _ _ _ _ _ server_sound Hr), initial_ok. Qed.

Lemma can_build id fresh k s : exists a s', perform id fresh (Build k) a s s'.
Proof.
  destruct k; do 2 eexists.
  - apply (fails_build _ _ Routes (EMessage "")).
  - apply (fails_build _ _ Styles (EMessage "")).
  - apply (does_build _ _ StyleAsset None).
  - apply (does_build _ _ AssetLinks None).
  - apply (does_build _ _ ClientRoutes ""%string).
Qed.

(** ** The claims *)

(** C37: No request is answered with something staler than the cache: the route table, the icon links, the client table and the style tag a lookup ends with are each what some build found that began after the slot was last emptied before the lookup's last look, and, for a stylesheet, since which no edit touched a file of it. So a build that an edit overtook is never served or kept, as long as no slot is emptied [2^64] times. *)
Theorem lookups_are_current s id out :
  reachable s -> programs s !! id = Some (Ret out) -> (forall k, (emptied k (events (shared s)) < u64_values)%N) ->
  out = Invalidated \/ exists since last, asks (shared s) !! id = Some (since, last) /\ last `suffix_of` events (shared s) /\ answer_current out last.
Proof.
  intros Hr%reached Hp Hlt. pose proof (finished_ok _ _ _ _ _ _ _ _ _ _ _ Hr Hp) as Hd.
  assert (forall last, last `suffix_of` events (shared s) -> forall k, (emptied k last < u64_values)%N) as Hl.
  { intros last Hs k. eapply N.le_lt_trans; [by apply emptied_mono|apply Hlt]. }
  destruct out; [right..|by left]; destruct Hd as (since & last & Ha & _ & Hs & Hc & _); exists since, last; (split; [exact Ha|]); (split; [exact Hs|]); by apply Hc, Hl.
Qed.

(** C38: Every lookup ends: each of its operations can always be carried out, and it goes round its loop again only when the slot it fills was emptied since it began, so that one that may go round [fuel] times answers, unless some slot was emptied as often while it ran. *)
Theorem lookups_end s id :
  reachable s ->
  (forall op k, programs s !! id = Some (Act op k) -> exists a s', perform id (next_id s) op a (shared s) s') /\
  (forall out, programs s !! id = Some (Ret out) -> out = Invalidated \/ exists since last,
     asks (shared s) !! id = Some (since, last) /\ since `suffix_of` last /\ last `suffix_of` events (shared s) /\ answer_made out since last).
Proof.
  intros Hr%reached. split.
  - intros op k _. destruct op as [k'|k'|k' g v|m|k'|changed]; [|by apply can_build|..]; do 2 eexists; constructor.
  - intros out Hp. pose proof (finished_ok _ _ _ _ _ _ _ _ _ _ _ Hr Hp) as Hd.
    destruct out; [right..|by left]; destruct Hd as (since & last & Ha & Hs & Hl & _ & Hm); exists since, last; done.
Qed.

Lemma play_move_steps s m s' : play_move s m = Some s' -> server_step s s'.
Proof.
  destruct m as [fuel|rediscover changed|id find]; cbn.
  - destruct fuel as [|fuel]; [done|]. intros [= <-]. apply (step_arrives _ _ _ _ _ s), tag_arrives. lia.
  - intros [= <-]. apply (step_arrives _ _ _ _ _ s), edit_arrives.
  - destruct (programs s !! id) as [[|op k]|] eqn:E; [done| |done]. destruct (perform_with id op find (shared s)) as [a state'] eqn:Hp. intros [= <-].
    apply (step_acts perform dropped (fun _ _ => None) arrives id op k a state' s E). destruct op; injection Hp as <- <-; constructor.
Qed.

Lemma play_steps moves s s' : play moves s = Some s' -> rtc server_step s s'.
Proof.
  unfold play. revert s. induction moves as [|m moves IH]; cbn [foldl]; intros s H; [by injection H as <-|].
  cbn [mbind option_bind] in H. destruct (play_move s m) as [s1|] eqn:E; [|exfalso; clear -H; induction moves; [done|by apply IHmoves]]. eapply rtc_l; [by eapply play_move_steps|by apply IH].
Qed.
End server.

(** *** A concrete run *)

Section concrete.
Definition no_finds (k : CacheField) : built k :=
  match k with Routes => mkRouteManifest "" [] None | Styles => mkCollection "" [] | StyleAsset => None | AssetLinks => None | ClientRoutes => "" end.
Definition stylesheet (text : string) (k : CacheField) : built k :=
  match k with Styles => mkCollection text [] | k => no_finds k end.

(** An edit overtakes the collection a page waits for. *)
Definition overtaken : list Move :=
  [TagArrives 2; EditArrives false ∅; Acts 0 no_finds; Acts 0 (stylesheet "old"); Acts 1 no_finds; Acts 1 no_finds; Acts 0 no_finds;
   Acts 0 no_finds; Acts 0 (stylesheet "new"); Acts 0 no_finds].

Definition played := play true true id id overtaken (mkSystem (mkCaches default_cache [] ∅) ∅ 0).
Definition answer (s : System (Op := Op) (Ans := Ans) (S := Caches) (Out := Outcome)) : option string :=
  match programs s !! 0%N with Some (Ret (TagDone _ (Some (inl tag)))) => Some tag | _ => None end.
End concrete.

Lemma played_reaches cache_route_manifest s : played = Some s -> reachable cache_route_manifest true true id id s.
Proof. intros H. eexists. split; [constructor|]. by apply (play_steps _ _ _ _ _ overtaken). Qed.

(** A run shows what its play computes. *)
Lemma played_shows {A} (f : System (Op := Op) (Ans := Ans) (S := Caches) (Out := Outcome) -> A) a :
  f <$> played = Some a -> exists s, reachable true true true id id s /\ f s = a.
Proof. destruct played as [s|] eqn:E; [|done]. intros [= <-]. exists s. split; [by apply played_reaches|done]. Qed.

Definition styled (s : System (Op := Op) (Ans := Ans) (S := Caches) (Out := Outcome)) : bool :=
  match programs s !! 0%N with
  | Some (Ret (TagDone fuel (Some (inl tag)))) =>
      (fuel =? 2) && bool_decide (tag = style_head_tag None "new") &&
      forallb (fun k => emptied k (events (shared s)) <? u64_values)%N [Routes; Styles; StyleAsset; AssetLinks; ClientRoutes]
  | _ => false
  end.

Lemma lookups_are_current_witness :
  exists s, reachable true true true id id s /\ programs s !! 0%N = Some (Ret (TagDone 2 (Some (inl (style_head_tag None "new"))))) /\
    exists since last, asks (shared s) !! 0%N = Some (since, last) /\ last `suffix_of` events (shared s) /\
      answer_current true id id (TagDone 2 (Some (inl (style_head_tag None "new")))) last.
Proof.
  destruct (played_shows styled true) as (s & Hr & Hs); [by vm_compute|]. exists s. split; [done|]. unfold styled in Hs.
  destruct (programs s !! 0%N) as [[[| |fuel [[tag|]|]| |]|]|] eqn:E; try done.
  apply andb_prop in Hs as [[->%Nat.eqb_eq ->%bool_decide_eq_true]%andb_prop Hl]. split; [done|].
  destruct (lookups_are_current true true true id id s 0 _ Hr E) as [?|H]; [|done|exact H].
  intros k. rewrite forallb_forall in Hl. apply N.ltb_lt, Hl. destruct k; cbn; tauto.
Defined.

Lemma lookups_end_witness :
  exists s, reachable true true true id id s /\ (exists out, programs s !! 0%N = Some (Ret out)) /\
    forall out, programs s !! 0%N = Some (Ret out) -> out = Invalidated \/ exists since last,
      asks (shared s) !! 0%N = Some (since, last) /\ since `suffix_of` last /\ last `suffix_of` events (shared s) /\ answer_made out since last.
Proof.
  destruct (played_shows styled true) as (s & Hr & Hs); [by vm_compute|]. exists s. split; [done|]. split; [|exact (proj2 (lookups_end true true true id id s 0 Hr))].
  unfold styled in Hs. destruct (programs s !! 0%N) as [[out|]|]; [by exists out|done|done].
Defined.
