(* ===== verification/Watcher.v ===== *)
(** The file watcher of the development server
    (crates/ruvyxa_dev_server/src/watcher.rs) and the edit traces it leaves
    (trace.rs): which paths are worth waking up for, how the raw events of one
    edit become one batch, what a batch invalidates, and the message the browser
    is sent.

    The watcher's thread handles one batch at a time; [handle_watch_batch] is
    what that thread does to the caches, the tracker and the traces, and the
    tasks and messages it leaves.  The clock of the coalescing loop is that of its
    source: events arrive at given times, a wait ends when one does or when it
    has lasted its window.  Texts of paths are valid UTF-8 without empty or [.]
    components, as the watcher reports them; times are nanoseconds ([N]). *)
From S2P Require Import Prelude Order RustStr Programs Paths PathBuf Manifest Diagnostics Recency RenderCache Hmr Router FileProbe RuntimeCache.

(** ** Definitions *)

(** *** Edit traces (trace.rs) *)

Definition TRACE_LIMIT : nat := 128.
Definition TRACE_EVENT_LIMIT : nat := 64.

Record TraceEvent := mkTraceEvent { stage : string; at_ms : N; detail : option string }.
Record EditTrace := mkTrace { trace_id : string; trace_paths : list string; trace_routes : list string; trace_kind : string; trace_events : list TraceEvent; suppressed_events : N }.

(** [while traces.len() >= TRACE_LIMIT { traces.pop_front(); }] *)
Fixpoint trim_traces (traces : list EditTrace) : list EditTrace :=
  match traces with [] => [] | _ :: rest => if TRACE_LIMIT <=? length traces then trim_traces rest else traces end.

(** [TraceStore::start] *)
Definition start_trace (now : N) (id : string) (paths routes : list string) (kind : string) (traces : list EditTrace) : list EditTrace :=
  trim_traces traces ++ [mkTrace id paths routes kind [mkTraceEvent "graph" now (Some "edit accepted")] 0].

(** [TraceStore::record] *)
Definition add_event (e : TraceEvent) (t : EditTrace) : EditTrace :=
  if TRACE_EVENT_LIMIT <=? length (trace_events t) then mkTrace (trace_id t) (trace_paths t) (trace_routes t) (trace_kind t) (trace_events t) (suppressed_events t + 1)
  else mkTrace (trace_id t) (trace_paths t) (trace_routes t) (trace_kind t) (trace_events t ++ [e]) (suppressed_events t).

Fixpoint record_trace (now : N) (id stage detail : string) (traces : list EditTrace) : bool * list EditTrace :=
  match traces with
  | [] => (false, [])
  | t :: rest =>
      if String.eqb (trace_id t) id then (true, add_event (mkTraceEvent stage now (Some detail)) t :: rest)
      else let '(found, rest) := record_trace now id stage detail rest in (found, t :: rest)
  end.

(** [TraceStore::snapshot_traces] *)
Definition snapshot_traces (path : option string) (traces : list EditTrace) : list EditTrace :=
  filter (fun t => (match path with None => true | Some p => bool_decide (p ∈ trace_paths t) end) = true) traces.

(** The bytes of an integer, lowest first. *)
Fixpoint le_bytes (n : nat) (v : N) : string :=
  match n with 0 => "" | S n => String (ascii_of_N (v mod 256)) (le_bytes n (v / 256)) end.

(** [edit_id]; [blake3] is the hash in hexadecimal. *)
Definition edit_id (blake3 : string -> string) (pid counter nanos : N) (paths : list string) : string :=
  String.substring 0 32 (blake3 (le_bytes 4 pid +:+ le_bytes 8 counter +:+ le_bytes 16 nanos +:+ String.concat "" ((fun p => p +:+ String "000" "") <$> paths))).

(** *** Batches *)

Definition WATCH_COALESCE_WINDOW : N := 50000000.
Definition WATCH_COALESCE_MAX_WINDOW : N := 250000000.

Inductive WatchEvents := Batch (paths : list PathBuf) | Idle | Closed.

(** What the coalescing loop asks of its source, whose clock it reads. *)
Record WatchEventSource (S : Type) := mkSource {
  next_batch : S -> option (list PathBuf) * S;
  next_batch_within : N -> S -> WatchEvents * S;
  now : S -> N;
}.
#[global] Arguments mkSource {S}.
#[global] Arguments next_batch {S}.
#[global] Arguments next_batch_within {S}.
#[global] Arguments now {S}.

(** [batch.sort(); batch.dedup();] *)
Definition tidy (batch : list PathBuf) : list PathBuf := dedup_by same_path (sort_by (by_key path_new path_order) batch).

Section coalesce.
Context {S : Type} (source : WatchEventSource S) (window max_window : N).

(** The inner loop of [coalesce_watch_events]: the batch, and whether the source closed. *)
Fixpoint gather (fuel : nat) (deadline : N) (batch : list PathBuf) (s : S) : option (list PathBuf * bool * S) :=
  match fuel with
  | 0 => None
  | Datatypes.S fuel =>
      let remaining := (deadline - now source s)%N in
      if (remaining =? 0)%N then Some (batch, false, s)
      else match next_batch_within source (window `min` remaining) s with
           | (Batch more, s) => gather fuel deadline (batch ++ more) s
           | (Idle, s) => Some (batch, false, s)
           | (Closed, s) => Some (batch, true, s)
           end
  end.

(** [coalesce_watch_events]; [on_batch] takes what it takes. *)
Fixpoint coalesce_watch_events {B} (on_batch : list PathBuf -> S -> B * S) (fuel : nat) (s : S) : option (list B) :=
  match fuel with
  | 0 => None
  | Datatypes.S fuel =>
      match next_batch source s with
      | (None, s) => Some []
      | (Some first, s) =>
          '(batch, closed, s) ← gather fuel (now source s + max_window)%N first s;
          let batch := tidy batch in
          let '(done, s) := (if bool_decide (batch = []) then ([] : list B, s) else let '(b, s) := on_batch batch s in ([b], s)) in
          if (closed : bool) then Some done else (fun rest => done ++ rest) <$> coalesce_watch_events on_batch fuel s
      end
  end.
End coalesce.

(** The receiving end of the channel: what is to arrive, in order, and whether the sender is dropped after it, at a time. *)
Record Receiver := mkReceiver { clock : N; arrivals : list (N * list PathBuf); closes : option N }.

(** [recv], which waits for ever on a sender that sends nothing *)
Definition recv (r : Receiver) : option (list PathBuf) * Receiver :=
  match arrivals r with
  | (t, paths) :: rest => (Some paths, mkReceiver (N.max (clock r) t) rest (closes r))
  | [] => (None, r)
  end.

(** [recv_timeout] *)
Definition recv_timeout (window : N) (r : Receiver) : WatchEvents * Receiver :=
  let until := (clock r + window)%N in
  match arrivals r with
  | (t, paths) :: rest => if (t <=? until)%N then (Batch paths, mkReceiver (N.max (clock r) t) rest (closes r)) else (Idle, mkReceiver until (arrivals r) (closes r))
  | [] =>
      match closes r with
      | Some t => if (t <=? until)%N then (Closed, mkReceiver (N.max (clock r) t) [] (closes r)) else (Idle, mkReceiver until [] (closes r))
      | None => (Idle, mkReceiver until [] None)
      end
  end.

Definition receiver : WatchEventSource Receiver := mkSource recv recv_timeout clock.

(** *** Paths *)

Definition INSTRUMENTATION_FILES : list string := ["instrumentation.ts"; "instrumentation.js"; "instrumentation.mjs"].

Record WatchRoots := mkRoots { raw : PathBuf; canonical : PathBuf }.

(** The components of a path, its root the first. *)
Definition components (p : Path) : list string := (if absolute p then ["/"] else []) ++ comps p.

(** [Path::strip_prefix] *)
Definition strip_path (base p : Path) : option Path := mkPath false <$> strip_base base p.

(** [WatchRoots::relativize] *)
Definition relativize (roots : WatchRoots) (p : PathBuf) : Path :=
  let path := path_new p in
  if is_absolute p then
    match strip_path (path_new (canonical roots)) path with
    | Some rest => rest
    | None => default path (strip_path (path_new (raw roots)) path)
    end
  else default path (strip_path (path_new ".") path).

(** [ignored_watch_path] *)
Definition ignored_watch_path (roots : WatchRoots) (p : PathBuf) : bool :=
  let components := filter (fun c => c ≠ ".") (components (relativize roots p)) in
  match components with
  | first :: _ => bool_decide (first ∈ [".git"; ".ruvyxa"; "target"; "dist"; ".npm-pack"; ".npm-smoke"]) || starts_with ".ruvyxa-" first
  | [] => false
  end || existsb (fun c => bool_decide (c ∈ [".ruvyxa"; "node_modules"])) components.

(** The filter of the callback of [start_watcher]; [access] says that the event only read. *)
Definition accepted_paths (roots : WatchRoots) (access : bool) (paths : list PathBuf) : option (list PathBuf) :=
  if access then None else
  match filter (fun p => ignored_watch_path roots p = false) paths with [] => None | paths => Some paths end.

Section file_system.
Context (canonicalize : PathBuf -> option PathBuf) (path_exists : PathBuf -> bool).

(** [WatchRoots::new] *)
Definition new_roots (root : PathBuf) : WatchRoots := mkRoots root (normalized_canonical_path canonicalize root).

(** [watch_paths] *)
Definition watch_paths (root : PathBuf) : list PathBuf := tidy (filter (fun p => path_exists p = true) [root]).

(** [source_was_removed] *)
Definition source_was_removed (roots : WatchRoots) (paths : list PathBuf) : bool :=
  existsb (fun p => negb (path_exists (if is_absolute p then p else join_path (canonical roots) p))) paths.

(** [instrumentation_source_changed] *)
Definition instrumentation_source_changed (roots : WatchRoots) (paths : list PathBuf) : bool :=
  existsb (fun p =>
    match file_name_of p with
    | None => false
    | Some name =>
        bool_decide (name ∈ INSTRUMENTATION_FILES) &&
        match parent_of (if is_absolute p then p else join_path (canonical roots) p) with
        | Some parent => same_path (normalized_canonical_path canonicalize parent) (canonical roots)
        | None => false
        end
    end) paths.

(** [should_rediscover] *)
Definition should_rediscover (update : HmrUpdate) (roots : WatchRoots) (paths : list PathBuf) : bool :=
  full_reload update || bool_decide (affected_routes update = []) || source_was_removed roots paths.

(** *** The message *)

(** [hmr_update_kind] *)
Definition hmr_update_kind (update : HmrUpdate) (paths : list string) : string :=
  if full_reload update then "restart" else
  match event_type update with
  | CssUpdate => "css"
  | ComponentUpdate =>
      if existsb (fun p => existsb (String.eqb "server") (split_char "/" p) || existsb (fun e => ends_with e p) ["/action.ts"; "/action.js"; "/route.ts"; "/route.js"]) paths
      then "server-route" else "client-boundary"
  | FullReload => "restart"
  end.

Definition texts (l : list string) : Value := VArray (VString <$> l).

(** [hmr_payload], the document it is the text of *)
Definition hmr_payload (number : N -> string) (sequence : N) (update : HmrUpdate) (paths : list string) (id : string) (ack : bool) (issue : option (string * string)) : Value :=
  let kind := match issue with Some _ => "issues" | None => hmr_update_kind update paths end in
  let message_type := match issue with Some _ => "issues" | None => if String.eqb kind "restart" then "restart" else "partial" end in
  VObject ([("protocol", VString "ruvyxa.hmr"); ("protocolVersion", VNumber "1"); ("sequence", VNumber (number sequence)); ("traceId", VString id); ("traceAck", VBool ack);
            ("type", VString message_type); ("kind", VString kind); ("modules", texts paths); ("paths", texts paths); ("affectedRoutes", texts (affected_routes update));
            ("fullReload", VBool (full_reload update))] ++
           match issue with Some (code, message) => [("issues", VArray [VObject [("code", VString code); ("message", VString message)]])] | None => [] end).

(** [hmr_issue_payload] *)
Definition hmr_issue_payload (number : N -> string) (sequence : N) (id code message route : string) : Value :=
  VObject [("protocol", VString "ruvyxa.hmr"); ("protocolVersion", VNumber "1"); ("sequence", VNumber (number sequence)); ("traceId", VString id); ("traceAck", VBool false);
           ("type", VString "issues"); ("kind", VString "issues"); ("modules", VArray []); ("paths", VArray []); ("affectedRoutes", texts [route]); ("fullReload", VBool false);
           ("issues", VArray [VObject [("code", VString code); ("message", VString message)]])].

(** *** A batch *)

(** What the watcher works on; the pool answers for the workers it told. *)
Record DevState := mkDev { runtime : RuntimeCache; render : RenderCache; tracker : HmrState; traces : list EditTrace; sequence : N }.

(** What is left to a task, and what is sent at once. *)
Inductive Effect :=
  | RefreshManifest
  (* The messages after a recycle and after one that failed, by the sequence number then drawn. *)
  | Recycle (on_done on_failure : N -> Value)
  | Send (payload : Value).

(** The operations of the watcher's program on the slots, none of which fails. *)
Fixpoint run_slots (p : Programs.Prog RuntimeCache.Op RuntimeCache.Ans unit) (c : RuntimeCache) : RuntimeCache :=
  match p with
  | Ret _ => c
  | Act op k =>
      match op return (RuntimeCache.Ans op -> Programs.Prog RuntimeCache.Op RuntimeCache.Ans unit) -> RuntimeCache with
      | Empty f => fun k => run_slots (k tt) (put_slot f (invalidate_slot (slot f c)) c)
      | EmptyStylesOf changed => fun k => let r := empty_styles_of changed (styles c) in run_slots (k r.1) (put_slot Styles r.2 c)
      | _ => fun _ => c
      end k
  end.

(** [normalize_cache_path], outside Windows *)
Context (current_dir : option PathBuf).
Definition normalize_cache_path (p : PathBuf) : PathBuf :=
  if path_exists p then normalized_canonical_path canonicalize p
  else if is_absolute p then p
  else match current_dir with Some dir => join_path dir p | None => p end.

(** What one canonicalization says of the tracker's paths. *)
Definition canonical_path (p : Path) : option Path := path_new <$> canonicalize (path_text p).

(** The path the browser is told. *)
Definition hmr_path (root p : PathBuf) : string := replace_str "\" "/" (path_text (default (path_new p) (strip_path (path_new root) (path_new p)))).

Definition as_restart (update : HmrUpdate) : HmrUpdate := mkUpdate (affected_routes update) true (changed_files update) FullReload.

(** [for route_path in &affected_routes { render_cache.invalidate_route_blocking(route_path); }] *)
Fixpoint invalidate_routes (routes : list string) (c : RenderCache) : option RenderCache :=
  match routes with
  | [] => Some c
  | r :: rest => '(_, c) ← invalidate_route r c; invalidate_routes rest c
  end.

Context (number : N -> string) (trace_ack : bool).

(** [handle_watch_batch], its times and its trace id given, and what the pool answers: the workers it told, or why not *)
Definition handle_watch_batch (root : PathBuf) (roots : WatchRoots) (at_ms : nat -> N) (id : string) (told : N + string) (paths : list PathBuf) (s : DevState) : option (DevState * list Effect) :=
  let instrumentation_changed := instrumentation_source_changed roots paths in
  let update := compute_update canonical_path (path_new <$> paths) (tracker s) in
  let update := if full_reload update || instrumentation_changed then as_restart update else update in
  let rediscover := should_rediscover update roots paths in
  let runtime := run_slots (invalidate_runtime_caches rediscover (list_to_set (path_new ∘ normalize_cache_path <$> paths))) (runtime s) in
  render ← (if rediscover then snd <$> invalidate_all (render s) else invalidate_routes (affected_routes update) (render s));
  let hmr_paths := hmr_path root <$> paths in
  let traces := start_trace (at_ms 0) id hmr_paths (affected_routes update) (hmr_update_kind update hmr_paths) (traces s) in
  let traces := (record_trace (at_ms 1) id "cache" (if full_reload update then "all route and render caches invalidated" else "affected route and style caches invalidated") traces).2 in
  let worker_detail :=
    if instrumentation_changed then "instrumentation change requires recycle"
    else match told with inl workers => "queued invalidation for " +:+ number workers +:+ " workers" | inr error => "invalidation failed: " +:+ error end in
  let traces := (record_trace (at_ms 2) id "worker" worker_detail traces).2 in
  let refresh := if rediscover then [RefreshManifest] else [] in
  let payload update sequence issue := hmr_payload number sequence update hmr_paths id trace_ack issue in
  let restart_failed := Some ("RUV1707", "Worker restart failed; restart the development server.") in
  Some (
    if instrumentation_changed then
      (mkDev runtime render (tracker s) traces (sequence s + 1), refresh ++ [Recycle (fun _ => payload update (sequence s) None) (fun n => payload update n restart_failed)])
    else match told with
    | inr _ =>
        let update := as_restart update in
        (mkDev runtime render (tracker s) traces (sequence s),
         refresh ++ [Recycle (fun n => payload update n (Some ("RUV1706", "Worker cache invalidation failed; workers were restarted."))) (fun n => payload update n restart_failed)])
    | inl _ =>
        (mkDev runtime render (tracker s) (record_trace (at_ms 3) id "hmr" "message broadcast" traces).2 (sequence s + 1), refresh ++ [Send (payload update (sequence s) None)])
    end).
End file_system.

(** [format_update_elapsed], of a duration in nanoseconds *)
Definition format_update_elapsed (number : N -> string) (elapsed : N) : string :=
  if (1000000 <=? elapsed)%N then number (elapsed / 1000000)%N +:+ "ms"
  else let tenths := N.max 1 ((elapsed / 1000 + 99) / 100) in number (tenths / 10)%N +:+ "." +:+ number (tenths mod 10)%N +:+ "ms".

(** ** Specification *)

(** *** Batches *)

Section batches.
Context (window max_window : N) (cost : list PathBuf -> N).

(** A handler that notes what it was given and when, and takes its time. *)
Definition handing (batch : list PathBuf) (r : Receiver) : (list PathBuf * N) * Receiver :=
  ((batch, clock r), mkReceiver (clock r + cost batch) (arrivals r) (closes r)).

Definition paths_of (taken : list (N * list PathBuf)) : list PathBuf := concat (snd <$> taken).

(** What is handed over, from a time on, of what arrives: the first event is waited for; with it goes what comes before the batch is full or a window passes without an event. *)
Inductive batched : N -> list (N * list PathBuf) -> list (list PathBuf * N) -> Prop :=
  | batched_nothing c : batched c [] []
  | batched_one c t first taken rest handed out :
      let received := N.max c t in
      let batch := tidy (first ++ paths_of taken) in
      (handed <= received + max_window)%N ->
      Forall (fun a => (a.1 <= received + max_window)%N) taken ->
      (forall a more, rest = a :: more -> handed = (received + max_window)%N \/ ((received + window < a.1)%N /\ Forall (fun b => (b.1 + window < a.1)%N) taken)) ->
      batched (handed + if bool_decide (batch = []) then 0 else cost batch)%N rest out ->
      batched c ((t, first) :: taken ++ rest) ((if bool_decide (batch = []) then [] else [(batch, handed)]) ++ out).
End batches.

(** *** What an edit drops *)

Definition url (parts : list string) : string := match parts with [] => "/" | _ => String.concat "" ((fun p => "/" +:+ p) <$> parts) end.

(** A path as routes and canonical request paths are written. *)
Definition canonical_url (p : string) : Prop := p = url (split_path p).

(** A route answers a path. *)
Definition answers (route path : string) : Prop :=
  canonical_url route /\ canonical_url path /\ has_char "?" path = false /\ pattern_matches (parse_pattern route) (split_path path) = true.

Definition is_dynamic (c : ascii) : bool := Ascii.eqb c ":" || Ascii.eqb c "*" || Ascii.eqb c "[".

Fixpoint clean (s : string) : bool := match s with "" => true | String c rest => negb (is_dynamic c) && clean rest end.

(** The path is all the fixed text of a route that goes on with an optional
    catch-all: it asks for no rest, and lacks the slash the fixed text ends in. *)
Definition asks_for_no_rest (route path : string) : Prop :=
  path <> "/" /\ clean path = true /\
  exists name rest, parse_pattern route = (Static <$> split_path path) ++ OptionalWildcard name :: rest.

(** A message to the browser, at once or after the workers are back. *)
Definition reports (e : Effect) : bool := match e with RefreshManifest => false | _ => true end.

(** ** Lemmas *)

Section batch_lemmas.
Context (window max_window : N) (cost : list PathBuf -> N).

Lemma gather_takes fuel deadline batch r :
  length (arrivals r) < fuel -> (clock r <= deadline)%N ->
  exists taken rest closed r', gather receiver window fuel deadline batch r = Some (batch ++ paths_of taken, closed, r') /\
    arrivals r = taken ++ rest /\ arrivals r' = rest /\ closes r' = closes r /\ (clock r <= clock r' <= deadline)%N /\ (closed = true -> rest = []) /\
    Forall (fun a => (a.1 <= deadline)%N) taken /\
    (forall a more, rest = a :: more -> clock r' = deadline \/ ((clock r + window < a.1)%N /\ Forall (fun b => (b.1 + window < a.1)%N) taken)).
Proof.
  revert batch r. induction fuel as [|fuel IH]; intros batch r Hf Hc; [lia|]. cbn [gather]. change (now receiver r) with (clock r).
  destruct (deadline - clock r =? 0)%N eqn:Hrem.
  { apply N.eqb_eq in Hrem. exists [], (arrivals r), false, r. cbn. rewrite app_nil_r. split_and!; try done; try lia; by constructor. }
  apply N.eqb_neq in Hrem. set (until := (clock r + window `min` (deadline - clock r))%N). assert (until <= deadline)%N by lia.
  change (next_batch_within receiver (window `min` (deadline - clock r)) r) with (recv_timeout (window `min` (deadline - clock r)) r).
  unfold recv_timeout. fold until.
  assert (forall r', arrivals r' = arrivals r -> closes r' = closes r -> clock r' = until -> (forall a more, arrivals r = a :: more -> (until < a.1)%N) ->
    exists taken rest closed r'', Some (batch, false, r') = Some (batch ++ paths_of taken, closed, r'') /\
    arrivals r = taken ++ rest /\ arrivals r'' = rest /\ closes r'' = closes r /\ (clock r <= clock r'' <= deadline)%N /\ (closed = true -> rest = []) /\
    Forall (fun a => (a.1 <= deadline)%N) taken /\
    (forall a more, rest = a :: more -> clock r'' = deadline \/ ((clock r + window < a.1)%N /\ Forall (fun b => (b.1 + window < a.1)%N) taken))) as Hidle.
  { intros r' Ha Hcl Hu Hnext. exists [], (arrivals r), false, r'. cbn. rewrite app_nil_r. split_and!; try done; try lia.
    intros a more E. specialize (Hnext _ _ E). destruct (decide (until = deadline)); [left; lia|right]. split; [lia|constructor]. }
  destruct (arrivals r) as [|[t paths] rest] eqn:Ea.
  - destruct (closes r) as [t|] eqn:Ecl; [destruct (t <=? until)%N eqn:Et|]; [|by apply Hidle..].
    apply N.leb_le in Et. exists [], [], true, (mkReceiver (N.max (clock r) t) [] (Some t)). cbn. rewrite app_nil_r. split_and!; try done; try lia; constructor.
  - destruct (t <=? until)%N eqn:Et; [|apply N.leb_gt in Et; apply Hidle; try done; cbn; intros a more [= <- _]; done].
    apply N.leb_le in Et.
    destruct (IH (batch ++ paths) (mkReceiver (N.max (clock r) t) rest (closes r))) as (taken & rest' & closed & r' & -> & Ha & Hr & Hcl & Hck & Hend & Hall & Hgap); [cbn in *; lia|cbn; lia|].
    cbn in Ha, Hcl, Hck. exists ((t, paths) :: taken), rest', closed, r'. unfold paths_of. cbn [fmap list_fmap concat fst snd]. rewrite app_assoc. split; [done|].
    split; [cbn; by rewrite Ha|]. split; [done|]. split; [done|]. split; [lia|]. split; [done|]. split; [constructor; [cbn; lia|done]|].
    intros a more E. destruct (Hgap _ _ E) as [?|[H1 H2]]; [by left|right]. cbn in H1. split; [lia|]. constructor; [cbn; lia|done].
Qed.

Lemma coalesced fuel r : length (arrivals r) < fuel ->
  exists out, coalesce_watch_events receiver window max_window (handing cost) fuel r = Some out /\ batched window max_window cost (clock r) (arrivals r) out.
Proof.
  revert r. induction fuel as [|fuel IH]; intros r Hf; [lia|]. cbn [coalesce_watch_events]. change (next_batch receiver r) with (recv r). unfold recv.
  destruct (arrivals r) as [|[t first] rest] eqn:Ea; [eexists; split; [done|constructor]|]. cbn in Hf.
  change (now receiver (mkReceiver (N.max (clock r) t) rest (closes r))) with (N.max (clock r) t).
  destruct (gather_takes fuel (N.max (clock r) t + max_window)%N first (mkReceiver (N.max (clock r) t) rest (closes r))) as (taken & rest' & closed & r' & -> & Ha & Hr & Hcl & Hck & Hend & Hall & Hgap);
    [cbn; lia|cbn; lia|]. cbn in Ha, Hck. cbn [mbind option_bind].
  set (batch := tidy (first ++ paths_of taken)). set (cost' := if bool_decide (batch = []) then 0%N else cost batch).
  set (r2 := mkReceiver (clock r' + cost') (arrivals r') (closes r')).
  assert ((if bool_decide (batch = []) then ([] : list (list PathBuf * N), r') else let '(b, s) := handing cost batch r' in ([b], s)) = ((if bool_decide (batch = []) then [] else [(batch, clock r')]), r2)) as ->.
  { unfold r2, cost', handing. destruct (bool_decide (batch = [])); [|done]. rewrite N.add_0_r. by destruct r'. }
  assert (exists out, (if closed then Some (if bool_decide (batch = []) then [] else [(batch, clock r')]) else (fun rest => (if bool_decide (batch = []) then [] else [(batch, clock r')]) ++ rest) <$> coalesce_watch_events receiver window max_window (handing cost) fuel r2)
      = Some ((if bool_decide (batch = []) then [] else [(batch, clock r')]) ++ out) /\ batched window max_window cost (clock r' + cost')%N rest' out) as (out & -> & Hout).
  { destruct closed.
    - exists []. rewrite app_nil_r. split; [done|]. rewrite Hend by done. constructor.
    - destruct (IH r2) as (out & -> & Hout); [cbn; rewrite Hr; apply (f_equal length) in Ha; rewrite length_app in Ha; lia|]. exists out. split; [done|]. by cbn in Hout; rewrite Hr in Hout. }
  eexists. split; [done|]. rewrite Ha. by apply batched_one; [lia|..].
Qed.
End batch_lemmas.

(** *** Nothing that arrives is lost *)

Lemma same_path_spec p q : same_path p q = true <-> path_new p = path_new q.
Proof. unfold same_path. by rewrite bool_decide_eq_true. Qed.

Lemma dedup_covers l p : p ∈ l -> exists q, q ∈ dedup_by same_path l /\ path_new q = path_new p.
Proof.
  induction l as [|x l IH]; cbn [dedup_by]; [by intros ?%elem_of_nil|]. intros [->|Hp]%elem_of_cons; [exists x; split; [by left|done]|].
  destruct (IH Hp) as (q & Hq & E). destruct (dedup_by same_path l) as [|y rest]; [by apply elem_of_nil in Hq|]. destruct (same_path x y) eqn:Hs.
  - apply same_path_spec in Hs. apply elem_of_cons in Hq as [->|Hq]; [exists x; split; [by left|congruence]|]. exists q. split; [by right|done].
  - exists q. split; [by right|done].
Qed.

Lemma dedup_inside l q : q ∈ dedup_by same_path l -> q ∈ l.
Proof.
  induction l as [|x l IH]; cbn [dedup_by]; [done|]. intros [->|Hq]%elem_of_cons; [by left|]. right. apply IH.
  destruct (dedup_by same_path l) as [|y rest]; [by apply elem_of_nil in Hq|]. destruct (same_path x y); [by right|done].
Qed.

Lemma tidy_covers l p : p ∈ l -> exists q, q ∈ tidy l /\ path_new q = path_new p.
Proof. intros Hp. apply dedup_covers. by rewrite (sort_by_perm (cmp := by_key path_new path_order)). Qed.

Lemma tidy_inside l q : q ∈ tidy l -> q ∈ l.
Proof. intros Hq%dedup_inside. by rewrite (sort_by_perm (cmp := by_key path_new path_order)) in Hq. Qed.

Lemma batched_covers window max_window cost c arrived out p :
  batched window max_window cost c arrived out -> p ∈ paths_of arrived -> exists b q, b ∈ out /\ q ∈ b.1 /\ path_new q = path_new p.
Proof.
  induction 1 as [c|c t first taken rest handed out received batch Hh Ht Hg Hb IH]; [by intros ?%elem_of_nil|].
  unfold paths_of. cbn [fmap list_fmap concat snd]. rewrite fmap_app, concat_app, app_assoc. intros [Hp|Hp]%elem_of_app.
  - destruct (tidy_covers _ _ Hp) as (q & Hq & E). change (q ∈ batch) in Hq. exists (batch, handed), q.
    rewrite bool_decide_eq_false_2 by (intros Hn; rewrite Hn in Hq; by apply elem_of_nil in Hq). split; [by left|done].
  - destruct (IH Hp) as (b & q & Hin & Hq). exists b, q. split; [|done]. apply elem_of_app. by right.
Qed.

(** *** Routes and the keys of their pages *)

Lemma clean_app s t : clean (s +:+ t) = clean s && clean t.
Proof. induction s as [|c s IH]; [done|]. cbn. by rewrite IH, andb_assoc. Qed.

Lemma static_head_clean s t : clean s = true -> static_head (s +:+ t) = (fun r => s +:+ r) <$> static_head t.
Proof.
  induction s as [|c s IH]; cbn; [by destruct (static_head t)|]. intros [Hc Hs]%andb_prop. unfold is_dynamic in Hc. apply negb_true_iff in Hc. rewrite Hc, IH by done.
  by destruct (static_head t).
Qed.

Lemma static_head_dirty s t : clean s = false -> exists a c b, s = a +:+ String c b /\ static_head (s +:+ t) = Some a /\ is_dynamic c = true /\ clean a = true.
Proof.
  induction s as [|c s IH]; cbn; [done|]. destruct (is_dynamic c) eqn:Hc; cbn.
  - intros _. unfold is_dynamic in Hc. rewrite Hc. by exists "", c, s.
  - intros Hs. destruct (IH Hs) as (a & c' & b & -> & He & Hsp & Ha). unfold is_dynamic in Hc. rewrite Hc, He.
    exists (String c a), c', b. split_and!; try done. cbn. unfold is_dynamic. by rewrite Hc.
Qed.

Lemma parse_clean seg : starts_with "[" seg = false -> parse_segment seg = Static seg.
Proof.
  intros H. unfold parse_segment. destruct (starts_with "[[..." seg) eqn:E1.
  { apply starts_with_true in E1 as [r ->]. discriminate. }
  destruct (starts_with "[..." seg) eqn:E2; [apply starts_with_true in E2 as [r ->]; discriminate|]. by rewrite H.
Qed.

Lemma clean_parse seg : clean seg = true -> parse_segment seg = Static seg.
Proof. intros H. apply parse_clean. destruct (starts_with "[" seg) eqn:E; [|done]. apply starts_with_true in E as [r ->]. discriminate. Qed.

Definition joined (parts : list string) : string := String.concat "" ((fun p => "/" +:+ p) <$> parts).

Lemma concat_cons x (l : list string) : String.concat "" (x :: l) = x +:+ String.concat "" l.
Proof. destruct l; cbn; [by rewrite sapp_nil_r|done]. Qed.

Lemma joined_cons part parts : joined (part :: parts) = "/" +:+ part +:+ joined parts.
Proof. unfold joined. cbn [fmap list_fmap]. by rewrite concat_cons, sapp_assoc. Qed.

(** Where the fixed text of a segment that is not all fixed ends. *)
Lemma static_head_segment seg segs : clean seg = false ->
  exists a, static_head (joined (seg :: segs)) = Some ("/" +:+ a) /\ clean a = true /\ exists r, seg = a +:+ r.
Proof.
  intros Hc. unfold joined. cbn [fmap list_fmap]. rewrite concat_cons, sapp_assoc.
  destruct (static_head_dirty seg (String.concat "" ((fun p => "/" +:+ p) <$> segs)) Hc) as (a & c & b & Es & He & _ & Ha).
  exists a. split_and!; [by rewrite static_head_clean, He by done|done|by eexists].
Qed.

(** Where the fixed text of a route ends, every path it answers goes on, but for
    the one that ends with it. *)
Lemma static_head_matches segs parts :
  shape_matches (shape_of (parse_segment <$> segs)) parts = true ->
  match static_head (joined segs) with
  | Some prefix => starts_with prefix (joined parts) = true \/
      (prefix = joined parts +:+ "/" /\ clean (joined parts) = true /\
       exists name rest, parse_segment <$> segs = (Static <$> parts) ++ OptionalWildcard name :: rest)
  | None => parts = segs
  end.
Proof.
  revert parts. induction segs as [|seg segs IH]; intros parts Hm; [by destruct parts|].
  cbn [fmap list_fmap] in *. destruct (clean seg) eqn:Hc.
  - rewrite clean_parse in Hm by done. cbn in Hm. destruct parts as [|part parts]; [done|]. apply andb_prop in Hm as [->%String.eqb_eq Hm].
    rewrite !joined_cons, <- !sapp_assoc, static_head_clean by (cbn; exact Hc). specialize (IH _ Hm).
    destruct (static_head _) as [prefix|]; cbn [fmap option_fmap option_map list_fmap]; [|by subst].
    destruct IH as [[r Hr]%starts_with_true|(-> & Hcl & name & rest & Hp)].
    + left. apply starts_with_true. exists r. rewrite Hr; cbn; by rewrite ?sapp_assoc.
    + right. split_and!; [cbn; by rewrite ?sapp_assoc|by rewrite !clean_app, Hcl, Hc|]. exists name, rest. by rewrite clean_parse, Hp.
  - destruct (static_head_segment seg segs Hc) as (a & -> & Ha & r & Hr).
    destruct (starts_with "[" seg) eqn:Hb.
    + assert (a = "") as -> by (apply starts_with_true in Hb as [q ->]; destruct a as [|ca a]; [done|cbn in Hr; injection Hr as <- _; done]).
      destruct parts as [|part parts]; [|left; rewrite joined_cons; apply (starts_with_app "/")].
      right. split_and!; [done..|]. destruct (parse_segment seg) as [| | |name]; try done. by eexists _, _.
    + rewrite parse_clean in Hm by done. cbn in Hm. destruct parts as [|part parts]; [done|]. apply andb_prop in Hm as [->%String.eqb_eq _].
      left. apply starts_with_true. rewrite joined_cons, Hr. eexists. by rewrite !sapp_assoc.
Qed.

Lemma url_joined parts : parts <> [] -> url parts = joined parts.
Proof. by destruct parts. Qed.

(** The key of a page is one of its route's, but for that one path. *)
Lemma answers_matches route path key :
  answers route path -> ~ asks_for_no_rest route path -> cache_key_request_path key = Some path -> cache_key_matches_route key route = true.
Proof.
  intros (Hr & Hp & Hq & Hm) Ho Hk. unfold cache_key_matches_route. rewrite Hk. cbn [default from_option id].
  pose proof (static_head_matches (split_path route) (split_path path) Hm) as H. unfold asks_for_no_rest, parse_pattern in Ho.
  rewrite Hr. destruct (split_path route) as [|seg segs] eqn:Es.
  - assert (split_path path = []) as E by (revert Hm; unfold pattern_matches, parse_pattern; rewrite Es; by destruct (split_path path)).
    by rewrite Hp, E.
  - rewrite (url_joined (seg :: segs)) by done. destruct (static_head (joined (seg :: segs))) as [prefix|].
    + destruct (decide (split_path path = [])) as [E|Hne].
      { rewrite Hp, E. rewrite E in H. destruct H as [H|(-> & _)]; [by destruct prefix|done]. }
      destruct H as [H|(_ & Hcl & Hrest)]; [by rewrite Hp, url_joined|]. destruct Ho. rewrite <- (url_joined _ Hne), <- Hp in Hcl.
      split_and!; [|done|done]. intros ->. by apply Hne.
    + rewrite Hp, H. by apply String.eqb_eq.
Qed.

Lemma parse_segment_static seg value : parse_segment seg = Static value -> seg = value.
Proof. unfold parse_segment. repeat case_match; congruence. Qed.

Lemma parse_segment_optional seg name : parse_segment seg = OptionalWildcard name -> exists r, seg = String "[" r.
Proof.
  intros H. destruct (starts_with "[" seg) eqn:E; [by apply starts_with_true in E|]. by rewrite parse_clean in H.
Qed.

Lemma static_head_optional segs parts name rest :
  parse_segment <$> segs = (Static <$> parts) ++ OptionalWildcard name :: rest -> clean (joined parts) = true ->
  static_head (joined segs) = Some (joined parts +:+ "/").
Proof.
  revert segs. induction parts as [|part parts IH]; intros [|seg segs] H Hc; try done; cbn [fmap list_fmap app] in H; injection H as H1 H2.
  - apply parse_segment_optional in H1 as [r ->]. by rewrite joined_cons.
  - apply parse_segment_static in H1 as ->. rewrite !joined_cons, !clean_app in *. apply andb_prop in Hc as [_ [Hp Hc]%andb_prop].
    rewrite <- !sapp_assoc, static_head_clean, (IH segs H2 Hc) by (cbn; exact Hp). cbn. by rewrite ?sapp_assoc.
Qed.

(** And that one is not. *)
Lemma rest_not_matched route path key :
  canonical_url route -> canonical_url path -> asks_for_no_rest route path -> cache_key_request_path key = Some path ->
  cache_key_matches_route key route = false.
Proof.
  intros Hr Hp (Hne & Hcl & name & rest & He) Hk. unfold cache_key_matches_route. rewrite Hk. cbn [default from_option id].
  assert (path = joined (split_path path)) as E.
  { rewrite <- url_joined; [done|]. intros E. by rewrite Hp, E in Hne. }
  assert (split_path route <> []) as Hroute.
  { intros Ee. unfold parse_pattern in He. rewrite Ee in He. by destruct (split_path path). }
  rewrite Hr, (url_joined (split_path route)), (static_head_optional _ _ _ _ He) by (try done; by rewrite <- E).
  rewrite <- E. apply not_true_iff_false. intros [r Er]%starts_with_true.
  apply (f_equal String.length) in Er. rewrite !slength_sapp in Er. cbn in Er. lia.
Qed.

(** *** What is dropped *)

Lemma invalidate_routes_spec routes c al : stores c al ->
  exists c' al', invalidate_routes routes c = Some c' /\ stores c' al' /\
    forall key, entries c' !! key = if existsb (cache_key_matches_route key) routes then None else entries c !! key.
Proof.
  revert c al. induction routes as [|r routes IH]; intros c al Hs; cbn [invalidate_routes existsb]; [by exists c, al|].
  destruct (retain_matching_spec (fun key => cache_key_matches_route key r) c al Hs) as (n & c1 & E & Hs1 & _ & He & _).
  unfold invalidate_route. rewrite E. cbn [mbind option_bind]. destruct (IH _ _ Hs1) as (c' & al' & -> & Hs' & He'). exists c', al'. split; [done|]. split; [done|].
  intros key. rewrite He', He. destruct (existsb _ routes); [by rewrite orb_true_r|]. rewrite orb_false_r. destruct (cache_key_matches_route key r) eqn:Hm.
  - apply map_lookup_filter_None_2. right. intros x _. cbn. by rewrite Hm.
  - destruct (entries c !! key) as [x|] eqn:Ex; [by apply map_lookup_filter_Some_2|]. apply map_lookup_filter_None_2. by left.
Qed.

Lemma invalidate_all_spec c al : stores c al -> exists n c', invalidate_all c = Some (n, c') /\ stores c' [] /\ forall key, entries c' !! key = None.
Proof.
  intros Hs. destruct (retain_matching_spec (fun _ => true) c al Hs) as (n & c1 & E & Hs1 & _ & He & _). exists n, c1. split; [exact E|].
  split; [|intros key; rewrite He; apply map_lookup_filter_None_2; right; by intros x _].
  destruct (filter _ al) as [|x l] eqn:Ef; [done|]. assert (x ∈ x :: l) as Hx by left. rewrite <- Ef in Hx. apply list_elem_of_filter in Hx as [Hx _]. done.
Qed.

Lemma emptied_client rediscover changed c : value (client_routes (run_slots (invalidate_runtime_caches rediscover changed) c)) = None.
Proof. by destruct rediscover. Qed.

Lemma emptied_all changed c f : value (slot f (run_slots (invalidate_runtime_caches true changed) c)) = None.
Proof. by destruct f. Qed.

Lemma emptied_styles changed rediscover c entry : value (styles (run_slots (invalidate_runtime_caches rediscover changed) c)) = Some entry -> files entry ## changed.
Proof.
  destruct rediscover; [done|]. cbn. unfold empty_styles_of. destruct (value (styles c)) as [e|] eqn:E; [|done]. case_bool_decide as Hd; cbn; [|done]. rewrite E. by intros [= <-].
Qed.

Section edits.
Context (canonicalize : PathBuf -> option PathBuf) (path_exists : PathBuf -> bool) (current_dir : option PathBuf) (number : N -> string) (trace_ack : bool).

#[local] Abbreviation handles := (handle_watch_batch canonicalize path_exists current_dir number trace_ack).
#[local] Abbreviation canonical_of := (canonical_path canonicalize).

(** The files an edit changed, as the stylesheets name them. *)
Definition changed_styles (paths : list PathBuf) : gset Path := list_to_set (path_new ∘ normalize_cache_path canonicalize path_exists current_dir <$> paths).

(** A changed path, or a directory above one, is a file a route was built from. *)
Definition touches (paths : list PathBuf) (route : string) (s : DevState) : Prop :=
  exists p a, p ∈ paths /\ a ∈ ancestors (normalize_source_path canonical_of (path_new p)) /\ built_from (route_graphs (tracker s)) route a.

(** The update of a batch, and whether the routes are looked for again. *)
Definition batch_update (roots : WatchRoots) (paths : list PathBuf) (s : DevState) : HmrUpdate :=
  let update := compute_update canonical_of (path_new <$> paths) (tracker s) in
  if full_reload update || instrumentation_source_changed canonicalize roots paths then as_restart update else update.

Definition rediscovers (roots : WatchRoots) (paths : list PathBuf) (s : DevState) : bool := should_rediscover path_exists (batch_update roots paths s) roots paths.

Lemma update_routes roots paths s : affected_routes (batch_update roots paths s) = affected_routes (compute_update canonical_of (path_new <$> paths) (tracker s)).
Proof. unfold batch_update. by destruct (_ || _). Qed.

Lemma touched_affected roots paths s route : hmr_ok (tracker s) -> paths <> [] -> route ∈ affected_routes (batch_update roots paths s) <-> touches paths route s.
Proof.
  intros Hok Hne. rewrite update_routes. destruct (compute_update_exact canonical_of (path_new <$> paths) (tracker s)) as (_ & _ & H & _); [done|by destruct paths|]. rewrite H. split.
  - intros (q & a & (p & -> & Hp)%list_elem_of_fmap & Ha & Hb). by exists p, a.
  - intros (p & a & Hp & Ha & Hb). exists (path_new p), a. split; [apply list_elem_of_fmap; by exists p|done].
Qed.

(** What a batch leaves, and when it looks for the routes again. *)
Lemma handled root roots at_ms id told paths s al :
  stores (render s) al ->
  exists s' effects c' al', handles root roots at_ms id told paths s = Some (s', effects) /\ render s' = c' /\ stores c' al' /\ tracker s' = tracker s /\
    runtime s' = run_slots (invalidate_runtime_caches (rediscovers roots paths s) (changed_styles paths)) (runtime s) /\
    (forall key, entries c' !! key = if rediscovers roots paths s || existsb (cache_key_matches_route key) (affected_routes (batch_update roots paths s)) then None else entries (render s) !! key) /\
    (RefreshManifest ∈ effects <-> rediscovers roots paths s = true) /\ length (filter (fun e => reports e = true) effects) = 1.
Proof.
  intros Hs. unfold handle_watch_batch. fold (batch_update roots paths s). fold (rediscovers roots paths s). fold (changed_styles paths).
  set (update := batch_update roots paths s).
  assert (exists c' al', (if rediscovers roots paths s then snd <$> invalidate_all (render s) else invalidate_routes (affected_routes update) (render s)) = Some c' /\ stores c' al' /\
    forall key, entries c' !! key = if rediscovers roots paths s || existsb (cache_key_matches_route key) (affected_routes update) then None else entries (render s) !! key) as (c' & al' & -> & Hs' & He).
  { destruct (rediscovers roots paths s).
    - destruct (invalidate_all_spec _ _ Hs) as (n & c' & -> & Hs' & He). by exists c', [].
    - by apply (invalidate_routes_spec _ _ al). }
  cbn [mbind option_bind].
  assert (forall e effects, reports e = true -> effects = (if rediscovers roots paths s then [RefreshManifest] else []) ++ [e] ->
    (RefreshManifest ∈ effects <-> rediscovers roots paths s = true) /\ length (filter (fun e => reports e = true) effects) = 1) as Heff.
  { intros e effects Hr ->. split; [|destruct (rediscovers _ _ _), e; done]. destruct (rediscovers _ _ _).
    - split; [done|by left].
    - split; [|done]. intros He'%list_elem_of_singleton. by subst. }
  destruct (instrumentation_source_changed _ _ _); [|destruct told as [workers|error]]; do 2 eexists; exists c', al'; (split; [reflexivity|]); (split_and!; [done..| |]); (eapply Heff; [|reflexivity]; done).
Qed.

(** ** The claims *)

End edits.

(** C40: However the events of an edit arrive, the coalescing loop ends with them, and hands over batches that take every event once and in order: a batch begins with an event that was waited for, takes what comes within its windows and no later than the longest it may grow, is handed over by then, in order of paths and without repetitions, and the next event went to another batch only because a window passed without one or the batch was full. So no changed path is lost. *)
Theorem edits_are_batched cost r :
  exists out, coalesce_watch_events receiver WATCH_COALESCE_WINDOW WATCH_COALESCE_MAX_WINDOW (handing cost) (S (length (arrivals r))) r = Some out /\
    batched WATCH_COALESCE_WINDOW WATCH_COALESCE_MAX_WINDOW cost (clock r) (arrivals r) out /\
    (forall p, p ∈ paths_of (arrivals r) -> exists b q, b ∈ out /\ q ∈ b.1 /\ path_new q = path_new p).
Proof.
  destruct (coalesced WATCH_COALESCE_WINDOW WATCH_COALESCE_MAX_WINDOW cost (S (length (arrivals r))) r) as (out & E & Hb); [lia|].
  exists out. split; [done|]. split; [done|]. intros p Hp. by eapply batched_covers.
Qed.

(** *** Concrete edits *)

Definition a_page : Path := path_new "/p/app/docs/page.tsx".
Definition docs_tracker (route : string) : HmrState := register_graph (fun _ => None) route LaneServer [a_page] empty_hmr.
Definition kept (key : string) : RenderCache := default (new_cache 4 300) (snd <$> put 0 key "old" (new_cache 4 300)).
Definition dev_state (route key : string) : DevState := mkDev RuntimeCache.default_cache (kept key) (docs_tracker route) [] 1.
Definition edit (route key : string) : option (DevState * list Effect) :=
  handle_watch_batch (fun _ => None) (fun _ => true) None (fun _ => "1") false "/p" (mkRoots "/p" "/p") (fun _ => 0%N) "t" (inl 1%N) ["/p/app/docs/page.tsx"] (dev_state route key).

Lemma kept_stores key : exists al, stores (kept key) al.
Proof.
  destruct (new_cache_ok (fun _ => None) 4 300) as [(al & Hs & Hl) _]. cbn [fst] in Hs, Hl. destruct (put_spec 0 key "old" _ _ Hs Hl) as (c' & E & Hs' & _).
  unfold kept. rewrite E. by eexists.
Qed.

Lemma docs_tracker_ok route : hmr_ok (docs_tracker route).
Proof. exact (run_hmr_ok (ORegister (fun _ => None) route LaneServer [a_page]) empty_hmr empty_hmr_ok). Qed.

(** What an edit leaves of a page. *)
Definition page_after (route key : string) : option (option string) := (fun '(s', _) => RenderCache.value <$> entries (render s') !! key) <$> edit route key.


(** A page of an optional catch-all, asked for without a rest, keeps its document: its path is the route's fixed text without the last slash. *)
Example the_root_of_an_optional_catch_all_is_kept :
  page_after "/docs/[[...slug]]" "ssr:/docs/a" = Some None /\ page_after "/docs/[[...slug]]" "ssr:/docs" = Some (Some "old") /\
  pattern_matches (parse_pattern "/docs/[[...slug]]") (split_path "/docs") = true.
Proof. vm_compute. split_and!; reflexivity. Qed.

(** The batch empties the table of the client router, the routes' pages, and only then tells the workers: what a request makes in between of a worker that has not been told is kept. *)
Example workers_are_told_last :
  exists s' effects, edit "/docs/[slug]" "ssr:/docs/a" = Some (s', effects) /\
    (fun c => RenderCache.value <$> entries c !! "ssr:/docs/a") <$> (snd <$> put 1 "ssr:/docs/a" "made by a worker that was not told" (render s')) = Some (Some "made by a worker that was not told") /\
    (install 1 "table of the old bundles" (slot ClientRoutes (runtime s'))).1 = Taken.
Proof. do 2 eexists. split; [vm_compute; reflexivity|]. vm_compute. split; reflexivity. Qed.

(** Events in pairs become two batches, a long stream is cut at the longest window. *)
Definition stream : list (N * list PathBuf) := (fun n => ((40000000 * n)%N, ["/p/a.tsx"; "/p/b.tsx"])) <$> ([0; 1; 2; 3; 4; 5; 6; 7]%N : list N).

Example bursts :
  coalesce_watch_events receiver WATCH_COALESCE_WINDOW WATCH_COALESCE_MAX_WINDOW (handing (fun _ => 0%N)) 20 (mkReceiver 0 stream None) =
    Some [(["/p/a.tsx"; "/p/b.tsx"], 250000000%N); (["/p/a.tsx"; "/p/b.tsx"], 330000000%N)].
Proof. vm_compute. reflexivity. Qed.

Example update_times :
  format_update_elapsed (fun n => if (n =? 0)%N then "0" else if (n =? 1)%N then "1" else "9") 0 = "0.1ms" /\
  format_update_elapsed (fun n => if (n =? 0)%N then "0" else if (n =? 1)%N then "1" else "9") 999999 = "1.0ms".
Proof. vm_compute. split; reflexivity. Qed.
