(* ===== verification/RenderPipeline.v ===== *)
(** * The render pipeline (ruvyxa_dev_server/src/render_pipeline.rs)

    How a page becomes a document: by strategy, out of the render cache, the
    project's store, the build's files or a worker, once for everyone who asks
    at the same time, and again when [revalidatePath()] named it.

    The code is asynchronous; a function is a program over the operations on what
    requests share, each atomic as a lock or a system call makes it, and any
    number of requests take turns ([Programs.v]).  What a worker, a style sheet or
    the file system answers is arbitrary; a worker's answers and the documents
    read are remembered in a history, so that what a document was made from can be
    said.  Dropping a request releases what it claimed.  Logging is left out. *)
From stdpp Require Import relations.
From S2P Require Import Prelude RustStr Utf8 Programs Paths PathBuf Manifest Order Diagnostics RenderCache Hmr ClientIp WorkerProtocol Response StaticAssets HtmlDocument I18n.

(** ** Definitions *)

(** The part of [ServerConfig] rendering reads; [data_cache_handler] is whether one is declared. *)
Record ServerConfig := mkServerConfig {
  project_root : PathBuf;
  config_app_dir : PathBuf;
  prerender_dir : PathBuf;
  watch : bool;
  error_overlay : bool;
  data_cache_handler : bool;
  i18n : option I18nRouting;
}.

(** *** Operations *)

(** [PostedForm] and [PageRequestContext] *)
Record PostedForm := mkPostedForm { form_content_type : string; form_body : string }.

Record PageRequestContext := mkPageRequest {
  request_path : string;
  request_target : string;
  request_headers : list (string * string);
  request_method : string;
  form_action : option PostedForm;
}.

(** [RenderedPage] *)
Record RenderedPage := mkRenderedPage { document : CachedDocument; page_request_scoped : bool }.

(** [RenderedPage::shared] *)
Definition shared_page (d : CachedDocument) : RenderedPage := mkRenderedPage d false.

(** [RenderClaim]; a follower that comes after the leader's one message will not see it. *)
Inductive RenderClaim := Leader | Follower (channel : N) (late : bool).

(** A background revalidation. *)
Record Revalidation := mkRevalidation {
  revalidate_route : RouteEntry;
  revalidate_request : string;
  revalidate_params : RouteParams;
  revalidate_styles : string;
  revalidate_key : string;
}.

(** What a program asks of what is shared: the sections of the render cache, the flights, the slots, a worker, the file system. *)
Inductive Op :=
  | CacheRead (key : string) | CacheContains (key : string) | CacheReadStale (key : string)
  | CountHit | CountMiss | CachePromote (key : string) | CacheExpire (key : string)
  | CachePut (key text : string) | ForcedClaim (path : string) | AcknowledgeForced (path : string) (claim : ForcedRevalidationClaim)
  | CacheDropPath (path : string) | CacheMark (path : string) | CacheClear | CacheFailClosed | NewDocument (text : string)
  | FlightClaim (key : string) | FlightPublish (d : CachedDocument) | Release | FlightReceive (channel : N) (late : bool)
  | RendersRequestScoped (route : string) | MarkRequestScoped (route : string)
  | SpawnRevalidation (r : Revalidation)
  | NextRequestId | AskWorker (r : WorkerRequest)
  | ReadPrerendered (file : PathBuf) | WritePrerendered (file : PathBuf) (text : string)
  | AssetLinks | PrebuiltAssets (route : string)
  | RegisterInputs (lane : DependencyGraph) (route : string) (version : option string) (inputs : list string).

Definition Ans (op : Op) : Type :=
  match op with
  | CacheRead _ => option CachedDocument
  | CacheReadStale _ => option (CachedDocument * N)
  | CacheContains _ | RendersRequestScoped _ | SpawnRevalidation _ | WritePrerendered _ _ => bool
  | CachePut _ _ | NewDocument _ => CachedDocument
  | ForcedClaim _ => option ForcedRevalidationClaim
  | FlightClaim _ => RenderClaim
  | FlightReceive _ _ => option CachedDocument
  | NextRequestId | AssetLinks => string
  | AskWorker _ => WorkerResponse + RuvyxaError
  | ReadPrerendered _ => option string
  | PrebuiltAssets _ => option ClientAssets
  | _ => unit
  end.

Abbreviation Async := (Prog Op Ans).
#[local] Abbreviation act := (@Programs.act Op Ans).
#[local] Open Scope prog_scope.

(** *** The render cache's operations, a section at a time *)

(** [RenderCache::get_document] *)
Definition get_document (key : string) : Async (option CachedDocument) :=
  cached ⇐ act (CacheRead key);
  match cached with
  | Some value => act CountHit ;;; act (CachePromote key) ;;; Ret (Some value)
  | None =>
      present ⇐ act (CacheContains key);
      (if present then act (CacheExpire key) else Ret tt) ;;; act CountMiss ;;; Ret None
  end.

(** [RenderCache::get_stale_with_age] *)
Definition get_stale_with_age (key : string) : Async (option (CachedDocument * N)) :=
  cached ⇐ act (CacheReadStale key);
  match cached with
  | Some value => act CountHit ;;; act (CachePromote key) ;;; Ret (Some value)
  | None => Ret None
  end.

(** [RenderCache::revalidate_path] and [RenderCache::revalidate_all_paths] *)
Definition revalidate_path (path : string) : Async unit := act (CacheDropPath path) ;;; act (CacheMark path).
Definition revalidate_all_paths : Async unit := act CacheClear ;;; act CacheFailClosed.

(** *** Pure decisions *)

(** [insert_document_cache_control] *)
Definition insert_document_cache_control (route : RouteEntry) (request_scoped : bool) (r : Response) : Response :=
  insert_header "cache-control" (if request_scoped then "no-store" else document_cache_control (strategy (render route)) (revalidate (render route))) r.

(** [not_modified_document] *)
Definition not_modified_document (etag : string) (route : RouteEntry) (request_scoped : bool) : Response :=
  insert_header "vary" "accept-encoding" (insert_document_cache_control route request_scoped (insert_header "etag" etag (status_response 304))).

(** [streams_document] *)
Definition streams_document (route : RouteEntry) : bool :=
  server_components (render route) && bool_decide (strategy (render route) = Manifest.Ssr).

(** [posted_form] *)
Definition posted_form (route : RouteEntry) (method : string) (headers : HeaderMap) (body : option string) : option PostedForm :=
  if negb (server_components (render route)) || negb (eq_ignore_case method "POST") then None
  else
    body ← (match body with Some bytes => if is_empty_str bytes then None else Some bytes | None => None end);
    content_type ← get_str headers "content-type";
    let essence := to_ascii_lowercase (trim (default "" (head (split_char ";" content_type)))) in
    if String.eqb essence "multipart/form-data" || String.eqb essence "application/x-www-form-urlencoded"
    then Some (mkPostedForm content_type body) else None.

(** [missing_default_export_diagnostic] *)
Definition missing_default_export_diagnostic (file message : string) : option Diagnostic :=
  let lowered := to_ascii_lowercase message in
  let mentions_default := contains_str "'default'" lowered || contains_str (dq +:+ "default" +:+ dq) lowered || contains_str "named default" lowered in
  let is_missing_export := contains_str "does not provide an export" lowered || contains_str "no matching export" lowered || contains_str "has no exported member" lowered in
  if mentions_default && is_missing_export
  then Some (suggest "Add `export default function Page() { return <main /> }`." (at_file file
         (explain "Every TypeScript/JavaScript page must export a default component. Markdown and MDX pages receive one from the content compiler."
            (diagnostic "RUV1004" "Page is missing a default export"))))
  else None.

(** [StoredDocument], [stored_document_from_response] and [serve_stored_document] *)
Inductive StoredDocument := StoredMiss | Held (text : string) (is_stale : bool).

Definition stored_document_from_response (response : WorkerResponse) : StoredDocument :=
  match WorkerProtocol.html response with
  | Some text => if response_ok response then Held text (bool_decide (stale response = Some true)) else StoredMiss
  | None => StoredMiss
  end.

Definition serve_stored_document (answer : StoredDocument) (s : RenderStrategy) : option (string * bool) :=
  match answer with
  | StoredMiss => None
  | Held text is_stale => Some (text, is_stale && bool_decide (s = Isr))
  end.

Definition MAX_REVALIDATED_PATHS : nat := 64.
Definition MAX_REVALIDATED_PATH_LEN : nat := 2048.

(** [path.encode_utf16().count()] *)
Fixpoint utf16_count (s : string) : nat :=
  match s with
  | "" => 0
  | String a rest => (if is_continuation a then 0 else if (240 <=? N_of_ascii a)%N then 2 else 1) + utf16_count rest
  end.

(** [apply_revalidations] *)
Fixpoint apply_each (paths : list string) : Async unit :=
  match paths with
  | [] => Ret tt
  | path :: rest =>
      if negb (starts_with "/" path) || (MAX_REVALIDATED_PATH_LEN <? utf16_count path) then apply_each rest
      else revalidate_path path ;;; apply_each rest
  end.

Definition apply_revalidations (paths : option (list string)) : Async unit :=
  match paths with
  | None => Ret tt
  | Some paths => if MAX_REVALIDATED_PATHS <? length paths then revalidate_all_paths else apply_each paths
  end.

(** [await_shared_document] *)
Definition await_shared_document (channel : N) (late : bool) (cache_key : string) : Async (option CachedDocument) :=
  received ⇐ act (FlightReceive channel late);
  match received with
  | Some d => Ret (Some d)
  | None => get_document cache_key
  end.

(** [single_flight_document]; [render] is the closure. *)
Definition single_flight_document (cache_key : string) (render : Async (CachedDocument + RuvyxaError)) : Async (CachedDocument + RuvyxaError) :=
  claim ⇐ act (FlightClaim cache_key);
  match claim with
  | Follower channel late =>
      received ⇐ await_shared_document channel late cache_key;
      match received with Some d => Ret (inl d) | None => render end
  | Leader =>
      rendered ⇐ render;
      (match rendered with inl d => act (FlightPublish d) | inr _ => Ret tt end) ;;;
      act Release ;;; Ret rendered
  end.

(** [register_server_hmr_inputs] *)
Definition register_server_hmr_inputs (config : ServerConfig) (route : string) (response : WorkerResponse) : Async unit :=
  match inputs response with
  | Some files => if watch config then act (RegisterInputs LaneServer route (inputs_version response) files) else Ret tt
  | None => Ret tt
  end.

Section pipeline.
(** The configuration; [serde_json]'s printers; the text of the hot-reload client; base64; and the real file a path of the prerender directory leads to, if it is inside. *)
Context (config : ServerConfig) (params_json : RouteParams -> string) (to_string : Value -> string) (hmr_client_script : string) (base64_encode : string -> string).
Context (contained : PathBuf -> option PathBuf).

(** *** Workers (worker_pool.rs) *)

(** [render_ssr] *)
Definition ssr_request (id : string) (route : RouteEntry) (request : PageRequestContext) (params : RouteParams) : WorkerRequest :=
  WorkerProtocol.Ssr id (project_root config) (config_app_dir config) (route_file route) (request_path request) (request_target request) (route_path route) params
    (request_headers request) (map_bytes upper_byte (request_method request)) (server_components (render route))
    (form_content_type <$> form_action request) (base64_encode ∘ form_body <$> form_action request).

(** [render_ssg] *)
Definition ssg_request (id : string) (route : RouteEntry) (path : string) (params : RouteParams) (mode : string) (with_components : bool) : WorkerRequest :=
  WorkerProtocol.Ssg id (project_root config) (config_app_dir config) (route_file route) path (route_path route) params mode false with_components.

(** A request gets its identifier and goes to a worker. *)
Definition send_with_id (request : string -> WorkerRequest) : Async (WorkerResponse + RuvyxaError) :=
  id ⇐ act NextRequestId; act (AskWorker (request id)).

(** *** Documents *)

(** The parameters as a value: a map in the order of its keys. *)
Definition params_value (params : RouteParams) : Value := VObject (sort_by (by_key fst String.compare) (map_to_list params)).

(** [rsc_payload_block] *)
Definition rsc_payload_part (route : RouteEntry) (payload : option string) : string :=
  if ships_client_bundle (render route) then match payload with Some p => HtmlDocument.rsc_payload_block to_string p | None => "" end else "".

Definition hmr_part : string := if watch config then hmr_client_script else "".

(** The scripts of a page: what asks for its client bundle. *)
Definition client_part (route : RouteEntry) (path : string) (params : RouteParams) (prebuilt : option ClientAssets) : string :=
  client_hydration_script to_string (watch config) prebuilt route path (Some (params_value params)).

(** A rendered text with its head, its data and its scripts. *)
Definition page_document (route : RouteEntry) (path : string) (params : RouteParams) (styles asset_links rendered payload : string) (prebuilt : option ClientAssets) : string :=
  compose_localized_document rendered (document_head_defaults rendered asset_links +:+ styles)
    (payload +:+ client_part route path params prebuilt +:+ hmr_part) (i18n config) route path params.

(** [client_hydration_script]'s look at the client build report. *)
Definition prebuilt_assets (route : RouteEntry) : Async (option ClientAssets) :=
  if ships_client_bundle (render route) && negb (watch config) then act (PrebuiltAssets (route_path route)) else Ret None.

(** A page from a worker's answer. *)
Definition finish_page (route : RouteEntry) (path : string) (params : RouteParams) (styles rendered payload : string) : Async string :=
  asset_links ⇐ act AssetLinks;
  prebuilt ⇐ prebuilt_assets route;
  Ret (page_document route path params styles asset_links rendered payload prebuilt).

(** *** Stored documents *)

(** [prerendered_document_path] *)
Definition prerendered_document_path (path : string) : option PathBuf :=
  let sanitized := trim_start_while (Ascii.eqb "/") path in
  if negb (is_empty_str sanitized) && negb (is_safe_relative_path sanitized) then None
  else if contains_str "../" sanitized then None
  else Some (if is_empty_str sanitized then join_path (prerender_dir config) "index.html" else join_path (join_path (prerender_dir config) sanitized) "index.html").

(** [serve_prerendered_html] and its asynchronous wrapper *)
Definition read_prerendered_html (path : string) : Async (option string) :=
  match prerendered_document_path path ≫= contained with
  | Some file => act (ReadPrerendered file)
  | None => Ret None
  end.

(** [store_prerendered_html] *)
Definition store_prerendered_html (path cache_key : string) : Async (option CachedDocument) :=
  read ⇐ read_prerendered_html path;
  match read with
  | Some text => d ⇐ act (CachePut cache_key text); Ret (Some (d : CachedDocument))
  | None => Ret None
  end.

(** [read_document_through_handler] *)
Definition read_document_through_handler (path : string) (window : option N) : Async StoredDocument :=
  answer ⇐ send_with_id (fun id => DocumentRead id path window);
  Ret (match answer with
       | inl response => if response_ok response then stored_document_from_response response else StoredMiss
       | inr _ => StoredMiss
       end).

(** [write_document_through_handler] *)
Definition write_document_through_handler (path text : string) (window : option N) (forced : bool) : Async unit :=
  send_with_id (fun id => DocumentWrite id path text window forced) ;;; Ret tt.

(** [store_document] *)
Definition store_document (path cache_key : string) (s : RenderStrategy) (window : option N) : Async (option (CachedDocument * bool)) :=
  stored ⇐ (if data_cache_handler config then answer ⇐ read_document_through_handler path window; Ret (serve_stored_document answer s) else Ret None);
  match stored with
  | Some (text, refresh) => d ⇐ act (CachePut cache_key text); Ret (Some (d : CachedDocument, refresh))
  | None =>
      d ⇐ store_prerendered_html path cache_key;
      Ret ((fun d => (d, false)) <$> d)
  end.

(** [settle_prerendered_artifact] *)
Definition settle_prerendered_artifact (path text : string) : Async bool :=
  match prerendered_document_path path with
  | None => Ret true
  | Some candidate => match contained candidate with None => Ret true | Some file => act (WritePrerendered file text) end
  end.

(** [settle_forced_revalidation] *)
Definition settle_forced_revalidation (path : string) (claim : option ForcedRevalidationClaim) (text : string) (window : option N) : Async unit :=
  match claim with
  | None => Ret tt
  | Some claim =>
      (if negb (watch config) && data_cache_handler config then write_document_through_handler path text window true else Ret tt) ;;;
      settled ⇐ (if negb (watch config) then settle_prerendered_artifact path text else Ret true);
      if settled then act (AcknowledgeForced path claim) else Ret tt
  end.

(** *** Strategies *)

(** What a failed worker answer becomes. *)
Definition render_failure (code title fallback : string) (route : RouteEntry) (response : WorkerResponse) : RuvyxaError :=
  EDiagnostic (at_file (route_file route)
    (explain (label_with_code (default code (response_code response)) (default fallback (response_message response))) (diagnostic code title))).

(** A prerender through a worker: [render_page_ssg_fresh] and [render_page_ppr_fresh] from the call on. *)
Definition render_through_worker (route : RouteEntry) (path : string) (params : RouteParams) (styles mode : string) (with_components : bool)
    (failure : WorkerResponse -> RuvyxaError) (no_html : string) : Async (string + RuvyxaError) :=
  response ⇐? send_with_id (fun id => ssg_request id route path params mode with_components);
  if negb (response_ok response) then Ret (inr (failure response))
  else
    register_server_hmr_inputs config (route_path route) response ;;;
    match WorkerProtocol.html response with
    | None => Ret (inr (EMessage no_html))
    | Some rendered =>
        html ⇐ finish_page route path params styles rendered (if with_components then rsc_payload_part route (rsc_payload response) else "");
        Ret (inl html)
    end.

(** [render_page_ssg_fresh] *)
Definition render_page_ssg_fresh (route : RouteEntry) (path : string) (params : RouteParams) (styles cache_key : string) (forced : option ForcedRevalidationClaim)
    : Async (CachedDocument + RuvyxaError) :=
  stored ⇐ (if bool_decide (forced = None) && negb (watch config) then store_document path cache_key Manifest.Ssg None else Ret None);
  match stored with
  | Some (d, _) => Ret (inl d)
  | None =>
      html ⇐? render_through_worker route path params styles "full" (server_components (render route))
                (render_failure "RUV1500" "SSG render failed" "SSG render failed" route) "SSG render produced no HTML";
      d ⇐ act (CachePut cache_key html);
      settle_forced_revalidation path forced (RenderCache.html d) None ;;;
      Ret (inl (d : CachedDocument))
  end.

(** [render_page_ssg] *)
Definition render_page_ssg (route : RouteEntry) (path : string) (params : RouteParams) (styles : string) : Async (CachedDocument + RuvyxaError) :=
  let cache_key := page_cache_key params_json "ssg:" path params in
  cached ⇐ get_document cache_key;
  match cached with
  | Some d => Ret (inl d)
  | None =>
      forced ⇐ act (ForcedClaim path);
      match forced with
      | Some _ => render_page_ssg_fresh route path params styles cache_key forced
      | None => single_flight_document cache_key (render_page_ssg_fresh route path params styles cache_key None)
      end
  end.

(** [render_isr_background] *)
Definition render_isr_background (route : RouteEntry) (path : string) (params : RouteParams) (styles : string) : Async (string + RuvyxaError) :=
  render_through_worker route path params styles "full" (server_components (render route))
    (fun response => EMessage ("ISR revalidation failed: " +:+ default "" (response_message response))) "ISR render produced no HTML".

(** The task of [spawn_isr_revalidation]. *)
Definition revalidation_task (r : Revalidation) : Async unit :=
  html ⇐ render_isr_background (revalidate_route r) (revalidate_request r) (revalidate_params r) (revalidate_styles r);
  (match html with
   | inl html =>
       (if data_cache_handler config
        then write_document_through_handler (revalidate_request r) html (Some (isr_window (revalidate (render (revalidate_route r))))) false else Ret tt) ;;;
       act (CachePut (revalidate_key r) html) ;;; Ret tt
   | inr _ => Ret tt
   end) ;;;
  act Release.

(** [spawn_isr_revalidation] *)
Definition spawn_isr_revalidation (route : RouteEntry) (path : string) (params : RouteParams) (styles cache_key : string) : Async unit :=
  act (SpawnRevalidation (mkRevalidation route path params styles cache_key)) ;;; Ret tt.

(** [render_page_isr_fresh] *)
Definition render_page_isr_fresh (route : RouteEntry) (path : string) (params : RouteParams) (styles cache_key : string) (forced : option ForcedRevalidationClaim)
    : Async (CachedDocument + RuvyxaError) :=
  stored ⇐ (if bool_decide (forced = None) && negb (watch config)
            then store_document path cache_key Isr (Some (isr_window (revalidate (render route)))) else Ret None);
  match stored with
  | Some (d, refresh) => (if refresh : bool then spawn_isr_revalidation route path params styles cache_key else Ret tt) ;;; Ret (inl d)
  | None =>
      html ⇐? render_isr_background route path params styles;
      d ⇐ act (CachePut cache_key html);
      settle_forced_revalidation path forced (RenderCache.html d) (Some (isr_window (revalidate (render route)))) ;;;
      Ret (inl (d : CachedDocument))
  end.

(** [render_page_isr] *)
Definition render_page_isr (route : RouteEntry) (path : string) (params : RouteParams) (styles : string) : Async (CachedDocument + RuvyxaError) :=
  let cache_key := page_cache_key params_json "isr:" path params in
  let revalidate_after := (default 60 (revalidate (render route)) * nanos_per_second)%N in
  cached ⇐ get_stale_with_age cache_key;
  match cached with
  | Some (d, age) =>
      (if (revalidate_after <=? age)%N then spawn_isr_revalidation route path params styles cache_key else Ret tt) ;;; Ret (inl d)
  | None =>
      forced ⇐ act (ForcedClaim path);
      match forced with
      | Some _ => render_page_isr_fresh route path params styles cache_key forced
      | None => single_flight_document cache_key (render_page_isr_fresh route path params styles cache_key None)
      end
  end.

(** The shell of [render_page_csr]. *)
Definition csr_shell (route : RouteEntry) (path : string) (params : RouteParams) (styles asset_links : string) (prebuilt : option ClientAssets) : string :=
  "<!doctype html>" +:+ nl +:+ "<html>" +:+ nl +:+ "<head>" +:+ nl +:+
  "  <meta charset=" +:+ dq +:+ "utf-8" +:+ dq +:+ " />" +:+ nl +:+
  "  <meta name=" +:+ dq +:+ "viewport" +:+ dq +:+ " content=" +:+ dq +:+ "width=device-width, initial-scale=1" +:+ dq +:+ " />" +:+ nl +:+
  "  " +:+ asset_links +:+ nl +:+ "  " +:+ styles +:+ nl +:+ "  " +:+ bootstrap_data_block to_string (Some (params_value params)) path true +:+ nl +:+
  "</head>" +:+ nl +:+ "<body>" +:+ nl +:+ "  <div id=" +:+ dq +:+ "__ruvyxa" +:+ dq +:+ "></div>" +:+ nl +:+
  "  " +:+ client_part route path params prebuilt +:+ nl +:+ "  " +:+ hmr_part +:+ nl +:+ "</body>" +:+ nl +:+ "</html>".

(** [render_page_csr] *)
Definition render_page_csr (route : RouteEntry) (path : string) (params : RouteParams) (styles : string) : Async (CachedDocument + RuvyxaError) :=
  let cache_key := page_cache_key params_json "csr:" path params in
  cached ⇐ get_document cache_key;
  match cached with
  | Some d => Ret (inl d)
  | None =>
      forced ⇐ act (ForcedClaim path);
      stored ⇐ (if bool_decide (forced = None) && negb (watch config) then store_document path cache_key Manifest.Csr None else Ret None);
      match stored with
      | Some (d, _) => Ret (inl d)
      | None =>
          asset_links ⇐ act AssetLinks;
          prebuilt ⇐ prebuilt_assets route;
          let shell := csr_shell route path params styles asset_links prebuilt in
          match forced with
          | Some _ =>
              d ⇐ act (CachePut cache_key shell);
              settle_forced_revalidation path forced (RenderCache.html d) None ;;;
              Ret (inl (d : CachedDocument))
          | None => d ⇐ act (NewDocument shell); Ret (inl (d : CachedDocument))
          end
      end
  end.

(** [render_page_ppr_fresh] *)
Definition render_page_ppr_fresh (route : RouteEntry) (path : string) (params : RouteParams) (styles cache_key : string) (forced : option ForcedRevalidationClaim)
    : Async (CachedDocument + RuvyxaError) :=
  stored ⇐ (if bool_decide (forced = None) && negb (watch config) then store_document path cache_key Ppr None else Ret None);
  match stored with
  | Some (d, _) => Ret (inl d)
  | None =>
      html ⇐? render_through_worker route path params styles "ppr" false
                (render_failure "RUV1550" "PPR render failed" "PPR render failed" route) "PPR render produced no HTML";
      d ⇐ act (CachePut cache_key html);
      settle_forced_revalidation path forced (RenderCache.html d) None ;;;
      Ret (inl (d : CachedDocument))
  end.

(** [render_page_ppr] *)
Definition render_page_ppr (route : RouteEntry) (path : string) (params : RouteParams) (styles : string) : Async (CachedDocument + RuvyxaError) :=
  let cache_key := page_cache_key params_json "ppr:" path params in
  cached ⇐ get_document cache_key;
  match cached with
  | Some d => Ret (inl d)
  | None =>
      forced ⇐ act (ForcedClaim path);
      match forced with
      | Some _ => render_page_ppr_fresh route path params styles cache_key forced
      | None => single_flight_document cache_key (render_page_ppr_fresh route path params styles cache_key None)
      end
  end.

(** [render_page_pooled_fresh]'s error *)
Definition ssr_failure (route : RouteEntry) (response : WorkerResponse) : RuvyxaError :=
  let message := default "React SSR failed without an error message" (response_message response) in
  match missing_default_export_diagnostic (route_file route) message with
  | Some d => EDiagnostic d
  | None =>
      let explanation := match response_stack response with Some stack => message +:+ nl +:+ nl +:+ stack | None => message end in
      EDiagnostic (suggest "Check the page component, its imports, and whether React dependencies are installed."
        (at_file (route_file route) (explain (label_with_code (default "RUV1100" (response_code response)) explanation) (diagnostic "RUV1100" "React SSR failed"))))
  end.

(** Whether a render answers for one visitor. *)
Definition reads_request (route : RouteEntry) (request : PageRequestContext) (response : WorkerResponse) : bool :=
  default false (request_scoped response) || bool_decide (is_Some (form_action request)) || force_dynamic (render route).

(** [render_page_pooled_fresh] *)
Definition render_page_pooled_fresh (route : RouteEntry) (request : PageRequestContext) (params : RouteParams) (styles cache_key : string) : Async (RenderedPage + RuvyxaError) :=
  response ⇐? send_with_id (fun id => ssr_request id route request params);
  if negb (response_ok response) then Ret (inr (ssr_failure route response))
  else
    register_server_hmr_inputs config (route_path route) response ;;;
    (if bool_decide (is_Some (form_action request)) then apply_revalidations (response_revalidate response) else Ret tt) ;;;
    match WorkerProtocol.html response with
    | None => Ret (inr (EMessage "React SSR completed without HTML"))
    | Some rendered =>
        html ⇐ finish_page route (request_path request) params styles rendered (rsc_payload_part route (rsc_payload response));
        if reads_request route request response
        then d ⇐ act (NewDocument html); Ret (inl (mkRenderedPage d true))
        else d ⇐ act (CachePut cache_key html); Ret (inl (shared_page d))
    end.

(** [render_page_pooled] *)
Definition render_page_pooled (route : RouteEntry) (request : PageRequestContext) (params : RouteParams) (styles : string) : Async (RenderedPage + RuvyxaError) :=
  let cache_key := ssr_cache_key params_json (request_path request) params in
  let cacheable := bool_decide (form_action request = None) && negb (force_dynamic (render route)) in
  let fresh := render_page_pooled_fresh route request params styles cache_key in
  cached ⇐ (if cacheable then get_document cache_key else Ret None);
  match cached with
  | Some d => Ret (inl (shared_page d))
  | None =>
      alone ⇐ (if cacheable then act (RendersRequestScoped (route_path route)) else Ret true);
      if alone : bool then fresh
      else
        claim ⇐ act (FlightClaim cache_key);
        match claim with
        | Follower channel late =>
            received ⇐ await_shared_document channel late cache_key;
            match received with Some d => Ret (inl (shared_page d)) | None => fresh end
        | Leader =>
            page ⇐ fresh;
            (match page with
             | inl rendered => if page_request_scoped rendered then act (MarkRequestScoped (route_path route)) else act (FlightPublish (document rendered))
             | inr _ => Ret tt
             end) ;;;
            act Release ;;; Ret page
        end
  end.

(** [.map(RenderedPage::shared)] *)
Definition shared_result (r : CachedDocument + RuvyxaError) : RenderedPage + RuvyxaError :=
  match r with inl d => inl (shared_page d) | inr e => inr e end.

(** [render_page_by_strategy] *)
Definition render_page_by_strategy (route : RouteEntry) (request : PageRequestContext) (params : RouteParams) (styles : string) : Async (RenderedPage + RuvyxaError) :=
  match strategy (render route) with
  | Manifest.Ssr =>
      forced ⇐ act (ForcedClaim (request_path request));
      page ⇐? render_page_pooled route request params styles;
      (match forced with Some claim => act (AcknowledgeForced (request_path request) claim) | None => Ret tt end) ;;;
      Ret (inl page)
  | Manifest.Ssg => r ⇐ render_page_ssg route (request_path request) params styles; Ret (shared_result r)
  | Isr => r ⇐ render_page_isr route (request_path request) params styles; Ret (shared_result r)
  | Manifest.Csr => r ⇐ render_page_csr route (request_path request) params styles; Ret (shared_result r)
  | Ppr => r ⇐ render_page_ppr route (request_path request) params styles; Ret (shared_result r)
  end.

(** The client bundle of a page: [render_client_bundle_pooled] from the lookup on. *)
Definition render_client_bundle (route : RouteEntry) (path : string) (params : RouteParams) : Async (CachedDocument + RuvyxaError) :=
  let cache_key := client_cache_key params_json path params in
  cached ⇐ get_document cache_key;
  match cached with
  | Some d => Ret (inl d)
  | None =>
      response ⇐? send_with_id (fun id => WorkerProtocol.Client id (project_root config) (config_app_dir config) (route_file route) path (route_path route) params (server_components (render route)));
      if negb (response_ok response) then
        let message := default "Client bundling failed without an error message" (response_message response) in
        let explanation := match response_stack response with Some stack => message +:+ nl +:+ nl +:+ stack | None => message end in
        Ret (inr (EDiagnostic (suggest "Check the page component, its browser-safe imports, and React dependencies."
          (explain (label_with_code (default "RUV1300" (response_code response)) explanation) (diagnostic "RUV1300" "Client hydration bundling failed")))))
      else
        (match inputs response with
         | Some files => if watch config then act (RegisterInputs LaneClient (route_path route) (inputs_version response) files) else Ret tt
         | None => Ret tt
         end) ;;;
        match script response with
        | None => Ret (inr (EMessage "Client renderer completed without script output"))
        | Some text => d ⇐ act (CachePut cache_key text); Ret (inl (d : CachedDocument))
        end
  end.

(** *** What the programs share *)

(** A broadcast channel of one flight: what was sent, and whether every sender is gone. *)
Record Channel := mkChannel { sent : option CachedDocument; closed : bool }.

(** What a request, or a background task, has claimed. *)
Inductive Claim := NoClaim | LeaderOf (key : string) (channel : N) | SlotOf (key : string).

(** What happened, and by whom. *)
Inductive Event :=
  | Asked (by_whom : N) (r : WorkerRequest) (answer : WorkerResponse + RuvyxaError)
  | ReadBuild (by_whom : N) (file : PathBuf) (text : string)
  | Replaced (by_whom : N) (file : PathBuf) (text : string)
  | Looked (by_whom : N) (path : string) (claim : option ForcedRevalidationClaim)
  | Opened (channel : N) (key : string)
  | Retired (by_whom : N) (path : string) (claim : ForcedRevalidationClaim).

Record Host := mkHost {
  cache : RenderCache;
  in_flight : gmap string N;
  channels : gmap N Channel;
  request_scoped_routes : gset string;
  isr_revalidating : gset string;
  claims : gmap N Claim;
  prerendered : gmap PathBuf string;
  hmr : HmrState;
  request_counter : N;
  events : list Event;
}.

Definition with_cache x (s : Host) : Host :=
  mkHost x (in_flight s) (channels s) (request_scoped_routes s) (isr_revalidating s) (claims s) (prerendered s) (hmr s) (request_counter s) (events s).
Definition with_flight x y (s : Host) : Host :=
  mkHost (cache s) x y (request_scoped_routes s) (isr_revalidating s) (claims s) (prerendered s) (hmr s) (request_counter s) (events s).
Definition with_scoped x (s : Host) : Host :=
  mkHost (cache s) (in_flight s) (channels s) x (isr_revalidating s) (claims s) (prerendered s) (hmr s) (request_counter s) (events s).
Definition with_revalidating x (s : Host) : Host :=
  mkHost (cache s) (in_flight s) (channels s) (request_scoped_routes s) x (claims s) (prerendered s) (hmr s) (request_counter s) (events s).
Definition with_claims x (s : Host) : Host :=
  mkHost (cache s) (in_flight s) (channels s) (request_scoped_routes s) (isr_revalidating s) x (prerendered s) (hmr s) (request_counter s) (events s).
Definition with_prerendered x (s : Host) : Host :=
  mkHost (cache s) (in_flight s) (channels s) (request_scoped_routes s) (isr_revalidating s) (claims s) x (hmr s) (request_counter s) (events s).
Definition with_hmr x (s : Host) : Host :=
  mkHost (cache s) (in_flight s) (channels s) (request_scoped_routes s) (isr_revalidating s) (claims s) (prerendered s) x (request_counter s) (events s).
Definition with_counter x (s : Host) : Host :=
  mkHost (cache s) (in_flight s) (channels s) (request_scoped_routes s) (isr_revalidating s) (claims s) (prerendered s) (hmr s) x (events s).
Definition record_event (e : Event) (s : Host) : Host :=
  mkHost (cache s) (in_flight s) (channels s) (request_scoped_routes s) (isr_revalidating s) (claims s) (prerendered s) (hmr s) (request_counter s) (events s ++ [e]).

(** A server that starts, over the documents its build left. *)
Definition started_host (capacity ttl_secs : N) (built : gmap PathBuf string) : Host :=
  mkHost (new_cache capacity ttl_secs) ∅ ∅ ∅ ∅ ∅ built (mkHmr ∅ ∅ ∅) 1 [].

Definition claim_of (s : Host) (id : N) : Claim := default NoClaim (claims s !! id).
Definition set_claim (id : N) (c : Claim) (s : Host) : Host :=
  with_claims (match c with NoClaim => delete id (claims s) | _ => <[id := c]> (claims s) end) s.

(** [RenderSingleFlight::claim]; the number of a leader's channel is one no channel has had. *)
Definition flight_claim (id : N) (key : string) (s : Host) : RenderClaim * Host :=
  match in_flight s !! key with
  | Some channel => (Follower channel (bool_decide (is_Some (channels s !! channel ≫= sent))), s)
  | None =>
      let channel := fresh (dom (channels s)) in
      (Leader, record_event (Opened channel key) (set_claim id (LeaderOf key channel)
                 (with_flight (<[key := channel]> (in_flight s)) (<[channel := mkChannel None false]> (channels s)) s)))
  end.

(** [RenderLeader::publish] *)
Definition flight_publish (id : N) (d : CachedDocument) (s : Host) : Host :=
  match claim_of s id with
  | LeaderOf _ channel => with_flight (in_flight s) (alter (fun c => mkChannel (Some d) (closed c)) channel (channels s)) s
  | _ => s
  end.

(** [impl Drop for RenderLeader] and [impl Drop for IsrRevalidationSlot] *)
Definition release (id : N) (s : Host) : Host :=
  match claim_of s id with
  | LeaderOf key channel =>
      set_claim id NoClaim (with_flight (if bool_decide (in_flight s !! key = Some channel) then delete key (in_flight s) else in_flight s)
        (alter (fun c => mkChannel (sent c) true) channel (channels s)) s)
  | SlotOf key => set_claim id NoClaim (with_revalidating (isr_revalidating s ∖ {[key]}) s)
  | NoClaim => s
  end.

(** [updates.recv()], when it ends. *)
Definition received (channel : N) (late : bool) (s : Host) : option (option CachedDocument) :=
  c ← channels s !! channel;
  match sent c with
  | Some d => if late then (if closed c then Some None else None) else Some (Some d)
  | None => if closed c then Some None else None
  end.

(** [IsrRevalidationSlot::claim], for the task that will hold it. *)
Definition slot_claim (task : N) (key : string) (s : Host) : bool * Host :=
  if bool_decide (key ∈ isr_revalidating s) then (false, s)
  else (true, set_claim task (SlotOf key) (with_revalidating ({[key]} ∪ isr_revalidating s) s)).

(** One operation of the program [id]; [task] is the number of the one it may start. *)
Definition perform (canonicalize : Path -> option Path) (id task : N) (op : Op) : Ans op -> Host -> Host -> Prop :=
  match op with
  | CacheRead key => fun a s s' => exists now, a = read_fresh now key (cache s) /\ s' = s
  | CacheContains key => fun a s s' => a = bool_decide (is_Some (entries (cache s) !! key)) /\ s' = s
  | CacheReadStale key => fun a s s' => exists now, a = (fun e => (mkDoc (value e) (compressed e), elapsed now e)) <$> entries (cache s) !! key /\ s' = s
  | CountHit => fun _ s s' => s' = with_cache (count_hit (cache s)) s
  | CountMiss => fun _ s s' => s' = with_cache (count_miss (cache s)) s
  | CachePromote key => fun _ s s' => exists c, promote_key key (cache s) = Some c /\ s' = with_cache c s
  | CacheExpire key => fun _ s s' => exists now c, remove_if_expired now key (cache s) = Some c /\ s' = with_cache c s
  | CachePut key text => fun a s s' => exists now c, put now key text (cache s) = Some (a, c) /\ s' = with_cache c s
  | NewDocument text => fun a s s' => let '(slot, c) := alloc_slot (cache s) in a = mkDoc text slot /\ s' = with_cache c s
  | ForcedClaim path => fun a s s' => a = forced_claim path (cache s) /\ s' = record_event (Looked id path a) s
  | AcknowledgeForced path claim => fun _ s s' => s' = record_event (Retired id path claim) (with_cache (acknowledge_forced path claim (cache s)) s)
  | CacheDropPath path => fun _ s s' => exists n c, drop_path path (cache s) = Some (n, c) /\ s' = with_cache c s
  | CacheMark path => fun _ s s' => s' = with_cache (mark_path path (cache s)).2 s
  | CacheClear => fun _ s s' => s' = with_cache (clear_store (cache s)).2 s
  | CacheFailClosed => fun _ s s' => s' = with_cache (fail_closed_cache (cache s)) s
  | FlightClaim key => fun a s s' => flight_claim id key s = (a, s')
  | FlightPublish d => fun _ s s' => s' = flight_publish id d s
  | Release => fun _ s s' => s' = release id s
  | FlightReceive channel late => fun a s s' => received channel late s = Some a /\ s' = s
  | RendersRequestScoped route => fun a s s' => a = bool_decide (route ∈ request_scoped_routes s) /\ s' = s
  | MarkRequestScoped route => fun _ s s' => s' = with_scoped ({[route]} ∪ request_scoped_routes s) s
  | SpawnRevalidation r => fun a s s' => slot_claim task (revalidate_key r) s = (a, s')
  | NextRequestId => fun a s s' => let '(rid, n) := next_request_id (request_counter s) in a = rid /\ s' = with_counter n s
  | AskWorker r => fun a s s' => s' = record_event (Asked id r a) s
  | ReadPrerendered file => fun a s s' =>
      match a with Some text => prerendered s !! file = Some text /\ s' = record_event (ReadBuild id file text) s | None => s' = s end
  | WritePrerendered file text => fun a s s' =>
      if a : bool then s' = record_event (Replaced id file text) (with_prerendered (<[file := text]> (prerendered s)) s) else s' = s
  | AssetLinks => fun _ s s' => s' = s
  | PrebuiltAssets _ => fun _ s s' => s' = s
  | RegisterInputs lane route version files => fun _ s s' =>
      s' = with_hmr (match version with
                     | Some v => register_versioned_graph canonicalize route lane v (path_new <$> files) (hmr s)
                     | None => register_graph canonicalize route lane (path_new <$> files) (hmr s)
                     end) s
  end.

(** How a program ends. *)
Inductive Outcome :=
  | PageDone (route : RouteEntry) (request : PageRequestContext) (params : RouteParams) (r : RenderedPage + RuvyxaError)
  | Done.

(** The programs of a server: pages by their strategy, pages rendered for a form or for want of a route, client bundles, and [revalidatePath()] of route handlers and actions. *)
Inductive arrives : Prog Op Ans Outcome -> Prop :=
  | page_arrives route request params styles :
      arrives (r ⇐ render_page_by_strategy route request params styles; Ret (PageDone route request params r))
  | pooled_page_arrives route request params styles :
      arrives (r ⇐ render_page_pooled route request params styles; Ret (PageDone route request params r))
  | bundle_arrives route path params : arrives (render_client_bundle route path params ;;; Ret Done)
  | revalidations_arrive paths : arrives (apply_revalidations paths ;;; Ret Done).

Definition spawns (op : Op) : Ans op -> option (Prog Op Ans Outcome) :=
  match op with
  | SpawnRevalidation r => fun claimed => if claimed : bool then Some (revalidation_task r ;;; Ret Done) else None
  | _ => fun _ => None
  end.

Abbreviation Server := (System (Op := Op) (Ans := Ans) (S := Host) (Out := Outcome)).
Definition server_step (canonicalize : Path -> option Path) : Server -> Server -> Prop := system_step (perform canonicalize) release spawns arrives.

Definition server (h : Host) : Server := mkSystem h ∅ 0.
End pipeline.
