(* ===== verification/DocumentSharing.v ===== *)
(** * Who gets which document

    What holds of every run of the render pipeline ([RenderPipeline.v]): no
    document of one visitor reaches another, a flight has one leader and its
    followers are never stranded, a key is revalidated once at a time, and a
    document of the build is only read when no revalidation was pending. *)
From stdpp Require Import relations.
From S2P Require Import Prelude RustStr Programs Paths PathBuf Manifest Diagnostics Recency RenderCache Hmr WorkerProtocol HtmlDocument RenderPipeline.

(** ** Specification *)

Section sharing.
Context (config : ServerConfig) (params_json : RouteParams -> string) (to_string : Value -> string) (hmr_client_script : string) (base64_encode : string -> string).
Context (contained : PathBuf -> option PathBuf) (canonicalize : Path -> option Path).

#[local] Abbreviation act := (@Programs.act Op Ans).
#[local] Abbreviation ssr := (ssr_request config base64_encode).
#[local] Abbreviation ssg := (ssg_request config).
#[local] Abbreviation page := (page_document config to_string hmr_client_script).
#[local] Abbreviation page_key := (page_cache_key params_json).

(** A text may be kept for everyone under a key: it was made, for the path and the parameters of the key, from a worker's answer that read nothing of a request, or is a document of the build or of the project's store for that path, or a shell, or a client bundle. *)
Inductive shared_for (w : list Event) (key text : string) : Prop :=
  | by_request id rid route request params styles links prebuilt response rendered :
      Asked id (ssr rid route request params) (inl response) ∈ w -> WorkerProtocol.html response = Some rendered ->
      reads_request route request response = false -> key = ssr_cache_key params_json (request_path request) params ->
      text = page route (request_path request) params styles links rendered (rsc_payload_part to_string route (rsc_payload response)) prebuilt ->
      shared_for w key text
  | by_prerender id rid route path params mode with_components namespace styles links prebuilt response rendered payload :
      Asked id (ssg rid route path params mode with_components) (inl response) ∈ w -> WorkerProtocol.html response = Some rendered ->
      key = page_key namespace path params -> text = page route path params styles links rendered payload prebuilt ->
      shared_for w key text
  | by_build id path file namespace params :
      ReadBuild id file text ∈ w -> prerendered_document_path config path ≫= contained = Some file -> key = page_key namespace path params ->
      shared_for w key text
  | by_store id rid path window response namespace params :
      Asked id (DocumentRead rid path window) (inl response) ∈ w -> WorkerProtocol.html response = Some text -> key = page_key namespace path params ->
      shared_for w key text
  | by_shell route path params styles links prebuilt :
      key = page_key "csr:" path params -> text = csr_shell config to_string hmr_client_script route path params styles links prebuilt ->
      shared_for w key text
  | by_bundle id request path params response :
      Asked id request (inl response) ∈ w -> script response = Some text -> key = client_cache_key params_json path params ->
      shared_for w key text.

(** The keys a page of a path may be under. *)
Definition page_keys (path : string) (params : RouteParams) : list string := (fun namespace => page_key namespace path params) <$> "" :: RENDER_NAMESPACES.

(** A text made from a worker's answer to this very program, for its own request. *)
Definition own_text (id : N) (route : RouteEntry) (request : PageRequestContext) (params : RouteParams) (w : list Event) (text : string) : Prop :=
  exists rid response rendered styles links prebuilt,
    Asked id (ssr rid route request params) (inl response) ∈ w /\ WorkerProtocol.html response = Some rendered /\ reads_request route request response = true /\
    text = page route (request_path request) params styles links rendered (rsc_payload_part to_string route (rsc_payload response)) prebuilt.

(** What a page's program answers: a document for everyone, or its own. *)
Definition answer_ok (id : N) (route : RouteEntry) (request : PageRequestContext) (params : RouteParams) (r : RenderedPage) (w : list Event) : Prop :=
  if page_request_scoped r then own_text id route request params w (RenderCache.html (document r)) else exists key, key ∈ page_keys (request_path request) params /\ shared_for w key (RenderCache.html (document r)).

Definition outcome_ok (id : N) (out : Outcome) (c : Claim) (w : list Event) : Prop :=
  c = NoClaim /\ match out with PageDone route request params (inl r) => answer_ok id route request params r w | _ => True end.

(** What an operation needs. *)
Definition pre (id : N) (op : Op) (c : Claim) (w : list Event) : Prop :=
  match op with
  | CachePut key text => shared_for w key text
  | FlightClaim _ => c = NoClaim
  | FlightPublish d => exists key channel, c = LeaderOf key channel /\ shared_for w key (RenderCache.html d)
  | FlightReceive channel _ => c = NoClaim /\ exists key, Opened channel key ∈ w
  | Release => c <> NoClaim
  | ReadPrerendered file => exists path, prerendered_document_path config path ≫= contained = Some file /\ Looked id path None ∈ w
  | WritePrerendered file _ => exists path claim, prerendered_document_path config path ≫= contained = Some file /\ Looked id path (Some claim) ∈ w
  | AcknowledgeForced path claim => Looked id path (Some claim) ∈ w
  | SpawnRevalidation r => exists namespace, revalidate_key r = page_key namespace (revalidate_request r) (revalidate_params r)
  | _ => True
  end.

(** What its answer promises, and what the program then holds. *)
Definition post (id : N) (op : Op) : Ans op -> Claim -> Claim -> list Event -> Prop :=
  match op with
  | CacheRead key => fun a c c' w => c' = c /\ forall d, a = Some d -> shared_for w key (RenderCache.html d)
  | CacheReadStale key => fun a c c' w => c' = c /\ forall d age, a = Some (d, age) -> shared_for w key (RenderCache.html d)
  | CachePut _ text | NewDocument text => fun a c c' _ => c' = c /\ RenderCache.html a = text
  | ForcedClaim path => fun a c c' w => c' = c /\ Looked id path a ∈ w
  | FlightClaim key => fun a c c' w =>
      match a with Leader => exists channel, c' = LeaderOf key channel | Follower channel _ => c' = c /\ Opened channel key ∈ w end
  | FlightReceive channel _ => fun a c c' w => c' = c /\ forall key d, Opened channel key ∈ w -> a = Some d -> shared_for w key (RenderCache.html d)
  | Release => fun _ _ c' _ => c' = NoClaim
  | AskWorker r => fun a c c' w => c' = c /\ Asked id r a ∈ w
  | ReadPrerendered file => fun a c c' w => c' = c /\ forall text, a = Some text -> ReadBuild id file text ∈ w
  | _ => fun _ c c' _ => c' = c
  end.

(** *** What is shared *)

(** Everything in the cache, and everything a flight sent, is for everyone under its key. *)
Definition documents_ok (s : Host) : Prop :=
  (forall key e, entries (cache s) !! key = Some e -> shared_for (events s) key (value e)) /\
  (forall channel c d, channels s !! channel = Some c -> sent c = Some d -> exists key, Opened channel key ∈ events s /\ shared_for (events s) key (RenderCache.html d)).

(** Flights and slots are who holds them. *)
Definition flights_ok (s : Host) : Prop :=
  (forall channel key, Opened channel key ∈ events s -> is_Some (channels s !! channel) /\ forall key', Opened channel key' ∈ events s -> key' = key) /\
  (forall key channel, in_flight s !! key = Some channel -> Opened channel key ∈ events s /\ exists id, claims s !! id = Some (LeaderOf key channel)) /\
  (forall id key channel, claims s !! id = Some (LeaderOf key channel) ->
     in_flight s !! key = Some channel /\ forall id', claims s !! id' = Some (LeaderOf key channel) -> id' = id) /\
  (forall channel c, channels s !! channel = Some c -> closed c = false -> exists id key, claims s !! id = Some (LeaderOf key channel)) /\
  (forall id key, claims s !! id = Some (SlotOf key) -> key ∈ isr_revalidating s /\ forall id', claims s !! id' = Some (SlotOf key) -> id' = id) /\
  (forall key, (key ∈ isr_revalidating s) -> exists id, claims s !! id = Some (SlotOf key)) /\
  (forall id, claims s !! id <> Some NoClaim).

(** The cache itself is sound, whatever copies are made of it. *)
Definition cache_ok (s : Host) : Prop := sys_ok (fun _ => None) (cache s, []).

(** What a program did is what it looked for first: a document of the build is read where no revalidation was pending, and replaced, or its revalidation retired, where that one was. *)
Definition looked_first (w : list Event) (e : Event) : Prop :=
  match e with
  | ReadBuild id file _ => exists path, prerendered_document_path config path ≫= contained = Some file /\ Looked id path None ∈ w
  | Replaced id file _ => exists path claim, prerendered_document_path config path ≫= contained = Some file /\ Looked id path (Some claim) ∈ w
  | Retired id path claim => Looked id path (Some claim) ∈ w
  | _ => True
  end.

Definition history_ok (s : Host) : Prop := forall before e after, events s = before ++ e :: after -> looked_first before e.

Definition host_ok (s : Host) : Prop := documents_ok s /\ flights_ok s /\ cache_ok s.

(** *** A schedule *)

(** What the world answers to one operation: the time, a worker, a text, the client build report, and whether a file could be written. *)
Record Input := mkInput { at_time : N; worker_answer : WorkerResponse + RuvyxaError; text_read : string; assets_read : option ClientAssets; written : bool }.

(** One operation, its answer chosen by the input. *)
Definition perform_with (id task : N) (op : Op) (i : Input) (s : Host) : option (Ans op * Host) :=
  match op return option (Ans op * Host) with
  | CacheRead key => Some (read_fresh (at_time i) key (cache s), s)
  | CacheContains key => Some (bool_decide (is_Some (entries (cache s) !! key)), s)
  | CacheReadStale key => Some ((fun e => (mkDoc (value e) (compressed e), elapsed (at_time i) e)) <$> entries (cache s) !! key, s)
  | CountHit => Some (tt, with_cache (count_hit (cache s)) s)
  | CountMiss => Some (tt, with_cache (count_miss (cache s)) s)
  | CachePromote key => (fun c => (tt, with_cache c s)) <$> promote_key key (cache s)
  | CacheExpire key => (fun c => (tt, with_cache c s)) <$> remove_if_expired (at_time i) key (cache s)
  | CachePut key text => (fun dc => (dc.1, with_cache dc.2 s)) <$> put (at_time i) key text (cache s)
  | NewDocument text => Some (mkDoc text (alloc_slot (cache s)).1, with_cache (alloc_slot (cache s)).2 s)
  | ForcedClaim path => Some (forced_claim path (cache s), record_event (Looked id path (forced_claim path (cache s))) s)
  | AcknowledgeForced path claim => Some (tt, record_event (Retired id path claim) (with_cache (acknowledge_forced path claim (cache s)) s))
  | CacheDropPath path => (fun nc => (tt, with_cache nc.2 s)) <$> drop_path path (cache s)
  | CacheMark path => Some (tt, with_cache (mark_path path (cache s)).2 s)
  | CacheClear => Some (tt, with_cache (clear_store (cache s)).2 s)
  | CacheFailClosed => Some (tt, with_cache (fail_closed_cache (cache s)) s)
  | FlightClaim key => Some (flight_claim id key s)
  | FlightPublish d => Some (tt, flight_publish id d s)
  | Release => Some (tt, release id s)
  | FlightReceive channel late => (fun a => (a, s)) <$> received channel late s
  | RendersRequestScoped route => Some (bool_decide (route ∈ request_scoped_routes s), s)
  | MarkRequestScoped route => Some (tt, with_scoped ({[route]} ∪ request_scoped_routes s) s)
  | SpawnRevalidation r => Some (slot_claim task (revalidate_key r) s)
  | NextRequestId => Some ((next_request_id (request_counter s)).1, with_counter (next_request_id (request_counter s)).2 s)
  | AskWorker r => Some (worker_answer i, record_event (Asked id r (worker_answer i)) s)
  | ReadPrerendered file =>
      match prerendered s !! file with Some text => Some (Some text, record_event (ReadBuild id file text) s) | None => Some (None, s) end
  | WritePrerendered file text =>
      if written i then Some (true, record_event (Replaced id file text) (with_prerendered (<[file := text]> (prerendered s)) s)) else Some (false, s)
  | AssetLinks => Some (text_read i, s)
  | PrebuiltAssets _ => Some (assets_read i, s)
  | RegisterInputs lane route version files =>
      Some (tt, with_hmr (match version with
                          | Some v => register_versioned_graph canonicalize route lane v (path_new <$> files) (hmr s)
                          | None => register_graph canonicalize route lane (path_new <$> files) (hmr s)
                          end) s)
  end.

(** One move: a page arrives, a [revalidatePath()] does, or a program takes its step. *)
Inductive Move :=
  | PageArrives (route : RouteEntry) (request : PageRequestContext) (params : RouteParams) (styles : string)
  | RevalidationsArrive (paths : list string)
  | Acts (id : N) (i : Input).

#[local] Abbreviation spawned := (spawns config to_string hmr_client_script).
#[local] Abbreviation Server := (System (Op := Op) (Ans := Ans) (S := Host) (Out := Outcome)).

Definition play_move (s : Server) (m : Move) : option Server :=
  match m with
  | PageArrives route request params styles =>
      Some (add_program (Some (bind_prog (render_page_by_strategy config params_json to_string hmr_client_script base64_encode contained route request params styles)
        (fun r => Ret (PageDone route request params r)))) s)
  | RevalidationsArrive paths => Some (add_program (Some (bind_prog (apply_revalidations (Some paths)) (fun _ => Ret Done))) s)
  | Acts id i =>
      match programs s !! id with
      | Some (Act op k) =>
          '(a, state') ← perform_with id (next_id s) op i (shared s);
          Some (add_program (spawned op a) (mkSystem state' (<[id := k a]> (programs s)) (next_id s)))
      | _ => None
      end
  end.

Definition play (moves : list Move) (s : Server) : option Server := foldl (fun s m => s ≫= fun s => play_move s m) (Some s) moves.

(** ** Lemmas *)

Lemma grown {A} (x : A) w w' : w `prefix_of` w' -> x ∈ w -> x ∈ w'.
Proof. intros [v ->] H. set_solver. Qed.

Lemma shared_for_grown w w' key text : w `prefix_of` w' -> shared_for w key text -> shared_for w' key text.
Proof.
  intros Hw [].
  - eapply by_request; [by eapply grown|done..].
  - eapply by_prerender; [by eapply grown|done..].
  - eapply by_build; [by eapply grown|done..].
  - eapply by_store; [by eapply grown|done..].
  - by eapply by_shell.
  - eapply by_bundle; [by eapply grown|done..].
Qed.

(** *** Programs are safe *)

#[local] Abbreviation safely id := (safe prefix (pre id) (post id)).

(** A program that keeps what it holds. *)
Definition keeps {A} (id : N) (p : Prog Op Ans A) (Q : A -> list Event -> Prop) (c : Claim) (w : list Event) : Prop :=
  safely id p (fun a c' w' => c' = c /\ Q a w') c w.

Lemma keeps_ret {A} id (a : A) (Q : A -> list Event -> Prop) c w : (forall w', w `prefix_of` w' -> Q a w') -> keeps id (Ret a) Q c w.
Proof. intros H w' Hw. split; [done|by apply H]. Qed.

Lemma keeps_bind {A B} id (p : Prog Op Ans A) (k : A -> Prog Op Ans B) Q R c w :
  keeps id p R c w -> (forall a w', w `prefix_of` w' -> R a w' -> keeps id (k a) Q c w') -> keeps id (bind_prog p k) Q c w.
Proof.
  intros Hp Hk. apply safe_bind; [apply _|]. eapply safe_weaken; [apply _| |exact Hp].
  intros a c' w' Hw [-> Ha]. by apply Hk.
Qed.

Lemma keeps_try {A B} id (p : Prog Op Ans (A + RuvyxaError)) (k : A -> Prog Op Ans (B + RuvyxaError)) Q R c w :
  keeps id p R c w -> (forall a w', w `prefix_of` w' -> R (inl a) w' -> keeps id (k a) Q c w') ->
  (forall e w', Q (inr e) w') -> keeps id (try_prog p k) Q c w.
Proof.
  intros Hp Hk He. apply (keeps_bind id p _ Q R); [done|]. intros [a|e] w' Hw Ha; [by apply Hk|]. apply keeps_ret. auto.
Qed.

Lemma keeps_act id op (Q : Ans op -> list Event -> Prop) c w :
  (forall w', w `prefix_of` w' -> pre id op c w') ->
  (forall a c' w', w `prefix_of` w' -> post id op a c c' w' -> c' = c /\ forall w'', w' `prefix_of` w'' -> Q a w'') ->
  keeps id (act op) Q c w.
Proof.
  intros Hp Hq. apply safe_act; [apply _|done|]. intros a c' w' Hw Ha w'' Hw'. destruct (Hq a c' w' Hw Ha) as [-> H]. split; [done|by apply H].
Qed.

Lemma keeps_weaken {A} id (p : Prog Op Ans A) (Q Q' : A -> list Event -> Prop) c w :
  (forall a w', w `prefix_of` w' -> Q a w' -> Q' a w') -> keeps id p Q c w -> keeps id p Q' c w.
Proof. intros H. apply safe_weaken; [apply _|]. intros a c' w' Hw [-> Ha]. split; [done|by apply H]. Qed.

(** An operation that needs nothing and promises nothing. *)
Lemma keeps_free id op c w :
  (forall w', pre id op c w') -> (forall a c' w', post id op a c c' w' -> c' = c) -> keeps id (act op) (fun _ _ => True) c w.
Proof. intros Hp Hq. apply keeps_act; [by intros w' _|]. intros a c' w' _ Ha. split; [by eapply Hq|done]. Qed.

Definition found (key : string) (r : option CachedDocument) (w : list Event) : Prop := forall d, r = Some d -> shared_for w key (RenderCache.html d).

Lemma found_grown key r w w' : w `prefix_of` w' -> found key r w -> found key r w'.
Proof. intros Hw H d Hd. eapply shared_for_grown; [exact Hw|by apply H]. Qed.

(** The next part of a sequence: one whose answer does not matter, or an operation whose answer does. *)
Ltac skip := eapply (keeps_bind _ _ _ _ (fun _ _ => True)); [try by (apply keeps_free; [done|by intros])|intros ? ? ? _].
Ltac finish := apply keeps_ret; intros ? ?.

Lemma keeps_get_document id key c w : keeps id (get_document key) (found key) c w.
Proof.
  unfold get_document. apply (keeps_bind _ _ _ _ (found key)).
  - apply keeps_act; [done|]. intros a c' w' _ [-> Ha]. split; [done|]. intros w'' Hw. by eapply found_grown.
  - intros [d|] w' Hw Hd.
    + skip. skip. finish. eapply found_grown; [|exact Hd]. by do 2 (etransitivity; [eassumption|]).
    + skip. skip; [destruct a; [by (apply keeps_free; [done|by intros])|by finish]|]. skip. finish. intros d [=].
Qed.

Lemma keeps_get_stale id key c w :
  keeps id (get_stale_with_age key) (fun r w => forall d age, r = Some (d, age) -> shared_for w key (RenderCache.html d)) c w.
Proof.
  unfold get_stale_with_age. apply (keeps_bind _ _ _ _ (fun r w => forall d age, r = Some (d, age) -> shared_for w key (RenderCache.html d))).
  - apply keeps_act; [done|]. intros a c' w' _ [-> Ha]. split; [done|]. intros w'' Hw d age E. eapply shared_for_grown; [exact Hw|by eapply Ha].
  - intros [[d age]|] w' Hw Hd.
    + skip. skip. finish. intros d' age' [= <- <-]. eapply shared_for_grown; [|by eapply Hd]. by do 2 (etransitivity; [eassumption|]).
    + finish. intros d age [=].
Qed.

Lemma keeps_revalidate_path id path c w : keeps id (revalidate_path path) (fun _ _ => True) c w.
Proof. unfold revalidate_path. skip. by (apply keeps_free; [done|by intros]). Qed.

Lemma keeps_apply_each id paths c w : keeps id (apply_each paths) (fun _ _ => True) c w.
Proof.
  revert w. induction paths as [|path paths IH]; intros w; cbn [apply_each]; [by finish|]. destruct (_ || _); [by apply IH|].
  skip; [apply keeps_revalidate_path|]. apply IH.
Qed.

Lemma keeps_apply_revalidations id paths c w : keeps id (apply_revalidations paths) (fun _ _ => True) c w.
Proof.
  destruct paths as [paths|]; cbn [apply_revalidations]; [|by finish]. destruct (_ <? _); [|by apply keeps_apply_each].
  unfold revalidate_all_paths. skip. by (apply keeps_free; [done|by intros]).
Qed.

Lemma keeps_register id route response c w : keeps id (register_server_hmr_inputs config route response) (fun _ _ => True) c w.
Proof.
  unfold register_server_hmr_inputs. destruct (inputs response); [|by finish]. destruct (watch config); [|by finish].
  by (apply keeps_free; [done|by intros]).
Qed.

(** A worker was asked. *)
Definition asked (id : N) (request : string -> WorkerRequest) (r : WorkerResponse + RuvyxaError) (w : list Event) : Prop :=
  exists rid, Asked id (request rid) r ∈ w.

Lemma asked_grown id request r w w' : w `prefix_of` w' -> asked id request r w -> asked id request r w'.
Proof. intros Hw [rid H]. exists rid. by eapply grown. Qed.

Lemma keeps_send id request c w : keeps id (send_with_id request) (asked id request) c w.
Proof.
  unfold send_with_id. skip. apply keeps_act; [done|]. intros r c' w'' _ [-> Hr]. split; [done|]. intros w3 Hw. eexists. by eapply grown.
Qed.

Lemma keeps_finish_page id route path params styles rendered payload c w :
  keeps id (finish_page config to_string hmr_client_script route path params styles rendered payload)
    (fun html _ => exists links prebuilt, html = page route path params styles links rendered payload prebuilt) c w.
Proof.
  unfold finish_page, prebuilt_assets. skip. skip; [destruct (_ && _); [by (apply keeps_free; [done|by intros])|by finish]|]. finish. by eexists _, _.
Qed.

(** A text for a key was stored. *)
Lemma keeps_put id key text c w : shared_for w key text ->
  keeps id (act (CachePut key text)) (fun d w => RenderCache.html d = text /\ shared_for w key text) c w.
Proof.
  intros H. apply keeps_act; [intros w' Hw; by eapply shared_for_grown|].
  intros a c' w' Hw [-> Ha]. split; [done|]. intros w'' Hw'. split; [done|]. eapply shared_for_grown; [|exact H]. by etransitivity.
Qed.

(** A text that may be kept under every key of a path. *)
Definition page_text (path : string) (params : RouteParams) (w : list Event) (text : string) : Prop := forall namespace, shared_for w (page_key namespace path params) text.

Lemma page_text_grown path params w w' text : w `prefix_of` w' -> page_text path params w text -> page_text path params w' text.
Proof. intros Hw H namespace. by eapply shared_for_grown. Qed.

Lemma keeps_through_worker id route path params styles mode b failure no_html c w :
  keeps id (render_through_worker config to_string hmr_client_script route path params styles mode b failure no_html)
    (fun r w => forall html, r = inl html -> page_text path params w html) c w.
Proof.
  unfold render_through_worker. eapply keeps_try; [apply keeps_send| |by intros e w' html [=]].
  intros response w1 _ [rid Hr]. destruct (response_ok response); cbn [negb]; [|by finish].
  eapply (keeps_bind _ _ _ _ (fun _ _ => True)); [apply keeps_register|]. intros _ w2 Hw2 _.
  destruct (WorkerProtocol.html response) as [rendered|] eqn:Hh; [|by finish].
  eapply keeps_bind; [apply keeps_finish_page|]. intros html w3 Hw3 (links & prebuilt & ->). apply keeps_ret. intros w4 Hw4 html [= <-] namespace.
  eapply by_prerender; [|exact Hh|done|done]. eapply grown; [|exact Hr]. by do 2 (etransitivity; [eassumption|]).
Qed.

Lemma keeps_read_prerendered id path params c w : Looked id path None ∈ w ->
  keeps id (read_prerendered_html config contained path) (fun r w => forall text, r = Some text -> page_text path params w text) c w.
Proof.
  intros Hl. unfold read_prerendered_html. destruct (prerendered_document_path config path ≫= contained) as [file|] eqn:Hf; [|by finish].
  apply keeps_act.
  - intros w' Hw. exists path. split; [done|]. by eapply grown.
  - intros a c' w' Hw [-> Ha]. split; [done|]. intros w'' Hw' text -> namespace. eapply by_build; [|exact Hf|done]. eapply grown; [exact Hw'|by apply Ha].
Qed.

(** What is stored under the key of a page. *)
Definition stored_page (key : string) (r : option (CachedDocument * bool)) (w : list Event) : Prop :=
  forall d refresh, r = Some (d, refresh) -> shared_for w key (RenderCache.html d).

Lemma keeps_store_prerendered id path params namespace c w : Looked id path None ∈ w ->
  keeps id (store_prerendered_html config contained path (page_key namespace path params)) (found (page_key namespace path params)) c w.
Proof.
  intros Hl. unfold store_prerendered_html. eapply keeps_bind; [by apply (keeps_read_prerendered id path params)|].
  intros [text|] w1 _ Ht; [|by finish]. eapply keeps_bind; [by apply keeps_put, Ht|]. intros d w2 _ [Hd Hs].
  apply keeps_ret. intros w3 Hw3 d' [= <-]. rewrite Hd. by eapply shared_for_grown.
Qed.

Lemma keeps_read_handler id path params window c w :
  keeps id (read_document_through_handler path window)
    (fun r w => forall text is_stale, r = Held text is_stale -> page_text path params w text) c w.
Proof.
  unfold read_document_through_handler. eapply keeps_bind; [apply keeps_send|].
  intros [response|e] w1 _ [rid Hr]; [|by finish]. apply keeps_ret. intros w2 Hw2 text is_stale.
  destruct (response_ok response) eqn:Hok; [|done]. unfold stored_document_from_response. rewrite Hok.
  destruct (WorkerProtocol.html response) as [t|] eqn:Ht; [|done]. intros [= <- _] namespace. eapply by_store; [by eapply grown|exact Ht|done].
Qed.

Lemma keeps_write_handler id path text window forced c w : keeps id (write_document_through_handler path text window forced) (fun _ _ => True) c w.
Proof. unfold write_document_through_handler. eapply keeps_bind; [apply keeps_send|]. intros r w1 _ _. by finish. Qed.

Lemma keeps_store_document id path params namespace s window c w : Looked id path None ∈ w ->
  keeps id (store_document config contained path (page_key namespace path params) s window) (stored_page (page_key namespace path params)) c w.
Proof.
  intros Hl. unfold store_document.
  eapply (keeps_bind _ _ _ _ (fun r w => forall text refresh, r = Some (text, refresh) -> page_text path params w text)).
  - destruct (data_cache_handler config); [|by finish]. eapply keeps_bind; [apply (keeps_read_handler id path params)|].
    intros [|text is_stale] w1 _ Ht; apply keeps_ret; intros w2 Hw2 text' refresh; [done|]. intros [= <- <-].
    eapply page_text_grown; [exact Hw2|by eapply Ht].
  - intros [[text refresh]|] w1 Hw1 Ht.
    + eapply keeps_bind; [apply keeps_put; by eapply Ht|]. intros d w2 _ [Hd Hs]. apply keeps_ret.
      intros w3 Hw3 d' refresh' [= <- <-]. rewrite Hd. by eapply shared_for_grown.
    + eapply keeps_bind; [apply (keeps_store_prerendered id path params namespace); by eapply grown|]. intros [d|] w2 _ Hd; apply keeps_ret; intros w3 Hw3 d' refresh'; cbn; [|done].
      intros [= <- <-]. eapply shared_for_grown; [exact Hw3|by apply Hd].
Qed.

Lemma keeps_settle id path claim text window c w : Looked id path claim ∈ w ->
  keeps id (settle_forced_revalidation config contained path claim text window) (fun _ _ => True) c w.
Proof.
  intros Hl. unfold settle_forced_revalidation. destruct claim as [claim|]; [|by finish].
  eapply (keeps_bind _ _ _ _ (fun _ _ => True)); [destruct (_ && _); [apply keeps_write_handler|by finish]|]. intros _ w1 Hw1 _.
  eapply (keeps_bind _ _ _ _ (fun _ _ => True)).
  - destruct (negb (watch config)); [|by finish]. unfold settle_prerendered_artifact.
    destruct (prerendered_document_path config path) as [candidate|] eqn:Hpath; [|by finish]. destruct (contained candidate) as [file|] eqn:Hfile; [|by finish].
    apply keeps_act; [|by intros a c' w' _ ->]. intros w' Hw'. exists path, claim. rewrite Hpath. split; [done|]. eapply grown; [|exact Hl]. by etransitivity.
  - intros [] w2 Hw2 _; [|by finish]. apply keeps_act; [|by intros a c' w' _ ->].
    intros w3 Hw3. eapply grown; [|exact Hl]. by do 2 (etransitivity; [eassumption|]).
Qed.

(** A document of a page, or an error. *)
Definition page_result (key : string) (r : CachedDocument + RuvyxaError) (w : list Event) : Prop := forall d, r = inl d -> shared_for w key (RenderCache.html d).

(** The end of a fresh render: it is stored, and settles what forced it. *)
Lemma keeps_store_fresh id path params namespace html forced window c w :
  Looked id path forced ∈ w -> page_text path params w html ->
  keeps id (bind_prog (act (CachePut (page_key namespace path params) html))
      (fun d => bind_prog (settle_forced_revalidation config contained path forced (RenderCache.html d) window) (fun _ => Ret (inl d))))
    (page_result (page_key namespace path params)) c w.
Proof.
  intros Hl Ht. eapply keeps_bind; [apply keeps_put, Ht|]. intros d w1 Hw1 [Hd Hs].
  eapply (keeps_bind _ _ _ _ (fun _ _ => True)); [apply keeps_settle; by eapply grown|]. intros _ w2 Hw2 _.
  apply keeps_ret. intros w3 Hw3 d' [= <-]. rewrite Hd. eapply shared_for_grown; [|exact Hs]. by etransitivity.
Qed.

(** *** Strategies *)

Lemma keeps_build_first id path params namespace s window forced c w : Looked id path forced ∈ w ->
  keeps id (if bool_decide (forced = None) && negb (watch config) then store_document config contained path (page_key namespace path params) s window else Ret None)
    (stored_page (page_key namespace path params)) c w.
Proof.
  intros Hl. case_bool_decide as Hf; [|by finish]. subst forced. destruct (negb (watch config)); [by apply keeps_store_document|by finish].
Qed.

Lemma keeps_ssg_fresh id route path params styles forced c w : Looked id path forced ∈ w ->
  keeps id (render_page_ssg_fresh config to_string hmr_client_script contained route path params styles (page_key "ssg:" path params) forced) (page_result (page_key "ssg:" path params)) c w.
Proof.
  intros Hl. unfold render_page_ssg_fresh. eapply keeps_bind; [by apply (keeps_build_first id path params "ssg:")|].
  intros [[d refresh]|] w1 Hw1 Hd; [apply keeps_ret; intros w2 Hw2 d' [= <-]; eapply shared_for_grown; [exact Hw2|by eapply Hd]|].
  eapply keeps_try; [apply keeps_through_worker| |by intros e w' d [=]]. intros html w2 Hw2 Hh. apply keeps_store_fresh; [|by apply Hh].
  eapply grown; [|exact Hl]. by etransitivity.
Qed.

Lemma keeps_ppr_fresh id route path params styles forced c w : Looked id path forced ∈ w ->
  keeps id (render_page_ppr_fresh config to_string hmr_client_script contained route path params styles (page_key "ppr:" path params) forced) (page_result (page_key "ppr:" path params)) c w.
Proof.
  intros Hl. unfold render_page_ppr_fresh. eapply keeps_bind; [by apply (keeps_build_first id path params "ppr:")|].
  intros [[d refresh]|] w1 Hw1 Hd; [apply keeps_ret; intros w2 Hw2 d' [= <-]; eapply shared_for_grown; [exact Hw2|by eapply Hd]|].
  eapply keeps_try; [apply keeps_through_worker| |by intros e w' d [=]]. intros html w2 Hw2 Hh. apply keeps_store_fresh; [|by apply Hh].
  eapply grown; [|exact Hl]. by etransitivity.
Qed.

Lemma keeps_spawn id route path params styles namespace c w :
  keeps id (spawn_isr_revalidation route path params styles (page_key namespace path params)) (fun _ _ => True) c w.
Proof. unfold spawn_isr_revalidation. skip; [apply keeps_free; [by eexists|by intros]|]. by finish. Qed.

Lemma keeps_isr_fresh id route path params styles forced c w : Looked id path forced ∈ w ->
  keeps id (render_page_isr_fresh config to_string hmr_client_script contained route path params styles (page_key "isr:" path params) forced) (page_result (page_key "isr:" path params)) c w.
Proof.
  intros Hl. unfold render_page_isr_fresh. eapply keeps_bind; [by apply (keeps_build_first id path params "isr:")|].
  intros [[d refresh]|] w1 Hw1 Hd.
  { skip; [destruct refresh; [apply keeps_spawn|by finish]|]. apply keeps_ret. intros w2 Hw2 d' [= <-].
    eapply shared_for_grown; [|by eapply Hd]. by etransitivity. }
  eapply keeps_try; [apply keeps_through_worker| |by intros e w' d [=]]. intros html w2 Hw2 Hh. apply keeps_store_fresh; [|by apply Hh].
  eapply grown; [|exact Hl]. by etransitivity.
Qed.

(** A follower gets a document for the key. *)
Lemma keeps_await id channel late key w : Opened channel key ∈ w -> keeps id (await_shared_document channel late key) (found key) NoClaim w.
Proof.
  intros Hopen. unfold await_shared_document. eapply (keeps_bind _ _ _ _ (found key)).
  - apply keeps_act; [intros w2 Hw2; split; [done|]; exists key; by eapply grown|].
    intros a c2 w2 Hw2 [-> Ha]. split; [done|]. intros w3 Hw3 d Hd. eapply shared_for_grown; [exact Hw3|].
    eapply Ha; [by eapply grown|done].
  - intros [d|] w2 Hw2 Hd; [|apply keeps_get_document]. apply keeps_ret. intros w3 Hw3. by eapply found_grown.
Qed.

(** A flight: whoever leads gives up the claim, and what is sent is for the key. *)
Lemma keeps_single_flight id key render w :
  (forall c w', w `prefix_of` w' -> keeps id render (page_result key) c w') -> keeps id (single_flight_document key render) (page_result key) NoClaim w.
Proof.
  intros Hr. apply safe_act; [apply _|done|]. intros [|channel late] c' w1 Hw1 Hc.
  - destruct Hc as [channel ->]. cbn [bind_prog]. apply safe_bind; [apply _|].
    eapply safe_weaken; [apply _| |by apply Hr]. intros r c1 w2 Hw2 [-> Hd]. apply safe_bind; [apply _|].
    eapply (safe_weaken prefix) with (Q := fun _ c3 _ => c3 = LeaderOf key channel); [|].
    + intros u c3 w3 Hw3 ->. apply safe_act; [apply _|by intros w4 _|]. intros u4 c4 w4 Hw4 Hc4. cbn in Hc4. subst c4. apply keeps_ret.
      intros w5 Hw5 d ->. eapply shared_for_grown; [|by apply Hd]. by do 2 (etransitivity; [eassumption|]).
    + destruct r as [d|e]; [|by intros w3 _]. apply safe_act; [apply _| |].
      * intros w3 Hw3. exists key, channel. split; [done|]. eapply shared_for_grown; [exact Hw3|by apply Hd].
      * intros u c3 w3 Hw3 Hc3. cbn in Hc3. by intros w4 _.
  - destruct Hc as [-> Hopen]. cbn [bind_prog]. eapply (keeps_bind _ _ _ _ (found key)).
    + by apply keeps_await.
    + intros [d|] w2 Hw2 Hd; [|apply Hr; by etransitivity]. apply keeps_ret. intros w3 Hw3 d' [= <-]. eapply shared_for_grown; [exact Hw3|by apply Hd].
Qed.

(** The shape of [render_page_ssg], [render_page_isr] and [render_page_ppr] behind the cache: a forced request renders alone, the others once. *)
Lemma keeps_forced_or_flight id path key (fresh : option ForcedRevalidationClaim -> Prog Op Ans (CachedDocument + RuvyxaError)) w :
  (forall forced c w', Looked id path forced ∈ w' -> keeps id (fresh forced) (page_result key) c w') ->
  keeps id (bind_prog (act (ForcedClaim path)) (fun forced => match forced with Some _ => fresh forced | None => single_flight_document key (fresh None) end)) (page_result key) NoClaim w.
Proof.
  intros Hf. eapply (keeps_bind _ _ _ _ (fun forced w => Looked id path forced ∈ w)).
  - apply keeps_act; [done|]. intros a c' w1 _ [-> Ha]. split; [done|]. intros w2 Hw2. by eapply grown.
  - intros [claim|] w1 Hw1 Hl; [by apply Hf|]. apply keeps_single_flight. intros c w2 Hw2. apply Hf. by eapply grown.
Qed.

Lemma page_result_found key d w w' : w `prefix_of` w' -> found key (Some d) w -> page_result key (inl d) w'.
Proof. intros Hw H d' [= <-]. eapply shared_for_grown; [exact Hw|by apply H]. Qed.

Lemma keeps_render_ssg id route path params styles w :
  keeps id (render_page_ssg config params_json to_string hmr_client_script contained route path params styles) (page_result (page_key "ssg:" path params)) NoClaim w.
Proof.
  unfold render_page_ssg. eapply keeps_bind; [apply keeps_get_document|]. intros [d|] w1 _ Hd; [apply keeps_ret; intros w2 Hw2; by eapply page_result_found|].
  apply (keeps_forced_or_flight id path _ (fun forced => render_page_ssg_fresh _ _ _ _ route path params styles _ forced)). intros. by apply keeps_ssg_fresh.
Qed.

Lemma keeps_render_ppr id route path params styles w :
  keeps id (render_page_ppr config params_json to_string hmr_client_script contained route path params styles) (page_result (page_key "ppr:" path params)) NoClaim w.
Proof.
  unfold render_page_ppr. eapply keeps_bind; [apply keeps_get_document|]. intros [d|] w1 _ Hd; [apply keeps_ret; intros w2 Hw2; by eapply page_result_found|].
  apply (keeps_forced_or_flight id path _ (fun forced => render_page_ppr_fresh _ _ _ _ route path params styles _ forced)). intros. by apply keeps_ppr_fresh.
Qed.

Lemma keeps_render_isr id route path params styles w :
  keeps id (render_page_isr config params_json to_string hmr_client_script contained route path params styles) (page_result (page_key "isr:" path params)) NoClaim w.
Proof.
  unfold render_page_isr. eapply keeps_bind; [apply keeps_get_stale|]. intros [[d age]|] w1 _ Hd.
  - skip; [destruct (_ <=? _)%N; [apply keeps_spawn|by finish]|]. apply keeps_ret. intros w2 Hw2 d' [= <-].
    eapply shared_for_grown; [|by eapply Hd]. by etransitivity.
  - apply (keeps_forced_or_flight id path _ (fun forced => render_page_isr_fresh _ _ _ _ route path params styles _ forced)). intros. by apply keeps_isr_fresh.
Qed.

Lemma keeps_render_csr id route path params styles c w :
  keeps id (render_page_csr config params_json to_string hmr_client_script contained route path params styles) (page_result (page_key "csr:" path params)) c w.
Proof.
  unfold render_page_csr. eapply keeps_bind; [apply keeps_get_document|]. intros [d|] w1 _ Hd; [apply keeps_ret; intros w2 Hw2; by eapply page_result_found|].
  eapply (keeps_bind _ _ _ _ (fun forced w => Looked id path forced ∈ w)).
  { apply keeps_act; [done|]. intros a c' w2 _ [-> Ha]. split; [done|]. intros w3 Hw3. by eapply grown. }
  intros forced w2 _ Hl. eapply keeps_bind; [by apply (keeps_build_first id path params "csr:")|].
  intros [[d refresh]|] w3 Hw3 Hst; [apply keeps_ret; intros w4 Hw4 d' [= <-]; eapply shared_for_grown; [exact Hw4|by eapply Hst]|].
  skip. skip; [unfold prebuilt_assets; destruct (_ && _); [by (apply keeps_free; [done|by intros])|by finish]|].
  destruct forced as [claim|].
  - eapply keeps_bind; [apply keeps_put; by eapply by_shell|]. intros d w6 Hw6 [Hd' Hs].
    eapply (keeps_bind _ _ _ _ (fun _ _ => True)); [apply keeps_settle; eapply grown; [|exact Hl]; by do 4 (etransitivity; [eassumption|])|].
    intros _ w7 Hw7 _. apply keeps_ret. intros w8 Hw8 d' [= <-]. rewrite Hd'. eapply shared_for_grown; [|exact Hs]. by etransitivity.
  - eapply (keeps_bind _ _ _ _ (fun d _ => RenderCache.html d = _)).
    + apply keeps_act; [done|]. intros d c' w6 _ [-> Hd']. split; [done|]. intros w7 _. exact Hd'.
    + intros d w6 _ Hd'. apply keeps_ret. intros w7 _ d' [= <-]. rewrite Hd'. by eapply by_shell.
Qed.
Lemma own_text_grown id route request params text w w' : w `prefix_of` w' -> own_text id route request params w text -> own_text id route request params w' text.
Proof. intros Hw (rid & response & rendered & styles & links & prebuilt & Ha & H). exists rid, response, rendered, styles, links, prebuilt. split; [by eapply grown|done]. Qed.

(** A page made on request: for everyone, or for this visitor alone. *)
Definition pooled_result (id : N) (route : RouteEntry) (request : PageRequestContext) (params : RouteParams) (r : RenderedPage + RuvyxaError) (w : list Event) : Prop :=
  forall rendered, r = inl rendered ->
    if page_request_scoped rendered then own_text id route request params w (RenderCache.html (document rendered))
    else shared_for w (page_key "" (request_path request) params) (RenderCache.html (document rendered)).

Lemma pooled_result_grown id route request params r w w' : w `prefix_of` w' -> pooled_result id route request params r w -> pooled_result id route request params r w'.
Proof. intros Hw H rendered ->. specialize (H _ eq_refl). destruct (page_request_scoped rendered); [by eapply own_text_grown|by eapply shared_for_grown]. Qed.

Lemma pooled_shared id route request params d w w' :
  w `prefix_of` w' -> found (page_key "" (request_path request) params) (Some d) w -> pooled_result id route request params (inl (shared_page d)) w'.
Proof. intros Hw H rendered [= <-]. eapply shared_for_grown; [exact Hw|by apply H]. Qed.

Lemma keeps_pooled_fresh id route request params styles c w :
  keeps id (render_page_pooled_fresh config to_string hmr_client_script base64_encode route request params styles (ssr_cache_key params_json (request_path request) params))
    (pooled_result id route request params) c w.
Proof.
  unfold render_page_pooled_fresh. eapply keeps_try; [apply keeps_send| |by intros e w' rendered [=]].
  intros response w1 _ [rid Hr]. destruct (response_ok response); cbn [negb]; [|by finish].
  skip; [apply keeps_register|]. skip; [destruct (bool_decide _); [apply keeps_apply_revalidations|by finish]|].
  destruct (WorkerProtocol.html response) as [rendered|] eqn:Hh; [|by finish].
  eapply keeps_bind; [apply keeps_finish_page|]. intros html w4 Hw4 (links & prebuilt & ->).
  assert (Asked id (ssr rid route request params) (inl response) ∈ w4) as Hr4 by (eapply grown; [|exact Hr]; by do 2 (etransitivity; [eassumption|])).
  destruct (reads_request route request response) eqn:Hreads.
  - eapply (keeps_bind _ _ _ _ (fun d _ => RenderCache.html d = _)).
    { apply keeps_act; [done|]. intros d c' w5 _ [-> Hd]. split; [done|]. intros w6 _. exact Hd. }
    intros d w5 Hw5 Hd. apply keeps_ret. intros w6 Hw6 page [= <-]. exists rid, response, rendered, styles, links, prebuilt. split; [|done]. eapply grown; [|exact Hr4]. by etransitivity.
  - eapply keeps_bind; [apply keeps_put; by eapply by_request|]. intros d w5 _ [Hd Hs]. apply keeps_ret.
    intros w6 Hw6 page [= <-]. cbn. rewrite Hd. by eapply shared_for_grown.
Qed.

(** A shared render: its leader sends on what is for everyone, and notes a route that is not. *)
Lemma keeps_pooled_leader id route request params key channel (fresh : Async (RenderedPage + RuvyxaError)) w :
  key = page_key "" (request_path request) params -> keeps id fresh (pooled_result id route request params) (LeaderOf key channel) w ->
  safely id (bind_prog fresh (fun page =>
      bind_prog (match page with
                 | inl rendered => if page_request_scoped rendered then act (MarkRequestScoped (route_path route)) else act (FlightPublish (document rendered))
                 | inr _ => Ret tt
                 end) (fun _ => bind_prog (act Release) (fun _ => Ret page))))
    (fun r c' w' => c' = NoClaim /\ pooled_result id route request params r w') (LeaderOf key channel) w.
Proof.
  intros -> Hf. apply safe_bind; [apply _|]. eapply safe_weaken; [apply _| |exact Hf]. intros page c' w1 _ [-> Hp]. apply safe_bind; [apply _|].
  eapply (safe_weaken prefix) with (Q := fun _ c3 _ => c3 = LeaderOf _ channel).
  - intros u c3 w3 Hw3 ->. apply safe_act; [apply _|by intros w4 _|]. intros u4 c4 w4 Hw4 Hc4. cbn in Hc4. subst c4. apply keeps_ret.
    intros w5 Hw5. eapply pooled_result_grown; [|exact Hp]. by do 2 (etransitivity; [eassumption|]).
  - destruct page as [rendered|e]; [|by intros w3 _]. specialize (Hp _ eq_refl). destruct (page_request_scoped rendered).
    + apply safe_act; [apply _|done|]. intros u c3 w3 _ Hc3. by intros w4 _.
    + apply safe_act; [apply _| |].
      * intros w3 Hw3. eexists _, channel. split; [done|]. by eapply shared_for_grown.
      * intros u c3 w3 _ Hc3. by intros w4 _.
Qed.

Lemma keeps_pooled id route request params styles w :
  keeps id (render_page_pooled config params_json to_string hmr_client_script base64_encode route request params styles) (pooled_result id route request params) NoClaim w.
Proof.
  unfold render_page_pooled. set (cacheable := bool_decide _ && _). eapply (keeps_bind _ _ _ _ (found (page_key "" (request_path request) params))).
  { destruct cacheable; [apply keeps_get_document|by finish]. }
  intros [d|] w1 _ Hd; [apply keeps_ret; intros w2 Hw2; by eapply pooled_shared|].
  skip; [destruct cacheable; [by (apply keeps_free; [done|by intros])|by finish]|].
  destruct a; [by apply keeps_pooled_fresh|]. apply safe_act; [apply _|done|]. intros [|channel late] c' w3 _ Hc.
  - destruct Hc as [channel ->]. apply keeps_pooled_leader; [done|]. apply keeps_pooled_fresh.
  - destruct Hc as [-> Hopen]. eapply (keeps_bind _ _ _ _ (found (page_key "" (request_path request) params))).
    + by apply keeps_await.
    + intros [d|] w4 Hw4 Hd4; [apply keeps_ret; intros w5 Hw5; by eapply pooled_shared|]. apply keeps_pooled_fresh.
Qed.
Lemma pooled_answer id route request params r w : pooled_result id route request params (inl r) w -> answer_ok id route request params r w.
Proof.
  intros H. specialize (H _ eq_refl). unfold answer_ok. destruct (page_request_scoped r); [done|]. eexists. split; [|exact H]. apply list_elem_of_here.
Qed.

Definition page_ok (id : N) (route : RouteEntry) (request : PageRequestContext) (params : RouteParams) (r : RenderedPage + RuvyxaError) (w : list Event) : Prop :=
  forall rendered, r = inl rendered -> answer_ok id route request params rendered w.

Lemma page_result_ok id route request params namespace (r : CachedDocument + RuvyxaError) w :
  namespace ∈ "" :: RENDER_NAMESPACES -> page_result (page_key namespace (request_path request) params) r w -> page_ok id route request params (shared_result r) w.
Proof.
  intros Hn H rendered. destruct r as [d|e]; [|done]. intros [= <-]. exists (page_key namespace (request_path request) params).
  split; [by apply (list_elem_of_fmap_2 (fun namespace => page_key namespace (request_path request) params))|by apply H].
Qed.

Lemma keeps_shared id route request params namespace p w :
  namespace ∈ "" :: RENDER_NAMESPACES -> keeps id p (page_result (page_key namespace (request_path request) params)) NoClaim w ->
  keeps id (bind_prog p (fun r => Ret (shared_result r))) (page_ok id route request params) NoClaim w.
Proof.
  intros Hn Hp. eapply keeps_bind; [exact Hp|]. intros r w1 _ Hr. apply keeps_ret. intros w2 Hw2. eapply page_result_ok; [exact Hn|].
  intros d Hd. eapply shared_for_grown; [exact Hw2|by apply Hr].
Qed.

Lemma answer_ok_grown id route request params r w w' : w `prefix_of` w' -> answer_ok id route request params r w -> answer_ok id route request params r w'.
Proof.
  intros Hw. unfold answer_ok. destruct (page_request_scoped r); [by apply own_text_grown|].
  - intros (key & Hk & Hs). exists key. split; [done|]. by eapply shared_for_grown.
Qed.

Lemma keeps_by_strategy id route request params styles w :
  keeps id (render_page_by_strategy config params_json to_string hmr_client_script base64_encode contained route request params styles) (page_ok id route request params) NoClaim w.
Proof.
  unfold render_page_by_strategy. destruct (strategy (render route)).
  - eapply (keeps_bind _ _ _ _ (fun forced w => Looked id (request_path request) forced ∈ w)).
    { apply keeps_act; [done|]. intros a c' w1 _ [-> Ha]. split; [done|]. intros w2 Hw2. by eapply grown. }
    intros forced w1 _ Hl. eapply keeps_try; [apply keeps_pooled| |by intros e w' rendered [=]]. intros page w2 Hw2 Hp.
    eapply (keeps_bind _ _ _ _ (fun _ _ => True)).
    + destruct forced as [claim|]; [|by finish]. apply keeps_act; [|by intros ? ? ? _ ->]. intros w3 Hw3. eapply grown; [|exact Hl]. by etransitivity.
    + intros _ w3 Hw3 _. apply keeps_ret. intros w4 Hw4 rendered [= <-]. eapply answer_ok_grown; [|by apply pooled_answer]. by etransitivity.
  - by eapply keeps_shared, keeps_render_ssg; set_solver.
  - by eapply keeps_shared, keeps_render_isr; set_solver.
  - by eapply keeps_shared, keeps_render_csr; set_solver.
  - by eapply keeps_shared, keeps_render_ppr; set_solver.
Qed.

(** *** The other programs *)

(** A revalidation task gives up its slot, and stores what may be kept under its key. *)
Lemma task_safe id r key w :
  (exists namespace, revalidate_key r = page_key namespace (revalidate_request r) (revalidate_params r)) ->
  safely id (bind_prog (revalidation_task config to_string hmr_client_script r) (fun _ => Ret Done)) (outcome_ok id) (SlotOf key) w.
Proof.
  intros [namespace Hk]. apply safe_bind; [apply _|]. unfold revalidation_task. apply safe_bind; [apply _|].
  eapply safe_weaken; [apply _| |apply (keeps_through_worker id (revalidate_route r) (revalidate_request r) (revalidate_params r))].
  intros rendered c1 w1 _ [-> Ht]. apply safe_bind; [apply _|]. eapply (safe_weaken prefix) with (Q := fun _ c2 _ => c2 = SlotOf key).
  - intros u c2 w2 _ ->. apply safe_act; [apply _|by intros w3 _|]. intros u3 c3 w3 _ Hc3. cbn in Hc3. subst c3. by intros w4 _ w5 _.
  - destruct rendered as [text|e]; [|by intros w2 _]. eapply (safe_weaken prefix) with (Q := fun _ c2 _ => c2 = SlotOf key /\ True); [by intros u c2 w2 _ []|].
    apply (keeps_bind id _ _ (fun _ _ => True) (fun _ _ => True)); [destruct (data_cache_handler config); [apply keeps_write_handler|by finish]|].
    intros u w2 Hw2 _. eapply keeps_bind; [apply keeps_put; rewrite Hk; by eapply shared_for_grown, Ht|]. intros d w3 _ _. by finish.
Qed.

Lemma keeps_bundle id route path params w : keeps id (render_client_bundle config params_json route path params) (fun _ _ => True) NoClaim w.
Proof.
  unfold render_client_bundle. eapply keeps_bind; [apply keeps_get_document|]. intros [d|] w1 _ _; [by finish|].
  eapply keeps_try; [apply keeps_send| |done]. intros response w2 _ [rid Hr]. destruct (response_ok response); cbn [negb]; [|by finish].
  skip; [destruct (inputs response); [destruct (watch config); [by (apply keeps_free; [done|by intros])|by finish]|by finish]|].
  destruct (script response) as [text|] eqn:Hs; [|by finish].
  eapply keeps_bind; [apply keeps_put; eapply by_bundle; [by eapply grown|done|done]|]. intros d w4 _ _. by finish.
Qed.

(** A program that keeps to itself and has claimed nothing ends so. *)
Lemma keeps_done {A} id (p : Prog Op Ans A) out (Q : A -> list Event -> Prop) w :
  keeps id p Q NoClaim w -> (forall a w1 w2, w1 `prefix_of` w2 -> Q a w1 -> outcome_ok id (out a) NoClaim w2) ->
  safely id (bind_prog p (fun a => Ret (out a))) (outcome_ok id) NoClaim w.
Proof.
  intros Hp Ho. apply safe_bind; [apply _|]. eapply safe_weaken; [apply _| |exact Hp]. intros a c1 w1 _ [-> Ha] w2 Hw2. by eapply Ho.
Qed.

Lemma page_ok_done id route request params r w1 w2 :
  w1 `prefix_of` w2 -> page_ok id route request params r w1 -> outcome_ok id (PageDone route request params r) NoClaim w2.
Proof. intros Hw H. split; [done|]. destruct r as [rendered|e]; [|done]. by eapply answer_ok_grown, H. Qed.

Lemma pooled_ok_done id route request params r w1 w2 :
  w1 `prefix_of` w2 -> pooled_result id route request params r w1 -> outcome_ok id (PageDone route request params r) NoClaim w2.
Proof. intros Hw H. eapply page_ok_done; [exact Hw|]. intros rendered ->. by apply pooled_answer. Qed.

Lemma arriving_safe p : arrives config params_json to_string hmr_client_script base64_encode contained p ->
  forall id w, safely id p (outcome_ok id) NoClaim w.
Proof.
  intros [] id w.
  - eapply keeps_done; [apply keeps_by_strategy|]. intros. by eapply page_ok_done.
  - eapply keeps_done; [apply keeps_pooled|]. intros. by eapply pooled_ok_done.
  - by eapply (keeps_done id _ (fun _ => Done)); [apply keeps_bundle|].
  - by eapply (keeps_done id _ (fun _ => Done)); [apply keeps_apply_revalidations|].
Qed.
(** *** Operations keep the invariant *)

(** Nothing claimed changes hands. *)
Definition calm (s s' : Host) : Prop := host_ok s' /\ events s `prefix_of` events s' /\ claims s' = claims s.

Lemma calm_refl s : host_ok s -> calm s s.
Proof. intros H. by split; [|split]. Qed.

Lemma calm_trans s s1 s' : calm s s1 -> calm s1 s' -> calm s s'.
Proof. intros (_ & H1 & H2) (H & H3 & H4). split; [done|]. split; [by etransitivity|congruence]. Qed.

#[local] Abbreviation run_one := (RenderCache.run (fun _ => None)).

Lemma drop_documents c ds : sys_ok (fun _ => None) (c, ds) -> sys_ok (fun _ => None) (c, []).
Proof. intros (Hs & Hf & owner & He & _ & Hsl). split; [done|]. split; [done|]. exists owner. split; [done|]. split; [|done]. intros d Hd. by apply elem_of_nil in Hd. Qed.

Lemma section_entries section c c' ds :
  sys_ok (fun _ => None) (c, []) -> run_one section (c, []) = Some (c', ds) ->
  forall k e, entries c' !! k = Some e -> entries c !! k = Some e \/ exists now, section = SPut now k (value e).
Proof.
  intros ((al & Hs & Hcap) & _) Hr k e Hk. cbn [fst] in *. destruct section; cbn [RenderCache.run] in Hr; try (injection Hr as <- <-; cbn in Hk; by left).
  - destruct (promote_key_spec key c al Hs) as (c1 & Hp & _ & He & _). rewrite Hp in Hr. injection Hr as <- <-. left. by rewrite <- He.
  - destruct (remove_if_expired_spec now key c al Hs) as (c1 & Hp & [->|(_ & He & _)]); rewrite Hp in Hr; injection Hr as <- <-; [by left|].
    left. rewrite He in Hk. by apply lookup_delete_Some in Hk as [_ ?].
  - destruct (put_spec now key val c al Hs Hcap) as (c1 & Hp & [_ He'] & _). rewrite Hp in Hr. injection Hr as <- <-.
    rewrite He' in Hk. destruct Hs as [Ho He]. destruct (put_lookup (fun _ => None) _ _ _ _ _ _ (linked_NoDup _ _ Ho) Hk) as [Hk'|[-> ->]]; [left; by rewrite He|right; by exists now].
  - destruct (retain_matching_spec discard c al Hs) as (n & c1 & Hp & _ & _ & He & _). rewrite Hp in Hr. injection Hr as <- <-.
    left. rewrite He in Hk. by apply map_lookup_filter_Some in Hk as [? _].
  - injection Hr as <- <-. left. unfold mark_path in Hk. by destruct (mark path (forced c)).
Qed.

Lemma calm_with_cache s c' :
  host_ok s -> sys_ok (fun _ => None) (c', []) ->
  (forall k e, entries c' !! k = Some e -> entries (cache s) !! k = Some e \/ shared_for (events s) k (value e)) -> calm s (with_cache c' s).
Proof.
  intros ([Hd Hs] & Hf & Hc) Hc' He. split; [|done]. split; [|done]. split; [|done]. intros k e Hk. destruct (He k e Hk); [by apply Hd|done].
Qed.

(** A section of the cache. *)
Lemma calm_section s section c' ds :
  host_ok s -> run_one section (cache s, []) = Some (c', ds) -> (forall now key text, section = SPut now key text -> shared_for (events s) key text) ->
  calm s (with_cache c' s).
Proof.
  intros Hok Hr Hput. destruct (section_ok (fun _ => None) section (cache s, []) (proj2 (proj2 Hok))) as (st & Hst & Hok' & _).
  rewrite Hr in Hst. injection Hst as <-. apply calm_with_cache; [done|by eapply drop_documents|]. intros k e Hk.
  destruct (section_entries _ _ _ _ (proj2 (proj2 Hok)) Hr k e Hk) as [H|[now H]]; [by left|right; by eapply Hput].
Qed.

Lemma alloc_ok c : sys_ok (fun _ => None) (c, []) -> sys_ok (fun _ => None) ((alloc_slot c).2, []).
Proof.
  intros (Hs & Hf & owner & He & _ & Hsl). split; [done|]. split; [done|]. exists owner. split_and!.
  - intros k e Hk. destruct (He k e Hk). cbn. split; [done|lia].
  - intros d Hd. by apply elem_of_nil in Hd.
  - intros slot cd Hk. destruct (Hsl slot cd Hk). cbn. split; [done|lia].
Qed.

Lemma put_text now key text c d c' : put now key text c = Some (d, c') -> RenderCache.html d = text.
Proof.
  unfold put. destruct (alloc_slot c) as [slot c1]. destruct (_ =? _)%N; [by intros [= <- _]|]. intros H.
  destruct (if bool_decide _ then _ else _) as [[e o]|]; [|done]. cbn in H. destruct (push_back key o); [|done]. by injection H as <- _.
Qed.

(** Something happens that opens no flight. *)
Lemma flights_events s w :
  (forall channel key, Opened channel key ∈ w <-> Opened channel key ∈ events s) -> flights_ok s ->
  flights_ok (mkHost (cache s) (in_flight s) (channels s) (request_scoped_routes s) (isr_revalidating s) (claims s) (prerendered s) (hmr s) (request_counter s) w).
Proof.
  intros Hw (Ho & Hi & Hrest). split; [|split; [|exact Hrest]]; cbn.
  - intros channel key H%Hw. destruct (Ho channel key H) as [Hs Hu]. split; [done|]. intros key' H'%Hw. by apply Hu.
  - intros key channel H. destruct (Hi key channel H) as [Hop Hl]. split; [by apply Hw|done].
Qed.

Lemma calm_event s e : host_ok s -> (forall channel key, e <> Opened channel key) -> calm s (record_event e s).
Proof.
  intros ([Hd Hs] & Hf & Hc) He. assert (events s `prefix_of` events s ++ [e]) as Hw by by eexists. split; [|done]. split; [|split; [|done]].
  - split; cbn.
    + intros k en Hk. eapply shared_for_grown; [exact Hw|by apply Hd].
    + intros channel c d Hch Hsent. destruct (Hs channel c d Hch Hsent) as (key & Ho & Hsh). exists key. split; [by eapply grown|by eapply shared_for_grown].
  - apply flights_events; [|done]. intros channel key. rewrite elem_of_app, list_elem_of_singleton. split; [intros [H|H]; [done|by subst e; destruct (He channel key)]|by left].
Qed.

(** What is shared besides the cache and the flights. *)
Lemma calm_other s x y z n :
  host_ok s -> calm s (mkHost (cache s) (in_flight s) (channels s) x (isr_revalidating s) (claims s) y z n (events s)).
Proof. intros (Hd & Hf & Hc). by split; [split; [|split]|]. Qed.

(** The leader sends what it made. *)
Lemma calm_publish s id d key channel :
  host_ok s -> claim_of s id = LeaderOf key channel -> shared_for (events s) key (RenderCache.html d) -> calm s (flight_publish id d s).
Proof.
  intros ([Hd Hs] & (Ho & Hi & Hl & Hc & Hrest) & Hcache) Hclaim Hsh. unfold flight_publish. rewrite Hclaim. split; [|done].
  assert (claims s !! id = Some (LeaderOf key channel)) as Hid by (unfold claim_of in Hclaim; by destruct (claims s !! id); cbn in Hclaim; subst).
  destruct (Hi key channel (proj1 (Hl _ _ _ Hid))) as [Hop _]. split; [|split; [|done]].
  - split; [done|]. cbn. intros channel' c d' Hch Hsent. destruct (decide (channel' = channel)) as [->|Hne].
    + apply lookup_alter_Some in Hch as [(_ & c0 & Hc0 & ->)|[? _]]; [|done]. injection Hsent as <-. by exists key.
    + rewrite lookup_alter_ne in Hch by done. by eapply Hs.
  - split; [|split; [|split; [|split; [|exact Hrest]]]]; [|done|done|]; cbn.
    + intros channel' key' H. destruct (Ho channel' key' H) as [Hsm Hu]. split; [|done]. by apply lookup_alter_is_Some.
    + intros channel' c [(<- & c0 & Hc0 & ->)|[_ Hch]]%lookup_alter_Some Hopen; [by apply (Hc channel c0)|by apply (Hc channel' c)].
Qed.
(** Operations by which nothing claimed changes hands. *)
Definition quiet (op : Op) : bool := match op with FlightClaim _ | Release | SpawnRevalidation _ => false | _ => true end.

#[local] Abbreviation performs := (perform canonicalize).

Lemma calm_claim s s' id : calm s s' -> claim_of s' id = claim_of s id.
Proof. intros (_ & _ & H). unfold claim_of. by rewrite H. Qed.

Lemma calm_recorded s e c :
  host_ok s -> (forall channel key, e <> Opened channel key) -> calm s (with_cache c s) -> calm s (record_event e (with_cache c s)).
Proof. intros Hok He Hc. eapply calm_trans; [exact Hc|]. apply calm_event; [by destruct Hc|done]. Qed.

Lemma last_event s e : e ∈ events (record_event e s).
Proof. cbn. rewrite elem_of_app. right. by apply list_elem_of_singleton. Qed.

(** A document read from the cache, or received from a flight, is for its key. *)
Lemma read_fresh_shared s now key d : host_ok s -> read_fresh now key (cache s) = Some d -> shared_for (events s) key (RenderCache.html d).
Proof.
  intros ([Hd _] & _) H. unfold read_fresh in H. destruct (entries (cache s) !! key) as [e|] eqn:E; [|done]. destruct (_ <=? _)%N; [|done].
  injection H as <-. by apply Hd.
Qed.

Lemma received_shared s channel late d key :
  host_ok s -> received channel late s = Some (Some d) -> Opened channel key ∈ events s -> shared_for (events s) key (RenderCache.html d).
Proof.
  intros ([_ Hs] & (Ho & _) & _) H Hk. unfold received in H. destruct (channels s !! channel) as [c|] eqn:Hc; [|done]. cbn in H.
  destruct (sent c) as [d'|] eqn:Hsent; [|by destruct (closed c)]. destruct late; [by destruct (closed c)|]. injection H as ->.
  destruct (Hs channel c d Hc Hsent) as (key' & Hk' & Hsh). destruct (Ho channel key Hk) as [_ Hu]. by rewrite (Hu key' Hk') in Hsh.
Qed.

Ltac section c := eapply (calm_section _ c); [done| |by intros].

(** The sections of the cache. *)
Lemma cache_calm id task op a s s' : performs id task op a s s' -> host_ok s -> pre id op (claim_of s id) (events s) ->
  match op with
  | CountHit | CountMiss | CachePromote _ | CacheExpire _ | CachePut _ _ | AcknowledgeForced _ _ | CacheDropPath _ | CacheMark _ | CacheClear | CacheFailClosed | NewDocument _ => calm s s'
  | _ => True
  end.
Proof.
  intros Hp Hok Hpre. destruct op; cbn in Hp, Hpre |- *; try exact I.
  - subst s'. by section SHit.
  - subst s'. by section SMiss.
  - destruct Hp as (c & Hc & ->). section (SPromote key). cbn. by rewrite Hc.
  - destruct Hp as (now & c & Hc & ->). section (SExpire now key). cbn. by rewrite Hc.
  - destruct Hp as (now & c & Hc & ->). eapply (calm_section _ (SPut now key text)); [done|cbn; by rewrite Hc|]. by intros ? ? ? [= <- <- <-].
  - subst s'. apply calm_recorded; [done|done|]. by section (SAck path claim).
  - destruct Hp as (n & c & Hc & ->). unfold drop_path in Hc. section (SRetain (fun key => cache_key_matches_path key path)). cbn. by rewrite Hc.
  - subst s'. by section (SMark path).
  - subst s'. by section SClear.
  - subst s'. by section SFailClosed.
  - destruct Hp as [_ ->]. apply calm_with_cache; [done|by apply alloc_ok, Hok|]. intros k e Hk. by left.
Qed.

Lemma quiet_calm id task op a s s' : performs id task op a s s' -> host_ok s -> pre id op (claim_of s id) (events s) -> quiet op = true -> calm s s'.
Proof.
  intros Hp Hok Hpre Hq. pose proof (cache_calm id task op a s s' Hp Hok Hpre) as Hc. destruct op; try done; try exact Hc; clear Hc; cbn in Hp, Hpre.
  - destruct Hp as (now & _ & ->). by apply calm_refl.
  - destruct Hp as [_ ->]. by apply calm_refl.
  - destruct Hp as (now & _ & ->). by apply calm_refl.
  - destruct Hp as [_ ->]. by apply calm_event.
  - subst s'. destruct Hpre as (key & channel & Hc & Hs). by eapply calm_publish.
  - destruct Hp as [_ ->]. by apply calm_refl.
  - destruct Hp as [_ ->]. by apply calm_refl.
  - subst s'. by apply calm_other.
  - destruct Hp as [_ ->]. by apply calm_other.
  - subst s'. by apply calm_event.
  - destruct a as [text|]; [destruct Hp as [_ ->]; by apply calm_event|]. subst s'. by apply calm_refl.
  - destruct a; subst s'; [|by apply calm_refl].
    pose proof (calm_other s (request_scoped_routes s) (<[file:=text]> (prerendered s)) (hmr s) (request_counter s) Hok) as Hc.
    eapply calm_trans; [exact Hc|]. apply calm_event; [by destruct Hc|done].
  - subst s'. by apply calm_refl.
  - subst s'. by apply calm_refl.
  - subst s'. by apply calm_other.
Qed.

(** What a quiet operation answers. *)
Lemma quiet_post id task op a s s' :
  performs id task op a s s' -> host_ok s -> pre id op (claim_of s id) (events s) -> quiet op = true -> post id op a (claim_of s id) (claim_of s' id) (events s').
Proof.
  intros Hp Hok Hpre Hq. pose proof (calm_claim _ _ id (quiet_calm _ _ _ _ _ _ Hp Hok Hpre Hq)) as Hc.
  destruct op; try done; cbn in Hp |- *; try exact Hc; (split; [exact Hc|]).
  - destruct Hp as (now & -> & ->). intros d Hd. by eapply read_fresh_shared.
  - destruct Hp as (now & -> & ->). intros d age Hd. destruct (entries (cache s) !! key) as [e|] eqn:E; [|done]. injection Hd as <- <-. by apply Hok.
  - destruct Hp as (now & c & Hput & ->). exact (put_text _ _ _ _ _ _ Hput).
  - destruct Hp as [-> ->]. apply last_event.
  - by destruct Hp as [-> _].
  - destruct Hp as [Hr ->]. intros key d Hk ->. by eapply received_shared.
  - subst s'. apply last_event.
  - intros text ->. destruct Hp as [_ ->]. apply last_event.
Qed.
(** *** Claims change hands *)

Lemma claimed s id c : claim_of s id = c -> c <> NoClaim -> claims s !! id = Some c.
Proof. unfold claim_of. destruct (claims s !! id); cbn; by intros <-. Qed.

Lemma unclaimed s id : host_ok s -> claim_of s id = NoClaim -> claims s !! id = None.
Proof.
  intros (_ & (_ & _ & _ & _ & _ & _ & Hn) & _). unfold claim_of. destruct (claims s !! id) as [c|] eqn:E; [|done]. cbn. intros ->. by destruct (Hn id).
Qed.

Lemma claim_of_set id c s : claim_of (set_claim id c s) id = c.
Proof. destruct c; cbn; unfold claim_of; cbn; by rewrite ?lookup_delete_eq, ?lookup_insert_eq. Qed.

Lemma claim_of_set_ne id id' c s : id' <> id -> claim_of (set_claim id c s) id' = claim_of s id'.
Proof. intros Hne. destruct c; cbn; unfold claim_of; cbn; by rewrite ?lookup_delete_ne, ?lookup_insert_ne by done. Qed.

(** Who else holds what, when what is shared changed too. *)
Lemma claim_of_other id id' c s s1 : id' <> id -> claims s1 = claims s -> claim_of (set_claim id c s1) id' = claim_of s id'.
Proof. intros Hne H. rewrite claim_of_set_ne by done. unfold claim_of. by rewrite H. Qed.

(** A new flight. *)
Definition opened (id : N) (key : string) (channel : N) (s : Host) : Host :=
  record_event (Opened channel key) (set_claim id (LeaderOf key channel)
    (with_flight (<[key := channel]> (in_flight s)) (<[channel := mkChannel None false]> (channels s)) s)).

Lemma opened_documents id key channel s : channels s !! channel = None -> documents_ok s -> documents_ok (opened id key channel s).
Proof.
  intros Hnew [Hd Hs]. assert (events s `prefix_of` events s ++ [Opened channel key]) as Hw by by eexists. split; cbn.
  - intros k e Hk. eapply shared_for_grown; [exact Hw|by apply Hd].
  - intros channel' c d [[<- <-]|[_ Hch]]%lookup_insert_Some Hsent; [done|].
    destruct (Hs channel' c d Hch Hsent) as (key' & Ho & Hsh). exists key'. split; [by eapply grown|by eapply shared_for_grown].
Qed.

Lemma opened_flights id key channel s :
  channels s !! channel = None -> in_flight s !! key = None -> claims s !! id = None -> flights_ok s -> flights_ok (opened id key channel s).
Proof.
  intros Hnew Hkey Hid (Ho & Hi & Hl & Hc & Hsl & Hr & Hn).
  assert (forall key', ~ Opened channel key' ∈ events s) as Hnever by (intros key' H; destruct (Ho _ _ H) as [[? ?] _]; congruence).
  assert (forall id' c, claims s !! id' = Some c -> <[id := LeaderOf key channel]> (claims s) !! id' = Some c) as Hstill
    by (intros id' c H; rewrite lookup_insert_ne by congruence; done).
  split_and!; cbn.
  - intros channel' key'. rewrite elem_of_app, list_elem_of_singleton. intros [H|[= -> ->]].
    + destruct (Ho _ _ H) as [Hsm Hu]. split; [rewrite lookup_insert_ne by (intros ->; by destruct (Hnever key')); done|].
      intros key2. rewrite elem_of_app, list_elem_of_singleton. intros [H2|[= -> ->]]; [by apply Hu|by destruct (Hnever key')].
    + split; [by rewrite lookup_insert_eq|]. intros key2. rewrite elem_of_app, list_elem_of_singleton. intros [H2|[= ->]]; [by destruct (Hnever key2)|done].
  - intros key' channel' [[<- <-]|[Hne H]]%lookup_insert_Some.
    + split; [rewrite elem_of_app; right; by apply list_elem_of_singleton|]. exists id. by rewrite lookup_insert_eq.
    + destruct (Hi _ _ H) as [Hop [id' Hid']]. split; [rewrite elem_of_app; by left|]. exists id'. by apply Hstill.
  - intros id' key' channel' [[<- [= <- <-]]|[Hne H]]%lookup_insert_Some.
    + split; [by rewrite lookup_insert_eq|]. intros id2 [[<- _]|[_ H2]]%lookup_insert_Some; [done|]. destruct (Hl _ _ _ H2). congruence.
    + destruct (Hl _ _ _ H) as [Hf Hu]. split; [rewrite lookup_insert_ne by congruence; done|].
      intros id2 [[<- [= <- <-]]|[_ H2]]%lookup_insert_Some; [congruence|by apply Hu].
  - intros channel' c [[<- <-]|[_ Hch]]%lookup_insert_Some Hopen; [exists id, key; by rewrite lookup_insert_eq|].
    destruct (Hc _ _ Hch Hopen) as (id' & key' & H). exists id', key'. by apply Hstill.
  - intros id' key' [[_ [=]]|[_ H]]%lookup_insert_Some. destruct (Hsl _ _ H) as [Hin Hu]. split; [done|].
    intros id2 [[_ [=]]|[_ H2]]%lookup_insert_Some. by apply Hu.
  - intros key' Hin. destruct (Hr key' Hin) as [id' H]. exists id'. by apply Hstill.
  - intros id' [[_ [=]]|[_ H]]%lookup_insert_Some. by apply (Hn id').
Qed.

(** A flight is over: its leader is done. *)
Definition landed (id : N) (key : string) (channel : N) (s : Host) : Host :=
  set_claim id NoClaim (with_flight (delete key (in_flight s)) (alter (fun c => mkChannel (sent c) true) channel (channels s)) s).

Lemma landed_flights id key channel s :
  claims s !! id = Some (LeaderOf key channel) -> flights_ok s -> flights_ok (landed id key channel s).
Proof.
  intros Hid (Ho & Hi & Hl & Hc & Hsl & Hr & Hn). destruct (Hl _ _ _ Hid) as [Hkey Honly].
  split_and!; cbn.
  - intros channel' key' H. destruct (Ho _ _ H) as [Hsm Hu]. split; [by apply lookup_alter_is_Some|done].
  - intros key' channel' [Hne H]%lookup_delete_Some. destruct (Hi _ _ H) as [Hop [id' Hid']]. split; [done|].
    exists id'. rewrite lookup_delete_ne; [done|]. intros ->. congruence.
  - intros id' key' channel' [Hne H]%lookup_delete_Some. destruct (Hl _ _ _ H) as [Hf Hu]. split.
    + rewrite lookup_delete_ne; [done|]. intros ->. assert (channel' = channel) as -> by congruence. by destruct Hne; symmetry; apply Honly.
    + intros id2 [_ H2]%lookup_delete_Some. by apply Hu.
  - intros channel' c Hch Hopen. apply lookup_alter_Some in Hch as [(_ & c0 & _ & ->)|[Hne Hch]]; [done|].
    destruct (Hc _ _ Hch Hopen) as (id' & key' & H). exists id', key'. rewrite lookup_delete_ne; [done|]. intros ->. congruence.
  - intros id' key' [_ H]%lookup_delete_Some. destruct (Hsl _ _ H) as [Hin Hu]. split; [done|].
    intros id2 [_ H2]%lookup_delete_Some. by apply Hu.
  - intros key' Hin. destruct (Hr key' Hin) as [id' H]. exists id'. rewrite lookup_delete_ne; [done|]. intros ->. congruence.
  - intros id' [_ H]%lookup_delete_Some. by apply (Hn id').
Qed.

Lemma landed_documents id key channel s : documents_ok s -> documents_ok (landed id key channel s).
Proof.
  intros [Hd Hs]. split; [done|]. cbn. intros channel' c d [(<- & c0 & Hc0 & ->)|[_ Hch]]%lookup_alter_Some Hsent; [by apply (Hs channel c0)|by apply (Hs channel' c)].
Qed.

(** A revalidation begins, and ends. *)
Lemma slot_taken task key s :
  key ∉ isr_revalidating s -> claims s !! task = None -> flights_ok s -> flights_ok (set_claim task (SlotOf key) (with_revalidating ({[key]} ∪ isr_revalidating s) s)).
Proof.
  intros Hkey Htask (Ho & Hi & Hl & Hc & Hsl & Hr & Hn).
  assert (forall id c, claims s !! id = Some c -> <[task := SlotOf key]> (claims s) !! id = Some c) as Hstill by (intros id c H; rewrite lookup_insert_ne by congruence; done).
  split_and!; cbn; [done|..].
  - intros key' channel H. destruct (Hi _ _ H) as [Hop [id Hid]]. split; [done|]. exists id. by apply Hstill.
  - intros id key' channel [[_ [=]]|[_ H]]%lookup_insert_Some. destruct (Hl _ _ _ H) as [Hf Hu]. split; [done|].
    intros id2 [[_ [=]]|[_ H2]]%lookup_insert_Some. by apply Hu.
  - intros channel c Hch Hopen. destruct (Hc _ _ Hch Hopen) as (id & key' & H). exists id, key'. by apply Hstill.
  - intros id key' [[<- [= <-]]|[_ H]]%lookup_insert_Some.
    + split; [set_solver|]. intros id2 [[<- _]|[_ H2]]%lookup_insert_Some; [done|]. by destruct (Hsl _ _ H2).
    + destruct (Hsl _ _ H) as [Hin Hu]. split; [set_solver|]. intros id2 [[<- [= <-]]|[_ H2]]%lookup_insert_Some; [done|by apply Hu].
  - intros key' [->%elem_of_singleton|Hin]%elem_of_union; [exists task; by rewrite lookup_insert_eq|].
    destruct (Hr key' Hin) as [id H]. exists id. by apply Hstill.
  - intros id [[_ [=]]|[_ H]]%lookup_insert_Some. by apply (Hn id).
Qed.

Lemma slot_given_up id key s :
  claims s !! id = Some (SlotOf key) -> flights_ok s -> flights_ok (set_claim id NoClaim (with_revalidating (isr_revalidating s ∖ {[key]}) s)).
Proof.
  intros Hid (Ho & Hi & Hl & Hc & Hsl & Hr & Hn). destruct (Hsl _ _ Hid) as [_ Honly]. split_and!; cbn; [done|..].
  - intros key' channel H. destruct (Hi _ _ H) as [Hop [id' Hid']]. split; [done|]. exists id'. rewrite lookup_delete_ne; [done|]. intros ->. congruence.
  - intros id' key' channel [Hne H]%lookup_delete_Some. destruct (Hl _ _ _ H) as [Hf Hu]. split; [done|]. intros id2 [_ H2]%lookup_delete_Some. by apply Hu.
  - intros channel c Hch Hopen. destruct (Hc _ _ Hch Hopen) as (id' & key' & H). exists id', key'. rewrite lookup_delete_ne; [done|]. intros ->. congruence.
  - intros id' key' [Hne H]%lookup_delete_Some. destruct (Hsl _ _ H) as [Hin Hu]. split.
    + apply elem_of_difference. split; [done|]. intros ->%elem_of_singleton. by destruct Hne; symmetry; apply Honly.
    + intros id2 [_ H2]%lookup_delete_Some. by apply Hu.
  - intros key' [Hin Hne]%elem_of_difference. destruct (Hr key' Hin) as [id' H]. exists id'. rewrite lookup_delete_ne; [done|]. intros ->. set_solver.
  - intros id' [_ H]%lookup_delete_Some. by apply (Hn id').
Qed.
Lemma claim_opened s id key :
  host_ok s -> in_flight s !! key = None -> claim_of s id = NoClaim -> host_ok (opened id key (fresh (dom (channels s))) s).
Proof.
  intros Hok Hkey Hid. pose proof (unclaimed _ _ Hok Hid) as Hnone. assert (channels s !! fresh (dom (channels s)) = None) as Hnew by apply not_elem_of_dom, is_fresh.
  destruct Hok as (Hd & Hf & Hc). split; [by apply opened_documents|]. split; [by apply opened_flights|done].
Qed.

Lemma release_ok s id : host_ok s -> host_ok (release id s) /\ events (release id s) = events s /\ (forall id', id' <> id -> claim_of (release id s) id' = claim_of s id') /\
  claim_of (release id s) id = NoClaim.
Proof.
  intros Hok. unfold release. destruct (claim_of s id) as [|key channel|key] eqn:Hcl; [done|..];
    (split; [|split; [done|split; [|apply claim_of_set]]]); [|by intros id' Hne; apply claim_of_other| |by intros id' Hne; apply claim_of_other];
    apply claimed in Hcl; try done; destruct Hok as (Hd & Hf & Hc).
  - pose proof Hf as (_ & _ & Hl & _). destruct (Hl _ _ _ Hcl) as [Hkey _]. rewrite bool_decide_true by done.
    split; [by apply landed_documents|]. split; [by apply landed_flights|done].
  - split; [done|]. split; [by apply slot_given_up|done].
Qed.

Lemma release_closes s id key channel : host_ok s -> claim_of s id = LeaderOf key channel -> exists c, channels (release id s) !! channel = Some c /\ closed c = true.
Proof.
  intros (_ & (Ho & Hi & Hl & _) & _) Hcl. pose proof (claimed _ _ _ Hcl ltac:(done)) as Hid. destruct (Hi _ _ (proj1 (Hl _ _ _ Hid))) as [Hop _].
  destruct (Ho _ _ Hop) as [[c Hc] _]. unfold release. rewrite Hcl. cbn. exists (mkChannel (sent c) true). by rewrite lookup_alter_eq, Hc.
Qed.

Lemma same_claims s s' : claims s' = claims s -> forall id, claim_of s' id = claim_of s id.
Proof. intros H id. unfold claim_of. by rewrite H. Qed.

Lemma quiet_spawns op (a : Ans op) : quiet op = true -> spawned op a = None.
Proof. by destruct op. Qed.

(** What every operation owes ([sound_operations]). *)
Definition operation_sound (id task : N) (op : Op) (a : Ans op) (s s' : Host) : Prop :=
  host_ok s' /\ events s `prefix_of` events s' /\ only_local claim_of id task s s' /\ post id op a (claim_of s id) (claim_of s' id) (events s') /\
  match spawned op a with
  | Some p => safely task p (outcome_ok task) (claim_of s' task) (events s')
  | None => claim_of s' task = NoClaim
  end.

Lemma flight_claim_sound id task key a s s' :
  flight_claim id key s = (a, s') -> host_ok s -> id <> task -> claim_of s task = NoClaim -> claim_of s id = NoClaim -> operation_sound id task (FlightClaim key) a s s'.
Proof.
  intros Hp Hok Hne Htask Hid. unfold flight_claim in Hp. destruct (in_flight s !! key) as [channel|] eqn:Hkey; injection Hp as <- <-; unfold operation_sound; cbn [spawns].
  - split; [done|]. split; [done|]. split; [by intros|]. split; [|done]. split; [done|]. destruct Hok as (_ & (_ & Hi & _) & _). by destruct (Hi _ _ Hkey).
  - split; [by apply claim_opened|]. split; [by eexists|]. split; [intros id' H _; by apply (claim_of_other id)|].
    split; [eexists; apply (claim_of_set id)|]. rewrite <- Htask. by apply (claim_of_other id).
Qed.

Lemma spawn_sound id task r a s s' :
  slot_claim task (revalidate_key r) s = (a, s') -> host_ok s -> id <> task -> claim_of s task = NoClaim ->
  (exists namespace, revalidate_key r = page_key namespace (revalidate_request r) (revalidate_params r)) -> operation_sound id task (SpawnRevalidation r) a s s'.
Proof.
  intros Hp Hok Hne Htask Hpre. unfold slot_claim in Hp. case_bool_decide as Hin; injection Hp as <- <-; unfold operation_sound; cbn [spawns].
  - by split.
  - pose proof (unclaimed _ _ Hok Htask) as Hnone. destruct Hok as (Hd & Hf & Hc).
    split; [split; [done|split; [by apply slot_taken|done]]|]. split; [done|]. split; [intros id' _ H; by apply claim_of_other|].
    split; [by apply claim_of_other|]. rewrite claim_of_set. by apply task_safe.
Qed.

Lemma performed_sound id task op a s s' :
  performs id task op a s s' -> host_ok s -> id <> task -> claim_of s task = NoClaim -> pre id op (claim_of s id) (events s) -> operation_sound id task op a s s'.
Proof.
  intros Hp Hok Hne Htask Hpre. destruct (quiet op) eqn:Hq.
  - destruct (quiet_calm _ _ _ _ _ _ Hp Hok Hpre Hq) as (Hok' & Hw & Hcl). pose proof (quiet_post _ _ _ _ _ _ Hp Hok Hpre Hq) as Hpost.
    split; [done|]. split; [done|]. split; [intros id' _ _; by apply same_claims|]. split; [done|]. rewrite quiet_spawns by done. by rewrite (same_claims s s').
  - destruct op; try done.
    + by apply flight_claim_sound.
    + cbn in Hp. subst s'. destruct (release_ok s id Hok) as (Hok' & Hev & Hcl & Hno). split; [done|]. split; [by rewrite Hev|]. split; [by intros id' H _; apply Hcl|].
      split; [done|]. cbn. by rewrite Hcl.
    + by apply spawn_sound.
Qed.

(** *** The order of things *)

Lemma history_grows s s' e : events s' = events s ++ [e] -> looked_first (events s) e -> history_ok s -> history_ok s'.
Proof.
  intros He Hl H before e' after Hs. rewrite He in Hs. destruct after as [|x after _] using rev_ind.
  - by apply app_inj_tail in Hs as [<- <-].
  - rewrite app_comm_cons, app_assoc in Hs. apply app_inj_tail in Hs as [Hs _]. by eapply H.
Qed.

Lemma history_same s s' : events s' = events s -> history_ok s -> history_ok s'.
Proof. intros He H before e after Hs. eapply H. by rewrite <- He. Qed.

Lemma performed_history id task op a s s' : performs id task op a s s' -> pre id op (claim_of s id) (events s) -> history_ok s -> history_ok s'.
Proof.
  intros Hp Hpre H. destruct op; cbn in Hp, Hpre; try (destruct_and?; subst; exact H); try (destruct Hp as (? & ? & ? & ->); exact H).
  all: try by (destruct Hp as (? & ? & ->)).
  - destruct Hp as [_ ->]. by eapply history_grows.
  - subst s'. by eapply history_grows.
  - unfold flight_claim in Hp. destruct (in_flight s !! key); injection Hp as _ <-; [done|]. by eapply history_grows.
  - subst s'. eapply history_same; [|exact H]. unfold flight_publish. by destruct (claim_of s id).
  - subst s'. eapply history_same; [|exact H]. unfold release. by destruct (claim_of s id).
  - unfold slot_claim in Hp. case_bool_decide; injection Hp as _ <-; done.
  - subst s'. by eapply history_grows.
  - destruct a as [text|]; [|by subst s']. destruct Hp as [_ ->]. by eapply history_grows.
  - destruct a; [|by subst s']. subst s'. by eapply history_grows.
Qed.

(** Every operation, a dropped request and a new one keep the invariant. *)
Lemma operations_sound :
  sound_operations (S := Host) (Out := Outcome) performs release spawned (arrives config params_json to_string hmr_client_script base64_encode contained)
    prefix events claim_of NoClaim pre post (fun s => host_ok s /\ history_ok s) outcome_ok.
Proof.
  split.
  - intros id task op a s s' Hp [Hok Hh] Hne Htask Hpre. destruct (performed_sound _ _ _ _ _ _ Hp Hok Hne Htask Hpre) as [Hok' Hrest].
    split; [split; [done|by eapply performed_history]|exact Hrest].
  - intros id s [Hok Hh]. destruct (release_ok s id Hok) as (Hok' & Hev & Hcl & Hno). split; [split; [done|by eapply history_same]|]. split; [by rewrite Hev|]. split; [|done]. by intros id' H _; apply Hcl.
  - intros p Hp id w. by apply arriving_safe.
Qed.

Lemma started_host_ok capacity ttl_secs built : host_ok (started_host capacity ttl_secs built).
Proof.
  split; [|split; [|apply new_cache_ok]].
  - split; cbn; intros; by rewrite ?lookup_empty in *.
  - split_and!; cbn; intros; rewrite ?lookup_empty in *; try done; by set_solver.
Qed.

#[local] Abbreviation steps := (server_step config params_json to_string hmr_client_script base64_encode contained canonicalize).

(** A server that was started and has run for a while. *)
Definition runs (capacity ttl_secs : N) (built : gmap PathBuf string) (s : Server) : Prop := rtc steps (server (started_host capacity ttl_secs built)) s.

Lemma runs_ok capacity ttl_secs built s : runs capacity ttl_secs built s -> system_ok prefix events claim_of NoClaim pre post (fun s => host_ok s /\ history_ok s) outcome_ok s.
Proof.
  intros Hr. eapply (reachable_ok _ _ _ _ _ _ _ _ _ _ _ _ _ _ operations_sound Hr). split; [split; [apply started_host_ok|by intros []]|]. split; [by intros id [? ?]|]. split; [done|]. by intros id p.
Qed.
(** *** Nobody waits forever *)

#[local] Abbreviation arriving := (arrives config params_json to_string hmr_client_script base64_encode contained).
#[local] Abbreviation all_ok := (system_ok prefix events claim_of NoClaim pre post (fun s => host_ok s /\ history_ok s) outcome_ok).

(** Everything but waiting can be done at once. *)
Lemma section_runs s section : host_ok s -> exists c ds, run_one section (cache s, []) = Some (c, ds).
Proof. intros (_ & _ & Hc). destruct (section_ok (fun _ => None) section _ Hc) as ([c ds] & H & _). by exists c, ds. Qed.

Lemma perform_total id task op s : host_ok s -> match op with FlightReceive _ _ => False | _ => True end -> exists a s', performs id task op a s s'.
Proof.
  intros Hok Hop. destruct op; try done; cbn; try (exists tt; eexists; done); try (eexists; eexists; apply conj; reflexivity).
  - eexists. eexists. by exists 0%N.
  - eexists. eexists. by exists 0%N.
  - destruct (section_runs s (SPromote key) Hok) as (c & ds & H). cbn [RenderCache.run] in H. destruct (promote_key key (cache s)) as [c'|] eqn:E; [|done]. by exists tt, (with_cache c' s), c'.
  - destruct (section_runs s (SExpire 0 key) Hok) as (c & ds & H). cbn [RenderCache.run] in H. destruct (remove_if_expired 0 key (cache s)) as [c'|] eqn:E; [|done]. by exists tt, (with_cache c' s), 0%N, c'.
  - destruct (section_runs s (SPut 0 key text) Hok) as (c & ds & H). cbn [RenderCache.run] in H. destruct (put 0 key text (cache s)) as [[d c']|] eqn:E; [|done]. by exists d, (with_cache c' s), 0%N, c'.
  - destruct (section_runs s (SRetain (fun key => cache_key_matches_path key path)) Hok) as (c & ds & H). cbn [RenderCache.run] in H. unfold drop_path.
    destruct (retain_matching _ (cache s)) as [[n c']|] eqn:E; [|done]. by exists tt, (with_cache c' s), n, c'.
  - destruct (flight_claim id key s) as [a s'] eqn:E. by exists a, s'.
  - destruct (slot_claim task (revalidate_key r) s) as [a s'] eqn:E. by exists a, s'.
  - by exists (inr (EMessage "")), (record_event (Asked id r (inr (EMessage ""))) s).
  - by exists None, s.
  - by exists false, s.
  - by exists "", s.
  - by exists None, s.
Qed.

Lemma post_keeps id op a c c' w : post id op a c c' w -> match op with Release | FlightClaim _ => True | _ => c' = c end.
Proof. destruct op; cbn; try done; by intros []. Qed.

Lemma wants s id op k : all_ok s -> programs s !! id = Some (Act op k) -> pre id op (claim_of (shared s) id) (events (shared s)).
Proof. intros Hok Hp. eapply (wanting_ok prefix); [exact Hok|exact Hp]. Qed.

Lemma ended s id out : all_ok s -> programs s !! id = Some (Ret out) -> outcome_ok id out (claim_of (shared s) id) (events (shared s)).
Proof. intros Hok Hp. eapply (finished_ok prefix); [exact Hok|exact Hp]. Qed.

(** A program takes its step. *)
Lemma act_step s id op k a state' :
  all_ok s -> programs s !! id = Some (Act op k) -> performs id (next_id s) op a (shared s) state' ->
  exists s', steps s s' /\ all_ok s' /\ shared s' = state' /\ programs s' !! id = Some (k a) /\
    forall id', id' <> id -> is_Some (programs s !! id') -> programs s' !! id' = programs s !! id'.
Proof.
  intros Hok Hp Hperf. 
  pose proof (acted_ok performs release spawned arriving prefix events claim_of NoClaim pre post (fun s => host_ok s /\ history_ok s) outcome_ok
    _ _ _ _ _ _ operations_sound Hok Hp Hperf) as [Hok' _].
  pose proof (next_is_new _ (proj1 (proj2 Hok))) as Hnew. eexists. split; [by eapply step_acts|]. split; [done|].
  split; [by destruct (spawned op a)|]. split; [|intros id' Hne [p' Hp']];
    (destruct (spawned op a); cbn; [rewrite lookup_insert_ne by congruence|]); [by rewrite lookup_insert_eq..|by rewrite lookup_insert_ne by done|by rewrite lookup_insert_ne by done].
Qed.

Definition is_closed (channel : N) (s : Host) : Prop := exists c, channels s !! channel = Some c /\ closed c = true.

(** A leader gives up its flight, if it is let run. *)
Lemma leader_lands p : forall s id key channel, all_ok s -> programs s !! id = Some p -> claim_of (shared s) id = LeaderOf key channel ->
  exists s', rtc steps s s' /\ all_ok s' /\ is_closed channel (shared s') /\ forall id', id' <> id -> is_Some (programs s !! id') -> programs s' !! id' = programs s !! id'.
Proof.
  induction p as [out|op k IH]; intros s id key channel Hok Hp Hcl.
  - destruct (ended _ _ _ Hok Hp) as [Hno _]. congruence.
  - pose proof (wants _ _ _ _ Hok Hp) as Hpre. rewrite Hcl in Hpre. pose proof Hok as ([Hh _] & Hn & Hl & _). pose proof (next_is_new _ Hn) as Hnew.
    destruct (perform_total id (next_id s) op (shared s) Hh) as (a & state' & Hperf); [destruct op; try exact I; by destruct Hpre as [? _]|].
    destruct (act_step _ _ _ _ _ _ Hok Hp Hperf) as (s1 & Hst & Hok1 & Hsh & Hp1 & Hothers).
    assert (is_closed channel (shared s1) \/ claim_of (shared s1) id = LeaderOf key channel) as [Hclosed|Hcl1].
    { rewrite Hsh. destruct (performed_sound _ _ _ _ _ _ Hperf Hh ltac:(congruence) (Hl _ Hnew) ltac:(by rewrite Hcl)) as (_ & _ & _ & Hpost & _).
      apply post_keeps in Hpost. destruct op; try (right; congruence). left. cbn in Hperf. subst state'. by eapply release_closes. }
    + exists s1. split; [by apply rtc_once|done].
    + destruct (IH a s1 id key channel Hok1 Hp1 Hcl1) as (s' & Hr & Hok' & Hclosed & Ho). exists s'. split; [by eapply rtc_l|]. split; [done|]. split; [done|].
      intros id' Hne Hsome. rewrite Ho; [by apply Hothers|done|by rewrite Hothers].
Qed.
(** A follower can go on once its flight is over. *)
Lemma closed_received channel late s : is_closed channel s -> is_Some (received channel late s).
Proof. intros (c & Hc & Hcl). unfold received. rewrite Hc. cbn. rewrite Hcl. destruct (sent c); [|done]. by destruct late. Qed.

(** Whoever wants something gets it, after the leader it waits for has given up its flight. *)
Lemma will_act s id op k : all_ok s -> programs s !! id = Some (Act op k) ->
  exists s1 a state', rtc steps s s1 /\ all_ok s1 /\ programs s1 !! id = Some (Act op k) /\ performs id (next_id s1) op a (shared s1) state'.
Proof.
  intros Hok Hp. pose proof (wants _ _ _ _ Hok Hp) as Hpre. pose proof Hok as ([Hh _] & _ & Hl & _).
  assert (match op with FlightReceive _ _ => False | _ => True end \/ exists channel late, op = FlightReceive channel late) as [Hop|(channel & late & ->)]
    by (destruct op; try (by left); right; by eexists _, _).
  - destruct (perform_total id (next_id s) op (shared s) Hh Hop) as (a & state' & H). by exists s, a, state'.
  - destruct Hpre as [Hno [key Hopen]]. pose proof Hh as (_ & (Ho & _ & _ & Hc & _) & _). destruct (Ho _ _ Hopen) as [[c Hch] _].
    destruct (closed c) eqn:Hcl.
    + destruct (closed_received channel late (shared s) ltac:(by exists c)) as [a Ha]. by exists s, a, (shared s).
    + destruct (Hc _ _ Hch Hcl) as (leader & key' & Hlead). assert (claim_of (shared s) leader = LeaderOf key' channel) as Hlc by (unfold claim_of; by rewrite Hlead).
      destruct (programs s !! leader) as [p|] eqn:Hpl; [|specialize (Hl _ Hpl); congruence].
      destruct (leader_lands p s leader key' channel Hok Hpl Hlc) as (s1 & Hr & Hok1 & Hclosed & Hothers).
      destruct (closed_received channel late (shared s1) Hclosed) as [a Ha]. exists s1, a, (shared s1). split; [done|]. split; [done|].
      split; [|done]. rewrite Hothers; [done| |by eexists]. intros ->. congruence.
Qed.

Lemma will_finish p : forall s id, all_ok s -> programs s !! id = Some p -> exists s' out, rtc steps s s' /\ programs s' !! id = Some (Ret out).
Proof.
  induction p as [out|op k IH]; intros s id Hok Hp; [by exists s, out|].
  destruct (will_act s id op k Hok Hp) as (s1 & a & state' & Hr & Hok1 & Hp1 & Hperf).
  destruct (act_step _ _ _ _ _ _ Hok1 Hp1 Hperf) as (s2 & Hst & Hok2 & _ & Hp2 & _).
  destruct (IH a s2 id Hok2 Hp2) as (s' & out & Hr' & Hout). exists s', out. split; [|done]. etransitivity; [exact Hr|]. by eapply rtc_l.
Qed.

(** *** Schedules are runs *)

Lemma perform_with_sound id task op i s a s' : perform_with id task op i s = Some (a, s') -> performs id task op a s s'.
Proof.
  destruct op; cbn [perform_with perform]; intros H; try (injection H as <- <-; done); try (by injection H).
  - injection H as <- <-. by exists (at_time i).
  - injection H as <- <-. by exists (at_time i).
  - destruct (promote_key key (cache s)) as [c|] eqn:E; [|done]. injection H as <- <-. by exists c.
  - destruct (remove_if_expired (at_time i) key (cache s)) as [c|] eqn:E; [|done]. injection H as <- <-. by exists (at_time i), c.
  - destruct (put (at_time i) key text (cache s)) as [[d c]|] eqn:E; [|done]. injection H as <- <-. by exists (at_time i), c.
  - destruct (drop_path path (cache s)) as [[n c]|] eqn:E; [|done]. injection H as <- <-. by exists n, c.
  - by destruct (received channel late s); [|done]; injection H as <- <-.
  - destruct (prerendered s !! file) as [text|] eqn:E; by injection H as <- <-.
  - destruct (written i); by injection H as <- <-.
Qed.

Lemma foldl_none {A B} (f : A -> B -> option A) (l : list B) : foldl (fun s m => s ≫= fun s => f s m) None l = None.
Proof. by induction l. Qed.

Lemma play_runs moves s s' : play moves s = Some s' -> rtc steps s s'.
Proof.
  revert s. induction moves as [|m moves IH]; intros s H; [injection H as <-; done|]. unfold play in H. cbn [foldl] in H.
  destruct (Some s ≫= (fun s => play_move s m)) as [s1|] eqn:E; [|rewrite foldl_none in H; done]. eapply rtc_l; [|by apply IH]. cbn in E.
  destruct m as [route request params styles|paths|id i]; cbn [play_move] in E; [injection E as <-; apply step_arrives, page_arrives|injection E as <-; apply step_arrives; exact (revalidations_arrive config params_json to_string hmr_client_script base64_encode contained (Some paths))|].
  destruct (programs s !! id) as [[|op k]|] eqn:Hp; [done| |done].
  destruct (perform_with id (next_id s) op i (shared s)) as [[a state']|] eqn:Hw; [|done]. injection E as <-. eapply step_acts; [exact Hp|by eapply perform_with_sound].
Qed.

(** ** Properties *)

(** C31: no document of one visitor reaches another.  However requests, revalidations and background tasks take turns, every document in the render cache was made, for the path and the parameters of its key, from a worker's answer that read nothing of a request (or is a document of the build, of the project's store, a shell or a client bundle), and every page that was answered is such a document for its own path and parameters, or was made from a worker's answer to this very request. *)
Theorem no_private_document_is_shared capacity ttl_secs built s :
  runs capacity ttl_secs built s ->
  (forall key e, entries (cache (shared s)) !! key = Some e -> shared_for (events (shared s)) key (value e)) /\
  (forall id route request params r, programs s !! id = Some (Ret (PageDone route request params (inl r))) -> answer_ok id route request params r (events (shared s))).
Proof.
  intros Hr%runs_ok. split; [apply Hr|]. intros id route request params r Hp. by destruct (ended _ _ _ Hr Hp) as [_ H].
Qed.

(** C32: nobody waits forever on a shared render.  In every state the server reaches, every program that runs can be brought to its end: what it wants can be done, if need be after the leader of the flight it follows has been let run until it gave that flight up. *)
Theorem every_request_can_finish capacity ttl_secs built s id p :
  runs capacity ttl_secs built s -> programs s !! id = Some p -> exists s' out, rtc steps s s' /\ programs s' !! id = Some (Ret out).
Proof. intros Hr%runs_ok Hp. by eapply will_finish. Qed.

(** C33: a key is rendered once at a time.  No two requests lead a flight for one key, no two background tasks revalidate one key, and a claim ends with who held it: a program that is done, or was dropped, holds none. *)
Theorem renders_are_coalesced capacity ttl_secs built s :
  runs capacity ttl_secs built s ->
  (forall key id id' channel channel', claim_of (shared s) id = LeaderOf key channel -> claim_of (shared s) id' = LeaderOf key channel' -> id = id') /\
  (forall key id id', claim_of (shared s) id = SlotOf key -> claim_of (shared s) id' = SlotOf key -> id = id') /\
  (forall id, (forall op k, programs s !! id <> Some (Act op k)) -> claim_of (shared s) id = NoClaim).
Proof.
  intros Hr%runs_ok. pose proof Hr as ([(_ & (_ & _ & Hl & _ & Hs & _) & _) _] & _ & Hn & _). split; [|split].
  - intros key id id' channel channel' H1 H2. apply claimed in H1, H2; try done. destruct (Hl _ _ _ H1) as [Hf1 _], (Hl _ _ _ H2) as [Hf2 Hu].
    apply Hu. congruence.
  - intros key id id' H1 H2. apply claimed in H1, H2; try done. destruct (Hs _ _ H2) as [_ Hu]. by apply Hu.
  - intros id Hp. destruct (programs s !! id) as [[out|op k]|] eqn:E; [by destruct (ended _ _ _ Hr E)|by destruct (Hp op k)|by apply Hn].
Qed.

(** C34: [revalidatePath()] is kept to what a request saw.  A document of the build is only read by a request that had looked and found no revalidation of its path pending, and is only replaced, or a revalidation retired, by one that had found that revalidation pending. *)
Theorem revalidations_are_looked_for capacity ttl_secs built s before e after :
  runs capacity ttl_secs built s -> events (shared s) = before ++ e :: after -> looked_first before e.
Proof. intros Hr%runs_ok. destruct Hr as ([_ Hh] & _). apply Hh. Qed.
End sharing.

(** *** Concrete runs *)

Module Example_site.
Definition config : ServerConfig := mkServerConfig "/p" "/p/app" "/p/out" false false false None.
Definition page_route : RouteEntry :=
  mkRouteEntry "x" "/x" Page "/p/app/x/page.tsx" [] [] [] [] [] [] RNode (mkRenderMeta Manifest.Ssg None false [] false HNone false false).
Definition visit : PageRequestContext := mkPageRequest "/x" "/x" [] "GET" None.
Definition answer (text : string) : WorkerResponse :=
  mkResponse "" true None (Some text) None None None None None None None None None None None None None None None None None None None None None None None None.
Definition step_of (id : N) : Move := Acts id (mkInput 0 (inr (EMessage "")) "" None true).
Definition answered (id : N) (text : string) : Move := Acts id (mkInput 0 (inl (answer text)) "" None true).
Definition visited : Move := PageArrives page_route visit ∅ "".
Definition playing (built : gmap PathBuf string) (moves : list Move) :=
  play config (fun _ => "{}") (fun _ => "null") "" id Some Some moves (server (started_host 16 300 built)).
Abbreviation run_of := (runs config (fun _ => "{}") (fun _ => "null") "" id Some Some 16 300).

Lemma playing_runs built moves s : playing built moves = Some s -> run_of built s.
Proof. apply play_runs. Qed.

(** The text a program answered with. *)
Definition answer_of (id : N) (s : System (Op := Op) (Ans := Ans) (S := Host) (Out := Outcome)) : option string :=
  match programs s !! id with Some (Ret (PageDone _ _ _ (inl r))) => Some (RenderCache.html (document r)) | _ => None end.

(** A page reads the build's document; [revalidatePath()] comes and goes; the page stores what it read; the next visitor is served it. *)
Definition stale_store : list Move :=
  [visited] ++ replicate 6 (step_of 0) ++ [RevalidationsArrive ["/x"]] ++ replicate 2 (step_of 1) ++ replicate 3 (step_of 0) ++ [visited] ++ replicate 3 (step_of 2).
Definition built_page : gmap PathBuf string := {[ "/p/out/x/index.html" := "old" ]}.

(** Two revalidations, and a render for each: the one for the first ends last. *)
Definition late_render : list Move :=
  [RevalidationsArrive ["/x"]] ++ replicate 2 (step_of 0) ++ [visited] ++ replicate 5 (step_of 1) ++ [answered 1 "before"; step_of 1] ++
  [RevalidationsArrive ["/x"]] ++ replicate 2 (step_of 2) ++ [visited] ++ replicate 5 (step_of 3) ++ [answered 3 "after"] ++ replicate 4 (step_of 3) ++ replicate 3 (step_of 1).

(** Two visitors after one revalidation. *)
Definition burst : list Move :=
  [RevalidationsArrive ["/x"]] ++ replicate 2 (step_of 0) ++ [visited; visited] ++ replicate 5 (step_of 1) ++ [answered 1 "one"] ++ replicate 5 (step_of 2) ++ [answered 2 "two"].

Definition is_asked (e : Event) : bool := match e with Asked _ _ _ => true | _ => false end.
Definition document_at (file : PathBuf) (s : System (Op := Op) (Ans := Ans) (S := Host) (Out := Outcome)) : string := default "" (prerendered (shared s) !! file).

(** What a run shows. *)
Lemma playing_shows {A} built moves (f : System (Op := Op) (Ans := Ans) (S := Host) (Out := Outcome) -> A) a : f <$> playing built moves = Some a -> exists s, run_of built s /\ f s = a.
Proof. intros (s & Hs & ->)%fmap_Some. exists s. split; [by eapply playing_runs|done]. Qed.
End Example_site.

Import Example_site.

(** A page that read the build's document before [revalidatePath()] stores it afterwards, and everyone who comes later is served it from the cache while the revalidation is pending. *)
Example a_render_from_before_outlives_its_revalidation :
  exists s, run_of built_page s /\ (answer_of 2 s, forced_claim "/x" (cache (shared s))) = (Some "old", Some (Exact 1)).
Proof. apply (playing_shows _ stale_store). by vm_compute. Qed.

(** A slow render for a revalidation overwrites the document made for a later one, after both were retired. *)
Example a_late_render_replaces_a_newer_document :
  exists s, run_of built_page s /\
    (contains_str "after" <$> answer_of 3 s, forced_claim "/x" (cache (shared s)), contains_str "before" (document_at "/p/out/x/index.html" s)) = (Some true, None, true).
Proof. apply (playing_shows _ late_render). by vm_compute. Qed.

(** After a revalidation everyone renders alone until it is retired. *)
Example a_burst_renders_as_often_as_it_asks :
  exists s, run_of built_page s /\ (length (filter (fun e => is_asked e = true) (events (shared s))), claim_of (shared s) 1, claim_of (shared s) 2) = (2, NoClaim, NoClaim).
Proof. apply (playing_shows _ burst). by vm_compute. Qed.

(** A page without an [<html>] of its own declares its viewport twice: once for the shell it is put into, once among the head's defaults. *)
Example a_fragment_declares_two_viewports :
  page_document config (fun _ => "null") "" page_route "/x" ∅ "" "" "hello" "" None =
  "<!doctype html><html lang=" +:+ dq +:+ "en" +:+ dq +:+ "><head><meta charset=" +:+ dq +:+ "utf-8" +:+ dq +:+ ">" +:+ DEFAULT_VIEWPORT_META +:+ DEFAULT_VIEWPORT_META +:+ "</head><body>hello</body></html>".
Proof. by vm_compute. Qed.

(** *** Witnesses *)

(** A visit to a page that reads its request. *)
Definition private_visit : list Move := [PageArrives (mkRouteEntry "x" "/x" Page "/p/app/x/page.tsx" [] [] [] [] [] [] RNode (mkRenderMeta Manifest.Ssr None false [] false HNone false true)) visit ∅ ""] ++
  replicate 2 (step_of 0) ++ [answered 0 "mine"] ++ replicate 2 (step_of 0).

Lemma no_private_document_is_shared_witness :
  exists s, run_of ∅ s /\ contains_str "mine" <$> answer_of 0 s = Some true /\
    forall n route request params r, programs s !! n = Some (Ret (PageDone route request params (inl r))) ->
      answer_ok config (fun _ => "{}") (fun _ => "null") "" id Some n route request params r (events (shared s)).
Proof.
  destruct (playing_shows ∅ private_visit (fun s => contains_str "mine" <$> answer_of 0 s) (Some true)) as (s & Hr & Hs); [by vm_compute|].
  exists s. split; [done|]. split; [done|]. exact (proj2 (no_private_document_is_shared _ _ _ _ _ _ _ _ _ _ s Hr)).
Defined.

(** Two visitors at once: the second waits for the first. *)
Definition two_visits : list Move := [visited; visited] ++ replicate 5 (step_of 0) ++ replicate 5 (step_of 1).

Definition wanted_by (n : N) (s : System (Op := Op) (Ans := Ans) (S := Host) (Out := Outcome)) : option Op :=
  match programs s !! n with Some (Act op _) => Some op | _ => None end.

Lemma every_request_can_finish_witness :
  exists s, run_of built_page s /\ wanted_by 1 s = Some (FlightReceive 0 false) /\
    exists s' out, rtc (server_step config (fun _ => "{}") (fun _ => "null") "" id Some Some) s s' /\ programs s' !! 1%N = Some (Ret out).
Proof.
  destruct (playing_shows built_page two_visits (wanted_by 1) (Some (FlightReceive 0 false))) as (s & Hr & Hs); [by vm_compute|].
  exists s. split; [done|]. split; [done|]. unfold wanted_by in Hs. destruct (programs s !! 1%N) as [p|] eqn:Hp; [|done].
  exact (every_request_can_finish _ _ _ _ _ _ _ _ _ _ s _ p Hr Hp).
Defined.

Lemma renders_are_coalesced_witness :
  exists s, run_of built_page s /\ claim_of (shared s) 0 = LeaderOf "ssg:ssr:/x" 0 /\
    forall key n n' channel channel', claim_of (shared s) n = LeaderOf key channel -> claim_of (shared s) n' = LeaderOf key channel' -> n = n'.
Proof.
  destruct (playing_shows built_page two_visits (fun s => claim_of (shared s) 0) (LeaderOf "ssg:ssr:/x" 0)) as (s & Hr & Hs); [by vm_compute|].
  exists s. split; [done|]. split; [done|]. exact (proj1 (renders_are_coalesced _ _ _ _ _ _ _ _ _ _ s Hr)).
Defined.

Lemma revalidations_are_looked_for_witness :
  exists s, run_of built_page s /\
    events (shared s) = [Looked 0 "/x" None; Opened 0 "ssg:ssr:/x"] ++ ReadBuild 0 "/p/out/x/index.html" "old" :: [] /\
    looked_first config Some [Looked 0 "/x" None; Opened 0 "ssg:ssr:/x"] (ReadBuild 0 "/p/out/x/index.html" "old").
Proof.
  destruct (playing_shows built_page (visited :: replicate 6 (step_of 0)) (fun s => events (shared s))
    ([Looked 0 "/x" None; Opened 0 "ssg:ssr:/x"] ++ ReadBuild 0 "/p/out/x/index.html" "old" :: [])) as (s & Hr & Hs); [by vm_compute|].
  exists s. split; [done|]. split; [done|]. exact (revalidations_are_looked_for _ _ _ _ _ _ _ _ _ _ s _ _ _ Hr Hs).
Defined.
