(* ===== verification/Middleware.v ===== *)
(** The middleware stack (crates/ruvyxa_middleware/src/builtin.rs, stack.rs,
    config.rs): cross-origin policy, rate limiting, timing, custom headers and
    request logging, each a layer around a service, and the order [apply]
    composes them in.

    A service takes a request and the middleware's shared state.  The instants a
    request observes are given with it.  What the http crate accepts as a method,
    a header name and a header value is a parameter, as are the compression
    layer and blake3.  Log lines are not modelled. *)
From S2P Require Import Prelude RustStr Manifest ClientIp RateLimit Response StaticAssets.

(** ** Definitions *)

(** *** Configuration (config.rs) *)

Definition MAX_WORKER_PROCESSES : N := 8.
Definition DEFAULT_WORKER_CALL_TIMEOUT_MS : N := 30000.
Definition MAX_WORKER_CALL_TIMEOUT_MS : N := 300000.

Record CorsConfig := mkCorsConfig { cc_origins : list string; cc_methods : list string; cc_headers : list string; cc_credentials : bool; cc_max_age : N }.
(** The configured headers, in key order. *)
Record BuiltinMiddlewareConfig := mkBuiltin {
  bc_cors : option CorsConfig; bc_timing : bool; bc_logging : bool; bc_rate_limit : option RateLimitConfig; bc_headers : list (string * string);
}.
Record MiddlewareConfig := mkConfig { builtin : BuiltinMiddlewareConfig; workers : option N; timeout_ms : option N }.

(** [MiddlewareConfig::worker_processes] *)
Definition worker_processes (c : MiddlewareConfig) : N + string :=
  match workers c with
  | None => inl 1%N
  | Some w => if (1 <=? w)%N && (w <=? MAX_WORKER_PROCESSES)%N then inl w
      else inr ("RUV1602 config field `middleware.workers` must be between 1 and " +:+ show_N MAX_WORKER_PROCESSES +:+ ", got " +:+ show_N w)
  end.
(** [MiddlewareConfig::worker_timeout], in milliseconds *)
Definition worker_timeout (c : MiddlewareConfig) : N + string :=
  match timeout_ms c with
  | None => inl DEFAULT_WORKER_CALL_TIMEOUT_MS
  | Some t => if (1 <=? t)%N && (t <=? MAX_WORKER_CALL_TIMEOUT_MS)%N then inl t
      else inr ("RUV1602 config field `middleware.timeoutMs` must be between 1 and " +:+ show_N MAX_WORKER_CALL_TIMEOUT_MS +:+ ", got " +:+ show_N t)
  end.

(** *** Services *)

Record Request := mkRequest { req_method : string; req_path : string; req_headers : HeaderMap; req_peer : option IpAddr }.
(** What the layers share: the tracked buckets and the id counter. *)
Record Shared := mkShared { buckets : RateState; next_request_id : N }.
(** The instants of one request: when the limiter decides and when it computes
    the wait, and how long the inner service took, in milliseconds. *)
Record Clock := mkClock { at_allow : N; at_retry : N; elapsed_ms : N }.

(** A service; [None] is a panic. *)
Abbreviation Service := (Request -> Shared -> option (Response * Shared)).

(** A visible ASCII value, as [to_str] accepts it. *)
Definition is_visible (v : string) : bool := all_bytes (fun a => let n := nat_of_ascii a in (n =? 9)%nat || ((32 <=? n) && (n <? 127))%nat) v.

(** [append_vary_origin], on the values of [Vary] *)
Definition vary_with_origin (values : list string) : string :=
  let names := List.filter (fun v => negb (is_empty_str v)) (trim <$> (List.filter is_visible values ≫= split_char ",")) in
  join ", " (if existsb (fun v => eq_ignore_case v "origin") names then names else names ++ ["Origin"]).

Record CorsPolicy := mkPolicy { cp_origins : list string; cp_methods : string; cp_headers : string; cp_credentials : bool; cp_max_age : string }.

(** [CorsLayer::from_config] and [CorsLayer::policy] *)
Definition cors_policy (c : CorsConfig) : CorsPolicy :=
  mkPolicy (cc_origins c) (join ", " (cc_methods c)) (join ", " (cc_headers c)) (cc_credentials c) (show_N (cc_max_age c)).

(** [CorsPolicy::allowed_origin] *)
Definition allowed_origin (p : CorsPolicy) (headers : HeaderMap) : option string :=
  origin ← get_str headers "origin";
  if existsb (fun allowed => String.eqb allowed "*" || String.eqb allowed origin) (cp_origins p) then Some origin else None.

Section layers.
(** [Method::from_bytes], [HeaderName::from_bytes] and [HeaderValue::from_str] succeed. *)
Context (valid_method valid_name valid_value : string -> bool).
Context (hash : string -> string) (show_ip : IpAddr -> string) (checks : bool) (parse_ip : string -> option IpAddr).

(** Set a header whose value has to be one first. *)
Definition insert_valid (name value : string) (r : Response) : Response :=
  if valid_value value then insert_header name value r else r.

(** [append_vary_origin] *)
Definition append_vary_origin (r : Response) : Response :=
  insert_valid "vary" (vary_with_origin (default [] (resp_headers r !! "vary"))) r.

(** [CorsPolicy::apply] *)
Definition apply_policy (p : CorsPolicy) (origin : option string) (preflight : bool) (r : Response) : Response :=
  let r := match origin with
           | Some origin => if valid_value origin then append_vary_origin (insert_header "access-control-allow-origin" origin r) else r
           | None => r
           end in
  let r := if cp_credentials p then insert_header "access-control-allow-credentials" "true" r else r in
  if negb preflight then r else
  let r := if is_empty_str (cp_methods p) then r else insert_valid "access-control-allow-methods" (cp_methods p) r in
  let r := if is_empty_str (cp_headers p) then r else insert_valid "access-control-allow-headers" (cp_headers p) r in
  insert_valid "access-control-max-age" (cp_max_age p) r.

(** [preflight_response] *)
Definition preflight_response (p : CorsPolicy) (origin : string) : Response := apply_policy p (Some origin) true (status_response 204).

(** [decorate_actual] *)
Definition decorate_actual (p : CorsPolicy) (allowed : option string) (r : Response) : Response :=
  match allowed with Some origin => apply_policy p (Some origin) false r | None => append_vary_origin r end.

Definition is_preflight (request : Request) : bool :=
  String.eqb (req_method request) "OPTIONS" &&
  match get_str (req_headers request) "access-control-request-method" with Some m => valid_method m | None => false end.

(** [CorsService::call] *)
Definition cors_service (p : CorsPolicy) (inner : Service) : Service := fun request shared =>
  let allowed := allowed_origin p (req_headers request) in
  match is_preflight request, allowed with
  | true, Some origin => Some (preflight_response p origin, shared)
  | _, _ => '(r, shared) ← inner request shared; Some (decorate_actual p allowed r, shared)
  end.

(** The refusal of [RateLimitService::call]. *)
Definition refusal (cors : option CorsPolicy) (request : Request) (retry_after : N) : Response :=
  let r := insert_header "retry-after" (show_N retry_after)
    (insert_header "content-type" "text/plain; charset=utf-8" (mkResponse 429 ∅ "Rate limit exceeded")) in
  match cors with Some p => decorate_actual p (allowed_origin p (req_headers request)) r | None => r end.

(** [RateLimitService::call], of a [RateLimitLayerWithKey] *)
Definition rate_limit_service (clock : Clock) (config : RateLimitConfig) (trusted : list IpPrefix) (cors : option CorsPolicy) (inner : Service)
    : Service := fun request shared =>
  let l := limiter_from_config config in
  key ← extract_key hash show_ip checks parse_ip (req_headers request) (req_peer request) (rate_key_by config) trusted;
  let '(allowed, buckets) := allow l (at_allow clock) key (buckets shared) in
  let shared := mkShared buckets (next_request_id shared) in
  if allowed then inner request shared
  else Some (refusal cors request (retry_after_seconds l (at_retry clock) key buckets), shared).

(** [TimingService::call] *)
Definition timing_service (clock : Clock) (inner : Service) : Service := fun request shared =>
  '(r, shared) ← inner request shared;
  Some (insert_valid "x-response-time" (show_N (elapsed_ms clock) +:+ "ms") r, shared).

(** [CustomHeadersLayer::new] *)
Definition custom_headers (headers : list (string * string)) : list (string * string) :=
  omap (fun '(key, value) => if valid_name key && valid_value value then Some (to_ascii_lowercase key, value) else None) headers.

(** [CustomHeadersService::call] *)
Definition custom_headers_service (headers : list (string * string)) (inner : Service) : Service := fun request shared =>
  '(r, shared) ← inner request shared;
  Some (fold_left (fun r '(name, value) => insert_header name value r) headers r, shared).

(** The id [RequestLoggingService::call] gives a request, and the next counter. *)
Definition request_id (headers : HeaderMap) (counter : N) : string * N :=
  match get_str headers "x-request-id" with
  | Some v => if negb (is_empty_str v) && (slen v <=? 128)%N then (v, counter)
              else ("ruvyxa-" +:+ show_hex counter, (counter + 1) mod 18446744073709551616)%N
  | None => ("ruvyxa-" +:+ show_hex counter, (counter + 1) mod 18446744073709551616)%N
  end.

(** [request.headers_mut().insert(name, value)] *)
Definition set_request_header (name value : string) (request : Request) : Request :=
  mkRequest (req_method request) (req_path request) (fun n => if String.eqb n name then [Some value] else req_headers request n) (req_peer request).

(** [RequestLoggingService::call] *)
Definition request_logging_service (inner : Service) : Service := fun request shared =>
  let '(id, counter) := request_id (req_headers request) (next_request_id shared) in
  let request := if valid_value id then set_request_header "x-request-id" id request else request in
  '(r, shared) ← inner request (mkShared (buckets shared) counter);
  Some (insert_valid "x-request-id" id r, shared).

(** *** The stack (stack.rs) *)

(** [MiddlewareStack::validate] *)
Definition validate (c : MiddlewareConfig) : option string :=
  match worker_processes c, worker_timeout c with
  | inr e, _ | inl _, inr e => Some e
  | inl _, inl _ =>
      match List.find (fun '(name, value) => negb (valid_name name) || negb (valid_value value)) (bc_headers (builtin c)) with
      | Some (name, _) => Some ("Invalid custom response header '" +:+ name +:+ "'")
      | None =>
          match (cors ← bc_cors (builtin c);
                 if cc_credentials cors && existsb (String.eqb "*") (cc_origins cors) then
                   Some "CORS credentials cannot be enabled with the wildcard origin '*'; use an explicit origin allowlist"
                 else match List.find (fun m => negb (valid_method m)) (cc_methods cors) with
                      | Some m => Some ("Invalid CORS method '" +:+ m +:+ "'")
                      | None =>
                          match List.find (fun h => negb (valid_name h)) (cc_headers cors) with
                          | Some h => Some ("Invalid CORS header '" +:+ h +:+ "'")
                          | None => None
                          end
                      end) with
          | Some e => Some e
          | None =>
              rate ← bc_rate_limit (builtin c);
              if (rate_max_requests rate =? 0)%N then Some "Rate limit 'max' must be greater than 0"
              else if (window_secs rate =? 0)%N then Some "Rate limit 'window' must be greater than 0"
              else
                let refused := Some ("Rate limit 'key' must be 'ip' or 'header:<valid-header-name>', got '" +:+ rate_key_by rate +:+ "'") in
                if String.eqb (rate_key_by rate) "ip" then None
                else match strip_prefix "header:" (rate_key_by rate) with
                     | Some name => if is_empty_str name || negb (valid_name name) then refused else None
                     | None => refused
                     end
          end
      end
  end.

(** [MiddlewareStack::apply]: the layers from the innermost out; [compress] is
    the compression layer. *)
Definition apply (compress : Service -> Service) (c : MiddlewareConfig) (trusted : list IpPrefix) (clock : Clock) (app : Service)
    : Service + string :=
  match validate c with
  | Some e => inr e
  | None =>
      let b := builtin c in
      let app := match bc_cors b with Some cors => cors_service (cors_policy cors) app | None => app end in
      let app := match bc_rate_limit b with
                 | Some rate => rate_limit_service clock rate trusted (cors_policy <$> bc_cors b) app
                 | None => app
                 end in
      let app := if bc_timing b then timing_service clock app else app in
      let app := match bc_headers b with [] => app | headers => custom_headers_service (custom_headers headers) app end in
      let app := if bc_logging b then request_logging_service app else app in
      inl (compress app)
  end.
End layers.

(** ** [Vary] *)

(** A [Vary] value names the [Origin] header. *)
Definition names_origin (value : string) : bool := existsb (fun t => eq_ignore_case (trim t) "origin") (split_char "," value).

Lemma trim_while_idem f s : trim_while f (trim_while f s) = trim_while f s.
Proof.
  unfold trim_while. set (x := trim_start_while f s).
  assert (match x with "" => True | String a _ => f a = false end) as Hx.
  { unfold x. induction s as [|a s IH]; cbn; [done|]. destruct (f a) eqn:E; [done|by cbn]. }
  assert (trim_start_while f (trim_end_while f x) = trim_end_while f x) as ->.
  { apply trim_start_while_id. destruct (trim_end_while_decomp f x) as (t & Ht & _).
    destruct (trim_end_while f x) as [|a y]; [done|]. rewrite Ht in Hx. exact Hx. }
  unfold trim_end_while. rewrite srev_involutive. f_equal. apply trim_start_while_id.
  generalize (srev x). clear. intros y. induction y as [|a y IH]; cbn; [done|]. destruct (f a) eqn:E; [done|by cbn].
Qed.

Lemma trim_idem s : trim (trim s) = trim s.
Proof. apply trim_while_idem. Qed.

Lemma trim_part s : exists a b, s = a +:+ trim s +:+ b.
Proof.
  unfold trim, trim_while. destruct (trim_start_while_decomp is_space s) as (a & Ha & _).
  destruct (trim_end_while_decomp is_space (trim_start_while is_space s)) as (b & Hb & _). exists a, b. by rewrite <- Hb.
Qed.

Lemma trim_no_char c s : has_char c s = false -> has_char c (trim s) = false.
Proof.
  destruct (trim_part s) as (a & b & E). rewrite E at 1. rewrite !has_char_sapp. intros H. apply orb_false_iff in H as [_ H].
  by apply orb_false_iff in H as [H _].
Qed.

Lemma trim_all_bytes f s : all_bytes f s = true -> all_bytes f (trim s) = true.
Proof.
  destruct (trim_part s) as (a & b & E). rewrite E at 1. rewrite !all_bytes_sapp. intros H. by split_andb.
Qed.

Lemma split_char_all_bytes f c s : all_bytes f s = true -> Forall (fun p => all_bytes f p = true) (split_char c s).
Proof.
  induction s as [|a s IH]; cbn; [by repeat constructor|]. intros [Ha Hs]%andb_true_iff. specialize (IH Hs).
  destruct (Ascii.eqb a c); [by constructor|]. destruct (split_char c s) as [|p l]; [constructor; [cbn; by rewrite Ha|done]|].
  apply Forall_cons in IH as [Hp Hl]. constructor; [cbn; by rewrite Ha|done].
Qed.

(** What a predicate that ignores leading spaces finds in a joined list. *)
Lemma existsb_split_join g l : (forall t, g (String " " t) = g t) -> l <> [] -> Forall (fun s => has_char "," s = false) l ->
  existsb g (split_char "," (join ", " l)) = existsb g l.
Proof.
  intros Hg. induction l as [|p l IH]; [done|]. intros _ [Hp Hl]%Forall_cons. destruct l as [|q l].
  - cbn [join]. by rewrite split_char_none.
  - change (join ", " (p :: q :: l)) with (p +:+ String "," (String " " (join ", " (q :: l)))). rewrite split_char_app by done.
    cbn [existsb]. f_equal. specialize (IH ltac:(done) Hl). cbn [existsb] in IH. rewrite <- IH.
    set (x := join ", " (q :: l)). cbn [split_char]. change (Ascii.eqb " " ",") with false. cbv iota.
    pose proof (split_char_ne "," x). destruct (split_char "," x) as [|a r]; [done|]. cbn [existsb]. by rewrite Hg.
Qed.

Lemma join_visible l : Forall (fun s => is_visible s = true) l -> is_visible (join ", " l) = true.
Proof.
  unfold is_visible. induction l as [|p l IH]; [done|]. intros [Hp Hl]%Forall_cons. destruct l as [|q l]; [done|].
  change (join ", " (p :: q :: l)) with (p +:+ ", " +:+ join ", " (q :: l)). rewrite !all_bytes_sapp, Hp, IH by done. done.
Qed.

(** The names a [Vary] is rebuilt from. *)
Definition vary_names (values : list string) : list string :=
  List.filter (fun v => negb (is_empty_str v)) (trim <$> (List.filter is_visible values ≫= split_char ",")).

Lemma vary_names_shape values : Forall (fun v => has_char "," v = false /\ is_visible v = true /\ trim v = v) (vary_names values).
Proof.
  apply Forall_forall. intros v Hv. apply list_elem_of_In, filter_In in Hv as [Hv _]. apply list_elem_of_In, list_elem_of_fmap in Hv as (p & -> & Hp).
  apply list_elem_of_bind in Hp as (s & Hp & Hs). apply list_elem_of_In, filter_In in Hs as [_ Hs].
  pose proof (split_char_pieces "," s) as H1. pose proof (split_char_all_bytes _ "," s Hs) as H2. rewrite Forall_forall in H1, H2.
  split_and!; [by apply trim_no_char, H1|by apply trim_all_bytes, H2|by apply trim_idem].
Qed.

Lemma vary_with_origin_spec values : names_origin (vary_with_origin values) = true /\ is_visible (vary_with_origin values) = true.
Proof.
  unfold vary_with_origin. fold (vary_names values). pose proof (vary_names_shape values) as Hs.
  assert (forall l, l <> [] -> Forall (fun v => has_char "," v = false /\ is_visible v = true /\ trim v = v) l ->
    existsb (fun v => eq_ignore_case v "origin") l = true -> names_origin (join ", " l) = true /\ is_visible (join ", " l) = true) as H.
  { intros l Hl Hshape He. split; [|apply join_visible; eapply Forall_impl; [exact Hshape|by intros ? (_ & ? & _)]].
    unfold names_origin. rewrite (existsb_split_join (fun t => eq_ignore_case (trim t) "origin")); [|done|done|].
    - apply existsb_exists in He as (v & Hv & He). apply existsb_exists. exists v. split; [done|].
      rewrite Forall_forall in Hshape. apply list_elem_of_In in Hv. destruct (Hshape v Hv) as (_ & _ & ->). done.
    - eapply Forall_impl; [exact Hshape|by intros ? (? & _)]. }
  destruct (existsb _ (vary_names values)) eqn:E.
  - apply H; [by intros Hn; rewrite Hn in E|done|done].
  - apply H; [by destruct (vary_names values)|apply Forall_app; split; [done|by repeat constructor]|].
    rewrite existsb_app. by rewrite orb_true_r.
Qed.

(** ** The layers *)

Section stack.
Context (valid_method valid_name valid_value : string -> bool).
Context (hash : string -> string) (show_ip : IpAddr -> string) (checks : bool) (parse_ip : string -> option IpAddr).
(** [HeaderValue::from_str] takes every visible ASCII text. *)
Definition visible_valid : Prop := forall v, is_visible v = true -> valid_value v = true.

Lemma insert_valid_header name value r n : response_header (insert_valid valid_value name value r) n =
  if valid_value value && bool_decide (name = n) then Some value else response_header r n.
Proof.
  unfold insert_valid. destruct (valid_value value); [|done]. rewrite response_header_insert. cbn [andb].
  destruct (decide (name = n)); [by rewrite bool_decide_eq_true_2|by rewrite bool_decide_eq_false_2].
Qed.
Lemma insert_valid_rest name value r : status (insert_valid valid_value name value r) = status r /\ body (insert_valid valid_value name value r) = body r.
Proof. unfold insert_valid. by destruct (valid_value value). Qed.

(** The policy's own headers. *)
Definition CORS_HEADERS : list string :=
  ["access-control-allow-origin"; "access-control-allow-credentials"; "access-control-allow-methods"; "access-control-allow-headers"; "access-control-max-age"].

Lemma append_vary_header r n : n <> "vary" -> response_header (append_vary_origin valid_value r) n = response_header r n.
Proof. intros Hn. unfold append_vary_origin. rewrite insert_valid_header. rewrite bool_decide_eq_false_2 by done. by rewrite andb_false_r. Qed.

Lemma append_vary_names r : visible_valid -> exists v, response_header (append_vary_origin valid_value r) "vary" = Some v /\ names_origin v = true.
Proof.
  intros Hv. unfold append_vary_origin. set (value := vary_with_origin _). destruct (vary_with_origin_spec (default [] (resp_headers r !! "vary"))) as [Hn Hvis].
  fold value in Hn, Hvis. exists value. rewrite insert_valid_header, (Hv value) by done. by rewrite bool_decide_eq_true_2.
Qed.

Lemma append_vary_rest r : status (append_vary_origin valid_value r) = status r /\ body (append_vary_origin valid_value r) = body r.
Proof. apply insert_valid_rest. Qed.

Lemma apply_policy_rest p origin preflight r : status (apply_policy valid_value p origin preflight r) = status r /\
  body (apply_policy valid_value p origin preflight r) = body r.
Proof.
  assert (forall n v x, status (insert_header n v x) = status x /\ body (insert_header n v x) = body x) as Hi by done.
  unfold apply_policy. set (x1 := match origin with Some o => _ | None => _ end).
  assert (status x1 = status r /\ body x1 = body r) as [<- <-].
  { unfold x1. destruct origin as [o|]; [destruct (valid_value o)|]; [|done..]. destruct (append_vary_rest (insert_header "access-control-allow-origin" o r)) as [-> ->]. done. }
  set (x2 := if cp_credentials p then _ else _). assert (status x2 = status x1 /\ body x2 = body x1) as [<- <-] by (unfold x2; by destruct (cp_credentials p)).
  destruct (negb preflight); [done|]. set (x3 := if is_empty_str (cp_methods p) then _ else _).
  assert (status x3 = status x2 /\ body x3 = body x2) as [<- <-] by (unfold x3; destruct (is_empty_str (cp_methods p)); [done|apply insert_valid_rest]).
  set (x4 := if is_empty_str (cp_headers p) then _ else _).
  assert (status x4 = status x3 /\ body x4 = body x3) as [<- <-] by (unfold x4; destruct (is_empty_str (cp_headers p)); [done|apply insert_valid_rest]).
  apply insert_valid_rest.
Qed.

(** A response carries the policy's answer to a request, and, unless it is the
    answer to a preflight, none of a preflight's headers. *)
Definition cors_answer (p : CorsPolicy) (request : Request) (r : Response) : Prop :=
  response_header r "access-control-allow-origin" = allowed_origin p (req_headers request) /\
  response_header r "access-control-allow-credentials" =
    (if cp_credentials p then (fun _ => "true") <$> allowed_origin p (req_headers request) else None) /\
  (exists v, response_header r "vary" = Some v /\ names_origin v = true) /\
  (forall n, n ∈ ["access-control-allow-methods"; "access-control-allow-headers"; "access-control-max-age"] ->
     is_Some (response_header r n) -> is_preflight valid_method request = true /\ is_Some (allowed_origin p (req_headers request))).

Definition silent (r : Response) : Prop := forall n, n ∈ CORS_HEADERS -> response_header r n = None.

(** Reading a header through the policy's insertions. *)
Ltac policy_header :=
  repeat first
    [ rewrite append_vary_header by done
    | rewrite insert_valid_header; first [rewrite bool_decide_eq_true_2 by done | rewrite bool_decide_eq_false_2 by done]; rewrite ?andb_true_r, ?andb_false_r
    | rewrite response_header_insert; first [rewrite decide_True by done | rewrite decide_False by done] ].

Lemma apply_policy_spec p origin preflight r : visible_valid -> valid_value origin = true -> silent r ->
  let r' := apply_policy valid_value p (Some origin) preflight r in
  response_header r' "access-control-allow-origin" = Some origin /\
  response_header r' "access-control-allow-credentials" = (if cp_credentials p then Some "true" else None) /\
  (exists v, response_header r' "vary" = Some v /\ names_origin v = true) /\
  (preflight = false -> forall n, n ∈ ["access-control-allow-methods"; "access-control-allow-headers"; "access-control-max-age"] -> response_header r' n = None).
Proof.
  intros Hv Ho Hr. cbn zeta. unfold apply_policy. rewrite Ho.
  set (base := append_vary_origin valid_value (insert_header "access-control-allow-origin" origin r)).
  set (cred := if cp_credentials p then _ else _).
  assert (response_header cred "access-control-allow-origin" = Some origin /\
    response_header cred "access-control-allow-credentials" = (if cp_credentials p then Some "true" else None) /\
    (exists v, response_header cred "vary" = Some v /\ names_origin v = true) /\
    (forall n, n ∈ ["access-control-allow-methods"; "access-control-allow-headers"; "access-control-max-age"] -> response_header cred n = None))
    as (H1 & H2 & H3 & H4).
  { destruct (append_vary_names (insert_header "access-control-allow-origin" origin r) Hv) as (v & Hvary & Hn). fold base in Hvary.
    assert (forall n, n ∈ CORS_HEADERS -> n <> "access-control-allow-origin" -> response_header base n = None) as Hbase.
    { intros n Hin Hne. unfold base. rewrite append_vary_header by (intros ->; set_solver). rewrite response_header_insert, decide_False by done. by apply Hr. }
    unfold cred. destruct (cp_credentials p).
    - split_and!; [policy_header; unfold base; by policy_header|by policy_header|exists v; by policy_header|].
      intros n Hin. rewrite response_header_insert. rewrite decide_False by (intros <-; set_solver). apply Hbase; [set_solver|intros ->; set_solver].
    - split_and!; [unfold base; by policy_header|apply Hbase; [set_solver|done]|by exists v|].
      intros n Hin. apply Hbase; [set_solver|intros ->; set_solver]. }
  clearbody cred. clear base. destruct preflight; cbn [negb]; [|by split_and!].
  destruct H3 as (v & H3 & Hn). split_and!; [..|done].
  - destruct (is_empty_str (cp_methods p)), (is_empty_str (cp_headers p)); policy_header; done.
  - destruct (is_empty_str (cp_methods p)), (is_empty_str (cp_headers p)); policy_header; done.
  - exists v. split; [|done]. destruct (is_empty_str (cp_methods p)), (is_empty_str (cp_headers p)); policy_header; done.
Qed.

(** The headers the layers outside the limiter add, innermost first. *)
Definition dress (b : BuiltinMiddlewareConfig) (clock : Clock) (id : option string) (r : Response) : Response :=
  let r := if bc_timing b then insert_valid valid_value "x-response-time" (show_N (elapsed_ms clock) +:+ "ms") r else r in
  let r := fold_left (fun r '(name, value) => insert_header name value r) (custom_headers valid_name valid_value (bc_headers b)) r in
  match id with Some id => insert_valid valid_value "x-request-id" id r | None => r end.

(** The layers that can answer for the application. *)
Definition core (c : MiddlewareConfig) (trusted : list IpPrefix) (clock : Clock) (app : Service) : Service :=
  let app := match bc_cors (builtin c) with Some cors => cors_service valid_method valid_value (cors_policy cors) app | None => app end in
  match bc_rate_limit (builtin c) with
  | Some rate => rate_limit_service valid_value hash show_ip checks parse_ip clock rate trusted (cors_policy <$> bc_cors (builtin c)) app
  | None => app
  end.

(** What the logging layer passes on: the id, the request and the counter. *)
Definition logged (b : BuiltinMiddlewareConfig) (request : Request) (shared : Shared) : option string * Request * Shared :=
  if bc_logging b then
    let '(id, counter) := request_id (req_headers request) (next_request_id shared) in
    (Some id, if valid_value id then set_request_header "x-request-id" id request else request, mkShared (buckets shared) counter)
  else (None, request, shared).

Lemma apply_shape compress c trusted clock app s : apply valid_method valid_name valid_value hash show_ip checks parse_ip compress c trusted clock app = inl s ->
  validate valid_method valid_name valid_value c = None /\ exists stack, s = compress stack /\
  forall request shared, stack request shared =
    let '(id, request', shared') := logged (builtin c) request shared in
    '(r, shared') ← core c trusted clock app request' shared'; Some (dress (builtin c) clock id r, shared').
Proof.
  unfold apply. destruct (validate _ _ _ c); [done|]. intros [= <-]. split; [done|]. eexists. split; [done|]. intros request shared.
  fold (core c trusted clock app). unfold logged, dress. destruct (bc_logging (builtin c)); cbn zeta.
  - unfold request_logging_service. destruct (request_id _ _) as [id counter]. cbn zeta.
    destruct (bc_headers (builtin c)) as [|h hs]; destruct (bc_timing (builtin c));
      unfold custom_headers_service, timing_service; cbn [mbind option_bind custom_headers omap list_omap fold_left];
      by destruct (core _ _ _ _ _ _) as [[r s']|].
  - destruct (bc_headers (builtin c)) as [|h hs]; destruct (bc_timing (builtin c));
      unfold custom_headers_service, timing_service; cbn [mbind option_bind custom_headers omap list_omap fold_left];
      by destruct (core _ _ _ _ _ _) as [[r s']|].
Qed.

(** The last value a list of headers gives a name. *)
Definition last_value (n : string) (headers : list (string * string)) : option string :=
  fold_left (fun found '(name, value) => if String.eqb name n then Some value else found) headers None.

Lemma last_value_from n headers : forall found, fold_left (fun found '(name, value) => if String.eqb name n then Some value else found) headers found =
  match last_value n headers with Some v => Some v | None => found end.
Proof.
  unfold last_value. induction headers as [|[name value] headers IH]; intros found; cbn [fold_left]; [done|].
  destruct (String.eqb name n); [|apply IH]. rewrite (IH (Some value)). by destruct (fold_left _ headers None).
Qed.

Lemma custom_header_read headers n : forall r,
  response_header (fold_left (fun r '(name, value) => insert_header name value r) headers r) n =
  match last_value n headers with Some v => Some v | None => response_header r n end.
Proof.
  induction headers as [|[name value] headers IH]; intros r; cbn [fold_left]; [done|]. rewrite IH, response_header_insert.
  unfold last_value at 2. cbn [fold_left]. rewrite last_value_from. destruct (last_value n headers); [done|].
  destruct (decide (name = n)) as [->|Hne]; [by rewrite String.eqb_refl|]. apply String.eqb_neq in Hne. by rewrite Hne.
Qed.

Lemma custom_header_rest headers : forall r, let r' := fold_left (fun r '(name, value) => insert_header name value r) headers r in
  status r' = status r /\ body r' = body r.
Proof. induction headers as [|[name value] headers IH]; intros r; cbn [fold_left]; [done|]. by destruct (IH (insert_header name value r)) as [-> ->]. Qed.

Lemma dress_rest b clock id r : status (dress b clock id r) = status r /\ body (dress b clock id r) = body r.
Proof.
  unfold dress. set (x1 := if bc_timing b then _ else _).
  assert (status x1 = status r /\ body x1 = body r) as [<- <-] by (unfold x1; destruct (bc_timing b); [apply insert_valid_rest|done]).
  destruct (custom_header_rest (custom_headers valid_name valid_value (bc_headers b)) x1) as [<- <-]. destruct id; [apply insert_valid_rest|done].
Qed.

Lemma dress_header b clock id r n : response_header (dress b clock id r) n =
  match id with
  | Some id => if valid_value id && bool_decide ("x-request-id" = n) then Some id else
      match last_value n (custom_headers valid_name valid_value (bc_headers b)) with
      | Some v => Some v
      | None => if bc_timing b && (valid_value (show_N (elapsed_ms clock) +:+ "ms") && bool_decide ("x-response-time" = n))
                then Some (show_N (elapsed_ms clock) +:+ "ms") else response_header r n
      end
  | None =>
      match last_value n (custom_headers valid_name valid_value (bc_headers b)) with
      | Some v => Some v
      | None => if bc_timing b && (valid_value (show_N (elapsed_ms clock) +:+ "ms") && bool_decide ("x-response-time" = n))
                then Some (show_N (elapsed_ms clock) +:+ "ms") else response_header r n
      end
  end.
Proof.
  unfold dress. destruct id as [id|]; rewrite ?insert_valid_header, custom_header_read; destruct (bc_timing b); cbn [andb]; by rewrite ?insert_valid_header.
Qed.

(** Who answered a request: the limiter, the preflight answer, or the application. *)
Inductive answered (c : MiddlewareConfig) (trusted : list IpPrefix) (clock : Clock) (app : Service) (request : Request) (shared : Shared)
    : Response -> Shared -> Prop :=
  | answered_refusal rate key buckets' : bc_rate_limit (builtin c) = Some rate ->
      extract_key hash show_ip checks parse_ip (req_headers request) (req_peer request) (rate_key_by rate) trusted = Some key ->
      allow (limiter_from_config rate) (at_allow clock) key (buckets shared) = (false, buckets') ->
      answered c trusted clock app request shared
        (refusal valid_value (cors_policy <$> bc_cors (builtin c)) request (retry_after_seconds (limiter_from_config rate) (at_retry clock) key buckets'))
        (mkShared buckets' (next_request_id shared))
  | answered_preflight cors origin shared' : bc_cors (builtin c) = Some cors -> is_preflight valid_method request = true ->
      allowed_origin (cors_policy cors) (req_headers request) = Some origin ->
      answered c trusted clock app request shared (preflight_response valid_value (cors_policy cors) origin) shared'
  | answered_application shared1 r shared' : app request shared1 = Some (r, shared') ->
      answered c trusted clock app request shared
        (match bc_cors (builtin c) with
         | Some cors => decorate_actual valid_value (cors_policy cors) (allowed_origin (cors_policy cors) (req_headers request)) r
         | None => r
         end) shared'.

Lemma core_answered c trusted clock app request shared r shared' : core c trusted clock app request shared = Some (r, shared') ->
  answered c trusted clock app request shared r shared'.
Proof.
  unfold core. set (inside := match bc_cors (builtin c) with Some cors => _ | None => app end).
  assert (forall shared1, inside request shared1 = Some (r, shared') -> answered c trusted clock app request shared r shared') as Hin.
  { intros shared1. unfold inside. destruct (bc_cors (builtin c)) as [cors|] eqn:Ec.
    - unfold cors_service. destruct (is_preflight valid_method request) eqn:Ep; destruct (allowed_origin (cors_policy cors) (req_headers request)) as [o|] eqn:Ea.
      + intros [= <- <-]. by eapply answered_preflight.
      + destruct (app request shared1) as [[r1 s1]|] eqn:E; [|done]. intros [= <- <-].
        pose proof (answered_application c trusted clock app request shared shared1 r1 s1 E) as H. by rewrite Ec, Ea in H.
      + destruct (app request shared1) as [[r1 s1]|] eqn:E; [|done]. intros [= <- <-].
        pose proof (answered_application c trusted clock app request shared shared1 r1 s1 E) as H. by rewrite Ec, Ea in H.
      + destruct (app request shared1) as [[r1 s1]|] eqn:E; [|done]. intros [= <- <-].
        pose proof (answered_application c trusted clock app request shared shared1 r1 s1 E) as H. by rewrite Ec, Ea in H.
    - intros E. pose proof (answered_application c trusted clock app request shared shared1 r shared' E) as H. by rewrite Ec in H. }
  destruct (bc_rate_limit (builtin c)) as [rate|] eqn:Er; [|apply Hin]. unfold rate_limit_service.
  destruct (extract_key _ _ _ _ _ _ _ _) as [key|] eqn:Ek; [|done]. cbn [mbind option_bind].
  destruct (allow _ _ _ _) as [allowed b'] eqn:Ea. destruct allowed; [apply Hin|]. intros [= <- <-]. by eapply answered_refusal.
Qed.
End stack.

Lemma dec_digits_visible fuel : forall n acc, is_visible acc = true -> is_visible (dec_digits fuel n acc) = true.
Proof.
  assert (forall n acc, is_visible acc = true -> is_visible (String (ascii_of_nat (48 + N.to_nat (n mod 10))) acc) = true) as H.
  { intros n acc Ha. assert (n mod 10 < 10)%N as Hd by by apply N.mod_lt. set (d := (n mod 10)%N) in *. clearbody d. unfold is_visible in *. cbn [all_bytes]. rewrite Ha, nat_ascii_embedding by lia. rewrite andb_true_r.
    apply orb_true_iff. right. apply andb_true_iff. rewrite Nat.leb_le, Nat.ltb_lt. clear Ha. lia. }
  induction fuel as [|fuel IH]; intros n acc Ha; cbn [dec_digits]; [by apply H|]. destruct (_ =? 0)%N; [by apply H|]. by apply IH, H.
Qed.
Lemma show_N_visible n : is_visible (show_N n) = true.
Proof. by apply dec_digits_visible. Qed.

Lemma hex_digits_visible fuel : forall n acc, is_visible acc = true -> is_visible (hex_digits fuel n acc) = true.
Proof.
  assert (forall d acc, (d < 16)%N -> is_visible acc = true ->
    is_visible (String (ascii_of_nat (if (d <? 10)%N then 48 + N.to_nat d else 87 + N.to_nat d)) acc) = true) as H.
  { intros d acc Hd Ha. unfold is_visible in *. cbn [all_bytes]. rewrite Ha, nat_ascii_embedding by (destruct (d <? 10)%N; lia). rewrite andb_true_r.
    apply orb_true_iff. right. apply andb_true_iff. rewrite Nat.leb_le, Nat.ltb_lt. clear Ha. destruct (N.ltb_spec d 10); lia. }
  induction fuel as [|fuel IH]; intros n acc Ha; cbn [hex_digits]; [by apply H; [apply N.mod_lt|]|].
  destruct (_ =? 0)%N; [by apply H; [apply N.mod_lt|]|]. apply IH, H; [by apply N.mod_lt|done].
Qed.

Lemma is_visible_app a b : is_visible (a +:+ b) = is_visible a && is_visible b.
Proof. apply all_bytes_sapp. Qed.

(** The header values a request carries are the visible ones. *)
Definition wf_headers (h : HeaderMap) : Prop := forall n v, get_str h n = Some v -> is_visible v = true.

Lemma request_id_visible h counter : wf_headers h -> is_visible (request_id h counter).1 = true.
Proof.
  intros Hw. assert (is_visible ("ruvyxa-" +:+ show_hex counter) = true) as Hg by (rewrite is_visible_app; by apply hex_digits_visible).
  unfold request_id. destruct (get_str h "x-request-id") as [v|] eqn:E; [|done]. destruct (_ && _); [by apply (Hw "x-request-id")|done].
Qed.

Lemma set_request_header_get name value request n : get_str (req_headers (set_request_header name value request)) n =
  if String.eqb n name then Some value else get_str (req_headers request) n.
Proof. unfold get_str, set_request_header. cbn [req_headers]. by destruct (String.eqb n name). Qed.

(** ** Properties *)

#[local] Opaque dress.

Section stack_properties.
Context (valid_method valid_name valid_value : string -> bool) (hash : string -> string) (show_ip : IpAddr -> string) (checks : bool)
  (parse_ip : string -> option IpAddr) (compress : Service -> Service) (c : MiddlewareConfig) (trusted : list IpPrefix) (clock : Clock) (app : Service).

Lemma answered_spec request shared r shared' : visible_valid valid_value ->
  answered valid_method valid_value hash show_ip checks parse_ip c trusted clock app request shared r shared' ->
  (status r = 429%N /\ body r = "Rate limit exceeded" /\ exists rate, bc_rate_limit (builtin c) = Some rate) \/
  (status r = 204%N /\ body r = "" /\ exists cors, bc_cors (builtin c) = Some cors /\ is_Some (allowed_origin (cors_policy cors) (req_headers request))) \/
  (exists shared1 r1, app request shared1 = Some (r1, shared') /\ status r = status r1 /\ body r = body r1).
Proof.
  intros Hv H. destruct H as [rate key b' Hr Hk Ha|cors o s' Hc Hp Ho|s1 r1 s' Happ].
  - left. split_and!; [..|by exists rate]; unfold refusal; destruct (bc_cors (builtin c)) as [cors|]; cbn [fmap option_fmap option_map]; try done;
      unfold decorate_actual; destruct (allowed_origin _ _);
      rewrite ?(proj1 (apply_policy_rest _ _ _ _ _)), ?(proj2 (apply_policy_rest _ _ _ _ _)), ?(proj1 (append_vary_rest _ _)), ?(proj2 (append_vary_rest _ _)); done.
  - right; left. unfold preflight_response. rewrite (proj1 (apply_policy_rest _ _ _ _ _)), (proj2 (apply_policy_rest _ _ _ _ _)).
    split_and!; [done..|]. exists cors. by rewrite Ho; split; [|eexists].
  - right; right. exists s1, r1. split; [done|]. destruct (bc_cors (builtin c)) as [cors|]; [|done]. unfold decorate_actual. destruct (allowed_origin _ _);
      rewrite ?(proj1 (apply_policy_rest _ _ _ _ _)), ?(proj2 (apply_policy_rest _ _ _ _ _)), ?(proj1 (append_vary_rest _ _)), ?(proj2 (append_vary_rest _ _)); done.
Qed.

(** Every answer is observable, refusals included.  Under a configuration
    the stack accepts, an answer is the limiter's 429, the 204 of a preflight
    from an allowed origin, or the application's own status and body; and
    whichever it is, it carries the request id the application was given when
    logging is on, each configured header with its last value (the id apart),
    and the response time when timing is on and no configured header replaces
    it. *)
Theorem every_answer_is_observable s : visible_valid valid_value ->
  apply valid_method valid_name valid_value hash show_ip checks parse_ip compress c trusted clock app = inl s ->
  exists stack, s = compress stack /\ forall request shared r shared', wf_headers (req_headers request) ->
  stack request shared = Some (r, shared') ->
  exists request' id,
    (if bc_logging (builtin c) then request' = set_request_header "x-request-id" id request /\ response_header r "x-request-id" = Some id
     else request' = request) /\
    ((status r = 429%N /\ body r = "Rate limit exceeded" /\ exists rate, bc_rate_limit (builtin c) = Some rate) \/
     (status r = 204%N /\ body r = "" /\ exists cors, bc_cors (builtin c) = Some cors /\ is_Some (allowed_origin (cors_policy cors) (req_headers request))) \/
     (exists shared1 r1, app request' shared1 = Some (r1, shared') /\ status r = status r1 /\ body r = body r1)) /\
    (forall n v, last_value n (custom_headers valid_name valid_value (bc_headers (builtin c))) = Some v ->
       (bc_logging (builtin c) = false \/ n <> "x-request-id") -> response_header r n = Some v) /\
    (bc_timing (builtin c) = true -> last_value "x-response-time" (custom_headers valid_name valid_value (bc_headers (builtin c))) = None ->
       response_header r "x-response-time" = Some (show_N (elapsed_ms clock) +:+ "ms")).
Proof.
  intros Hv Hs. apply apply_shape in Hs as (_ & stack & -> & Hstack). exists stack. split; [done|]. intros request shared r shared' Hw Hr.
  rewrite Hstack in Hr. unfold logged in Hr.
  assert (valid_value (show_N (elapsed_ms clock) +:+ "ms") = true) as Hms by (apply Hv; rewrite is_visible_app, show_N_visible; done).
  destruct (bc_logging (builtin c)) eqn:El.
  - pose proof (request_id_visible (req_headers request) (next_request_id shared) Hw) as Hid.
    destruct (request_id _ _) as [id counter]. cbn [fst] in Hid. rewrite (Hv id Hid) in Hr.
    destruct (core _ _ _ _ _ _ _ _ _ _ _ _) as [[r0 s0]|] eqn:E; [|done]. injection Hr as <- <-. exists (set_request_header "x-request-id" id request), id.
    apply core_answered, answered_spec in E; [|done]. rewrite !(proj1 (dress_rest _ _ _ _ _ _)), !(proj2 (dress_rest _ _ _ _ _ _)). split_and!.
    + done.
    + by rewrite dress_header, (Hv id Hid), bool_decide_eq_true_2.
    + destruct E as [E|[(? & ? & cors & ? & Ha)|E]]; [by left|right; left|by right; right]. split_and!; [done..|]. exists cors. split; [done|].
      unfold allowed_origin in *. by rewrite set_request_header_get in Ha.
    + intros n v Hn [|Hne]; [done|]. rewrite dress_header, Hn. rewrite bool_decide_eq_false_2 by congruence. by rewrite andb_false_r.
    + intros Ht Hn. rewrite dress_header, Hn, Ht, Hms. rewrite bool_decide_eq_false_2 by done. rewrite andb_false_r. by rewrite bool_decide_eq_true_2.
  - destruct (core _ _ _ _ _ _ _ _ _ _ _ _) as [[r0 s0]|] eqn:E; [|done]. injection Hr as <- <-. exists request, "".
    apply core_answered, answered_spec in E; [|done]. rewrite !(proj1 (dress_rest _ _ _ _ _ _)), !(proj2 (dress_rest _ _ _ _ _ _)). split_and!; [done|done|..].
    + intros n v Hn _. by rewrite dress_header, Hn.
    + intros Ht Hn. rewrite dress_header, Hn, Ht, Hms. by rewrite bool_decide_eq_true_2.
Qed.

Lemma decorate_answer p request r : visible_valid valid_value -> wf_headers (req_headers request) -> silent r ->
  cors_answer valid_method p request (decorate_actual valid_value p (allowed_origin p (req_headers request)) r).
Proof.
  intros Hv Hw Hr. unfold cors_answer, decorate_actual. destruct (allowed_origin p (req_headers request)) as [o|] eqn:Eo.
  - assert (valid_value o = true) as Ho.
    { apply Hv. unfold allowed_origin in Eo. destruct (get_str _ "origin") as [o'|] eqn:E; [|done]. cbn [mbind option_bind] in Eo.
      destruct (existsb _ _); [|done]. injection Eo as ->. by apply (Hw "origin"). }
    destruct (apply_policy_spec valid_method valid_name valid_value hash parse_ip p o false r Hv Ho Hr) as (H1 & H2 & H3 & H4). split_and!; [done..|].
    intros n Hn [v Hs]. rewrite H4 in Hs; done.
  - destruct (append_vary_names valid_value r Hv) as (v & Hvary & Hn). assert (forall n, n ∈ CORS_HEADERS -> response_header (append_vary_origin valid_value r) n = None) as H.
    { intros n Hin. rewrite append_vary_header by (intros ->; set_solver). by apply Hr. }
    split_and!; [by apply H; set_solver| |by exists v|].
    + rewrite H by set_solver. by destruct (cp_credentials p).
    + intros n Hin [x Hx]. rewrite H in Hx by set_solver. done.
Qed.

Lemma answered_cors cors request shared r shared' : visible_valid valid_value -> wf_headers (req_headers request) ->
  bc_cors (builtin c) = Some cors -> (forall request shared r shared', app request shared = Some (r, shared') -> silent r) ->
  answered valid_method valid_value hash show_ip checks parse_ip c trusted clock app request shared r shared' ->
  cors_answer valid_method (cors_policy cors) request r.
Proof.
  intros Hv Hw Hc Happ H. destruct H as [rate key b' Hr Hk Ha|cors' o s' Hc' Hp Ho|s1 r1 s' Hr1].
  - rewrite Hc. unfold refusal. cbn [fmap option_fmap option_map]. apply decorate_answer; [done..|]. intros n Hn.
    rewrite !response_header_insert. rewrite !decide_False by (intros <-; set_solver). unfold response_header. cbn [resp_headers]. by rewrite lookup_empty.
  - rewrite Hc in Hc'. injection Hc' as <-. unfold preflight_response, cors_answer. rewrite Ho.
    assert (valid_value o = true) as Hvo.
    { apply Hv. unfold allowed_origin in Ho. destruct (get_str _ "origin") as [o'|] eqn:E; [|done]. cbn [mbind option_bind] in Ho.
      destruct (existsb _ _); [|done]. injection Ho as ->. by apply (Hw "origin"). }
    assert (silent (status_response 204)) as Hs by (intros n _; unfold response_header; cbn [resp_headers status_response]; by rewrite lookup_empty).
    destruct (apply_policy_spec valid_method valid_name valid_value hash parse_ip (cors_policy cors) o true (status_response 204) Hv Hvo Hs) as (H1 & H2 & H3 & _). split_and!; [done..|].
    intros n _ _. split; [done|by eexists].
  - rewrite Hc. apply decorate_answer; [done..|by eapply Happ].
Qed.

Lemma last_value_None n headers : n ∉ headers.*1 -> last_value n headers = None.
Proof.
  unfold last_value. intros Hn. assert (forall found, n ∉ headers.*1 ->
    fold_left (fun found '(name, value) => if String.eqb name n then Some value else found) headers found = found) as H; [|by apply H].
  induction headers as [|[name value] headers IH]; intros found Hnot; cbn [fold_left]; [done|].
  cbn [fmap list_fmap] in Hnot. apply not_elem_of_cons in Hnot as [Hne Hnot]. apply not_eq_sym, String.eqb_neq in Hne. cbn [fst] in Hne. rewrite Hne.
  by apply IH.
Qed.

(** C17: the cross-origin policy holds on every answer.  Under an accepted
    configuration with a policy, an application that sets none of the policy's
    headers and custom headers that name none of them, every answer, a refusal
    and a preflight included, allows exactly the request's origin when the
    policy allows it and no origin otherwise, allows credentials only then,
    names [Origin] in [Vary], and shows the allowed methods and headers only to
    an allowed preflight.  Credentials are never allowed by a wildcard: the
    origin is on the list by name. *)
Theorem cors_policy_holds_on_every_answer s cors : visible_valid valid_value -> bc_cors (builtin c) = Some cors ->
  (forall request shared r shared', app request shared = Some (r, shared') -> silent r) ->
  (forall n v, (n, v) ∈ custom_headers valid_name valid_value (bc_headers (builtin c)) -> n ∉ "vary" :: CORS_HEADERS) ->
  apply valid_method valid_name valid_value hash show_ip checks parse_ip compress c trusted clock app = inl s ->
  exists stack, s = compress stack /\ forall request shared r shared', wf_headers (req_headers request) ->
  stack request shared = Some (r, shared') -> cors_answer valid_method (cors_policy cors) request r /\
    (response_header r "access-control-allow-credentials" <> None -> exists origin, response_header r "access-control-allow-origin" = Some origin /\ origin ∈ cc_origins cors).
Proof.
  intros Hv Hc Happ Hcustom Hs. apply apply_shape in Hs as (Hval & stack & -> & Hstack). exists stack. split; [done|].
  intros request shared r shared' Hw Hr. rewrite Hstack in Hr.
  assert (forall b, String.eqb "origin" b = true -> b = "origin") as _ by (intros b Hb; by apply String.eqb_eq in Hb).
  destruct (logged valid_value (builtin c) request shared) as [[id request'] shared1] eqn:El.
  destruct (core _ _ _ _ _ _ _ _ _ _ _ _) as [[r0 s0]|] eqn:E; [|done]. injection Hr as <- <-.
  assert (wf_headers (req_headers request') /\ allowed_origin (cors_policy cors) (req_headers request') = allowed_origin (cors_policy cors) (req_headers request) /\
    is_preflight valid_method request' = is_preflight valid_method request) as (Hw' & Ha & Hp).
  { unfold logged in El. destruct (bc_logging (builtin c)); [|by injection El as <- <- <-].
    pose proof (request_id_visible (req_headers request) (next_request_id shared) Hw) as Hid. destruct (request_id _ _) as [i counter]. cbn [fst] in Hid.
    rewrite (Hv i Hid) in El. injection El as <- <- <-. split_and!.
    - intros n v. rewrite set_request_header_get. destruct (String.eqb n "x-request-id"); [by intros [= <-]|by apply Hw].
    - unfold allowed_origin. by rewrite set_request_header_get.
    - unfold is_preflight. by rewrite set_request_header_get. }
  assert (forall n, n ∈ "vary" :: CORS_HEADERS -> response_header (dress valid_name valid_value (builtin c) clock id r0) n = response_header r0 n) as Hd.
  { intros n Hn. rewrite dress_header. assert (last_value n (custom_headers valid_name valid_value (bc_headers (builtin c))) = None) as ->.
    { apply last_value_None. intros Hin. apply list_elem_of_fmap in Hin as ([m v] & Heq & Hin). cbn in Heq. subst m. by apply (Hcustom n v Hin). }
    assert ("x-request-id" <> n /\ "x-response-time" <> n) as [H1 H2] by (split; intros <-; unfold CORS_HEADERS in Hn; set_solver).
    destruct id; rewrite !bool_decide_eq_false_2 by done; by rewrite !andb_false_r. }
  apply core_answered, (answered_cors cors) in E; [|done..]. unfold cors_answer in E. rewrite Ha, Hp in E. destruct E as (H1 & H2 & (v & H3 & Hn) & H4).
  assert (Hin_vary : forall n, n ∈ CORS_HEADERS -> n ∈ "vary" :: CORS_HEADERS) by set_solver. unfold CORS_HEADERS in Hin_vary.
  rewrite (Hd "access-control-allow-credentials"), (Hd "access-control-allow-origin") by (unfold CORS_HEADERS; set_solver). split.
  - unfold cors_answer. rewrite (Hd "access-control-allow-credentials"), (Hd "access-control-allow-origin") by (unfold CORS_HEADERS; set_solver).
    split; [done|]. split; [done|]. split; [exists v; rewrite Hd by (unfold CORS_HEADERS; set_solver); done|].
    intros n Hin. rewrite Hd by (unfold CORS_HEADERS; set_solver). by apply H4.
  - rewrite H1, H2. intros Hcred. destruct (cp_credentials (cors_policy cors)) eqn:Ec; [|done].
    destruct (allowed_origin (cors_policy cors) (req_headers request)) as [o|] eqn:Eo; [|done]. exists o. split; [done|].
    assert (existsb (String.eqb "*") (cc_origins cors) = false) as Hstar.
    { unfold validate in Hval. destruct (worker_processes c); [|done]. destruct (worker_timeout c); [|done]. destruct (List.find _ _) as [[? ?]|]; [done|].
      rewrite Hc in Hval. cbn [mbind option_bind] in Hval. change (cp_credentials (cors_policy cors)) with (cc_credentials cors) in Ec.
      rewrite Ec in Hval. cbn [andb] in Hval. by destruct (existsb (String.eqb "*") (cc_origins cors)). }
    unfold allowed_origin in Eo. destruct (get_str _ "origin") as [o'|]; [|done]. cbn [mbind option_bind] in Eo.
    destruct (existsb _ (cp_origins _)) eqn:Ex; [|done]. injection Eo as ->. apply existsb_exists in Ex as (a & Hin & Ha'). apply list_elem_of_In.
    apply orb_true_iff in Ha' as [Ha'%String.eqb_eq|Ha'%String.eqb_eq]; subst a; [|done].
    exfalso. cut (existsb (String.eqb "*") (cc_origins cors) = true); [by rewrite Hstar|]. apply existsb_exists. by exists "*".
Qed.
End stack_properties.

(** ** Inputs *)

Module Inputs.
Definition config : MiddlewareConfig :=
  mkConfig (mkBuiltin (Some (mkCorsConfig ["https://a.example"] ["GET"] [] true 60)) true true (Some (mkRateConfig 1 60 "ip")) [("X-Team", "core")]) None None.
Definition headers : HeaderMap := fun n => if String.eqb n "origin" then [Some "https://a.example"] else [].
Definition request : Request := mkRequest "GET" "/" headers (Some (V4 1)).
Definition shared : Shared := mkShared ∅ 1.
Definition clock : Clock := mkClock 0 0 7.
Definition app : Service := fun _ shared => Some (mkResponse 200 ∅ "page", shared).
Definition stack : Service + string :=
  apply is_visible is_visible is_visible id (fun _ => "ip") true (fun _ => None) id config [] clock app.
Definition service : Service := match stack with inl s => s | inr _ => app end.

Lemma accepted : stack = inl service.
Proof.
  unfold service. assert (validate is_visible is_visible is_visible config = None) as H by (vm_compute; reflexivity).
  unfold stack, apply. rewrite H. reflexivity.
Qed.
Lemma headers_visible : wf_headers (req_headers request).
Proof.
  intros n v. cbn [req_headers request]. unfold get_str, headers. destruct (String.eqb n "origin"); [|done]. by intros [= <-].
Qed.
Lemma app_silent : forall request shared r shared', app request shared = Some (r, shared') -> silent r.
Proof. intros req sh r sh' H n _. injection H as <- _. unfold response_header. cbn [resp_headers]. by rewrite lookup_empty. Qed.
Lemma custom_apart n v : (n, v) ∈ custom_headers is_visible is_visible (bc_headers (builtin config)) -> n ∉ "vary" :: CORS_HEADERS.
Proof. cbn. intros [= -> ->]%list_elem_of_singleton. unfold CORS_HEADERS. set_solver. Qed.
End Inputs.

(** The second request of one client within the window is refused, and carries
    its id and the project's header. *)
Lemma observable_witness : exists shared r shared', Inputs.service Inputs.request shared = Some (r, shared') /\
  status r = 429%N /\ response_header r "x-team" = Some "core" /\ response_header r "x-response-time" = Some "7ms".
Proof.
  destruct (every_answer_is_observable is_visible is_visible is_visible id (fun _ => "ip") true (fun _ => None) id Inputs.config [] Inputs.clock Inputs.app
    Inputs.service (fun v H => H) Inputs.accepted) as (stack & Hs & H).
  change (id stack) with stack in Hs. subst stack.
  exists (mkShared {["ip" := mkBucket 0 0]} 2).
  destruct (Inputs.service Inputs.request (mkShared {["ip" := mkBucket 0 0]} 2)) as [[r s]|] eqn:E; [|vm_compute in E; discriminate E].
  exists r, s. split; [reflexivity|].
  assert (status <$> (fst <$> Inputs.service Inputs.request (mkShared {["ip" := mkBucket 0 0]} 2)) = Some 429%N) as Hst by (vm_compute; reflexivity).
  rewrite E in Hst. destruct (H _ _ _ _ Inputs.headers_visible E) as (request' & i & _ & _ & Hc & Ht).
  split; [injection Hst as ->; reflexivity|split; [apply Hc; [vm_compute; reflexivity|right; discriminate]|rewrite Ht by (vm_compute; reflexivity); vm_compute; reflexivity]].
Defined.

Lemma cors_witness : exists r shared', Inputs.service Inputs.request Inputs.shared = Some (r, shared') /\
  response_header r "access-control-allow-origin" = Some "https://a.example".
Proof.
  destruct (cors_policy_holds_on_every_answer is_visible is_visible is_visible id (fun _ => "ip") true (fun _ => None) id Inputs.config [] Inputs.clock Inputs.app
    Inputs.service (mkCorsConfig ["https://a.example"] ["GET"] [] true 60) (fun v H => H) eq_refl Inputs.app_silent Inputs.custom_apart Inputs.accepted)
    as (stack & Hs & H).
  change (id stack) with stack in Hs. subst stack.
  destruct (Inputs.service Inputs.request Inputs.shared) as [[r s]|] eqn:E; [|vm_compute in E; discriminate E].
  exists r, s. split; [reflexivity|]. destruct (H _ _ _ _ Inputs.headers_visible E) as ((Ha & _) & _). rewrite Ha. vm_compute. reflexivity.
Defined.
