(* ===== verification/DepIndex.v ===== *)
(** The dependencies of one compiled module, as the linker looks them up
    (crates/ruvyxa_bundler/src/linker.rs, [DepEntry] and [DepIndex]), and the
    compiled module itself (compiler.rs).  A path is the text its [display]
    shows. *)
From S2P Require Import Prelude RustStr Text Paths PathBuf ModuleAst.

(** ** Definitions *)

Record CompiledModule := mkCompiled {
  module_path : PathBuf;
  module_js : list ascii;
  module_ast : ModuleAst;
  module_deps : list PathBuf;
  module_aliases : gmap string PathBuf;
  module_external : bool;
}.

(** [CompiledModule::new] *)
Definition new_module (path : PathBuf) (js : list ascii) (deps : list PathBuf) (aliases : gmap string PathBuf) (is_external : bool)
    : option CompiledModule :=
  ast ← (if is_external then Some empty_ast else parse_module js);
  Some (mkCompiled path js ast deps aliases is_external).

Record DepEntry := mkEntry {
  normalized : string;
  stem : string;
  parent_name : string;
  is_index : bool;
  package_path : option string;
}.

(** [s.replace('\\', "/")] *)
Definition forward_slashes (s : string) : string := map_bytes (fun a => if Ascii.eqb a "\" then "/"%char else a) s.

(** What follows the first occurrence of [p]. *)
Fixpoint after_first (p s : string) : option string :=
  match strip_prefix p s with
  | Some rest => Some rest
  | None => match s with "" => None | String _ s => after_first p s end
  end.

(** The extensions a package path loses, in the order they are tried. *)
Definition strip_script_extension (rest : string) : string :=
  default rest (find_map (fun e => strip_suffix e rest) [".tsx"; ".ts"; ".jsx"; ".js"; ".mjs"; ".cjs"]).

(** [DepEntry::new] *)
Definition new_entry (dep : PathBuf) : DepEntry :=
  let text := forward_slashes dep in
  {| normalized := text;
     stem := default "" (file_stem_of <$> file_name_of dep);
     parent_name := default "" (parent_of dep ≫= file_name_of);
     is_index := existsb (fun e => ends_with e text) ["/index.ts"; "/index.tsx"; "/index.js"; "/index.jsx"];
     package_path := strip_script_extension <$> after_first "/node_modules/" text |}.

Record DepIndex := mkIndex { index_deps : list PathBuf; index_entries : list DepEntry; index_aliases : gmap string PathBuf }.

(** [DepIndex::new] *)
Definition new_index (deps : list PathBuf) (aliases : gmap string PathBuf) : DepIndex :=
  mkIndex deps (new_entry <$> deps) aliases.

(** Every leading [./] and [../] dropped. *)
Fixpoint strip_climbs (s : string) : string :=
  match s with
  | String "." (String "/" rest) => strip_climbs rest
  | String "." (String "." (String "/" rest)) => strip_climbs rest
  | _ => s
  end.

(** One candidate of [resolve_by_path]: [spec] is the specifier with forward
    slashes, [relative] without its climbs. *)
Definition entry_matches (spec relative : string) (e : DepEntry) : bool :=
  let spec_file := default "" (last (split_char "/" relative)) in
  let spec_dir := default "" (fst <$> rsplit_once "/" relative) in
  String.eqb (normalized e) relative ||
  match strip_suffix relative (normalized e) with Some before => ends_with "/" before | None => false end ||
  (String.eqb (stem e) spec_file && (is_empty_str spec_dir || contains_str spec_dir (normalized e))) ||
  (is_index e && String.eqb spec_file (parent_name e)) ||
  match package_path e with
  | None => false
  | Some path =>
      String.eqb path spec ||
      match strip_suffix "/index" path with Some base => String.eqb base spec | None => false end ||
      match strip_suffix "/client" path with Some base => String.eqb base spec | None => false end
  end.

(** [entries.iter().position(..)], then the dependency at that place. *)
Fixpoint first_match (spec relative : string) (entries : list DepEntry) (deps : list PathBuf) : option PathBuf :=
  match entries, deps with
  | e :: entries, d :: deps => if entry_matches spec relative e then Some d else first_match spec relative entries deps
  | _, _ => None
  end.

(** [resolve_by_path] *)
Definition resolve_by_path (i : DepIndex) (specifier : string) : option PathBuf :=
  let spec := forward_slashes specifier in
  first_match spec (strip_climbs spec) (index_entries i) (index_deps i).

(** [DepIndex::resolve] *)
Definition resolve (i : DepIndex) (specifier : string) : option PathBuf :=
  match index_aliases i !! specifier with
  | Some path => Some path
  | None => resolve_by_path i specifier
  end.

(** The index of a module's own dependencies. *)
Definition index_of (m : CompiledModule) : DepIndex := new_index (module_deps m) (module_aliases m).

(** [modules.iter().filter(|m| !m.is_external)] *)
Definition project_modules (modules : list CompiledModule) : list CompiledModule :=
  filter (fun m => module_external m = false) modules.

(** The map from path to project module: of two modules at one path the later. *)
Definition module_map (modules : list CompiledModule) : gmap Path CompiledModule :=
  foldl (fun map m => <[path_new (module_path m) := m]> map) ∅ (project_modules modules).

(** ** Properties *)

Lemma first_match_in spec relative (deps : list PathBuf) d :
  first_match spec relative (new_entry <$> deps) deps = Some d -> d ∈ deps /\ entry_matches spec relative (new_entry d) = true.
Proof.
  induction deps as [|e deps IH]; cbn [fmap list_fmap first_match]; [done|].
  destruct (entry_matches _ _ (new_entry e)) eqn:E; [intros [= <-]; by split; [left|]|].
  intros [H1 H2]%IH. by split; [right|].
Qed.

(** A specifier resolves to an alias recorded for it, or to a dependency of the module. *)
Lemma resolve_in deps aliases s d : resolve (new_index deps aliases) s = Some d ->
  aliases !! s = Some d \/ (aliases !! s = None /\ d ∈ deps).
Proof.
  unfold resolve, new_index. cbn [index_aliases]. destruct (aliases !! s) as [p|] eqn:E; [intros [= ->]; by left|].
  intros [Hd _]%first_match_in. by right.
Qed.

(** A direct match begins at a path segment: the file name before it is not cut. *)
Lemma direct_match_at_segment relative e before : strip_suffix relative (normalized e) = Some before ->
  ends_with "/" before = true -> normalized e = before +:+ relative /\ exists dir, before = dir +:+ "/".
Proof.
  intros Hs Hb%ends_with_true. destruct Hb as [dir ->]. split; [|by exists dir].
  unfold strip_suffix in Hs. apply fmap_Some in Hs as (r & Hr%strip_prefix_Some & Heq).
  rewrite <- (srev_involutive (normalized e)), Hr, srev_sapp, srev_involutive, Heq. done.
Qed.

Lemma module_map_in_from l : forall (start : gmap Path CompiledModule) p m,
  foldl (fun map m => <[path_new (module_path m) := m]> map) start l !! p = Some m ->
  (m ∈ l /\ path_new (module_path m) = p) \/ (start !! p = Some m /\ forall n, n ∈ l -> path_new (module_path n) <> p).
Proof.
  induction l as [|x l IH]; intros start p m; cbn [foldl].
  { intros H. right. split; [done|]. by intros n ?%elem_of_nil. }
  intros [[H1 H2]|[H1 H2]]%IH; [left; by split; [right|]|].
  destruct (decide (path_new (module_path x) = p)) as [Heq|Hne].
  - rewrite Heq, lookup_insert_eq in H1. injection H1 as <-. left. by split; [left|].
  - rewrite lookup_insert_ne in H1 by done. right. split; [done|]. by intros n [->|Hn]%elem_of_cons; [|apply H2].
Qed.

Lemma module_map_in modules p m : module_map modules !! p = Some m -> m ∈ project_modules modules /\ path_new (module_path m) = p.
Proof. by intros [H|[H _]]%module_map_in_from. Qed.

Lemma module_map_has_from l : forall (start : gmap Path CompiledModule) p,
  is_Some (foldl (fun map m => <[path_new (module_path m) := m]> map) start l !! p) <->
  is_Some (start !! p) \/ exists m, m ∈ l /\ path_new (module_path m) = p.
Proof.
  induction l as [|x l IH]; intros start p; cbn [foldl]; [set_solver|]. rewrite IH.
  destruct (decide (path_new (module_path x) = p)) as [Heq|Hne].
  - rewrite Heq, lookup_insert_eq. set_solver.
  - rewrite lookup_insert_ne by done. set_solver.
Qed.

(** A path is in the map when a project module has it. *)
Lemma module_map_has modules p :
  is_Some (module_map modules !! p) <-> exists m, m ∈ project_modules modules /\ path_new (module_path m) = p.
Proof.
  unfold module_map. rewrite module_map_has_from, lookup_empty. split; [intros [[? H]|H]; done|by right].
Qed.

(** Where no two project modules share a path, each is the one found there. *)
Lemma module_map_lookup modules m : NoDup (path_new ∘ module_path <$> project_modules modules) ->
  m ∈ project_modules modules -> module_map modules !! path_new (module_path m) = Some m.
Proof.
  intros Hnd Hm. destruct (proj2 (module_map_has modules (path_new (module_path m)))) as [n Hn]; [by exists m|].
  rewrite Hn. f_equal. apply module_map_in in Hn as [Hin Heq].
  apply list_elem_of_lookup in Hm as [i Hi]. apply list_elem_of_lookup in Hin as [j Hj].
  assert (i = j) as ->; [|congruence]. apply (NoDup_lookup _ _ _ (path_new (module_path m)) Hnd); rewrite list_lookup_fmap, ?Hi, ?Hj; cbn; [done|by rewrite Heq].
Qed.
