(* ===== verification/LinkOrder.v ===== *)
(** Which modules of a bundle import each other in a cycle, and the order the
    linker writes modules in (crates/ruvyxa_bundler/src/linker.rs,
    [cycle_groups] and [ordered_project_modules]).

    Both walk the graph of project modules by recursion; fuel bounds the depth
    and one more than the number of modules is enough.  The [u32] counters of
    Tarjan's algorithm count modules, of which no bundle has 2^32, and are [N]. *)
From S2P Require Import Prelude Paths PathBuf ModuleAst DepIndex.

(** ** Definitions *)

(** A stack is its members, the top first. *)
Record TarjanState := mkTarjan {
  t_index : gmap Path N;
  low_link : gmap Path N;
  on_stack : gset Path;
  t_stack : list Path;
  groups : gmap Path N;
  counter : N;
  next_group : N;
}.

Definition initial_state : TarjanState := mkTarjan ∅ ∅ ∅ [] ∅ 0 0.

Section graph.
Context (map : gmap Path CompiledModule).

(** The dependencies of the module at a path. *)
Definition deps_of (p : Path) : list Path :=
  match map !! p with Some m => path_new <$> module_deps m | None => [] end.

(** Entering a module: it is numbered and put on the stack. *)
Definition enter (path : Path) (s : TarjanState) : TarjanState :=
  mkTarjan (<[path := counter s]> (t_index s)) (<[path := counter s]> (low_link s)) ({[path]} ∪ on_stack s) (path :: t_stack s)
           (groups s) (counter s + 1) (next_group s).

(** [state.low_link.insert(path, own.min(other))] *)
Definition lower (path : Path) (other : N) (s : TarjanState) : TarjanState :=
  let own := default u32_max (low_link s !! path) in
  mkTarjan (t_index s) (<[path := N.min own other]> (low_link s)) (on_stack s) (t_stack s) (groups s) (counter s) (next_group s).

(** The loop over the dependencies of [path], and whether it imports itself. *)
Fixpoint visit_deps (connect : Path -> TarjanState -> option TarjanState) (path : Path) (deps : list Path) (self_referential : bool)
    (s : TarjanState) : option (bool * TarjanState) :=
  match deps with
  | [] => Some (self_referential, s)
  | dep :: rest =>
      match map !! dep with
      | None => visit_deps connect path rest self_referential s
      | Some _ =>
          let self_referential := self_referential || bool_decide (dep = path) in
          match t_index s !! dep with
          | None =>
              s ← connect dep s;
              visit_deps connect path rest self_referential (lower path (default u32_max (low_link s !! dep)) s)
          | Some dep_index =>
              visit_deps connect path rest self_referential
                (if decide (dep ∈ on_stack s) then lower path dep_index s else s)
          end
      end
  end.

(** [while let Some(member) = state.stack.pop() { .. }]: the component, the rest of the stack, what is still on it. *)
Fixpoint pop_component (path : Path) (stack : list Path) (on : gset Path) : list Path * list Path * gset Path :=
  match stack with
  | [] => ([], [], on)
  | member :: rest =>
      if decide (member = path) then ([member], rest, on ∖ {[member]})
      else let '(component, rest, on) := pop_component path rest (on ∖ {[member]}) in (member :: component, rest, on)
  end.

(** What follows the loop: a root pops its component. *)
Definition leave (path : Path) (self_referential : bool) (s : TarjanState) : TarjanState :=
  if bool_decide (low_link s !! path <> t_index s !! path) then s
  else
    let '(component, stack, on) := pop_component path (t_stack s) (on_stack s) in
    if (1 <? length component) || self_referential then
      let group := (next_group s + 1)%N in
      mkTarjan (t_index s) (low_link s) on stack (foldl (fun gs member => <[member := group]> gs) (groups s) component) (counter s) group
    else mkTarjan (t_index s) (low_link s) on stack (groups s) (counter s) (next_group s).

Fixpoint strong_connect (fuel : nat) (path : Path) (s : TarjanState) : option TarjanState :=
  match fuel with
  | O => None
  | S fuel =>
      '(self_referential, s) ← visit_deps (strong_connect fuel) path (deps_of path) false (enter path s);
      Some (leave path self_referential s)
  end.

(** The sets and the list [visit_module] carries. *)
Record Visit := mkVisit { visiting : gset Path; visited : gset Path; ordered : list CompiledModule }.

(** [visit_module] *)
Fixpoint visit_module (fuel : nat) (path : Path) (v : Visit) : option Visit :=
  match fuel with
  | O => None
  | S fuel =>
      if decide (path ∈ visited v) then Some v
      else if decide (path ∈ visiting v) then Some v
      else match map !! path with
      | None => Some v
      | Some m =>
          v' ← fold_opt (fun v dep => match map !! dep with Some _ => visit_module fuel dep v | None => Some v end)
                 (mkVisit ({[path]} ∪ visiting v) (visited v) (ordered v)) (deps_of path);
          Some (mkVisit (visiting v' ∖ {[path]}) ({[path]} ∪ visited v') (ordered v' ++ [m]))
      end
  end.
End graph.

(** One round of the loop of [cycle_groups]. *)
Definition connect_module (map : gmap Path CompiledModule) (s : TarjanState) (m : CompiledModule) : option TarjanState :=
  match t_index s !! path_new (module_path m) with
  | Some _ => Some s
  | None => strong_connect map (S (size map)) (path_new (module_path m)) s
  end.

(** [cycle_groups] *)
Definition cycle_groups (modules : list CompiledModule) : option (gmap Path N) :=
  s ← fold_opt (connect_module (module_map modules)) initial_state (project_modules modules);
  Some (groups s).

(** [ordered_project_modules] *)
Definition ordered_project_modules (modules : list CompiledModule) : option (list CompiledModule) :=
  let map := module_map modules in
  v ← fold_opt (fun v m => visit_module map (S (size map)) (path_new (module_path m)) v) (mkVisit ∅ ∅ []) (project_modules modules);
  Some (ordered v).

(** ** Specification *)

(** One project module imports another. *)
Definition links_to (map : gmap Path CompiledModule) (x y : Path) : Prop := is_Some (map !! y) /\ y ∈ deps_of map x.

(** [y] stands before [x] in the list. *)
Definition before {A} (y x : A) (l : list A) : Prop := exists l1 l2, l = l1 ++ x :: l2 /\ y ∈ l1.

(** *** The state of Tarjan's walk

    [G] holds the modules entered and not left: each reaches the next.  What is
    indexed and not on the stack is done, and closed under imports. *)

Definition indexed (s : TarjanState) (x : Path) : Prop := is_Some (t_index s !! x).
Definition num (s : TarjanState) (x : Path) : N := default 0%N (t_index s !! x).
Definition done (s : TarjanState) (x : Path) : Prop := indexed s x /\ x ∉ t_stack s.

Section spec.
Context (map : gmap Path CompiledModule).
Abbreviation E := (links_to map).

Record tarjan_wf (G : gset Path) (s : TarjanState) : Prop := {
  wf_nodes : forall x, indexed s x -> is_Some (map !! x);
  wf_num : forall x n, t_index s !! x = Some n -> (n < counter s)%N;
  wf_stack : forall x, x ∈ t_stack s -> indexed s x;
  wf_on : forall x, x ∈ on_stack s <-> x ∈ t_stack s;
  wf_gray : forall x, x ∈ G -> x ∈ t_stack s;
  wf_black : forall x y, indexed s x -> x ∉ G -> E x y -> indexed s y;
  wf_down : forall g y, g ∈ G -> y ∈ t_stack s -> (num s g <= num s y)%N -> rtc E g y;
  wf_up : forall y, y ∈ t_stack s -> exists g, g ∈ G /\ (num s g <= num s y)%N /\ rtc E y g;
  wf_done : forall x y, done s x -> E x y -> done s y;
  wf_grouped : forall x g, groups s !! x = Some g -> done s x /\ (g <= next_group s)%N;
  wf_cycle : forall x, done s x -> is_Some (groups s !! x) <-> tc E x x;
  wf_same : forall x y g, groups s !! x = Some g -> groups s !! y = Some g -> rtc E x y;
  wf_equal : forall x y, done s x -> rtc E x y -> rtc E y x -> groups s !! x = groups s !! y;
}.

(** A later state of the walk: what was numbered keeps its number, what is new has a later one. *)
Record later (s s' : TarjanState) : Prop := {
  later_index : t_index s ⊆ t_index s';
  later_counter : (counter s <= counter s')%N;
  later_new : forall x n, t_index s !! x = None -> t_index s' !! x = Some n -> (counter s <= n)%N;
}.

(** What a visit of [x] owes the modules above it: [l] is its low link, [fresh] what it left on the stack. *)
Record low_ok (x : Path) (s s' : TarjanState) (fresh : list Path) (l : N) : Prop := {
  low_is : low_link s' !! x = Some l;
  low_le : (l <= counter s)%N;
  low_reaches : l = counter s \/ exists v, v ∈ t_stack s /\ num s v = l /\ rtc E x v;
  low_min : forall u v, u ∈ fresh -> v ∈ t_stack s -> E u v -> (l <= num s v)%N;
}.

Record visited_ok (G : gset Path) (x : Path) (s s' : TarjanState) : Prop := {
  visited_wf : tarjan_wf G s';
  visited_later : later s s';
  visited_index : t_index s' !! x = Some (counter s);
  visited_low : forall y, indexed s y -> low_link s' !! y = low_link s !! y;
  visited_stack : exists fresh l, t_stack s' = fresh ++ t_stack s /\ (forall y, y ∈ fresh -> t_index s !! y = None) /\
    low_ok x s s' fresh l;
}.

(** Amid the visit of [x], its dependencies [seen] already taken. *)
Record amid (G : gset Path) (x : Path) (s0 : TarjanState) (seen : list Path) (s : TarjanState) : Prop := {
  amid_wf : tarjan_wf ({[x]} ∪ G) s;
  amid_later : later (enter x s0) s;
  amid_low : forall y, indexed s0 y -> low_link s !! y = low_link s0 !! y;
  amid_stack : exists fresh l, t_stack s = fresh ++ x :: t_stack s0 /\
    (forall y, y ∈ fresh -> t_index s0 !! y = None /\ y <> x) /\
    low_ok x s0 s fresh l /\
    forall d, d ∈ seen -> is_Some (map !! d) -> indexed s d /\ (d ∈ t_stack s0 -> (l <= num s0 d)%N);
}.
End spec.

(** ** Properties *)

Section tarjan.
Context (map : gmap Path CompiledModule).
Abbreviation E := (links_to map).
Abbreviation wf := (tarjan_wf map).

Lemma later_refl s : later s s.
Proof. split; [done|lia|congruence]. Qed.

Lemma later_indexed s s' x : later s s' -> indexed s x -> indexed s' x.
Proof. intros Hl [n Hn]. exists n. by eapply lookup_weaken; [|apply (later_index _ _ Hl)]. Qed.

Lemma later_num s s' x : later s s' -> indexed s x -> num s' x = num s x.
Proof. intros Hl [n Hn]. unfold num. by rewrite Hn, (lookup_weaken _ _ _ _ Hn (later_index _ _ Hl)). Qed.

Lemma num_lookup s x n : t_index s !! x = Some n -> num s x = n.
Proof. intros H. unfold num. by rewrite H. Qed.

Lemma later_trans a b c : later a b -> later b c -> later a c.
Proof.
  intros [H1 H2 H3] [H4 H5 H6]. split; [by etrans|lia|].
  intros x n Ha Hc. destruct (t_index b !! x) as [n'|] eqn:Hb; [|by specialize (H6 x n Hb Hc); lia].
  pose proof (lookup_weaken _ _ _ _ Hb H4) as Hc'. assert (n = n') as -> by congruence. by apply (H3 x).
Qed.

Lemma later_same_index s s' : t_index s' = t_index s -> counter s' = counter s -> later s s'.
Proof. intros H1 H2. split; rewrite ?H1, ?H2; [done|lia|congruence]. Qed.

Lemma later_enter x s : t_index s !! x = None -> later s (enter x s).
Proof.
  intros Hx. split; cbn [enter t_index counter]; [by apply insert_subseteq|lia|].
  intros y n Hy. destruct (decide (y = x)) as [->|Hne]; [rewrite lookup_insert_eq|rewrite lookup_insert_ne by done; congruence].
  intros [= <-]. done.
Qed.

(** What is done stays closed. *)
Lemma done_closed G s x y : wf G s -> done s x -> rtc E x y -> done s y.
Proof. intros Hw Hx Hxy. induction Hxy as [|x z y Hxz _ IH]; [done|]. apply IH. by eapply (wf_done _ _ _ Hw). Qed.

(** *** Entering *)

Lemma enter_num x s y : t_index s !! x = None -> indexed s y -> num (enter x s) y = num s y.
Proof. intros Hx Hy. apply later_num; [by apply later_enter|done]. Qed.

Lemma enter_indexed x s y : indexed (enter x s) y <-> y = x \/ indexed s y.
Proof.
  unfold indexed, enter. cbn [t_index]. destruct (decide (y = x)) as [->|Hne].
  - rewrite lookup_insert_eq. split; [by left|by eexists].
  - rewrite lookup_insert_ne by done. tauto.
Qed.

Lemma enter_wf G x s : wf G s -> t_index s !! x = None -> is_Some (map !! x) -> (forall g, g ∈ G -> rtc E g x) ->
  wf ({[x]} ∪ G) (enter x s).
Proof.
  intros Hw Hx Hm Hg. assert (x ∉ t_stack s) as Hns.
  { intros Hin. apply (wf_stack _ _ _ Hw) in Hin as [? ?]. congruence. }
  assert (num (enter x s) x = counter s) as Hnx by (apply num_lookup; cbn [enter t_index]; by rewrite lookup_insert_eq).
  assert (forall y, y ∈ t_stack s -> (num s y < counter s)%N) as Hlt.
  { intros y [n Hn]%(wf_stack _ _ _ Hw). rewrite (num_lookup _ _ _ Hn). by apply (wf_num _ _ _ Hw y). }
  assert (forall y, done (enter x s) y <-> done s y) as Hdone.
  { intros y. unfold done. rewrite enter_indexed. cbn [enter t_stack]. rewrite not_elem_of_cons. split; [tauto|].
    intros [H1 H2]. split_and!; [by right| |done]. intros ->. destruct H1. congruence. }
  split.
  - intros y [->|Hy]%enter_indexed; [done|by apply (wf_nodes _ _ _ Hw)].
  - intros y n. cbn [enter t_index counter]. destruct (decide (y = x)) as [->|Hne]; [rewrite lookup_insert_eq|rewrite lookup_insert_ne by done].
    + intros [= <-]. lia.
    + intros Hn%(wf_num _ _ _ Hw). lia.
  - intros y. rewrite enter_indexed. intros [->|Hy]%elem_of_cons; [by left|right; by apply (wf_stack _ _ _ Hw)].
  - intros y. cbn [enter on_stack t_stack]. rewrite elem_of_union, elem_of_singleton, elem_of_cons, (wf_on _ _ _ Hw). done.
  - intros y [->%elem_of_singleton|Hy]%elem_of_union; cbn [enter t_stack]; [by left|right; by apply (wf_gray _ _ _ Hw)].
  - intros a b [->|Ha]%enter_indexed Hn Hab; [set_solver|]. apply enter_indexed. right.
    apply (wf_black _ _ _ Hw a); [done|set_solver|done].
  - intros g y Hgx Hy Hle. cbn [enter t_stack] in Hy. apply elem_of_cons in Hy as [->|Hy].
    + apply elem_of_union in Hgx as [->%elem_of_singleton|Hgx]; [done|by apply Hg].
    + pose proof (Hlt y Hy). pose proof (wf_stack _ _ _ Hw y Hy) as Hyi.
      apply elem_of_union in Hgx as [->%elem_of_singleton|Hgx].
      * rewrite Hnx, enter_num in Hle by done. lia.
      * pose proof (wf_stack _ _ _ Hw g (wf_gray _ _ _ Hw g Hgx)) as Hgi.
        rewrite !enter_num in Hle by done. by apply (wf_down _ _ _ Hw).
  - intros y Hy. cbn [enter t_stack] in Hy. apply elem_of_cons in Hy as [->|Hy]; [exists x; split_and!; [set_solver|lia|done]|].
    destruct (wf_up _ _ _ Hw y Hy) as (g & H1 & H2 & H3). exists g. split_and!; [set_solver| |done].
    pose proof (wf_stack _ _ _ Hw g (wf_gray _ _ _ Hw g H1)). pose proof (wf_stack _ _ _ Hw y Hy). by rewrite !enter_num.
  - intros a b. rewrite !Hdone. apply (wf_done _ _ _ Hw).
  - intros a g. cbn [enter groups next_group]. rewrite Hdone. apply (wf_grouped _ _ _ Hw).
  - intros a. rewrite Hdone. apply (wf_cycle _ _ _ Hw).
  - intros a b g. apply (wf_same _ _ _ Hw).
  - intros a b. rewrite Hdone. apply (wf_equal _ _ _ Hw).
Qed.

Lemma enter_amid G x s : wf G s -> t_index s !! x = None -> is_Some (map !! x) -> (forall g, g ∈ G -> rtc E g x) ->
  amid map G x s [] (enter x s).
Proof.
  intros Hw Hx Hm Hg. split; [by apply enter_wf|apply later_refl| |].
  - intros y [n Hy]. cbn [enter low_link]. rewrite lookup_insert_ne by congruence. done.
  - exists [], (counter s). split_and!; [done|by intros y ?%elem_of_nil| |by intros d ?%elem_of_nil].
    split; [cbn [enter low_link]; by rewrite lookup_insert_eq|done|by left|by intros u v ?%elem_of_nil].
Qed.

(** *** The loop over the dependencies *)

Lemma lower_wf G x o s : wf G s -> wf G (lower x o s).
Proof. by intros []; split. Qed.

Lemma later_lower s s' x o : later s s' -> later s (lower x o s').
Proof. by intros []; split. Qed.

Lemma lower_own x o s l : low_link s !! x = Some l -> low_link (lower x o s) !! x = Some (N.min l o).
Proof. intros Hl. cbn [lower low_link]. by rewrite lookup_insert_eq, Hl. Qed.

Lemma lower_other x o s y : y <> x -> low_link (lower x o s) !! y = low_link s !! y.
Proof. intros Hne. cbn [lower low_link]. by rewrite lookup_insert_ne. Qed.

Section visit.
Context (G : gset Path) (x : Path) (s0 : TarjanState).
Hypothesis (Hx0 : t_index s0 !! x = None).

Lemma amid_indexed seen s : amid map G x s0 seen s -> t_index s !! x = Some (counter s0).
Proof.
  intros Ha. apply (lookup_weaken (t_index (enter x s0))); [cbn [enter t_index]; by rewrite lookup_insert_eq|].
  apply (later_index _ _ (amid_later _ _ _ _ _ _ Ha)).
Qed.

Lemma amid_old seen s y : amid map G x s0 seen s -> indexed s0 y -> indexed s y /\ num s y = num s0 y.
Proof.
  intros Ha Hy. pose proof (later_trans _ _ _ (later_enter x s0 Hx0) (amid_later _ _ _ _ _ _ Ha)) as Hl.
  split; [by eapply later_indexed|by apply later_num].
Qed.

(** What is numbered before [x] stood on the stack before it. *)
Lemma amid_below seen s d i : amid map G x s0 seen s -> d ∈ t_stack s -> t_index s !! d = Some i -> (i < counter s0)%N -> d ∈ t_stack s0.
Proof.
  intros Ha Hd Hi Hlt. destruct (amid_stack _ _ _ _ _ _ Ha) as (fresh & l & Hst & Hf & _).
  rewrite Hst in Hd. apply elem_of_app in Hd as [Hd|[->|Hd]%elem_of_cons]; [|..|done]; exfalso.
  - destruct (Hf d Hd) as [Hn Hne]. assert (t_index (enter x s0) !! d = None) as Hn' by (cbn [enter t_index]; by rewrite lookup_insert_ne).
    pose proof (later_new _ _ (amid_later _ _ _ _ _ _ Ha) d i Hn' Hi) as Hge. cbn [enter counter] in Hge. lia.
  - rewrite (amid_indexed _ _ Ha) in Hi. injection Hi as <-. lia.
Qed.

Lemma amid_known seen s d i : wf G s0 -> amid map G x s0 seen s -> E x d -> t_index s !! d = Some i ->
  amid map G x s0 (d :: seen) (if decide (d ∈ on_stack s) then lower x i s else s).
Proof.
  intros Hw0 Ha Hd Hi. pose proof (amid_wf _ _ _ _ _ _ Ha) as Hw. destruct (amid_stack _ _ _ _ _ _ Ha) as (fresh & l & Hst & Hf & Hlow & Hseen).
  destruct Hlow as [H1 H2 H3 H4]. case_decide as Hon.
  - apply (wf_on _ _ _ Hw) in Hon. split; [by apply lower_wf|by apply later_lower, (amid_later _ _ _ _ _ _ Ha)| |].
    + intros y Hy. rewrite lower_other by (intros ->; destruct Hy; congruence). by apply (amid_low _ _ _ _ _ _ Ha).
    + exists fresh, (N.min l i). split_and!; [done|done| |].
      * split; [by apply lower_own|lia| |].
        -- destruct (N.le_gt_cases l i) as [Hle|Hgt]; [by rewrite N.min_l by done|]. rewrite N.min_r by lia. right.
           exists d. assert (d ∈ t_stack s0) as Hds by (apply (amid_below _ _ _ i Ha); [done..|lia]).
           split_and!; [done| |by apply rtc_once]. destruct (amid_old _ _ d Ha (wf_stack _ _ _ Hw0 d Hds)) as [_ Hnum].
           by rewrite <- Hnum, (num_lookup _ _ _ Hi).
        -- intros u v Hu Hv Huv. specialize (H4 u v Hu Hv Huv). lia.
      * intros d' [->|Hd']%elem_of_cons Hm.
        -- split; [by eexists|]. intros Hds. destruct (amid_old _ _ d Ha (wf_stack _ _ _ Hw0 d Hds)) as [_ Hnum].
           rewrite <- Hnum, (num_lookup _ _ _ Hi). lia.
        -- destruct (Hseen d' Hd' Hm) as [Hs1 Hs2]. split; [done|]. intros Hds. specialize (Hs2 Hds). lia.
  - destruct Ha as [Ha1 Ha2 Ha3 _]. split; [done..|]. exists fresh, l. split_and!; [done|done|done|].
    intros d' [->|Hd']%elem_of_cons Hm; [|by apply Hseen]. split; [by eexists|]. intros Hds. destruct Hon.
    apply (wf_on _ _ _ Hw). rewrite Hst. set_solver.
Qed.

Lemma amid_white seen s s' d : wf G s0 -> amid map G x s0 seen s -> E x d -> t_index s !! d = None ->
  visited_ok map ({[x]} ∪ G) d s s' -> amid map G x s0 (d :: seen) (lower x (default u32_max (low_link s' !! d)) s').
Proof.
  intros Hw0 Ha Hd Hi Hv. destruct (amid_stack _ _ _ _ _ _ Ha) as (fresh & l & Hst & Hf & [H1 H2 H3 H4] & Hseen).
  destruct Hv as [V1 V2 V3 V4 (fresh' & ld & Hst' & Hf' & [L1 L2 L3 L4])].
  pose proof (amid_indexed _ _ Ha) as Hix. assert (indexed s x) as Hixs by by eexists.
  rewrite L1. cbn [default]. assert (low_link s' !! x = Some l) as Hlx by by rewrite V4.
  assert (counter s0 < counter s)%N as Hcs by (apply (wf_num _ _ _ (amid_wf _ _ _ _ _ _ Ha) x); done).
  assert (t_index s0 !! d = None) as Hd0.
  { destruct (t_index s0 !! d) eqn:Ed; [|done]. destruct (amid_old _ _ d Ha) as [[? ?] _]; [by eexists|congruence]. }
  split; [by apply lower_wf|apply later_lower, (later_trans _ s); [by apply (amid_later _ _ _ _ _ _ Ha)|done]| |].
  - intros y Hy. rewrite lower_other by (intros ->; destruct Hy; congruence).
    rewrite V4 by apply (amid_old _ _ y Ha Hy). by apply (amid_low _ _ _ _ _ _ Ha).
  - exists (fresh' ++ fresh), (N.min l ld). split_and!.
    + cbn [lower t_stack]. by rewrite Hst', Hst, app_assoc.
    + intros y [Hy|Hy]%elem_of_app; [|by apply Hf]. specialize (Hf' y Hy). split; [|congruence].
      destruct (t_index s0 !! y) eqn:Ey; [|done]. destruct (amid_old _ _ y Ha) as [[? ?] _]; [by eexists|congruence].
    + split; [by apply lower_own|lia| |].
      * destruct (N.le_gt_cases l ld) as [Hle|Hgt]; [by rewrite N.min_l by done|]. rewrite N.min_r by lia. right.
        destruct L3 as [->|(v & Hv1 & Hv2 & Hv3)]; [lia|]. exists v.
        destruct (wf_stack _ _ _ (amid_wf _ _ _ _ _ _ Ha) v Hv1) as [n Hn]. pose proof (num_lookup _ _ _ Hn) as Hn2.
        assert (v ∈ t_stack s0) as Hv0 by (apply (amid_below _ _ _ n Ha); [done..|lia]).
        destruct (amid_old _ _ v Ha (wf_stack _ _ _ Hw0 v Hv0)) as [_ Hnum]. split_and!; [done|congruence|].
        by apply (rtc_l _ _ d).
      * intros u v [Hu|Hu]%elem_of_app Hv Huv; [|specialize (H4 u v Hu Hv Huv); lia].
        assert (v ∈ t_stack s) as Hvs by (rewrite Hst; set_solver). specialize (L4 u v Hu Hvs Huv).
        destruct (amid_old _ _ v Ha (wf_stack _ _ _ Hw0 v Hv)) as [_ Hnum]. lia.
    + intros d' [->|Hd']%elem_of_cons Hm.
      * split; [by eexists|]. intros [n Hn]%(wf_stack _ _ _ Hw0). congruence.
      * destruct (Hseen d' Hd' Hm) as [Hs1 Hs2]. split; [by apply (later_indexed s s')|].
        intros Hds. specialize (Hs2 Hds). lia.
Qed.
End visit.

(** How many modules are not numbered yet. *)
Definition unseen (s : TarjanState) : nat := size (dom map ∖ dom (t_index s)).

Lemma unseen_later s s' : later s s' -> unseen s' <= unseen s.
Proof. intros Hl. unfold unseen. apply subseteq_size. pose proof (subseteq_dom _ _ (later_index _ _ Hl)). set_solver. Qed.

Lemma unseen_enter x s : t_index s !! x = None -> is_Some (map !! x) -> unseen (enter x s) < unseen s.
Proof.
  intros Hx Hm. unfold unseen. apply subset_size. cbn [enter t_index]. rewrite dom_insert.
  apply not_elem_of_dom in Hx. apply elem_of_dom in Hm. set_solver.
Qed.

Definition connects (G : gset Path) (fuel : nat) (connect : Path -> TarjanState -> option TarjanState) : Prop :=
  forall d s, wf G s -> t_index s !! d = None -> is_Some (map !! d) -> (forall g, g ∈ G -> rtc E g d) -> unseen s <= fuel ->
  exists s', connect d s = Some s' /\ visited_ok map G d s s'.

Lemma visit_deps_spec G x s0 fuel connect deps : forall self seen s,
  t_index s0 !! x = None -> is_Some (map !! x) -> wf G s0 -> (forall g, g ∈ G -> rtc E g x) ->
  connects ({[x]} ∪ G) fuel connect -> amid map G x s0 seen s -> (forall d, d ∈ deps -> d ∈ deps_of map x) -> unseen s <= fuel ->
  exists s' seen', visit_deps map connect x deps self s = Some (self || bool_decide (x ∈ deps), s') /\
    amid map G x s0 seen' s' /\ forall d, d ∈ deps \/ d ∈ seen -> d ∈ seen'.
Proof.
  induction deps as [|d deps IH]; intros self seen s Hx0 Hxm Hw0 HG Hc Ha Hd Hf.
  { exists s, seen. cbn. rewrite orb_false_r. split_and!; [done..|]. by intros d [?%elem_of_nil|]. }
  assert (forall d', d' ∈ deps -> d' ∈ deps_of map x) as Hds by (intros; apply Hd; by right).
  cbn [visit_deps]. destruct (map !! d) as [m|] eqn:Em.
  2:{ destruct (IH self (d :: seen) s) as (s' & seen' & H1 & H2 & H3); [done..| |done|done|].
      { destruct Ha as [A1 A2 A3 (fr & l & A4 & A5 & A6 & A7)]. split; [done..|]. exists fr, l. split_and!; [done..|].
        intros d' [->|Hd']%elem_of_cons Hm'; [rewrite Em in Hm'; by destruct Hm'|by apply A7]. }
      exists s', seen'. split_and!; [rewrite H1| done|set_solver]. repeat f_equal. apply bool_decide_ext. rewrite elem_of_cons.
      split; [by right|]. intros [->|]; [rewrite Em in Hxm; by destruct Hxm|done]. }
  assert (self || bool_decide (x ∈ d :: deps) = self || bool_decide (d = x) || bool_decide (x ∈ deps)) as ->.
  { rewrite <- orb_assoc. f_equal. rewrite <- bool_decide_or. apply bool_decide_ext. rewrite elem_of_cons. naive_solver. }
  assert (E x d) as Hxd by (split; [by rewrite Em|apply Hd; by left]).
  destruct (t_index s !! d) as [i|] eqn:Ei.
  - destruct (IH (self || bool_decide (d = x)) (d :: seen) (if decide (d ∈ on_stack s) then lower x i s else s))
      as (s' & seen' & H1 & H2 & H3); [done..|by apply amid_known|done|by destruct (decide (d ∈ on_stack s))|].
    exists s', seen'. split_and!; [done..|]. set_solver.
  - destruct (Hc d s) as (s1 & Hs1 & Hv); [apply (amid_wf _ _ _ _ _ _ Ha)|done|by rewrite Em| |done|].
    { intros g [->%elem_of_singleton|Hg]%elem_of_union; [by apply rtc_once|]. apply (rtc_r _ x); [by apply HG|done]. }
    rewrite Hs1. cbn [mbind option_bind].
    destruct (IH (self || bool_decide (d = x)) (d :: seen) (lower x (default u32_max (low_link s1 !! d)) s1))
      as (s' & seen' & H1 & H2 & H3); [done..|by apply (amid_white _ _ _ Hx0 seen s)|done| |].
    { pose proof (unseen_later _ _ (visited_later _ _ _ _ _ Hv)). unfold unseen in *. cbn [lower t_index]. lia. }
    exists s', seen'. split_and!; [done..|]. set_solver.
Qed.

(** *** Leaving *)

Lemma pop_component_spec path fresh rest : forall on, path ∉ fresh ->
  pop_component path (fresh ++ path :: rest) on = (fresh ++ [path], rest, on ∖ list_to_set (fresh ++ [path])).
Proof.
  induction fresh as [|y fresh IH]; intros on Hn; cbn [app pop_component].
  { rewrite decide_True by done. cbn [list_to_set foldr]. by rewrite union_empty_r_L. }
  apply not_elem_of_cons in Hn as [Hne Hn]. rewrite decide_False by done. rewrite IH by done. f_equal. apply set_eq. set_solver.
Qed.

Lemma foldl_insert_all (g : N) l : forall (gs : gmap Path N) y,
  foldl (fun gs member => <[member := g]> gs) gs l !! y = (if decide (y ∈ l) then Some g else gs !! y).
Proof.
  induction l as [|z l IH]; intros gs y; cbn [foldl]; [by rewrite decide_False by apply not_elem_of_nil|].
  rewrite IH. destruct (decide (y = z)) as [->|Hne].
  - rewrite (decide_True (P := z ∈ z :: l)) by by left. case_decide; [done|]. by rewrite lookup_insert_eq.
  - rewrite lookup_insert_ne by done. repeat case_decide; set_solver.
Qed.

Section leave.
Context (G : gset Path) (x : Path) (s0 s : TarjanState) (seen fresh : list Path) (l : N).
Hypotheses (Hx0 : t_index s0 !! x = None) (Hw0 : wf G s0) (Ha : amid map G x s0 seen s)
  (Hall : forall d, d ∈ deps_of map x -> d ∈ seen)
  (Hst : t_stack s = fresh ++ x :: t_stack s0) (Hf : forall y, y ∈ fresh -> t_index s0 !! y = None /\ y <> x)
  (Hlow : low_ok map x s0 s fresh l)
  (Hseen : forall d, d ∈ seen -> is_Some (map !! d) -> (indexed s d) /\ ((d ∈ t_stack s0) -> (l <= num s0 d)%N)).

Lemma leave_x_fresh : (x ∉ G) /\ (x ∉ fresh) /\ x ∉ t_stack s0.
Proof.
  assert (x ∉ t_stack s0) as H by (intros [? ?]%(wf_stack _ _ _ Hw0); congruence).
  split_and!; [|by intros [_ ?]%Hf|done]. intros Hg. apply H. by apply (wf_gray _ _ _ Hw0).
Qed.

(** All that [x] imports is numbered. *)
Lemma leave_black y z : indexed s y -> y ∉ G -> E y z -> indexed s z.
Proof.
  intros Hy HyG Hyz. destruct (decide (y = x)) as [->|Hne]; [destruct Hyz as [Hz Hz']; by apply Hseen; [apply Hall|]|].
  apply (wf_black _ _ _ (amid_wf _ _ _ _ _ _ Ha) y); [done|set_solver|done].
Qed.

Lemma leave_old_gray g : g ∈ G -> indexed s0 g /\ num s g = num s0 g.
Proof.
  intros Hg%(wf_gray _ _ _ Hw0)%(wf_stack _ _ _ Hw0). split; [done|]. by apply (amid_old _ _ _ Hx0 _ _ _ Ha).
Qed.

Lemma leave_num_x : num s x = counter s0.
Proof. apply num_lookup. by apply (amid_indexed _ _ _ _ _ Ha). Qed.

Lemma leave_old_below y : y ∈ t_stack s0 -> (num s y < counter s0)%N /\ num s y = num s0 y.
Proof.
  intros Hy%(wf_stack _ _ _ Hw0). destruct (amid_old _ _ _ Hx0 _ _ _ Ha Hy) as [_ Hn]. split; [|done]. rewrite Hn.
  destruct Hy as [n Hn']. rewrite (num_lookup _ _ _ Hn'). by apply (wf_num _ _ _ Hw0 y).
Qed.

(** Not a root: some module above still waits for it. *)
Lemma leave_stays : l <> counter s0 -> wf G s.
Proof.
  intros Hl. pose proof (amid_wf _ _ _ _ _ _ Ha) as Hw. destruct leave_x_fresh as (HxG & Hxf & Hxs).
  destruct (low_reaches _ _ _ _ _ _ Hlow) as [|(v & Hv1 & Hv2 & Hv3)]; [done|].
  destruct (wf_up _ _ _ Hw0 v Hv1) as (gv & Hg1 & Hg2 & Hg3).
  split; [apply Hw|apply Hw|apply Hw|apply Hw| |apply leave_black| | |apply Hw|apply Hw|apply Hw|apply Hw|apply Hw].
  - intros g Hg. apply (wf_gray _ _ _ Hw). set_solver.
  - intros g y Hg. apply (wf_down _ _ _ Hw). set_solver.
  - intros y Hy. destruct (wf_up _ _ _ Hw y Hy) as (g & [->%elem_of_singleton|Hg]%elem_of_union & Hle & Hyg); [|by exists g].
    exists gv. rewrite leave_num_x in Hle. destruct (leave_old_gray gv Hg1) as [_ ->].
    pose proof (low_le _ _ _ _ _ _ Hlow). split_and!; [done|lia|]. etrans; [done|]. by etrans.
Qed.

(** A root's component is closed, up to what was done before. *)
Abbreviation component := (fresh ++ [x]).

Lemma component_closed y z : l = counter s0 -> y ∈ component -> E y z -> z ∈ component \/ done s z.
Proof.
  intros Hl Hy Hyz. assert (y ∈ t_stack s) as Hys by (rewrite Hst; set_solver).
  destruct leave_x_fresh as (HxG & Hxf & Hxs).
  assert (y ∉ G) as HyG.
  { intros Hg. apply elem_of_app in Hy as [Hy| ->%list_elem_of_singleton]; [|done]. destruct (leave_old_gray y Hg) as [[? ?] _]. destruct (Hf y Hy). congruence. }
  assert (indexed s z) as Hz by (eapply leave_black; [by apply (wf_stack _ _ _ (amid_wf _ _ _ _ _ _ Ha))|done|done]).
  destruct (decide (z ∈ t_stack s)) as [Hzs|Hzs]; [|by right]. left. rewrite Hst in Hzs.
  apply elem_of_app in Hzs as [Hzs|[->|Hzs]%elem_of_cons]; [set_solver..|]. exfalso.
  destruct (leave_old_below z Hzs) as [Hlt Hnum].
  apply elem_of_app in Hy as [Hy| ->%list_elem_of_singleton].
  - pose proof (low_min _ _ _ _ _ _ Hlow y z Hy Hzs Hyz). lia.
  - destruct Hyz as [Hm Hin]. destruct (Hseen z (Hall z Hin) Hm) as [_ Hle]. specialize (Hle Hzs). lia.
Qed.

Lemma component_reach y z : l = counter s0 -> y ∈ component -> rtc E y z -> z ∈ component \/ done s z.
Proof.
  intros Hl Hy Hyz. assert (y ∈ component \/ done s y) as H by by left. clear Hy.
  induction Hyz as [|y w z Hyw _ IH]; [done|]. apply IH. destruct H as [H|H]; [by apply (component_closed y)|].
  right. by apply (wf_done _ _ _ (amid_wf _ _ _ _ _ _ Ha) y).
Qed.

Lemma component_mutual y : l = counter s0 -> y ∈ component -> rtc E x y /\ rtc E y x.
Proof.
  intros Hl Hy. pose proof (amid_wf _ _ _ _ _ _ Ha) as Hw. assert (y ∈ t_stack s) as Hys by (rewrite Hst; set_solver). split.
  - apply (wf_down _ _ _ Hw); [set_solver|done|]. rewrite leave_num_x. apply elem_of_app in Hy as [Hy| ->%list_elem_of_singleton]; [|by rewrite leave_num_x].
    destruct (wf_stack _ _ _ Hw y Hys) as [n Hn]. rewrite (num_lookup _ _ _ Hn). destruct (N.le_gt_cases (counter s0) n) as [|Hlt]; [done|].
    exfalso. pose proof (amid_below _ _ _ _ _ y n Ha Hys Hn Hlt) as Hold. apply (wf_stack _ _ _ Hw0) in Hold as [? ?]. destruct (Hf y Hy). congruence.
  - destruct (wf_up _ _ _ Hw y Hys) as (g & Hg & _ & Hyg). apply elem_of_union in Hg as [->%elem_of_singleton|Hg]; [done|]. exfalso.
    destruct leave_x_fresh as (HxG & _ & _). pose proof (wf_gray _ _ _ Hw g) as Hgs. destruct (component_reach y g Hl Hy Hyg) as [Hc|[_ Hc]].
    + apply elem_of_app in Hc as [Hc| ->%list_elem_of_singleton]; [|done]. destruct (leave_old_gray g Hg) as [[? ?] _]. destruct (Hf g Hc). congruence.
    + apply Hc, Hgs. set_solver.
Qed.

(** In a component something lies on a cycle exactly when there is more than one module, or one that imports itself. *)
Lemma component_cycle y self : l = counter s0 -> y ∈ component -> self = bool_decide (x ∈ deps_of map x) -> is_Some (map !! x) ->
  (1 <? length component) || self = true <-> tc E y y.
Proof.
  intros Hl Hy -> Hm. destruct leave_x_fresh as (HxG & Hxf & Hxs). pose proof (amid_wf _ _ _ _ _ _ Ha) as Hw. split.
  - intros [Hlen%Nat.ltb_lt|Hself%bool_decide_eq_true]%orb_true_iff.
    + assert (exists z, z ∈ component /\ z <> y) as (z & Hz & Hne).
      { destruct fresh as [|w f] eqn:Ef; cbn [app length] in Hlen; [lia|]. destruct (decide (y = x)) as [->|Hyx]; [|exists x; split; [set_solver|done]].
        exists w. split; [by left|]. intros ->. apply Hxf. by left. }
      destruct (component_mutual y Hl Hy) as [H1 H2]. destruct (component_mutual z Hl Hz) as [H3 H4].
      assert (rtc E y z) as Hyz by by etrans. assert (rtc E z y) as Hzy by by etrans.
      apply rtc_inv in Hyz as [->|(w & Hyw & Hwz)]; [done|]. apply (tc_rtc_r _ w); [by apply tc_once|]. by etrans.
    + destruct (component_mutual y Hl Hy) as [H1 H2]. assert (E x x) as Hxx by done.
      apply (tc_rtc_l _ x); [done|]. apply (tc_rtc_r _ x); [by apply tc_once|done].
  - intros Htc. destruct (1 <? length component) eqn:Hlen; [done|]. cbn [orb]. apply bool_decide_eq_true.
    assert (fresh = []) as Hnil by (apply Nat.ltb_ge in Hlen; rewrite length_app in Hlen; destruct fresh; cbn in Hlen; [done|lia]).
    rewrite Hnil in Hy. apply list_elem_of_singleton in Hy as ->.
    assert (exists w, E x w /\ rtc E w x) as (w & Hxw & Hwx).
    { inversion Htc as [? ? H1|? w ? H1 H2]; subst; [by exists x|exists w; split; [done|by apply tc_rtc]]. }
    destruct (component_closed x w Hl) as [Hwc|Hwd]; [set_solver|done| |].
    + rewrite Hnil in Hwc. apply list_elem_of_singleton in Hwc as ->. by destruct Hxw.
    + exfalso. destruct (done_closed _ _ _ _ Hw Hwd Hwx) as [_ Hns]. apply Hns. rewrite Hst. set_solver.
Qed.

Definition popped (self : bool) : TarjanState :=
  let group := (next_group s + 1)%N in
  if (1 <? length component) || self
  then mkTarjan (t_index s) (low_link s) (on_stack s ∖ list_to_set component) (t_stack s0)
         (foldl (fun gs member => <[member := group]> gs) (groups s) component) (counter s) group
  else mkTarjan (t_index s) (low_link s) (on_stack s ∖ list_to_set component) (t_stack s0) (groups s) (counter s) (next_group s).

Lemma popped_fields self : t_index (popped self) = t_index s /\ low_link (popped self) = low_link s /\
  on_stack (popped self) = on_stack s ∖ list_to_set component /\ t_stack (popped self) = t_stack s0 /\ counter (popped self) = counter s /\
  (next_group s <= next_group (popped self))%N.
Proof. unfold popped. destruct (_ || _); split_and!; try done; cbn [next_group]; lia. Qed.

Lemma popped_groups self y : groups (popped self) !! y =
  (if decide (y ∈ component) then if (1 <? length component) || self then Some (next_group s + 1)%N else groups s !! y else groups s !! y).
Proof. unfold popped. destruct (_ || _); cbn [groups]; [apply foldl_insert_all|by case_decide]. Qed.

Lemma component_on_stack y : y ∈ component -> y ∈ t_stack s /\ (y ∉ t_stack s0) /\ indexed s y.
Proof.
  intros Hy. assert (y ∈ t_stack s) as Hys by (rewrite Hst; set_solver). split_and!; [done| |by apply (wf_stack _ _ _ (amid_wf _ _ _ _ _ _ Ha))].
  destruct leave_x_fresh as (_ & _ & Hxs). apply elem_of_app in Hy as [Hy| ->%list_elem_of_singleton]; [|done].
  intros [? ?]%(wf_stack _ _ _ Hw0). destruct (Hf y Hy). congruence.
Qed.

Lemma popped_done self y : done (popped self) y <-> done s y \/ y ∈ component.
Proof.
  destruct (popped_fields self) as (H1 & _ & _ & H4 & _). unfold done, indexed. rewrite H1, H4, Hst. split.
  - intros [Hi Hn]. destruct (decide (y ∈ component)); [by right|left]. split; [done|set_solver].
  - intros [[Hi Hn]|Hy]; [split; [done|set_solver]|]. destruct (component_on_stack y Hy) as (_ & Hns & Hi). done.
Qed.

Lemma leave_pops self : l = counter s0 -> self = bool_decide (x ∈ deps_of map x) -> is_Some (map !! x) -> wf G (popped self).
Proof.
  intros Hl Hself Hm. pose proof (amid_wf _ _ _ _ _ _ Ha) as Hw. destruct leave_x_fresh as (HxG & Hxf & Hxs).
  destruct (popped_fields self) as (P1 & P2 & P3 & P4 & P5 & P6).
  assert (forall y, num (popped self) y = num s y) as Pn by (intros; unfold num; by rewrite P1).
  assert (forall y, indexed (popped self) y <-> indexed s y) as Pi by (intros; unfold indexed; by rewrite P1).
  assert (forall y, y ∈ t_stack s0 -> y ∈ t_stack s) as Hsub by (intros; rewrite Hst; set_solver).
  assert (forall y, y ∈ component -> groups s !! y = None) as Hcn.
  { intros y (Hys & _ & _)%component_on_stack. destruct (groups s !! y) eqn:Eg; [|done]. exfalso. by destruct (wf_grouped _ _ _ Hw y _ Eg) as [[_ Hn] _]. }
  split; rewrite ?P4, ?P5, ?P1; try setoid_rewrite popped_done; try setoid_rewrite Pi; try setoid_rewrite Pn.
  - apply (wf_nodes _ _ _ Hw).
  - apply (wf_num _ _ _ Hw).
  - intros y Hy. by apply (wf_stack _ _ _ Hw), Hsub.
  - intros y. rewrite P3, elem_of_difference, (wf_on _ _ _ Hw), elem_of_list_to_set, Hst. split; [set_solver|].
    intros Hy. split; [set_solver|]. intros Hc. by destruct (component_on_stack y Hc) as (_ & Hn & _).
  - apply (wf_gray _ _ _ Hw0).
  - intros y z. apply leave_black.
  - intros g y Hg Hy. apply (wf_down _ _ _ Hw); [set_solver|by apply Hsub].
  - intros y Hy. destruct (wf_up _ _ _ Hw y (Hsub y Hy)) as (g & [->%elem_of_singleton|Hg]%elem_of_union & Hle & Hyg); [|by exists g].
    rewrite leave_num_x in Hle. destruct (leave_old_below y Hy). lia.
  - intros y z [Hy|Hy] Hyz; [left; by apply (wf_done _ _ _ Hw y)|]. destruct (component_closed y z Hl Hy Hyz); [by right|by left].
  - intros y g. rewrite popped_groups. destruct (decide (y ∈ component)) as [Hy|Hy]; [|intros [Hd Hle]%(wf_grouped _ _ _ Hw); split; [by left|lia]].
    destruct (_ || _) eqn:Eb; [|rewrite (Hcn y Hy); done]. intros [= <-]. split; [by right|].
    unfold popped. rewrite Eb. cbn [next_group]. done.
  - intros y Hy. rewrite popped_groups. destruct (decide (y ∈ component)) as [Hyc|Hyc].
    + rewrite <- (component_cycle y self) by done. destruct (_ || _); [by split; [|eexists]|]. rewrite (Hcn y Hyc). split; [by intros []|done].
    + destruct Hy as [Hy|]; [|done]. by apply (wf_cycle _ _ _ Hw).
  - intros y z g. rewrite !popped_groups.
    assert (forall w g, groups s !! w = Some g -> (g <= next_group s)%N) as Hle by (intros w g' Hg%(wf_grouped _ _ _ Hw); apply Hg).
    destruct (decide (y ∈ component)) as [Hy|Hy], (decide (z ∈ component)) as [Hz|Hz]; destruct ((1 <? length component) || self); rewrite ?(Hcn y) by done; rewrite ?(Hcn z) by done; try done; intros H1 H2.
    + etrans; [by apply (component_mutual y)|by apply (component_mutual z)].
    + injection H1 as <-. apply Hle in H2. lia.
    + injection H2 as <-. apply Hle in H1. lia.
    + by eapply (wf_same _ _ _ Hw).
    + by eapply (wf_same _ _ _ Hw).
  - intros y z Hy Hyz Hzy. rewrite !popped_groups.
    assert (forall w, w ∈ component -> ~ done s w) as Hnd by (intros w (H1 & _ & _)%component_on_stack [_ H2]; done).
    destruct Hy as [Hy|Hy].
    + pose proof (done_closed _ _ _ _ Hw Hy Hyz) as Hz. rewrite !decide_False by (intros Hc; by eapply Hnd). by apply (wf_equal _ _ _ Hw).
    + destruct (component_reach y z Hl Hy Hyz) as [Hz|Hz].
      * rewrite !decide_True by done. destruct (_ || _); [done|]. by rewrite !Hcn.
      * exfalso. apply (Hnd y Hy). by apply (done_closed _ _ _ _ Hw Hz).
Qed.

(** What the visit of a module leaves. *)
Lemma leave_ok self : self = bool_decide (x ∈ deps_of map x) -> is_Some (map !! x) -> visited_ok map G x s0 (leave x self s).
Proof.
  intros Hself Hm. pose proof (amid_indexed _ _ _ _ _ Ha) as Hix. destruct leave_x_fresh as (HxG & Hxf & Hxs).
  pose proof (later_trans _ _ _ (later_enter x s0 Hx0) (amid_later _ _ _ _ _ _ Ha)) as Hlt.
  destruct Hlow as [L1 L2 L3 L4]. unfold leave. rewrite L1, Hix. destruct (decide (l = counter s0)) as [Hl|Hl].
  - rewrite bool_decide_false by congruence. rewrite Hst, pop_component_spec by done. fold (popped self).
    destruct (popped_fields self) as (P1 & P2 & P3 & P4 & P5 & P6). split.
    + by apply leave_pops.
    + eapply later_trans; [exact Hlt|by apply later_same_index].
    + by rewrite P1.
    + intros y Hy. rewrite P2. by apply (amid_low _ _ _ _ _ _ Ha).
    + exists [], l. split_and!; [done|by intros y ?%elem_of_nil|]. split; [by rewrite P2|done|by left|by intros u v ?%elem_of_nil].
  - rewrite bool_decide_true by congruence. split; [by apply leave_stays|done|done|by apply (amid_low _ _ _ _ _ _ Ha)|].
    exists component, l. split_and!; [by rewrite Hst, <- app_assoc| |].
    + intros y [Hy|Hy%list_elem_of_singleton]%elem_of_app; [by apply Hf|by subst y].
    + split; [done..|]. intros u v [Hu|Hu%list_elem_of_singleton]%elem_of_app Hv Huv; [by apply (L4 u)|subst u].
      destruct Huv as [Hmv Hd]. destruct (Hseen v (Hall v Hd) Hmv) as [_ Hle]. by apply Hle.
Qed.
End leave.

Lemma strong_connect_step fuel x s : strong_connect map (S fuel) x s =
  ('(self_referential, s') ← visit_deps map (strong_connect map fuel) x (deps_of map x) false (enter x s);
   Some (leave x self_referential s')).
Proof. done. Qed.

Lemma strong_connect_spec fuel : forall G, connects G fuel (strong_connect map (S fuel)).
Proof.
  induction fuel as [|fuel IH]; intros G x s Hw Hx Hm HG Hf.
  { exfalso. pose proof (unseen_enter x s Hx Hm). lia. }
  destruct (visit_deps_spec G x s fuel (strong_connect map (S fuel)) (deps_of map x) false [] (enter x s))
    as (s' & seen & H1 & H2 & H3); [done..|apply IH|by apply enter_amid|done| |].
  { pose proof (unseen_enter x s Hx Hm). lia. }
  rewrite strong_connect_step, H1. cbn [mbind option_bind]. eexists. split; [done|].
  destruct (amid_stack _ _ _ _ _ _ H2) as (fresh & l & Hst & Hfr & Hlow & Hseen).
  eapply leave_ok; try done. intros d Hd. apply H3. by left.
Qed.
End tarjan.

(** *** The whole graph *)

Section modules.
Context (modules : list CompiledModule).
Abbreviation map := (module_map modules).
Abbreviation E := (links_to map).
Abbreviation path_of := (path_new ∘ module_path).

Lemma initial_wf : tarjan_wf map ∅ initial_state.
Proof.
  assert (forall x, ~ indexed initial_state x) as Hn by (intros x [n Hn]; cbn [initial_state t_index] in Hn; by rewrite lookup_empty in Hn).
  split; cbn [initial_state t_index counter on_stack t_stack groups next_group].
  - by intros x ?%Hn.
  - intros x n. by rewrite lookup_empty.
  - by intros x ?%elem_of_nil.
  - set_solver.
  - set_solver.
  - by intros x y ?%Hn.
  - set_solver.
  - by intros y ?%elem_of_nil.
  - by intros x y [?%Hn _].
  - intros x g. by rewrite lookup_empty.
  - by intros x [?%Hn _].
  - intros x y g. by rewrite lookup_empty.
  - done.
Qed.

Lemma groups_loop l : forall s, tarjan_wf map ∅ s -> (forall m, m ∈ l -> m ∈ project_modules modules) ->
  exists s', fold_opt (connect_module map) s l = Some s' /\
    tarjan_wf map ∅ s' /\ later s s' /\ forall m, m ∈ l -> indexed s' (path_of m).
Proof.
  induction l as [|m l IH]; intros s Hw Hl; cbn [fold_opt].
  { exists s. split_and!; [done|done|apply later_refl|by intros m ?%elem_of_nil]. }
  assert (exists s1, connect_module map s m = Some s1 /\
    tarjan_wf map ∅ s1 /\ later s s1 /\ indexed s1 (path_of m)) as (s1 & -> & Hw1 & Hl1 & Hi1).
  { unfold connect_module. fold (path_of m). change (path_new (module_path m)) with (path_of m).
    destruct (t_index s !! path_of m) as [n|] eqn:Em.
    - exists s. split_and!; [done|done|apply later_refl|by eexists].
    - destruct (strong_connect_spec map (size map) ∅ (path_of m) s) as (s1 & H1 & [V1 V2 V3 _ _]); [done|done| |set_solver| |].
      + apply module_map_has. exists m. split; [apply Hl; by left|done].
      + unfold unseen. rewrite <- size_dom. apply subseteq_size. set_solver.
      + exists s1. split_and!; [done..|]. by eexists. }
  cbn [mbind option_bind]. destruct (IH s1 Hw1) as (s2 & -> & Hw2 & Hl2 & Hi2); [intros; apply Hl; by right|].
  exists s2. split_and!; [done|done|by eapply later_trans|].
  intros m' [->|Hm']%elem_of_cons; [by eapply later_indexed|by apply Hi2].
Qed.

Lemma links_left x y : E x y -> is_Some (map !! x).
Proof. intros [_ Hd]. unfold deps_of in Hd. destruct (map !! x); [by eexists|by apply elem_of_nil in Hd]. Qed.

(** C18: The cycle groups are found for every graph, and exactly: a module has a
    group when a chain of imports leads from it back to it, itself included, and
    two modules share a group when each reaches the other. *)
Theorem cycle_groups_exact : exists gs, cycle_groups modules = Some gs /\
  (forall p, is_Some (gs !! p) <-> tc E p p) /\
  forall p q g, gs !! p = Some g -> gs !! q = Some g <-> rtc E p q /\ rtc E q p.
Proof.
  destruct (groups_loop (project_modules modules) initial_state initial_wf (fun m H => H)) as (s & Hs & Hw & _ & Hall).
  exists (groups s). unfold cycle_groups. rewrite Hs. split; [done|].
  assert (t_stack s = []) as Hst.
  { destruct (t_stack s) as [|y st] eqn:Est; [done|]. destruct (wf_up _ _ _ Hw y) as (g & Hg & _); [rewrite Est; by left|set_solver]. }
  assert (forall p, is_Some (map !! p) -> done s p) as Hdone.
  { intros p (m & Hm & <-)%module_map_has. split; [by apply Hall|]. rewrite Hst. by apply not_elem_of_nil. }
  split.
  - intros p. split.
    + intros [g Hg]. apply (wf_cycle _ _ _ Hw); [by apply (wf_grouped _ _ _ Hw p g)|by exists g].
    + intros Htc. apply (wf_cycle _ _ _ Hw); [|done]. apply Hdone. by inversion Htc; subst; eapply links_left.
  - intros p q g Hp. destruct (wf_grouped _ _ _ Hw p g Hp) as [Hd _]. split.
    + intros Hq. split; by eapply (wf_same _ _ _ Hw).
    + intros [H1 H2]. by rewrite <- (wf_equal _ _ _ Hw p q).
Qed.

(** *** The order of the modules *)

Record order_wf (v : Visit) : Prop := {
  order_visited : forall p, p ∈ visited v <-> p ∈ (path_of <$> ordered v);
  order_once : NoDup (path_of <$> ordered v);
  order_map : forall m, m ∈ ordered v -> map !! path_of m = Some m;
  order_apart : visiting v ## visited v;
  order_before : forall x y, x ∈ visited v -> E x y -> ~ rtc E y x -> before y x (path_of <$> ordered v);
}.

Record order_step (path : Path) (v v' : Visit) : Prop := {
  step_wf : order_wf v';
  step_visiting : visiting v' = visiting v;
  step_visited : visited v ⊆ visited v';
  step_path : is_Some (map !! path) -> path ∈ visited v' \/ path ∈ visiting v;
}.

Lemma before_app {A} (y x : A) l r : before y x l -> before y x (l ++ r).
Proof. intros (l1 & l2 & -> & H). exists l1, (l2 ++ r). split; [by rewrite <- app_assoc|done]. Qed.

Definition unvisited (v : Visit) : nat := size (dom map ∖ (visiting v ∪ visited v)).

Lemma visit_loop fuel path deps : forall v,
  (forall d v, order_wf v -> (forall g, g ∈ visiting v -> rtc E g d) -> unvisited v < fuel ->
     exists v', visit_module map fuel d v = Some v' /\ order_step d v v') ->
  order_wf v -> (forall g, g ∈ visiting v -> rtc E g path) -> unvisited v < fuel -> (forall d, d ∈ deps -> d ∈ deps_of map path) ->
  exists v', fold_opt (fun v dep => match map !! dep with Some _ => visit_module map fuel dep v | None => Some v end) v deps = Some v' /\
    order_wf v' /\ visiting v' = visiting v /\ visited v ⊆ visited v' /\
    forall d, d ∈ deps -> is_Some (map !! d) -> d ∈ visited v' \/ d ∈ visiting v.
Proof.
  induction deps as [|d deps IH]; intros v Hv Hw Hg Hf Hd; cbn [fold_opt].
  { exists v. split_and!; [done..|]. by intros d ?%elem_of_nil. }
  assert (exists v1, match map !! d with Some _ => visit_module map fuel d v | None => Some v end = Some v1 /\ order_step d v v1) as (v1 & -> & Hs).
  { destruct (map !! d) as [m|] eqn:Em.
    - apply Hv; [done| |done]. intros g Hgv. apply (rtc_r _ path); [by apply Hg|]. split; [by rewrite Em|apply Hd; by left].
    - exists v. split; [done|]. split; [done|done|done|]. rewrite Em. by intros []. }
  destruct Hs as [S1 S2 S3 S4]. cbn [mbind option_bind].
  destruct (IH v1) as (v2 & -> & H2 & H3 & H4 & H5); [done|done|by rewrite S2| |intros; apply Hd; by right|].
  { unfold unvisited in *. rewrite S2. eapply Nat.le_lt_trans; [|exact Hf]. apply subseteq_size. set_solver. }
  exists v2. split_and!; [done|done|congruence|set_solver|].
  intros d' [->|Hd']%elem_of_cons Hm; [destruct (S4 Hm); [left; set_solver|by right]|]. rewrite <- S2. by apply H5.
Qed.

Lemma visit_module_spec fuel : forall path v, order_wf v -> (forall g, g ∈ visiting v -> rtc E g path) -> unvisited v < fuel ->
  exists v', visit_module map fuel path v = Some v' /\ order_step path v v'.
Proof.
  induction fuel as [|fuel IH]; intros path v Hw Hg Hf; [lia|]. cbn [visit_module].
  case_decide as Hvd; [exists v; split; [done|split; [done..|by left]]|].
  case_decide as Hvg; [exists v; split; [done|split; [done..|by right]]|].
  destruct (map !! path) as [m|] eqn:Em; [|exists v; split; [done|split; [done..|rewrite Em; by intros []]]].
  set (v0 := mkVisit ({[path]} ∪ visiting v) (visited v) (ordered v)).
  assert (order_wf v0) as Hw0 by (destruct Hw as [O1 O2 O3 O4 O5]; split; cbn; [done..|set_solver|done]).
  destruct (visit_loop fuel path (deps_of map path) v0) as (v1 & H1 & H2 & H3 & H4 & H5); [apply IH|done| | |done|].
  { intros g [->%elem_of_singleton|Hgv]%elem_of_union; [done|by apply Hg]. }
  { unfold unvisited in *. cbn [v0 visiting visited]. apply Nat.lt_le_trans with (size (dom map ∖ (visiting v ∪ visited v))); [|lia].
    apply subset_size. apply elem_of_dom_2 in Em. set_solver. }
  rewrite H1. cbn [mbind option_bind]. eexists. split; [done|].
  assert (path_of m = path) as Hmp by by destruct (module_map_in modules path m Em).
  assert (path ∉ visited v1) as Hnv by (pose proof (order_apart _ H2); rewrite H3 in *; cbn in *; set_solver).
  destruct H2 as [O1 O2 O3 O4 O5]. cbn in H3. split; cbn [visiting visited ordered].
  - split; cbn [visiting visited ordered].
    + intros p. rewrite fmap_app, elem_of_app, elem_of_union, elem_of_singleton, O1. cbn. rewrite list_elem_of_singleton, <- Hmp. cbn. tauto.
    + rewrite fmap_app. apply NoDup_app. split_and!; [done| |apply NoDup_singleton]. intros p Hp ->%list_elem_of_singleton.
      apply Hnv. rewrite O1, <- Hmp. done.
    + intros m' [Hm'| ->%list_elem_of_singleton]%elem_of_app; [by apply O3|]. by rewrite Hmp.
    + rewrite H3. set_solver.
    + intros x y Hx Hxy Hyx. rewrite fmap_app. destruct (decide (x = path)) as [->|Hne].
      * exists (path_of <$> ordered v1), []. split; [by rewrite <- Hmp|]. rewrite <- O1. destruct Hxy as [Hm Hin].
        destruct (H5 y Hin Hm) as [|Hy]; [done|]. exfalso. apply Hyx. cbn in Hy. apply elem_of_union in Hy as [->%elem_of_singleton|Hy]; [done|by apply Hg].
      * apply before_app, O5; [set_solver|done..].
  - rewrite H3. apply set_eq. set_solver.
  - cbn in H4. set_solver.
  - intros _. left. set_solver.
Qed.

Lemma order_loop l : forall v, order_wf v -> visiting v = ∅ -> (forall m, m ∈ l -> m ∈ project_modules modules) ->
  exists v', fold_opt (fun v m => visit_module map (S (size map)) (path_of m) v) v l = Some v' /\ order_wf v' /\
    visited v ⊆ visited v' /\ forall m, m ∈ l -> path_of m ∈ visited v'.
Proof.
  induction l as [|m l IH]; intros v Hw Hv Hl; cbn [fold_opt]; [exists v; split_and!; [done..|by intros m ?%elem_of_nil]|].
  destruct (visit_module_spec (S (size map)) (path_of m) v) as (v1 & -> & [S1 S2 S3 S4]); [done|by rewrite Hv| |].
  { unfold unvisited. apply Nat.lt_succ_r. rewrite <- size_dom. apply subseteq_size. set_solver. }
  cbn [mbind option_bind]. destruct (IH v1) as (v2 & -> & H2 & H3 & H4); [done|congruence|intros; apply Hl; by right|].
  exists v2. split_and!; [done|done|set_solver|]. intros m' [->|Hm']%elem_of_cons; [|by apply H4].
  apply H3. destruct S4 as [|Hin]; [|done|rewrite Hv in Hin; set_solver]. apply module_map_has. exists m. split; [apply Hl; by left|done].
Qed.

(** The order lists each project module once, the one a path stands for, and
    whatever a module imports stands before it unless it leads back to it. *)
Lemma ordered_modules_spec : exists l, ordered_project_modules modules = Some l /\ NoDup (path_of <$> l) /\
  (forall p, p ∈ (path_of <$> l) <-> is_Some (map !! p)) /\ (forall m, m ∈ l -> map !! path_of m = Some m) /\
  forall x y, E x y -> ~ rtc E y x -> before y x (path_of <$> l).
Proof.
  destruct (order_loop (project_modules modules) (mkVisit ∅ ∅ [])) as (v & Hv & [O1 O2 O3 O4 O5] & _ & Hall); [|done|done|].
  { split; cbn; [set_solver|constructor|by intros m ?%elem_of_nil|set_solver|set_solver]. }
  exists (ordered v). split_and!; [unfold ordered_project_modules; unfold compose in Hv; by rewrite Hv|done| |done|].
  - intros p. split; [intros (m & -> & Hm)%list_elem_of_fmap; eexists; by apply O3|].
    intros (m & Hm & <-)%module_map_has. by apply O1, Hall.
  - intros x y Hxy Hyx. apply O5; [|done..]. pose proof (links_left _ _ Hxy) as (m & Hm & <-)%module_map_has. by apply Hall.
Qed.

(** C19: The linker writes every project module exactly once, and when it writes a
    module everything the module imports is already written, except what is in
    a cycle group with it. *)
Theorem link_order_follows_imports : exists l gs,
  ordered_project_modules modules = Some l /\ cycle_groups modules = Some gs /\
  NoDup (path_of <$> l) /\ (forall m, m ∈ l -> map !! path_of m = Some m) /\
  (forall m, m ∈ project_modules modules -> path_of m ∈ (path_of <$> l)) /\
  forall x y, E x y -> before y x (path_of <$> l) \/ exists g, gs !! x = Some g /\ gs !! y = Some g.
Proof.
  destruct ordered_modules_spec as (l & Hl & H1 & H2 & H3 & H4).
  destruct cycle_groups_exact as (gs & Hgs & Hc & Hsame). exists l, gs. split_and!; [done..| |].
  - intros m Hm. apply H2, module_map_has. by exists m.
  - intros x y Hxy. destruct (gs !! x) as [g|] eqn:Ex.
    + destruct (decide (gs !! y = Some g)) as [Ey|Ey]; [right; by exists g|left]. apply H4; [done|]. intros Hyx.
      apply Ey, (Hsame x y g Ex). split; [by apply rtc_once|done].
    + left. apply H4; [done|]. intros Hyx. assert (is_Some (gs !! x)) as [g Hg]; [|congruence].
      apply Hc. apply (tc_rtc_r _ y); [by apply tc_once|done].
Qed.
End modules.
