(* ===== verification/LinkStatements.v ===== *)
(** One line of a compiled module, as the linker reads and rewrites it
    (crates/ruvyxa_bundler/src/linker.rs): imports become bindings read off a
    module's namespace, exports become assignments to it.

    A line is its bytes, names and specifiers are text.  [identifier_part] and
    [identifier_name] are oxc's character and name tests; [hash_hex] is the
    hexadecimal BLAKE3 digest.  Every position the code slices at is next to an
    ASCII byte it has just found, so no slice here cuts a character; the mask of
    a line of UTF-8 always exists ([masked_code_shows_code]), which [mask] uses. *)
From S2P Require Import Prelude Order RustStr Utf8 Text Paths PathBuf JsScanner ModuleAst Resolver DepIndex.

(** ** Definitions *)

Definition mask (line : list ascii) : list ascii := default line (masked_code line).

Definition starts (p : string) (line : list ascii) : bool :=
  match strip_bytes p line with Some _ => true | None => false end.
Definition ends (p : string) (line : list ascii) : bool :=
  match strip_suffix_bytes p line with Some _ => true | None => false end.

(** [line.strip_prefix(p).or_else(..)]: the first of the prefixes. *)
Definition strip_any (ps : list string) (line : list ascii) : option (list ascii) := find_map (fun p => strip_bytes p line) ps.

(** [str::rfind] *)
Fixpoint rfind_bytes (p line : list ascii) : option nat :=
  match line with
  | [] => None
  | _ :: rest =>
      match rfind_bytes p rest with
      | Some i => Some (S i)
      | None => if bool_decide (take (length p) line = p) then Some 0 else None
      end
  end.

(** [str::split] and [str::split_once], for one byte and for a text *)
Fixpoint split_bytes (c : ascii) (line : list ascii) : list (list ascii) :=
  match line with
  | [] => [[]]
  | b :: rest =>
      if Ascii.eqb b c then [] :: split_bytes c rest
      else match split_bytes c rest with
           | piece :: pieces => (b :: piece) :: pieces
           | [] => [[b]]
           end
  end.
Definition split_once_bytes (p line : list ascii) : option (list ascii * list ascii) :=
  i ← find_bytes p line; Some (take i line, drop (i + length p) line).

(** [is_linker_identifier_byte] *)
Definition is_linker_identifier_byte (b : ascii) : bool := is_alnum b || one_of ["_"; "$"]%char b.

(** A byte that is absent, or does not continue a word. *)
Definition word_edge (b : option ascii) : bool := match b with Some b => negb (is_linker_identifier_byte b) | None => true end.

(** [has_top_level_await]'s walk and the ones below count brackets in the mask. *)
Definition opens_bracket (b : ascii) : bool := one_of ["{"; "("; "["]%char b.
Definition closes_bracket (b : ascii) : bool := one_of ["}"; ")"; "]"]%char b.

(** *** Quoted values and the [from] keyword *)

(** [quoted_value_with_len] *)
Definition quoted_value_with_len (s : list ascii) : option (list ascii * nat) :=
  let leading_ws := length s - length (trim_start s) in
  match trim_end_matches (byte_is ";"%char) (trim_start s) with
  | quote :: rest =>
      if negb (one_of [dquote; squote] quote) then None
      else close ← position (byte_is quote) rest; Some (take close rest, leading_ws + close + 2)
  | [] => None
  end.

(** [extract_quoted_string] *)
Definition extract_quoted_string (s : list ascii) : option (list ascii) := fst <$> quoted_value_with_len s.

(** [code_from_keyword] *)
Definition code_from_keyword (line : list ascii) : option nat := rfind_bytes (bytes_of " from ") (mask line).

(** [split_from_specifier] *)
Definition split_from_specifier (line : list ascii) : option (list ascii * string) :=
  from_idx ← code_from_keyword line;
  let before := take from_idx line in
  specifier ← extract_quoted_string (trim_text (drop (from_idx + 6) line));
  if ends " as" (trim_end before) || ends "," (trim_end before) then None else Some (before, text_of specifier).

(** *** Spacing *)

Definition keyword_at_start (line : list ascii) : option string :=
  find_map (fun keyword => if starts keyword line && word_edge (line !! 6) then Some keyword else None) ["import"; "export"].

(** The comments after a keyword: what follows them, and whether there was one; [None] where one does not end. *)
Fixpoint strip_comments (fuel : nat) (rest : list ascii) (removed : bool) : option (bool * list ascii) :=
  let rest := drop (span_length is_ascii_whitespace rest) rest in
  match fuel with
  | O => Some (removed, rest)
  | S fuel =>
      if starts "/*" rest then
        close ← find_bytes (bytes_of "*/") (drop 2 rest);
        strip_comments fuel (drop (2 + close + 2) rest) true
      else Some (removed, rest)
  end.

(** [strip_comment_after_module_keyword] *)
Definition strip_comment_after_module_keyword (line : list ascii) : option (list ascii) :=
  keyword ← keyword_at_start line;
  '(removed, rest) ← strip_comments (length line) (drop 6 line) false;
  if negb removed then None else Some (bytes_of keyword ++ bytes_of " " ++ trim_start rest).

(** Where the [from] keywords of a statement want a space. *)
Fixpoint from_insertions (fuel : nat) (line masked : list ascii) (cursor : nat) : list nat :=
  match fuel with
  | O => []
  | S fuel =>
      match find_bytes (bytes_of "from") (drop cursor masked) with
      | None => []
      | Some found =>
          let at_ := cursor + found in
          let before := match at_ with O => None | S i => line !! i end in
          let after := line !! (at_ + 4) in
          (if negb (word_edge before) || negb (word_edge after) then []
           else (match before with Some b => if is_ascii_whitespace b then [] else [at_] | None => [] end) ++
                (match after with Some b => if is_ascii_whitespace b then [] else [at_ + 4] | None => [] end)) ++
          from_insertions fuel line masked (at_ + 4)
      end
  end.

(** A space before each of the positions, which are ascending. *)
Fixpoint insert_spaces (line : list ascii) (previous : nat) (positions : list nat) : list ascii :=
  match positions with
  | [] => drop previous line
  | at_ :: rest => take (at_ - previous) (drop previous line) ++ [" "%char] ++ insert_spaces line at_ rest
  end.

Definition space_insertions (line : list ascii) : list nat :=
  let star := 6 + span_length is_ascii_whitespace (drop 6 line) in
  (match line !! 6 with Some b => if is_ascii_whitespace b then [] else [6] | None => [] end) ++
  (if at_byte line star (byte_is "*"%char) && at_byte line (S star) is_linker_identifier_byte then [S star] else []) ++
  from_insertions (length line) line (mask line) 6.

(** What follows the removal of comments in [normalize_esm_statement]. *)
Definition respace_statement (line : list ascii) : option (list ascii) :=
  _ ← keyword_at_start line;
  match space_insertions line with
  | [] => None
  | insertions => Some (insert_spaces line 0 (dedup_by Nat.eqb (sort_by Nat.compare insertions)))
  end.

(** [normalize_esm_statement]; each removal of comments shortens the line. *)
Fixpoint normalize_fuel (fuel : nat) (line : list ascii) : option (list ascii) :=
  match strip_comment_after_module_keyword line, fuel with
  | Some stripped, S fuel => Some (default stripped (normalize_fuel fuel stripped))
  | _, _ => respace_statement line
  end.
Definition normalize_esm_statement (line : list ascii) : option (list ascii) := normalize_fuel (length line) line.

(** [normalized_statement] *)
Definition normalized_statement (line : list ascii) : list ascii := default line (normalize_esm_statement line).

(** *** Import clauses *)

Inductive ImportBinding := BDefault | BNamed (name : string) | BNamespace.

(** [parse_named_bindings]: the pairs of original and alias *)
Definition parse_named_bindings (clause : list ascii) : list (string * string) :=
  let inner := trim_text (trim_end_matches (byte_is ";"%char) (trim_end_matches (byte_is "}"%char)
                 (drop_while (byte_is "{"%char) (trim_text clause)))) in
  match inner with
  | [] => []
  | _ => omap (fun part =>
      let part := trim_text part in
      match part with
      | [] => None
      | _ => match split_once_bytes (bytes_of " as ") part with
             | Some (original, alias) => Some (text_of (trim_text original), text_of (trim_text alias))
             | None => Some (text_of part, text_of part)
             end
      end) (split_bytes ","%char inner)
  end.

Definition has_byte (c : ascii) (l : list ascii) : bool := existsb (Ascii.eqb c) l.

Section statements.
Context (identifier_part : N -> bool) (identifier_name : string -> bool) (hash_hex : string -> string).

(** [chars().take_while(is_identifier_continue_char)] *)
Fixpoint take_identifier (fuel : nat) (l : list ascii) : list ascii :=
  match fuel, split_char1 l with
  | S fuel, Some (c, rest) => if identifier_part (code_point c) then c ++ take_identifier fuel rest else []
  | _, _ => []
  end.
Definition leading_identifier (l : list ascii) : option string :=
  match take_identifier (length l) l with [] => None | name => Some (text_of name) end.

Definition named_imports (clause : list ascii) : list (string * ImportBinding) :=
  (fun p => (snd p, BNamed (fst p))) <$> parse_named_bindings clause.

(** [parse_import_clause] *)
Definition parse_import_clause (clause : list ascii) : list (string * ImportBinding) + BundleError :=
  let clause := trim_text clause in
  match strip_bytes "* as " clause with
  | Some namespace => inl [(text_of (trim_text namespace), BNamespace)]
  | None =>
  if starts "{" clause then inl (named_imports clause)
  else if has_byte ","%char clause && has_byte "{"%char clause then
    let comma_idx := default 0 (position (byte_is ","%char) clause) in
    let default_name := trim_text (take comma_idx clause) in
    let rest := trim_text (drop (S comma_idx) clause) in
    inl ((text_of default_name, BDefault) :: (if starts "{" rest then named_imports rest else []))
  else
    match (p ← split_once_bytes [","%char] clause;
           let default_name := text_of (trim_text (fst p)) in
           namespace ← strip_bytes "* as " (trim_text (snd p));
           let namespace := text_of (trim_text namespace) in
           if identifier_name default_name && identifier_name namespace
           then Some [(default_name, BDefault); (namespace, BNamespace)] else None) with
    | Some bindings => inl bindings
    | None =>
        if identifier_name (text_of clause) then inl [(text_of clause, BDefault)]
        else inr (BCompiler (OtherMessage ("unsupported static import clause `" +:+ text_of clause +:+ "`")))
    end
  end.

(** [module_id] *)
Definition module_id (path : PathBuf) : string := "__ruv_" +:+ String.substring 0 16 (hash_hex path) +:+ "__".

(** [interop_default] *)
Definition interop_default (dep_id : string) : string :=
  dep_id +:+ " && " +:+ dep_id +:+ ".__esModule ? " +:+ dep_id +:+ ".default : " +:+ dep_id.

(** The closure [bind] of [rewrite_import_clause] *)
Definition bind_import (dep_id : string) (cyclic : bool) (local expression : string) (namespace : bool) : string :=
  if negb cyclic || namespace then "const " +:+ local +:+ " = " +:+ expression +:+ ";"
  else "let " +:+ local +:+ " = " +:+ expression +:+ " ?? __ruvyxaCycleTdz(" +:+ String dquote "" +:+ local +:+ String dquote "" +:+ ", " +:+
       String dquote "" +:+ dep_id +:+ String dquote "" +:+ "); __ruvyxaRebind.push(function () { " +:+ local +:+ " = " +:+ expression +:+ "; });".

(** [rewrite_import_clause] *)
Definition rewrite_import_clause (clause : list ascii) (dep_id : string) (cyclic : bool) : string + BundleError :=
  match parse_import_clause clause with
  | inr e => inr e
  | inl bindings =>
      inl (join " " ((fun b : string * ImportBinding => match snd b with
        | BDefault => bind_import dep_id cyclic (fst b) (interop_default dep_id) false
        | BNamed original => bind_import dep_id cyclic (fst b) (dep_id +:+ "." +:+ original) false
        | BNamespace => bind_import dep_id cyclic (fst b) dep_id true
        end) <$> bindings))
  end.

(** [try_rewrite_import] *)
Definition try_rewrite_import (line : list ascii) (deps : DepIndex) (drop_external_imports : bool) (cyclic_deps : gset Path)
    : option (list ascii) + BundleError :=
  if negb (starts "import " line) then inl None
  else if starts ("import " +:+ String dquote "") line || starts ("import " +:+ String squote "") line then
    inl (Some (bytes_of "// [bundled] " ++ line))
  else match split_from_specifier line with
  | None => inl None
  | Some (before_from, specifier) =>
      match resolve deps specifier with
      | None => inl (if drop_external_imports then Some [] else None)
      | Some dep_path =>
          match strip_bytes "import " before_from with
          | None => inl None
          | Some clause =>
              match rewrite_import_clause (trim_text clause) (module_id dep_path) (bool_decide (path_new dep_path ∈ cyclic_deps)) with
              | inl text => inl (Some (bytes_of text))
              | inr e => inr e
              end
          end
      end
  end.

(** *** Declarations and patterns *)

(** [is_exported_declaration] *)
Definition is_exported_declaration (line : list ascii) : bool :=
  match strip_bytes "export " line with
  | None => false
  | Some decl =>
      let decl := trim_start decl in
      let decl := default decl (strip_bytes "async " decl) in
      existsb (fun keyword => match strip_bytes keyword decl with
                              | Some (b :: _) => one_of [" "; "*"]%char b
                              | _ => false
                              end) ["function"; "class"]
  end.

(** [extract_declaration_name] *)
Definition extract_declaration_name (decl : list ascii) : option string :=
  let decl := trim_text decl in
  let decl := default decl (strip_bytes "async " decl) in
  rest ← strip_any ["function* "; "function "; "class "] decl;
  leading_identifier rest.

(** [extract_var_declaration_name] *)
Definition extract_var_declaration_name (decl : list ascii) : option string :=
  rest ← strip_any ["const "; "let "; "var "] decl;
  leading_identifier (trim_text rest).

(** How many bytes of the mask it takes for the brackets to close. *)
Fixpoint closing_at (open close : ascii) (masked : list ascii) (depth index : nat) : option nat :=
  match masked with
  | [] => None
  | b :: rest =>
      if Ascii.eqb b open then closing_at open close rest (S depth) (S index)
      else if Ascii.eqb b close then
        match depth with
        | 1 => Some (S index)
        | _ => closing_at open close rest (depth - 1) (S index)
        end
      else closing_at open close rest depth (S index)
  end.

(** [balanced_pattern]: the mask opens with the first byte, so the depth never falls below zero. *)
Definition balanced_pattern (source : list ascii) : option (list ascii) :=
  match source with
  | "{"%char :: _ => n ← closing_at "{" "}" (mask source) 0 0; Some (take n source)
  | "["%char :: _ => n ← closing_at "[" "]" (mask source) 0 0; Some (take n source)
  | _ => None
  end.

(** [split_top_level]: the pieces between commas outside brackets, the mask walked beside the text. *)
Fixpoint split_commas (masked source : list ascii) (depth : Z) : list (list ascii) :=
  match masked, source with
  | m :: masked, b :: source =>
      if byte_is "," m && (depth =? 0)%Z then [] :: split_commas masked source depth
      else
        let depth := (if opens_bracket m then depth + 1 else if closes_bracket m then depth - 1 else depth)%Z in
        match split_commas masked source depth with
        | piece :: pieces => (b :: piece) :: pieces
        | [] => [[b]]
        end
  | _, _ => [[]]
  end.
Definition split_top_level (source : list ascii) : list (list ascii) := split_commas (mask source) source 0.

(** Whether the [=] between these two bytes of the mask is an assignment. *)
Definition is_assignment (previous next : option ascii) : bool :=
  negb (match next with Some b => one_of ["="; ">"]%char b | None => false end) &&
  negb (match previous with Some b => one_of ["="; "!"; "<"; ">"]%char b | None => false end).

Fixpoint separator_at (separator : ascii) (previous : option ascii) (masked : list ascii) (depth : Z) (index : nat) : option nat :=
  match masked with
  | [] => None
  | b :: rest =>
      if opens_bracket b then separator_at separator (Some b) rest (depth + 1) (S index)
      else if closes_bracket b then separator_at separator (Some b) rest (depth - 1) (S index)
      else if Ascii.eqb b separator && (depth =? 0)%Z && (negb (byte_is "=" separator) || is_assignment previous (head rest)) then Some index
      else separator_at separator (Some b) rest depth (S index)
  end.

(** [split_top_level_once] *)
Definition split_top_level_once (source : list ascii) (separator : ascii) : option (list ascii * list ascii) :=
  index ← separator_at separator None (mask source) 0 0; Some (take index source, drop (S index) source).

(** [collect_pattern_names]; a nested pattern is shorter than the one around it. *)
Fixpoint collect_pattern_names (fuel : nat) (pattern : list ascii) : list string :=
  match fuel with
  | O => []
  | S fuel =>
      let inner := drop 1 (take (length pattern - 1) pattern) in
      mjoin ((fun element =>
        let element := trim_text element in
        match element with
        | [] => []
        | _ =>
            let element := trim_text (default element (strip_bytes "..." element)) in
            let target := match split_top_level_once element ":" with Some (_, target) => trim_text target | None => element end in
            let target := match split_top_level_once target "=" with Some (before, _) => trim_text before | None => target end in
            if starts "{" target || starts "[" target then
              match balanced_pattern target with Some nested => collect_pattern_names fuel nested | None => [] end
            else if identifier_name (text_of target) then [text_of target] else []
        end) <$> split_top_level inner)
  end.

(** [destructured_binding_names] *)
Definition destructured_binding_names (decl : list ascii) : list string :=
  match strip_any ["const "; "let "; "var "] decl with
  | None => []
  | Some rest =>
      match balanced_pattern (trim_start rest) with
      | None => []
      | Some pattern => collect_pattern_names (length pattern) pattern
      end
  end.

(** *** Exports *)

Inductive Rewrite := Inline (text : list ascii) | Pending (line assignment : list ascii).

Definition assign_export (alias value : string) : string := "__exports." +:+ alias +:+ " = " +:+ value +:+ ";".

(** The declaration kept, its names assigned after the body. *)
Definition pending_names (decl : list ascii) (names : list string) : Rewrite :=
  match names with
  | [] => Inline decl
  | _ => Pending decl (bytes_of (join " " ((fun name => assign_export name name) <$> names)))
  end.

(** What follows [export default ] *)
Definition rewrite_default_export (expr : list ascii) : Rewrite :=
  match (if starts "function " expr || starts "class " expr then extract_declaration_name expr else None) with
  | Some name => Pending expr (bytes_of (assign_export "default" name))
  | None => Inline (bytes_of "__exports.default = " ++ expr)
  end.

(** A re-export: the clause before [from], and the namespace it reads. *)
Definition rewrite_re_export (clause : list ascii) (dep_id : string) : option Rewrite :=
  if bool_decide (clause = bytes_of "*") then Some (Inline (bytes_of ("Object.assign(__exports, " +:+ dep_id +:+ ");")))
  else
    match (rest ← strip_bytes "*" clause;
           rest ← strip_bytes "as " (trim_start rest);
           let alias := text_of (trim_text rest) in
           if identifier_name alias then Some alias else None) with
    | Some alias => Some (Inline (bytes_of (assign_export alias dep_id)))
    | None =>
        if starts "{" clause then
          Some (Inline (bytes_of (join " " ((fun p : string * string =>
            if String.eqb (fst p) "default" then assign_export (snd p) (interop_default dep_id)
            else assign_export (snd p) (dep_id +:+ "." +:+ fst p)) <$> parse_named_bindings clause))))
        else None
    end.

(** [try_rewrite_export_statement] *)
Definition try_rewrite_export_statement (line : list ascii) (deps : DepIndex) : option Rewrite :=
  match strip_bytes "export " line with
  | None => None
  | Some decl =>
  match strip_bytes "export default " line with
  | Some expr => Some (rewrite_default_export (trim_text expr))
  | None =>
  match split_from_specifier line with
  | Some (before_from, specifier) =>
      dep_path ← resolve deps specifier;
      clause ← strip_bytes "export " before_from;
      rewrite_re_export (trim_text clause) (module_id dep_path)
  | None =>
  if starts "export const " line || starts "export let " line || starts "export var " line then
    Some (pending_names decl (match extract_var_declaration_name decl with
                              | Some name => [name]
                              | None => destructured_binding_names decl
                              end))
  else if is_exported_declaration line then
    Some (pending_names decl (match extract_declaration_name decl with Some name => [name] | None => [] end))
  else if starts "export {" line then
    Some (Inline (bytes_of (join " " ((fun p : string * string => assign_export (snd p) (fst p)) <$>
      parse_named_bindings (trim_end_matches (byte_is ";"%char) (trim_text decl))))))
  else None
  end end end.
End statements.
