(* ===== verification/Linker.v ===== *)
(** The linker (crates/ruvyxa_bundler/src/linker.rs): the two passes that
    replace [require()] and dynamic [import()] calls, the rewriting of one
    module, the function each module is wrapped in, and the bundle those are
    assembled into, with the provenance of every line.

    [linked] is the monad of this file: [None] is a panic or a lack of fuel, and
    an answer is a value or a [BundleError].  JSON strings ([js_string]) are
    serde_json's.  The two parallel loops answer in order, as the sequential
    ones do. *)
From S2P Require Import Prelude Order RustStr Utf8 Text Paths PathBuf JsScanner ModuleAst PackageExports Resolver DepIndex LinkOrder LinkStatements.

(** ** Definitions *)

Definition linked (A : Type) : Type := option (A + BundleError).
Definition link_bind {A B} (m : linked A) (f : A -> linked B) : linked B :=
  match m with
  | None => None
  | Some (inr e) => Some (inr e)
  | Some (inl a) => f a
  end.
Notation "x <- m ; k" := (link_bind m (fun x => k)) (at level 20, m at level 100, k at level 200, right associativity).
Definition ok {A} (a : A) : linked A := Some (inl a).
Definition of_walk {A} (w : Walk A) : linked A := match w with Found a => ok a | _ => None end.
Definition of_result {A} (r : A + BundleError) : linked A := Some r.

(** JavaScript text with its double quotes written as backticks. *)
Definition dq (s : string) : string := map_bytes (fun b => if Ascii.eqb b "`" then dquote else b) s.

(** [count_lines] *)
Definition count_lines (text : list ascii) : nat := length (filter (fun b => b = newline) text).

(** [origins.resize(n, None)] *)
Definition resize {A} (l : list A) (n : nat) (x : A) : list A := take n l ++ replicate (n - length l) x.

(** *** The passes over calls *)

(** [escape_js_string] *)
Definition escape_js_string (value : string) : string :=
  replace_str (String "013" "") "\r" (replace_str (String "010" "") "\n" (replace_str (String dquote "") (String "\" (String dquote "")) (replace_str "\" "\\" value))).

(** [is_import_boundary] *)
Definition is_import_boundary (bytes : list ascii) (index : nat) : bool :=
  match index with
  | O => true
  | S before => match bytes !! before with Some b => negb (is_alnum b || one_of ["_"; "$"; "."]%char b) | None => true end
  end.

(** [require_call]: the specifier between the brackets, and the offset after them *)
Definition require_call (line : list ascii) (index : nat) : option (string * nat) :=
  let index := skip_while line is_ascii_whitespace index in
  if negb (at_byte line index (byte_is "(")) then None
  else
    let index := skip_while line is_ascii_whitespace (S index) in
    '(specifier, consumed) ← quoted_value_with_len (drop index line);
    let index := skip_while line is_ascii_whitespace (index + consumed) in
    if at_byte line index (byte_is ")") then Some (text_of specifier, S index) else None.

(** [dynamic_import_call] *)
Definition dynamic_import_call (line : list ascii) (index : nat) : option (string * nat) :=
  let index := skip_while line is_ascii_whitespace index in
  if negb (at_byte line index (byte_is "(")) then None
  else
    let index := skip_while line is_ascii_whitespace (S index) in
    '(specifier, consumed) ← quoted_value_with_len (drop index line);
    let index := skip_while line is_ascii_whitespace (index + consumed) in
    if at_byte line index (byte_is ")") then Some (text_of specifier, S index) else None.

(** [line[first..last]] *)
Definition range (line : list ascii) (first last : nat) : list ascii := take (last - first) (drop first line).

(** [copy_non_code] for a template: the text, and what [rewrite_code] makes of each interpolation. *)
Fixpoint copy_template (rewrite_code : nat -> nat -> Walk (list ascii)) (line : list ascii) (last cursor : nat) (interpolations : list (nat * nat))
    : Walk (list ascii) :=
  match interpolations with
  | [] => Found (range line cursor last)
  | (code_start, code_end) :: rest =>
      if (last <=? code_start) || (code_start <? cursor) then Found (range line cursor last)
      else
        let code_end := Nat.max (Nat.min code_end last) code_start in
        code <~ rewrite_code code_start code_end;
        after <~ copy_template rewrite_code line last code_end rest;
        Found (range line cursor code_start ++ code ++ after)
  end.

(** [copy_non_code]: the text written, and where the walk goes on *)
Definition copy_non_code (rewrite_code : nat -> nat -> Walk (list ascii)) (line : list ascii) (index limit : nat) (found : NonCode)
    : Walk (list ascii * nat) :=
  match found with
  | Opaque close => let close := Nat.max (Nat.min close limit) index in Found (range line index close, close)
  | Template close interpolations =>
      let close := Nat.max (Nat.min close limit) index in
      text <~ copy_template rewrite_code line close index interpolations;
      Found (text, close)
  end.

(** The loop of both passes: [call] is what stands in place of the code at an
    offset, and where the walk goes on.  Answers the text, and whether a block
    comment is still open. *)
Fixpoint rewrite_range (fuel : nat) (call : nat -> nat -> option (list ascii * nat)) (line : list ascii) (last index : nat)
    (previous_significant : option nat) (in_block_comment : bool) : Walk (list ascii * bool) :=
  if last <=? index then Found ([], in_block_comment)
  else match fuel with
  | O => NoFuel
  | S fuel =>
      found <~ skip_non_code line index previous_significant in_block_comment;
      match fst found with
      | Some found' =>
          copied <~ copy_non_code (fun first close => nested <~ rewrite_range fuel call line close first None false; Found (fst nested))
                      line index last found';
          rest <~ rewrite_range fuel call line last (snd copied) (Some (snd copied - 1)) (snd found);
          Found (fst copied ++ fst rest, snd rest)
      | None =>
          match call index last with
          | Some (text, after) =>
              rest <~ rewrite_range fuel call line last after (Some (after - 1)) (snd found);
              Found (text ++ fst rest, snd rest)
          | None =>
              match split_char1 (drop index line) with
              | None => NoFuel
              | Some (c, _) =>
                  let previous := if at_byte line index is_ascii_whitespace then previous_significant else Some index in
                  rest <~ rewrite_range fuel call line last (index + length c) previous (snd found);
                  Found (c ++ fst rest, snd rest)
              end
          end
      end
  end.

Section linker.
Context (identifier_part : N -> bool) (identifier_name : string -> bool) (hash_hex js_string : string -> string).
Abbreviation module_id := (module_id hash_hex).

(** What [rewrite_requires_in_range] puts in place of a call. *)
Definition require_replacement (deps : DepIndex) (drop_unresolved : bool) (importer : string) (line : list ascii) (index last : nat)
    : option (list ascii * nat) :=
  if starts "require" (drop index line) && is_import_boundary line index then
    '(specifier, after_call) ← require_call line (index + 7);
    if last <? after_call then None
    else match resolve deps specifier with
    | Some dep_path => Some (bytes_of (module_id dep_path), after_call)
    | None =>
        if drop_unresolved then
          Some (bytes_of (dq "(function(){throw new Error(`RUV1610: Cannot require \`" +:+ escape_js_string specifier +:+
                  dq "\` in a browser bundle (imported by " +:+ escape_js_string importer +:+
                  dq "). The package could not be resolved from node_modules; check that it is installed.`)})() /* require removed */"),
                after_call)
        else None
    end
  else None.

(** [rewrite_commonjs_requires_with_state] *)
Definition rewrite_commonjs_requires_with_state (line : list ascii) (deps : DepIndex) (in_block_comment drop_unresolved : bool) (importer : string)
    : Walk (list ascii * bool) :=
  rewrite_range (length line) (require_replacement deps drop_unresolved importer line) line (length line) 0 None in_block_comment.

(** What [rewrite_dynamic_imports_in_range] puts in place of a call. *)
Definition import_replacement (deps : DepIndex) (dynamic_import_files : gmap Path string) (line : list ascii) (index last : nat)
    : option (list ascii * nat) :=
  if starts "import" (drop index line) && is_import_boundary line index then
    '(specifier, after_call) ← dynamic_import_call line (index + 6);
    if last <? after_call then None
    else
      dep_path ← resolve deps specifier;
      Some (bytes_of (match dynamic_import_files !! path_new dep_path with
                      | Some file_name => dq "import(`./" +:+ file_name +:+ dq "`).then((module) => module.default)"
                      | None => "Promise.resolve(" +:+ module_id dep_path +:+ ")"
                      end), after_call)
  else None.

(** [rewrite_dynamic_imports] *)
Definition rewrite_dynamic_imports (line : list ascii) (deps : DepIndex) (dynamic_import_files : gmap Path string) (in_block_comment : bool)
    : Walk (list ascii * bool) :=
  rewrite_range (length line) (import_replacement deps dynamic_import_files line) line (length line) 0 None in_block_comment.

(** *** One module *)

(** [lines_with_statement_offsets]: a line ending in [\r\n] costs two bytes more. *)
Fixpoint with_offsets (source : list ascii) (ls : list (list ascii)) (offset : nat) : list (list ascii * nat) :=
  match ls with
  | [] => []
  | line :: rest =>
      let ending := if starts (String "013" (String "010" "")) (drop (offset + length line) source) then 2 else 1 in
      (line, offset + (length line - length (trim_start line))) :: with_offsets source rest (offset + length line + ending)
  end.
Definition lines_with_statement_offsets (source : list ascii) : list (list ascii * nat) := with_offsets source (lines source) 0.

Definition ESM_NAMESPACE_MARKER : list ascii := bytes_of "__exports.__esModule = true;".

(** [declares_esm_syntax] *)
Definition declares_esm_syntax (source : list ascii) (ast : ModuleAst) : bool :=
  existsb (fun e => match edge_kind e with Static | SideEffect | ReExport => true | _ => false end) (imports ast) ||
  existsb (fun '(line, offset) => is_code_offset ast offset && starts "export " (normalized_statement (trim_start line)))
    (lines_with_statement_offsets source).

(** [write_rewritten_line] *)
Definition rewritten_line (content : list ascii) (indent : bool) : list ascii :=
  if indent then match content with [] => [newline] | _ => bytes_of "  " ++ content ++ [newline] end
  else content ++ [newline].

(** The text written so far, and the line of the source each of its lines came from. *)
Definition Tracked : Type := list ascii * list (option nat).

(** [write_tracked_line] *)
Definition write_tracked_line (t : Tracked) (content : list ascii) (indent : bool) (origin : option nat) : Tracked :=
  (fst t ++ rewritten_line content indent, snd t ++ replicate (1 + count_lines content) origin).

(** Every offset at which [p] occurs, for a [p] that does not overlap itself. *)
Fixpoint occurrences (p : string) (l : list ascii) (index : nat) : list nat :=
  match l with
  | [] => []
  | _ :: rest => (if starts p l then [index] else []) ++ occurrences p rest (S index)
  end.

(** Whether the [keyword] at [offset] of the mask is a statement that survived. *)
Definition survives (masked : list ascii) (keyword : string) (offset : nat) : bool :=
  let after := offset + 6 in
  let before := match offset with O => None | S i => masked !! i end in
  let preceding := List.find (fun b => negb (is_ascii_whitespace b)) (rev (take offset masked)) in
  let following := List.find (fun b => negb (is_ascii_whitespace b)) (drop after masked) in
  if negb (word_edge before) || negb (word_edge (masked !! after)) then false
  else if match preceding with Some b => byte_is "." b | None => false end || match following with Some b => byte_is ":" b | None => false end then false
  else if String.eqb keyword "import" && match following with Some b => one_of ["("; "."]%char b | None => false end then false
  else true.

(** The line of [body] an offset lies on: where it starts and ends. *)
Definition line_bounds (body : list ascii) (offset : nat) : nat * nat :=
  (offset - span_length (fun b => negb (byte_is newline b)) (rev (take offset body)),
   offset + span_length (fun b => negb (byte_is newline b)) (drop offset body)).

Definition survivor_hint (body masked : list ascii) (offset : nat) : string :=
  let '(line_start, line_end) := line_bounds body offset in
  let balance := foldl (fun balance b => if byte_is "{" b then balance + 1 else if byte_is "}" b then balance - 1 else balance)%Z 0%Z
                   (range masked line_start line_end) in
  if (0 <? balance)%Z then
    "Its clause opens a `{` that this line does not close, so the statement spans lines and the line-based linker never saw all of it. Such a module is normally re-printed one statement per line before linking, so this one may have failed to parse for re-printing. Check it for syntax this build does not support, or add the package to `build.external`."
  else match split_from_specifier (trim_text (range body line_start line_end)) with
  | Some (_, specifier) =>
      "Its specifier `" +:+ specifier +:+ "` did not resolve to a module in this bundle, so the statement was left as it was written. Check that the file it names exists and is reachable from the entry, or add the package to `build.external`."
  | None =>
      "Modules whose statements share a line are normally re-printed one statement per line before linking, so this one may have failed to parse for re-printing. Check it for syntax this build does not support, or add the package to `build.external`."
  end.

(** [reject_surviving_esm] *)
Definition reject_surviving_esm (body : list ascii) (module_path : string) : () + BundleError :=
  let masked := mask body in
  let found := ((fun at_ => ("export", at_)) <$> occurrences "export" masked 0) ++ ((fun at_ => ("import", at_)) <$> occurrences "import" masked 0) in
  match List.find (fun '(keyword, offset) => survives masked keyword offset) found with
  | None => inl ()
  | Some (keyword, offset) =>
      inr (BCompiler (OtherMessage ("RUV1612 " +:+ module_path +:+ " still contains a top-level `" +:+ keyword +:+
        "` after linking, so the bundle would not parse in a browser. " +:+ survivor_hint body masked offset)))
  end.

Record ModuleRewrite := mkRewrite {
  dynamic_import_files : gmap Path string;
  rewrite_indent : bool;
  drop_external_imports : bool;
  rewrite_importer : string;
  cyclic_deps : gset Path;
}.

(** What the loop of [rewrite_module_into] carries. *)
Record Rewriting := mkRewriting {
  tracked : Tracked;
  pending_exports : list (list ascii);
  open_import_comment : bool;
  open_require_comment : bool;
}.

(** What a line becomes before the passes over calls, and the assignment it leaves for the end. *)
Definition rewrite_statement (rw : ModuleRewrite) (deps : DepIndex) (line : list ascii) : (list ascii * list (list ascii)) + BundleError :=
  let trimmed := trim_text line in
  let statement := default trimmed (normalize_esm_statement trimmed) in
  match try_rewrite_import identifier_name hash_hex statement deps (drop_external_imports rw) (cyclic_deps rw) with
  | inr e => inr e
  | inl (Some text) => inl (text, [])
  | inl None =>
      match try_rewrite_export_statement identifier_part identifier_name hash_hex statement deps with
      | Some (Inline text) => inl (text, [])
      | Some (Pending text assignment) => inl (text, [assignment])
      | None => inl (line, [])
      end
  end.

(** One round of the loop of [rewrite_module_into]. *)
Definition rewrite_line (rw : ModuleRewrite) (deps : DepIndex) (ast : ModuleAst) (s : Rewriting) (numbered : nat * (list ascii * nat))
    : linked Rewriting :=
  let '(index, (line, statement_start)) := numbered in
  statement <- of_result (if is_code_offset ast statement_start then rewrite_statement rw deps line else inl (line, []));
  dynamic <- of_walk (rewrite_dynamic_imports (fst statement) deps (dynamic_import_files rw) (open_import_comment s));
  commonjs <- of_walk (rewrite_commonjs_requires_with_state (fst dynamic) deps (open_require_comment s) (drop_external_imports rw) (rewrite_importer rw));
  let line_start := statement_start - (length line - length (trim_start line)) in
  ok (mkRewriting
    (write_tracked_line (tracked s) (fst commonjs) (rewrite_indent rw && is_code_offset ast line_start) (Some index))
    (pending_exports s ++ snd statement) (snd dynamic) (snd commonjs)).

Fixpoint rewrite_lines (rw : ModuleRewrite) (deps : DepIndex) (ast : ModuleAst) (s : Rewriting) (ls : list (nat * (list ascii * nat))) : linked Rewriting :=
  match ls with
  | [] => ok s
  | l :: rest => s <- rewrite_line rw deps ast s l; rewrite_lines rw deps ast s rest
  end.

(** [rewrite_module_into]: the text appended, and the origin of each of its lines *)
Definition rewrite_module_into (source : list ascii) (deps : DepIndex) (rw : ModuleRewrite) : linked Tracked :=
  ast <- match parse_module source with Some a => ok a | None => None end;
  let start := if declares_esm_syntax source ast then write_tracked_line ([], []) ESM_NAMESPACE_MARKER (rewrite_indent rw) None else ([], []) in
  s <- rewrite_lines rw deps ast (mkRewriting start [] false false) (imap (fun i l => (i, l)) (lines_with_statement_offsets source));
  let body := foldl (fun t assignment => write_tracked_line t assignment (rewrite_indent rw) None) (tracked s) (pending_exports s) in
  _ <- of_result (reject_surviving_esm (fst body) (rewrite_importer rw));
  ok body.

(** *** The wrapper of a module *)

(** [has_top_level_await]: the walk over the mask *)
Fixpoint await_at_top (masked : list ascii) (previous : option ascii) (depth : Z) : bool :=
  match masked with
  | [] => false
  | b :: rest =>
      if opens_bracket b then await_at_top rest (Some b) (depth + 1)
      else if closes_bracket b then await_at_top rest (Some b) (depth - 1)
      else ((depth =? 0)%Z && starts "await" masked && word_edge previous && word_edge (masked !! 5)) || await_at_top rest (Some b) depth
  end.
Definition has_top_level_await (body : list ascii) : bool := await_at_top (mask body) None 0.

Definition KEYWORDS : list string := ["var "; "let "; "const "; "function "; "class "].

(** The name a declaration at the head of [rest] binds. *)
Definition declared_name (rest : list ascii) : option string :=
  after ← strip_any KEYWORDS rest;
  leading_identifier identifier_part (trim_start (drop_while (byte_is "*"%char) (trim_start after))).

(** [top_level_bound_names]: the walk over the mask *)
Fixpoint names_at_top (masked : list ascii) (previous : option ascii) (depth : Z) (names : gset string) : gset string :=
  match masked with
  | [] => names
  | b :: rest =>
      let depth := (if opens_bracket b then depth + 1 else if closes_bracket b then depth - 1 else depth)%Z in
      let names :=
        if (depth =? 0)%Z && word_edge previous && negb (is_continuation b)
        then match declared_name masked with Some name => {[name]} ∪ names | None => names end
        else names in
      names_at_top rest (Some b) depth names
  end.
Definition top_level_bound_names (body : list ascii) : gset string := names_at_top (mask body) None 0 ∅.

Record ModuleSegment := mkSegment { segment_text : list ascii; segment_origins : list (option nat) }.

(** The wrapper before the body: what [write_module_segment] writes first. *)
Definition wrapper_head (id label : string) (bound : gset string) (in_cycle awaits : bool) : list ascii :=
  let exports_expression := if bool_decide ("module" ∈ bound) then "__exports" else "module.exports" in
  bytes_of ("// ── " +:+ label +:+ " ──" +:+ String newline "" +:+
    (if in_cycle then
       "(function() {" +:+ String newline "" +:+ dq "  `use strict`;" +:+ String newline "" +:+ "  var __exports = " +:+ id +:+ ";" +:+ String newline ""
     else if awaits then
       "var " +:+ id +:+ " = await (async function() {" +:+ String newline "" +:+ dq "  `use strict`;" +:+ String newline "" +:+ "  var __exports = {};" +:+ String newline ""
     else
       "var " +:+ id +:+ " = (function() {" +:+ String newline "" +:+ dq "  `use strict`;" +:+ String newline "" +:+ "  var __exports = {};" +:+ String newline "") +:+
    (if bool_decide ("module" ∈ bound) then "" else "  var module = { exports: __exports };" +:+ String newline "") +:+
    (if bool_decide ("exports" ∈ bound) then "" else "  var exports = " +:+ exports_expression +:+ ";" +:+ String newline "") +:+
    (if bool_decide ("process" ∈ bound) then ""
     else dq "  var process = globalThis.process || { env: { NODE_ENV: `production` } };" +:+ String newline "")).

(** The wrapper after the body. *)
Definition wrapper_tail (bound : gset string) (in_cycle : bool) : list ascii :=
  let exports_expression := if bool_decide ("module" ∈ bound) then "__exports" else "module.exports" in
  bytes_of ((if in_cycle then "  if (" +:+ exports_expression +:+ " !== __exports) Object.assign(__exports, " +:+ exports_expression +:+ ");" +:+ String newline ""
             else "  return " +:+ exports_expression +:+ ";" +:+ String newline "") +:+ "})();" +:+ String newline (String newline "")).

(** [write_module_segment] *)
Definition write_module_segment (m : CompiledModule) (files : gmap Path string) (cyclic : gset Path) (in_cycle : bool) : linked ModuleSegment :=
  let id := module_id (module_path m) in
  let label := module_path m in
  body <- rewrite_module_into (module_js m) (index_of m) (mkRewrite files true true label cyclic);
  let bound := top_level_bound_names (fst body) in
  let awaits := negb in_cycle && has_top_level_await (fst body) in
  let head := wrapper_head id label bound in_cycle awaits in
  let text := head ++ fst body ++ wrapper_tail bound in_cycle in
  ok (mkSegment text (resize (replicate (count_lines head) None ++ snd body) (count_lines text) None)).

(** *** Imports that stay outside the bundle *)

(** [is_marker_package] *)
Definition is_marker_package (specifier : string) : bool := existsb (String.eqb specifier) ["server-only"; "client-only"].

(** [is_bare_specifier] *)
Definition is_bare_specifier (specifier : string) : bool :=
  negb (starts_with "." specifier) && negb (starts_with "/" specifier) && negb (contains_str "://" specifier) && negb (starts_with "data:" specifier).

(** [is_non_js_asset_specifier] *)
Definition is_non_js_asset_specifier (specifier : string) : bool :=
  match extension_of (to_ascii_lowercase specifier) with
  | Some ext => existsb (String.eqb ext) ["css"; "scss"; "sass"; "less"]
  | None => false
  end.

(** [ensure_semicolon] *)
Definition ensure_semicolon (line : list ascii) : list ascii := if ends ";" line then line else line ++ [";"%char].

(** The imports to hoist, and for each missing package the names it binds and who imports it. *)
Record External := mkExternal { hoisted : gset string; unresolved : gmap string (gset string * gset string) }.

Definition is_side_effect_import (statement : list ascii) : bool :=
  starts (dq "import `") statement || starts ("import " +:+ String squote "") statement.

(** The specifier of an import statement. *)
Definition import_specifier (statement : list ascii) : option string :=
  if is_side_effect_import statement then text_of <$> extract_quoted_string (default statement (strip_bytes "import " statement))
  else snd <$> split_from_specifier statement.

(** The names an import statement binds, none where its clause cannot be read. *)
Definition import_names (statement : list ascii) : gset string :=
  if is_side_effect_import statement then ∅
  else match split_from_specifier statement with
  | None => ∅
  | Some (before_from, _) =>
      match strip_bytes "import " before_from with
      | None => ∅
      | Some clause =>
          match parse_import_clause identifier_name (trim_text clause) with inl bs => list_to_set (fst <$> bs) | inr _ => ∅ end
      end
  end.

(** A specifier nothing has to be done for: a style sheet, a marker package, a module of the bundle. *)
Definition is_handled (deps : DepIndex) (specifier : string) : bool :=
  is_non_js_asset_specifier specifier || is_marker_package specifier || bool_decide (is_Some (resolve deps specifier)).

(** One import statement of [collect_external_imports]: [importer] is the module's path. *)
Definition collect_import (target : BundleTarget) (deps : DepIndex) (importer : string) (statement : list ascii) (e : External) : External :=
  match import_specifier statement with
  | None => e
  | Some specifier =>
      if is_handled deps specifier then e
      else if bool_decide (target <> TClient) || negb (is_bare_specifier specifier) then
        mkExternal ({[text_of (ensure_semicolon statement)]} ∪ hoisted e) (unresolved e)
      else
        let known := default (∅, ∅) (unresolved e !! specifier) in
        mkExternal (hoisted e) (<[specifier := (import_names statement ∪ fst known, {[importer]} ∪ snd known)]> (unresolved e))
  end.

Definition collect_line (target : BundleTarget) (deps : DepIndex) (importer : string) (ast : ModuleAst) (e : External) (l : list ascii * nat) : External :=
  let '(line, statement_start) := l in
  if negb (is_code_offset ast statement_start) then e
  else
    let statement := normalized_statement (trim_text line) in
    if starts "import " statement then collect_import target deps importer statement e else e.

Definition collect_module (target : BundleTarget) (e : External) (m : CompiledModule) : linked External :=
  ast <- match parse_module (module_js m) with Some a => ok a | None => None end;
  ok (foldl (collect_line target (index_of m) (module_path m) ast) e (lines_with_statement_offsets (module_js m))).

Fixpoint collect_modules (target : BundleTarget) (modules : list CompiledModule) (e : External) : linked External :=
  match modules with
  | [] => ok e
  | m :: rest => e <- collect_module target e m; collect_modules target rest e
  end.

(** The elements of a [BTreeSet<String>], in its order. *)
Definition in_order (s : gset string) : list string := sort_by String.compare (elements s).

Definition UNRESOLVED_IMPORT_HELPER : string :=
  dq ("const __ruvyxaMissingImport__ = function(specifier, binding, importers) {const fail = function() {" +:+
      "throw new Error(`RUV1611: Cannot import ` + (binding ? '`' + binding + '` from ' : ``) + '`' + specifier + '`' + ` in a browser bundle (imported by ` + importers + `). ` + " +:+
      "`The package could not be resolved from node_modules; check that it is installed.`)};" +:+
      "if (binding === null) fail();return new Proxy(function() {}, { get: fail, apply: fail, construct: fail });};").

(** The stubs of one missing package: those of its names that are not [declared] yet. *)
Definition package_stubs (declared : gset string) (package : string * (gset string * gset string)) : gset string * list string :=
  let '(specifier, (bindings, importers)) := package in
  let importers_literal := js_string (join ", " (in_order importers)) in
  let fresh := filter (fun b => b ∉ declared) (in_order bindings) in
  (list_to_set fresh ∪ declared,
   ((fun binding => "const " +:+ binding +:+ " = __ruvyxaMissingImport__(" +:+ js_string specifier +:+ ", " +:+ js_string binding +:+ ", " +:+ importers_literal +:+ ");") <$> fresh) ++
   (if bool_decide (bindings = ∅) then ["__ruvyxaMissingImport__(" +:+ js_string specifier +:+ ", null, " +:+ importers_literal +:+ ");"] else [])).

(** The packages of a [BTreeMap], in its order. *)
Definition packages (u : gmap string (gset string * gset string)) : list (string * (gset string * gset string)) :=
  sort_by (by_key fst String.compare) (map_to_list u).

Fixpoint stubs_of (declared : gset string) (ps : list (string * (gset string * gset string))) : list string :=
  match ps with
  | [] => []
  | p :: rest => let '(declared, stubs) := package_stubs declared p in stubs ++ stubs_of declared rest
  end.

(** [unresolved_import_stubs] *)
Definition unresolved_import_stubs (u : gmap string (gset string * gset string)) : list string :=
  if bool_decide (u = ∅) then [] else UNRESOLVED_IMPORT_HELPER :: stubs_of ∅ (packages u).

(** What [unresolved_import_stubs] adds to the process-wide collector, and
    [take_unresolved_client_imports], which empties it. *)
Definition record_unresolved (u : gmap string (gset string * gset string)) (recorded : gmap string (gset string)) : gmap string (gset string) :=
  union_with (fun a b => Some (a ∪ b)) recorded (snd <$> u).
Definition take_unresolved_client_imports (recorded : gmap string (gset string)) : gmap string (gset string) * gmap string (gset string) :=
  (recorded, ∅).

(** [collect_external_imports] *)
Definition collect_external_imports (modules : list CompiledModule) (target : BundleTarget) : linked (list string) :=
  e <- collect_modules target modules (mkExternal ∅ ∅);
  ok (in_order (hoisted e) ++ unresolved_import_stubs (unresolved e)).

(** *** The bundle *)

Record LineOrigin := mkOrigin { origin_module : nat; origin_line : nat }.
Record LinkedBundle := mkBundle { bundle_code : list ascii; bundle_modules : list PathBuf; line_origins : list (option LineOrigin) }.

Definition line_of (text : string) : list ascii := bytes_of text ++ [newline].

(** [write_cycle_prelude] *)
Definition cycle_prelude (groups : gmap Path N) : list ascii :=
  if bool_decide (groups = ∅) then []
  else line_of "var __ruvyxaRebind = [];" ++
    line_of (dq ("var __ruvyxaCycleTdz = function (name, from) { return new Proxy(function () {}, { get: function (target, key) { if (key === Symbol.toStringTag) return `Uninitialized`; throw new ReferenceError(`Cannot access '` + name + `' before initialization: it is imported from ` + from + `, which imports this module back, and the value is read while that cycle is still running.`); }, apply: function () { throw new ReferenceError(`Cannot call '` + name + `' before initialization (import cycle with ` + from + `).`); }, construct: function () { throw new ReferenceError(`Cannot construct '` + name + `' before initialization (import cycle with ` + from + `).`); } }); };")) ++
    [newline].

(** [write_shared_module_bindings], over the paths in the set's order *)
Definition shared_module_bindings (shared_modules : list PathBuf) : list ascii :=
  match shared_modules with
  | [] => []
  | _ => line_of "var __ruvyxa_shared_modules__ = globalThis.__RUVYXA_SHARED_MODULES__;" ++
      mjoin ((fun path => let id := module_id path in
        line_of (dq "if (!__ruvyxa_shared_modules__ || !(`" +:+ id +:+ dq "` in __ruvyxa_shared_modules__)) throw new Error(`RUV1602 shared route module was not loaded: " +:+ id +:+ dq "`);") ++
        line_of ("var " +:+ id +:+ dq " = __ruvyxa_shared_modules__[`" +:+ id +:+ dq "`];")) <$> shared_modules) ++ [newline]
  end.

Definition external_imports_text (imports : list string) : list ascii :=
  mjoin (line_of <$> imports) ++ (match imports with [] => [] | _ => [newline] end).

(** The group of the module at a position, when the position is the first, or the last, of its group. *)
Definition group_at (groups : gmap Path N) (modules : list CompiledModule) (position : nat) : option N :=
  m ← modules !! position; groups !! path_new (module_path m).
Definition first_of_group (groups : gmap Path N) (modules : list CompiledModule) (position : nat) : option N :=
  g ← group_at groups modules position;
  if forallb (fun i => bool_decide (group_at groups modules i <> Some g)) (seq 0 position) then Some g else None.
Definition last_of_group (groups : gmap Path N) (modules : list CompiledModule) (position : nat) : option N :=
  g ← group_at groups modules position;
  if forallb (fun i => bool_decide (group_at groups modules i <> Some g)) (seq (S position) (length modules - S position)) then Some g else None.
Definition members_of_group (groups : gmap Path N) (modules : list CompiledModule) (g : N) : list CompiledModule :=
  filter (fun m => groups !! path_new (module_path m) = Some g) modules.

(** The namespaces of a group, declared before its first body. *)
Definition group_opening (groups : gmap Path N) (modules : list CompiledModule) (position : nat) : list ascii :=
  match first_of_group groups modules position with
  | Some g => mjoin ((fun m => line_of ("var " +:+ module_id (module_path m) +:+ " = {};")) <$> members_of_group groups modules g) ++ [newline]
  | None => []
  end.
(** The moment a cycle is complete. *)
Definition group_closing (groups : gmap Path N) (modules : list CompiledModule) (position : nat) : list ascii :=
  match last_of_group groups modules position with
  | Some _ => line_of "__ruvyxaRebind.splice(0).forEach(function (rebind) { rebind(); });" ++ [newline]
  | None => []
  end.

(** One round of the loop of [assemble_linked]: [line_origins.resize] follows each text the linker writes itself. *)
Definition assemble_segment (groups : gmap Path N) (modules : list CompiledModule) (b : list ascii * list (option LineOrigin)) (numbered : nat * ModuleSegment)
    : list ascii * list (option LineOrigin) :=
  let '(code, origins) := b in
  let '(index, segment) := numbered in
  let code := code ++ group_opening groups modules index in
  let origins := match first_of_group groups modules index with Some _ => resize origins (count_lines code) None | None => origins end in
  let code := code ++ segment_text segment in
  let origins := origins ++ map (option_map (mkOrigin index)) (segment_origins segment) in
  let code := code ++ group_closing groups modules index in
  (code, match last_of_group groups modules index with Some _ => resize origins (count_lines code) None | None => origins end).

Definition render_footer (target : BundleTarget) : list ascii :=
  match target with
  | TSsr | TEdge => line_of ("export const render = " +:+ module_id "ruvyxa:bundle-entry.tsx" +:+ ".render;")
  | _ => []
  end.

Definition bundle_header (imports : list string) (shared_modules : list PathBuf) (groups : gmap Path N) : list ascii :=
  external_imports_text imports ++ line_of "// Generated by ruvyxa_bundler — do not edit" ++ line_of (dq "`use strict`;") ++ [newline] ++
  shared_module_bindings shared_modules ++ cycle_prelude groups.

(** [assemble_linked] *)
Definition assemble_linked (modules : list CompiledModule) (segments : list ModuleSegment) (target : BundleTarget)
    (shared_modules : list PathBuf) (groups : gmap Path N) : linked LinkedBundle :=
  imports <- collect_external_imports modules target;
  let header := bundle_header imports shared_modules groups in
  let '(code, origins) := foldl (assemble_segment groups modules) (header, replicate (count_lines header) None) (imap (fun i s => (i, s)) segments) in
  let code := code ++ render_footer target in
  ok (mkBundle code (module_path <$> modules) (resize origins (count_lines code) None)).

(** The dependencies of a module that close a cycle with it. *)
Definition cyclic_dependencies (groups : gmap Path N) (m : CompiledModule) : gset Path :=
  match groups !! path_new (module_path m) with
  | None => ∅
  | Some g => list_to_set (filter (fun d => groups !! d = Some g) (path_new <$> module_deps m))
  end.

Fixpoint write_segments (files : gmap Path string) (groups : gmap Path N) (modules : list CompiledModule) : linked (list ModuleSegment) :=
  match modules with
  | [] => ok []
  | m :: rest =>
      segment <- write_module_segment m files (cyclic_dependencies groups m) (bool_decide (is_Some (groups !! path_new (module_path m))));
      others <- write_segments files groups rest;
      ok (segment :: others)
  end.

(** [link_with_origins] *)
Definition link_with_origins (modules : list CompiledModule) (target : BundleTarget) (files : gmap Path string) (shared_modules : list PathBuf)
    : linked LinkedBundle :=
  groups <- match cycle_groups modules with Some g => ok g | None => None end;
  project <- match ordered_project_modules modules with Some l => ok l | None => None end;
  segments <- write_segments files groups project;
  assemble_linked project segments target shared_modules groups.

(** [link_parallel_with_dynamic_imports_and_shared_modules], [link_parallel_with_dynamic_imports] and [link] *)
Definition link_parallel_with_dynamic_imports_and_shared_modules (modules : list CompiledModule) (target : BundleTarget) (files : gmap Path string)
    (shared_modules : list PathBuf) : linked (list ascii) :=
  b <- link_with_origins modules target files shared_modules; ok (bundle_code b).
Definition link_parallel_with_dynamic_imports (modules : list CompiledModule) (target : BundleTarget) (files : gmap Path string) : linked (list ascii) :=
  link_parallel_with_dynamic_imports_and_shared_modules modules target files [].
Definition link (modules : list CompiledModule) (target : BundleTarget) : linked (list ascii) :=
  b <- link_with_origins modules target ∅ []; ok (bundle_code b).

(** *** The registry of shared modules *)

(** One module of [link_shared_route_modules]: unlike [write_module_segment] its
    wrapper declares [module], [exports] and [process] whatever the body binds,
    and never awaits. *)
Definition shared_module_text (groups : gmap Path N) (m : CompiledModule) : linked (list ascii) :=
  let id := module_id (module_path m) in
  let grouped := bool_decide (is_Some (groups !! path_new (module_path m))) in
  body <- rewrite_module_into (module_js m) (index_of m) (mkRewrite ∅ true true (module_path m) (cyclic_dependencies groups m));
  ok ((if grouped then line_of "(function() {" ++ line_of (dq "  `use strict`;") ++ line_of ("  var __exports = " +:+ id +:+ ";")
       else line_of ("var " +:+ id +:+ dq " = __ruvyxa_shared_modules__[`" +:+ id +:+ dq "`] = (function() {") ++ line_of (dq "  `use strict`;") ++ line_of "  var __exports = {};") ++
      line_of "  var module = { exports: __exports };" ++ line_of "  var exports = module.exports;" ++
      line_of (dq "  var process = globalThis.process || { env: { NODE_ENV: `production` } };") ++
      fst body ++
      (if grouped then line_of "  if (module.exports !== __exports) Object.assign(__exports, module.exports);" else line_of "  return module.exports;") ++
      line_of "})();" ++ [newline]).

Definition shared_group_opening (groups : gmap Path N) (modules : list CompiledModule) (position : nat) : list ascii :=
  match first_of_group groups modules position with
  | Some g => mjoin ((fun m => let id := module_id (module_path m) in
                line_of ("var " +:+ id +:+ dq " = __ruvyxa_shared_modules__[`" +:+ id +:+ dq "`] = {};")) <$> members_of_group groups modules g) ++ [newline]
  | None => []
  end.

Fixpoint shared_modules_text (groups : gmap Path N) (modules : list CompiledModule) (ms : list (nat * CompiledModule)) : linked (list ascii) :=
  match ms with
  | [] => ok []
  | (position, m) :: rest =>
      text <- shared_module_text groups m;
      others <- shared_modules_text groups modules rest;
      ok (shared_group_opening groups modules position ++ text ++ group_closing groups modules position ++ others)
  end.

(** [link_shared_route_modules] *)
Definition link_shared_route_modules (modules : list CompiledModule) (target : BundleTarget) : linked (list ascii) :=
  groups <- match cycle_groups modules with Some g => ok g | None => None end;
  project <- match ordered_project_modules modules with Some l => ok l | None => None end;
  imports <- collect_external_imports project target;
  bodies <- shared_modules_text groups project (imap (fun i m => (i, m)) project);
  ok (external_imports_text imports ++ line_of "// Generated shared route runtime" ++ line_of (dq "`use strict`;") ++
      line_of "const __ruvyxa_shared_modules__ = globalThis.__RUVYXA_SHARED_MODULES__ ??= Object.create(null);" ++ [newline] ++
      cycle_prelude groups ++ bodies).
End linker.

(** ** Specification *)

(** Text that ends where a line ends. *)
Definition closed (t : list ascii) : Prop := t = [] \/ exists u, t = u ++ [newline].

(** Text in pieces, each of whole lines, each line marked with its piece's origin. *)
Record in_pieces {A} (text : list ascii) (origins : list (option A)) (pieces : list (list ascii * option A)) : Prop := {
  pieces_text : text = mjoin pieces.*1;
  pieces_origins : origins = mjoin ((fun c => replicate (count_lines (fst c)) (snd c)) <$> pieces);
  pieces_closed : Forall (fun c => closed (fst c)) pieces;
}.

(** What a line of a module may become: its statement rewritten where it is
    code, then its dynamic imports, then its requires. *)
Definition becomes (identifier_part : N -> bool) (identifier_name : string -> bool) (hash_hex : string -> string)
    (rw : ModuleRewrite) (deps : DepIndex) (ast : ModuleAst) (line : list ascii) (start : nat) (content : list ascii) : Prop :=
  exists statement assignments dynamic c1 c2 c3 c4,
    (if is_code_offset ast start then rewrite_statement identifier_part identifier_name hash_hex rw deps line else inl (line, [])) = inl (statement, assignments) /\
    rewrite_dynamic_imports hash_hex statement deps (dynamic_import_files rw) c1 = Found (dynamic, c2) /\
    rewrite_commonjs_requires_with_state hash_hex dynamic deps c3 (drop_external_imports rw) (rewrite_importer rw) = Found (content, c4).

(** The first [p] at or after an offset is at [j]; there is none. *)
Definition first_at (line : list ascii) (p : string) (i j : nat) : Prop :=
  i <= j /\ starts p (drop j line) = true /\ forall k, i <= k < j -> starts p (drop k line) = false.
Definition none_from (line : list ascii) (p : string) (i : nat) : Prop := forall k, i <= k -> starts p (drop k line) = false.

(** What stands at an offset of a line, given whether a block comment is open
    there, and whether one is open behind it: the rest of a comment, a comment,
    a string, a template literal with its interpolations, a regular expression,
    or a character of code ([None]). *)
Inductive lexeme (line : list ascii) (index : nat) (previous_significant : option nat) : bool -> option NonCode -> bool -> Prop :=
  | lexeme_comment_ends j : first_at line "*/" index j -> lexeme line index previous_significant true (Some (Opaque (j + 2))) false
  | lexeme_comment_goes_on : none_from line "*/" index -> lexeme line index previous_significant true (Some (Opaque (length line))) true
  | lexeme_line_comment j : starts "//" (drop index line) = true -> first_at line (String newline "") (index + 2) j ->
      lexeme line index previous_significant false (Some (Opaque (S j))) false
  | lexeme_last_comment : starts "//" (drop index line) = true -> none_from line (String newline "") (index + 2) ->
      lexeme line index previous_significant false (Some (Opaque (length line))) false
  | lexeme_block_comment j : starts "/*" (drop index line) = true -> first_at line "*/" (index + 2) j ->
      lexeme line index previous_significant false (Some (Opaque (j + 2))) false
  | lexeme_open_comment : starts "/*" (drop index line) = true -> none_from line "*/" (index + 2) ->
      lexeme line index previous_significant false (Some (Opaque (length line))) true
  | lexeme_string quote : line !! index = Some quote -> one_of [dquote; squote] quote = true ->
      lexeme line index previous_significant false (Some (Opaque (skip_string line index))) false
  | lexeme_template close interpolations : line !! index = Some "`"%char -> template_literal line index = Found (close, interpolations) ->
      lexeme line index previous_significant false (Some (Template close interpolations)) false
  | lexeme_regex : line !! index = Some "/"%char -> starts "//" (drop index line) = false -> starts "/*" (drop index line) = false ->
      regex_can_start line previous_significant = true ->
      lexeme line index previous_significant false (Some (Opaque (skip_regex_literal line index))) false
  | lexeme_code b : line !! index = Some b -> is_quote b = false ->
      (b = "/"%char -> starts "//" (drop index line) = false /\ starts "/*" (drop index line) = false /\
        regex_can_start line previous_significant = false) ->
      lexeme line index previous_significant false None false.

(** The text from [index] to [last] of a line with every call that is code
    replaced: what is no code is copied as it is, but for the interpolations of
    templates, which are edited in turn; where code is a call, what [call] says
    stands in its place; a character of code that begins no call is copied.  [o]
    is whether a block comment is open behind the text. *)
Inductive edited (call : nat -> nat -> option (list ascii * nat)) (line : list ascii) :
    nat -> nat -> option nat -> bool -> list ascii -> bool -> Prop :=
  | edited_end last prev open : edited call line last last prev open [] open
  | edited_opaque last index prev open close out mid o : index < last ->
      lexeme line index prev open (Some (Opaque close)) mid ->
      edited call line last (Nat.min close last) (Some (Nat.min close last - 1)) mid out o ->
      edited call line last index prev open (range line index (Nat.min close last) ++ out) o
  | edited_template last index prev open close interpolations text out mid o : index < last ->
      lexeme line index prev open (Some (Template close interpolations)) mid ->
      edited_inside call line (Nat.min close last) index interpolations text ->
      edited call line last (Nat.min close last) (Some (Nat.min close last - 1)) mid out o ->
      edited call line last index prev open (text ++ out) o
  | edited_call last index prev open text after out mid o : index < last ->
      lexeme line index prev open None mid -> call index last = Some (text, after) -> index < after -> after <= last ->
      edited call line last after (Some (after - 1)) mid out o ->
      edited call line last index prev open (text ++ out) o
  | edited_code last index prev open c rest out mid o : index < last ->
      lexeme line index prev open None mid -> call index last = None -> split_char1 (drop index line) = Some (c, rest) ->
      edited call line last (index + length c) (if at_byte line index is_ascii_whitespace then prev else Some index) mid out o ->
      edited call line last index prev open (c ++ out) o
with edited_inside (call : nat -> nat -> option (list ascii * nat)) (line : list ascii) :
    nat -> nat -> list (nat * nat) -> list ascii -> Prop :=
  | edited_text close cursor interpolations :
      (forall first stop rest, interpolations = (first, stop) :: rest -> close <= first) ->
      edited_inside call line close cursor interpolations (range line cursor close)
  | edited_interpolation close cursor first stop rest code o after : cursor <= first < close ->
      edited call line (Nat.min stop close) first None false code o ->
      edited_inside call line close (Nat.min stop close) rest after ->
      edited_inside call line close cursor ((first, stop) :: rest) (range line cursor first ++ code ++ after).

Scheme edited_mut := Induction for edited Sort Prop
  with edited_inside_mut := Induction for edited_inside Sort Prop.
Combined Scheme edited_both from edited_mut, edited_inside_mut.

(** ** Properties *)

(** *** Lines and their origins *)

Lemma count_lines_app a b : count_lines (a ++ b) = count_lines a + count_lines b.
Proof. unfold count_lines. by rewrite filter_app, length_app. Qed.

Lemma count_lines_end u : count_lines (u ++ [newline]) = S (count_lines u).
Proof. rewrite count_lines_app. change (count_lines [newline]) with 1. lia. Qed.

Lemma closed_app a b : closed a -> closed b -> closed (a ++ b).
Proof.
  intros Ha [->|[u ->]]; [by rewrite app_nil_r|]. right. exists (a ++ u). by rewrite app_assoc.
Qed.

Lemma closed_line t : closed (t ++ [newline]).
Proof. right. by exists t. Qed.

Lemma closed_line_of s : closed (line_of s).
Proof. apply closed_line. Qed.

Lemma closed_mjoin l : Forall closed l -> closed (mjoin l).
Proof. induction 1 as [|x l Hx _ IH]; [by left|]. cbn. by apply closed_app. Qed.

Lemma bytes_of_app s t : bytes_of (s +:+ t) = bytes_of s ++ bytes_of t.
Proof. induction s as [|a s IH]; [done|]. change (a :: bytes_of (s +:+ t) = a :: bytes_of s ++ bytes_of t). by rewrite IH. Qed.

Lemma closed_bytes s : closed (bytes_of (s +:+ String newline "")).
Proof. rewrite bytes_of_app. apply closed_line. Qed.

Create HintDb closed.
#[export] Hint Resolve closed_app closed_line closed_line_of closed_mjoin closed_bytes : closed.

Lemma rewritten_line_closed content indent : closed (rewritten_line content indent) /\ count_lines (rewritten_line content indent) = S (count_lines content).
Proof.
  unfold rewritten_line. destruct indent; [|split; [apply closed_line|apply count_lines_end]].
  destruct content as [|b content]; [split; [apply (closed_line [])|done]|]. rewrite app_assoc.
  split; [apply closed_line|]. rewrite count_lines_end, count_lines_app. done.
Qed.

Lemma in_pieces_app {A} t1 (o1 : list (option A)) p1 t2 o2 p2 :
  in_pieces t1 o1 p1 -> in_pieces t2 o2 p2 -> in_pieces (t1 ++ t2) (o1 ++ o2) (p1 ++ p2).
Proof.
  intros [H1 H2 H3] [H4 H5 H6]. split; [by rewrite fmap_app, join_app, <- H1, <- H4|by rewrite fmap_app, join_app, <- H2, <- H5|by apply Forall_app].
Qed.

Lemma in_pieces_one {A} t (o : option A) : closed t -> in_pieces t (replicate (count_lines t) o) [(t, o)].
Proof. intros H. split; cbn; [by rewrite app_nil_r..|]. by apply Forall_singleton. Qed.

Lemma in_pieces_nil {A} : in_pieces [] ([] : list (option A)) [].
Proof. by split. Qed.

(** Every line has its origin. *)
Lemma in_pieces_length {A} t (o : list (option A)) p : in_pieces t o p -> length o = count_lines t.
Proof.
  intros [-> -> _]. induction p as [|[x y] p IH]; [done|].
  change (length (replicate (count_lines x) y ++ mjoin ((fun c => replicate (count_lines (fst c)) (snd c)) <$> p)) = count_lines (x ++ mjoin p.*1)).
  by rewrite length_app, length_replicate, count_lines_app, IH.
Qed.

Lemma resize_replicate {A} (l : list A) n k x : n = length l + k -> resize l n x = l ++ replicate k x.
Proof. intros ->. unfold resize. rewrite firstn_all2 by lia. f_equal. f_equal. lia. Qed.

(** [resize] after a text of the linker's own. *)
Lemma in_pieces_own {A} t (o : list (option A)) p own : in_pieces t o p -> closed own ->
  in_pieces (t ++ own) (resize o (count_lines (t ++ own)) None) (p ++ [(own, None)]).
Proof.
  intros Hp Ho. rewrite (resize_replicate _ _ (count_lines own)) by by rewrite count_lines_app, (in_pieces_length _ _ _ Hp).
  apply in_pieces_app; [done|by apply in_pieces_one].
Qed.

(** The origins of the pieces, mapped. *)
Lemma in_pieces_map {A B} (f : A -> B) t o p : in_pieces t o p -> in_pieces t (map (option_map f) o) ((fun c => (fst c, option_map f (snd c))) <$> p).
Proof.
  intros [H1 H2 H3]. split.
  - rewrite H1. f_equal. rewrite <- list_fmap_compose. by apply list_fmap_ext.
  - rewrite H2. clear. induction p as [|[x y] p IH]; [done|].
    change (map (option_map f) (replicate (count_lines x) y ++ mjoin ((fun c => replicate (count_lines (fst c)) (snd c)) <$> p)) =
      replicate (count_lines x) (option_map f y) ++
      mjoin ((fun c => replicate (count_lines (fst c)) (snd c)) <$> ((fun c => (fst c, option_map f (snd c))) <$> p))).
    rewrite map_app, IH. f_equal. induction (count_lines x) as [|n IHn]; [done|]. cbn. by rewrite IHn.
  - apply Forall_fmap. by eapply Forall_impl.
Qed.

Lemma of_result_inl {A} (r : A + BundleError) a : of_result r = Some (inl a) <-> r = inl a.
Proof. unfold of_result. split; [by intros [= ->]|by intros ->]. Qed.

Lemma of_walk_inl {A} (w : Walk A) a : of_walk w = Some (inl a) <-> w = Found a.
Proof. unfold of_walk, ok. destruct w; split; congruence. Qed.

(** A bind that answers: each half did. *)
Lemma link_bind_inl {A B} (m : linked A) (f : A -> linked B) b :
  link_bind m f = Some (inl b) <-> exists a, m = Some (inl a) /\ f a = Some (inl b).
Proof.
  destruct m as [[a|e]|]; cbn; split; try done.
  - intros H. by exists a.
  - intros (a' & [= ->] & H). done.
  - by intros (a & ? & _).
  - by intros (a & ? & _).
Qed.

(** Take a linked computation apart in a hypothesis. *)
Ltac unlink :=
  repeat match goal with
         | H : link_bind _ _ = Some (inl _) |- _ => apply link_bind_inl in H as (? & ? & H)
         | H : of_result _ = Some (inl _) |- _ => apply of_result_inl in H
         | H : of_walk _ = Some (inl _) |- _ => apply of_walk_inl in H
         | H : ok _ = Some (inl _) |- _ => unfold ok in H; injection H as <-
         end.

Section provenance.
Context (identifier_part : N -> bool) (identifier_name : string -> bool) (hash_hex js_string : string -> string).
Abbreviation becomes := (becomes identifier_part identifier_name hash_hex).
Abbreviation rewrite_lines := (rewrite_lines identifier_part identifier_name hash_hex).
Abbreviation rewrite_module_into := (rewrite_module_into identifier_part identifier_name hash_hex).

(** A piece with an origin is what the line became. *)
Definition piece_ok (rw : ModuleRewrite) (deps : DepIndex) (ast : ModuleAst) (ls : list (list ascii * nat)) (p : list ascii * option nat) : Prop :=
  forall n, snd p = Some n -> exists line start content indent,
    ls !! n = Some (line, start) /\ fst p = rewritten_line content indent /\ becomes rw deps ast line start content.

Lemma tracked_line t content indent o p : in_pieces (fst t) (snd t) p ->
  in_pieces (fst (write_tracked_line t content indent o)) (snd (write_tracked_line t content indent o)) (p ++ [(rewritten_line content indent, o)]).
Proof.
  intros Hp. destruct (rewritten_line_closed content indent) as [Hc Hn]. cbn [write_tracked_line fst snd].
  apply in_pieces_app; [done|]. pose proof (in_pieces_one (rewritten_line content indent) o Hc) as H. by rewrite Hn in H.
Qed.

Lemma rewrite_lines_pieces rw deps ast (all : list (list ascii * nat)) nl : forall k s s' p,
  (forall j i l, nl !! j = Some (i, l) -> i = k + j /\ all !! i = Some l) ->
  rewrite_lines rw deps ast s nl = Some (inl s') ->
  in_pieces (fst (tracked s)) (snd (tracked s)) p -> omap snd p = seq 0 k -> Forall (piece_ok rw deps ast all) p ->
  exists p', in_pieces (fst (tracked s')) (snd (tracked s')) p' /\ omap snd p' = seq 0 (k + length nl) /\ Forall (piece_ok rw deps ast all) p'.
Proof.
  induction nl as [|[i [line start]] nl IH]; intros k s s' p Hnl Hs Hp Hk Hok; cbn [Linker.rewrite_lines] in Hs.
  { unlink. exists p. cbn [length]. by rewrite Nat.add_0_r. }
  apply link_bind_inl in Hs as (s1 & H1 & Hs). unfold rewrite_line in H1. unlink.
  destruct (Hnl 0 i (line, start)) as [-> Hl]; [done|]. rewrite Nat.add_0_r in *.
  eapply (IH (S k)) in Hs as (p' & P1 & P2 & P3).
  - exists p'. split_and!; [done| |done]. rewrite P2. f_equal. cbn [length]. lia.
  - intros j i' l' Hj. destruct (Hnl (S j) i' l') as [-> Ha]; [done|]. split; [lia|done].
  - cbn [tracked]. by apply tracked_line.
  - rewrite omap_app, Hk. cbn [omap list_omap snd]. by rewrite seq_S.
  - apply Forall_app. split; [done|]. apply Forall_singleton. intros n [= <-]. do 4 eexists. split_and!; [done|done|].
    repeat match goal with x : (list ascii * _)%type |- _ => destruct x end. unfold Linker.becomes. cbn [fst snd] in *. by repeat eexists.
Qed.

Lemma with_offsets_length source ls : forall offset, length (with_offsets source ls offset) = length ls.
Proof. induction ls as [|l ls IH]; intros offset; [done|]. cbn. by rewrite IH. Qed.

Lemma pending_pieces indent l : forall t p, in_pieces (fst t) (snd t) p ->
  exists own, let t' := foldl (fun t assignment => write_tracked_line t assignment indent None) t l in
    in_pieces (fst t') (snd t') (p ++ own) /\ Forall (fun c => snd c = None) own.
Proof.
  induction l as [|a l IH]; intros t p Hp; cbn [foldl]; [exists []; by rewrite app_nil_r|].
  destruct (IH (write_tracked_line t a indent None) (p ++ [(rewritten_line a indent, None)])) as (own & H1 & H2); [by apply tracked_line|].
  exists ((rewritten_line a indent, None) :: own). rewrite <- app_assoc in H1. split; [done|]. by constructor.
Qed.

Lemma omap_none {A B} (f : A -> option B) l : Forall (fun x => f x = None) l -> omap f l = [].
Proof. induction 1 as [|x l Hx _ IH]; [done|]. cbn. by rewrite Hx, IH. Qed.

(** A rewritten module is its lines, each once and in order, between lines of the linker's own. *)
Lemma module_pieces source deps rw t ast : rewrite_module_into source deps rw = Some (inl t) -> parse_module source = Some ast ->
  exists p, in_pieces (fst t) (snd t) p /\ omap snd p = seq 0 (length (lines source)) /\
    Forall (piece_ok rw deps ast (lines_with_statement_offsets source)) p.
Proof.
  intros H Hast. unfold Linker.rewrite_module_into in H. rewrite Hast in H. cbn [link_bind ok] in H.
  set (t0 := if declares_esm_syntax source ast then _ else _) in H.
  assert (exists p0, in_pieces (fst t0) (snd t0) p0 /\ Forall (fun c => snd c = None) p0) as (p0 & Hp0 & Hn0).
  { unfold t0. destruct (declares_esm_syntax _ _); [|exists []; split; [by apply in_pieces_nil|done]].
    eexists. split; [apply tracked_line, in_pieces_nil|]. by apply Forall_singleton. }
  apply link_bind_inl in H as (s & Hs & H).
  apply (rewrite_lines_pieces _ _ _ (lines_with_statement_offsets source) _ 0 _ _ p0) in Hs as (p & P1 & P2 & P3).
  - unlink. destruct (pending_pieces (rewrite_indent rw) (pending_exports s) (tracked s) p P1) as (own & O1 & O2).
    exists (p ++ own). split_and!; [done| |].
    + rewrite omap_app, P2, (omap_none _ own), app_nil_r by done. unfold lines_with_statement_offsets. by rewrite length_imap, with_offsets_length.
    + apply Forall_app. split; [done|]. eapply Forall_impl; [exact O2|]. intros c Hc n Hn. congruence.
  - intros j i l Hj. rewrite list_lookup_imap in Hj. apply fmap_Some in Hj as (x & Hx & [= -> ->]). done.
  - done.
  - by apply omap_none.
  - eapply Forall_impl; [exact Hn0|]. intros c Hc n Hn. congruence.
Qed.

(** *** Text that ends a line *)

Definition ended (s : string) : Prop := exists u, bytes_of s = u ++ [newline].

Lemma ended_newline : ended (String newline "").
Proof. by exists []. Qed.

Lemma ended_app a b : ended b -> ended (a +:+ b).
Proof. intros [u Hu]. exists (bytes_of a ++ u). by rewrite bytes_of_app, Hu, app_assoc. Qed.

Lemma closed_ended s : ended s -> closed (bytes_of s).
Proof. intros H. by right. Qed.

Lemma closed_text a b : closed (bytes_of a) -> closed (bytes_of b) -> closed (bytes_of (a +:+ b)).
Proof. rewrite bytes_of_app. apply closed_app. Qed.

Lemma ended_then b : closed (bytes_of b) -> ended (String newline "" +:+ b).
Proof.
  unfold ended. rewrite bytes_of_app. intros [->|[u ->]]; [exists []; by rewrite app_nil_r|].
  exists (bytes_of (String newline "") ++ u). by rewrite app_assoc.
Qed.

Ltac ended_lines := repeat first [apply ended_newline | apply ended_app].

Lemma wrapper_head_closed id label bound in_cycle awaits : closed (wrapper_head id label bound in_cycle awaits).
Proof.
  unfold wrapper_head. apply closed_ended. do 3 apply ended_app. apply ended_then.
  apply closed_text; [destruct in_cycle, awaits; apply closed_ended; ended_lines|].
  repeat apply closed_text; (case_bool_decide; [by left|apply closed_ended; ended_lines]).
Qed.

Lemma wrapper_tail_closed bound in_cycle : closed (wrapper_tail bound in_cycle).
Proof.
  unfold wrapper_tail. apply closed_text; [destruct in_cycle; apply closed_ended; ended_lines|].
  apply closed_ended, ended_app. exists [newline]. done.
Qed.

(** *** Segments and the bundle *)

(** The settings a module of a bundle is rewritten with. *)
Definition bundle_rewrite (files : gmap Path string) (groups : gmap Path N) (m : CompiledModule) : ModuleRewrite :=
  mkRewrite files true true (module_path m) (cyclic_dependencies groups m).

Definition segment_ok (files : gmap Path string) (groups : gmap Path N) (m : CompiledModule) (seg : ModuleSegment) : Prop :=
  exists p ast, parse_module (module_js m) = Some ast /\ in_pieces (segment_text seg) (segment_origins seg) p /\
    omap snd p = seq 0 (length (lines (module_js m))) /\
    Forall (piece_ok (bundle_rewrite files groups m) (index_of m) ast (lines_with_statement_offsets (module_js m))) p.

Abbreviation write_module_segment := (write_module_segment identifier_part identifier_name hash_hex).
Abbreviation write_segments := (write_segments identifier_part identifier_name hash_hex).

Lemma segment_pieces files groups m in_cycle seg :
  write_module_segment m files (cyclic_dependencies groups m) in_cycle = Some (inl seg) -> segment_ok files groups m seg.
Proof.
  intros H. unfold Linker.write_module_segment in H. apply link_bind_inl in H as (t & Ht & H).
  destruct (parse_and_mask (module_js m)) as (ast & Hast & _). pose proof Ht as Ht'.
  apply (module_pieces _ _ _ _ ast) in Ht' as (p & P1 & P2 & P3); [|done]. unlink.
  cbn zeta. set (bound := top_level_bound_names _ _). set (head := wrapper_head _ _ _ _ _). set (tail := wrapper_tail _ _).
  exists ((head, None) :: p ++ [(tail, None)]), ast. split_and!; [done| | |].
  - change (in_pieces (head ++ fst t ++ tail) (resize (replicate (count_lines head) None ++ snd t) (count_lines (head ++ fst t ++ tail)) None)
              ((head, None) :: p ++ [(tail, None)])).
    rewrite (app_assoc head). change ((head, None) :: p ++ [(tail, None)]) with (([(head, None)] ++ p) ++ [(tail, None)]).
    apply in_pieces_own; [|apply wrapper_tail_closed]. apply in_pieces_app; [|done]. apply in_pieces_one, wrapper_head_closed.
  - change (omap snd ((head, None) :: p ++ [(tail, None)])) with (omap snd (p ++ [(tail, None)])).
    rewrite omap_app, P2. change (omap snd [(tail, None : option nat)]) with ([] : list nat). by rewrite app_nil_r.
  - constructor; [by intros n|]. apply Forall_app. split; [done|]. apply Forall_singleton. by intros n.
Qed.

Lemma write_segments_ok files groups modules : forall segments,
  write_segments files groups modules = Some (inl segments) -> Forall2 (segment_ok files groups) modules segments.
Proof.
  induction modules as [|m modules IH]; intros segments H; cbn [Linker.write_segments] in H; unlink; [done|].
  constructor; [by eapply segment_pieces|by apply IH].
Qed.

Lemma group_opening_closed groups modules i : closed (group_opening hash_hex groups modules i).
Proof.
  unfold group_opening. destruct (first_of_group _ _ _); [|by left]. apply (closed_app _ [newline]); [|apply (closed_line [])].
  apply closed_mjoin, Forall_fmap, Forall_true. intros. apply closed_line_of.
Qed.

Lemma group_closing_closed groups modules i : closed (group_closing groups modules i).
Proof. unfold group_closing. destruct (last_of_group _ _ _); [|by left]. apply (closed_app _ [newline]); [apply closed_line_of|apply (closed_line [])]. Qed.

Lemma bundle_header_closed imports shared groups : closed (bundle_header hash_hex imports shared groups).
Proof.
  unfold bundle_header. assert (closed [newline]) as Hn by apply (closed_line []).
  apply closed_app; [|do 2 (apply closed_app; [apply closed_line_of|]); apply closed_app; [done|apply closed_app]].
  - unfold external_imports_text. apply closed_app; [apply closed_mjoin, Forall_fmap, Forall_true; intros; apply closed_line_of|].
    destruct imports; [by left|done].
  - unfold shared_module_bindings. destruct shared; [by left|]. apply closed_app; [apply closed_line_of|]. apply closed_app; [|done].
    apply closed_mjoin, Forall_fmap, Forall_true. intros. apply closed_app; apply closed_line_of.
  - unfold cycle_prelude. case_bool_decide; [by left|]. do 2 (apply closed_app; [apply closed_line_of|]). done.
Qed.

(** What a piece of the bundle is: text of the linker's own, or what one line of one module became. *)
Definition bundle_piece_ok (files : gmap Path string) (groups : gmap Path N) (project : list CompiledModule) (p : list ascii * option LineOrigin) : Prop :=
  forall i n, snd p = Some (mkOrigin i n) -> exists m ast line start content indent,
    project !! i = Some m /\ parse_module (module_js m) = Some ast /\ lines_with_statement_offsets (module_js m) !! n = Some (line, start) /\
    fst p = rewritten_line content indent /\ becomes (bundle_rewrite files groups m) (index_of m) ast line start content.

(** The lines of the modules, module by module. *)
Definition module_lines (i : nat) (m : CompiledModule) : list LineOrigin := mkOrigin i <$> seq 0 (length (lines (module_js m))).

(** The text the linker writes at the edge of a group, if it is one. *)
Definition own_piece (g : option N) (text : list ascii) : list (list ascii * option LineOrigin) :=
  match g with Some _ => [(text, None)] | None => [] end.

(** The pieces of a segment, as pieces of the bundle. *)
Definition placed (k : nat) (p : list (list ascii * option nat)) : list (list ascii * option LineOrigin) :=
  (fun c => (fst c, option_map (mkOrigin k) (snd c))) <$> p.

Lemma own_piece_none g text : omap snd (own_piece g text) = [].
Proof. by destruct g. Qed.

Lemma own_piece_ok files groups project g text : Forall (bundle_piece_ok files groups project) (own_piece g text).
Proof. destruct g; [|done]. apply Forall_singleton. by intros i j. Qed.

Lemma placed_lines k p l : omap snd p = l -> omap snd (placed k p) = mkOrigin k <$> l.
Proof. intros <-. induction p as [|[t [n|]] p IH]; [done|cbn; by f_equal|done]. Qed.

Lemma assemble_step groups project b k seg sp p :
  in_pieces (fst b) (snd b) p -> in_pieces (segment_text seg) (segment_origins seg) sp ->
  let b' := assemble_segment hash_hex groups project b (k, seg) in
  in_pieces (fst b') (snd b')
    ((p ++ own_piece (first_of_group groups project k) (group_opening hash_hex groups project k)) ++ placed k sp ++
     own_piece (last_of_group groups project k) (group_closing groups project k)).
Proof.
  intros Hp Hs. destruct b as [code origins]. cbn [fst snd] in Hp. unfold assemble_segment. cbn zeta.
  assert (in_pieces (code ++ group_opening hash_hex groups project k)
            (match first_of_group groups project k with Some _ => resize origins (count_lines (code ++ group_opening hash_hex groups project k)) None | None => origins end)
            (p ++ own_piece (first_of_group groups project k) (group_opening hash_hex groups project k))) as H1.
  { destruct (first_of_group groups project k) eqn:E; [apply in_pieces_own; [done|apply group_opening_closed]|].
    unfold group_opening. rewrite E. cbn [own_piece]. by rewrite !app_nil_r. }
  pose proof (in_pieces_app _ _ _ _ _ _ H1 (in_pieces_map (mkOrigin k) _ _ _ Hs)) as H2. rewrite (app_assoc (p ++ _)). cbn [fst snd].
  destruct (last_of_group groups project k) eqn:E; [apply in_pieces_own; [exact H2|apply group_closing_closed]|].
  unfold group_closing. rewrite E. cbn [own_piece]. by rewrite !app_nil_r.
Qed.

Lemma placed_ok files groups project k m ast sp : project !! k = Some m -> parse_module (module_js m) = Some ast ->
  Forall (piece_ok (bundle_rewrite files groups m) (index_of m) ast (lines_with_statement_offsets (module_js m))) sp ->
  Forall (bundle_piece_ok files groups project) (placed k sp).
Proof.
  intros Hk Hast H. apply Forall_fmap. eapply Forall_impl; [exact H|]. intros [t o] Hc i n. cbn [fst snd compose].
  destruct o as [n'|]; [|done]. intros [= <- <-]. destruct (Hc n' eq_refl) as (line & start & content & indent & C1 & C2 & C3).
  by exists m, ast, line, start, content, indent.
Qed.

Lemma assemble_pieces files groups project ms segs : Forall2 (segment_ok files groups) ms segs -> forall k b p,
  (forall j m, ms !! j = Some m -> project !! (k + j) = Some m) ->
  in_pieces (fst b) (snd b) p -> Forall (bundle_piece_ok files groups project) p ->
  exists p', let b' := foldl (assemble_segment hash_hex groups project) b (imap (fun i s => (k + i, s)) segs) in
    in_pieces (fst b') (snd b') p' /\ Forall (bundle_piece_ok files groups project) p' /\
    omap snd p' = omap snd p ++ mjoin (imap (fun i m => module_lines (k + i) m) ms).
Proof.
  induction 1 as [|m seg ms segs (sp & ast & Hast & S1 & S2 & S3) _ IH]; intros k b p Hms Hp Hok.
  { exists p. cbn. by rewrite app_nil_r. }
  assert (project !! k = Some m) as Hk by (rewrite <- (Nat.add_0_r k); by apply Hms).
  pose proof (assemble_step groups project b k seg sp p Hp S1) as Hstep. cbn zeta in Hstep.
  assert (forall j m', ms !! j = Some m' -> project !! (S k + j) = Some m') as Hms'.
  { intros j m' Hj. replace (S k + j) with (k + S j) by lia. by apply Hms. }
  destruct (IH (S k) _ _ Hms' Hstep) as (p' & P1 & P2 & P3).
  - rewrite !Forall_app. split_and!; [done|apply own_piece_ok|by eapply placed_ok|apply own_piece_ok].
  - exists p'. rewrite !omap_app, !own_piece_none, !app_nil_r, (placed_lines k sp _ S2), <- app_assoc in P3.
    assert (forall A B (f : nat -> A -> B) l, imap (fun i => f (S k + i)) l = imap ((fun i => f (k + i)) ∘ S) l) as Himap.
    { intros A B f l. apply imap_ext. intros i x _. cbn. f_equal. lia. }
    rewrite !imap_cons, Nat.add_0_r. rewrite !Himap in *. split_and!; [done..|]. by rewrite P3.
Qed.

(** C20: Every line of a linked bundle knows where it came from, and every line of
    every module is in the bundle.  The code of a bundle is a sequence of texts
    of whole lines; the provenance of its lines names, for each text that came
    from a module, the module and the line that became it, and for each other
    text nothing.  The lines of the modules occur in the link order, each
    exactly once and in its place, rewritten only as a line may be rewritten. *)
Theorem link_provenance_exact modules target files shared b :
  link_with_origins identifier_part identifier_name hash_hex js_string modules target files shared = Some (inl b) ->
  exists project groups pieces,
    ordered_project_modules modules = Some project /\ cycle_groups modules = Some groups /\ bundle_modules b = module_path <$> project /\
    in_pieces (bundle_code b) (line_origins b) pieces /\
    omap snd pieces = mjoin (imap module_lines project) /\
    Forall (bundle_piece_ok files groups project) pieces.
Proof.
  intros H. unfold link_with_origins in H. destruct (cycle_groups modules) as [groups|] eqn:Eg; [|done].
  destruct (ordered_project_modules modules) as [project|] eqn:Eo; [|done]. cbn [link_bind ok] in H.
  apply link_bind_inl in H as (segs & Hsegs & H). apply write_segments_ok in Hsegs. exists project, groups.
  unfold assemble_linked in H. apply link_bind_inl in H as (imports & _ & H).
  set (header := bundle_header hash_hex imports shared groups) in H.
  destruct (assemble_pieces files groups project project segs Hsegs 0 (header, replicate (count_lines header) None) [(header, None)])
    as (p & P1 & P2 & P3); [done|apply in_pieces_one, bundle_header_closed|by apply Forall_singleton|].
  cbn zeta in P1. change (imap (fun i s => (0 + i, s)) segs) with (imap (fun i s => (i, s)) segs) in P1.
  destruct (foldl _ (header, _) _) as [code origins]. unlink.
  exists (p ++ [(render_footer hash_hex target, None)]). split_and!; [done..| | |].
  - apply in_pieces_own; [done|]. unfold render_footer. destruct target; first [by left | apply closed_line_of].
  - rewrite omap_app, P3. cbn. by rewrite app_nil_r.
  - apply Forall_app. split; [done|]. by apply Forall_singleton.
Qed.
End provenance.

(** *** The passes over calls *)

(** Where a construct that is not code ends, and the interpolations it reports. *)
Definition skips_ok (line : list ascii) (index : nat) (found : NonCode) : Prop :=
  match found with
  | Opaque close => index < close <= length line /\ edge line close
  | Template close inner => index < close <= length line /\ edge line close /\ chain line (S index) close inner
  end.

Lemma skip_non_code_spec line index prev open : index < length line ->
  exists r open', skip_non_code line index prev open = Found (r, open') /\ (forall found, r = Some found -> skips_ok line index found).
Proof.
  intros Hi. destruct (lookup_lt_is_Some_2 _ _ Hi) as [b Hb]. unfold skip_non_code. destruct open.
  { destruct (block_comment_end (drop index line) index) as [r|] eqn:E; do 2 eexists; (split; [done|]); intros found [= <-].
    - apply block_comment_end_spec in E as [Hr Hc]. split; [lia|]. replace r with (S (r - 1)) by lia. by eapply edge_after.
    - split; [lia|apply edge_end]. }
  destruct (is_comment_start line index) eqn:Ec.
  { do 2 eexists. split; [done|]. intros found [= <-]. apply skip_comment_spec in Ec as [H1 H2]. split; [lia|done]. }
  rewrite Hb. destruct (byte_is "`" b) eqn:Et.
  { destruct (template_literal_spec line index b Hb) as (after & inner & -> & H1 & H2 & H3). do 2 eexists. split; [done|].
    intros found [= <-]. by split_and!; [lia|lia|..]. }
  destruct (is_quote b) eqn:Eq.
  { do 2 eexists. split; [done|]. intros found [= <-]. destruct (skip_string_spec line index b Hb (quote_ascii _ Eq)) as [H1 H2]. split; [lia|done]. }
  destruct (byte_is "/" b && regex_can_start line prev); do 2 eexists; (split; [done|]); intros found; [|done].
  intros [= <-]. destruct (skip_regex_spec line index Hi) as [H1 H2]. split; [lia|done].
Qed.

Lemma at_byte_drop line i k p : at_byte (drop i line) k p = at_byte line (i + k) p.
Proof. unfold at_byte. by rewrite lookup_drop. Qed.

Lemma starts_front a p b l : starts (String a p) (b :: l) = byte_is a b && starts p l.
Proof.
  unfold starts, strip_bytes. change (bytes_of (String a p)) with (a :: bytes_of p). cbn [length take firstn].
  unfold byte_is. destruct (Ascii.eqb_spec a b) as [->|Hne]; cbn [andb].
  - case_bool_decide as H1; case_bool_decide as H2; try done; [injection H1 as H1; done|by rewrite H2 in H1].
  - case_bool_decide as H; [|done]. by injection H as ->.
Qed.

Lemma starts_nothing l : starts "" l = true.
Proof. by destruct l. Qed.

Lemma starts_two line i a b : starts (String a (String b "")) (drop i line) = at_byte line i (byte_is a) && at_byte line (S i) (byte_is b).
Proof.
  rewrite <- (Nat.add_0_r i) at 2. rewrite <- (Nat.add_1_r i), <- !at_byte_drop.
  destruct (drop i line) as [|x [|y l]]; [done|..]; rewrite ?starts_front; cbn; [by destruct (byte_is a x)|].
  by rewrite starts_nothing, andb_true_r.
Qed.

Lemma starts_newline line k : starts (String newline "") (drop k line) = at_byte line k (byte_is newline).
Proof.
  rewrite <- (Nat.add_0_r k) at 2. rewrite <- at_byte_drop. destruct (drop k line) as [|x l]; [done|].
  rewrite starts_front, starts_nothing. apply andb_true_r.
Qed.

(** A block comment ends at the first star and slash. *)
Lemma block_comment_end_first line i :
  match block_comment_end (drop i line) i with
  | Some r => exists j, r = j + 2 /\ first_at line "*/" i j
  | None => none_from line "*/" i
  end.
Proof.
  remember (length line - i) as n eqn:Hn. revert i Hn. induction n as [n IH] using lt_wf_ind. intros i Hn.
  assert (forall k, length line <= S k -> starts "*/" (drop k line) = false) as Hpast.
  { intros k Hk. rewrite starts_two. unfold at_byte. rewrite (lookup_ge_None_2 line (S k)) by lia. apply andb_false_r. }
  destruct (drop i line) as [|b1 rest] eqn:E1.
  { intros k Hk. apply (f_equal length) in E1. rewrite length_drop in E1. cbn in E1. apply Hpast. lia. }
  apply drop_inv in E1 as (H1 & -> & Hi). destruct (drop (S i) line) as [|b2 rest] eqn:E2.
  { intros k Hk. apply (f_equal length) in E2. rewrite length_drop in E2. cbn in E2. apply Hpast. lia. }
  change (block_comment_end (b1 :: b2 :: rest) i)
    with (if byte_is "*" b1 && byte_is "/" b2 then Some (i + 2) else block_comment_end (b2 :: rest) (S i)).
  assert (starts "*/" (drop i line) = byte_is "*" b1 && byte_is "/" b2) as Hst.
  { rewrite starts_two. unfold at_byte. rewrite H1. apply drop_inv in E2 as (H2 & _ & _). by rewrite H2. }
  destruct (byte_is "*" b1 && byte_is "/" b2).
  - exists i. split; [done|]. split_and!; [lia|done|]. intros k Hk. lia.
  - rewrite <- E2. specialize (IH (length line - S i) ltac:(lia) (S i) eq_refl).
    destruct (block_comment_end (drop (S i) line) (S i)) as [r|].
    + destruct IH as (j & -> & Hj & Hs & Hk). exists j. split; [done|]. split_and!; [lia|done|].
      intros k Hk'. destruct (decide (k = i)) as [->|]; [done|apply Hk; lia].
    + intros k Hk. destruct (decide (k = i)) as [->|]; [done|apply IH; lia].
Qed.

(** And a line comment at the first line end. *)
Lemma newline_first line i :
  match position (byte_is newline) (drop i line) with
  | Some k => first_at line (String newline "") i (i + k)
  | None => none_from line (String newline "") i
  end.
Proof.
  assert (forall l, match position (byte_is newline) l with
    | Some k => at_byte l k (byte_is newline) = true /\ forall j, j < k -> at_byte l j (byte_is newline) = false
    | None => forall j, at_byte l j (byte_is newline) = false end) as H.
  { induction l as [|b l IH]; [done|]. cbn [position]. destruct (byte_is newline b) eqn:E; [split; [exact E|intros j Hj; lia]|].
    destruct (position _ l) as [k|]; cbn [fmap option_fmap option_map].
    - destruct IH as [H1 H2]. split; [done|]. intros [|j] Hj; [exact E|]. apply (H2 j). lia.
    - intros [|j]; [exact E|]. apply IH. }
  assert (forall j, at_byte (drop i line) j (byte_is newline) = starts (String newline "") (drop (i + j) line)) as Hat.
  { intros j. rewrite starts_newline. unfold at_byte. by rewrite lookup_drop. }
  specialize (H (drop i line)). destruct (position _ _) as [k|].
  - destruct H as [H1 H2]. split_and!; [lia|by rewrite <- Hat|]. intros j Hj. replace j with (i + (j - i)) by lia. rewrite <- Hat. apply H2. lia.
  - intros j Hj. replace j with (i + (j - i)) by lia. by rewrite <- Hat.
Qed.

Lemma starts_two_end line j a b : is_ascii_byte b = true -> starts (String a (String b "")) (drop j line) = true -> j + 2 <= length line /\ edge line (j + 2).
Proof.
  rewrite starts_two. intros Hb [_ (x & Hx & ->%byte_is_true)%at_byte_true]%andb_prop. pose proof (lookup_lt_Some _ _ _ Hx).
  split; [lia|]. replace (j + 2) with (S (S j)) by lia. by eapply edge_after.
Qed.

(** Something that is no code is not empty, and ends between two characters. *)
Lemma lexeme_ok line index prev open found o : lexeme line index prev open (Some found) o -> index < length line -> skips_ok line index found.
Proof.
  intros H Hi.
  inversion H as [j Hj|Hn|j Hs Hj|Hs Hn|j Hs Hj|Hs Hn|quote Hb Hq|close inner Hb Ht|Hb Hs1 Hs2 Hr|]; subst; cbn [skips_ok]; clear H.
  - destruct Hj as (Hj & Hs & _). apply starts_two_end in Hs as [? ?]; [|done]. split; [lia|done].
  - split; [lia|apply edge_end].
  - destruct Hj as (Hj & Hn & _). rewrite starts_newline in Hn. apply at_byte_true in Hn as (x & Hx & ->%byte_is_true).
    pose proof (lookup_lt_Some _ _ _ Hx). split; [lia|by eapply edge_after].
  - split; [lia|apply edge_end].
  - destruct Hj as (Hj & He & _). apply starts_two_end in He as [? ?]; [|done]. split; [lia|done].
  - split; [lia|apply edge_end].
  - assert (is_ascii_byte quote = true) as Ha by (eapply one_of_ascii; [|done]; done).
    destruct (skip_string_spec line index quote Hb Ha). split; [lia|done].
  - destruct (template_literal_spec line index _ Hb) as (after & inner' & E & H2 & H3 & H4). rewrite E in Ht. injection Ht as -> ->.
    by split_and!; [lia|lia|..].
  - destruct (skip_regex_spec line index Hi). split; [lia|done].
Qed.

(** A comment that begins here, and whether it stays open. *)
Lemma comment_lexeme line index prev : index < length line -> starts "//" (drop index line) || starts "/*" (drop index line) = true ->
  let after := skip_comment line index in
  lexeme line index prev false (Some (Opaque after))
    (at_byte line (S index) (byte_is "*") &&
     negb ((index + 4 <=? after) && at_byte line (after - 2) (byte_is "*") && at_byte line (after - 1) (byte_is "/"))).
Proof.
  intros Hi Hs. cbv zeta. unfold skip_comment. pose proof (newline_first line (index + 2)) as Hn.
  pose proof (block_comment_end_first line (index + 2)) as Hb. rewrite !starts_two in Hs.
  assert (at_byte line index (byte_is "/") = true) as Hslash by (by destruct (at_byte line index (byte_is "/"))).
  destruct (at_byte line (S index) (byte_is "/")) eqn:E.
  - assert (starts "//" (drop index line) = true) as Hst by (by rewrite starts_two, Hslash, E).
    assert (at_byte line (S index) (byte_is "*") = false) as ->.
    { apply at_byte_true in E as (b & Hb' & ->%byte_is_true). unfold at_byte. by rewrite Hb'. }
    destruct (position _ _) as [k|]; [|by apply lexeme_last_comment]. rewrite Nat.add_1_r. by apply lexeme_line_comment.
  - rewrite Hslash in Hs. cbn in Hs. rewrite Hs. assert (starts "/*" (drop index line) = true) as Hst by (by rewrite starts_two, Hslash, Hs).
    destruct (block_comment_end _ _) as [r|].
    + destruct Hb as (j & -> & Hj). destruct Hj as (Hle & Hend & Hk). pose proof Hend as Hend'. rewrite starts_two in Hend'.
      replace (j + 2 - 2) with j by lia. replace (j + 2 - 1) with (S j) by lia. rewrite <- andb_assoc, Hend'.
      replace (index + 4 <=? j + 2) with true by (symmetry; apply Nat.leb_le; lia). by apply lexeme_block_comment.
    + replace (negb _) with true; [by apply lexeme_open_comment|]. symmetry. apply negb_true_iff. rewrite <- andb_assoc, <- not_true_iff_false.
      intros [Hle%Nat.leb_le Hend]%andb_prop. specialize (Hb (length line - 2) ltac:(lia)). rewrite starts_two in Hb.
      replace (S (length line - 2)) with (length line - 1) in Hb by lia. congruence.
Qed.

(** [skip_non_code] finds what stands at an offset. *)
Lemma skip_lexeme line index prev open r o : index < length line ->
  skip_non_code line index prev open = Found (r, o) -> lexeme line index prev open r o.
Proof.
  intros Hi H. destruct (lookup_lt_is_Some_2 _ _ Hi) as [b Hb]. unfold skip_non_code in H. destruct open.
  { pose proof (block_comment_end_first line index) as Hc. destruct (block_comment_end _ _) as [r'|]; injection H as <- <-.
    - destruct Hc as (j & -> & Hj). by apply lexeme_comment_ends.
    - by apply lexeme_comment_goes_on. }
  assert (starts "//" (drop index line) || starts "/*" (drop index line) = is_comment_start line index) as Hstart.
  { rewrite !starts_two. unfold is_comment_start. rewrite <- andb_orb_distrib_r. f_equal. unfold at_byte.
    destruct (line !! S index) as [c|]; [|done]. unfold one_of. cbn. unfold byte_is. by rewrite orb_false_r, !(Ascii.eqb_sym c). }
  destruct (is_comment_start line index) eqn:Ec.
  { injection H as <- <-. by apply comment_lexeme. }
  apply orb_false_iff in Hstart as [Hs1 Hs2]. rewrite Hb in H. destruct (byte_is "`" b) eqn:Et.
  { apply byte_is_true in Et as ->. destruct (template_literal line index) as [| |[close inner]] eqn:E; [done..|]. injection H as <- <-. by apply lexeme_template. }
  destruct (is_quote b) eqn:Eq.
  { injection H as <- <-. apply (lexeme_string _ _ _ b); [done|]. revert Et Eq. clear. by destruct b as [[] [] [] [] [] [] [] []]. }
  destruct (byte_is "/" b && regex_can_start line prev) eqn:Er; injection H as <- <-.
  - apply andb_prop in Er as [->%byte_is_true Er]. by apply lexeme_regex.
  - apply (lexeme_code _ _ _ b); [done|done|]. intros ->. split_and!; [done|done|]. exact Er.
Qed.

Lemma range_empty line i : range line i i = [].
Proof. unfold range. by rewrite Nat.sub_diag. Qed.

Lemma range_join line a b c : a <= b -> b <= c -> range line a b ++ range line b c = range line a c.
Proof.
  intros Hab Hbc. unfold range. replace (c - a) with ((b - a) + (c - b)) by lia. rewrite <- (take_take_drop (drop a line) (b - a) (c - b)).
  f_equal. f_equal. rewrite drop_drop. f_equal. lia.
Qed.

Lemma edge_min line a b : edge line a -> edge line b -> edge line (Nat.min a b).
Proof. destruct (Nat.min_spec a b) as [[_ ->]|[_ ->]]; done. Qed.

Section passes.
Context (call : nat -> nat -> option (list ascii * nat)) (line : list ascii).
Hypothesis Hline : utf8 line.
Abbreviation L := (length line).

(** What a pass asks of [call]: it ends within the range, between two characters. *)
Definition call_ok : Prop := forall index limit text after,
  index < limit -> call index limit = Some (text, after) -> index < after /\ after <= limit /\ edge line after.

Definition rewrites (n : nat) (rewrite_code : nat -> nat -> Walk (list ascii)) : Prop := forall first close,
  first <= close -> close <= L -> edge line first -> edge line close -> close - first < n ->
  exists text o, rewrite_code first close = Found text /\ edited call line close first None false text o.

Lemma copy_template_spec n rewrite_code inner : forall close cursor lo hi, rewrites n rewrite_code ->
  cursor <= close -> close <= L -> edge line close -> cursor <= lo -> chain line lo hi inner -> close - lo < n ->
  exists text, copy_template rewrite_code line close cursor inner = Found text /\ edited_inside call line close cursor inner text.
Proof.
  induction inner as [|[first stop] inner IH]; intros close cursor lo hi Hr Hc HL He Hcl Hch Hn; cbn [copy_template].
  - eexists. split; [done|]. by apply edited_text.
  - inversion Hch as [|? ? ? ? ? Hlo Hfs Hef Hes Hrest]; subst.
    destruct ((close <=? first) || (first <? cursor)) eqn:Eb.
    { eexists. split; [done|]. apply edited_text. intros f' s' r' [= <- <- <-]. apply orb_prop in Eb as [Eb|Eb]; breflect; lia. }
    split_andb. breflect. assert (Nat.max (Nat.min stop close) first = Nat.min stop close) as -> by lia.
    destruct (Hr first (Nat.min stop close)) as (code & o & -> & Hcode); [lia|lia|done|by apply edge_min|lia|]. cbn [walk_bind].
    assert (chain line (Nat.min stop close) hi inner) as Hch' by (eapply chain_wider; [..|exact Hrest]; lia).
    destruct (IH close (Nat.min stop close) (Nat.min stop close) hi) as (after & -> & Hafter); [done|lia|done|done|done|done|lia|]. cbn [walk_bind].
    eexists. split; [done|]. eapply edited_interpolation; [lia|done|done].
Qed.

(** Something that is no code, copied. *)
Lemma copy_non_code_spec fuel found last index prev open mid : index < last -> last <= L -> edge line last -> last - index <= S fuel ->
  (forall first stop, first <= stop -> stop <= L -> edge line first -> edge line stop -> stop - first < S fuel ->
     exists text o, rewrite_range fuel call line stop first None false = Found (text, o) /\ edited call line stop first None false text o) ->
  skips_ok line index found -> lexeme line index prev open (Some found) mid ->
  exists text next, copy_non_code (fun first close => nested <~ rewrite_range fuel call line close first None false; Found (fst nested)) line index last found
      = Found (text, next) /\ index < next <= last /\ edge line next /\
    forall out o, edited call line last next (Some (next - 1)) mid out o -> edited call line last index prev open (text ++ out) o.
Proof.
  intros Hi HL He Hf IH Hskip Hlex. destruct found as [close|close inner]; cbn [copy_non_code].
  - destruct Hskip as [Hc Hec]. do 2 eexists. split; [done|]. replace (Nat.max (Nat.min close last) index) with (Nat.min close last) by lia.
    split_and!; [lia|lia|by apply edge_min|]. intros out o Ho. by eapply edited_opaque.
  - destruct Hskip as (Hc & Hec & Hch). replace (Nat.max (Nat.min close last) index) with (Nat.min close last) by lia.
    destruct (copy_template_spec (S fuel) (fun first close => nested <~ rewrite_range fuel call line close first None false; Found (fst nested)) inner
                (Nat.min close last) index (S index) close) as (text & -> & Ht); [|lia|lia|by apply edge_min|lia|done|lia|].
    + intros first stop H1 H2 H3 H4 H5. destruct (IH first stop) as (out & o & -> & Ho); [done..|]. exists out, o. by split.
    + cbn [walk_bind]. do 2 eexists. split; [done|]. split_and!; [lia|lia|by apply edge_min|]. intros out o Ho. by eapply edited_template.
Qed.

Lemma rewrite_range_spec fuel : forall last index prev open,
  call_ok -> index <= last -> last <= L -> edge line last -> utf8 (drop index line) -> last - index <= fuel ->
  exists out o, rewrite_range fuel call line last index prev open = Found (out, o) /\ edited call line last index prev open out o.
Proof.
  induction fuel as [|fuel IH]; intros last index prev open Hcall Hi HL He Hu Hf; cbn [rewrite_range].
  { assert (last = index) as -> by lia. rewrite Nat.leb_refl. do 2 eexists. split; [done|constructor]. }
  destruct (last <=? index) eqn:Eli; breflect; [assert (last = index) as -> by lia; do 2 eexists; split; [done|constructor]|].
  assert (index < L) as HiL by lia. destruct (skip_non_code_spec line index prev open HiL) as (r & open' & Hsk & Hskip).
  apply skip_lexeme in Hsk as Hlex; [|done]. rewrite Hsk. cbn [walk_bind fst snd]. destruct r as [found|].
  - destruct (copy_non_code_spec fuel found last index prev open open' Eli HL He Hf) as (text & next & -> & Hn & Hen & Htext); [|by apply Hskip|done|].
    { intros first stop H1 H2 H3 H4 H5. apply IH; [done..|by apply utf8_drop_edge; [|lia|]|lia]. }
    cbn [walk_bind fst snd]. destruct (IH last next (Some (next - 1)) open') as (rest & o & -> & Hrest); [done|lia|done|done|by apply utf8_drop_edge; [|lia|]|lia|].
    cbn [walk_bind fst snd]. do 2 eexists. split; [done|]. by apply Htext.
  - destruct (call index last) as [[text after]|] eqn:Ecall.
    + destruct (Hcall index last text after Eli Ecall) as (H1 & H2 & H3).
      destruct (IH last after (Some (after - 1)) open') as (rest & o & -> & Hrest); [done|lia|done|done|by apply utf8_drop_edge; [|lia|]|lia|].
      cbn [walk_bind fst snd]. do 2 eexists. split; [done|]. by eapply edited_call.
    + destruct (split_char1_utf8 _ Hu) as (c & rest & Hs & Hr & Hc0).
      { intros H0. apply (f_equal length) in H0. rewrite length_drop in H0. cbn in H0. lia. }
      rewrite Hs. pose proof (char_before_edge _ _ _ _ _ He Eli HL Hs) as Hfit. pose proof Hs as [Hd _]%split_char1_Some.
      assert (drop (index + length c) line = rest) as Hdrop by (rewrite <- drop_drop, Hd; by rewrite drop_app_length).
      assert (0 < length c) by (destruct c; [done|cbn; lia]).
      destruct (IH last (index + length c) (if at_byte line index is_ascii_whitespace then prev else Some index) open')
        as (out & o & -> & Hout); [done|lia|done|done|by rewrite Hdrop|lia|].
      cbn [walk_bind fst snd]. do 2 eexists. split; [done|]. by eapply edited_code.
Qed.

Lemma edited_within last index prev open out o : edited call line last index prev open out o -> index <= last.
Proof. by inversion 1; subst; lia. Qed.

(** Where nothing is a call nothing changes. *)
Lemma edited_same : (forall i limit, call i limit = None) ->
  (forall last index prev open out o, edited call line last index prev open out o -> last <= L -> out = range line index last) /\
  (forall close cursor inner text, edited_inside call line close cursor inner text -> close <= L -> cursor <= close ->
     Forall (fun r => fst r <= snd r) inner -> text = range line cursor close).
Proof.
  intros Hno. apply edited_both.
  - intros. by rewrite range_empty.
  - intros last index prev open close out mid o Hi Hlex H IH HL. apply lexeme_ok in Hlex as [Hc _]; [|lia].
    rewrite IH by done. apply range_join; lia.
  - intros last index prev open close inner text out mid o Hi Hlex _ IHt H IH HL. apply lexeme_ok in Hlex as (Hc & _ & Hch); [|lia].
    rewrite IH, (IHt ltac:(lia) ltac:(lia)); [apply range_join; lia| |done].
    eapply Forall_impl; [by eapply chain_widths|]. cbn. lia.
  - intros last index prev open text after out mid o _ _ Hc. by rewrite Hno in Hc.
  - intros last index prev open c rest out mid o Hi _ _ Hs H%edited_within IH HL. rewrite IH by done. apply split_char1_Some in Hs as [Hd _].
    assert (range line index (index + length c) = c) as Hc by (unfold range; rewrite Hd, Nat.add_sub_swap, Nat.sub_diag by lia; apply take_app_length).
    rewrite <- Hc at 1. apply range_join; lia.
  - done.
  - intros close cursor first stop rest code o after [H1 H2] _ IHc _ IHa HL Hc [Hf Hr]%Forall_cons. cbn in Hf.
    rewrite IHc, IHa by (done || lia). rewrite (range_join line first), (range_join line cursor) by lia. done.
Qed.

(** Nothing happens inside a comment that goes on. *)
Lemma edited_in_comment prev out o : none_from line "*/" 0 -> edited call line L 0 prev true out o -> out = line /\ o = true.
Proof.
  assert (range line 0 L = line) as Hall by (unfold range; rewrite Nat.sub_0_r; apply firstn_all).
  intros Hno H. inversion H as [? ? ? Hl|? ? ? ? close out' mid ? Hi Hlex Hrest|? ? ? ? ? ? ? ? ? ? ? Hlex|? ? ? ? ? ? ? ? ? ? Hlex|? ? ? ? ? ? ? ? ? ? Hlex]; subst.
  - split; [|done]. by destruct line.
  - inversion Hlex as [j Hj| | | | | | | | |]; subst; [destruct Hj as (_ & Hj & _); by rewrite Hno in Hj by lia|].
    rewrite Nat.min_id in *. rewrite Hall. inversion Hrest; subst; try lia. by rewrite app_nil_r.
  - inversion Hlex.
  - inversion Hlex.
  - inversion Hlex.
Qed.
End passes.

(** *** What the passes call a call *)

Lemma starts_length p l : starts p l = true -> length (bytes_of p) <= length l /\ take (length (bytes_of p)) l = bytes_of p.
Proof.
  unfold starts, strip_bytes. case_bool_decide as H; [|done]. intros _. split; [|done].
  apply (f_equal length) in H. rewrite length_take in H. lia.
Qed.

Lemma skip_while_ge p l i : i <= skip_while l p i.
Proof. unfold skip_while. lia. Qed.

Lemma call_end line index specifier after :
  require_call line index = Some (specifier, after) \/ dynamic_import_call line index = Some (specifier, after) ->
  index < after <= length line /\ edge line after.
Proof.
  intros H. assert (require_call line index = Some (specifier, after)) as H' by (destruct H; done). clear H.
  unfold require_call in H'. cbv zeta in H'. destruct (negb _); [done|]. apply bind_Some in H' as ([spec consumed] & _ & H').
  pose proof (skip_while_ge is_ascii_whitespace line index) as H1. set (i1 := skip_while line is_ascii_whitespace index) in *.
  pose proof (skip_while_ge is_ascii_whitespace line (S i1)) as H2. set (i2 := skip_while line is_ascii_whitespace (S i1)) in *.
  pose proof (skip_while_ge is_ascii_whitespace line (i2 + consumed)) as H3. set (i3 := skip_while line is_ascii_whitespace (i2 + consumed)) in *.
  destruct (at_byte line i3 (byte_is ")")) eqn:E; [|done]. assert (S i3 = after) as <- by congruence.
  apply at_byte_true in E as (b & Hb & ->%byte_is_true). pose proof (lookup_lt_Some _ _ _ Hb).
  split; [lia|by eapply edge_after].
Qed.

Section calls.
Context (hash_hex : string -> string) (deps : DepIndex).

Lemma require_call_ok drop_unresolved importer line : call_ok (require_replacement hash_hex deps drop_unresolved importer line) line.
Proof.
  intros index limit text after _ H. unfold require_replacement in H. destruct (_ && _) eqn:Es; [|done]. split_andb.
  apply bind_Some in H as ([specifier after_call] & Hc & H). destruct (limit <? after_call) eqn:El; [done|]. breflect.
  assert (after_call = after) as -> by (destruct (resolve deps specifier); [congruence|destruct drop_unresolved; congruence]).
  destruct (call_end line (index + 7) specifier after) as [? ?]; [by left|]. split_and!; [lia|done|done].
Qed.

Lemma import_call_ok files line : call_ok (import_replacement hash_hex deps files line) line.
Proof.
  intros index limit text after _ H. unfold import_replacement in H. destruct (_ && _) eqn:Es; [|done]. split_andb.
  apply bind_Some in H as ([specifier after_call] & Hc & H). destruct (limit <? after_call) eqn:El; [done|]. breflect.
  apply bind_Some in H as (dep & Hd & H). injection H as _ ->.
  destruct (call_end line (index + 6) specifier after) as [? ?]; [by right|]. split_and!; [lia|done|done].
Qed.

Lemma pass_answers call line open : utf8 line -> call_ok call line ->
  exists out o, rewrite_range (length line) call line (length line) 0 None open = Found (out, o) /\
    edited call line (length line) 0 None open out o /\ ((forall i limit, call i limit = None) -> out = line) /\
    (open = true -> none_from line "*/" 0 -> out = line /\ o = true).
Proof.
  intros Hu Hc. destruct (rewrite_range_spec call line Hu (length line) (length line) 0 None open) as (out & o & H1 & H2);
    [done|lia|lia|apply edge_end|done|lia|].
  exists out, o. split_and!; [done|done| |].
  - intros Hno. apply edited_same in H2; [|done|lia]. rewrite H2. unfold range. rewrite Nat.sub_0_r. apply firstn_all.
  - intros -> Hnone. by eapply edited_in_comment.
Qed.

(** What stands where the code said [import(..)]. *)
Lemma import_replacement_is line files index limit text after : import_replacement hash_hex deps files line index limit = Some (text, after) ->
  starts "import" (drop index line) = true /\ is_import_boundary line index = true /\
  exists specifier dep, dynamic_import_call line (index + 6) = Some (specifier, after) /\ resolve deps specifier = Some dep /\
    text = bytes_of (match files !! path_new dep with
                     | Some file => dq "import(`./" +:+ file +:+ dq "`).then((module) => module.default)"
                     | None => "Promise.resolve(" +:+ LinkStatements.module_id hash_hex dep +:+ ")"
                     end).
Proof.
  intros H. unfold import_replacement in H. destruct (_ && _) eqn:Es; [|done]. split_andb. split_and!; [done..|].
  apply bind_Some in H as ([specifier after_call] & Hc & H). destruct (limit <? after_call); [done|].
  apply bind_Some in H as (dep & Hd & H). injection H as <- <-. by exists specifier, dep.
Qed.

Lemma require_replacement_is line drop_unresolved importer index limit text after :
  require_replacement hash_hex deps drop_unresolved importer line index limit = Some (text, after) ->
  starts "require" (drop index line) = true /\ is_import_boundary line index = true /\
  exists specifier, require_call line (index + 7) = Some (specifier, after) /\
    match resolve deps specifier with
    | Some dep => text = bytes_of (LinkStatements.module_id hash_hex dep)
    | None => drop_unresolved = true
    end.
Proof.
  intros H. unfold require_replacement in H. destruct (_ && _) eqn:Es; [|done]. split_andb. split_and!; [done..|].
  apply bind_Some in H as ([specifier after_call] & Hc & H). destruct (limit <? after_call); [done|].
  exists specifier. destruct (resolve deps specifier) as [dep|]; [by injection H as <- <-|].
  destruct drop_unresolved; [|done]. by injection H as _ <-.
Qed.
End calls.

(** C21: The two passes never fail on text, replace every call that is code, and
    change nothing else.  Any line of UTF-8 is answered, whatever block comment is
    open; the answer is read off the line from left to right: comments, strings,
    regular expressions and the text of templates, wherever they begin, are
    copied with whatever they hold; the interpolations of a template are edited
    in turn; where code is a call, its replacement stands in its place; and a
    character of code is copied only where no call begins.  A [require(..)] is
    replaced by the namespace of the module it resolves to or, in a browser bundle, by an
    error, an [import(..)] by a promise of the module; a word that merely ends in
    [require] or [import] is no call.  A line without a call, and a line inside a
    block comment that does not end on it, come back as they were.  A template
    literal left open by an earlier line is not known to the passes: its text is
    read as code. *)
Theorem passes_change_only_calls hash_hex deps files drop_unresolved importer line open :
  valid_utf8 line = true ->
  (exists out o, rewrite_commonjs_requires_with_state hash_hex line deps open drop_unresolved importer = Found (out, o) /\
     edited (require_replacement hash_hex deps drop_unresolved importer line) line (length line) 0 None open out o /\
     ((forall i limit, require_replacement hash_hex deps drop_unresolved importer line i limit = None) -> out = line) /\
     (open = true -> none_from line "*/" 0 -> out = line /\ o = true)) /\
  (exists out o, rewrite_dynamic_imports hash_hex line deps files open = Found (out, o) /\
     edited (import_replacement hash_hex deps files line) line (length line) 0 None open out o /\
     ((forall i limit, import_replacement hash_hex deps files line i limit = None) -> out = line) /\
     (open = true -> none_from line "*/" 0 -> out = line /\ o = true)) /\
  (forall i limit text after, require_replacement hash_hex deps drop_unresolved importer line i limit = Some (text, after) ->
     starts "require" (drop i line) = true /\ is_import_boundary line i = true /\
     exists specifier, require_call line (i + 7) = Some (specifier, after) /\
     match resolve deps specifier with Some dep => text = bytes_of (LinkStatements.module_id hash_hex dep) | None => drop_unresolved = true end) /\
  (forall i limit text after, import_replacement hash_hex deps files line i limit = Some (text, after) ->
     starts "import" (drop i line) = true /\ is_import_boundary line i = true /\
     exists specifier dep, dynamic_import_call line (i + 6) = Some (specifier, after) /\ resolve deps specifier = Some dep /\
     text = bytes_of (match files !! path_new dep with
                      | Some file => dq "import(`./" +:+ file +:+ dq "`).then((module) => module.default)"
                      | None => "Promise.resolve(" +:+ LinkStatements.module_id hash_hex dep +:+ ")"
                      end)).
Proof.
  intros Hu%valid_utf8_spec. split_and!.
  - by apply pass_answers, require_call_ok.
  - by apply pass_answers, import_call_ok.
  - intros i limit text after. apply require_replacement_is.
  - intros i limit text after. apply import_replacement_is.
Qed.

(** *** Imports that stay outside the bundle *)

(** The import statements of a module that are code, as the rewriter spells them. *)
Definition import_statements (m : CompiledModule) (ast : ModuleAst) : list (list ascii) :=
  omap (fun '(line, start) =>
    let statement := normalized_statement (trim_text line) in
    if is_code_offset ast start && starts "import " statement then Some statement else None) (lines_with_statement_offsets (module_js m)).

(** A module of the bundle imports [specifier] by [statement], and nothing in the bundle answers it. *)
Definition imports_outside (modules : list CompiledModule) (m : CompiledModule) (statement : list ascii) (specifier : string) : Prop :=
  m ∈ modules /\ (exists ast, parse_module (module_js m) = Some ast /\ statement ∈ import_statements m ast) /\
  import_specifier statement = Some specifier /\ is_handled (index_of m) specifier = false.

(** What a stub does: declare a name that stands for a missing package, or report a package imported for its effects. *)
Inductive Stub := Declares (name specifier : string) | Reports (specifier : string).

Definition declares (s : Stub) : option string := match s with Declares name _ => Some name | Reports _ => None end.

Definition stub_text (js_string : string -> string) (u : gmap string (gset string * gset string)) (s : Stub) : string :=
  let importers specifier := js_string (join ", " (in_order (snd (default (∅, ∅) (u !! specifier))))) in
  match s with
  | Declares name specifier =>
      "const " +:+ name +:+ " = __ruvyxaMissingImport__(" +:+ js_string specifier +:+ ", " +:+ js_string name +:+ ", " +:+ importers specifier +:+ ");"
  | Reports specifier => "__ruvyxaMissingImport__(" +:+ js_string specifier +:+ ", null, " +:+ importers specifier +:+ ");"
  end.

Section external.
Context (identifier_name : string -> bool) (js_string : string -> string) (target : BundleTarget).
Abbreviation collect_import := (collect_import identifier_name target).
Abbreviation import_names := (import_names identifier_name).

(** One statement to be looked at: the module's index, its path, the statement. *)
Abbreviation Event := (DepIndex * string * list ascii)%type.
Definition collect_event (e : External) (ev : Event) : External := collect_import (fst (fst ev)) (snd (fst ev)) (snd ev) e.
Definition events_of (m : CompiledModule) (ast : ModuleAst) : list Event := (fun s => (index_of m, module_path m, s)) <$> import_statements m ast.

(** An event of a specifier nothing answers, and whether it is hoisted. *)
Definition outside (ev : Event) (specifier : string) : Prop :=
  import_specifier (snd ev) = Some specifier /\ is_handled (fst (fst ev)) specifier = false.
Definition hoists (specifier : string) : bool := bool_decide (target <> TClient) || negb (is_bare_specifier specifier).

Definition known (e : External) (specifier : string) : gset string * gset string := default (∅, ∅) (unresolved e !! specifier).

Lemma collect_event_spec e ev :
  (forall t, t ∈ hoisted (collect_event e ev) <-> t ∈ hoisted e \/ exists s, outside ev s /\ hoists s = true /\ t = text_of (ensure_semicolon (snd ev))) /\
  (forall s, is_Some (unresolved (collect_event e ev) !! s) <-> is_Some (unresolved e !! s) \/ outside ev s /\ hoists s = false) /\
  (forall s x, x ∈ fst (known (collect_event e ev) s) <-> x ∈ fst (known e s) \/ outside ev s /\ hoists s = false /\ x ∈ import_names (snd ev)) /\
  (forall s x, x ∈ snd (known (collect_event e ev) s) <-> x ∈ snd (known e s) \/ outside ev s /\ hoists s = false /\ x = snd (fst ev)).
Proof.
  destruct ev as [[deps path] statement]. unfold collect_event, Linker.collect_import, outside. cbn [fst snd].
  assert (forall (P Q : Prop), ~ Q -> (P <-> P \/ Q)) as Hno by tauto.
  destruct (import_specifier statement) as [spec|]; [|split_and!; intros; apply Hno; [by intros (? & [? _] & _)|by intros [[? _] _]..]].
  assert (forall s, is_handled deps spec = true \/ s <> spec -> ~ (Some spec = Some s /\ is_handled deps s = false)) as Hout.
  { intros s H [[= ->] ?]. destruct H; congruence. }
  destruct (is_handled deps spec) eqn:Eh.
  { split_and!; intros; apply Hno.
    - intros (s & H & _). eapply Hout; [|exact H]. by left.
    - intros [H _]. eapply Hout; [|exact H]. by left.
    - intros [H _]. eapply Hout; [|exact H]. by left.
    - intros [H _]. eapply Hout; [|exact H]. by left. }
  fold (hoists spec). assert (forall s, Some spec = Some s /\ is_handled deps s = false <-> s = spec) as Hs.
  { intros s. split; [by intros [[= ->] _]|by intros ->]. }
  setoid_rewrite Hs. destruct (hoists spec) eqn:Eo; cbn [hoisted unresolved]; unfold known; cbn [unresolved].
  - split_and!.
    + intros t. rewrite elem_of_union, elem_of_singleton. split; [intros [->|H]; [right; by exists spec|by left]|].
      intros [H|(s & -> & _ & ->)]; [by right|by left].
    + intros s. apply Hno. intros [-> ?]. congruence.
    + intros s x. apply Hno. intros (-> & ? & _). congruence.
    + intros s x. apply Hno. intros (-> & ? & _). congruence.
  - split_and!.
    + intros t. apply Hno. intros (s & -> & ? & _). congruence.
    + intros s. destruct (decide (s = spec)) as [->|Hne]; [rewrite lookup_insert_eq; split; [by right|by eexists]|].
      rewrite lookup_insert_ne by done. apply Hno. by intros [? _].
    + intros s x. destruct (decide (s = spec)) as [->|Hne]; [|rewrite lookup_insert_ne by done; apply Hno; by intros [? _]].
      rewrite lookup_insert_eq. cbn [from_option]. unfold id. cbn [fst]. rewrite elem_of_union. tauto.
    + intros s x. destruct (decide (s = spec)) as [->|Hne]; [|rewrite lookup_insert_ne by done; apply Hno; by intros [? _]].
      rewrite lookup_insert_eq. cbn [from_option]. unfold id. cbn [snd]. rewrite elem_of_union, elem_of_singleton. tauto.
Qed.

Lemma collect_events_spec evs : forall e,
  let e' := foldl collect_event e evs in
  (forall t, t ∈ hoisted e' <-> t ∈ hoisted e \/ exists ev s, ev ∈ evs /\ outside ev s /\ hoists s = true /\ t = text_of (ensure_semicolon (snd ev))) /\
  (forall s, is_Some (unresolved e' !! s) <-> is_Some (unresolved e !! s) \/ exists ev, ev ∈ evs /\ outside ev s /\ hoists s = false) /\
  (forall s x, x ∈ fst (known e' s) <-> x ∈ fst (known e s) \/ exists ev, ev ∈ evs /\ outside ev s /\ hoists s = false /\ x ∈ import_names (snd ev)) /\
  (forall s x, x ∈ snd (known e' s) <-> x ∈ snd (known e s) \/ exists ev, ev ∈ evs /\ outside ev s /\ hoists s = false /\ x = snd (fst ev)).
Proof.
  induction evs as [|ev evs IH]; intros e; cbn [foldl].
  { assert (forall (P Q : Prop), ~ Q -> (P <-> P \/ Q)) as Hno by tauto.
    split_and!; intros; apply Hno; [intros (? & ? & ?%elem_of_nil & _)|intros (? & ?%elem_of_nil & _)..]; done. }
  destruct (IH (collect_event e ev)) as (I1 & I2 & I3 & I4). destruct (collect_event_spec e ev) as (C1 & C2 & C3 & C4).
  assert (forall (P : Event -> Prop), (exists ev', ev' ∈ ev :: evs /\ P ev') <-> P ev \/ exists ev', ev' ∈ evs /\ P ev') as Hcons.
  { intros P. setoid_rewrite elem_of_cons. split; [intros (ev' & [->|H] & HP); [by left|right; by exists ev']|].
    intros [HP|(ev' & H & HP)]; [exists ev; by split; [left|]|exists ev'; by split; [right|]]. }
  cbv zeta in *. split_and!; intros; rewrite ?Hcons.
  - rewrite I1, C1. split.
    + intros [[H|(s & H)]|(ev' & s & H & H')]; [by left|right; exists ev, s; by split; [left|]|right; exists ev', s; by split; [right|]].
    + intros [H|(ev' & s & [->|H]%elem_of_cons & H')]; [by left; left|left; right; by exists s|right; by exists ev', s].
  - rewrite I2, C2. tauto.
  - rewrite I3, C3. tauto.
  - rewrite I4, C4. tauto.
Qed.

Lemma collect_lines_events m ast ls : forall e,
  foldl (collect_line identifier_name target (index_of m) (module_path m) ast) e ls =
  foldl collect_event e ((fun s => (index_of m, module_path m, s)) <$> omap (fun '(line, start) =>
    let statement := normalized_statement (trim_text line) in
    if is_code_offset ast start && starts "import " statement then Some statement else None) ls).
Proof.
  induction ls as [|[line start] ls IH]; intros e; [done|]. cbn [foldl omap list_omap]. rewrite IH. unfold collect_line.
  destruct (is_code_offset ast start); cbn [negb andb]; [|done]. by destruct (starts "import " _).
Qed.

Lemma collect_modules_events modules : forall e e',
  collect_modules identifier_name target modules e = Some (inl e') ->
  exists evs, e' = foldl collect_event e evs /\
    forall ev, ev ∈ evs <-> exists m ast, m ∈ modules /\ parse_module (module_js m) = Some ast /\ ev ∈ events_of m ast.
Proof.
  induction modules as [|m modules IH]; intros e e' H; cbn [collect_modules] in H; unlink.
  { exists []. split; [done|]. intros ev. split; [by intros ?%elem_of_nil|]. by intros (m & ast & ?%elem_of_nil & _). }
  match goal with Hm : collect_module _ _ _ _ = _ |- _ => unfold collect_module in Hm; destruct (parse_module (module_js m)) as [ast|] eqn:Ea; [|done] end.
  cbn [link_bind ok] in *. unlink. apply IH in H as (evs & -> & Hevs). exists (events_of m ast ++ evs).
  rewrite foldl_app, collect_lines_events. split; [done|]. intros ev. rewrite elem_of_app, Hevs. setoid_rewrite elem_of_cons. split.
  - intros [He|(m' & ast' & H1 & H2 & H3)]; [by exists m, ast; split; [left|]|by exists m', ast'; split; [right|]].
  - intros (m' & ast' & [->|H1] & H2 & H3); [left; congruence|right; by exists m', ast'].
Qed.

(** What is collected, exactly. *)
Lemma collected_spec modules e : collect_modules identifier_name target modules (mkExternal ∅ ∅) = Some (inl e) ->
  (forall t, t ∈ hoisted e <-> exists m st s, imports_outside modules m st s /\ hoists s = true /\ t = text_of (ensure_semicolon st)) /\
  (forall s, is_Some (unresolved e !! s) <-> exists m st, imports_outside modules m st s /\ hoists s = false) /\
  (forall s x, x ∈ fst (known e s) <-> exists m st, imports_outside modules m st s /\ hoists s = false /\ x ∈ import_names st) /\
  (forall s x, x ∈ snd (known e s) <-> exists m st, imports_outside modules m st s /\ hoists s = false /\ x = module_path m).
Proof.
  intros (evs & -> & Hevs)%collect_modules_events. destruct (collect_events_spec evs (mkExternal ∅ ∅)) as (C1 & C2 & C3 & C4).
  assert (forall ev s, ev ∈ evs /\ outside ev s <-> exists m st, imports_outside modules m st s /\ ev = (index_of m, module_path m, st)) as Hev.
  { intros ev s. rewrite Hevs. unfold outside, imports_outside, events_of. setoid_rewrite list_elem_of_fmap. split.
    - intros [(m & ast & Hm & Ha & (st & -> & Hst)) [H1 H2]]. exists m, st. split; [|done]. split_and!; [done|by exists ast|done|done].
    - intros (m & st & (Hm & (ast & Ha & Hst) & H1 & H2) & ->). split; [|done]. exists m, ast. split_and!; [done..|]. by exists st. }
  assert (forall s (Q : Event -> Prop), (exists ev, ev ∈ evs /\ outside ev s /\ Q ev) <-> exists m st, imports_outside modules m st s /\ Q (index_of m, module_path m, st)) as Hex.
  { intros s Q. split.
    - intros (ev & H1 & H2 & HQ). destruct (proj1 (Hev ev s) (conj H1 H2)) as (m & st & Ho & ->). by exists m, st.
    - intros (m & st & Ho & HQ). destruct (proj2 (Hev (index_of m, module_path m, st) s)) as [H1 H2]; [by exists m, st|].
      by exists (index_of m, module_path m, st). }
  split_and!.
  - intros t. rewrite C1. cbn [hoisted]. split.
    + intros [?%elem_of_empty|(ev & s & H1 & H2 & H3 & H4)]; [done|]. destruct (proj1 (Hex s (fun ev => hoists s = true /\ t = text_of (ensure_semicolon (snd ev))))) as (m & st & H); [by exists ev|].
      by exists m, st, s.
    + intros (m & st & s & Ho & H3 & H4). right. destruct (proj2 (Hex s (fun ev => hoists s = true /\ t = text_of (ensure_semicolon (snd ev))))) as (ev & H); [by exists m, st|].
      by exists ev, s.
  - intros s. rewrite C2. cbn [unresolved]. rewrite lookup_empty, (Hex s (fun _ => hoists s = false)). split; [intros [[? [=]]|H]; done|by right].
  - intros s x. rewrite C3, (Hex s (fun ev => hoists s = false /\ x ∈ import_names (snd ev))). unfold known. cbn [unresolved]. rewrite lookup_empty.
    split; [intros [?%elem_of_empty|H]; done|by right].
  - intros s x. rewrite C4, (Hex s (fun ev => hoists s = false /\ x = snd (fst ev))). unfold known. cbn [unresolved]. rewrite lookup_empty.
    split; [intros [?%elem_of_empty|H]; done|by right].
Qed.

(** *** The stubs *)

(** The stubs in their order: of each package the names no package before it declared. *)
Fixpoint stub_items (declared : gset string) (ps : list (string * (gset string * gset string))) : list Stub :=
  match ps with
  | [] => []
  | (specifier, (bindings, _)) :: rest =>
      let fresh := filter (fun b => b ∉ declared) (in_order bindings) in
      ((fun b => Declares b specifier) <$> fresh) ++ (if bool_decide (bindings = ∅) then [Reports specifier] else []) ++
      stub_items (list_to_set fresh ∪ declared) rest
  end.

Lemma in_order_elements (b : gset string) : NoDup (in_order b) /\ forall x, x ∈ in_order b <-> x ∈ b.
Proof.
  unfold in_order. pose proof (sort_by_perm (cmp := String.compare) (elements b)) as Hp. split.
  - rewrite Hp. apply NoDup_elements.
  - intros x. rewrite Hp. apply elem_of_elements.
Qed.

Lemma stub_texts u ps : (forall s p, (s, p) ∈ ps -> u !! s = Some p) -> forall declared,
  stubs_of js_string declared ps = stub_text js_string u <$> stub_items declared ps.
Proof.
  intros Hps. induction ps as [|[spec [b i]] ps IH]; intros declared; [done|]. cbn [stubs_of package_stubs stub_items].
  rewrite !fmap_app, IH by (intros s p Hs; apply Hps; by right). rewrite app_assoc.
  assert (u !! spec = Some (b, i)) as Hu by (apply Hps; by left). f_equal. f_equal.
  - rewrite <- list_fmap_compose. apply list_fmap_ext. intros k x _. cbn [compose stub_text]. by rewrite Hu.
  - case_bool_decide; [|done]. cbn [fmap list_fmap stub_text]. by rewrite Hu.
Qed.

Lemma stub_items_spec ps : forall declared,
  NoDup (omap declares (stub_items declared ps)) /\
  (forall x, x ∈ omap declares (stub_items declared ps) <-> (x ∉ declared) /\ exists s b i, (s, (b, i)) ∈ ps /\ x ∈ b) /\
  (forall x s, Declares x s ∈ stub_items declared ps -> exists b i, (s, (b, i)) ∈ ps /\ x ∈ b) /\
  (forall s, Reports s ∈ stub_items declared ps <-> exists i, (s, (∅, i)) ∈ ps).
Proof.
  induction ps as [|[spec [b i]] ps IH]; intros declared; cbn [stub_items].
  { split_and!; [constructor|..]; intros; rewrite ?elem_of_nil; split_and? || idtac; naive_solver (by rewrite ?elem_of_nil in *). }
  set (fresh := filter (fun x => x ∉ declared) (in_order b)). destruct (IH (list_to_set fresh ∪ declared)) as (I1 & I2 & I3 & I4).
  destruct (in_order_elements b) as [Hnd Hin].
  assert (omap declares ((fun x => Declares x spec) <$> fresh) = fresh) as Hfresh.
  { clear. induction fresh as [|x l IH]; [done|]. cbn. by f_equal. }
  assert (omap declares (if bool_decide (b = ∅) then [Reports spec] else []) = []) as Hrep by by case_bool_decide.
  assert (forall x, x ∈ fresh <-> (x ∉ declared) /\ x ∈ b) as Hfr by (intros x; unfold fresh; rewrite list_elem_of_filter, Hin; tauto).
  rewrite !omap_app, Hfresh, Hrep. cbn [app]. split_and!.
  - apply NoDup_app. split_and!; [by apply NoDup_filter| |done]. intros x Hx Hx'. apply I2 in Hx' as [Hn _]. set_solver.
  - intros x. rewrite elem_of_app, I2, Hfr. setoid_rewrite elem_of_cons. rewrite not_elem_of_union, elem_of_list_to_set, Hfr. split.
    + intros [[H1 H2]|[[_ H1] (s & b' & i' & H2 & H3)]]; [split; [done|]; exists spec, b, i; by split; [left|]|split; [done|]; exists s, b', i'; by split; [right|]].
    + intros [H1 (s & b' & i' & [[= -> -> ->]|H2] & H3)]; [by left|]. destruct (decide (x ∈ b)); [by left|]. right.
      split; [tauto|]. by exists s, b', i'.
  - intros x s. rewrite !elem_of_app. intros [H|[H|H]].
    + apply list_elem_of_fmap in H as (x' & [= -> ->] & H). exists b, i. split; [by left|]. by apply Hfr.
    + case_bool_decide; [apply list_elem_of_singleton in H; done|by apply elem_of_nil in H].
    + apply I3 in H as (b' & i' & H1 & H2). exists b', i'. by split; [right|].
  - intros s. rewrite !elem_of_app, I4. setoid_rewrite elem_of_cons. split.
    + intros [H|[H|(i' & H)]]; [apply list_elem_of_fmap in H as (? & ? & _); done| |exists i'; by right].
      case_bool_decide as Hb; [|by apply elem_of_nil in H]. apply list_elem_of_singleton in H as [= ->]. exists i. left. by rewrite Hb.
    + intros (i' & [[= -> <- ->]|H]); [|right; right; by exists i']. right. left. rewrite bool_decide_true by done. by left.
Qed.

Lemma packages_in (u : gmap string (gset string * gset string)) s p : (s, p) ∈ packages u <-> u !! s = Some p.
Proof. unfold packages. rewrite (sort_by_perm (cmp := by_key fst String.compare) (map_to_list u)). apply elem_of_map_to_list. Qed.

(** C22: Whatever the modules of a bundle import from outside it is answered, and
    answered once.  An import that is code and that no module, style sheet or
    marker package answers is hoisted verbatim, exactly when the bundle is not
    for a browser or its specifier is a path or a URL; every other one, a missing
    package of a browser bundle, has each name it binds declared by a stub, no
    name twice in the whole bundle, and is reported at load when it binds none;
    the message names exactly the modules that import it. *)
Theorem outside_imports_answered modules out :
  collect_external_imports identifier_name js_string modules target = Some (inl out) ->
  exists hoists_ u stubs,
    out = in_order hoists_ ++ (if bool_decide (u = ∅) then [] else UNRESOLVED_IMPORT_HELPER :: (stub_text js_string u <$> stubs)) /\
    (forall t, t ∈ hoists_ <-> exists m st s, imports_outside modules m st s /\ (target <> TClient \/ is_bare_specifier s = false) /\
                                text_of (ensure_semicolon st) = t) /\
    (forall s, is_Some (u !! s) <-> exists m st, imports_outside modules m st s /\ target = TClient /\ is_bare_specifier s = true) /\
    (forall s b i, u !! s = Some (b, i) -> forall x, x ∈ i <-> exists m st, imports_outside modules m st s /\ module_path m = x) /\
    NoDup (omap declares stubs) /\
    (forall x, x ∈ omap declares stubs <-> exists m st s, imports_outside modules m st s /\ is_Some (u !! s) /\ x ∈ import_names st) /\
    (forall x s, Declares x s ∈ stubs -> exists m st, imports_outside modules m st s /\ x ∈ import_names st) /\
    (forall s, Reports s ∈ stubs <-> is_Some (u !! s) /\ forall m st, imports_outside modules m st s -> import_names st = ∅).
Proof.
  intros H. unfold collect_external_imports in H. apply link_bind_inl in H as (e & He & H). unlink.
  destruct (collected_spec modules e He) as (C1 & C2 & C3 & C4). set (u := unresolved e) in *.
  assert (forall s, hoists s = true <-> target <> TClient \/ is_bare_specifier s = false) as Hh.
  { intros s. unfold hoists. rewrite orb_true_iff, bool_decide_eq_true, negb_true_iff. done. }
  assert (forall s, hoists s = false <-> target = TClient /\ is_bare_specifier s = true) as Hh'.
  { intros s. unfold hoists. rewrite orb_false_iff, bool_decide_eq_false, negb_false_iff. split; intros [H1 H2]; (split; [|done]).
    - destruct target; try done; exfalso; apply H1; done.
    - intros H. by apply H. }
  assert (forall s, is_Some (u !! s) -> hoists s = false) as Hsome by by intros s (m & st & _ & Hs)%C2.
  destruct (stub_items_spec (packages u) ∅) as (S1 & S2 & S3 & S4).
  assert (forall s b i x, u !! s = Some (b, i) -> x ∈ b <-> exists m st, imports_outside modules m st s /\ x ∈ import_names st) as Hb.
  { intros s b i x Hs. specialize (C3 s x). unfold known in C3. fold u in C3. rewrite Hs in C3. cbn in C3. rewrite C3.
    assert (hoists s = false) as Hf by by apply Hsome. split; [intros (m & st & H1 & _ & H2)|intros (m & st & H1 & H2)]; by exists m, st. }
  exists (hoisted e), u, (stub_items ∅ (packages u)). split_and!.
  - unfold unresolved_import_stubs. fold u. case_bool_decide; [done|]. do 2 f_equal. apply stub_texts. intros s p. apply packages_in.
  - intros t. rewrite C1. split; intros (m & st & s & H1 & H2 & H3); exists m, st, s; (split_and!; [done|by apply Hh|done]).
  - intros s. rewrite C2. by setoid_rewrite Hh'.
  - intros s b i Hs x. specialize (C4 s x). unfold known in C4. fold u in C4. rewrite Hs in C4. cbn in C4. rewrite C4.
    assert (hoists s = false) as Hf by (apply Hsome; by eexists). split; [intros (m & st & H1 & _ & ->)|intros (m & st & H1 & <-)]; by exists m, st.
  - done.
  - intros x. rewrite S2. split.
    + intros [_ (s & b & i & Hs%packages_in & Hx)]. apply (Hb s b i x Hs) in Hx as (m & st & H1 & H2). exists m, st, s. split_and!; [done|by eexists|done].
    + intros (m & st & s & H1 & [[b i] Hs] & H2). split; [set_solver|]. exists s, b, i. rewrite packages_in. split; [done|]. apply (Hb s b i x Hs). by exists m, st.
  - intros x s (b & i & Hs%packages_in & Hx)%S3. by apply (Hb s b i x Hs).
  - intros s. rewrite S4. setoid_rewrite packages_in. split.
    + intros [i Hs]. split; [by eexists|]. intros m st H1. apply set_eq. intros x. rewrite elem_of_empty. split; [|done]. intros Hx.
      apply (not_elem_of_empty (C := gset string) x). apply (Hb s ∅ i x Hs). by exists m, st.
    + intros [[[b i] Hs] Hall]. exists i. rewrite Hs. do 2 f_equal. apply set_eq. intros x. rewrite elem_of_empty. split; [|done].
      intros (m & st & H1 & H2)%(Hb s b i x Hs). rewrite (Hall m st H1) in H2. by apply elem_of_empty in H2.
Qed.
End external.

(** ** The properties on a small bundle *)

(** Whether a linked computation answers. *)
Definition answers {A} (x : linked A) : bool := match x with Some (inl _) => true | _ => false end.

Lemma answers_inl {A} (x : linked A) : answers x = true -> exists a, x = Some (inl a).
Proof. destruct x as [[a|e]|]; [intros _; by exists a|done..]. Qed.

(** A module that imports a missing package and one that is in the bundle. *)
Definition sample_entry : list CompiledModule :=
  match new_module "/a.js" (bytes_of ("import 'z';" +:+ String newline "" +:+ "import { c } from './b';")) ["/b.js"] ∅ false with Some m => [m] | None => [] end.
Definition sample_leaf : list CompiledModule :=
  match new_module "/b.js" (bytes_of "export const c = 1;") [] ∅ false with Some m => [m] | None => [] end.
Definition sample_hash (s : string) : string := "0123456789abcdef" +:+ s.
Definition letters_only (s : string) : bool := forallb is_alnum (bytes_of s).

Lemma link_provenance_witness : exists b,
  link_with_origins (fun _ => true) letters_only sample_hash dq (sample_entry ++ sample_leaf) TClient ∅ [] = Some (inl b) /\
  exists project groups pieces,
    ordered_project_modules (sample_entry ++ sample_leaf) = Some project /\ cycle_groups (sample_entry ++ sample_leaf) = Some groups /\
    bundle_modules b = module_path <$> project /\ in_pieces (bundle_code b) (line_origins b) pieces /\
    omap snd pieces = mjoin (imap module_lines project) /\
    Forall (bundle_piece_ok (fun _ => true) letters_only sample_hash ∅ groups project) pieces.
Proof.
  destruct (answers_inl (link_with_origins (fun _ => true) letters_only sample_hash dq (sample_entry ++ sample_leaf) TClient ∅ [])) as [b Hb];
    [vm_compute; reflexivity|].
  exists b. split; [exact Hb|]. apply (link_provenance_exact _ _ _ _ _ _ _ _ _ Hb).
Defined.

Definition sample_line : list ascii := bytes_of "const x = require('./b'), y = import('./b');".
Definition sample_deps : DepIndex := new_index ["/b.js"] ∅.

Lemma passes_change_witness : valid_utf8 sample_line = true /\
  exists out open', rewrite_commonjs_requires_with_state sample_hash sample_line sample_deps false true "/a.js" = Found (out, open') /\
    edited (require_replacement sample_hash sample_deps true "/a.js" sample_line) sample_line (length sample_line) 0 None false out open' /\ out <> sample_line.
Proof.
  split; [vm_compute; reflexivity|].
  destruct (passes_change_only_calls sample_hash sample_deps ∅ true "/a.js" sample_line false eq_refl) as ((out & o & H1 & H2 & _) & _).
  exists out, o. split_and!; [done..|]. intros ->.
  assert (match rewrite_commonjs_requires_with_state sample_hash sample_line sample_deps false true "/a.js" with
          | Found (t, _) => bool_decide (t = sample_line) | _ => true end = false) as H by (vm_compute; reflexivity).
  rewrite H1 in H. by rewrite bool_decide_true in H.
Defined.

Lemma outside_imports_witness : exists out u stubs hoists_,
  collect_external_imports letters_only dq (sample_entry ++ sample_leaf) TClient = Some (inl out) /\
  out = in_order hoists_ ++ (if bool_decide (u = ∅) then [] else UNRESOLVED_IMPORT_HELPER :: (stub_text dq u <$> stubs)) /\
  (forall s, is_Some (u !! s) <-> exists m st, imports_outside (sample_entry ++ sample_leaf) m st s /\ TClient = TClient /\ is_bare_specifier s = true) /\
  NoDup (omap declares stubs).
Proof.
  destruct (answers_inl (collect_external_imports letters_only dq (sample_entry ++ sample_leaf) TClient)) as [out Hout]; [vm_compute; reflexivity|].
  destruct (outside_imports_answered _ _ _ _ _ Hout) as (h & u & stubs & H1 & _ & H3 & _ & H5 & _).
  exists out, u, stubs, h. split_and!; [exact Hout|exact H1|exact H3|exact H5].
Defined.
