(* ===== verification/Chunking.v ===== *)
(** * Chunks of dynamic imports (ruvyxa_bundler/src/chunking.rs)

    Which modules a bundle splits into files of their own, which stay with the
    entry, and the text of each chunk.  The walk over static imports is the
    code's recursion; fuel bounds its depth and one more than the number of
    modules is enough.  blake3 and the minifier are parameters. *)
From S2P Require Import Prelude RustStr Text Paths PathBuf JsScanner ModuleAst Order PackageExports Resolver DepIndex LinkOrder LinkStatements Linker.

(** ** Definitions *)

Inductive OutputChunkKind := DynamicImport | SharedRoute.

Record OutputChunk := mkChunk { file_name : string; chunk_code : list ascii; chunk_modules : list string; chunk_kind : OutputChunkKind }.

Record DynamicImportChunk := mkDynamic { importer : string; dynamic_module : string; chunk_file : string }.

(** [project_module_map]; [compiled] is not filtered again by the callers. *)
Definition project_module_map : list CompiledModule -> gmap Path CompiledModule := module_map.

(** The modules among [project] that [dynamic_import_specifiers] of a module lead to. *)
Definition dynamic_targets (map : gmap Path CompiledModule) (m : CompiledModule) : list PathBuf :=
  omap (fun specifier =>
    dep ← resolve (index_of m) specifier;
    match map !! path_new dep with Some _ => Some dep | None => None end) (dynamic_import_specifiers (module_ast m)).

(** A set of paths keeps the spelling that was inserted first. *)
Definition insert_path (dep : PathBuf) (roots : gmap Path PathBuf) : gmap Path PathBuf :=
  match roots !! path_new dep with Some _ => roots | None => <[path_new dep := dep]> roots end.

(** The entries of a map in the order of its paths. *)
Definition in_path_order {A} (m : gmap Path A) : list (Path * A) := sort_by (by_key fst path_order) (map_to_list m).

(** [dynamic_roots] *)
Definition dynamic_roots (compiled : list CompiledModule) (map : gmap Path CompiledModule) : gmap Path PathBuf :=
  foldl (fun roots m => foldl (fun roots dep => insert_path dep roots) roots (dynamic_targets map m)) ∅ (project_modules compiled).

(** What the imports of a module that are not dynamic lead to. *)
Definition static_targets (map : gmap Path CompiledModule) (m : CompiledModule) : list Path :=
  omap (fun edge =>
    if decide (edge_kind edge = Dynamic) then None
    else dep ← resolve (index_of m) (specifier edge);
         match map !! path_new dep with Some _ => Some (path_new dep) | None => None end) (imports (module_ast m)).

(** [collect_static_transitive_modules] *)
Fixpoint collect_static_transitive_modules (map : gmap Path CompiledModule) (fuel : nat) (path : Path) (selected : gset Path)
    : option (gset Path) :=
  match fuel with
  | O => None
  | S fuel =>
      if decide (path ∈ selected) then Some selected
      else
        let selected := {[path]} ∪ selected in
        match map !! path with
        | None => Some selected
        | Some m => fold_opt (fun selected dep => collect_static_transitive_modules map fuel dep selected) selected (static_targets map m)
        end
  end.

Definition collect (map : gmap Path CompiledModule) (path : Path) (selected : gset Path) : option (gset Path) :=
  collect_static_transitive_modules map (S (S (size map))) path selected.

(** The closures of the dynamic roots, in the order of their paths. *)
Fixpoint closures_of (map : gmap Path CompiledModule) (roots : list (Path * PathBuf)) : option (list (Path * PathBuf * gset Path)) :=
  match roots with
  | [] => Some []
  | root :: rest =>
      closure ← collect map (fst root) ∅;
      others ← closures_of map rest;
      Some ((root, closure) :: others)
  end.

(** [closure.is_disjoint(..)], against the entry and against every other root *)
Definition stands_alone (entry_modules : gset Path) (closures : list (Path * PathBuf * gset Path)) (root : Path * PathBuf * gset Path) : bool :=
  bool_decide (snd root ## entry_modules) &&
  forallb (fun other => bool_decide (fst (fst root) = fst (fst other)) || bool_decide (snd root ## snd other)) closures.

Section chunking.
Context (identifier_part : N -> bool) (identifier_name : string -> bool) (hash_hex js_string : string -> string).

(** [graph_fingerprint]: the hash of the updates is the hash of their concatenation. *)
Definition graph_fingerprint (compiled : list CompiledModule) : string :=
  hash_hex (foldr (fun m text => module_path m +:+ String "000" (text_of (module_js m) +:+ String "000" text)) "" (project_modules compiled)).

Definition chunk_name (fingerprint : string) (root : PathBuf) : string :=
  "chunk." +:+ String.substring 0 16 (hash_hex (fingerprint +:+ String "000" root)) +:+ ".js".

(** [plan_dynamic_chunk_files] *)
Definition plan_dynamic_chunk_files (compiled : list CompiledModule) (entry : PathBuf) : option (gmap Path (PathBuf * string)) :=
  let map := project_module_map compiled in
  let fingerprint := graph_fingerprint compiled in
  entry_modules ← collect map (path_new entry) ∅;
  closures ← closures_of map (in_path_order (dynamic_roots compiled map));
  Some (list_to_map ((fun root => (fst (fst root), (snd (fst root), chunk_name fingerprint (snd (fst root))))) <$>
                     filter (fun root => stands_alone entry_modules closures root = true) closures)).

(** The modules of [compiled] that were selected. *)
Definition selected_modules (compiled : list CompiledModule) (selected : gset Path) : list CompiledModule :=
  filter (fun m => path_new (module_path m) ∈ selected) compiled.

(** The set [static_entry_modules] selects. *)
Definition entry_selection (compiled : list CompiledModule) (entry : PathBuf) (files : gmap Path (PathBuf * string)) : option (gset Path) :=
  let map := project_module_map compiled in
  selected ← collect map (path_new entry) ∅;
  fold_opt (fun selected root =>
    match files !! fst root with Some _ => Some selected | None => collect map (fst root) selected end)
    selected (in_path_order (dynamic_roots compiled map)).

(** [static_entry_modules] *)
Definition static_entry_modules (compiled : list CompiledModule) (entry : PathBuf) (files : gmap Path (PathBuf * string))
    : option (list CompiledModule) :=
  selected_modules compiled <$> entry_selection compiled entry files.

(** The modules of the chunk of a root. *)
Definition chunk_selection (compiled : list CompiledModule) (root : Path) : option (gset Path) := collect (project_module_map compiled) root ∅.

(** [module.path.display().to_string().replace('\\', "/")] *)
Definition shown_path (path : PathBuf) : string := forward_slashes path.

Section output.
Context (minify : bool) (minified : list ascii -> list ascii + BundleError) (target : BundleTarget).

(** One round of the loop of [build_dynamic_output_chunks]. *)
Definition output_chunk (compiled : list CompiledModule) (files : gmap Path (PathBuf * string)) (root : Path * (PathBuf * string))
    : linked (option OutputChunk) :=
  let '(path, (spelled, file)) := root in
  selected <- match chunk_selection compiled path with Some s => ok s | None => None end;
  match selected_modules compiled selected with
  | [] => ok None
  | modules =>
      code <- link_parallel_with_dynamic_imports identifier_part identifier_name hash_hex js_string modules target (snd <$> files);
      let code := code ++ bytes_of ("export default " +:+ module_id hash_hex spelled +:+ ";" +:+ String newline "") in
      code <- of_result (if minify then minified code else inl code);
      ok (Some (mkChunk file code ((fun m => shown_path (module_path m)) <$> modules) DynamicImport))
  end.

Fixpoint output_chunks (compiled : list CompiledModule) (files : gmap Path (PathBuf * string)) (roots : list (Path * (PathBuf * string)))
    : linked (list OutputChunk) :=
  match roots with
  | [] => ok []
  | root :: rest =>
      chunk <- output_chunk compiled files root;
      chunks <- output_chunks compiled files rest;
      ok (match chunk with Some chunk => chunk :: chunks | None => chunks end)
  end.

(** [build_dynamic_output_chunks] *)
Definition build_dynamic_output_chunks (compiled : list CompiledModule) (files : gmap Path (PathBuf * string)) : linked (list OutputChunk) :=
  output_chunks compiled files (in_path_order files).
End output.

(** [dynamic_import_chunks] *)
Definition dynamic_import_chunks (compiled : list CompiledModule) (files : gmap Path (PathBuf * string)) : list DynamicImportChunk :=
  mjoin ((fun m => omap (fun specifier =>
    dep ← resolve (index_of m) specifier;
    file ← files !! path_new dep;
    Some (mkDynamic (shown_path (module_path m)) (shown_path dep) (snd file))) (dynamic_import_specifiers (module_ast m)))
    <$> project_modules compiled).
End chunking.

(** ** Specification *)

(** A module imports another other than dynamically. *)
Definition static_edge (map : gmap Path CompiledModule) (x y : Path) : Prop := exists m, map !! x = Some m /\ y ∈ static_targets map m.

(** A module imports another dynamically. *)
Definition dynamic_edge (compiled : list CompiledModule) (x y : Path) : Prop :=
  exists m dep, m ∈ project_modules compiled /\ path_new (module_path m) = x /\ dep ∈ dynamic_targets (project_module_map compiled) m /\ path_new dep = y.

(** ** Properties *)

(** *** The walk over static imports *)

Section walk.
Context (map : gmap Path CompiledModule).
Abbreviation edge := (static_edge map).
Abbreviation walk := (collect_static_transitive_modules map).

Lemma static_target_known m y : y ∈ static_targets map m -> is_Some (map !! y).
Proof.
  unfold static_targets. intros (e & _ & He)%list_elem_of_omap. destruct (decide _); [done|].
  apply bind_Some in He as (dep & _ & He). destruct (map !! path_new dep) eqn:E; [|done]. injection He as <-. by eexists.
Qed.

(** How many modules are still to be entered. *)
Definition left_in (selected : gset Path) : nat := size (dom map ∖ selected).

Definition closed_from (before after : gset Path) : Prop :=
  forall x y, x ∈ after -> (x ∉ before) -> edge x y -> y ∈ after.

Definition walked (starts : list Path) (before after : gset Path) : Prop :=
  before ⊆ after /\ (forall x, x ∈ starts -> x ∈ after) /\ closed_from before after /\
  forall x, x ∈ after -> x ∈ before \/ exists s, s ∈ starts /\ rtc edge s x.

Lemma left_in_mono s t : s ⊆ t -> left_in t <= left_in s.
Proof. intros H. unfold left_in. apply subseteq_size. set_solver. Qed.

Lemma left_in_insert x s : is_Some (map !! x) -> (x ∉ s) -> left_in ({[x]} ∪ s) < left_in s.
Proof. intros Hx Hs. unfold left_in. apply subset_size. apply elem_of_dom in Hx. set_solver. Qed.

Lemma walked_nil s : walked [] s s.
Proof. split_and!; [done|by intros x ?%elem_of_nil|by intros x y ? ?|by left]. Qed.

Lemma walked_app s1 s2 a b c : walked s1 a b -> walked s2 b c -> walked (s1 ++ s2) a c.
Proof.
  intros (A1 & A2 & A3 & A4) (B1 & B2 & B3 & B4). split_and!.
  - set_solver.
  - intros x [Hx|Hx]%elem_of_app; [apply B1; by apply A2|by apply B2].
  - intros x y Hx Ha He. destruct (decide (x ∈ b)) as [Hb|Hb]; [apply B1; by eapply A3|by eapply B3].
  - intros x [Hx|(s & Hs & Hr)]%B4; [destruct (A4 x Hx) as [?|(s & Hs & Hr)]; [by left|]|];
      right; exists s; rewrite elem_of_app; by split; [tauto|].
Qed.

Lemma fold_walked fuel deps : (forall dep s, dep ∈ deps -> left_in s < fuel -> exists s', walk fuel dep s = Some s' /\ walked [dep] s s') ->
  forall s, left_in s < fuel ->
  exists s', fold_opt (fun selected dep => walk fuel dep selected) s deps = Some s' /\ walked deps s s'.
Proof.
  induction deps as [|dep deps IH]; intros Hdeps s Hs; cbn [fold_opt]; [exists s; by split; [|apply walked_nil]|].
  destruct (Hdeps dep s) as (s1 & H1 & W1); [by left|done|]. rewrite H1. cbn [mbind option_bind].
  destruct (IH (fun d t Hd => Hdeps d t (list_elem_of_further _ _ _ Hd)) s1) as (s2 & H2 & W2).
  { pose proof (left_in_mono s s1 (proj1 W1)). lia. }
  exists s2. split; [done|]. by apply (walked_app [dep] deps s s1 s2).
Qed.

(** The walk returns, with what it is started from, closed under the edges out of what it added, and nothing unreached. *)
Lemma walk_spec fuel : forall path s, left_in s + (match map !! path with Some _ => 0 | None => 1 end) < fuel ->
  exists s', walk fuel path s = Some s' /\ walked [path] s s'.
Proof.
  induction fuel as [|fuel IH]; intros path s Hf; [lia|]. cbn [collect_static_transitive_modules].
  destruct (decide (path ∈ s)) as [Hin|Hout].
  { exists s. split; [done|]. split_and!; [done|by intros x ->%list_elem_of_singleton|by intros x y ? ?|by left]. }
  destruct (map !! path) as [m|] eqn:Em.
  - destruct (fold_walked fuel (static_targets map m)) with (s := {[path]} ∪ s) as (s' & H1 & W1 & W2 & W3 & W4).
    + intros dep t Hd Ht. apply IH. destruct (static_target_known m dep Hd) as [d ->]. lia.
    + assert (left_in ({[path]} ∪ s) < left_in s) by (apply left_in_insert; [by eexists|done]). lia.
    + exists s'. split; [done|]. split_and!; [set_solver|intros x ->%list_elem_of_singleton; set_solver| |].
      * intros x y Hx Hs He. destruct (decide (x = path)) as [->|Hne].
        -- destruct He as (m' & Hm' & Hy). rewrite Em in Hm'. injection Hm' as <-. by apply W2.
        -- apply (W3 x y Hx); [set_solver|done].
      * intros x [[->%elem_of_singleton|Hx]%elem_of_union|(d & Hd & Hr)]%W4; [right; exists path; by split; [left|]|by left|].
        right. exists path. split; [by left|]. apply (rtc_l _ _ d); [|done]. by exists m.
  - exists ({[path]} ∪ s). split; [done|]. split_and!; [set_solver|intros x ->%list_elem_of_singleton; set_solver| |].
    + intros x y Hx Hs (m & Hm & _). assert (x = path) as -> by set_solver. congruence.
    + intros x [->%elem_of_singleton|Hx]%elem_of_union; [|by left]. right. exists path. by split; [left|].
Qed.

(** Whether a set holds what its members import. *)
Definition closed_set (s : gset Path) : Prop := forall x y, x ∈ s -> edge x y -> y ∈ s.

Lemma closed_rtc s x y : closed_set s -> x ∈ s -> rtc edge x y -> y ∈ s.
Proof. intros Hs Hx Hr. revert Hx. induction Hr as [x|x y z He _ IH]; [done|]. intros Hx. apply IH. by eapply Hs. Qed.

(** Starting from a closed set, the walk adds exactly what is reached. *)
Lemma collect_adds path s : closed_set s ->
  exists s', collect map path s = Some s' /\ closed_set s' /\ forall x, x ∈ s' <-> x ∈ s \/ rtc edge path x.
Proof.
  intros Hs. destruct (walk_spec (S (S (size map))) path s) as (s' & H1 & W1 & W2 & W3 & W4).
  { assert (left_in s <= size map) by (unfold left_in; rewrite <- (size_dom map); apply subseteq_size; set_solver). destruct (map !! path); lia. }
  assert (closed_set s') as Hc.
  { intros x y Hx He. destruct (decide (x ∈ s)) as [Hin|Hout]; [apply W1; by eapply Hs|by eapply W3]. }
  exists s'. split_and!; [done|done|]. intros x. split.
  - intros [Hx|(p & ->%list_elem_of_singleton & Hr)]%W4; [by left|by right].
  - intros [Hx|Hr]; [by apply W1|]. apply (closed_rtc s' path); [done|apply W2; by left|done].
Qed.

Lemma collect_reaches path : exists s, collect map path ∅ = Some s /\ closed_set s /\ forall x, x ∈ s <-> rtc edge path x.
Proof.
  destruct (collect_adds path ∅) as (s & H1 & H2 & H3); [by intros x y ?%elem_of_empty|].
  exists s. split_and!; [done|done|]. intros x. rewrite H3. set_solver.
Qed.
End walk.

(** *** The roots and the plan *)

Lemma in_path_order_in {A} (m : gmap Path A) p x : (p, x) ∈ in_path_order m <-> m !! p = Some x.
Proof. unfold in_path_order. rewrite (sort_by_perm (cmp := by_key fst path_order) (map_to_list m)). apply elem_of_map_to_list. Qed.

Lemma insert_path_lookup dep roots p : is_Some (insert_path dep roots !! p) <-> path_new dep = p \/ is_Some (roots !! p).
Proof.
  unfold insert_path. destruct (roots !! path_new dep) eqn:E.
  - split; [by right|]. intros [<-|H]; [by eexists|done].
  - rewrite lookup_insert_is_Some. destruct (decide (path_new dep = p)); tauto.
Qed.

Lemma inserted_paths deps : forall roots p,
  is_Some (foldl (fun roots dep => insert_path dep roots) roots deps !! p) <-> is_Some (roots !! p) \/ exists dep, dep ∈ deps /\ path_new dep = p.
Proof.
  induction deps as [|d deps IH]; intros roots p; cbn [foldl].
  { split; [by left|]. intros [H|(d & []%elem_of_nil & _)]. done. }
  rewrite IH, insert_path_lookup. setoid_rewrite elem_of_cons. split.
  - intros [[H|H]|(d' & H1 & H2)]; [right; exists d; by split; [left|]|by left|right; exists d'; by split; [right|]].
  - intros [H|(d' & [->|H1] & H2)]; [by left; right|by left; left|right; by exists d'].
Qed.

Lemma dynamic_roots_in compiled map p :
  is_Some (dynamic_roots compiled map !! p) <-> exists m dep, m ∈ project_modules compiled /\ dep ∈ dynamic_targets map m /\ path_new dep = p.
Proof.
  unfold dynamic_roots. generalize (project_modules compiled) as l. intros l.
  assert (forall roots, is_Some (foldl (fun roots m => foldl (fun roots dep => insert_path dep roots) roots (dynamic_targets map m)) roots l !! p) <->
            is_Some (roots !! p) \/ exists m dep, m ∈ l /\ dep ∈ dynamic_targets map m /\ path_new dep = p) as H.
  { induction l as [|m l IH]; intros roots; cbn [foldl].
    { split; [by left|]. intros [H|(m & d & []%elem_of_nil & _)]. done. }
    rewrite IH, inserted_paths. setoid_rewrite elem_of_cons. split.
    - intros [[H|(d & H)]|(m' & d & H1 & H2)]; [by left|right; exists m, d; by split; [left|]|right; exists m', d; by split; [right|]].
    - intros [H|(m' & d & [->|H1] & H2)]; [by left; left|left; right; by exists d|right; by exists m', d]. }
  rewrite H, lookup_empty. split; [intros [[? ?]|?]; done|by right].
Qed.

Lemma listed_is_some {A} (l : list (Path * A)) p : is_Some ((list_to_map l : gmap Path A) !! p) <-> p ∈ l.*1.
Proof.
  rewrite <- not_eq_None_Some, <- not_elem_of_list_to_map. destruct (decide (p ∈ l.*1)); tauto.
Qed.

Section plan.
Context (map : gmap Path CompiledModule).
Abbreviation edge := (static_edge map).

(** A closure is what its root reaches. *)
Definition closure_ok (c : Path * PathBuf * gset Path) : Prop := forall x, x ∈ snd c <-> rtc edge (fst (fst c)) x.

Lemma closures_of_ok roots : exists cs, closures_of map roots = Some cs /\ cs.*1 = roots /\ Forall closure_ok cs.
Proof.
  induction roots as [|r roots (cs & H1 & H2 & H3)]; cbn [closures_of]; [by exists []|].
  destruct (collect_reaches map (fst r)) as (s & Hs & _ & Hx). rewrite Hs, H1. cbn [mbind option_bind].
  exists ((r, s) :: cs). split_and!; [done|cbn; by f_equal|by constructor].
Qed.

(** Nothing two modules both reach. *)
Definition apart (p q : Path) : Prop := forall x, rtc edge p x -> rtc edge q x -> False.

Lemma stands_alone_ok entry s cs c : (forall x, x ∈ s <-> rtc edge entry x) -> Forall closure_ok cs -> closure_ok c ->
  stands_alone s cs c = true <-> apart (fst (fst c)) entry /\ forall q, q ∈ cs.*1.*1 -> q <> fst (fst c) -> apart (fst (fst c)) q.
Proof.
  intros Hs Hcs Hc. unfold stands_alone. rewrite andb_true_iff, bool_decide_eq_true, forallb_forall. setoid_rewrite orb_true_iff.
  setoid_rewrite bool_decide_eq_true. unfold apart. split.
  - intros [H1 H2]. split.
    + intros x Hx He. apply Hc in Hx. apply Hs in He. by apply (H1 x).
    + intros q Hq Hne x Hx Hq'. apply list_elem_of_fmap in Hq as (r & -> & Hr). apply list_elem_of_fmap in Hr as (d & -> & Hd).
      apply Hc in Hx. destruct (H2 d) as [He|He]; [by apply list_elem_of_In|congruence|].
      apply (He x Hx). rewrite Forall_forall in Hcs. by apply Hcs.
  - intros [H1 H2]. split.
    + intros x Hx He. apply Hc in Hx. apply Hs in He. by apply (H1 x).
    + intros d Hd%list_elem_of_In. destruct (decide (fst (fst c) = fst (fst d))) as [He|Hne]; [by left|right].
      intros x Hx Hx'. rewrite Forall_forall in Hcs. apply Hcs in Hx'; [|done]. apply Hc in Hx.
      apply (H2 (fst (fst d))) with (x := x); [by do 2 apply list_elem_of_fmap_2|congruence|done|done].
Qed.
End plan.

Section chunks.
Context (hash_hex : string -> string) (compiled : list CompiledModule) (entry : PathBuf).
Abbreviation map := (project_module_map compiled).
Abbreviation edge := (static_edge map).
Abbreviation roots := (dynamic_roots compiled map).

(** Exactly the roots that share nothing get a file. *)
Lemma plan_ok : exists files, plan_dynamic_chunk_files hash_hex compiled entry = Some files /\
  forall p, is_Some (files !! p) <->
    is_Some (roots !! p) /\ apart map p (path_new entry) /\ forall q, is_Some (roots !! q) -> q <> p -> apart map p q.
Proof.
  unfold plan_dynamic_chunk_files. destruct (collect_reaches map (path_new entry)) as (s & Hs & _ & Hx). rewrite Hs. cbn [mbind option_bind].
  destruct (closures_of_ok map (in_path_order roots)) as (cs & H1 & H2 & H3). rewrite H1. cbn [mbind option_bind].
  eexists. split; [done|]. intros p.
  assert (forall q, q ∈ cs.*1.*1 <-> is_Some (roots !! q)) as Hq.
  { intros q. rewrite H2, list_elem_of_fmap. split.
    - intros ([q' r] & -> & Hr). apply in_path_order_in in Hr. by eexists.
    - intros [r Hr]. exists (q, r). by rewrite in_path_order_in. }
  rewrite listed_is_some, <- list_fmap_compose, list_elem_of_fmap. split.
  - intros (c & -> & [Hc1 Hc2]%list_elem_of_filter). rewrite Forall_forall in H3. cbn [compose fst].
    apply (stands_alone_ok map (path_new entry)) in Hc1 as [A1 A2]; [|done|by apply Forall_forall|by apply H3].
    split_and!; [apply Hq; by do 2 apply list_elem_of_fmap_2|done|]. intros q Hr Hne. by apply A2; [apply Hq|].
  - intros (Hp & A1 & A2). apply Hq in Hp. apply list_elem_of_fmap in Hp as (r & -> & Hr). apply list_elem_of_fmap in Hr as (c & -> & Hc).
    exists c. split; [done|]. apply list_elem_of_filter. split; [|done]. rewrite Forall_forall in H3.
    apply (stands_alone_ok map (path_new entry)); [done|by apply Forall_forall|by apply H3|]. split; [done|].
    intros q Hin Hne. by apply A2; [apply Hq|].
Qed.

(** The entry holds what it reaches, and what the roots without a file reach. *)
Lemma entry_selection_ok files : exists s, entry_selection compiled entry files = Some s /\ closed_set map s /\
  forall x, x ∈ s <-> rtc edge (path_new entry) x \/ exists q, is_Some (roots !! q) /\ files !! q = None /\ rtc edge q x.
Proof.
  unfold entry_selection. destruct (collect_reaches map (path_new entry)) as (s & Hs & Hc & Hx). rewrite Hs. cbn [mbind option_bind].
  assert (forall (l : list (Path * PathBuf)) s, closed_set map s -> exists s',
    fold_opt (fun selected root => match files !! fst root with Some _ => Some selected | None => collect map (fst root) selected end) s l = Some s' /\
    closed_set map s' /\ forall x, x ∈ s' <-> x ∈ s \/ exists q, q ∈ l.*1 /\ files !! q = None /\ rtc edge q x) as Hfold.
  { clear. intros l. induction l as [|[q r] l IH]; intros s Hs; cbn [fold_opt].
    { exists s. split_and!; [done|done|]. intros x. split; [by left|]. intros [H|(q & []%elem_of_nil & _)]. done. }
    cbn [fst fmap list_fmap]. destruct (files !! q) as [v|] eqn:Eq; cbn [mbind option_bind].
    - destruct (IH s Hs) as (s' & H1 & H2 & H3). exists s'. split_and!; [done|done|]. intros x. rewrite H3. setoid_rewrite elem_of_cons.
      split; [intros [H|(q' & A & B)]; [by left|right; exists q'; by split; [right|]]|].
      intros [H|(q' & [->|A] & B & C)]; [by left|congruence|right; by exists q'].
    - destruct (collect_adds map q s Hs) as (s1 & H1 & H2 & H3). rewrite H1. cbn [mbind option_bind].
      destruct (IH s1 H2) as (s' & I1 & I2 & I3). exists s'. split_and!; [done|done|]. intros x. rewrite I3, H3. setoid_rewrite elem_of_cons.
      split; [intros [[H|H]|(q' & A & B)]; [by left|right; exists q; by split; [left|]|right; exists q'; by split; [right|]]|].
      intros [H|(q' & [->|A] & B & C)]; [by left; left|by left; right|right; by exists q']. }
  destruct (Hfold (in_path_order roots) s Hc) as (s' & H1 & H2 & H3). exists s'. split_and!; [done|done|]. intros x. rewrite H3, Hx.
  assert (forall q, q ∈ (in_path_order roots).*1 <-> is_Some (roots !! q)) as Hq.
  { intros q. rewrite list_elem_of_fmap. split; [intros ([q' r] & -> & Hr); apply in_path_order_in in Hr; by eexists|].
    intros [r Hr]. exists (q, r). by rewrite in_path_order_in. }
  by setoid_rewrite Hq.
Qed.

(** A file of the output ([None] is the entry) holds a module. *)
Definition file_holds (files : gmap Path (PathBuf * string)) (file : option Path) (x : Path) : Prop :=
  match file with
  | None => exists s, entry_selection compiled entry files = Some s /\ x ∈ s
  | Some p => is_Some (files !! p) /\ exists s, chunk_selection compiled p = Some s /\ x ∈ s
  end.

(** C23: A bundle is split so that no module is lost and none runs twice.
    Planning returns; the entry and every chunk have a set of modules; a module
    is in at most one file; its imports that are not dynamic are in the same
    file; what it imports dynamically is the root of a chunk or stays with the
    entry; and every module the entry reaches, through imports of any kind, is
    in some file. *)
Theorem chunks_partition_modules :
  exists files, plan_dynamic_chunk_files hash_hex compiled entry = Some files /\
    is_Some (static_entry_modules compiled entry files) /\
    (forall p, is_Some (files !! p) -> file_holds files (Some p) p) /\
    (forall f g x, file_holds files f x -> file_holds files g x -> f = g) /\
    (forall f x y, file_holds files f x -> static_edge map x y -> file_holds files f y) /\
    (forall x y, dynamic_edge compiled x y -> is_Some (files !! y) \/ file_holds files None y) /\
    (forall x, rtc (fun x y => static_edge map x y \/ dynamic_edge compiled x y) (path_new entry) x -> exists f, file_holds files f x).
Proof.
  destruct plan_ok as (files & Hplan & Hfiles). exists files. split; [done|].
  destruct (entry_selection_ok files) as (es & Hes & Hclosed & Hin).
  assert (forall p x, file_holds files (Some p) x <-> is_Some (files !! p) /\ rtc edge p x) as Hchunk.
  { intros p x. cbn [file_holds]. destruct (collect_reaches map p) as (s & Hs & _ & Hx).
    unfold chunk_selection. rewrite Hs. rewrite <- Hx. split; [by intros (? & ? & [= <-] & ?)|intros [? ?]; split; [done|by eexists]]. }
  assert (forall x, file_holds files None x <-> x ∈ es) as Hentry.
  { intros x. cbn [file_holds]. rewrite Hes. split; [by intros (? & [= <-] & ?)|by eexists]. }
  assert (forall p x, is_Some (files !! p) -> rtc edge p x -> x ∈ es -> False) as Happart.
  { intros p x Hp Hr Hx. pose proof (proj1 (Hfiles p) Hp) as (A1 & A2 & A3). apply Hin in Hx as [Hx|(q & B1 & B2 & B3)]; [by apply (A2 x)|].
    apply (A3 q B1) with (x := x); [|done..]. intros ->. rewrite B2 in Hp. by apply is_Some_None in Hp. }
  assert (forall x y, dynamic_edge compiled x y -> is_Some (files !! y) \/ file_holds files None y) as Hdyn.
  { intros x y (m & dep & D1 & D2 & D3 & D4). destruct (files !! y) eqn:E; [by left; eexists|]. right. apply Hentry, Hin. right.
    exists y. split_and!; [|done|done]. apply dynamic_roots_in. by exists m, dep. }
  split_and!.
  - unfold static_entry_modules. rewrite Hes. by eexists.
  - intros p Hp. by apply Hchunk.
  - intros [p|] [q|] x; rewrite ?Hchunk, ?Hentry; [|intros [A1 A2] A3; exfalso; by eapply Happart|intros A3 [A1 A2]; exfalso; by eapply Happart|done].
    intros [A1 A2] [B1 B2]. destruct (decide (q = p)) as [->|Hne]; [done|]. exfalso.
    pose proof (proj1 (Hfiles p) A1) as (_ & _ & H3). pose proof (proj1 (Hfiles q) B1) as (H1 & _). by apply (H3 q H1 Hne x).
  - intros [p|] x y; rewrite ?Hchunk, ?Hentry; [|by apply Hclosed]. intros [H1 H2] He. split; [done|]. by eapply rtc_r.
  - done.
  - intros x Hr. apply (rtc_ind_r (fun x => exists f, file_holds files f x) (path_new entry)) in Hr; [done| |].
    + exists None. apply Hentry, Hin. by left.
    + intros y z _ [He|He] [f Hf].
      * exists f. destruct f as [p|]; [apply Hchunk; apply Hchunk in Hf as [H1 H2]; split; [done|by eapply rtc_r]|].
        apply Hentry. apply Hentry in Hf. by eapply Hclosed.
      * destruct (Hdyn y z He) as [Hz|Hz]; [exists (Some z); by apply Hchunk|by exists None].
Qed.
End chunks.

(** *** What a chunk cannot see *)

(** An entry that imports [/s.js] and, dynamically, [/a.js], which imports [/s.js] dynamically. *)
Definition split_sample : list CompiledModule :=
  let module path js deps := match new_module path (bytes_of js) deps ∅ false with Some m => [m] | None => [] end in
  module "/e.js" "import './s'; import('./a')" ["/s.js"; "/a.js"] ++ module "/a.js" "export const f = () => import('./s');" ["/s.js"] ++
  module "/s.js" "export const n = 1;" [].

(** The modules a chunk holds, and whether its text names the namespace of [/s.js]. *)
Definition chunk_shape (c : OutputChunk) : list string * bool :=
  (chunk_modules c, match find_bytes (bytes_of (module_id (fun s => s) "/s.js")) (chunk_code c) with Some _ => true | None => false end).

(** The import of a module that stayed with the entry becomes the namespace of
    that module, which the chunk's file does not declare. *)
Example chunk_names_a_namespace_of_the_entry :
  match plan_dynamic_chunk_files (fun s => s) split_sample "/e.js" with
  | Some files =>
      match build_dynamic_output_chunks (fun _ => true) letters_only (fun s => s) dq false inl TClient split_sample files with
      | Some (inl chunks) => chunk_shape <$> chunks
      | _ => []
      end
  | None => []
  end = [(["/a.js"], true)].
Proof. vm_compute. reflexivity. Qed.
