(* ===== verification/ActionSecurity.v ===== *)
(** Server-action admission (crates/ruvyxa_dev_server/src/action_security.rs):
    the replay guard, the origin and fetch-metadata checks, the content type and
    payload checks, and the identifier of an action.

    Instants are nanoseconds.  The sliding-window rate limiter, which
    computes with [f64], is not modelled here. *)
From S2P Require Import Prelude RustStr ClientIp.

(** ** Definitions *)

(** [headers.get_all(name).iter().next_back()] read as text *)
Definition get_last_str (headers : HeaderMap) (name : string) : option string := last (headers name) ≫= id.

(** [headers.get(name).is_some()] *)
Definition contains_header (headers : HeaderMap) (name : string) : bool := bool_decide (headers name ≠ []).

(** *** The replay guard *)

Definition nanos_per_second : N := 1000000000.
Definition ACTION_NONCE_TTL : N := 600 * nanos_per_second.
Definition ACTION_NONCE_MAX_ENTRIES : N := 10000.
Definition ACTION_NONCE_MAX_PER_CLIENT : N := ACTION_NONCE_MAX_ENTRIES / 10.

Record NonceEntry := mkNonce { expires : N; nonce_key : string; nonce_client : IpAddr }.

Record ActionReplayGuard := mkGuard {
  seen : gset string;
  order : list NonceEntry;
  per_client : gmap IpAddr N;
}.

Definition empty_guard : ActionReplayGuard := mkGuard ∅ [] ∅.

Inductive ActionReplayRejection := InvalidNonce | Replayed | ClientSaturated | Saturated.

(** [ActionReplayRejection::status] *)
Definition rejection_status (r : ActionReplayRejection) : N :=
  match r with InvalidNonce => 400 | Replayed => 409 | ClientSaturated => 429 | Saturated => 503 end.

(** [ActionReplayRejection::message] *)
Definition rejection_message (r : ActionReplayRejection) : string :=
  match r with
  | InvalidNonce => "Versioned action requests require a valid replay nonce"
  | Replayed => "Action request replayed"
  | ClientSaturated => "Action replay protection is saturated for this client"
  | Saturated => "Action replay protection is saturated"
  end.

Definition is_nonce_byte (a : ascii) : bool :=
  is_alnum a || existsb (Ascii.eqb a) ["."; "_"; "~"; "-"]%char.

Definition valid_nonce (nonce : string) : bool :=
  (16 <=? String.length nonce) && (String.length nonce <=? 128) && all_bytes is_nonce_byte nonce.

(** [release_client]; [None] is the underflow of [*held -= 1]. *)
Definition release_client (client : IpAddr) (m : gmap IpAddr N) : option (gmap IpAddr N) :=
  match m !! client with
  | None => Some m
  | Some held =>
      if (held =? 0)%N then None
      else if (held - 1 =? 0)%N then Some (delete client m) else Some (<[client := (held - 1)%N]> m)
  end.

(** The sweep: drop expired entries from the front. *)
Fixpoint sweep (now : N) (s : gset string) (o : list NonceEntry) (m : gmap IpAddr N) : option ActionReplayGuard :=
  match o with
  | [] => Some (mkGuard s [] m)
  | e :: o' =>
      if (expires e <=? now)%N then
        m' ← release_client (nonce_client e) m;
        sweep now (s ∖ {[nonce_key e]}) o' m'
      else Some (mkGuard s o m)
  end.

Definition replay_key (action_reference nonce : string) : string := action_reference +:+ ":" +:+ nonce.

(** [consume]: the answer and the guard afterwards; an outer [None] is a panic. *)
Definition consume (now : N) (headers : HeaderMap) (action_reference : string) (client : IpAddr)
    (g : ActionReplayGuard) : option ((unit + ActionReplayRejection) * ActionReplayGuard) :=
  let nonce := default "" (get_str headers "x-ruvyxa-action-nonce") in
  if negb (valid_nonce nonce) then Some (inr InvalidNonce, g)
  else
    g ← sweep now (seen g) (order g) (per_client g);
    let key := replay_key action_reference nonce in
    if bool_decide (key ∈ seen g) then Some (inr Replayed, g)
    else if match per_client g !! client with
            | Some held => (ACTION_NONCE_MAX_PER_CLIENT <=? held)%N
            | None => false
            end then Some (inr ClientSaturated, g)
    else if (ACTION_NONCE_MAX_ENTRIES <=? N.of_nat (size (seen g)))%N then Some (inr Saturated, g)
    else Some (inl tt, mkGuard ({[key]} ∪ seen g) (order g ++ [mkNonce (now + ACTION_NONCE_TTL) key client])
                 (<[client := (default 0 (per_client g !! client) + 1)%N]> (per_client g))).

(** *** Action identifiers *)

Definition wrap64 (n : N) : N := n mod (u64_max + 1).

(** One FNV-1a step. *)
Definition fnv_step (hash byte : N) : N := wrap64 (N.lxor hash byte * 1099511628211).

Fixpoint fnv_bytes (s : string) (hash : N) : N :=
  match s with
  | "" => hash
  | String a s' => fnv_bytes s' (fnv_step hash (N_of_ascii a))
  end.

Definition hex_digit (n : N) : ascii :=
  ascii_of_N (if (n <? 10)%N then 48 + n else 87 + n).

(** [format!("{hash:016x}")] of a [u64] *)
Fixpoint hex_digits (digits : nat) (n : N) : string :=
  match digits with
  | O => ""
  | S d => hex_digits d (n / 16) +:+ String (hex_digit (n mod 16)) ""
  end.

(** [action_reference_id] *)
Definition action_reference_id (route_id source : string) : string :=
  "a_" +:+ hex_digits 16 (fnv_bytes source (fnv_step (fnv_bytes route_id 14695981039346656037) 0)).

(** *** Request checks *)

Record ServerConfig := mkConfig {
  action_body_limit_bytes : N;
  same_origin_actions : bool;
  fetch_metadata_actions : bool;
}.

Definition Response : Type := N * string.

Definition first_part (c : ascii) (s : string) : string := default s (head (split_char c s)).

(** [action_content_type] *)
Definition action_content_type (headers : HeaderMap) : option string :=
  value ← get_str headers "content-type";
  let content_type := trim (first_part ";"%char value) in
  if eq_ignore_case content_type "application/json" then Some "application/json"
  else if eq_ignore_case content_type "application/x-www-form-urlencoded"
  then Some "application/x-www-form-urlencoded"
  else None.

(** [action_content_type_is_supported] *)
Definition action_content_type_is_supported (headers : HeaderMap) : bool :=
  bool_decide (is_Some (action_content_type headers)).

(** [value.filter(|value| !value.is_empty())] *)
Definition non_empty (v : option string) : option string :=
  s ← v; if is_empty_str s then None else Some s.

(** [text.split_once("://")] *)
Fixpoint split_scheme (s : string) : option (string * string) :=
  match strip_prefix "://" s with
  | Some rest => Some ("", rest)
  | None => match s with
            | "" => None
            | String a s' => (fun lr => (String a lr.1, lr.2)) <$> split_scheme s'
            end
  end.

(** [origin_is_cross_site] *)
Definition origin_is_cross_site (headers : HeaderMap) (trusted_scheme : option string) : bool :=
  match non_empty (get_str headers "origin") with
  | None =>
      negb (match get_str headers "sec-fetch-site" with
            | Some value => eq_ignore_case value "same-origin"
            | None => false
            end)
  | Some origin =>
      match non_empty (get_str headers "host") with
      | None => true
      | Some host =>
          match split_scheme origin with
          | None => true
          | Some (origin_scheme, origin_host) =>
              if has_char "/"%char origin_host || is_empty_str origin_host then true
              else if negb (eq_ignore_case origin_host host) then true
              else match trusted_scheme with
                   | Some scheme => negb (eq_ignore_case origin_scheme scheme)
                   | None => false
                   end
          end
      end
  end.

(** [parse_forwarded_scheme] *)
Definition parse_forwarded_scheme (value : option string) : option string :=
  v ← value;
  let v := trim (first_part ","%char v) in
  if eq_ignore_case v "https" then Some "https"
  else if eq_ignore_case v "http" then Some "http"
  else None.

(** [action_fetch_site_is_cross_site] *)
Definition action_fetch_site_is_cross_site (headers : HeaderMap) : bool :=
  match get_str headers "sec-fetch-site" with
  | Some value => eq_ignore_case value "cross-site"
  | None => false
  end.

Section trust.
(** The address parser, whether the build checks overflow, and the configured
    proxies; an outer [option] is a panic of the proxy check. *)
Context (parse_ip : string -> option IpAddr) (checks : bool) (trusted_proxies : list IpPrefix).

(** [forwarded_scheme] *)
Definition forwarded_scheme (headers : HeaderMap) (peer : IpAddr) : option (option string) :=
  t ← is_trusted_proxy_ip checks trusted_proxies peer;
  Some (if negb t then None else parse_forwarded_scheme (get_last_str headers "x-forwarded-proto")).

(** [action_client_ip] *)
Definition action_client_ip (peer : IpAddr) (headers : HeaderMap) : option IpAddr :=
  client_ip parse_ip checks peer headers trusted_proxies.

(** [action_origin_is_cross_site] *)
Definition action_origin_is_cross_site (headers : HeaderMap) (peer : IpAddr) : option bool :=
  scheme ← forwarded_scheme headers peer; Some (origin_is_cross_site headers scheme).

(** [hmr_origin_is_cross_site] *)
Definition hmr_origin_is_cross_site (headers : HeaderMap) (peer : IpAddr) : option bool :=
  if negb (contains_header headers "origin") then Some (action_fetch_site_is_cross_site headers)
  else action_origin_is_cross_site headers peer.

(** [validate_action_request]: an inner [None] lets the request through. *)
Definition validate_action_request (headers : HeaderMap) (body_len : N) (config : ServerConfig) (peer : IpAddr)
    : option (option Response) :=
  if (action_body_limit_bytes config <? body_len)%N then Some (Some (413%N, "Action payload is too large"))
  else if negb (action_content_type_is_supported headers) then
    Some (Some (415%N, "Action payload must be JSON or URL-encoded form data"))
  else
    cross ← (if same_origin_actions config then action_origin_is_cross_site headers peer else Some false);
    Some (if cross : bool then Some (403%N, "Cross-origin action request blocked")
          else if fetch_metadata_actions config && action_fetch_site_is_cross_site headers then
            Some (403%N, "Cross-site action request blocked")
          else None).
End trust.

Section payload.
(** [str::from_utf8], and [serde_json::from_str::<Value>] with its error text. *)
Context (from_utf8 : string -> option string) (json_error : string -> option string).

(** [validate_action_payload] *)
Definition validate_action_payload (headers : HeaderMap) (body : string) : (string * string) + Response :=
  match action_content_type headers with
  | None => inr (415%N, "Action payload must declare JSON or URL-encoded form data")
  | Some content_type =>
      match from_utf8 body with
      | None => inr (400%N, "Action payload must be valid UTF-8")
      | Some payload =>
          let payload := if is_empty_str payload && String.eqb content_type "application/json" then "{}" else payload in
          if String.eqb content_type "application/json" then
            match json_error payload with
            | Some error => inr (400%N, "Action JSON payload is malformed: " +:+ error)
            | None => inl (content_type, payload)
            end
          else inl (content_type, payload)
      end
  end.
End payload.

(** *** What the guard keeps *)

(** The entries of one client. *)
Definition held_by (client : IpAddr) (o : list NonceEntry) : N :=
  N.of_nat (length (filter (fun e => nonce_client e = client) o)).

(** The entries still live at [now]. *)
Definition live (now : N) (o : list NonceEntry) : list NonceEntry := filter (fun e => (now < expires e)%N) o.

(** The three structures hold the same entries, in expiry order. *)
Definition agree (s : gset string) (o : list NonceEntry) (m : gmap IpAddr N) : Prop :=
  s = list_to_set (nonce_key <$> o) /\ NoDup (nonce_key <$> o) /\
  (forall client, default 0%N (m !! client) = held_by client o) /\
  (forall client n, m !! client = Some n -> n ≠ 0%N) /\
  StronglySorted (fun a b => (expires a <= expires b)%N) o.

(** They agree, no entry outlives [now] by more than the TTL, and the pool and
    each client are within their bounds. *)
Definition guard_ok (now : N) (g : ActionReplayGuard) : Prop :=
  agree (seen g) (order g) (per_client g) /\
  Forall (fun e => (expires e <= now + ACTION_NONCE_TTL)%N) (order g) /\
  (N.of_nat (length (order g)) <= ACTION_NONCE_MAX_ENTRIES)%N /\
  (forall client, (held_by client (order g) <= ACTION_NONCE_MAX_PER_CLIENT)%N).

(** A request to the guard, and runs of requests. *)
Record request := mkRequest { req_now : N; req_nonce : string; req_reference : string; req_client : IpAddr }.

Definition nonce_headers (nonce : string) : HeaderMap :=
  fun name => if String.eqb name "x-ruvyxa-action-nonce" then [Some nonce] else [].

Definition submit (r : request) (g : ActionReplayGuard) : option ((unit + ActionReplayRejection) * ActionReplayGuard) :=
  consume (req_now r) (nonce_headers (req_nonce r)) (req_reference r) (req_client r) g.

Fixpoint submit_all (rs : list request) (g : ActionReplayGuard)
    : option (list (unit + ActionReplayRejection) * ActionReplayGuard) :=
  match rs with
  | [] => Some ([], g)
  | r :: rs' =>
      '(a, g) ← submit r g;
      '(l, g) ← submit_all rs' g;
      Some (a :: l, g)
  end.

(** Requests arrive in clock order, from [now] on. *)
Fixpoint in_order (now : N) (rs : list request) : Prop :=
  match rs with
  | [] => True
  | r :: rs' => (now <= req_now r)%N /\ in_order (req_now r) rs'
  end.

(** *** The specification: a log of the accepted requests *)

Definition entry_of (r : request) : NonceEntry :=
  mkNonce (req_now r + ACTION_NONCE_TTL) (replay_key (req_reference r) (req_nonce r)) (req_client r).

(** The answer to [r] after the requests [log] were accepted. *)
Definition spec_answer (log : list request) (r : request) : unit + ActionReplayRejection :=
  let recent := filter (fun h => (req_now r < req_now h + ACTION_NONCE_TTL)%N) log in
  if negb (valid_nonce (req_nonce r)) then inr InvalidNonce
  else if bool_decide (Exists (fun h => req_reference h = req_reference r /\ req_nonce h = req_nonce r) recent)
  then inr Replayed
  else if (ACTION_NONCE_MAX_PER_CLIENT <=? N.of_nat (length (filter (fun h => req_client h = req_client r) recent)))%N
  then inr ClientSaturated
  else if (ACTION_NONCE_MAX_ENTRIES <=? N.of_nat (length recent))%N then inr Saturated
  else inl tt.

Fixpoint spec_all (log rs : list request) : list (unit + ActionReplayRejection) :=
  match rs with
  | [] => []
  | r :: rs' =>
      let a := spec_answer log r in
      a :: spec_all (match a with inl _ => log ++ [r] | inr _ => log end) rs'
  end.

(** The guard after the requests [log] were accepted, at [now]: its entries are
    the log's, those that had expired at the last sweep left out. *)
Definition refines (now : N) (log : list request) (g : ActionReplayGuard) : Prop :=
  guard_ok now g /\ Forall (fun h => valid_nonce (req_nonce h) = true) log /\
  exists t, (t <= now)%N /\ order g = live t (entry_of <$> log).

(** *** What an admitted request looks like *)

(** The request names its own origin: no origin is sent and the browser reports a
    same-origin fetch, or the origin is a scheme and the request's host, the
    scheme a trusted proxy reports when there is one. *)
Definition own_origin (headers : HeaderMap) (trusted_scheme : option string) : Prop :=
  (non_empty (get_str headers "origin") = None /\
   exists site, get_str headers "sec-fetch-site" = Some site /\ eq_ignore_case site "same-origin" = true) \/
  (exists scheme origin_host host,
     get_str headers "origin" = Some (scheme +:+ "://" +:+ origin_host) /\ split_scheme scheme = None /\
     has_char "/"%char origin_host = false /\ origin_host ≠ "" /\
     get_str headers "host" = Some host /\ eq_ignore_case origin_host host = true /\
     (forall trusted, trusted_scheme = Some trusted -> eq_ignore_case scheme trusted = true)).

Definition peer_a : IpAddr := V4 3232235777.

Definition peer_b : IpAddr := V4 3232235778.

Definition nonce_a : string := "0123456789abcdef".

Definition demo_requests : list request :=
  [mkRequest 5 nonce_a "a_1" peer_a; mkRequest 9 nonce_a "a_1" peer_b; mkRequest 9 "short" "a_1" peer_a;
   mkRequest (5 + ACTION_NONCE_TTL) nonce_a "a_1" peer_b].

Definition headers_of (l : list (string * string)) : HeaderMap :=
  fun name => (fun e => Some e.2) <$> filter (fun e => e.1 = name) l.

(** ** Lemmas *)

Lemma held_by_cons client e o :
  held_by client (e :: o) = ((if decide (nonce_client e = client) then 1 else 0) + held_by client o)%N.
Proof. unfold held_by. rewrite filter_cons. destruct (decide (nonce_client e = client)); cbn [length]; lia. Qed.

Lemma held_by_app client o1 o2 : held_by client (o1 ++ o2) = (held_by client o1 + held_by client o2)%N.
Proof. unfold held_by. rewrite filter_app, length_app. lia. Qed.

Lemma live_sorted now o :
  StronglySorted (fun a b => (expires a <= expires b)%N) o ->
  match o with
  | [] => live now o = []
  | e :: o' => if (expires e <=? now)%N then live now o = live now o' else live now o = o
  end.
Proof.
  destruct o as [|e o]; [done|]. intros [He Hs]%StronglySorted_cons. unfold live.
  destruct (N.leb_spec (expires e) now).
  - rewrite filter_cons_False by lia. done.
  - rewrite filter_cons_True by done. f_equal. rewrite <- (app_nil_r o) at 2.
    clear Hs. induction o as [|x o IH]; [done|]. apply Forall_cons in He as [Hx He].
    rewrite filter_cons_True by lia. by rewrite IH.
Qed.

Lemma release_client_spec e o m :
  (forall client, default 0%N (m !! client) = held_by client (e :: o)) ->
  (forall client n, m !! client = Some n -> n ≠ 0%N) ->
  exists m', release_client (nonce_client e) m = Some m' /\
    (forall client, default 0%N (m' !! client) = held_by client o) /\
    (forall client n, m' !! client = Some n -> n ≠ 0%N).
Proof.
  intros Hc Hn. unfold release_client. pose proof (Hc (nonce_client e)) as He.
  rewrite held_by_cons, decide_True in He by done.
  destruct (m !! nonce_client e) as [held|] eqn:E; [|cbn in He; lia]. cbn in He.
  assert ((held =? 0)%N = false) as -> by (apply N.eqb_neq; lia).
  destruct (N.eqb_spec (held - 1) 0); eexists; (split; [done|]); split.
  - intros client. destruct (decide (client = nonce_client e)) as [->|Hne].
    + rewrite lookup_delete_eq. cbn. lia.
    + rewrite lookup_delete_ne by done. rewrite Hc, held_by_cons, decide_False by done. lia.
  - intros client n [_ H]%lookup_delete_Some. by eapply Hn.
  - intros client. destruct (decide (client = nonce_client e)) as [->|Hne].
    + rewrite lookup_insert_eq. cbn. lia.
    + rewrite lookup_insert_ne by done. rewrite Hc, held_by_cons, decide_False by done. lia.
  - intros client n' [[_ <-]|[_ H]]%lookup_insert_Some; [done|by eapply Hn].
Qed.

Lemma sweep_spec now s o m :
  agree s o m ->
  exists s' m', sweep now s o m = Some (mkGuard s' (live now o) m') /\ agree s' (live now o) m'.
Proof.
  revert s m. induction o as [|e o IH]; intros s m Ha.
  { exists s, m. by split. }
  pose proof Ha as (Hs & Hn & Hc & Hz & Hsort). pose proof (live_sorted now _ Hsort) as Hl. cbv beta iota in Hl.
  cbn [sweep].
  destruct (expires e <=? now)%N; [|exists s, m; by rewrite Hl].
  destruct (release_client_spec e o m Hc Hz) as (m' & -> & Hc' & Hz'). cbn [mbind option_bind]. rewrite Hl.
  apply IH. rewrite fmap_cons in Hn. apply NoDup_cons in Hn as [Hk Hn].
  apply StronglySorted_cons in Hsort as [_ Hsort]. split_and!; [|done..].
  rewrite Hs, fmap_cons, list_to_set_cons.
  apply (not_elem_of_list_to_set (C := gset string)) in Hk. set_solver.
Qed.

Lemma live_length now o : length (live now o) <= length o.
Proof. apply length_filter. Qed.

Lemma live_held now client o : (held_by client (live now o) <= held_by client o)%N.
Proof.
  induction o as [|e o IH]; [done|]. unfold live in *. rewrite filter_cons. destruct (decide _).
  - rewrite !held_by_cons. lia.
  - rewrite held_by_cons. lia.
Qed.

Lemma live_live t now o : (t <= now)%N -> live now (live t o) = live now o.
Proof.
  intros Ht. unfold live. rewrite list_filter_filter. apply list_filter_iff. intros e. lia.
Qed.

Lemma replay_key_inj ref nonce ref' nonce' :
  valid_nonce nonce = true -> valid_nonce nonce' = true ->
  replay_key ref nonce = replay_key ref' nonce' -> ref = ref' /\ nonce = nonce'.
Proof.
  intros Hv Hv' H. apply (f_equal srev) in H. unfold replay_key in H.
  assert (forall n, valid_nonce n = true -> has_char ":"%char (srev n) = false) as Hc.
  { intros n Hn. rewrite has_char_srev. unfold valid_nonce in Hn. split_andb.
    by apply (all_bytes_has_char is_nonce_byte). }
  rewrite !srev_sapp, !sapp_assoc in H. change (srev ":") with ":" in H.
  apply (f_equal (split_once ":"%char)) in H.
  change (":" +:+ srev ref) with (String ":" (srev ref)) in H.
  change (":" +:+ srev ref') with (String ":" (srev ref')) in H.
  rewrite !split_once_app in H by by apply Hc. injection H as Hn Hr.
  apply (f_equal srev) in Hn, Hr. rewrite !srev_involutive in *. done.
Qed.

(** The live entries are those of the recent log. *)
Lemma live_entries now log :
  live now (entry_of <$> log) = entry_of <$> filter (fun h => (now < req_now h + ACTION_NONCE_TTL)%N) log.
Proof. unfold live. by rewrite filter_list_fmap. Qed.

Lemma held_entries client l : held_by client (entry_of <$> l) = N.of_nat (length (filter (fun h => req_client h = client) l)).
Proof. unfold held_by. rewrite filter_list_fmap, length_fmap. done. Qed.

Lemma guard_ok_later t now g : (t <= now)%N -> guard_ok t g -> guard_ok now g.
Proof.
  intros Ht (Ha & Hf & Hl & Hh). split_and!; [apply Ha..| |done|done].
  eapply Forall_impl; [exact Hf|]. intros e He. cbn in He. lia.
Qed.

Lemma agree_size s o m : agree s o m -> size s = length o.
Proof. intros (-> & Hn & _). rewrite size_list_to_set by done. apply length_fmap. Qed.

Lemma agree_add s o m e :
  agree s o m -> nonce_key e ∉ s -> Forall (fun x => (expires x <= expires e)%N) o ->
  agree ({[nonce_key e]} ∪ s) (o ++ [e]) (<[nonce_client e := (default 0 (m !! nonce_client e) + 1)%N]> m).
Proof.
  intros (Hs & Hn & Hc & Hz & Hsort) Hk Hle. split_and!.
  - rewrite fmap_app, Hs, list_to_set_app_L. cbn [fmap list_fmap]. rewrite list_to_set_singleton_L. set_solver.
  - rewrite fmap_app. apply NoDup_app. split_and!; [done| |apply NoDup_singleton].
    intros x Hx. cbn. rewrite list_elem_of_singleton. intros ->.
    rewrite Hs in Hk. by apply not_elem_of_list_to_set in Hk.
  - intros client. rewrite held_by_app, held_by_cons. change (held_by client []) with 0%N.
    destruct (decide (client = nonce_client e)) as [->|Hne].
    + rewrite lookup_insert_eq, decide_True by done. cbn. rewrite Hc. lia.
    + rewrite lookup_insert_ne, decide_False by done. rewrite Hc. lia.
  - intros client n [[_ <-]|[_ H]]%lookup_insert_Some; [lia|by eapply Hz].
  - apply StronglySorted_app. split_and!; [|done|repeat constructor].
    intros x y Hx ->%list_elem_of_singleton. rewrite Forall_forall in Hle. by apply Hle.
Qed.

Lemma live_ok now g s' m' :
  guard_ok now g -> agree s' (live now (order g)) m' -> guard_ok now (mkGuard s' (live now (order g)) m').
Proof.
  intros (_ & Hf & Hl & Hh) Ha. split_and!; cbn; [done| | |].
  - rewrite Forall_forall in *. intros e [_ He]%list_elem_of_filter. by apply Hf.
  - pose proof (live_length now (order g)). lia.
  - intros client. pose proof (live_held now client (order g)). specialize (Hh client). lia.
Qed.

Lemma key_in_log now log r :
  Forall (fun h => valid_nonce (req_nonce h) = true) log -> valid_nonce (req_nonce r) = true ->
  replay_key (req_reference r) (req_nonce r) ∈ (list_to_set (nonce_key <$> live now (entry_of <$> log)) : gset string) <->
  Exists (fun h => req_reference h = req_reference r /\ req_nonce h = req_nonce r)
    (filter (fun h => (now < req_now h + ACTION_NONCE_TTL)%N) log).
Proof.
  intros Hv Hn. rewrite elem_of_list_to_set, live_entries, <- list_fmap_compose, list_elem_of_fmap, Exists_exists.
  rewrite Forall_forall in Hv. split.
  - intros (h & Hk & Hh). exists h. split; [done|]. apply list_elem_of_filter in Hh as [_ Hh].
    apply replay_key_inj in Hk as [-> ->]; [done|done|by apply Hv].
  - intros (h & Hh & Hr & Hk). exists h. split; [|done]. cbn. by rewrite Hr, Hk.
Qed.

(** The three checks of [consume], on the guard, are the specification's, on the
    log. *)
Lemma checks_agree s o m log r :
  agree s o m -> o = live (req_now r) (entry_of <$> log) ->
  Forall (fun h => valid_nonce (req_nonce h) = true) log -> valid_nonce (req_nonce r) = true ->
  spec_answer log r =
    if bool_decide (replay_key (req_reference r) (req_nonce r) ∈ s) then inr Replayed
    else if match m !! req_client r with Some held => (ACTION_NONCE_MAX_PER_CLIENT <=? held)%N | None => false end
    then inr ClientSaturated
    else if (ACTION_NONCE_MAX_ENTRIES <=? N.of_nat (size s))%N then inr Saturated else inl tt.
Proof.
  intros Ha -> Hv Hn. unfold spec_answer. rewrite Hn. cbn [negb].
  rewrite (agree_size _ _ _ Ha), live_entries, length_fmap. destruct Ha as (-> & _ & Hc & _ & _).
  rewrite (bool_decide_ext _ _ (key_in_log _ _ _ Hv Hn)).
  assert (match m !! req_client r with Some held => (ACTION_NONCE_MAX_PER_CLIENT <=? held)%N | None => false end
          = (ACTION_NONCE_MAX_PER_CLIENT <=? default 0 (m !! req_client r))%N) as ->.
  { by destruct (m !! req_client r). }
  by rewrite Hc, live_entries, held_entries.
Qed.

Lemma insert_ok now e s o m :
  guard_ok now (mkGuard s o m) -> expires e = (now + ACTION_NONCE_TTL)%N -> nonce_key e ∉ s ->
  match m !! nonce_client e with Some held => (ACTION_NONCE_MAX_PER_CLIENT <=? held)%N | None => false end = false ->
  (N.of_nat (size s) < ACTION_NONCE_MAX_ENTRIES)%N ->
  guard_ok now (mkGuard ({[nonce_key e]} ∪ s) (o ++ [e])
    (<[nonce_client e := (default 0 (m !! nonce_client e) + 1)%N]> m)).
Proof.
  intros (Ha & Hf & Hl & Hh) He Hk Hheld Hsize. cbn in Ha, Hf, Hl, Hh. split; [|split; [|split]]; cbn [seen order per_client].
  - apply agree_add; [done..|]. eapply Forall_impl; [exact Hf|]. intros x Hx. cbn in Hx. by rewrite He.
  - apply Forall_app. split; [done|]. constructor; [by rewrite He|done].
  - rewrite (agree_size _ _ _ Ha) in Hsize. rewrite length_app. cbn [length]. lia.
  - intros client. rewrite held_by_app, held_by_cons. change (held_by client []) with 0%N. specialize (Hh client).
    destruct (decide (nonce_client e = client)) as [<-|]; [|lia].
    destruct Ha as (_ & _ & Hc & _ & _). rewrite <- Hc in Hh |- *.
    destruct (m !! nonce_client e) as [held|]; cbn [default from_option id] in *; [apply N.leb_gt in Hheld; lia|].
    unfold ACTION_NONCE_MAX_PER_CLIENT, ACTION_NONCE_MAX_ENTRIES. vm_compute. done.
Qed.

Lemma submit_refines t log r g :
  refines t log g -> (t <= req_now r)%N ->
  exists g', submit r g = Some (spec_answer log r, g') /\
    refines (req_now r) (match spec_answer log r with inl _ => log ++ [r] | inr _ => log end) g'.
Proof.
  intros (Hok & Hv & t0 & Ht0 & Ho) Ht. unfold submit, consume.
  change (default "" (get_str (nonce_headers (req_nonce r)) "x-ruvyxa-action-nonce")) with (req_nonce r). cbv zeta.
  destruct (valid_nonce (req_nonce r)) eqn:Hn; cbn [negb].
  2: { unfold spec_answer. rewrite Hn. exists g. split; [done|]. split; [by eapply guard_ok_later|].
       split; [done|]. exists t0. split; [lia|done]. }
  apply (guard_ok_later _ (req_now r)) in Hok; [|done].
  destruct (sweep_spec (req_now r) _ _ _ (proj1 Hok)) as (s' & m' & -> & Ha). cbn [mbind option_bind seen order per_client].
  pose proof (live_ok _ _ _ _ Hok Ha) as Hok'. clear Hok.
  assert (live (req_now r) (order g) = live (req_now r) (entry_of <$> log)) as Hlive by (rewrite Ho, live_live; [done|lia]).
  set (o := live (req_now r) (order g)) in *. clearbody o. clear Ho g.
  rewrite (checks_agree _ _ _ _ _ Ha Hlive Hv Hn).
  assert (refines (req_now r) log (mkGuard s' o m')) as Hr by (split; [done|]; split; [done|]; exists (req_now r); by split).
  destruct (bool_decide_reflect (replay_key (req_reference r) (req_nonce r) ∈ s')) as [|Hk]; [by eexists|].
  destruct (match m' !! req_client r with Some held => _ | None => false end) eqn:Hheld; [by eexists|].
  destruct (N.leb_spec ACTION_NONCE_MAX_ENTRIES (N.of_nat (size s'))); [by eexists|].
  eexists. split; [done|]. split; [|split].
  - by apply (insert_ok (req_now r) (entry_of r) s' o m').
  - apply Forall_app. by split; [|constructor].
  - exists (req_now r). split; [done|]. cbn [order]. rewrite Hlive, fmap_app. unfold live. rewrite filter_app. f_equal.
    cbn [fmap list_fmap]. rewrite filter_cons_True; [done|]. cbn [entry_of expires]. unfold ACTION_NONCE_TTL, nanos_per_second. lia.
Qed.

Lemma submit_all_refines rs : forall t log g,
  refines t log g -> in_order t rs ->
  exists t' log' g', submit_all rs g = Some (spec_all log rs, g') /\ refines t' log' g'.
Proof.
  induction rs as [|r rs IH]; intros t log g Hr Ho; [by exists t, log, g|].
  destruct Ho as [Ht Ho]. destruct (submit_refines t log r g Hr Ht) as (g1 & Hs & Hr1).
  destruct (IH _ _ _ Hr1 Ho) as (t' & log' & g' & Hs' & Hr').
  exists t', log', g'. cbn [submit_all]. rewrite Hs. cbn [mbind option_bind]. rewrite Hs'. done.
Qed.

Lemma empty_refines : refines 0 [] empty_guard.
Proof.
  split; [|split; [done|by exists 0%N]].
  split; [|split; [done|split]]; [|vm_compute; done..].
  split; [done|]. split; [apply NoDup_nil_2|]. split; [done|]. split; [|constructor]. intros client n H. cbn in H. by rewrite lookup_empty in H.
Qed.

(** An accepted request is a TTL later than any logged one with its key. *)
Lemma spec_all_fresh rs : forall log t j r h,
  in_order t rs -> h ∈ log -> rs !! j = Some r -> spec_all log rs !! j = Some (inl tt) ->
  req_reference h = req_reference r -> req_nonce h = req_nonce r ->
  (req_now h + ACTION_NONCE_TTL <= req_now r)%N.
Proof.
  induction rs as [|r0 rs IH]; intros log t j r h Ho Hh Hr Ha H1 H2; [done|].
  destruct Ho as [_ Ho].
  destruct j as [|j]; cbn [lookup list_lookup spec_all] in Hr, Ha.
  - injection Hr as ->. injection Ha as Ha. unfold spec_answer in Ha.
    destruct (negb _); [done|]. destruct (bool_decide_reflect (Exists (fun h => req_reference h = req_reference r /\
      req_nonce h = req_nonce r) (filter (fun h => (req_now r < req_now h + ACTION_NONCE_TTL)%N) log))) as [|Hn]; [done|].
    apply N.le_ngt. intros Hlt. apply Hn, Exists_exists. exists h. split; [|done]. by apply list_elem_of_filter.
  - eapply (IH _ _ j r h Ho); [|done|exact Ha|done|done].
    destruct (spec_answer log r0); [|done]. apply elem_of_app. by left.
Qed.

Lemma spec_all_separated rs : forall log t i j ri rj,
  in_order t rs -> i < j -> rs !! i = Some ri -> rs !! j = Some rj ->
  spec_all log rs !! i = Some (inl tt) -> spec_all log rs !! j = Some (inl tt) ->
  req_reference ri = req_reference rj -> req_nonce ri = req_nonce rj ->
  (req_now ri + ACTION_NONCE_TTL <= req_now rj)%N.
Proof.
  induction rs as [|r0 rs IH]; intros log t i j ri rj Ho Hij Hri Hrj Hai Haj H1 H2; [done|].
  destruct Ho as [_ Ho].
  destruct j as [|j]; [lia|]. cbn [lookup list_lookup spec_all] in Hrj, Haj. destruct i as [|i].
  - injection Hri as ->. cbn in Hai. injection Hai as Hai. rewrite Hai in Haj.
    eapply spec_all_fresh; [exact Ho| |exact Hrj|exact Haj|done|done]. apply elem_of_app. right. by apply list_elem_of_singleton.
  - eapply (IH _ _ i j ri rj Ho); [lia|exact Hri|exact Hrj|exact Hai|exact Haj|done|done].
Qed.

(** ** Theorems: the replay guard *)

(** C7: for requests that arrive in clock order, [consume] answers exactly as the
    specification that keeps the log of accepted requests: 400 for a nonce of
    the wrong form, 409 when an accepted request of the last 600 seconds has
    the same action and nonce, 429 when the client has 1,000 of them, 503 when
    there are 10,000, and acceptance otherwise.  No counter underflows, the set,
    the queue and the per-client counts hold the same entries, and the bounds
    on both pools hold after every run. *)
Theorem replay_guard_refines_log rs :
  in_order 0 rs ->
  exists g now, submit_all rs empty_guard = Some (spec_all [] rs, g) /\ guard_ok now g.
Proof.
  intros Ho. destruct (submit_all_refines rs 0 [] empty_guard empty_refines Ho) as (t & log & g & Hs & Hok & _).
  by exists g, t.
Qed.

Lemma replay_guard_witness :
  spec_all [] demo_requests = [inl tt; inr Replayed; inr InvalidNonce; inl tt] /\
  exists g now, submit_all demo_requests empty_guard = Some (spec_all [] demo_requests, g) /\ guard_ok now g.
Proof.
  split; [vm_compute; reflexivity|]. apply (replay_guard_refines_log demo_requests).
  cbn [in_order demo_requests req_now]. repeat split; vm_compute; discriminate.
Defined.

(** An accepted action request cannot be replayed for 600 seconds: of two
    accepted requests with the same action and nonce, the later arrives at
    least the TTL after the earlier, whichever clients sent them and whatever
    was sent in between. *)
Theorem no_replay_within_ttl rs answers g i j ri rj :
  in_order 0 rs -> submit_all rs empty_guard = Some (answers, g) -> i < j ->
  rs !! i = Some ri -> rs !! j = Some rj -> answers !! i = Some (inl tt) -> answers !! j = Some (inl tt) ->
  req_reference ri = req_reference rj -> req_nonce ri = req_nonce rj ->
  (req_now ri + ACTION_NONCE_TTL <= req_now rj)%N.
Proof.
  intros Ho Hs. destruct (submit_all_refines rs 0 [] empty_guard empty_refines Ho) as (t & log & g' & Hs' & _).
  rewrite Hs in Hs'. injection Hs' as -> _. by apply spec_all_separated with (t := 0%N).
Qed.

Lemma no_replay_witness :
  (5 + ACTION_NONCE_TTL <= 5 + ACTION_NONCE_TTL)%N.
Proof.
  assert (is_Some (submit_all demo_requests empty_guard)) as [[answers g] Hs].
  { vm_compute. eexists. reflexivity. }
  apply (no_replay_within_ttl demo_requests answers g 0 3 (mkRequest 5 nonce_a "a_1" peer_a)
    (mkRequest (5 + ACTION_NONCE_TTL) nonce_a "a_1" peer_b)); [|exact Hs|lia|reflexivity|reflexivity| | |reflexivity|reflexivity].
  - cbn [in_order demo_requests req_now]. repeat split; vm_compute; discriminate.
  - vm_compute in Hs. injection Hs as <- _. reflexivity.
  - vm_compute in Hs. injection Hs as <- _. reflexivity.
Defined.

(** ** Theorems: what is admitted *)

Lemma split_scheme_Some s l r : split_scheme s = Some (l, r) -> s = l +:+ "://" +:+ r /\ split_scheme l = None.
Proof.
  revert l r. induction s as [|a s IH]; intros l r; cbn [split_scheme].
  { by destruct (strip_prefix _ _) as [x|] eqn:E; [apply strip_prefix_Some in E|]. }
  destruct (strip_prefix "://" (String a s)) as [x|] eqn:E.
  { intros [= <- <-]. apply strip_prefix_Some in E. by rewrite E. }
  destruct (split_scheme s) as [[l' r']|] eqn:E'; [|done]. intros [= <- <-].
  destruct (IH _ _ eq_refl) as [-> Hl]. split; [done|]. cbn [split_scheme fst]. rewrite Hl.
  destruct (strip_prefix "://" (String a l')) as [y|] eqn:Ey; [|done].
  apply strip_prefix_Some in Ey. change (String a (l' +:+ "://" +:+ r')) with (String a l' +:+ "://" +:+ r') in E.
  by rewrite Ey, sapp_assoc, strip_prefix_app in E.
Qed.

Lemma split_scheme_app l r : split_scheme l = None -> split_scheme (l +:+ "://" +:+ r) = Some (l, r).
Proof.
  induction l as [|a l IH]; intros Hl.
  { change (split_scheme (String ":" (String "/" (String "/" r))) = Some ("", r)). cbn [split_scheme].
    change (String ":" (String "/" (String "/" r))) with ("://" +:+ r). by rewrite strip_prefix_app. }
  cbn [split_scheme] in Hl. destruct (strip_prefix "://" (String a l)) eqn:E; [done|].
  destruct (split_scheme l) as [|] eqn:E'; [done|]. change (String a l +:+ "://" +:+ r) with (String a (l +:+ "://" +:+ r)).
  cbn [split_scheme]. rewrite (IH eq_refl).
  destruct (strip_prefix "://" (String a (l +:+ "://" +:+ r))) eqn:E2; [|done].
  apply strip_prefix_Some in E2. exfalso. destruct l as [|b [|c l]]; [discriminate..|].
  injection E2 as -> -> -> _. change (String ":" (String "/" (String "/" l))) with ("://" +:+ l) in E.
  by rewrite strip_prefix_app in E.
Qed.

Lemma non_empty_Some v s : non_empty v = Some s <-> v = Some s /\ s ≠ "".
Proof. destruct v as [[|a t]|]; cbn; naive_solver. Qed.

Lemma origin_is_cross_site_false headers trusted_scheme :
  origin_is_cross_site headers trusted_scheme = false <-> own_origin headers trusted_scheme.
Proof.
  unfold origin_is_cross_site, own_origin. destruct (non_empty (get_str headers "origin")) as [origin|] eqn:Eo.
  2: { rewrite negb_false_iff. split.
       - intros H. left. split; [done|]. destruct (get_str headers "sec-fetch-site") as [site|]; [by exists site|done].
       - intros [[_ (site & -> & H)]|(s & h & host & Ho & _)]; [done|].
         assert (non_empty (get_str headers "origin") = Some (s +:+ "://" +:+ h)); [|congruence].
         apply non_empty_Some. split; [done|]. by destruct s. }
  apply non_empty_Some in Eo as [Eo Hne]. split.
  - destruct (non_empty (get_str headers "host")) as [host|] eqn:Eh; [|done].
    apply non_empty_Some in Eh as [Eh Hh]. destruct (split_scheme origin) as [[scheme h]|] eqn:Es; [|done].
    apply split_scheme_Some in Es as [-> Hs].
    destruct (has_char "/"%char h) eqn:Hc, (is_empty_str h) eqn:He; cbn [orb]; [done..|].
    destruct (eq_ignore_case h host) eqn:Hi; cbn [negb]; [|done]. intros Ht. right.
    exists scheme, h, host. split_and!; [done..|by intros ->|done|done|].
    intros t ->. by apply negb_false_iff in Ht.
  - intros [[H _]|(s & h & host & Ho & Hs & Hc & Hn & Hh & Hi & Ht)].
    { done. }
    assert (origin = s +:+ "://" +:+ h) as -> by congruence. clear Eo. rewrite Hh.
    assert (non_empty (Some host) = Some host) as ->.
    { apply non_empty_Some. split; [done|]. intros ->. by destruct h. }
    rewrite split_scheme_app by done. rewrite Hc, Hi.
    assert (is_empty_str h = false) as -> by by destruct h. cbn [orb negb].
    destruct trusted_scheme as [t|]; [|done]. by rewrite (Ht t eq_refl).
Qed.

(** Exactly which action requests are admitted: the body is within the
    limit, the content type is JSON or a form, with the origin check on the
    request names its own origin (a same-origin fetch when no [Origin] is sent,
    else an origin whose host is the [Host] header, its scheme the one a trusted
    proxy states, when one does), and with the fetch-metadata check on the
    browser does not report a cross-site fetch. *)
Theorem action_request_admitted_iff checks proxies headers body_len config peer scheme :
  forwarded_scheme checks proxies headers peer = Some scheme ->
  validate_action_request checks proxies headers body_len config peer = Some None <->
  ((body_len <= action_body_limit_bytes config)%N /\ is_Some (action_content_type headers) /\
   (same_origin_actions config = true -> own_origin headers scheme) /\
   (fetch_metadata_actions config = true -> action_fetch_site_is_cross_site headers = false)).
Proof.
  intros Hf. unfold validate_action_request, action_content_type_is_supported, action_origin_is_cross_site.
  rewrite Hf. cbn [mbind option_bind]. rewrite <- origin_is_cross_site_false.
  destruct (N.ltb_spec (action_body_limit_bytes config) body_len); [by split; [|lia]|].
  destruct (bool_decide_reflect (is_Some (action_content_type headers))); cbn [negb]; [|naive_solver].
  destruct (same_origin_actions config), (fetch_metadata_actions config); cbn [mbind option_bind andb];
    destruct (origin_is_cross_site headers scheme), (action_fetch_site_is_cross_site headers); naive_solver.
Qed.

Lemma action_request_admitted_witness :
  validate_action_request true []
    (headers_of [("content-type", "application/json; charset=utf-8"); ("origin", "https://Example.com");
                 ("host", "example.com"); ("x-forwarded-proto", "http"); ("x-forwarded-proto", "https")])
    10 (mkConfig 100 true true) (V4 2130706433) = Some None.
Proof.
  apply (action_request_admitted_iff true [] _ 10 (mkConfig 100 true true) (V4 2130706433) (Some "https"));
    [vm_compute; reflexivity|].
  split; [vm_compute; discriminate|]. split; [vm_compute; eexists; reflexivity|]. split; [|intros _; reflexivity].
  intros _. right. exists "https", "Example.com", "example.com".
  do 6 (split; [try reflexivity; discriminate|]). intros trusted [= <-]. reflexivity.
Defined.

(** The identifier of the repository's contract fixture. *)
Example action_reference_fixture :
  action_reference_id "route_todos" ("export const create = 1" +:+ String "010" "") = "a_4ec84a2fc14e2577".
Proof. vm_compute. reflexivity. Qed.
