(* ===== verification/SourceMap.v ===== *)
(** Source maps (crates/ruvyxa_bundler/src/sourcemap.rs): the Base64-VLQ codec, the
    builder with its export and its import of another map, the decoder, and the
    shift of a finished map.

    Paths are read as on Unix.  JSON text is the business of serde_json: the
    parsers and printers are parameters.  [checks] says whether arithmetic
    overflow panics (debug) or wraps (release). *)
From S2P Require Import Prelude RustStr Order Manifest.

(** ** Definitions *)

(** *** Outcomes and machine arithmetic *)

(** What a fallible loop ends in: a value, [return false], or a panic. *)
Inductive Run (A : Type) := Go (a : A) | Refused | Panicked.
Arguments Go {A}.
Arguments Refused {A}.
Arguments Panicked {A}.

Definition run_bind {A B} (r : Run A) (f : A -> Run B) : Run B :=
  match r with Go a => f a | Refused => Refused | Panicked => Panicked end.
Notation "x <- r ;; k" := (run_bind r (fun x => k)) (at level 100, r at next level, right associativity).

Definition two64 : Z := 18446744073709551616.

(** A mathematical integer as the [i64] with its bits. *)
Definition wrap_i64 (z : Z) : Z := (z + 9223372036854775808) mod two64 - 9223372036854775808.

(** [a + b] on [i64] *)
Definition add_i64 (checks : bool) (a b : Z) : Run Z :=
  if (wrap_i64 (a + b) =? a + b)%Z then Go (a + b)%Z
  else if checks then Panicked else Go (wrap_i64 (a + b)).

(** [n as u32], [n] not negative *)
Definition as_u32 (n : N) : N := n mod (u32_max + 1).

(** [a + b] on [u32] *)
Definition add_u32 (checks : bool) (a b : N) : Run N :=
  if (a + b <=? u32_max)%N then Go (a + b)%N else if checks then Panicked else Go (as_u32 (a + b)).

(** *** Base64-VLQ *)

Definition BASE64_CHARS : string := "ABCDEFGHIJKLMNOPQRSTUVWXYZabcdefghijklmnopqrstuvwxyz0123456789+/".

(** [BASE64_CHARS[digit as usize] as char]; a digit has six bits. *)
Definition base64_char (digit : N) : ascii := default "A"%char (String.get (N.to_nat digit) BASE64_CHARS).

Fixpoint position_from (i : N) (byte : ascii) (s : string) : option N :=
  match s with
  | "" => None
  | String a s' => if Ascii.eqb a byte then Some i else position_from (i + 1) byte s'
  end.

(** [BASE64_CHARS.iter().position(..)] *)
Definition base64_position (byte : ascii) : option N := position_from 0 byte BASE64_CHARS.

(** The sign in the lowest bit.  [-value] overflows at [i64::MIN] alone, which
    no difference of two [u32]s is. *)
Definition vlq_of (value : Z) : N :=
  Z.to_N ((if (value <? 0)%Z then Z.lor (Z.shiftl (- value) 1) 1 else Z.shiftl value 1) mod two64).

(** The loop of [vlq_encode]; thirteen digits of five bits hold a [u64]. *)
Fixpoint vlq_digits (fuel : nat) (vlq : N) : string :=
  match fuel with
  | O => ""
  | S fuel' =>
      let digit := N.land vlq 31 in
      let vlq := N.shiftr vlq 5 in
      let digit := if (0 <? vlq)%N then N.lor digit 32 else digit in
      String (base64_char digit) (if (vlq =? 0)%N then "" else vlq_digits fuel' vlq)
  end.

(** [vlq_encode]: the text it appends. *)
Definition vlq_encode (value : Z) : string := vlq_digits 13 (vlq_of value).

(** The loop of [decode_vlq_segment]. *)
Fixpoint decode_loop (segment : string) (value shift : N) (values : list Z) : option (list Z) :=
  match segment with
  | "" => if (shift =? 0)%N then Some values else None
  | String byte rest =>
      digit ← base64_position byte;
      let value := N.lor value (N.shiftl (N.land digit 31) shift mod (u64_max + 1)) in
      if (N.land digit 32 =? 0)%N then
        let magnitude := Z.of_N (N.shiftr value 1) in
        decode_loop rest 0 0 (values ++ [if (N.land value 1 =? 1)%N then (- magnitude)%Z else magnitude])
      else
        let shift := (shift + 5)%N in
        if (60 <? shift)%N then None else decode_loop rest value shift values
  end.

(** [decode_vlq_segment] *)
Definition decode_vlq_segment (segment : string) : option (list Z) := decode_loop segment 0 0 [].

(** *** Source paths *)

(** How a path begins: at the root, in the current directory, or with a name. *)
Inductive PathHead := HRoot | HCur | HName.
#[export] Instance PathHead_eq_dec : EqDecision PathHead.
Proof. solve_decision. Defined.

Definition path_head (s : string) : PathHead :=
  if starts_with "/" s then HRoot
  else if String.eqb s "." || starts_with "./" s then HCur else HName.

Definition drop_first (s : string) : string := match s with "" => "" | String _ s' => s' end.

(** What follows the head. *)
Definition path_body (s : string) : string :=
  match path_head s with HName => s | _ => drop_first s end.

Definition is_name (piece : string) : bool := negb (is_empty_str piece) && negb (String.eqb piece ".").

Definition body_names (body : string) : list string := filter (fun p => is_name p = true) (split_char "/" body).

Definition split_first (s : string) : string * string := default (s, "") (split_once "/" s).

(** [Components::trim_left]: [fuel] bounds the separators and dots removed. *)
Fixpoint trim_left (fuel : nat) (body : string) : string :=
  match body, fuel with
  | "", _ | _, O => body
  | _, S fuel' => let '(piece, rest) := split_first body in
                  if is_name piece then body else trim_left fuel' rest
  end.

Definition trim_front (body : string) : string := trim_left (String.length body) body.
Definition trim_back (body : string) : string := srev (trim_front (srev body)).

(** Step over the names of the prefix. *)
Fixpoint skip_names (names : list string) (body : string) : option string :=
  match names with
  | [] => Some body
  | n :: names' =>
      let '(piece, rest) := split_first (trim_front body) in
      if negb (is_empty_str piece) && String.eqb piece n then skip_names names' rest else None
  end.

(** [path.strip_prefix(base)] *)
Definition path_strip_prefix (base path : string) : option string :=
  if is_empty_str base then
    let body := path_body path in
    Some (String.substring 0 (String.length path - String.length body) path +:+ trim_back body)
  else if decide (path_head base = path_head path) then
    (fun rest => trim_back (trim_front rest)) <$> skip_names (body_names (path_body base)) (path_body path)
  else None.

(** [base.join(path)], [base] not empty *)
Definition path_join (base path : string) : string :=
  if starts_with "/" path then path
  else if ends_with "/" base then base +:+ path else base +:+ "/" +:+ path.

Definition slashes (s : string) : string :=
  map_bytes (fun a => if Ascii.eqb a "\" then "/"%char else a) s.

(** *** The builder *)

Record Mapping := mkMapping {
  gen_line : N;
  gen_col : N;
  source_idx : N;
  orig_line : N;
  orig_col : N;
}.

Record SourceMapBuilder := mkBuilder {
  map_file : string;
  sources : list string;
  sources_content : list (option string);
  mappings : list Mapping;
  source_root : string;
  names : list string;
  ignore_list : list N;
}.

(** [SourceMapBuilder::new] *)
Definition new_builder (file root : string) : SourceMapBuilder := mkBuilder file [] [] [] root [] [].

(** [add_to_ignore_list] *)
Definition add_to_ignore_list (idx : N) (b : SourceMapBuilder) : SourceMapBuilder :=
  if bool_decide (idx ∈ ignore_list b) then b
  else mkBuilder (map_file b) (sources b) (sources_content b) (mappings b) (source_root b) (names b)
         (ignore_list b ++ [idx]).

(** The name a source is registered under. *)
Definition relative_source (root path : string) : string :=
  slashes (default path (path_strip_prefix root path)).

(** [self.sources.iter().position(..)] *)
Fixpoint index_of (s : string) (l : list string) : option nat :=
  match l with
  | [] => None
  | x :: l' => if String.eqb x s then Some O else S <$> index_of s l'
  end.

(** [add_source] *)
Definition add_source (path : string) (content : option string) (b : SourceMapBuilder) : N * SourceMapBuilder :=
  let relative := relative_source (source_root b) path in
  match index_of relative (sources b) with
  | Some idx => (as_u32 (N.of_nat idx), b)
  | None =>
      (as_u32 (N.of_nat (length (sources b))),
       mkBuilder (map_file b) (sources b ++ [relative]) (sources_content b ++ [content]) (mappings b)
         (source_root b) (names b) (ignore_list b))
  end.

Definition with_mappings (ms : list Mapping) (b : SourceMapBuilder) : SourceMapBuilder :=
  mkBuilder (map_file b) (sources b) (sources_content b) ms (source_root b) (names b) (ignore_list b).

(** [add_mapping] *)
Definition add_mapping (m : Mapping) (b : SourceMapBuilder) : SourceMapBuilder :=
  with_mappings (mappings b ++ [m]) b.

(** *** Reading the [mappings] field *)

Section segments.
(** What is done with one segment, given its line: from the column and the
    state before to those after. *)
Context {St : Type} (segment : N -> string -> Z * St -> Run (Z * St)).

(** [for segment in line.split(',').filter(|segment| !segment.is_empty())] *)
Fixpoint for_segments (line : N) (pieces : list string) (cs : Z * St) : Run (Z * St) :=
  match pieces with
  | [] => Go cs
  | p :: rest =>
      if is_empty_str p then for_segments line rest cs
      else cs <- segment line p cs ;; for_segments line rest cs
  end.

(** [for (line, text) in mappings.split(';').enumerate()]; [column] is where the
    first line starts. *)
Fixpoint for_lines (line : N) (lines : list string) (column : Z) (s : St) : Run St :=
  match lines with
  | [] => Go s
  | l :: rest =>
      cs <- for_segments line (split_char "," l) (column, s) ;; for_lines (line + 1) rest 0 cs.2
  end.
End segments.

(** *** Importing a map *)

Record InputSourceMap := mkInput {
  in_version : N;
  in_source_root : string;
  in_sources : list string;
  in_sources_content : list (option string);
  in_mappings : string;
}.

Record ImportState := mkImport {
  previous_source : Z;
  previous_original_line : Z;
  previous_original_column : Z;
  imported : list Mapping;
}.

(** The [map] that registers the sources of the document. *)
Fixpoint add_sources (root : string) (paths : list string) (contents : list (option string)) (b : SourceMapBuilder)
    : list N * SourceMapBuilder :=
  match paths with
  | [] => ([], b)
  | p :: rest =>
      let path := if is_empty_str root then p else path_join root p in
      let '(idx, b) := add_source path (default None (head contents)) b in
      let '(ids, b) := add_sources root rest (tail contents) b in
      (idx :: ids, b)
  end.

(** The body of the import's inner loop. *)
Definition import_segment (checks : bool) (offset : N) (source_indices : list N) (generated_line : N) (segment : string)
    (cs : Z * ImportState) : Run (Z * ImportState) :=
  let '(generated_column, s) := cs in
  match decode_vlq_segment segment with
  | None => Refused
  | Some (f0 :: f1 :: f2 :: f3 :: _) =>
      generated_column <- add_i64 checks generated_column f0 ;;
      source <- add_i64 checks (previous_source s) f1 ;;
      line <- add_i64 checks (previous_original_line s) f2 ;;
      column <- add_i64 checks (previous_original_column s) f3 ;;
      if (generated_column <? 0)%Z || (source <? 0)%Z || (line <? 0)%Z || (column <? 0)%Z then Refused
      else match source_indices !! Z.to_nat source with
           | None => Refused
           | Some idx =>
               gen_line <- add_u32 checks offset (as_u32 generated_line) ;;
               Go (generated_column, mkImport source line column (imported s ++
                 [mkMapping gen_line (as_u32 (Z.to_N generated_column)) idx (as_u32 (Z.to_N line)) (as_u32 (Z.to_N column))]))
           end
  | Some _ => Go cs
  end.

(** [add_source_map_inner] on the parsed document *)
Definition import_document (checks : bool) (doc : InputSourceMap) (offset : N) (b : SourceMapBuilder) : Run SourceMapBuilder :=
  if negb (in_version doc =? 3)%N || bool_decide (in_sources doc = []) then Refused
  else
    let '(source_indices, b) := add_sources (in_source_root doc) (in_sources doc) (in_sources_content doc) b in
    s <- for_lines (import_segment checks offset source_indices) 0 (split_char ";" (in_mappings doc)) 0
           (mkImport 0 0 0 []) ;;
    if bool_decide (imported s = []) then Refused else Go (with_mappings (mappings b ++ imported s) b).

(** [add_source_map], [parse] being the JSON reader: [None] is a panic. *)
Definition add_source_map (checks : bool) (parse : string -> option InputSourceMap) (json : string) (offset : N)
    (b : SourceMapBuilder) : option (bool * SourceMapBuilder) :=
  match parse json with
  | None => Some (false, b)
  | Some doc => match import_document checks doc offset b with
                | Go candidate => Some (true, candidate)
                | Refused => Some (false, b)
                | Panicked => None
                end
  end.

(** *** Exporting *)

Record EncodeState := mkEncode {
  prev_gen_line : N;
  prev_gen_col : Z;
  prev_source : Z;
  prev_orig_line : Z;
  prev_orig_col : Z;
  first_segment_on_line : bool;
}.

(** The four fields of one segment. *)
Definition segment_text (e : EncodeState) (m : Mapping) : string :=
  vlq_encode (Z.of_N (gen_col m) - prev_gen_col e) +:+ vlq_encode (Z.of_N (source_idx m) - prev_source e) +:+
  vlq_encode (Z.of_N (orig_line m) - prev_orig_line e) +:+ vlq_encode (Z.of_N (orig_col m) - prev_orig_col e).

(** [while prev_gen_line < mapping.gen_line]: the separators and the state. *)
Definition next_lines (e : EncodeState) (m : Mapping) : string * EncodeState :=
  if (prev_gen_line e <? gen_line m)%N then
    (repeat_str (N.to_nat (gen_line m - prev_gen_line e)) ";",
     mkEncode (gen_line m) 0 (prev_source e) (prev_orig_line e) (prev_orig_col e) true)
  else ("", e).

Definition after_segment (e : EncodeState) (m : Mapping) : EncodeState :=
  mkEncode (prev_gen_line e) (Z.of_N (gen_col m)) (Z.of_N (source_idx m)) (Z.of_N (orig_line m)) (Z.of_N (orig_col m)) false.

(** The loop over the sorted mappings. *)
Fixpoint encode_loop (e : EncodeState) (ms : list Mapping) : string :=
  match ms with
  | [] => ""
  | m :: rest =>
      let '(gap, e) := next_lines e m in
      gap +:+ (if first_segment_on_line e then "" else ",") +:+ segment_text e m +:+ encode_loop (after_segment e m) rest
  end.

Definition position_cmp : Mapping -> Mapping -> comparison :=
  lex_cmp (by_key gen_line N.compare) (by_key gen_col N.compare).

Definition encode_start : EncodeState := mkEncode 0 0 0 0 0 true.

(** [encode_mappings] *)
Definition encode_mappings (b : SourceMapBuilder) : string :=
  if bool_decide (mappings b = []) then "" else encode_loop encode_start (sort_by position_cmp (mappings b)).

Record SourceMapJson := mkJson {
  js_version : N;
  js_file : string;
  js_source_root : string;
  js_sources : list string;
  js_sources_content : list (option string);
  js_names : list string;
  js_mappings : string;
  x_google_ignore_list : option (list N);
}.

(** [to_json], up to the JSON text. *)
Definition json_document (b : SourceMapBuilder) : SourceMapJson :=
  mkJson 3 (map_file b) "" (sources b) (sources_content b) (names b) (encode_mappings b)
    (if bool_decide (ignore_list b = []) then None else Some (sort_by N.compare (ignore_list b))).

Definition to_json (print : SourceMapJson -> option string) (b : SourceMapBuilder) : string :=
  default "{}" (print (json_document b)).

(** *** Decoding and shifting a finished map *)

Record DecodedMapping := mkDecoded {
  generated_line : N;
  generated_column : N;
  dec_source : N;
  dec_original_line : N;
}.

Record DecodeState := mkDecode { dec_prev_source : Z; dec_prev_line : Z; decoded : list DecodedMapping }.

(** The body of the inner loop of [decode_mappings]; a failed [expect] panics. *)
Definition decode_segment (checks : bool) (line : N) (segment : string) (cs : Z * DecodeState) : Run (Z * DecodeState) :=
  let '(generated_column, s) := cs in
  match decode_vlq_segment segment with
  | None | Some [] => Panicked
  | Some (f0 :: fields) =>
      generated_column <- add_i64 checks generated_column f0 ;;
      match fields with
      | f1 :: f2 :: _ :: _ =>
          source <- add_i64 checks (dec_prev_source s) f1 ;;
          original_line <- add_i64 checks (dec_prev_line s) f2 ;;
          if (generated_column <? 0)%Z || (source <? 0)%Z || (original_line <? 0)%Z then Panicked
          else Go (generated_column, mkDecode source original_line (decoded s ++
                 [mkDecoded line (Z.to_N generated_column) (Z.to_N source) (Z.to_N original_line)]))
      | _ => Go (generated_column, s)
      end
  end.

(** [decode_mappings] *)
Definition decode_mappings (checks : bool) (text : string) : Run (list DecodedMapping) :=
  s <- for_lines (decode_segment checks) 0 (split_char ";" text) 0 (mkDecode 0 0 []) ;; Go (decoded s).

(** [document.get_mut("mappings")] and the assignment through it. *)
Fixpoint update_field (key : string) (f : Value -> option Value) (fields : list (string * Value))
    : option (list (string * Value)) :=
  match fields with
  | [] => None
  | (k, v) :: rest =>
      if String.eqb k key then (fun v' => (k, v') :: rest) <$> f v
      else (fun rest' => (k, v) :: rest') <$> update_field key f rest
  end.

(** What the shift does to the [mappings] field. *)
Definition shift_field (lines : nat) (v : Value) : option Value :=
  match v with VString s => Some (VString (repeat_str lines ";" +:+ s)) | _ => None end.

(** [shift_generated_lines], with the JSON reader and printer. *)
Definition shift_generated_lines (from_str : string -> option Value) (to_string : Value -> option string)
    (map_json : string) (lines : nat) : option string :=
  if (lines =? 0)%nat then Some map_json
  else
    document ← from_str map_json;
    match document with
    | VObject fields =>
        fields ← update_field "mappings" (shift_field lines) fields;
        to_string (VObject fields)
    | _ => None
    end.

(** *** What the fields of a segment mean *)

(** The integer an encoded word stands for. *)
Definition value_of (u : N) : Z :=
  if (N.land u 1 =? 1)%N then (- Z.of_N (N.shiftr u 1))%Z else Z.of_N (N.shiftr u 1).

Definition is_i64 (v : Z) : Prop := (-9223372036854775808 < v < 9223372036854775808)%Z.

(** A mapping whose fields are [u32]s and whose source is one of [n]. *)
Definition mapping_ok (n : nat) (m : Mapping) : Prop :=
  (gen_line m <= u32_max)%N /\ (gen_col m <= u32_max)%N /\ (source_idx m <= u32_max)%N /\
  (orig_line m <= u32_max)%N /\ (orig_col m <= u32_max)%N /\ N.to_nat (source_idx m) < n.

(** A builder as its operations leave it: distinct sources with a content each, and
    mappings into them. *)
Definition wf_builder (b : SourceMapBuilder) : Prop :=
  NoDup (sources b) /\ length (sources_content b) = length (sources b) /\
  (N.of_nat (length (sources b)) <= u32_max)%N /\ Forall (mapping_ok (length (sources b))) (mappings b).

Definition move_down (offset : N) (m : Mapping) : Mapping :=
  mkMapping (offset + gen_line m) (gen_col m) (source_idx m) (orig_line m) (orig_col m).

Definition decoded_of (offset : N) (m : Mapping) : DecodedMapping :=
  mkDecoded (offset + gen_line m) (gen_col m) (source_idx m) (orig_line m).

(** The exported document, as a reader sees it. *)
Definition document_of (b : SourceMapBuilder) : InputSourceMap :=
  mkInput 3 "" (sources b) (sources_content b) (encode_mappings b).

Definition field (key : string) (fields : list (string * Value)) : option Value :=
  find_map (fun kv => if String.eqb kv.1 key then Some kv.2 else None) fields.

(** Applying a function to the value of a run. *)
Definition run_map {A B} (f : A -> B) (r : Run A) : Run B := x <- r ;; Go (f x).

Definition shift_decoded (lines : nat) (d : DecodedMapping) : DecodedMapping :=
  mkDecoded (N.of_nat lines + generated_line d) (generated_column d) (dec_source d) (dec_original_line d).

Definition shift_state (lines : nat) (s : DecodeState) : DecodeState :=
  mkDecode (dec_prev_source s) (dec_prev_line s) (shift_decoded lines <$> decoded s).

(** The JSON printer writes [v], and the reader reads it back. *)
Definition reads_back (from_str : string -> option Value) (to_string : Value -> option string) (v : Value) : Prop :=
  exists t, to_string v = Some t /\ from_str t = Some v.

Definition demo_from_str (json : string) : option Value :=
  if String.eqb json "in" then Some (VObject [("version", VNumber "3"); ("mappings", VString "AAAA")])
  else Some (VObject [("version", VNumber "3"); ("mappings", VString ";;AAAA")]).

(** A line with a one-field segment, [before] columns in, and then a mapped one
    [after] columns further on. *)
Definition one_field_line (before after : Z) : string :=
  vlq_encode before +:+ "," +:+ join "" (vlq_encode <$> [after; 0; 0; 0]%Z).

(** A builder as the linker fills it, and a reader that answers its document. *)
Definition demo_builder : SourceMapBuilder :=
  add_mapping (mkMapping 2 4 1 7 3) (add_mapping (mkMapping 0 0 0 0 0) (add_mapping (mkMapping 2 1 0 9 0)
    (add_source "/p/src/b.ts" None (add_source "/p/src/a.ts" (Some "const a = 1") (new_builder "app.js" "/p")).2).2)).

(** The encoder's memory is within its types. *)
Definition encode_state_ok (e : EncodeState) : Prop :=
  (0 <= prev_source e <= Z.of_N u32_max)%Z /\ (0 <= prev_orig_line e <= Z.of_N u32_max)%Z /\
  (0 <= prev_orig_col e <= Z.of_N u32_max)%Z.

Definition decode_related (e : EncodeState) (s : DecodeState) : Prop :=
  encode_state_ok e /\ dec_prev_source s = prev_source e /\ dec_prev_line s = prev_orig_line e.

Definition decode_emit (offset : N) (s : DecodeState) (m : Mapping) : DecodeState :=
  mkDecode (Z.of_N (source_idx m)) (Z.of_N (orig_line m)) (decoded s ++ [decoded_of offset m]).

Definition import_related (e : EncodeState) (s : ImportState) : Prop :=
  encode_state_ok e /\ previous_source s = prev_source e /\ previous_original_line s = prev_orig_line e /\
  previous_original_column s = prev_orig_col e.

Definition import_emit (offset : N) (s : ImportState) (m : Mapping) : ImportState :=
  mkImport (Z.of_N (source_idx m)) (Z.of_N (orig_line m)) (Z.of_N (orig_col m)) (imported s ++ [move_down offset m]).

(** ** Lemmas: the codec *)

Lemma base64_position_char d : (d < 64)%N -> base64_position (base64_char d) = Some d.
Proof.
  intros Hd. assert (Forall (fun i => base64_position (base64_char i) = Some i) (N.of_nat <$> seq 0 64)) as H.
  { repeat constructor. }
  rewrite Forall_forall in H. apply H, list_elem_of_fmap. exists (N.to_nat d). split; [lia|]. apply elem_of_seq. lia.
Qed.

Lemma base64_not_separator d : base64_char d <> ","%char /\ base64_char d <> ";"%char.
Proof.
  unfold base64_char. destruct (String.get (N.to_nat d) BASE64_CHARS) as [a|] eqn:E; [|by split].
  assert (forall n s, all_bytes (fun a => negb (Ascii.eqb a ",") && negb (Ascii.eqb a ";")) s = true ->
            String.get n s = Some a -> a <> ","%char /\ a <> ";"%char) as H.
  { clear. intros n s. revert n. induction s as [|b s IH]; intros [|n] Hs; try done; cbn in Hs |- *; split_andb.
    - intros [= ->]. split; intros ->; done.
    - by apply IH. }
  by apply (H (N.to_nat d) BASE64_CHARS).
Qed.

Lemma lor_shifted v d s : (v < 2 ^ s)%N -> N.lor v (N.shiftl d s) = (v + d * 2 ^ s)%N.
Proof.
  intros Hv. assert (N.land v (N.shiftl d s) = 0%N) as Hl.
  { apply N.bits_inj. intros i. rewrite N.land_spec, N.bits_0. destruct (N.lt_ge_cases i s).
    - rewrite N.shiftl_spec_low by done. apply andb_false_r.
    - rewrite <- (N.mod_small v (2 ^ s)) by done. rewrite N.mod_pow2_bits_high by done. done. }
  rewrite <- N.lxor_lor, <- N.add_nocarry_lxor by done. by rewrite N.shiftl_mul_pow2.
Qed.

Lemma land_31 n : N.land n 31 = (n mod 32)%N.
Proof. change 31%N with (N.ones 5). by rewrite N.land_ones. Qed.

Lemma low_digit n : (n < 32)%N -> N.land (N.lor n 32) 31 = n /\ N.land (N.lor n 32) 32 = 32%N /\ N.land n 32 = 0%N /\ (N.lor n 32 < 64)%N.
Proof.
  intros Hn. assert (Forall (fun n => N.land (N.lor n 32) 31 = n /\ N.land (N.lor n 32) 32 = 32%N /\ N.land n 32 = 0%N /\
    (N.lor n 32 < 64)%N) (N.of_nat <$> seq 0 32)) as H.
  { repeat (constructor; [by vm_compute|]). constructor. }
  rewrite Forall_forall in H. apply H, list_elem_of_fmap. exists (N.to_nat n). split; [lia|]. apply elem_of_seq. lia.
Qed.

Lemma decode_step d v k values rest :
  (d < 64)%N -> (v < 2 ^ (5 * k))%N -> (v + N.land d 31 * 2 ^ (5 * k) <= u64_max)%N ->
  decode_loop (String (base64_char d) rest) v (5 * k) values =
    (let v' := (v + N.land d 31 * 2 ^ (5 * k))%N in
     if (N.land d 32 =? 0)%N then decode_loop rest 0 0 (values ++ [value_of v'])
     else if (60 <? 5 * k + 5)%N then None else decode_loop rest v' (5 * k + 5) values).
Proof.
  intros Hd Hv Hu. cbn [decode_loop]. rewrite base64_position_char by done. cbn [mbind option_bind].
  rewrite N.mod_small by (rewrite N.shiftl_mul_pow2; lia). rewrite lor_shifted by done. done.
Qed.

Lemma vlq_digits_S f n :
  vlq_digits (S f) n =
    String (base64_char (if (0 <? N.shiftr n 5)%N then N.lor (N.land n 31) 32 else N.land n 31))
      (if (N.shiftr n 5 =? 0)%N then "" else vlq_digits f (N.shiftr n 5)).
Proof. done. Qed.

Lemma decode_vlq_digits f : forall n v k values rest,
  (n < 32 ^ N.of_nat (S f))%N -> (v < 2 ^ (5 * k))%N -> (v + n * 2 ^ (5 * k) <= u64_max)%N ->
  decode_loop (vlq_digits (S f) n +:+ rest) v (5 * k) values = decode_loop rest 0 0 (values ++ [value_of (v + n * 2 ^ (5 * k))]).
Proof.
  induction f as [|f IH]; intros n v k values rest Hn Hv Hu.
  all: rewrite vlq_digits_S, land_31, N.shiftr_div_pow2; change (2 ^ 5)%N with 32%N.
  all: pose proof (N.div_mod n 32 ltac:(done)) as Hdm; pose proof (N.mod_lt n 32 ltac:(done)) as Hr;
    pose proof (low_digit (n mod 32) Hr) as (H1 & H2 & H3 & H4);
    set (q := (n / 32)%N) in *; set (r := (n mod 32)%N) in *; clearbody q r; subst n.
  all: assert (q = 0 \/ 0 < q)%N as [->|Hq] by lia.
  1,3: change (0 <? 0)%N with false; change (0 =? 0)%N with true; cbv beta zeta iota;
    rewrite N.mul_0_r, N.add_0_l in *;
    change (String (base64_char r) "" +:+ rest) with (String (base64_char r) rest);
    rewrite decode_step by (rewrite ?land_31, ?N.mod_small by done; lia);
    rewrite H3, land_31, N.mod_small by done; done.
  { cbn in Hn. lia. }
  apply N.ltb_lt in Hq as Hq'. rewrite Hq'. assert ((q =? 0)%N = false) as -> by (apply N.eqb_neq; lia). cbv beta zeta iota.
  match goal with |- context [String (base64_char ?d) ?w +:+ rest] =>
    change (String (base64_char d) w +:+ rest) with (String (base64_char d) (w +:+ rest)) end.
  rewrite decode_step; [|done|done|rewrite H1; nia]. rewrite H1, H2. change (32 =? 0)%N with false. cbv beta zeta iota.
  assert (2 ^ (5 * (k + 1)) = 32 * 2 ^ (5 * k))%N as Hp by (rewrite N.mul_add_distr_l, N.pow_add_r; lia).
  assert (5 * (k + 1) < 64)%N as Hk.
  { apply (N.pow_lt_mono_r_iff 2); [done|]. change (2 ^ 64)%N with (u64_max + 1)%N. nia. }
  destruct (N.ltb_spec 60 (5 * k + 5)); [lia|].
  replace (5 * k + 5)%N with (5 * (k + 1))%N by lia. rewrite IH.
  - do 4 f_equal. rewrite Hp. lia.
  - rewrite Nat2N.inj_succ, N.pow_succ_r' in Hn. lia.
  - rewrite Hp. nia.
  - rewrite Hp. nia.
Qed.

Lemma value_of_double n b :
  value_of (2 * n + (if b : bool then 1 else 0)) = if b then (- Z.of_N n)%Z else Z.of_N n.
Proof. by destruct n, b. Qed.

Lemma lor_shift_one m : (0 <= m)%Z -> Z.lor (Z.shiftl m 1) 1 = (2 * m + 1)%Z.
Proof. by destruct m. Qed.

Lemma value_of_vlq v : is_i64 v -> (vlq_of v <= u64_max)%N /\ value_of (vlq_of v) = v.
Proof.
  unfold is_i64, vlq_of, two64. intros Hv. destruct (Z.ltb_spec v 0).
  - rewrite lor_shift_one, Z.mod_small by lia. split; [unfold u64_max; lia|].
    replace (Z.to_N (2 * - v + 1)) with (2 * Z.to_N (- v) + 1)%N by lia.
    rewrite (value_of_double _ true). lia.
  - rewrite Z.shiftl_mul_pow2, Z.mod_small by lia. split; [unfold u64_max; lia|].
    replace (Z.to_N (v * 2 ^ 1)) with (2 * Z.to_N v + 0)%N by lia. rewrite (value_of_double _ false). lia.
Qed.

Lemma decode_vlq_encode v values rest :
  is_i64 v -> decode_loop (vlq_encode v +:+ rest) 0 0 values = decode_loop rest 0 0 (values ++ [v]).
Proof.
  intros Hv. destruct (value_of_vlq v Hv) as [Hu Hval]. unfold vlq_encode. change 0%N with (5 * 0)%N at 2.
  rewrite decode_vlq_digits.
  - rewrite N.mul_1_r, N.add_0_l, Hval. done.
  - eapply N.le_lt_trans; [exact Hu|]. done.
  - done.
  - change (5 * 0)%N with 0%N. lia.
Qed.

Lemma vlq_digits_plain c f n :
  (forall d, base64_char d <> c) -> has_char c (vlq_digits f n) = false.
Proof.
  intros Hc. revert n. induction f as [|f IH]; intros n; [done|]. rewrite vlq_digits_S. cbn [has_char].
  apply orb_false_iff. split; [by apply Ascii.eqb_neq|]. by destruct (N.shiftr n 5 =? 0)%N.
Qed.

Lemma decode_join values acc :
  Forall is_i64 values -> decode_loop (join "" (vlq_encode <$> values)) 0 0 acc = Some (acc ++ values).
Proof.
  intros Hv. revert acc. induction Hv as [|v values Hi Hv IH]; intros acc; [cbn; by rewrite app_nil_r|].
  replace (join "" (vlq_encode <$> v :: values)) with (vlq_encode v +:+ join "" (vlq_encode <$> values)).
  { rewrite decode_vlq_encode, IH, <- app_assoc by done. done. }
  destruct values; cbn [fmap list_fmap join]; by rewrite ?sapp_nil_r.
Qed.

Lemma join_plain c values : (forall d, base64_char d <> c) -> has_char c (join "" (vlq_encode <$> values)) = false.
Proof.
  intros Hc. induction values as [|v [|w values] IH]; [done|by apply vlq_digits_plain|].
  cbn [fmap list_fmap join] in *. rewrite !has_char_sapp, IH. unfold vlq_encode. by rewrite vlq_digits_plain.
Qed.

(** The Base64-VLQ codec round-trips: decoding the encodings of any run of
    [i64] values written one after another gives the values back, the least
    [i64] alone left out. *)
Theorem vlq_roundtrip values :
  Forall is_i64 values -> decode_vlq_segment (join "" (vlq_encode <$> values)) = Some values.
Proof. intros Hv. by apply (decode_join values []). Qed.

Lemma vlq_roundtrip_witness :
  decode_vlq_segment (join "" (vlq_encode <$> [0; -1; 16; 9223372036854775807; -9223372036854775807]%Z)) =
    Some [0; -1; 16; 9223372036854775807; -9223372036854775807]%Z.
Proof. apply (vlq_roundtrip [0; -1; 16; 9223372036854775807; -9223372036854775807]%Z). unfold is_i64. repeat constructor; lia. Defined.

(** ** Lemmas: reading back what was written *)

Lemma split_char_prepend c s t hd tl :
  has_char c s = false -> split_char c t = hd :: tl -> split_char c (s +:+ t) = (s +:+ hd) :: tl.
Proof.
  intros Hs Ht. induction s as [|a s IH]; [done|]. cbn [has_char] in Hs. apply orb_false_iff in Hs as [Ha Hs].
  change (split_char c (String a s +:+ t)) with (split_char c (String a (s +:+ t))). cbn [split_char].
  rewrite Ha, (IH Hs). done.
Qed.

Lemma split_char_repeat c k t :
  split_char c (repeat_str k (String c "") +:+ t) = replicate k "" ++ split_char c t.
Proof.
  induction k as [|k IH]; [done|]. cbn [repeat_str replicate app]. rewrite sapp_assoc.
  change (String c "" +:+ (repeat_str k (String c "") +:+ t)) with (String c (repeat_str k (String c "") +:+ t)).
  cbn [split_char]. rewrite Ascii.eqb_refl. by rewrite IH.
Qed.

Lemma segment_text_plain c e m : (forall d, base64_char d <> c) -> has_char c (segment_text e m) = false.
Proof. intros Hc. unfold segment_text, vlq_encode. by rewrite !has_char_sapp, !vlq_digits_plain. Qed.

Lemma segment_text_ne e m : is_empty_str (segment_text e m) = false.
Proof. done. Qed.

(** The text that follows a segment starts a new segment or a new line. *)
Lemma encode_loop_head e ms :
  first_segment_on_line e = false ->
  exists hd tl, split_char ";" (encode_loop e ms) = hd :: tl /\ (hd = "" \/ exists x, hd = String "," x).
Proof.
  intros He. destruct ms as [|m ms]; cbn [encode_loop]; [by exists "", []; split; [|left]|].
  unfold next_lines. destruct (N.ltb_spec (prev_gen_line e) (gen_line m)).
  - destruct (N.to_nat (gen_line m - prev_gen_line e)) as [|k] eqn:Ek; [lia|].
    rewrite split_char_repeat. cbn [replicate app]. do 2 eexists. split; [done|]. by left.
  - rewrite He. set (t := _ +:+ encode_loop _ _).
    change ("" +:+ ("," +:+ t)) with ("," +:+ t).
    destruct (split_char ";" t) as [|hd tl] eqn:E; [by apply split_char_ne in E|].
    exists ("," +:+ hd), tl. split; [by apply split_char_prepend|]. right. by exists hd.
Qed.

Section reading.
Context {St : Type} (segment : N -> string -> Z * St -> Run (Z * St)).
Context (ok : Mapping -> Prop) (related : EncodeState -> St -> Prop) (emit : St -> Mapping -> St).
Hypothesis related_line : forall e s line, related e s ->
  related (mkEncode line 0 (prev_source e) (prev_orig_line e) (prev_orig_col e) true) s.
Hypothesis segment_emits : forall e m s, ok m -> related e s -> (0 <= prev_gen_col e <= Z.of_N u32_max)%Z ->
  segment (gen_line m) (segment_text e m) (prev_gen_col e, s) = Go (Z.of_N (gen_col m), emit s m) /\
  related (after_segment e m) (emit s m).
Hypothesis ok_col : forall m, ok m -> (gen_col m <= u32_max)%N.

Lemma for_segments_step line piece hd cs :
  has_char "," piece = false -> is_empty_str piece = false -> (hd = "" \/ exists x, hd = String "," x) ->
  for_segments segment line (split_char "," (piece +:+ hd)) cs =
    (cs' <- segment line piece cs ;; for_segments segment line (split_char "," hd) cs').
Proof.
  intros Hp He [->|[x ->]].
  - rewrite sapp_nil_r, split_char_none by done. cbn [for_segments split_char is_empty_str]. by rewrite He.
  - rewrite split_char_app by done. cbn [for_segments split_char]. rewrite He, Ascii.eqb_refl. done.
Qed.

Lemma for_lines_gap line k lines col s :
  for_lines segment line (replicate (S k) "" ++ lines) col s = for_lines segment (line + N.of_nat (S k)) lines 0 s.
Proof.
  revert line col. induction k as [|k IH]; intros line col.
  - cbn [replicate app for_lines split_char for_segments is_empty_str run_bind snd]. f_equal; lia.
  - change (replicate (S (S k)) "" ++ lines) with ("" :: (replicate (S k) "" ++ lines)).
    cbn [for_lines split_char for_segments is_empty_str run_bind snd]. rewrite IH. f_equal; lia.
Qed.

(** One segment, then what follows it. *)
Lemma for_lines_segment e m ms s :
  ok m -> related e s -> (0 <= prev_gen_col e <= Z.of_N u32_max)%Z -> prev_gen_line e = gen_line m ->
  for_lines segment (gen_line m) (split_char ";" ((if first_segment_on_line e then "" else ",") +:+
    segment_text e m +:+ encode_loop (after_segment e m) ms)) (prev_gen_col e) s =
  for_lines segment (gen_line m) (split_char ";" (encode_loop (after_segment e m) ms)) (Z.of_N (gen_col m)) (emit s m).
Proof.
  intros Hok Hr Hc Hl. destruct (encode_loop_head (after_segment e m) ms eq_refl) as (hd & tl & Hsp & Hhd).
  destruct (segment_emits e m s Hok Hr Hc) as [Hseg _].
  rewrite (split_char_prepend _ _ _ (segment_text e m +:+ hd) tl).
  - rewrite Hsp. cbn [for_lines].
    assert (for_segments segment (gen_line m) (split_char "," ((if first_segment_on_line e then "" else ",") +:+
      segment_text e m +:+ hd)) (prev_gen_col e, s) =
      for_segments segment (gen_line m) (split_char "," (segment_text e m +:+ hd)) (prev_gen_col e, s)) as ->.
    { by destruct (first_segment_on_line e). }
    rewrite for_segments_step; [|by apply segment_text_plain; intros d; apply base64_not_separator|done|done].
    rewrite Hseg. done.
  - by destruct (first_segment_on_line e).
  - apply split_char_prepend; [|done]. by apply segment_text_plain; intros d; apply base64_not_separator.
Qed.

Lemma for_lines_encode ms : forall e s,
  Forall ok ms -> StronglySorted (fun a b => (gen_line a <= gen_line b)%N) ms ->
  Forall (fun m => (prev_gen_line e <= gen_line m)%N) ms -> related e s -> (0 <= prev_gen_col e <= Z.of_N u32_max)%Z ->
  for_lines segment (prev_gen_line e) (split_char ";" (encode_loop e ms)) (prev_gen_col e) s = Go (foldl emit s ms).
Proof.
  induction ms as [|m ms IH]; intros e s Hok Hs Hl Hr Hc.
  { cbn. done. }
  apply Forall_cons in Hok as [Hm Hok]. apply StronglySorted_cons in Hs as [Hle Hs]. apply Forall_cons in Hl as [Hl _].
  cbn [encode_loop foldl].
  assert (forall e2, prev_gen_line e2 = gen_line m -> related e2 s -> (0 <= prev_gen_col e2 <= Z.of_N u32_max)%Z ->
    for_lines segment (gen_line m) (split_char ";" ((if first_segment_on_line e2 then "" else ",") +:+
      segment_text e2 m +:+ encode_loop (after_segment e2 m) ms)) (prev_gen_col e2) s = Go (foldl emit (emit s m) ms)) as Hstep.
  { intros e2 H1 H2 H3. rewrite for_lines_segment by done.
    assert (gen_line m = prev_gen_line (after_segment e2 m)) as -> by done.
    change (Z.of_N (gen_col m)) with (prev_gen_col (after_segment e2 m)). apply IH; [done|done| | |].
    - cbn. by rewrite H1.
    - by apply segment_emits.
    - cbn [after_segment prev_gen_col]. pose proof (ok_col m Hm). lia. }
  unfold next_lines. destruct (N.ltb_spec (prev_gen_line e) (gen_line m)).
  - destruct (N.to_nat (gen_line m - prev_gen_line e)) as [|k] eqn:Ek; [lia|].
    rewrite split_char_repeat, for_lines_gap. replace (prev_gen_line e + N.of_nat (S k))%N with (gen_line m) by lia.
    apply (Hstep (mkEncode (gen_line m) 0 (prev_source e) (prev_orig_line e) (prev_orig_col e) true)); [done|by apply related_line|].
    cbn. lia.
  - assert (prev_gen_line e = gen_line m) as He by lia. rewrite He. by apply (Hstep e).
Qed.
End reading.

Lemma segment_fields e m n :
  mapping_ok n m -> encode_state_ok e -> (0 <= prev_gen_col e <= Z.of_N u32_max)%Z ->
  decode_vlq_segment (segment_text e m) =
    Some [(Z.of_N (gen_col m) - prev_gen_col e)%Z; (Z.of_N (source_idx m) - prev_source e)%Z;
          (Z.of_N (orig_line m) - prev_orig_line e)%Z; (Z.of_N (orig_col m) - prev_orig_col e)%Z].
Proof.
  intros (_ & H1 & H2 & H3 & H4 & _) (H5 & H6 & H7) H8. unfold decode_vlq_segment, segment_text, u32_max in *.
  rewrite !decode_vlq_encode by (unfold is_i64; lia). rewrite <- (sapp_nil_r (vlq_encode _)), decode_vlq_encode by (unfold is_i64; lia).
  done.
Qed.

Lemma add_i64_delta checks p x : (0 <= x <= Z.of_N u32_max)%Z -> add_i64 checks p (x - p) = Go x.
Proof.
  intros Hx. unfold add_i64, u32_max in *. replace (p + (x - p))%Z with x by lia.
  unfold wrap_i64, two64. rewrite Z.mod_small by lia. replace (x + 9223372036854775808 - 9223372036854775808)%Z with x by lia.
  by rewrite Z.eqb_refl.
Qed.

Lemma encode_state_after e m n : mapping_ok n m -> encode_state_ok (after_segment e m).
Proof. intros (_ & H1 & H2 & H3 & H4 & _). repeat split; cbn -[u32_max]; lia. Qed.

Lemma ltb_of_N n : (Z.of_N n <? 0)%Z = false.
Proof. apply Z.ltb_ge. lia. Qed.

Lemma decode_segment_emits checks n e m s :
  mapping_ok n m -> decode_related e s -> (0 <= prev_gen_col e <= Z.of_N u32_max)%Z ->
  decode_segment checks (gen_line m) (segment_text e m) (prev_gen_col e, s) = Go (Z.of_N (gen_col m), decode_emit 0 s m) /\
  decode_related (after_segment e m) (decode_emit 0 s m).
Proof.
  intros Hm (He & Hs & Hl) Hc. split; [|split; [by eapply encode_state_after|done]].
  unfold decode_segment. rewrite (segment_fields e m n) by done. pose proof Hm as (_ & H1 & H2 & H3 & _ & _).
  rewrite add_i64_delta by lia. cbn [run_bind]. rewrite Hs, add_i64_delta by lia. cbn [run_bind].
  rewrite Hl, add_i64_delta by lia. cbn [run_bind]. rewrite !ltb_of_N, !N2Z.id. done.
Qed.

Lemma import_segment_emits checks offset n e m s :
  mapping_ok n m /\ (offset + gen_line m <= u32_max)%N -> import_related e s -> (0 <= prev_gen_col e <= Z.of_N u32_max)%Z ->
  import_segment checks offset (N.of_nat <$> seq 0 n) (gen_line m) (segment_text e m) (prev_gen_col e, s) =
    Go (Z.of_N (gen_col m), import_emit offset s m) /\
  import_related (after_segment e m) (import_emit offset s m).
Proof.
  intros [Hm Ho] (He & Hs & Hl & Hco) Hc. split; [|split; [by eapply encode_state_after|done]].
  unfold import_segment. rewrite (segment_fields e m n) by done. pose proof Hm as (H0 & H1 & H2 & H3 & H4 & H5).
  rewrite add_i64_delta by lia. cbn [run_bind]. rewrite Hs, add_i64_delta by lia. cbn [run_bind].
  rewrite Hl, add_i64_delta by lia. cbn [run_bind]. rewrite Hco, add_i64_delta by lia. cbn [run_bind].
  assert (Z.to_nat (Z.of_N (source_idx m)) = N.to_nat (source_idx m)) as -> by lia.
  rewrite !ltb_of_N, list_lookup_fmap, lookup_seq_lt by done. cbn [orb fmap option_fmap option_map].
  assert (forall k, (k <= u32_max)%N -> as_u32 k = k) as Hu by (intros k Hk; apply N.mod_small; lia).
  rewrite (Hu (gen_line m)) by done. unfold add_u32. assert ((offset + gen_line m <=? u32_max)%N = true) as -> by (by apply N.leb_le).
  cbn [run_bind]. rewrite !N2Z.id, !Hu, Nat.add_0_l, N2Nat.id by done. done.
Qed.

Lemma foldl_decode_emit offset ms s :
  decoded (foldl (decode_emit offset) s ms) = decoded s ++ (decoded_of offset <$> ms).
Proof.
  revert s. induction ms as [|m ms IH]; intros s; cbn [foldl fmap list_fmap]; [by rewrite app_nil_r|].
  rewrite IH. cbn [decode_emit decoded]. by rewrite <- app_assoc.
Qed.

Lemma foldl_import_emit offset ms s :
  imported (foldl (import_emit offset) s ms) = imported s ++ (move_down offset <$> ms).
Proof.
  revert s. induction ms as [|m ms IH]; intros s; cbn [foldl fmap list_fmap]; [by rewrite app_nil_r|].
  rewrite IH. cbn [import_emit imported]. by rewrite <- app_assoc.
Qed.

Lemma position_sorted_lines ms : StronglySorted (fun a b => (gen_line a <= gen_line b)%N) (sort_by position_cmp ms).
Proof.
  assert (forall a b, cmp_le (cmp := position_cmp) a b -> (gen_line a <= gen_line b)%N) as Hle.
  2: { pose proof (sort_by_sorted (cmp := position_cmp) ms) as H. induction H as [|m l Hs IH Hf]; constructor; [done|].
       eapply Forall_impl; [exact Hf|]. intros a. apply Hle. }
  intros a b Hab. unfold cmp_le, position_cmp, lex_cmp, by_key, then_cmp in Hab.
  destruct (N.compare_spec (gen_line a) (gen_line b)); [lia|lia|done].
Qed.

Lemma sorted_Forall (P : Mapping -> Prop) ms : Forall P ms -> Forall P (sort_by position_cmp ms).
Proof. intros H. by rewrite sort_by_perm. Qed.

Lemma encode_start_ok : encode_state_ok encode_start.
Proof. unfold encode_state_ok, u32_max. cbn. lia. Qed.

(** Reading an exported field from its first line, with either loop. *)
Lemma for_lines_mappings {St} segment (ok : Mapping -> Prop) related (emit : St -> Mapping -> St) b s :
  (forall e s line, related e s -> related (mkEncode line 0 (prev_source e) (prev_orig_line e) (prev_orig_col e) true) s) ->
  (forall e m s, ok m -> related e s -> (0 <= prev_gen_col e <= Z.of_N u32_max)%Z ->
    segment (gen_line m) (segment_text e m) (prev_gen_col e, s) = Go (Z.of_N (gen_col m), emit s m) /\
    related (after_segment e m) (emit s m)) ->
  (forall m, ok m -> (gen_col m <= u32_max)%N) -> Forall ok (mappings b) -> related encode_start s ->
  for_lines segment 0 (split_char ";" (encode_mappings b)) 0 s = Go (foldl emit s (sort_by position_cmp (mappings b))).
Proof.
  intros H1 H2 H3 Hok Hr. unfold encode_mappings. destruct (bool_decide_reflect (mappings b = [])) as [->|_]; [done|].
  apply (for_lines_encode segment ok related emit H1 H2 H3 _ encode_start);
    [by apply sorted_Forall|apply position_sorted_lines|apply Forall_forall; intros; cbn; lia|done|].
  cbn [prev_gen_col encode_start]. unfold u32_max. lia.
Qed.

Lemma index_of_None s l : s ∉ l -> index_of s l = None.
Proof.
  induction l as [|x l IH]; [done|]. intros [Hne Hl]%not_elem_of_cons. cbn [index_of].
  rewrite IH by done. by destruct (String.eqb_spec x s).
Qed.

Lemma add_sources_fresh paths : forall contents b,
  NoDup (sources b ++ paths) -> Forall (fun p => relative_source (source_root b) p = p) paths ->
  length contents = length paths -> (N.of_nat (length (sources b ++ paths)) <= u32_max)%N ->
  add_sources "" paths contents b =
    (N.of_nat <$> seq (length (sources b)) (length paths),
     mkBuilder (map_file b) (sources b ++ paths) (sources_content b ++ contents) (mappings b) (source_root b) (names b) (ignore_list b)).
Proof.
  induction paths as [|p paths IH]; intros contents b Hn Hr Hl Hlen.
  { destruct contents; [|done]. cbn. rewrite !app_nil_r. by destruct b. }
  destruct contents as [|c contents]; [done|]. apply Forall_cons in Hr as [Hp Hr].
  cbn [add_sources is_empty_str]. unfold add_source. rewrite Hp.
  assert (p ∉ sources b) as Hnot.
  { apply NoDup_app in Hn as (_ & Hd & _). intros Hin. apply (Hd p Hin). by left. }
  rewrite index_of_None by done. cbn [head tail default].
  rewrite length_app in Hlen. cbn [length] in Hlen.
  rewrite IH; cbn [sources sources_content source_root map_file mappings names ignore_list].
  - unfold as_u32. rewrite N.mod_small by lia. rewrite length_app, <- !app_assoc. cbn [length seq fmap list_fmap app].
    rewrite Nat.add_1_r. done.
  - by rewrite <- app_assoc.
  - done.
  - by injection Hl.
  - rewrite <- app_assoc, length_app. cbn [length app]. lia.
Qed.

Lemma decode_mappings_encode checks b :
  wf_builder b -> decode_mappings checks (encode_mappings b) = Go (decoded_of 0 <$> sort_by position_cmp (mappings b)).
Proof.
  intros (_ & _ & _ & Hm). unfold decode_mappings.
  rewrite (for_lines_mappings _ (mapping_ok (length (sources b))) decode_related (decode_emit 0)).
  - cbn [run_bind]. by rewrite foldl_decode_emit.
  - done.
  - intros e m s. apply decode_segment_emits.
  - by intros m (_ & H & _).
  - done.
  - split; [apply encode_start_ok|done].
Qed.

(** ** Theorems *)

(** C8: a map survives its export and import: a builder's document, imported at a
    line offset into a fresh builder, gives that builder the same sources with
    the same contents and exactly the original mappings, in position order and
    moved down by the offset; the decoder reads the same positions from it.
    Neither is ever refused or panics, with or without overflow checks. *)
Theorem exported_map_imports checks parse json offset file root b :
  wf_builder b -> mappings b <> [] -> parse json = Some (document_of b) ->
  Forall (fun p => relative_source root p = p) (sources b) ->
  Forall (fun m => (offset + gen_line m <= u32_max)%N) (mappings b) ->
  add_source_map checks parse json offset (new_builder file root) =
    Some (true, mkBuilder file (sources b) (sources_content b) (move_down offset <$> sort_by position_cmp (mappings b)) root [] []) /\
  decode_mappings checks (encode_mappings b) = Go (decoded_of 0 <$> sort_by position_cmp (mappings b)).
Proof.
  intros Hwf Hne Hp Hr Ho. split; [|by apply decode_mappings_encode].
  destruct Hwf as (Hn & Hl & Hlen & Hm). unfold add_source_map. rewrite Hp. unfold import_document.
  cbn [in_version document_of in_sources in_source_root in_sources_content in_mappings].
  assert (sources b <> []) as Hs.
  { intros Hs. rewrite Hs in Hm. destruct (mappings b) as [|m ms]; [done|].
    apply Forall_cons in Hm as [(_ & _ & _ & _ & _ & Hm) _]. cbn in Hm. lia. }
  rewrite bool_decide_false by done. change (negb (3 =? 3)%N || false) with false. cbv iota.
  rewrite (add_sources_fresh (sources b) (sources_content b) (new_builder file root)) by done. cbn [new_builder sources length].
  rewrite (for_lines_mappings _ (fun m => mapping_ok (length (sources b)) m /\ (offset + gen_line m <= u32_max)%N)
    import_related (import_emit offset)).
  - cbn [run_bind]. rewrite foldl_import_emit. cbn [imported app]. rewrite bool_decide_false; [done|].
    intros H%fmap_nil_inv. apply Hne. pose proof (sort_by_perm (cmp := position_cmp) (mappings b)) as Hperm.
    rewrite H in Hperm. by apply Permutation_nil_l in Hperm.
  - done.
  - intros e m s. apply import_segment_emits.
  - intros m [(_ & H & _) _]. done.
  - rewrite Forall_forall in *. intros m Hin. split; [by apply Hm|by apply Ho].
  - split; [apply encode_start_ok|done].
Qed.

Lemma demo_builder_wf : wf_builder demo_builder.
Proof.
  assert (demo_builder = mkBuilder "app.js" ["src/a.ts"; "src/b.ts"] [Some "const a = 1"; None]
    [mkMapping 2 1 0 9 0; mkMapping 0 0 0 0 0; mkMapping 2 4 1 7 3] "/p" [] []) as -> by (vm_compute; reflexivity).
  unfold wf_builder. cbn [sources sources_content mappings length]. split; [|split; [done|split; [vm_compute; discriminate|]]].
  - apply NoDup_cons. split; [set_solver|]. apply NoDup_singleton.
  - assert (forall m, m ∈ [mkMapping 2 1 0 9 0; mkMapping 0 0 0 0 0; mkMapping 2 4 1 7 3] -> mapping_ok 2 m) as H.
    { intros m Hm. unfold mapping_ok, u32_max. repeat (apply elem_of_cons in Hm as [->|Hm]; [cbn [gen_line gen_col source_idx orig_line orig_col]; lia|]).
      by apply elem_of_nil in Hm. }
    by apply Forall_forall.
Qed.

Lemma exported_map_imports_witness :
  add_source_map true (fun _ => Some (document_of demo_builder)) "{}" 5 (new_builder "out.js" "/q") =
    Some (true, mkBuilder "out.js" ["src/a.ts"; "src/b.ts"] [Some "const a = 1"; None]
      [mkMapping 5 0 0 0 0; mkMapping 7 1 0 9 0; mkMapping 7 4 1 7 3] "/q" [] []) /\
  decode_mappings true (encode_mappings demo_builder) = Go [mkDecoded 0 0 0 0; mkDecoded 2 1 0 9; mkDecoded 2 4 1 7].
Proof.
  apply (exported_map_imports true (fun _ => Some (document_of demo_builder)) "{}" 5 "out.js" "/q" demo_builder).
  - apply demo_builder_wf.
  - discriminate.
  - reflexivity.
  - apply (bool_decide_unpack _). vm_compute. exact I.
  - apply (bool_decide_unpack _). vm_compute. exact I.
Defined.

Lemma for_lines_replicate_nil {St} (segment : N -> string -> Z * St -> Run (Z * St)) k line lines s :
  for_lines segment line (replicate k "" ++ lines) 0 s = for_lines segment (line + N.of_nat k) lines 0 s.
Proof.
  destruct k as [|k]; [cbn [replicate app]; f_equal; lia|].
  by apply (for_lines_gap segment).
Qed.

(** Reading from [k] lines further down, when that changes each segment's answer
    by [f] alone. *)
Lemma for_lines_shift {St} (segment : N -> string -> Z * St -> Run (Z * St)) (f : St -> St) k :
  (forall line p c s, segment (k + line)%N p (c, f s) = run_map (prod_map id f) (segment line p (c, s))) ->
  forall lines line c s, for_lines segment (k + line) lines c (f s) = run_map f (for_lines segment line lines c s).
Proof.
  intros Hseg. assert (forall line pieces c s,
    for_segments segment (k + line) pieces (c, f s) = run_map (prod_map id f) (for_segments segment line pieces (c, s))) as Hs.
  { intros line pieces. induction pieces as [|p pieces IH]; intros c s; [done|]. cbn [for_segments].
    destruct (is_empty_str p); [apply IH|]. rewrite Hseg. destruct (segment line p (c, s)) as [[c' s']| |]; [|done..].
    apply (IH c' s'). }
  induction lines as [|l lines IH]; intros line c s; [done|]. cbn [for_lines]. rewrite Hs.
  destruct (for_segments segment line (split_char "," l) (c, s)) as [[c' s']| |]; [|done..].
  cbn [run_map run_bind prod_map snd fst]. rewrite <- N.add_assoc. apply IH.
Qed.

Lemma decode_segment_shift checks k line p c s :
  decode_segment checks (N.of_nat k + line) p (c, shift_state k s) =
    run_map (prod_map id (shift_state k)) (decode_segment checks line p (c, s)).
Proof.
  unfold decode_segment. destruct (decode_vlq_segment p) as [[|f0 fields]|]; [done| |done].
  destruct (add_i64 checks c f0) as [c'| |]; [|done..]. cbn [run_bind].
  destruct fields as [|f1 [|f2 [|f3 rest]]]; [done..|]. cbn [shift_state dec_prev_source dec_prev_line].
  destruct (add_i64 checks (dec_prev_source s) f1) as [src| |]; [|done..]. cbn [run_bind].
  destruct (add_i64 checks (dec_prev_line s) f2) as [ol| |]; [|done..]. cbn [run_bind].
  destruct (_ || _); [done|]. cbn [run_map run_bind prod_map fst snd shift_state]. unfold shift_state. cbn [decoded].
  by rewrite fmap_app.
Qed.

Lemma decode_mappings_shift checks k text :
  decode_mappings checks (repeat_str k ";" +:+ text) = run_map (fmap (shift_decoded k)) (decode_mappings checks text).
Proof.
  unfold decode_mappings. rewrite split_char_repeat, for_lines_replicate_nil.
  change (mkDecode 0 0 []) with (shift_state k (mkDecode 0 0 [])) at 1.
  rewrite N.add_comm, for_lines_shift by (intros; apply decode_segment_shift).
  by destruct (for_lines _ 0 (split_char ";" text) 0 _).
Qed.

Lemma update_field_mappings lines fields text :
  field "mappings" fields = Some (VString text) ->
  exists fields', update_field "mappings" (shift_field lines) fields = Some fields' /\
    field "mappings" fields' = Some (VString (repeat_str lines ";" +:+ text)) /\
    forall key, key <> "mappings" -> field key fields' = field key fields.
Proof.
  unfold field. induction fields as [|[k v] fields IH]; [done|]. cbn [find_map update_field fst snd].
  destruct (String.eqb_spec k "mappings") as [->|Hk].
  - intros [= ->]. eexists. split; [done|]. cbn [find_map fst snd]. rewrite String.eqb_refl. split; [done|].
    intros key Hkey. by destruct (String.eqb_spec "mappings" key) as [<-|].
  - intros H. destruct (IH H) as (fields' & -> & H1 & H2). eexists. split; [done|]. cbn [find_map fst snd].
    destruct (String.eqb_spec k "mappings"); [done|]. split; [done|].
    intros key Hkey. destruct (String.eqb k key); [done|]. by apply H2.
Qed.

(** Shifting a finished map moves every mapping down by the lines asked for and
    changes nothing else: the document parses, its other fields are the same,
    and its positions decode to the old ones with the line raised (an
    undecodable field stays undecodable).  It is never refused when the document
    has a text [mappings] field and serde_json reads back what it prints. *)
Theorem shift_moves_every_mapping checks from_str to_string json lines fields text :
  from_str json = Some (VObject fields) ->
  (forall fields', update_field "mappings" (shift_field lines) fields = Some fields' ->
     reads_back from_str to_string (VObject fields')) ->
  field "mappings" fields = Some (VString text) ->
  exists out fields' text', shift_generated_lines from_str to_string json lines = Some out /\
    from_str out = Some (VObject fields') /\ field "mappings" fields' = Some (VString text') /\
    (forall key, key <> "mappings" -> field key fields' = field key fields) /\
    decode_mappings checks text' = run_map (fmap (shift_decoded lines)) (decode_mappings checks text).
Proof.
  intros Hp Hjson Ht. destruct (update_field_mappings lines fields text Ht) as (fields' & Hu & Hf & Ho).
  unfold shift_generated_lines. rewrite Hp. cbn [mbind option_bind]. rewrite Hu. cbn [mbind option_bind].
  destruct lines as [|lines]; cbn [Nat.eqb].
  - exists json, fields, text. rewrite <- (decode_mappings_shift checks 0). done.
  - destruct (Hjson fields' Hu) as (out & -> & Hout). exists out, fields', (repeat_str (S lines) ";" +:+ text).
    split_and!; [done..|apply decode_mappings_shift].
Qed.

Lemma shift_moves_witness :
  exists out fields' text', shift_generated_lines demo_from_str (fun _ => Some "out") "in" 2 = Some out /\
    demo_from_str out = Some (VObject fields') /\ field "mappings" fields' = Some (VString text') /\
    (forall key, key <> "mappings" -> field key fields' = field key [("version", VNumber "3"); ("mappings", VString "AAAA")]) /\
    decode_mappings true text' = Go [mkDecoded 2 0 0 0].
Proof.
  apply (shift_moves_every_mapping true demo_from_str (fun _ => Some "out") "in" 2
    [("version", VNumber "3"); ("mappings", VString "AAAA")] "AAAA"); [reflexivity| |reflexivity].
  intros fields' H. exists "out". split; [reflexivity|]. vm_compute in H. injection H as <-. reflexivity.
Defined.

(** The import loses the columns of one-field segments: a document line with a
    segment of [before] columns and no source, and then a mapped segment [after]
    columns further on, names the column [before + after], as the decoder
    reads it; the import puts the mapping at [after]. *)
Theorem one_field_segment_misplaces checks before after :
  (0 <= before)%Z -> (0 <= after)%Z -> (before + after <= Z.of_N u32_max)%Z ->
  decode_mappings checks (one_field_line before after) = Go [mkDecoded 0 (Z.to_N (before + after)) 0 0] /\
  add_source_map checks (fun _ => Some (mkInput 3 "" ["a.ts"] [None] (one_field_line before after))) "{}" 0 (new_builder "o.js" "/p") =
    Some (true, mkBuilder "o.js" ["a.ts"] [None] [mkMapping 0 (Z.to_N after) 0 0 0] "/p" [] []).
Proof.
  intros Hb Ha Hs. unfold u32_max in Hs.
  assert (split_char ";" (one_field_line before after) = [one_field_line before after]) as Hsemi.
  { apply split_char_none. unfold one_field_line. rewrite !has_char_sapp, join_plain by (intros d; apply base64_not_separator).
    unfold vlq_encode. rewrite vlq_digits_plain by (intros d; apply base64_not_separator). done. }
  assert (split_char "," (one_field_line before after) =
    [join "" (vlq_encode <$> [before]); join "" (vlq_encode <$> [after; 0; 0; 0]%Z)]) as Hcomma.
  { unfold one_field_line. change ("," +:+ ?t) with (String "," t). rewrite split_char_app, split_char_none; [done|..].
    - by apply join_plain; intros d; apply base64_not_separator.
    - apply vlq_digits_plain. intros d. apply base64_not_separator. }
  assert (forall l, Forall is_i64 l -> decode_vlq_segment (join "" (vlq_encode <$> l)) = Some l) as Hdec.
  { intros l Hl. by apply (decode_join l []). }
  assert (forall l, l <> [] -> is_empty_str (join "" (vlq_encode <$> l)) = false) as Hne by by intros [|v [|w l]].
  assert (forall p x, (0 <= p + x <= 4294967295)%Z -> add_i64 checks p x = Go (p + x)%Z) as Hadd.
  { intros p x Hx. replace x with (p + x - p)%Z at 1 by lia. by apply add_i64_delta. }
  assert (forall x, (0 <= x <= 4294967295)%Z -> is_i64 x) as Hi by (unfold is_i64; lia).
  assert (Forall is_i64 [before] /\ Forall is_i64 [after; 0; 0; 0]%Z) as [H1 H2].
  { split; repeat (apply Forall_cons; split; [apply Hi; lia|]); apply Forall_nil_2. }
  split.
  - unfold decode_mappings. rewrite Hsemi. cbn [for_lines]. rewrite Hcomma. cbn [for_segments].
    rewrite !Hne by done. unfold decode_segment. rewrite !Hdec by done. rewrite !Hadd by lia. cbn [run_bind].
    rewrite !Hadd by (cbn; lia). cbn [run_bind dec_prev_source dec_prev_line Z.add].
    rewrite (proj2 (Z.ltb_ge _ 0)) by lia. done.
  - unfold add_source_map, import_document. cbn [in_version in_sources in_source_root in_sources_content in_mappings].
    change (negb (3 =? 3)%N || bool_decide (["a.ts"] = [])) with false. cbv iota.
    change (add_sources "" ["a.ts"] [None] (new_builder "o.js" "/p")) with
      ([0%N], mkBuilder "o.js" ["a.ts"] [None] [] "/p" [] []). cbv iota.
    rewrite Hsemi. cbn [for_lines]. rewrite Hcomma. cbn [for_segments].
    rewrite !Hne by done. unfold import_segment. rewrite !Hdec by done. cbn [run_bind].
    rewrite !Hadd by (cbn; lia). cbn [run_bind previous_source previous_original_line previous_original_column].
    rewrite !Z.add_0_l. rewrite (proj2 (Z.ltb_ge after 0)) by lia. change (0 <? 0)%Z with false. cbn [orb].
    change ([0%N] !! Z.to_nat 0) with (Some 0%N). cbv iota.
    change (add_u32 checks 0 (as_u32 0)) with (@Go N 0%N). cbn [run_bind snd imported app].
    assert (as_u32 (Z.to_N after) = Z.to_N after) as -> by (apply N.mod_small; unfold u32_max; lia).
    done.
Qed.

Lemma one_field_witness :
  decode_mappings true (one_field_line 4 2) = Go [mkDecoded 0 6 0 0] /\
  add_source_map true (fun _ => Some (mkInput 3 "" ["a.ts"] [None] (one_field_line 4 2))) "{}" 0 (new_builder "o.js" "/p") =
    Some (true, mkBuilder "o.js" ["a.ts"] [None] [mkMapping 0 2 0 0 0] "/p" [] []).
Proof. apply (one_field_segment_misplaces true 4 2); unfold u32_max; lia. Defined.
