(* ===== verification/RouteRules.v ===== *)
(** Route rules (crates/ruvyxa_middleware/src/route_rules.rs): the path patterns of
    [headers()], [redirects()], [rewrites()] and [proxy.matcher], their conditions,
    what a matching rule does to a request, and the form encoding of queries.

    The regular-expression engine (fancy-regex) is a parameter: [regex_new]
    compiles a text, [captures] answers the groups of a match, the whole match
    first.  [debug] is the text [{:?}] shows for a string.  Patterns are read
    byte by byte: every character they give a meaning is ASCII.  An outer [None]
    is a panic. *)
From S2P Require Import Prelude Order RustStr Utf8.

(** ** Definitions *)

(** *** Rules as configured *)

Inductive ConditionKind := Header | Cookie | Query | Host.

Record RouteCondition := mkCondition { rc_kind : ConditionKind; rc_key : option string; rc_value : option string }.
Record HeaderEntry := mkHeader { he_key : string; he_value : string }.
Record HeaderRule := mkHeaderRule {
  hr_source : string; hr_headers : list HeaderEntry; hr_has : list RouteCondition; hr_missing : list RouteCondition }.
Record RedirectRule := mkRedirectRule {
  rd_source : string; rd_destination : string; rd_permanent : option bool; rd_status_code : option N;
  rd_has : list RouteCondition; rd_missing : list RouteCondition }.
Record RewriteRule := mkRewriteRule {
  rw_source : string; rw_destination : string; rw_has : list RouteCondition; rw_missing : list RouteCondition }.
Record RewritePhases := mkPhases {
  ph_before_files : list RewriteRule; ph_after_files : list RewriteRule; ph_fallback : list RewriteRule }.
Record MatcherEntry := mkMatcher { me_source : string; me_has : list RouteCondition; me_missing : list RouteCondition }.
Record ProxyConfig := mkProxyConfig { pc_matcher : option (list MatcherEntry); pc_handler : option bool }.

(** [RuleRequest]: the parts of a request the rules read. *)
Record RuleRequest := mkRuleRequest {
  rq_path : string;
  rq_query : option string;
  rq_headers : list (string * string);
  rq_host : option string;
}.

Abbreviation RuleParams := (gmap string string).

(** [params.extend(more)] *)
Definition extend (params more : RuleParams) : RuleParams := more ∪ params.

(** *** Form encoding *)

Definition hex_value (a : ascii) : option N :=
  if is_digit a then Some (byte_of a - 48)%N
  else if in_range 97 102 a then Some (byte_of a - 87)%N
  else if in_range 65 70 a then Some (byte_of a - 55)%N
  else None.

(** [u8::from_str_radix(text, 16)] of two bytes; a leading [+] is a sign. *)
Definition from_radix_16 (a b : ascii) : option N :=
  if Ascii.eqb a "+" then hex_value b
  else x ← hex_value a; y ← hex_value b; Some (16 * x + y)%N.

(** The loop of [form_decode].  The slice [&text[index + 1..index + 3]] panics
    when a character crosses its end. *)
Fixpoint decode_bytes (s : string) : option string :=
  match s with
  | "" => Some ""
  | String c rest =>
      if Ascii.eqb c "+" then String " " <$> decode_bytes rest
      else if Ascii.eqb c "%" then
        match rest with
        | String h1 (String h2 rest') =>
            if (match rest' with String b _ => is_continuation b | "" => false end) then None
            else match from_radix_16 h1 h2 with
                 | Some byte => String (ascii_of_N byte) <$> decode_bytes rest'
                 | None => String "%" <$> decode_bytes rest
                 end
        | _ => String "%" <$> decode_bytes rest
        end
      else String c <$> decode_bytes rest
  end.

(** [form_decode] *)
Definition form_decode (text : string) : option string := from_utf8_lossy <$> decode_bytes text.

(** One upper-case hexadecimal digit. *)
Definition hex_upper (n : N) : ascii := ascii_of_N (if (n <? 10)%N then 48 + n else 55 + n).

(** [format!("%{byte:02X}")] *)
Definition percent_byte (a : ascii) : string :=
  String "%" (String (hex_upper (byte_of a / 16)) (String (hex_upper (byte_of a mod 16)) "")).

Definition is_form_safe (a : ascii) : bool := is_alnum a || existsb (Ascii.eqb a) ["*"; "-"; "."; "_"]%char.

(** [form_encode] *)
Fixpoint form_encode (text : string) : string :=
  match text with
  | "" => ""
  | String a rest =>
      (if is_form_safe a then String a "" else if Ascii.eqb a " " then "+" else percent_byte a) +:+ form_encode rest
  end.

(** [serialize_query] *)
Definition serialize_query (pairs : list (string * string)) : string :=
  join "&" ((fun kv => form_encode kv.1 +:+ "=" +:+ form_encode kv.2) <$> pairs).

(** A list of computations that may panic, in order. *)
Fixpoint sequence {A} (l : list (option A)) : option (list A) :=
  match l with
  | [] => Some []
  | x :: rest => x ← x; rest ← sequence rest; Some (x :: rest)
  end.

(** One pair of [parse_query]. *)
Definition parse_pair (pair : string) : option (string * string) :=
  let '(key, value) := default (pair, "") (split_once "=" pair) in
  key ← form_decode key;
  value ← form_decode value;
  Some (key, value).

(** [parse_query] *)
Definition parse_query (query : string) : option (list (string * string)) :=
  sequence (parse_pair <$> filter (fun pair => is_empty_str pair = false) (split_char "&" query)).

(** *** Templates *)

Definition is_word (a : ascii) : bool := is_alnum a || Ascii.eqb a "_".
Definition is_modifier (a : ascii) : bool := existsb (Ascii.eqb a) ["*"; "+"; "?"]%char.

(** The longest run of word characters, and what follows it. *)
Fixpoint span_word (s : string) : string * string :=
  match s with
  | String a s' => if is_word a then let '(w, rest) := span_word s' in (String a w, rest) else ("", s)
  | "" => ("", "")
  end.

(** A modifier at the front, and what follows it. *)
Definition take_modifier (s : string) : option ascii * string :=
  match s with
  | String a s' => if is_modifier a then (Some a, s') else (None, s)
  | "" => (None, "")
  end.

(** The loop of [substitute]; every round reads a character. *)
Fixpoint substitute_loop (fuel : nat) (template : string) (params : RuleParams) : string :=
  match template, fuel with
  | "", _ | _, O => ""
  | String c rest, S fuel' =>
      if Ascii.eqb c ":" then
        let '(name, after) := span_word rest in
        if is_empty_str name then String c (substitute_loop fuel' rest params)
        else default "" (params !! name) +:+ substitute_loop fuel' (take_modifier after).2 params
      else String c (substitute_loop fuel' rest params)
  end.

(** [substitute] *)
Definition substitute (template : string) (params : RuleParams) : string :=
  substitute_loop (String.length template) template params.

(** [template_uses_params] *)
Fixpoint template_uses_params (template : string) : bool :=
  match template with
  | String a ((String b _) as rest) => (Ascii.eqb a ":" && is_word b) || template_uses_params rest
  | _ => false
  end.

(** [split_destination] *)
Definition split_destination (destination : string) : string * option string :=
  match split_once "?" destination with
  | Some (base, query) => (base, Some query)
  | None => (destination, None)
  end.

(** *** Patterns *)

(** What a rule list can be refused for; the text of an error names the source. *)
Inductive RuleError :=
  | NotRooted (source : string)
  | EndsInEscape (source : string)
  | NeedsName (source : string)
  | GroupNotClosed (source : string)
  | GroupEmpty (source : string)
  | BadPattern (source error : string)
  | BadCondition (value error : string)
  | NeedsStatus (source : string).

(** The text of each [Err]. *)
Definition rule_error_text (debug : string -> string) (e : RuleError) : string :=
  match e with
  | NotRooted s => "RUV1602 route rule source must start with " +:+ debug "/" +:+ ": " +:+ debug s
  | EndsInEscape s => "RUV1602 route rule source ends in an escape: " +:+ debug s
  | NeedsName s => "RUV1602 route rule parameter needs a name: " +:+ debug s
  | GroupNotClosed s => "RUV1602 route rule group is not closed: " +:+ debug s
  | GroupEmpty s => "RUV1602 route rule group is empty: " +:+ debug s
  | BadPattern s e => "RUV1602 route rule source " +:+ debug s +:+ " is not a valid pattern: " +:+ e
  | BadCondition v e => "RUV1602 route rule condition value " +:+ debug v +:+ " is not a valid pattern: " +:+ e
  | NeedsStatus s => "RUV1602 redirect for " +:+ debug s +:+ " needs permanent or statusCode"
  end.

Definition SEGMENT : string := "[^/]+".

Definition is_special (a : ascii) : bool := has_char a ".*+?^${}()|[]\/".

(** [escape_regex_char] *)
Definition escape_regex_char (a : ascii) : string :=
  if is_special a then String "\" (String a "") else String a "".

(** [escape_regex] *)
Fixpoint escape_regex (s : string) : string :=
  match s with "" => "" | String a s' => escape_regex_char a +:+ escape_regex s' end.

(** [matching_paren] from a position at [depth]: the index of the closing one. *)
Fixpoint matching_from (depth : Z) (index : nat) (s : string) : option nat :=
  match s with
  | "" => None
  | String c s' =>
      if Ascii.eqb c "\" then match s' with "" => None | String _ s'' => matching_from depth (2 + index) s'' end
      else if Ascii.eqb c "(" then matching_from (depth + 1) (S index) s'
      else if Ascii.eqb c ")" then
        if (depth - 1 =? 0)%Z then Some index else matching_from (depth - 1) (S index) s'
      else matching_from depth (S index) s'
  end.

(** [matching_paren], the text starting at its opening parenthesis. *)
Definition matching_paren (s : string) : option nat := matching_from 0 0 s.

Fixpoint drop_str (n : nat) (s : string) : string :=
  match n, s with
  | S n', String _ s' => drop_str n' s'
  | _, _ => s
  end.

(** The regex text of one parameter. *)
Definition parameter_text (prefix capture : string) (modifier : option ascii) : string :=
  let repeated := "(?:" +:+ capture +:+ ")(?:/(?:" +:+ capture +:+ "))*" in
  match modifier with
  | Some m =>
      if Ascii.eqb m "+" then prefix +:+ "(" +:+ repeated +:+ ")"
      else if Ascii.eqb m "*" then "(?:" +:+ prefix +:+ "(" +:+ repeated +:+ "))?"
      else "(?:" +:+ prefix +:+ "(" +:+ capture +:+ "))?"
  | None => prefix +:+ "(" +:+ capture +:+ ")"
  end.

(** The capture a parameter or group writes, and what follows it. *)
Definition parse_capture (source rest : string) : (string * string) + RuleError :=
  if starts_with "(" rest then
    match matching_paren rest with
    | None => inr (GroupNotClosed source)
    | Some last =>
        let capture := String.substring 1 (last - 1) rest in
        if is_empty_str capture then inr (GroupEmpty source) else inl (capture, drop_str (S last) rest)
    end
  else inl (SEGMENT, rest).

(** The [/] a parameter takes over: the pattern without it, and the prefix. *)
Definition take_slash (pattern : string) : string * string :=
  match strip_suffix "\/" pattern with
  | Some p => (p, escape_regex "/")
  | None => (pattern, "")
  end.

(** [usize] as [format!("{}")] shows it *)
Fixpoint decimal_loop (fuel : nat) (n : N) (acc : string) : string :=
  match fuel with
  | O => acc
  | S fuel' =>
      let acc := String (ascii_of_N (48 + n mod 10)) acc in
      if (n <? 10)%N then acc else decimal_loop fuel' (n / 10) acc
  end.
Definition decimal (n : N) : string := decimal_loop 20 n "".

(** The loop of [compile_source]: the pattern and the names so far, [unnamed]
    counting the groups without a name.  Every round reads a character. *)
Fixpoint compile_loop (fuel : nat) (source rest pattern : string) (names : list string) (unnamed : N)
    : (string * list string) + RuleError :=
  match rest, fuel with
  | "", _ | _, O => inl (pattern, names)
  | String c after, S fuel' =>
      if Ascii.eqb c "\" then
        match after with
        | "" => inr (EndsInEscape source)
        | String next after' =>
            compile_loop fuel' source after' (pattern +:+ escape_regex_char next) names unnamed
        end
      else if Ascii.eqb c ":" || Ascii.eqb c "(" then
        let '(pattern, prefix) := take_slash pattern in
        let '(name, rest') := if Ascii.eqb c ":" then span_word after else ("", rest) in
        if Ascii.eqb c ":" && is_empty_str name then inr (NeedsName source)
        else
          match parse_capture source rest' with
          | inr e => inr e
          | inl (capture, rest'') =>
              let '(modifier, rest''') := take_modifier rest'' in
              compile_loop fuel' source rest''' (pattern +:+ parameter_text prefix capture modifier)
                (names ++ [if is_empty_str name then decimal unnamed else name])
                (if is_empty_str name then unnamed + 1 else unnamed)
          end
      else compile_loop fuel' source after (pattern +:+ escape_regex_char c) names unnamed
  end.

Definition source_pattern (source : string) : (string * list string) + RuleError :=
  compile_loop (String.length source) source source "" [] 0.

(** [Iterator::collect] into a [Result]: the first error ends it. *)
Fixpoint collect {A B E} (f : A -> B + E) (l : list A) : list B + E :=
  match l with
  | [] => inl []
  | x :: rest =>
      match f x with
      | inr e => inr e
      | inl y => match collect f rest with inr e => inr e | inl ys => inl (y :: ys) end
      end
  end.

Section engine.
Context {Regex : Type} (regex_new : string -> Regex + string)
  (captures : Regex -> string -> option (list (option string)))
  (capture_names : Regex -> list (option string)).

Record CompiledSource := mkCompiled { cs_source : string; cs_regex : Regex; cs_names : list string }.

(** [compile_source] *)
Definition compile_source (source : string) : CompiledSource + RuleError :=
  if negb (starts_with "/" source) then inr (NotRooted source)
  else
    match source_pattern source with
    | inr e => inr e
    | inl (pattern, names) =>
        match regex_new ("(?i)^" +:+ pattern +:+ "/?$") with
        | inr error => inr (BadPattern source error)
        | inl regex => inl (mkCompiled source regex names)
        end
    end.

(** Bind each name to the group at its position, when the group took part. *)
Fixpoint bind_names (names : list string) (groups : list (option string)) (params : RuleParams) : RuleParams :=
  match names with
  | [] => params
  | n :: names' =>
      bind_names names' (tail groups)
        (match default None (head groups) with Some v => <[n := v]> params | None => params end)
  end.

(** [CompiledSource::matches] *)
Definition source_matches (c : CompiledSource) (path : string) : option RuleParams :=
  groups ← captures (cs_regex c) path; Some (bind_names (cs_names c) (tail groups) ∅).

(** *** Conditions *)

Record CompiledCondition := mkCompiledCondition { cc_kind : ConditionKind; cc_key : option string; cc_value : option Regex }.

Definition compile_condition (c : RouteCondition) : CompiledCondition + RuleError :=
  match rc_value c with
  | None => inl (mkCompiledCondition (rc_kind c) (rc_key c) None)
  | Some value =>
      match regex_new ("^(?:" +:+ value +:+ ")$") with
      | inr error => inr (BadCondition value error)
      | inl regex => inl (mkCompiledCondition (rc_kind c) (rc_key c) (Some regex))
      end
  end.

(** [compile_conditions] *)
Definition compile_conditions (conditions : list RouteCondition) : list CompiledCondition + RuleError :=
  collect compile_condition conditions.

(** [header_value] *)
Definition header_value (request : RuleRequest) (name : string) : option string :=
  find_map (fun kv => if eq_ignore_case kv.1 name then Some kv.2 else None) (rq_headers request).

(** [cookie_value] *)
Definition cookie_value (request : RuleRequest) (name : string) : option string :=
  header ← header_value request "cookie";
  find_map (fun part =>
      let part := trim part in
      let '(key, value) := default (part, "") (split_once "=" part) in
      if String.eqb key name then Some value else None) (split_char ";" header).

(** [query_value] *)
Definition query_value (request : RuleRequest) (name : string) : option (option string) :=
  match rq_query request with
  | None => Some None
  | Some query =>
      pairs ← parse_query query;
      Some (find_map (fun kv => if String.eqb kv.1 name then Some kv.2 else None) pairs)
  end.

(** What a condition looks at. *)
Definition condition_subject (c : CompiledCondition) (request : RuleRequest) : option (option string) :=
  match cc_kind c, cc_key c with
  | Host, _ => Some (rq_host request)
  | _, None => Some None
  | Header, Some key => Some (header_value request key)
  | Cookie, Some key => Some (cookie_value request key)
  | Query, Some key => query_value request key
  end.

(** The named groups that took part in a match. *)
Fixpoint named_groups (names groups : list (option string)) (params : RuleParams) : RuleParams :=
  match names with
  | [] => params
  | n :: names' =>
      named_groups names' (tail groups)
        (match n, default None (head groups) with Some n, Some v => <[n := v]> params | _, _ => params end)
  end.

(** [evaluate_condition] *)
Definition evaluate_condition (c : CompiledCondition) (request : RuleRequest) : option (option RuleParams) :=
  subject ← condition_subject c request;
  Some (actual ← subject;
        match cc_value c with
        | None => Some ∅
        | Some regex => groups ← captures regex actual; Some (named_groups (capture_names regex) groups ∅)
        end).

(** The loop over [has]. *)
Fixpoint evaluate_has (has : list CompiledCondition) (request : RuleRequest) (params : RuleParams)
    : option (option RuleParams) :=
  match has with
  | [] => Some (Some params)
  | c :: rest =>
      more ← evaluate_condition c request;
      match more with
      | None => Some None
      | Some more => evaluate_has rest request (extend params more)
      end
  end.

(** [missing.iter().any(..)] *)
Fixpoint any_holds (missing : list CompiledCondition) (request : RuleRequest) : option bool :=
  match missing with
  | [] => Some false
  | c :: rest =>
      result ← evaluate_condition c request;
      match result with Some _ => Some true | None => any_holds rest request end
  end.

(** [evaluate_conditions] *)
Definition evaluate_conditions (has missing : list CompiledCondition) (request : RuleRequest) : option (option RuleParams) :=
  params ← evaluate_has has request ∅;
  match params with
  | None => Some None
  | Some params => held ← any_holds missing request; Some (if held : bool then None else Some params)
  end.

(** A rule with what is compiled of it. *)
Record Compiled (R : Type) := mkRule { rule : R; compiled : CompiledSource; has : list CompiledCondition; missing : list CompiledCondition }.
Arguments mkRule {R}.
Arguments rule {R}.
Arguments compiled {R}.
Arguments has {R}.
Arguments missing {R}.

(** [match_rule] *)
Definition match_rule {R} (r : Compiled R) (request : RuleRequest) : option (option RuleParams) :=
  match source_matches (compiled r) (rq_path request) with
  | None => Some None
  | Some params =>
      more ← evaluate_conditions (has r) (missing r) request;
      Some (match more with Some more => Some (extend params more) | None => None end)
  end.

(** The three compilations every rule list makes, in order. *)
Definition compile_rule {R} (r : R) (source : string) (hs ms : list RouteCondition) : Compiled R + RuleError :=
  match compile_source source with
  | inr e => inr e
  | inl c =>
      match compile_conditions hs with
      | inr e => inr e
      | inl hs => match compile_conditions ms with inr e => inr e | inl ms => inl (mkRule r c hs ms) end
      end
  end.

(** *** The rule lists *)

(** [compile_header_rules] *)
Definition compile_header_rules (rules : list HeaderRule) : list (Compiled HeaderRule) + RuleError :=
  collect (fun r => compile_rule r (hr_source r) (hr_has r) (hr_missing r)) rules.

Definition Slot : Type := string * (string * string).

(** Replace the pair stored under [lower], or add it. *)
Fixpoint set_slot (lower : string) (pair : string * string) (slots : list Slot) : list Slot :=
  match slots with
  | [] => [(lower, pair)]
  | (existing, old) :: rest =>
      if String.eqb existing lower then (existing, pair) :: rest else (existing, old) :: set_slot lower pair rest
  end.

Definition set_header (params : RuleParams) (slots : list Slot) (h : HeaderEntry) : list Slot :=
  let key := substitute (he_key h) params in
  let value := substitute (he_value h) params in
  set_slot (to_ascii_lowercase key) (key, value) slots.

Fixpoint header_loop (rules : list (Compiled HeaderRule)) (request : RuleRequest) (slots : list Slot) : option (list Slot) :=
  match rules with
  | [] => Some slots
  | r :: rest =>
      matched ← match_rule r request;
      match matched with
      | None => header_loop rest request slots
      | Some params => header_loop rest request (foldl (set_header params) slots (hr_headers (rule r)))
      end
  end.

(** [apply_header_rules] *)
Definition apply_header_rules (rules : list (Compiled HeaderRule)) (request : RuleRequest) : option (list (string * string)) :=
  (fun slots : list Slot => snd <$> slots) <$> header_loop rules request [].

Definition compile_redirect_rule (r : RedirectRule) : Compiled RedirectRule + RuleError :=
  match rd_status_code r, rd_permanent r with
  | None, None => inr (NeedsStatus (rd_source r))
  | _, _ => compile_rule r (rd_source r) (rd_has r) (rd_missing r)
  end.

(** [compile_redirect_rules] *)
Definition compile_redirect_rules (rules : list RedirectRule) : list (Compiled RedirectRule) + RuleError :=
  collect compile_redirect_rule rules.

Record RedirectDecision := mkDecision { location : string; status : N }.

(** What a matched redirect answers. *)
Definition redirect_to (r : RedirectRule) (params : RuleParams) (request : RuleRequest) : RedirectDecision :=
  let '(base, destination_query) := split_destination (rd_destination r) in
  let base := substitute base params in
  let location :=
    match destination_query with
    | Some query => base +:+ "?" +:+ substitute query params
    | None => match rq_query request with
              | Some query => if is_empty_str query then base else base +:+ "?" +:+ query
              | None => base
              end
    end in
  mkDecision location
    (default (if bool_decide (rd_permanent r = Some true) then 308%N else 307%N) (rd_status_code r)).

(** [match_redirect] *)
Fixpoint match_redirect (rules : list (Compiled RedirectRule)) (request : RuleRequest) : option (option RedirectDecision) :=
  match rules with
  | [] => Some None
  | r :: rest =>
      matched ← match_rule r request;
      match matched with
      | None => match_redirect rest request
      | Some params => Some (Some (redirect_to (rule r) params request))
      end
  end.

(** [compile_rewrite_rules] *)
Definition compile_rewrite_rules (rules : list RewriteRule) : list (Compiled RewriteRule) + RuleError :=
  collect (fun r => compile_rule r (rw_source r) (rw_has r) (rw_missing r)) rules.

(** The parameters in key order, as a [BTreeMap] lists them. *)
Definition params_list (params : RuleParams) : list (string * string) :=
  sort_by (by_key fst String.compare) (map_to_list params).

(** The pairs a matched rewrite puts in the target's query. *)
Definition rewrite_pairs (r : RewriteRule) (params : RuleParams) (request : RuleRequest) : option (list (string * string)) :=
  own ← match (split_destination (rw_destination r)).2 with
        | Some query => parse_query (substitute query params)
        | None => Some []
        end;
  let unused := if template_uses_params (rw_destination r) then [] else params_list params in
  carried ← match rq_query request with Some query => parse_query query | None => Some [] end;
  Some (own ++ unused ++ carried).

(** What a matched rewrite answers. *)
Definition rewrite_to (r : RewriteRule) (params : RuleParams) (request : RuleRequest) : option string :=
  pairs ← rewrite_pairs r params request;
  let base := substitute (split_destination (rw_destination r)).1 params in
  let serialized := serialize_query pairs in
  Some (if is_empty_str serialized then base else base +:+ "?" +:+ serialized).

(** [match_rewrite] *)
Fixpoint match_rewrite (rules : list (Compiled RewriteRule)) (request : RuleRequest) : option (option string) :=
  match rules with
  | [] => Some None
  | r :: rest =>
      matched ← match_rule r request;
      match matched with
      | None => match_rewrite rest request
      | Some params => Some <$> rewrite_to (rule r) params request
      end
  end.

(** [compile_matcher] *)
Definition compile_matcher (entries : list MatcherEntry) : list (Compiled MatcherEntry) + RuleError :=
  collect (fun e => compile_rule e (me_source e) (me_has e) (me_missing e)) entries.

(** [matcher_matches] *)
Fixpoint matcher_matches (entries : list (Compiled MatcherEntry)) (request : RuleRequest) : option bool :=
  match entries with
  | [] => Some false
  | e :: rest =>
      matched ← match_rule e request;
      match matched with Some _ => Some true | None => matcher_matches rest request end
  end.

Record RouteRules := mkRules {
  headers : list (Compiled HeaderRule);
  redirects : list (Compiled RedirectRule);
  before_files : list (Compiled RewriteRule);
  after_files : list (Compiled RewriteRule);
  fallback : list (Compiled RewriteRule);
}.

(** [RouteRules::compile] *)
Definition compile_rules (hs : list HeaderRule) (rs : list RedirectRule) (rewrites : RewritePhases) : RouteRules + RuleError :=
  match compile_header_rules hs with
  | inr e => inr e
  | inl hs =>
  match compile_redirect_rules rs with
  | inr e => inr e
  | inl rs =>
  match compile_rewrite_rules (ph_before_files rewrites) with
  | inr e => inr e
  | inl b =>
  match compile_rewrite_rules (ph_after_files rewrites) with
  | inr e => inr e
  | inl a =>
  match compile_rewrite_rules (ph_fallback rewrites) with
  | inr e => inr e
  | inl f => inl (mkRules hs rs b a f)
  end end end end end.

Definition is_nil {A} (l : list A) : bool := match l with [] => true | _ => false end.

(** [RouteRules::is_empty] *)
Definition rules_is_empty (r : RouteRules) : bool :=
  is_nil (headers r) && is_nil (redirects r) && is_nil (before_files r) && is_nil (after_files r) && is_nil (fallback r).

(** [CompiledProxy]: [None] runs the handler on every request. *)
Record CompiledProxy := mkProxy { matcher : option (list (Compiled MatcherEntry)) }.

(** [CompiledProxy::compile] *)
Definition compile_proxy (config : ProxyConfig) : CompiledProxy + RuleError :=
  match pc_matcher config with
  | None => inl (mkProxy None)
  | Some entries => match compile_matcher entries with inr e => inr e | inl m => inl (mkProxy (Some m)) end
  end.

(** [CompiledProxy::wants] *)
Definition proxy_wants (p : CompiledProxy) (request : RuleRequest) : option bool :=
  match matcher p with
  | None => Some true
  | Some entries => matcher_matches entries request
  end.

(** *** What the header rules set *)

Definition written (params : RuleParams) (h : HeaderEntry) : string * string :=
  (substitute (he_key h) params, substitute (he_value h) params).

(** Every header the matching rules write, in the order they are written. *)
Fixpoint written_headers (rules : list (Compiled HeaderRule)) (request : RuleRequest) : option (list (string * string)) :=
  match rules with
  | [] => Some []
  | r :: rest =>
      matched ← match_rule r request;
      later ← written_headers rest request;
      Some (match matched with None => later | Some params => (written params <$> hr_headers (rule r)) ++ later end)
  end.
End engine.
Arguments mkRule {Regex R}.
Arguments rule {Regex R}.
Arguments compiled {Regex R}.
Arguments has {Regex R}.
Arguments missing {Regex R}.

(** Each name once, in the order of their first appearance. *)
Definition firsts (l : list string) : list string :=
  foldl (fun acc k => if bool_decide (k ∈ acc) then acc else acc ++ [k]) [] l.

Definition lower_name (p : string * string) : string := to_ascii_lowercase p.1.

(** The last pair written under a name. *)
Definition last_written (all : list (string * string)) (k : string) : option (string * string) :=
  last (filter (fun p => lower_name p = k) all).

(** One pair per name, ignoring case: the last written, where the name first
    appeared. *)
Definition last_wins (all : list (string * string)) : list (string * string) :=
  omap (last_written all) (firsts (lower_name <$> all)).

Definition set_pair (slots : list Slot) (p : string * string) : list Slot := set_slot (lower_name p) p slots.

(** The slots after the pairs [all] were written. *)
Definition slots_of (all : list (string * string)) : list Slot :=
  omap (fun k => pair k <$> last_written all k) (firsts (lower_name <$> all)).

(** *** Groups of a pattern *)

(** The capturing groups of a regular expression whose character classes hold no
    parenthesis. *)
Fixpoint groups (s : string) : nat :=
  match s with
  | "" => 0
  | String c s' =>
      if Ascii.eqb c "\" then match s' with "" => 0 | String _ s'' => groups s'' end
      else if Ascii.eqb c "(" then
        (match s' with String d _ => if Ascii.eqb d "?" then 0 else 1 | "" => 1 end) + groups s'
      else groups s'
  end.

(** The pieces a pattern without written groups is made of. *)
Inductive PatternPiece := PLiteral (c : ascii) | PParam (slash : bool) (modifier : option ascii).

Definition piece_text (p : PatternPiece) : string :=
  match p with
  | PLiteral c => escape_regex_char c
  | PParam slash modifier => parameter_text (if slash then "\/" else "") SEGMENT modifier
  end.

Definition pieces_text (ps : list PatternPiece) : string := join "" (piece_text <$> ps).

Fixpoint parameters (ps : list PatternPiece) : nat :=
  match ps with
  | [] => 0
  | PParam _ _ :: ps' => S (parameters ps')
  | PLiteral _ :: ps' => parameters ps'
  end.

(** The pattern [/s/:q] as an engine would match the decoded path of
    [/s/%25a%C3%A9]. *)
Definition demo_rewrite : Compiled RewriteRule :=
  mkRule (mkRewriteRule "/s/:q" "/search?q=:q" [] []) (mkCompiled "/s/:q" tt ["q"]) [] [].
Definition demo_value : string := String "%" (String "a" (String "195" (String "169" ""))).
Definition demo_captures (_ : unit) (path : string) : option (list (option string)) :=
  Some [Some path; strip_prefix "/s/" path].
Definition demo_request : RuleRequest := mkRuleRequest ("/s/" +:+ demo_value) None [] None.

(** The bytes the form encoding writes. *)
Definition is_encoded (a : ascii) : bool := is_form_safe a || Ascii.eqb a "+" || Ascii.eqb a "%".

(** Every byte, for facts that hold of each. *)
Definition all_ascii : list ascii := ascii_of_nat <$> seq 0 256.

(** ** Lemmas: the form encoding *)

Lemma all_ascii_spec (f : ascii -> bool) : forallb f all_ascii = true -> forall a, f a = true.
Proof.
  intros H a. rewrite forallb_forall in H. apply H. apply list_elem_of_In, list_elem_of_fmap.
  exists (nat_of_ascii a). split; [by rewrite ascii_nat_embedding|]. apply elem_of_seq.
  pose proof (nat_ascii_bounded a). lia.
Qed.

Lemma form_encode_bytes s : all_bytes is_encoded (form_encode s) = true.
Proof.
  induction s as [|a s IH]; [done|]. cbn [form_encode]. rewrite all_bytes_sapp, IH, andb_true_r. revert a.
  apply (all_ascii_spec (fun a => all_bytes is_encoded
    (if is_form_safe a then String a "" else if Ascii.eqb a " " then "+" else percent_byte a))).
  vm_compute. reflexivity.
Qed.

Lemma is_encoded_plain a : is_encoded a = true -> is_continuation a = false /\ a <> "&"%char /\ a <> "="%char.
Proof.
  intros H. assert (implb (is_encoded a) (negb (is_continuation a) && negb (Ascii.eqb a "&") && negb (Ascii.eqb a "=")) = true) as Hi.
  { revert a H. intros a _. revert a. apply all_ascii_spec. vm_compute. reflexivity. }
  rewrite H in Hi. cbn [implb] in Hi. split_andb. rewrite negb_true_iff in *. split; [done|].
  split; intros ->; done.
Qed.

Lemma percent_decodes a : from_radix_16 (hex_upper (byte_of a / 16)) (hex_upper (byte_of a mod 16)) = Some (byte_of a).
Proof.
  assert (bool_decide (from_radix_16 (hex_upper (byte_of a / 16)) (hex_upper (byte_of a mod 16)) = Some (byte_of a)) = true) as H;
    [|by apply bool_decide_eq_true in H].
  revert a. apply all_ascii_spec. vm_compute. reflexivity.
Qed.

Lemma decode_bytes_encode s : decode_bytes (form_encode s) = Some s.
Proof.
  induction s as [|a s IH]; [done|]. cbn [form_encode].
  destruct (is_form_safe a) eqn:Hs; [|destruct (Ascii.eqb_spec a " ") as [->|Hne]].
  - change (String a "" +:+ form_encode s) with (String a (form_encode s)). cbn [decode_bytes].
    assert (Ascii.eqb a "+" = false /\ Ascii.eqb a "%" = false) as [-> ->]; [|by rewrite IH].
    split; apply Ascii.eqb_neq; intros ->; done.
  - change ("+" +:+ form_encode s) with (String "+" (form_encode s)). cbn [decode_bytes]. by rewrite IH.
  - unfold percent_byte. change (String "%" (String ?x (String ?y "")) +:+ ?t) with (String "%" (String x (String y t))).
    cbn [decode_bytes]. change (Ascii.eqb "%" "+") with false. change (Ascii.eqb "%" "%") with true. cbv iota.
    assert (match form_encode s with String b _ => is_continuation b | "" => false end = false) as ->.
    { pose proof (form_encode_bytes s) as Hb. destruct (form_encode s) as [|b t]; [done|]. cbn [all_bytes] in Hb. split_andb.
      by apply is_encoded_plain. }
    rewrite percent_decodes, IH. cbn [fmap option_fmap option_map]. unfold byte_of. by rewrite ascii_N_embedding.
Qed.

Lemma form_encode_no c s : is_encoded c = false -> has_char c (form_encode s) = false.
Proof. intros Hc. apply (all_bytes_has_char is_encoded); [apply form_encode_bytes|done]. Qed.

Lemma form_decode_encode s : is_utf8 s -> form_decode (form_encode s) = Some s.
Proof. intros Hs. unfold form_decode. rewrite decode_bytes_encode. cbn. by rewrite Hs. Qed.

Lemma sequence_Some {A} (l : list A) : sequence (Some <$> l) = Some l.
Proof. induction l as [|x l IH]; [done|]. cbn [fmap list_fmap sequence]. by rewrite IH. Qed.

Lemma parse_pair_encoded k v :
  is_utf8 k -> is_utf8 v -> parse_pair (form_encode k +:+ "=" +:+ form_encode v) = Some (k, v).
Proof.
  intros Hk Hv. unfold parse_pair. change ("=" +:+ ?t) with (String "=" t).
  rewrite split_once_app by by apply form_encode_no. cbn [from_option id]. by rewrite !form_decode_encode.
Qed.

(** ** Theorems: queries *)

(** [parse_query] inverts [serialize_query]: any list of pairs of Rust strings,
    with any characters, repeated or empty keys included, comes back as it
    was, in its order. *)
Theorem query_roundtrip pairs :
  Forall (fun p => is_utf8 p.1 /\ is_utf8 p.2) pairs -> parse_query (serialize_query pairs) = Some pairs.
Proof.
  intros Hp. unfold parse_query, serialize_query. destruct pairs as [|p0 rest]; [done|]. set (pairs := p0 :: rest) in *.
  rewrite (split_char_join "&").
  - rewrite filter_id.
    + rewrite <- list_fmap_compose, <- sequence_Some. f_equal.
      apply Forall_fmap_ext. eapply Forall_impl; [exact Hp|]. intros [k v] [Hk Hv]. by apply parse_pair_encoded.
    + apply Forall_fmap, Forall_true. intros [k v]. cbn. by destruct (form_encode k).
  - done.
  - apply Forall_fmap, Forall_true. intros [k v]. unfold compose. by rewrite !has_char_sapp, !form_encode_no.
Qed.

Lemma query_roundtrip_witness :
  parse_query (serialize_query [("q", "a b&c=100%"); ("", ""); ("q", String "195" (String "169" ""))]) =
    Some [("q", "a b&c=100%"); ("", ""); ("q", String "195" (String "169" ""))].
Proof.
  apply (query_roundtrip [("q", "a b&c=100%"); ("", ""); ("q", String "195" (String "169" ""))]).
  repeat (apply Forall_cons; split; [split; reflexivity|]). apply Forall_nil_2.
Defined.

(** ** Lemmas: header rules *)

Lemma firsts_snoc l k : firsts (l ++ [k]) = if bool_decide (k ∈ firsts l) then firsts l else firsts l ++ [k].
Proof. unfold firsts. by rewrite foldl_app. Qed.

Lemma firsts_spec l : NoDup (firsts l) /\ forall k, k ∈ firsts l <-> k ∈ l.
Proof.
  induction l as [|k l [IH1 IH2]] using rev_ind; [split; [apply NoDup_nil_2|done]|]. rewrite firsts_snoc.
  destruct (bool_decide_reflect (k ∈ firsts l)) as [Hk|Hk].
  - split; [done|]. set_solver.
  - split; [|set_solver]. apply NoDup_app. split_and!; [done|set_solver|apply NoDup_singleton].
Qed.

Lemma last_written_snoc all p k :
  last_written (all ++ [p]) k = if decide (k = lower_name p) then Some p else last_written all k.
Proof.
  unfold last_written. rewrite filter_app, filter_cons. destruct (decide (k = lower_name p)) as [->|Hne].
  - rewrite decide_True by done. apply last_snoc.
  - rewrite decide_False by congruence. by rewrite app_nil_r.
Qed.

Lemma last_written_some all k : k ∈ lower_name <$> all -> is_Some (last_written all k).
Proof.
  induction all as [|p all IH] using rev_ind; [by intros ?%elem_of_nil|]. rewrite last_written_snoc.
  destruct (decide _) as [|Hne]; [done|]. rewrite fmap_app, elem_of_app. intros [H|H]; [by apply IH|].
  by apply list_elem_of_singleton in H.
Qed.

Lemma set_slot_omap k p f l :
  NoDup l -> (forall x, x ∈ l -> is_Some (f x)) ->
  set_slot k p (omap (fun x => pair x <$> f x) l) =
    omap (fun x => pair x <$> (if decide (x = k) then Some p else f x)) (if bool_decide (k ∈ l) then l else l ++ [k]).
Proof.
  induction l as [|x l IH]; intros Hn Hf.
  { rewrite bool_decide_false by apply not_elem_of_nil. cbn [omap list_omap app]. by rewrite decide_True. }
  apply NoDup_cons in Hn as [Hx Hn]. destruct (Hf x ltac:(by left)) as [v Hv].
  change (omap (fun x => pair x <$> f x) (x :: l)) with
    (match pair x <$> f x with Some y => y :: omap (fun x => pair x <$> f x) l | None => omap (fun x => pair x <$> f x) l end).
  rewrite Hv. cbn [fmap option_fmap option_map set_slot]. destruct (String.eqb_spec x k) as [->|Hne].
  - rewrite bool_decide_true by by left. cbn [omap list_omap]. rewrite decide_True by done. cbn [fmap option_fmap option_map].
    f_equal. apply omap_ext_in. intros y Hy. rewrite decide_False; [done|]. by intros ->.
  - rewrite IH by (done || intros y Hy; apply Hf; by right).
    assert ((if bool_decide (k ∈ x :: l) then x :: l else (x :: l) ++ [k]) = x :: (if bool_decide (k ∈ l) then l else l ++ [k])) as ->.
    { rewrite (bool_decide_ext (k ∈ x :: l) (k ∈ l)) by set_solver. by destruct (bool_decide (k ∈ l)). }
    cbn [omap list_omap]. rewrite decide_False by done. rewrite Hv. done.
Qed.

Lemma slots_of_snoc all p : slots_of (all ++ [p]) = set_pair (slots_of all) p.
Proof.
  unfold set_pair, slots_of. destruct (firsts_spec (lower_name <$> all)) as [Hn Hin].
  rewrite set_slot_omap; [|done|intros x Hx; by apply last_written_some, Hin].
  rewrite fmap_app. cbn [fmap list_fmap]. rewrite firsts_snoc.
  apply omap_ext_in. intros x _. by rewrite last_written_snoc.
Qed.

Lemma foldl_set_pair all : foldl set_pair [] all = slots_of all.
Proof.
  induction all as [|p all IH] using rev_ind; [done|]. by rewrite foldl_app, IH, slots_of_snoc.
Qed.

Lemma slots_of_last_wins all : snd <$> slots_of all = last_wins all.
Proof.
  unfold slots_of, last_wins. induction (firsts (lower_name <$> all)) as [|k l IH]; [done|].
  cbn [omap list_omap]. destruct (last_written all k); cbn [fmap option_fmap option_map list_fmap]; [f_equal|]; exact IH.
Qed.

Section engine_lemmas.
Context {Regex : Type} (captures : Regex -> string -> option (list (option string)))
  (capture_names : Regex -> list (option string)).

Lemma header_loop_written rules request slots :
  header_loop captures capture_names rules request slots =
    (fun all => foldl set_pair slots all) <$> written_headers captures capture_names rules request.
Proof.
  revert slots. induction rules as [|r rules IH]; intros slots; [done|]. cbn [header_loop written_headers].
  destruct (match_rule captures capture_names r request) as [[params|]|]; [| |done]; cbn [mbind option_bind]; rewrite IH;
    destruct (written_headers captures capture_names rules request); cbn [mbind option_bind fmap option_fmap option_map]; [|done..].
  f_equal. rewrite foldl_app. f_equal. generalize (hr_headers (rule r)) as hs. clear. intros hs. revert slots.
  induction hs as [|h hs IH]; intros slots; [done|]. cbn [foldl fmap list_fmap]. apply IH.
Qed.

(** The headers of the matching rules: of all the pairs they write, one per
    name, ignoring case, is set: the last one written, in the place where the
    name was first written, its parameters substituted.  The answer panics
    only when reading a rule's conditions does. *)
Theorem header_rules_last_wins rules request :
  apply_header_rules captures capture_names rules request =
    last_wins <$> written_headers captures capture_names rules request.
Proof.
  unfold apply_header_rules. rewrite header_loop_written.
  destruct (written_headers captures capture_names rules request) as [all|]; [|done].
  cbn [fmap option_fmap option_map]. by rewrite foldl_set_pair, slots_of_last_wins.
Qed.
End engine_lemmas.

(** ** Lemmas: patterns *)

Lemma join_nil_app l1 l2 : join "" (l1 ++ l2) = join "" l1 +:+ join "" l2.
Proof.
  induction l1 as [|s l1 IH]; [done|]. cbn [app]. destruct l1 as [|t l1].
  - cbn [app join]. destruct l2; cbn [join]; by rewrite ?sapp_nil_r.
  - change (join "" (s :: (t :: l1) ++ l2)) with (s +:+ "" +:+ join "" ((t :: l1) ++ l2)).
    change (join "" (s :: t :: l1)) with (s +:+ "" +:+ join "" (t :: l1)). rewrite IH. by rewrite !sapp_assoc.
Qed.

Lemma pieces_text_app ps qs : pieces_text (ps ++ qs) = pieces_text ps +:+ pieces_text qs.
Proof. unfold pieces_text. by rewrite fmap_app, join_nil_app. Qed.

Lemma parameters_app ps qs : parameters (ps ++ qs) = parameters ps + parameters qs.
Proof. induction ps as [|[c|b m] ps IH]; cbn [app parameters]; lia. Qed.

Lemma groups_literal c t : groups (escape_regex_char c +:+ t) = groups t.
Proof.
  unfold escape_regex_char. destruct (is_special c) eqn:Hs; [done|].
  change (groups (String c t) = groups t). cbn [groups].
  assert (Ascii.eqb c "\" = false /\ Ascii.eqb c "(" = false) as [-> ->]; [|done].
  split; apply Ascii.eqb_neq; intros ->; done.
Qed.

Lemma groups_param b m t : groups (piece_text (PParam b m) +:+ t) = S (groups t).
Proof.
  destruct b, m as [a|]; cbn [piece_text]; unfold parameter_text; [destruct (Ascii.eqb a "+"), (Ascii.eqb a "*")| |
    destruct (Ascii.eqb a "+"), (Ascii.eqb a "*")|]; rewrite ?sapp_assoc; reflexivity.
Qed.

Lemma groups_pieces ps : groups (pieces_text ps) = parameters ps.
Proof.
  induction ps as [|p ps IH]; [done|]. change (p :: ps) with ([p] ++ ps). rewrite pieces_text_app, parameters_app.
  unfold pieces_text at 1. cbn [fmap list_fmap join]. destruct p as [c|b m].
  - cbn [piece_text]. by rewrite groups_literal, IH.
  - by rewrite groups_param, IH.
Qed.

Lemma strip_suffix_app p s : strip_suffix p (s +:+ p) = Some s.
Proof. unfold strip_suffix. rewrite srev_sapp, strip_prefix_app. cbn. by rewrite srev_involutive. Qed.

Lemma take_slash_other p c : c <> "/"%char -> take_slash (p +:+ String c "") = (p +:+ String c "", "").
Proof.
  intros Hc. unfold take_slash, strip_suffix. rewrite srev_sapp. change (srev "\/") with "/\".
  change (srev (String c "") +:+ srev p) with (String c (srev p)). cbn [strip_prefix].
  destruct (Ascii.eqb_spec "/" c) as [<-|]; [done|]. done.
Qed.

Lemma ends_app a s c : (exists q, s = q +:+ String c "") -> exists q, a +:+ s = q +:+ String c "".
Proof. intros [q ->]. exists (a +:+ q). by rewrite sapp_assoc. Qed.

Lemma piece_ends p : p = PLiteral "/" \/ exists c, c <> "/"%char /\ exists q, piece_text p = q +:+ String c "".
Proof.
  destruct p as [c|b m]; cbn [piece_text].
  - destruct (Ascii.eqb_spec c "/") as [->|Hc]; [by left|]. right. exists c. split; [done|]. unfold escape_regex_char.
    destruct (is_special c); [by exists "\"|by exists ""].
  - right. unfold parameter_text. destruct m as [a|].
    + destruct (Ascii.eqb a "+"); [|destruct (Ascii.eqb a "*")].
      * exists ")"%char. split; [done|]. do 3 apply ends_app. by exists "".
      * exists "?"%char. split; [done|]. do 4 apply ends_app. by exists "))".
      * exists "?"%char. split; [done|]. do 4 apply ends_app. by exists "))".
    + exists ")"%char. split; [done|]. do 3 apply ends_app. by exists "".
Qed.

Lemma take_slash_pieces ps :
  exists ps' b, take_slash (pieces_text ps) = (pieces_text ps', if b : bool then "\/" else "") /\ parameters ps' = parameters ps.
Proof.
  induction ps as [|p ps _] using rev_ind; [by exists [], false|]. rewrite pieces_text_app, parameters_app.
  change (pieces_text [p]) with (piece_text p). destruct (piece_ends p) as [->|(c & Hc & q & Hp)].
  - exists ps, true. unfold take_slash. change (piece_text (PLiteral "/")) with "\/". rewrite strip_suffix_app.
    split; [done|]. cbn [parameters]. lia.
  - exists (ps ++ [p]), false. rewrite Hp, <- sapp_assoc, take_slash_other, sapp_assoc, <- Hp by done.
    rewrite pieces_text_app, parameters_app. done.
Qed.

Lemma span_word_no c s : is_word c = false -> has_char c (span_word s).2 = true -> has_char c s = true.
Proof.
  intros Hc. induction s as [|a s IH]; [done|]. cbn [span_word]. destruct (is_word a); [|done].
  destruct (span_word s) as [w rest]. cbn [snd has_char] in *. intros H. by rewrite IH, orb_true_r.
Qed.

Lemma take_modifier_no c s : has_char c (take_modifier s).2 = true -> has_char c s = true.
Proof.
  destruct s as [|a s]; [done|]. cbn [take_modifier]. destruct (is_modifier a); [|done]. cbn [snd has_char].
  intros ->. apply orb_true_r.
Qed.

(** Without a written group, the loop only adds pieces: a parameter each time it
    adds a name. *)
Lemma compile_loop_pieces fuel : forall source rest ps names unnamed pattern names',
  has_char "(" rest = false -> compile_loop fuel source rest (pieces_text ps) names unnamed = inl (pattern, names') ->
  exists ps', pattern = pieces_text ps' /\ parameters ps' + length names = parameters ps + length names'.
Proof.
  induction fuel as [|fuel IH]; intros source rest ps names unnamed pattern names' Hg H.
  { destruct rest; cbn [compile_loop] in H; injection H as <- <-; by exists ps. }
  destruct rest as [|c after]; cbn [compile_loop] in H; [injection H as <- <-; by exists ps|].
  cbn [has_char] in Hg. apply orb_false_iff in Hg as [Hc Hg]. rewrite Hc, orb_false_r in H.
  assert (forall d after', has_char "(" after' = false ->
    compile_loop fuel source after' (pieces_text ps +:+ escape_regex_char d) names unnamed = inl (pattern, names') ->
    exists ps', pattern = pieces_text ps' /\ parameters ps' + length names = parameters ps + length names') as Hlit.
  { intros d after' Hg' H'. change (escape_regex_char d) with (pieces_text [PLiteral d]) in H'. rewrite <- pieces_text_app in H'.
    apply IH in H' as (ps' & -> & Hl); [|done]. exists ps'. split; [done|]. rewrite parameters_app in Hl. cbn [parameters] in Hl. lia. }
  destruct (Ascii.eqb c "\").
  { destruct after as [|d after']; [done|]. cbn [has_char] in Hg. apply orb_false_iff in Hg as [_ Hg]. by apply (Hlit d after'). }
  destruct (Ascii.eqb c ":"); [|by apply (Hlit c after)]. clear Hlit.
  destruct (take_slash_pieces ps) as (ps1 & b & Hts & Hps). rewrite Hts in H.
  pose proof (span_word_no "(" after eq_refl) as Hsp. destruct (span_word after) as [name rest'] eqn:Esp. cbn [snd] in Hsp.
  cbn [andb] in H. destruct (is_empty_str name); [done|].
  assert (has_char "(" rest' = false) as Hr'.
  { destruct (has_char "(" rest'); [|done]. by rewrite Hsp in Hg. }
  assert (parse_capture source rest' = inl (SEGMENT, rest')) as Hpc.
  { unfold parse_capture. destruct rest' as [|a r]; [done|]. cbn [starts_with has_char] in *. apply orb_false_iff in Hr' as [Ha _].
    rewrite Ascii.eqb_sym in Ha. by rewrite Ha. }
  rewrite Hpc in H. pose proof (take_modifier_no "(" rest') as Htm. destruct (take_modifier rest') as [modifier rest''] eqn:Em.
  cbn [snd] in Htm.
  assert (parameter_text (if b then "\/" else "") SEGMENT modifier = pieces_text [PParam b modifier]) as Ht by done.
  rewrite Ht, <- pieces_text_app in H. apply IH in H as (ps' & -> & Hl).
  - exists ps'. split; [done|]. rewrite parameters_app, length_app in Hl. cbn [parameters length] in Hl. lia.
  - destruct (has_char "(" rest''); [|done]. by rewrite Htm in Hr'.
Qed.

Lemma span_word_length s : String.length (span_word s).2 <= String.length s.
Proof.
  induction s as [|a s IH]; [done|]. cbn [span_word]. destruct (is_word a); [|done].
  destruct (span_word s) as [w rest]. cbn [snd String.length] in *. lia.
Qed.

Lemma take_modifier_length s : String.length (take_modifier s).2 <= String.length s.
Proof. destruct s as [|a s]; [done|]. cbn [take_modifier]. destruct (is_modifier a); cbn [snd String.length]; lia. Qed.

Lemma drop_str_length n s : String.length (drop_str n s) <= String.length s.
Proof. revert s. induction n as [|n IH]; intros [|a s]; cbn [drop_str String.length]; [lia..|]. specialize (IH s). lia. Qed.

Lemma parse_capture_length source rest capture rest' :
  parse_capture source rest = inl (capture, rest') ->
  String.length rest' <= String.length rest /\ (starts_with "(" rest = true -> String.length rest' < String.length rest).
Proof.
  unfold parse_capture. destruct (starts_with "(" rest) eqn:Hs; [|by intros [= <- <-]].
  destruct (matching_paren rest) as [last|]; [|done]. destruct (is_empty_str _); [done|]. intros [= _ <-].
  destruct rest as [|a rest]; [done|]. cbn [drop_str String.length]. pose proof (drop_str_length last rest). lia.
Qed.

(** The loop never runs out of fuel: any amount that covers the text gives the
    same answer. *)
Lemma compile_loop_fuel f1 : forall f2 source rest pattern names unnamed,
  String.length rest <= f1 -> String.length rest <= f2 ->
  compile_loop f1 source rest pattern names unnamed = compile_loop f2 source rest pattern names unnamed.
Proof.
  induction f1 as [|f1 IH]; intros f2 source rest pattern names unnamed H1 H2.
  { destruct rest; [|cbn in H1; lia]. by destruct f2. }
  destruct rest as [|c after]; [by destruct f2|]. destruct f2 as [|f2]; [cbn in H2; lia|].
  cbn [String.length] in H1, H2. cbn [compile_loop]. destruct (Ascii.eqb c "\").
  { destruct after as [|d after']; [done|]. cbn [String.length] in *. apply IH; lia. }
  destruct (Ascii.eqb c ":" || Ascii.eqb c "(") eqn:Hc; [|apply IH; lia].
  destruct (take_slash pattern) as [pattern' prefix].
  destruct (if Ascii.eqb c ":" then span_word after else ("", String c after)) as [name rest'] eqn:Er.
  destruct (Ascii.eqb c ":" && is_empty_str name); [done|].
  destruct (parse_capture source rest') as [[capture rest'']|e] eqn:Ep; [|done].
  destruct (take_modifier rest'') as [modifier rest'''] eqn:Em.
  apply parse_capture_length in Ep as [Hle Hlt].
  assert (String.length rest''' <= String.length after) as Hlen.
  { pose proof (take_modifier_length rest'') as Hm. rewrite Em in Hm. cbn [snd] in Hm.
    destruct (Ascii.eqb_spec c ":") as [->|Hne].
    - pose proof (span_word_length after) as Hw. rewrite Er in Hw. cbn [snd] in Hw. lia.
    - injection Er as _ <-. assert (c = "("%char) as -> by by apply Ascii.eqb_eq.
      specialize (Hlt eq_refl). cbn [String.length] in Hlt. lia. }
  apply IH; lia.
Qed.

(** ** Theorems: patterns *)

(** The names of a pattern without written groups are its groups: [matches]
    binds the [i]-th name to the [i]-th capturing group, and the compiled text
    has exactly one capturing group for each name, in any mix of plain,
    repeated and optional parameters and escapes.  Compiling reads the whole
    source: any more fuel gives the same answer. *)
Theorem pattern_groups_are_its_names source :
  has_char "(" source = false ->
  (forall fuel, String.length source <= fuel -> compile_loop fuel source source "" [] 0 = source_pattern source) /\
  (forall pattern names, source_pattern source = inl (pattern, names) -> groups pattern = length names).
Proof.
  intros Hg. split; [intros fuel Hf; by apply compile_loop_fuel|]. intros pattern names H.
  destruct (compile_loop_pieces _ source source [] [] 0%N pattern names Hg H) as (ps & -> & Hl).
  rewrite groups_pieces. cbn [length parameters] in Hl. lia.
Qed.

Lemma pattern_groups_witness :
  source_pattern "/shop/:cat?/:path*" = inl ("\/shop(?:\/([^/]+))?(?:\/((?:[^/]+)(?:/(?:[^/]+))*))?", ["cat"; "path"]) /\
  groups "\/shop(?:\/([^/]+))?(?:\/((?:[^/]+)(?:/(?:[^/]+))*))?" = 2.
Proof.
  split; [reflexivity|].
  apply (proj2 (pattern_groups_are_its_names "/shop/:cat?/:path*" eq_refl) _ ["cat"; "path"]). reflexivity.
Defined.

(** A group written inside a parameter's capture shifts the positions: the pattern
    has more groups than names, and the name after it is bound to the inner
    group; a capture that starts with [?:] has none of its own. *)
Lemma written_groups_shift_names :
  source_pattern "/:kind(a(b)c)/:id" = inl ("\/(a(b)c)\/([^/]+)", ["kind"; "id"]) /\ groups "\/(a(b)c)\/([^/]+)" = 3 /\
  source_pattern "/(?:a)/:id" = inl ("\/(?:a)\/([^/]+)", ["0"; "id"]) /\ groups "\/(?:a)\/([^/]+)" = 1.
Proof. by vm_compute. Qed.

(** ** Theorems: a panic *)

(** A [%] followed by one byte and then the first byte of a longer character makes
    the slice of [form_decode] end inside that character, which panics. *)
Lemma form_decode_panics h b1 b2 rest : is_continuation b2 = true -> form_decode (String "%" (String h (String b1 (String b2 rest)))) = None.
Proof. intros Hb. unfold form_decode. cbn [decode_bytes]. rewrite Hb. done. Qed.

Section rewrite_panic.
Context {Regex : Type} (captures : Regex -> string -> option (list (option string)))
  (capture_names : Regex -> list (option string)).

(** A request can make a rewrite panic.  A path parameter is the decoded text
    of the path; a rule that puts it in the target's query parses that text as
    a form, and [form_decode] slices it by bytes: a parameter holding a percent
    sign, one byte and then a longer character panics instead of answering. *)
Theorem rewrite_query_parameter_panics (r : Compiled RewriteRule) rules request params h b1 b2 rest :
  rw_destination (rule r) = "/search?q=:q" ->
  match_rule captures capture_names r request = Some (Some params) ->
  params !! "q" = Some (String "%" (String h (String b1 (String b2 rest)))) ->
  has_char "&" (String h (String b1 (String b2 rest))) = false ->
  is_continuation b2 = true ->
  match_rewrite captures capture_names (r :: rules) request = None.
Proof.
  intros Hd Hm Hq Hamp Hb. cbn [match_rewrite]. rewrite Hm. cbn [mbind option_bind]. unfold rewrite_to, rewrite_pairs.
  rewrite Hd. change (split_destination "/search?q=:q") with ("/search", Some "q=:q"). cbn [snd].
  assert (substitute "q=:q" params = "q=" +:+ String "%" (String h (String b1 (String b2 rest)))) as ->.
  { change (substitute "q=:q" params) with ("q=" +:+ (default "" (params !! "q") +:+ "")). by rewrite Hq, sapp_nil_r. }
  unfold parse_query. rewrite split_char_none by by rewrite has_char_sapp.
  rewrite filter_cons_True by done. cbn [filter list_filter fmap list_fmap sequence].
  unfold parse_pair. change ("q=" +:+ ?t) with ("q" +:+ String "=" t). rewrite split_once_app by done. cbn [from_option id].
  change (form_decode "q") with (Some "q"). cbn [mbind option_bind]. by rewrite form_decode_panics.
Qed.
End rewrite_panic.

Lemma rewrite_panic_witness : match_rewrite demo_captures (fun _ => []) [demo_rewrite] demo_request = None.
Proof.
  apply (rewrite_query_parameter_panics demo_captures (fun _ => []) demo_rewrite [] demo_request {["q" := demo_value]} "a" "195" "169" "");
    vm_compute; reflexivity.
Defined.
